(* ===== verification/_CoqProject ===== *)
-Q . S2P
Prelude.v
Bitfield.v
Intmath.v
SatCounter.v
EventQueue.v
EventLoop.v
Phast.v
StoreSet.v
MemDepUnit.v
AddrRange.v
Ras.v
DirPred.v
Btb.v
Indirect.v
TageHist.v
Tage.v
TageSpec.v
BPredUnit.v
RenameMap.v
RenameRegs.v
Rename.v
Rob.v
CircularQueue.v
Lsq.v
LsqInv.v
LsqOps.v
LsqWb.v
LsqSquash.v
LsqExec.v
LsqRun.v
LsqSpec.v
FUPool.v
DepGraph.v
ReadyList.v
InstQueue.v
InstQueueInv.v
IQMemDep.v
InstQueueOps.v
InstQueueIssue.v
InstQueueSquash.v
InstQueueRun.v
InstQueueSpec.v
