(* ===== verification/Prelude.v ===== *)
(** * A verification library for the gem5 simulator core

    gem5 is an event-driven simulator of computer systems.  This library models
    parts of its C++ sources (all paths below are relative to [src/gem5/src]) as
    Rocq functions and proves what makes them correct.

    ** The parts and how they interact

    The event queue ([sim/eventq.hh], [sim/eventq.cc]) is the clock of a simulation:
    objects schedule events and the loop runs them by time and priority.  The
    out-of-order CPU ([cpu/o3]) predicts branches, renames registers and orders
    memory accesses speculatively.  Its branch prediction unit
    ([cpu/pred/bpred_unit.cc]) drives a direction predictor, a branch target
    buffer, a return address stack and an indirect predictor; its rename stage
    ([cpu/o3/rename.cc]) gives physical registers to instructions and takes them
    back; its instruction queue ([cpu/o3/inst_queue.cc]) keeps renamed instructions until
    their operands arrive, with a dependency graph ([cpu/o3/dep_graph.hh]), and issues the
    oldest ones to the functional units ([cpu/o3/fu_pool.cc]); its memory dependence unit
    ([cpu/o3/mem_dep_unit.cc]) holds back loads and stores, with the predictions of
    PHAST ([cpu/o3/phast.cc]) or of store sets ([cpu/o3/store_set.cc]), and tells the
    instruction queue when they may go; its load/store queue ([cpu/o3/lsq_unit.cc], over
    the circular queue of [base/circular_queue.hh]) executes them, forwards the data of
    stores to loads, reports loads that went too early and writes committed stores to
    memory; its reorder buffer ([cpu/o3/rob.cc]) keeps
    instructions in program order until commit ([cpu/o3/commit.cc]) retires or squashes
    them.  Address ranges ([base/addr_range.hh]) route accesses in
    the memory system.  Saturating counters, bit fields and integer helpers
    ([base]) serve all of them.

    ** Files

    - [Prelude.v] (this file): machine integers, the error monad [res], tactics, and
      the lemmas on lists, options and bits that the other files share.
    - [Bitfield.v]: [base/bitfield.hh], [base/bitfield.cc], one definition per function.
    - [Intmath.v]: [base/intmath.hh], one definition per function.
    - [SatCounter.v]: [GenericSatCounter] of [base/sat_counter.hh]; the record is the
      object and every operator a function on it.
    - [EventQueue.v]: [Event] and the lists of [EventQueue].  Events live in a heap and
      [insert] and [remove] follow and write the pointers of the source; Module
      [Flags] is [base/flags.hh].
    - [EventLoop.v]: [schedule], [deschedule], [reschedule], [serviceOne],
      [serviceEvents], asynchronous insertion, [debugVerify], checkpoints.  [world] is
      the queue, the heap and the state of the handlers.
    - [Phast.v]: [PHAST] and its tables [SimplBlockCache].
    - [StoreSet.v]: [StoreSet].
    - [MemDepUnit.v]: [MemDepUnit]; the shared [MemDepEntry] objects are a heap.
    - [AddrRange.v]: [AddrRange] and its free functions.
    - [Ras.v]: [ReturnAddrStack]; Module [AddrStack] is the circular stack of a thread.
    - [DirPred.v]: the interface of direction predictors as the class [DirPred] with
      its laws, and instances for [2bit_local], [tournament] and [bi_mode] (Modules
      [Local], [Tournament], [BiMode]).
    - [Btb.v], [Indirect.v]: the classes [BranchTargetBuffer] and [IndirectPredictor]
      with their laws, and the implementations [SimpleBTB] and [SimpleIndirect].
    - [TageHist.v]: the histories of [TAGEBase] ([cpu/pred/tage_base.cc]): the global
      history buffer, the folded histories, what a branch saves; [Tage.v]: its tables,
      prediction and update, and [TAGE] ([cpu/pred/tage.cc]); [TageSpec.v]: the theorems.
    - [BPredUnit.v]: [BPredUnit], proved against these interfaces.
    - [RenameMap.v]: physical registers, free lists, rename maps, the scoreboard, and
      their set-up in the constructor of [cpu/o3/cpu.cc].
    - [RenameRegs.v]: renaming operands, the history buffer, squash and commit.
    - [Rename.v]: the rename stage, cycle by cycle: queues, status, signals, [tick].
    - [Rob.v]: [ROB] over a heap of shared instructions; Module [Commit] holds what
      drives it in [cpu/o3/commit.cc]: [getInsts], the squashes that IEW asks for and
      their continuation in [tick].
    - [CircularQueue.v]: [CircularQueue], its indices and iterators.
    - [Lsq.v]: [LSQUnit], one definition per method, over a heap of shared instructions;
      what it asks of the other stages, the ISA and the cache is a log, what they answer an
      argument.  [LsqInv.v]: the invariant, with both queues as lists; [LsqOps.v]
      (insertion, commit), [LsqWb.v] (write-back and completion), [LsqSquash.v],
      [LsqExec.v] and [LsqRun.v] (execution of loads and stores): each operation succeeds
      and keeps it; [LsqSpec.v]: the unit as a state machine, and the theorems.
    - [FUPool.v]: [FUPool] with [FuncUnit] and the descriptions of units.
    - [DepGraph.v]: [DependencyGraph], linked lists over a heap of nodes.
    - [ReadyList.v]: the ready queues of [InstructionQueue] and their age order; an
      iterator is the identity of a list node.
    - [InstQueue.v]: [InstructionQueue], one definition per method, over a heap of shared
      instructions; what it needs of the memory dependence unit is the class [MemDep].
    - [InstQueueInv.v]: the laws [MemDepLaws] of that interface and the invariant of the
      queue; [IQMemDep.v]: the unit of [MemDepUnit.v] as an instance of both classes.
    - [InstQueueOps.v] (insertion and completion), [InstQueueIssue.v] (selection),
      [InstQueueSquash.v], [InstQueueRun.v] (the rest, and the queue as a state machine):
      each operation succeeds and keeps the invariant; [InstQueueSpec.v]: the theorems.

    ** Conventions

    A [w]-bit integer is a [Z] with its wrap-around written out ([wrap], [swrap]).
    An operation that can fail returns [res]: [AssertFailed] for [assert],
    [Panicked] for [panic], [Fatal] for [fatal], [NullDeref] for a null or dangling
    pointer, [OutOfRange] for an index outside of a vector, [Undefined] for an operation
    C++ gives no meaning to, [OutOfFuel] for a loop that is cut off.  Thus a theorem that an operation returns [Ok] also states that none of
    these happens.  Virtual functions, the ISA, random numbers and the other stages
    of the pipeline are parameters or arguments.

    ** What the theorems show

    - Events: the pointer code of [insert] and [remove] refines insertion into and
      removal from a sorted list of bins; the scheduling operations keep the
      invariant of the queue; [serviceEvents] runs the due events in order, whatever its
      handlers schedule.
    - Branch prediction, for parts that meet the interface laws: no call sequence of any
      number of threads fails; a squash leaves no trace of the
      wrong path in the histories and the return stack; the repair of a
      misprediction ends where a right prediction would have; the parts refine or
      recall what they store.
    - TAGE: the folded histories, updated bit by bit, are the folds of the latest
      outcomes, across roll-overs of the buffer and repaired mispredictions, and no call
      fails; the longest matching history predicts; a misprediction teaches a longer one.
      The laws of [DirPred.v] do not hold for it: [TAGE::squash] does not restore the
      histories, which only the correction of a misprediction does.
    - Memory dependences: the unit's tables agree in every reachable state, barriers
      and predictions hold back what they should, completion wakes exactly what was
      waiting for it; the predictors learn from a violation.
    - Renaming: no physical register is ever lost or in two places, a squash restores
      the rename map exactly; a sequence of calls fails exactly when a register is pinned
      while it is still pinned.  The stage keeps program order, never fails and never
      sends more than the back end has room for, if its neighbours keep to [tick_env].
    - Instruction queue: no call fails in any reachable state and the counters are exact;
      an instruction is ready exactly when its operands have arrived; the oldest ready
      instructions that have a unit are issued; a squash takes out exactly the younger
      instructions.  These hold for every memory dependence unit with the laws of the
      interface.  The dependency graph refines lists; a functional unit is found whenever
      one is free, and is freed on time.
    - Load/store queue: no call fails in any state reached under the protocol; a load
      reads the bytes of the youngest older store that overlaps it, or waits, or goes to
      memory when there is none; a store reports the oldest load that went too early, and
      no load keeps stale data unreported; a squash is exact.  The circular queue refines
      a bounded list.
    - Reorder buffer: counters, order and head are right in every reachable state and
      no call fails; a squash that takes several cycles ends in time and marks exactly
      the younger instructions.
    - Address ranges: interleaving bits are removed and added back exactly when every mask
      has its own lowest bit, below bit 31; [exclude] and merging are the set operations.
    - Helpers: bounds, exact products, mirrored bits.
    - Some theorems state what the code does where it does not do what it means to:
      [checkpoint_drops_live_events], [commit_reads_unset_store],
      [indirect_target_misfiled], [roundtrip_at_bit31], [single_row_diverges],
      [mem_order_squash_admits_wrong_path], [mem_order_flag_leaks_to_next_thread],
      [tail_dangles_with_two_threads], [ltage_lookup_undefined].

    ** Bounds and fuel

    Loops over lists, vectors and bit positions are structural.  The traversals of
    the event queue have the number of events in the heap as fuel, which the
    invariant shows is enough ([brepr_fuel]).  [serviceEvents] takes its fuel as an
    argument, since handlers may schedule events for ever: as much as any measure that
    goes down with every event is enough.  [xorFold] gets 64 units for its 64-bit value and the
    fold of the PHAST history one per history bit, [StoreSet.squash] one per store in
    flight and one more; the theorems show that these suffice for valid parameters.  The
    loop of [ROB::doSquash] has [numInstsToSquash] units, as in the source, and
    [squash_cycles] the number of cycles.  The search for a functional unit has one unit
    per element of its circular queue, the search of a load one per older store, the loops
    over the load and store queues one per entry, the walks of the dependency graph one per node,
    and the loop of [scheduleReadyInsts] one per ready instruction and per class in the
    age order.  The queue has fewer than [2^31] entries.  The write-back loop of the load/store queue takes one
    answer of the cache per iteration and stops when there is none.  The loops of TAGE over its
    tables and buffer are counted ([for_]); its theorems ask for parameters with
    [params_ok], and for fewer outcomes in flight than the buffer holds beyond
    [2 * maxHist].  The counters of the rename stage are
    proved not to overflow when the queues have at most [2^29] entries.

    ** Not modelled

    Statistics, probes, debug output and parameters read from Python.  The other
    stages of the out-of-order pipeline (fetch, decode, execution, of the load/store queue the
    translation of addresses, the life of requests and packets and the class over the
    threads, and of commit the traps, the interrupts and the commit of an instruction), the other CPU models, the predictors
    derived from TAGE (LTAGE, TAGE-SC-L), the loop and perceptron predictors, caches, memory
    controllers and Ruby, devices, the instruction sets (largely generated), and the
    locks and host threads of parallel event queues.  The contents of registers and
    of memory play no part in the modelled code, save the bytes that stores hold.  The
    theorems of [Rename.v] are for instructions that do not pin registers, and for
    squashes back to an instruction that has left the stage; pinned writes are part
    of [RenameMap.v] and [RenameRegs.v].  The theorems on the load/store queue are for
    instructions outside of memory transactions.  Likewise the theorems on the instruction queue
    are for completing instructions whose destinations are not pinned. *)

From Stdlib Require Import ZArith Lia Bool.
From stdpp Require Import base tactics option list numbers sorting.

#[global] Set Default Goal Selector "!".
Open Scope Z_scope.

(** ** Machine integers

    A value of an unsigned C++ type of [w] bits is a [Z] in [[0, 2^w)]; every
    operation that can leave that range is wrapped explicitly.  A signed value
    is a [Z] in [[-2^(w-1), 2^(w-1))]. *)

Definition wrap (w x : Z) : Z := x mod 2 ^ w.

Definition swrap (w x : Z) : Z :=
  let u := wrap w x in if u <? 2 ^ (w - 1) then u else u - 2 ^ w.

Definition in_u (w x : Z) : Prop := 0 <= x < 2 ^ w.

Definition in_s (w x : Z) : Prop := - 2 ^ (w - 1) <= x < 2 ^ (w - 1).

(** [MaxAddr] of [base/types.hh]. *)
Definition MaxAddr : Z := wrap 64 (-1).

(** Shared by the queues of the out-of-order CPU: [MaxThreads] of [cpu/o3/limits.hh]
    and the policies for sharing a queue between threads. *)
Definition MaxThreads : nat := 4.

Inductive SMTQueuePolicy : Type := Dynamic | Partitioned | Threshold.

#[export] Instance SMTQueuePolicy_eq_dec : EqDecision SMTQueuePolicy.
Proof. solve_decision. Defined.

Declare Scope mach_scope.
Delimit Scope mach_scope with mach.
Notation "x +[ w ] y" := (wrap w (x + y)) (at level 50, left associativity) : mach_scope.
Notation "x -[ w ] y" := (wrap w (x - y)) (at level 50, left associativity) : mach_scope.
Notation "x *[ w ] y" := (wrap w (x * y)) (at level 40, left associativity) : mach_scope.
Notation "x <<[ w ] n" := (wrap w (Z.shiftl x n)) (at level 50, left associativity) : mach_scope.
Notation "~[ w ] x" := (wrap w (Z.lnot x)) (at level 35, right associativity) : mach_scope.
Open Scope mach_scope.

(** ** Outcomes of code that can stop the simulator

    [assert], [panic] and [fatal] stop the program; an operation that contains
    one returns [res].  [Undefined] is what C++ gives no meaning to: a shift by
    a count out of range, a division by zero, a read of storage never written. *)

Inductive fault : Type :=
| AssertFailed
| Panicked
| Fatal
| NullDeref
| OutOfRange
| Undefined
| OutOfFuel.

Inductive res (A : Type) : Type :=
| Ok (a : A)
| Err (f : fault).
Arguments Ok {A} a.
Arguments Err {A} f.

Definition rbind {A B} (m : res A) (k : A -> res B) : res B :=
  match m with Ok a => k a | Err f => Err f end.

Definition assert_ (b : bool) : res unit := if b then Ok tt else Err AssertFailed.

Definition deref {A} (o : option A) : res A :=
  match o with Some a => Ok a | None => Err NullDeref end.

(** [l[i]]: reading out of range is undefined in C++ and a fault here. *)
Definition nth_ {A} (l : list A) (i : nat) : res A :=
  match l !! i with Some a => Ok a | None => Err OutOfRange end.

(** [l[i] = x]. *)
Definition upd_ {A} (l : list A) (i : nat) (x : A) : res (list A) :=
  if (i <? length l)%nat then Ok (<[i := x]> l) else Err OutOfRange.

Declare Scope res_scope.
Delimit Scope res_scope with res.
Notation "'let!' x := m 'in' k" := (rbind m (fun x => k))
  (at level 10, x pattern, m at level 200, k at level 200) : res_scope.
Notation "'check!' b ; k" := (rbind (assert_ b) (fun _ => k))
  (at level 10, b at level 99, k at level 200) : res_scope.
Open Scope res_scope.

(** [l[k]] with an [int] index. *)
Definition get_ {A} (l : list A) (k : Z) : res A := if k <? 0 then Err OutOfRange else nth_ l (Z.to_nat k).

Definition set_ {A} (l : list A) (k : Z) (x : A) : res (list A) :=
  if k <? 0 then Err OutOfRange else upd_ l (Z.to_nat k) x.

(** [x << k] and [x >> k] in a type of [w] bits. *)
Definition shl_ (w x k : Z) : res Z := if (0 <=? k) && (k <? w) then Ok (x <<[w] k) else Err Undefined.

Definition shr_ (w x k : Z) : res Z := if (0 <=? k) && (k <? w) then Ok (Z.shiftr x k) else Err Undefined.

(** [(1ULL << k) - 1]. *)
Definition mask_ (k : Z) : res Z := let! m := shl_ 64 1 k in Ok (m -[64] 1).

(** [n] iterations of a loop whose counter starts at [i]. *)
Fixpoint for_ {S} (n i : nat) (body : nat -> S -> res S) (s : S) : res S :=
  match n with
  | O => Ok s
  | S n => let! s := body i s in for_ n (Datatypes.S i) body s
  end.

Definition is_ok {A} (m : res A) : bool := match m with Ok _ => true | Err _ => false end.

Lemma nth_Ok {A} (l : list A) i : (i < length l)%nat -> exists x, nth_ l i = Ok x /\ l !! i = Some x.
Proof. intros [x Hx]%lookup_lt_is_Some_2. exists x. unfold nth_. by rewrite Hx. Qed.

Lemma nth_lookup {A} (l : list A) i x : l !! i = Some x -> nth_ l i = Ok x.
Proof. unfold nth_. by intros ->. Qed.

Lemma upd_Ok {A} (l : list A) i x : (i < length l)%nat -> upd_ l i x = Ok (<[i := x]> l).
Proof. intros Hi. unfold upd_. by destruct (Nat.ltb_spec i (length l)); [|lia]. Qed.

Lemma get_Ok {A} (l : list A) k x : 0 <= k -> l !! Z.to_nat k = Some x -> get_ l k = Ok x.
Proof. intros Hk Hx. unfold get_. destruct (Z.ltb_spec k 0); [lia|]. by apply nth_lookup. Qed.

Lemma set_Ok {A} (l : list A) k x : 0 <= k < Z.of_nat (length l) -> set_ l k x = Ok (<[Z.to_nat k := x]> l).
Proof. intros Hk. unfold set_. destruct (Z.ltb_spec k 0); [lia|]. apply upd_Ok. lia. Qed.

(** A loop whose body keeps an invariant ends, with the invariant. *)
Lemma for_inv {S} (I : nat -> S -> Prop) body n : forall i s, I i s ->
  (forall j s, (i <= j < i + n)%nat -> I j s -> exists s', body j s = Ok s' /\ I (Datatypes.S j) s') ->
  exists s', for_ n i body s = Ok s' /\ I (i + n)%nat s'.
Proof.
  induction n as [|n IH]; intros i s HI Hb; cbn [for_].
  - exists s. split; [done|]. by rewrite Nat.add_0_r.
  - destruct (Hb i s) as (s1 & -> & HI1); [lia|done|]. cbn [rbind].
    destruct (IH (Datatypes.S i) s1 HI1) as (s2 & Hf & HI2); [|].
    { intros j s' Hj. apply Hb. lia. }
    exists s2. split; [done|]. by rewrite <- Nat.add_succ_comm.
Qed.

Lemma rbind_Ok {A B} (m : res A) (k : A -> res B) b :
  rbind m k = Ok b <-> exists a, m = Ok a /\ k a = Ok b.
Proof.
  destruct m as [a|f]; simpl; split.
  - eauto.
  - intros (a' & [= ->] & ?). done.
  - done.
  - by intros (a' & ? & _).
Qed.

Lemma assert_Ok b u : assert_ b = Ok u <-> b = true.
Proof. destruct b, u; simpl; split; congruence. Qed.

Lemma deref_Ok {A} (o : option A) a : deref o = Ok a <-> o = Some a.
Proof. destruct o; simpl; split; congruence. Qed.

(** ** Tactics *)

(** Turn boolean comparisons of the context and the goal into propositions. *)
Ltac b2p :=
  repeat match goal with
  | H : (_ && _)%bool = true |- _ => apply andb_true_iff in H as [? ?]
  | H : (_ && _)%bool = false |- _ => apply andb_false_iff in H
  | H : (_ || _)%bool = true |- _ => apply orb_true_iff in H
  | H : (_ || _)%bool = false |- _ => apply orb_false_iff in H as [? ?]
  | H : negb _ = true |- _ => apply negb_true_iff in H
  | H : negb _ = false |- _ => apply negb_false_iff in H
  | H : (_ <? _) = true |- _ => apply Z.ltb_lt in H
  | H : (_ <? _) = false |- _ => apply Z.ltb_ge in H
  | H : (_ <=? _) = true |- _ => apply Z.leb_le in H
  | H : (_ <=? _) = false |- _ => apply Z.leb_gt in H
  | H : (_ =? _) = true |- _ => apply Z.eqb_eq in H
  | H : (_ =? _) = false |- _ => apply Z.eqb_neq in H
  | H : (_ =? _)%nat = true |- _ => apply Nat.eqb_eq in H
  | H : (_ =? _)%nat = false |- _ => apply Nat.eqb_neq in H
  | H : (_ <? _)%nat = true |- _ => apply Nat.ltb_lt in H
  | H : (_ <? _)%nat = false |- _ => apply Nat.ltb_ge in H
  | H : (_ <=? _)%nat = true |- _ => apply Nat.leb_le in H
  | H : (_ <=? _)%nat = false |- _ => apply Nat.leb_gt in H
  end.

(** Split every [if] of the goal on a boolean. *)
Ltac case_ifs :=
  repeat match goal with
  | |- context [if ?b then _ else _] =>
      lazymatch type of b with
      | bool => let E := fresh "E" in destruct b eqn:E
      end
  end.

Ltac case_ifs_in H :=
  repeat match type of H with
  | context [if ?b then _ else _] =>
      lazymatch type of b with
      | bool => let E := fresh "E" in destruct b eqn:E
      end
  end.

(** Split the hypotheses that a computation in [res] returned [Ok]. *)
Ltac inv_res :=
  repeat match goal with
  | H : Ok _ = Ok _ |- _ => inv H
  | H : Err _ = Ok _ |- _ => discriminate H
  | H : rbind _ _ = Ok _ |- _ =>
      let a := fresh "a" in let E := fresh "E" in
      apply rbind_Ok in H as (a & E & H)
  | H : assert_ _ = Ok _ |- _ => apply assert_Ok in H
  | H : deref _ = Ok _ |- _ => apply deref_Ok in H
  end.

(** Reading after a write. *)
Lemma get_set {A} (l l' : list A) k x k' : set_ l k x = Ok l' -> 0 <= k' ->
  get_ l' k' = if k' =? k then Ok x else get_ l k'.
Proof.
  unfold set_, upd_, get_, nth_. intros H Hk'. case_ifs_in H; inv_res. b2p. destruct (Z.ltb_spec k' 0); [lia|].
  destruct (Z.eqb_spec k' k) as [->|Hne]; [by rewrite list_lookup_insert_eq by lia|by rewrite list_lookup_insert_ne by lia].
Qed.

(** ** Bit-level reasoning

    The lemmas of the database [tb] rewrite [Z.testbit] of every operator of the
    sources to boolean combinations of [Z.testbit] of its arguments. *)

Lemma wrap_spec w x i : 0 <= w ->
  Z.testbit (wrap w x) i = (i <? w) && Z.testbit x i.
Proof.
  intros Hw. unfold wrap. destruct (Z.ltb_spec i w).
  - destruct (Z.leb_spec 0 i).
    + by rewrite Z.mod_pow2_bits_low.
    + by rewrite !Z.testbit_neg_r by lia.
  - rewrite Z.mod_pow2_bits_high by lia. done.
Qed.

Lemma ones_spec n i : 0 <= n -> Z.testbit (Z.ones n) i = (0 <=? i) && (i <? n).
Proof. intros. apply Z.testbit_ones; lia. Qed.

Lemma shiftl_spec' x n i : 0 <= i -> Z.testbit (Z.shiftl x n) i = Z.testbit x (i - n).
Proof. apply Z.shiftl_spec. Qed.

Lemma shiftr_spec' x n i : 0 <= i -> Z.testbit (Z.shiftr x n) i = Z.testbit x (i + n).
Proof. apply Z.shiftr_spec. Qed.

Lemma high_bits w x i : in_u w x -> w <= i -> 0 <= w -> Z.testbit x i = false.
Proof.
  intros [? ?] ? ?. rewrite <- (Z.mod_small x (2 ^ w)) by lia.
  apply Z.mod_pow2_bits_high; lia.
Qed.

Lemma bits_ext w x y : 0 <= w -> in_u w x -> in_u w y ->
  (forall i, 0 <= i < w -> Z.testbit x i = Z.testbit y i) -> x = y.
Proof.
  intros Hw Hx Hy Heq. apply Z.bits_inj'. intros i Hi.
  destruct (Z.ltb_spec i w); [apply Heq; lia|].
  by rewrite !(high_bits w) by (done || lia).
Qed.

Create Rewrite HintDb tb.
#[export] Hint Rewrite Z.land_spec Z.lor_spec Z.lxor_spec Z.ldiff_spec Z.bits_0 : tb.
#[export] Hint Rewrite wrap_spec ones_spec shiftl_spec' shiftr_spec'
  Z.lnot_spec Z.bits_m1 using lia : tb.

(** Split on every comparison of integers that occurs in the goal. *)
Ltac case_cmp :=
  repeat match goal with
  | |- context [?a <? ?b] => destruct (Z.ltb_spec a b)
  | |- context [?a <=? ?b] => destruct (Z.leb_spec a b)
  | |- context [?a =? ?b] => destruct (Z.eqb_spec a b)
  end.

Ltac tb := autorewrite with tb.

Lemma wrap_range w x : 0 <= w -> in_u w (wrap w x).
Proof. intros. unfold wrap, in_u. apply Z.mod_pos_bound. lia. Qed.

Lemma wrap_small w x : in_u w x -> wrap w x = x.
Proof. intros. apply Z.mod_small. done. Qed.

Lemma wrap_wrap w x : wrap w (wrap w x) = wrap w x.
Proof. unfold wrap. by rewrite Zmod_mod. Qed.

Lemma wrap_le w x : 0 <= w -> 0 <= x -> wrap w x <= x.
Proof. intros. unfold wrap. apply Z.mod_le; lia. Qed.

Lemma wrap_add_idemp_l w x y : wrap w (wrap w x + y) = wrap w (x + y).
Proof. apply Zplus_mod_idemp_l. Qed.

Lemma wrap_add_idemp_r w x y : wrap w (x + wrap w y) = wrap w (x + y).
Proof. apply Zplus_mod_idemp_r. Qed.

Lemma wrap_sub_idemp_l w x y : wrap w (wrap w x - y) = wrap w (x - y).
Proof. apply Zminus_mod_idemp_l. Qed.

Lemma wrap_sub_idemp_r w x y : wrap w (x - wrap w y) = wrap w (x - y).
Proof. apply Zminus_mod_idemp_r. Qed.

Lemma swrap_small w x : 0 < w -> in_s w x -> swrap w x = x.
Proof.
  intros Hw [Hl Hh]. unfold swrap, wrap.
  assert (H2 : 2 ^ w = 2 * 2 ^ (w - 1)).
  { replace w with (Z.succ (w - 1)) at 1 by lia. rewrite Z.pow_succ_r; lia. }
  destruct (Z.leb_spec 0 x).
  - rewrite Z.mod_small by lia. case_cmp; lia.
  - replace (x mod 2 ^ w) with (x + 2 ^ w); [case_cmp; lia|].
    apply (Z.mod_unique_pos _ _ (-1)); lia.
Qed.

Lemma swrap_wrap w x : swrap w (wrap w x) = swrap w x.
Proof. unfold swrap. by rewrite wrap_wrap. Qed.

Lemma wrap_swrap w x : wrap w (swrap w x) = wrap w x.
Proof.
  unfold swrap. case_cmp; [apply wrap_wrap|].
  rewrite <- Z.add_opp_r. replace (- 2 ^ w) with (-1 * 2 ^ w) by lia.
  unfold wrap at 1. rewrite Z_mod_plus_full. apply wrap_wrap.
Qed.

Lemma swrap_range w x : 0 < w -> in_s w (swrap w x).
Proof.
  intros Hw. unfold in_s, swrap, wrap. pose proof (Z.mod_pos_bound x (2 ^ w)) as Hb.
  assert (H2 : 2 ^ w = 2 * 2 ^ (w - 1)) by (rewrite <- Z.pow_succ_r by lia; f_equal; lia).
  assert (0 < 2 ^ (w - 1)) by (apply Z.pow_pos_nonneg; lia). case_cmp; lia.
Qed.

Lemma swrap_eqm w x k : swrap w (x + k * 2 ^ w) = swrap w x.
Proof. unfold swrap, wrap. by rewrite Z_mod_plus_full. Qed.

Lemma wrap_neg w x : - 2 ^ w <= x < 0 -> wrap w x = x + 2 ^ w.
Proof. intros. symmetry. apply (Z.mod_unique_pos _ _ (-1)); lia. Qed.

Lemma shl_Ok w x k : 0 <= k < w -> shl_ w x k = Ok (x <<[w] k).
Proof. intros Hk. unfold shl_. by case_cmp; try lia. Qed.

Lemma shr_Ok w x k : 0 <= k < w -> shr_ w x k = Ok (Z.shiftr x k).
Proof. intros Hk. unfold shr_. by case_cmp; try lia. Qed.

Lemma mask_Ok k : 0 <= k < 64 -> mask_ k = Ok (Z.ones k).
Proof.
  intros Hk. unfold mask_. rewrite shl_Ok by done. cbn [rbind]. f_equal.
  assert (0 < 2 ^ k) by lia. assert (2 ^ k < 2 ^ 64) by (apply Z.pow_lt_mono_r; lia).
  rewrite Z.shiftl_1_l, (wrap_small 64 (2 ^ k)), Z.ones_equiv by (unfold in_u; lia).
  apply wrap_small. unfold in_u. lia.
Qed.

Create HintDb mach.
#[export] Hint Resolve wrap_range : mach.

Lemma in_u_bits w x : 0 <= w -> 0 <= x ->
  (forall i, w <= i -> Z.testbit x i = false) -> in_u w x.
Proof.
  intros Hw Hx Hb. assert (Heq : x = wrap w x).
  { apply Z.bits_inj'. intros i Hi. rewrite wrap_spec by done.
    destruct (Z.ltb_spec i w); [done|]. apply Hb. done. }
  rewrite Heq. by apply wrap_range.
Qed.

Lemma land_range w x y : 0 <= w -> in_u w y -> in_u w (Z.land x y).
Proof.
  intros Hw Hy. apply in_u_bits; [done| |].
  - apply Z.land_nonneg. right. apply Hy.
  - intros i Hi. by rewrite Z.land_spec, (high_bits w y), andb_false_r.
Qed.

Lemma lor_range w x y : 0 <= w -> in_u w x -> in_u w y -> in_u w (Z.lor x y).
Proof.
  intros Hw Hx Hy. apply in_u_bits; [done| |].
  - apply Z.lor_nonneg. split; [apply Hx|apply Hy].
  - intros i Hi. by rewrite Z.lor_spec, (high_bits w x), (high_bits w y).
Qed.

Lemma lxor_range w x y : 0 <= w -> in_u w x -> in_u w y -> in_u w (Z.lxor x y).
Proof.
  intros Hw Hx Hy. apply in_u_bits; [done| |].
  - apply Z.lxor_nonneg. split; intros; [apply Hy|apply Hx].
  - intros i Hi. by rewrite Z.lxor_spec, (high_bits w x), (high_bits w y).
Qed.

Lemma shiftr_range w x n : 0 <= w -> 0 <= n -> in_u w x -> in_u w (Z.shiftr x n).
Proof.
  intros Hw Hn [Hx Hx']. rewrite Z.shiftr_div_pow2 by done. split.
  - apply Z.div_pos; lia.
  - apply Z.le_lt_trans with x; [|done].
    apply Z.div_le_upper_bound; [lia|]. assert (0 < 2 ^ n) by lia. nia.
Qed.

Lemma shiftr_le x n : 0 <= x -> 0 <= n -> 0 <= Z.shiftr x n <= x.
Proof.
  intros Hx Hn. rewrite Z.shiftr_div_pow2 by done. split; [apply Z.div_pos; lia|].
  apply Z.div_le_upper_bound; [lia|]. assert (0 < 2 ^ n) by lia. nia.
Qed.

#[export] Hint Resolve land_range lor_range lxor_range shiftr_range : mach.

(** ** Sorted lists *)

Lemma StronglySorted_app_all {A} (R : A -> A -> Prop) l1 l2 :
  StronglySorted R l1 -> StronglySorted R l2 -> (forall x y, x ∈ l1 -> y ∈ l2 -> R x y) ->
  StronglySorted R (l1 ++ l2).
Proof.
  intros H1 H2 H. induction H1 as [|x l1 H1 IH HF]; [done|]. simpl. constructor.
  - apply IH. intros; apply H; [by right|done].
  - apply Forall_app. split; [done|]. apply Forall_forall. intros y Hy. apply H; [by left|done].
Qed.

Lemma StronglySorted_all {A} (R : A -> A -> Prop) l :
  (forall x y, x ∈ l -> y ∈ l -> R x y) -> StronglySorted R l.
Proof.
  induction l as [|x l IH]; intros H; constructor.
  - apply IH. intros; apply H; by right.
  - apply Forall_forall. intros y Hy. apply H; [by left|by right].
Qed.

Lemma StronglySorted_split {A} (R : A -> A -> Prop) l1 l2 :
  StronglySorted R (l1 ++ l2) ->
  StronglySorted R l1 /\ StronglySorted R l2 /\ forall x y, x ∈ l1 -> y ∈ l2 -> R x y.
Proof.
  induction l1 as [|z l1 IH]; simpl; intros H.
  - split; [constructor|]. split; [done|]. intros x y Hx. by apply not_elem_of_nil in Hx.
  - apply StronglySorted_inv in H as [H HF]. destruct (IH H) as (? & ? & Hall).
    apply Forall_app in HF as [HF1 HF2]. split; [by constructor|]. split; [done|].
    intros x y [->|Hx]%elem_of_cons Hy; [|by apply Hall]. rewrite Forall_forall in HF2. auto.
Qed.

Lemma list_filter_all {A} (P : A -> Prop) `{!forall x, Decision (P x)} (l : list A) :
  (forall x, x ∈ l -> P x) -> filter P l = l.
Proof.
  induction l as [|x l IH]; intros Hall; [done|]. rewrite filter_cons_True by (apply Hall; by left).
  f_equal. apply IH. intros y Hy. apply Hall. by right.
Qed.

Lemma StronglySorted_filter {A} (R : A -> A -> Prop) (P : A -> Prop) `{!forall x, Decision (P x)} l :
  StronglySorted R l -> StronglySorted R (filter P l).
Proof.
  induction 1 as [|x l Hs IH HF]; [constructor|]. rewrite filter_cons. case_decide; [|done].
  constructor; [done|]. rewrite Forall_forall in HF |- *. intros y [_ Hy]%list_elem_of_filter. auto.
Qed.
