(* ===== verification/Bitfield.v ===== *)
(** * Bitfield: the bit-manipulation helpers of [base/bitfield.hh]

    One definition per function of the header, on unsigned values; the table of
    [base/bitfield.cc] is copied.  Shifts by a count at or above the width of
    the type are undefined in C++ and are not given a meaning beyond the
    mathematical one; the theorems have the bounds that exclude them.  The
    [assert]s of these pure helpers (compiled out in the [fast] build) are
    hypotheses of the theorems. *)

From Stdlib Require Import ZArith Lia Bool.
From stdpp Require Import base tactics option list numbers.
From S2P Require Import Prelude.
Open Scope Z_scope.

(** ** Definitions *)

Definition mask (nbits : Z) : Z :=
  if 64 <=? nbits then wrap 64 (-1) else Z.shiftl 1 nbits - 1.

Definition bits (val first last : Z) : Z :=
  let nbits := first - last +[32] 1 in
  Z.land (Z.shiftr val last) (mask nbits).

Definition bit (val b : Z) : Z := bits val b b.

Definition mbits (val first last : Z) : Z :=
  Z.land val (Z.land (mask (first +[32] 1)) (~[64] mask last)).

Definition mask2 (first last : Z) : Z := mbits (wrap 64 (-1)) first last.

Definition sext (val N : Z) : Z :=
  let sign_bit := negb (bit val (N - 1) =? 0) in
  if sign_bit then Z.lor val (~[64] mask N) else val.

Definition szext (val N : Z) : Z :=
  let sign_bit := negb (bit val (N - 1) =? 0) in
  if sign_bit then Z.lor val (~[64] mask N) else Z.land val (mask N).

(** [insertBits<T, B>], with [w] the width of [T]. *)
Definition insertBits (w val first last bit_val : Z) : Z :=
  let bmask := wrap w (mask2 first last) in
  let val := Z.land val (~[w] bmask) in
  Z.lor val (Z.land (wrap w bit_val <<[w] last) bmask).

Definition insertBit (w val b bit_val : Z) : Z := insertBits w val b b bit_val.

Definition replaceBits (w val first last bit_val : Z) : Z :=
  insertBits w val first last bit_val.

Definition reverseBitsLookUpTable : list Z :=
  [0x00; 0x80; 0x40; 0xC0; 0x20; 0xA0; 0x60; 0xE0; 0x10; 0x90; 0x50; 0xD0;
   0x30; 0xB0; 0x70; 0xF0; 0x08; 0x88; 0x48; 0xC8; 0x28; 0xA8; 0x68; 0xE8;
   0x18; 0x98; 0x58; 0xD8; 0x38; 0xB8; 0x78; 0xF8; 0x04; 0x84; 0x44; 0xC4;
   0x24; 0xA4; 0x64; 0xE4; 0x14; 0x94; 0x54; 0xD4; 0x34; 0xB4; 0x74; 0xF4;
   0x0C; 0x8C; 0x4C; 0xCC; 0x2C; 0xAC; 0x6C; 0xEC; 0x1C; 0x9C; 0x5C; 0xDC;
   0x3C; 0xBC; 0x7C; 0xFC; 0x02; 0x82; 0x42; 0xC2; 0x22; 0xA2; 0x62; 0xE2;
   0x12; 0x92; 0x52; 0xD2; 0x32; 0xB2; 0x72; 0xF2; 0x0A; 0x8A; 0x4A; 0xCA;
   0x2A; 0xAA; 0x6A; 0xEA; 0x1A; 0x9A; 0x5A; 0xDA; 0x3A; 0xBA; 0x7A; 0xFA;
   0x06; 0x86; 0x46; 0xC6; 0x26; 0xA6; 0x66; 0xE6; 0x16; 0x96; 0x56; 0xD6;
   0x36; 0xB6; 0x76; 0xF6; 0x0E; 0x8E; 0x4E; 0xCE; 0x2E; 0xAE; 0x6E; 0xEE;
   0x1E; 0x9E; 0x5E; 0xDE; 0x3E; 0xBE; 0x7E; 0xFE; 0x01; 0x81; 0x41; 0xC1;
   0x21; 0xA1; 0x61; 0xE1; 0x11; 0x91; 0x51; 0xD1; 0x31; 0xB1; 0x71; 0xF1;
   0x09; 0x89; 0x49; 0xC9; 0x29; 0xA9; 0x69; 0xE9; 0x19; 0x99; 0x59; 0xD9;
   0x39; 0xB9; 0x79; 0xF9; 0x05; 0x85; 0x45; 0xC5; 0x25; 0xA5; 0x65; 0xE5;
   0x15; 0x95; 0x55; 0xD5; 0x35; 0xB5; 0x75; 0xF5; 0x0D; 0x8D; 0x4D; 0xCD;
   0x2D; 0xAD; 0x6D; 0xED; 0x1D; 0x9D; 0x5D; 0xDD; 0x3D; 0xBD; 0x7D; 0xFD;
   0x03; 0x83; 0x43; 0xC3; 0x23; 0xA3; 0x63; 0xE3; 0x13; 0x93; 0x53; 0xD3;
   0x33; 0xB3; 0x73; 0xF3; 0x0B; 0x8B; 0x4B; 0xCB; 0x2B; 0xAB; 0x6B; 0xEB;
   0x1B; 0x9B; 0x5B; 0xDB; 0x3B; 0xBB; 0x7B; 0xFB; 0x07; 0x87; 0x47; 0xC7;
   0x27; 0xA7; 0x67; 0xE7; 0x17; 0x97; 0x57; 0xD7; 0x37; 0xB7; 0x77; 0xF7;
   0x0F; 0x8F; 0x4F; 0xCF; 0x2F; 0xAF; 0x6F; 0xEF; 0x1F; 0x9F; 0x5F; 0xDF;
   0x3F; 0xBF; 0x7F; 0xFF].

Definition reverseByte (v : Z) : Z := nth (Z.to_nat v) reverseBitsLookUpTable 0.

(** The loop of [reverseBits]: [size] iterations on the state
    [(output, val)]. *)
Fixpoint reverseBits_loop (w : Z) (size : nat) (output val : Z) : Z :=
  match size with
  | O => output
  | S n => reverseBits_loop w n
             (Z.lor (output <<[w] 8) (reverseByte (Z.land val (mask 8))))
             (Z.shiftr val 8)
  end.

(** [reverseBits<T>(val, size)], with [w] the width of [T]. *)
Definition reverseBits (w val : Z) (size : nat) : Z :=
  if w =? 8 then reverseByte val else reverseBits_loop w size 0 val.

(** One [if (bits(val, hi, n)) { msb += n; val >>= n; }] of [findMsbSet]; the
    state is [(msb, val)]. *)
Definition msb_step (n hi : Z) (s : Z * Z) : Z * Z :=
  let '(msb, val) := s in
  if negb (bits val hi n =? 0) then (msb + n, Z.shiftr val n) else (msb, val).

Definition findMsbSet (val : Z) : Z :=
  if val =? 0 then 0 else
  let s := msb_step 32 63 (0, val) in
  let s := msb_step 16 31 s in
  let s := msb_step 8 15 s in
  let s := msb_step 4 7 s in
  let s := msb_step 2 3 s in
  let '(msb, val) := s in
  if negb (bits val 1 1 =? 0) then msb + 1 else msb.

(** One [if (!bits(val, n - 1, 0)) { lsb += n; val >>= n; }]. *)
Definition lsb_step (n : Z) (s : Z * Z) : Z * Z :=
  let '(lsb, val) := s in
  if bits val (n - 1) 0 =? 0 then (lsb + n, Z.shiftr val n) else (lsb, val).

Definition findLsbSetFallback (val : Z) : Z :=
  if val =? 0 then 64 else
  let s := lsb_step 32 (0, val) in
  let s := lsb_step 16 s in
  let s := lsb_step 8 s in
  let s := lsb_step 4 s in
  let s := lsb_step 2 s in
  let '(lsb, val) := s in
  if bits val 0 0 =? 0 then lsb + 1 else lsb.

(** [popCount] where the compiler has no builtin. *)
Definition popCount (val : Z) : Z :=
  let m1 := 0x5555555555555555 in
  let m2 := 0x3333333333333333 in
  let m4 := 0x0f0f0f0f0f0f0f0f in
  let sum := 0x0101010101010101 in
  let val := val -[64] Z.land (Z.shiftr val 1) m1 in
  let val := Z.land val m2 +[64] Z.land (Z.shiftr val 2) m2 in
  let val := Z.land (val +[64] Z.shiftr val 4) m4 in
  Z.shiftr (val *[64] sum) 56.

Definition smear (n val : Z) : Z := Z.lor val (Z.shiftr val n).

Definition alignToPowerOfTwo (val : Z) : Z :=
  let val := val -[64] 1 in
  let val := smear 1 val in
  let val := smear 2 val in
  let val := smear 4 val in
  let val := smear 8 val in
  let val := smear 16 val in
  let val := smear 32 val in
  val +[64] 1.

(** ** Masks and fields *)

Lemma mask_ones n : 0 <= n <= 64 -> mask n = Z.ones n.
Proof.
  intros. unfold mask. destruct (Z.leb_spec 64 n).
  - by replace n with 64 by lia.
  - unfold Z.ones. by rewrite Z.sub_1_r.
Qed.

Lemma mask_full n : 64 <= n -> mask n = Z.ones 64.
Proof. intros. unfold mask. case_cmp; [done|lia]. Qed.

Lemma nbits_wrap first last : 0 <= last <= first -> first < 64 ->
  wrap 32 (first - last + 1) = first - last + 1.
Proof. intros. apply wrap_small. unfold in_u. lia. Qed.

(** Bit [i] of the extracted field is bit [i + last] of the value. *)
Lemma bits_testbit val first last i : 0 <= last <= first -> first < 64 ->
  Z.testbit (bits val first last) i
  = (0 <=? i) && (i <=? first - last) && Z.testbit val (i + last).
Proof.
  intros. unfold bits. rewrite nbits_wrap, mask_ones by lia.
  destruct (Z.leb_spec 0 i); [|by rewrite Z.testbit_neg_r by lia].
  tb. case_cmp; try lia; by rewrite ?andb_true_r, ?andb_false_r.
Qed.

Lemma bits_div_mod val first last : 0 <= last <= first -> first < 64 ->
  bits val first last = (val / 2 ^ last) mod 2 ^ (first - last + 1).
Proof.
  intros. unfold bits. rewrite nbits_wrap, mask_ones by lia.
  by rewrite Z.land_ones, Z.shiftr_div_pow2 by lia.
Qed.

Lemma bits_range val first last : 0 <= last <= first -> first < 64 ->
  in_u (first - last + 1) (bits val first last).
Proof. intros. rewrite bits_div_mod by lia. apply wrap_range. lia. Qed.

Lemma mask2_testbit first last i : 0 <= last <= first -> first < 64 ->
  Z.testbit (mask2 first last) i = (last <=? i) && (i <=? first).
Proof.
  intros. unfold mask2, mbits.
  rewrite (wrap_small 32) by (unfold in_u; lia).
  rewrite !mask_ones by lia.
  destruct (Z.leb_spec 0 i).
  - tb. case_cmp; lia.
  - rewrite Z.testbit_neg_r by lia. case_cmp; lia.
Qed.

Section InsertBits.
Context (w val first last : Z).
Hypothesis Hw : w <= 64.
Hypothesis Hval : in_u w val.
Hypothesis Hfl : 0 <= last <= first.
Hypothesis Hf : first < w.

(** The field is replaced by the low bits of [b], every other bit is kept. *)
Lemma insertBits_testbit b i : 0 <= i ->
  Z.testbit (insertBits w val first last b) i
  = if (last <=? i) && (i <=? first) then Z.testbit b (i - last)
    else Z.testbit val i.
Proof.
  intros Hi. unfold insertBits. tb. rewrite !mask2_testbit by lia.
  destruct (Z.ltb_spec i w); case_cmp; simpl;
    rewrite ?andb_true_r, ?andb_false_r, ?orb_false_r; try done; try lia.
  all: try (symmetry; apply (high_bits w); [done|lia..]).
  all: rewrite wrap_spec by lia; case_cmp; [done|lia].
Qed.

Lemma insertBits_range b : in_u w (insertBits w val first last b).
Proof.
  assert (Heq : insertBits w val first last b
                = wrap w (insertBits w val first last b)).
  { apply Z.bits_inj'. intros i Hi. tb.
    destruct (Z.ltb_spec i w); [done|]. simpl.
    rewrite insertBits_testbit by done.
    case_cmp; simpl; try lia; apply (high_bits w); (done || lia). }
  rewrite Heq. apply wrap_range. lia.
Qed.
End InsertBits.

(** Sign extension of a field that has no bit above its sign. *)
Lemma sext_spec val N : 1 <= N <= 63 -> in_u N val ->
  swrap 64 (sext val N) = swrap N val.
Proof.
  intros HN Hval. unfold sext, bit. pose proof Hval as [Hl Hh].
  assert (Hp : 2 ^ N = 2 * 2 ^ (N - 1))
    by (rewrite <- Z.pow_succ_r by lia; f_equal; lia).
  assert (H64 : 2 ^ N <= 2 ^ 63) by (apply Z.pow_le_mono_r; lia).
  rewrite bits_div_mod by lia. replace (N - 1 - (N - 1) + 1) with 1 by lia.
  unfold swrap at 2. rewrite (wrap_small N) by done.
  destruct (Z.ltb_spec val (2 ^ (N - 1))).
  - rewrite Z.div_small by lia. simpl. apply swrap_small; [lia|].
    unfold in_s. lia.
  - assert (Hd : val / 2 ^ (N - 1) = 1).
    { symmetry. apply (Z.div_unique _ _ _ (val - 2 ^ (N - 1))); lia. }
    rewrite Hd. simpl. rewrite mask_ones by lia.
    assert (Hlor : Z.lor val (~[64] Z.ones N) = val + (2 ^ 64 - 2 ^ N)).
    { rewrite <- Z.lxor_lor, <- Z.add_nocarry_lxor.
      - f_equal. unfold wrap, Z.lnot. rewrite Z.ones_equiv.
        rewrite <- (Z.mod_small (2 ^ 64 - 2 ^ N) (2 ^ 64)) by lia.
        replace (Z.pred (- Z.pred (2 ^ N))) with (2 ^ 64 - 2 ^ N + (-1) * 2 ^ 64) by lia.
        by rewrite Z_mod_plus_full.
      - apply Z.bits_inj'. intros i Hi. tb. destruct (Z.ltb_spec i N).
        + case_cmp; simpl; rewrite ?andb_false_r; (done || lia).
        + by rewrite (high_bits N) by (done || lia).
      - apply Z.bits_inj'. intros i Hi. tb. destruct (Z.ltb_spec i N).
        + case_cmp; simpl; rewrite ?andb_false_r; (done || lia).
        + by rewrite (high_bits N) by (done || lia). }
    rewrite Hlor. replace (val + (2 ^ 64 - 2 ^ N)) with ((val - 2 ^ N) + 1 * 2 ^ 64) by lia.
    unfold swrap, wrap. rewrite Z_mod_plus_full. apply swrap_small; [lia|].
    unfold in_s. lia.
Qed.

(** ** Searching for set bits *)

Lemma log2_shift n x : 0 <= n -> 2 ^ n <= x -> Z.log2 x = n + Z.log2 (Z.shiftr x n).
Proof.
  intros. rewrite Z.log2_shiftr by lia.
  assert (n <= Z.log2 x) by (apply Z.log2_le_pow2; lia). lia.
Qed.

(** [msb_step n] halves the interval that holds the value and keeps the sum of
    the offset and the logarithm. *)
Lemma msb_step_spec n m x : 0 < n <= 32 -> 0 < x < 2 ^ (2 * n) ->
  let '(m', x') := msb_step n (2 * n - 1) (m, x) in
  0 < x' < 2 ^ n /\ m' + Z.log2 x' = m + Z.log2 x.
Proof.
  intros Hn Hx. unfold msb_step.
  rewrite bits_div_mod by lia. replace (2 * n - 1 - n + 1) with n by lia.
  assert (H2 : 2 ^ (2 * n) = 2 ^ n * 2 ^ n) by (rewrite <- Z.pow_add_r by lia; f_equal; lia).
  assert (Hp : 0 < 2 ^ n) by lia.
  assert (Hdiv : x / 2 ^ n < 2 ^ n) by (apply Z.div_lt_upper_bound; nia).
  assert (0 <= x / 2 ^ n) by (apply Z.div_pos; lia).
  rewrite Z.mod_small by lia.
  destruct (Z.eqb_spec (x / 2 ^ n) 0) as [E|E]; simpl.
  - apply Z.div_small_iff in E; [|lia]. split; lia.
  - assert (2 ^ n <= x) by (destruct (Z.lt_ge_cases x (2 ^ n)); [rewrite Z.div_small in E|]; lia).
    split.
    + rewrite Z.shiftr_div_pow2 by lia. lia.
    + rewrite (log2_shift n x) by lia. lia.
Qed.

Ltac msb_round n hi m x H :=
  let E := fresh "E" in
  pose proof (msb_step_spec n m x ltac:(lia)) as H;
  change (2 * n - 1) with hi in H;
  destruct (msb_step n hi (m, x)) as [? ?]; destruct H as [H E]; [lia|].

Lemma findMsbSet_log2 val : 0 < val < 2 ^ 64 -> findMsbSet val = Z.log2 val.
Proof.
  intros Hv. unfold findMsbSet. destruct (Z.eqb_spec val 0); [lia|].
  msb_round 32 63 0 val H1.
  msb_round 16 31 z z0 H2.
  msb_round 8 15 z1 z2 H3.
  msb_round 4 7 z3 z4 H4.
  msb_round 2 3 z5 z6 H5.
  assert (z8 = 1 \/ z8 = 2 \/ z8 = 3) as [-> | [-> | ->]] by lia;
    [change (Z.log2 1) with 0 in * | change (Z.log2 2) with 1 in *
    | change (Z.log2 3) with 1 in *].
  - replace (bits 1 1 1 =? 0) with true by reflexivity. simpl. lia.
  - replace (bits 2 1 1 =? 0) with false by reflexivity. simpl. lia.
  - replace (bits 3 1 1 =? 0) with false by reflexivity. simpl. lia.
Qed.

(** Position [r] holds the lowest set bit of [x]. *)
Definition lowest_set (x r : Z) : Prop :=
  0 <= r /\ Z.testbit x r = true /\ forall i, i < r -> Z.testbit x i = false.

Lemma lowest_set_exists x : 0 < x -> exists r, lowest_set x r.
Proof.
  intros Hx. destruct x as [|p|p]; try lia.
  induction p as [p _|p IH|].
  - exists 0. split; [lia|]. split; [done|]. intros. by apply Z.testbit_neg_r.
  - destruct IH as (r & ? & Ht & Hlow); [lia|].
    exists (Z.succ r). split; [lia|].
    change (Z.pos p~0) with (2 * Z.pos p). split.
    + by rewrite Z.double_bits_succ.
    + intros i Hi. replace i with (Z.succ (Z.pred i)) by lia.
      rewrite Z.double_bits_succ. apply Hlow. lia.
  - exists 0. split; [lia|]. split; [done|]. intros. by apply Z.testbit_neg_r.
Qed.

Lemma lowest_set_mod x r n : 0 <= n -> lowest_set x r ->
  (x mod 2 ^ n = 0 <-> n <= r).
Proof.
  intros Hn (Hr & Ht & Hlow). split.
  - intros Hm. destruct (Z.le_gt_cases n r); [done|].
    rewrite <- (Z.mod_pow2_bits_low x n r), Hm, Z.bits_0 in Ht by lia. done.
  - intros Hle. apply Z.bits_inj'. intros i Hi. rewrite Z.bits_0.
    fold (wrap n x). rewrite wrap_spec by lia.
    destruct (Z.ltb_spec i n); [|done]. apply Hlow. lia.
Qed.

Lemma lowest_set_shiftr x r n : 0 <= n <= r -> lowest_set x r ->
  lowest_set (Z.shiftr x n) (r - n).
Proof.
  intros Hn (Hr & Ht & Hlow). split; [lia|]. split.
  - rewrite Z.shiftr_spec by lia. by replace (r - n + n) with r by lia.
  - intros i Hi. destruct (Z.le_gt_cases 0 i).
    + rewrite Z.shiftr_spec by lia. apply Hlow. lia.
    + by apply Z.testbit_neg_r.
Qed.

Lemma lsb_step_spec n l x r : 0 < n <= 32 -> lowest_set x r -> r < 2 * n ->
  let '(l', x') := lsb_step n (l, x) in
  exists r', lowest_set x' r' /\ r' < n /\ l' + r' = l + r.
Proof.
  intros Hn Hlow Hr. unfold lsb_step. rewrite bits_div_mod by lia.
  rewrite Z.pow_0_r, Z.div_1_r. replace (n - 1 - 0 + 1) with n by lia.
  pose proof (lowest_set_mod x r n ltac:(lia) Hlow) as Hiff.
  destruct (Z.eqb_spec (x mod 2 ^ n) 0) as [E|E].
  - apply Hiff in E. exists (r - n).
    split; [apply lowest_set_shiftr; (done || lia)|]. lia.
  - exists r. split; [done|]. assert (~ n <= r) by tauto. lia.
Qed.

Ltac lsb_round n l x r Hr r' H' :=
  pose proof (lsb_step_spec n l x r ltac:(lia) Hr) as H';
  destruct (lsb_step n (l, x)) as [? ?]; destruct H' as (r' & H' & ? & ?); [lia|].

Lemma findLsbSetFallback_lowest val : 0 < val < 2 ^ 64 ->
  lowest_set val (findLsbSetFallback val).
Proof.
  intros Hv. destruct (lowest_set_exists val) as [r Hr]; [lia|].
  assert (r < 64).
  { destruct (Z.lt_ge_cases r 64); [done|]. destruct Hr as (_ & Ht & _).
    rewrite (high_bits 64) in Ht by (unfold in_u; lia). done. }
  unfold findLsbSetFallback. destruct (Z.eqb_spec val 0); [lia|].
  lsb_round 32 0 val r Hr r1 L1.
  lsb_round 16 z z0 r1 L1 r2 L2.
  lsb_round 8 z1 z2 r2 L2 r3 L3.
  lsb_round 4 z3 z4 r3 L3 r4 L4.
  lsb_round 2 z5 z6 r4 L4 r5 L5.
  rewrite bits_div_mod, Z.pow_0_r, Z.div_1_r by lia. change (0 - 0 + 1) with 1.
  pose proof (lowest_set_mod z8 r5 1 ltac:(lia) L5) as Hiff.
  destruct L5 as (? & _).
  destruct (Z.eqb_spec (z8 mod 2 ^ 1) 0) as [E|E].
  - apply Hiff in E. by replace (z7 + 1) with r by lia.
  - assert (~ 1 <= r5) by tauto. by replace z7 with r by lia.
Qed.

(** ** Rounding up to a power of two *)

(** Every bit of [y] is the disjunction of [n] consecutive bits of [x]. *)
Definition smeared (n x y : Z) : Prop :=
  forall i, 0 <= i -> (Z.testbit y i = true <->
                       exists j, i <= j < i + n /\ Z.testbit x j = true).

Lemma smear_step n x y : 0 < n -> smeared n x y -> smeared (2 * n) x (smear n y).
Proof.
  unfold smeared. intros Hn Hy i Hi. unfold smear. tb. rewrite orb_true_iff, !Hy by lia.
  split.
  - intros [(j & ? & ?) | (j & ? & ?)]; exists j; (split; [lia|done]).
  - intros (j & ? & ?). destruct (Z.lt_ge_cases j (i + n)); [left|right];
      exists j; (split; [lia|done]).
Qed.

Lemma smear_nonneg n y : 0 <= y -> 0 <= smear n y.
Proof. intros. unfold smear. rewrite Z.lor_nonneg, Z.shiftr_nonneg. done. Qed.

Lemma smeared_one x : smeared 1 x x.
Proof.
  intros i Hi. split; [by exists i; split; [lia|]|].
  intros (j & ? & ?). by replace i with j by lia.
Qed.

Lemma smeared_all x y : 0 < x < 2 ^ 64 -> 0 <= y -> smeared 64 x y ->
  y = Z.ones (Z.succ (Z.log2 x)).
Proof.
  intros Hx Hy0 Hy. pose proof (Z.log2_nonneg x).
  assert (Z.log2 x < 64) by (apply Z.log2_lt_pow2; lia).
  apply Z.bits_inj'. intros i Hi. rewrite ones_spec by lia.
  apply eq_true_iff_eq. rewrite (Hy i Hi), andb_true_iff, Z.leb_le, Z.ltb_lt.
  split.
  - intros (j & ? & Ht). split; [done|].
    destruct (Z.le_gt_cases i (Z.log2 x)); [lia|].
    rewrite Z.bits_above_log2 in Ht by lia. done.
  - intros [_ ?]. exists (Z.log2 x). split; [lia|]. apply Z.bit_log2. lia.
Qed.

Lemma alignToPowerOfTwo_pow2 val : 1 <= val < 2 ^ 64 ->
  alignToPowerOfTwo val = wrap 64 (2 ^ Z.log2_up val).
Proof.
  intros Hv. unfold alignToPowerOfTwo.
  rewrite (wrap_small 64 (val - 1)) by (unfold in_u; lia).
  destruct (Z.eq_dec val 1) as [->|Hne]; [done|].
  set (x := val - 1).
  set (y := smear 32 (smear 16 (smear 8 (smear 4 (smear 2 (smear 1 x)))))).
  assert (Hsm : smeared 64 x y).
  { unfold y. change 64 with (2 * 32). apply smear_step; [lia|].
    change 32 with (2 * 16) at 1. apply smear_step; [lia|].
    change 16 with (2 * 8) at 1. apply smear_step; [lia|].
    change 8 with (2 * 4) at 1. apply smear_step; [lia|].
    change 4 with (2 * 2) at 1. apply smear_step; [lia|].
    change 2 with (2 * 1) at 1. apply smear_step; [lia|]. apply smeared_one. }
  assert (Hy0 : 0 <= y).
  { unfold y. repeat apply smear_nonneg. unfold x. lia. }
  rewrite (smeared_all x y) by (done || (unfold x; lia)).
  unfold Z.log2_up. destruct (Z.compare_spec 1 val); [lia| |lia].
  replace (Z.pred val) with x by (unfold x; lia).
  rewrite Z.ones_equiv. f_equal. lia.
Qed.

(** ** Bit reversal *)

Lemma reverseByte_spec v i : 0 <= v < 256 -> 0 <= i ->
  Z.testbit (reverseByte v) i = (i <? 8) && Z.testbit v (7 - i).
Proof.
  intros Hv Hi.
  assert (Hall : forallb (fun v =>
    forallb (fun i => Bool.eqb (Z.testbit (reverseByte (Z.of_nat v)) (Z.of_nat i))
                        (Z.testbit (Z.of_nat v) (7 - Z.of_nat i))) (List.seq 0 8)
    && (reverseByte (Z.of_nat v) <? 256) && (0 <=? reverseByte (Z.of_nat v)))
    (List.seq 0 256) = true) by (vm_compute; reflexivity).
  rewrite List.forallb_forall in Hall.
  specialize (Hall (Z.to_nat v)). rewrite Z2Nat.id in Hall by lia.
  apply andb_true_iff in Hall as [[Hall Hb]%andb_true_iff Hp]; [|apply List.in_seq; lia].
  destruct (Z.ltb_spec i 8).
  - rewrite List.forallb_forall in Hall. specialize (Hall (Z.to_nat i)).
    rewrite Z2Nat.id in Hall by lia. apply eqb_true_iff. apply Hall, List.in_seq. lia.
  - b2p. apply (high_bits 8); unfold in_u; lia.
Qed.

Lemma reverseBits_loop_spec w n out val i : 8 * Z.of_nat n <= w -> 0 <= i < w ->
  Z.testbit (reverseBits_loop w n out val) i
  = if i <? 8 * Z.of_nat n then Z.testbit val (8 * Z.of_nat n - 1 - i)
    else Z.testbit out (i - 8 * Z.of_nat n).
Proof.
  revert out val. induction n as [|n IH]; intros out val Hn Hi.
  { simpl. rewrite Z.sub_0_r. case_cmp; [lia|done]. }
  cbn [reverseBits_loop]. rewrite IH by lia.
  rewrite Nat2Z.inj_succ in *.
  destruct (Z.ltb_spec i (8 * Z.of_nat n)).
  - rewrite shiftr_spec' by lia. case_cmp; [|lia]. f_equal. lia.
  - tb. rewrite mask_ones by lia.
    rewrite reverseByte_spec; [|rewrite Z.land_ones by lia; apply Z.mod_pos_bound; lia|lia].
    case_cmp; try lia.
    + rewrite Z.testbit_neg_r by lia. simpl. tb. case_cmp; try lia.
      rewrite andb_true_r. f_equal. lia.
    + simpl. rewrite orb_false_r. f_equal. lia.
Qed.

(** ** Counting the set bits *)

(** Reference: the number of set bits among the low [n]. *)
Fixpoint count_ones (n : nat) (x : Z) : Z :=
  match n with
  | O => 0
  | S n => Z.b2z (Z.testbit x (Z.of_nat n)) + count_ones n x
  end.

(** A number as its list of bytes, the least significant one first. *)
Fixpoint comb (bs : list Z) : Z :=
  match bs with [] => 0 | b :: bs => b + 256 * comb bs end.

Fixpoint bytes_of (n : nat) (x : Z) : list Z :=
  match n with O => [] | S n => x mod 256 :: bytes_of n (x / 256) end.

Definition byte_bound (m b : Z) : Prop := 0 <= b <= m.

Lemma comb_bytes_of n x : 0 <= x < 256 ^ Z.of_nat n -> comb (bytes_of n x) = x.
Proof.
  revert x. induction n as [|n IH]; intros x Hx; cbn [bytes_of comb].
  { simpl in Hx. lia. }
  rewrite Nat2Z.inj_succ, Z.pow_succ_r in Hx by lia.
  rewrite IH.
  - pose proof (Z.div_mod x 256). lia.
  - split; [apply Z.div_pos; lia|apply Z.div_lt_upper_bound; lia].
Qed.

Lemma bytes_of_bound n x : Forall (byte_bound 255) (bytes_of n x).
Proof.
  revert x. induction n as [|n IH]; intros x; constructor; auto.
  pose proof (Z.mod_pos_bound x 256). unfold byte_bound. lia.
Qed.

Lemma byte_split b x : 0 <= b < 256 -> b + 256 * x = Z.lor b (Z.shiftl x 8).
Proof.
  intros Hb. rewrite <- Z.lxor_lor, <- Z.add_nocarry_lxor.
  - rewrite Z.shiftl_mul_pow2 by lia. lia.
  - apply Z.bits_inj'. intros i Hi. tb. destruct (Z.ltb_spec i 8).
    + rewrite (Z.testbit_neg_r x) by lia. apply andb_false_r.
    + by rewrite (high_bits 8) by (unfold in_u; lia).
  - apply Z.bits_inj'. intros i Hi. tb. destruct (Z.ltb_spec i 8).
    + rewrite (Z.testbit_neg_r x) by lia. apply andb_false_r.
    + by rewrite (high_bits 8) by (unfold in_u; lia).
Qed.

(** A shift by [k] under a mask whose bytes have no bit above [8 - k] acts on
    every byte on its own. *)
Lemma land_shiftr_comb k m bs : 0 <= k < 8 -> 0 <= m < 2 ^ (8 - k) ->
  Forall (byte_bound 255) bs ->
  Z.land (Z.shiftr (comb bs) k) (comb (replicate (length bs) m))
  = comb (map (fun b => Z.land (Z.shiftr b k) m) bs).
Proof.
  intros Hk Hm. assert (H8 : 2 ^ (8 - k) <= 2 ^ 8) by (apply Z.pow_le_mono_r; lia).
  induction 1 as [|b bs Hb _ IH]; [by rewrite Z.land_0_r|].
  cbn [length replicate comb map]. rewrite <- IH. unfold byte_bound in Hb.
  set (M := comb (replicate (length bs) m)).
  assert (Hl : 0 <= Z.land (Z.shiftr b k) m < 256).
  { apply (land_range 8); [lia|]. unfold in_u. lia. }
  rewrite !byte_split by lia.
  apply Z.bits_inj'. intros i Hi. tb.
  destruct (Z.ltb_spec i 8).
  - rewrite (Z.testbit_neg_r M), (Z.testbit_neg_r _ (i - 8)) by lia.
    rewrite !orb_false_r. destruct (Z.ltb_spec (i + k) 8).
    + by rewrite (Z.testbit_neg_r (comb bs)), orb_false_r by lia.
    + rewrite (high_bits (8 - k) m) by (unfold in_u; lia). by rewrite !andb_false_r.
  - rewrite (high_bits 8 b), (high_bits 8 m) by (unfold in_u; lia). simpl. tb.
    do 2 f_equal. lia.
Qed.

(** What the three folding steps compute on one byte. *)
Definition pop_byte1 (b : Z) : Z := b - Z.land (Z.shiftr b 1) 0x55.
Definition pop_byte2 (b : Z) : Z := Z.land b 0x33 + Z.land (Z.shiftr b 2) 0x33.


Lemma comb_map_sub (f g : Z -> Z) bs :
  comb (map f bs) - comb (map g bs) = comb (map (fun b => f b - g b) bs).
Proof. induction bs as [|b bs IH]; cbn [map comb]; lia. Qed.

Lemma comb_map_add (f g : Z -> Z) bs :
  comb (map f bs) + comb (map g bs) = comb (map (fun b => f b + g b) bs).
Proof. induction bs as [|b bs IH]; cbn [map comb]; lia. Qed.

Lemma comb_bound bs : Forall (byte_bound 255) bs ->
  0 <= comb bs < 256 ^ Z.of_nat (length bs).
Proof.
  unfold byte_bound. induction 1 as [|b bs Hb _ IH]; cbn [comb length]; [lia|].
  rewrite Nat2Z.inj_succ, Z.pow_succ_r by lia. lia.
Qed.

Definition nibbles_le4 (b : Z) : Prop := 0 <= b mod 16 <= 4 /\ 0 <= b / 16 <= 4.

Lemma comb_mod16 bs : Forall nibbles_le4 bs -> 0 <= comb bs mod 16 <= 4.
Proof.
  intros [|b bs' [Hb _] _]; cbn [comb]; [done|].
  replace (b + 256 * comb bs') with (b + 16 * comb bs' * 16) by lia.
  by rewrite Z_mod_plus_full.
Qed.

(** [(val + (val >> 4)) & m4] adds the two nibbles of every byte. *)
Lemma fold_nibbles bs : Forall nibbles_le4 bs ->
  Z.land (comb bs + Z.shiftr (comb bs) 4) (comb (replicate (length bs) 15))
  = comb (map (fun b => b mod 16 + b / 16) bs).
Proof.
  induction 1 as [|b bs Hb Hbs IH]; [done|].
  cbn [length replicate comb map]. rewrite <- IH.
  pose proof (comb_mod16 bs Hbs) as Hm. destruct Hb as [Hb1 Hb2].
  set (B := comb bs) in *. set (M := comb (replicate (length bs) 15)).
  rewrite !Z.shiftr_div_pow2 by lia. change (2 ^ 4) with 16.
  pose proof (Z.div_mod b 16 ltac:(lia)) as Eb. pose proof (Z.div_mod B 16 ltac:(lia)) as EB.
  replace ((b + 256 * B) / 16) with (b / 16 + 16 * B)
    by (apply (Z.div_unique _ _ _ (b mod 16)); lia).
  replace (b + 256 * B + (b / 16 + 16 * B))
    with ((b + b / 16 + 16 * (B mod 16)) + 256 * (B + B / 16)) by lia.
  set (lo := b + b / 16 + 16 * (B mod 16)). set (hi := B + B / 16).
  assert (Hlo : Z.land lo 15 = b mod 16 + b / 16).
  { change 15 with (Z.ones 4). rewrite Z.land_ones by lia. change (2 ^ 4) with 16.
    symmetry. apply (Z.mod_unique_pos _ _ (b / 16 + B mod 16)); unfold lo; lia. }
  rewrite <- Hlo. rewrite !byte_split by (unfold lo in *; lia).
  apply Z.bits_inj'. intros i Hi. tb. destruct (Z.ltb_spec i 8).
  - rewrite (Z.testbit_neg_r hi), (Z.testbit_neg_r M) by lia. simpl.
    by rewrite !orb_false_r.
  - rewrite (high_bits 8 lo), (high_bits 8 15) by (unfold in_u, lo; lia). simpl. by tb.
Qed.

Lemma count_ones_S n x :
  count_ones (S n) x = Z.b2z (Z.testbit x (Z.of_nat n)) + count_ones n x.
Proof. done. Qed.

Lemma count_ones_split n x :
  count_ones (8 + n) x = count_ones 8 (x mod 256) + count_ones n (x / 256).
Proof.
  induction n as [|n IH].
  - cbn [count_ones Nat.add]. change 256 with (2 ^ 8).
    rewrite !Z.mod_pow2_bits_low by lia. lia.
  - replace (8 + S n)%nat with (S (8 + n)) by lia. rewrite (count_ones_S (8 + n)), (count_ones_S n), IH.
    replace (Z.testbit x (Z.of_nat (8 + n))) with (Z.testbit (x / 256) (Z.of_nat n)); [lia|].
    change 256 with (2 ^ 8). rewrite Z.div_pow2_bits by lia. f_equal. lia.
Qed.

Lemma pop_byte_ok b : byte_bound 255 b ->
  byte_bound 255 (pop_byte1 b) /\ byte_bound 255 (pop_byte2 (pop_byte1 b)) /\
  nibbles_le4 (pop_byte2 (pop_byte1 b)) /\
  pop_byte2 (pop_byte1 b) mod 16 + pop_byte2 (pop_byte1 b) / 16 = count_ones 8 b.
Proof.
  intros Hb. unfold byte_bound, nibbles_le4 in *.
  assert (Hall : forallb (fun n => let b := Z.of_nat n in
     let p1 := pop_byte1 b in let p2 := pop_byte2 p1 in
     (0 <=? p1) && (p1 <=? 255) && (0 <=? p2) && (p2 <=? 255) &&
     (0 <=? p2 mod 16) && (p2 mod 16 <=? 4) && (0 <=? p2 / 16) && (p2 / 16 <=? 4) &&
     (p2 mod 16 + p2 / 16 =? count_ones 8 b)) (List.seq 0 256) = true)
    by (vm_compute; reflexivity).
  rewrite List.forallb_forall in Hall. specialize (Hall (Z.to_nat b)).
  rewrite Z2Nat.id in Hall by lia. cbv zeta in Hall.
  specialize (Hall ltac:(apply List.in_seq; lia)). b2p. lia.
Qed.

Definition sum_ones (bs : list Z) : Z := foldr (fun b a => count_ones 8 b + a) 0 bs.

Lemma count_ones_bytes n x : count_ones (8 * n) x = sum_ones (bytes_of n x).
Proof.
  revert x. induction n as [|n IH]; intros x; [done|].
  replace (8 * S n)%nat with (8 + 8 * n)%nat by lia.
  rewrite count_ones_split, IH. done.
Qed.

Lemma count_ones_8_bound b : 0 <= count_ones 8 b <= 8.
Proof.
  cbn [count_ones]. repeat match goal with
  | |- context [Z.testbit b ?i] => destruct (Z.testbit b i) end; simpl; lia.
Qed.

(** The multiplication by [0x01...01] adds eight small bytes into the top one. *)
Lemma horizontal_sum c0 c1 c2 c3 c4 c5 c6 c7 :
  0 <= c0 <= 8 -> 0 <= c1 <= 8 -> 0 <= c2 <= 8 -> 0 <= c3 <= 8 ->
  0 <= c4 <= 8 -> 0 <= c5 <= 8 -> 0 <= c6 <= 8 -> 0 <= c7 <= 8 ->
  Z.shiftr (comb [c0; c1; c2; c3; c4; c5; c6; c7] *[64] 0x0101010101010101) 56
  = c0 + c1 + c2 + c3 + c4 + c5 + c6 + c7.
Proof.
  intros. rewrite Z.shiftr_div_pow2 by lia.
  set (lo := comb [c0; c0 + c1; c0 + c1 + c2; c0 + c1 + c2 + c3;
                   c0 + c1 + c2 + c3 + c4; c0 + c1 + c2 + c3 + c4 + c5;
                   c0 + c1 + c2 + c3 + c4 + c5 + c6]).
  set (hi := comb [c1 + c2 + c3 + c4 + c5 + c6 + c7; c2 + c3 + c4 + c5 + c6 + c7;
                   c3 + c4 + c5 + c6 + c7; c4 + c5 + c6 + c7; c5 + c6 + c7;
                   c6 + c7; c7]).
  set (s := c0 + c1 + c2 + c3 + c4 + c5 + c6 + c7).
  assert (Hw : comb [c0; c1; c2; c3; c4; c5; c6; c7] *[64] 0x0101010101010101
               = lo + 2 ^ 56 * s).
  { unfold wrap. symmetry. unfold lo, s, hi. cbn [comb].
    apply (Z.mod_unique_pos _ _ hi); unfold hi; cbn [comb]; lia. }
  rewrite Hw. symmetry. apply (Z.div_unique _ _ _ lo); unfold lo; cbn [comb]; lia.
Qed.

Lemma wrap_comb bs : Forall (byte_bound 255) bs -> length bs = 8%nat ->
  wrap 64 (comb bs) = comb bs.
Proof.
  intros Hb Hl. pose proof (comb_bound bs Hb) as Hc. rewrite Hl in Hc.
  by apply wrap_small.
Qed.

Lemma Forall_map_impl {A B} (P : A -> Prop) (Q : B -> Prop) (f : A -> B) l :
  (forall a, P a -> Q (f a)) -> Forall P l -> Forall Q (map f l).
Proof. intros Hf. induction 1; constructor; auto. Qed.

Section PopCount.
Context (bs : list Z).
Hypothesis Hb : Forall (byte_bound 255) bs.
Hypothesis Hlen : length bs = 8%nat.

Let p1 := map pop_byte1 bs.
Let p2 := map pop_byte2 p1.

Lemma pop_step1 :
  comb bs -[64] Z.land (Z.shiftr (comb bs) 1) 0x5555555555555555 = comb p1.
Proof.
  change 0x5555555555555555 with (comb (replicate 8 0x55)). rewrite <- Hlen at 1.
  rewrite land_shiftr_comb by (done || lia).
  rewrite <- (map_id bs) at 1. rewrite comb_map_sub.
  apply wrap_comb; [|unfold p1; by rewrite length_map].
  eapply Forall_map_impl; [|exact Hb]. intros b ?. by apply (pop_byte_ok b).
Qed.

Lemma pop_step2 :
  Z.land (comb p1) 0x3333333333333333
  +[64] Z.land (Z.shiftr (comb p1) 2) 0x3333333333333333 = comb p2.
Proof.
  assert (Hb1 : Forall (byte_bound 255) p1).
  { eapply Forall_map_impl; [|exact Hb]. intros b ?. by apply (pop_byte_ok b). }
  assert (Hl1 : length p1 = 8%nat) by (unfold p1; by rewrite length_map).
  change 0x3333333333333333 with (comb (replicate 8 0x33)). rewrite <- Hl1.
  rewrite <- (Z.shiftr_0_r (comb p1)) at 1.
  rewrite !land_shiftr_comb by (done || lia). rewrite comb_map_add.
  apply wrap_comb; [|unfold p2, p1; by rewrite !length_map].
  unfold p2, p1. rewrite map_map. eapply Forall_map_impl; [|exact Hb].
  intros b ?. by apply (pop_byte_ok b).
Qed.

Lemma pop_step3 :
  Z.land (comb p2 +[64] Z.shiftr (comb p2) 4) 0x0f0f0f0f0f0f0f0f
  = comb (map (count_ones 8) bs).
Proof.
  assert (Hn2 : Forall nibbles_le4 p2).
  { unfold p2, p1. rewrite map_map. eapply Forall_map_impl; [|exact Hb].
    intros b ?. by apply (pop_byte_ok b). }
  assert (Hl2 : length p2 = 8%nat) by (unfold p2, p1; by rewrite !length_map).
  change 0x0f0f0f0f0f0f0f0f with (comb (replicate 8 15)).
  transitivity (Z.land (comb p2 + Z.shiftr (comb p2) 4)
                       (comb (replicate (length p2) 15))).
  { rewrite Hl2. apply Z.bits_inj'. intros i Hi. tb.
    destruct (Z.ltb_spec i 64); [done|].
    assert (in_u 64 (comb (replicate 8 15))) by (vm_compute; intuition congruence).
    rewrite (high_bits 64 (comb (replicate 8 15))). 2-4: (done || lia).
    by rewrite !andb_false_r. }
  rewrite fold_nibbles by done. unfold p2, p1. rewrite !map_map. f_equal.
  apply map_ext_in. intros b Hin. rewrite List.Forall_forall in Hb.
  by apply (pop_byte_ok b), Hb.
Qed.
End PopCount.

Lemma popCount_count_ones val : 0 <= val < 2 ^ 64 -> popCount val = count_ones 64 val.
Proof.
  intros Hv. change 64%nat with (8 * 8)%nat. rewrite count_ones_bytes.
  rewrite <- (comb_bytes_of 8 val) at 1 by (simpl; lia).
  pose proof (bytes_of_bound 8 val) as Hb. unfold popCount.
  rewrite (pop_step1 _ Hb), (pop_step2 _ Hb), (pop_step3 _ Hb) by done.
  cbn [bytes_of map sum_ones foldr].
  rewrite horizontal_sum by apply count_ones_8_bound. unfold sum_ones. simpl. lia.
Qed.

(** ** Main theorems *)

(** [insertBits] writes exactly one field: reading the field back gives the
    low bits of the inserted value, every bit outside the field is unchanged and
    the result still fits the type. *)
Theorem insertBits_field w val first last b :
  w <= 64 -> in_u w val -> 0 <= last <= first -> first < w ->
  bits (insertBits w val first last b) first last = b mod 2 ^ (first - last + 1) /\
  (forall i, 0 <= i -> (i < last \/ first < i) ->
     Z.testbit (insertBits w val first last b) i = Z.testbit val i) /\
  in_u w (insertBits w val first last b).
Proof.
  intros Hw Hval Hfl Hf. split; [|split].
  - apply Z.bits_inj'. intros i Hi. fold (wrap (first - last + 1) b).
    rewrite bits_testbit, wrap_spec by lia.
    rewrite insertBits_testbit by (done || lia).
    case_cmp; simpl; try lia; (done || (f_equal; lia)).
  - intros i Hi Hout. rewrite insertBits_testbit by (done || lia).
    case_cmp; (done || lia).
  - by apply insertBits_range.
Qed.

Lemma insertBits_field_witness :
  bits (insertBits 16 0xFFFF 7 4 0) 7 4 = 0 /\ insertBits 16 0xFFFF 7 4 0 = 0xFF0F.
Proof.
  split; [|reflexivity].
  destruct (insertBits_field 16 0xFFFF 7 4 0) as [H _];
    [lia | unfold in_u; lia | lia | lia | exact H].
Defined.

(** [reverseBits(val, size)] mirrors the low [size] bytes of the value, for
    every type width and every allowed [size]: bit [i] of the result is bit
    [8 * size - 1 - i] of the value, and the bits above the mirrored bytes are
    zero (whatever the value holds there). *)
Theorem reverseBits_mirror w val size i :
  8 <= w -> (w = 8 -> size = 1%nat) -> 8 * Z.of_nat size <= w ->
  in_u w val -> 0 <= i < w ->
  Z.testbit (reverseBits w val size) i
  = (i <? 8 * Z.of_nat size) && Z.testbit val (8 * Z.of_nat size - 1 - i).
Proof.
  intros Hw H8 Hs Hv Hi. unfold reverseBits.
  destruct (Z.eqb_spec w 8) as [->|].
  - rewrite (H8 eq_refl). apply reverseByte_spec; [exact Hv|lia].
  - rewrite reverseBits_loop_spec by done. case_cmp; [done|apply Z.bits_0].
Qed.

Lemma reverseBits_mirror_witness :
  Z.testbit (reverseBits 16 0x0303 2) 15 = true /\ reverseBits 16 0x0303 1 = 0x00c0.
Proof.
  split; [|reflexivity].
  rewrite (reverseBits_mirror 16 0x0303 2 15); [reflexivity | lia | lia | lia
    | unfold in_u; lia | lia].
Defined.

(** On a non-zero 64-bit value [findMsbSet] returns the position of the
    highest set bit and the portable [findLsbSetFallback] the position of the
    lowest one. *)
Theorem findSet_correct val : 0 < val < 2 ^ 64 ->
  findMsbSet val = Z.log2 val /\ lowest_set val (findLsbSetFallback val).
Proof. intros. auto using findMsbSet_log2, findLsbSetFallback_lowest. Qed.

Lemma findSet_correct_witness :
  findMsbSet 0x50 = 6 /\ lowest_set 0x50 4.
Proof. apply (findSet_correct 0x50). lia. Defined.

(** The branch-free population count is the number of set bits. *)
Theorem popCount_correct val : 0 <= val < 2 ^ 64 -> popCount val = count_ones 64 val.
Proof. apply popCount_count_ones. Qed.

Lemma popCount_correct_witness : popCount 0xF00F = 8.
Proof. rewrite (popCount_correct 0xF00F); [reflexivity | lia]. Defined.

(** [alignToPowerOfTwo] returns the smallest power of two that is not below
    the argument whenever that power fits 64 bits, and 0 otherwise. *)
Theorem alignToPowerOfTwo_correct val : 1 <= val < 2 ^ 64 ->
  if val <=? 2 ^ 63
  then exists k, 0 <= k <= 63 /\ alignToPowerOfTwo val = 2 ^ k /\
         val <= 2 ^ k /\ forall m, 0 <= m -> val <= 2 ^ m -> k <= m
  else alignToPowerOfTwo val = 0.
Proof.
  intros Hv. rewrite alignToPowerOfTwo_pow2 by done.
  pose proof (Z.log2_up_nonneg val).
  destruct (Z.leb_spec val (2 ^ 63)).
  - assert (Hk : Z.log2_up val <= 63) by (apply Z.log2_up_le_pow2; lia).
    exists (Z.log2_up val). split; [lia|]. split; [|split].
    + apply wrap_small. split; [lia|]. apply Z.pow_lt_mono_r; lia.
    + apply Z.log2_up_le_pow2; lia.
    + intros m Hm Hle. apply Z.log2_up_le_pow2; lia.
  - assert (Hk : Z.log2_up val = 64); [|by rewrite Hk].
    assert (63 < Z.log2_up val) by (apply Z.log2_up_lt_pow2; lia).
    assert (Z.log2_up val <= 64) by (apply Z.log2_up_le_pow2; lia). lia.
Qed.

Lemma alignToPowerOfTwo_correct_witness : alignToPowerOfTwo 5 = 8.
Proof.
  destruct (alignToPowerOfTwo_correct 5 ltac:(lia)) as (k & ? & -> & Hle & Hmin).
  assert (k <= 3) by (apply Hmin; lia).
  assert (2 < k) by (apply (Z.pow_lt_mono_r_iff 2); lia).
  replace k with 3 by lia. reflexivity.
Defined.
