(* ===== verification/Intmath.v ===== *)
(** * Intmath: the integer helpers of [base/intmath.hh]

    [w] is the width of the template type [T] (8, 16, 32 or 64).  A shift of the
    operands to unsigned is the identity on the non-negative values the
    [assert]s require. *)

From Stdlib Require Import ZArith Lia Bool.
From stdpp Require Import base tactics option list numbers.
From S2P Require Import Prelude Bitfield.
Open Scope Z_scope.

(** ** Definitions *)

(** One [if (c && (ux & m)) { y += n; ux >>= n; }]. *)
Definition flog2_step (c : bool) (m n : Z) (s : Z * Z) : Z * Z :=
  let '(y, ux) := s in
  if c && negb (Z.land ux m =? 0) then (y + n, Z.shiftr ux n) else (y, ux).

Definition floorLog2 (w x : Z) : Z :=
  let ts := w / 8 in
  let s := flog2_step (8 <=? ts) 0xffffffff00000000 32 (0, x) in
  let s := flog2_step (4 <=? ts) 0x00000000ffff0000 16 s in
  let s := flog2_step (2 <=? ts) 0x000000000000ff00 8 s in
  let s := flog2_step true 0x00000000000000f0 4 s in
  let s := flog2_step true 0x000000000000000c 2 s in
  let '(y, ux) := s in
  if negb (Z.land ux 0x0000000000000002 =? 0) then y + 1 else y.

Definition ceilLog2 (w n : Z) : Z :=
  if n =? 1 then 0 else floorLog2 w (n -[w] 1) + 1.

Definition isPowerOf2 (w n : Z) : bool :=
  negb (n =? 0) && (Z.land n (n -[w] 1) =? 0).

Definition divCeil (w a b : Z) : Z := (a + b -[w] 1) / b.

(** [mulUnsigned] for the types of at most 32 bits; the pair is (high, low). *)
Definition mulUnsigned32 (w val_a val_b : Z) : Z * Z :=
  let product := val_a *[64] val_b in
  (wrap w (Z.shiftr product w), wrap w product).

Definition mulSigned32 (w val_a val_b : Z) : Z * Z :=
  let product := val_a *[64] val_b in
  (swrap w (Z.shiftr product w), swrap w product).

Definition mulUnsignedManual (val_a val_b : Z) : Z * Z :=
  let low := val_a *[64] val_b in
  let A := wrap 32 (Z.shiftr val_a 32) in
  let a := wrap 32 val_a in
  let B := wrap 32 (Z.shiftr val_b 32) in
  let b := wrap 32 val_b in
  let ab := a *[64] b in
  let Ab := A *[64] b in
  let aB := a *[64] B in
  let AB := A *[64] B in
  let c1 := wrap 32 (Z.shiftr ab 32) in
  let c2 := (Z.shiftr c1 1 +[64] Z.shiftr Ab 1) +[64] Z.shiftr aB 1 in
  let c2 := c2 +[64] Z.shiftr ((Z.land c1 0x1 +[64] Z.land Ab 0x1) +[64] Z.land aB 0x1) 1 in
  let c2 := Z.shiftr c2 31 in
  (AB +[64] c2, low).

(** [mulSignedManual]; the arguments are converted to unsigned for the call of
    [mulUnsigned] and the results back to signed. *)
Definition mulSignedManual (val_a val_b : Z) : Z * Z :=
  let '(u_high, u_low) := mulUnsignedManual (wrap 64 val_a) (wrap 64 val_b) in
  let u_high := if val_a <? 0 then u_high -[64] wrap 64 val_b else u_high in
  let u_high := if val_b <? 0 then u_high -[64] wrap 64 val_a else u_high in
  (swrap 64 u_high, swrap 64 u_low).

Definition roundUp (w val align : Z) : Z :=
  let mask := align -[w] 1 in
  Z.land (val +[w] mask) (~[w] mask).

Definition roundDown (w val align : Z) : Z :=
  let mask := align -[w] 1 in
  Z.land val (~[w] mask).

(** ** Logarithms *)

Lemma land_high_half x n : 0 < n -> 0 < x < 2 ^ (2 * n) ->
  (Z.land x (Z.shiftl (Z.ones n) n) = 0 <-> x < 2 ^ n).
Proof.
  intros Hn Hx. split.
  - intros E. destruct (Z.lt_ge_cases x (2 ^ n)) as [|Hge]; [done|].
    assert (n <= Z.log2 x) by (apply Z.log2_le_pow2; lia).
    assert (Z.log2 x < 2 * n) by (apply Z.log2_lt_pow2; lia).
    assert (Ht : Z.testbit (Z.land x (Z.shiftl (Z.ones n) n)) (Z.log2 x) = true).
    { tb. rewrite Z.bit_log2 by lia. case_cmp; (done || lia). }
    rewrite E, Z.bits_0 in Ht. done.
  - intros Hlt. apply Z.bits_inj'. intros i Hi. tb.
    destruct (Z.ltb_spec i n).
    + case_cmp; try lia; apply andb_false_r.
    + by rewrite (high_bits n x) by (unfold in_u; lia).
Qed.

Lemma flog2_step_spec c n y x : 0 < n -> 0 < x < 2 ^ (2 * n) ->
  (c = false -> x < 2 ^ n) ->
  let '(y', x') := flog2_step c (Z.shiftl (Z.ones n) n) n (y, x) in
  0 < x' < 2 ^ n /\ y' + Z.log2 x' = y + Z.log2 x.
Proof.
  intros Hn Hx Hc. unfold flog2_step. pose proof (land_high_half x n Hn Hx) as Hiff.
  destruct (Z.eqb_spec (Z.land x (Z.shiftl (Z.ones n) n)) 0) as [E|E].
  - rewrite andb_false_r. apply Hiff in E. lia.
  - assert (Hge : 2 ^ n <= x) by lia.
    destruct c; [simpl|specialize (Hc eq_refl); lia].
    rewrite (log2_shift n x), Z.shiftr_div_pow2 by lia. split; [|lia]. split.
    + apply Z.div_str_pos. lia.
    + apply Z.div_lt_upper_bound; [lia|]. rewrite <- Z.pow_add_r by lia.
      replace (n + n) with (2 * n) by lia. lia.
Qed.

Lemma flog2_step_false m n s : flog2_step false m n s = s.
Proof. by destruct s. Qed.

(** The rounds that every type goes through, from a value of one byte. *)
Definition flog2_byte (s : Z * Z) : Z :=
  let s := flog2_step true 0x00000000000000f0 4 s in
  let s := flog2_step true 0x000000000000000c 2 s in
  let '(y, ux) := s in
  if negb (Z.land ux 0x0000000000000002 =? 0) then y + 1 else y.

Ltac flog2_round m n y x :=
  let H := fresh "H" in let E := fresh "E" in
  pose proof (flog2_step_spec true n y x ltac:(lia)) as H;
  change (Z.shiftl (Z.ones n) n) with m in H;
  let y' := fresh "y" in let x' := fresh "x" in
  destruct (flog2_step true m n (y, x)) as [y' x']; destruct H as [H E]; [lia|done|].

Lemma flog2_byte_spec y x : 0 < x < 2 ^ 8 -> flog2_byte (y, x) = y + Z.log2 x.
Proof.
  intros Hx. unfold flog2_byte.
  flog2_round 0xf0 4 y x. flog2_round 0xc 2 y0 x0.
  assert (x1 = 1 \/ x1 = 2 \/ x1 = 3) as [-> | [-> | ->]] by lia;
    [change (Z.log2 1) with 0 in * | change (Z.log2 2) with 1 in *
    | change (Z.log2 3) with 1 in *]; simpl; lia.
Qed.

Lemma flog2_half_spec y x : 0 < x < 2 ^ 16 ->
  flog2_byte (flog2_step true 0xff00 8 (y, x)) = y + Z.log2 x.
Proof. intros Hx. flog2_round 0xff00 8 y x. rewrite flog2_byte_spec; lia. Qed.

Lemma flog2_word_spec y x : 0 < x < 2 ^ 32 ->
  flog2_byte (flog2_step true 0xff00 8 (flog2_step true 0xffff0000 16 (y, x)))
  = y + Z.log2 x.
Proof. intros Hx. flog2_round 0xffff0000 16 y x. rewrite flog2_half_spec; lia. Qed.

Lemma flog2_dword_spec y x : 0 < x < 2 ^ 64 ->
  flog2_byte (flog2_step true 0xff00 8 (flog2_step true 0xffff0000 16
    (flog2_step true 0xffffffff00000000 32 (y, x)))) = y + Z.log2 x.
Proof. intros Hx. flog2_round 0xffffffff00000000 32 y x. rewrite flog2_word_spec; lia. Qed.

(** The widths of the integral types. *)
Definition type_width (w : Z) : Prop := w = 8 \/ w = 16 \/ w = 32 \/ w = 64.

Lemma floorLog2_log2 w x : type_width w -> 0 < x < 2 ^ w -> floorLog2 w x = Z.log2 x.
Proof.
  intros Hw Hx. unfold floorLog2. fold (flog2_byte (flog2_step (2 <=? w / 8) 0xff00 8
    (flog2_step (4 <=? w / 8) 0xffff0000 16
       (flog2_step (8 <=? w / 8) 0xffffffff00000000 32 (0, x))))).
  destruct Hw as [-> | [-> | [-> | ->]]].
  - apply (flog2_byte_spec 0 x Hx).
  - apply (flog2_half_spec 0 x Hx).
  - apply (flog2_word_spec 0 x Hx).
  - apply (flog2_dword_spec 0 x Hx).
Qed.

Lemma ceilLog2_log2_up w n : type_width w -> 0 < n < 2 ^ w -> ceilLog2 w n = Z.log2_up n.
Proof.
  intros Hw Hn. unfold ceilLog2. destruct (Z.eqb_spec n 1) as [->|]; [done|].
  rewrite wrap_small by (unfold in_u; lia). rewrite floorLog2_log2 by (done || lia).
  unfold Z.log2_up. destruct (Z.compare_spec 1 n); [lia| |lia].
  rewrite Z.sub_1_r. lia.
Qed.

(** ** Powers of two *)

Lemma isPowerOf2_iff w n : in_u w n ->
  isPowerOf2 w n = true <-> exists k, 0 <= k /\ n = 2 ^ k.
Proof.
  intros Hn. unfold isPowerOf2. rewrite andb_true_iff, negb_true_iff, Z.eqb_neq, Z.eqb_eq.
  unfold in_u in Hn. split.
  - intros [Hne E]. rewrite wrap_small in E by (unfold in_u; lia).
    exists (Z.log2 n). split; [apply Z.log2_nonneg|].
    pose proof (Z.log2_spec n ltac:(lia)) as [Hl Hu].
    destruct (Z.eq_dec n (2 ^ Z.log2 n)) as [|Hd]; [done|]. exfalso.
    assert (Hlog : Z.log2 (n - 1) = Z.log2 n)
      by (apply Z.log2_unique; [apply Z.log2_nonneg|lia]).
    assert (Ht : Z.testbit (Z.land n (n - 1)) (Z.log2 n) = true).
    { rewrite Z.land_spec, Z.bit_log2 by lia. rewrite <- Hlog at 1.
      rewrite Z.bit_log2; [done|]. pose proof (Z.log2_nonneg n).
      assert (1 <= 2 ^ Z.log2 n) by lia. lia. }
    rewrite E, Z.bits_0 in Ht. done.
  - intros (k & Hk & ->). assert (0 < 2 ^ k) by lia. split; [lia|].
    rewrite wrap_small by (unfold in_u; lia).
    replace (2 ^ k - 1) with (Z.ones k) by (rewrite Z.ones_equiv; lia).
    rewrite Z.land_ones by done. apply Z_mod_same_full.
Qed.

Lemma land_not_ones w k x : 0 <= k <= w -> in_u w x ->
  Z.land x (~[w] Z.ones k) = x / 2 ^ k * 2 ^ k.
Proof.
  intros Hk Hx. rewrite <- Z.shiftr_div_pow2, <- Z.shiftl_mul_pow2 by lia.
  apply Z.bits_inj'. intros i Hi. tb. destruct (Z.ltb_spec i k).
  - rewrite (Z.testbit_neg_r (Z.shiftr x k)) by lia.
    case_cmp; simpl; rewrite ?andb_false_r; (done || lia).
  - tb. replace (i - k + k) with i by lia. destruct (Z.ltb_spec i w).
    + case_cmp; simpl; try lia; by rewrite andb_true_r.
    + by rewrite (high_bits w x) by (done || lia).
Qed.

(** ** Wide multiplication *)

Lemma split32 x : in_u 64 x ->
  wrap 32 (Z.shiftr x 32) = x / 2 ^ 32 /\ in_u 32 (x / 2 ^ 32) /\ in_u 32 (wrap 32 x) /\
  x = x / 2 ^ 32 * 2 ^ 32 + wrap 32 x.
Proof.
  intros [Hl Hh]. rewrite Z.shiftr_div_pow2 by lia.
  assert (in_u 32 (x / 2 ^ 32)).
  { split; [apply Z.div_pos; lia|]. apply Z.div_lt_upper_bound; lia. }
  split; [by apply wrap_small|]. split; [done|]. split; [by apply wrap_range|].
  unfold wrap. pose proof (Z.div_mod x (2 ^ 32)). lia.
Qed.

Lemma mul32_small x y : in_u 32 x -> in_u 32 y ->
  x *[64] y = x * y /\ 0 <= x * y <= (2 ^ 32 - 1) * (2 ^ 32 - 1).
Proof.
  unfold in_u. intros Hx Hy.
  assert (0 <= x * y <= (2 ^ 32 - 1) * (2 ^ 32 - 1)) by nia.
  split; [|done]. apply wrap_small. unfold in_u. lia.
Qed.

(** The halved additions keep every carry: [c2] is the exact sum divided by
    [2 ^ 32]. *)
Lemma carry_sum c1 p q : in_u 32 c1 ->
  0 <= p <= (2 ^ 32 - 1) * (2 ^ 32 - 1) -> 0 <= q <= (2 ^ 32 - 1) * (2 ^ 32 - 1) ->
  let c2 := (Z.shiftr c1 1 +[64] Z.shiftr p 1) +[64] Z.shiftr q 1 in
  let c2 := c2 +[64] Z.shiftr ((Z.land c1 0x1 +[64] Z.land p 0x1) +[64] Z.land q 0x1) 1 in
  Z.shiftr c2 31 = (c1 + p + q) / 2 ^ 32.
Proof.
  intros Hc Hp Hq. unfold in_u in Hc. cbv zeta.
  assert (Hl1 : forall x, Z.land x 1 = x mod 2) by (intros; apply (Z.land_ones _ 1); lia).
  rewrite !Z.shiftr_div_pow2, !Hl1 by lia. change (2 ^ 1) with 2.
  pose proof (Z.div_mod c1 2 ltac:(lia)). pose proof (Z.mod_pos_bound c1 2 ltac:(lia)).
  pose proof (Z.div_mod p 2 ltac:(lia)). pose proof (Z.mod_pos_bound p 2 ltac:(lia)).
  pose proof (Z.div_mod q 2 ltac:(lia)). pose proof (Z.mod_pos_bound q 2 ltac:(lia)).
  rewrite (wrap_small 64 (c1 mod 2 + p mod 2)) by (unfold in_u; lia).
  rewrite (wrap_small 64 (c1 mod 2 + p mod 2 + q mod 2)) by (unfold in_u; lia).
  set (r := c1 mod 2 + p mod 2 + q mod 2) in *.
  pose proof (Z.div_mod r 2 ltac:(lia)). pose proof (Z.mod_pos_bound r 2 ltac:(lia)).
  rewrite (wrap_small 64 (c1 / 2 + p / 2)) by (unfold in_u; lia).
  rewrite (wrap_small 64 (c1 / 2 + p / 2 + q / 2)) by (unfold in_u; lia).
  rewrite (wrap_small 64 (_ + r / 2)) by (unfold in_u; lia).
  replace (c1 / 2 + p / 2 + q / 2 + r / 2) with ((c1 + p + q) / 2).
  - rewrite Z.div_div by lia. done.
  - symmetry. apply (Z.div_unique _ _ _ (r mod 2)); lia.
Qed.

Lemma mulUnsignedManual_exact a b : in_u 64 a -> in_u 64 b ->
  let '(high, low) := mulUnsignedManual a b in
  in_u 64 high /\ in_u 64 low /\ high * 2 ^ 64 + low = a * b.
Proof.
  intros Ha Hb. unfold mulUnsignedManual.
  destruct (split32 a Ha) as (EA & HA & Hal & Ea).
  destruct (split32 b Hb) as (EB & HB & Hbl & Eb). rewrite EA, EB.
  set (A := a / 2 ^ 32) in *. set (B := b / 2 ^ 32) in *.
  set (x := wrap 32 a) in *. set (y := wrap 32 b) in *.
  destruct (mul32_small x y Hal Hbl) as [-> Hxy].
  destruct (mul32_small A y HA Hbl) as [-> HAy].
  destruct (mul32_small x B Hal HB) as [-> HxB].
  destruct (mul32_small A B HA HB) as [-> HAB].
  destruct (split32 (x * y)) as (-> & Hc1 & _ & _); [unfold in_u; lia|]. rewrite carry_sum by done.
  set (c := (x * y / 2 ^ 32 + A * y + x * B) / 2 ^ 32).
  pose proof (Z.div_mod (x * y) (2 ^ 32) ltac:(lia)) as D1.
  pose proof (Z.mod_pos_bound (x * y) (2 ^ 32) ltac:(lia)) as M1.
  pose proof (Z.div_mod (x * y / 2 ^ 32 + A * y + x * B) (2 ^ 32) ltac:(lia)) as D2.
  pose proof (Z.mod_pos_bound (x * y / 2 ^ 32 + A * y + x * B) (2 ^ 32) ltac:(lia)) as M2.
  fold c in D2.
  assert (Eab : a * b = (A * B + c) * 2 ^ 64
    + ((x * y / 2 ^ 32 + A * y + x * B) mod 2 ^ 32 * 2 ^ 32 + x * y mod 2 ^ 32)).
  { rewrite Ea, Eb. change (2 ^ 64) with (2 ^ 32 * 2 ^ 32). lia. }
  set (low := (_ + _ + _) mod _ * _ + _) in Eab.
  assert (Hlow : a *[64] b = low).
  { unfold wrap. symmetry. apply (Z.mod_unique_pos _ _ (A * B + c)); unfold low; lia. }
  assert (Hhi : in_u 64 (A * B + c)).
  { unfold in_u in *. split; [nia|]. apply (Z.mul_lt_mono_pos_r (2 ^ 64)); [lia|].
    assert (a * b <= (2 ^ 64 - 1) * (2 ^ 64 - 1)) by nia. unfold low in Eab. lia. }
  rewrite Hlow, wrap_small by done. split; [done|].
  split; [unfold in_u, low; lia | lia].
Qed.

Lemma mulSignedManual_exact a b : in_s 64 a -> in_s 64 b ->
  let '(high, low) := mulSignedManual a b in
  in_s 64 high /\ high * 2 ^ 64 + wrap 64 low = a * b.
Proof.
  intros Ha Hb. unfold mulSignedManual.
  pose proof (mulUnsignedManual_exact (wrap 64 a) (wrap 64 b)
                (wrap_range 64 a ltac:(lia)) (wrap_range 64 b ltac:(lia))) as Hm.
  destruct (mulUnsignedManual (wrap 64 a) (wrap 64 b)) as [uh ul].
  destruct Hm as (Huh & Hul & Hm).
  set (sa := if a <? 0 then 1 else 0). set (sb := if b <? 0 then 1 else 0).
  assert (Ea : wrap 64 a = a + sa * 2 ^ 64).
  { unfold sa, in_s in *. case_cmp; [apply wrap_neg|rewrite wrap_small]; unfold in_u; lia. }
  assert (Eb : wrap 64 b = b + sb * 2 ^ 64).
  { unfold sb, in_s in *. case_cmp; [apply wrap_neg|rewrite wrap_small]; unfold in_u; lia. }
  set (h := uh - sa * wrap 64 b - sb * wrap 64 a + sa * sb * 2 ^ 64).
  assert (Eh : h * 2 ^ 64 + ul = a * b) by (unfold h; rewrite Ea, Eb in *; lia).
  assert (Hh : in_s 64 h).
  { unfold in_s, in_u in *. assert (- 2 ^ 126 <= a * b <= 2 ^ 126) by nia. lia. }
  rewrite wrap_swrap, (wrap_small 64 ul) by done.
  replace (swrap 64 _) with h; [done|].
  rewrite <- (swrap_small 64 h) by (done || lia). unfold h.
  rewrite swrap_eqm. unfold sa, sb.
  destruct (a <? 0), (b <? 0); rewrite ?swrap_wrap, ?Z.mul_0_l, ?Z.mul_1_l, ?Z.sub_0_r; try done.
  unfold swrap. by rewrite wrap_sub_idemp_l.
Qed.

(** ** Main theorems *)

(** The integer logarithms are exact on every positive value of every
    integral width, and [isPowerOf2] recognises exactly the powers of two. *)
Theorem log2_correct w n : type_width w -> 0 < n < 2 ^ w ->
  floorLog2 w n = Z.log2 n /\ ceilLog2 w n = Z.log2_up n /\
  (isPowerOf2 w n = true <-> exists k, 0 <= k /\ n = 2 ^ k).
Proof.
  intros. split; [by apply floorLog2_log2|]. split; [by apply ceilLog2_log2_up|].
  apply isPowerOf2_iff. unfold in_u. lia.
Qed.

Lemma log2_correct_witness : floorLog2 32 1000 = 9 /\ ceilLog2 32 1000 = 10.
Proof.
  destruct (log2_correct 32 1000) as (-> & -> & _);
    [right; right; left; reflexivity | lia | split; reflexivity].
Defined.

(** The portable 64-bit multiplications return the exact 128-bit product as
    a (high, low) pair, unsigned and signed. *)
Theorem mulManual_exact a b c d :
  in_u 64 a -> in_u 64 b -> in_s 64 c -> in_s 64 d ->
  (let '(high, low) := mulUnsignedManual a b in
   in_u 64 high /\ in_u 64 low /\ high * 2 ^ 64 + low = a * b) /\
  (let '(high, low) := mulSignedManual c d in
   in_s 64 high /\ high * 2 ^ 64 + wrap 64 low = c * d).
Proof.
  intros. split; [by apply mulUnsignedManual_exact | by apply mulSignedManual_exact].
Qed.

Lemma mulManual_exact_witness :
  let '(high, low) := mulSignedManual (-3) 5 in high * 2 ^ 64 + wrap 64 low = -15.
Proof.
  apply (mulManual_exact (2 ^ 63) 6 (-3) 5); unfold in_u, in_s; lia.
Defined.

(** For a power-of-two alignment, [roundDown] is the largest multiple not
    above the value and [roundUp] the smallest not below it, when the latter
    does not overflow the type. *)
Theorem round_correct w val k : 0 <= k < w -> in_u w val ->
  let align := 2 ^ k in
  roundDown w val align = val / align * align /\
  (val + align - 1 < 2 ^ w ->
   roundUp w val align = (val + align - 1) / align * align).
Proof.
  intros Hk Hv align. unfold align, roundDown, roundUp.
  assert (0 < 2 ^ k) by lia. assert (2 ^ k < 2 ^ w) by (apply Z.pow_lt_mono_r; lia).
  rewrite !(wrap_small w (2 ^ k - 1)) by (unfold in_u; lia).
  replace (2 ^ k - 1) with (Z.ones k) at 1 by (rewrite Z.ones_equiv; lia).
  unfold in_u in Hv. split.
  - apply land_not_ones; unfold in_u; lia.
  - intros Hov. rewrite (wrap_small w (val + _)) by (unfold in_u; lia).
    replace (~[w] (2 ^ k - 1)) with (~[w] Z.ones k) by (rewrite Z.ones_equiv; do 2 f_equal; lia).
    rewrite land_not_ones by (unfold in_u; lia). do 2 f_equal. lia.
Qed.

Lemma round_correct_witness : roundDown 64 100 64 = 64 /\ roundUp 64 100 64 = 128.
Proof.
  destruct (round_correct 64 100 6) as [Hd Hu]; [lia | unfold in_u; lia |].
  split; [exact Hd | apply Hu; lia].
Defined.
