(* ===== verification/SatCounter.v ===== *)
(** * SatCounter: the saturating counter of [base/sat_counter.hh]

    [GenericSatCounter<T>] for an unsigned [T] of [w] bits.  The branch
    predictors, the replacement policies and the prefetchers are built on it. *)

From Stdlib Require Import ZArith Lia Bool.
From stdpp Require Import base tactics option list numbers.
From S2P Require Import Prelude.
Open Scope Z_scope.

Record SatCounter := mkSat { initialVal : Z; maxVal : Z; counter : Z }.

Definition set_counter (c : SatCounter) (v : Z) : SatCounter :=
  mkSat (initialVal c) (maxVal c) v.

(** ** Operations *)

(** The constructor; [fatal_if] is [Err Fatal]. *)
Definition SatCounter_new (w bits initial_val : Z) : res SatCounter :=
  let maxVal := wrap w ((1 <<[64] bits) -[64] 1) in
  if w <? bits then Err Fatal
  else if maxVal <? initial_val then Err Fatal
  else Ok (mkSat initial_val maxVal initial_val).

(** [swap] exchanges all three members. *)
Definition swap (a b : SatCounter) : SatCounter * SatCounter := (b, a).

(** Move construction and assignment: the source becomes a zero-bit counter. *)
Definition move (other : SatCounter) : SatCounter * SatCounter :=
  let temp := mkSat 0 0 0 in
  let '(other', _) := swap other temp in
  (mkSat (initialVal other) (maxVal other) (counter other), other').

Definition incr (c : SatCounter) : SatCounter :=
  if counter c <? maxVal c then set_counter c (counter c + 1) else c.

Definition decr (c : SatCounter) : SatCounter :=
  if 0 <? counter c then set_counter c (counter c - 1) else c.

(** The post operators return the old value with the new one. *)
Definition post_incr (c : SatCounter) : SatCounter * SatCounter := (c, incr c).

Definition post_decr (c : SatCounter) : SatCounter * SatCounter := (c, decr c).

Definition shr_assign (c : SatCounter) (shift : Z) : SatCounter :=
  set_counter c (Z.shiftr (counter c) shift).

Definition shl_assign (w : Z) (c : SatCounter) (shift : Z) : SatCounter :=
  let c := set_counter c (counter c <<[w] shift) in
  if maxVal c <? counter c then set_counter c (maxVal c) else c.

(** [+=] and [-=] call each other on a negative argument; the call made has a
    positive one, so one unfolding of each is the whole recursion. *)
Definition add_nonneg (c : SatCounter) (value : Z) : SatCounter :=
  if value <=? maxVal c - counter c then set_counter c (counter c + value)
  else set_counter c (maxVal c).

Definition sub_nonneg (c : SatCounter) (value : Z) : SatCounter :=
  if value <? counter c then set_counter c (counter c - value)
  else set_counter c 0.

Definition add_assign (c : SatCounter) (value : Z) : SatCounter :=
  if 0 <=? value then add_nonneg c value else sub_nonneg c (- value).

Definition sub_assign (c : SatCounter) (value : Z) : SatCounter :=
  if 0 <=? value then sub_nonneg c value else add_nonneg c (- value).

Definition reset (c : SatCounter) : SatCounter := set_counter c (initialVal c).

Definition isSaturated (c : SatCounter) : bool := counter c =? maxVal c.

Definition saturate (c : SatCounter) : Z * SatCounter :=
  (maxVal c - counter c, set_counter c (maxVal c)).

(** ** Invariant *)

Record sat_wf (w : Z) (c : SatCounter) : Prop := {
  wf_max : in_u w (maxVal c);
  wf_init : 0 <= initialVal c <= maxVal c;
  wf_counter : 0 <= counter c <= maxVal c
}.

(** The mutating operations of the class, as labels of a transition. *)
Inductive sat_op : Type :=
| OpIncr | OpDecr | OpShr (n : Z) | OpShl (n : Z) | OpAdd (v : Z) | OpSub (v : Z)
| OpReset | OpSaturate.

Definition sat_step (w : Z) (o : sat_op) (c : SatCounter) : SatCounter :=
  match o with
  | OpIncr => incr c
  | OpDecr => decr c
  | OpShr n => shr_assign c n
  | OpShl n => shl_assign w c n
  | OpAdd v => add_assign c v
  | OpSub v => sub_assign c v
  | OpReset => reset c
  | OpSaturate => snd (saturate c)
  end.

(** The [assert]s of the shift operators. *)
Definition op_allowed (o : sat_op) : Prop :=
  match o with OpShr n | OpShl n => 0 <= n | _ => True end.

Definition clamp (c : SatCounter) (v : Z) : Z := Z.max 0 (Z.min (maxVal c) v).

Lemma set_counter_wf w c v : sat_wf w c -> 0 <= v <= maxVal c -> sat_wf w (set_counter c v).
Proof. intros [] ?. by constructor. Qed.

Lemma set_counter_set c x y : set_counter (set_counter c x) y = set_counter c y.
Proof. done. Qed.

Lemma sat_step_wf w o c : 0 <= w -> op_allowed o -> sat_wf w c -> sat_wf w (sat_step w o c).
Proof.
  intros Hw Ho Hc. pose proof Hc as [Hm Hi Hcn].
  assert (Hsh : forall n, 0 <= n -> 0 <= Z.shiftr (counter c) n <= maxVal c)
    by (intros n Hn; pose proof (shiftr_le (counter c) n); lia).
  assert (Hwr : forall x, 0 <= wrap w x) by (intros; by apply wrap_range).
  destruct o as [| |n|n|v|v| |]; simpl in *;
    unfold incr, decr, shr_assign, shl_assign, add_assign, sub_assign, add_nonneg,
      sub_nonneg, reset; simpl; case_ifs; b2p; try done;
    rewrite ?set_counter_set; apply set_counter_wf; simpl; eauto; lia.
Qed.

Definition sat_run (w : Z) (os : list sat_op) (c : SatCounter) : SatCounter :=
  foldl (fun c o => sat_step w o c) c os.

Lemma SatCounter_new_wf w bits v c : 0 <= w <= 64 -> 0 <= bits < 64 -> 0 <= v ->
  SatCounter_new w bits v = Ok c ->
  sat_wf w c /\ maxVal c = 2 ^ bits - 1 /\ counter c = v.
Proof.
  intros Hw Hb Hv. unfold SatCounter_new. rewrite Z.shiftl_1_l.
  assert (1 <= 2 ^ bits < 2 ^ 64) by (split; [lia|apply Z.pow_lt_mono_r; lia]).
  rewrite (wrap_small 64 (2 ^ bits)), (wrap_small 64 (_ - 1)) by (unfold in_u; lia).
  destruct (Z.ltb_spec w bits); [done|].
  assert (2 ^ bits <= 2 ^ w) by (apply Z.pow_le_mono_r; lia).
  rewrite wrap_small by (unfold in_u; lia).
  destruct (Z.ltb_spec (2 ^ bits - 1) v); [done|]. intros [= <-].
  split; [constructor; simpl; unfold in_u; lia|done].
Qed.

(** ** Main theorems *)

(** Every counter the constructor accepts stays within its bounds under any
    sequence of the class's operators, with its maximum and reset value
    unchanged. *)
Theorem sat_invariant w bits v c os :
  0 <= w <= 64 -> 0 <= bits < 64 -> 0 <= v -> Forall op_allowed os ->
  SatCounter_new w bits v = Ok c ->
  let c' := sat_run w os c in
  0 <= counter c' <= maxVal c' /\ maxVal c' = 2 ^ bits - 1 /\ initialVal c' = v.
Proof.
  intros Hw Hb Hv Hos Hnew. apply SatCounter_new_wf in Hnew as Hwf; [|done..].
  destruct Hwf as (Hwf & Hmax & _).
  assert (Hinit : initialVal c = v).
  { unfold SatCounter_new in Hnew. case_ifs_in Hnew; by inv Hnew. }
  clear Hnew. revert c Hwf Hmax Hinit. unfold sat_run.
  induction Hos as [|o os Ho _ IH]; intros c Hwf Hmax Hinit; simpl.
  - destruct Hwf. auto.
  - assert (Hsame : maxVal (sat_step w o c) = maxVal c /\
                    initialVal (sat_step w o c) = initialVal c).
    { destruct o; simpl; unfold incr, decr, shr_assign, shl_assign, add_assign,
        sub_assign, add_nonneg, sub_nonneg, reset; case_ifs; done. }
    apply IH; [apply sat_step_wf; [lia|done|done] | by destruct Hsame as [-> _]
              | by destruct Hsame as [_ ->]].
Qed.

Lemma sat_invariant_witness :
  let c' := sat_run 8 [OpIncr; OpAdd 9; OpDecr; OpShl 3] (mkSat 1 3 1) in
  0 <= counter c' <= maxVal c' /\ maxVal c' = 3 /\ initialVal c' = 1.
Proof.
  apply (sat_invariant 8 2 1); [lia | lia | lia | | reflexivity].
  repeat constructor; simpl; lia.
Defined.

(** The arithmetic operators are exactly addition and subtraction clamped to
    [[0, maxVal]], for arguments of either sign, and [<<=] is clamped
    multiplication as long as the shifted value fits the underlying type. *)
Theorem sat_arith w c v n : sat_wf w c -> 0 <= n -> counter c * 2 ^ n < 2 ^ w ->
  counter (incr c) = clamp c (counter c + 1) /\
  counter (decr c) = clamp c (counter c - 1) /\
  counter (add_assign c v) = clamp c (counter c + v) /\
  counter (sub_assign c v) = clamp c (counter c - v) /\
  counter (shr_assign c n) = counter c / 2 ^ n /\
  counter (shl_assign w c n) = clamp c (counter c * 2 ^ n).
Proof.
  intros [Hm Hi Hc] Hn Hov. unfold clamp.
  assert (0 <= counter c * 2 ^ n) by nia.
  unfold incr, decr, add_assign, sub_assign, add_nonneg, sub_nonneg, shr_assign, shl_assign.
  rewrite Z.shiftl_mul_pow2, Z.shiftr_div_pow2 by done. simpl.
  rewrite (wrap_small w) by (unfold in_u; lia).
  repeat split; case_ifs; b2p; simpl; lia.
Qed.

Lemma sat_arith_witness :
  counter (add_assign (mkSat 0 7 5) 4) = 7 /\ counter (sub_assign (mkSat 0 7 5) (-1)) = 6.
Proof.
  assert (Hwf : sat_wf 8 (mkSat 0 7 5)) by (constructor; unfold in_u; simpl; lia).
  pose proof (sat_arith 8 (mkSat 0 7 5) 4 0 Hwf ltac:(lia) ltac:(simpl; lia)) as H1.
  pose proof (sat_arith 8 (mkSat 0 7 5) (-1) 0 Hwf ltac:(lia) ltac:(simpl; lia)) as H2.
  split; [apply H1 | apply H2].
Defined.

(** [<<=] does not saturate when bits are shifted out of the underlying
    type: an 8-bit counter at 129 shifted left by one drops to 2, below its
    value before the shift and far from its maximum 255. *)
Theorem shl_wraps_instead_of_saturating :
  exists c, SatCounter_new 8 8 129 = Ok c /\
    maxVal c = 255 /\ counter (shl_assign 8 c 1) = 2.
Proof. eexists. split; [reflexivity|]. split; reflexivity. Qed.
