(* ===== verification/EventQueue.v ===== *)
(** * EventQueue: the event queue of [sim/eventq.hh] and [sim/eventq.cc]

    The queue is a linked list of linked lists threaded through the events: the
    top event of each bin (one bin per time and priority) points to the next bin
    with [nextBin], and the events of a bin form a stack along [nextInBin].  The
    [nextBin] fields of the events below the top of a stack may be stale.

    The model keeps the pointers: events live in a heap and every operation
    reads and writes the fields the source reads and writes.  [brepr] relates
    a heap to the abstract queue, a list of bins sorted by key, and the
    refinement theorems state that the pointer code implements the abstract
    operations.  Traversals of the lists have a fuel, the number of events in
    the heap; the theorems show that it is never exhausted. *)

From Stdlib Require Import ZArith Lia Bool.
From stdpp Require Import base tactics option list numbers gmap sorting.
From S2P Require Import Prelude.
Open Scope Z_scope.

(** ** Flags ([base/flags.hh], with a 16-bit container) *)

Module Flags.
Definition isSet (flags mask : Z) : bool := negb (Z.land flags mask =? 0).
Definition allSet (flags mask : Z) : bool := Z.land flags mask =? mask.
Definition noneSet (flags mask : Z) : bool := Z.land flags mask =? 0.
Definition clear (flags mask : Z) : Z := Z.land flags (~[16] mask).
Definition set (flags mask : Z) : Z := Z.lor flags mask.
Definition set_if (flags mask : Z) (condition : bool) : Z :=
  if condition then set flags mask else clear flags mask.
Definition replace (flags new mask : Z) : Z :=
  Z.lor (Z.land flags (~[16] mask)) (Z.land new mask).
End Flags.

(** ** Events *)

Abbreviation ptr := positive (only parsing).

Definition Squashed : Z := 0x0001.
Definition Scheduled : Z := 0x0002.
Definition Managed : Z := 0x0004.
Definition IsExitEvent : Z := 0x0010.
Definition IsMainQueue : Z := 0x0020.
Definition Initialized : Z := 0x7a40.
Definition InitMask : Z := 0xffc0.
Definition PublicRead : Z := 0x003f.
Definition PublicWrite : Z := 0x001d.

Record Event := mkEvent {
  nextBin : option ptr;
  nextInBin : option ptr;
  when : Z;
  priority : Z;
  flags : Z;
  queue : option ptr
}.

Definition set_nextBin (e : Event) (p : option ptr) : Event :=
  mkEvent p (nextInBin e) (when e) (priority e) (flags e) (queue e).
Definition set_nextInBin (e : Event) (p : option ptr) : Event :=
  mkEvent (nextBin e) p (when e) (priority e) (flags e) (queue e).
Definition set_flags (e : Event) (f : Z) : Event :=
  mkEvent (nextBin e) (nextInBin e) (when e) (priority e) f (queue e).

Definition setWhen (e : Event) (w : Z) (q : ptr) : Event :=
  mkEvent (nextBin e) (nextInBin e) w (priority e) (flags e) (Some q).

(** The constructor, with its [assert]. *)
Definition Event_new (p f : Z) : res Event :=
  check! Flags.noneSet f (~[16] PublicWrite);
  Ok (mkEvent None None 0 p (Z.lor Initialized f) None).

Definition initialized (e : Event) : bool := Z.land (flags e) InitMask =? Initialized.
Definition scheduled (e : Event) : bool := Flags.isSet (flags e) Scheduled.
Definition squashed (e : Event) : bool := Flags.isSet (flags e) Squashed.
Definition isExitEvent (e : Event) : bool := Flags.isSet (flags e) IsExitEvent.
Definition isManaged (e : Event) : bool := Flags.isSet (flags e) Managed.
Definition squash (e : Event) : Event := set_flags e (Flags.set (flags e) Squashed).

(** The comparison operators: time first, then priority. *)
Definition ev_lt (l r : Event) : bool :=
  (when l <? when r) || ((when l =? when r) && (priority l <? priority r)).
Definition ev_le (l r : Event) : bool :=
  (when l <? when r) || ((when l =? when r) && (priority l <=? priority r)).
Definition ev_eq (l r : Event) : bool :=
  (when l =? when r) && (priority l =? priority r).
Definition ev_ne (l r : Event) : bool :=
  negb (when l =? when r) || negb (priority l =? priority r).

Abbreviation heap := (gmap positive Event) (only parsing).

(** ** The lists *)

(** [Event::insertBefore]. *)
Definition insertBefore (h : heap) (event : ptr) (curr : option ptr) : res (heap * ptr) :=
  let! e := deref (h !! event) in
  match curr with
  | None => Ok (<[event := set_nextInBin (set_nextBin e None) None]> h, event)
  | Some c =>
      let! ce := deref (h !! c) in
      if ev_lt e ce
      then Ok (<[event := set_nextInBin (set_nextBin e (Some c)) None]> h, event)
      else Ok (<[event := set_nextInBin (set_nextBin e (nextBin ce)) (Some c)]> h, event)
  end.

(** The loop shared by [insert] and [remove]:
    [while (curr && *curr < *event) { prev = curr; curr = curr->nextBin; }]. *)
Fixpoint find_bin (fuel : nat) (h : heap) (e : Event) (prev : ptr) (curr : option ptr)
  : res (ptr * option ptr) :=
  match curr with
  | None => Ok (prev, None)
  | Some c =>
      match fuel with
      | O => Err OutOfFuel
      | S fuel =>
          let! ce := deref (h !! c) in
          if ev_lt ce e then find_bin fuel h e c (nextBin ce) else Ok (prev, Some c)
      end
  end.

(** [EventQueue::insert], on the heap and the head pointer. *)
Definition insert (h : heap) (head : option ptr) (event : ptr) : res (heap * option ptr) :=
  let! e := deref (h !! event) in
  match head with
  | None =>
      let! (h, new) := insertBefore h event None in Ok (h, Some new)
  | Some hd =>
      let! he := deref (h !! hd) in
      if ev_le e he then
        let! (h, new) := insertBefore h event (Some hd) in Ok (h, Some new)
      else
        let! (prev, curr) := find_bin (size h) h e hd (nextBin he) in
        let! (h, new) := insertBefore h event curr in
        let! pe := deref (h !! prev) in
        Ok (<[prev := set_nextBin pe (Some new)]> h, Some hd)
  end.

(** The loop of [Event::removeItem]: from [curr] and [next], find the
    predecessor of [event] in the bin. *)
Fixpoint find_in_bin (fuel : nat) (h : heap) (event curr : ptr) (next : option ptr)
  : res (ptr * ptr) :=
  match next with
  | None => Err Panicked
  | Some n =>
      if (event =? n)%positive then Ok (curr, n) else
      match fuel with
      | O => Err OutOfFuel
      | S fuel =>
          let! ne := deref (h !! n) in
          find_in_bin fuel h event n (nextInBin ne)
      end
  end.

(** [Event::removeItem]: the new top of the bin. *)
Definition removeItem (h : heap) (event top : ptr) : res (heap * option ptr) :=
  let! te := deref (h !! top) in
  let next := nextInBin te in
  if (event =? top)%positive then
    match next with
    | None => Ok (h, nextBin te)
    | Some n =>
        let! ne := deref (h !! n) in
        Ok (<[n := set_nextBin ne (nextBin te)]> h, Some n)
    end
  else
    let! (curr, n) := find_in_bin (size h) h event top next in
    let! ce := deref (h !! curr) in
    let! ne := deref (h !! n) in
    Ok (<[curr := set_nextInBin ce (nextInBin ne)]> h, Some top).

(** [EventQueue::remove]; [this] is the queue's own address. *)
Definition remove (this : ptr) (h : heap) (head : option ptr) (event : ptr)
  : res (heap * option ptr) :=
  match head with
  | None => Err Panicked
  | Some hd =>
      let! e := deref (h !! event) in
      check! bool_decide (queue e = Some this);
      let! he := deref (h !! hd) in
      if ev_eq he e then removeItem h event hd
      else
        let! (prev, curr) := find_bin (size h) h e hd (nextBin he) in
        match curr with
        | None => Err Panicked
        | Some c =>
            let! ce := deref (h !! c) in
            if ev_ne ce e then Err Panicked
            else
              let! (h, new) := removeItem h event c in
              let! pe := deref (h !! prev) in
              Ok (<[prev := set_nextBin pe new]> h, Some hd)
        end
  end.

(** ** The abstract queue *)

Abbreviation key := (Z * Z)%type (only parsing).

Definition klt (a b : key) : Prop := a.1 < b.1 \/ (a.1 = b.1 /\ a.2 < b.2).

#[export] Instance klt_dec a b : Decision (klt a b).
Proof. unfold klt. apply _. Defined.

#[export] Instance klt_trans : Transitive klt.
Proof. intros a b c. unfold klt. lia. Qed.

#[export] Instance klt_irrefl : Irreflexive klt.
Proof. intros a. unfold complement, klt. lia. Qed.

Definition evkey (e : Event) : key := (when e, priority e).

Lemma ev_lt_klt l r : ev_lt l r = true <-> klt (evkey l) (evkey r).
Proof.
  unfold ev_lt, klt, evkey; simpl.
  rewrite orb_true_iff, andb_true_iff, !Z.ltb_lt, Z.eqb_eq. done.
Qed.

Lemma ev_lt_klt_false l r : ev_lt l r = false <-> ~ klt (evkey l) (evkey r).
Proof. rewrite <- ev_lt_klt. by destruct (ev_lt l r). Qed.

Lemma ev_eq_key l r : ev_eq l r = true <-> evkey l = evkey r.
Proof.
  unfold ev_eq, evkey. rewrite andb_true_iff, !Z.eqb_eq. split.
  - by intros [-> ->].
  - by intros [= -> ->].
Qed.

Lemma ev_ne_eq l r : ev_ne l r = negb (ev_eq l r).
Proof. unfold ev_ne, ev_eq. by rewrite negb_andb. Qed.

Lemma ev_le_key l r : ev_le l r = true <-> klt (evkey l) (evkey r) \/ evkey l = evkey r.
Proof.
  unfold ev_le, klt, evkey; simpl.
  rewrite orb_true_iff, andb_true_iff, Z.ltb_lt, Z.leb_le, Z.eqb_eq.
  split; [|intros [?|[= -> ->]]; lia].
  intros [?|[-> ?]]; [by left; left|].
  destruct (Z.eq_dec (priority l) (priority r)) as [->|]; [by right|left; right; lia].
Qed.

(** A bin is a key with its stack of events, the top first. *)
Abbreviation abin := (Z * Z * list positive)%type (only parsing).

Definition elems (bins : list abin) : list ptr := concat (map snd bins).

Fixpoint ainsert (k : key) (e : ptr) (bins : list abin) : list abin :=
  match bins with
  | [] => [(k, [e])]
  | (k', es) :: rest =>
      if decide (klt k k') then (k, [e]) :: bins
      else if decide (k = k') then (k', e :: es) :: rest
      else (k', es) :: ainsert k e rest
  end.

(** A bin without events leaves the list of bins. *)
Definition mkbin (k : key) (es : list ptr) (rest : list abin) : list abin :=
  match es with [] => rest | _ => (k, es) :: rest end.

Fixpoint aremove (k : key) (e : ptr) (bins : list abin) : option (list abin) :=
  match bins with
  | [] => None
  | (k', es) :: rest =>
      if decide (k' = k) then
        if decide (e ∈ es) then Some (mkbin k' (filter (fun x => x <> e) es) rest) else None
      else if decide (klt k' k) then
        match aremove k e rest with Some r => Some ((k', es) :: r) | None => None end
      else None
  end.

Definition keys (bins : list abin) : list key := map fst bins.

(** ** Representation *)

(** [es] is a [nextInBin] chain of events with key [k]. *)
Fixpoint chain (h : heap) (k : key) (es : list ptr) : Prop :=
  match es with
  | [] => True
  | e :: es' =>
      (exists ev, h !! e = Some ev /\ evkey ev = k /\ nextInBin ev = head es') /\
      chain h k es'
  end.

(** [start] points to the first of the bins, linked by the [nextBin] fields of
    their top events. *)
Fixpoint brepr (h : heap) (start : option ptr) (bins : list abin) : Prop :=
  match bins with
  | [] => start = None
  | (k, es) :: rest =>
      chain h k es /\
      exists e ev, head es = Some e /\ start = Some e /\ h !! e = Some ev /\
        brepr h (nextBin ev) rest
  end.

Record wfq (h : heap) (head : option ptr) (bins : list abin) : Prop := {
  wfq_repr : brepr h head bins;
  wfq_nodup : NoDup (elems bins);
  wfq_sorted : StronglySorted klt (keys bins)
}.

(** What a list operation may not change: the fields other than the links. *)
Definition evdata (e : Event) : Z * Z * Z * option ptr :=
  (when e, priority e, flags e, queue e).

Definition same_data (h h' : heap) : Prop :=
  forall x, evdata <$> h !! x = evdata <$> h' !! x.

#[export] Instance same_data_equiv : Equivalence same_data.
Proof.
  split.
  - intros h x. done.
  - intros h h' H x. done.
  - intros h1 h2 h3 H12 H23 x. by rewrite H12.
Qed.

Lemma same_data_insert h x ev ev' : h !! x = Some ev -> evdata ev' = evdata ev ->
  same_data h (<[x := ev']> h).
Proof.
  intros Hx Hd y. destruct (decide (x = y)) as [->|].
  - by rewrite lookup_insert_eq, Hx; simpl; rewrite Hd.
  - by rewrite lookup_insert_ne.
Qed.

Lemma elems_cons k es bins : elems ((k, es) :: bins) = es ++ elems bins.
Proof. done. Qed.

Lemma chain_frame h h' k es : (forall x, x ∈ es -> h' !! x = h !! x) ->
  chain h k es -> chain h' k es.
Proof.
  induction es as [|e es IH]; simpl; [done|]. intros Hf [(ev & He & ?) Hc]. split.
  - exists ev. rewrite Hf by set_solver. done.
  - apply IH; [set_solver|done].
Qed.

Lemma brepr_frame h h' s bins : (forall x, x ∈ elems bins -> h' !! x = h !! x) ->
  brepr h s bins -> brepr h' s bins.
Proof.
  revert s. induction bins as [|[k es] bins IH]; intros s; simpl; [done|].
  rewrite elems_cons. intros Hf (Hc & e & ev & Hhd & -> & He & Hb). split.
  - eapply chain_frame; [|exact Hc]. set_solver.
  - exists e, ev. split; [done|]. split; [done|]. split.
    + rewrite Hf; [done|]. destruct es; [done|]. simplify_eq/=. set_solver.
    + apply IH; [set_solver|done].
Qed.

(** A write that keeps the key and [nextInBin] of an event keeps every chain. *)
Lemma chain_upd h k es x v v' : h !! x = Some v -> evkey v' = evkey v ->
  nextInBin v' = nextInBin v -> chain h k es -> chain (<[x := v']> h) k es.
Proof.
  intros Hx Hk Hn. induction es as [|e es IH]; simpl; [done|].
  intros [(ev & He & Hke & Hne) Hc]. split; [|auto].
  destruct (decide (x = e)) as [->|].
  - assert (ev = v) as -> by congruence. exists v'. by rewrite lookup_insert_eq, Hk, Hn.
  - exists ev. by rewrite lookup_insert_ne.
Qed.

Lemma chain_lookup h k es x : chain h k es -> x ∈ es ->
  exists ev, h !! x = Some ev /\ evkey ev = k.
Proof.
  induction es as [|e es IH]; simpl; [set_solver|].
  intros [(ev & ? & ? & _) Hc] [->|Hin]%elem_of_cons; eauto.
Qed.

Lemma brepr_lookup h s bins x : brepr h s bins -> x ∈ elems bins -> is_Some (h !! x).
Proof.
  revert s. induction bins as [|[k es] bins IH]; intros s; [set_solver|].
  rewrite elems_cons. intros (Hc & e & ev & _ & _ & _ & Hb) [Hin|Hin]%elem_of_app; [|eauto].
  destruct (chain_lookup _ _ _ _ Hc Hin) as (? & -> & _). eauto.
Qed.

Lemma brepr_length h s bins : brepr h s bins -> (length bins <= length (elems bins))%nat.
Proof.
  revert s. induction bins as [|[k es] bins IH]; intros s; [done|].
  rewrite elems_cons, length_app. intros (_ & e & ev & Hhd & _ & _ & Hb).
  apply IH in Hb. destruct es; [done|]. simpl. lia.
Qed.

Lemma brepr_size h s bins : brepr h s bins -> NoDup (elems bins) ->
  (length (elems bins) <= size h)%nat.
Proof.
  intros Hb Hnd. rewrite <- size_dom.
  rewrite <- (size_list_to_set (C := gset ptr)) by done.
  apply subseteq_size. intros x Hx%elem_of_list_to_set.
  apply elem_of_dom. by eapply brepr_lookup.
Qed.

(** The number of events in the heap is enough fuel for a traversal. *)
Lemma brepr_fuel h s b rest : brepr h s (b :: rest) -> NoDup (elems (b :: rest)) ->
  (length rest <= size h)%nat.
Proof.
  intros Hb Hnd. pose proof (brepr_length _ _ _ Hb) as Hl. simpl length in Hl at 1.
  pose proof (brepr_size _ _ _ Hb Hnd). lia.
Qed.

(** ** Sorting of the abstract operations *)

Lemma klt_total a b : ~ klt a b -> a <> b -> klt b a.
Proof. destruct a, b. unfold klt; simpl. intros ? Hne. assert (z <> z1 \/ z0 <> z2); [|lia].
  destruct (Z.eq_dec z z1), (Z.eq_dec z0 z2); subst; tauto. Qed.

Lemma ainsert_Forall (P : key -> Prop) k e bins :
  P k -> Forall P (keys bins) -> Forall P (keys (ainsert k e bins)).
Proof.
  intros Hk. induction bins as [|[k' es] bins IH]; intros HF; simpl; [by constructor|].
  inv HF. repeat case_decide; repeat constructor; auto.
Qed.

Lemma ainsert_sorted k e bins :
  StronglySorted klt (keys bins) -> StronglySorted klt (keys (ainsert k e bins)).
Proof.
  induction bins as [|[k' es] bins IH]; intros Hs; simpl; [repeat constructor|].
  inv Hs. case_decide as Hlt; [|case_decide as Heq]; simpl.
  - constructor; [by constructor|]. constructor; [done|].
    eapply Forall_impl; [done|]. intros x Hx. by transitivity k'.
  - subst. by constructor.
  - constructor; [auto|]. apply ainsert_Forall; [by apply klt_total|done].
Qed.

Lemma ainsert_elems k e bins : elems (ainsert k e bins) ≡ₚ e :: elems bins.
Proof.
  induction bins as [|[k' es] bins IH]; simpl; [done|].
  repeat case_decide; try done. rewrite !elems_cons, IH.
  by rewrite Permutation_middle.
Qed.

(** ** Insertion *)

Lemma insertBefore_frame h e ev curr h' e' : insertBefore h e curr = Ok (h', e') ->
  h !! e = Some ev -> e' = e /\ (forall x, x <> e -> h' !! x = h !! x) /\ same_data h h'.
Proof.
  unfold insertBefore. intros H He. rewrite He in H. simpl in H.
  destruct curr as [c|].
  - destruct (h !! c) as [ce|]; simpl in H; [|done].
    destruct (ev_lt ev ce); inv H; (split; [done|]; split;
      [intros; by rewrite lookup_insert_ne | by eapply same_data_insert]).
  - inv H. split; [done|]. split;
      [intros; by rewrite lookup_insert_ne | by eapply same_data_insert].
Qed.

(** [insertBefore] at the right place turns the bins [rest] that start at [curr]
    into [ainsert] of them. *)
Lemma insertBefore_spec h e ev curr rest :
  h !! e = Some ev -> e ∉ elems rest -> brepr h curr rest ->
  (forall k, head (keys rest) = Some k -> ~ klt k (evkey ev)) ->
  exists h', insertBefore h e curr = Ok (h', e) /\
    brepr h' (Some e) (ainsert (evkey ev) e rest).
Proof.
  intros He Hnin Hb Hk. unfold insertBefore. rewrite He; simpl.
  destruct rest as [|[k es] rest]; simpl in Hb.
  - subst curr. eexists. split; [done|]. simpl. split.
    + split; [|done]. eexists. rewrite lookup_insert_eq. done.
    + eexists e, _. split; [done|]. split; [done|].
      rewrite lookup_insert_eq. split; [done|]. done.
  - destruct Hb as (Hc & c & ce & Hhd & -> & Hce & Hb). rewrite Hce; simpl.
    specialize (Hk k eq_refl). rewrite elems_cons in Hnin.
    assert (Hkc : evkey ce = k).
    { destruct es; [done|]. simplify_eq/=. destruct Hc as [(? & ? & ? & _) _]. congruence. }
    assert (Hfr : forall v, chain (<[e:=v]> h) k es /\ brepr (<[e:=v]> h) (nextBin ce) rest).
    { intros v. split; [eapply chain_frame; [|exact Hc] | eapply brepr_frame; [|exact Hb]];
        intros x Hx; rewrite lookup_insert_ne; (done || set_solver). }
    assert (Hec : e <> c) by (destruct es; [done|]; simplify_eq/=; set_solver).
    destruct (ev_lt ev ce) eqn:Hlt.
    + apply ev_lt_klt in Hlt. rewrite Hkc in Hlt. eexists. split; [done|].
      rewrite decide_True by done. simpl. split.
      { split; [|done]. eexists. rewrite lookup_insert_eq. done. }
      eexists e, _. split; [done|]. split; [done|]. rewrite lookup_insert_eq.
      split; [done|]. simpl. split; [apply Hfr|]. exists c, ce.
      rewrite lookup_insert_ne by done. split; [done|]. split; [done|].
      split; [done|]. apply Hfr.
    + apply ev_lt_klt_false in Hlt. rewrite Hkc in Hlt. eexists. split; [done|].
      rewrite decide_False by done.
      assert (Hkk : evkey ev = k).
      { destruct (decide (evkey ev = k)) as [|Hne]; [done|]. by apply klt_total in Hne. }
      rewrite decide_True by done. simpl. split; [split|].
      * eexists. rewrite lookup_insert_eq. done.
      * apply Hfr.
      * eexists e, _. split; [done|]. split; [done|]. rewrite lookup_insert_eq.
        split; [done|]. apply Hfr.
Qed.

(** The traversal stops at the last bin [prev] whose key is below that of the
    event; [l] and [r] are the bins before and after it. *)
Lemma find_bin_spec rest : forall fuel h ev p pe kp esp,
  brepr h (Some p) ((kp, esp) :: rest) -> h !! p = Some pe ->
  klt kp (evkey ev) -> (length rest <= fuel)%nat ->
  exists prev curr l kl esl r pre,
    find_bin fuel h ev p (nextBin pe) = Ok (prev, curr) /\
    (kp, esp) :: rest = l ++ (kl, esl) :: r /\
    head esl = Some prev /\ h !! prev = Some pre /\ nextBin pre = curr /\
    brepr h curr r /\
    Forall (fun k => klt k (evkey ev)) (keys (l ++ [(kl, esl)])) /\
    (forall k, head (keys r) = Some k -> ~ klt k (evkey ev)).
Proof.
  induction rest as [|[kc esc] rest IH]; intros fuel h ev p pe kp esp Hb Hp Hk Hf.
  - destruct Hb as (Hc & e & ev' & Hhd & [= ->] & He & Hb).
    simplify_eq. simpl in Hb.
    exists e, None, [], kp, esp, [], ev'. rewrite Hb.
    do 6 (split; [by destruct fuel || done|]).
    split; [by apply Forall_singleton|done].
  - destruct Hb as (Hc & e & ev' & Hhd & [= ->] & He & Hb). simplify_eq.
    pose proof Hb as (Hc' & c & ce & Hhdc & Hnb & Hce & Hb').
    destruct fuel as [|fuel]; [simpl in Hf; lia|]. rewrite Hnb. cbn [find_bin].
    rewrite Hce. simpl.
    assert (Hkc : evkey ce = kc).
    { destruct esc; [done|]. simplify_eq/=. destruct Hc' as [(? & ? & ? & _) _]. congruence. }
    destruct (ev_lt ce ev) eqn:Hlt.
    + apply ev_lt_klt in Hlt. rewrite Hkc in Hlt.
      rewrite Hnb in Hb.
      destruct (IH fuel h ev c ce kc esc) as (prev & curr & l & kl & esl & r & pre & Hfb & Heq & H);
        [done..|simpl in Hf; lia|].
      exists prev, curr, ((kp, esp) :: l), kl, esl, r, pre.
      split; [done|]. split; [by rewrite Heq|].
      destruct H as (? & ? & ? & ? & HF & ?). do 4 (split; [done|]).
      split; [|done]. simpl. by constructor.
    + apply ev_lt_klt_false in Hlt. rewrite Hkc in Hlt.
      exists e, (Some c), [], kp, esp, ((kc, esc) :: rest), ev'.
      rewrite Hnb in Hb. do 6 (split; [done|]).
      split; [by apply Forall_singleton|]. by intros k [= <-].
Qed.

(** Replacing what follows the bin of [prev]. *)
Lemma brepr_splice h h' s l kl esl r r' prev pre new :
  brepr h s (l ++ (kl, esl) :: r) -> head esl = Some prev ->
  NoDup (elems (l ++ [(kl, esl)])) ->
  (forall x, x ∈ elems (l ++ [(kl, esl)]) -> h' !! x = h !! x) ->
  h' !! prev = Some pre ->
  brepr h' new r' -> prev ∉ elems r' ->
  brepr (<[prev := set_nextBin pre new]> h') s (l ++ (kl, esl) :: r').
Proof.
  intros Hb Hhd Hnd Hfr Hpre Hb' Hnin.
  assert (Hprev : prev ∈ esl) by (destruct esl; [done|]; simplify_eq/=; set_solver).
  revert s Hb Hnd Hfr. induction l as [|[k es] l IH]; intros s Hb Hnd Hfr.
  - cbn [app] in *. destruct Hb as (Hc & e & ev & Hhd' & -> & He & _). simplify_eq.
    split.
    + eapply chain_upd; [done|done|done|]. eapply chain_frame; [|exact Hc].
      intros x Hx. apply Hfr. rewrite elems_cons. set_solver.
    + eexists prev, _. split; [done|]. split; [done|]. rewrite lookup_insert_eq.
      split; [done|]. simpl. eapply brepr_frame; [|exact Hb'].
      intros x Hx. rewrite lookup_insert_ne; [done|set_solver].
  - cbn [app] in *. rewrite elems_cons in Hnd, Hfr.
    destruct Hb as (Hc & e & ev & Hhd' & -> & He & Hb).
    assert (Hne : forall x, x ∈ es -> prev <> x).
    { intros x Hx ->. apply NoDup_app in Hnd as (_ & Hd & _). apply (Hd x); [done|].
      unfold elems. rewrite map_app, concat_app. set_solver. }
    split.
    + eapply chain_frame; [|exact Hc]. intros x Hx.
      rewrite lookup_insert_ne by auto. apply Hfr. set_solver.
    + exists e, ev. split; [done|]. split; [done|].
      assert (e ∈ es) by (destruct es; [done|]; simplify_eq/=; set_solver).
      rewrite lookup_insert_ne by auto. rewrite Hfr by set_solver. split; [done|].
      apply IH; [done| |].
      * by apply NoDup_app in Hnd as (_ & _ & ?).
      * intros x Hx. apply Hfr. set_solver.
Qed.

Lemma ainsert_app k e l r : Forall (fun k' => klt k' k) (keys l) ->
  ainsert k e (l ++ r) = l ++ ainsert k e r.
Proof.
  induction l as [|[k' es] l IH]; intros HF; [done|]. inv HF. simpl.
  rewrite decide_False by (intros ?; eapply (irreflexivity klt); by etransitivity).
  rewrite decide_False by (intros ->; by eapply (irreflexivity klt)).
  by rewrite IH.
Qed.

Lemma elems_app l r : elems (l ++ r) = elems l ++ elems r.
Proof. unfold elems. by rewrite map_app, concat_app. Qed.

(** The top event of a bin has the key of the bin. *)
Lemma chain_top h k es e ev : chain h k es -> head es = Some e -> h !! e = Some ev ->
  evkey ev = k.
Proof.
  destruct es; [done|]. intros [(? & ? & ? & _) _] [= ->] ?. congruence.
Qed.

Lemma head_in {A} (l : list A) x : head l = Some x -> x ∈ l.
Proof. destruct l; [done|]. intros [= ->]. set_solver. Qed.

Lemma NoDup_elems_split l kl esl r : NoDup (elems (l ++ (kl, esl) :: r)) ->
  NoDup (elems (l ++ [(kl, esl)])) /\ NoDup (elems r) /\
  (forall x, x ∈ elems (l ++ [(kl, esl)]) -> x ∉ elems r).
Proof.
  replace (l ++ (kl, esl) :: r) with ((l ++ [(kl, esl)]) ++ r) by (by rewrite <- app_assoc).
  rewrite elems_app. intros (? & ? & ?)%NoDup_app. auto.
Qed.

(** The part of [insert] behind the head: the bin is found, and the event put
    behind the bin [prev]. *)
Lemma insert_behind h hd he e ev kh esh rest :
  brepr h (Some hd) ((kh, esh) :: rest) -> NoDup (elems ((kh, esh) :: rest)) ->
  h !! hd = Some he -> h !! e = Some ev -> e ∉ elems ((kh, esh) :: rest) ->
  klt kh (evkey ev) ->
  exists h',
    (let! (prev, curr) := find_bin (size h) h ev hd (nextBin he) in
     let! (h, new) := insertBefore h e curr in
     let! pe := deref (h !! prev) in
     Ok (<[prev := set_nextBin pe (Some new)]> h, Some hd)) = Ok (h', Some hd) /\
    brepr h' (Some hd) (ainsert (evkey ev) e ((kh, esh) :: rest)) /\ same_data h h' /\
    (forall x, x <> e -> x ∉ elems ((kh, esh) :: rest) -> h' !! x = h !! x).
Proof.
  intros Hb Hnd Hhe He Hnin Hlt.
  destruct (find_bin_spec rest (size h) h ev hd he kh esh)
    as (prev & curr & l & kl & esl & r & pre & -> & Heq & Hhdl & Hpre & Hnb & Hr & HF & Hstop);
    [done..|by eapply brepr_fuel|].
  cbn [rbind]. rewrite Heq in Hb, Hnd, Hnin |- *.
  pose proof (head_in _ _ Hhdl) as Hpl.
  destruct (NoDup_elems_split _ _ _ _ Hnd) as (Hndl & _ & Hdisj).
  rewrite elems_app, elems_cons in Hnin.
  assert (Hprev : prev ∈ elems (l ++ [(kl, esl)])) by (rewrite elems_app, elems_cons; set_solver).
  destruct (insertBefore_spec h e ev curr r) as (h' & Hib & Hb'); [done|set_solver|done..|].
  destruct (insertBefore_frame _ _ _ _ _ _ Hib He) as (_ & Hfr & Hsd).
  assert (Hpre' : h' !! prev = Some pre) by (rewrite Hfr; [done|set_solver]).
  rewrite Hib. cbn [rbind]. rewrite Hpre'. cbn [rbind deref].
  eexists. split; [done|]. split; [|split].
  - replace (l ++ (kl, esl) :: r) with ((l ++ [(kl, esl)]) ++ r) by (by rewrite <- app_assoc).
    rewrite ainsert_app by done. rewrite <- app_assoc. simpl.
    eapply brepr_splice with (h := h); [done|done|done| |done|done|].
    + intros x. rewrite elems_app, elems_cons. simpl. intros Hx. apply Hfr. set_solver.
    + rewrite ainsert_elems. intros [->|Hin]%elem_of_cons; [|by eapply Hdisj].
      apply Hnin. apply elem_of_app. right. apply elem_of_app. by left.
  - etransitivity; [exact Hsd|]. by apply same_data_insert with (ev := pre).
  - intros x Hx Hnx. rewrite elems_app, elems_cons in Hnx.
    rewrite lookup_insert_ne by set_solver. auto.
Qed.

(** [insert] refines [ainsert]: it returns, on every well-formed queue and every
    event outside of it; only links change. *)
Lemma insert_refines h head bins e ev :
  wfq h head bins -> h !! e = Some ev -> e ∉ elems bins ->
  exists h' head', insert h head e = Ok (h', head') /\
    wfq h' head' (ainsert (evkey ev) e bins) /\ same_data h h' /\
    (forall x, x <> e -> x ∉ elems bins -> h' !! x = h !! x).
Proof.
  intros [Hb Hnd Hs] He Hnin.
  assert (Hwf : forall h' s, brepr h' s (ainsert (evkey ev) e bins) ->
                  wfq h' s (ainsert (evkey ev) e bins)).
  { intros h' s ?. split; [done| |by apply ainsert_sorted].
    rewrite ainsert_elems. by constructor. }
  unfold insert. rewrite He; cbn [rbind deref]. destruct bins as [|[kh esh] rest].
  - simpl in Hb. subst head.
    destruct (insertBefore_spec h e ev None []) as (h' & Hib & Hb'); [done..|].
    destruct (insertBefore_frame _ _ _ _ _ _ Hib He) as (_ & Hfr & Hsd).
    rewrite Hib. cbn [rbind]. exists h', (Some e). auto.
  - pose proof Hb as (Hc & hd & he & Hhd & -> & Hhe & Hrest). rewrite Hhe. cbn [rbind deref].
    pose proof (chain_top _ _ _ _ _ Hc Hhd Hhe) as Hkh.
    destruct (ev_le ev he) eqn:Hle.
    + apply ev_le_key in Hle. rewrite Hkh in Hle.
      destruct (insertBefore_spec h e ev (Some hd) ((kh, esh) :: rest)) as (h' & Hib & Hb');
        [done..| |].
      { intros k [= <-] Hlt. destruct Hle as [Hle|<-].
        - apply (irreflexivity klt kh). by etransitivity.
        - by apply (irreflexivity klt (evkey ev)). }
      destruct (insertBefore_frame _ _ _ _ _ _ Hib He) as (_ & Hfr & Hsd).
      rewrite Hib. cbn [rbind]. exists h', (Some e). auto.
    + assert (Hlt : klt kh (evkey ev)).
      { rewrite <- not_true_iff_false, ev_le_key, Hkh in Hle.
        apply klt_total; intros ?; apply Hle; auto. }
      destruct (insert_behind h hd he e ev kh esh rest) as (h' & -> & Hb' & ? & ?); [done..|].
      exists h', (Some hd). auto.
Qed.

(** ** Removal *)

Lemma filter_ne_id (e : positive) (es : list positive) : e ∉ es -> filter (fun x => x <> e) es = es.
Proof.
  induction es as [|x es IH]; [done|]. intros Hn.
  rewrite filter_cons_True by set_solver. rewrite IH by set_solver. done.
Qed.

(** Unlinking the successor of [x] in a chain. *)
Lemma chain_unlink h k pre x e suf xe ee :
  NoDup (pre ++ x :: e :: suf) -> chain h k (pre ++ x :: e :: suf) ->
  h !! x = Some xe -> h !! e = Some ee ->
  chain (<[x := set_nextInBin xe (nextInBin ee)]> h) k (pre ++ x :: suf).
Proof.
  intros Hnd Hc Hx He. induction pre as [|y pre IH]; cbn [app chain] in *.
  - destruct Hc as [(? & ? & ? & _) [(ee' & He' & _ & Hnext) Hc]]. simplify_eq.
    apply NoDup_cons in Hnd as [Hx1 _]. split.
    + eexists. rewrite lookup_insert_eq. split; [done|]. split; [|done]. done.
    + eapply chain_frame; [|exact Hc]. intros y Hy. rewrite lookup_insert_ne; [done|set_solver].
  - destruct Hc as [(ye & Hye & Hky & Hny) Hc].
    apply NoDup_cons in Hnd as [Hy Hnd]. split; [|auto].
    exists ye. rewrite lookup_insert_ne by set_solver. split; [done|]. split; [done|].
    rewrite Hny. by destruct pre.
Qed.

(** The search along a chain returns the predecessor of the event. *)
Lemma find_in_bin_spec es : forall fuel h k c ce e,
  chain h k (c :: es) -> h !! c = Some ce -> NoDup (c :: es) -> e <> c ->
  (length es <= fuel)%nat ->
  if decide (e ∈ es)
  then exists pre x suf, c :: es = pre ++ x :: e :: suf /\
         find_in_bin fuel h e c (nextInBin ce) = Ok (x, e)
  else find_in_bin fuel h e c (nextInBin ce) = Err Panicked.
Proof.
  induction es as [|d es IH]; intros fuel h k c ce e Hc Hce Hnd Hne Hf.
  - destruct Hc as [(ce' & Hce' & _ & Hn) _]. simplify_eq. rewrite Hn.
    rewrite decide_False by set_solver. by destruct fuel.
  - pose proof Hc as [(ce' & Hce' & _ & Hn) Hc']. simplify_eq. rewrite Hn.
    destruct fuel as [|fuel]; [simpl in Hf; lia|]. cbn [find_in_bin head].
    destruct (Pos.eqb_spec e d) as [->|Hed].
    + rewrite decide_True by set_solver. exists [], c, es. done.
    + pose proof Hc' as [(de & Hde & _) _]. rewrite Hde. cbn [rbind deref].
      apply NoDup_cons in Hnd as [Hcn Hnd].
      specialize (IH fuel h k d de e Hc' Hde Hnd Hed ltac:(simpl in Hf; lia)).
      destruct (decide (e ∈ es)) as [Hin|Hin].
      * rewrite decide_True by set_solver. destruct IH as (pre & x & suf & Heq & ->).
        exists (c :: pre), x, suf. by rewrite Heq.
      * rewrite decide_False by set_solver. done.
Qed.

Lemma filter_split (e x : positive) (pre suf : list positive) : NoDup (pre ++ x :: e :: suf) ->
  filter (fun y => y <> e) (pre ++ x :: e :: suf) = pre ++ x :: suf.
Proof.
  intros (_ & Hd & (Hx & (He & _)%NoDup_cons)%NoDup_cons)%NoDup_app.
  rewrite filter_app, (filter_ne_id _ pre) by (intros Hin; apply (Hd e Hin); set_solver).
  rewrite filter_cons_True by set_solver. rewrite filter_cons_False by auto.
  by rewrite filter_ne_id.
Qed.

Section RemoveItem.
Context (h : heap) (k : key) (t : ptr) (es : list ptr) (rest : list abin).
Hypothesis Hb : brepr h (Some t) ((k, t :: es) :: rest).
Hypothesis Hnd : NoDup (elems ((k, t :: es) :: rest)).

Lemma removeItem_parts : exists te, h !! t = Some te /\ chain h k (t :: es) /\
  brepr h (nextBin te) rest /\ nextInBin te = head es /\
  NoDup (t :: es) /\ (forall x, x ∈ t :: es -> x ∉ elems rest).
Proof.
  destruct Hb as (Hc & e & te & [= ->] & _ & Hte & Hr).
  pose proof Hc as [(te' & Hte' & _ & Hn) _]. simplify_eq.
  rewrite elems_cons in Hnd. apply NoDup_app in Hnd as (? & ? & _).
  exists te. do 5 (split; [done|]). done.
Qed.

Lemma removeItem_top : exists h' top, removeItem h t t = Ok (h', top) /\
  brepr h' top (mkbin k (filter (fun x => x <> t) (t :: es)) rest) /\
  same_data h h' /\ (forall x, x ∉ t :: es -> h' !! x = h !! x).
Proof.
  destruct removeItem_parts as (te & Hte & Hc & Hr & Hn & Hnde & Hdis).
  unfold removeItem. rewrite Hte. cbn [rbind deref]. rewrite Pos.eqb_refl, Hn.
  rewrite filter_cons_False by auto. apply NoDup_cons in Hnde as [Hnt Hnde].
  rewrite filter_ne_id by done. destruct Hc as [_ Hc].
  destruct es as [|n es']; cbn [head].
  - eexists _, _. split; [done|]. split; [done|]. split; [reflexivity|done].
  - pose proof Hc as [(ne & Hne & _) _]. rewrite Hne. cbn [rbind deref].
    eexists _, _. split; [done|]. split; [|split].
    + cbn [mkbin brepr]. split; [by eapply chain_upd|].
      eexists n, _. split; [done|]. split; [done|]. rewrite lookup_insert_eq.
      split; [done|]. cbn. eapply brepr_frame; [|exact Hr].
      intros x Hx. rewrite lookup_insert_ne; [done|]. intros <-.
      apply (Hdis n); [set_solver|done].
    + by apply same_data_insert with (ev := ne).
    + intros x Hx. rewrite lookup_insert_ne; [done|set_solver].
Qed.

Lemma removeItem_below e : e <> t ->
  if decide (e ∈ es) then exists h', removeItem h e t = Ok (h', Some t) /\
    brepr h' (Some t) (mkbin k (filter (fun x => x <> e) (t :: es)) rest) /\
    same_data h h' /\ (forall x, x ∉ t :: es -> h' !! x = h !! x)
  else removeItem h e t = Err Panicked.
Proof.
  intros Het. destruct removeItem_parts as (te & Hte & Hc & Hr & Hn & Hnde & Hdis).
  unfold removeItem. rewrite Hte. cbn [rbind deref].
  destruct (Pos.eqb_spec e t); [done|].
  pose proof (find_in_bin_spec es (size h) h k t te e Hc Hte Hnde Het) as Hf.
  assert (Hlen : (length es <= size h)%nat).
  { pose proof (brepr_size _ _ _ Hb Hnd) as Hs. rewrite elems_cons, length_app in Hs.
    simpl in Hs. lia. }
  specialize (Hf Hlen). destruct (decide (e ∈ es)); [|by rewrite Hf].
  destruct Hf as (pre & x & suf & Heq & ->). cbn [rbind].
  rewrite Heq in Hc, Hnde, Hdis |- *.
  destruct (chain_lookup _ _ _ x Hc) as (xe & Hxe & _); [set_solver|].
  destruct (chain_lookup _ _ _ e Hc) as (ee & Hee & _); [set_solver|].
  rewrite Hxe, Hee. cbn [rbind deref]. eexists. split; [done|]. split; [|split].
  - rewrite filter_split by done.
    assert (Hhd : head (pre ++ x :: suf) = Some t) by (destruct pre; by inv Heq).
    assert (Hmk : mkbin k (pre ++ x :: suf) rest = (k, pre ++ x :: suf) :: rest)
      by (by destruct pre).
    rewrite Hmk. split; [by apply (chain_unlink _ _ _ _ e)|].
    assert (Htop : exists te', <[x:=set_nextInBin xe (nextInBin ee)]> h !! t = Some te' /\
                     nextBin te' = nextBin te).
    { destruct (decide (x = t)) as [->|]; [rewrite lookup_insert_eq; simplify_eq; eauto|].
      rewrite lookup_insert_ne by done. eauto. }
    destruct Htop as (te' & Hte' & Hnb). exists t, te'. split; [done|]. split; [done|].
    split; [done|]. rewrite Hnb. eapply brepr_frame; [|exact Hr].
    intros y Hy. rewrite lookup_insert_ne; [done|]. intros <-.
    apply (Hdis x); [set_solver|done].
  - by apply same_data_insert with (ev := xe).
  - intros y Hy. rewrite lookup_insert_ne; [done|set_solver].
Qed.

(** [removeItem] unlinks the event from the bin, or panics when it is not
    there. *)
Lemma removeItem_spec e :
  if decide (e ∈ t :: es) then exists h' top, removeItem h e t = Ok (h', top) /\
    brepr h' top (mkbin k (filter (fun x => x <> e) (t :: es)) rest) /\
    same_data h h' /\ (forall x, x ∉ t :: es -> h' !! x = h !! x)
  else removeItem h e t = Err Panicked.
Proof.
  destruct (decide (e = t)) as [->|Hne].
  - rewrite decide_True by set_solver. apply removeItem_top.
  - pose proof (removeItem_below e Hne) as H. destruct (decide (e ∈ es)).
    + rewrite decide_True by set_solver. destruct H as (h' & ?). eauto.
    + rewrite decide_False by set_solver. done.
Qed.
End RemoveItem.

Lemma mkbin_keys_Forall (P : key -> Prop) k es rest :
  P k -> Forall P (keys rest) -> Forall P (keys (mkbin k es rest)).
Proof. intros. destruct es; [done|]. by constructor. Qed.

Lemma mkbin_elems k es rest : elems (mkbin k es rest) = es ++ elems rest.
Proof. by destruct es. Qed.

Lemma aremove_Forall (P : key -> Prop) k e bins bins' :
  aremove k e bins = Some bins' -> Forall P (keys bins) -> Forall P (keys bins').
Proof.
  revert bins'. induction bins as [|[k' es] bins IH]; intros bins'; [done|].
  simpl. intros Hr HF. inv HF. repeat case_decide; try done.
  - inv Hr. by apply mkbin_keys_Forall.
  - destruct (aremove k e bins); [|done]. inv Hr. constructor; auto.
Qed.

Lemma aremove_sorted k e bins bins' : aremove k e bins = Some bins' ->
  StronglySorted klt (keys bins) -> StronglySorted klt (keys bins').
Proof.
  revert bins'. induction bins as [|[k' es] bins IH]; intros bins'; [done|].
  simpl. intros Hr Hs. inv Hs. repeat case_decide; try done.
  - inv Hr. destruct (filter _ _); [done|by constructor].
  - destruct (aremove k e bins) eqn:E; [|done]. inv Hr. constructor; [auto|].
    by eapply aremove_Forall.
Qed.

(** Removal takes exactly the event out of the queue. *)
Lemma aremove_elems k e bins bins' : aremove k e bins = Some bins' ->
  NoDup (elems bins) -> elems bins ≡ₚ e :: elems bins' /\ NoDup (elems bins').
Proof.
  intros Hr Hnd.
  assert (Hp : elems bins ≡ₚ e :: elems bins');
    [|split; [done|]; rewrite Hp in Hnd; by apply NoDup_cons in Hnd as [_ ?]].
  revert bins' Hr Hnd. induction bins as [|[k' es] bins IH]; intros bins' Hr Hnd; [done|].
  simpl in Hr. rewrite elems_cons in Hnd. apply NoDup_app in Hnd as (Hne & Hd & Hnd).
  repeat case_decide; try done.
  - inv Hr. rewrite elems_cons, mkbin_elems.
    match goal with H : e ∈ es |- _ => apply list_elem_of_split in H as (l1 & l2 & ->) end.
    apply NoDup_app in Hne as (_ & Hd1 & [Hn2 _]%NoDup_cons).
    rewrite filter_app, (filter_ne_id _ l1) by (intros Hin; apply (Hd1 e Hin); set_solver).
    rewrite filter_cons_False, filter_ne_id by auto.
    rewrite <- !app_assoc. cbn [app]. symmetry. apply Permutation_middle.
  - destruct (aremove k e bins) as [r|] eqn:E; [|done]. inv Hr.
    rewrite !elems_cons, (IH r) by done. by rewrite Permutation_middle.
Qed.

Lemma aremove_app k e l r : Forall (fun k' => klt k' k) (keys l) ->
  aremove k e (l ++ r) = app l <$> aremove k e r.
Proof.
  induction l as [|[k' es] l IH]; intros HF; cbn [app].
  - by destruct (aremove k e r).
  - inv HF. cbn [aremove].
    rewrite decide_False by (intros ->; by eapply (irreflexivity klt)).
    rewrite decide_True by done. rewrite IH by done. by destruct (aremove k e r).
Qed.

(** What the refinement of [remove] states, for an outcome of the code. *)
Definition remove_post (h : heap) (bins : list abin) (a : option (list abin))
  (m : res (heap * option ptr)) : Prop :=
  match a with
  | None => m = Err Panicked
  | Some bins' => exists h' head', m = Ok (h', head') /\ brepr h' head' bins' /\
      same_data h h' /\ (forall x, x ∉ elems bins -> h' !! x = h !! x)
  end.

(** The part of [remove] behind the head bin. *)
Lemma remove_behind h hd he e ev kh esh rest :
  brepr h (Some hd) ((kh, esh) :: rest) -> NoDup (elems ((kh, esh) :: rest)) ->
  h !! hd = Some he -> klt kh (evkey ev) ->
  remove_post h ((kh, esh) :: rest) (aremove (evkey ev) e ((kh, esh) :: rest))
    (let! (prev, curr) := find_bin (size h) h ev hd (nextBin he) in
     match curr with
     | None => Err Panicked
     | Some c =>
         let! ce := deref (h !! c) in
         if ev_ne ce ev then Err Panicked
         else
           let! (h, new) := removeItem h e c in
           let! pe := deref (h !! prev) in
           Ok (<[prev := set_nextBin pe new]> h, Some hd)
     end).
Proof.
  intros Hb Hnd Hhe Hlt.
  destruct (find_bin_spec rest (size h) h ev hd he kh esh)
    as (prev & curr & l & kl & esl & r & pre & -> & Heq & Hhdl & Hpre & Hnb & Hr & HF & Hstop);
    [done..|by eapply brepr_fuel|].
  cbn [rbind]. rewrite Heq in Hb, Hnd |- *.
  pose proof (head_in _ _ Hhdl) as Hpl.
  destruct (NoDup_elems_split _ _ _ _ Hnd) as (Hndl & Hndr & Hdisj).
  assert (Hprev : prev ∈ elems (l ++ [(kl, esl)])) by (rewrite elems_app, elems_cons; set_solver).
  replace (aremove _ _ _) with (app (l ++ [(kl, esl)]) <$> aremove (evkey ev) e r).
  2: { rewrite <- (aremove_app _ _ _ _ HF). by rewrite <- app_assoc. }
  destruct r as [|[kc esc] r]; [simpl in Hr; by rewrite Hr|].
  pose proof Hr as (Hc & c & ce & Hhdc & -> & Hce & Hr'). rewrite Hce. cbn [rbind deref].
  pose proof (chain_top _ _ _ _ _ Hc Hhdc Hce) as Hkc.
  rewrite ev_ne_eq. cbn [aremove]. destruct (ev_eq ce ev) eqn:Heqk; cbn [negb].
  2: { rewrite decide_False by (rewrite <- Hkc, <- ev_eq_key; congruence).
       rewrite decide_False by (by apply Hstop). done. }
  apply ev_eq_key in Heqk. rewrite decide_True by congruence.
  destruct esc as [|c' esc]; [done|]. injection Hhdc as ->.
  pose proof (removeItem_spec h kc c esc r Hr Hndr e) as Hri.
  destruct (decide (e ∈ c :: esc)); [|by rewrite Hri].
  destruct Hri as (h' & top & -> & Hb' & Hsd & Hfr). cbn [rbind fmap option_fmap option_map].
  assert (Hout : forall x, x ∈ elems (l ++ [(kl, esl)]) -> h' !! x = h !! x).
  { intros x Hx. apply Hfr. intros Hin. apply (Hdisj x Hx). rewrite elems_cons. set_solver. }
  rewrite (Hout prev Hprev), Hpre. cbn [rbind deref].
  eexists _, _. split; [done|]. split; [|split].
  - rewrite <- app_assoc. cbn [app].
    eapply brepr_splice with (h := h); [done..|by rewrite Hout|done|].
    intros Hin. apply (Hdisj prev Hprev). rewrite mkbin_elems in Hin. rewrite elems_cons.
    apply elem_of_app in Hin as [[_ ?]%list_elem_of_filter|?]; set_solver.
  - etransitivity; [exact Hsd|]. apply same_data_insert with (ev := pre); [|done].
    by rewrite Hout.
  - intros x Hx. rewrite lookup_insert_ne; [apply Hfr|].
    + intros Hin. apply Hx. rewrite elems_app, !elems_cons. set_solver.
    + intros <-. apply Hx. rewrite elems_app, elems_cons. set_solver.
Qed.

(** An event earlier than the head is found in no bin: the search stops at once
    and the code panics. *)
Lemma remove_before_head h hd he ev kh esh rest :
  brepr h (Some hd) ((kh, esh) :: rest) -> StronglySorted klt (keys ((kh, esh) :: rest)) ->
  NoDup (elems ((kh, esh) :: rest)) ->
  h !! hd = Some he -> klt (evkey ev) kh ->
  exists prev curr, find_bin (size h) h ev hd (nextBin he) = Ok (prev, curr) /\
    match curr with
    | None => True
    | Some c => exists ce, h !! c = Some ce /\ ev_ne ce ev = true
    end.
Proof.
  intros Hb Hs Hnd Hhe Hlt.
  pose proof (brepr_fuel _ _ _ _ Hb Hnd) as Hfuel.
  destruct Hb as (Hc & e' & he' & Hhd & [= ->] & Hhe' & Hr). simplify_eq.
  destruct rest as [|[kc esc] rest]; simpl in Hr.
  - rewrite Hr. exists e', None. split; [by destruct (size h)|done].
  - destruct Hr as (Hc' & c & ce & Hhdc & -> & Hce & _).
    pose proof (chain_top _ _ _ _ _ Hc' Hhdc Hce) as Hkc.
    apply StronglySorted_inv in Hs as [_ HF]. apply Forall_cons in HF as [HF _].
    assert (Hgt : klt (evkey ev) (evkey ce)) by (rewrite Hkc; by etransitivity).
    exists e', (Some c). simpl in Hfuel. destruct (size h) as [|fuel]; [lia|].
    cbn [find_bin]. rewrite Hce. cbn [rbind deref]. split.
    + destruct (ev_lt ce ev) eqn:Hl; [|done]. apply ev_lt_klt in Hl.
      exfalso. apply (irreflexivity klt (evkey ev)). by etransitivity.
    + exists ce. split; [done|]. rewrite ev_ne_eq. destruct (ev_eq ce ev) eqn:Hq; [|done].
      apply ev_eq_key in Hq. rewrite Hq in Hgt. exfalso. by apply (irreflexivity klt (evkey ev)).
Qed.

(** ** Main theorems *)

Lemma remove_refines this h head bins e ev :
  wfq h head bins -> h !! e = Some ev -> queue ev = Some this ->
  match aremove (evkey ev) e bins with
  | None => remove this h head e = Err Panicked
  | Some bins' => exists h' head', remove this h head e = Ok (h', head') /\
      wfq h' head' bins' /\ same_data h h' /\
      (forall x, x ∉ elems bins -> h' !! x = h !! x)
  end.
Proof.
  intros [Hb Hnd Hs] He Hq.
  enough (Hpost : remove_post h bins (aremove (evkey ev) e bins) (remove this h head e)).
  { destruct (aremove (evkey ev) e bins) as [bins'|] eqn:Har; [|done].
    destruct Hpost as (h' & head' & -> & Hb' & ? & ?).
    destruct (aremove_elems _ _ _ _ Har Hnd) as [_ ?].
    exists h', head'. split; [done|]. split; [|done].
    split; [done|done|by eapply aremove_sorted]. }
  destruct bins as [|[kh esh] rest]; [by simpl in Hb; subst head|].
  pose proof Hb as (Hc & hd & he & Hhd & -> & Hhe & Hrest).
  unfold remove. rewrite He. cbn [rbind deref]. rewrite bool_decide_true by done.
  cbn [assert_ rbind]. rewrite Hhe. cbn [rbind deref].
  pose proof (chain_top _ _ _ _ _ Hc Hhd Hhe) as Hkh.
  destruct (ev_eq he ev) eqn:Heqk.
  - apply ev_eq_key in Heqk. cbn [aremove]. rewrite decide_True by congruence.
    destruct esh as [|t es]; [done|]. injection Hhd as ->.
    pose proof (removeItem_spec h kh hd es rest Hb Hnd e) as Hri.
    destruct (decide (e ∈ hd :: es)); [|done].
    destruct Hri as (h' & top & -> & ? & ? & Hfr). exists h', top.
    do 3 (split; [done|]). intros x. rewrite elems_cons. set_solver.
  - assert (Hne : kh <> evkey ev) by (rewrite <- Hkh, <- ev_eq_key; congruence).
    destruct (decide (klt kh (evkey ev))) as [Hlt|Hnlt].
    + by apply remove_behind.
    + assert (Hgt : klt (evkey ev) kh) by (by apply klt_total).
      destruct (remove_before_head h hd he ev kh esh rest) as (prev & curr & -> & Hcur); [done..|].
      cbn [rbind aremove]. rewrite decide_False by done. rewrite decide_False by done.
      destruct curr as [c|]; [|done]. destruct Hcur as (ce & -> & Hn). cbn [rbind deref].
      by rewrite Hn.
Qed.

(** C21: [EventQueue::insert] implements insertion into the list of bins: on
    every well-formed queue and every event outside of it the pointer code
    returns, the new event becomes the top of the stack of its (time, priority)
    bin, the bins stay sorted without duplicates, no field but the links
    changes and no event outside the queue is touched. *)
Theorem insert_correct h head bins e ev :
  wfq h head bins -> h !! e = Some ev -> e ∉ elems bins ->
  exists h' head', insert h head e = Ok (h', head') /\
    wfq h' head' (ainsert (evkey ev) e bins) /\ same_data h h' /\
    (forall x, x <> e -> x ∉ elems bins -> h' !! x = h !! x).
Proof. apply insert_refines. Qed.

Definition demo_ev (w p : Z) : Event := mkEvent None None w p Initialized (Some 9%positive).

Definition demo_heap : heap :=
  <[1%positive := demo_ev 10 0]> (<[2%positive := demo_ev 10 0]> (<[3%positive := demo_ev 5 0]> ∅)).

Lemma demo_empty : wfq demo_heap None [].
Proof. split; [done|constructor|constructor]. Qed.

Lemma insert_correct_witness :
  exists h' head', insert demo_heap None 1%positive = Ok (h', head') /\
    wfq h' head' [((10, 0), [1%positive])].
Proof.
  destruct (insert_correct demo_heap None [] 1%positive (demo_ev 10 0)) as (h' & hd & ? & ? & _);
    [apply demo_empty | reflexivity | apply not_elem_of_nil |].
  exists h', hd. split; assumption.
Defined.

(** C22: [EventQueue::remove] implements removal: when the event is in the bin of
    its key it is unlinked from it (an emptied bin disappears), and when it is
    not, wherever the search ends, the code panics and never returns a
    corrupted queue. *)
Theorem remove_correct this h head bins e ev :
  wfq h head bins -> h !! e = Some ev -> queue ev = Some this ->
  match aremove (evkey ev) e bins with
  | None => remove this h head e = Err Panicked
  | Some bins' => exists h' head', remove this h head e = Ok (h', head') /\
      wfq h' head' bins' /\ same_data h h' /\
      (forall x, x ∉ elems bins -> h' !! x = h !! x)
  end.
Proof. apply remove_refines. Qed.

Lemma demo_one : wfq demo_heap (Some 1%positive) [((10, 0), [1%positive])].
Proof.
  split.
  - split; [split; [eexists; split; [reflexivity|]; split; reflexivity|exact I]|].
    eexists _, _. split; [reflexivity|]. split; [reflexivity|]. split; reflexivity.
  - apply NoDup_singleton.
  - repeat constructor.
Qed.

Lemma remove_correct_witness :
  exists h' head', remove 9%positive demo_heap (Some 1%positive) 1%positive = Ok (h', head') /\
    wfq h' head' [].
Proof.
  pose proof (remove_correct 9%positive demo_heap (Some 1%positive) [((10, 0), [1%positive])]
                1%positive (demo_ev 10 0) demo_one eq_refl eq_refl) as H.
  replace (aremove (evkey (demo_ev 10 0)) 1%positive [((10, 0), [1%positive])])
    with (Some (@nil abin)) in H by (vm_compute; reflexivity).
  destruct H as (h' & hd & ? & ? & _). exists h', hd. split; assumption.
Defined.
