(* ===== verification/EventLoop.v ===== *)
(** * EventLoop: scheduling and servicing events ([sim/eventq.hh], [sim/eventq.cc])

    The operations of [EventQueue] above the lists of [EventQueue.v]: [schedule],
    [deschedule], [reschedule], the asynchronous insertions, [serviceOne] and
    [serviceEvents], [debugVerify], and the checkpointing of events.

    [process()] is virtual: it is the parameter [process] of the section
    [Service], a function on the whole state.  [acquireImpl] and [releaseImpl]
    are the default ones of [Event].  The mutexes protect the queue from other
    threads; the model is that of the thread that holds them. *)

From Stdlib Require Import ZArith Lia Bool.
From stdpp Require Import base tactics option list numbers gmap sorting.
From S2P Require Import Prelude EventQueue.
Open Scope Z_scope.

(** ** State *)

(** One queue with the heap of events and the globals [inParallelMode] and
    [curEventQueue()]; [user] is the state of the simulated system. *)
Record world (S : Type) := mkWorld {
  evs : gmap positive Event;
  self : positive;
  eq_head : option positive;
  curTick : Z;
  async_queue : list positive;
  inParallelMode : bool;
  curEventQueue : option positive;
  user : S
}.
Arguments mkWorld {S}.
Arguments evs {S}. Arguments self {S}. Arguments eq_head {S}. Arguments curTick {S}.
Arguments async_queue {S}. Arguments inParallelMode {S}. Arguments curEventQueue {S}.
Arguments user {S}.

Section Operations.
Context {S : Type}.
Implicit Types w : world S.

Definition set_list w (h : gmap positive Event) (hd : option positive) : world S :=
  mkWorld h (self w) hd (curTick w) (async_queue w) (inParallelMode w)
    (curEventQueue w) (user w).
Definition set_evs w h : world S := set_list w h (eq_head w).
Definition setCurTick w (t : Z) : world S :=
  mkWorld (evs w) (self w) (eq_head w) t (async_queue w) (inParallelMode w)
    (curEventQueue w) (user w).
Definition set_async w (l : list positive) : world S :=
  mkWorld (evs w) (self w) (eq_head w) (curTick w) l (inParallelMode w)
    (curEventQueue w) (user w).

(** The chain the queue held is handed to the caller. *)
Definition replaceHead w (s : option positive) : option positive * world S :=
  (eq_head w, set_list w (evs w) s).

Definition empty w : bool := match eq_head w with None => true | Some _ => false end.

Definition upd_flags w (e : positive) (f : Z -> Z) : res (world S) :=
  let! ev := deref (evs w !! e) in
  Ok (set_evs w (<[e := set_flags ev (f (flags ev))]> (evs w))).

(** [Event::release] with the default [releaseImpl]: a managed event that is
    not scheduled is deleted. *)
Definition release w (e : positive) : res (world S) :=
  let! ev := deref (evs w !! e) in
  if isManaged ev then
    if negb (scheduled ev) then Ok (set_evs w (delete e (evs w))) else Ok w
  else Ok w.

Definition asyncInsert w (e : positive) : world S := set_async w (async_queue w ++ [e]).

Definition insert_ev w (e : positive) : res (world S) :=
  let! (h, hd) := insert (evs w) (eq_head w) e in Ok (set_list w h hd).

Definition remove_ev w (e : positive) : res (world S) :=
  let! (h, hd) := remove (self w) (evs w) (eq_head w) e in Ok (set_list w h hd).

Definition schedule w (event : positive) (when_ : Z) (global : bool) : res (world S) :=
  check! curTick w <=? when_;
  let! ev := deref (evs w !! event) in
  check! negb (scheduled ev);
  check! initialized ev;
  let w := set_evs w (<[event := setWhen ev when_ (self w)]> (evs w)) in
  let! w :=
    if inParallelMode w && (negb (bool_decide (curEventQueue w = Some (self w))) || global)
    then Ok (asyncInsert w event)
    else insert_ev w event in
  upd_flags w event (fun f => Flags.set f Scheduled).

Definition deschedule w (event : positive) : res (world S) :=
  let! ev := deref (evs w !! event) in
  check! scheduled ev;
  check! initialized ev;
  check! negb (inParallelMode w) || bool_decide (curEventQueue w = Some (self w));
  let! w := remove_ev w event in
  let! w := upd_flags w event (fun f => Flags.clear (Flags.clear f Squashed) Scheduled) in
  release w event.

Definition reschedule w (event : positive) (when_ : Z) (always : bool) : res (world S) :=
  check! curTick w <=? when_;
  let! ev := deref (evs w !! event) in
  check! always || scheduled ev;
  check! initialized ev;
  check! negb (inParallelMode w) || bool_decide (curEventQueue w = Some (self w));
  let! w := if scheduled ev then remove_ev w event else Ok w in
  let! ev := deref (evs w !! event) in
  let w := set_evs w (<[event := setWhen ev when_ (self w)]> (evs w)) in
  let! w := insert_ev w event in
  upd_flags w event (fun f => Flags.set (Flags.clear f Squashed) Scheduled).

(** [while (!async_queue.empty()) { insert(front); pop_front(); }]. *)
Fixpoint async_loop (l : list positive) w : res (world S) :=
  match l with
  | [] => Ok (set_async w [])
  | e :: l => let! w := insert_ev (set_async w (e :: l)) e in async_loop l (set_async w l)
  end.

Definition handleAsyncInsertions w : res (world S) :=
  check! bool_decide (curEventQueue w = Some (self w));
  async_loop (async_queue w) w.

(** The part of [serviceOne] before [process()]: unlink the head. *)
Definition pop_head w : res (positive * world S) :=
  let! event := deref (eq_head w) in
  let! ev := deref (evs w !! event) in
  let next := nextInBin ev in
  let ev := set_flags ev (Flags.clear (flags ev) Scheduled) in
  let h := <[event := ev]> (evs w) in
  match next with
  | Some n =>
      let! ne := deref (h !! n) in
      Ok (event, set_list w (<[n := set_nextBin ne (nextBin ev)]> h) (Some n))
  | None => Ok (event, set_list w h (nextBin ev))
  end.

Section Service.
Context (process : positive -> world S -> res (world S)).

Definition serviceOne w : res (option positive * world S) :=
  let! (event, w) := pop_head w in
  let! ev := deref (evs w !! event) in
  if negb (squashed ev) then
    let w := setCurTick w (when ev) in
    let! w := process event w in
    let! ev := deref (evs w !! event) in
    if isExitEvent ev then
      check! negb (Flags.isSet (flags ev) Managed) || negb (Flags.isSet (flags ev) IsMainQueue);
      Ok (Some event, w)
    else
      let! w := release w event in Ok (None, w)
  else
    let! w := upd_flags w event (fun f => Flags.clear f Squashed) in
    let! w := release w event in
    Ok (None, w).

Definition nextTick w : res Z :=
  let! hd := deref (eq_head w) in
  let! ev := deref (evs w !! hd) in
  Ok (when ev).

(** [serviceEvents]: one unit of fuel per event serviced. *)
Fixpoint service_loop (fuel : nat) w (when_ : Z) : res (world S) :=
  if empty w then Ok w else
  let! t := nextTick w in
  if when_ <? t then Ok w else
  match fuel with
  | O => Err OutOfFuel
  | Datatypes.S fuel => let! (_, w) := serviceOne w in service_loop fuel w when_
  end.

Definition serviceEvents (fuel : nat) w (when_ : Z) : res (world S) :=
  let! w := service_loop fuel w when_ in Ok (setCurTick w when_).
End Service.
End Operations.

(** ** Flags *)

Lemma land_clear_disjoint f m m' : in_u 16 m' -> Z.land m m' = 0 ->
  Z.land (Flags.clear f m) m' = Z.land f m'.
Proof.
  intros Hm' Hd. unfold Flags.clear. apply Z.bits_inj'. intros i Hi.
  assert (Hb : Z.testbit (Z.land m m') i = false) by (rewrite Hd; apply Z.bits_0).
  rewrite Z.land_spec in Hb. tb. destruct (Z.ltb_spec i 16).
  - destruct (Z.testbit f i), (Z.testbit m i), (Z.testbit m' i); done.
  - rewrite (high_bits 16 m') by (done || lia). by rewrite !andb_false_r.
Qed.

Lemma land_set_disjoint f m m' : Z.land m m' = 0 ->
  Z.land (Flags.set f m) m' = Z.land f m'.
Proof. intros Hd. unfold Flags.set. by rewrite Z.land_lor_distr_l, Hd, Z.lor_0_r. Qed.

Lemma land_clear_same f m : 0 <= m -> Z.land (Flags.clear f m) m = 0.
Proof.
  intros Hm. apply Z.bits_inj'. intros i Hi. unfold Flags.clear. tb.
  destruct (Z.ltb_spec i 16), (Z.testbit f i), (Z.testbit m i); done.
Qed.

Lemma land_clear_sub f m m' : 0 <= m -> Z.land m m' = m' -> Z.land (Flags.clear f m) m' = 0.
Proof. intros Hm Hsub. by rewrite <- Hsub, Z.land_assoc, land_clear_same, Z.land_0_l. Qed.

Lemma land_wrap f m : in_u 16 m -> Z.land (wrap 16 f) m = Z.land f m.
Proof.
  intros Hm. apply Z.bits_inj'. intros i Hi. tb.
  destruct (Z.ltb_spec i 16); [done|]. by rewrite (high_bits 16 m i), !andb_false_r by done.
Qed.

Lemma isSet_set_same f m : 0 < m -> Flags.isSet (Flags.set f m) m = true.
Proof.
  intros Hm. unfold Flags.isSet, Flags.set.
  replace (Z.land (Z.lor f m) m) with m.
  - destruct (Z.eqb_spec m 0); [lia|done].
  - apply Z.bits_inj'. intros i Hi. tb. by destruct (Z.testbit f i), (Z.testbit m i).
Qed.

Section FlagFacts.
Context (ev : Event).

Lemma scheduled_set :
  scheduled (set_flags ev (Flags.set (flags ev) Scheduled)) = true.
Proof. apply isSet_set_same. done. Qed.

Lemma scheduled_clear :
  scheduled (set_flags ev (Flags.clear (flags ev) Scheduled)) = false.
Proof. unfold scheduled, Flags.isSet. simpl. by rewrite land_clear_same. Qed.
End FlagFacts.

(** ** The invariant *)

(** The queue is well formed; every event in it is marked as scheduled, belongs
    to this queue and is not in the past. *)
Record wfw {S} (w : world S) (bins : list abin) : Prop := {
  ww_q : wfq (evs w) (eq_head w) bins;
  ww_ev : forall x, x ∈ elems bins -> exists ev, evs w !! x = Some ev /\
    scheduled ev = true /\ queue ev = Some (self w) /\ curTick w <= when ev
}.

Lemma wfq_upd h hd bins e v v' :
  wfq h hd bins -> h !! e = Some v -> evkey v' = evkey v ->
  nextInBin v' = nextInBin v -> nextBin v' = nextBin v -> wfq (<[e := v']> h) hd bins.
Proof.
  intros [Hb Hnd Hs] He Hk Hi Hn. split; [|done|done]. clear Hnd Hs.
  revert hd Hb. induction bins as [|[k es] bins IH]; intros hd; simpl; [done|].
  intros (Hc & c & ce & Hhd & -> & Hce & Hb). split; [by eapply chain_upd|].
  destruct (decide (e = c)) as [->|].
  - exists c, v'. rewrite lookup_insert_eq. simplify_eq. rewrite Hn. auto.
  - exists c, ce. rewrite lookup_insert_ne by done. auto.
Qed.

Lemma wfq_frame h h' hd bins : (forall x, x ∈ elems bins -> h' !! x = h !! x) ->
  wfq h hd bins -> wfq h' hd bins.
Proof. intros Hf [Hb ? ?]. split; [by eapply brepr_frame|done|done]. Qed.

Lemma same_data_lookup h h' x ev : same_data h h' -> h !! x = Some ev ->
  exists ev', h' !! x = Some ev' /\ evdata ev' = evdata ev.
Proof.
  intros Hs Hx. specialize (Hs x). rewrite Hx in Hs. simpl in Hs.
  destruct (h' !! x) as [ev'|]; [|done]. injection Hs as Hs. exists ev'. split; [done|].
  unfold evdata. congruence.
Qed.

(** An event of the queue sits in the bin of its own key. *)
Lemma brepr_key_in h hd bins e ev : brepr h hd bins -> e ∈ elems bins -> h !! e = Some ev ->
  evkey ev ∈ keys bins.
Proof.
  revert hd. induction bins as [|[k es] bins IH]; intros hd; [set_solver|].
  rewrite elems_cons. intros (Hc & c & ce & _ & _ & _ & Hb) [Hin|Hin]%elem_of_app He.
  - destruct (chain_lookup _ _ _ _ Hc Hin) as (ev' & ? & <-). simplify_eq. set_solver.
  - simpl. apply elem_of_cons. right. eauto.
Qed.

Lemma aremove_present h hd bins e ev : wfq h hd bins -> e ∈ elems bins -> h !! e = Some ev ->
  is_Some (aremove (evkey ev) e bins).
Proof.
  intros [Hb Hnd Hs] Hin He. revert hd Hb Hnd Hs Hin.
  induction bins as [|[k es] bins IH]; intros hd Hb Hnd Hs Hin; [set_solver|].
  rewrite elems_cons in Hin, Hnd. pose proof Hb as (Hc & c & ce & _ & _ & _ & Hb').
  apply StronglySorted_inv in Hs as [Hs HF]. apply NoDup_app in Hnd as (_ & Hd & Hnd).
  simpl. apply elem_of_app in Hin as [Hin|Hin].
  - destruct (chain_lookup _ _ _ _ Hc Hin) as (ev' & ? & Hk). simplify_eq.
    rewrite decide_True by done. by rewrite decide_True.
  - pose proof (brepr_key_in _ _ _ _ _ Hb' Hin He) as Hkin.
    rewrite Forall_forall in HF. specialize (HF _ Hkin).
    rewrite decide_False by (intros ->; by eapply (irreflexivity klt)).
    rewrite decide_True by done. destruct (IH _ Hb' Hnd Hs Hin) as [r ->]. eauto.
Qed.

(** ** Scheduling *)

Section Scheduling.
Context {S : Type}.
Implicit Types w : world S.

(** Insertion followed by the update of the flags of the inserted event. *)
Lemma insert_mark w bins e ev f :
  wfw w bins -> evs w !! e = Some ev -> e ∉ elems bins ->
  curTick w <= when ev -> queue ev = Some (self w) ->
  scheduled (set_flags ev (f (flags ev))) = true ->
  exists w' ev', (let! w := insert_ev w e in upd_flags w e f) = Ok w' /\
    wfw w' (ainsert (evkey ev) e bins) /\
    evs w' !! e = Some ev' /\ evdata ev' = evdata (set_flags ev (f (flags ev))) /\
    (forall x, x <> e -> evdata <$> evs w' !! x = evdata <$> evs w !! x) /\
    self w' = self w /\ curTick w' = curTick w /\ user w' = user w.
Proof.
  intros [Hq Hev] He Hnin Ht Hqu Hsc.
  destruct (insert_refines (evs w) (eq_head w) bins e ev) as (h & hd & Hins & Hwf & Hsd & Hfr);
    [done..|].
  unfold insert_ev. rewrite Hins. cbn [rbind].
  destruct (same_data_lookup _ _ _ _ Hsd He) as (ev1 & He1 & Hd1).
  unfold upd_flags, set_evs. simpl. rewrite He1. cbn [rbind deref].
  injection Hd1 as Hw1 Hp1 Hf1 Hq1.
  eexists _, _. split; [done|]. split; [|split].
  - split; [by eapply wfq_upd|]. intros x. rewrite ainsert_elems. cbn.
    destruct (decide (e = x)) as [<-|Hex]; intros Hx.
    + eexists. rewrite lookup_insert_eq. split; [done|]. simpl.
      rewrite Hq1, Hw1. split; [|done]. rewrite <- Hsc. unfold scheduled. simpl. by rewrite Hf1.
    + rewrite lookup_insert_ne by done. destruct (Hev x) as (xev & Hxev & Hs & ? & ?); [set_solver|].
      destruct (same_data_lookup _ _ _ _ Hsd Hxev) as (xev' & -> & Hd). injection Hd as Hd1 Hd2 Hd3 Hd4.
      exists xev'. split; [done|]. rewrite Hd1, Hd4. unfold scheduled. rewrite Hd3. done.
  - simpl. by rewrite lookup_insert_eq.
  - split; [unfold evdata; simpl; congruence|]. split; [|done].
    intros x Hx. simpl. rewrite lookup_insert_ne by done. symmetry. apply Hsd.
Qed.

(** Removal of an event of the queue. *)
Lemma remove_ev_ok w bins e ev : wfw w bins -> e ∈ elems bins -> evs w !! e = Some ev ->
  exists w' bins' ev', remove_ev w e = Ok w' /\ aremove (evkey ev) e bins = Some bins' /\
    wfw w' bins' /\ (e ∉ elems bins') /\ evs w' !! e = Some ev' /\ evdata ev' = evdata ev /\
    (forall x, evdata <$> evs w' !! x = evdata <$> evs w !! x) /\
    self w' = self w /\ curTick w' = curTick w /\ user w' = user w.
Proof.
  intros [Hq Hev] Hin He.
  destruct (aremove_present _ _ _ _ _ Hq Hin He) as [bins' Har].
  destruct (Hev e Hin) as (ev' & He' & _ & Hqu & _). simplify_eq.
  pose proof (remove_refines (self w) _ _ _ _ _ Hq He Hqu) as Hr. rewrite Har in Hr.
  destruct Hr as (h & hd & Hrem & Hwf & Hsd & Hfr).
  destruct (aremove_elems _ _ _ _ Har (wfq_nodup _ _ _ Hq)) as [Hp Hnd'].
  pose proof (wfq_nodup _ _ _ Hq) as Hnd. rewrite Hp in Hnd. apply NoDup_cons in Hnd as [Hnin _].
  destruct (same_data_lookup _ _ _ _ Hsd He) as (ev1 & He1 & Hd1).
  unfold remove_ev. rewrite Hrem. cbn [rbind].
  eexists _, bins', ev1. split; [done|]. split; [done|]. split; [|done].
  split; [done|]. intros x Hx. destruct (Hev x) as (xev & Hxev & ? & ? & ?).
  { rewrite Hp. set_solver. }
  destruct (same_data_lookup _ _ _ _ Hsd Hxev) as (xev' & Hx' & Hd). injection Hd as Hdw Hdp Hdf Hdq.
  exists xev'. simpl. split; [done|]. rewrite Hdw, Hdq. unfold scheduled. rewrite Hdf. done.
Qed.

(** Writing outside the queue keeps the invariant. *)
Lemma wfw_evs w bins h : wfw w bins -> (forall x, x ∈ elems bins -> h !! x = evs w !! x) ->
  wfw (set_evs w h) bins.
Proof.
  intros [Hq Hev] Hfr. split; [by eapply wfq_frame|].
  intros x Hx. simpl. rewrite Hfr by done. auto.
Qed.

Lemma wfw_outside w bins e v : wfw w bins -> e ∉ elems bins ->
  wfw (set_evs w (<[e := v]> (evs w))) bins.
Proof.
  intros Hw Hnin. apply wfw_evs; [done|]. intros x Hx.
  rewrite lookup_insert_ne; [done|set_solver].
Qed.

Lemma wfw_delete w bins e : wfw w bins -> e ∉ elems bins ->
  wfw (set_evs w (delete e (evs w))) bins.
Proof.
  intros Hw Hnin. apply wfw_evs; [done|]. intros x Hx.
  rewrite lookup_delete_ne; [done|set_solver].
Qed.

Lemma not_scheduled_outside w bins e ev : wfw w bins -> evs w !! e = Some ev ->
  scheduled ev = false -> e ∉ elems bins.
Proof.
  intros [_ Hev] He Hs Hin. destruct (Hev e Hin) as (? & ? & ? & _). congruence.
Qed.

Definition sched_post w bins (e : positive) (t prio : Z) (m : res (world S)) : Prop :=
  exists w' ev', m = Ok w' /\ wfw w' (ainsert (t, prio) e bins) /\
    evs w' !! e = Some ev' /\ when ev' = t /\ scheduled ev' = true /\
    curTick w' = curTick w /\ user w' = user w.

Lemma schedule_ok w bins e ev t global :
  wfw w bins -> evs w !! e = Some ev -> scheduled ev = false -> initialized ev = true ->
  curTick w <= t -> inParallelMode w = false ->
  sched_post w bins e t (priority ev) (schedule w e t global).
Proof.
  intros Hw He Hs Hi Ht Hp. pose proof (not_scheduled_outside _ _ _ _ Hw He Hs) as Hnin.
  unfold schedule. destruct (Z.leb_spec (curTick w) t); [|lia]. cbn [assert_ rbind].
  rewrite He. cbn [deref rbind]. rewrite Hs, Hi. cbn [negb assert_ rbind].
  set (w1 := set_evs w _). change (inParallelMode w1) with (inParallelMode w).
  rewrite Hp. cbn [andb].
  destruct (insert_mark w1 bins e (setWhen ev t (self w)) (fun f => Flags.set f Scheduled))
    as (w' & ev' & -> & Hwf & He' & Hd & _ & _ & ? & ?).
  - by apply wfw_outside.
  - simpl. by rewrite lookup_insert_eq.
  - done.
  - done.
  - done.
  - apply isSet_set_same. done.
  - injection Hd as Hd1 Hd2 Hd3 Hd4. exists w', ev'. do 3 (split; [done|]).
    split; [done|]. split; [|done]. unfold scheduled. rewrite Hd3. by apply isSet_set_same.
Qed.

(** [deschedule] unlinks the event, clears its flags and deletes it when it is
    managed. *)
Lemma deschedule_ok w bins e ev :
  wfw w bins -> e ∈ elems bins -> evs w !! e = Some ev -> initialized ev = true ->
  inParallelMode w = false ->
  exists w' bins', deschedule w e = Ok w' /\ aremove (evkey ev) e bins = Some bins' /\
    wfw w' bins' /\ curTick w' = curTick w /\ user w' = user w /\
    match evs w' !! e with
    | None => isManaged ev = true
    | Some ev' => isManaged ev = false /\ scheduled ev' = false /\ squashed ev' = false
    end.
Proof.
  intros Hw Hin He Hi Hp. destruct (ww_ev _ _ Hw e Hin) as (ev0 & He0 & Hs & _). simplify_eq.
  destruct (remove_ev_ok w bins e ev Hw Hin He)
    as (w1 & bins' & ev1 & Hrem & Har & Hw1 & Hnin & He1 & Hd & _ & _ & Ht & Hu).
  injection Hd as _ _ Hf1 _.
  unfold deschedule. rewrite He. cbn [deref rbind]. rewrite Hs, Hi, Hp. cbn [negb orb assert_ rbind].
  rewrite Hrem. cbn [rbind]. unfold upd_flags. rewrite He1. cbn [deref rbind].
  unfold release. cbn [evs set_evs set_list]. rewrite lookup_insert_eq. cbn [deref rbind].
  set (f := Flags.clear (Flags.clear (flags ev1) Squashed) Scheduled).
  assert (Hm : isManaged (set_flags ev1 f) = isManaged ev).
  { unfold isManaged, Flags.isSet. simpl. unfold f.
    rewrite !land_clear_disjoint by (done || (unfold in_u, Managed; lia)). by rewrite Hf1. }
  assert (Hns : scheduled (set_flags ev1 f) = false).
  { unfold scheduled, Flags.isSet. simpl. unfold f. by rewrite land_clear_same. }
  assert (Hnq : squashed (set_flags ev1 f) = false).
  { unfold squashed, Flags.isSet. simpl. unfold f.
    rewrite land_clear_disjoint, land_clear_same by (done || (unfold in_u, Squashed; lia)). done. }
  rewrite Hm, Hns. cbn [negb]. destruct (isManaged ev).
  - eexists _, bins'. do 2 (split; [done|]). split.
    { apply wfw_evs; [by apply wfw_outside|]. intros x Hx. cbn [evs set_evs set_list].
      rewrite lookup_delete_ne; [done|set_solver]. }
    do 2 (split; [done|]). simpl. by rewrite lookup_delete_eq.
  - eexists _, bins'. do 2 (split; [done|]). split; [by apply wfw_outside|].
    do 2 (split; [done|]). simpl. by rewrite lookup_insert_eq.
Qed.

(** [reschedule] moves an event of the queue, or inserts one that is not
    scheduled when [always] is given. *)
Lemma reschedule_ok w bins e ev t always :
  wfw w bins -> evs w !! e = Some ev -> initialized ev = true ->
  (scheduled ev = true -> e ∈ elems bins) -> (scheduled ev = false -> always = true) ->
  curTick w <= t -> inParallelMode w = false ->
  exists bins', (if scheduled ev then aremove (evkey ev) e bins = Some bins' else bins' = bins) /\
    sched_post w bins' e t (priority ev) (reschedule w e t always).
Proof.
  intros Hw He Hi Hsch Halw Ht Hp.
  assert (Hrem : exists w1 bins' ev1, (if scheduled ev then remove_ev w e else Ok w) = Ok w1 /\
    (if scheduled ev then aremove (evkey ev) e bins = Some bins' else bins' = bins) /\
    wfw w1 bins' /\ (e ∉ elems bins') /\ evs w1 !! e = Some ev1 /\ evdata ev1 = evdata ev /\
    self w1 = self w /\ curTick w1 = curTick w /\ user w1 = user w).
  { destruct (scheduled ev) eqn:Hs.
    - destruct (remove_ev_ok w bins e ev Hw (Hsch eq_refl) He)
        as (w1 & bins' & ev1 & ? & ? & ? & ? & ? & ? & _ & ? & ? & ?). eauto 15.
    - exists w, bins, ev. do 3 (split; [done|]).
      split; [by eapply not_scheduled_outside|]. done. }
  destruct Hrem as (w1 & bins' & ev1 & Hrem & Hb & Hw1 & Hnin & He1 & Hd & Hself & Htick & Huser).
  exists bins'. split; [done|]. unfold reschedule.
  destruct (Z.leb_spec (curTick w) t); [|lia]. cbn [assert_ rbind]. rewrite He. cbn [deref rbind].
  replace (always || scheduled ev) with true
    by (destruct (scheduled ev); [by rewrite orb_true_r|by rewrite (Halw eq_refl)]).
  rewrite Hi, Hp. cbn [negb orb assert_ rbind]. rewrite Hrem. cbn [rbind]. rewrite He1. cbn [deref rbind].
  injection Hd as Hdw Hdp Hdf Hdq.
  destruct (insert_mark (set_evs w1 (<[e := setWhen ev1 t (self w1)]> (evs w1))) bins' e
              (setWhen ev1 t (self w1)) (fun f => Flags.set (Flags.clear f Squashed) Scheduled))
    as (w' & ev' & -> & Hwf & He' & Hd' & _ & _ & Hct & Hus).
  - by apply wfw_outside.
  - simpl. by rewrite lookup_insert_eq.
  - done.
  - simpl. lia.
  - done.
  - apply isSet_set_same. done.
  - injection Hd' as Hd1 Hd2 Hd3 Hd4. exists w', ev'. split; [done|].
    split; [rewrite <- Hdp; exact Hwf|]. do 2 (split; [done|]).
    split; [unfold scheduled; rewrite Hd3; by apply isSet_set_same|].
    simpl in Hct, Hus. split; congruence.
Qed.
End Scheduling.

(** ** Servicing *)

Section Servicing.
Context {S : Type}.
Implicit Types w : world S.

Lemma bin_time_le w k es rest : wfw w ((k, es) :: rest) ->
  forall x ev, x ∈ elems ((k, es) :: rest) -> evs w !! x = Some ev -> k.1 <= when ev.
Proof.
  intros [[Hb _ Hs] _] x ev Hx He.
  pose proof (brepr_key_in _ _ _ _ _ Hb Hx He) as Hin.
  apply StronglySorted_inv in Hs as [_ HF]. rewrite Forall_forall in HF.
  simpl in Hin. apply elem_of_cons in Hin as [Heq|Hin].
  - rewrite <- Heq. done.
  - apply HF in Hin. unfold klt in Hin. simpl in Hin. lia.
Qed.

(** Unlinking the head is [removeItem] of it, after its flag is cleared. *)
Lemma pop_head_removeItem w e ev : eq_head w = Some e -> evs w !! e = Some ev ->
  pop_head w =
    let h := <[e := set_flags ev (Flags.clear (flags ev) Scheduled)]> (evs w) in
    let! (h, top) := removeItem h e e in Ok (e, set_list w h top).
Proof.
  intros Hhd He. unfold pop_head, removeItem. rewrite Hhd. cbn [deref rbind].
  rewrite He. cbn [deref rbind]. rewrite lookup_insert_eq. cbn [deref rbind].
  rewrite Pos.eqb_refl. cbn [nextInBin set_flags]. destruct (nextInBin ev) as [n|]; [|done].
  by destruct (_ !! n).
Qed.

(** The event unlinked by [serviceOne] is the top of the first bin; what
    remains is the queue without it, and nothing in it is earlier. *)
Lemma pop_head_ok w k e es rest : wfw w ((k, e :: es) :: rest) ->
  exists w' ev ev', pop_head w = Ok (e, w') /\ wfw w' (mkbin k es rest) /\
    evs w !! e = Some ev /\ evs w' !! e = Some ev' /\
    evkey ev = k /\ evdata ev' = evdata (set_flags ev (Flags.clear (flags ev) Scheduled)) /\
    (forall x, x <> e -> evdata <$> evs w' !! x = evdata <$> evs w !! x) /\
    (e ∉ elems (mkbin k es rest)) /\
    curTick w' = curTick w /\ user w' = user w /\ self w' = self w.
Proof.
  intros Hw. pose proof Hw as [[Hb Hnd Hs] Hev].
  pose proof Hb as ([(ev0 & He0 & Hk & _) _] & t & ev & [= <-] & Hhd & He & _).
  assert (ev0 = ev) as -> by congruence.
  rewrite (pop_head_removeItem w e ev) by done. cbv zeta.
  set (ev1 := set_flags ev (Flags.clear (flags ev) Scheduled)).
  set (h1 := <[e := ev1]> (evs w)).
  assert (Hq1 : wfq h1 (eq_head w) ((k, e :: es) :: rest)) by (by eapply wfq_upd).
  destruct (removeItem_top h1 k e es rest) as (h2 & top & -> & Hb2 & Hsd & _);
    [rewrite <- Hhd; apply Hq1|done|]. cbn [rbind].
  rewrite elems_cons in Hnd. cbn [app] in Hnd. apply NoDup_cons in Hnd as [Hnin Hnd].
  assert (Hne : e ∉ es) by set_solver.
  rewrite filter_cons_False, filter_ne_id in Hb2 by auto.
  assert (He1 : h1 !! e = Some ev1) by (unfold h1; by rewrite lookup_insert_eq).
  destruct (same_data_lookup _ _ _ _ Hsd He1) as (ev2 & He2 & Hd2).
  assert (Hdata : forall x, x <> e -> evdata <$> h2 !! x = evdata <$> evs w !! x).
  { intros x Hx. rewrite <- (Hsd x). unfold h1. by rewrite lookup_insert_ne. }
  eexists _, ev, ev2. split; [done|]. split; [|rewrite mkbin_elems; done].
  split.
  - split; [done|by rewrite mkbin_elems|].
    destruct es; [by apply StronglySorted_inv in Hs as [? _]|done].
  - intros x. rewrite mkbin_elems. intros Hx. destruct (Hev x) as (xev & Hxe & ? & ? & ?).
    { rewrite elems_cons. set_solver. }
    specialize (Hdata x ltac:(set_solver)). rewrite Hxe in Hdata. simpl in Hdata.
    destruct (h2 !! x) as [xev'|] eqn:E; [|done]. injection Hdata as Hdw Hdp Hdf Hdq.
    exists xev'. simpl. split; [done|]. rewrite Hdw, Hdq. unfold scheduled. by rewrite Hdf.
Qed.

(** The clock may advance to the time of the first bin. *)
Lemma wfw_advance w k e es rest w' :
  wfw w ((k, e :: es) :: rest) -> wfw w' (mkbin k es rest) ->
  (forall x, x <> e -> evdata <$> evs w' !! x = evdata <$> evs w !! x) ->
  (e ∉ elems (mkbin k es rest)) ->
  wfw (setCurTick w' k.1) (mkbin k es rest).
Proof.
  intros Hw [Hq' Hev'] Hd Hnin. split; [done|]. intros x Hx.
  destruct (Hev' x Hx) as (xev & Hxe & ? & ? & _). exists xev. do 3 (split; [done|]). simpl.
  assert (Hxne : x <> e) by set_solver.
  specialize (Hd x Hxne). rewrite Hxe in Hd.
  destruct (evs w !! x) as [xev0|] eqn:E0; [|done]. injection Hd as -> _ _ _.
  eapply (bin_time_le _ _ _ _ Hw); [|done]. rewrite mkbin_elems in Hx. rewrite elems_cons. set_solver.
Qed.

(** The flags [serviceOne] accepts on an exit event. *)
Definition exit_ok (ev : Event) : Prop :=
  isExitEvent ev = true ->
  Flags.isSet (flags ev) Managed = false \/ Flags.isSet (flags ev) IsMainQueue = false.

Lemma release_ok w bins e ev : wfw w bins -> evs w !! e = Some ev ->
  exists w', release w e = Ok w' /\ wfw w' bins /\
    (forall x, x <> e -> evs w' !! x = evs w !! x) /\ evs w' ⊆ evs w /\
    curTick w' = curTick w /\ user w' = user w /\ self w' = self w.
Proof.
  intros Hw He. unfold release. rewrite He. cbn [deref rbind].
  destruct (isManaged ev); [|by exists w].
  destruct (scheduled ev) eqn:Hs; cbn [negb]; [by exists w|].
  eexists. split; [done|]. split; [|split; [|split; [|done]]].
  - apply wfw_delete; [done|]. by eapply not_scheduled_outside.
  - intros x Hx. simpl. by rewrite lookup_delete_ne.
  - apply delete_subseteq.
Qed.

Lemma flags_clear_other f c m :
  c = Scheduled \/ c = Squashed -> m = Managed \/ m = IsExitEvent \/ m = IsMainQueue ->
  Flags.isSet (Flags.clear f c) m = Flags.isSet f m.
Proof.
  intros Hc Hm. unfold Flags.isSet.
  rewrite land_clear_disjoint; [done|..]; destruct Hc as [-> | ->], Hm as [-> | [-> | ->]];
    (done || (unfold in_u, Managed, IsExitEvent, IsMainQueue; lia)).
Qed.

Lemma exit_ok_clear ev ev' c : c = Scheduled \/ c = Squashed ->
  flags ev' = Flags.clear (flags ev) c -> exit_ok ev -> exit_ok ev'.
Proof.
  intros Hc Hf. unfold exit_ok, isExitEvent. rewrite Hf, !flags_clear_other by auto. done.
Qed.

Definition exits_all_ok w : Prop := forall e ev, evs w !! e = Some ev -> exit_ok ev.

Lemma exits_all_ok_insert w e ev :
  exits_all_ok w -> exit_ok ev -> exits_all_ok (set_evs w (<[e:=ev]> (evs w))).
Proof.
  intros Hall Hev x xev. simpl. destruct (decide (x = e)) as [->|Hne].
  - rewrite lookup_insert_eq. by intros [= <-].
  - rewrite lookup_insert_ne by done. apply Hall.
Qed.

Lemma exits_all_ok_subseteq w w' : exits_all_ok w -> evs w' ⊆ evs w -> exits_all_ok w'.
Proof. intros Hall Hsub x xev Hx. eapply Hall, lookup_weaken; eauto. Qed.

(** What [serviceOne] needs of [Event::process]: called on an event that is out
    of the queue, it keeps the invariant of the queue, leaves the clock alone
    and does not delete the event it handles. *)
Definition handler_ok (process : positive -> world S -> res (world S)) : Prop :=
  forall e w bins ev, wfw w bins -> exits_all_ok w -> evs w !! e = Some ev ->
    scheduled ev = false ->
    exists w' bins', process e w = Ok w' /\ wfw w' bins' /\ exits_all_ok w' /\
      curTick w' = curTick w /\ is_Some (evs w' !! e).

Lemma exits_all_ok_pop w w1 e ev ev1 : exits_all_ok w -> evs w !! e = Some ev ->
  evs w1 !! e = Some ev1 -> flags ev1 = Flags.clear (flags ev) Scheduled ->
  (forall x, x <> e -> evdata <$> evs w1 !! x = evdata <$> evs w !! x) -> exits_all_ok w1.
Proof.
  intros Hall He He1 Hfl Hd x xev Hx. destruct (decide (x = e)) as [->|Hne].
  - simplify_eq. eapply (exit_ok_clear ev _ Scheduled); [by left|done|by eapply Hall].
  - specialize (Hd x Hne). rewrite Hx in Hd.
    destruct (evs w !! x) as [xev0|] eqn:E; [|done]. injection Hd as _ _ Hf _.
    specialize (Hall x xev0 E). unfold exit_ok, isExitEvent in *. by rewrite Hf.
Qed.

(** How [serviceOne] goes from [w] to [w'] on the event [e] with key [k]: a squashed
    event only leaves the queue; for any other one the handler is called with the
    event out of the queue and the clock at its time, and the event may be released
    afterwards. *)
Definition serviced_as (process : positive -> world S -> res (world S)) w (e : positive) (ev : Event)
    (rest : list abin) w' (bins' : list abin) : Prop :=
  if squashed ev then bins' = rest /\ user w' = user w /\ curTick w' = curTick w
  else exists wc w2, wfw wc rest /\ curTick wc = when ev /\ user wc = user w /\ process e wc = Ok w2 /\
    wfw w2 bins' /\ user w' = user w2 /\ curTick w' = curTick w2 /\ evs w' ⊆ evs w2.

Lemma serviceOne_step process w k e es rest :
  handler_ok process -> wfw w ((k, e :: es) :: rest) -> exits_all_ok w ->
  exists r w' bins' ev, serviceOne process w = Ok (r, w') /\ wfw w' bins' /\ exits_all_ok w' /\
    evs w !! e = Some ev /\ evkey ev = k /\ curTick w <= curTick w' <= k.1 /\
    (forall x xev, x ∈ elems bins' -> evs w' !! x = Some xev -> k.1 <= when xev) /\
    serviced_as process w e ev (mkbin k es rest) w' bins'.
Proof.
  intros Hproc Hw Hall.
  destruct (pop_head_ok _ _ _ _ _ Hw)
    as (w1 & ev & ev1 & Hpop & Hw1 & He & He1 & Hk & Hd1 & Hdata & Hnin & Ht & Hu & _).
  assert (Htk : curTick w <= k.1).
  { destruct (ww_ev _ _ Hw e) as (? & ? & _ & _ & ?); [rewrite elems_cons; set_solver|].
    simplify_eq. simpl. lia. }
  assert (Hkw : k.1 = when ev) by (by rewrite <- Hk).
  injection Hd1 as Hwhen Hprio Hfl Hqu.
  pose proof (exits_all_ok_pop _ _ _ _ _ Hall He He1 Hfl Hdata) as Hall1.
  pose proof (wfw_advance _ _ _ _ _ _ Hw Hw1 Hdata Hnin) as Hadv.
  assert (Hsq : squashed ev1 = squashed ev)
    by (unfold squashed, Flags.isSet; rewrite Hfl, land_clear_disjoint; done).
  unfold serviceOne, serviced_as. rewrite Hpop. cbn [rbind]. rewrite He1. cbn [deref rbind].
  rewrite Hsq. destruct (squashed ev) eqn:Esq; cbn [negb].
  - unfold upd_flags. rewrite He1. cbn [deref rbind].
    set (ev2 := set_flags ev1 (Flags.clear (flags ev1) Squashed)).
    destruct (release_ok (set_evs w1 (<[e:=ev2]> (evs w1))) (mkbin k es rest) e ev2)
      as (w2 & -> & Hw2 & Hne2 & Hsub & Ht2 & Hu2 & _); [by apply wfw_outside|simpl; by rewrite lookup_insert_eq|].
    cbn [rbind]. eexists _, w2, _, ev. do 2 (split; [done|]). split.
    { eapply exits_all_ok_subseteq, Hsub. apply exits_all_ok_insert; [done|].
      eapply (exit_ok_clear ev1); [by right|done|by apply (Hall1 e)]. }
    do 2 (split; [done|]). split; [rewrite Ht2; simpl; lia|]. rewrite Esq. split; [|by rewrite Hu2, Ht2].
    intros x xev Hx Hxe. assert (x <> e) by set_solver. rewrite Hne2 in Hxe by done. simpl in Hxe.
    rewrite lookup_insert_ne in Hxe by done. destruct (ww_ev _ _ Hadv x Hx) as (? & Hxa & _ & _ & Hxt). simpl in Hxa, Hxt. by simplify_eq.
  - rewrite Hwhen, <- Hkw. destruct (Hproc e _ _ ev1 Hadv) as (w2 & bins2 & E2 & Hw2 & Hall2 & Ht2 & ev2 & He2);
      [done..|unfold scheduled, Flags.isSet; by rewrite Hfl, land_clear_same|].
    rewrite E2. cbn [rbind]. rewrite He2. cbn [deref rbind]. simpl in Ht2.
    assert (Hlate : forall w3 x xev, wfw w3 bins2 -> curTick w3 = k.1 -> x ∈ elems bins2 -> evs w3 !! x = Some xev -> k.1 <= when xev).
    { intros w3 x xev Hw3 E3 Hx Hxe. destruct (ww_ev _ _ Hw3 x Hx) as (? & ? & _ & _ & ?). simplify_eq. lia. }
    destruct (isExitEvent ev2) eqn:Hexit.
    + replace (negb _ || negb _) with true
        by (destruct (Hall2 e ev2 He2 Hexit) as [-> | ->]; [done|by rewrite orb_true_r]).
      cbn [assert_ rbind]. eexists _, w2, bins2, ev. do 5 (split; [done|]). split; [lia|]. split; [by eauto|].
      rewrite Esq, <- Hkw. eexists _, w2. split_and!; [exact Hadv|done..].
    + destruct (release_ok _ _ _ _ Hw2 He2) as (w3 & -> & Hw3 & _ & Hsub & Ht3 & Hu3 & _).
      cbn [rbind]. eexists _, w3, bins2, ev. do 2 (split; [done|]). split; [by eapply exits_all_ok_subseteq|].
      do 2 (split; [done|]). split; [lia|]. split; [intros x xev; apply Hlate; [done|lia]|].
      rewrite Esq, <- Hkw. eexists _, w2. split_and!; [exact Hadv|done..].
Qed.

Lemma serviceOne_wfw process w bins :
  handler_ok process -> wfw w bins -> exits_all_ok w -> bins <> [] ->
  exists r w' bins', serviceOne process w = Ok (r, w') /\ wfw w' bins' /\ exits_all_ok w' /\
    curTick w <= curTick w'.
Proof.
  intros Hproc Hw Hall Hne. destruct bins as [|[k es] rest]; [done|].
  destruct es as [|e es]; [destruct Hw as [[(_ & ? & ? & ? & _) _ _] _]; done|].
  destruct (serviceOne_step _ _ _ _ _ _ Hproc Hw Hall) as (r & w' & bins' & ev & ? & ? & ? & _ & _ & [? _] & _). eauto 10.
Qed.
End Servicing.

(** ** Due events *)

(** The events due at time [t], in the order of the bins, and the bins left. *)
Fixpoint due (t : Z) (bins : list abin) : list positive :=
  match bins with
  | [] => []
  | (k, es) :: rest => if k.1 <=? t then es ++ due t rest else []
  end.

Fixpoint later (t : Z) (bins : list abin) : list abin :=
  match bins with
  | [] => []
  | (k, es) :: rest => if k.1 <=? t then later t rest else bins
  end.

Lemma due_mkbin t k e es rest : k.1 <= t ->
  due t ((k, e :: es) :: rest) = e :: due t (mkbin k es rest) /\
  later t ((k, e :: es) :: rest) = later t (mkbin k es rest).
Proof.
  intros Hk. simpl. destruct (Z.leb_spec k.1 t); [|lia].
  destruct es; simpl; [done|]. destruct (Z.leb_spec k.1 t); [done|lia].
Qed.

Lemma due_incl t bins x : x ∈ due t bins -> x ∈ elems bins.
Proof.
  induction bins as [|[k es] rest IH]; [done|]. cbn [due]. rewrite elems_cons.
  case_match; [|set_solver]. intros [?|?]%elem_of_app; set_solver.
Qed.

(** ** A whole run with handlers that leave the queue alone *)

Section QuietRun.
Context {S : Type} (act : positive -> S -> S).
Implicit Types w : world S.

Definition set_user w (u : S) : world S :=
  mkWorld (evs w) (self w) (eq_head w) (curTick w) (async_queue w) (inParallelMode w)
    (curEventQueue w) u.

Definition quiet (e : positive) w : res (world S) := Ok (set_user w (act e (user w))).

Definition is_squashed w (e : positive) : bool :=
  match evs w !! e with Some ev => squashed ev | None => false end.

Definition exits_ok w (es : list positive) : Prop :=
  forall e ev, e ∈ es -> evs w !! e = Some ev -> exit_ok ev.

(** The effect of servicing the events [es] in order. *)
Definition run_events w (es : list positive) (u : S) : S :=
  foldl (fun u e => if is_squashed w e then u else act e u) u es.

Lemma evdata_squashed ev ev' : flags ev' = flags ev -> squashed ev' = squashed ev.
Proof. intros H. unfold squashed. by rewrite H. Qed.

Lemma flags_clear_scheduled f m : m = Squashed \/ m = Managed \/ m = IsExitEvent \/ m = IsMainQueue ->
  Flags.isSet (Flags.clear f Scheduled) m = Flags.isSet f m.
Proof.
  intros Hm. unfold Flags.isSet.
  rewrite land_clear_disjoint; [done|..]; destruct Hm as [-> | [-> | [-> | ->]]];
    (done || (unfold in_u, Squashed, Managed, IsExitEvent, IsMainQueue; lia)).
Qed.

Lemma serviceOne_quiet w k e es rest :
  wfw w ((k, e :: es) :: rest) -> exits_ok w [e] ->
  exists r w', serviceOne quiet w = Ok (r, w') /\ wfw w' (mkbin k es rest) /\
    user w' = run_events w [e] (user w) /\
    (forall x, x <> e -> evdata <$> evs w' !! x = evdata <$> evs w !! x) /\
    (forall ev', evs w' !! e = Some ev' -> scheduled ev' = false).
Proof.
  intros Hw Hex.
  destruct (pop_head_ok _ _ _ _ _ Hw)
    as (w1 & ev & ev1 & Hpop & Hw1 & He & He1 & Hk & Hd1 & Hdata & Hnin & Ht & Hu & _).
  injection Hd1 as Hwhen Hprio Hfl Hqu.
  assert (Hsq : squashed ev1 = squashed ev)
    by (unfold squashed; rewrite Hfl; apply flags_clear_scheduled; auto).
  assert (Hns : scheduled ev1 = false) by (unfold scheduled, Flags.isSet; by rewrite Hfl, land_clear_same).
  unfold serviceOne, run_events, is_squashed. simpl foldl. rewrite Hpop. cbn [rbind].
  rewrite He1, He. cbn [deref rbind]. rewrite Hsq. destruct (squashed ev); cbn [negb].
  - unfold upd_flags. rewrite He1. cbn [deref rbind].
    destruct (release_ok (set_evs w1 (<[e:=set_flags ev1 (Flags.clear (flags ev1) Squashed)]> (evs w1)))
                (mkbin k es rest) e (set_flags ev1 (Flags.clear (flags ev1) Squashed)))
      as (w2 & -> & ? & Hfr & Hsub & _ & Hu2 & _); [by apply wfw_outside|simpl; by rewrite lookup_insert_eq|].
    cbn [rbind]. eexists _, w2. do 2 (split; [done|]). split; [by rewrite Hu2|]. split.
    + intros x Hx. rewrite Hfr by done. simpl. rewrite lookup_insert_ne by done. auto.
    + intros ev' He'. eapply lookup_weaken in He'; [|exact Hsub]. simpl in He'. rewrite lookup_insert_eq in He'. inv He'.
      unfold scheduled, Flags.isSet in *. cbn [flags set_flags]. by rewrite land_clear_disjoint.
  - unfold quiet. cbn [rbind]. change (user (setCurTick w1 (when ev1))) with (user w1).
    simpl evs. rewrite He1. cbn [deref rbind].
    assert (Hadv : wfw (set_user (setCurTick w1 (when ev1)) (act e (user w1))) (mkbin k es rest)).
    { assert (Hk1 : when ev1 = k.1) by (rewrite Hwhen, <- Hk; done).
      destruct (wfw_advance _ _ _ _ _ _ Hw Hw1 Hdata Hnin) as [? ?]. rewrite Hk1. by split. }
    assert (Hext : isExitEvent ev1 = isExitEvent ev)
      by (unfold isExitEvent; rewrite Hfl; apply flags_clear_scheduled; auto).
    rewrite Hext. destruct (isExitEvent ev) eqn:Hexit.
    + assert (Hok : exit_ok ev) by (apply (Hex e); [set_solver|done]).
      replace (negb _ || negb _) with true.
      2: { rewrite Hfl, !flags_clear_scheduled by auto.
           destruct (Hok Hexit) as [-> | ->]; [done|by rewrite orb_true_r]. }
      cbn [assert_ rbind]. eexists _, _. do 2 (split; [done|]). simpl. rewrite Hu. split_and!; [done|done|]. intros ev' He'. congruence.
    + destruct (release_ok (set_user (setCurTick w1 (when ev1)) (act e (user w1)))
                  (mkbin k es rest) e ev1 Hadv He1) as (w2 & -> & ? & Hfr & Hsub & _ & Hu2 & _).
      cbn [rbind]. eexists _, w2. do 2 (split; [done|]). rewrite Hu2. simpl. split; [by rewrite Hu|]. split.
      * intros x Hx. rewrite Hfr by done. simpl. auto.
      * intros ev' He'. eapply lookup_weaken in He'; [|exact Hsub]. simpl in He'. congruence.
Qed.

Lemma run_events_cons w e es u : run_events w (e :: es) u = run_events w es (run_events w [e] u).
Proof. done. Qed.

(** [run_events] only reads the [Squashed] flags of the events. *)
Lemma run_events_ext w w' es u :
  (forall x, x ∈ es -> evdata <$> evs w' !! x = evdata <$> evs w !! x) ->
  run_events w' es u = run_events w es u.
Proof.
  intros Hd. revert u. induction es as [|e es IH]; intros u; [done|].
  rewrite (run_events_cons w), (run_events_cons w'), IH by set_solver. f_equal.
  unfold run_events, is_squashed. simpl. specialize (Hd e ltac:(set_solver)).
  destruct (evs w' !! e), (evs w !! e); simpl in Hd; try done.
  injection Hd as _ _ Hf _. by rewrite (evdata_squashed _ _ Hf).
Qed.

Lemma exits_ok_ext w w' es :
  (forall x, x ∈ es -> evdata <$> evs w' !! x = evdata <$> evs w !! x) ->
  exits_ok w es -> exits_ok w' es.
Proof.
  intros Hd Hex e ev Hin He. specialize (Hd e Hin). rewrite He in Hd.
  destruct (evs w !! e) as [ev0|] eqn:E; [|done]. injection Hd as _ _ Hf _.
  specialize (Hex e ev0 Hin E). unfold exit_ok, isExitEvent in *. by rewrite Hf.
Qed.

Lemma service_loop_quiet t fuel : forall w bins,
  wfw w bins -> exits_ok w (due t bins) -> (length (due t bins) <= fuel)%nat ->
  exists w', service_loop quiet fuel w t = Ok w' /\ wfw w' (later t bins) /\
    user w' = run_events w (due t bins) (user w).
Proof.
  induction fuel as [|fuel IH]; intros w bins Hw Hex Hf.
  all: destruct bins as [|[k es] rest];
    [exists w; unfold service_loop, empty; pose proof (wfq_repr _ _ _ (ww_q _ _ Hw)) as Hh;
     simpl in Hh; rewrite Hh; done|].
  all: destruct es as [|e es]; [destruct Hw as [[(_ & ? & ? & ? & _) _ _] _]; done|].
  all: pose proof (wfq_repr _ _ _ (ww_q _ _ Hw)) as (Hc & t0 & ev & [= <-] & Hhd & He & _).
  all: pose proof (chain_top _ _ _ _ _ Hc eq_refl He) as Hk.
  all: cbn [service_loop]; unfold empty, nextTick; rewrite Hhd; cbn [deref rbind];
    rewrite He; cbn [deref rbind].
  all: assert (Hkw : k.1 = when ev) by (by rewrite <- Hk).
  all: destruct (Z.ltb_spec t (when ev)) as [Hlt|Hge];
    [exists w; cbn [later due]; destruct (Z.leb_spec k.1 t); [lia|done]|].
  - exfalso. destruct (due_mkbin t k e es rest) as [Hdue _]; [lia|].
    rewrite Hdue in Hf. simpl in Hf. lia.
  - destruct (due_mkbin t k e es rest) as [Hdue Hlat]; [lia|].
    rewrite Hdue in Hex, Hf |- *. rewrite Hlat.
    destruct (serviceOne_quiet w k e es rest Hw) as (r & w1 & -> & Hw1 & Hu1 & Hd1 & _).
    { intros x xev Hx. apply Hex. set_solver. }
    assert (Hnin : e ∉ elems (mkbin k es rest)).
    { pose proof (wfq_nodup _ _ _ (ww_q _ _ Hw)) as Hnd. rewrite elems_cons in Hnd.
      apply NoDup_cons in Hnd as [? _]. by rewrite mkbin_elems. }
    assert (Hd2 : forall x, x ∈ due t (mkbin k es rest) ->
                    evdata <$> evs w1 !! x = evdata <$> evs w !! x).
    { intros x Hx. apply Hd1. intros ->. by apply due_incl in Hx. }
    destruct (IH w1 (mkbin k es rest) Hw1) as (w2 & Hrun & Hw2 & Hu2).
    { eapply exits_ok_ext; [exact Hd2|]. intros x xev Hx. apply Hex. set_solver. }
    { simpl in Hf. lia. }
    cbn [rbind]. exists w2. split; [done|]. split; [done|].
    rewrite Hu2, Hu1, (run_events_cons w e (due _ _)). by apply run_events_ext.
Qed.
End QuietRun.

(** ** Asynchronous insertions *)

Section Async.
Context {S : Type}.
Implicit Types w : world S.

Definition key_of (h : gmap positive Event) (e : positive) : Z * Z :=
  match h !! e with Some ev => evkey ev | None => (0, 0) end.

Definition merge_async (h : gmap positive Event) (l : list positive) (bins : list abin) : list abin :=
  foldl (fun b e => ainsert (key_of h e) e b) bins l.

Lemma merge_async_ext h h' l bins :
  (forall x, evdata <$> h' !! x = evdata <$> h !! x) ->
  merge_async h' l bins = merge_async h l bins.
Proof.
  intros Hd. unfold merge_async. revert bins. induction l as [|e l IH]; intros bins; [done|].
  simpl. rewrite IH. do 2 f_equal. unfold key_of. specialize (Hd e).
  destruct (h' !! e), (h !! e); simpl in Hd; try done.
  injection Hd as Hdw Hdp _ _. unfold evkey. by rewrite Hdw, Hdp.
Qed.

(** The events waiting in [async_queue] were put there by [schedule]. *)
Definition async_ok w (bins : list abin) (l : list positive) : Prop :=
  NoDup l /\ forall e, e ∈ l -> (e ∉ elems bins) /\ exists ev, evs w !! e = Some ev /\
    scheduled ev = true /\ queue ev = Some (self w) /\ curTick w <= when ev.

Lemma wfw_set_async w bins l : wfw w bins -> wfw (set_async w l) bins.
Proof. intros [? ?]. by split. Qed.

Lemma insert_ev_ok w bins e ev :
  wfw w bins -> evs w !! e = Some ev -> e ∉ elems bins -> scheduled ev = true ->
  queue ev = Some (self w) -> curTick w <= when ev ->
  exists w', insert_ev w e = Ok w' /\ wfw w' (ainsert (evkey ev) e bins) /\
    (forall x, evdata <$> evs w' !! x = evdata <$> evs w !! x) /\
    self w' = self w /\ curTick w' = curTick w /\ user w' = user w.
Proof.
  intros [Hq Hev] He Hnin Hs Hqu Ht.
  destruct (insert_refines (evs w) (eq_head w) bins e ev) as (h & hd & Hins & Hwf & Hsd & Hfr);
    [done..|].
  unfold insert_ev. rewrite Hins. cbn [rbind]. eexists. split; [done|]. split; [split; [done|]|].
  - intros x. rewrite ainsert_elems. intros Hx.
    assert (Hx' : exists xev, evs w !! x = Some xev /\ scheduled xev = true /\
              queue xev = Some (self w) /\ curTick w <= when xev).
    { apply elem_of_cons in Hx as [->|Hx]; [by exists ev|auto]. }
    destruct Hx' as (xev & Hxe & ? & ? & ?).
    destruct (same_data_lookup _ _ _ _ Hsd Hxe) as (xev' & ? & Hd). injection Hd as Hdw Hdp Hdf Hdq.
    exists xev'. simpl. split; [done|]. rewrite Hdw, Hdq. unfold scheduled. by rewrite Hdf.
  - split; [|done]. intros x. simpl. symmetry. apply Hsd.
Qed.

Lemma async_loop_ok l : forall w bins, wfw w bins -> async_ok w bins l ->
  exists w', async_loop l w = Ok w' /\ wfw w' (merge_async (evs w) l bins) /\
    async_queue w' = [] /\ curTick w' = curTick w /\ user w' = user w.
Proof.
  induction l as [|e l IH]; intros w bins Hw Hok.
  - exists (set_async w []). split; [done|]. split; [by apply wfw_set_async|done].
  - destruct Hok as [Hnd Hok]. apply NoDup_cons in Hnd as [Hel Hnd].
    destruct (Hok e) as (Hnin & ev & He & Hs & Hq & Ht); [set_solver|].
    destruct (insert_ev_ok (set_async w (e :: l)) bins e ev) as (w1 & Hins & Hw1 & Hd & Hself & Htick & Hu);
      [by apply wfw_set_async|done..|].
    cbn [async_loop]. rewrite Hins. cbn [rbind].
    destruct (IH (set_async w1 l) (ainsert (evkey ev) e bins)) as (w2 & Hrun & Hw2 & Ha & Ht2 & Hu2);
      [by apply wfw_set_async|split; [done|]|].
    + intros x Hx. destruct (Hok x) as (Hxn & xev & Hxe & ? & ? & ?); [set_solver|].
      split; [rewrite ainsert_elems; set_solver|].
      specialize (Hd x). simpl in Hd. rewrite Hxe in Hd.
      destruct (evs w1 !! x) as [xev'|] eqn:E; [|done]. injection Hd as Hdw Hdp Hdf Hdq.
      exists xev'. simpl. split; [done|]. simpl in Hself, Htick.
      rewrite Hdw, Hdq, Hself, Htick. unfold scheduled. by rewrite Hdf.
    + exists w2. split; [done|]. split; [|simpl in *; split; [done|split; congruence]].
      cbn [merge_async foldl]. unfold merge_async in *. simpl foldl. unfold key_of at 2. rewrite He.
      fold (merge_async (evs w) l (ainsert (evkey ev) e bins)).
      rewrite <- (merge_async_ext (evs w) (evs w1)) by done. exact Hw2.
Qed.
End Async.

(** ** [debugVerify] *)

Section Verify.
Context (h : gmap positive Event).

(** The state of the traversal: the last time and priority, and the events
    seen; [None] is [return false]. *)
Fixpoint verify_bin (fuel : nat) (p : option positive) (time prio : Z) (seen : gset positive)
  : res (option (Z * Z * gset positive)) :=
  match p with
  | None => Ok (Some (time, prio, seen))
  | Some e =>
      match fuel with
      | O => Err OutOfFuel
      | S fuel =>
          let! ev := deref (h !! e) in
          if when ev <? time then Ok None
          else if (when ev =? time) && (priority ev <? prio) then Ok None
          else if decide (e ∈ seen) then Ok None
          else verify_bin fuel (nextInBin ev) (when ev) (priority ev) ({[e]} ∪ seen)
      end
  end.

Fixpoint verify_bins (fuel : nat) (p : option positive) (time prio : Z) (seen : gset positive)
  : res bool :=
  match p with
  | None => Ok true
  | Some e =>
      match fuel with
      | O => Err OutOfFuel
      | S fuel' =>
          let! r := verify_bin (size h) (Some e) time prio seen in
          match r with
          | None => Ok false
          | Some (time, prio, seen) =>
              let! ev := deref (h !! e) in
              verify_bins fuel' (nextBin ev) time prio seen
          end
      end
  end.

Definition debugVerify (head : option positive) : res bool :=
  verify_bins (size h) head 0 0 ∅.

Definition not_before (k : Z * Z) (time prio : Z) : Prop :=
  time <= k.1 /\ (k.1 = time -> prio <= k.2).

Lemma verify_bin_ok k es : forall fuel time prio seen,
  chain h k es -> (length es <= fuel)%nat -> NoDup es ->
  (forall x, x ∈ es -> x ∉ seen) -> not_before k time prio -> es <> [] ->
  verify_bin fuel (head es) time prio seen
  = Ok (Some (k.1, k.2, list_to_set (reverse es) ∪ seen)).
Proof.
  induction es as [|e es IH]; intros fuel time prio seen Hc Hf Hnd Hdis [Ht Hp] Hne; [done|].
  destruct fuel as [|fuel]; [simpl in Hf; lia|].
  destruct Hc as [(ev & He & Hk & Hn) Hc]. apply NoDup_cons in Hnd as [Hes Hnd].
  cbn [head verify_bin]. rewrite He. cbn [deref rbind].
  assert (Hkw : when ev = k.1 /\ priority ev = k.2) by (rewrite <- Hk; done).
  destruct Hkw as [-> ->]. destruct (Z.ltb_spec k.1 time); [lia|].
  replace ((k.1 =? time) && (k.2 <? prio)) with false
    by (symmetry; apply andb_false_iff; rewrite Z.eqb_neq, Z.ltb_ge;
        destruct (Z.eq_dec k.1 time); [right; auto|by left]).
  rewrite decide_False by (apply Hdis; set_solver). rewrite Hn, reverse_cons.
  destruct es as [|e' es].
  - destruct fuel; simpl; do 3 f_equal; set_solver.
  - rewrite IH; [|done|simpl in Hf |- *; lia|done| |split; [done|lia]|done].
    + do 3 f_equal. rewrite list_to_set_app_L. set_solver.
    + intros x Hx. specialize (Hdis x). set_solver.
Qed.

Lemma verify_bins_ok bins : forall fuel s time prio seen,
  brepr h s bins -> NoDup (elems bins) -> StronglySorted klt (keys bins) ->
  (length bins <= fuel)%nat -> (length (elems bins) <= size h)%nat ->
  (forall x, x ∈ elems bins -> x ∉ seen) ->
  (forall k, list.head (keys bins) = Some k -> not_before k time prio) ->
  verify_bins fuel s time prio seen = Ok true.
Proof.
  induction bins as [|[k es] rest IH]; intros fuel s time prio seen Hb Hnd Hs Hf Hsz Hdis Hk.
  - simpl in Hb. subst s. by destruct fuel.
  - destruct fuel as [|fuel]; [simpl in Hf; lia|].
    destruct Hb as (Hc & e & ev & Hhd & -> & He & Hb).
    rewrite elems_cons in Hnd, Hdis, Hsz. rewrite length_app in Hsz.
    apply NoDup_app in Hnd as (Hnde & Hd & Hnd).
    apply StronglySorted_inv in Hs as [Hs HF]. cbn [verify_bins]. rewrite <- Hhd at 1.
    rewrite (verify_bin_ok k); [|done|lia|done| |by apply Hk|by destruct es].
    2: { intros x Hx. apply Hdis. set_solver. }
    cbn [rbind]. rewrite He. cbn [deref rbind].
    apply IH; [done..|simpl in Hf; lia|lia| |].
    + intros x Hx. apply not_elem_of_union. split; [|apply Hdis; set_solver].
      rewrite elem_of_list_to_set, elem_of_reverse. intros Hin. by apply (Hd x).
    + intros k' Hk'. destruct rest as [|[k2 ?] ?]; [done|]. injection Hk' as <-.
      apply Forall_cons in HF as [Hlt _]. unfold klt, not_before in *. simpl in *. lia.
Qed.
End Verify.

(** ** Checkpoints *)

(** [Event::serialize]: the three scalars written, [_flags] as a [short]. *)
Definition serialize (ev : Event) : Z * Z * Z := (when ev, priority ev, swrap 16 (flags ev)).

(** [_flags] is read back as an [unsigned short]. *)
Definition unserialize (ev : Event) (cp : Z * Z * Z) : res Event :=
  let '(cp_when, cp_priority, cp_flags) := cp in
  check! negb (scheduled ev);
  let ev := mkEvent (nextBin ev) (nextInBin ev) cp_when cp_priority (flags ev) (queue ev) in
  check! initialized ev;
  let f := Flags.set (wrap 16 cp_flags) Initialized in
  let f := if Flags.isSet f Scheduled && negb (Flags.isSet f Squashed)
           then Flags.clear f (Z.lor Squashed Scheduled) else f in
  Ok (set_flags ev f).

Definition checkpointReschedule {S} (w : world S) (event : positive) : res (world S) :=
  let! ev := deref (evs w !! event) in
  if Flags.isSet (flags ev) Scheduled then insert_ev w event else Ok w.

(** [UNSERIALIZE_EVENT]. *)
Definition unserialize_event {S} (w : world S) (event : positive) (cp : Z * Z * Z) : res (world S) :=
  let! ev := deref (evs w !! event) in
  let! ev := unserialize ev cp in
  checkpointReschedule (set_evs w (<[event := ev]> (evs w))) event.

(** ** Main theorems *)

(** On every well-formed state, scheduling an initialised event that is not
    yet scheduled, at a time not in the past, succeeds: the event is put on top
    of its bin, marked, and the invariant (sorted bins, flags, nothing in the
    past) holds again. *)
Theorem schedule_correct {S} (w : world S) bins e ev t global :
  wfw w bins -> evs w !! e = Some ev -> scheduled ev = false -> initialized ev = true ->
  curTick w <= t -> inParallelMode w = false ->
  exists w' ev', schedule w e t global = Ok w' /\ wfw w' (ainsert (t, priority ev) e bins) /\
    evs w' !! e = Some ev' /\ when ev' = t /\ scheduled ev' = true /\
    curTick w' = curTick w /\ user w' = user w.
Proof. apply schedule_ok. Qed.

Definition demo_world : world (list positive) :=
  mkWorld demo_heap 9%positive None 0 [] false (Some 9%positive) [].

Lemma demo_wfw : wfw demo_world [].
Proof. split; [apply demo_empty|]. intros x Hx. by apply not_elem_of_nil in Hx. Qed.

Lemma schedule_correct_witness :
  exists w', schedule demo_world 1%positive 7 false = Ok w' /\ wfw w' [((7, 0), [1%positive])].
Proof.
  destruct (schedule_correct demo_world [] 1%positive (demo_ev 10 0) 7 false)
    as (w' & ev' & ? & ? & _);
    [apply demo_wfw | reflexivity | reflexivity | reflexivity | simpl; lia | reflexivity |].
  exists w'. split; assumption.
Defined.

(** [deschedule] of an event of the queue removes exactly that event, keeps
    the invariant, clears its [Scheduled] and [Squashed] flags, and deletes the
    event precisely when it is managed. *)
Theorem deschedule_correct {S} (w : world S) bins e ev :
  wfw w bins -> e ∈ elems bins -> evs w !! e = Some ev -> initialized ev = true ->
  inParallelMode w = false ->
  exists w' bins', deschedule w e = Ok w' /\ aremove (evkey ev) e bins = Some bins' /\
    wfw w' bins' /\ curTick w' = curTick w /\ user w' = user w /\
    match evs w' !! e with
    | None => isManaged ev = true
    | Some ev' => isManaged ev = false /\ scheduled ev' = false /\ squashed ev' = false
    end.
Proof. apply deschedule_ok. Qed.

Definition demo_sched (w p : Z) : Event :=
  mkEvent None None w p (Z.lor Initialized Scheduled) (Some 9%positive).

Definition demo_world1 : world (list positive) :=
  mkWorld {[1%positive := demo_sched 10 0]} 9%positive (Some 1%positive) 0 [] false
    (Some 9%positive) [].

Lemma demo_wfw1 : wfw demo_world1 [((10, 0), [1%positive])].
Proof.
  split.
  - split; [|apply NoDup_singleton|repeat constructor].
    split; [split; [eexists; split; [reflexivity|]; split; reflexivity|exact I]|].
    eexists _, _. split; [reflexivity|]. split; [reflexivity|]. split; reflexivity.
  - intros x Hx. apply list_elem_of_singleton in Hx as ->. eexists.
    split; [reflexivity|]. split; [reflexivity|]. split; [reflexivity|]. simpl. lia.
Qed.

Lemma deschedule_correct_witness :
  exists w' bins', deschedule demo_world1 1%positive = Ok w' /\ wfw w' bins'.
Proof.
  destruct (deschedule_correct demo_world1 [((10, 0), [1%positive])] 1%positive (demo_sched 10 0))
    as (w' & bins' & ? & _ & ? & _);
    [apply demo_wfw1 | apply list_elem_of_singleton; reflexivity | reflexivity | reflexivity
    | reflexivity |].
  exists w', bins'. split; assumption.
Defined.

(** [reschedule] moves a scheduled event to its new time, and with [always]
    inserts one that is not scheduled; in both cases the event ends up exactly
    once in the queue, marked, with the invariant restored. *)
Theorem reschedule_correct {S} (w : world S) bins e ev t always :
  wfw w bins -> evs w !! e = Some ev -> initialized ev = true ->
  (scheduled ev = true -> e ∈ elems bins) -> (scheduled ev = false -> always = true) ->
  curTick w <= t -> inParallelMode w = false ->
  exists bins', (if scheduled ev then aremove (evkey ev) e bins = Some bins' else bins' = bins) /\
    exists w' ev', reschedule w e t always = Ok w' /\ wfw w' (ainsert (t, priority ev) e bins') /\
      evs w' !! e = Some ev' /\ when ev' = t /\ scheduled ev' = true /\
      curTick w' = curTick w /\ user w' = user w.
Proof. apply reschedule_ok. Qed.

Lemma reschedule_correct_witness :
  exists bins' w', reschedule demo_world1 1%positive 12 false = Ok w' /\
    wfw w' (ainsert (12, 0) 1%positive bins').
Proof.
  destruct (reschedule_correct demo_world1 [((10, 0), [1%positive])] 1%positive (demo_sched 10 0) 12 false)
    as (bins' & _ & w' & ev' & ? & ? & _);
    [apply demo_wfw1 | reflexivity | reflexivity
    | intros _; apply list_elem_of_singleton; reflexivity | discriminate | simpl; lia | reflexivity |].
  exists bins', w'. split; assumption.
Defined.


(** The loop of [serviceEvents] with handlers that may schedule further events. *)
Lemma service_loop_safe {S} (process : positive -> world S -> res (world S)) t fuel :
  forall w bins, handler_ok process -> wfw w bins -> exits_all_ok w ->
  service_loop process fuel w t = Err OutOfFuel \/
  exists w' bins', service_loop process fuel w t = Ok w' /\ wfw w' bins' /\ exits_all_ok w' /\
    curTick w <= curTick w' /\ due t bins' = [].
Proof.
  induction fuel as [|fuel IH]; intros w bins Hp Hw Hall.
  all: destruct bins as [|[k es] rest];
    [right; exists w, []; unfold service_loop, empty; pose proof (wfq_repr _ _ _ (ww_q _ _ Hw)) as Hh;
     simpl in Hh; rewrite Hh; do 4 (split; [done|]); done|].
  all: destruct es as [|e es]; [destruct Hw as [[(_ & ? & ? & ? & _) _ _] _]; done|].
  all: pose proof (wfq_repr _ _ _ (ww_q _ _ Hw)) as (Hc & t0 & ev & [= <-] & Hhd & He & _).
  all: pose proof (chain_top _ _ _ _ _ Hc eq_refl He) as Hk.
  all: cbn [service_loop]; unfold empty, nextTick; rewrite Hhd; cbn [deref rbind];
    rewrite He; cbn [deref rbind].
  all: assert (Hkw : k.1 = when ev) by (by rewrite <- Hk).
  all: destruct (Z.ltb_spec t (when ev)) as [Hlt|Hge].
  1, 3: right; exists w, ((k, e :: es) :: rest); do 4 (split; [done|]); cbn [due];
    destruct (Z.leb_spec k.1 t); [lia|done].
  - by left.
  - destruct (serviceOne_wfw process _ _ Hp Hw Hall) as (r & w1 & bins1 & -> & Hw1 & Hall1 & Ht1); [done|].
    cbn [rbind]. destruct (IH w1 bins1 Hp Hw1 Hall1) as [?|(w2 & bins2 & ? & ? & ? & ? & ?)];
      [by left|right]. exists w2, bins2. do 3 (split; [done|]). split; [lia|done].
Qed.

(** A measure that every serviced event lowers, whatever its handler schedules. *)
Definition ranks {S} (process : positive -> world S -> res (world S)) (t : Z) (mu : world S -> nat) : Prop :=
  forall w bins r w', wfw w bins -> exits_all_ok w -> due t bins <> [] -> serviceOne process w = Ok (r, w') -> (mu w' < mu w)%nat.

Lemma service_loop_ranked {S} (process : positive -> world S -> res (world S)) t mu fuel :
  forall w bins, handler_ok process -> ranks process t mu -> wfw w bins -> exits_all_ok w -> (mu w <= fuel)%nat ->
  service_loop process fuel w t <> Err OutOfFuel.
Proof.
  induction fuel as [|fuel IH]; intros w bins Hp Hmu Hw Hall Hf.
  all: destruct bins as [|[k es] rest];
    [unfold service_loop, empty; pose proof (wfq_repr _ _ _ (ww_q _ _ Hw)) as Hh; simpl in Hh; by rewrite Hh|].
  all: destruct es as [|e es]; [destruct Hw as [[(_ & ? & ? & ? & _) _ _] _]; done|].
  all: pose proof (wfq_repr _ _ _ (ww_q _ _ Hw)) as (Hc & t0 & ev & [= <-] & Hhd & He & _).
  all: pose proof (chain_top _ _ _ _ _ Hc eq_refl He) as Hk.
  all: cbn [service_loop]; unfold empty, nextTick; rewrite Hhd; cbn [deref rbind]; rewrite He; cbn [deref rbind].
  all: destruct (Z.ltb_spec t (when ev)) as [Hlt|Hge]; [done|].
  all: destruct (serviceOne_wfw process _ _ Hp Hw Hall) as (r & w1 & bins1 & E & Hw1 & Hall1 & Ht1); [done|].
  all: assert (Hdue : due t ((k, e :: es) :: rest) <> [])
    by (cbn [due]; destruct (Z.leb_spec k.1 t) as [|Hgt]; [done|]; rewrite <- Hk in Hgt; simpl in Hgt; lia).
  all: pose proof (Hmu _ _ _ _ Hw Hall Hdue E) as Hdec.
  1: lia.
  rewrite E. cbn [rbind]. eapply IH; [done..|lia].
Qed.

(** A queue without due events only has events later than [t]. *)
Lemma due_nil_later {S} (w : world S) bins t x ev : wfw w bins -> due t bins = [] ->
  x ∈ elems bins -> evs w !! x = Some ev -> t < when ev.
Proof.
  intros Hw Hdue Hx Hev. destruct bins as [|[k es] rest]; [set_solver|].
  pose proof (wfq_repr _ _ _ (ww_q _ _ Hw)) as (_ & t0 & _ & Hhd & _).
  pose proof (bin_time_le _ _ _ _ Hw x ev Hx Hev). cbn [due] in Hdue.
  destruct (Z.leb_spec k.1 t); [|lia]. destruct es; [done|]. done.
Qed.

Lemma wfw_setCurTick_due {S} (w : world S) bins t : wfw w bins -> due t bins = [] ->
  wfw (setCurTick w t) bins.
Proof.
  intros Hw Hdue. split; [by destruct Hw|]. intros x Hx.
  destruct (ww_ev _ _ Hw x Hx) as (ev & He & ? & ? & _). exists ev. do 3 (split; [done|]).
  simpl. pose proof (due_nil_later _ _ _ _ _ Hw Hdue Hx He). lia.
Qed.

Lemma due_later t bins : StronglySorted klt (keys bins) -> due t (later t bins) = [].
Proof.
  induction bins as [|[k es] rest IH]; intros Hs; [done|].
  apply StronglySorted_inv in Hs as [Hs _]. cbn [later].
  destruct (Z.leb_spec k.1 t); [auto|]. cbn [due].
  destruct (Z.leb_spec k.1 t); [lia|done].
Qed.

(** The due events are exactly those whose time has come. *)
Lemma due_spec h hd bins t x ev : wfq h hd bins -> h !! x = Some ev ->
  x ∈ due t bins <-> x ∈ elems bins /\ when ev <= t.
Proof.
  intros [Hb _ Hs] Hx. revert hd Hb Hs.
  induction bins as [|[k es] rest IH]; intros hd Hb Hs; [set_solver|].
  pose proof Hb as (Hc & c & ce & _ & _ & _ & Hb').
  apply StronglySorted_inv in Hs as [Hs HF]. rewrite elems_cons. cbn [due].
  assert (Hes : x ∈ es -> when ev = k.1).
  { intros Hin. destruct (chain_lookup _ _ _ _ Hc Hin) as (ev' & ? & <-). by simplify_eq. }
  assert (Hrest : x ∈ elems rest -> k.1 <= when ev).
  { intros Hin. pose proof (brepr_key_in _ _ _ _ _ Hb' Hin Hx) as Hk.
    rewrite Forall_forall in HF. specialize (HF _ Hk). unfold klt, evkey in HF. simpl in HF. lia. }
  specialize (IH _ Hb' Hs).
  destruct (Z.leb_spec k.1 t); rewrite ?elem_of_app, ?elem_of_nil, ?IH.
  - split; [intros [?|[? ?]]|intros [[?|?] ?]]; auto. split; [by left|]. rewrite Hes by done. lia.
  - split; [done|]. intros [[Hin|Hin] ?]; [rewrite Hes in * by done|apply Hrest in Hin]; lia.
Qed.

Definition runs_before (h : gmap positive Event) (x y : positive) : Prop :=
  ~ klt (key_of h y) (key_of h x).

Lemma key_of_chain h k es x : chain h k es -> x ∈ es -> key_of h x = k.
Proof. intros Hc Hin. destruct (chain_lookup _ _ _ _ Hc Hin) as (ev & Hx & ?). unfold key_of. by rewrite Hx. Qed.

Lemma key_of_brepr h hd bins x : brepr h hd bins -> x ∈ elems bins -> key_of h x ∈ keys bins.
Proof.
  revert hd. induction bins as [|[k es] rest IH]; intros hd Hb Hin; [set_solver|].
  destruct Hb as (Hc & c & ce & _ & _ & _ & Hb'). rewrite elems_cons in Hin.
  apply elem_of_app in Hin as [Hin|Hin]; simpl; [rewrite (key_of_chain _ _ _ _ Hc Hin); by left|].
  right. by eapply IH.
Qed.

Lemma due_sorted h hd bins t : wfq h hd bins -> StronglySorted (runs_before h) (due t bins).
Proof.
  intros [Hb _ Hs]. revert hd Hb Hs.
  induction bins as [|[k es] rest IH]; intros hd Hb Hs; [constructor|].
  pose proof Hb as (Hc & c & ce & _ & _ & _ & Hb').
  apply StronglySorted_inv in Hs as [Hs HF]. cbn [due].
  destruct (k.1 <=? t); [|constructor]. apply StronglySorted_app_all; [|by eapply IH|].
  - apply StronglySorted_all. intros x y Hx Hy. unfold runs_before.
    rewrite (key_of_chain _ _ _ _ Hc Hx), (key_of_chain _ _ _ _ Hc Hy). apply (irreflexivity klt).
  - intros x y Hx Hy. unfold runs_before. rewrite (key_of_chain _ _ _ _ Hc Hx).
    apply due_incl in Hy. pose proof (key_of_brepr _ _ _ _ Hb' Hy) as Hk.
    rewrite Forall_forall in HF. specialize (HF _ Hk). intros Hlt.
    eapply (irreflexivity klt). by transitivity k.
Qed.

(** ** The order of the handlers *)

(** One event of a run: of the queue as it stands, [e] is one whose time [when] has
    come, and no other one has an earlier time or, at the same time, precedes it by
    priority; it is serviced and [w'] results. *)
Definition dispatched {S} (process : positive -> world S -> res (world S)) (t : Z) (w : world S) (e : positive) (tick : Z) (w' : world S) : Prop :=
  exists bins ev rest bins', wfw w bins /\ evs w !! e = Some ev /\ when ev = tick /\ tick <= t /\
    elems bins = e :: elems rest /\ (forall x, x ∈ elems rest -> runs_before (evs w) e x) /\
    wfw w' bins' /\ serviced_as process w e ev rest w' bins'.

(** The events of a run with their times. *)
Inductive dispatches {S} (process : positive -> world S -> res (world S)) (t : Z) : world S -> list (positive * Z) -> world S -> Prop :=
| dispatches_nil w : dispatches process t w [] w
| dispatches_cons w e tick w1 tr w2 :
    dispatched process t w e tick w1 -> dispatches process t w1 tr w2 -> dispatches process t w ((e, tick) :: tr) w2.

(** The queue holds nothing earlier than [T]. *)
Definition not_earlier {S} (w : world S) (bins : list abin) (T : Z) : Prop :=
  forall x ev, x ∈ elems bins -> evs w !! x = Some ev -> T <= when ev.

Lemma head_runs_before {S} (w : world S) k e es rest x : wfw w ((k, e :: es) :: rest) -> x ∈ elems (mkbin k es rest) ->
  runs_before (evs w) e x.
Proof.
  intros [[Hb _ Hs] _] Hx. unfold runs_before. pose proof Hb as (Hc & _). rewrite (key_of_chain _ _ _ e Hc) by set_solver.
  assert (Hk : key_of (evs w) x ∈ keys ((k, e :: es) :: rest)).
  { eapply key_of_brepr; [done|]. rewrite mkbin_elems in Hx. rewrite elems_cons. set_solver. }
  apply StronglySorted_inv in Hs as [_ HF]. simpl in Hk. apply list_elem_of_In in Hk as [<-|Hk]; [apply (irreflexivity klt)|].
  apply list_elem_of_In in Hk. rewrite Forall_forall in HF. specialize (HF _ Hk). intros Hlt. eapply (irreflexivity klt). by transitivity k.
Qed.

Lemma service_loop_dispatches {S} (process : positive -> world S -> res (world S)) t fuel : forall w bins w' T,
  handler_ok process -> wfw w bins -> exits_all_ok w -> not_earlier w bins T -> service_loop process fuel w t = Ok w' ->
  exists tr bins', dispatches process t w tr w' /\ wfw w' bins' /\ due t bins' = [] /\
    StronglySorted Z.le (T :: tr.*2).
Proof.
  induction fuel as [|fuel IH]; intros w bins w' T Hp Hw Hall HT.
  all: destruct bins as [|[k es] rest];
    [unfold service_loop, empty; pose proof (wfq_repr _ _ _ (ww_q _ _ Hw)) as Hh; simpl in Hh; rewrite Hh;
     intros [= <-]; exists [], []; split_and!; [constructor|done..|repeat constructor]|].
  all: destruct es as [|e es]; [destruct Hw as [[(_ & ? & ? & ? & _) _ _] _]; done|].
  all: pose proof (wfq_repr _ _ _ (ww_q _ _ Hw)) as (Hc & t0 & ev & [= <-] & Hhd & He & _).
  all: pose proof (chain_top _ _ _ _ _ Hc eq_refl He) as Hk.
  all: cbn [service_loop]; unfold empty, nextTick; rewrite Hhd; cbn [deref rbind]; rewrite He; cbn [deref rbind].
  all: assert (Hkw : k.1 = when ev) by (by rewrite <- Hk).
  all: destruct (Z.ltb_spec t (when ev)) as [Hlt|Hge]; [intros [= <-]; exists [], ((k, e :: es) :: rest);
    split_and!; [constructor|done|cbn [due]; destruct (Z.leb_spec k.1 t); [lia|done]|repeat constructor]|].
  1: done.
  destruct (serviceOne_step process _ _ _ _ _ Hp Hw Hall) as (r & w1 & bins1 & ev1 & -> & Hw1 & Hall1 & He1 & _ & _ & Hlate & Hsv).
  cbn [rbind]. simplify_eq. intros Hrun. destruct (IH w1 bins1 w' (when ev) Hp Hw1 Hall1) as (tr & bins2 & Htr & Hw2 & Hdue & Hsort); [exact Hlate|done|].
  exists ((e, when ev) :: tr), bins2. split_and!; [|done..|].
  - econstructor; [|done]. exists ((evkey ev, e :: es) :: rest), ev, (mkbin (evkey ev) es rest), bins1.
    split_and!; try done; [by rewrite elems_cons, mkbin_elems|]. intros x Hx. by eapply head_runs_before.
  - change (((e, when ev) :: tr).*2) with (when ev :: tr.*2). constructor; [done|].
    assert (T <= when ev) by (apply (HT e ev); [rewrite elems_cons; set_solver|done]).
    constructor; [done|]. apply StronglySorted_inv in Hsort as [_ HF]. eapply Forall_impl; [exact HF|]. simpl. intros. lia.
Qed.

(** C1: whatever its handlers schedule, deschedule or reschedule, [serviceEvents] runs
    events in order.  For handlers that keep the invariant of the queue, and a measure
    of the state that goes down with every event serviced, it returns; each event it
    services is, of those in the queue at that moment, one with the earliest time and
    the first priority at that time, and is due; the times of the events serviced never
    go back; a handler is called unless its event is squashed, with the clock at the
    time of the event; at the end no due event is left and the clock stands at the
    given time. *)
Theorem serviceEvents_order {S} (process : positive -> world S -> res (world S)) mu fuel w bins t :
  handler_ok process -> ranks process t mu -> wfw w bins -> exits_all_ok w -> (mu w <= fuel)%nat ->
  exists tr w1 bins1, serviceEvents process fuel w t = Ok (setCurTick w1 t) /\
    dispatches process t w tr w1 /\ StronglySorted Z.le tr.*2 /\
    wfw (setCurTick w1 t) bins1 /\ due t bins1 = [].
Proof.
  intros Hp Hmu Hw Hall Hf.
  destruct (service_loop_safe process t fuel w bins Hp Hw Hall) as [E|(w' & _ & E & _)];
    [by destruct (service_loop_ranked process t mu fuel w bins Hp Hmu Hw Hall Hf)|].
  destruct (service_loop_dispatches process t fuel w bins w' (curTick w) Hp Hw Hall) as (tr & bins1 & Htr & Hw1 & Hdue & Hs); [|done|].
  { intros x ev Hx He. destruct (ww_ev _ _ Hw x Hx) as (? & ? & _ & _ & ?). by simplify_eq. }
  exists tr, w', bins1. unfold serviceEvents. rewrite E. apply StronglySorted_inv in Hs as [Hs _].
  split_and!; [done..| |done]. by apply wfw_setCurTick_due.
Qed.

(** C2: the simulation loop is safe for every handler that keeps the invariant:
    whatever events the handlers schedule or deschedule, [serviceEvents] never
    trips an assertion or follows a bad pointer; when it stops, the invariant
    holds, the clock stands at the given time and no event due at or before it is
    left in the queue.  It does stop if some measure of the state goes down with
    every event, however many events the handlers schedule. *)
Theorem serviceEvents_safe {S} (process : positive -> world S -> res (world S)) fuel w bins t :
  handler_ok process -> wfw w bins -> exits_all_ok w -> curTick w <= t ->
  (serviceEvents process fuel w t = Err OutOfFuel \/
   exists w' bins', serviceEvents process fuel w t = Ok w' /\ wfw w' bins' /\
     curTick w' = t /\ due t bins' = []) /\
  (forall mu, ranks process t mu -> (mu w <= fuel)%nat -> serviceEvents process fuel w t <> Err OutOfFuel).
Proof.
  intros Hp Hw Hall Ht. unfold serviceEvents. split.
  - destruct (service_loop_safe process t fuel w bins Hp Hw Hall)
      as [-> | (w' & bins' & -> & Hw' & _ & _ & Hdue)]; [by left|right].
    cbn [rbind]. eexists _, bins'. split; [done|]. split; [|done]. by apply wfw_setCurTick_due.
  - intros mu Hmu Hf. pose proof (service_loop_ranked process t mu fuel w bins Hp Hmu Hw Hall Hf) as Hn.
    destruct (service_loop process fuel w t) as [w'|[]]; done.
Qed.

Lemma quiet_handler_ok {S} (act : positive -> S -> S) : handler_ok (quiet act).
Proof.
  intros e w bins ev [? ?] Hall He _. eexists _, bins. split; [done|]. split; [by split|].
  split; [done|]. split; [done|]. simpl. by rewrite He.
Qed.

Lemma demo_exits1 : exits_all_ok demo_world1.
Proof.
  intros e ev He. simpl in He. apply lookup_singleton_Some in He as [_ <-]. intros Hx. by left.
Qed.

Lemma serviceEvents_safe_witness :
  serviceEvents (quiet cons) 3 demo_world1 20 = Err OutOfFuel \/
  exists w' bins', serviceEvents (quiet cons) 3 demo_world1 20 = Ok w' /\ wfw w' bins' /\
    curTick w' = 20 /\ due 20 bins' = [].
Proof.
  destruct (serviceEvents_safe (quiet cons) 3 demo_world1 [((10, 0), [1%positive])] 20) as [H _];
    [apply quiet_handler_ok | apply demo_wfw1 | apply demo_exits1 | simpl; lia | exact H].
Defined.

(** The scheduled events; each one serviced by a quiet handler leaves them. *)
Definition live {S} (w : world S) : gset positive := dom (filter (fun p => scheduled p.2 = true) (evs w)).

Lemma elem_of_live {S} (w : world S) x : x ∈ live w <-> exists ev, evs w !! x = Some ev /\ scheduled ev = true.
Proof.
  unfold live. rewrite elem_of_dom. split.
  - intros [ev [? ?]%map_lookup_filter_Some]. eauto.
  - intros (ev & ? & ?). exists ev. by apply map_lookup_filter_Some.
Qed.

Lemma quiet_ranks {S} (act : positive -> S -> S) t : ranks (quiet act) t (fun w => size (live w)).
Proof.
  intros w bins r w' Hw Hall Hdue E. destruct bins as [|[k es] rest]; [done|].
  destruct es as [|e es]; [destruct Hw as [[(_ & ? & ? & ? & _) _ _] _]; done|].
  destruct (serviceOne_quiet act w k e es rest Hw) as (r1 & w1 & E1 & Hw1 & _ & Hd & Hns); [intros x xev _; apply Hall|].
  rewrite E1 in E. simplify_eq. apply subset_size. destruct (ww_ev _ _ Hw e) as (ev & He & Hsch & _); [rewrite elems_cons; set_solver|].
  assert (Hgone : e ∉ live w').
  { intros (ev' & He' & Hs')%elem_of_live. specialize (Hns ev' He'). congruence. }
  split; [|intros Hsub; apply Hgone, Hsub, elem_of_live; eauto].
  intros x Hx. destruct (decide (x = e)) as [->|Hne]; [done|]. apply elem_of_live in Hx as (xv & Hx & Hs).
  specialize (Hd x Hne). rewrite Hx in Hd. destruct (evs w !! x) as [xv0|] eqn:E0; [|done]. injection Hd as _ _ Hf _.
  apply elem_of_live. exists xv0. split; [done|]. unfold scheduled in *. by rewrite <- Hf.
Qed.

Lemma serviceEvents_order_witness :
  exists tr w1 bins1, serviceEvents (quiet cons) 1 demo_world1 20 = Ok (setCurTick w1 20) /\
    dispatches (quiet cons) 20 demo_world1 tr w1 /\ StronglySorted Z.le tr.*2 /\
    wfw (setCurTick w1 20) bins1 /\ due 20 bins1 = [].
Proof.
  apply (serviceEvents_order (quiet cons) (fun w => size (live w)) 1 demo_world1 [((10, 0), [1%positive])] 20);
    [apply quiet_handler_ok | apply quiet_ranks | apply demo_wfw1 | apply demo_exits1 | vm_compute; lia].
Defined.

(** With handlers that leave the queue, the clock and the flags alone, and one unit of
    fuel per due event, [serviceEvents] terminates and runs exactly the events due at or before the given time that are not squashed,
    by increasing time, then priority, leaving the later ones in the queue. *)
Theorem serviceEvents_quiet {S} (act : positive -> S -> S) fuel w bins t :
  wfw w bins -> exits_ok w (due t bins) -> (length (due t bins) <= fuel)%nat ->
  StronglySorted (runs_before (evs w)) (due t bins) /\
  (forall x ev, evs w !! x = Some ev -> x ∈ due t bins <-> x ∈ elems bins /\ when ev <= t) /\
  exists w', serviceEvents (quiet act) fuel w t = Ok w' /\ wfw w' (later t bins) /\
    curTick w' = t /\ user w' = run_events act w (due t bins) (user w).
Proof.
  intros Hw Hex Hf. pose proof (ww_q _ _ Hw) as Hq.
  split; [by eapply due_sorted|]. split; [intros; by eapply due_spec|].
  destruct (service_loop_quiet act t fuel w bins Hw Hex Hf) as (w' & Hrun & Hw' & Hu).
  unfold serviceEvents. rewrite Hrun. cbn [rbind]. eexists. split; [done|].
  split; [|done]. apply wfw_setCurTick_due; [done|]. apply due_later. by destruct Hq.
Qed.

Lemma serviceEvents_quiet_witness :
  exists w', serviceEvents (quiet cons) 1 demo_world1 20 = Ok w' /\ wfw w' [] /\
    curTick w' = 20 /\ user w' = [1%positive].
Proof.
  destruct (serviceEvents_quiet cons 1 demo_world1 [((10, 0), [1%positive])] 20) as (_ & _ & H);
    [apply demo_wfw1 | intros e ev _; apply demo_exits1 | simpl; lia | exact H].
Defined.

(** Draining the asynchronous queue inserts its events one by one, in the
    order they were queued, and leaves it empty with the invariant intact. *)
Theorem handleAsyncInsertions_correct {S} (w : world S) bins :
  wfw w bins -> async_ok w bins (async_queue w) -> curEventQueue w = Some (self w) ->
  exists w', handleAsyncInsertions w = Ok w' /\
    wfw w' (merge_async (evs w) (async_queue w) bins) /\
    async_queue w' = [] /\ curTick w' = curTick w /\ user w' = user w.
Proof.
  intros Hw Hok Hcur. unfold handleAsyncInsertions. rewrite Hcur.
  rewrite bool_decide_eq_true_2 by done. cbn [assert_ rbind]. by apply async_loop_ok.
Qed.

Definition demo_async : world (list positive) :=
  mkWorld {[1%positive := demo_sched 10 0]} 9%positive None 0 [1%positive] false
    (Some 9%positive) [].

Lemma handleAsyncInsertions_correct_witness :
  exists w', handleAsyncInsertions demo_async = Ok w' /\ wfw w' [((10, 0), [1%positive])].
Proof.
  destruct (handleAsyncInsertions_correct demo_async []) as (w' & ? & ? & _).
  - split; [split; [reflexivity|constructor|constructor]|]. intros x Hx. by apply not_elem_of_nil in Hx.
  - split; [apply NoDup_singleton|]. intros e He. apply list_elem_of_singleton in He as ->.
    split; [apply not_elem_of_nil|]. eexists. split; [reflexivity|]. split; [reflexivity|].
    split; [reflexivity|]. simpl. lia.
  - reflexivity.
  - exists w'. split; assumption.
Defined.

(** [debugVerify] accepts every well-formed queue whose first event is not at
    tick 0 with a negative priority; no fuel runs out. *)
Theorem debugVerify_accepts h hd bins :
  wfq h hd bins -> (forall k, list.head (keys bins) = Some k -> not_before k 0 0) ->
  debugVerify h hd = Ok true.
Proof.
  intros [Hb Hnd Hs] Hk. pose proof (brepr_length _ _ _ Hb). pose proof (brepr_size _ _ _ Hb Hnd).
  unfold debugVerify. eapply verify_bins_ok; eauto; [lia|set_solver].
Qed.

Lemma debugVerify_accepts_witness : debugVerify demo_heap (Some 1%positive) = Ok true.
Proof.
  apply (debugVerify_accepts demo_heap (Some 1%positive) [((10, 0), [1%positive])]);
    [apply demo_one | intros k [= <-]; split; simpl; lia].
Defined.

(** [debugVerify] rejects a well-formed queue: it starts from priority 0 at
    tick 0, so one event at tick 0 with a negative priority (as the ones
    [Event::Debug_Enable_Pri] and [Minimum_Pri] give) is reported as inverted. *)
Theorem debugVerify_false_alarm :
  let h := {[1%positive := demo_sched 0 (-101)]} in
  wfq h (Some 1%positive) [((0, -101), [1%positive])] /\ debugVerify h (Some 1%positive) = Ok false.
Proof.
  split; [|reflexivity]. split; [|apply NoDup_singleton|repeat constructor].
  split; [split; [eexists; split; [reflexivity|]; split; reflexivity|exact I]|].
  eexists _, _. split; [reflexivity|]. split; [reflexivity|]. split; reflexivity.
Qed.

(** C38: checkpointing loses pending events: for every scheduled, unsquashed event,
    restoring its checkpoint into a fresh event and calling
    [checkpointReschedule] leaves the queue as it was, although the call is there
    to put the event back. *)
Theorem checkpoint_drops_live_events {S} (w : world S) e fresh saved :
  evs w !! e = Some fresh -> scheduled fresh = false -> initialized fresh = true ->
  scheduled saved = true -> squashed saved = false ->
  exists w' ev', unserialize_event w e (serialize saved) = Ok w' /\
    evs w' !! e = Some ev' /\ when ev' = when saved /\ priority ev' = priority saved /\
    scheduled ev' = false /\ eq_head w' = eq_head w /\
    (forall x, x <> e -> evs w' !! x = evs w !! x).
Proof.
  intros He Hs Hi Hsv Hsq. unfold unserialize_event. rewrite He. cbn [deref rbind].
  unfold unserialize, serialize. rewrite Hs. cbn [negb assert_ rbind].
  unfold initialized in *. cbn [flags]. rewrite Hi. cbn [assert_ rbind].
  set (f := Flags.set _ Initialized).
  assert (Hf : Flags.isSet f Scheduled = true /\ Flags.isSet f Squashed = false).
  { unfold f, Flags.isSet. rewrite !land_set_disjoint, wrap_swrap, !land_wrap by done. by split. }
  destruct Hf as [-> ->]. cbn [andb negb rbind]. unfold checkpointReschedule. cbn [evs set_evs set_list].
  rewrite lookup_insert_eq. cbn [deref rbind flags set_flags].
  assert (Hc : Flags.isSet (Flags.clear f (Z.lor Squashed Scheduled)) Scheduled = false).
  { unfold Flags.isSet. replace (Z.land _ Scheduled) with 0; [done|]. symmetry.
    apply (land_clear_sub f (Z.lor Squashed Scheduled) Scheduled); done. }
  rewrite Hc. eexists _, _. split; [done|]. split; [apply lookup_insert_eq|]. do 4 (split; [done|]).
  intros x Hx. simpl. by rewrite lookup_insert_ne.
Qed.

Lemma checkpoint_drops_live_events_witness :
  exists w', unserialize_event demo_world 1%positive (serialize (demo_sched 10 0)) = Ok w' /\
    eq_head w' = None.
Proof.
  destruct (checkpoint_drops_live_events demo_world 1%positive (demo_ev 10 0) (demo_sched 10 0))
    as (w' & ev' & ? & _ & _ & _ & _ & ? & _); [reflexivity..|].
  exists w'. split; assumption.
Defined.
