(* ===== verification/Phast.v ===== *)
(** * PHAST, the memory dependence predictor of the O3 model

    [cpu/o3/phast.hh] and [cpu/o3/phast.cc].  The first part is
    [PHAST::SimplBlockCache], a set-associative table of store distances with
    confidence counters; the second part is [PHAST], one table per history
    length.  Machine integers are [Z] at their width, [std::bitset<500>] is a
    500-bit [Z], vectors are lists and an access out of range is a fault. *)

From stdpp Require Import base list.
From Stdlib Require Import ZArith Lia.
From S2P Require Import Prelude Intmath.
Open Scope Z_scope.

(** ** [PHAST::SimplBlockCache] *)

Record Entry := mkEntry {
  tag : Z;        (* uint64_t *)
  distance : Z;   (* std::ptrdiff_t *)
  lru : Z;        (* uint32_t *)
  counter : Z     (* uint32_t *)
}.

Definition zeroEntry : Entry := mkEntry 0 0 0 0.

Record SimplBlockCache := mkCache {
  setBits : Z;
  tagBits : Z;
  associativity : nat;
  lruCounter : Z;        (* uint64_t *)
  maxCounterValue : Z;
  cache : list (list Entry)
}.

Definition set_cache (c : SimplBlockCache) l : SimplBlockCache :=
  mkCache (setBits c) (tagBits c) (associativity c) (lruCounter c) (maxCounterValue c) l.
Definition set_lruCounter (c : SimplBlockCache) n : SimplBlockCache :=
  mkCache (setBits c) (tagBits c) (associativity c) n (maxCounterValue c) (cache c).

Definition cache_init (set_bits : Z) (assoc : nat) (tag_bits max_counter_value : Z) : SimplBlockCache :=
  mkCache set_bits tag_bits assoc 0 max_counter_value
    (replicate (Z.to_nat (Z.shiftl 1 set_bits)) (replicate assoc zeroEntry)).

(** [while (history) { fold ^= history & mask; history >>= size; }] *)
Fixpoint xorFold_loop (fuel : nat) (fold history mask size : Z) : res Z :=
  if history =? 0 then Ok fold else
  match fuel with
  | O => Err OutOfFuel
  | S fuel => xorFold_loop fuel (Z.lxor fold (Z.land history mask)) (Z.shiftr history size) mask size
  end.

(** 64 iterations shift every bit of a 64-bit history out when [size] is positive. *)
Definition xorFold (pc history size : Z) : res Z :=
  let mask := wrap 64 (swrap 32 (Z.shiftl 1 size) - 1) in
  let fold := Z.land history mask in
  let fold := Z.lxor fold (Z.land pc mask) in
  xorFold_loop 64 fold (Z.shiftr history size) mask size.

Definition getIndex (c : SimplBlockCache) (pc history : Z) : res Z :=
  let pc := Z.lxor (Z.lxor pc (Z.shiftr pc 2)) (Z.shiftr pc 5) in
  xorFold 0 (Z.lxor pc history) (setBits c).

Definition getTag (c : SimplBlockCache) (pc history : Z) : res Z :=
  let pc := Z.lxor (Z.lxor pc (Z.shiftr pc 3)) (Z.shiftr pc 7) in
  xorFold 0 (Z.lxor pc history) (tagBits c).

(** [cache[set][way]] and the assignment through a pointer to it. *)
Definition entry_at (c : SimplBlockCache) (set : Z) (way : nat) : res Entry :=
  let! s := nth_ (cache c) (Z.to_nat set) in nth_ s way.

Definition put_entry (c : SimplBlockCache) (set : Z) (way : nat) (e : Entry) : SimplBlockCache :=
  set_cache c (alter (insert way e) (Z.to_nat set) (cache c)).

(** The way whose tag matches, [None] for [nullptr]; [n] ways remain. *)
Fixpoint find_way (c : SimplBlockCache) (set t : Z) (i n : nat) : res (option nat) :=
  match n with
  | O => Ok None
  | S n =>
      let! e := entry_at c set i in
      if tag e =? t then Ok (Some i) else find_way c set t (S i) n
  end.

Definition findEntry (c : SimplBlockCache) (pc history : Z) : res (Z * option nat) :=
  let! set := getIndex c pc history in
  let! t := getTag c pc history in
  let! w := find_way c set t 0 (associativity c) in
  Ok (set, w).

Fixpoint lru_loop (c : SimplBlockCache) (set : Z) (lru_way : nat) (lru_value : Z) (i n : nat) : res nat :=
  match n with
  | O => Ok lru_way
  | S n =>
      let! e := entry_at c set i in
      if lru e <? lru_value then lru_loop c set i (lru e) (S i) n
      else lru_loop c set lru_way lru_value (S i) n
  end.

Definition getLRUEntry (c : SimplBlockCache) (set : Z) : res nat :=
  let! e := entry_at c set 0 in
  lru_loop c set 0 (lru e) 0 (associativity c).

(** [entry->lru] is 32 bits wide, [lruCounter] 64. *)
Definition updateLRU (c : SimplBlockCache) (set : Z) (way : nat) : res SimplBlockCache :=
  let! e := entry_at c set way in
  let c := put_entry c set way (mkEntry (tag e) (distance e) (wrap 32 (lruCounter c)) (counter e)) in
  Ok (set_lruCounter c (wrap 64 (lruCounter c + 1))).

Definition predict (c : SimplBlockCache) (pc history : Z) : res (Z * SimplBlockCache) :=
  let! (set, w) := findEntry c pc history in
  match w with
  | None => Ok (0, c)
  | Some way =>
      let! e := entry_at c set way in
      if (counter e =? 0) || (distance e =? 0) then Ok (0, c) else
      let! c := updateLRU c set way in
      Ok (distance e, c)
  end.

Definition update (c : SimplBlockCache) (pc history dist : Z) : res SimplBlockCache :=
  let! (set, w) := findEntry c pc history in
  match w with
  | None =>
      let! set := getIndex c pc history in
      let! way := getLRUEntry c set in
      let! t := getTag c pc history in
      let! e := entry_at c set way in
      updateLRU (put_entry c set way (mkEntry t dist (lru e) (maxCounterValue c))) set way
  | Some way =>
      let! e := entry_at c set way in
      updateLRU (put_entry c set way (mkEntry (tag e) dist (lru e) (maxCounterValue c))) set way
  end.

Definition updateCommit (c : SimplBlockCache) (pc history : Z) (predictionWrong : bool) : res SimplBlockCache :=
  let! (set, w) := findEntry c pc history in
  match w with
  | None => Ok c
  | Some way =>
      let! e := entry_at c set way in
      if counter e =? 0 then Ok c else
      let n := if predictionWrong then (if 0 <? counter e then counter e - 1 else counter e)
               else maxCounterValue c in
      updateLRU (put_entry c set way (mkEntry (tag e) (distance e) (lru e) n)) set way
  end.

(** The two loops write every entry of the first [2^setBits] sets; the counter
    of the replacement order is not reset. *)
Definition cache_clear (c : SimplBlockCache) : SimplBlockCache :=
  set_cache c (imap (fun i s => if (Z.of_nat i <? Z.shiftl 1 (setBits c))
                                then imap (fun j e => if (j <? associativity c)%nat then zeroEntry else e) s
                                else s) (cache c)).

(** ** [PHAST] *)

Record branchInfo := mkBranch {
  indirect : bool;
  taken : bool;
  target : Z;
  seqNum : Z;
  branch_pc : Z
}.

(** Newest branch first. *)
Abbreviation BranchHistory := (list branchInfo) (only parsing).

Record PredictionResult := mkPrediction {
  pred_seqNum : Z;
  storeQueueDistance : Z;
  predBranchHistLength : nat;
  predictorHash : Z
}.

Definition noPrediction : PredictionResult := mkPrediction 0 0 0 0.

(** The statistics of [MemDepUnit] that the predictor counts. *)
Record Stats := mkStats {
  pathReads : list Z;
  pathWrites : list Z;
  falseDependencies : Z;
  correctPredictions : Z
}.

Record PHAST := mkPHAST {
  selectedTargetBits : Z;
  selectedTargetMask : Z;
  depCheckShift : Z;
  maxBranches : nat;
  historySizes : list nat;
  paths : list SimplBlockCache;
  stats : Stats
}.

Definition set_maxBranches (p : PHAST) n : PHAST :=
  mkPHAST (selectedTargetBits p) (selectedTargetMask p) (depCheckShift p) n (historySizes p)
    (paths p) (stats p).
Definition set_path (p : PHAST) i c : PHAST :=
  mkPHAST (selectedTargetBits p) (selectedTargetMask p) (depCheckShift p) (maxBranches p)
    (historySizes p) (<[i := c]> (paths p)) (stats p).
Definition set_stats (p : PHAST) s : PHAST :=
  mkPHAST (selectedTargetBits p) (selectedTargetMask p) (depCheckShift p) (maxBranches p)
    (historySizes p) (paths p) s.

Definition bump (l : list Z) (i : nat) : res (list Z) :=
  let! n := nth_ l i in Ok (<[i := n + 1]> l).

Definition count_read (p : PHAST) i : res PHAST :=
  let s := stats p in
  let! l := bump (pathReads s) i in
  Ok (set_stats p (mkStats l (pathWrites s) (falseDependencies s) (correctPredictions s))).
Definition count_write (p : PHAST) i : res PHAST :=
  let s := stats p in
  let! l := bump (pathWrites s) i in
  Ok (set_stats p (mkStats (pathReads s) l (falseDependencies s) (correctPredictions s))).
Definition count_false (p : PHAST) : PHAST :=
  let s := stats p in
  set_stats p (mkStats (pathReads s) (pathWrites s) (falseDependencies s + 1) (correctPredictions s)).
Definition count_correct (p : PHAST) : PHAST :=
  let s := stats p in
  set_stats p (mkStats (pathReads s) (pathWrites s) (falseDependencies s) (correctPredictions s + 1)).

(** [PHAST::init], and the constructor, which does the same; [log2] of the power
    of two [num_rows] is exact. *)
Definition phast_init (num_rows : Z) (assoc : nat) (tag_bits max_counter shift : Z) : res PHAST :=
  check! isPowerOf2 32 num_rows;
  let sizes := [0; 2; 4; 6; 8; 12; 16; 32]%nat in
  let set_bits := Z.log2 num_rows in
  Ok (mkPHAST 5 (Z.shiftl 1 5 - 1) shift 0 sizes
        (replicate (length sizes) (cache_init set_bits assoc tag_bits max_counter))
        (mkStats (replicate 8 0) (replicate 8 0) 0 0)).

(** [while (bits >= width) { hash ^= h & mask; h >>= width; bits -= width; }] *)
Fixpoint fold_loop (fuel : nat) (hash h bits width : Z) : res (Z * Z * Z) :=
  if width <=? bits then
    match fuel with
    | O => Err OutOfFuel
    | S fuel =>
        fold_loop fuel (Z.lxor hash (Z.land h (Z.shiftl 1 width - 1))) (Z.shiftr h width)
          (bits - width) width
    end
  else Ok (hash, h, bits).

Definition foldHistory (h bits _setBits _tagBits : Z) : res Z :=
  let width := _setBits + _tagBits in
  let! (hash, h, bits) := fold_loop (Z.to_nat bits) 0 h bits width in
  Ok (Z.lxor hash (Z.land h (Z.shiftl 1 bits - 1))).

(** The loop over the branches from [end_indx-1] down to [start_indx]: [indx1] is
    [indx + 1] and [n] is [num_branches - hist_items].  [indx] is unsigned: below
    0 it wraps to an index out of range. *)
Fixpoint hash_loop (p : PHAST) (hist : BranchHistory) (start : nat) (h bits : Z) (indx1 n : nat)
  : res (Z * Z) :=
  match n with
  | O => Ok (h, bits)
  | S n' =>
      match indx1 with
      | O => Err OutOfRange
      | S indx =>
          if (indx <? start)%nat then Ok (h, bits) else
          let! b := nth_ hist indx in
          if negb (indirect b) then
            hash_loop p hist start (Z.lor (wrap 500 (Z.shiftl h 1)) (Z.b2z (taken b))) (bits + 1) indx n'
          else if negb (selectedTargetMask p =? 0) then
            hash_loop p hist start
              (Z.lxor (wrap 500 (Z.shiftl h (selectedTargetBits p)))
                 (Z.land (target b) (selectedTargetMask p)))
              (bits + selectedTargetBits p) indx n'
          else hash_loop p hist start h bits indx n
      end
  end.

Definition generateBranchHash (p : PHAST) (path_index num_branches : nat) (hist : BranchHistory)
    (start_indx : nat) : res Z :=
  let end_indx := (start_indx + num_branches)%nat in
  if (length hist <=? end_indx)%nat then Ok 0 else
  let! b := nth_ hist end_indx in
  let h := Z.land (target b) (selectedTargetMask p) in
  let! (h, bits) := hash_loop p hist start_indx h 60 end_indx num_branches in
  let! c := nth_ (paths p) path_index in
  foldHistory h bits (setBits c) (tagBits c).

(** The branches younger than the load. *)
Fixpoint skip_younger (hist : BranchHistory) (load_seq_num : Z) : nat :=
  match hist with
  | b :: hist => if load_seq_num <? seqNum b then S (skip_younger hist load_seq_num) else 0
  | [] => 0
  end.

(** [for (i=0; historySizes[i] <= branchHistory.size(); i++);] *)
Fixpoint size_loop (sizes : list nat) (len i fuel : nat) : res nat :=
  match fuel with
  | O => Err OutOfFuel
  | S fuel =>
      let! s := nth_ sizes i in
      if (s <=? len)%nat then size_loop sizes len (S i) fuel else Ok i
  end.

(** [for (i = 0; i <= maxBranches && i < historySizes.size(); i++)], with [n]
    iterations left at most. *)
Fixpoint path_loop (p : PHAST) (load_pc : Z) (hist : BranchHistory) (begin i n : nat)
  : res (PredictionResult * PHAST) :=
  match n with
  | O => Ok (noPrediction, p)
  | S n =>
      if (i <=? maxBranches p)%nat then
        let! size := nth_ (historySizes p) i in
        let! hash := generateBranchHash p i size hist begin in
        let! c := nth_ (paths p) i in
        let! (distance, c) := predict c load_pc hash in
        let p := set_path p i c in
        if negb (distance =? 0) then
          let! p := count_write p i in
          Ok (mkPrediction 0 distance i hash, p)
        else path_loop p load_pc hist begin (S i) n
      else Ok (noPrediction, p)
  end.

Definition checkInst (p : PHAST) (load_pc load_seq_num : Z) (hist : BranchHistory) (isLoad : bool)
  : res (PredictionResult * PHAST) :=
  if negb isLoad then Ok (noPrediction, p) else
  if (length hist =? 0)%nat then Ok (noPrediction, p) else
  let begin := skip_younger hist load_seq_num in
  if (length hist <? begin)%nat then Ok (noPrediction, p) else
  let! s := nth_ (historySizes p) (maxBranches p) in
  let! p := if (length hist <? s)%nat
            then let! i := size_loop (historySizes p) (length hist) 0 (S (length (historySizes p))) in
                 Ok (set_maxBranches p (i - 1))
            else Ok p in
  path_loop p load_pc hist begin 0 (length (historySizes p)).

(** The [do ... while] loop: the branches up to the first one not younger than
    the store. *)
Fixpoint count_branches (hist : BranchHistory) (store_seq_num : Z) : nat :=
  match hist with
  | [] => 0
  | b :: hist => if store_seq_num <? seqNum b then S (count_branches hist store_seq_num) else 1
  end.

(** [for (i=1; i < historySizes.size(); i++) if (num_branches < size) ...] *)
Fixpoint quantise_loop (sizes : list nat) (num_branches i n : nat) : res (nat * nat) :=
  match n with
  | O => Ok (num_branches, i)
  | S n =>
      let! size := nth_ sizes i in
      if (num_branches <? size)%nat then
        let! prev := nth_ sizes (i - 1) in Ok (prev, (i - 1)%nat)
      else quantise_loop sizes num_branches (S i) n
  end.

Definition quantise (sizes : list nat) (num_branches : nat) : res (nat * nat) :=
  let! back := nth_ sizes (length sizes - 1) in
  if (back <=? num_branches)%nat then Ok (back, (length sizes - 1)%nat)
  else quantise_loop sizes num_branches 1 (length sizes - 1).

Definition violation (p : PHAST) (load_pc store_seq_num dist : Z) (predicted : bool)
    (predictedPathIndex : nat) (predictedHash : Z) (hist : BranchHistory) : res PHAST :=
  match last hist with
  | None => Ok p
  | Some b =>
      if store_seq_num <? seqNum b then Ok p else
      let! (num_branches, i) := quantise (historySizes p) (count_branches hist store_seq_num) in
      let! p :=
        if predicted then
          let! c := nth_ (paths p) predictedPathIndex in
          let! c := updateCommit c load_pc predictedHash true in
          let p := count_false (set_path p predictedPathIndex c) in
          let! p := count_read p predictedPathIndex in
          count_write p predictedPathIndex
        else Ok p in
      let! path_hash := generateBranchHash p i num_branches hist 0 in
      let! c := nth_ (paths p) i in
      let! c := update c load_pc path_hash dist in
      let p := set_path p i c in
      let p := set_maxBranches p (Nat.max (maxBranches p) i) in
      let! p := count_read p i in
      count_write p i
  end.

Definition commit (p : PHAST) (load_pc load_addr load_size store_addr store_size : Z)
    (path_index : nat) (predictor_hash : Z) : res PHAST :=
  let load_eff_addr1 := Z.shiftr load_addr (depCheckShift p) in
  let load_eff_addr2 := Z.shiftr (wrap 64 (load_addr + load_size - 1)) (depCheckShift p) in
  let store_eff_addr1 := Z.shiftr store_addr (depCheckShift p) in
  let store_eff_addr2 := Z.shiftr (wrap 64 (store_addr + store_size - 1)) (depCheckShift p) in
  let misprediction :=
    negb ((load_eff_addr1 <=? store_eff_addr2) && (store_eff_addr1 <=? load_eff_addr2)) in
  let p := if misprediction then count_false p else count_correct p in
  let! c := nth_ (paths p) path_index in
  let! c := updateCommit c load_pc predictor_hash misprediction in
  let p := set_path p path_index c in
  let! p := count_read p path_index in
  count_write p path_index.

Definition phast_clear (p : PHAST) : PHAST :=
  mkPHAST (selectedTargetBits p) (selectedTargetMask p) (depCheckShift p) 0 (historySizes p)
    (map cache_clear (paths p)) (stats p).

(** ** The folded hash *)

(** Reference: the exclusive or of [n] consecutive chunks of [size] bits. *)
Fixpoint xor_chunks (n : nat) (history size : Z) : Z :=
  match n with
  | O => 0
  | S n => Z.lxor (Z.land history (Z.ones size)) (xor_chunks n (Z.shiftr history size) size)
  end.

Lemma fold_mask size : 0 <= size <= 30 -> wrap 64 (swrap 32 (Z.shiftl 1 size) - 1) = Z.ones size.
Proof.
  intros Hs. rewrite Z.shiftl_1_l, Z.ones_equiv.
  pose proof (Z.pow_pos_nonneg 2 size). assert (2 ^ size <= 2 ^ 30) by (apply Z.pow_le_mono_r; lia).
  rewrite swrap_small by (try unfold in_s; lia). rewrite wrap_small by (unfold in_u; lia). lia.
Qed.

Lemma xor_chunks_S n history size : xor_chunks (S n) history size
  = Z.lxor (Z.land history (Z.ones size)) (xor_chunks n (Z.shiftr history size) size).
Proof. done. Qed.

Lemma xor_chunks_0 n size : xor_chunks n 0 size = 0.
Proof. induction n as [|n IH]; [done|]. simpl. by rewrite Z.shiftr_0_l, IH. Qed.

Lemma xor_chunks_range n : forall history size, 0 <= size -> in_u size (xor_chunks n history size).
Proof.
  induction n as [|n IH]; intros history size Hs; simpl.
  - unfold in_u. pose proof (Z.pow_pos_nonneg 2 size). lia.
  - apply lxor_range; [done| |auto]. unfold in_u. rewrite Z.land_ones by done. apply Z.mod_pos_bound. lia.
Qed.

(** Bit [i] is the parity of the bits [i], [i + size], [i + 2 size], ... *)
Lemma xor_chunks_spec n : forall history size i, 0 <= i < size ->
  Z.testbit (xor_chunks n history size) i
  = foldr xorb false (map (fun k => Z.testbit history (i + Z.of_nat k * size)) (seq 0 n)).
Proof.
  induction n as [|n IH]; intros history size i Hi; [by rewrite Z.testbit_0_l|].
  cbn [xor_chunks seq map foldr]. rewrite Z.lxor_spec, Z.land_spec, Z.ones_spec_low, andb_true_r by lia.
  rewrite IH, <- seq_shift, List.map_map by done. rewrite Z.mul_0_l, Z.add_0_r.
  do 2 f_equal. apply List.map_ext. intros k. rewrite Z.shiftr_spec by nia. f_equal. lia.
Qed.

Lemma xorFold_loop_ok size : 0 < size -> forall fuel fold history,
  0 <= history < 2 ^ (size * Z.of_nat fuel) ->
  xorFold_loop fuel fold history (Z.ones size) size = Ok (Z.lxor fold (xor_chunks fuel history size)).
Proof.
  intros Hs fuel. induction fuel as [|fuel IH]; intros fold history Hh; cbn [xorFold_loop].
  - replace history with 0 by (rewrite Z.mul_0_r in Hh; lia). simpl. by rewrite Z.lxor_0_r.
  - destruct (Z.eqb_spec history 0) as [->|Hne]; [by rewrite xor_chunks_0, Z.lxor_0_r|].
    rewrite IH; [cbn [xor_chunks]; by rewrite Z.lxor_assoc|].
    rewrite Z.shiftr_div_pow2 by lia. split; [apply Z.div_pos; lia|].
    apply Z.div_lt_upper_bound; [lia|]. rewrite <- Z.pow_add_r by lia.
    replace (size + size * Z.of_nat fuel) with (size * Z.of_nat (S fuel)) by lia. lia.
Qed.

Lemma xorFold_ok pc history size : 0 < size <= 30 -> in_u 64 history ->
  xorFold pc history size
  = Ok (Z.lxor (Z.land pc (Z.ones size)) (xor_chunks 65 history size)).
Proof.
  intros Hs [Hh0 Hh]. unfold xorFold. rewrite fold_mask by lia.
  rewrite xorFold_loop_ok; [|lia|].
  - rewrite (xor_chunks_S 64), (Z.lxor_comm (Z.land history _) (Z.land pc _)), Z.lxor_assoc. done.
  - split; [apply Z.shiftr_nonneg; lia|]. rewrite Z.shiftr_div_pow2 by lia.
    apply Z.div_lt_upper_bound; [lia|]. rewrite <- Z.pow_add_r by lia.
    eapply Z.lt_le_trans; [exact Hh|]. apply Z.pow_le_mono_r; lia.
Qed.

Definition index_of (c : SimplBlockCache) (pc history : Z) : Z :=
  xor_chunks 65 (Z.lxor (Z.lxor (Z.lxor pc (Z.shiftr pc 2)) (Z.shiftr pc 5)) history) (setBits c).

Definition tag_of (c : SimplBlockCache) (pc history : Z) : Z :=
  xor_chunks 65 (Z.lxor (Z.lxor (Z.lxor pc (Z.shiftr pc 3)) (Z.shiftr pc 7)) history) (tagBits c).

(** ** The invariant of a table *)

Definition entry_ok (max : Z) (e : Entry) : Prop := 0 <= counter e <= max /\ in_u 32 (lru e).

Record wfc (c : SimplBlockCache) : Prop := {
  wc_set : 0 < setBits c <= 30;
  wc_tag : 0 < tagBits c <= 30;
  wc_assoc : (0 < associativity c)%nat;
  wc_max : in_u 32 (maxCounterValue c);
  wc_sets : length (cache c) = Z.to_nat (2 ^ setBits c);
  wc_ways : Forall (fun s => length s = associativity c /\ Forall (entry_ok (maxCounterValue c)) s) (cache c)
}.

Lemma mix_range pc a b history : in_u 64 pc -> in_u 64 history -> 0 <= a -> 0 <= b ->
  in_u 64 (Z.lxor (Z.lxor (Z.lxor pc (Z.shiftr pc a)) (Z.shiftr pc b)) history).
Proof. intros. repeat apply lxor_range; auto with mach; try lia; apply shiftr_range; auto; lia. Qed.

Section Table.
Context (c : SimplBlockCache) (pc history : Z).
Hypotheses (Hwf : wfc c) (Hpc : in_u 64 pc) (Hhist : in_u 64 history).

Lemma getIndex_ok : getIndex c pc history = Ok (index_of c pc history).
Proof.
  unfold getIndex. rewrite xorFold_ok by (try apply Hwf; apply mix_range; (done || lia)).
  rewrite Z.land_0_l, Z.lxor_0_l. done.
Qed.

Lemma getTag_ok : getTag c pc history = Ok (tag_of c pc history).
Proof.
  unfold getTag. rewrite xorFold_ok by (try apply Hwf; apply mix_range; (done || lia)).
  rewrite Z.land_0_l, Z.lxor_0_l. done.
Qed.

Lemma index_in_table : (Z.to_nat (index_of c pc history) < length (cache c))%nat.
Proof.
  rewrite (wc_sets _ Hwf).
  destruct (xor_chunks_range 65 (Z.lxor (Z.lxor (Z.lxor pc (Z.shiftr pc 2)) (Z.shiftr pc 5)) history)
              (setBits c)); [destruct (wc_set _ Hwf); lia|].
  unfold index_of. lia.
Qed.
End Table.

#[local] Opaque xor_chunks xorFold.

(** ** Ways of a set *)

Lemma entry_at_set c set s way : cache c !! Z.to_nat set = Some s ->
  entry_at c set way = nth_ s way.
Proof. intros H. unfold entry_at, nth_ at 1. by rewrite H. Qed.

Lemma find_way_spec c set t s : cache c !! Z.to_nat set = Some s -> forall n i,
  (i + n)%nat = length s ->
  find_way c set t i n
  = Ok ((fun p => (i + p.1)%nat) <$> list_find (fun e => tag e = t) (drop i s)).
Proof.
  intros Hs n. induction n as [|n IH]; intros i Hi; cbn [find_way].
  - rewrite drop_ge by lia. done.
  - destruct (lookup_lt_is_Some_2 s i) as [e He]; [lia|].
    rewrite (entry_at_set _ _ _ _ Hs). unfold nth_. rewrite He. cbn [rbind].
    rewrite (drop_S _ _ _ He). cbn [list_find]. destruct (Z.eqb_spec (tag e) t) as [Ht|Ht].
    + rewrite decide_True by done. simpl. do 2 f_equal. lia.
    + rewrite decide_False by done. rewrite IH by lia. f_equal.
      destruct (list_find _ _) as [[j e']|]; [|done]. simpl. f_equal. lia.
Qed.

Lemma lru_loop_spec c set s : cache c !! Z.to_nat set = Some s -> forall n i w v,
  (i + n)%nat = length s -> (exists e, s !! w = Some e /\ lru e = v) ->
  (forall j e, s !! j = Some e -> (j < i)%nat -> v <= lru e) ->
  exists w' e', lru_loop c set w v i n = Ok w' /\ s !! w' = Some e' /\
    forall j e, s !! j = Some e -> lru e' <= lru e.
Proof.
  intros Hs n. induction n as [|n IH]; intros i w v Hi (e0 & He0 & Hv) Hmin; cbn [lru_loop].
  - exists w, e0. do 2 (split; [done|]). intros j e Hj. rewrite Hv. apply (Hmin j); [done|].
    apply lookup_lt_Some in Hj. lia.
  - destruct (lookup_lt_is_Some_2 s i) as [e He]; [lia|].
    rewrite (entry_at_set _ _ _ _ Hs). unfold nth_. rewrite He. cbn [rbind].
    destruct (Z.ltb_spec (lru e) v); apply IH; try lia; eauto.
    all: intros j ej Hj Hlt; destruct (decide (j = i)) as [->|]; [simplify_eq; lia|].
    all: specialize (Hmin j ej Hj); lia.
Qed.

Lemma getLRUEntry_spec c set s : cache c !! Z.to_nat set = Some s ->
  length s = associativity c -> (0 < associativity c)%nat ->
  exists w e, getLRUEntry c set = Ok w /\ s !! w = Some e /\
    forall j e', s !! j = Some e' -> lru e <= lru e'.
Proof.
  intros Hs Hl Ha. destruct (lookup_lt_is_Some_2 s 0) as [e0 He0]; [lia|].
  unfold getLRUEntry. rewrite (entry_at_set _ _ _ _ Hs). unfold nth_. rewrite He0. cbn [rbind].
  eapply lru_loop_spec; eauto; lia.
Qed.

(** The effect of writing [e] and [updateLRU] on one way of one set. *)
Definition touched (c : SimplBlockCache) (set : Z) (way : nat) (e : Entry) : SimplBlockCache :=
  set_lruCounter
    (put_entry c set way (mkEntry (tag e) (distance e) (wrap 32 (lruCounter c)) (counter e)))
    (wrap 64 (lruCounter c + 1)).

Lemma put_entry_lookup c set way e s : cache c !! Z.to_nat set = Some s ->
  cache (put_entry c set way e) !! Z.to_nat set = Some (<[way := e]> s).
Proof. intros Hs. simpl. by rewrite list_lookup_alter_eq, Hs. Qed.

Lemma put_entry_twice c set way e e' :
  put_entry (put_entry c set way e) set way e' = put_entry c set way e'.
Proof.
  unfold put_entry, set_cache. simpl. f_equal. apply list_eq. intros i.
  destruct (decide (i = Z.to_nat set)) as [->|Hi].
  - rewrite !list_lookup_alter_eq. destruct (cache c !! _); [|done]. simpl. by rewrite list_insert_insert_eq.
  - by rewrite !list_lookup_alter_ne.
Qed.

Lemma updateLRU_put c set way e s : cache c !! Z.to_nat set = Some s -> (way < length s)%nat ->
  updateLRU (put_entry c set way e) set way = Ok (touched c set way e).
Proof.
  intros Hs Hw. unfold updateLRU.
  rewrite (entry_at_set _ _ _ _ (put_entry_lookup _ _ way e _ Hs)). unfold nth_.
  rewrite list_lookup_insert_eq by done. cbn [rbind]. by rewrite put_entry_twice.
Qed.

Lemma updateLRU_in_place c set way e s : cache c !! Z.to_nat set = Some s -> s !! way = Some e ->
  updateLRU c set way = Ok (touched c set way e).
Proof. intros Hs He. unfold updateLRU. rewrite (entry_at_set _ _ _ _ Hs). unfold nth_. by rewrite He. Qed.

Lemma touched_wf c set way e s : wfc c -> cache c !! Z.to_nat set = Some s ->
  0 <= counter e <= maxCounterValue c -> wfc (touched c set way e).
Proof.
  intros [H1 H2 H3 H4 H5 H6] Hs He. split; simpl; try done.
  - by rewrite length_alter.
  - apply Forall_alter; [done|]. intros s' Hs' [Hl HF]. rewrite length_insert. split; [done|].
    apply Forall_insert; [done|]. split; [done|]. apply wrap_range. lia.
Qed.

Lemma touched_other c set way e set' : Z.to_nat set' <> Z.to_nat set ->
  cache (touched c set way e) !! Z.to_nat set' = cache c !! Z.to_nat set'.
Proof. intros H. simpl. by rewrite list_lookup_alter_ne. Qed.

(** ** The table operations in terms of the entry that hits *)

Definition hit (c : SimplBlockCache) (pc history : Z) : option (nat * Entry) :=
  cache c !! Z.to_nat (index_of c pc history) ≫=
    list_find (fun e => tag e = tag_of c pc history).

Definition predicted_distance (c : SimplBlockCache) (pc history : Z) : Z :=
  match hit c pc history with
  | Some (_, e) => if (counter e =? 0) || (distance e =? 0) then 0 else distance e
  | None => 0
  end.

Section Operations.
Context (c : SimplBlockCache) (pc history : Z).
Hypotheses (Hwf : wfc c) (Hpc : in_u 64 pc) (Hhist : in_u 64 history).
#[local] Abbreviation idx := (index_of c pc history).

Lemma the_set : exists s, cache c !! Z.to_nat idx = Some s /\ length s = associativity c /\
  Forall (entry_ok (maxCounterValue c)) s.
Proof.
  destruct (lookup_lt_is_Some_2 (cache c) (Z.to_nat idx)) as [s Hs]; [by apply index_in_table|].
  exists s. split; [done|]. exact (proj1 (Forall_lookup _ _) (wc_ways _ Hwf) _ _ Hs).
Qed.

Lemma findEntry_ok : findEntry c pc history = Ok (idx, fst <$> hit c pc history).
Proof.
  destruct the_set as (s & Hs & Hl & _). unfold findEntry, hit.
  rewrite getIndex_ok, getTag_ok by done. cbn [rbind].
  rewrite (find_way_spec _ _ _ s) by (done || lia). cbn [rbind]. rewrite Hs. simpl. rewrite drop_0.
  by destruct (list_find _ s) as [[? ?]|].
Qed.

Lemma hit_entry way e : hit c pc history = Some (way, e) ->
  exists s, cache c !! Z.to_nat idx = Some s /\ s !! way = Some e /\ (way < length s)%nat /\
    tag e = tag_of c pc history /\ entry_ok (maxCounterValue c) e.
Proof.
  destruct the_set as (s & Hs & Hl & HF). unfold hit. rewrite Hs. simpl.
  intros (He & Ht & _)%list_find_Some. exists s. do 2 (split; [done|]).
  split; [by eapply lookup_lt_Some|]. split; [done|]. by eapply Forall_lookup_1.
Qed.

Lemma predict_ok : exists c', predict c pc history = Ok (predicted_distance c pc history, c') /\ wfc c' /\
  setBits c' = setBits c /\ tagBits c' = tagBits c /\
  (predicted_distance c pc history = 0 -> c' = c).
Proof.
  unfold predict, predicted_distance. rewrite findEntry_ok. cbn [rbind].
  destruct (hit c pc history) as [[way e]|] eqn:Hh; simpl; [|by exists c].
  destruct (hit_entry _ _ Hh) as (s & Hs & He & Hlt & _ & Hok).
  rewrite (entry_at_set _ _ _ _ Hs). unfold nth_. rewrite He. cbn [rbind].
  destruct (Z.eqb_spec (counter e) 0); [by exists c|].
  destruct (Z.eqb_spec (distance e) 0); [by exists c|]. simpl orb. cbv iota.
  rewrite (updateLRU_in_place _ _ _ _ _ Hs He). cbn [rbind].
  eexists. split; [done|]. split; [|done]. eapply touched_wf; eauto. apply Hok.
Qed.

(** The state after [update]: the entry that hits is rewritten, or a least
    recently used one of the set is replaced. *)
Lemma update_ok dist : exists way e, update c pc history dist
    = Ok (touched c idx way (mkEntry (tag_of c pc history) dist (lru e) (maxCounterValue c))) /\
  match hit c pc history with
  | Some p => p = (way, e)
  | None => exists s, cache c !! Z.to_nat idx = Some s /\ s !! way = Some e /\
      forall j e', s !! j = Some e' -> lru e <= lru e'
  end.
Proof.
  unfold update. rewrite findEntry_ok. cbn [rbind].
  destruct (hit c pc history) as [[way e]|] eqn:Hh; simpl.
  - destruct (hit_entry _ _ Hh) as (s & Hs & He & Hlt & <- & Hok).
    rewrite (entry_at_set _ _ _ _ Hs). unfold nth_. rewrite He. cbn [rbind].
    rewrite (updateLRU_put _ _ _ _ _ Hs Hlt). eauto.
  - destruct the_set as (s & Hs & Hl & _). rewrite getIndex_ok by done. cbn [rbind].
    destruct (getLRUEntry_spec _ _ _ Hs Hl) as (way & e & -> & He & Hmin); [apply Hwf|].
    cbn [rbind]. rewrite getTag_ok by done. cbn [rbind].
    rewrite (entry_at_set _ _ _ _ Hs). unfold nth_. rewrite He. cbn [rbind].
    rewrite (updateLRU_put _ _ _ _ _ Hs) by (by eapply lookup_lt_Some). exists way, e. eauto.
Qed.

Lemma updateCommit_ok wrong : updateCommit c pc history wrong
  = Ok (match hit c pc history with
        | Some (way, e) =>
            if counter e =? 0 then c else
            touched c idx way (mkEntry (tag e) (distance e) (lru e)
                                 (if wrong then counter e - 1 else maxCounterValue c))
        | None => c
        end).
Proof.
  unfold updateCommit. rewrite findEntry_ok. cbn [rbind].
  destruct (hit c pc history) as [[way e]|] eqn:Hh; simpl; [|done].
  destruct (hit_entry _ _ Hh) as (s & Hs & He & Hlt & _ & [Hok _]).
  rewrite (entry_at_set _ _ _ _ Hs). unfold nth_. rewrite He. cbn [rbind].
  destruct (Z.eqb_spec (counter e) 0); [done|].
  rewrite (updateLRU_put _ _ _ _ _ Hs Hlt). destruct (Z.ltb_spec 0 (counter e)); [done|lia].
Qed.

(** What hits after a way of the same set was written with the same tag. *)
Lemma hit_touched way e0 e : tag e = tag_of c pc history ->
  match hit c pc history with
  | Some p => p = (way, e0)
  | None => exists s, cache c !! Z.to_nat idx = Some s /\ s !! way = Some e0
  end ->
  hit (touched c idx way e) pc history
  = Some (way, mkEntry (tag e) (distance e) (wrap 32 (lruCounter c)) (counter e)).
Proof.
  intros Ht Hh. destruct the_set as (s & Hs & _). unfold hit in *.
  change (index_of (touched _ _ _ _) pc history) with idx.
  change (tag_of (touched _ _ _ _) pc history) with (tag_of c pc history).
  unfold touched. simpl cache. rewrite list_lookup_alter_eq. rewrite Hs in *. simpl in *.
  apply list_find_Some. destruct (list_find _ s) as [p|] eqn:Hf.
  - subst p. apply list_find_Some in Hf as (He & _ & Hbefore).
    rewrite list_lookup_insert_eq by (by eapply lookup_lt_Some). do 2 (split; [done|]).
    intros j y Hj Hlt. rewrite list_lookup_insert_ne in Hj by lia. by eapply Hbefore.
  - destruct Hh as (? & [= <-] & He). apply list_find_None in Hf.
    rewrite list_lookup_insert_eq by (by eapply lookup_lt_Some). do 2 (split; [done|]).
    intros j y Hj Hlt. rewrite list_lookup_insert_ne in Hj by lia.
    by eapply Forall_lookup_1 in Hf.
Qed.
End Operations.

Lemma hit_touched_other c set way e pc history :
  Z.to_nat (index_of c pc history) <> Z.to_nat set ->
  hit (touched c set way e) pc history = hit c pc history.
Proof. intros Hne. unfold hit. by rewrite <- (touched_other c set way e) by done. Qed.

Lemma update_wf c pc history d c' : wfc c -> in_u 64 pc -> in_u 64 history ->
  update c pc history d = Ok c' -> wfc c'.
Proof.
  intros Hwf Hpc Hh Hu. destruct (update_ok c pc history Hwf Hpc Hh d) as (way & e & Hu' & _).
  rewrite Hu in Hu'. injection Hu' as ->.
  destruct (the_set c pc history Hwf) as (s & Hs & _). eapply touched_wf; eauto.
  simpl. destruct (wc_max _ Hwf). lia.
Qed.

Lemma updateCommit_wf c pc history wrong c' : wfc c -> in_u 64 pc -> in_u 64 history ->
  updateCommit c pc history wrong = Ok c' -> wfc c'.
Proof.
  intros Hwf Hpc Hh. rewrite updateCommit_ok by done. intros [= <-].
  destruct (hit c pc history) as [[way e]|] eqn:Hhit; [|done].
  destruct (hit_entry c pc history Hwf _ _ Hhit) as (s & Hs & _ & _ & _ & [? _]).
  destruct (Z.eqb_spec (counter e) 0); [done|]. eapply touched_wf; eauto. simpl.
  destruct (wc_max _ Hwf). destruct wrong; lia.
Qed.

(** The hit after an update carries the trained distance at full confidence. *)
Lemma update_hit c pc history d c' : wfc c -> in_u 64 pc -> in_u 64 history ->
  update c pc history d = Ok c' ->
  exists way e, hit c' pc history = Some (way, e) /\ distance e = d /\
    counter e = maxCounterValue c /\ maxCounterValue c' = maxCounterValue c.
Proof.
  intros Hwf Hpc Hh Hu. destruct (update_ok c pc history Hwf Hpc Hh d) as (way & e & Hu' & Hcase).
  rewrite Hu in Hu'. injection Hu' as ->. eexists way, _. split; [|split; [|split]].
  - eapply (hit_touched c pc history Hwf way e); [done|].
    destruct (hit c pc history); [done|]. destruct Hcase as (s & ? & ? & _). eauto.
  - done.
  - done.
  - done.
Qed.

Lemma predicted_distance_hit c pc history way e : hit c pc history = Some (way, e) ->
  predicted_distance c pc history = if counter e =? 0 then 0 else distance e.
Proof.
  intros Hh. unfold predicted_distance. rewrite Hh.
  destruct (counter e =? 0); [done|]. simpl. by destruct (Z.eqb_spec (distance e) 0).
Qed.

(** A trained table predicts what it was trained with.  [update] always
    succeeds and keeps the invariant; the next [predict] of the same load and
    history returns the stored distance (nothing when the confidence limit is
    0), and the predictions of every other set are unchanged.  When no entry
    matched, the entry given up is one of the least recently used of its set. *)
Theorem table_update_predict c pc history d :
  wfc c -> in_u 64 pc -> in_u 64 history ->
  exists c' c'', update c pc history d = Ok c' /\ wfc c' /\
    predict c' pc history = Ok (if maxCounterValue c =? 0 then 0 else d, c'') /\
    (forall pc' history', index_of c pc' history' <> index_of c pc history ->
       predicted_distance c' pc' history' = predicted_distance c pc' history') /\
    (hit c pc history = None -> exists s way e, cache c !! Z.to_nat (index_of c pc history) = Some s /\
       s !! way = Some e /\ (forall j e', s !! j = Some e' -> lru e <= lru e') /\
       forall j, j <> way -> (cache c' !!! Z.to_nat (index_of c pc history)) !! j = s !! j).
Proof.
  intros Hwf Hpc Hh. destruct (update_ok c pc history Hwf Hpc Hh d) as (way & e & Hu & Hcase).
  pose proof (update_wf _ _ _ _ _ Hwf Hpc Hh Hu) as Hwf'.
  destruct (update_hit _ _ _ _ _ Hwf Hpc Hh Hu) as (way' & e' & Hhit & <- & Hc & _).
  destruct (predict_ok _ _ _ Hwf' Hpc Hh) as (c'' & Hp & _).
  rewrite (predicted_distance_hit _ _ _ _ _ Hhit), Hc in Hp.
  eexists _, c''. split; [exact Hu|]. split; [done|]. split; [done|]. split.
  - intros pc' h' Hne. unfold predicted_distance. rewrite hit_touched_other; [done|].
    intros Heq. apply Hne. apply Z2Nat.inj; [..|done]; apply xor_chunks_range; apply Z.lt_le_incl, Hwf.
  - intros Hnone. rewrite Hnone in Hcase. destruct Hcase as (s & Hs & He & Hmin).
    exists s, way, e. do 3 (split; [done|]). intros j Hj.
    rewrite (list_lookup_total_correct _ _ (<[way := mkEntry (tag_of c pc history) (distance e')
      (wrap 32 (lruCounter c)) (maxCounterValue c)]> s)).
    + by rewrite list_lookup_insert_ne.
    + simpl. by rewrite list_lookup_alter_eq, Hs.
Qed.

(** A small table: two sets of two ways, 2-bit tags, confidence up to 2. *)
Definition demo_table : SimplBlockCache := cache_init 1 2 2 2.

Lemma cache_init_wf set_bits assoc tag_bits max :
  0 < set_bits <= 30 -> 0 < tag_bits <= 30 -> (0 < assoc)%nat -> in_u 32 max ->
  wfc (cache_init set_bits assoc tag_bits max).
Proof.
  intros Hs Ht Ha Hm. split; simpl; try done.
  - by rewrite length_replicate, Z.shiftl_1_l.
  - apply Forall_replicate. split; [apply length_replicate|]. apply Forall_replicate.
    unfold entry_ok, in_u in *. simpl. lia.
Qed.

Lemma demo_table_wf : wfc demo_table.
Proof. apply cache_init_wf; unfold in_u; lia. Qed.

Lemma table_update_predict_witness :
  exists c' c'', update demo_table 4 9 3 = Ok c' /\ predict c' 4 9 = Ok (3, c'').
Proof.
  destruct (table_update_predict demo_table 4 9 3) as (c' & c'' & ? & _ & Hp & _);
    [apply demo_table_wf | split; reflexivity || discriminate | split; reflexivity || discriminate |].
  exists c', c''. split; assumption.
Defined.

(** [n] commits that found the prediction wrong. *)
Fixpoint wrong_commits (n : nat) (c : SimplBlockCache) (pc history : Z) : res SimplBlockCache :=
  match n with
  | O => Ok c
  | S n => let! c := updateCommit c pc history true in wrong_commits n c pc history
  end.

Lemma updateCommit_hit c pc history wrong way e : wfc c -> in_u 64 pc -> in_u 64 history ->
  hit c pc history = Some (way, e) ->
  exists c' e', updateCommit c pc history wrong = Ok c' /\ wfc c' /\
    hit c' pc history = Some (way, e') /\ distance e' = distance e /\
    counter e' = if counter e =? 0 then 0 else if wrong then counter e - 1 else maxCounterValue c.
Proof.
  intros Hwf Hpc Hh Hhit. pose proof (updateCommit_ok c pc history Hwf Hpc Hh wrong) as Hu.
  rewrite Hhit in Hu. destruct (hit_entry c pc history Hwf _ _ Hhit) as (s & Hs & He & _ & Ht & _).
  destruct (Z.eqb_spec (counter e) 0) as [H0|H0].
  - exists c, e. split; [exact Hu|]. by rewrite H0.
  - eexists _, _. split; [exact Hu|]. split; [exact (updateCommit_wf _ _ _ _ _ Hwf Hpc Hh Hu)|].
    split; [eapply (hit_touched c pc history Hwf way e); [done|by rewrite Hhit]|done].
Qed.

Lemma wrong_commits_ok n : forall c pc history way e, wfc c -> in_u 64 pc -> in_u 64 history ->
  hit c pc history = Some (way, e) ->
  exists c' e', wrong_commits n c pc history = Ok c' /\ wfc c' /\
    hit c' pc history = Some (way, e') /\ distance e' = distance e /\
    counter e' = Z.max 0 (counter e - Z.of_nat n).
Proof.
  induction n as [|n IH]; intros c pc history way e Hwf Hpc Hh Hhit; cbn [wrong_commits].
  - exists c, e. do 4 (split; [done|]).
    destruct (hit_entry c pc history Hwf _ _ Hhit) as (s & _ & _ & _ & _ & [? _]). lia.
  - destruct (updateCommit_hit c pc history true way e) as (c1 & e1 & -> & Hwf1 & Hhit1 & Hd & Hc);
      [done..|]. cbn [rbind].
    destruct (IH c1 pc history way e1) as (c2 & e2 & Hr & Hwf2 & Hhit2 & Hd2 & Hc2); [done..|].
    exists c2, e2. do 3 (split; [done|]). split; [congruence|]. rewrite Hc2, Hc.
    destruct (hit_entry c pc history Hwf _ _ Hhit) as (s & _ & _ & _ & _ & [? _]).
    destruct (Z.eqb_spec (counter e) 0); lia.
Qed.

(** Confidence.  After training, exactly [maxCounterValue] consecutive wrong
    predictions silence an entry: with fewer the distance is still predicted,
    from then on it is not. *)
Theorem table_confidence c pc history d n :
  wfc c -> in_u 64 pc -> in_u 64 history ->
  exists c1 c2 c3, update c pc history d = Ok c1 /\ wrong_commits n c1 pc history = Ok c2 /\
    predict c2 pc history = Ok (if Z.of_nat n <? maxCounterValue c then d else 0, c3).
Proof.
  intros Hwf Hpc Hh. destruct (update_ok c pc history Hwf Hpc Hh d) as (w0 & e0 & Hu & _).
  pose proof (update_wf _ _ _ _ _ Hwf Hpc Hh Hu) as Hwf1.
  destruct (update_hit _ _ _ _ _ Hwf Hpc Hh Hu) as (way & e & Hhit & Hd & Hc & Hm).
  destruct (wrong_commits_ok n _ pc history way e Hwf1 Hpc Hh Hhit) as (c2 & e2 & Hw & Hwf2 & Hhit2 & Hd2 & Hc2).
  destruct (predict_ok c2 pc history Hwf2 Hpc Hh) as (c3 & Hp & _).
  eexists _, c2, c3. split; [exact Hu|]. split; [exact Hw|]. rewrite Hp. do 2 f_equal.
  rewrite (predicted_distance_hit _ _ _ _ _ Hhit2), Hc2, Hd2, Hd, Hc.
  destruct (Z.eqb_spec (Z.max 0 (maxCounterValue c - Z.of_nat n)) 0), (Z.ltb_spec (Z.of_nat n) (maxCounterValue c));
    (done || lia).
Qed.

Lemma table_confidence_witness :
  exists c1 c2 c3, update demo_table 4 9 3 = Ok c1 /\ wrong_commits 2 c1 4 9 = Ok c2 /\
    predict c2 4 9 = Ok (0, c3).
Proof.
  apply (table_confidence demo_table 4 9 3 2);
    [apply demo_table_wf | split; reflexivity || discriminate | split; reflexivity || discriminate].
Defined.

(** The folded index.  For a fold width of 1 to 30 bits the loop terminates
    within 64 iterations; the result fits the width, so it indexes a table of
    [2^size] sets, and its bit [i] is the parity of the history bits [i],
    [i + size], [i + 2 size], ... and of bit [i] of the address. *)
Theorem xorFold_parity pc history size i :
  0 < size <= 30 -> in_u 64 history -> 0 <= i < size ->
  exists r, xorFold pc history size = Ok r /\ in_u size r /\
    Z.testbit r i = xorb (Z.testbit pc i)
      (foldr xorb false (map (fun k => Z.testbit history (i + Z.of_nat k * size)) (seq 0 65))).
Proof.
  intros Hs Hh Hi. rewrite xorFold_ok by done. eexists. split; [done|]. split.
  - apply lxor_range; [lia| |apply xor_chunks_range; lia].
    unfold in_u. rewrite Z.land_ones by lia. apply Z.mod_pos_bound. lia.
  - rewrite Z.lxor_spec, xor_chunks_spec, Z.land_spec, Z.ones_spec_low, andb_true_r by lia. done.
Qed.

Lemma xorFold_parity_witness :
  exists r, xorFold 5 0x1234 4 = Ok r /\ in_u 4 r /\
    Z.testbit r 2 = xorb (Z.testbit 5 2)
      (foldr xorb false (map (fun k => Z.testbit 0x1234 (2 + Z.of_nat k * 4)) (seq 0 65))).
Proof.
  apply (xorFold_parity 5 0x1234 4 2); [lia | split; reflexivity || discriminate | lia].
Defined.

(** C40: a table with a single row never answers.  [phast_num_rows = 1] passes the
    check of [init] and gives 0 index bits; the loop of [xorFold] then shifts by
    0 and does not terminate on any non-zero value, whatever the fuel. *)
Theorem single_row_diverges assoc tag_bits max shift :
  (exists p c, phast_init 1 assoc tag_bits max shift = Ok p /\ paths p !! 0%nat = Some c /\ setBits c = 0) /\
  (forall fuel fold history mask, history <> 0 -> xorFold_loop fuel fold history mask 0 = Err OutOfFuel).
Proof.
  split; [by eexists _, _|]. intros fuel. induction fuel as [|fuel IH]; intros fold history mask Hne;
    cbn [xorFold_loop]; (destruct (Z.eqb_spec history 0); [done|]); [done|].
  rewrite Z.shiftr_0_r. by apply IH.
Qed.

(** On a fresh table the first entry trained is the first one evicted.  Unused
    ways and the first entry all have replacement age 0, and ties go to way 0:
    with a second, still unused way, training a second load of the same set
    forgets the first. *)
Theorem first_entry_evicted_early :
  exists c1 c2, update demo_table 4 0 3 = Ok c1 /\ update c1 12 0 5 = Ok c2 /\
    predicted_distance c1 4 0 = 3 /\ predicted_distance c2 4 0 = 0 /\
    (cache c2 !! 0%nat ≫= (.!! 1%nat)) = Some zeroEntry.
Proof. eexists _, _. do 2 (split; [vm_compute; reflexivity|]). vm_compute. done. Qed.

(** ** The invariant of the predictor *)

Definition sizes8 : list nat := [0; 2; 4; 6; 8; 12; 16; 32]%nat.

Record wfp (p : PHAST) : Prop := {
  wp_sizes : historySizes p = sizes8;
  wp_bits : selectedTargetBits p = 5;
  wp_mask : selectedTargetMask p = 31;
  wp_max : (maxBranches p < 8)%nat;
  wp_len : length (paths p) = 8%nat;
  wp_paths : Forall wfc (paths p);
  wp_reads : length (pathReads (stats p)) = 8%nat;
  wp_writes : length (pathWrites (stats p)) = 8%nat
}.

Lemma wfp_path p i : wfp p -> (i < 8)%nat ->
  exists c, paths p !! i = Some c /\ wfc c /\ nth_ (paths p) i = Ok c.
Proof.
  intros Hp Hi. destruct (lookup_lt_is_Some_2 (paths p) i) as [c Hc]; [rewrite (wp_len _ Hp); lia|].
  exists c. split; [done|]. split; [by eapply Forall_lookup_1; [apply Hp|]|]. unfold nth_. by rewrite Hc.
Qed.

Lemma wfp_set_path p i c : wfp p -> wfc c -> wfp (set_path p i c).
Proof.
  intros [] Hc. split; simpl; try done; [by rewrite length_insert|]. by apply Forall_insert.
Qed.

Lemma wfp_set_max p n : wfp p -> (n < 8)%nat -> wfp (set_maxBranches p n).
Proof. intros []. by split. Qed.

Lemma bump_ok l i : (i < length l)%nat -> exists l', bump l i = Ok l' /\ length l' = length l.
Proof.
  intros Hi. destruct (lookup_lt_is_Some_2 l i Hi) as [n Hn]. unfold bump, nth_. rewrite Hn.
  cbn [rbind]. eexists. split; [done|]. apply length_insert.
Qed.

(** The parts of the predictor that decide its predictions. *)
Definition same_pred (p q : PHAST) : Prop :=
  paths p = paths q /\ maxBranches p = maxBranches q /\ historySizes p = historySizes q /\
  selectedTargetBits p = selectedTargetBits q /\ selectedTargetMask p = selectedTargetMask q.

Lemma count_read_ok p i : wfp p -> (i < 8)%nat ->
  exists p', count_read p i = Ok p' /\ wfp p' /\ same_pred p' p.
Proof.
  intros Hp Hi. destruct (bump_ok (pathReads (stats p)) i) as (l & Hl & Hlen);
    [rewrite (wp_reads _ Hp); lia|]. unfold count_read. rewrite Hl. cbn [rbind]. eexists.
  split; [done|]. split; [|done]. destruct Hp. split; simpl; congruence.
Qed.

Lemma count_write_ok p i : wfp p -> (i < 8)%nat ->
  exists p', count_write p i = Ok p' /\ wfp p' /\ same_pred p' p.
Proof.
  intros Hp Hi. destruct (bump_ok (pathWrites (stats p)) i) as (l & Hl & Hlen);
    [rewrite (wp_writes _ Hp); lia|]. unfold count_write. rewrite Hl. cbn [rbind]. eexists.
  split; [done|]. split; [|done]. destruct Hp. split; simpl; congruence.
Qed.

Lemma wfp_count_false p : wfp p -> wfp (count_false p).
Proof. intros []. by split. Qed.
Lemma wfp_count_correct p : wfp p -> wfp (count_correct p).
Proof. intros []. by split. Qed.

(** ** The branch hash *)

Lemma fold_loop_ok width : 0 < width -> forall fuel hash h bits,
  0 <= bits -> (Z.to_nat bits <= fuel)%nat -> in_u width hash ->
  exists hash' h' bits', fold_loop fuel hash h bits width = Ok (hash', h', bits') /\
    in_u width hash' /\ 0 <= bits' < width.
Proof.
  intros Hw fuel. induction fuel as [|fuel IH]; intros hash h bits Hb Hf Hh; cbn [fold_loop];
    destruct (Z.leb_spec width bits); try (by eexists _, _, _; split; [done|]; split; [done|]; lia).
  - lia.
  - apply IH; [lia|lia|]. apply lxor_range; [lia|done|]. apply land_range; [lia|].
    rewrite Z.shiftl_1_l. unfold in_u. pose proof (Z.pow_pos_nonneg 2 width). lia.
Qed.

Lemma foldHistory_ok h bits sb tb : 0 < sb -> 0 < tb -> 0 <= bits ->
  exists r, foldHistory h bits sb tb = Ok r /\ in_u (sb + tb) r.
Proof.
  intros Hs Ht Hb. unfold foldHistory.
  destruct (fold_loop_ok (sb + tb) ltac:(lia) (Z.to_nat bits) 0 h bits) as (hash & h' & bits' & -> & Hh & Hb');
    [done|done|unfold in_u; pose proof (Z.pow_pos_nonneg 2 (sb + tb)); lia|].
  cbn [rbind]. eexists. split; [done|]. apply lxor_range; [lia|done|]. apply land_range; [lia|].
  rewrite Z.shiftl_1_l. unfold in_u. pose proof (Z.pow_pos_nonneg 2 bits').
  assert (2 ^ bits' <= 2 ^ (sb + tb)) by (apply Z.pow_le_mono_r; lia). lia.
Qed.

Lemma hash_loop_ok p hist start : wfp p -> forall n indx1 h bits,
  indx1 = (start + n)%nat -> (indx1 <= length hist)%nat -> 0 <= bits ->
  exists h' bits', hash_loop p hist start h bits indx1 n = Ok (h', bits') /\ 0 <= bits'.
Proof.
  intros Hp n. induction n as [|n IH]; intros indx1 h bits -> Hl Hb; [rewrite Nat.add_0_r; destruct start; by eexists _, _|].
  replace (start + S n)%nat with (S (start + n)) in * by lia. cbn [hash_loop].
  destruct (Nat.ltb_spec (start + n) start); [lia|].
  destruct (lookup_lt_is_Some_2 hist (start + n)) as [b Hb']; [lia|].
  unfold nth_. rewrite Hb'. cbn [rbind]. rewrite (wp_mask _ Hp), (wp_bits _ Hp). simpl Z.eqb. cbn [negb].
  destruct (indirect b); cbn [negb]; apply IH; lia.
Qed.

Lemma generateBranchHash_ok p i n hist start : wfp p -> (i < 8)%nat ->
  exists h, generateBranchHash p i n hist start = Ok h /\ in_u 64 h.
Proof.
  intros Hp Hi. unfold generateBranchHash.
  destruct (Nat.leb_spec (length hist) (start + n)); [exists 0; split; [done|]; split; done|].
  destruct (lookup_lt_is_Some_2 hist (start + n)) as [b Hb]; [lia|].
  unfold nth_ at 1. rewrite Hb. cbn [rbind].
  destruct (hash_loop_ok p hist start Hp n (start + n) (Z.land (target b) (selectedTargetMask p)) 60)
    as (h' & bits & -> & ?); [done|lia|lia|]. cbn [rbind].
  destruct (wfp_path _ _ Hp Hi) as (c & _ & Hc & ->). cbn [rbind].
  destruct (wc_set _ Hc), (wc_tag _ Hc).
  destruct (foldHistory_ok h' bits (setBits c) (tagBits c)) as (r & -> & [? Hr]); [lia..|].
  exists r. split; [done|]. split; [done|]. eapply Z.lt_le_trans; [exact Hr|]. apply Z.pow_le_mono_r; lia.
Qed.

(** The hash only reads the geometry of the table and the target mask. *)
Definition same_geometry (p q : PHAST) : Prop :=
  (fun c => (setBits c, tagBits c)) <$> paths p = (fun c => (setBits c, tagBits c)) <$> paths q /\
  selectedTargetBits p = selectedTargetBits q /\ selectedTargetMask p = selectedTargetMask q.

#[export] Instance same_geometry_equiv : Equivalence same_geometry.
Proof.
  split; unfold same_geometry; [done| |].
  - intros p q (-> & -> & ->). done.
  - intros p q r (-> & -> & ->) (-> & -> & ->). done.
Qed.

Lemma hash_loop_ext p q hist start : same_geometry p q -> forall indx1 n h bits,
  hash_loop p hist start h bits indx1 n = hash_loop q hist start h bits indx1 n.
Proof.
  intros (_ & Hb & Hm) indx1. induction indx1 as [|indx IH]; intros n h bits; destruct n as [|n]; try done.
  cbn [hash_loop]. rewrite Hb, Hm. case_match; [done|]. destruct (nth_ hist indx); [|done]. cbn [rbind].
  repeat case_match; apply IH.
Qed.

Lemma generateBranchHash_ext p q i n hist start : same_geometry p q ->
  generateBranchHash p i n hist start = generateBranchHash q i n hist start.
Proof.
  intros Hg. unfold generateBranchHash. case_match; [done|]. destruct (nth_ hist _); [|done]. cbn [rbind].
  pose proof Hg as (Hc & _ & ->). rewrite (hash_loop_ext p q) by done.
  destruct (hash_loop q _ _ _ _ _ _) as [[h bits]|]; [|done]. cbn [rbind].
  apply (f_equal (fun l => l !! i)) in Hc. rewrite !list_lookup_fmap in Hc. unfold nth_.
  destruct (paths p !! i), (paths q !! i); simpl in Hc; try done.
  injection Hc as Hs Ht. cbn [rbind]. by rewrite Hs, Ht.
Qed.

(** ** Predictions *)

Definition hash_of (p : PHAST) (hist : BranchHistory) (begin i : nat) : Z :=
  match generateBranchHash p i (nth i sizes8 0%nat) hist begin with Ok h => h | Err _ => 0 end.

Definition path_distance (p : PHAST) (pc : Z) (hist : BranchHistory) (begin i : nat) : Z :=
  match paths p !! i with
  | Some c => predicted_distance c pc (hash_of p hist begin i)
  | None => 0
  end.

Lemma generateBranchHash_of p hist begin i : wfp p -> (i < 8)%nat ->
  generateBranchHash p i (nth i sizes8 0%nat) hist begin = Ok (hash_of p hist begin i) /\
  in_u 64 (hash_of p hist begin i).
Proof.
  intros Hp Hi. destruct (generateBranchHash_ok p i (nth i sizes8 0%nat) hist begin Hp Hi) as (h & Hh & ?).
  unfold hash_of. by rewrite Hh.
Qed.

Lemma nth_sizes i : (i < 8)%nat -> nth_ sizes8 i = Ok (nth i sizes8 0%nat).
Proof. intros Hi. do 8 (destruct i as [|i]; [done|]). lia. Qed.

Lemma set_path_id p i c : paths p !! i = Some c -> set_path p i c = p.
Proof. intros Hc. destruct p. unfold set_path. simpl in *. by rewrite list_insert_id. Qed.

(** The prediction is the one of the shortest history that has any. *)
Lemma path_loop_spec p pc hist begin : wfp p -> in_u 64 pc -> forall n i, (i + n = 8)%nat ->
  exists r p', path_loop p pc hist begin i n = Ok (r, p') /\ wfp p' /\
    ((r = noPrediction /\ forall j, (i <= j <= maxBranches p)%nat -> path_distance p pc hist begin j = 0) \/
     exists j, (i <= j <= maxBranches p)%nat /\ path_distance p pc hist begin j <> 0 /\
       (forall k, (i <= k < j)%nat -> path_distance p pc hist begin k = 0) /\
       r = mkPrediction 0 (path_distance p pc hist begin j) j (hash_of p hist begin j)).
Proof.
  intros Hp Hpc n. induction n as [|n IH]; intros i Hi; cbn [path_loop].
  - exists noPrediction, p. do 2 (split; [done|]). left. split; [done|].
    pose proof (wp_max _ Hp). intros; lia.
  - destruct (Nat.leb_spec i (maxBranches p)) as [Hle|Hgt].
    2: { exists noPrediction, p. do 2 (split; [done|]). left. split; [done|]. intros; lia. }
    rewrite (wp_sizes _ Hp), nth_sizes by lia. cbn [rbind].
    destruct (generateBranchHash_of p hist begin i) as [-> Hh]; [done|lia|]. cbn [rbind].
    destruct (wfp_path p i Hp) as (c & Hc & Hwc & ->); [lia|]. cbn [rbind].
    destruct (predict_ok c pc _ Hwc Hpc Hh) as (c' & -> & Hwc' & _ & _ & Hsame). cbn [rbind].
    assert (Hpd : path_distance p pc hist begin i = predicted_distance c pc (hash_of p hist begin i))
      by (unfold path_distance; by rewrite Hc).
    rewrite <- Hpd in *. destruct (Z.eqb_spec (path_distance p pc hist begin i) 0) as [H0|H0]; cbn [negb].
    + rewrite Hsame by done. rewrite set_path_id by done.
      destruct (IH (S i)) as (r & p' & Hr & Hp' & Hcase); [lia|]. exists r, p'. do 2 (split; [done|]).
      destruct Hcase as [[-> Hall]|(j & Hj & Hd & Hbefore & ->)]; [left; split; [done|]|right; exists j].
      * intros j Hj. destruct (decide (j = i)) as [->|]; [done|]. apply Hall. lia.
      * split; [lia|]. split; [done|]. split; [|done]. intros k Hk.
        destruct (decide (k = i)) as [->|]; [done|]. apply Hbefore. lia.
    + destruct (count_write_ok (set_path p i c') i) as (p' & -> & Hp' & _);
        [by apply wfp_set_path|lia|]. cbn [rbind]. eexists _, p'. do 2 (split; [done|]).
      right. exists i. split; [lia|]. split; [done|]. split; [intros; lia|done].
Qed.

(** The largest usable history length, as [checkInst] clamps it. *)
Definition usable (p : PHAST) (len i : nat) : Prop :=
  (i <= maxBranches p)%nat /\ (nth i sizes8 0%nat <= len)%nat.

Lemma size_loop_ok len : (len < 32)%nat ->
  exists k, size_loop sizes8 len 0 9 = Ok k /\ (k - 1 < 8)%nat /\
    forall i, (i < 8)%nat -> (nth i sizes8 0%nat <= len)%nat <-> (i <= k - 1)%nat.
Proof.
  intros Hlen.
  assert (H : forallb (fun len => match size_loop sizes8 len 0 9 with
                | Ok k => (k - 1 <? 8)%nat &&
                    forallb (fun i => eqb (nth i sizes8 0%nat <=? len)%nat (i <=? k - 1)%nat) (seq 0 8)
                | Err _ => false end) (seq 0 32) = true) by (vm_compute; reflexivity).
  rewrite forallb_forall in H. specialize (H len). rewrite in_seq in H. specialize (H ltac:(lia)).
  destruct (size_loop sizes8 len 0 9) as [k|]; [|done]. exists k. split; [done|].
  apply andb_true_iff in H as [H1%Nat.ltb_lt H2]. split; [done|]. intros i Hi.
  rewrite forallb_forall in H2. specialize (H2 i). rewrite in_seq in H2. specialize (H2 ltac:(lia)).
  apply eqb_prop in H2. rewrite <- !Nat.leb_le, H2. done.
Qed.

Lemma quantise_ok num : exists i, quantise sizes8 num = Ok (nth i sizes8 0%nat, i) /\ (i < 8)%nat /\
  (nth i sizes8 0%nat <= num)%nat /\ ((i < 7)%nat -> (num < nth (S i) sizes8 0%nat)%nat).
Proof.
  destruct (Nat.le_gt_cases 32 num) as [Hge|Hlt].
  - exists 7%nat. unfold quantise.
    change (nth_ sizes8 (length sizes8 - 1)) with (Ok 32%nat). cbn [rbind].
    rewrite (proj2 (Nat.leb_le 32 num) Hge). split; [done|]. simpl. lia.
  - assert (H : forallb (fun num => match quantise sizes8 num with
                | Ok (s, i) => (s =? nth i sizes8 0%nat)%nat && (i <? 8)%nat && (s <=? num)%nat &&
                    (negb (i <? 7)%nat || (num <? nth (S i) sizes8 0%nat)%nat)
                | Err _ => false end) (seq 0 32) = true) by (vm_compute; reflexivity).
    rewrite forallb_forall in H. specialize (H num). rewrite in_seq in H. specialize (H ltac:(lia)).
    destruct (quantise sizes8 num) as [[s i]|]; [|done]. exists i.
    rewrite !andb_true_iff, Nat.eqb_eq, Nat.ltb_lt, Nat.leb_le in H. destruct H as [[[-> ?] ?] H].
    do 3 (split; [done|]). intros Hi. apply orb_true_iff in H as [H|H%Nat.ltb_lt]; [|done].
    apply negb_true_iff, Nat.ltb_ge in H. lia.
Qed.

Lemma sizes_mono i j : (i <= j)%nat -> (j < 8)%nat -> (nth i sizes8 0%nat <= nth j sizes8 0%nat)%nat.
Proof.
  intros Hij Hj. do 8 (destruct j as [|j]; [do 8 (destruct i as [|i]; [simpl; lia|]); lia|]). lia.
Qed.

Lemma skip_younger_le hist seq : (skip_younger hist seq <= length hist)%nat.
Proof. induction hist as [|b hist IH]; simpl; [done|]. case_match; lia. Qed.

Lemma hash_of_ext p q hist begin i : same_geometry p q -> hash_of p hist begin i = hash_of q hist begin i.
Proof. intros Hg. unfold hash_of. by rewrite (generateBranchHash_ext p q). Qed.

Lemma path_distance_max p n pc hist begin i :
  path_distance (set_maxBranches p n) pc hist begin i = path_distance p pc hist begin i.
Proof. unfold path_distance. simpl. by rewrite (hash_of_ext (set_maxBranches p n) p). Qed.

(** The answer of [checkInst] for a load: the first of the usable history lengths
    whose table predicts a distance. *)
Definition best_prediction (p : PHAST) (pc : Z) (hist : BranchHistory) (begin : nat)
    (r : PredictionResult) : Prop :=
  (r = noPrediction /\ forall j, usable p (length hist) j -> path_distance p pc hist begin j = 0) \/
  exists j, usable p (length hist) j /\ path_distance p pc hist begin j <> 0 /\
    (forall k, (k < j)%nat -> path_distance p pc hist begin k = 0) /\
    r = mkPrediction 0 (path_distance p pc hist begin j) j (hash_of p hist begin j).

Lemma checkInst_ok p pc seq hist : wfp p -> in_u 64 pc -> hist <> [] ->
  exists r p', checkInst p pc seq hist true = Ok (r, p') /\ wfp p' /\
    best_prediction p pc hist (skip_younger hist seq) r.
Proof.
  intros Hp Hpc Hne. unfold checkInst. cbn [negb].
  destruct (Nat.eqb_spec (length hist) 0) as [?%nil_length_inv|_]; [done|].
  destruct (Nat.ltb_spec (length hist) (skip_younger hist seq));
    [pose proof (skip_younger_le hist seq); lia|].
  pose proof (wp_max _ Hp) as Hmax.
  rewrite (wp_sizes _ Hp), nth_sizes by done. cbn [rbind].
  assert (Hq : exists q, (if (length hist <? nth (maxBranches p) sizes8 0%nat)%nat
            then let! i := size_loop sizes8 (length hist) 0 (S (length sizes8)) in
                 Ok (set_maxBranches p (i - 1))
            else Ok p) = Ok (set_maxBranches p q) /\ (q < 8)%nat /\
            forall j, (j <= q)%nat <-> usable p (length hist) j).
  { unfold usable. destruct (Nat.ltb_spec (length hist) (nth (maxBranches p) sizes8 0%nat)) as [Hlt|Hge].
    - assert (Hm : (nth (maxBranches p) sizes8 0%nat <= nth 7 sizes8 0%nat)%nat) by (apply sizes_mono; lia).
      simpl (nth 7 _ _) in Hm.
      destruct (size_loop_ok (length hist)) as (k & Hk & Hk8 & Hspec); [lia|].
      change (S (length sizes8)) with 9%nat. rewrite Hk. cbn [rbind]. exists (k - 1)%nat. do 2 (split; [done|]).
      intros j. split.
      + intros Hj. assert (nth j sizes8 0%nat <= length hist)%nat by (apply Hspec; lia). split; [|done].
        destruct (Nat.le_gt_cases j (maxBranches p)); [done|].
        pose proof (sizes_mono (maxBranches p) j). lia.
      + intros [Hj Hs]. apply Hspec; [lia|done].
    - exists (maxBranches p). split; [by destruct p|]. split; [done|]. intros j. split; [|tauto].
      intros Hj. split; [done|]. pose proof (sizes_mono j (maxBranches p) Hj Hmax). lia. }
  destruct Hq as (q & -> & Hq8 & Hus). cbn [rbind]. simpl historySizes. rewrite (wp_sizes _ Hp).
  destruct (path_loop_spec (set_maxBranches p q) pc hist (skip_younger hist seq)
              (wfp_set_max _ _ Hp Hq8) Hpc 8 0 eq_refl) as (r & p' & Hr & Hp' & Hcase).
  exists r, p'. do 2 (split; [done|]). unfold best_prediction. simpl maxBranches in Hcase.
  destruct Hcase as [[-> Hall]|(j & Hj & Hd & Hbefore & ->)]; [left; split; [done|]|right; exists j].
  - intros j Hj%Hus. specialize (Hall j). rewrite path_distance_max in Hall. apply Hall. lia.
  - rewrite path_distance_max in *. split; [apply Hus; lia|]. split; [done|]. split.
    + intros k Hk. specialize (Hbefore k). rewrite path_distance_max in Hbefore. apply Hbefore. lia.
    + by rewrite (hash_of_ext _ p).
Qed.

(** ** Training *)

Lemma set_path_geometry p i c c' : paths p !! i = Some c ->
  setBits c' = setBits c -> tagBits c' = tagBits c -> same_geometry (set_path p i c') p.
Proof.
  intros Hc Hs Ht. split; [|done]. simpl. rewrite list_fmap_insert, Hs, Ht.
  apply list_insert_id. by rewrite list_lookup_fmap, Hc.
Qed.

Lemma update_bits c pc h d c' : wfc c -> in_u 64 pc -> in_u 64 h -> update c pc h d = Ok c' ->
  setBits c' = setBits c /\ tagBits c' = tagBits c.
Proof.
  intros Hw Hp Hh Hu. destruct (update_ok c pc h Hw Hp Hh d) as (w & e & Hu' & _).
  rewrite Hu in Hu'. by injection Hu' as ->.
Qed.

Lemma updateCommit_total c pc h wrong : wfc c -> in_u 64 pc -> in_u 64 h ->
  exists c', updateCommit c pc h wrong = Ok c' /\ wfc c' /\ setBits c' = setBits c /\ tagBits c' = tagBits c.
Proof.
  intros Hw Hp Hh. pose proof (updateCommit_ok c pc h Hw Hp Hh wrong) as Hu. eexists.
  split; [exact Hu|]. split; [exact (updateCommit_wf _ _ _ _ _ Hw Hp Hh Hu)|].
  destruct (hit c pc h) as [[? ?]|]; [|done]. by case_match.
Qed.

Lemma same_pred_geometry p q : same_pred p q -> same_geometry p q.
Proof. intros (Hp & _ & _ & ? & ?). unfold same_geometry. by rewrite Hp. Qed.

(** The confidence update of a path, with its statistics; [f] is the statistic
    counted in between, if any. *)
Lemma commit_path_ok f p pc i h wrong :
  (forall p, wfp p -> wfp (f p)) -> (forall p, same_pred (f p) p) ->
  wfp p -> in_u 64 pc -> in_u 64 h -> (i < 8)%nat ->
  exists p', (let! c := nth_ (paths p) i in
              let! c := updateCommit c pc h wrong in
              let p := f (set_path p i c) in
              let! p := count_read p i in count_write p i) = Ok p' /\
    wfp p' /\ same_geometry p' p /\ maxBranches p' = maxBranches p /\
    maxCounterValue <$> paths p' = maxCounterValue <$> paths p.
Proof.
  intros Hf Hsf Hp Hpc Hh Hi. destruct (wfp_path _ _ Hp Hi) as (c & Hc & Hwc & ->). cbn [rbind].
  destruct (updateCommit_total c pc h wrong Hwc Hpc Hh) as (c' & Hu & Hwc' & Hs & Ht).
  rewrite Hu. cbn [rbind].
  destruct (count_read_ok (f (set_path p i c')) i) as (p1 & -> & Hp1 & Hs1);
    [by apply Hf, wfp_set_path|done|].
  cbn [rbind]. destruct (count_write_ok p1 i) as (p2 & -> & Hp2 & Hs2); [done|done|].
  exists p2. do 2 (split; [done|]).
  assert (Hsp : same_pred p2 (set_path p i c')).
  { destruct Hs1 as (?&?&?&?&?), Hs2 as (?&?&?&?&?), (Hsf (set_path p i c')) as (?&?&?&?&?).
    repeat split; congruence. }
  split; [|split].
  - transitivity (set_path p i c'); [by apply same_pred_geometry|]. by eapply set_path_geometry.
  - by destruct Hsp as (_ & -> & _).
  - destruct Hsp as (-> & _). simpl. rewrite list_fmap_insert. apply list_insert_id.
    rewrite list_lookup_fmap, Hc. simpl. f_equal.
    rewrite updateCommit_ok in Hu by done. injection Hu as <-.
    destruct (hit c pc h) as [[? ?]|]; [|done]. by case_match.
Qed.

Lemma commit_path_stats f p pc i h wrong :
  (forall p, wfp p -> wfp (f p)) -> (forall p, stats (f p) = stats p) ->
  wfp p -> in_u 64 pc -> in_u 64 h -> (i < 8)%nat ->
  exists p', (let! c := nth_ (paths p) i in
              let! c := updateCommit c pc h wrong in
              let p := f (set_path p i c) in
              let! p := count_read p i in count_write p i) = Ok p' /\ wfp p' /\
    correctPredictions (stats p') = correctPredictions (stats p) /\
    falseDependencies (stats p') = falseDependencies (stats p).
Proof.
  intros Hf Hsf Hp Hpc Hh Hi. destruct (wfp_path _ _ Hp Hi) as (c & Hc & Hwc & ->). cbn [rbind].
  destruct (updateCommit_total c pc h wrong Hwc Hpc Hh) as (c' & -> & Hwc' & _). cbn [rbind].
  set (q := f (set_path p i c')). assert (Hq : wfp q) by (by apply Hf, wfp_set_path).
  assert (Hsq : stats q = stats p) by (unfold q; by rewrite Hsf).
  destruct (count_read_ok q i Hq Hi) as (p1 & H1 & Hp1 & _). rewrite H1. cbn [rbind].
  destruct (count_write_ok p1 i Hp1 Hi) as (p2 & H2 & Hp2 & _). rewrite H2.
  exists p2. do 2 (split; [done|]). unfold count_read in H1. unfold count_write in H2.
  apply rbind_Ok in H1 as (l1 & _ & [= <-]). apply rbind_Ok in H2 as (l2 & _ & [= <-]).
  simpl. by rewrite Hsq.
Qed.

Lemma count_branches_le hist s : (count_branches hist s <= length hist)%nat.
Proof. induction hist as [|b hist IH]; simpl; [done|]. case_match; lia. Qed.

(** The training step of [violation]: table [i] now holds the distance. *)
Lemma train_path_ok p pc i hist d : wfp p -> in_u 64 pc -> (i < 8)%nat ->
  exists p', (let! path_hash := generateBranchHash p i (nth i sizes8 0%nat) hist 0 in
              let! c := nth_ (paths p) i in
              let! c := update c pc path_hash d in
              let p := set_path p i c in
              let p := set_maxBranches p (Nat.max (maxBranches p) i) in
              let! p := count_read p i in count_write p i) = Ok p' /\
    wfp p' /\ maxBranches p' = Nat.max (maxBranches p) i /\
    (forall c, paths p !! i = Some c ->
       path_distance p' pc hist 0 i = if maxCounterValue c =? 0 then 0 else d).
Proof.
  intros Hp Hpc Hi. destruct (generateBranchHash_of p hist 0 i Hp Hi) as [-> Hh]. cbn [rbind].
  destruct (wfp_path _ _ Hp Hi) as (c & Hc & Hwc & ->). cbn [rbind].
  destruct (update_ok c pc (hash_of p hist 0 i) Hwc Hpc Hh d) as (w0 & e0 & Hu & _).
  set (c' := touched _ _ _ _) in Hu. rewrite Hu. cbn [rbind].
  pose proof (update_wf _ _ _ _ _ Hwc Hpc Hh Hu) as Hwc'.
  destruct (update_bits _ _ _ _ _ Hwc Hpc Hh Hu) as [Hs Ht].
  destruct (update_hit _ _ _ _ _ Hwc Hpc Hh Hu) as (way & e & Hhit & Hd & Hct & _).
  pose proof (wp_max _ Hp) as Hmax.
  set (p1 := set_maxBranches _ _).
  assert (Hp1 : wfp p1) by (apply wfp_set_max; [by apply wfp_set_path|simpl; lia]).
  destruct (count_read_ok p1 i Hp1 Hi) as (p2 & -> & Hp2 & Hs2). cbn [rbind].
  destruct (count_write_ok p2 i Hp2 Hi) as (p3 & -> & Hp3 & Hs3). exists p3. do 2 (split; [done|]).
  assert (Hsp : same_pred p3 p1).
  { destruct Hs2 as (?&?&?&?&?), Hs3 as (?&?&?&?&?). repeat split; congruence. }
  assert (Hg : same_geometry p3 p).
  { transitivity p1; [by apply same_pred_geometry|]. by eapply (set_path_geometry p i c c'). }
  split; [by destruct Hsp as (_ & -> & _)|]. intros c0 Hc0. simplify_eq.
  unfold path_distance. rewrite (hash_of_ext p3 p) by done. destruct Hsp as (-> & _).
  simpl paths. rewrite list_lookup_insert_eq by (by eapply lookup_lt_Some).
  by rewrite (predicted_distance_hit _ _ _ _ _ Hhit), Hct.
Qed.

Lemma violation_ok p pc store_seq d predicted ppi ph hist b :
  wfp p -> in_u 64 pc -> last hist = Some b -> seqNum b <= store_seq ->
  (predicted = true -> (ppi < 8)%nat /\ in_u 64 ph) ->
  exists p' i, violation p pc store_seq d predicted ppi ph hist = Ok p' /\ wfp p' /\
    quantise sizes8 (count_branches hist store_seq) = Ok (nth i sizes8 0%nat, i) /\
    usable p' (length hist) i /\
    forall c, paths p !! i = Some c ->
      path_distance p' pc hist 0 i = if maxCounterValue c =? 0 then 0 else d.
Proof.
  intros Hp Hpc Hlast Hseq Hpred. unfold violation. rewrite Hlast.
  destruct (Z.ltb_spec store_seq (seqNum b)); [lia|].
  destruct (quantise_ok (count_branches hist store_seq)) as (i & Hq & Hi & Hle & _).
  rewrite (wp_sizes _ Hp), Hq. cbn [rbind].
  assert (Hp1 : exists p1, (if predicted then
          let! c := nth_ (paths p) ppi in
          let! c := updateCommit c pc ph true in
          let p := count_false (set_path p ppi c) in
          let! p := count_read p ppi in count_write p ppi
        else Ok p) = Ok p1 /\ wfp p1 /\ maxCounterValue <$> paths p1 = maxCounterValue <$> paths p).
  { destruct predicted; [|by exists p]. destruct Hpred as [? ?]; [done|].
    destruct (commit_path_ok count_false p pc ppi ph true) as (p1 & -> & ? & _ & _ & ?);
      [apply wfp_count_false|done..|]. by exists p1. }
  destruct Hp1 as (p1 & Heq & Hwp1 & Hm). cbv zeta in Heq |- *. rewrite Heq. cbn [rbind].
  destruct (train_path_ok p1 pc i hist d Hwp1 Hpc Hi) as (p2 & Hr & Hwp2 & Hmax & Hpd).
  exists p2, i. do 3 (split; [done|]). split.
  - split; [rewrite Hmax; lia|]. pose proof (count_branches_le hist store_seq). lia.
  - intros c Hc. apply (f_equal (fun l => l !! i)) in Hm. rewrite !list_lookup_fmap, Hc in Hm.
    destruct (paths p1 !! i) as [c1|] eqn:Hc1; [|done]. injection Hm as <-. by apply Hpd.
Qed.

(** C35: after a memory-order violation the predictor stops the load.  Whatever the
    (well-formed) state, [violation] succeeds and stores the store distance in
    the table of the quantised history length; the next time the load is seen
    with the same branch history, [checkInst] predicts a dependence, taken from
    a table of at most that history length, and with the stored distance when it
    comes from that table.  The distance is not 0, the counters can count, and the
    branch history reaches back to the store and has no branch younger than the load. *)
Theorem violation_then_predicted p pc store_seq d predicted ppi ph hist b b0 load_seq :
  wfp p -> in_u 64 pc -> last hist = Some b -> seqNum b <= store_seq ->
  (predicted = true -> (ppi < 8)%nat /\ in_u 64 ph) ->
  d <> 0 -> Forall (fun c => maxCounterValue c <> 0) (paths p) ->
  head hist = Some b0 -> seqNum b0 <= load_seq ->
  exists p' p'' r i, violation p pc store_seq d predicted ppi ph hist = Ok p' /\ wfp p' /\
    quantise sizes8 (count_branches hist store_seq) = Ok (nth i sizes8 0%nat, i) /\
    checkInst p' pc load_seq hist true = Ok (r, p'') /\ wfp p'' /\
    storeQueueDistance r <> 0 /\ (predBranchHistLength r <= i)%nat /\
    (predBranchHistLength r = i -> storeQueueDistance r = d).
Proof.
  intros Hp Hpc Hlast Hseq Hpred Hd Hmax Hhead Hload.
  destruct (violation_ok p pc store_seq d predicted ppi ph hist b) as (p' & i & Hv & Hp' & Hq & Hus & Hpd);
    [done..|].
  destruct hist as [|b1 hist]; [done|]. injection Hhead as ->.
  destruct (checkInst_ok p' pc load_seq (b0 :: hist)) as (r & p'' & Hr & Hp'' & Hbest); [done..|].
  assert (Hskip : skip_younger (b0 :: hist) load_seq = 0%nat)
    by (simpl; destruct (Z.ltb_spec load_seq (seqNum b0)); [lia|done]).
  rewrite Hskip in Hbest.
  assert (Hi : path_distance p' pc (b0 :: hist) 0 i = d).
  { destruct (wfp_path p i Hp) as (c & Hc & _).
    - destruct Hus as [Hle _]. pose proof (wp_max _ Hp'). lia.
    - rewrite (Hpd c Hc). eapply Forall_lookup_1 in Hmax; [|exact Hc].
      by destruct (Z.eqb_spec (maxCounterValue c) 0). }
  exists p', p'', r, i. do 5 (split; [done|]).
  destruct Hbest as [[-> Hnone]|(j & Hj & Hdj & Hbefore & ->)].
  - specialize (Hnone i Hus). congruence.
  - simpl. split; [done|]. split; [|intros ->; done].
    destruct (Nat.le_gt_cases j i) as [|Hgt]; [done|]. specialize (Hbefore i Hgt). congruence.
Qed.

Definition demo_branch (n : Z) (t : bool) : branchInfo := mkBranch false t (n * 64) n 0.
Definition demo_hist : BranchHistory := [demo_branch 9 true; demo_branch 7 false; demo_branch 3 true].

Definition demo_phast : PHAST :=
  mkPHAST 5 31 4 0 sizes8 (replicate 8 (cache_init 2 2 3 2)) (mkStats (replicate 8 0) (replicate 8 0) 0 0).

Lemma demo_phast_init : phast_init 4 2 3 2 4 = Ok demo_phast.
Proof. reflexivity. Qed.

Lemma demo_phast_wf : wfp demo_phast.
Proof.
  split; try (simpl; (reflexivity || lia)). apply Forall_replicate, cache_init_wf; unfold in_u; lia.
Qed.

Lemma violation_then_predicted_witness :
  exists p' p'' r i, violation demo_phast 0x400 5 2 false 0 0 demo_hist = Ok p' /\ wfp p' /\
    quantise sizes8 3 = Ok (nth i sizes8 0%nat, i) /\
    checkInst p' 0x400 12 demo_hist true = Ok (r, p'') /\ wfp p'' /\
    storeQueueDistance r <> 0 /\ (predBranchHistLength r <= i)%nat /\
    (predBranchHistLength r = i -> storeQueueDistance r = 2).
Proof.
  apply (violation_then_predicted demo_phast 0x400 5 2 false 0 0 demo_hist
           (demo_branch 3 true) (demo_branch 9 true) 12).
  - apply demo_phast_wf.
  - split; reflexivity || discriminate.
  - reflexivity.
  - simpl. lia.
  - discriminate.
  - discriminate.
  - apply Forall_replicate. discriminate.
  - reflexivity.
  - simpl. lia.
Defined.

(** The lookup.  For a load with a branch history, [checkInst] always answers,
    keeps the invariant, and its answer is the distance predicted by the
    shortest usable history length (not above [maxBranches] and covered by the
    history) whose table has one; without any, it predicts nothing. *)
Theorem checkInst_correct p pc seq hist : wfp p -> in_u 64 pc -> hist <> [] ->
  exists r p', checkInst p pc seq hist true = Ok (r, p') /\ wfp p' /\
    best_prediction p pc hist (skip_younger hist seq) r.
Proof. apply checkInst_ok. Qed.

Lemma checkInst_correct_witness :
  exists r p', checkInst demo_phast 0x400 8 demo_hist true = Ok (r, p') /\ wfp p' /\
    best_prediction demo_phast 0x400 demo_hist 1 r.
Proof.
  apply (checkInst_correct demo_phast 0x400 8 demo_hist);
    [apply demo_phast_wf | split; reflexivity || discriminate | discriminate].
Defined.

(** Two byte ranges share a granule of [2^s] bytes. *)
Definition share_granule (s la ls sa ss : Z) : Prop :=
  exists a b, la <= a < la + ls /\ sa <= b < sa + ss /\ Z.shiftr a s = Z.shiftr b s.

Lemma granule_overlap s la ls sa ss : 0 <= s -> 0 < ls -> 0 < ss -> 0 <= la -> 0 <= sa ->
  (Z.shiftr la s <= Z.shiftr (sa + ss - 1) s /\ Z.shiftr sa s <= Z.shiftr (la + ls - 1) s)
  <-> share_granule s la ls sa ss.
Proof.
  intros Hs Hl Hst Hla Hsa. assert (Hp : 0 < 2 ^ s) by (apply Z.pow_pos_nonneg; lia).
  unfold share_granule. rewrite !Z.shiftr_div_pow2 by done. split.
  - intros [H1 H2].
    destruct (Z.le_gt_cases (la / 2 ^ s) (sa / 2 ^ s)) as [Hle|Hgt].
    + exists (Z.max la (2 ^ s * (sa / 2 ^ s))), sa. split; [|split; [lia|]].
      * pose proof (Z.mul_div_le (la + ls - 1) (2 ^ s) Hp). nia.
      * rewrite !Z.shiftr_div_pow2 by done. destruct (Z.max_spec la (2 ^ s * (sa / 2 ^ s))) as [[_ ->]|[? ->]].
        -- rewrite Z.mul_comm, Z.div_mul by lia. done.
        -- apply Z.le_antisymm; [done|]. apply Z.div_le_lower_bound; lia.
    + exists la, (Z.max sa (2 ^ s * (la / 2 ^ s))). split; [lia|]. split.
      * pose proof (Z.mul_div_le (sa + ss - 1) (2 ^ s) Hp). nia.
      * rewrite !Z.shiftr_div_pow2 by done. destruct (Z.max_spec sa (2 ^ s * (la / 2 ^ s))) as [[_ ->]|[? ->]].
        -- rewrite (Z.mul_comm (2 ^ s)), Z.div_mul by lia. done.
        -- apply Z.le_antisymm; [apply Z.div_le_lower_bound; lia|lia].
  - intros (a & b & Ha & Hb & Heq). rewrite !Z.shiftr_div_pow2 in Heq by done.
    pose proof (Z.div_le_mono la a (2 ^ s) Hp). pose proof (Z.div_le_mono a (la + ls - 1) (2 ^ s) Hp).
    pose proof (Z.div_le_mono sa b (2 ^ s) Hp). pose proof (Z.div_le_mono b (sa + ss - 1) (2 ^ s) Hp). lia.
Qed.

(** Commit feedback.  [commit] of a predicted load always succeeds and keeps the
    invariant; for accesses that do not wrap around the address space it counts
    a correct prediction exactly when the load and the store share a granule of
    [2^depCheckShift] bytes, and a false dependence otherwise. *)
Theorem commit_correct p pc la ls sa ss i h :
  wfp p -> in_u 64 pc -> in_u 64 h -> (i < 8)%nat -> 0 <= depCheckShift p ->
  0 <= la -> 0 < ls -> la + ls <= 2 ^ 64 -> 0 <= sa -> 0 < ss -> sa + ss <= 2 ^ 64 ->
  exists p' k, commit p pc la ls sa ss i h = Ok p' /\ wfp p' /\ (k = 0 \/ k = 1) /\
    (k = 1 <-> share_granule (depCheckShift p) la ls sa ss) /\
    correctPredictions (stats p') = correctPredictions (stats p) + k /\
    falseDependencies (stats p') = falseDependencies (stats p) + (1 - k).
Proof.
  intros Hp Hpc Hh Hi Hsh Hla Hls Hlw Hsa Hss Hsw. unfold commit.
  rewrite !wrap_small by (unfold in_u; lia).
  pose proof (granule_overlap (depCheckShift p) la ls sa ss Hsh Hls Hss Hla Hsa) as Hg.
  set (b := (_ <=? _) && (_ <=? _)).
  assert (Hb : b = true <-> share_granule (depCheckShift p) la ls sa ss)
    by (rewrite <- Hg; unfold b; rewrite andb_true_iff, !Z.leb_le; tauto).
  set (q := if negb b then count_false p else count_correct p).
  assert (Hq : wfp q) by (unfold q; destruct b; [by apply wfp_count_correct|by apply wfp_count_false]).
  destruct (commit_path_stats (fun p => p) q pc i h (negb b)) as (p' & Hr & Hwp & Hs); [done..|].
  exists p', (Z.b2z b). split; [exact Hr|]. split; [done|]. split; [by destruct b; [right|left]|].
  split; [rewrite <- Hb; by destruct b|].
  destruct Hs as [-> ->]. unfold q. destruct b; simpl; lia.
Qed.

Lemma commit_correct_witness :
  exists p' k, commit demo_phast 0x400 0x1000 8 0x1004 4 0 7 = Ok p' /\
    (k = 1 <-> share_granule 4 0x1000 8 0x1004 4).
Proof.
  destruct (commit_correct demo_phast 0x400 0x1000 8 0x1004 4 0 7) as (p' & k & ? & _ & _ & ? & _);
    [apply demo_phast_wf | split; (reflexivity || discriminate) | split; (reflexivity || discriminate)
    | lia | simpl; lia | lia..|].
  exists p', k. split; assumption.
Defined.

Lemma cache_clear_entries c : wfc c ->
  cache (cache_clear c) = replicate (length (cache c)) (replicate (associativity c) zeroEntry).
Proof.
  intros Hw. simpl. apply list_eq. intros i. rewrite list_lookup_imap.
  destruct (cache c !! i) as [s|] eqn:Hs; simpl.
  - pose proof (lookup_lt_Some _ _ _ Hs) as Hlt. rewrite lookup_replicate_2 by done.
    destruct (Z.ltb_spec (Z.of_nat i) (Z.shiftl 1 (setBits c))) as [_|Hge].
    2: { rewrite Z.shiftl_1_l in Hge. rewrite (wc_sets _ Hw) in Hlt. lia. }
    f_equal. destruct (proj1 (Forall_lookup _ _) (wc_ways _ Hw) _ _ Hs) as [Hl _].
    apply list_eq. intros j. rewrite list_lookup_imap.
    destruct (s !! j) as [e|] eqn:He; simpl.
    + apply lookup_lt_Some in He. rewrite lookup_replicate_2 by lia.
      destruct (Nat.ltb_spec j (associativity c)); [done|lia].
    + apply lookup_ge_None in He. symmetry. apply lookup_ge_None. rewrite length_replicate. lia.
  - apply lookup_ge_None in Hs. symmetry. apply lookup_ge_None. by rewrite length_replicate.
Qed.

Lemma cache_clear_wf c : wfc c -> wfc (cache_clear c).
Proof.
  intros Hw. pose proof (cache_clear_entries c Hw) as He. destruct Hw as [H1 H2 H3 H4 H5 H6].
  split; try done.
  - rewrite He, length_replicate. done.
  - rewrite He. apply Forall_replicate. split; [apply length_replicate|]. apply Forall_replicate.
    unfold entry_ok, in_u in *. simpl. lia.
Qed.

Lemma cache_clear_silent c pc h : wfc c -> predicted_distance (cache_clear c) pc h = 0.
Proof.
  intros Hw. destruct (hit (cache_clear c) pc h) as [[way e]|] eqn:Hhit.
  2: { unfold predicted_distance. by rewrite Hhit. }
  rewrite (predicted_distance_hit _ _ _ _ _ Hhit).
  destruct (hit_entry _ pc h (cache_clear_wf c Hw) _ _ Hhit) as (s & Hs & He & _).
  rewrite cache_clear_entries in Hs by done. apply lookup_replicate_1 in Hs as [-> _].
  by apply lookup_replicate_1 in He as [-> _].
Qed.

Lemma phast_clear_wf p : wfp p -> wfp (phast_clear p).
Proof.
  intros []. split; simpl; try done; [lia|by rewrite length_map|].
  apply Forall_fmap. eapply Forall_impl; [done|]. apply cache_clear_wf.
Qed.

(** [clear] forgets everything: the invariant holds and no load is predicted
    dependent until the next violation. *)
Theorem phast_clear_forgets p pc seq hist : wfp p -> in_u 64 pc -> hist <> [] ->
  wfp (phast_clear p) /\
  exists p', checkInst (phast_clear p) pc seq hist true = Ok (noPrediction, p').
Proof.
  intros Hp Hpc Hne.
  pose proof (phast_clear_wf p Hp) as Hw.
  split; [done|]. destruct (checkInst_ok _ pc seq hist Hw Hpc Hne) as (r & p' & Hr & _ & Hbest).
  exists p'. rewrite Hr. destruct Hbest as [[-> _]|(j & _ & Hd & _)]; [done|]. exfalso. apply Hd.
  unfold path_distance. simpl. rewrite list_lookup_fmap.
  destruct (paths p !! j) as [c|] eqn:Hc; [|done]. apply cache_clear_silent.
  eapply Forall_lookup_1; [apply Hp|done].
Qed.

Lemma phast_clear_forgets_witness :
  wfp (phast_clear demo_phast) /\
  exists p', checkInst (phast_clear demo_phast) 0x400 12 demo_hist true = Ok (noPrediction, p').
Proof.
  apply (phast_clear_forgets demo_phast 0x400 12 demo_hist);
    [apply demo_phast_wf | split; (reflexivity || discriminate) | discriminate].
Defined.

(** ** Totality of the calls the memory dependence unit makes *)

Lemma noPrediction_ok : pred_seqNum noPrediction = 0 /\
  (predBranchHistLength noPrediction < 8)%nat /\ in_u 64 (predictorHash noPrediction).
Proof. unfold in_u. simpl. lia. Qed.

Lemma checkInst_total p pc seq hist isLoad : wfp p -> in_u 64 pc ->
  exists r p', checkInst p pc seq hist isLoad = Ok (r, p') /\ wfp p' /\ pred_seqNum r = 0 /\
    (predBranchHistLength r < 8)%nat /\ in_u 64 (predictorHash r).
Proof.
  intros Hp Hpc. destruct isLoad; [|exists noPrediction, p; do 2 (split; [done|]); apply noPrediction_ok].
  destruct hist as [|b hist]; [exists noPrediction, p; do 2 (split; [done|]); apply noPrediction_ok|].
  destruct (checkInst_ok p pc seq (b :: hist)) as (r & p' & -> & Hp' & Hbest); [done..|].
  exists r, p'. do 2 (split; [done|]).
  destruct Hbest as [[-> _]|(j & [Hj _] & _ & _ & ->)]; [apply noPrediction_ok|].
  pose proof (wp_max _ Hp). simpl. split; [done|]. split; [lia|].
  apply generateBranchHash_of; [done|lia].
Qed.

Lemma violation_total p pc store_seq d predicted ppi ph hist : wfp p -> in_u 64 pc ->
  (predicted = true -> (ppi < 8)%nat /\ in_u 64 ph) ->
  exists p', violation p pc store_seq d predicted ppi ph hist = Ok p' /\ wfp p'.
Proof.
  intros Hp Hpc Hpred. destruct (last hist) as [b|] eqn:Hl.
  - destruct (Z.le_gt_cases (seqNum b) store_seq).
    + destruct (violation_ok p pc store_seq d predicted ppi ph hist b) as (p' & i & ? & ? & _); eauto.
    + exists p. split; [|done]. unfold violation. rewrite Hl.
      by destruct (Z.ltb_spec store_seq (seqNum b)); [|lia].
  - exists p. split; [|done]. unfold violation. by rewrite Hl.
Qed.

Lemma commit_total p pc la ls sa ss i h : wfp p -> in_u 64 pc -> in_u 64 h -> (i < 8)%nat ->
  exists p', commit p pc la ls sa ss i h = Ok p' /\ wfp p'.
Proof.
  intros Hp Hpc Hh Hi. unfold commit. set (b := negb (_ && _)).
  set (q := if b then count_false p else count_correct p).
  assert (Hq : wfp q) by (unfold q; destruct b; [by apply wfp_count_false|by apply wfp_count_correct]).
  destruct (commit_path_stats (fun p => p) q pc i h b) as (p' & Hr & Hwp & _); [done..|].
  exists p'. split; [exact Hr|done].
Qed.
