(* ===== verification/StoreSet.v ===== *)
(** * The store set predictor

    [cpu/o3/store_set.hh] and [cpu/o3/store_set.cc]: the alternative memory
    dependence predictor with the interface of [PHAST].  The tables are lists,
    [storeList], a [std::map] ordered by decreasing sequence number, is a list in
    that order. *)

From Stdlib Require Import ZArith Lia Bool.
From stdpp Require Import base tactics option list numbers gmap sorting.
From S2P Require Import Prelude Intmath Phast.
Open Scope Z_scope.

Record StoreSet := mkStoreSet {
  SSIT : list Z;
  validSSIT : list bool;
  LFST : list Z;
  validLFST : list bool;
  intended_index : gmap Z Z;
  storeList : list (Z * Z);
  clearPeriod : Z;
  SSITSize : Z;
  LFSTSize : Z;
  indexMask : Z;
  offsetBits : Z;
  memOpsPred : Z;
  LFSTReads : Z;
  LFSTWrites : Z
}.

Section Fields.
Context (s : StoreSet).
Definition set_SSIT (t : list Z) (v : list bool) (ii : gmap Z Z) : StoreSet :=
  mkStoreSet t v (LFST s) (validLFST s) ii (storeList s) (clearPeriod s) (SSITSize s) (LFSTSize s)
    (indexMask s) (offsetBits s) (memOpsPred s) (LFSTReads s) (LFSTWrites s).
Definition set_LFST (t : list Z) (v : list bool) : StoreSet :=
  mkStoreSet (SSIT s) (validSSIT s) t v (intended_index s) (storeList s) (clearPeriod s) (SSITSize s)
    (LFSTSize s) (indexMask s) (offsetBits s) (memOpsPred s) (LFSTReads s) (LFSTWrites s).
Definition set_storeList (l : list (Z * Z)) : StoreSet :=
  mkStoreSet (SSIT s) (validSSIT s) (LFST s) (validLFST s) (intended_index s) l (clearPeriod s) (SSITSize s)
    (LFSTSize s) (indexMask s) (offsetBits s) (memOpsPred s) (LFSTReads s) (LFSTWrites s).
Definition set_memOpsPred (n : Z) : StoreSet :=
  mkStoreSet (SSIT s) (validSSIT s) (LFST s) (validLFST s) (intended_index s) (storeList s) (clearPeriod s)
    (SSITSize s) (LFSTSize s) (indexMask s) (offsetBits s) n (LFSTReads s) (LFSTWrites s).
Definition count_LFST (r w : Z) : StoreSet :=
  mkStoreSet (SSIT s) (validSSIT s) (LFST s) (validLFST s) (intended_index s) (storeList s) (clearPeriod s)
    (SSITSize s) (LFSTSize s) (indexMask s) (offsetBits s) (memOpsPred s) (LFSTReads s + r) (LFSTWrites s + w).
End Fields.

(** The constructor. *)
Definition StoreSet_new (clear_period ssit_size lfst_size : Z) : res StoreSet :=
  if negb (isPowerOf2 32 ssit_size) then Err Fatal else
  if negb (isPowerOf2 32 lfst_size) then Err Fatal else
  Ok (mkStoreSet (replicate (Z.to_nat ssit_size) 0) (replicate (Z.to_nat ssit_size) false)
        (replicate (Z.to_nat lfst_size) 0) (replicate (Z.to_nat lfst_size) false) ∅ []
        clear_period ssit_size lfst_size (ssit_size - 1) 2 0 0 0).

(** [std::vector::resize], then the loops. *)
Definition resize {A} (n : nat) (x : A) (l : list A) : list A := take n l ++ replicate (n - length l) x.

Definition init (s : StoreSet) (clear_period ssit_size lfst_size : Z) : StoreSet :=
  mkStoreSet (resize (Z.to_nat ssit_size) 0 (SSIT s)) (replicate (Z.to_nat ssit_size) false)
    (replicate (Z.to_nat lfst_size) 0) (replicate (Z.to_nat lfst_size) false) (intended_index s) (storeList s)
    clear_period ssit_size lfst_size (ssit_size - 1) 2 0 (LFSTReads s) (LFSTWrites s).

Definition calcIndex (s : StoreSet) (PC : Z) : Z := Z.land (Z.shiftr PC (offsetBits s)) (indexMask s).
Definition calcSSID (s : StoreSet) (PC : Z) : Z := Z.lxor PC (Z.shiftr PC 10) mod LFSTSize s.

Definition at_ {A} (l : list A) (i : Z) : res A := nth_ l (Z.to_nat i).
Definition put_ {A} (l : list A) (i : Z) (x : A) : res (list A) := upd_ l (Z.to_nat i) x.

(** [validSSIT[i] = true; SSIT[i] = set; intended_index[i] = PC]. *)
Definition assign (s : StoreSet) (i set PC : Z) : res StoreSet :=
  let! v := put_ (validSSIT s) i true in
  let! t := put_ (SSIT s) i set in
  Ok (set_SSIT s t v (<[i := PC]> (intended_index s))).

(** Reassignment of an entry that is already valid. *)
Definition reassign (s : StoreSet) (i set PC : Z) : res StoreSet :=
  let! t := put_ (SSIT s) i set in
  Ok (set_SSIT s t (validSSIT s) (<[i := PC]> (intended_index s))).

Definition violation (s : StoreSet) (load_PC store_PC : Z) : res StoreSet :=
  let load_index := calcIndex s load_PC in
  let store_index := calcIndex s store_PC in
  check! (load_index <? SSITSize s) && (store_index <? SSITSize s);
  let! valid_load_SSID := at_ (validSSIT s) load_index in
  let! valid_store_SSID := at_ (validSSIT s) store_index in
  match valid_load_SSID, valid_store_SSID with
  | false, false =>
      let new_set := calcSSID s load_PC in
      let! s := assign s load_index new_set load_PC in
      let! s := assign s store_index new_set store_PC in
      check! new_set <? LFSTSize s;
      Ok s
  | true, false =>
      let! load_SSID := at_ (SSIT s) load_index in
      let! s := assign s store_index load_SSID store_PC in
      check! load_SSID <? LFSTSize s;
      Ok s
  | false, true =>
      let! store_SSID := at_ (SSIT s) store_index in
      assign s load_index store_SSID load_PC
  | true, true =>
      let! load_SSID := at_ (SSIT s) load_index in
      let! store_SSID := at_ (SSIT s) store_index in
      check! (load_SSID <? LFSTSize s) && (store_SSID <? LFSTSize s);
      if load_SSID <? store_SSID then reassign s store_index load_SSID store_PC
      else reassign s load_index store_SSID load_PC
  end.

Definition clear (s : StoreSet) : StoreSet :=
  set_storeList
    (set_LFST (set_SSIT s (SSIT s) (replicate (Z.to_nat (SSITSize s)) false) ∅)
       (LFST s) (replicate (Z.to_nat (LFSTSize s)) false)) [].

Definition checkClear (s : StoreSet) : StoreSet :=
  let s := set_memOpsPred s (memOpsPred s + 1) in
  if clearPeriod s <? memOpsPred s then clear (set_memOpsPred s 0) else s.

Definition insertLoad (s : StoreSet) : StoreSet := checkClear s.

(** [storeList[k] = v]. *)
Fixpoint store_put (k v : Z) (l : list (Z * Z)) : list (Z * Z) :=
  match l with
  | [] => [(k, v)]
  | (k', v') :: l' =>
      if k =? k' then (k, v) :: l'
      else if k' <? k then (k, v) :: l
      else (k', v') :: store_put k v l'
  end.

Definition insertStore (s : StoreSet) (store_PC store_seq_num : Z) : res StoreSet :=
  let index := calcIndex s store_PC in
  let s := checkClear s in
  check! index <? SSITSize s;
  let! valid := at_ (validSSIT s) index in
  if negb valid then Ok s else
  let! store_SSID := at_ (SSIT s) index in
  check! store_SSID <? LFSTSize s;
  let! t := put_ (LFST s) store_SSID store_seq_num in
  let! v := put_ (validLFST s) store_SSID true in
  let s := count_LFST (set_LFST s t v) 0 1 in
  Ok (set_storeList s (store_put store_seq_num store_SSID (storeList s))).

Definition checkInst (s : StoreSet) (PC : Z) : res (PredictionResult * StoreSet) :=
  let index := calcIndex s PC in
  check! index <? SSITSize s;
  let! valid := at_ (validSSIT s) index in
  if negb valid then Ok (noPrediction, s) else
  let! inst_SSID := at_ (SSIT s) index in
  check! inst_SSID <? LFSTSize s;
  let s := count_LFST s 1 0 in
  let! vl := at_ (validLFST s) inst_SSID in
  if negb vl then Ok (noPrediction, s) else
  let! sn := at_ (LFST s) inst_SSID in
  Ok (mkPrediction sn 0 0 0, s).

Definition issued (s : StoreSet) (issued_PC issued_seq_num : Z) (is_store : bool) : res StoreSet :=
  if negb is_store then Ok s else
  let index := calcIndex s issued_PC in
  check! index <? SSITSize s;
  let s := set_storeList s (filter (fun p => p.1 <> issued_seq_num) (storeList s)) in
  let! valid := at_ (validSSIT s) index in
  if negb valid then Ok s else
  let! store_SSID := at_ (SSIT s) index in
  check! store_SSID <? LFSTSize s;
  let! vl := at_ (validLFST s) store_SSID in
  let! sn := at_ (LFST s) store_SSID in
  if vl && (sn =? issued_seq_num) then
    let! v := put_ (validLFST s) store_SSID false in
    Ok (count_LFST (set_LFST s (LFST s) v) 1 1)
  else Ok s.

(** One iteration per unit of fuel; an iteration that erases nothing tries the
    same element again. *)
Fixpoint squash_loop (fuel : nat) (s : StoreSet) (squashed_num : Z) : res StoreSet :=
  match storeList s with
  | [] => Ok s
  | (k, idx) :: l =>
      match fuel with
      | O => Err OutOfFuel
      | S fuel =>
          if k <=? squashed_num then Ok s else
          let! sn := at_ (LFST s) idx in
          let! vl := at_ (validLFST s) idx in
          let younger := squashed_num <? sn in
          if vl && younger then
            let! v := put_ (validLFST s) idx false in
            squash_loop fuel (set_storeList (set_LFST s (LFST s) v) l) squashed_num
          else if negb vl && younger then squash_loop fuel (set_storeList s l) squashed_num
          else squash_loop fuel s squashed_num
      end
  end.

Definition squash (s : StoreSet) (squashed_num : Z) : res StoreSet :=
  squash_loop (S (length (storeList s))) s squashed_num.

(** ** The invariant *)

Record wfs (s : StoreSet) : Prop := {
  s_ssit : 0 < SSITSize s;
  s_lfst : 0 < LFSTSize s;
  s_mask : indexMask s = SSITSize s - 1;
  s_off : 0 <= offsetBits s;
  s_len1 : Z.of_nat (length (SSIT s)) = SSITSize s;
  s_len2 : Z.of_nat (length (validSSIT s)) = SSITSize s;
  s_len3 : Z.of_nat (length (LFST s)) = LFSTSize s;
  s_len4 : Z.of_nat (length (validLFST s)) = LFSTSize s;
  s_ids : Forall (fun x => 0 <= x < LFSTSize s) (SSIT s);
  s_sorted : StronglySorted (fun a b => b.1 < a.1) (storeList s);
  s_stores : forall k v, (k, v) ∈ storeList s ->
    0 <= v < LFSTSize s /\ exists sn, LFST s !! Z.to_nat v = Some sn /\ k <= sn
}.

Section Index.
Context (s : StoreSet) (Hs : wfs s).

Lemma calcIndex_range PC : 0 <= PC -> 0 <= calcIndex s PC < SSITSize s.
Proof.
  intros HPC. unfold calcIndex. rewrite (s_mask _ Hs). pose proof (s_ssit _ Hs).
  assert (0 <= Z.shiftr PC (offsetBits s)) by (by apply Z.shiftr_nonneg).
  split; [apply Z.land_nonneg; lia|].
  assert (Z.land (Z.shiftr PC (offsetBits s)) (SSITSize s - 1) <= SSITSize s - 1); [|lia].
  rewrite Z.land_comm. apply Z.ldiff_le; [lia|]. apply Z.bits_inj'. intros i Hi.
  rewrite Z.ldiff_spec, Z.land_spec, Z.bits_0.
  by destruct (Z.testbit (SSITSize s - 1) i), (Z.testbit (Z.shiftr PC (offsetBits s)) i).
Qed.

Lemma calcSSID_range PC : 0 <= calcSSID s PC < LFSTSize s.
Proof. apply Z.mod_pos_bound, Hs. Qed.

Lemma ssit_at i : 0 <= i < SSITSize s ->
  exists x v, at_ (SSIT s) i = Ok x /\ at_ (validSSIT s) i = Ok v /\ 0 <= x < LFSTSize s /\
    SSIT s !! Z.to_nat i = Some x /\ validSSIT s !! Z.to_nat i = Some v.
Proof.
  intros Hi. pose proof (s_len1 _ Hs). pose proof (s_len2 _ Hs).
  destruct (nth_Ok (SSIT s) (Z.to_nat i)) as (x & ? & Hx); [lia|].
  destruct (nth_Ok (validSSIT s) (Z.to_nat i)) as (v & ? & ?); [lia|].
  exists x, v. unfold at_. do 2 (split; [done|]). split; [|done].
  exact (Forall_lookup_1 _ _ _ _ (s_ids _ Hs) Hx).
Qed.

Lemma lfst_at i : 0 <= i < LFSTSize s ->
  exists x v, at_ (LFST s) i = Ok x /\ at_ (validLFST s) i = Ok v /\
    LFST s !! Z.to_nat i = Some x /\ validLFST s !! Z.to_nat i = Some v.
Proof.
  intros Hi. pose proof (s_len3 _ Hs). pose proof (s_len4 _ Hs).
  destruct (nth_Ok (LFST s) (Z.to_nat i)) as (x & ? & Hx); [lia|].
  destruct (nth_Ok (validLFST s) (Z.to_nat i)) as (v & ? & ?); [lia|]. by exists x, v.
Qed.

Lemma assign_ok i set PC : 0 <= i < SSITSize s -> 0 <= set < LFSTSize s ->
  assign s i set PC = Ok (set_SSIT s (<[Z.to_nat i := set]> (SSIT s)) (<[Z.to_nat i := true]> (validSSIT s))
                            (<[i := PC]> (intended_index s))) /\
  wfs (set_SSIT s (<[Z.to_nat i := set]> (SSIT s)) (<[Z.to_nat i := true]> (validSSIT s))
         (<[i := PC]> (intended_index s))).
Proof.
  intros Hi Hset. pose proof (s_len1 _ Hs). pose proof (s_len2 _ Hs). unfold assign, put_.
  rewrite !upd_Ok by lia. split; [done|]. destruct Hs. split; simpl; rewrite ?length_insert; try done.
  by apply Forall_insert.
Qed.

Lemma reassign_ok i set PC : 0 <= i < SSITSize s -> 0 <= set < LFSTSize s ->
  reassign s i set PC = Ok (set_SSIT s (<[Z.to_nat i := set]> (SSIT s)) (validSSIT s)
                              (<[i := PC]> (intended_index s))) /\
  wfs (set_SSIT s (<[Z.to_nat i := set]> (SSIT s)) (validSSIT s) (<[i := PC]> (intended_index s))).
Proof.
  intros Hi Hset. pose proof (s_len1 _ Hs). unfold reassign, put_.
  rewrite !upd_Ok by lia. split; [done|]. destruct Hs. split; simpl; rewrite ?length_insert; try done.
  by apply Forall_insert.
Qed.
End Index.

(** [i] is a valid entry of the store set table that names [set]. *)
Definition in_set (s : StoreSet) (i set : Z) : Prop :=
  SSIT s !! Z.to_nat i = Some set /\ validSSIT s !! Z.to_nat i = Some true.

(** After a violation, the load and the store are in the same store set. *)
Lemma ss_violation_ok s l st : wfs s -> 0 <= l -> 0 <= st ->
  exists s' set, violation s l st = Ok s' /\ wfs s' /\ 0 <= set < LFSTSize s /\
    in_set s' (calcIndex s l) set /\ in_set s' (calcIndex s st) set /\
    (forall PC, calcIndex s' PC = calcIndex s PC) /\ memOpsPred s' = memOpsPred s /\
    clearPeriod s' = clearPeriod s /\ storeList s' = storeList s /\ LFST s' = LFST s /\ LFSTSize s' = LFSTSize s.
Proof.
  intros Hs Hl Hst. unfold violation.
  pose proof (calcIndex_range s Hs l Hl) as Hli. pose proof (calcIndex_range s Hs st Hst) as Hsi.
  set (li := calcIndex s l) in *. set (si := calcIndex s st) in *.
  pose proof (s_len1 _ Hs). pose proof (s_len2 _ Hs).
  destruct (Z.ltb_spec li (SSITSize s)); [|lia]. destruct (Z.ltb_spec si (SSITSize s)); [|lia].
  cbn [andb assert_ rbind].
  destruct (ssit_at s Hs li Hli) as (xl & vl & Exl & -> & Hxl & Lxl & Lvl).
  destruct (ssit_at s Hs si Hsi) as (xs & vs & Exs & -> & Hxs & Lxs & Lvs). cbn [rbind].
  destruct vl, vs.
  - rewrite Exl, Exs. cbn [rbind].
    destruct (Z.ltb_spec xl (LFSTSize s)); [|lia]. destruct (Z.ltb_spec xs (LFSTSize s)); [|lia].
    cbn [andb assert_ rbind]. destruct (Z.ltb_spec xl xs).
    + destruct (reassign_ok s Hs si xl st) as [-> ?]; [done..|]. eexists _, xl. do 3 (split; [done|]).
      unfold in_set. simpl. rewrite list_lookup_insert_eq by lia.
      split; [|done]. split; [|done]. destruct (decide (Z.to_nat li = Z.to_nat si)) as [->|];
        [by rewrite list_lookup_insert_eq by lia|by rewrite list_lookup_insert_ne].
    + destruct (reassign_ok s Hs li xs l) as [-> ?]; [done..|]. eexists _, xs. do 3 (split; [done|]).
      unfold in_set. simpl. rewrite list_lookup_insert_eq by lia.
      split; [done|]. split; [|done]. split; [|done]. destruct (decide (Z.to_nat si = Z.to_nat li)) as [->|];
        [by rewrite list_lookup_insert_eq by lia|by rewrite list_lookup_insert_ne].
  - rewrite Exl. cbn [rbind]. destruct (assign_ok s Hs si xl st) as [-> ?]; [done..|]. cbn [rbind].
    simpl LFSTSize. destruct (Z.ltb_spec xl (LFSTSize s)); [|lia]. cbn [assert_ rbind].
    eexists _, xl. do 3 (split; [done|]). unfold in_set. simpl. rewrite !list_lookup_insert_eq by lia.
    split; [|done].
    assert (Z.to_nat si <> Z.to_nat li) by (intros Heq; rewrite Heq in Lvs; congruence).
    by rewrite !list_lookup_insert_ne.
  - rewrite Exs. cbn [rbind]. destruct (assign_ok s Hs li xs l) as [-> ?]; [done..|].
    eexists _, xs. do 3 (split; [done|]). unfold in_set. simpl. rewrite !list_lookup_insert_eq by lia.
    split; [done|].
    assert (Z.to_nat li <> Z.to_nat si) by (intros Heq; rewrite Heq in Lvl; congruence).
    by rewrite !list_lookup_insert_ne.
  - pose proof (calcSSID_range s Hs l) as Hn. set (n := calcSSID s l) in *.
    destruct (assign_ok s Hs li n l) as [-> Hs1]; [done..|]. cbn [rbind].
    edestruct (assign_ok _ Hs1 si n st) as [-> Hs2]; [done..|]. cbn [rbind].
    simpl LFSTSize. destruct (Z.ltb_spec n (LFSTSize s)); [|lia]. cbn [assert_ rbind].
    eexists _, n. do 3 (split; [done|]). unfold in_set. simpl.
    rewrite !(list_lookup_insert_eq _ (Z.to_nat si)) by (rewrite ?length_insert; lia).
    split; [|done]. destruct (decide (Z.to_nat li = Z.to_nat si)) as [->|].
    + by rewrite !list_lookup_insert_eq by (rewrite ?length_insert; lia).
    + do 2 (rewrite list_lookup_insert_ne, list_lookup_insert_eq by (done || lia)). done.
Qed.

Lemma clear_wf s : wfs s -> wfs (clear s).
Proof.
  intros []. split; simpl; rewrite ?length_replicate; try done; try lia.
  - constructor.
  - intros k v Hin. by apply not_elem_of_nil in Hin.
Qed.

Lemma set_memOpsPred_wf s n : wfs s -> wfs (set_memOpsPred s n).
Proof. intros []. by split. Qed.

Lemma checkClear_wf s : wfs s -> wfs (checkClear s).
Proof.
  intros Hs. unfold checkClear. case_ifs.
  - by apply clear_wf, set_memOpsPred_wf, set_memOpsPred_wf.
  - by apply set_memOpsPred_wf.
Qed.

Lemma count_LFST_wf s r w : wfs s -> wfs (count_LFST s r w).
Proof. intros []. by split. Qed.

Lemma checkClear_keeps s PC : calcIndex (checkClear s) PC = calcIndex s PC /\
  SSITSize (checkClear s) = SSITSize s /\ LFSTSize (checkClear s) = LFSTSize s /\
  (forall k v, (k, v) ∈ storeList (checkClear s) -> (k, v) ∈ storeList s).
Proof.
  unfold checkClear. case_ifs; [|done]. do 3 (split; [done|]). simpl. by intros k v ?%not_elem_of_nil.
Qed.

Lemma store_put_front k v l : (forall k' v', (k', v') ∈ l -> k' < k) -> store_put k v l = (k, v) :: l.
Proof.
  destruct l as [|[k' v'] l]; intros H; [done|]. simpl.
  assert (k' < k) by (apply (H k' v'); by left).
  destruct (Z.eqb_spec k k'); [lia|]. destruct (Z.ltb_spec k' k); [done|lia].
Qed.

(** The state after a store of the set [set] is fetched. *)
Lemma fetch_wf s set sn r w : wfs s -> 0 <= set < LFSTSize s ->
  (forall k v, (k, v) ∈ storeList s -> k < sn) ->
  wfs (set_storeList (count_LFST (set_LFST s (<[Z.to_nat set := sn]> (LFST s))
         (<[Z.to_nat set := true]> (validLFST s))) r w) ((sn, set) :: storeList s)).
Proof.
  intros Hs Hset Hord. pose proof Hs as [? ? ? ? ? ? Hl3 ? ? Hsort Hst].
  split; simpl; rewrite ?length_insert; try done.
  - constructor; [done|]. apply Forall_forall. intros [k v] Hin. simpl. by eapply Hord.
  - intros k v [[= -> ->]|Hin]%elem_of_cons.
    + split; [done|]. exists sn. rewrite list_lookup_insert_eq by lia. split; [done|lia].
    + destruct (Hst k v Hin) as (Hv & m & Hm & Hle). split; [done|].
      destruct (decide (Z.to_nat set = Z.to_nat v)) as [Heq|Hne].
      * exists sn. rewrite Heq, list_lookup_insert_eq by lia. split; [done|]. pose proof (Hord k v Hin). lia.
      * exists m. by rewrite list_lookup_insert_ne.
Qed.

Lemma insertStore_ok s PC sn : wfs s -> 0 <= PC -> (forall k v, (k, v) ∈ storeList s -> k < sn) ->
  exists s', insertStore s PC sn = Ok s' /\ wfs s' /\
    (memOpsPred s + 1 <= clearPeriod s -> forall set, in_set s (calcIndex s PC) set ->
       LFST s' !! Z.to_nat set = Some sn /\ validLFST s' !! Z.to_nat set = Some true /\
       (forall i x, in_set s i x -> in_set s' i x) /\ (forall PC, calcIndex s' PC = calcIndex s PC)).
Proof.
  intros Hs HPC Hord. unfold insertStore.
  destruct (checkClear_keeps s PC) as (Hidx & Hsz & Hlsz & Hsub).
  pose proof (calcIndex_range s Hs PC HPC) as Hi. pose proof (checkClear_wf s Hs) as Hs1.
  assert (Hsame : memOpsPred s + 1 <= clearPeriod s -> checkClear s = set_memOpsPred s (memOpsPred s + 1)).
  { intros Hle. unfold checkClear. simpl. by destruct (Z.ltb_spec (clearPeriod s) (memOpsPred s + 1)); [lia|]. }
  set (s1 := checkClear s) in *. rewrite Hsz.
  destruct (Z.ltb_spec (calcIndex s PC) (SSITSize s)); [|lia]. cbn [assert_ rbind].
  destruct (ssit_at s1 Hs1 (calcIndex s PC)) as (x & v & Hx & -> & Hxr & Lx & Lv); [by rewrite Hsz|].
  cbn [rbind]. destruct v; cbn [negb].
  2: { exists s1. do 2 (split; [done|]). intros Hle set [_ Hv]. rewrite (Hsame Hle) in Lv. simpl in Lv. congruence. }
  rewrite Hx. cbn [rbind]. destruct (Z.ltb_spec x (LFSTSize s1)); [|lia]. cbn [assert_ rbind].
  pose proof (s_len3 _ Hs1). pose proof (s_len4 _ Hs1). unfold put_. rewrite !upd_Ok by lia. cbn [rbind].
  simpl storeList. rewrite store_put_front by (intros k' v' Hin; eapply Hord, Hsub, Hin).
  eexists. split; [done|]. split; [apply fetch_wf; try done; intros k v Hin; eapply Hord, Hsub, Hin|].
  intros Hle set [Hset _]. rewrite (Hsame Hle) in *. simpl in *. assert (set = x) as -> by congruence.
  rewrite !list_lookup_insert_eq by lia. do 3 (split; [done|]). done.
Qed.

Lemma ss_checkInst_ok s PC : wfs s -> 0 <= PC ->
  exists r s', checkInst s PC = Ok (r, s') /\ wfs s' /\
    forall set, in_set s (calcIndex s PC) set ->
      pred_seqNum r = match LFST s !! Z.to_nat set, validLFST s !! Z.to_nat set with
                      | Some sn, Some true => sn
                      | _, _ => 0
                      end.
Proof.
  intros Hs HPC. unfold checkInst. pose proof (calcIndex_range s Hs PC HPC) as Hi.
  destruct (Z.ltb_spec (calcIndex s PC) (SSITSize s)); [|lia]. cbn [assert_ rbind].
  destruct (ssit_at s Hs _ Hi) as (x & v & Hx & -> & Hxr & Lx & Lv). cbn [rbind].
  destruct v; cbn [negb].
  2: { exists noPrediction, s. do 2 (split; [done|]). intros set [_ Hv]. congruence. }
  rewrite Hx. cbn [rbind]. destruct (Z.ltb_spec x (LFSTSize s)); [|lia]. cbn [assert_ rbind].
  simpl LFST. simpl validLFST.
  destruct (lfst_at s Hs x Hxr) as (sn & vl & Hsn & -> & Lsn & Lvl). cbn [rbind].
  destruct vl; cbn [negb].
  - rewrite Hsn. cbn [rbind]. eexists _, _. split; [done|]. split; [by apply count_LFST_wf|].
    intros set [Hset _]. assert (set = x) as -> by congruence. by rewrite Lsn, Lvl.
  - eexists _, _. split; [done|]. split; [by apply count_LFST_wf|].
    intros set [Hset _]. assert (set = x) as -> by congruence. by rewrite Lsn, Lvl.
Qed.

Lemma filter_stores_wf s n : wfs s -> wfs (set_storeList s (filter (fun p => p.1 <> n) (storeList s))).
Proof.
  intros []. split; simpl; try done.
  - by apply StronglySorted_filter.
  - intros k v [_ Hin]%list_elem_of_filter. auto.
Qed.

Lemma invalidate_wf s set : wfs s -> wfs (set_LFST s (LFST s) (<[Z.to_nat set := false]> (validLFST s))).
Proof. intros []. split; simpl; rewrite ?length_insert; done. Qed.

Lemma issued_ok s PC sn : wfs s -> 0 <= PC ->
  exists s', issued s PC sn true = Ok s' /\ wfs s' /\
    (forall i x, in_set s i x -> in_set s' i x) /\ (forall PC, calcIndex s' PC = calcIndex s PC) /\
    forall set, in_set s (calcIndex s PC) set -> LFST s !! Z.to_nat set = Some sn ->
      validLFST s' !! Z.to_nat set = Some false.
Proof.
  intros Hs HPC. unfold issued. cbn [negb]. pose proof (calcIndex_range s Hs PC HPC) as Hi.
  destruct (Z.ltb_spec (calcIndex s PC) (SSITSize s)); [|lia]. cbn [assert_ rbind].
  pose proof (filter_stores_wf s sn Hs) as Hs1. set (s1 := set_storeList _ _) in *.
  destruct (ssit_at s1 Hs1 (calcIndex s PC) Hi) as (x & v & Hx & -> & Hxr & Lx & Lv). cbn [rbind].
  simpl in Lx, Lv. destruct v; cbn [negb].
  2: { exists s1. do 4 (split; [done|]). intros set [_ Hv]. congruence. }
  rewrite Hx. cbn [rbind]. destruct (Z.ltb_spec x (LFSTSize s1)); [|lia]. cbn [assert_ rbind].
  destruct (lfst_at s1 Hs1 x Hxr) as (y & vl & -> & -> & Ly & Lvl). cbn [rbind]. simpl in Ly, Lvl.
  pose proof (s_len4 _ Hs1) as Hl4. simpl in Hl4, Hxr. unfold put_.
  destruct vl, (Z.eqb_spec y sn); cbn [andb].
  - rewrite upd_Ok by (simpl; lia). cbn [rbind]. eexists. split; [done|].
    split; [by apply count_LFST_wf, invalidate_wf|]. do 2 (split; [done|]).
    intros set [Hset _] _. assert (set = x) as -> by congruence. simpl. by rewrite list_lookup_insert_eq by lia.
  - exists s1. do 4 (split; [done|]). intros set [Hset _] HL. assert (set = x) as -> by congruence. congruence.
  - exists s1. do 4 (split; [done|]). intros set [Hset _] HL. by assert (set = x) as -> by congruence.
  - exists s1. do 4 (split; [done|]). intros set [Hset _] HL. by assert (set = x) as -> by congruence.
Qed.

Lemma pop_store_wf s p l : wfs s -> storeList s = p :: l -> wfs (set_storeList s l).
Proof.
  intros [] Hl. rewrite Hl in *. split; simpl; try done.
  - by apply StronglySorted_inv in s_sorted0 as [? _].
  - intros k v Hin. apply s_stores0. by right.
Qed.

Lemma ss_squash_loop_ok n fuel : forall s, wfs s -> (length (storeList s) < fuel)%nat ->
  exists s', squash_loop fuel s n = Ok s' /\ wfs s' /\
    storeList s' = filter (fun p => p.1 <= n) (storeList s) /\
    (forall v, validLFST s !! v = Some false -> validLFST s' !! v = Some false) /\
    (forall k v, (k, v) ∈ storeList s -> n < k -> validLFST s' !! Z.to_nat v = Some false).
Proof.
  induction fuel as [|fuel IH]; intros s Hs Hf; [lia|]. cbn [squash_loop].
  destruct (storeList s) as [|[k idx] l] eqn:Hl.
  { exists s. do 2 (split; [done|]). split; [by rewrite Hl|]. split; [done|]. by intros k v ?%not_elem_of_nil. }
  destruct (s_stores _ Hs k idx) as (Hidx & sn & Hsn & Hle); [rewrite Hl; by left|].
  destruct (Z.leb_spec k n) as [Hkn|Hkn].
  { exists s. pose proof (s_sorted _ Hs) as Hsort. rewrite Hl in Hsort.
    apply StronglySorted_inv in Hsort as [_ HF]. rewrite Forall_forall in HF.
    assert (Hall : forall p, p ∈ (k, idx) :: l -> p.1 <= n).
    { intros p [->|Hp]%elem_of_cons; [done|]. specialize (HF p Hp). simpl in HF. lia. }
    do 2 (split; [done|]). split; [by rewrite Hl, list_filter_all|]. split; [done|].
    intros k' v Hin Hgt. specialize (Hall _ Hin). simpl in Hall. lia. }
  destruct (lfst_at s Hs idx Hidx) as (x & vl & -> & -> & Lx & Lvl). assert (x = sn) as -> by congruence.
  cbn [rbind]. destruct (Z.ltb_spec n sn); [|lia]. pose proof (s_len4 _ Hs) as Hl4.
  assert (Hfil : filter (fun p : Z * Z => p.1 <= n) ((k, idx) :: l) = filter (fun p => p.1 <= n) l)
    by (apply filter_cons_False; simpl; lia).
  simpl in Hf. destruct vl; cbn [andb negb].
  - unfold put_. rewrite upd_Ok by lia. cbn [rbind].
    destruct (IH (set_storeList (set_LFST s (LFST s) (<[Z.to_nat idx := false]> (validLFST s))) l))
      as (s' & Hr & Hs' & Hsl & Hkeep & Hinv); [|simpl; lia|].
    { eapply pop_store_wf; [by apply invalidate_wf|exact Hl]. }
    exists s'. do 2 (split; [done|]). split; [by rewrite Hfil|]. simpl in *.
    split; [|intros k' v [[= -> ->]|Hin]%elem_of_cons Hgt; [|by eapply Hinv]].
    + intros v Hv. apply Hkeep. destruct (decide (Z.to_nat idx = v)) as [<-|];
        [by rewrite list_lookup_insert_eq by lia|by rewrite list_lookup_insert_ne].
    + apply Hkeep. by rewrite list_lookup_insert_eq by lia.
  - destruct (IH (set_storeList s l)) as (s' & Hr & Hs' & Hsl & Hkeep & Hinv);
      [by eapply pop_store_wf|simpl; lia|].
    exists s'. do 2 (split; [done|]). split; [by rewrite Hfil|]. simpl in *.
    split; [done|]. intros k' v [[= -> ->]|Hin]%elem_of_cons Hgt; [auto|by eapply Hinv].
Qed.

(** Store sets learn a dependence.  After a violation between a load and a
    store, fetching the store makes the predictor name exactly that store for the
    load, as long as the periodic clearing does not intervene; once the store
    has issued, the load is free again.  No table is accessed out of range. *)
Theorem storeset_learns s l st sn : wfs s -> 0 <= l -> 0 <= st ->
  (forall k v, (k, v) ∈ storeList s -> k < sn) -> memOpsPred s + 1 <= clearPeriod s ->
  exists s1 s2 s3 s4 r, violation s l st = Ok s1 /\ insertStore s1 st sn = Ok s2 /\
    checkInst s2 l = Ok (r, s3) /\ pred_seqNum r = sn /\
    issued s2 st sn true = Ok s4 /\ wfs s4 /\
    exists r' s5, checkInst s4 l = Ok (r', s5) /\ pred_seqNum r' = 0.
Proof.
  intros Hs Hl Hst Hord Hclr.
  destruct (ss_violation_ok s l st Hs Hl Hst)
    as (s1 & set & Hv & Hs1 & Hset & Hil & Hist & Hci & Hmo & Hcp & Hsl & _ & _).
  destruct (insertStore_ok s1 st sn Hs1 Hst) as (s2 & Hi & Hs2 & Hpost); [by rewrite Hsl|].
  destruct (Hpost ltac:(rewrite Hmo, Hcp; done) set) as (HL & HV & Hkeep & Hci2); [by rewrite Hci|].
  destruct (ss_checkInst_ok s2 l Hs2 Hl) as (r & s3 & Hc & _ & Hr).
  destruct (issued_ok s2 st sn Hs2 Hst) as (s4 & Hiss & Hs4 & Hkeep4 & Hci4 & Hinv).
  destruct (ss_checkInst_ok s4 l Hs4 Hl) as (r' & s5 & Hc' & _ & Hr').
  exists s1, s2, s3, s4, r. do 3 (split; [done|]). split.
  { rewrite (Hr set); [by rewrite HL, HV|]. rewrite Hci2, Hci. auto. }
  do 2 (split; [done|]). exists r', s5. split; [done|]. rewrite (Hr' set).
  - rewrite (Hinv set); [by destruct (LFST s4 !! Z.to_nat set)| |done]. rewrite Hci2, Hci. auto.
  - rewrite Hci4, Hci2, Hci. auto.
Qed.

Definition demo_sets : StoreSet :=
  mkStoreSet (replicate 4 0) (replicate 4 false) (replicate 4 0) (replicate 4 false) ∅ [] 100 4 4 3 2 0 0 0.

Lemma demo_sets_new : StoreSet_new 100 4 4 = Ok demo_sets.
Proof. reflexivity. Qed.

Lemma demo_sets_wf : wfs demo_sets.
Proof.
  split; simpl; try lia.
  - repeat constructor; lia.
  - constructor.
  - intros k v Hin. by apply not_elem_of_nil in Hin.
Qed.

Lemma storeset_learns_witness :
  exists s1 s2 s3 r, violation demo_sets 0x400 0x404 = Ok s1 /\ insertStore s1 0x404 7 = Ok s2 /\
    checkInst s2 0x400 = Ok (r, s3) /\ pred_seqNum r = 7.
Proof.
  destruct (storeset_learns demo_sets 0x400 0x404 7) as (s1 & s2 & s3 & s4 & r & ? & ? & ? & ? & _);
    [apply demo_sets_wf | lia | lia | intros k v Hin; by apply not_elem_of_nil in Hin | simpl; lia |].
  exists s1, s2, s3, r. split; [assumption|]. split; [assumption|]. split; assumption.
Defined.

(** Squashing terminates.  When stores were fetched in program order, the loop
    of [squash] ends after at most one iteration per store; it removes exactly
    the stores younger than the given number and invalidates their entries of
    the last fetched store table. *)
Theorem storeset_squash s n : wfs s ->
  exists s', squash s n = Ok s' /\ wfs s' /\
    storeList s' = filter (fun p => p.1 <= n) (storeList s) /\
    (forall k v, (k, v) ∈ storeList s -> n < k -> validLFST s' !! Z.to_nat v = Some false).
Proof.
  intros Hs. destruct (ss_squash_loop_ok n (S (length (storeList s))) s Hs) as (s' & ? & ? & ? & _ & ?); [lia|].
  by exists s'.
Qed.

Lemma storeset_squash_witness : exists s', squash demo_sets 3 = Ok s' /\ wfs s'.
Proof.
  destruct (storeset_squash demo_sets 3) as (s' & ? & ? & _); [apply demo_sets_wf|].
  exists s'. split; assumption.
Defined.

(** Without program order the loop does not terminate: a store fetched after a
    younger one of the same set leaves a number in the table that is not
    younger than the squash, and no branch of the loop erases the element. *)
Lemma squash_needs_program_order :
  exists s1 s2 s3, violation demo_sets 0x400 0x404 = Ok s1 /\ insertStore s1 0x404 5 = Ok s2 /\
    insertStore s2 0x404 3 = Ok s3 /\ forall fuel, squash_loop fuel s3 4 = Err OutOfFuel.
Proof.
  eexists _, _, _. do 3 (split; [vm_compute; reflexivity|]). intros fuel.
  induction fuel as [|fuel IH]; [reflexivity|]. exact IH.
Qed.
