(* ===== verification/MemDepUnit.v ===== *)
(** * The memory dependence unit of the O3 model

    [cpu/o3/mem_dep_unit.hh] and [cpu/o3/mem_dep_unit.cc].  The unit keeps one
    [MemDepEntry] per memory instruction in flight, shared between the hash map
    and the [dependInsts] vectors of the entries it waits for; the model keeps
    the shared entries in a heap.  The predictor is the model of [Phast].  What
    the instruction queue and the load/store queue contribute appears as
    arguments: the index of the oldest store and the instruction found in each
    slot of the store queue.  Instructions handed to
    [InstructionQueue::addReadyMemInst] are logged in [ready]. *)

From stdpp Require Import base tactics option list numbers gmap sorting.
From Stdlib Require Import ZArith Lia Bool.
From S2P Require Import Prelude Phast.
Open Scope Z_scope.

(** ** State *)

Record DynInst := mkInst {
  sn : Z;                  (* seqNum *)
  threadNumber : Z;
  instAddr : Z;            (* pcState().instAddr() *)
  isLoad : bool;
  isStore : bool;
  isAtomic : bool;
  isReadBarrier : bool;
  isWriteBarrier : bool;
  isHtmCmd : bool;
  readyToIssue : bool;
  sqIdx : Z;               (* sqIt.idx() *)
  effAddr : Z;
  effSize : Z
}.

#[export] Instance DynInst_eq_dec : EqDecision DynInst.
Proof. solve_decision. Defined.

(** The part of [DynInst::memDepInfo] the unit reads and writes.
    [predStoreAddr] and [predStoreSize] have no initial value in the source. *)
Record MemDepInfo := mkInfo {
  predStore : option (Z * Z);
  info_predBranchHistLength : nat;
  info_predictorHash : Z;
  predicted : bool
}.

Definition noInfo : MemDepInfo := mkInfo None 0 0 false.

Record MemDepEntry := mkMemDepEntry {
  inst : DynInst;
  dependInsts : list positive;
  regsReady : bool;
  memDeps : Z;
  squashed : bool
}.

Record MemDepUnit := mkMemDepUnit {
  unit_id : Z;             (* id *)
  entries : gmap positive MemDepEntry;
  memDepHash : gmap Z positive;
  instList : gmap Z (list DynInst);
  instsToReplay : list DynInst;
  depPred : PHAST;
  loadBarrierSNs : gset Z;
  storeBarrierSNs : gset Z;
  infos : gmap Z MemDepInfo;        (* inst->memDepInfo *)
  cannotIssue : gset Z;             (* clearCanIssue() *)
  ready : list Z;                   (* iqPtr->addReadyMemInst *)
  insertedLoads : Z;
  insertedStores : Z;
  conflictingLoads : Z;
  conflictingStores : Z
}.

Section Setters.
Context (m : MemDepUnit).
Definition set_entries x := mkMemDepUnit (unit_id m) x (memDepHash m) (instList m) (instsToReplay m) (depPred m)
  (loadBarrierSNs m) (storeBarrierSNs m) (infos m) (cannotIssue m) (ready m)
  (insertedLoads m) (insertedStores m) (conflictingLoads m) (conflictingStores m).
Definition set_hash x := mkMemDepUnit (unit_id m) (entries m) x (instList m) (instsToReplay m) (depPred m)
  (loadBarrierSNs m) (storeBarrierSNs m) (infos m) (cannotIssue m) (ready m)
  (insertedLoads m) (insertedStores m) (conflictingLoads m) (conflictingStores m).
Definition set_instList x := mkMemDepUnit (unit_id m) (entries m) (memDepHash m) x (instsToReplay m) (depPred m)
  (loadBarrierSNs m) (storeBarrierSNs m) (infos m) (cannotIssue m) (ready m)
  (insertedLoads m) (insertedStores m) (conflictingLoads m) (conflictingStores m).
Definition set_replay x := mkMemDepUnit (unit_id m) (entries m) (memDepHash m) (instList m) x (depPred m)
  (loadBarrierSNs m) (storeBarrierSNs m) (infos m) (cannotIssue m) (ready m)
  (insertedLoads m) (insertedStores m) (conflictingLoads m) (conflictingStores m).
Definition set_depPred x := mkMemDepUnit (unit_id m) (entries m) (memDepHash m) (instList m) (instsToReplay m) x
  (loadBarrierSNs m) (storeBarrierSNs m) (infos m) (cannotIssue m) (ready m)
  (insertedLoads m) (insertedStores m) (conflictingLoads m) (conflictingStores m).
Definition set_barriers l s := mkMemDepUnit (unit_id m) (entries m) (memDepHash m) (instList m) (instsToReplay m)
  (depPred m) l s (infos m) (cannotIssue m) (ready m)
  (insertedLoads m) (insertedStores m) (conflictingLoads m) (conflictingStores m).
Definition set_infos x := mkMemDepUnit (unit_id m) (entries m) (memDepHash m) (instList m) (instsToReplay m)
  (depPred m) (loadBarrierSNs m) (storeBarrierSNs m) x (cannotIssue m) (ready m)
  (insertedLoads m) (insertedStores m) (conflictingLoads m) (conflictingStores m).
Definition set_cannotIssue x := mkMemDepUnit (unit_id m) (entries m) (memDepHash m) (instList m) (instsToReplay m)
  (depPred m) (loadBarrierSNs m) (storeBarrierSNs m) (infos m) x (ready m)
  (insertedLoads m) (insertedStores m) (conflictingLoads m) (conflictingStores m).
Definition set_ready x := mkMemDepUnit (unit_id m) (entries m) (memDepHash m) (instList m) (instsToReplay m)
  (depPred m) (loadBarrierSNs m) (storeBarrierSNs m) (infos m) (cannotIssue m) x
  (insertedLoads m) (insertedStores m) (conflictingLoads m) (conflictingStores m).
Definition set_counts il ist cl cs := mkMemDepUnit (unit_id m) (entries m) (memDepHash m) (instList m)
  (instsToReplay m) (depPred m) (loadBarrierSNs m) (storeBarrierSNs m) (infos m) (cannotIssue m) (ready m)
  il ist cl cs.
End Setters.

Definition insts_of (m : MemDepUnit) (tid : Z) : list DynInst := default [] (instList m !! tid).
Definition info_of (m : MemDepUnit) (s : Z) : MemDepInfo := default noInfo (infos m !! s).

Definition upd_entry (m : MemDepUnit) (p : positive) (f : MemDepEntry -> MemDepEntry) : MemDepUnit :=
  set_entries m (alter f p (entries m)).

Definition set_regsReady (e : MemDepEntry) : MemDepEntry :=
  mkMemDepEntry (inst e) (dependInsts e) true (memDeps e) (squashed e).
Definition set_memDeps (n : Z) (e : MemDepEntry) : MemDepEntry :=
  mkMemDepEntry (inst e) (dependInsts e) (regsReady e) n (squashed e).
Definition set_squashed (e : MemDepEntry) : MemDepEntry :=
  mkMemDepEntry (inst e) (dependInsts e) (regsReady e) (memDeps e) true.
Definition set_dependInsts (l : list positive) (e : MemDepEntry) : MemDepEntry :=
  mkMemDepEntry (inst e) l (regsReady e) (memDeps e) (squashed e).
Definition push_dependInst (p : positive) (e : MemDepEntry) : MemDepEntry :=
  set_dependInsts (dependInsts e ++ [p]) e.

(** ** Operations *)

Definition isDrained (m : MemDepUnit) : bool :=
  bool_decide (instsToReplay m = []) && bool_decide (memDepHash m = ∅) &&
  bool_decide (map_Forall (fun _ l => l = []) (instList m)).

Definition drainSanityCheck (m : MemDepUnit) : res unit :=
  check! bool_decide (instsToReplay m = []);
  check! bool_decide (memDepHash m = ∅);
  check! bool_decide (map_Forall (fun _ l => l = []) (instList m));
  check! bool_decide (instsToReplay m = []);
  check! bool_decide (memDepHash m = ∅);
  Ok tt.

Definition clear_dep_pred (m : MemDepUnit) : MemDepUnit := set_depPred m (phast_clear (depPred m)).

Definition takeOverFrom (m : MemDepUnit) : MemDepUnit :=
  set_depPred (set_barriers m ∅ ∅) (phast_clear (depPred m)).

Definition findInHash (m : MemDepUnit) (i : DynInst) : res positive :=
  match memDepHash m !! sn i with Some p => Ok p | None => Err AssertFailed end.

Definition moveToReady (m : MemDepUnit) (p : positive) : res MemDepUnit :=
  let! e := deref (entries m !! p) in
  check! negb (squashed e);
  Ok (set_ready m (ready m ++ [sn (inst e)])).

Definition insertBarrierSN (m : MemDepUnit) (i : DynInst) : MemDepUnit :=
  set_barriers m
    (if isReadBarrier i || isHtmCmd i then {[sn i]} ∪ loadBarrierSNs m else loadBarrierSNs m)
    (if isWriteBarrier i || isHtmCmd i then {[sn i]} ∪ storeBarrierSNs m else storeBarrierSNs m).

(** A new entry in the heap, in the hash (an existing key is kept) and at the end
    of the list of its thread. *)
Definition new_entry (m : MemDepUnit) (i : DynInst) : positive * MemDepUnit :=
  let p := fresh (dom (entries m)) in
  let m := set_entries m (<[p := mkMemDepEntry i [] false 0 false]> (entries m)) in
  let m := match memDepHash m !! sn i with
           | Some _ => m
           | None => set_hash m (<[sn i := p]> (memDepHash m))
           end in
  (p, set_instList m (<[threadNumber i := insts_of m (threadNumber i) ++ [i]]> (instList m))).

Definition insertBarrier (m : MemDepUnit) (i : DynInst) : MemDepUnit :=
  insertBarrierSN (new_entry m i).2 i.

Definition count_inserted (m : MemDepUnit) (i : DynInst) : res MemDepUnit :=
  if isStore i || isAtomic i then
    Ok (set_counts m (insertedLoads m) (insertedStores m + 1) (conflictingLoads m) (conflictingStores m))
  else if isLoad i then
    Ok (set_counts m (insertedLoads m + 1) (insertedStores m) (conflictingLoads m) (conflictingStores m))
  else Err Panicked.

Definition insertNonSpec (m : MemDepUnit) (i : DynInst) : res MemDepUnit :=
  count_inserted (insertBarrier m i) i.

(** The dependence the predictor asks for, with the information it leaves in the
    instruction.  [storeHead] is [ldstQueue.getStoreHead(id)] and [sqStore] gives
    the sequence number of the instruction in a slot of the store queue. *)
Definition predicted_dep (m : MemDepUnit) (i : DynInst) (r : PredictionResult) (storeHead : Z)
    (sqStore : Z -> Z) : list positive * MemDepUnit :=
  if negb (storeQueueDistance r =? 0) && (storeHead + storeQueueDistance r <=? sqIdx i) then
    match memDepHash m !! sqStore (sqIdx i - storeQueueDistance r) with
    | Some p =>
        ([p], set_infos m (<[sn i := mkInfo (predStore (info_of m (sn i))) (predBranchHistLength r)
                                      (predictorHash r) true]> (infos m)))
    | None => ([], m)
    end
  else if negb (pred_seqNum r =? 0) then
    match memDepHash m !! pred_seqNum r with
    | Some p =>
        let x := info_of m (sn i) in
        ([p], set_infos m (<[sn i := mkInfo (predStore x) (info_predBranchHistLength x)
                                      (info_predictorHash x) true]> (infos m)))
    | None => ([], m)
    end
  else ([], m).

(** The entries of the barriers in flight; the order of the set is immaterial. *)
Definition barrier_deps (m : MemDepUnit) (sns : gset Z) : list positive :=
  omap (fun s => memDepHash m !! s) (elements sns).

(** The barriers in flight that [i] may not overtake. *)
Definition inflight_barriers (m : MemDepUnit) (i : DynInst) : list positive :=
  (if isLoad i || isAtomic i then barrier_deps m (loadBarrierSNs m) else []) ++
  (if isStore i || isAtomic i then barrier_deps m (storeBarrierSNs m) else []).

(** The part of [insert] after the dependences are collected. *)
Definition enqueue (m : MemDepUnit) (i : DynInst) (p : positive) (dependencies : list positive) : res MemDepUnit :=
  match dependencies with
  | [] => if readyToIssue i then moveToReady (upd_entry m p set_regsReady) p else Ok m
  | _ =>
      let m := upd_entry m p (set_memDeps (Z.of_nat (length dependencies))) in
      let m := foldl (fun m d => upd_entry m d (push_dependInst p)) m dependencies in
      let m := if readyToIssue i then upd_entry m p set_regsReady else m in
      let m := set_cannotIssue m ({[sn i]} ∪ cannotIssue m) in
      Ok (if isLoad i
          then set_counts m (insertedLoads m) (insertedStores m) (conflictingLoads m + 1) (conflictingStores m)
          else set_counts m (insertedLoads m) (insertedStores m) (conflictingLoads m) (conflictingStores m + 1))
  end.

Definition insert (m : MemDepUnit) (i : DynInst) (hist : list branchInfo) (storeHead : Z)
    (sqStore : Z -> Z) : res MemDepUnit :=
  let '(p, m) := new_entry m i in
  let! (r, dp) := checkInst (depPred m) (instAddr i) (sn i) hist (isLoad i) in
  let m := set_depPred m dp in
  let '(d1, m) := predicted_dep m i r storeHead sqStore in
  let dependencies := d1 ++ inflight_barriers m i in
  let! m := enqueue m i p dependencies in
  count_inserted (insertBarrierSN m i) i.

Definition regsReady_ (m : MemDepUnit) (i : DynInst) : res MemDepUnit :=
  let! p := findInHash m i in
  let m := upd_entry m p set_regsReady in
  let! e := deref (entries m !! p) in
  if memDeps e =? 0 then moveToReady m p else Ok m.

Definition nonSpecInstReady (m : MemDepUnit) (i : DynInst) : res MemDepUnit :=
  let! p := findInHash m i in moveToReady m p.

Definition reschedule (m : MemDepUnit) (i : DynInst) : MemDepUnit :=
  set_replay m (instsToReplay m ++ [i]).

Fixpoint replay_loop (l : list DynInst) (m : MemDepUnit) : res MemDepUnit :=
  match l with
  | [] => Ok m
  | i :: l =>
      let! p := findInHash m i in
      let! m := moveToReady m p in
      replay_loop l (set_replay m l)
  end.

Definition replay (m : MemDepUnit) : res MemDepUnit := replay_loop (instsToReplay m) m.

(** [listIt] points to the instruction of the entry in its list. *)
Definition completed (m : MemDepUnit) (i : DynInst) : res MemDepUnit :=
  match memDepHash m !! sn i with
  | None => Err AssertFailed
  | Some p =>
      let! e := deref (entries m !! p) in
      let m := set_instList m (<[threadNumber i :=
                 filter (fun j => sn j <> sn (inst e)) (insts_of m (threadNumber i))]> (instList m)) in
      Ok (set_hash m (delete (sn i) (memDepHash m)))
  end.

(** The release of one dependence of [d], woken up by [i]. *)
Definition wake_one (i : DynInst) (m : MemDepUnit) (d : positive) : res MemDepUnit :=
  let m := upd_entry m d (fun e => set_memDeps (memDeps e - 1) e) in
  let! e := deref (entries m !! d) in
  if memDeps e =? 0 then
    let x := info_of m (sn (inst e)) in
    let m := if predicted x && isStore i
             then set_infos m (<[sn (inst e) := mkInfo (Some (effAddr i, effSize i))
                     (info_predBranchHistLength x) (info_predictorHash x) (predicted x)]> (infos m))
             else m in
    if regsReady e && negb (squashed e) then moveToReady m d else Ok m
  else Ok m.

Fixpoint wake_loop (i : DynInst) (l : list positive) (m : MemDepUnit) : res MemDepUnit :=
  match l with
  | [] => Ok m
  | d :: l => let! m := wake_one i m d in wake_loop i l m
  end.

Definition has_dependents (i : DynInst) : bool :=
  isStore i || isAtomic i || isReadBarrier i || isWriteBarrier i || isHtmCmd i.

Definition wakeDependents (m : MemDepUnit) (i : DynInst) : res MemDepUnit :=
  if negb (has_dependents i) then Ok m else
  let! p := findInHash m i in
  let! e := deref (entries m !! p) in
  let! m := wake_loop i (dependInsts e) m in
  Ok (upd_entry m p (set_dependInsts [])).

Definition completeInst (m : MemDepUnit) (i : DynInst) : res MemDepUnit :=
  let! m := wakeDependents m i in
  let! m := completed m i in
  let! m := if isWriteBarrier i || isHtmCmd i then
              check! negb (bool_decide (storeBarrierSNs m = ∅));
              Ok (set_barriers m (loadBarrierSNs m) (storeBarrierSNs m ∖ {[sn i]}))
            else Ok m in
  if isReadBarrier i || isHtmCmd i then
    check! negb (bool_decide (loadBarrierSNs m = ∅));
    Ok (set_barriers m (loadBarrierSNs m ∖ {[sn i]}) (storeBarrierSNs m))
  else Ok m.

(** One instruction of the loop of [squash], from the end of the list. *)
Definition squash_one (m : MemDepUnit) (i : DynInst) : res MemDepUnit :=
  let m := set_barriers m (loadBarrierSNs m ∖ {[sn i]}) (storeBarrierSNs m ∖ {[sn i]}) in
  match memDepHash m !! sn i with
  | None => Err AssertFailed
  | Some p => Ok (set_hash (upd_entry m p set_squashed) (delete (sn i) (memDepHash m)))
  end.

(** [l] is the rest of the list of the thread, youngest first. *)
Fixpoint squash_loop (squashed_num tid : Z) (l : list DynInst) (m : MemDepUnit) : res MemDepUnit :=
  match l with
  | [] => Ok m
  | i :: l =>
      if squashed_num <? sn i then
        let! m := squash_one m i in
        squash_loop squashed_num tid l (set_instList m (<[tid := reverse l]> (instList m)))
      else Ok m
  end.

Definition squash (m : MemDepUnit) (squashed_num tid : Z) : res MemDepUnit :=
  let m := set_replay m (filter (fun i => ~ (threadNumber i = tid /\ squashed_num < sn i)) (instsToReplay m)) in
  squash_loop squashed_num tid (reverse (insts_of m tid)) m.

Definition violation (m : MemDepUnit) (store_seq_num dist : Z) (i : DynInst) (hist : list branchInfo)
  : res MemDepUnit :=
  let x := info_of m (sn i) in
  let! dp := Phast.violation (depPred m) (instAddr i) store_seq_num dist (predicted x)
               (info_predBranchHistLength x) (info_predictorHash x) hist in
  Ok (set_depPred m dp).

(** The predictor does nothing in [issued]. *)
Definition issue (m : MemDepUnit) (i : DynInst) : MemDepUnit := m.

(** Reading [predStoreAddr] before it was written is a fault. *)
Definition commit (m : MemDepUnit) (i : DynInst) : res MemDepUnit :=
  if isStore i then Ok m else
  let x := info_of m (sn i) in
  let! (addr, size) := deref (predStore x) in
  let! dp := Phast.commit (depPred m) (instAddr i) (effAddr i) (effSize i) addr size
               (info_predBranchHistLength x) (info_predictorHash x) in
  Ok (set_depPred m dp).

(** ** The dependence graph

    The entries, the hash and the list of the instructions in flight form a
    graph: [p ∈ dependInsts q] when [p] waits for [q].  [waits] counts the edges
    into [p] from the entries in flight.  The counter [memDeps] of an entry is
    that number; in the middle of an operation it differs by a debt [D]. *)

Definition cnt (p : positive) (l : list positive) : nat := count_occ Pos.eq_dec l p.

Definition is_mem (i : DynInst) : bool := isLoad i || isStore i || isAtomic i.

(** Only memory instructions wait, and for older ones. *)
Definition waiter (s : Z) (i : DynInst) : Prop := s < sn i /\ is_mem i = true.

(** An instruction changes while it is in flight, but not in these fields. *)
Definition same_inst (i j : DynInst) : Prop :=
  sn i = sn j /\ threadNumber i = threadNumber j /\ isLoad i = isLoad j /\ isStore i = isStore j /\
  isAtomic i = isAtomic j /\ isReadBarrier i = isReadBarrier j /\ isWriteBarrier i = isWriteBarrier j /\
  isHtmCmd i = isHtmCmd j.

#[export] Instance same_inst_equiv : Equivalence same_inst.
Proof. split; unfold same_inst; [done|intros ??; intuition congruence|intros ???; intuition congruence]. Qed.

Section Graph.
Implicit Types (h : gmap positive MemDepEntry) (hs : gmap Z positive) (L : list DynInst) (D : positive -> Z).

Definition deps_of h hs (s : Z) : list positive :=
  match hs !! s ≫= (h !!.) with Some e => dependInsts e | None => [] end.

Definition waits h hs L (p : positive) : Z :=
  foldr Z.add 0 (map (fun i => Z.of_nat (cnt p (deps_of h hs (sn i)))) L).

Record wfd D h hs L : Prop := {
  d_sorted : StronglySorted (fun i j => sn i < sn j) L;
  d_live : forall s p, hs !! s = Some p ->
    exists e, h !! p = Some e /\ sn (inst e) = s /\ squashed e = false /\ inst e ∈ L;
  d_all : forall i, i ∈ L -> exists p e, hs !! sn i = Some p /\ h !! p = Some e /\ inst e = i;
  d_count : forall s p e, hs !! s = Some p -> h !! p = Some e -> memDeps e = waits h hs L p + D p;
  d_dep : forall s q eq p, hs !! s = Some q -> h !! q = Some eq -> p ∈ dependInsts eq ->
    has_dependents (inst eq) = true /\
    exists e, h !! p = Some e /\ waiter s (inst e) /\ (squashed e = true \/ hs !! sn (inst e) = Some p)
}.

Lemma wfd_ext D D' h hs L : (forall p, D p = D' p) -> wfd D h hs L -> wfd D' h hs L.
Proof. intros HD [? ? ? Hc ?]. split; try done. intros s p e Hs He. rewrite <- HD. by eapply Hc. Qed.

Lemma deps_of_alter h hs f p s : (forall e, dependInsts (f e) = dependInsts e) ->
  deps_of (alter f p h) hs s = deps_of h hs s.
Proof.
  intros Hf. unfold deps_of. destruct (hs !! s) as [q|]; [|done]. simpl.
  destruct (decide (p = q)) as [->|Hne]; [rewrite lookup_alter_eq|by rewrite lookup_alter_ne].
  destruct (h !! q); [|done]. simpl. apply Hf.
Qed.

Lemma waits_alter h hs f p L x : (forall e, dependInsts (f e) = dependInsts e) ->
  waits (alter f p h) hs L x = waits h hs L x.
Proof.
  intros Hf. unfold waits. f_equal. apply List.map_ext. intros i. by rewrite deps_of_alter.
Qed.

(** Updates that leave the graph alone. *)
Lemma wfd_alter D h hs L f p n :
  (forall e, inst (f e) = inst e /\ dependInsts (f e) = dependInsts e /\ squashed (f e) = squashed e) ->
  (forall e, h !! p = Some e -> memDeps (f e) = memDeps e + n) ->
  wfd D h hs L -> wfd (fun x => D x + if decide (x = p) then n else 0) (alter f p h) hs L.
Proof.
  intros Hf Hn [H1 H2 H3 H4 H5].
  assert (Hlk : forall x e, h !! x = Some e ->
            exists e', alter f p h !! x = Some e' /\ inst e' = inst e /\ dependInsts e' = dependInsts e /\
              squashed e' = squashed e /\ memDeps e' = memDeps e + if decide (x = p) then n else 0).
  { intros x e He. destruct (decide (x = p)) as [->|Hne].
    - exists (f e). rewrite lookup_alter_eq, He. destruct (Hf e) as (-> & -> & ->).
      rewrite (Hn e) by done. done.
    - exists e. rewrite lookup_alter_ne by done. do 4 (split; [done|]). lia. }
  assert (Hlk' : forall x e', alter f p h !! x = Some e' -> exists e, h !! x = Some e).
  { intros x e'. rewrite lookup_alter_Some. naive_solver. }
  split; [done|..].
  - intros s x Hs. destruct (H2 s x Hs) as (e & He & ? & ? & ?).
    destruct (Hlk x e He) as (e' & ? & Hi & _ & Hq & _). exists e'. rewrite Hi, Hq. done.
  - intros i Hi. destruct (H3 i Hi) as (x & e & Hs & He & ?).
    destruct (Hlk x e He) as (e' & ? & Hi' & _). exists x, e'. rewrite Hi'. done.
  - intros s x e' Hs He'. destruct (Hlk' x e' He') as (e & He).
    destruct (Hlk x e He) as (e2 & ? & _ & _ & _ & Hm). simplify_eq.
    rewrite Hm, waits_alter by (intros; apply Hf). rewrite (H4 s x e) by done. lia.
  - intros s q eq' x Hs Hq Hx. destruct (Hlk' q eq' Hq) as (eq & Heq).
    destruct (Hlk q eq Heq) as (e2 & ? & Hi & Hd & _). simplify_eq. rewrite Hi.
    rewrite Hd in Hx. destruct (H5 s q eq x Hs Heq Hx) as (? & ex & Hex & ? & ?).
    split; [done|]. destruct (Hlk x ex Hex) as (ex' & ? & Hi' & _ & Hq' & _).
    exists ex'. rewrite Hi', Hq'. done.
Qed.

Lemma wfd_inj D h hs L s s' p : wfd D h hs L -> hs !! s = Some p -> hs !! s' = Some p -> s = s'.
Proof.
  intros Hw H1 H2. destruct (d_live _ _ _ _ Hw s p H1) as (e & ? & <- & _).
  destruct (d_live _ _ _ _ Hw s' p H2) as (e' & ? & <- & _). by simplify_eq.
Qed.

Lemma foldr_add_app (l1 l2 : list Z) : foldr Z.add 0 (l1 ++ l2) = foldr Z.add 0 l1 + foldr Z.add 0 l2.
Proof. induction l1 as [|x l1 IH]; simpl; [done|lia]. Qed.

Lemma waits_app h hs L1 L2 p : waits h hs (L1 ++ L2) p = waits h hs L1 p + waits h hs L2 p.
Proof. unfold waits. rewrite List.map_app. apply foldr_add_app. Qed.

Lemma waits_cons h hs i L p : waits h hs (i :: L) p = Z.of_nat (cnt p (deps_of h hs (sn i))) + waits h hs L p.
Proof. done. Qed.

Lemma waits_nonneg h hs L p : 0 <= waits h hs L p.
Proof. induction L as [|i L IH]; [done|]. rewrite waits_cons. lia. Qed.

(** Two heaps and hashes that agree on the edges out of [L]. *)
Lemma waits_ext h hs h' hs' L p :
  (forall i, i ∈ L -> cnt p (deps_of h' hs' (sn i)) = cnt p (deps_of h hs (sn i))) ->
  waits h' hs' L p = waits h hs L p.
Proof.
  induction L as [|i L IH]; intros H; [done|]. rewrite !waits_cons, (H i), IH; [done|..|by left].
  intros j Hj. apply H. by right.
Qed.

Lemma waits_zero h hs L p : (forall i, i ∈ L -> p ∉ deps_of h hs (sn i)) -> waits h hs L p = 0.
Proof.
  induction L as [|i L IH]; intros H; [done|]. rewrite waits_cons, IH by (intros; apply H; by right).
  unfold cnt. assert (Hn : p ∉ deps_of h hs (sn i)) by (apply H; by left).
  rewrite list_elem_of_In in Hn. apply (count_occ_not_In Pos.eq_dec) in Hn. rewrite Hn. done.
Qed.

Lemma waits_pos h hs L p i : i ∈ L -> p ∈ deps_of h hs (sn i) -> 0 < waits h hs L p.
Proof.
  intros Hi Hp. induction L as [|j L IH]; [by apply not_elem_of_nil in Hi|]. rewrite waits_cons.
  apply elem_of_cons in Hi as [->|Hi].
  - apply list_elem_of_In, (count_occ_In Pos.eq_dec) in Hp. unfold cnt. pose proof (waits_nonneg h hs L p). lia.
  - specialize (IH Hi). lia.
Qed.

Lemma sorted_unique L i j : StronglySorted (fun i j => sn i < sn j) L -> i ∈ L -> j ∈ L ->
  sn i = sn j -> i = j.
Proof.
  induction 1 as [|k L Hs IH HF]; intros Hi Hj Heq; [by apply not_elem_of_nil in Hi|].
  rewrite Forall_forall in HF.
  apply elem_of_cons in Hi. apply elem_of_cons in Hj. destruct Hi as [->|Hi], Hj as [->|Hj]; try done.
  - specialize (HF _ Hj). lia.
  - specialize (HF _ Hi). lia.
  - auto.
Qed.

(** A new entry, younger than all the others. *)
Lemma wfd_new D h hs L p i :
  wfd D h hs L -> h !! p = None -> (forall j, j ∈ L -> sn j < sn i) -> D p = 0 ->
  wfd D (<[p := mkMemDepEntry i [] false 0 false]> h) (<[sn i := p]> hs) (L ++ [i]) /\
  hs !! sn i = None.
Proof.
  intros [H1 H2 H3 H4 H5] Hp Hy HDp. set (h' := <[p := _]> h). set (hs' := <[sn i := p]> hs).
  assert (Hnone : hs !! sn i = None).
  { destruct (hs !! sn i) as [q|] eqn:E; [|done]. destruct (H2 _ _ E) as (e & _ & Hsn & _ & HL).
    specialize (Hy _ HL). lia. }
  assert (Hpne : forall s q, hs !! s = Some q -> q <> p).
  { intros s q Hs ->. destruct (H2 _ _ Hs) as (e & He & _). congruence. }
  assert (Hold : forall s q, s <> sn i -> hs' !! s = Some q -> hs !! s = Some q /\ h' !! q = h !! q).
  { intros s q Hne. unfold hs'. rewrite lookup_insert_ne by done. intros Hs. split; [done|].
    unfold h'. rewrite lookup_insert_ne; [done|]. intros <-. by eapply Hpne. }
  assert (Hdeps : forall s, s <> sn i -> deps_of h' hs' s = deps_of h hs s).
  { intros s Hne. unfold deps_of. unfold hs' at 1. rewrite lookup_insert_ne by done.
    destruct (hs !! s) as [q|] eqn:E; [|done]. simpl. unfold h'. rewrite lookup_insert_ne; [done|].
    intros <-. by eapply Hpne. }
  assert (Hdi : deps_of h' hs' (sn i) = []).
  { unfold deps_of, hs', h'. rewrite lookup_insert_eq. simpl. by rewrite lookup_insert_eq. }
  assert (Hw : forall x, waits h' hs' (L ++ [i]) x = waits h hs L x).
  { intros x. rewrite waits_app, waits_cons, Hdi. simpl. rewrite Z.add_0_r.
    apply waits_ext. intros j Hj. specialize (Hy j Hj). rewrite Hdeps by lia. done. }
  split; [|done]. split.
  - apply StronglySorted_app_all; [done|repeat constructor|].
    intros j k Hj ->%list_elem_of_singleton. auto.
  - intros s q Hs. destruct (decide (s = sn i)) as [->|Hne].
    + unfold hs' in Hs. rewrite lookup_insert_eq in Hs. injection Hs as <-. unfold h'.
      rewrite lookup_insert_eq. eexists. do 3 (split; [done|]). apply elem_of_app. right. by left.
    + destruct (Hold s q Hne Hs) as [Hs' ->]. destruct (H2 s q Hs') as (e & ? & ? & ? & ?).
      exists e. do 3 (split; [done|]). apply elem_of_app. by left.
  - intros j [Hj| ->%list_elem_of_singleton]%elem_of_app.
    + destruct (H3 j Hj) as (q & e & Hs & He & ?). pose proof (Hy j Hj). exists q, e.
      unfold hs', h'. rewrite lookup_insert_ne by lia. rewrite lookup_insert_ne; [done|]. by eapply not_eq_sym, Hpne.
    + exists p. eexists. unfold hs', h'. rewrite !lookup_insert_eq. done.
  - intros s q e Hs He. rewrite Hw. destruct (decide (s = sn i)) as [->|Hne].
    + unfold hs' in Hs. rewrite lookup_insert_eq in Hs. injection Hs as <-.
      unfold h' in He. rewrite lookup_insert_eq in He. injection He as <-. simpl. rewrite HDp.
      rewrite waits_zero; [done|]. intros j Hj Hin. unfold deps_of in Hin.
      destruct (H3 j Hj) as (q & e & Hs & He & _). rewrite Hs in Hin. simpl in Hin. rewrite He in Hin.
      destruct (H5 _ _ _ _ Hs He Hin) as (_ & e' & ? & _). congruence.
    + destruct (Hold s q Hne Hs) as [Hs' Hq]. rewrite Hq in He. by eapply H4.
  - intros s q eq x Hs Hq Hx. destruct (decide (s = sn i)) as [->|Hne].
    + unfold hs' in Hs. rewrite lookup_insert_eq in Hs. injection Hs as <-.
      unfold h' in Hq. rewrite lookup_insert_eq in Hq. injection Hq as <-. by apply not_elem_of_nil in Hx.
    + destruct (Hold s q Hne Hs) as [Hs' Hq']. rewrite Hq' in Hq.
      destruct (H5 _ _ _ _ Hs' Hq Hx) as (? & e & He & ? & Hor). split; [done|]. exists e.
      unfold h'. rewrite lookup_insert_ne by congruence. do 2 (split; [done|]).
      destruct Hor as [?|Hl]; [by left|right]. unfold hs'. rewrite lookup_insert_ne; [done|].
      intros Heq. rewrite <- Heq in Hl. congruence.
Qed.

Lemma cnt_app x l l' : cnt x (l ++ l') = (cnt x l + cnt x l')%nat.
Proof. apply count_occ_app. Qed.

Lemma cnt_one x p : cnt x [p] = if decide (x = p) then 1%nat else 0%nat.
Proof. unfold cnt. simpl. destruct (Pos.eq_dec p x), (decide (x = p)); congruence. Qed.

(** The edges out of one live entry change by [l'] instead of [l]. *)
Lemma waits_deps h hs L q i e l' x :
  StronglySorted (fun i j => sn i < sn j) L -> i ∈ L -> hs !! sn i = Some q -> h !! q = Some e ->
  (forall s, hs !! s = Some q -> s = sn i) ->
  waits (alter (set_dependInsts l') q h) hs L x
  = waits h hs L x + Z.of_nat (cnt x l') - Z.of_nat (cnt x (dependInsts e)).
Proof.
  intros Hsort Hi Hs He Hinj.
  assert (Hoth : forall s, s <> sn i -> deps_of (alter (set_dependInsts l') q h) hs s = deps_of h hs s).
  { intros s Hne. unfold deps_of. destruct (hs !! s) as [r|] eqn:E; [|done]. simpl.
    rewrite lookup_alter_ne; [done|]. intros ->. by apply Hne, Hinj. }
  apply list_elem_of_split in Hi as (L1 & L2 & ->).
  apply StronglySorted_split in Hsort as (_ & Hs2 & Hlt).
  apply StronglySorted_inv in Hs2 as [_ HF]. rewrite Forall_forall in HF.
  rewrite !waits_app, !waits_cons.
  rewrite (waits_ext h hs _ hs L1), (waits_ext h hs _ hs L2).
  - unfold deps_of. rewrite Hs. simpl. rewrite lookup_alter_eq, He. simpl. lia.
  - intros j Hj. rewrite Hoth; [done|]. specialize (HF j Hj). lia.
  - intros j Hj. rewrite Hoth; [done|]. assert (sn j < sn i) by (apply Hlt; [done|by left]). lia.
Qed.

(** Replacing the dependents of a live entry. *)
Lemma wfd_set_deps D h hs L q e l' :
  wfd D h hs L -> hs !! sn (inst e) = Some q -> h !! q = Some e ->
  (forall x, x ∈ l' -> has_dependents (inst e) = true /\
     exists ex, h !! x = Some ex /\ waiter (sn (inst e)) (inst ex) /\
       (squashed ex = true \/ hs !! sn (inst ex) = Some x)) ->
  wfd (fun x => D x + Z.of_nat (cnt x (dependInsts e)) - Z.of_nat (cnt x l'))
    (alter (set_dependInsts l') q h) hs L.
Proof.
  intros Hw Hs He Hl'. pose proof Hw as [H1 H2 H3 H4 H5].
  assert (HL : inst e ∈ L) by (destruct (H2 _ _ Hs) as (? & ? & _ & _ & ?); by simplify_eq).
  assert (Hlk : forall x ex, h !! x = Some ex -> exists ex', alter (set_dependInsts l') q h !! x = Some ex' /\
            inst ex' = inst ex /\ squashed ex' = squashed ex /\ memDeps ex' = memDeps ex /\
            dependInsts ex' = if decide (x = q) then l' else dependInsts ex).
  { intros x ex Hx. destruct (decide (x = q)) as [->|Hne].
    - rewrite lookup_alter_eq, Hx. by eexists.
    - rewrite lookup_alter_ne by done. by eexists. }
  assert (Hlk' : forall x e', alter (set_dependInsts l') q h !! x = Some e' -> exists ex, h !! x = Some ex).
  { intros x e'. rewrite lookup_alter_Some. naive_solver. }
  split; [done|..].
  - intros s x Hx. destruct (H2 s x Hx) as (ex & Hex & ? & ? & ?).
    destruct (Hlk x ex Hex) as (e' & ? & Hi & Hq & _). exists e'. rewrite Hi, Hq. done.
  - intros i Hi. destruct (H3 i Hi) as (x & ex & Hx & Hex & ?).
    destruct (Hlk x ex Hex) as (e' & ? & Hi' & _). exists x, e'. rewrite Hi'. done.
  - intros s x e' Hx He'. destruct (Hlk' x e' He') as (ex & Hex).
    destruct (Hlk x ex Hex) as (e2 & ? & _ & _ & Hm & _). simplify_eq.
    rewrite Hm, (waits_deps h hs L q (inst e) e), (H4 s x ex); try done; [lia|].
    intros s' Hs'. by eapply wfd_inj.
  - intros s r er' x Hr Her Hx. destruct (Hlk' r er' Her) as (er & Her0).
    destruct (Hlk r er Her0) as (e2 & ? & Hi & _ & _ & Hd). simplify_eq. rewrite Hi. rewrite Hd in Hx.
    assert (Hgoal : has_dependents (inst er) = true /\ exists ex, h !! x = Some ex /\ waiter s (inst ex) /\
              (squashed ex = true \/ hs !! sn (inst ex) = Some x)).
    { destruct (decide (r = q)) as [->|Hne]; [|by eapply H5].
      simplify_eq. rewrite (wfd_inj _ _ _ _ _ _ _ Hw Hr Hs). auto. }
    destruct Hgoal as (? & ex & Hex & ? & ?). split; [done|].
    destruct (Hlk x ex Hex) as (ex' & ? & Hi' & Hq' & _). exists ex'. rewrite Hi', Hq'. done.
Qed.
(** An edge out of a live entry, as a member of [deps_of]. *)
Lemma deps_of_live h hs s q e : hs !! s = Some q -> h !! q = Some e -> deps_of h hs s = dependInsts e.
Proof. intros Hs He. unfold deps_of. rewrite Hs. simpl. by rewrite He. Qed.

Lemma waits_filter h hs L s x : deps_of h hs s = [] ->
  waits h hs (filter (fun j => sn j <> s) L) x = waits h hs L x.
Proof.
  intros Hs. induction L as [|i L IH]; [done|]. rewrite filter_cons, waits_cons.
  destruct (decide (sn i <> s)) as [?|Heq]; [by rewrite waits_cons, IH|].
  replace (sn i) with s by (destruct (decide (sn i = s)); [done|contradiction]).
  by rewrite IH, Hs.
Qed.

Lemma deps_of_delete h hs s s' : s' <> s -> deps_of h (delete s hs) s' = deps_of h hs s'.
Proof. intros Hne. unfold deps_of. by rewrite lookup_delete_ne. Qed.

(** Removing an entry without dependents and without dependences. *)
Lemma wfd_complete D h hs L p e :
  wfd D h hs L -> hs !! sn (inst e) = Some p -> h !! p = Some e -> dependInsts e = [] ->
  waits h hs L p = 0 ->
  wfd D h (delete (sn (inst e)) hs) (filter (fun j => sn j <> sn (inst e)) L).
Proof.
  intros Hw Hs He Hd Hwait. pose proof Hw as [H1 H2 H3 H4 H5]. set (s := sn (inst e)) in *.
  assert (Hds : deps_of h hs s = []) by (by erewrite deps_of_live).
  assert (Hnotin : forall r er, (exists sr, hs !! sr = Some r) -> h !! r = Some er -> p ∉ dependInsts er).
  { intros r er (sr & Hr) Her Hin. destruct (H2 _ _ Hr) as (er' & ? & Hsr & _ & HL). simplify_eq.
    pose proof (waits_pos h hs L p (inst er) HL) as Hpos. erewrite deps_of_live in Hpos by done.
    specialize (Hpos Hin). lia. }
  split.
  - by apply StronglySorted_filter.
  - intros s' q [Hne Hq]%lookup_delete_Some. destruct (H2 _ _ Hq) as (eq & ? & ? & ? & ?).
    exists eq. do 3 (split; [done|]). apply list_elem_of_filter. split; [congruence|done].
  - intros i [Hne Hi]%list_elem_of_filter. destruct (H3 i Hi) as (q & eq & Hq & ? & ?).
    exists q, eq. by rewrite lookup_delete_ne.
  - intros s' q eq [Hne Hq]%lookup_delete_Some Heq. rewrite (H4 _ _ _ Hq Heq). f_equal.
    rewrite <- (waits_filter h hs L s) by done. symmetry. apply waits_ext.
    intros j [Hj _]%list_elem_of_filter. by rewrite deps_of_delete.
  - intros s' q eq x [Hne Hq]%lookup_delete_Some Heq Hx.
    destruct (H5 _ _ _ _ Hq Heq Hx) as (? & ex & Hex & ? & Hor). split; [done|]. exists ex.
    do 2 (split; [done|]). destruct Hor as [?|Hl]; [by left|right].
    rewrite lookup_delete_ne; [done|]. intros Heqs. rewrite <- Heqs in Hl.
    assert (x = p) as -> by congruence.
    exact (Hnotin q eq (ex_intro _ s' Hq) Heq Hx).
Qed.

(** Squashing the youngest entry. *)
Lemma wfd_squash D h hs L i p :
  wfd D h hs (L ++ [i]) -> hs !! sn i = Some p ->
  wfd D (alter set_squashed p h) (delete (sn i) hs) L.
Proof.
  intros Hw Hs. pose proof Hw as [H1 H2 H3 H4 H5].
  apply StronglySorted_split in H1 as (Hsort & _ & Hlt).
  assert (Hy : forall j, j ∈ L -> sn j < sn i) by (intros j Hj; apply Hlt; [done|by left]).
  assert (Hne : forall s q, s <> sn i -> hs !! s = Some q -> q <> p).
  { intros s q Hn Hq ->. by apply Hn, (wfd_inj _ _ _ _ _ _ _ Hw Hq Hs). }
  assert (Hfr : forall s q, s <> sn i -> hs !! s = Some q -> alter set_squashed p h !! q = h !! q).
  { intros s q Hn Hq. rewrite lookup_alter_ne; [done|]. by eapply not_eq_sym, Hne. }
  assert (HinL : forall j, j ∈ L ++ [i] -> sn j <> sn i -> j ∈ L).
  { intros j [?| ->%list_elem_of_singleton]%elem_of_app ?; done. }
  split; [done|..].
  - intros s q [Hn Hq]%lookup_delete_Some. destruct (H2 _ _ Hq) as (e & He & ? & ? & HL).
    exists e. rewrite (Hfr s q) by done. do 3 (split; [done|]). apply HinL; [done|]. congruence.
  - intros j Hj. destruct (H3 j) as (q & e & Hq & He & ?); [apply elem_of_app; by left|].
    specialize (Hy j Hj). exists q, e. rewrite lookup_delete_ne by lia.
    rewrite (Hfr (sn j) q) by (done || lia). done.
  - intros s q e [Hn Hq]%lookup_delete_Some He. rewrite (Hfr s q) in He by done.
    rewrite (H4 _ _ _ Hq He), waits_app, waits_cons.
    rewrite waits_alter by done.
    rewrite (waits_ext h hs h (delete (sn i) hs) L).
    2: { intros j Hj. specialize (Hy j Hj). by rewrite deps_of_delete by lia. }
    destruct (H2 _ _ Hs) as (ei & Hei & Hsn & _). rewrite (deps_of_live h hs (sn i) p ei) by done.
    assert (Hc : cnt q (dependInsts ei) = 0%nat).
    { apply (count_occ_not_In Pos.eq_dec). rewrite <- list_elem_of_In. intros Hin.
      destruct (H5 _ _ _ _ Hs Hei Hin) as (_ & e' & ? & [Hlt' _] & _).
      destruct (H2 _ _ Hq) as (e2 & ? & Hs2 & _ & HL). simplify_eq.
      assert (HinstL : inst e ∈ L) by (apply HinL; [done|congruence]). specialize (Hy _ HinstL). lia. }
    rewrite Hc. change (waits h hs [] q) with 0. lia.
  - intros s q eq x [Hn Hq]%lookup_delete_Some Heq Hx. rewrite (Hfr s q) in Heq by done.
    destruct (H5 _ _ _ _ Hq Heq Hx) as (? & ex & Hex & ? & Hor). split; [done|].
    destruct (decide (x = p)) as [->|Hxp].
    + exists (set_squashed ex). rewrite lookup_alter_eq, Hex. do 2 (split; [done|]). by left.
    + exists ex. rewrite lookup_alter_ne by done. do 2 (split; [done|]).
      destruct Hor as [?|Hl]; [by left|right]. rewrite lookup_delete_ne; [done|].
      intros Heqs. rewrite <- Heqs in Hl. congruence.
Qed.
End Graph.

(** ** The invariant of the unit *)

Definition zeroD : positive -> Z := fun _ => 0.

Abbreviation insts m := (insts_of m (unit_id m)) (only parsing).

(** The unit has an entry for the instruction. *)
Definition known (m : MemDepUnit) (i : DynInst) : Prop := exists j, j ∈ insts m /\ same_inst i j.

Record wfm (m : MemDepUnit) : Prop := {
  m_graph : wfd zeroD (entries m) (memDepHash m) (insts m);
  m_tid : forall i, i ∈ insts m -> threadNumber i = unit_id m;
  m_lb : forall s, s ∈ loadBarrierSNs m <->
    exists i, i ∈ insts m /\ sn i = s /\ isReadBarrier i || isHtmCmd i = true;
  m_sb : forall s, s ∈ storeBarrierSNs m <->
    exists i, i ∈ insts m /\ sn i = s /\ isWriteBarrier i || isHtmCmd i = true;
  m_replay : forall i, i ∈ instsToReplay m -> is_mem i = true /\ known m i;
  m_pred : wfp (depPred m);
  m_info : forall s, (info_predBranchHistLength (info_of m s) < 8)%nat /\ in_u 64 (info_predictorHash (info_of m s))
}.

(** The entry of an instruction in flight. *)
Lemma wfm_entry m i : wfm m -> i ∈ insts m ->
  exists p e, memDepHash m !! sn i = Some p /\ entries m !! p = Some e /\ inst e = i /\ squashed e = false /\
    findInHash m i = Ok p.
Proof.
  intros Hm Hi. destruct (d_all _ _ _ _ (m_graph _ Hm) i Hi) as (p & e & Hs & He & Hie).
  destruct (d_live _ _ _ _ (m_graph _ Hm) _ _ Hs) as (e' & ? & _ & ? & _). simplify_eq.
  exists p, e. unfold findInHash. rewrite Hs. done.
Qed.

Lemma known_entry m i : wfm m -> known m i ->
  exists p e, memDepHash m !! sn i = Some p /\ entries m !! p = Some e /\ same_inst i (inst e) /\ inst e ∈ insts m /\
    squashed e = false /\ findInHash m i = Ok p.
Proof.
  intros Hm (j & Hj & Hs). destruct (wfm_entry m j Hm Hj) as (p & e & Hp & He & <- & Hq & Hf).
  exists p, e. unfold findInHash in *. by rewrite (proj1 Hs).
Qed.

(** The instructions to replay stay known when others enter, or younger ones leave. *)
Lemma replay_known m m' : wfm m -> (forall i, i ∈ instsToReplay m' -> i ∈ instsToReplay m) ->
  (forall i j, i ∈ instsToReplay m' -> j ∈ insts m -> sn i = sn j -> j ∈ insts m') ->
  forall i, i ∈ instsToReplay m' -> is_mem i = true /\ known m' i.
Proof.
  intros Hm Hr Hl i Hi. destruct (m_replay _ Hm i (Hr i Hi)) as [? (j & Hj & Hs)]. split; [done|].
  exists j. split; [|done]. eapply Hl; [done..|apply Hs].
Qed.

Lemma known_tid m i : wfm m -> known m i -> threadNumber i = unit_id m.
Proof. intros Hm (j & Hj & _ & -> & _). by apply Hm. Qed.

Lemma known_self m i : i ∈ insts m -> known m i.
Proof. intros Hi. by exists i. Qed.

Lemma moveToReady_ok m p e : entries m !! p = Some e -> squashed e = false ->
  moveToReady m p = Ok (set_ready m (ready m ++ [sn (inst e)])).
Proof. intros He Hq. unfold moveToReady. rewrite He. cbn [deref rbind]. by rewrite Hq. Qed.

Lemma wfm_ready m l : wfm m -> wfm (set_ready m l).
Proof. intros []. by split. Qed.

Lemma wfm_regsReady m p : wfm m -> wfm (upd_entry m p set_regsReady).
Proof.
  intros [Hg ? ? ? ? ? ?]. split; try done. simpl.
  eapply wfd_ext; [|apply (wfd_alter zeroD _ _ _ set_regsReady p 0); [done| |exact Hg]].
  - intros x. unfold zeroD. by destruct (decide (x = p)).
  - intros e _. simpl. lia.
Qed.

Lemma live_waits m s p e : wfm m -> memDepHash m !! s = Some p -> entries m !! p = Some e ->
  memDeps e = waits (entries m) (memDepHash m) (insts m) p.
Proof. intros Hm Hs He. rewrite (d_count _ _ _ _ (m_graph _ Hm) s p e Hs He). unfold zeroD. lia. Qed.

(** [j] holds back [i]. *)
Definition blocks (m : MemDepUnit) (j i : DynInst) : Prop :=
  j ∈ insts m /\ exists p, memDepHash m !! sn i = Some p /\ p ∈ deps_of (entries m) (memDepHash m) (sn j).

Lemma waits_zero_iff m i p : wfm m -> memDepHash m !! sn i = Some p ->
  waits (entries m) (memDepHash m) (insts m) p = 0 <-> forall j, ~ blocks m j i.
Proof.
  intros Hm Hs. split.
  - intros H0 j (Hj & q & Hq & Hin). simplify_eq. pose proof (waits_pos _ _ _ _ _ Hj Hin). lia.
  - intros Hno. apply waits_zero. intros j Hj Hin. apply (Hno j). split; [done|eauto].
Qed.

Lemma regsReady_ok m i : wfm m -> known m i ->
  exists m' p e, regsReady_ m i = Ok m' /\ wfm m' /\ memDepHash m !! sn i = Some p /\
    entries m !! p = Some e /\ unit_id m' = unit_id m /\ insts m' = insts m /\
    ready m' = if memDeps e =? 0 then ready m ++ [sn i] else ready m.
Proof.
  intros Hm Hi. destruct (known_entry m i Hm Hi) as (p & e & Hs & He & Hie & _ & Hq & Hf).
  unfold regsReady_. rewrite Hf. cbn [rbind].
  assert (He' : entries (upd_entry m p set_regsReady) !! p = Some (set_regsReady e))
    by (simpl; by rewrite lookup_alter_eq, He).
  rewrite He'. cbn [deref rbind]. simpl memDeps.
  destruct (Z.eqb_spec (memDeps e) 0) as [H0|H0].
  - rewrite (moveToReady_ok _ _ _ He') by done. eexists _, p, e. split; [done|].
    split; [by apply wfm_ready, wfm_regsReady|]. do 4 (split; [done|]). simpl. by rewrite (proj1 Hie), H0.
  - eexists _, p, e. split; [done|]. split; [by apply wfm_regsReady|]. do 4 (split; [done|]).
    by destruct (Z.eqb_spec (memDeps e) 0).
Qed.

Lemma replay_loop_ok l : forall m, wfm m -> (forall i, i ∈ l -> known m i) -> instsToReplay m = l ->
  exists m', replay_loop l m = Ok m' /\ wfm m' /\ ready m' = ready m ++ map sn l /\ instsToReplay m' = [] /\
    unit_id m' = unit_id m /\ insts m' = insts m.
Proof.
  induction l as [|i l IH]; intros m Hm Hl Hr; cbn [replay_loop].
  - exists m. simpl. by rewrite app_nil_r.
  - destruct (known_entry m i Hm) as (p & e & Hs & He & Hie & _ & Hq & Hf); [apply Hl; by left|].
    rewrite Hf. cbn [rbind]. rewrite (moveToReady_ok _ _ _ He Hq). cbn [rbind].
    assert (Hm1 : wfm (set_replay (set_ready m (ready m ++ [sn (inst e)])) l)).
    { destruct Hm as [? ? ? ? Hrep ? ?]. split; try done. simpl. intros j Hj. apply Hrep. rewrite Hr. by right. }
    destruct (IH _ Hm1) as (m' & -> & Hm' & Hrd & ?); [intros j Hj; apply Hl; by right|done|].
    exists m'. do 2 (split; [done|]). split; [|done]. rewrite Hrd. simpl. by rewrite <- app_assoc, (proj1 Hie).
Qed.

(** ** Waking up dependents *)

Definition dec (e : MemDepEntry) : MemDepEntry := set_memDeps (memDeps e - 1) e.
Definition dec_all (h : gmap positive MemDepEntry) (l : list positive) : gmap positive MemDepEntry :=
  foldl (fun h d => alter dec d h) h l.

(** The instructions handed to the queue while the dependences in [l] are released. *)
Fixpoint woken (h : gmap positive MemDepEntry) (l : list positive) : list Z :=
  match l with
  | [] => []
  | d :: l =>
      let h := alter dec d h in
      match h !! d with
      | Some e => if (memDeps e =? 0) && regsReady e && negb (squashed e) then [sn (inst e)] else []
      | None => []
      end ++ woken h l
  end.

Lemma dec_all_lookup l : forall h x,
  dec_all h l !! x = (fun e => set_memDeps (memDeps e - Z.of_nat (cnt x l)) e) <$> h !! x.
Proof.
  induction l as [|d l IH]; intros h x.
  - simpl. destruct (h !! x) as [[]|]; [|done]. simpl. unfold set_memDeps. simpl. do 2 f_equal. lia.
  - change (dec_all h (d :: l)) with (dec_all (alter dec d h) l). rewrite IH.
    change (d :: l) with ([d] ++ l). rewrite cnt_app, cnt_one.
    destruct (decide (x = d)) as [->|Hne].
    + rewrite lookup_alter_eq. destruct (h !! d) as [[]|]; [|done]. simpl. unfold set_memDeps, dec. simpl.
      do 2 f_equal. lia.
    + rewrite lookup_alter_ne by done. done.
Qed.

Lemma woken_spec l : forall h s, s ∈ woken h l <->
  exists x e, h !! x = Some e /\ sn (inst e) = s /\ 0 < memDeps e <= Z.of_nat (cnt x l) /\
    regsReady e = true /\ squashed e = false.
Proof.
  induction l as [|d l IH]; intros h s; cbn [woken].
  - split; [by intros ?%not_elem_of_nil|]. intros (x & e & _ & _ & H & _). unfold cnt in H. simpl in H. lia.
  - rewrite elem_of_app, IH. change (d :: l) with ([d] ++ l). rewrite lookup_alter_eq. split.
    + intros [Hin|(x & e & Hx & Hs & Hm & Hr & Hq)].
      * destruct (h !! d) as [e|] eqn:He; simpl in Hin; [|by apply not_elem_of_nil in Hin].
        destruct (Z.eqb_spec (memDeps e - 1) 0); simpl in Hin; [|by apply not_elem_of_nil in Hin].
        destruct (regsReady e) eqn:Hr; simpl in Hin; [|by apply not_elem_of_nil in Hin].
        destruct (squashed e) eqn:Hq; simpl in Hin; [by apply not_elem_of_nil in Hin|].
        apply list_elem_of_singleton in Hin as ->. exists d, e. rewrite cnt_app, cnt_one, decide_True by done.
        do 2 (split; [done|]). split; [lia|done].
      * destruct (decide (x = d)) as [->|Hne].
        -- rewrite lookup_alter_eq in Hx. destruct (h !! d) as [e0|] eqn:He; [|done]. injection Hx as <-.
           exists d, e0. rewrite cnt_app, cnt_one, decide_True by done. simpl in *. split; [done|]. split; [done|]. split; [lia|done].
        -- rewrite lookup_alter_ne in Hx by done. exists x, e. rewrite cnt_app, cnt_one, decide_False by done. auto.
    + intros (x & e & Hx & Hs & Hm & Hr & Hq). rewrite cnt_app, cnt_one in Hm.
      destruct (decide (x = d)) as [->|Hne].
      * rewrite Hx. simpl. destruct (Z.eqb_spec (memDeps e - 1) 0).
        -- left. rewrite Hr, Hq. simpl. rewrite Hs. by left.
        -- right. exists d, (dec e). rewrite lookup_alter_eq, Hx. simpl. do 2 (split; [done|]). split; [lia|done].
      * right. exists x, e. rewrite lookup_alter_ne by done. auto.
Qed.

(** The fields neither waking nor squashing touches. *)
Definition info_ok (inf : gmap Z MemDepInfo) : Prop := forall s, let x := default noInfo (inf !! s) in
  (info_predBranchHistLength x < 8)%nat /\ in_u 64 (info_predictorHash x).

Lemma info_ok_insert inf s x : info_ok inf -> (info_predBranchHistLength x < 8)%nat ->
  in_u 64 (info_predictorHash x) -> info_ok (<[s := x]> inf).
Proof.
  intros H H1 H2 s'. destruct (decide (s' = s)) as [->|Hne].
  - by rewrite lookup_insert_eq.
  - rewrite lookup_insert_ne by done. apply H.
Qed.

Lemma wake_one_ok i m d : info_ok (infos m) -> is_Some (entries m !! d) ->
  exists inf, info_ok inf /\
    wake_one i m d = Ok (set_ready (set_infos (set_entries m (alter dec d (entries m))) inf)
      (ready m ++ match alter dec d (entries m) !! d with
                  | Some e => if (memDeps e =? 0) && regsReady e && negb (squashed e) then [sn (inst e)] else []
                  | None => []
                  end)).
Proof.
  intros Hinf [e He]. unfold wake_one. fold dec. simpl entries. rewrite lookup_alter_eq, He.
  simpl (dec <$> _). cbn [deref rbind]. set (e' := dec e).
  destruct (memDeps e' =? 0); cbn [andb].
  2: { exists (infos m). split; [done|]. rewrite app_nil_r. done. }
  set (x := info_of _ _). set (m1 := if predicted x && isStore i then _ else _).
  assert (Hm1 : exists inf, info_ok inf /\ m1 = set_infos (set_entries m (alter dec d (entries m))) inf).
  { unfold m1. destruct (predicted x && isStore i).
    - eexists. split; [|done]. pose proof (Hinf (sn (inst e'))) as Hx. by apply info_ok_insert; [|apply Hx..].
    - by exists (infos m). }
  destruct Hm1 as (inf & ? & ->). exists inf. split; [done|].
  destruct (regsReady e' && negb (squashed e')) eqn:Hb; cycle 1.
  { by rewrite app_nil_r. }
  apply andb_true_iff in Hb as [_ Hq%negb_true_iff].
  rewrite (moveToReady_ok _ _ e') by (simpl; rewrite ?lookup_alter_eq, ?He; done). done.
Qed.

Lemma wake_loop_ok i l : forall m, info_ok (infos m) -> (forall x, x ∈ l -> is_Some (entries m !! x)) ->
  exists inf, info_ok inf /\
    wake_loop i l m = Ok (set_ready (set_infos (set_entries m (dec_all (entries m) l)) inf)
                            (ready m ++ woken (entries m) l)).
Proof.
  induction l as [|d l IH]; intros m Hinf Hl; cbn [wake_loop].
  - exists (infos m). split; [done|]. simpl. rewrite app_nil_r. by destruct m.
  - destruct (wake_one_ok i m d) as (inf & Hinf1 & ->); [done|apply Hl; by left|]. cbn [rbind].
    edestruct IH as (inf' & ? & Heq).
    3: { exists inf'. split; [done|]. rewrite Heq. simpl. by rewrite <- app_assoc. }
    + done.
    + intros x Hx. simpl. destruct (decide (x = d)) as [->|Hne].
      * rewrite lookup_alter_eq. apply fmap_is_Some, Hl. by left.
      * rewrite lookup_alter_ne by done. apply Hl. by right.
Qed.

Lemma wfd_dec_all l : forall D h hs L, wfd D h hs L ->
  wfd (fun x => D x - Z.of_nat (cnt x l)) (dec_all h l) hs L.
Proof.
  induction l as [|d l IH]; intros D h hs L Hw.
  - eapply wfd_ext; [|exact Hw]. intros p. simpl. lia.
  - change (dec_all h (d :: l)) with (dec_all (alter dec d h) l).
    eapply wfd_ext; [|apply IH, (wfd_alter D h hs L dec d (-1)); [done| |exact Hw]].
    + intros p. cbv beta. change (d :: l) with ([d] ++ l). rewrite cnt_app, cnt_one. case_decide; lia.
    + intros e _. simpl. lia.
Qed.

Lemma wfm_info m : wfm m -> info_ok (infos m).
Proof. intros Hm s. apply (m_info _ Hm s). Qed.

Lemma has_dependents_same i j : same_inst i j -> has_dependents i = has_dependents j.
Proof. intros (_ & _ & _ & E1 & E2 & E3 & E4 & E5). unfold has_dependents. by rewrite E1, E2, E3, E4, E5. Qed.

(** The wake-up of the dependents of an instruction in flight. *)
Lemma wakeDependents_ok m i p e : wfm m -> memDepHash m !! sn i = Some p -> entries m !! p = Some e ->
  same_inst i (inst e) ->
  exists m', wakeDependents m i = Ok m' /\ wfm m' /\
    (exists e', entries m' !! p = Some e' /\ inst e' = inst e /\ dependInsts e' = [] /\ memDeps e' = memDeps e) /\
    memDepHash m' = memDepHash m /\ instList m' = instList m /\ unit_id m' = unit_id m /\
    instsToReplay m' = instsToReplay m /\
    loadBarrierSNs m' = loadBarrierSNs m /\ storeBarrierSNs m' = storeBarrierSNs m /\
    ready m' = ready m ++ woken (entries m) (dependInsts e).
Proof.
  intros Hm Hs He Hie. unfold wakeDependents. pose proof (m_graph _ Hm) as Hg.
  assert (Hdep : forall x, x ∈ dependInsts e -> has_dependents i = true /\
            exists ex, entries m !! x = Some ex /\ sn i < sn (inst ex)).
  { intros x Hx. destruct (d_dep _ _ _ _ Hg _ _ _ _ Hs He Hx) as (Hhd & ex & ? & [? _] & _).
    rewrite (has_dependents_same _ _ Hie). eauto. }
  destruct (has_dependents i) eqn:Hhd; cbn [negb].
  2: { assert (Hnil : dependInsts e = []).
       { destruct (dependInsts e) as [|x l] eqn:E; [done|]. destruct (Hdep x); [by left|done]. }
       exists m. split; [done|]. split; [done|]. split; [by exists e|].
       do 6 (split; [done|]). rewrite Hnil. simpl. by rewrite app_nil_r. }
  unfold findInHash. rewrite Hs. cbn [rbind]. rewrite He. cbn [deref rbind].
  destruct (wake_loop_ok i (dependInsts e) m) as (inf & Hinf & ->);
    [by apply wfm_info|intros x Hx; destruct (Hdep x Hx) as (_ & ex & -> & _); eauto|]. cbn [rbind].
  assert (Hnotin : cnt p (dependInsts e) = 0%nat).
  { apply (count_occ_not_In Pos.eq_dec). rewrite <- list_elem_of_In. intros Hin.
    destruct (Hdep p Hin) as (_ & ex & ? & ?). simplify_eq. destruct Hie. lia. }
  assert (He2 : dec_all (entries m) (dependInsts e) !! p = Some e).
  { rewrite dec_all_lookup, He. simpl. rewrite Hnotin. destruct e. unfold set_memDeps. simpl.
    do 2 f_equal. lia. }
  eexists. split; [done|]. split; [|split].
  - destruct Hm. split; try done. simpl.
    eapply wfd_ext; [|eapply (wfd_set_deps (fun x => zeroD x - Z.of_nat (cnt x (dependInsts e))) _ _ _ p e []);
      [by apply wfd_dec_all|by rewrite <- (proj1 Hie)|done|by intros x Hx%not_elem_of_nil]].
    intros x. unfold zeroD. simpl. lia.
  - eexists. split; [simpl; by rewrite lookup_alter_eq, He2|]. done.
  - done.
Qed.

Lemma completed_ok m i p e : wfm m -> inst e ∈ insts m -> memDepHash m !! sn i = Some p ->
  entries m !! p = Some e -> same_inst i (inst e) -> dependInsts e = [] -> memDeps e = 0 ->
  completed m i = Ok (set_hash (set_instList m
      (<[unit_id m := filter (fun j => sn j <> sn i) (insts m)]> (instList m))) (delete (sn i) (memDepHash m))) /\
  wfd zeroD (entries m) (delete (sn i) (memDepHash m)) (filter (fun j => sn j <> sn i) (insts m)).
Proof.
  intros Hm Hi Hs He (Hsn & Htd & _) Hd Hz. unfold completed. rewrite Hs. rewrite He. cbn [deref rbind].
  rewrite Htd, (m_tid _ Hm _ Hi), Hsn in *. split; [done|].
  eapply wfd_complete; eauto; [apply Hm|]. erewrite <- live_waits by done. done.
Qed.

Lemma barrier_filter (f : DynInst -> bool) (B : gset Z) L i :
  StronglySorted (fun i j => sn i < sn j) L -> i ∈ L ->
  (forall s, s ∈ B <-> exists j, j ∈ L /\ sn j = s /\ f j = true) ->
  forall s, s ∈ (if f i then B ∖ {[sn i]} else B) <->
    exists j, j ∈ filter (fun j => sn j <> sn i) L /\ sn j = s /\ f j = true.
Proof.
  intros Hs Hi HB s.
  assert (Hall : s ∈ (if f i then B ∖ {[sn i]} else B) <-> s ∈ B /\ s <> sn i).
  { destruct (f i) eqn:Hf; [set_solver|]. split; [|by intros [? _]]. intros Hin. split; [done|]. intros ->.
    apply HB in Hin as (j & Hj & Heq & Hfj). rewrite (sorted_unique L j i) in Hfj by done. congruence. }
  rewrite Hall, HB. split.
  - intros [(j & Hj & <- & Hf) Hne]. exists j. rewrite list_elem_of_filter. done.
  - intros (j & [Hne Hj]%list_elem_of_filter & <- & Hf). split; [eauto|done].
Qed.

Lemma insts_set m l : insts_of (set_instList m (<[unit_id m := l]> (instList m))) (unit_id m) = l.
Proof. unfold insts_of. simpl. by rewrite lookup_insert_eq. Qed.

Lemma completeInst_ok m i p e : wfm m -> known m i -> memDepHash m !! sn i = Some p ->
  entries m !! p = Some e -> memDeps e = 0 -> (forall j, j ∈ instsToReplay m -> sn j <> sn i) ->
  exists m', completeInst m i = Ok m' /\ wfm m' /\ unit_id m' = unit_id m /\
    insts m' = filter (fun j => sn j <> sn i) (insts m) /\
    ready m' = ready m ++ woken (entries m) (dependInsts e).
Proof.
  intros Hm Hi Hs He Hz Hrep.
  destruct (known_entry m i Hm Hi) as (p0 & e0 & Hs0 & He0 & Hie & HL & _).
  assert (p0 = p) as -> by congruence. assert (e0 = e) as -> by congruence.
  destruct (wakeDependents_ok m i p e) as (m1 & Hw & Hm1 & (e1 & He1 & Hi1 & Hd1 & Hz1) & Hh & Hil & Hid &
    Hr1 & Hlb & Hsb & Hrd); [done..|].
  assert (Hins : insts m1 = insts m) by (unfold insts_of; by rewrite Hil, Hid).
  destruct (completed_ok m1 i p e1) as [Hc Hg]; [done|by rewrite Hins, Hi1|by rewrite Hh|done|by rewrite Hi1|done|congruence|].
  unfold completeInst. rewrite Hw. cbn [rbind]. rewrite Hc. cbn [rbind].
  pose proof Hie as (Esn & _ & _ & _ & _ & Erb & Ewb & Ehtm). rewrite Esn, Erb, Ewb, Ehtm in *.
  simpl storeBarrierSNs. simpl loadBarrierSNs. clear Hc.
  set (m2 := set_hash _ _). pose proof Hm1 as [_ Htid HLB HSB Hrep1 Hp Hinf].
  pose proof (d_sorted _ _ _ _ (m_graph _ Hm1)) as Hsort.
  assert (HiL : inst e ∈ insts m1) by (by rewrite Hins).
  pose proof (barrier_filter _ _ _ _ Hsort HiL HLB) as HLB'.
  pose proof (barrier_filter _ _ _ _ Hsort HiL HSB) as HSB'.
  cbv beta in HLB', HSB'.
  assert (Hst : (if isWriteBarrier (inst e) || isHtmCmd (inst e)
                 then check! negb (bool_decide (storeBarrierSNs m1 = ∅));
                      Ok (set_barriers m2 (loadBarrierSNs m1) (storeBarrierSNs m1 ∖ {[sn (inst e)]}))
                 else Ok m2) = Ok (set_barriers m2 (loadBarrierSNs m1)
                   (if isWriteBarrier (inst e) || isHtmCmd (inst e)
                    then storeBarrierSNs m1 ∖ {[sn (inst e)]} else storeBarrierSNs m1))).
  { destruct (isWriteBarrier (inst e) || isHtmCmd (inst e)) eqn:Hb; [|done].
    rewrite bool_decide_eq_false_2; [done|]. intros Hemp.
    assert (Hin : sn (inst e) ∈ storeBarrierSNs m1) by (apply HSB; eauto). set_solver. }
  rewrite Hst. cbn [rbind]. simpl loadBarrierSNs. simpl storeBarrierSNs.
  set (sb := if isWriteBarrier _ || _ then _ else _) in *.
  assert (Hlt : (if isReadBarrier (inst e) || isHtmCmd (inst e)
                 then check! negb (bool_decide (loadBarrierSNs m1 = ∅));
                      Ok (set_barriers (set_barriers m2 (loadBarrierSNs m1) sb) (loadBarrierSNs m1 ∖ {[sn (inst e)]}) sb)
                 else Ok (set_barriers m2 (loadBarrierSNs m1) sb)) = Ok (set_barriers m2
                   (if isReadBarrier (inst e) || isHtmCmd (inst e)
                    then loadBarrierSNs m1 ∖ {[sn (inst e)]} else loadBarrierSNs m1) sb)).
  { destruct (isReadBarrier (inst e) || isHtmCmd (inst e)) eqn:Hb; [|done].
    rewrite bool_decide_eq_false_2; [done|]. intros Hemp.
    assert (Hin : sn (inst e) ∈ loadBarrierSNs m1) by (apply HLB; eauto). set_solver. }
  rewrite Hlt. eexists. split; [done|].
  assert (Hins2 : insts_of (set_barriers m2 (if isReadBarrier (inst e) || isHtmCmd (inst e)
             then loadBarrierSNs m1 ∖ {[sn (inst e)]} else loadBarrierSNs m1) sb) (unit_id m1)
             = filter (fun j => sn j <> sn (inst e)) (insts m1)) by (unfold m2; apply insts_set).
  split; [|split; [done|]; split; [simpl unit_id; by rewrite Hins2, Hins|done]].
  split; simpl unit_id; rewrite ?Hins2; simpl; try done.
  - intros j [_ Hj]%list_elem_of_filter. auto.
  - match goal with |- forall i, _ -> _ /\ known ?x i => apply (replay_known m1 x) end; [done|done|]. simpl unit_id. rewrite Hins2. simpl. rewrite Hr1.
    intros j k Hj Hk Hjk. apply list_elem_of_filter. split; [|done]. rewrite <- Hjk. by apply Hrep.
Qed.

(** ** Squashing *)

Lemma barrier_drop (f : DynInst -> bool) (B : gset Z) L i :
  (forall j, j ∈ L -> sn j < sn i) ->
  (forall s, s ∈ B <-> exists j, j ∈ L ++ [i] /\ sn j = s /\ f j = true) ->
  forall s, s ∈ B ∖ {[sn i]} <-> exists j, j ∈ L /\ sn j = s /\ f j = true.
Proof.
  intros Hlt HB s. rewrite elem_of_difference, elem_of_singleton, HB. split.
  - intros [(j & [Hj| ->%list_elem_of_singleton]%elem_of_app & <- & Hf) Hne]; [eauto|done].
  - intros (j & Hj & <- & Hf). specialize (Hlt j Hj). split; [|lia].
    exists j. rewrite elem_of_app. auto.
Qed.

Lemma squash_one_ok m L i : wfm m -> insts m = L ++ [i] -> (forall j, j ∈ instsToReplay m -> sn j < sn i) ->
  exists m', squash_one m i = Ok m' /\
    let m'' := set_instList m' (<[unit_id m := L]> (instList m')) in
    wfm m'' /\ insts m'' = L /\ unit_id m'' = unit_id m /\ ready m'' = ready m /\
    instsToReplay m'' = instsToReplay m.
Proof.
  intros Hm HL Hrep. pose proof Hm as [Hg Htid HLB HSB Hr Hp Hinf]. rewrite HL in *.
  destruct (d_all _ _ _ _ Hg i) as (p & e & Hs & He & _); [apply elem_of_app; right; by left|].
  pose proof (d_sorted _ _ _ _ Hg) as Hsort. apply StronglySorted_split in Hsort as (_ & _ & Hlt).
  assert (Hy : forall j, j ∈ L -> sn j < sn i) by (intros j Hj; apply Hlt; [done|by left]).
  unfold squash_one. simpl memDepHash. rewrite Hs. eexists. split; [done|]. cbv zeta.
  match goal with |- wfm ?x /\ _ => set (m2 := x) end.
  assert (Hins : insts_of m2 (unit_id m) = L) by (unfold m2, insts_of; simpl; by rewrite lookup_insert_eq).
  split; [|done]. split; change (unit_id m2) with (unit_id m); rewrite ?Hins; try done.
  - by eapply wfd_squash.
  - intros j Hj. apply Htid, elem_of_app. by left.
  - simpl. by apply barrier_drop.
  - simpl. by apply barrier_drop.
  - apply (replay_known m); [done|done|]. change (unit_id m2) with (unit_id m). rewrite HL, Hins.
    intros j k Hj [?| ->%list_elem_of_singleton]%elem_of_app Hjk; [done|]. specialize (Hrep j Hj). lia.
Qed.

Lemma squash_loop_ok n l : forall m, wfm m -> insts m = reverse l -> (forall j, j ∈ instsToReplay m -> sn j <= n) ->
  exists m', squash_loop n (unit_id m) l m = Ok m' /\ wfm m' /\ unit_id m' = unit_id m /\
    insts m' = filter (fun j => sn j <= n) (insts m) /\ ready m' = ready m.
Proof.
  induction l as [|i l IH]; intros m Hm HL Hrep; cbn [squash_loop].
  - exists m. do 3 (split; [done|]). split; [|done]. by rewrite HL.
  - rewrite reverse_cons in HL. destruct (Z.ltb_spec n (sn i)) as [Hlt|Hge].
    + destruct (squash_one_ok m (reverse l) i Hm HL) as (m1 & -> & Hm1 & Hins1 & Hid1 & Hrd1 & Hr1);
        [intros j Hj; specialize (Hrep j Hj); lia|]. cbn [rbind].
      destruct (IH _ Hm1 Hins1) as (m2 & Hrun & Hm2 & Hid2 & Hins2 & Hrd2); [by rewrite Hr1|].
      rewrite Hid1 in *. exists m2. do 3 (split; [done|]). split; [|congruence].
      rewrite Hins2. simpl unit_id in *. rewrite Hins1, HL, filter_app, (filter_cons_False _ i []) by lia.
      by rewrite filter_nil, app_nil_r.
    + exists m. do 3 (split; [done|]). split; [|done]. symmetry. rewrite HL.
      apply list_filter_all. intros j Hj.
      pose proof (d_sorted _ _ _ _ (m_graph _ Hm)) as Hsort. rewrite HL in Hsort.
      apply StronglySorted_split in Hsort as (_ & _ & Hlt).
      apply elem_of_app in Hj as [Hj| ->%list_elem_of_singleton]; [|done].
      specialize (Hlt j i Hj). assert (sn j < sn i) by (apply Hlt; by left). lia.
Qed.

Lemma squash_ok m n : wfm m ->
  exists m', squash m n (unit_id m) = Ok m' /\ wfm m' /\ unit_id m' = unit_id m /\
    insts m' = filter (fun j => sn j <= n) (insts m) /\ ready m' = ready m.
Proof.
  intros Hm. unfold squash. set (m1 := set_replay _ _).
  assert (Hm1 : wfm m1).
  { destruct Hm as [? ? ? ? Hr ? ?]. split; try done. simpl. intros i [_ Hi]%list_elem_of_filter. by apply Hr. }
  destruct (squash_loop_ok n (reverse (insts m)) m1 Hm1) as (m2 & ? & ? & ? & ? & ?);
    [by rewrite reverse_involutive| |by exists m2].
  simpl. intros j [Hn Hj]%list_elem_of_filter. destruct (m_replay _ Hm j Hj) as [_ Hk]. pose proof (known_tid m j Hm Hk).
  destruct (Z.le_gt_cases (sn j) n); [done|]. exfalso. apply Hn. split; [done|lia].
Qed.

(** ** Insertion *)

Definition link_all (p : positive) (h : gmap positive MemDepEntry) (ds : list positive)
  : gmap positive MemDepEntry := foldl (fun h d => alter (push_dependInst p) d h) h ds.

Lemma foldl_upd_entry p ds : forall m,
  foldl (fun m d => upd_entry m d (push_dependInst p)) m ds = set_entries m (link_all p (entries m) ds).
Proof.
  induction ds as [|d ds IH]; intros m; [by destruct m|]. simpl. rewrite IH. done.
Qed.

Lemma link_all_lookup p ds : forall h x, link_all p h ds !! x
  = (fun e => set_dependInsts (dependInsts e ++ replicate (cnt x ds) p) e) <$> h !! x.
Proof.
  induction ds as [|d ds IH]; intros h x.
  - simpl. destruct (h !! x) as [[]|]; [|done]. simpl. unfold set_dependInsts. simpl. by rewrite app_nil_r.
  - change (link_all p h (d :: ds)) with (link_all p (alter (push_dependInst p) d h) ds). rewrite IH.
    change (d :: ds) with ([d] ++ ds). rewrite cnt_app, cnt_one. destruct (decide (x = d)) as [->|Hne].
    + rewrite lookup_alter_eq. destruct (h !! d) as [e|]; [|done]. simpl. unfold push_dependInst, set_dependInsts.
      simpl. by rewrite <- app_assoc.
    + by rewrite lookup_alter_ne.
Qed.

(** [q] is in flight, older than [s], and may have dependents. *)
Definition producer (h : gmap positive MemDepEntry) (hs : gmap Z positive) (s : Z) (q : positive) : Prop :=
  exists e, h !! q = Some e /\ hs !! sn (inst e) = Some q /\ has_dependents (inst e) = true /\ sn (inst e) < s.

Lemma wfd_link_all p ds : forall D h hs L e, wfd D h hs L -> hs !! sn (inst e) = Some p -> is_mem (inst e) = true ->
  (fun e => (inst e, squashed e)) <$> h !! p = Some (inst e, squashed e) ->
  (forall q, q ∈ ds -> producer h hs (sn (inst e)) q) ->
  wfd (fun x => D x - if decide (x = p) then Z.of_nat (length ds) else 0) (link_all p h ds) hs L.
Proof.
  induction ds as [|d ds IH]; intros D h hs L e Hw Hs Hmem He Hds.
  - eapply wfd_ext; [|exact Hw]. intros x. simpl. case_decide; lia.
  - change (link_all p h (d :: ds)) with (link_all p (alter (push_dependInst p) d h) ds).
    destruct (Hds d) as (ed & Hd & Hsd & Hhd & Hlt); [by left|].
    assert (Halt : alter (push_dependInst p) d h = alter (set_dependInsts (dependInsts ed ++ [p])) d h).
    { apply map_eq. intros x. destruct (decide (x = d)) as [->|Hne];
        [by rewrite !lookup_alter_eq, Hd|by rewrite !lookup_alter_ne]. }
    rewrite Halt.
    assert (Hpres : forall x ex, h !! x = Some ex ->
              exists ex', alter (set_dependInsts (dependInsts ed ++ [p])) d h !! x = Some ex' /\
                inst ex' = inst ex /\ squashed ex' = squashed ex).
    { intros x ex Hx. destruct (decide (x = d)) as [->|Hne];
        [rewrite lookup_alter_eq, Hx|rewrite lookup_alter_ne by done]; by eexists. }
    eapply wfd_ext; [|eapply (IH _ _ _ _ e)].
    2: { apply (wfd_set_deps D h hs L d ed (dependInsts ed ++ [p])); [done..|].
         intros x [Hx| ->%list_elem_of_singleton]%elem_of_app; [by eapply d_dep|]. split; [done|].
         destruct (h !! p) as [ep|]; [|done]. injection He as Hie Hqe. exists ep. rewrite Hie. unfold waiter. eauto. }
    + intros x. cbv beta. simpl length. rewrite cnt_app, cnt_one. case_decide; lia.
    + done.
    + done.
    + destruct (h !! p) as [ep|] eqn:Hp; [|done]. destruct (Hpres p ep Hp) as (ep' & -> & Hi & Hq).
      simpl in *. by rewrite Hi, Hq.
    + intros q Hq. destruct (Hds q) as (eq & Heq & ? & ? & ?); [by right|].
      destruct (Hpres q eq Heq) as (eq' & ? & Hi & _). exists eq'. by rewrite Hi.
Qed.

Lemma barrier_push (f : DynInst -> bool) (B : gset Z) L i :
  (forall s, s ∈ B <-> exists j, j ∈ L /\ sn j = s /\ f j = true) ->
  forall s, s ∈ (if f i then {[sn i]} ∪ B else B) <-> exists j, j ∈ L ++ [i] /\ sn j = s /\ f j = true.
Proof.
  intros HB s. split.
  - intros Hs. assert (Hor : s ∈ B \/ s = sn i /\ f i = true).
    { destruct (f i); [apply elem_of_union in Hs as [?%elem_of_singleton|?]|]; auto. }
    destruct Hor as [(j & Hj & ? & ?)%HB|[-> ?]]; [exists j|exists i]; rewrite elem_of_app, list_elem_of_singleton; auto.
  - intros (j & [Hj| ->%list_elem_of_singleton]%elem_of_app & <- & Hf).
    + assert (sn j ∈ B) by (apply HB; eauto). destruct (f i); [by apply elem_of_union; right|done].
    + rewrite Hf. by apply elem_of_union_l, elem_of_singleton.
Qed.

(** What the callers guarantee of a new instruction. *)
Definition young (m : MemDepUnit) (i : DynInst) : Prop :=
  (forall j, j ∈ insts m -> sn j < sn i) /\ threadNumber i = unit_id m.

Lemma new_entry_ok m i : wfm m -> young m i ->
  let p := (new_entry m i).1 in let m' := (new_entry m i).2 in
  entries m !! p = None /\ memDepHash m !! sn i = None /\
  m' = set_instList (set_hash (set_entries m (<[p := mkMemDepEntry i [] false 0 false]> (entries m)))
         (<[sn i := p]> (memDepHash m))) (<[unit_id m := insts m ++ [i]]> (instList m)) /\
  wfd zeroD (entries m') (memDepHash m') (insts m ++ [i]).
Proof.
  intros Hm [Hy Ht]. unfold new_entry. cbn zeta. set (p := fresh (dom (entries m))).
  assert (Hp : entries m !! p = None) by (apply not_elem_of_dom, is_fresh).
  destruct (wfd_new zeroD _ _ _ p i (m_graph _ Hm) Hp Hy eq_refl) as [Hw Hn].
  cbn [memDepHash set_entries]. rewrite Hn. split; [done|]. split; [done|]. simpl. rewrite Ht. done.
Qed.

Lemma insertBarrier_ok m i : wfm m -> young m i ->
  wfm (insertBarrier m i) /\ unit_id (insertBarrier m i) = unit_id m /\
  insts (insertBarrier m i) = insts m ++ [i] /\ ready (insertBarrier m i) = ready m.
Proof.
  intros Hm Hy. destruct (new_entry_ok m i Hm Hy) as (_ & _ & Heq & Hw). unfold insertBarrier.
  rewrite Heq in *. set (p := (new_entry m i).1) in *. clearbody p. clear Heq.
  match goal with |- wfm ?x /\ _ => set (m2 := x) end.
  assert (Hins : insts_of m2 (unit_id m) = insts m ++ [i])
    by (unfold m2, insts_of; simpl; by rewrite lookup_insert_eq).
  split; [|done]. pose proof Hm as [_ Htid HLB HSB Hr Hpr Hinf]. destruct Hy as [_ Ht].
  split; change (unit_id m2) with (unit_id m); rewrite ?Hins; try done.
  - intros j [?| ->%list_elem_of_singleton]%elem_of_app; auto.
  - exact (barrier_push (fun j => isReadBarrier j || isHtmCmd j) _ _ i HLB).
  - exact (barrier_push (fun j => isWriteBarrier j || isHtmCmd j) _ _ i HSB).
  - apply (replay_known m m2); [done..|]. change (unit_id m2) with (unit_id m). rewrite Hins. intros j k _ Hk _. apply elem_of_app. by left.
Qed.

Lemma predicted_dep_ok m i r sh sq : info_ok (infos m) -> pred_seqNum r = 0 ->
  (predBranchHistLength r < 8)%nat -> in_u 64 (predictorHash r) ->
  exists d inf, predicted_dep m i r sh sq = (d, set_infos m inf) /\ info_ok inf /\
    forall q, q ∈ d -> exists k, k <> sqIdx i /\ memDepHash m !! sq k = Some q.
Proof.
  intros Hinf H0 Hl Hh. unfold predicted_dep. rewrite H0. simpl (negb (0 =? 0)). cbv iota.
  assert (Hid : set_infos m (infos m) = m) by (by destruct m).
  destruct (negb _ && _) eqn:Hd.
  - destruct (memDepHash m !! _) as [q|] eqn:E.
    + eexists [q], _. split; [done|]. split; [by apply info_ok_insert|].
      intros q' ->%list_elem_of_singleton. eexists. split; [|exact E]. b2p. lia.
    + exists [], (infos m). rewrite Hid. do 2 (split; [done|]). by intros q ?%not_elem_of_nil.
  - exists [], (infos m). rewrite Hid. do 2 (split; [done|]). by intros q ?%not_elem_of_nil.
Qed.

(** The fields of [m'] that the last part of [insert] leaves as in [m]. *)
Definition same_frame (m m' : MemDepUnit) : Prop :=
  unit_id m' = unit_id m /\ memDepHash m' = memDepHash m /\ instList m' = instList m /\
  instsToReplay m' = instsToReplay m /\ depPred m' = depPred m /\ infos m' = infos m /\
  loadBarrierSNs m' = loadBarrierSNs m /\ storeBarrierSNs m' = storeBarrierSNs m.

Lemma wfd_set_regsReady h hs L p : wfd zeroD h hs L -> wfd zeroD (alter set_regsReady p h) hs L.
Proof.
  intros Hg. eapply wfd_ext; [|apply (wfd_alter zeroD _ _ _ set_regsReady p 0); [done| |exact Hg]].
  - intros x. unfold zeroD. by destruct (decide (x = p)).
  - intros e _. simpl. lia.
Qed.

Lemma enqueue_ok m i p ds L : wfd zeroD (entries m) (memDepHash m) L -> memDepHash m !! sn i = Some p -> is_mem i = true ->
  entries m !! p = Some (mkMemDepEntry i [] false 0 false) ->
  (forall q, q ∈ ds -> producer (entries m) (memDepHash m) (sn i) q) ->
  exists m', enqueue m i p ds = Ok m' /\ same_frame m m' /\ wfd zeroD (entries m') (memDepHash m) L /\
    entries m' !! p = Some (mkMemDepEntry i [] (readyToIssue i) (Z.of_nat (length ds)) false) /\
    (forall q, q ∈ ds -> exists e, entries m' !! q = Some e /\ p ∈ dependInsts e) /\
    ready m' = ready m ++ if bool_decide (ds = []) && readyToIssue i then [sn i] else [].
Proof.
  intros Hg Hs Hmem He Hds. destruct ds as [|d ds].
  - cbn [enqueue]. destruct (readyToIssue i) eqn:Hr.
    + erewrite moveToReady_ok; [|simpl; by rewrite lookup_alter_eq, He|done].
      eexists. split; [done|]. split; [done|]. split; [by apply wfd_set_regsReady|].
      split; [simpl; by rewrite lookup_alter_eq, He|]. split; [by intros q ?%not_elem_of_nil|done].
    + exists m. do 3 (split; [done|]). split; [done|]. split; [by intros q ?%not_elem_of_nil|].
      simpl. by rewrite app_nil_r.
  - unfold enqueue. set (l := d :: ds) in *. rewrite foldl_upd_entry.
    set (h1 := alter (set_memDeps (Z.of_nat (length l))) p (entries m)).
    change (entries (upd_entry m p (set_memDeps (Z.of_nat (length l))))) with h1.
    assert (Hp1 : h1 !! p = Some (mkMemDepEntry i [] false (Z.of_nat (length l)) false))
      by (unfold h1; by rewrite lookup_alter_eq, He).
    assert (Hpl : cnt p l = 0%nat).
    { apply (count_occ_not_In Pos.eq_dec). rewrite <- list_elem_of_In. intros Hin.
      destruct (Hds p Hin) as (ep & ? & _ & _ & ?). simplify_eq. simpl in *. lia. }
    assert (Hg2 : wfd zeroD (link_all p h1 l) (memDepHash m) L).
    { eapply wfd_ext; [|eapply (wfd_link_all p l _ h1 _ L (mkMemDepEntry i [] false (Z.of_nat (length l)) false))].
      2: { apply (wfd_alter zeroD _ _ _ (set_memDeps (Z.of_nat (length l))) p (Z.of_nat (length l))); [done| |exact Hg].
           intros e Hee. simplify_eq. simpl. lia. }
      - intros x. unfold zeroD. case_decide; lia.
      - done.
      - done.
      - by rewrite Hp1.
      - intros q Hq. destruct (Hds q Hq) as (eq & Heq & ? & ? & ?). unfold h1.
        destruct (decide (q = p)) as [->|Hne].
        + simplify_eq. simpl in *. lia.
        + exists eq. by rewrite lookup_alter_ne. }
    assert (Hp2 : link_all p h1 l !! p = Some (mkMemDepEntry i [] false (Z.of_nat (length l)) false))
      by (rewrite link_all_lookup, Hp1, Hpl; done).
    assert (Hq2 : forall q, q ∈ l -> exists e, link_all p h1 l !! q = Some e /\ p ∈ dependInsts e).
    { intros q Hq. destruct (Hds q Hq) as (eq & Heq & _).
      assert (Hc : (0 < cnt q l)%nat) by (apply list_elem_of_In, (count_occ_In Pos.eq_dec) in Hq; exact Hq).
      assert (Hqp : q <> p) by (intros ->; lia).
      rewrite link_all_lookup. unfold h1. rewrite lookup_alter_ne, Heq by done. eexists. split; [done|].
      cbn [dependInsts set_dependInsts]. apply elem_of_app. right. apply elem_of_replicate. split; [done|lia]. }
    set (h2 := link_all p h1 l) in *. clearbody h2.
    rewrite app_nil_r. destruct (readyToIssue i) eqn:Hr.
    + eexists. split; [done|]. split; [by destruct (isLoad i)|]. split; [|split; [|split]].
      * destruct (isLoad i); by apply wfd_set_regsReady.
      * destruct (isLoad i); simpl; by rewrite lookup_alter_eq, Hp2.
      * intros q Hq. destruct (Hq2 q Hq) as (e & Heq & ?).
        assert (Hqp : q <> p) by (intros ->; simplify_eq; by apply not_elem_of_nil in H).
        exists e. destruct (isLoad i); simpl; by rewrite lookup_alter_ne.
      * by destruct (isLoad i).
    + eexists. split; [done|]. split; [by destruct (isLoad i)|].
      destruct (isLoad i); done.
Qed.

(** What the load/store queue guarantees: the slots of the store queue hold stores
    or atomics, and only the slot of the new instruction holds it. *)
Definition store_queue_ok (m : MemDepUnit) (i : DynInst) (sqStore : Z -> Z) : Prop :=
  (forall k j, j ∈ insts m -> sn j = sqStore k -> isStore j || isAtomic j = true) /\
  forall k, k <> sqIdx i -> sqStore k <> sn i.

(** The barriers a new instruction has to wait for. *)
Definition must_wait (j i : DynInst) : bool :=
  ((isLoad i || isAtomic i) && (isReadBarrier j || isHtmCmd j)) ||
  ((isStore i || isAtomic i) && (isWriteBarrier j || isHtmCmd j)).

Lemma barrier_deps_spec m B q : q ∈ barrier_deps m B <-> exists s, s ∈ B /\ memDepHash m !! s = Some q.
Proof.
  unfold barrier_deps. rewrite list_elem_of_omap. split; intros (s & Hs & ?); exists s.
  - by rewrite <- elem_of_elements.
  - by rewrite elem_of_elements.
Qed.

Lemma has_dependents_store j : isStore j || isAtomic j = true -> has_dependents j = true.
Proof. unfold has_dependents. intros ->. done. Qed.

Lemma has_dependents_barrier j : isReadBarrier j || isHtmCmd j = true \/ isWriteBarrier j || isHtmCmd j = true ->
  has_dependents j = true.
Proof.
  unfold has_dependents. destruct (isStore j), (isAtomic j), (isReadBarrier j), (isWriteBarrier j), (isHtmCmd j);
    naive_solver.
Qed.

(** The dependences collected by [insert] are older instructions in flight. *)
Lemma collected_ok m i p q s : wfm m -> young m i -> memDepHash m !! sn i = None -> entries m !! p = None ->
  s <> sn i -> <[sn i := p]> (memDepHash m) !! s = Some q ->
  (forall j, j ∈ insts m -> sn j = s -> has_dependents j = true) ->
  producer (<[p := mkMemDepEntry i [] false 0 false]> (entries m)) (<[sn i := p]> (memDepHash m)) (sn i) q.
Proof.
  intros Hm [Hy _] Hn Hp Hne Hq Hd. rewrite lookup_insert_ne in Hq by done.
  destruct (d_live _ _ _ _ (m_graph _ Hm) _ _ Hq) as (e & He & <- & _ & HL).
  exists e. rewrite !lookup_insert_ne; [|done|congruence]. split; [done|]. split; [done|].
  split; [by apply Hd|by apply Hy].
Qed.

(** The barriers in flight, as collected in a state [m2] that extends [m] by the
    new entry. *)
Lemma barriers_collected (f : DynInst -> bool) (B : gset Z) m m2 i p q :
  wfm m -> young m i -> memDepHash m !! sn i = None -> entries m !! p = None ->
  entries m2 = <[p := mkMemDepEntry i [] false 0 false]> (entries m) ->
  memDepHash m2 = <[sn i := p]> (memDepHash m) ->
  (forall s, s ∈ B <-> exists j, j ∈ insts m /\ sn j = s /\ f j = true) ->
  (forall j, f j = true -> has_dependents j = true) ->
  q ∈ barrier_deps m2 B -> producer (entries m2) (memDepHash m2) (sn i) q.
Proof.
  intros Hm Hy Hn Hp He Hh HB Hf Hq. apply barrier_deps_spec in Hq as (s & Hs & Hq).
  rewrite He, Hh in *. apply HB in Hs as (j & Hj & <- & Hfj). pose proof (proj1 Hy j Hj).
  eapply (collected_ok m i p q (sn j)); try done; [lia|]. intros j' Hj' Heq.
  rewrite (sorted_unique (insts m) j' j); auto. apply Hm.
Qed.

Section Collected.
Context (m m2 : MemDepUnit) (i : DynInst) (p : positive).
Hypotheses (Hm : wfm m) (Hy : young m i) (Hn : memDepHash m !! sn i = None) (Hp : entries m !! p = None)
  (He : entries m2 = <[p := mkMemDepEntry i [] false 0 false]> (entries m))
  (Hh : memDepHash m2 = <[sn i := p]> (memDepHash m))
  (Hlb : loadBarrierSNs m2 = loadBarrierSNs m) (Hsb : storeBarrierSNs m2 = storeBarrierSNs m).

Lemma inflight_producers q : q ∈ inflight_barriers m2 i -> producer (entries m2) (memDepHash m2) (sn i) q.
Proof.
  intros Hq. unfold inflight_barriers in Hq. rewrite Hlb, Hsb, elem_of_app in Hq. destruct Hq as [Hq|Hq].
  - destruct (isLoad i || isAtomic i); [|by apply not_elem_of_nil in Hq].
    apply (barriers_collected (fun j => isReadBarrier j || isHtmCmd j) _ m m2 i p q Hm Hy Hn Hp He Hh (m_lb _ Hm));
      [|done]. intros j Hj. apply has_dependents_barrier. by left.
  - destruct (isStore i || isAtomic i); [|by apply not_elem_of_nil in Hq].
    apply (barriers_collected (fun j => isWriteBarrier j || isHtmCmd j) _ m m2 i p q Hm Hy Hn Hp He Hh (m_sb _ Hm));
      [|done]. intros j Hj. apply has_dependents_barrier. by right.
Qed.

(** Every barrier the instruction has to wait for is collected. *)
Lemma inflight_complete j : j ∈ insts m -> must_wait j i = true ->
  exists q, memDepHash m !! sn j = Some q /\ q ∈ inflight_barriers m2 i.
Proof.
  intros Hj Hmw. destruct (wfm_entry m j Hm Hj) as (q & e & Hq & _). exists q. split; [done|].
  assert (Hb : forall B, sn j ∈ B -> q ∈ barrier_deps m2 B).
  { intros B HB. apply barrier_deps_spec. exists (sn j). split; [done|]. pose proof (proj1 Hy j Hj).
    rewrite Hh, lookup_insert_ne by lia. done. }
  unfold inflight_barriers. rewrite elem_of_app, Hlb, Hsb.
  apply orb_true_iff in Hmw as [[-> H2]%andb_true_iff|[-> H2]%andb_true_iff].
  - left. apply Hb, (m_lb _ Hm). eauto.
  - right. apply Hb, (m_sb _ Hm). eauto.
Qed.
End Collected.

(** The last step of the two insertions. *)
Lemma insert_finish m m3 i : wfm m -> threadNumber i = unit_id m -> is_mem i = true ->
  unit_id m3 = unit_id m -> insts m3 = insts m ++ [i] ->
  wfd zeroD (entries m3) (memDepHash m3) (insts m ++ [i]) -> instsToReplay m3 = instsToReplay m ->
  loadBarrierSNs m3 = loadBarrierSNs m -> storeBarrierSNs m3 = storeBarrierSNs m ->
  wfp (depPred m3) -> info_ok (infos m3) ->
  exists m', count_inserted (insertBarrierSN m3 i) i = Ok m' /\ wfm m' /\ unit_id m' = unit_id m /\
    insts m' = insts m ++ [i] /\ memDepHash m' = memDepHash m3 /\ entries m' = entries m3 /\ ready m' = ready m3.
Proof.
  intros Hm Ht Hmem Hid Hins Hg Hr Hlb Hsb Hp Hinf. pose proof Hm as [_ Htid HLB HSB Hrep _ _].
  assert (Hw : wfm (insertBarrierSN m3 i)).
  { split; simpl; change (insts_of (insertBarrierSN m3 i)) with (insts_of m3); rewrite ?Hins; try done.
    - intros j [?| ->%list_elem_of_singleton]%elem_of_app; rewrite Hid; auto.
    - rewrite Hlb. exact (barrier_push (fun j => isReadBarrier j || isHtmCmd j) _ _ i HLB).
    - rewrite Hsb. exact (barrier_push (fun j => isWriteBarrier j || isHtmCmd j) _ _ i HSB).
    - apply (replay_known m (insertBarrierSN m3 i)); simpl; [done|by rewrite Hr|]. change (insts_of (insertBarrierSN m3 i)) with (insts_of m3). rewrite Hins.
      intros j k _ Hk _. apply elem_of_app. by left. }
  unfold count_inserted. unfold is_mem in Hmem.
  destruct (isStore i || isAtomic i) eqn:Hst.
  - eexists. split; [done|]. split; [|done]. destruct Hw. by split.
  - replace (isLoad i) with true by (destruct (isLoad i), (isStore i), (isAtomic i); done).
    eexists. split; [done|]. split; [|done]. destruct Hw. by split.
Qed.

Lemma insert_ok m i hist sh sq : wfm m -> young m i -> in_u 64 (instAddr i) -> is_mem i = true ->
  store_queue_ok m i sq ->
  exists m' p e, insert m i hist sh sq = Ok m' /\ wfm m' /\ unit_id m' = unit_id m /\
    insts m' = insts m ++ [i] /\ memDepHash m' !! sn i = Some p /\ entries m' !! p = Some e /\
    inst e = i /\ regsReady e = readyToIssue i /\
    (forall j, j ∈ insts m -> must_wait j i = true -> blocks m' j i) /\
    ready m' = ready m ++ if (memDeps e =? 0) && readyToIssue i then [sn i] else [].
Proof.
  intros Hm Hy Hpc Hmem [Hsq1 Hsq2].
  destruct (new_entry_ok m i Hm Hy) as (Hp & Hn & Heq & Hw). unfold insert.
  destruct (new_entry m i) as [p m1] eqn:Hnew. cbn [fst snd] in *. clear Hnew.
  assert (Hm1p : depPred m1 = depPred m) by (by rewrite Heq). rewrite Hm1p.
  destruct (checkInst_total (depPred m) (instAddr i) (sn i) hist (isLoad i) (m_pred _ Hm) Hpc)
    as (r & dp & -> & Hdp & Hr0 & Hrl & Hrh). cbn [rbind].
  destruct (predicted_dep_ok (set_depPred m1 dp) i r sh sq) as (d1 & inf & -> & Hinf & Hd1);
    [rewrite Heq; exact (wfm_info m Hm)|done..|].
  set (m2 := set_infos (set_depPred m1 dp) inf).
  assert (Hf : entries m2 = <[p := mkMemDepEntry i [] false 0 false]> (entries m) /\
    memDepHash m2 = <[sn i := p]> (memDepHash m) /\ loadBarrierSNs m2 = loadBarrierSNs m /\
    storeBarrierSNs m2 = storeBarrierSNs m /\ unit_id m2 = unit_id m /\ ready m2 = ready m /\
    instsToReplay m2 = instsToReplay m /\ depPred m2 = dp /\ infos m2 = inf /\ insts m2 = insts m ++ [i]).
  { unfold m2. rewrite Heq. do 9 (split; [done|]). unfold insts_of. simpl. by rewrite lookup_insert_eq. }
  assert (Hhash : memDepHash (set_depPred m1 dp) = memDepHash m2) by done.
  rewrite Hhash in Hd1. assert (Hw2 : wfd zeroD (entries m2) (memDepHash m2) (insts m ++ [i])) by done.
  clearbody m2. clear m1 Heq Hw Hm1p Hhash.
  destruct Hf as (He2 & Hh2 & Hlb2 & Hsb2 & Hid2 & Hr2 & Hrep2 & Hdp2 & Hinf2 & Hins2).
  assert (Hds : forall q, q ∈ d1 ++ inflight_barriers m2 i -> producer (entries m2) (memDepHash m2) (sn i) q).
  { intros q [Hq|Hq]%elem_of_app; [|by eapply (inflight_producers m)].
    destruct (Hd1 q Hq) as (k & Hne & Hk). rewrite He2, Hh2 in *.
    eapply (collected_ok m i p q (sq k)); try done; [by apply Hsq2|]. intros j Hj Hs. eapply has_dependents_store, Hsq1; eauto. }
  destruct (enqueue_ok m2 i p (d1 ++ inflight_barriers m2 i) (insts m ++ [i])) as (m3 & -> & Hfr & Hg3 & Hp3 & Hq3 & Hr3);
    [done|by rewrite Hh2, lookup_insert_eq|done|by rewrite He2, lookup_insert_eq|done|].
  cbn [rbind]. destruct Hfr as (Hid3 & Hh3 & Hil3 & Hrep3 & Hdp3 & Hinf3 & Hlb3 & Hsb3).
  destruct (insert_finish m m3 i Hm (proj2 Hy) Hmem) as (m4 & -> & Hm4 & Hid4 & Hins4 & Hh4 & He4 & Hr4);
    [congruence|unfold insts_of in *; by rewrite Hil3, Hid3|by rewrite Hh3|congruence..|
     by rewrite Hdp3, Hdp2|by rewrite Hinf3, Hinf2|].
  exists m4, p. eexists. do 4 (split; [done|]).
  split; [by rewrite Hh4, Hh3, Hh2, lookup_insert_eq|]. split; [by rewrite He4|]. do 2 (split; [done|]). split.
  - intros j Hj Hmw. split; [rewrite Hins4; apply elem_of_app; by left|].
    exists p. split; [by rewrite Hh4, Hh3, Hh2, lookup_insert_eq|].
    destruct (inflight_complete m m2 i p Hm Hy Hh2 Hlb2 Hsb2 j Hj Hmw) as (q & Hq & Hin).
    destruct (Hq3 q) as (e & Heq & Hpe); [apply elem_of_app; by right|].
    pose proof (proj1 Hy j Hj). rewrite (deps_of_live _ _ _ q e); [done| |by rewrite He4].
    by rewrite Hh4, Hh3, Hh2, lookup_insert_ne by lia.
  - rewrite Hr4, Hr3, Hr2. simpl. f_equal. by destruct (d1 ++ inflight_barriers m2 i).
Qed.

(** ** The unit as a state machine *)

Inductive call :=
| Insert (i : DynInst) (hist : list branchInfo) (storeHead : Z) (sqStore : Z -> Z)
| InsertNonSpec (i : DynInst)
| InsertBarrier (i : DynInst)
| RegsReady (i : DynInst)
| NonSpecInstReady (i : DynInst)
| Reschedule (i : DynInst)
| Replay
| CompleteInst (i : DynInst)
| Squash (squashed_num : Z)
| Violation (store_seq_num dist : Z) (i : DynInst) (hist : list branchInfo)
| TakeOverFrom
| CommitInst (i : DynInst).

Definition exec (m : MemDepUnit) (c : call) : res MemDepUnit :=
  match c with
  | Insert i hist sh sq => insert m i hist sh sq
  | InsertNonSpec i => insertNonSpec m i
  | InsertBarrier i => Ok (insertBarrier m i)
  | RegsReady i => regsReady_ m i
  | NonSpecInstReady i => nonSpecInstReady m i
  | Reschedule i => Ok (reschedule m i)
  | Replay => replay m
  | CompleteInst i => completeInst m i
  | Squash n => squash m n (unit_id m)
  | Violation s d i hist => violation m s d i hist
  | TakeOverFrom => Ok (takeOverFrom m)
  | CommitInst i => commit m i
  end.

(** An instruction completes after its dependences are resolved and after its replay. *)
Definition can_complete (m : MemDepUnit) (i : DynInst) : Prop :=
  known m i /\ (forall j, j ∈ instsToReplay m -> sn j <> sn i) /\ (forall j, ~ blocks m j i).

(** The order in which the pipeline calls the unit: instructions arrive in program
    order, only instructions in flight are named, an instruction completes after
    its dependences are resolved and after its replay, another unit is taken over
    when this one is drained, and commit feeds back loads that were predicted to depend
    on a store.  That a store has filled in what is fed back is assumed here; the code
    does not ensure it ([commit_reads_unset_store]). *)
Definition allowed (m : MemDepUnit) (c : call) : Prop :=
  match c with
  | Insert i _ _ sq => young m i /\ in_u 64 (instAddr i) /\ is_mem i = true /\ store_queue_ok m i sq
  | InsertNonSpec i => young m i /\ is_mem i = true
  | InsertBarrier i => young m i
  | RegsReady i | NonSpecInstReady i => known m i
  | Reschedule i => known m i /\ is_mem i = true
  | Replay | Squash _ => True
  | CompleteInst i => can_complete m i
  | Violation _ _ i _ => in_u 64 (instAddr i)
  | TakeOverFrom => insts m = []
  | CommitInst i => in_u 64 (instAddr i) /\ isLoad i = true /\ predicted (info_of m (sn i)) = true /\
      is_Some (predStore (info_of m (sn i)))
  end.

Lemma can_complete_ok m i : wfm m -> can_complete m i ->
  exists p e m', memDepHash m !! sn i = Some p /\ entries m !! p = Some e /\ completeInst m i = Ok m' /\ wfm m' /\
    unit_id m' = unit_id m /\ insts m' = filter (fun j => sn j <> sn i) (insts m) /\
    ready m' = ready m ++ woken (entries m) (dependInsts e).
Proof.
  intros Hm (Hi & Hr & Hb). destruct (known_entry m i Hm Hi) as (p & e & Hs & He & _).
  destruct (completeInst_ok m i p e) as (m' & H); try done; [|by exists p, e, m'].
  rewrite (live_waits m (sn i) p e Hm Hs He). by apply (waits_zero_iff m i p Hm Hs).
Qed.

Lemma nonSpecInstReady_ok m i : wfm m -> known m i ->
  nonSpecInstReady m i = Ok (set_ready m (ready m ++ [sn i])) /\ wfm (set_ready m (ready m ++ [sn i])).
Proof.
  intros Hm Hi. destruct (known_entry m i Hm Hi) as (p & e & _ & He & Hs & _ & Hq & Hf). unfold nonSpecInstReady.
  rewrite Hf. cbn [rbind]. rewrite (moveToReady_ok _ _ _ He Hq), <- (proj1 Hs). split; [done|]. by apply wfm_ready.
Qed.

Lemma unit_reschedule_ok m i : wfm m -> known m i -> is_mem i = true -> wfm (reschedule m i).
Proof.
  intros Hm Hi Hmem. destruct Hm as [? ? ? ? Hr ? ?]. split; try done. simpl.
  intros j [Hj| ->%list_elem_of_singleton]%elem_of_app; [by apply Hr|done].
Qed.

Lemma unit_insertNonSpec_ok m i : wfm m -> young m i -> is_mem i = true ->
  exists m', insertNonSpec m i = Ok m' /\ wfm m' /\ unit_id m' = unit_id m /\ insts m' = insts m ++ [i] /\ ready m' = ready m.
Proof.
  intros Hm Hy Hmem. unfold insertNonSpec, insertBarrier.
  destruct (new_entry_ok m i Hm Hy) as (_ & _ & Heq & Hw). rewrite Heq in *.
  match goal with |- context [insertBarrierSN ?x i] =>
    destruct (insert_finish m x i Hm (proj2 Hy) Hmem) as (m' & Hr & ? & ? & ? & _ & _ & ?); try done end.
  - unfold insts_of. simpl. by rewrite lookup_insert_eq.
  - apply Hm.
  - exact (wfm_info m Hm).
  - by exists m'.
Qed.

Lemma unit_violation_ok m store_seq_num dist i hist : wfm m -> in_u 64 (instAddr i) ->
  exists dp, violation m store_seq_num dist i hist = Ok (set_depPred m dp) /\ wfm (set_depPred m dp).
Proof.
  intros Hm Hpc. unfold violation. set (x := info_of m (sn i)).
  destruct (violation_total (depPred m) (instAddr i) store_seq_num dist (predicted x)
              (info_predBranchHistLength x) (info_predictorHash x) hist) as (p' & -> & Hp');
    [apply Hm|done|intros _; apply (m_info _ Hm)|].
  cbn [rbind]. eexists. split; [done|]. destruct Hm. by split.
Qed.

Lemma unit_commit_ok m i as_ : wfm m -> in_u 64 (instAddr i) -> predStore (info_of m (sn i)) = Some as_ ->
  exists m', commit m i = Ok m' /\ wfm m'.
Proof.
  intros Hm Hpc Hst. unfold commit. destruct (isStore i); [by exists m|]. rewrite Hst. cbn [deref rbind]. destruct as_ as [a sz].
  destruct (m_info _ Hm (sn i)) as [Hh Hi].
  edestruct (commit_total (depPred m)) as (p' & -> & Hp'); [apply Hm|done|done|done|].
  cbn [rbind]. eexists. split; [done|]. destruct Hm. by split.
Qed.

Lemma exec_ok m c : wfm m -> allowed m c -> exists m', exec m c = Ok m' /\ wfm m'.
Proof.
  intros Hm Hc. destruct c; simpl in *.
  - destruct Hc as (? & ? & ? & ?). edestruct (insert_ok m i hist storeHead sqStore) as (m' & _ & _ & ? & ? & _); eauto.
  - destruct Hc as [Hy Hmem]. destruct (unit_insertNonSpec_ok m i Hm Hy Hmem) as (m' & ? & ? & _). eauto.
  - eexists. split; [done|]. by apply insertBarrier_ok.
  - destruct (regsReady_ok m i Hm Hc) as (m' & _ & _ & ? & ? & _). eauto.
  - destruct (nonSpecInstReady_ok m i Hm Hc) as (-> & ?). eauto.
  - destruct Hc. eexists. split; [done|]. by apply unit_reschedule_ok.
  - destruct (replay_loop_ok (instsToReplay m) m Hm) as (m' & ? & ? & _); [intros i Hi; by apply Hm|done|]. eauto.
  - destruct (can_complete_ok m i Hm Hc) as (p & e & m' & _ & _ & ? & ? & _). eauto.
  - destruct (squash_ok m squashed_num Hm) as (m' & ? & ? & _). eauto.
  - destruct (unit_violation_ok m store_seq_num dist i hist Hm Hc) as (dp & -> & ?). eauto.
  - eexists. split; [done|]. destruct Hm as [? ? ? ? ? Hp ?]. split; try done; simpl.
    + intros s. change (insts_of (takeOverFrom m)) with (insts_of m). rewrite Hc. set_solver.
    + intros s. change (insts_of (takeOverFrom m)) with (insts_of m). rewrite Hc. set_solver.
    + by apply phast_clear_wf.
  - destruct Hc as (Hpc & _ & _ & [as_ Hst]). by apply (unit_commit_ok m i as_).
Qed.

Definition empty_unit (tid : Z) (p : PHAST) : MemDepUnit :=
  mkMemDepUnit tid ∅ ∅ ∅ [] p ∅ ∅ ∅ ∅ [] 0 0 0 0.

Inductive reachable (tid : Z) (p : PHAST) : MemDepUnit -> Prop :=
| reach_init : reachable tid p (empty_unit tid p)
| reach_step m c m' : reachable tid p m -> allowed m c -> exec m c = Ok m' -> reachable tid p m'.

Lemma empty_unit_wfm tid p : wfp p -> wfm (empty_unit tid p).
Proof.
  intros Hp. split; try done; simpl; unfold insts_of; simpl; rewrite ?lookup_empty; simpl.
  - split; [constructor|..]; try (intros; set_solver).
  - intros i Hi. by apply not_elem_of_nil in Hi.
  - set_solver.
  - set_solver.
  - by intros i ?%not_elem_of_nil.
  - intros s. unfold info_of. simpl. rewrite lookup_empty. unfold in_u. simpl. lia.
Qed.

Lemma reachable_wfm tid p m : wfp p -> reachable tid p m -> wfm m.
Proof.
  intros Hp Hr. induction Hr as [|m c m' Hr IH Ha Hx]; [by apply empty_unit_wfm|].
  destruct (exec_ok m c IH Ha) as (m2 & Hx2 & ?). rewrite Hx in Hx2. by injection Hx2 as ->.
Qed.

(** C13: the memory dependence unit never trips one of its assertions.  In every
    state reachable by the calls of the pipeline, the entries, the hash map and
    the instruction list describe the same instructions, the sets of barriers are
    the barriers in flight, every counter [memDeps] equals the number of
    instructions in flight that hold the entry back, and every further allowed
    call succeeds. *)
Theorem unit_safe tid p m : wfp p -> reachable tid p m ->
  wfm m /\ forall c, allowed m c -> is_ok (exec m c) = true.
Proof.
  intros Hp Hr. pose proof (reachable_wfm tid p m Hp Hr) as Hm. split; [done|].
  intros c Ha. by destruct (exec_ok m c Hm Ha) as (m' & -> & _).
Qed.

Definition demo_inst (s : Z) (ld st rb : bool) : DynInst :=
  mkInst s 0 (0x400 + 4 * s) ld st false rb false false true 1 (0x1000 + 8 * s) 8.

Definition demo_unit : MemDepUnit := empty_unit 0 demo_phast.

(** A read barrier and a load behind it. *)
Definition demo_barrier : DynInst := demo_inst 1 false false true.
Definition demo_load : DynInst := demo_inst 2 true false false.
Definition demo_unit1 : MemDepUnit := insertBarrier demo_unit demo_barrier.

Lemma demo_unit_wfm : wfm demo_unit.
Proof. apply empty_unit_wfm, demo_phast_wf. Qed.

Lemma demo_young : young demo_unit demo_barrier.
Proof. split; [|reflexivity]. intros j Hj. by apply not_elem_of_nil in Hj. Qed.

Lemma demo_unit1_wfm : wfm demo_unit1.
Proof. apply insertBarrier_ok; [apply demo_unit_wfm|apply demo_young]. Qed.

Lemma demo_young1 : young demo_unit1 demo_load.
Proof. split; [|reflexivity]. intros j Hj. apply list_elem_of_singleton in Hj as ->. simpl. lia. Qed.

Lemma unit_safe_witness :
  wfm demo_unit1 /\ forall c, allowed demo_unit1 c -> is_ok (exec demo_unit1 c) = true.
Proof.
  apply (unit_safe 0 demo_phast demo_unit1); [apply demo_phast_wf|].
  apply (reach_step 0 demo_phast demo_unit (InsertBarrier demo_barrier) demo_unit1);
    [apply reach_init | apply demo_young | reflexivity].
Defined.

(** C24: insertion respects the barriers.  A new memory instruction is appended to
    the unit with the invariant intact; it is held back by every barrier in
    flight that orders it (read barriers for loads and atomics, write barriers
    for stores and atomics, transactional commands for both), and with such a
    barrier in flight it is not handed to the queue even if its registers are
    ready. *)
Theorem insert_respects_barriers m i hist sh sq :
  wfm m -> young m i -> in_u 64 (instAddr i) -> is_mem i = true -> store_queue_ok m i sq ->
  exists m', insert m i hist sh sq = Ok m' /\ wfm m' /\ insts m' = insts m ++ [i] /\
    (forall j, j ∈ insts m -> must_wait j i = true -> blocks m' j i) /\
    ((exists j, j ∈ insts m /\ must_wait j i = true) -> ready m' = ready m).
Proof.
  intros Hm Hy Hpc Hmem Hsq.
  destruct (insert_ok m i hist sh sq) as (m' & p & e & Hr & Hm' & Hid & Hins & Hs & He & Hie & _ & Hb & Hrd); [done..|].
  exists m'. do 4 (split; [done|]). intros (j & Hj & Hmw). rewrite Hrd.
  destruct (Z.eqb_spec (memDeps e) 0) as [H0|]; [|by rewrite app_nil_r]. exfalso.
  rewrite (live_waits m' (sn i) p e Hm' Hs He) in H0.
  apply (waits_zero_iff m' i p Hm' Hs) with (j := j) in H0. by apply H0, Hb.
Qed.

Lemma insert_respects_barriers_witness :
  exists m', insert demo_unit1 demo_load [] 0 (fun _ => 0) = Ok m' /\ blocks m' demo_barrier demo_load /\
    ready m' = [].
Proof.
  destruct (insert_respects_barriers demo_unit1 demo_load [] 0 (fun _ => 0)) as (m' & ? & _ & _ & Hb & Hr).
  - apply demo_unit1_wfm.
  - apply demo_young1.
  - split; reflexivity || discriminate.
  - reflexivity.
  - split; [|discriminate]. intros k j Hj. apply list_elem_of_singleton in Hj as ->. discriminate.
  - exists m'. split; [assumption|]. split.
    + apply Hb; [by apply list_elem_of_singleton|reflexivity].
    + apply Hr. exists demo_barrier. split; [by apply list_elem_of_singleton|reflexivity].
Defined.

(** [regsReady] hands an instruction to the queue exactly when no instruction
    in flight holds it back. *)
Theorem regsReady_gate m i : wfm m -> known m i ->
  exists m', regsReady_ m i = Ok m' /\ wfm m' /\
    ((forall j, ~ blocks m j i) -> ready m' = ready m ++ [sn i]) /\
    ((exists j, blocks m j i) -> ready m' = ready m).
Proof.
  intros Hm Hi. destruct (regsReady_ok m i Hm Hi) as (m' & p & e & Hr & Hm' & Hs & He & _ & _ & Hrd).
  pose proof (waits_zero_iff m i p Hm Hs) as Hz. rewrite <- (live_waits m (sn i) p e Hm Hs He) in Hz.
  exists m'. do 2 (split; [done|]). rewrite Hrd.
  destruct (Z.eqb_spec (memDeps e) 0) as [H0|H0]; (split; [intros Hno|intros [j Hj]]); try done.
  - by apply Hz with (j := j) in H0.
  - by apply Hz in Hno.
Qed.

Lemma regsReady_gate_witness :
  exists m', regsReady_ demo_unit1 demo_barrier = Ok m' /\ wfm m'.
Proof.
  destruct (regsReady_gate demo_unit1 demo_barrier) as (m' & ? & ? & _);
    [apply demo_unit1_wfm | apply known_self; by apply list_elem_of_singleton | exists m'; split; assumption].
Defined.

Lemma waits_split h hs L i x : StronglySorted (fun i j => sn i < sn j) L -> i ∈ L ->
  waits h hs L x = Z.of_nat (cnt x (deps_of h hs (sn i))) + waits h hs (filter (fun j => sn j <> sn i) L) x.
Proof.
  induction 1 as [|k L Hs IH HF]; intros Hi; [by apply not_elem_of_nil in Hi|].
  rewrite waits_cons. apply elem_of_cons in Hi as [->|Hi].
  - rewrite filter_cons_False by tauto. rewrite list_filter_all; [done|].
    intros j Hj. rewrite Forall_forall in HF. specialize (HF j Hj). lia.
  - rewrite Forall_forall in HF. pose proof (HF i Hi). rewrite filter_cons_True by lia.
    rewrite waits_cons, IH by done. lia.
Qed.

Lemma cnt_pos x l : x ∈ l <-> (0 < cnt x l)%nat.
Proof. rewrite list_elem_of_In. apply (count_occ_In Pos.eq_dec). Qed.

(** The last instruction in flight that holds an entry back. *)
Lemma last_blocker m i j p : wfm m -> i ∈ insts m -> memDepHash m !! sn j = Some p ->
  (forall k, blocks m k j -> k = i) <->
  waits (entries m) (memDepHash m) (insts m) p = Z.of_nat (cnt p (deps_of (entries m) (memDepHash m) (sn i))).
Proof.
  intros Hm Hi Hs. pose proof (d_sorted _ _ _ _ (m_graph _ Hm)) as Hsort.
  rewrite (waits_split _ _ _ i p Hsort Hi). split.
  - intros Hk. rewrite (waits_zero _ _ (filter _ _)); [lia|].
    intros k [Hne HkL]%list_elem_of_filter Hin. apply Hne. f_equal. apply Hk. split; eauto.
  - intros Heq k (HkL & q & Hq & Hin). assert (q = p) as -> by congruence.
    destruct (decide (sn k = sn i)) as [?|Hne]; [by apply (sorted_unique (insts m))|].
    pose proof (waits_pos (entries m) (memDepHash m) (filter (fun j => sn j <> sn i) (insts m)) p k) as Hp.
    rewrite list_elem_of_filter in Hp. specialize (Hp (conj Hne HkL) Hin). lia.
Qed.

(** The instructions woken by [i] are those it was the last one to hold back. *)
Lemma woken_last m i p e : wfm m -> known m i -> memDepHash m !! sn i = Some p -> entries m !! p = Some e ->
  forall s, s ∈ woken (entries m) (dependInsts e) <-> exists j p e, j ∈ insts m /\ sn j = s /\ memDepHash m !! s = Some p /\
    entries m !! p = Some e /\ regsReady e = true /\ (exists k, blocks m k j) /\ (forall k, blocks m k j -> sn k = sn i).
Proof.
  intros Hm Hi Hs He s. rewrite woken_spec.
  destruct (known_entry m i Hm Hi) as (p' & e' & Hs' & He' & Hie & HL & _). assert (p' = p) as -> by congruence.
  assert (e' = e) as -> by congruence. rewrite (proj1 Hie) in *. set (i0 := inst e) in *.
  assert (Hlb : forall j, (forall k, blocks m k j -> sn k = sn i0) <-> forall k, blocks m k j -> k = i0).
  { intros j. split; intros Hk k Hb; [|by rewrite (Hk k Hb)]. apply (sorted_unique (insts m)); [apply Hm|apply Hb|done|by apply Hk]. }
  setoid_rewrite Hlb. pose proof (deps_of_live _ _ _ _ _ Hs He) as Hdeps. split.
  - intros (x & ex & Hx & <- & Hcnt & Hr & Hq).
    assert (Hin : x ∈ dependInsts e) by (apply cnt_pos; lia).
    destruct (d_dep _ _ _ _ (m_graph _ Hm) _ _ _ _ Hs He Hin) as (_ & ex' & ? & _ & Hor).
    assert (ex' = ex) as -> by congruence. destruct Hor as [?|Hl]; [congruence|].
    destruct (d_live _ _ _ _ (m_graph _ Hm) _ _ Hl) as (ex2 & ? & _ & _ & HLx). assert (ex2 = ex) as -> by congruence.
    exists (inst ex), x, ex. do 5 (split; [done|]). split; [exists i0; split; [done|]; exists x; by rewrite Hdeps|].
    apply (last_blocker m i0 (inst ex) x Hm HL Hl).
    rewrite (live_waits m (sn (inst ex)) x ex Hm Hl Hx) in Hcnt. rewrite Hdeps in *.
    pose proof (waits_split (entries m) (memDepHash m) _ i0 x (d_sorted _ _ _ _ (m_graph _ Hm)) HL) as Hsp.
    pose proof (waits_nonneg (entries m) (memDepHash m) (filter (fun j => sn j <> sn i0) (insts m)) x).
    rewrite Hdeps in Hsp. lia.
  - intros (j & x & ex & Hj & <- & Hl & Hx & Hr & (k & Hb) & Hlast). pose proof (Hlast k Hb) as ->. destruct Hb as (_ & x' & Hl' & Hin).
    assert (x' = x) as -> by congruence.
    destruct (d_live _ _ _ _ (m_graph _ Hm) _ _ Hl) as (ex2 & ? & Hsn & Hq & _). assert (ex2 = ex) as -> by congruence.
    exists x, ex. do 2 (split; [done|]). split; [|done].
    apply (last_blocker m i0 j x Hm HL Hl) in Hlast.
    rewrite (live_waits m (sn j) x ex Hm Hl Hx), Hlast, Hdeps. rewrite Hdeps in Hin. apply cnt_pos in Hin. lia.
Qed.

(** C25: completion wakes exactly the right instructions.  When an instruction
    completes it leaves the unit, and the instructions handed to the queue are
    exactly those in flight with ready registers for which it was the last one
    holding them back. *)
Theorem completeInst_wakes_last m i :
  wfm m -> can_complete m i ->
  exists m' R, completeInst m i = Ok m' /\ wfm m' /\ insts m' = filter (fun j => sn j <> sn i) (insts m) /\
    ready m' = ready m ++ R /\
    forall s, s ∈ R <-> exists j p e, j ∈ insts m /\ sn j = s /\ memDepHash m !! s = Some p /\
      entries m !! p = Some e /\ regsReady e = true /\ (exists k, blocks m k j) /\ (forall k, blocks m k j -> sn k = sn i).
Proof.
  intros Hm Hcan. destruct (can_complete_ok m i Hm Hcan) as (p & e & m' & Hs & He & Hc & Hm' & _ & Hins & Hrd).
  exists m', (woken (entries m) (dependInsts e)). do 4 (split; [done|]). by apply (woken_last m i p e Hm (proj1 Hcan)).
Qed.

(** [squash] removes exactly the instructions younger than the given one,
    without a failing assertion, without waking anyone, and with the invariant
    intact: no counter of a surviving instruction is affected. *)
Theorem squash_exact m n : wfm m ->
  exists m', squash m n (unit_id m) = Ok m' /\ wfm m' /\
    insts m' = filter (fun j => sn j <= n) (insts m) /\ ready m' = ready m.
Proof. intros Hm. destruct (squash_ok m n Hm) as (m' & ? & ? & _ & ? & ?). by exists m'. Qed.

Lemma squash_exact_witness :
  exists m', squash demo_unit1 0 0 = Ok m' /\ wfm m' /\ insts_of m' 0 = [].
Proof.
  destruct (squash_exact demo_unit1 0) as (m' & ? & ? & Hi & _); [apply demo_unit1_wfm|].
  exists m'. split; [assumption|]. split; [assumption|].
  assert (Hid : unit_id m' = 0) by (vm_compute in H; injection H as <-; reflexivity).
  rewrite Hid in Hi. exact Hi.
Defined.

Lemma wake_loop_infos i l : isStore i = false -> forall m m', wake_loop i l m = Ok m' -> infos m' = infos m.
Proof.
  intros Hst. induction l as [|d l IH]; intros m m'; cbn [wake_loop]; [by intros [= <-]|].
  intros (m1 & E & H)%rbind_Ok. rewrite (IH _ _ H). unfold wake_one in E. apply rbind_Ok in E as (e & _ & E).
  rewrite Hst, andb_false_r in E. destruct (memDeps e =? 0); [|by injection E as <-].
  destruct (regsReady e && _); [|by injection E as <-]. unfold moveToReady in E.
  apply rbind_Ok in E as (e2 & _ & E). apply rbind_Ok in E as (? & _ & E). by injection E as <-.
Qed.

(** An instruction that is not a store tells the instructions it releases nothing. *)
Lemma completeInst_infos m i m' : isStore i = false -> completeInst m i = Ok m' -> infos m' = infos m.
Proof.
  intros Hst H. unfold completeInst in H. apply rbind_Ok in H as (m1 & E1 & H). apply rbind_Ok in H as (m2 & E2 & H).
  apply rbind_Ok in H as (m3 & E3 & H).
  assert (H1 : infos m1 = infos m).
  { unfold wakeDependents in E1. destruct (negb _); [by injection E1 as <-|]. apply rbind_Ok in E1 as (p & _ & E1).
    apply rbind_Ok in E1 as (e & _ & E1). apply rbind_Ok in E1 as (mw & Ew & E1). injection E1 as <-. exact (wake_loop_infos i _ Hst _ _ Ew). }
  assert (H2 : infos m2 = infos m1).
  { unfold completed in E2. destruct (memDepHash m1 !! sn i); [|done]. apply rbind_Ok in E2 as (e & _ & E2). by injection E2 as <-. }
  assert (H3 : infos m3 = infos m2).
  { destruct (isWriteBarrier i || isHtmCmd i); [apply rbind_Ok in E3 as (? & _ & E3)|]; by injection E3 as <-. }
  destruct (isReadBarrier i || isHtmCmd i); [apply rbind_Ok in H as (? & _ & H)|]; injection H as <-; simpl; congruence.
Qed.

(** The commit of a predicted load may read a store address that was never
    written.  Take any load that is predicted to depend on a store, is not told a
    store's address yet, and has its registers ready.  If the last instruction that
    holds it back is not a store (a barrier, or an atomic), the completion of that
    instruction hands the load to the queue, but only a store that releases a load
    fills in [predStoreAddr] and [predStoreSize]; the feedback to the predictor when
    the load commits then reads these members without a value. *)
Theorem commit_reads_unset_store m i j p e : wfm m -> can_complete m i -> isStore i = false -> isStore j = false ->
  j ∈ insts m -> memDepHash m !! sn j = Some p -> entries m !! p = Some e -> regsReady e = true ->
  (exists k, blocks m k j) -> (forall k, blocks m k j -> sn k = sn i) ->
  predicted (info_of m (sn j)) = true -> predStore (info_of m (sn j)) = None ->
  exists m', completeInst m i = Ok m' /\ wfm m' /\ sn j ∈ ready m' /\ predicted (info_of m' (sn j)) = true /\
    commit m' j = Err NullDeref.
Proof.
  intros Hm Hcan Hsi Hsj Hj Hs He Hr Hk Hlast Hp Hst.
  destruct (can_complete_ok m i Hm Hcan) as (pi & ei & m' & Hsi' & Hei & Hc & Hm' & _ & _ & Hrd).
  assert (Hinf : info_of m' (sn j) = info_of m (sn j)) by (unfold info_of; by rewrite (completeInst_infos m i m' Hsi Hc)).
  exists m'. split; [done|]. split; [done|]. rewrite Hinf. split_and!; [|done|].
  - rewrite Hrd, elem_of_app. right. apply (woken_last m i pi ei Hm (proj1 Hcan) Hsi' Hei). by exists j, p, e.
  - unfold commit. by rewrite Hsj, Hinf, Hst.
Qed.

(** A store, a barrier and a load that is predicted to depend on the store; the store
    has completed, and only the barrier still holds the load back. *)
Module UnsetStore.

Definition store : DynInst := mkInst 10 0 0x500 false true false false false false true 2 0x2000 8.
Definition barrier : DynInst := mkInst 11 0 0x504 false false false true false false true 3 0 0.
Definition load : DynInst := mkInst 12 0 0x400 true false false false false false true 3 0x2000 8.

Definition get (d : MemDepUnit) (r : res MemDepUnit) : MemDepUnit := match r with Ok m => m | Err _ => d end.
Definition step (m : MemDepUnit) (c : call) : MemDepUnit := get m (exec m c).

Definition unit0 : MemDepUnit := step demo_unit (Violation 5 2 load demo_hist).
Definition unit1 : MemDepUnit := step unit0 (Insert store demo_hist 0 (fun _ => 0)).
Definition unit2 : MemDepUnit := step unit1 (InsertBarrier barrier).
Definition unit3 : MemDepUnit := step unit2 (Insert load demo_hist 0 (fun _ => 10)).
Definition unit4 : MemDepUnit := step unit3 (CompleteInst store).

Lemma step_wfm m c : wfm m -> allowed m c -> wfm (step m c).
Proof. intros Hm Hc. unfold step. by destruct (exec_ok m c Hm Hc) as (m' & -> & ?). Qed.

Lemma insts_seen : insts unit0 = [] /\ insts unit1 = [store] /\ insts unit2 = [store; barrier] /\
  insts unit3 = [store; barrier; load] /\ insts unit4 = [barrier; load].
Proof. vm_compute. repeat split. Qed.

Lemma ids_seen : unit_id unit0 = 0 /\ unit_id unit1 = 0 /\ unit_id unit2 = 0 /\ instsToReplay unit3 = [] /\ instsToReplay unit4 = [].
Proof. vm_compute. repeat split. Qed.

(** The entries a slot of the hash waits for, by evaluation. *)
Definition holds (m : MemDepUnit) (j i : DynInst) : bool :=
  match memDepHash m !! sn i with
  | Some p => bool_decide (p ∈ deps_of (entries m) (memDepHash m) (sn j))
  | None => false
  end.

Lemma blocks_holds m j i : blocks m j i <-> j ∈ insts m /\ holds m j i = true.
Proof.
  unfold blocks, holds. split.
  - intros (Hj & p & -> & Hin). by rewrite bool_decide_eq_true_2.
  - intros (Hj & H). split; [done|]. destruct (memDepHash m !! sn i) as [p|]; [|done]. exists p. by apply bool_decide_eq_true_1 in H.
Qed.

Lemma holds_seen : forallb (fun j => negb (holds unit3 j store)) [store; barrier; load] = true /\
  forallb (fun j => negb (holds unit4 j barrier)) [barrier; load] = true /\
  holds unit4 barrier load = true /\ holds unit4 load load = false.
Proof. vm_compute. repeat split. Qed.

Lemma not_held m j i l : insts m = l -> forallb (fun j => negb (holds m j i)) l = true -> ~ blocks m j i.
Proof.
  intros <- H [Hj Hh]%blocks_holds. rewrite forallb_forall in H. specialize (H j (proj1 (list_elem_of_In _ _) Hj)). by rewrite Hh in H.
Qed.

Lemma unit4_wfm : wfm unit4.
Proof.
  destruct insts_seen as (I0 & I1 & I2 & I3 & _). destruct ids_seen as (U0 & U1 & U2 & R3 & _).
  apply (step_wfm unit3); [apply (step_wfm unit2); [apply (step_wfm unit1); [apply (step_wfm unit0); [apply step_wfm; [apply demo_unit_wfm|]|]|]|]|].
  - unfold allowed, in_u. clear. simpl. lia.
  - fold unit0. unfold allowed, young, store_queue_ok, in_u. rewrite I0, U0. clear. simpl. split_and!; try lia; set_solver.
  - fold unit1. unfold allowed, young. rewrite I1, U1. clear. split; [|done]. intros j ->%list_elem_of_singleton. done.
  - fold unit2. unfold allowed, young, store_queue_ok, in_u. rewrite I2, U2. clear. split_and!; try done.
    + apply Forall_forall. by repeat constructor.
    + intros _ j [->| ->%list_elem_of_singleton]%elem_of_cons; done.
  - fold unit3. unfold allowed, can_complete. split_and!.
    + apply known_self. rewrite I3. clear. by left.
    + rewrite R3. clear. by intros j ?%not_elem_of_nil.
    + intros j. exact (not_held unit3 j store _ I3 (proj1 holds_seen)).
Qed.

(** The barrier is the last one that holds the load back. *)
Lemma barrier_last : can_complete unit4 barrier /\ load ∈ insts unit4 /\ (exists k, blocks unit4 k load) /\
  forall k, blocks unit4 k load -> sn k = sn barrier.
Proof.
  destruct insts_seen as (_ & _ & _ & _ & I4). destruct ids_seen as (_ & _ & _ & _ & R4). destruct holds_seen as (_ & H4 & Hl1 & Hl2).
  split; [|split; [rewrite I4; right; left|]].
  - split; [apply known_self; rewrite I4; left|]. split; [rewrite R4; intros j Hj; apply not_elem_of_nil in Hj; destruct Hj|].
    intros j. exact (not_held _ j _ _ I4 H4).
  - split; [exists barrier; apply blocks_holds; split; [rewrite I4; left|exact Hl1]|].
    intros k [Hk Hh]%blocks_holds. rewrite I4 in Hk. apply elem_of_cons in Hk as [->|Hk]; [reflexivity|].
    apply list_elem_of_singleton in Hk as ->. rewrite Hl2 in Hh. discriminate Hh.
Qed.

Lemma load_entry : exists p e, memDepHash unit4 !! sn load = Some p /\ entries unit4 !! p = Some e /\ regsReady e = true.
Proof. eexists _, _. split; [|split]; vm_compute; reflexivity. Qed.

End UnsetStore.

Lemma commit_reads_unset_store_witness : exists m', completeInst UnsetStore.unit4 UnsetStore.barrier = Ok m' /\
  12 ∈ ready m' /\ commit m' UnsetStore.load = Err NullDeref.
Proof.
  destruct UnsetStore.barrier_last as (Hc & Hin & Hk & Hlast). destruct UnsetStore.load_entry as (p & e & Hp & He & Hr).
  destruct (commit_reads_unset_store UnsetStore.unit4 UnsetStore.barrier UnsetStore.load p e) as (m' & H1 & _ & H2 & _ & H3);
    [exact UnsetStore.unit4_wfm|exact Hc|reflexivity|reflexivity|exact Hin|exact Hp|exact He|exact Hr|exact Hk|exact Hlast
    |vm_compute; reflexivity|vm_compute; reflexivity|].
  exists m'. split; [exact H1|]. split; [exact H2|exact H3].
Defined.

Lemma completeInst_wakes_last_witness : exists m' R, completeInst UnsetStore.unit4 UnsetStore.barrier = Ok m' /\ wfm m' /\
  ready m' = ready UnsetStore.unit4 ++ R /\ 12 ∈ R.
Proof.
  destruct UnsetStore.barrier_last as (Hc & Hin & Hk & Hlast). destruct UnsetStore.load_entry as (p & e & Hp & He & Hr).
  destruct (completeInst_wakes_last UnsetStore.unit4 UnsetStore.barrier UnsetStore.unit4_wfm Hc) as (m' & R & H1 & H2 & _ & H3 & HR).
  exists m', R. split; [exact H1|]. split; [exact H2|]. split; [exact H3|]. apply HR. exists UnsetStore.load, p, e. repeat split; assumption.
Defined.
