(* ===== verification/AddrRange.v ===== *)
(** * Address ranges

    [base/addr_range.hh]: half-open address ranges, possibly interleaved.  An
    interleaved range holds the addresses of [[start, end)] for which the parity
    of [a & masks[i]] is bit [i] of [intlvMatch]. *)

From Stdlib Require Import ZArith Lia Bool.
From stdpp Require Import base tactics option list numbers sorting.
From S2P Require Import Prelude Bitfield.
Open Scope Z_scope.

Record AddrRange := mkRange {
  start_ : Z;           (* Addr _start *)
  end_ : Z;             (* Addr _end *)
  masks : list Z;       (* std::vector<Addr> *)
  intlvMatch : Z        (* uint8_t *)
}.

#[export] Instance AddrRange_eq_dec : EqDecision AddrRange.
Proof. solve_decision. Defined.

(** [ctz64] of [base/bitfield.hh]. *)
Fixpoint pos_ctz (p : positive) : Z :=
  match p with xO p => 1 + pos_ctz p | _ => 0 end.

Definition ctz64 (value : Z) : Z :=
  match value with Zpos p => pos_ctz p | _ => 64 end.

(** ** Constructors *)

Definition AddrRange_default : AddrRange := mkRange 1 0 [] 0.

(** [1ULL << n], undefined from 64 up. *)
Definition shl1 (n : Z) : res Z := if (0 <=? n) && (n <? 64) then Ok (Z.shiftl 1 n) else Err OutOfRange.

Definition AddrRange_masks (s e : Z) (ms : list Z) (m : Z) : res AddrRange :=
  if bool_decide (ms = []) then Ok (mkRange s e ms m) else
  let! limit := shl1 (Z.of_nat (length ms)) in
  if limit <=? m then Err Fatal else Ok (mkRange s e ms m).

(** [masks[_intlv_bits - i - 1]]: the highest bit is the last mask. *)
Fixpoint bit_masks (high xor_high : Z) (n : nat) : res (list Z) :=
  match n with
  | O => Ok []
  | S i =>
      let! mask := shl1 (wrap 8 (high - Z.of_nat i)) in
      let! mask := (if xor_high =? 0 then Ok mask
                    else let! m2 := shl1 (wrap 8 (xor_high - Z.of_nat i)) in Ok (Z.lor mask m2)) in
      let! ms := bit_masks high xor_high i in
      Ok (mask :: ms)
  end.

Definition AddrRange_bits (s e intlv_high xor_high : Z) (intlv_bits : nat) (m : Z) : res AddrRange :=
  let n := Z.of_nat intlv_bits in
  let! _ := (if n =? 0 then Ok tt
             else let! limit := shl1 n in if limit <=? m then Err Fatal else Ok tt) in
  let! _ := (if (n =? 0) || (xor_high =? 0) then Ok tt
             else if xor_high =? intlv_high then Err Fatal
             else if intlv_high <? xor_high then
               if xor_high - intlv_high <? n then Err Fatal else Ok tt
             else if intlv_high - xor_high <? n then Err Fatal else Ok tt) in
  let! ms := bit_masks intlv_high xor_high intlv_bits in
  Ok (mkRange s e ms m).

Definition AddrRange_plain (s e : Z) : AddrRange := mkRange s e [] 0.
Definition RangeEx (s e : Z) : AddrRange := AddrRange_plain s e.
Definition RangeIn (s e : Z) : AddrRange := AddrRange_plain s (wrap 64 (e + 1)).
Definition RangeSize (s size : Z) : AddrRange := AddrRange_plain s (wrap 64 (s + size)).

(** ** Queries *)

Definition interleaved (r : AddrRange) : bool := negb (bool_decide (masks r = [])).

Definition size (r : AddrRange) : Z := Z.shiftr (wrap 64 (end_ r - start_ r)) (Z.of_nat (length (masks r))).

(** [auto combined_mask = 0] is an [int]. *)
Definition granularity (r : AddrRange) : res Z :=
  if interleaved r then
    let combined_mask := foldl (fun c m => swrap 32 (Z.lor (wrap 64 c) m)) 0 (masks r) in
    let lowest_bit := ctz64 (wrap 64 combined_mask) in
    shl1 lowest_bit
  else Ok (size r).

Definition stripes (r : AddrRange) : res Z :=
  let! n := shl1 (Z.of_nat (length (masks r))) in Ok (wrap 32 n).

Definition valid (r : AddrRange) : bool := start_ r <=? end_ r.

Definition mergesWith (this r : AddrRange) : bool :=
  (start_ r =? start_ this) && (end_ r =? end_ this) && bool_decide (masks r = masks this).

(** [sel |= (popCount(a & masks[i]) % 2) << i]. *)
Fixpoint sel_loop (a : Z) (ms : list Z) (i : Z) (sel : Z) : Z :=
  match ms with
  | [] => sel
  | m :: ms => sel_loop a ms (i + 1) (Z.lor sel (Z.shiftl (popCount (Z.land a m) mod 2) i))
  end.

Definition contains (r : AddrRange) (a : Z) : bool :=
  if (start_ r <=? a) && (a <? end_ r) then sel_loop a (masks r) 0 0 =? intlvMatch r else false.

Definition intersects (this r : AddrRange) : res bool :=
  if (end_ r <=? start_ this) || (end_ this <=? start_ r) then Ok false
  else if negb (interleaved this) && negb (interleaved r) then Ok true
  else if size r =? 1 then Ok (contains this (start_ r))
  else if mergesWith this r then Ok (intlvMatch this =? intlvMatch r)
  else Err Panicked.

Definition isSubset (this r : AddrRange) : res bool :=
  if interleaved this then Err Panicked else
  if interleaved r then
    if contains r (start_ this) && contains r (wrap 64 (end_ this - 1)) then
      let! g := granularity r in Ok (size this <=? g)
    else Ok false
  else if end_ this <=? start_ this then Ok ((start_ r <=? start_ this) && (end_ r =? 0))
  else if end_ r <=? start_ r then Ok (start_ r <=? start_ this)
  else Ok ((start_ r <=? start_ this) && (end_ this <=? end_ r)).

(** The constructor that merges the ranges of all the channels. *)
Fixpoint merge_check (this : AddrRange) (rs : list AddrRange) (match_ : Z) : res unit :=
  match rs with
  | [] => Ok tt
  | r :: rs =>
      if negb (mergesWith this r) then Err Fatal
      else if negb (intlvMatch r =? match_) then Err Fatal
      else merge_check this rs (wrap 8 (match_ + 1))
  end.

Definition AddrRange_merge (rs : list AddrRange) : res AddrRange :=
  match rs with
  | [] => Ok AddrRange_default
  | [r] => Ok r
  | r :: _ =>
      let! n := shl1 (Z.of_nat (length (masks r))) in
      if negb (Z.of_nat (length rs) =? n) then Err Fatal else
      let! _ := merge_check r rs 0 in
      Ok (mkRange (start_ r) (end_ r) [] 0)
  end.

(** ** Interleaving bits *)

Definition masks_lsb (r : AddrRange) : list Z := merge_sort Z.le (map ctz64 (masks r)).

Fixpoint remove_loop (bs : list Z) (i a : Z) : Z :=
  match bs with
  | [] => a
  | b :: bs =>
      remove_loop bs (i + 1)
        (if 0 <? b then insertBits 64 (Z.shiftr a 1) (b - i - 1) 0 a else Z.shiftr a 1)
  end.

Definition removeIntlvBits (r : AddrRange) (a : Z) : Z :=
  if negb (interleaved r) then a else remove_loop (masks_lsb r) 0 a.

Fixpoint add_loop (bs : list Z) (a : Z) : Z :=
  match bs with
  | [] => a
  | b :: bs =>
      add_loop bs (if 0 <? b then insertBits 64 (wrap 64 (Z.shiftl a 1)) (b - 1) 0 a
                   else wrap 64 (Z.shiftl a 1))
  end.

(** [~(1 << lsb)] is computed in [int]. *)
Fixpoint select_loop (ms : list Z) (i match_ a : Z) : Z :=
  match ms with
  | [] => a
  | m :: ms =>
      let lsb := ctz64 m in
      let intlv_bit := bit match_ i in
      let masked := Z.land (Z.land a m) (wrap 64 (Z.lnot (swrap 32 (Z.shiftl 1 lsb)))) in
      select_loop ms (i + 1) match_ (insertBit 64 a lsb (Z.lxor intlv_bit (popCount masked)))
  end.

Definition addIntlvBits (r : AddrRange) (a : Z) : Z :=
  if negb (interleaved r) then a else
  select_loop (masks r) 0 (intlvMatch r) (add_loop (masks_lsb r) a).

Definition getOffset (r : AddrRange) (a : Z) : Z :=
  if negb ((start_ r <=? a) && (a <? end_ r)) then MaxAddr else
  if interleaved r then wrap 64 (removeIntlvBits r a - removeIntlvBits r (start_ r))
  else wrap 64 (a - start_ r).

(** ** Set operations *)

Definition range_lt (this r : AddrRange) : bool :=
  if negb (start_ this =? start_ r) then start_ this <? start_ r
  else if interleaved this && interleaved r then intlvMatch this <? intlvMatch r
  else interleaved this.

Definition range_eq (this r : AddrRange) : bool :=
  (start_ this =? start_ r) && (end_ this =? end_ r) && bool_decide (masks this = masks r) &&
  (intlvMatch this =? intlvMatch r).

(** [std::list::sort], a stable sort. *)
Fixpoint sort_insert (x : AddrRange) (l : list AddrRange) : list AddrRange :=
  match l with
  | [] => [x]
  | y :: l' => if range_lt x y then x :: l else y :: sort_insert x l'
  end.

Definition sort (l : list AddrRange) : list AddrRange := foldl (fun acc x => sort_insert x acc) [] l.

Fixpoint exclude_loop (this : AddrRange) (next_start : Z) (es ranges : list AddrRange) : res (list AddrRange) :=
  match es with
  | [] => Ok (if next_start <? end_ this then ranges ++ [AddrRange_plain next_start (end_ this)] else ranges)
  | e :: es =>
      check! negb (interleaved e);
      let! i := intersects this e in
      if negb i then exclude_loop this next_start es ranges
      else if start_ e <=? next_start then
        if end_ e <? end_ this then
          exclude_loop this (if next_start <? end_ e then end_ e else next_start) es ranges
        else Ok ranges
      else
        let ranges := ranges ++ [AddrRange_plain next_start (start_ e)] in
        if end_ e <? end_ this then exclude_loop this (end_ e) es ranges else Ok ranges
  end.

Definition exclude (this : AddrRange) (exclude_ranges : list AddrRange) : res (list AddrRange) :=
  check! negb (interleaved this);
  exclude_loop this (start_ this) (sort exclude_ranges) [].

Fixpoint exclude_all (base to_exclude : list AddrRange) : res (list AddrRange) :=
  match base with
  | [] => Ok []
  | r :: base =>
      let! l := exclude r to_exclude in
      let! ls := exclude_all base to_exclude in
      Ok (l ++ ls)
  end.

(** [exclude(base, to_exclude)], the list versions of [-] and [-=]. *)
Definition exclude_list (base to_exclude : list AddrRange) : res (list AddrRange) :=
  exclude_all base (sort to_exclude).

Definition range_and (this r : AddrRange) : res AddrRange :=
  if interleaved this || interleaved r then Err Panicked else
  let s := Z.max (start_ this) (start_ r) in
  let e := Z.min (end_ this) (end_ r) in
  if e <=? s then Ok (AddrRange_plain 0 0) else Ok (AddrRange_plain s e).

(** ** Trailing zeros *)

Lemma pos_ctz_spec p : lowest_set (Zpos p) (pos_ctz p).
Proof.
  induction p as [p IH|p IH|]; simpl.
  - split; [lia|]. split; [done|]. intros i Hi. apply Z.testbit_neg_r. lia.
  - destruct IH as (H0 & Ht & Hl). split; [lia|].
    replace (Z.pos p~0) with (2 * Z.pos p) by lia. split.
    + rewrite Z.add_comm. change (pos_ctz p + 1) with (Z.succ (pos_ctz p)). by rewrite Z.double_bits_succ.
    + intros i Hi. destruct (Z.lt_trichotomy i 0) as [?|[->|?]];
        [apply Z.testbit_neg_r; lia|by rewrite Z.testbit_even_0|].
      replace i with (Z.succ (i - 1)) by lia. rewrite Z.double_bits_succ. apply Hl. lia.
  - split; [lia|]. split; [done|]. intros i Hi. apply Z.testbit_neg_r. lia.
Qed.

Lemma ctz64_spec m : 0 < m -> lowest_set m (ctz64 m).
Proof. destruct m as [|p|p]; [lia|intros _; apply pos_ctz_spec|lia]. Qed.

(** ** Removing and adding one bit *)

Definition rem1 (a p : Z) : Z :=
  if 0 <? p then insertBits 64 (Z.shiftr a 1) (p - 1) 0 a else Z.shiftr a 1.

Definition add1 (a p : Z) : Z :=
  if 0 <? p then insertBits 64 (wrap 64 (Z.shiftl a 1)) (p - 1) 0 a else wrap 64 (Z.shiftl a 1).

Lemma rem1_spec a p : in_u 64 a -> 0 <= p < 64 -> in_u 64 (rem1 a p) /\
  forall j, 0 <= j -> Z.testbit (rem1 a p) j = Z.testbit a (if j <? p then j else j + 1).
Proof.
  intros Ha Hp. assert (Hs : in_u 64 (Z.shiftr a 1)) by (apply shiftr_range; (done || lia)).
  unfold rem1. destruct (Z.ltb_spec 0 p).
  - split; [apply insertBits_range; (done || lia)|]. intros j Hj.
    rewrite insertBits_testbit by (done || lia). rewrite Z.shiftr_spec by done.
    destruct (Z.leb_spec 0 j), (Z.leb_spec j (p - 1)), (Z.ltb_spec j p); simpl; try lia; f_equal; lia.
  - split; [done|]. intros j Hj. rewrite Z.shiftr_spec by done. destruct (Z.ltb_spec j p); [lia|done].
Qed.

Lemma add1_spec a p : in_u 64 a -> 0 <= p < 64 -> in_u 64 (add1 a p) /\
  forall j, 0 <= j < 64 -> j <> p -> Z.testbit (add1 a p) j = Z.testbit a (if j <? p then j else j - 1).
Proof.
  intros Ha Hp. assert (Hs : in_u 64 (wrap 64 (Z.shiftl a 1))) by (apply wrap_range; lia).
  assert (Hb : forall j, 0 <= j < 64 -> Z.testbit (wrap 64 (Z.shiftl a 1)) j = Z.testbit a (j - 1)).
  { intros j Hj. tb. by destruct (Z.ltb_spec j 64); [|lia]. }
  unfold add1. destruct (Z.ltb_spec 0 p).
  - split; [apply insertBits_range; (done || lia)|]. intros j Hj Hne.
    rewrite insertBits_testbit by (done || lia). rewrite Hb by done.
    destruct (Z.leb_spec 0 j), (Z.leb_spec j (p - 1)), (Z.ltb_spec j p); simpl; try lia; f_equal; lia.
  - split; [done|]. intros j Hj Hne. rewrite Hb by done. destruct (Z.ltb_spec j p); [lia|done].
Qed.

(** ** Removing and adding several bits *)

Definition rank (ps : list Z) (j : Z) : Z := Z.of_nat (length (filter (fun q => q < j) ps)).

Lemma rank_nil j : rank [] j = 0.
Proof. done. Qed.

Lemma rank_snoc ps p j : rank (ps ++ [p]) j = rank ps j + if p <? j then 1 else 0.
Proof.
  unfold rank. rewrite filter_app, length_app. destruct (Z.ltb_spec p j).
  - rewrite filter_cons_True by done. simpl. lia.
  - rewrite filter_cons_False by lia. simpl. lia.
Qed.

(** All the positions of an increasing list below [j]. *)
Lemma rank_all ps j : (forall q, q ∈ ps -> q < j) -> rank ps j = Z.of_nat (length ps).
Proof. intros H. unfold rank. by rewrite list_filter_all. Qed.

Lemma rank_bound ps j p : StronglySorted Z.lt ps -> (forall q, q ∈ ps -> 0 <= q < p) -> 0 <= j <= p ->
  j ∉ ps -> rank ps j <= j /\ Z.of_nat (length ps) - rank ps j <= Z.max 0 (p - 1 - j).
Proof.
  intros Hs. revert j p. induction ps as [|q ps IH] using rev_ind; intros j p Hb Hj Hnin.
  - rewrite rank_nil. simpl. lia.
  - apply StronglySorted_split in Hs as (Hs & _ & Hlt).
    assert (Hq : 0 <= q < p) by (apply Hb, elem_of_app; right; by left).
    assert (Hlt' : forall q', q' ∈ ps -> 0 <= q' < q).
    { intros q' Hq'. split; [apply Hb, elem_of_app; by left|]. apply Hlt; [done|by left]. }
    rewrite rank_snoc, length_app. simpl length.
    assert (Hqj : j <> q) by (intros ->; apply Hnin, elem_of_app; right; by left).
    destruct (Z.ltb_spec q j) as [Hlq|Hlq].
    + rewrite rank_all by (intros q' Hq'; specialize (Hlt' q' Hq'); lia).
      assert (Hn : Z.of_nat (length ps) <= q).
      { destruct (IH Hs q q Hlt' ltac:(lia)) as [Hr _]; [intros Hin; specialize (Hlt' q Hin); lia|].
        rewrite rank_all in Hr; [done|]. intros q' Hq'. by apply Hlt'. }
      lia.
    + destruct (IH Hs j q Hlt') as [H1 H2]; [lia|intros Hin; apply Hnin, elem_of_app; by left|]. lia.
Qed.

Lemma remove_loop_snoc ps p : forall i a,
  remove_loop (ps ++ [p]) i a
  = (let c := remove_loop ps i a in
     if 0 <? p then insertBits 64 (Z.shiftr c 1) (p - (i + Z.of_nat (length ps)) - 1) 0 c else Z.shiftr c 1).
Proof.
  induction ps as [|q ps IH]; intros i a; [simpl; by rewrite Z.add_0_r|].
  cbn [remove_loop app]. rewrite IH. simpl length.
  by replace (i + 1 + Z.of_nat (length ps)) with (i + Z.of_nat (S (length ps))) by lia.
Qed.

Lemma add_loop_snoc ps p : forall a, add_loop (ps ++ [p]) a = add1 (add_loop ps a) p.
Proof. induction ps as [|q ps IH]; intros a; [done|]. cbn [add_loop app]. by rewrite IH. Qed.

(** A field that ends below bit 0 is empty. *)
Lemma insertBits_empty x b : in_u 64 x -> insertBits 64 x (-1) 0 b = x.
Proof.
  intros Hx. unfold insertBits, mask2, mbits. change (mask (-1 +[32] 1)) with 0.
  rewrite Z.land_0_l, Z.land_0_r. change (wrap 64 0) with 0. rewrite Z.land_0_r, Z.lor_0_r.
  apply (bits_ext 64); [lia|..|done|].
  { apply land_range; [lia|]. apply wrap_range. lia. }
  intros i Hi. tb. destruct (Z.ltb_spec i 64); [apply andb_true_r|lia].
Qed.

Lemma rem1_loop c p n : in_u 64 c -> 0 <= n <= p ->
  (if 0 <? p then insertBits 64 (Z.shiftr c 1) (p - n - 1) 0 c else Z.shiftr c 1) = rem1 c (p - n).
Proof.
  intros Hc Hn. unfold rem1. destruct (Z.ltb_spec 0 p), (Z.ltb_spec 0 (p - n)); try done; [|lia].
  replace (p - n - 1) with (-1) by lia. apply insertBits_empty. apply shiftr_range; (done || lia).
Qed.

(** Removing increasing positions moves every other bit down by its rank. *)
Lemma remove_loop_spec ps a : StronglySorted Z.lt ps -> (forall q, q ∈ ps -> 0 <= q < 64) -> in_u 64 a ->
  in_u 64 (remove_loop ps 0 a) /\
  forall j, 0 <= j -> j ∉ ps -> Z.testbit (remove_loop ps 0 a) (j - rank ps j) = Z.testbit a j.
Proof.
  intros Hs Hb Ha. induction ps as [|p ps IH] using rev_ind.
  - split; [done|]. intros j _ _. rewrite rank_nil. cbn [remove_loop]. f_equal. lia.
  - apply StronglySorted_split in Hs as (Hs & _ & Hlt).
    assert (Hp : 0 <= p < 64) by (apply Hb, elem_of_app; right; by left).
    assert (Hlt' : forall q, q ∈ ps -> 0 <= q < p).
    { intros q Hq. split; [apply Hb, elem_of_app; by left|]. apply Hlt; [done|by left]. }
    destruct IH as [Hr IH]; [done|intros q Hq; apply Hb, elem_of_app; by left|].
    assert (Hn : Z.of_nat (length ps) <= p).
    { destruct (rank_bound ps p p Hs Hlt') as [H1 _]; [lia|intros Hin; specialize (Hlt' p Hin); lia|].
      rewrite rank_all in H1; [done|]. intros q Hq. by apply Hlt'. }
    rewrite remove_loop_snoc. cbv zeta. rewrite Z.add_0_l, rem1_loop by (done || lia).
    destruct (rem1_spec (remove_loop ps 0 a) (p - Z.of_nat (length ps)) Hr) as [Hr' Hbit]; [lia|].
    split; [done|]. intros j Hj Hnin. rewrite rank_snoc.
    assert (Hjp : j <> p) by (intros ->; apply Hnin, elem_of_app; right; by left).
    assert (Hjn : j ∉ ps) by (intros Hin; apply Hnin, elem_of_app; by left).
    destruct (Z.ltb_spec p j).
    + rewrite rank_all by (intros q Hq; specialize (Hlt' q Hq); lia).
      rewrite Hbit by lia. destruct (Z.ltb_spec (j - (Z.of_nat (length ps) + 1)) (p - Z.of_nat (length ps))); [lia|].
      rewrite <- (IH j Hj Hjn), rank_all by (intros q Hq; specialize (Hlt' q Hq); lia). f_equal. lia.
    + destruct (rank_bound ps j p Hs Hlt') as [H1 H2]; [lia|done|].
      rewrite Z.add_0_r, Hbit by lia. destruct (Z.ltb_spec (j - rank ps j) (p - Z.of_nat (length ps))); [|lia].
      by apply IH.
Qed.

(** Adding increasing positions moves every bit up past them. *)
Lemma add_loop_spec ps x : StronglySorted Z.lt ps -> (forall q, q ∈ ps -> 0 <= q < 64) -> in_u 64 x ->
  in_u 64 (add_loop ps x) /\
  forall j, 0 <= j < 64 -> j ∉ ps -> Z.testbit (add_loop ps x) j = Z.testbit x (j - rank ps j).
Proof.
  intros Hs Hb Hx. induction ps as [|p ps IH] using rev_ind.
  - split; [done|]. intros j _ _. rewrite rank_nil. cbn [add_loop]. f_equal. lia.
  - apply StronglySorted_split in Hs as (Hs & _ & Hlt).
    assert (Hp : 0 <= p < 64) by (apply Hb, elem_of_app; right; by left).
    assert (Hlt' : forall q, q ∈ ps -> q < p) by (intros q Hq; apply Hlt; [done|by left]).
    destruct IH as [Hr IH]; [done|intros q Hq; apply Hb, elem_of_app; by left|].
    rewrite add_loop_snoc. destruct (add1_spec (add_loop ps x) p Hr Hp) as [Hr' Hbit].
    split; [done|]. intros j Hj Hnin. rewrite rank_snoc.
    assert (Hjp : j <> p) by (intros ->; apply Hnin, elem_of_app; right; by left).
    assert (Hjn : j ∉ ps) by (intros Hin; apply Hnin, elem_of_app; by left).
    rewrite Hbit by done. destruct (Z.ltb_spec j p), (Z.ltb_spec p j); try lia.
    + rewrite IH by done. f_equal. lia.
    + rewrite IH by (lia || intros Hin; specialize (Hlt' _ Hin); lia).
      rewrite !rank_all by (intros q Hq; specialize (Hlt' q Hq); lia). f_equal. lia.
Qed.

(** ** Selecting by parity *)

Lemma count_ones_clear n x y q : 0 <= q -> Z.testbit y q = false ->
  (forall j, 0 <= j < Z.of_nat n -> j <> q -> Z.testbit y j = Z.testbit x j) ->
  count_ones n x = count_ones n y + if q <? Z.of_nat n then Z.b2z (Z.testbit x q) else 0.
Proof.
  intros Hq Hy Hxy. induction n as [|n IH].
  - destruct (Z.ltb_spec q (Z.of_nat 0)); [lia|]. done.
  - rewrite !count_ones_S, IH by (intros j Hj; apply Hxy; lia).
    destruct (Z.eq_dec (Z.of_nat n) q) as [<-|Hne].
    + rewrite Hy. destruct (Z.ltb_spec (Z.of_nat n) (Z.of_nat n)), (Z.ltb_spec (Z.of_nat n) (Z.of_nat (S n))); simpl; lia.
    + rewrite (Hxy (Z.of_nat n)) by lia.
      destruct (Z.ltb_spec q (Z.of_nat n)), (Z.ltb_spec q (Z.of_nat (S n))); lia.
Qed.

(** The parity of the bits of [a] that [m] selects. *)
Definition parity (a m : Z) : bool := Z.odd (popCount (Z.land a m)).

(** [~(1 << lsb)] below the sign bit of an [int]. *)
Lemma not_bit_testbit q j : 0 <= q < 31 -> 0 <= j < 64 ->
  Z.testbit (wrap 64 (Z.lnot (swrap 32 (Z.shiftl 1 q)))) j = negb (j =? q).
Proof.
  intros Hq Hj. rewrite swrap_small; [|lia|].
  - tb. destruct (Z.ltb_spec j 64); [|lia].
    simpl. f_equal. destruct (Z.eqb_spec j q) as [->|Hne]; [by rewrite Z.sub_diag|].
    destruct (Z.ltb_spec j q); [apply Z.testbit_neg_r; lia|].
    replace 1 with (2 ^ 0) by done. apply Z.pow2_bits_false. lia.
  - unfold in_s. rewrite Z.shiftl_1_l. assert (2 ^ q <= 2 ^ 30) by (apply Z.pow_le_mono_r; lia).
    assert (0 < 2 ^ q) by (apply Z.pow_pos_nonneg; lia). simpl. lia.
Qed.

Lemma parity_split a m q : in_u 64 m -> 0 <= q < 31 -> Z.testbit m q = true ->
  parity a m
  = xorb (Z.testbit a q) (Z.odd (popCount (Z.land (Z.land a m) (wrap 64 (Z.lnot (swrap 32 (Z.shiftl 1 q))))))).
Proof.
  intros Hm Hq Ht. unfold parity.
  rewrite !popCount_count_ones by (apply land_range; [lia|]; (done || apply wrap_range; lia)).
  rewrite (count_ones_clear 64 _ (Z.land (Z.land a m) (wrap 64 (Z.lnot (swrap 32 (Z.shiftl 1 q))))) q); [|lia|..].
  - destruct (Z.ltb_spec q (Z.of_nat 64)); [|lia].
    rewrite Z.odd_add, Z.land_spec, Ht, andb_true_r, xorb_comm. f_equal. by destruct (Z.testbit a q).
  - rewrite Z.land_spec, not_bit_testbit, Z.eqb_refl by lia. apply andb_false_r.
  - intros j Hj Hne. rewrite (Z.land_spec (Z.land a m)), not_bit_testbit by lia.
    destruct (Z.eqb_spec j q); [lia|]. by rewrite andb_true_r.
Qed.

Lemma sel_loop_testbit a ms : forall i sel k, 0 <= i -> 0 <= k ->
  Z.testbit (sel_loop a ms i sel) k
  = Z.testbit sel k || (if (i <=? k) then from_option (parity a) false (ms !! Z.to_nat (k - i)) else false).
Proof.
  induction ms as [|m ms IH]; intros i sel k Hi Hk; cbn [sel_loop].
  - destruct (i <=? k); by rewrite orb_false_r.
  - rewrite IH by lia. rewrite Z.lor_spec, <- orb_assoc. f_equal.
    rewrite Z.shiftl_spec, Zmod_odd by lia. fold (parity a m).
    destruct (Z.leb_spec i k), (Z.leb_spec (i + 1) k); try lia.
    + replace (Z.to_nat (k - i)) with (S (Z.to_nat (k - (i + 1)))) by lia. cbn [lookup list_lookup].
      replace (Z.testbit (if parity a m then 1 else 0) (k - i)) with false; [done|].
      destruct (parity a m); [|by rewrite Z.bits_0].
      symmetry. replace 1 with (2 ^ 0) by done. apply Z.pow2_bits_false. lia.
    + replace (k - i) with 0 by lia. change (Z.to_nat 0) with O. cbn [lookup list_lookup from_option].
      by destruct (parity a m).
    + rewrite Z.testbit_neg_r by lia. done.
Qed.

Lemma contains_spec r a k m : contains r a = true -> masks r !! k = Some m ->
  Z.testbit (intlvMatch r) (Z.of_nat k) = parity a m.
Proof.
  unfold contains. destruct (_ && _); [|done]. intros <-%Z.eqb_eq Hm.
  rewrite sel_loop_testbit, Z.bits_0 by lia.
  destruct (Z.leb_spec 0 (Z.of_nat k)); [|lia]. by rewrite Z.sub_0_r, Nat2Z.id, Hm.
Qed.

(** ** Interleaving round trip *)

(** The lowest bit of every mask is in no other mask. *)
Fixpoint separated (ms : list Z) : bool :=
  match ms with
  | [] => true
  | m :: ms =>
      forallb (fun m' => negb (Z.testbit m (ctz64 m')) && negb (Z.testbit m' (ctz64 m))) ms && separated ms
  end.

(** [~(1 << lsb)] is an [int]: the lowest bit has to be below its sign bit. *)
Definition mask_ok (m : Z) : Prop := 0 < m < 2 ^ 64 /\ ctz64 m < 31.

Lemma separated_cons m ms : separated (m :: ms) = true ->
  separated ms = true /\
  forall m', m' ∈ ms -> Z.testbit m (ctz64 m') = false /\ Z.testbit m' (ctz64 m) = false.
Proof.
  cbn [separated]. intros [Hf Hs]%andb_prop. split; [done|]. intros m' Hm'.
  rewrite forallb_forall in Hf. specialize (Hf m' (proj1 (list_elem_of_In _ _) Hm')).
  apply andb_prop in Hf as [H1 H2]. by split; apply negb_true_iff.
Qed.

Lemma lsb_elem j ms : j ∈ map ctz64 ms <-> exists m, j = ctz64 m /\ m ∈ ms.
Proof. rewrite list_elem_of_fmap. naive_solver. Qed.

Lemma mask_ok_lsb m : mask_ok m -> 0 <= ctz64 m < 31 /\ Z.testbit m (ctz64 m) = true /\ in_u 64 m.
Proof. intros [Hm Hl]. destruct (ctz64_spec m) as (H0 & Ht & _); [lia|]. unfold in_u. split; [lia|]. split; [done|lia]. Qed.

Lemma insertBit_testbit a q v j : in_u 64 a -> 0 <= q < 64 -> 0 <= j ->
  Z.testbit (insertBit 64 a q v) j = if j =? q then Z.odd v else Z.testbit a j.
Proof.
  intros Ha Hq Hj. unfold insertBit. rewrite insertBits_testbit by (done || lia).
  destruct (Z.eqb_spec j q) as [->|Hne].
  - rewrite Z.leb_refl, Z.sub_diag. simpl. apply Z.bit0_odd.
  - destruct (Z.leb_spec q j), (Z.leb_spec j q); simpl; done || lia.
Qed.

Lemma bit_odd x i : 0 <= i -> Z.odd (bit x i) = Z.testbit x i.
Proof.
  intros Hi. unfold bit, bits. replace (i - i +[32] 1) with 1 by (by rewrite Z.sub_diag).
  change (mask 1) with 1. by rewrite <- Z.bit0_odd, Z.land_spec, Z.shiftr_spec, andb_true_r by lia.
Qed.

Lemma land_agree a b m : in_u 64 m -> (forall j, 0 <= j < 64 -> Z.testbit m j = true -> Z.testbit a j = Z.testbit b j) ->
  Z.land a m = Z.land b m.
Proof.
  intros Hm H. apply (bits_ext 64); [lia|by apply land_range; [lia|]..|].
  intros i Hi. rewrite !Z.land_spec. destruct (Z.testbit m i) eqn:E; [|by rewrite !andb_false_r].
  by rewrite H.
Qed.

(** One step of the selection loop: the lowest bit of the mask becomes what the
    selector bit asks for. *)
Definition select1 (m i match_ a : Z) : Z :=
  insertBit 64 a (ctz64 m)
    (Z.lxor (bit match_ i)
       (popCount (Z.land (Z.land a m) (wrap 64 (Z.lnot (swrap 32 (Z.shiftl 1 (ctz64 m)))))))).

Lemma select1_spec m i match_ a : in_u 64 a -> mask_ok m -> 0 <= i ->
  in_u 64 (select1 m i match_ a) /\
  (forall j, 0 <= j -> j <> ctz64 m -> Z.testbit (select1 m i match_ a) j = Z.testbit a j) /\
  parity (select1 m i match_ a) m = Z.testbit match_ i.
Proof.
  intros Ha Hm Hi. destruct (mask_ok_lsb m Hm) as (Hq & Ht & Hr). unfold select1.
  set (v := Z.lxor _ _).
  assert (Hoff : forall j, 0 <= j -> j <> ctz64 m -> Z.testbit (insertBit 64 a (ctz64 m) v) j = Z.testbit a j).
  { intros j Hj Hne. rewrite insertBit_testbit by (done || lia). by destruct (Z.eqb_spec j (ctz64 m)). }
  split; [apply insertBits_range; (done || lia)|]. split; [done|].
  rewrite (parity_split _ m (ctz64 m)), insertBit_testbit, Z.eqb_refl by (done || lia).
  unfold v. rewrite <- Z.bit0_odd, Z.lxor_spec, !Z.bit0_odd, bit_odd by lia. fold v.
  rewrite (land_agree (Z.land (insertBit _ _ _ _) m) (Z.land a m)).
  - by rewrite xorb_assoc, xorb_nilpotent, xorb_false_r.
  - apply wrap_range. lia.
  - intros j Hj. rewrite not_bit_testbit by lia. intros Hne%negb_true_iff%Z.eqb_neq.
    by rewrite !Z.land_spec, Hoff by lia.
Qed.

Lemma select_loop_cons m ms i match_ a :
  select_loop (m :: ms) i match_ a = select_loop ms (i + 1) match_ (select1 m i match_ a).
Proof. done. Qed.

Lemma select_loop_spec ms : forall i match_ b, 0 <= i -> in_u 64 b -> Forall mask_ok ms -> separated ms = true ->
  in_u 64 (select_loop ms i match_ b) /\
  (forall j, 0 <= j -> j ∉ map ctz64 ms -> Z.testbit (select_loop ms i match_ b) j = Z.testbit b j) /\
  (forall k m, ms !! k = Some m -> parity (select_loop ms i match_ b) m = Z.testbit match_ (i + Z.of_nat k)).
Proof.
  induction ms as [|m ms IH]; intros i match_ b Hi Hb Hok Hsep; [done|].
  apply Forall_cons in Hok as [Hm Hok]. apply separated_cons in Hsep as [Hsep Hd].
  destruct (select1_spec m i match_ b Hb Hm Hi) as (Hr1 & Hoff1 & Hpar1).
  rewrite select_loop_cons. destruct (IH (i + 1) match_ _ ltac:(lia) Hr1 Hok Hsep) as (Hr & Hoff & Hpar).
  split; [done|]. split.
  - intros j Hj Hnin. cbn [map] in Hnin. apply not_elem_of_cons in Hnin as [Hne Hnin].
    by rewrite Hoff, Hoff1.
  - intros [|k] m' Hk; cbn [lookup list_lookup] in Hk.
    + injection Hk as <-. rewrite Z.add_0_r, <- Hpar1. unfold parity. do 2 f_equal.
      apply land_agree; [by apply mask_ok_lsb|]. intros j Hj Htj. apply Hoff; [lia|].
      intros (m' & -> & Hm')%lsb_elem. destruct (Hd m' Hm') as [Hf _]. congruence.
    + rewrite (Hpar k m' Hk). f_equal. lia.
Qed.

(** An address is determined by its bits outside the lowest bits of the masks
    and by the parities. *)
Lemma parity_unique ms a b : in_u 64 a -> in_u 64 b -> Forall mask_ok ms -> separated ms = true ->
  (forall j, 0 <= j < 64 -> j ∉ map ctz64 ms -> Z.testbit a j = Z.testbit b j) ->
  (forall m, m ∈ ms -> parity a m = parity b m) -> a = b.
Proof.
  intros Ha Hb Hok Hsep Hout Hpar. apply (bits_ext 64); [lia|done|done|]. intros j Hj.
  destruct (decide (j ∈ map ctz64 ms)) as [(m & -> & Hm)%lsb_elem|Hn]; [|by apply Hout].
  pose proof (proj1 (Forall_forall _ _) Hok m Hm) as Hmok. destruct (mask_ok_lsb m Hmok) as (Hq & Ht & Hr).
  pose proof (Hpar m Hm) as Hp. rewrite !(parity_split _ m (ctz64 m)) in Hp by done.
  rewrite (land_agree (Z.land a m) (Z.land b m)) in Hp; [|apply wrap_range; lia|].
  { apply (f_equal (fun x => xorb x (Z.odd (popCount (Z.land (Z.land b m)
      (wrap 64 (Z.lnot (swrap 32 (Z.shiftl 1 (ctz64 m)))))))))) in Hp.
    by rewrite !xorb_assoc, xorb_nilpotent, !xorb_false_r in Hp. }
  intros i Hi. rewrite not_bit_testbit by lia. intros Hne%negb_true_iff%Z.eqb_neq.
  rewrite !Z.land_spec. destruct (Z.testbit m i) eqn:Ei; [|by rewrite !andb_false_r]. f_equal.
  apply Hout; [done|]. intros (m' & -> & Hm')%lsb_elem.
  apply list_elem_of_split in Hm as (l1 & l2 & ->).
  assert (Hsplit : forall x l, separated (l ++ x) = true -> separated x = true).
  { intros x l. induction l as [|y l IHl]; [done|]. intros [H _]%separated_cons. by apply IHl. }
  apply elem_of_app in Hm' as [Hm'|Hm'].
  - apply list_elem_of_split in Hm' as (l3 & l4 & ->). rewrite <- app_assoc in Hsep.
    apply Hsplit, separated_cons in Hsep as [_ Hd].
    destruct (Hd m) as [_ Hf]; [apply elem_of_app; right; by left|congruence].
  - apply Hsplit, separated_cons in Hsep as [_ Hd].
    apply elem_of_cons in Hm' as [->|Hm']; [done|]. destruct (Hd m' Hm') as [Hf _]. congruence.
Qed.

Lemma lsb_NoDup ms : Forall mask_ok ms -> separated ms = true -> NoDup (map ctz64 ms).
Proof.
  induction ms as [|m ms IH]; intros Hok Hsep; [constructor|].
  apply Forall_cons in Hok as [Hm Hok]. apply separated_cons in Hsep as [Hsep Hd].
  cbn [map]. constructor; [|by apply IH]. intros (m' & Heq & Hm')%lsb_elem.
  destruct (Hd m' Hm') as [Hf _]. rewrite <- Heq in Hf. destruct (mask_ok_lsb m Hm) as (_ & Ht & _). congruence.
Qed.

Lemma masks_lsb_spec r : Forall mask_ok (masks r) -> separated (masks r) = true ->
  StronglySorted Z.lt (masks_lsb r) /\ (forall j, j ∈ masks_lsb r <-> j ∈ map ctz64 (masks r)) /\
  (forall q, q ∈ masks_lsb r -> 0 <= q < 64) /\ length (masks_lsb r) = length (masks r).
Proof.
  intros Hok Hsep. unfold masks_lsb. set (l := map ctz64 (masks r)).
  assert (Hp : merge_sort Z.le l ≡ₚ l) by apply merge_sort_Permutation.
  split.
  - assert (Hnd : NoDup (merge_sort Z.le l)) by (rewrite Hp; by apply lsb_NoDup).
    pose proof (StronglySorted_merge_sort Z.le l) as Hss. revert Hnd Hss. generalize (merge_sort Z.le l).
    intros l'. induction l' as [|x l' IH]; intros Hnd Hss; constructor.
    + apply IH; [by apply NoDup_cons in Hnd as [_ ?]|by apply StronglySorted_inv in Hss as [? _]].
    + apply StronglySorted_inv in Hss as [_ Hss]. apply NoDup_cons in Hnd as [Hx _].
      rewrite Forall_forall in *. intros y Hy. specialize (Hss y Hy).
      assert (x <> y) by (intros ->; done). lia.
  - assert (Hin : forall j, j ∈ merge_sort Z.le l <-> j ∈ l) by (intros j; by rewrite Hp).
    split; [done|]. split; [|rewrite Hp; apply length_map].
    intros q Hq. apply Hin, lsb_elem in Hq as (m & -> & Hm).
    rewrite Forall_forall in Hok. destruct (mask_ok_lsb m (Hok m Hm)) as (? & _). lia.
Qed.

(** Every bit below the top [length ps] comes from a position outside [ps]. *)
Lemma rank_surj ps i : StronglySorted Z.lt ps -> (forall q, q ∈ ps -> 0 <= q) -> 0 <= i ->
  exists j, (j ∉ ps) /\ i <= j /\ j - rank ps j = i.
Proof.
  intros Hs Hb Hi. induction ps as [|p ps IH] using rev_ind.
  - exists i. rewrite rank_nil. split; [apply not_elem_of_nil|]. lia.
  - apply StronglySorted_split in Hs as (Hs & _ & Hlt).
    assert (Hlt' : forall q, q ∈ ps -> q < p) by (intros q Hq; apply Hlt; [done|by left]).
    destruct IH as (j & Hn & Hj & Hr); [done|intros q Hq; apply Hb, elem_of_app; by left|].
    destruct (Z.ltb_spec j p).
    + exists j. rewrite rank_snoc. destruct (Z.ltb_spec p j); [lia|]. split; [|lia].
      rewrite elem_of_app, list_elem_of_singleton. intros [?| ->]; [done|lia].
    + exists (j + 1). rewrite rank_snoc. destruct (Z.ltb_spec p (j + 1)); [|lia].
      rewrite rank_all in Hr by (intros q Hq; specialize (Hlt' q Hq); lia).
      rewrite rank_all by (intros q Hq; specialize (Hlt' q Hq); lia). split; [|lia].
      rewrite elem_of_app, list_elem_of_singleton. intros [Hq|Hq]; [specialize (Hlt' _ Hq); lia|lia].
Qed.

Lemma not_interleaved r : interleaved r = false <-> masks r = [].
Proof. unfold interleaved. rewrite negb_false_iff. apply bool_decide_eq_true. Qed.

(** C26: a memory controller strips the channel-selection bits of an address with
    [removeIntlvBits]; [addIntlvBits] restores exactly the address that was
    given, for every address of a range whose masks are such that the lowest bit of
    each is below bit 31 ([mask_ok]) and in no other mask ([separated]).  The
    constructor from bit positions yields separated masks ([bits_constructor_ok]);
    what happens at bit 31 is [roundtrip_at_bit31]. *)
Theorem intlv_roundtrip r a : Forall mask_ok (masks r) -> separated (masks r) = true ->
  in_u 64 a -> contains r a = true ->
  addIntlvBits r (removeIntlvBits r a) = a.
Proof.
  intros Hok Hsep Ha Hc. unfold addIntlvBits, removeIntlvBits.
  destruct (interleaved r) eqn:Ei; [|done]. cbn [negb].
  destruct (masks_lsb_spec r Hok Hsep) as (Hs & Hin & Hb & _).
  destruct (remove_loop_spec _ a Hs Hb Ha) as [Hr Hrem].
  destruct (add_loop_spec _ _ Hs Hb Hr) as [Hr2 Hadd].
  destruct (select_loop_spec (masks r) 0 (intlvMatch r) _ ltac:(lia) Hr2 Hok Hsep) as (Hr3 & Hoff & Hpar).
  apply (parity_unique (masks r)); [done..| |].
  - intros j Hj Hn. rewrite Hoff by (done || lia). rewrite <- Hin in Hn. rewrite Hadd, Hrem by (done || lia). done.
  - intros m (k & Hk)%list_elem_of_lookup. rewrite (Hpar k m Hk), Z.add_0_l. by apply contains_spec.
Qed.

Lemma intlv_roundtrip_witness :
  addIntlvBits (mkRange 0 0x100000 [0x2040; 0x4080] 2)
    (removeIntlvBits (mkRange 0 0x100000 [0x2040; 0x4080] 2) 0x6145) = 0x6145.
Proof.
  apply intlv_roundtrip.
  - repeat constructor.
  - vm_compute. reflexivity.
  - unfold in_u. lia.
  - vm_compute. reflexivity.
Defined.

(** Conversely every channel-local address has a place in the channel:
    [addIntlvBits] yields an address whose selection bits match, and
    [removeIntlvBits] gives the channel-local address back. *)
Theorem intlv_expand r x : Forall mask_ok (masks r) -> separated (masks r) = true ->
  0 <= x < 2 ^ (64 - Z.of_nat (length (masks r))) -> (length (masks r) <= 64)%nat ->
  0 <= intlvMatch r < 2 ^ Z.of_nat (length (masks r)) ->
  sel_loop (addIntlvBits r x) (masks r) 0 0 = intlvMatch r /\ removeIntlvBits r (addIntlvBits r x) = x.
Proof.
  intros Hok Hsep Hx Hlen Hmt. set (n := Z.of_nat (length (masks r))) in *.
  assert (Hx64 : in_u 64 x).
  { split; [lia|]. assert (2 ^ (64 - n) <= 2 ^ 64) by (apply Z.pow_le_mono_r; lia). lia. }
  unfold addIntlvBits, removeIntlvBits. destruct (interleaved r) eqn:Ei; cbn [negb].
  2:{ apply not_interleaved in Ei. split; [|done]. unfold n in *. rewrite Ei in *. simpl in *. lia. }
  destruct (masks_lsb_spec r Hok Hsep) as (Hs & Hin & Hb & Hl).
  destruct (add_loop_spec _ _ Hs Hb Hx64) as [Hr2 Hadd].
  destruct (select_loop_spec (masks r) 0 (intlvMatch r) _ ltac:(lia) Hr2 Hok Hsep) as (Hr3 & Hoff & Hpar).
  destruct (remove_loop_spec _ _ Hs Hb Hr3) as [Hr Hrem]. split.
  - apply Z.bits_inj'. intros k Hk. rewrite sel_loop_testbit, Z.bits_0, Z.sub_0_r by lia.
    destruct (Z.leb_spec 0 k); [|lia]. destruct (masks r !! Z.to_nat k) as [m|] eqn:Em; cbn [from_option orb].
    + rewrite (Hpar _ m Em). f_equal. lia.
    + apply lookup_ge_None in Em. symmetry. apply (high_bits n); unfold in_u; lia.
  - apply Z.bits_inj'. intros i Hi.
    destruct (rank_surj (masks_lsb r) i Hs) as (j & Hn & Hj & <-); [intros q Hq; by apply Hb|done|].
    rewrite Hrem by (done || lia). destruct (Z.ltb_spec j 64).
    + rewrite Hoff by (rewrite <- ?Hin; done || lia). by rewrite Hadd by (done || lia).
    + rewrite (high_bits 64) by (done || lia). symmetry. apply (high_bits (64 - n)); [done| |lia].
      rewrite rank_all by (intros q Hq; specialize (Hb q Hq); lia). lia.
Qed.

Lemma intlv_expand_witness :
  sel_loop (addIntlvBits (mkRange 0 0x100000 [0x2040; 0x4080] 2) 0x1234) [0x2040; 0x4080] 0 0 = 2 /\
  removeIntlvBits (mkRange 0 0x100000 [0x2040; 0x4080] 2)
    (addIntlvBits (mkRange 0 0x100000 [0x2040; 0x4080] 2) 0x1234) = 0x1234.
Proof.
  apply (intlv_expand (mkRange 0 0x100000 [0x2040; 0x4080] 2)).
  - repeat constructor.
  - vm_compute. reflexivity.
  - cbn. lia.
  - cbn. lia.
  - cbn. lia.
Defined.

(** ** The constructor from bit positions *)

Lemma lowest_set_unique x p q : lowest_set x p -> lowest_set x q -> p = q.
Proof.
  intros (_ & Hp & Hlp) (_ & Hq & Hlq). destruct (Z.lt_trichotomy p q) as [Hlt|[?|Hlt]]; [|done|].
  - specialize (Hlq p Hlt). congruence.
  - specialize (Hlp q Hlt). congruence.
Qed.

Lemma shl1_Ok n m : shl1 n = Ok m -> 0 <= n < 64 /\ m = 2 ^ n.
Proof.
  unfold shl1. destruct (Z.leb_spec 0 n), (Z.ltb_spec n 64); cbn [andb]; try done.
  intros Hm. injection Hm as <-. rewrite Z.shiftl_1_l. split; [lia|done].
Qed.

(** The mask of the [i]-th interleaving bit from the top. *)
Definition bit_mask_at (h x i m : Z) : Prop :=
  0 < m < 2 ^ 64 /\ (forall j, 0 <= j -> Z.testbit m j = (j =? h - i) || (negb (x =? 0) && (j =? x - i))) /\
  ctz64 m = (if x =? 0 then h else Z.min h x) - i.

Lemma bit_mask_at_intro h x i m : 0 <= i <= h -> (x <> 0 -> i <= x) -> h - i < 64 -> x - i < 64 -> 0 <= x ->
  m = (if x =? 0 then 2 ^ (h - i) else Z.lor (2 ^ (h - i)) (2 ^ (x - i))) -> bit_mask_at h x i m.
Proof.
  intros Hi Hx Hh Hx64 Hx0 Hm.
  assert (Hp : forall k, 0 <= k < 64 -> in_u 64 (2 ^ k)).
  { intros k Hk. split; [apply Z.pow_nonneg; lia|apply Z.pow_lt_mono_r; lia]. }
  assert (Hr : in_u 64 m).
  { rewrite Hm. destruct (Z.eqb_spec x 0); [apply Hp; lia|]. apply lor_range; [lia|apply Hp; lia..]. }
  assert (Hb : forall j, 0 <= j -> Z.testbit m j = (j =? h - i) || (negb (x =? 0) && (j =? x - i))).
  { intros j Hj. rewrite Hm. destruct (Z.eqb_spec x 0); rewrite ?Z.lor_spec, !Z.pow2_bits_eqb by lia;
      cbn [negb andb]; rewrite ?orb_false_r, ?(Z.eqb_sym j); done. }
  assert (Hl : lowest_set m ((if x =? 0 then h else Z.min h x) - i)).
  { split; [destruct (Z.eqb_spec x 0); lia|]. split.
    - rewrite Hb by (destruct (Z.eqb_spec x 0); lia). case_cmp; cbn; done || lia.
    - intros j Hj. destruct (Z.ltb_spec j 0); [apply Z.testbit_neg_r; lia|]. rewrite Hb by lia.
      revert Hj. case_cmp; cbn; done || lia. }
  assert (Hpos : 0 < m).
  { destruct Hr as [Hr _]. destruct (Z.eq_dec m 0) as [->|]; [|lia]. destruct Hl as (_ & Hl & _).
    by rewrite Z.bits_0 in Hl. }
  split; [unfold in_u in Hr; lia|]. split; [done|].
  apply (lowest_set_unique m); [by apply ctz64_spec|done].
Qed.

Section bits_constructor.
Context (h x : Z) (Hh : 0 <= h < 256) (Hx : 0 <= x < 256).

Lemma bit_masks_cons n ms : Z.of_nat n <= h -> (x <> 0 -> Z.of_nat n <= x) ->
  bit_masks h x (S n) = Ok ms ->
  exists m ms', ms = m :: ms' /\ bit_mask_at h x (Z.of_nat n) m /\ bit_masks h x n = Ok ms'.
Proof.
  intros Hn Hnx (m1 & E1 & E)%rbind_Ok. apply rbind_Ok in E as (m2 & E2 & E). apply rbind_Ok in E as (ms' & E3 & E).
  injection E as <-. apply shl1_Ok in E1 as [Hr1 E1]. rewrite wrap_small in Hr1, E1 by (unfold in_u; lia).
  exists m2, ms'. split; [done|]. split; [|done]. destruct (Z.eqb_spec x 0) as [Hx0|Hx0].
  - injection E2 as <-. apply bit_mask_at_intro; [lia..|]. by rewrite (proj2 (Z.eqb_eq x 0) Hx0).
  - apply rbind_Ok in E2 as (m3 & E4 & E2). injection E2 as <-. apply shl1_Ok in E4 as [Hr4 E4].
    rewrite wrap_small in Hr4, E4 by (unfold in_u; lia).
    apply bit_mask_at_intro; [lia..|]. rewrite (proj2 (Z.eqb_neq x 0) Hx0). by subst.
Qed.

Lemma bit_masks_at n : forall ms, Z.of_nat n <= h + 1 -> (x <> 0 -> Z.of_nat n <= x + 1) ->
  bit_masks h x n = Ok ms -> forall m, m ∈ ms -> exists i, 0 <= i < Z.of_nat n /\ bit_mask_at h x i m.
Proof.
  induction n as [|n IH]; intros ms Hn Hnx E m Hm.
  { injection E as <-. by apply elem_of_nil in Hm. }
  apply bit_masks_cons in E as (m0 & ms' & -> & Hat & E); [|lia..].
  apply elem_of_cons in Hm as [->|Hm]; [exists (Z.of_nat n); split; [lia|done]|].
  destruct (IH ms' ltac:(lia) ltac:(lia) E m Hm) as (i & Hi & Hat'). exists i. split; [lia|done].
Qed.

Lemma bit_masks_separated n : forall ms, Z.of_nat n <= h + 1 -> (x <> 0 -> Z.of_nat n <= x + 1) ->
  (x <> 0 -> Z.of_nat n <= Z.abs (h - x)) ->
  bit_masks h x n = Ok ms -> separated ms = true.
Proof.
  induction n as [|n IH]; intros ms Hn Hnx Hd E; [by injection E as <-|].
  apply bit_masks_cons in E as (m & ms' & -> & (_ & Hb & Hl) & E); [|lia..].
  cbn [separated]. rewrite (IH ms') by (done || lia). rewrite andb_true_r.
  apply forallb_forall. intros m' Hm'%list_elem_of_In.
  destruct (bit_masks_at n ms' ltac:(lia) ltac:(lia) E m' Hm') as (i & Hi & _ & Hb' & Hl').
  rewrite Hl, Hl', Hb, Hb' by (destruct (Z.eqb_spec x 0); lia).
  case_cmp; cbn; done || lia.
Qed.

(** The shifts are in range only if there are enough positions below the high bits. *)
Lemma bit_masks_fit n : forall ms, Z.of_nat n <= 64 -> bit_masks h x n = Ok ms ->
  Z.of_nat n <= h + 1 /\ (x <> 0 -> Z.of_nat n <= x + 1) /\ length ms = n.
Proof.
  assert (Hw : forall v i, 0 <= v < 256 -> 0 <= i < 64 -> 0 <= wrap 8 (v - i) < 64 -> i <= v).
  { intros v i Hv Hi Hr. destruct (Z.leb_spec i v); [done|]. unfold wrap in Hr.
    rewrite <- (Z.mod_unique (v - i) (2 ^ 8) (-1) (v - i + 256)) in Hr by lia. lia. }
  destruct n as [|n]; intros ms Hn E; [injection E as <-; split; [lia|]; split; [lia|done]|].
  assert (Hlen : forall k l, bit_masks h x k = Ok l -> length l = k).
  { induction k as [|k IH]; intros l El; [by injection El as <-|]. apply rbind_Ok in El as (? & _ & El).
    apply rbind_Ok in El as (? & _ & El). apply rbind_Ok in El as (l' & El' & El). injection El as <-. simpl. by rewrite (IH l' El'). }
  pose proof (Hlen _ _ E) as Hl. apply rbind_Ok in E as (m1 & [E1 _]%shl1_Ok & E). apply rbind_Ok in E as (m2 & E2 & _).
  apply Hw in E1; [|lia..]. split; [lia|]. split; [|done]. intros Hx0. destruct (Z.eqb_spec x 0); [done|].
  apply rbind_Ok in E2 as (m3 & [E3 _]%shl1_Ok & _). apply Hw in E3; lia.
Qed.

Lemma bit_masks_first n : forall ms, Z.of_nat (S n) <= h + 1 -> (x <> 0 -> Z.of_nat (S n) <= x + 1) ->
  bit_masks h x (S n) = Ok ms -> exists m, m ∈ ms /\ bit_mask_at h x 0 m.
Proof.
  induction n as [|n IH]; intros ms Hn Hnx E; (apply bit_masks_cons in E as (m & ms' & -> & Hat & E); [|lia..]).
  - exists m. split; [by left|done].
  - destruct (IH ms' ltac:(lia) ltac:(lia) E) as (m' & ? & ?). exists m'. split; [by right|done].
Qed.
End bits_constructor.

(** The checks of the constructor from bit positions give one independent
    selection bit per interleaving bit.  Whenever it succeeds, without a failed check
    and without a shift out of range, there are [n] masks and the lowest bit of each is
    in no other mask; and all the lowest bits are below bit 31, where [addIntlvBits]
    is right, exactly when the range is not interleaved or the lower of the two high
    bits is below 31, which the constructor does not check. *)
Theorem bits_constructor_ok s e h x n m r : 0 <= h < 256 -> 0 <= x < 256 -> AddrRange_bits s e h x n m = Ok r ->
  length (masks r) = n /\ separated (masks r) = true /\
  (Forall mask_ok (masks r) <-> n = 0%nat \/ (if x =? 0 then h else Z.min h x) < 31).
Proof.
  intros Hh Hx (u1 & E1 & E)%rbind_Ok. apply rbind_Ok in E as (u2 & E2 & E).
  apply rbind_Ok in E as (ms & E3 & E). injection E as <-. cbn [masks].
  assert (Hn64 : Z.of_nat n <= 64).
  { destruct (Z.eqb_spec (Z.of_nat n) 0); [lia|]. apply rbind_Ok in E1 as (l & E1%shl1_Ok & _). lia. }
  destruct (bit_masks_fit h x Hh Hx n ms Hn64 E3) as (Hn & Hnx & Hlen).
  split; [done|]. split.
  - apply (bit_masks_separated h x Hh Hx n); try done. intros Hx0. revert E2. case_cmp; cbn [orb]; try done; lia.
  - rewrite Forall_forall. split.
    + intros Hok. destruct n as [|n]; [by left|]. right.
      destruct (bit_masks_first h x Hh Hx n ms Hn Hnx E3) as (m0 & Hm0 & _ & _ & Hl). specialize (Hok m0 Hm0) as [_ Hlt]. lia.
    + intros Hlow m' Hm'. destruct (bit_masks_at h x Hh Hx n ms Hn Hnx E3 m' Hm') as (i & Hi & Hr & _ & Hl).
      split; [done|]. rewrite Hl. destruct Hlow as [->|Hlow]; [simpl in Hi; lia|lia].
Qed.

Lemma bits_constructor_ok_witness :
  length (masks (mkRange 0 0x100000 [0x2040; 0x4080] 2)) = 2%nat /\ separated [0x2040; 0x4080] = true /\ Forall mask_ok [0x2040; 0x4080].
Proof.
  destruct (bits_constructor_ok 0 0x100000 14 7 2 2 (mkRange 0 0x100000 [0x2040; 0x4080] 2)) as (H1 & H2 & H3);
    [lia|lia|reflexivity|].
  split; [exact H1|]. split; [exact H2|]. apply H3. right. simpl. lia.
Defined.

(** ** Plain ranges as sets of addresses *)

Definition plain (r : AddrRange) : Prop := masks r = [] /\ intlvMatch r = 0.

Lemma contains_plain r a : plain r -> contains r a = true <-> start_ r <= a < end_ r.
Proof.
  intros [Hm Hi]. unfold contains. rewrite Hm, Hi.
  destruct (Z.leb_spec (start_ r) a), (Z.ltb_spec a (end_ r)); cbn; split; done || lia.
Qed.

Lemma plain_not_interleaved r : plain r -> interleaved r = false.
Proof. intros [Hm _]. by apply not_interleaved. Qed.

Lemma intersects_plain r1 r2 : plain r1 -> plain r2 ->
  intersects r1 r2 = Ok ((start_ r1 <? end_ r2) && (start_ r2 <? end_ r1)).
Proof.
  intros H1 H2. unfold intersects. rewrite !plain_not_interleaved by done.
  case_cmp; cbn; done || lia.
Qed.

(** On plain ranges the queries are the set operations on addresses:
    [intersects] finds a common address, [isSubset] is inclusion and [&] is
    intersection. *)
Theorem plain_queries_exact r1 r2 : plain r1 -> plain r2 -> start_ r1 < end_ r1 -> start_ r2 < end_ r2 ->
  (exists b, intersects r1 r2 = Ok b /\ (b = true <-> exists a, contains r1 a = true /\ contains r2 a = true)) /\
  (exists b, isSubset r1 r2 = Ok b /\ (b = true <-> forall a, contains r1 a = true -> contains r2 a = true)) /\
  (exists r, range_and r1 r2 = Ok r /\ forall a, contains r a = contains r1 a && contains r2 a).
Proof.
  intros H1 H2 Hv1 Hv2. split; [|split].
  - eexists. split; [by apply intersects_plain|]. rewrite andb_true_iff, !Z.ltb_lt. split.
    + intros Hi. exists (Z.max (start_ r1) (start_ r2)). rewrite !contains_plain by done. lia.
    + intros (a & Ha1 & Ha2). rewrite contains_plain in Ha1, Ha2 by done. lia.
  - unfold isSubset. rewrite !plain_not_interleaved by done.
    destruct (Z.leb_spec (end_ r1) (start_ r1)), (Z.leb_spec (end_ r2) (start_ r2)); try lia.
    eexists. split; [done|]. rewrite andb_true_iff, !Z.leb_le. split.
    + intros Hi a. rewrite !contains_plain by done. lia.
    + intros Hsub. pose proof (Hsub (start_ r1)) as Hs. pose proof (Hsub (end_ r1 - 1)) as He.
      rewrite !contains_plain in Hs, He by done. lia.
  - unfold range_and. rewrite !plain_not_interleaved by done. cbn [orb].
    destruct (Z.leb_spec (Z.min (end_ r1) (end_ r2)) (Z.max (start_ r1) (start_ r2)));
      (eexists; split; [done|]; intros a; apply eq_iff_eq_true; rewrite andb_true_iff, !contains_plain by done;
       cbn; lia).
Qed.

Lemma plain_queries_exact_witness :
  (exists b, intersects (RangeEx 0 8) (RangeSize 4 8) = Ok b /\
     (b = true <-> exists a, contains (RangeEx 0 8) a = true /\ contains (RangeSize 4 8) a = true)) /\
  (exists b, isSubset (RangeEx 0 8) (RangeSize 4 8) = Ok b /\
     (b = true <-> forall a, contains (RangeEx 0 8) a = true -> contains (RangeSize 4 8) a = true)) /\
  (exists r, range_and (RangeEx 0 8) (RangeSize 4 8) = Ok r /\
     forall a, contains r a = contains (RangeEx 0 8) a && contains (RangeSize 4 8) a).
Proof. apply plain_queries_exact; cbn; done || lia. Defined.

(** ** Exclusion *)

Definition starts_le (x y : AddrRange) : Prop := start_ x <= start_ y.

Lemma range_lt_starts x y : if range_lt x y then starts_le x y else starts_le y x.
Proof.
  unfold range_lt, starts_le. destruct (Z.eqb_spec (start_ x) (start_ y)) as [->|Hne]; cbn [negb].
  - by destruct (_ && _), (interleaved x), (intlvMatch x <? intlvMatch y).
  - destruct (Z.ltb_spec (start_ x) (start_ y)); lia.
Qed.

Lemma sort_insert_spec x l : sort_insert x l ≡ₚ x :: l /\
  (StronglySorted starts_le l -> StronglySorted starts_le (sort_insert x l)).
Proof.
  induction l as [|y l [IHp IHs]]; [split; [done|]; intros _; repeat constructor|].
  cbn [sort_insert]. pose proof (range_lt_starts x y) as Hxy. destruct (range_lt x y).
  - split; [done|]. intros Hs. constructor; [done|]. apply StronglySorted_inv in Hs as [_ Hs].
    constructor; [done|]. eapply Forall_impl; [exact Hs|]. unfold starts_le in *. intros z Hz. cbn in *. lia.
  - split; [by rewrite IHp; constructor|]. intros [Hs Hy]%StronglySorted_inv. constructor; [by apply IHs|].
    rewrite IHp. by constructor.
Qed.

Lemma sort_spec l : sort l ≡ₚ l /\ StronglySorted starts_le (sort l).
Proof.
  unfold sort. induction l as [|x l [IHp IHs]] using rev_ind; [split; [done|constructor]|].
  rewrite foldl_app. cbn [foldl]. destruct (sort_insert_spec x (foldl (fun acc x => sort_insert x acc) [] l)) as [Hp Hs].
  split; [|by apply Hs]. by rewrite Hp, IHp, Permutation_cons_append.
Qed.

(** The addresses of [[lo, hi)] outside all the ranges of [es]. *)
Definition outside (es : list AddrRange) (lo hi a : Z) : Prop :=
  lo <= a < hi /\ forall e, e ∈ es -> ~ (start_ e <= a < end_ e).

(** Disjoint, in ascending order and not empty, within [[lo, hi)]. *)
Fixpoint ascending (lo hi : Z) (rs : list AddrRange) : Prop :=
  match rs with
  | [] => True
  | r :: rs => plain r /\ lo <= start_ r < end_ r /\ end_ r <= hi /\ ascending (end_ r) hi rs
  end.

Lemma ascending_weaken lo lo' hi rs : lo' <= lo -> ascending lo hi rs -> ascending lo' hi rs.
Proof. destruct rs as [|r rs]; cbn; [done|]. intros ? (? & ? & ? & ?). split_and!; (done || lia). Qed.

Section exclude.
Context (this : AddrRange) (Hthis : plain this).

Lemma outside_cons e es lo a : outside (e :: es) lo (end_ this) a <-> outside es lo (end_ this) a /\ ~ (start_ e <= a < end_ e).
Proof.
  unfold outside. split.
  - intros [Hr Hf]. split; [split; [done|]|]; intros; apply Hf; (by right) || (by left).
  - intros [[Hr Hf] He]. split; [done|]. intros e' [->|Hin]%elem_of_cons; [done|by apply Hf].
Qed.

(** What remains when [e] takes everything from [lo] up to [lo']. *)
Lemma outside_step e es lo lo' a : lo <= lo' -> start_ e <= lo -> lo' <= Z.max lo (end_ e) ->
  (forall b, lo' <= b < end_ this -> ~ (start_ e <= b < end_ e)) ->
  outside es lo' (end_ this) a <-> outside (e :: es) lo (end_ this) a.
Proof.
  intros H1 H2 H3 H4. rewrite outside_cons. unfold outside. split.
  - intros [Hr Hf]. specialize (H4 a). repeat split; try done; lia.
  - intros [[Hr Hf] He]. split; [lia|done].
Qed.

(** The piece below the start of [e], the lowest of the remaining ranges. *)
Lemma outside_gap e es lo rest a : lo < start_ e -> start_ e <= end_ e -> start_ e < end_ this ->
  Forall (starts_le e) es ->
  ((exists r, r ∈ rest /\ start_ r <= a < end_ r) <-> outside es (end_ e) (end_ this) a) ->
  (exists r, r ∈ AddrRange_plain lo (start_ e) :: rest /\ start_ r <= a < end_ r) <->
  outside (e :: es) lo (end_ this) a.
Proof.
  intros Hlo Hv Hend Hall Hrest. rewrite outside_cons. rewrite Forall_forall in Hall. split.
  - intros (r & [->|Hr]%elem_of_cons & Ha).
    + cbn in Ha. split; [split; [lia|]|lia]. intros e' He'. specialize (Hall e' He'). unfold starts_le in Hall. lia.
    + destruct (proj1 Hrest) as [Hra Hf]; [by exists r|]. split; [split; [lia|done]|lia].
  - intros [[Hra Hf] He]. destruct (Z.ltb_spec a (start_ e)).
    + exists (AddrRange_plain lo (start_ e)). split; [by left|cbn; lia].
    + destruct (proj2 Hrest) as (r & Hr & Har); [split; [lia|done]|]. exists r. split; [by right|done].
Qed.

Lemma exclude_loop_spec es : forall lo ranges, start_ this <= lo ->
  Forall (fun e => plain e /\ start_ e <= end_ e) es -> StronglySorted starts_le es ->
  exists rest, exclude_loop this lo es ranges = Ok (ranges ++ rest) /\ ascending lo (end_ this) rest /\
    forall a, (exists r, r ∈ rest /\ start_ r <= a < end_ r) <-> outside es lo (end_ this) a.
Proof.
  induction es as [|e es IH]; intros lo ranges Hlo Hes Hs; cbn [exclude_loop].
  { destruct (Z.ltb_spec lo (end_ this)).
    - exists [AddrRange_plain lo (end_ this)]. split; [done|]. split; [cbn; repeat split; lia|]. intros a. split.
      + intros (r & ->%list_elem_of_singleton & Ha). split; [done|]. intros e He. by apply elem_of_nil in He.
      + intros [Ha _]. eexists. by split; [left|].
    - exists []. rewrite app_nil_r. split; [done|]. split; [done|]. intros a.
      split; [intros (r & Hr & _); by apply elem_of_nil in Hr|intros [Ha _]; lia]. }
  apply Forall_cons in Hes as [[Hp Hv] Hes]. apply StronglySorted_inv in Hs as [Hs He].
  rewrite plain_not_interleaved, intersects_plain by done. cbn [negb assert_ rbind].
  destruct (Z.ltb_spec (start_ this) (end_ e)), (Z.ltb_spec (start_ e) (end_ this)); cbn [andb negb].
  2-4: destruct (IH lo ranges Hlo Hes Hs) as (rest & -> & Hasc & Hin); exists rest; split; [done|]; split; [done|];
    intros a; rewrite Hin, outside_cons; unfold outside; split; [intros [? ?]; repeat split; try done; lia|tauto].
  destruct (Z.leb_spec (start_ e) lo), (Z.ltb_spec (end_ e) (end_ this)).
  - destruct (IH (if lo <? end_ e then end_ e else lo) ranges) as (rest & -> & Hasc & Hin); [case_cmp; lia|done..|].
    exists rest. split; [done|]. split; [eapply ascending_weaken; [|done]; case_cmp; lia|].
    intros a. rewrite Hin. apply outside_step; try done; case_cmp; lia.
  - exists []. rewrite app_nil_r. split; [done|]. split; [done|]. intros a. rewrite outside_cons.
    split; [intros (r & Hr & _); by apply elem_of_nil in Hr|]. intros [[Ha _] Hn]. lia.
  - destruct (IH (end_ e) (ranges ++ [AddrRange_plain lo (start_ e)])) as (rest & -> & Hasc & Hin); [lia|done..|].
    exists (AddrRange_plain lo (start_ e) :: rest). rewrite <- app_assoc. split; [done|]. split.
    + cbn. repeat split; try lia. eapply ascending_weaken; [|done]. lia.
    + intros a. by apply outside_gap.
  - exists [AddrRange_plain lo (start_ e)]. split; [done|]. split; [cbn; repeat split; lia|].
    intros a. apply outside_gap; [lia..|done|].
    split; [intros (r & Hr & _); by apply elem_of_nil in Hr|intros [Ha _]; lia].
Qed.

Lemma exclude_spec es : Forall (fun e => plain e /\ start_ e <= end_ e) es ->
  exists rs, exclude this es = Ok rs /\ ascending (start_ this) (end_ this) rs /\
    forall a, (exists r, r ∈ rs /\ start_ r <= a < end_ r) <-> outside es (start_ this) (end_ this) a.
Proof.
  intros Hes. destruct (sort_spec es) as [Hp Hs].
  destruct (exclude_loop_spec (sort es) (start_ this) []) as (rs & E & Hasc & Hin); [lia|by rewrite Hp|done|].
  exists rs. split; [|split; [done|]].
  - unfold exclude. rewrite plain_not_interleaved by done. cbn [negb assert_ rbind]. by rewrite E.
  - intros a. rewrite Hin. unfold outside. split; intros [Hr Hf]; split; try done; intros e He; apply Hf;
      [by rewrite Hp|by rewrite <- Hp].
Qed.
End exclude.

Lemma ascending_plain lo hi rs r : ascending lo hi rs -> r ∈ rs -> plain r.
Proof.
  revert lo. induction rs as [|r' rs IH]; intros lo Hasc Hr; [by apply elem_of_nil in Hr|].
  destruct Hasc as (? & _ & _ & Hasc). apply elem_of_cons in Hr as [->|Hr]; [done|by eapply IH].
Qed.

(** C27: excluding plain ranges from a plain range, in any order and with any
    overlaps, leaves exactly the addresses of the range that are in none of them,
    as disjoint non-empty ranges in ascending order. *)
Theorem exclude_correct this es : plain this -> Forall (fun e => plain e /\ valid e = true) es ->
  exists rs, exclude this es = Ok rs /\ ascending (start_ this) (end_ this) rs /\
    forall a, existsb (fun r => contains r a) rs = contains this a && negb (existsb (fun e => contains e a) es).
Proof.
  intros Hthis Hes.
  assert (Hes' : Forall (fun e => plain e /\ start_ e <= end_ e) es).
  { eapply Forall_impl; [exact Hes|]. intros e [Hp Hv]. split; [done|by apply Z.leb_le]. }
  destruct (exclude_spec this Hthis es Hes') as (rs & E & Hasc & Hin). exists rs. do 2 (split; [done|]).
  intros a. apply eq_iff_eq_true. rewrite andb_true_iff, negb_true_iff, contains_plain by done.
  rewrite <- not_true_iff_false, !existsb_exists. rewrite Forall_forall in Hes'.
  transitivity (outside es (start_ this) (end_ this) a).
  - rewrite <- Hin. split; intros (r & Hr & Ha); exists r; rewrite ?list_elem_of_In in *;
      (split; [done|]); apply contains_plain; try done; apply (ascending_plain _ _ _ _ Hasc), list_elem_of_In; done.
  - unfold outside. split; intros [Hr Hf]; (split; [done|]).
    + intros (e & He%list_elem_of_In & Ha). apply (Hf e He), contains_plain; [by apply Hes'|done].
    + intros e He Ha. apply Hf. exists e. split; [by apply list_elem_of_In|].
      apply contains_plain; [by apply Hes'|done].
Qed.

Lemma exclude_correct_witness :
  exists rs, exclude (RangeEx 0 100) [RangeEx 50 60; RangeEx 10 20; RangeEx 15 30] = Ok rs /\
    ascending 0 100 rs /\
    forall a, existsb (fun r => contains r a) rs
      = contains (RangeEx 0 100) a && negb (existsb (fun e => contains e a) [RangeEx 50 60; RangeEx 10 20; RangeEx 15 30]).
Proof. apply (exclude_correct (RangeEx 0 100)); [done|]. repeat constructor. Defined.

(** ** Merging the channels *)

Lemma merge_check_Ok this rs : forall k, merge_check this rs k = Ok tt -> 0 <= k < 256 ->
  forall i r, rs !! i = Some r ->
  start_ r = start_ this /\ end_ r = end_ this /\ masks r = masks this /\
  intlvMatch r = wrap 8 (k + Z.of_nat i).
Proof.
  induction rs as [|r0 rs IH]; intros k E Hk i r Hi; [done|]. cbn [merge_check] in E.
  destruct (mergesWith this r0) eqn:Em; [|done]. destruct (Z.eqb_spec (intlvMatch r0) k) as [Hm|]; [|done].
  cbn [negb] in E. destruct i as [|i]; cbn [lookup list_lookup] in Hi.
  - injection Hi as <-. apply andb_prop in Em as [[Hs He]%andb_prop Hms%bool_decide_eq_true]. b2p. rewrite Z.add_0_r, wrap_small by (unfold in_u; lia). repeat split; congruence.
  - destruct (IH (wrap 8 (k + 1)) E) with (i := i) (r := r) as (H1 & H2 & H3 & H4); [apply (wrap_range 8); lia|done|].
    split_and!; try done. rewrite H4, wrap_add_idemp_l. f_equal. lia.
Qed.

Lemma sel_loop_bound a ms : 0 <= sel_loop a ms 0 0 < 2 ^ Z.of_nat (length ms).
Proof.
  replace (sel_loop a ms 0 0) with (wrap (Z.of_nat (length ms)) (sel_loop a ms 0 0)); [apply wrap_range; lia|].
  apply Z.bits_inj'. intros k Hk. rewrite wrap_spec by lia. destruct (Z.ltb_spec k (Z.of_nat (length ms))); [done|].
  rewrite sel_loop_testbit, Z.bits_0, Z.sub_0_r by lia. destruct (Z.leb_spec 0 k); [|lia].
  rewrite lookup_ge_None_2 by lia. done.
Qed.

(** Merging the interleaved ranges of all the channels gives one range that
    holds exactly the addresses the channels hold together. *)
Theorem merge_covers rs r : (1 < length rs)%nat -> (forall r', r' ∈ rs -> (length (masks r') <= 8)%nat) ->
  AddrRange_merge rs = Ok r ->
  interleaved r = false /\ forall a, contains r a = existsb (fun r' => contains r' a) rs.
Proof.
  intros Hlen H8 E. destruct rs as [|r0 [|r1 rs0]]; cbn in Hlen; [lia..|].
  set (rs := r0 :: r1 :: rs0) in *. change (AddrRange_merge rs) with
    (let! n := shl1 (Z.of_nat (length (masks r0))) in
     if negb (Z.of_nat (length rs) =? n) then Err Fatal else
     let! _ := merge_check r0 rs 0 in Ok (mkRange (start_ r0) (end_ r0) [] 0)) in E.
  apply rbind_Ok in E as (n & E1 & E). apply shl1_Ok in E1 as [Hn ->].
  destruct (Z.eqb_spec (Z.of_nat (length rs)) (2 ^ Z.of_nat (length (masks r0)))) as [Hl|]; [|done].
  cbn [negb] in E. apply rbind_Ok in E as ([] & E2 & E). injection E as <-. split; [done|]. intros a.
  pose proof (merge_check_Ok r0 rs 0 E2 ltac:(lia)) as Hrs.
  apply eq_iff_eq_true. rewrite contains_plain by done. cbn [start_ end_]. rewrite existsb_exists. split.
  - intros Ha. pose proof (sel_loop_bound a (masks r0)) as Hb. set (sel := sel_loop a (masks r0) 0 0) in *.
    destruct (lookup_lt_is_Some_2 rs (Z.to_nat sel)) as [r' Hr']; [lia|].
    destruct (Hrs _ _ Hr') as (Hs & He & Hm & Hi). exists r'. split.
    { by eapply list_elem_of_In, list_elem_of_lookup_2. }
    assert (2 ^ Z.of_nat (length (masks r0)) <= 2 ^ 8).
    { apply Z.pow_le_mono_r; [lia|]. specialize (H8 r0 ltac:(by left)). lia. }
    unfold contains. rewrite Hs, He, Hm, Hi. fold sel.
    rewrite Z.add_0_l, Z2Nat.id, wrap_small by (unfold in_u; lia). case_cmp; cbn; done || lia.
  - intros (r' & Hin & Hc). apply list_elem_of_In, list_elem_of_lookup in Hin as [i Hi].
    destruct (Hrs _ _ Hi) as (Hs & He & _). revert Hc. unfold contains. rewrite Hs, He.
    case_cmp; cbn; done || lia.
Qed.

Lemma merge_covers_witness :
  interleaved (mkRange 0 4096 [] 0) = false /\
  forall a, contains (mkRange 0 4096 [] 0) a
    = existsb (fun r' => contains r' a) [mkRange 0 4096 [0x440] 0; mkRange 0 4096 [0x440] 1].
Proof.
  apply (merge_covers [mkRange 0 4096 [0x440] 0; mkRange 0 4096 [0x440] 1]); [cbn; lia| |reflexivity].
  intros r' [->|[->|Hn]%elem_of_cons]%elem_of_cons; [cbn; lia..|by apply elem_of_nil in Hn].
Defined.

(** ** Masks above the width of an [int] *)

(** [granularity] collects the masks in an [int], so a range that interleaves
    on bits 32 and above has no lowest bit and the result is an undefined shift. *)
Theorem granularity_high_masks r : interleaved r = true ->
  Forall (fun m => m mod 2 ^ 32 = 0) (masks r) -> granularity r = Err OutOfRange.
Proof.
  intros Hi Hm. unfold granularity. rewrite Hi.
  assert (Hc : foldl (fun c m => swrap 32 (Z.lor (wrap 64 c) m)) 0 (masks r) = 0); [|by rewrite Hc].
  induction Hm as [|m ms Hm Hms IH]; [done|]. cbn [foldl]. change (Z.lor (wrap 64 0) m) with m.
  replace (swrap 32 m) with 0; [done|]. rewrite <- (swrap_wrap 32 m). unfold wrap. by rewrite Hm.
Qed.

Lemma granularity_high_masks_witness :
  granularity (mkRange 0 (2 ^ 40) [Z.shiftl 1 32; Z.shiftl 1 33] 1) = Err OutOfRange.
Proof. apply granularity_high_masks; [reflexivity|]. repeat constructor. Defined.

(** Flipping one bit of the mask flips the parity. *)
Lemma parity_flip a b m q : in_u 64 m -> 0 <= q < 64 -> Z.testbit m q = true -> Z.testbit a q = true -> Z.testbit b q = false ->
  (forall j, 0 <= j < 64 -> j <> q -> Z.testbit a j = Z.testbit b j) -> parity a m = negb (parity b m).
Proof.
  intros Hm Hq Ht Ha Hb Hab. unfold parity. rewrite !popCount_count_ones by (apply land_range; [lia|done]).
  rewrite (count_ones_clear 64 (Z.land a m) (Z.land b m) q); [|lia|by rewrite Z.land_spec, Hb|].
  - destruct (Z.ltb_spec q (Z.of_nat 64)); [|lia]. rewrite Z.land_spec, Ha, Ht. cbn [andb Z.b2z]. by rewrite Z.odd_add, xorb_true_r.
  - intros j Hj Hne. rewrite !Z.land_spec, Hab by (done || lia). done.
Qed.

(** A mask whose lowest bit is 31 selects nothing below that bit, and
    [~(1 << 31)], an [int], has no bit above it. *)
Lemma select1_at_bit31 m i match_ a : 0 < m < 2 ^ 64 -> ctz64 m = 31 -> 0 <= i ->
  select1 m i match_ a = insertBit 64 a 31 (bit match_ i).
Proof.
  intros Hm Hl Hi. unfold select1. rewrite Hl. replace (Z.land (Z.land a m) _) with 0; [by rewrite Z.lxor_0_r|].
  symmetry. apply Z.bits_inj'. intros j Hj. rewrite !Z.land_spec, Z.bits_0.
  change (wrap 64 (Z.lnot (swrap 32 (Z.shiftl 1 31)))) with (Z.ones 31). destruct (Z.ltb_spec j 31).
  - destruct (ctz64_spec m) as (_ & _ & Hlow); [lia|]. rewrite Hlow by lia. by rewrite andb_false_r.
  - rewrite Z.ones_spec_high by lia. apply andb_false_r.
Qed.

(** The round trip at bit 31.  [~(1 << lsb)] is an [int] in [addIntlvBits]: for
    every range with one mask whose lowest bit is 31, the other bits of the mask are
    ignored, and an address of the range survives the round trip exactly when its bit
    31 is the selection bit itself; every other address is turned into one that is not
    in the range. *)
Theorem roundtrip_at_bit31 r m a : masks r = [m] -> 0 < m < 2 ^ 64 -> ctz64 m = 31 -> in_u 64 a -> contains r a = true ->
  (addIntlvBits r (removeIntlvBits r a) = a <-> Z.testbit a 31 = Z.testbit (intlvMatch r) 0) /\
  (Z.testbit a 31 <> Z.testbit (intlvMatch r) 0 -> contains r (addIntlvBits r (removeIntlvBits r a)) = false).
Proof.
  intros Hms Hm Hl Ha Hc. unfold addIntlvBits, removeIntlvBits.
  assert (interleaved r = true) as -> by (unfold interleaved; by rewrite Hms). cbn [negb].
  assert (masks_lsb r = [31]) as -> by (unfold masks_lsb; rewrite Hms; cbn [map]; by rewrite Hl).
  assert (Hs : StronglySorted Z.lt [31]) by repeat constructor.
  assert (Hb : forall q, q ∈ [31] -> 0 <= q < 64) by (intros q ->%list_elem_of_singleton; lia).
  destruct (remove_loop_spec _ a Hs Hb Ha) as [Hr Hrem]. destruct (add_loop_spec _ _ Hs Hb Hr) as [Hr2 Hadd].
  set (b := add_loop _ _) in *. rewrite Hms, select_loop_cons, select1_at_bit31 by (done || lia). cbn [select_loop].
  assert (Hoff : forall j, 0 <= j < 64 -> j <> 31 -> Z.testbit (insertBit 64 b 31 (bit (intlvMatch r) 0)) j = Z.testbit a j).
  { intros j Hj Hne. rewrite insertBit_testbit by (done || lia). destruct (Z.eqb_spec j 31); [done|].
    assert (j ∉ [31]) by (by intros ?%list_elem_of_singleton). rewrite Hadd, Hrem by (done || lia). done. }
  assert (H31 : Z.testbit (insertBit 64 b 31 (bit (intlvMatch r) 0)) 31 = Z.testbit (intlvMatch r) 0).
  { rewrite insertBit_testbit by (done || lia). simpl. by rewrite bit_odd. }
  assert (Hru : in_u 64 (insertBit 64 b 31 (bit (intlvMatch r) 0))) by (apply insertBits_range; (done || lia)).
  set (d := insertBit _ _ _ _) in *. split.
  - rewrite <- H31. split; [by intros ->|]. intros Heq. apply (bits_ext 64); [lia|done|done|]. intros j Hj.
    destruct (decide (j = 31)) as [->|Hne]; [done|by apply Hoff].
  - intros Hne. destruct (contains r d) eqn:Hd; [|done]. exfalso.
    pose proof (contains_spec r a 0 m Hc ltac:(by rewrite Hms)) as P1. pose proof (contains_spec r d 0 m Hd ltac:(by rewrite Hms)) as P2.
    rewrite P1 in P2. destruct (ctz64_spec m) as (_ & Hmt & _); [lia|]. rewrite Hl in Hmt.
    assert (Hm64 : in_u 64 m) by (unfold in_u; lia). rewrite <- H31 in Hne.
    destruct (Z.testbit a 31) eqn:Ea, (Z.testbit d 31) eqn:Ed; try done.
    + rewrite (parity_flip a d m 31) in P2 by (try done; try lia; intros; by rewrite Hoff). by destruct (parity d m).
    + rewrite (parity_flip d a m 31) in P2 by (done || lia). by destruct (parity a m).
Qed.

Lemma roundtrip_at_bit31_witness :
  let r := mkRange 0 (2 ^ 40) [Z.shiftl 1 31 + Z.shiftl 1 35] 0 in let a := Z.shiftl 1 31 + Z.shiftl 1 35 in
  contains r a = true /\ contains r (addIntlvBits r (removeIntlvBits r a)) = false.
Proof.
  intros r a. split; [reflexivity|].
  destruct (roundtrip_at_bit31 r (Z.shiftl 1 31 + Z.shiftl 1 35) a) as [_ H];
    [reflexivity|vm_compute; split; reflexivity|reflexivity|vm_compute; split; [discriminate|reflexivity]|reflexivity|].
  apply H. vm_compute. discriminate.
Defined.
