(* ===== verification/Ras.v ===== *)
(** * The return address stack

    [cpu/pred/ras.hh] and [cpu/pred/ras.cc]: a circular stack of return addresses
    per thread.  Every call pushes and every return pops while it is still
    speculative; the record a branch keeps ([RASHistory]) lets a squash undo
    what the branch did.  The statistics and the debug prints are left out. *)

From Stdlib Require Import ZArith Lia Bool.
From stdpp Require Import base tactics option list numbers.
From S2P Require Import Prelude.
Open Scope Z_scope.

(** [enums::BranchType], in the order of [cpu/pred/BranchPredictor.py]. *)
Inductive BranchType : Type :=
| NoBranch | Return | CallDirect | CallIndirect | DirectCond | DirectUncond | IndirectCond | IndirectUncond.

#[export] Instance BranchType_eq_dec : EqDecision BranchType.
Proof. solve_decision. Defined.

Module AddrStack.

Record t (PC : Type) := mk {
  addrStack : list (option PC);   (* std::vector<std::unique_ptr<PCStateBase>> *)
  numEntries : Z;
  usedEntries : Z;
  tos : Z
}.
Arguments mk {PC}.
Arguments addrStack {PC}.
Arguments numEntries {PC}.
Arguments usedEntries {PC}.
Arguments tos {PC}.

Section ops.
Context {PC : Type}.

Definition reset (s : t PC) : t PC := mk (addrStack s) (numEntries s) 0 0.

Definition init (_numEntries : Z) : t PC :=
  reset (mk (replicate (Z.to_nat _numEntries) None) _numEntries 0 0).

Definition top (s : t PC) : res (option PC) := nth_ (addrStack s) (Z.to_nat (tos s)).

Definition incrTos (s : t PC) : t PC :=
  let tos' := tos s +[32] 1 in
  mk (addrStack s) (numEntries s) (usedEntries s) (if tos' =? numEntries s then 0 else tos').

Definition decrTos (s : t PC) : t PC :=
  mk (addrStack s) (numEntries s) (usedEntries s)
    (if tos s =? 0 then numEntries s -[32] 1 else tos s - 1).

Definition incr_used (s : t PC) : Z :=
  if negb (usedEntries s =? numEntries s) then usedEntries s +[32] 1 else usedEntries s.

Definition push (return_addr : PC) (s : t PC) : res (t PC) :=
  let s := incrTos s in
  let! st := upd_ (addrStack s) (Z.to_nat (tos s)) (Some return_addr) in
  Ok (mk st (numEntries s) (incr_used s) (tos s)).

Definition pop (s : t PC) : t PC :=
  decrTos (mk (addrStack s) (numEntries s)
             (if 0 <? usedEntries s then usedEntries s - 1 else usedEntries s) (tos s)).

Definition restore (_tos : Z) (restored : option PC) (s : t PC) : res (t PC) :=
  let! st := upd_ (addrStack s) (Z.to_nat _tos) restored in
  Ok (mk st (numEntries s) (incr_used s) _tos).

Definition empty (s : t PC) : bool := usedEntries s =? 0.
Definition full (s : t PC) : bool := numEntries s <=? usedEntries s.

(** ** The stack it implements *)

Record wf (s : t PC) : Prop := {
  wf_len : Z.of_nat (length (addrStack s)) = numEntries s;
  wf_size : 0 < numEntries s < 2 ^ 32;
  wf_tos : 0 <= tos s < numEntries s;
  wf_used : 0 <= usedEntries s <= numEntries s
}.

(** The slot [k] below the top. *)
Definition slot (s : t PC) (k : nat) : nat := Z.to_nat ((tos s - Z.of_nat k) mod numEntries s).

(** The live entries, the top first. *)
Definition live (s : t PC) : list (option PC) :=
  map (fun k => default None (addrStack s !! slot s k)) (seq 0 (Z.to_nat (usedEntries s))).

Lemma length_live s : length (live s) = Z.to_nat (usedEntries s).
Proof. unfold live. by rewrite length_map, length_seq. Qed.

Lemma live_lookup s k : (k < Z.to_nat (usedEntries s))%nat ->
  live s !! k = Some (default None (addrStack s !! slot s k)).
Proof.
  intros Hk. unfold live. rewrite list_lookup_fmap, lookup_seq_lt by done. done.
Qed.

Lemma slot_lt s k : wf s -> (slot s k < length (addrStack s))%nat.
Proof.
  intros []. unfold slot. pose proof (Z.mod_pos_bound (tos s - Z.of_nat k) (numEntries s) ltac:(lia)). lia.
Qed.

Lemma slot_inj s j k : wf s -> (j < Z.to_nat (numEntries s))%nat -> (k < Z.to_nat (numEntries s))%nat ->
  slot s j = slot s k -> j = k.
Proof.
  intros [_ Hn _ _] Hj Hk. unfold slot. intros E.
  apply Z2Nat.inj in E; [|apply Z.mod_pos_bound; lia..].
  pose proof (Z.div_mod (tos s - Z.of_nat j) (numEntries s) ltac:(lia)) as Ej.
  pose proof (Z.div_mod (tos s - Z.of_nat k) (numEntries s) ltac:(lia)) as Ek.
  rewrite E in Ej. set (qj := (tos s - Z.of_nat j) / numEntries s) in *.
  set (qk := (tos s - Z.of_nat k) / numEntries s) in *.
  assert (Z.of_nat k - Z.of_nat j = numEntries s * (qj - qk)) by lia.
  assert (qj = qk) by nia. lia.
Qed.

(** Two lists of live entries agree when all the slots do. *)
Lemma live_ext s l : length l = Z.to_nat (usedEntries s) ->
  (forall k, (k < Z.to_nat (usedEntries s))%nat -> l !! k = Some (default None (addrStack s !! slot s k))) ->
  live s = l.
Proof.
  intros Hl H. apply list_eq_same_length with (n := Z.to_nat (usedEntries s)); [done|by rewrite length_live|].
  intros k x y Hk Hx Hy. rewrite live_lookup in Hx by done. rewrite H in Hy by done. congruence.
Qed.

Lemma incrTos_mod s : wf s -> tos (incrTos s) = (tos s + 1) mod numEntries s.
Proof.
  intros [_ Hn Ht _]. unfold incrTos. cbn [tos]. rewrite wrap_small by (unfold in_u; lia).
  destruct (Z.eqb_spec (tos s + 1) (numEntries s)) as [->|]; [by rewrite Z_mod_same_full|].
  rewrite Z.mod_small; lia.
Qed.

Lemma decrTos_mod s : wf s -> tos (decrTos s) = (tos s - 1) mod numEntries s.
Proof.
  intros [_ Hn Ht _]. unfold decrTos. cbn [tos]. destruct (Z.eqb_spec (tos s) 0) as [->|].
  - rewrite wrap_small by (unfold in_u; lia). rewrite <- (Z_mod_plus_full (0 - 1) 1), Z.mod_small; lia.
  - rewrite Z.mod_small; lia.
Qed.

Lemma incr_used_min s : wf s -> incr_used s = Z.min (numEntries s) (usedEntries s + 1).
Proof.
  intros [_ Hn _ Hu]. unfold incr_used. destruct (Z.eqb_spec (usedEntries s) (numEntries s)); cbn [negb]; [lia|].
  rewrite wrap_small by (unfold in_u; lia). lia.
Qed.

(** [s'] is [s] with [e] on top. *)
Record on_top (e : option PC) (s s' : t PC) : Prop := {
  ot_num : numEntries s' = numEntries s;
  ot_tos : tos s' = (tos s + 1) mod numEntries s;
  ot_used : usedEntries s' = Z.min (numEntries s) (usedEntries s + 1);
  ot_stack : addrStack s' = <[Z.to_nat (tos s') := e]> (addrStack s)
}.

Lemma on_top_wf e s s' : wf s -> on_top e s s' -> wf s'.
Proof.
  intros [Hl Hn Ht Hu] [En Et Eu Es]. pose proof (Z.mod_pos_bound (tos s + 1) (numEntries s) ltac:(lia)).
  constructor; rewrite ?En, ?Es, ?length_insert, ?Et, ?Eu; lia.
Qed.

Lemma on_top_slot e s s' k : wf s -> on_top e s s' -> slot s' (S k) = slot s k.
Proof.
  intros Hwf [En Et _ _]. unfold slot. rewrite En, Et, Zminus_mod_idemp_l. do 2 f_equal. lia.
Qed.

Lemma on_top_slot0 e s s' : wf s -> on_top e s s' -> slot s' 0 = Z.to_nat (tos s').
Proof.
  intros Hwf Hot. destruct (on_top_wf e s s' Hwf Hot) as [_ _ Ht _]. unfold slot.
  rewrite Z.mod_small by lia. f_equal. lia.
Qed.

Lemma on_top_live e s s' : wf s -> on_top e s s' ->
  live s' = take (Z.to_nat (numEntries s)) (e :: live s).
Proof.
  intros Hwf Hot. pose proof (on_top_wf e s s' Hwf Hot) as Hwf'. pose proof Hwf as [Hl Hn Ht Hu].
  pose proof Hot as [En Et Eu Es]. pose proof (wf_tos s' Hwf') as Ht'. apply live_ext.
  { rewrite length_take, length_cons, length_live, Eu. lia. }
  intros k Hk. rewrite lookup_take_lt by lia. destruct k as [|k]; cbn [lookup list_lookup].
  - rewrite (on_top_slot0 e s s'), Es, list_lookup_insert_eq by (done || lia). done.
  - rewrite live_lookup by lia. rewrite (on_top_slot e s s') by done. rewrite Es, list_lookup_insert_ne; [done|].
    rewrite <- (on_top_slot0 e s s'), <- (on_top_slot e s s') by done.
    intros E. apply (slot_inj s') in E; [done|done|lia|lia].
Qed.

Lemma push_on_top pc s : wf s -> exists s', push pc s = Ok s' /\ on_top (Some pc) s s'.
Proof.
  intros Hwf. pose proof Hwf as [Hl Hn Ht Hu]. pose proof (incrTos_mod s Hwf) as Et.
  pose proof (Z.mod_pos_bound (tos s + 1) (numEntries s) ltac:(lia)).
  unfold push. rewrite upd_Ok by (cbn [incrTos addrStack]; lia). cbn [rbind]. eexists. split; [done|].
  constructor; try done. change (incr_used (incrTos s)) with (incr_used s). by apply incr_used_min.
Qed.

(** [restore] puts back what the last [pop] took. *)
Lemma restore_on_top _tos e s : wf s -> _tos = (tos s + 1) mod numEntries s ->
  exists s', restore _tos e s = Ok s' /\ on_top e s s'.
Proof.
  intros Hwf E. pose proof Hwf as [Hl Hn Ht Hu].
  pose proof (Z.mod_pos_bound (tos s + 1) (numEntries s) ltac:(lia)).
  unfold restore. rewrite upd_Ok by lia. cbn [rbind]. eexists. split; [done|].
  constructor; try done. by apply incr_used_min.
Qed.

Lemma pop_spec s : wf s ->
  wf (pop s) /\ numEntries (pop s) = numEntries s /\ tos (pop s) = (tos s - 1) mod numEntries s /\
  usedEntries (pop s) = Z.max 0 (usedEntries s - 1) /\ live (pop s) = tail (live s).
Proof.
  intros Hwf. pose proof Hwf as [Hl Hn Ht Hu].
  assert (Et : tos (pop s) = (tos s - 1) mod numEntries s) by apply (decrTos_mod s Hwf).
  assert (Eu : usedEntries (pop s) = Z.max 0 (usedEntries s - 1)).
  { cbn. destruct (Z.ltb_spec 0 (usedEntries s)); lia. }
  pose proof (Z.mod_pos_bound (tos s - 1) (numEntries s) ltac:(lia)).
  split_and!; try done.
  - constructor; rewrite ?Et, ?Eu; (done || cbn; lia).
  - apply live_ext.
    { assert (length (tail (live s)) = pred (length (live s))) as -> by (by destruct (live s)).
      rewrite length_live, Eu. lia. }
    intros k Hk. assert (tail (live s) !! k = live s !! S k) as -> by (by destruct (live s)).
    rewrite live_lookup by lia. change (addrStack (pop s)) with (addrStack s). do 3 f_equal.
    unfold slot. rewrite Et, Zminus_mod_idemp_l. change (numEntries (pop s)) with (numEntries s).
    do 2 f_equal. lia.
Qed.

Lemma top_spec s : wf s -> 0 < usedEntries s -> exists e, top s = Ok e /\ head (live s) = Some e.
Proof.
  intros Hwf Hu. pose proof Hwf as [Hl Hn Ht _].
  destruct (nth_Ok (addrStack s) (Z.to_nat (tos s))) as (e & E & El); [lia|].
  exists e. split; [done|]. rewrite head_lookup, live_lookup by lia.
  unfold slot. rewrite Z.sub_0_r, Z.mod_small by lia. by rewrite El.
Qed.

Lemma top_Ok s : wf s -> exists e, top s = Ok e.
Proof.
  intros [Hl Hn Ht _]. destruct (nth_Ok (addrStack s) (Z.to_nat (tos s))) as (e & E & _); [lia|]. by exists e.
Qed.

Lemma init_wf n : 0 < n < 2 ^ 32 -> wf (init n) /\ live (init n) = [].
Proof.
  intros Hn. split; [|done]. constructor; cbn; rewrite ?length_replicate; lia.
Qed.

(** Same top of stack and same live entries. *)
Definition same (s s' : t PC) : Prop :=
  wf s /\ wf s' /\ numEntries s' = numEntries s /\ tos s' = tos s /\ live s' = live s.

Lemma same_used s s' : same s s' -> usedEntries s' = usedEntries s.
Proof.
  intros (Hwf & Hwf' & _ & _ & El). apply (f_equal length) in El. rewrite !length_live in El.
  destruct Hwf as [_ _ _ Hu], Hwf' as [_ _ _ Hu']. lia.
Qed.

Lemma undo_push pc s s1 s1' : wf s -> usedEntries s < numEntries s -> push pc s = Ok s1 -> same s1 s1' ->
  same s (pop s1').
Proof.
  intros Hwf Hu E (_ & Hwf' & En & Et & El). pose proof Hwf as [_ Hn Ht _].
  destruct (push_on_top pc s Hwf) as (s2 & E' & Hot). assert (s2 = s1) as -> by congruence.
  destruct (pop_spec s1' Hwf') as (Hwfp & Enp & Etp & _ & Elp).
  assert (En1 : numEntries s1' = numEntries s) by (rewrite En; apply (ot_num _ _ _ Hot)).
  split_and!; [done|done|by rewrite Enp|..].
  - rewrite Etp, Et, En1, (ot_tos _ _ _ Hot), Zminus_mod_idemp_l, Z.mod_small; lia.
  - rewrite Elp, El, (on_top_live _ s s1) by done.
    destruct (Z.to_nat (numEntries s)) as [|n] eqn:E0; [lia|]. cbn [firstn tail].
    apply take_ge. rewrite length_live. lia.
Qed.

Lemma undo_pop s e s1' : wf s -> 0 < usedEntries s -> top s = Ok e -> same (pop s) s1' ->
  exists s', restore (tos s) e s1' = Ok s' /\ same s s'.
Proof.
  intros Hwf Hu E (_ & Hwf' & En & Et & El). pose proof Hwf as [_ Hn Ht _].
  destruct (pop_spec s Hwf) as (_ & Enp & Etp & _ & Elp).
  destruct (restore_on_top (tos s) e s1') as (s' & Er & Hot); [done| |].
  { rewrite Et, En, Etp, Enp, Zplus_mod_idemp_l, Z.mod_small; lia. }
  exists s'. split; [done|]. pose proof (on_top_wf _ _ _ Hwf' Hot) as Hwfr.
  split_and!; [done|done|by rewrite (ot_num _ _ _ Hot), En|..].
  - rewrite (ot_tos _ _ _ Hot), Et, En, Etp, Enp, Zplus_mod_idemp_l, Z.mod_small; lia.
  - rewrite (on_top_live _ _ _ Hwf' Hot), El, Elp, En, Enp.
    destruct (top_spec s Hwf Hu) as (e' & E' & Hh). assert (e' = e) as -> by congruence.
    assert (e :: tail (live s) = live s) as ->.
    { destruct (live s) as [|x l]; [done|]. cbn in Hh. by injection Hh as ->. }
    apply take_ge. rewrite length_live. pose proof (wf_used s Hwf). lia.
Qed.
End ops.
End AddrStack.

(** ** The stacks of all threads *)

Record RASHistory (PC : Type) := mkRASHistory {
  pushed : bool;
  poped : bool;
  ras_entry : option PC;
  h_tos : Z
}.
Arguments mkRASHistory {PC}.
Arguments pushed {PC}.
Arguments poped {PC}.
Arguments ras_entry {PC}.
Arguments h_tos {PC}.

Record ReturnAddrStack (PC : Type) := mkRAS { addrStacks : list (AddrStack.t PC) }.
Arguments mkRAS {PC}.
Arguments addrStacks {PC}.

Section ras.
Context {PC : Type}.

Definition ReturnAddrStack_new (numEntries : Z) (numThreads : nat) : ReturnAddrStack PC :=
  mkRAS (replicate numThreads (AddrStack.init numEntries)).

Definition ras_reset (r : ReturnAddrStack PC) : ReturnAddrStack PC :=
  mkRAS (map AddrStack.reset (addrStacks r)).

Definition makeRASHistory : RASHistory PC := mkRASHistory false false None 0.

Definition history_of (ras_history : option (RASHistory PC)) : RASHistory PC :=
  default makeRASHistory ras_history.

Definition ras_push (tid : nat) (pc : PC) (ras_history : option (RASHistory PC)) (r : ReturnAddrStack PC) :
    res (option (RASHistory PC) * ReturnAddrStack PC) :=
  let history := history_of ras_history in
  let history := mkRASHistory true (poped history) (ras_entry history) (h_tos history) in
  let! s := nth_ (addrStacks r) tid in
  let! s := AddrStack.push pc s in
  let! ss := upd_ (addrStacks r) tid s in
  Ok (Some history, mkRAS ss).

Definition ras_pop (tid : nat) (ras_history : option (RASHistory PC)) (r : ReturnAddrStack PC) :
    res (option PC * option (RASHistory PC) * ReturnAddrStack PC) :=
  let history := history_of ras_history in
  let! s := nth_ (addrStacks r) tid in
  let! entry := AddrStack.top s in
  let history := mkRASHistory (pushed history) true entry (AddrStack.tos s) in
  let! ss := upd_ (addrStacks r) tid (AddrStack.pop s) in
  Ok (ras_entry history, Some history, mkRAS ss).

Definition ras_squash (tid : nat) (ras_history : option (RASHistory PC)) (r : ReturnAddrStack PC) :
    res (option (RASHistory PC) * ReturnAddrStack PC) :=
  match ras_history with
  | None => Ok (None, r)
  | Some history =>
      let! s := nth_ (addrStacks r) tid in
      let s := if pushed history then AddrStack.pop s else s in
      let! s := (if poped history then AddrStack.restore (h_tos history) (ras_entry history) s else Ok s) in
      let! ss := upd_ (addrStacks r) tid s in
      Ok (None, mkRAS ss)
  end.

(** Committing only retires the record. *)
Definition ras_commit (brType : BranchType) (ras_history : option (RASHistory PC)) :
    res (option (RASHistory PC)) :=
  match brType with
  | Return | CallDirect | CallIndirect => Ok None
  | _ => check! (match ras_history with None => true | Some _ => false end); Ok ras_history
  end.

(** ** Speculation *)

(** What one branch does to the stack: a call, a return, or the return and call
    of a coroutine switch. *)
Inductive ras_act := Call (pc : PC) | Ret | RetCall (pc : PC).

Definition do_act (tid : nat) (a : ras_act) (r : ReturnAddrStack PC) :
    res (option (RASHistory PC) * ReturnAddrStack PC) :=
  match a with
  | Call pc => ras_push tid pc None r
  | Ret => let! (_, h, r) := ras_pop tid None r in Ok (h, r)
  | RetCall pc => let! (_, h, r) := ras_pop tid None r in ras_push tid pc h r
  end.

(** The records, the youngest first. *)
Fixpoint do_acts (tid : nat) (acts : list ras_act) (hs : list (option (RASHistory PC))) (r : ReturnAddrStack PC) :
    res (list (option (RASHistory PC)) * ReturnAddrStack PC) :=
  match acts with
  | [] => Ok (hs, r)
  | a :: acts => let! (h, r) := do_act tid a r in do_acts tid acts (h :: hs) r
  end.

Fixpoint squash_all (tid : nat) (hs : list (option (RASHistory PC))) (r : ReturnAddrStack PC) :
    res (ReturnAddrStack PC) :=
  match hs with
  | [] => Ok r
  | h :: hs => let! (_, r) := ras_squash tid h r in squash_all tid hs r
  end.

(** No call finds the stack full and no return finds it empty. *)
Fixpoint fits (n used : Z) (acts : list ras_act) : bool :=
  match acts with
  | [] => true
  | Call _ :: acts => (used <? n) && fits n (used + 1) acts
  | Ret :: acts => (0 <? used) && fits n (used - 1) acts
  | RetCall _ :: acts => (0 <? used) && fits n used acts
  end.

(** The stack of thread [tid] is like [s], the others are those of [r]. *)
Definition like (tid : nat) (r : ReturnAddrStack PC) (s : AddrStack.t PC) (r' : ReturnAddrStack PC) : Prop :=
  exists s', addrStacks r' = <[tid := s']> (addrStacks r) /\ AddrStack.same s s'.

Section one_thread.
Context (tid : nat) (r : ReturnAddrStack PC) (Htid : (tid < length (addrStacks r))%nat).

Let at_ (s : AddrStack.t PC) : ReturnAddrStack PC := mkRAS (<[tid := s]> (addrStacks r)).

Lemma at_nth s : nth_ (addrStacks (at_ s)) tid = Ok s.
Proof. apply nth_lookup. cbn. by apply list_lookup_insert_eq. Qed.

Lemma at_upd s s' : upd_ (addrStacks (at_ s)) tid s' = Ok (<[tid := s']> (addrStacks r)).
Proof. rewrite upd_Ok by (cbn; by rewrite length_insert). cbn. by rewrite list_insert_insert_eq. Qed.

Lemma push_at pc h s : AddrStack.wf s -> exists s', AddrStack.push pc s = Ok s' /\ AddrStack.on_top (Some pc) s s' /\
  ras_push tid pc h (at_ s)
  = Ok (Some (mkRASHistory true (poped (history_of h)) (ras_entry (history_of h)) (h_tos (history_of h))), at_ s').
Proof.
  intros Hwf. destruct (AddrStack.push_on_top pc s Hwf) as (s' & E & Hot). exists s'. split_and!; [done|done|].
  unfold ras_push. rewrite at_nth. cbn [rbind]. rewrite E. cbn [rbind]. by rewrite at_upd.
Qed.

Lemma pop_at h s : AddrStack.wf s -> exists e, AddrStack.top s = Ok e /\
  ras_pop tid h (at_ s)
  = Ok (e, Some (mkRASHistory (pushed (history_of h)) true e (AddrStack.tos s)), at_ (AddrStack.pop s)).
Proof.
  intros Hwf. destruct (AddrStack.top_Ok s Hwf) as (e & E). exists e. split; [done|].
  unfold ras_pop. rewrite at_nth. cbn [rbind]. rewrite E. cbn [rbind]. by rewrite at_upd.
Qed.

(** One branch and its undoing. *)
Lemma undo_act a acts s : AddrStack.wf s ->
  fits (AddrStack.numEntries s) (AddrStack.usedEntries s) (a :: acts) = true ->
  exists h s1, do_act tid a (at_ s) = Ok (h, at_ s1) /\ AddrStack.wf s1 /\
    fits (AddrStack.numEntries s1) (AddrStack.usedEntries s1) acts = true /\
    forall s1', AddrStack.same s1 s1' ->
      exists s', ras_squash tid h (at_ s1') = Ok (None, at_ s') /\ AddrStack.same s s'.
Proof.
  intros Hwf Hfit. pose proof (AddrStack.wf_used s Hwf) as Hu.
  destruct a as [pc| |pc]; cbn [fits] in Hfit; apply andb_prop in Hfit as [Hlt%Z.ltb_lt Hfit]; cbn [do_act].
  - destruct (push_at pc None s Hwf) as (s1 & E & Hot & ->). eexists _, s1. split; [done|].
    split; [by eapply AddrStack.on_top_wf|]. split.
    { rewrite (AddrStack.ot_num _ _ _ Hot), (AddrStack.ot_used _ _ _ Hot), Z.min_r by lia. done. }
    intros s1' Hs. exists (AddrStack.pop s1'). split; [|by eapply AddrStack.undo_push].
    unfold ras_squash. rewrite at_nth. cbn [rbind pushed poped history_of default makeRASHistory]. by rewrite at_upd.
  - destruct (pop_at None s Hwf) as (e & E & ->). cbn [rbind]. destruct (AddrStack.pop_spec s Hwf) as (Hwf1 & En & _ & Eu & _).
    eexists _, (AddrStack.pop s). split; [done|]. split; [done|]. split; [by rewrite En, Eu, Z.max_r by lia|].
    intros s1' Hs. destruct (AddrStack.undo_pop s e s1') as (s' & Er & Hs'); [done..|].
    exists s'. split; [|done]. unfold ras_squash. rewrite at_nth. cbn [rbind pushed poped history_of default makeRASHistory h_tos ras_entry].
    rewrite Er. cbn [rbind]. by rewrite at_upd.
  - destruct (pop_at None s Hwf) as (e & E & ->). cbn [rbind]. destruct (AddrStack.pop_spec s Hwf) as (Hwf1 & En & _ & Eu & _).
    destruct (push_at pc (Some (mkRASHistory false true e (AddrStack.tos s))) _ Hwf1) as (s1 & E1 & Hot & Ep).
    unfold history_of, makeRASHistory. cbn [default pushed] in *. rewrite Ep. eexists _, s1. split; [done|].
    split; [by eapply AddrStack.on_top_wf|]. split.
    { rewrite (AddrStack.ot_num _ _ _ Hot), (AddrStack.ot_used _ _ _ Hot), En, Eu.
      replace (Z.min _ _) with (AddrStack.usedEntries s) by lia. done. }
    intros s1' Hs. destruct (AddrStack.undo_pop s e (AddrStack.pop s1')) as (s' & Er & Hs'); [done..| |].
    { eapply AddrStack.undo_push; [done| |done|done]. lia. }
    exists s'. split; [|done]. unfold ras_squash. rewrite at_nth. cbn [rbind pushed poped history_of default from_option id h_tos ras_entry].
    rewrite Er. cbn [rbind]. by rewrite at_upd.
Qed.

Lemma undo_acts acts : forall s hs, AddrStack.wf s ->
  fits (AddrStack.numEntries s) (AddrStack.usedEntries s) acts = true ->
  exists hs1 s1, do_acts tid acts hs (at_ s) = Ok (hs1 ++ hs, at_ s1) /\ length hs1 = length acts /\ AddrStack.wf s1 /\
    forall s1', AddrStack.same s1 s1' ->
      exists s', squash_all tid hs1 (at_ s1') = Ok (at_ s') /\ AddrStack.same s s'.
Proof.
  induction acts as [|a acts IH]; intros s hs Hwf Hfit.
  { exists [], s. do 3 (split; [done|]). intros s1' Hs. by exists s1'. }
  destruct (undo_act a acts s Hwf Hfit) as (h & s1 & E & Hwf1 & Hfit1 & Hundo).
  destruct (IH s1 (h :: hs) Hwf1 Hfit1) as (hs1 & s2 & E2 & Hlen & Hwf2 & Hundo2).
  exists (hs1 ++ [h]), s2. cbn [do_acts]. rewrite E. cbn [rbind]. rewrite E2, <- app_assoc. split; [done|].
  split; [rewrite length_app; cbn; lia|]. split; [done|]. intros s2' Hs. destruct (Hundo2 s2' Hs) as (s1' & Es & Hs1).
  destruct (Hundo s1' Hs1) as (s' & Es' & Hs'). exists s'. split; [|done].
  clear - Es Es'. revert Es. generalize (at_ s2') as q. induction hs1 as [|h' hs1 IH]; intros q Es; cbn [squash_all app] in *.
  - injection Es as ->. by rewrite Es'.
  - apply rbind_Ok in Es as ([h'' q'] & -> & Es). cbn [rbind]. by apply IH.
Qed.
End one_thread.

(** C36: the return address stack survives wrong-path execution: after any
    sequence of speculative calls and returns that neither overflows nor
    underflows the stack, squashing the branches youngest first gives back the same
    top of stack and the same live return addresses, and leaves the stacks of the
    other threads alone. *)
Theorem ras_squash_restores tid r s acts : addrStacks r !! tid = Some s -> AddrStack.wf s ->
  fits (AddrStack.numEntries s) (AddrStack.usedEntries s) acts = true ->
  exists hs r1 r2, do_acts tid acts [] r = Ok (hs, r1) /\ length hs = length acts /\
    squash_all tid hs r1 = Ok r2 /\ like tid r s r2.
Proof.
  intros Hs Hwf Hfit. assert (Htid : (tid < length (addrStacks r))%nat) by (apply lookup_lt_is_Some; eauto).
  destruct (undo_acts tid r Htid acts s [] Hwf Hfit) as (hs & s1 & E & Hlen & Hwf1 & Hundo).
  assert (Hat : mkRAS (<[tid := s]> (addrStacks r)) = r).
  { rewrite list_insert_id by done. by destruct r. }
  rewrite Hat, app_nil_r in E.
  destruct (Hundo s1 ltac:(by split_and!)) as (s' & Es & Hs'). eexists hs, _, _. split; [done|]. split; [done|].
  split; [done|]. by exists s'.
Qed.
End ras.

Lemma ras_squash_restores_witness :
  exists hs r1 r2,
    do_acts 0 [Ret; RetCall 30; Call 40; Call 50; Ret] []
      (mkRAS [AddrStack.mk [Some 20; Some 10; None; Some 15] 4 3 0]) = Ok (hs, r1) /\ length hs = 5%nat /\
    squash_all 0 hs r1 = Ok r2 /\
    like 0 (mkRAS [AddrStack.mk [Some 20; Some 10; None; Some 15] 4 3 0])
      (AddrStack.mk [Some 20; Some 10; None; Some 15] 4 3 0) r2.
Proof.
  apply (ras_squash_restores (PC := Z)); [reflexivity| |reflexivity]. constructor; cbn; lia.
Defined.

Section stack.
Context {PC : Type}.

(** C37: on each thread the structure is a stack bounded to its [numEntries]
    youngest entries: a push puts the address on top and forgets the oldest one when
    the stack is full, a pop returns the top and removes it. *)
Theorem ras_is_bounded_stack tid (r : ReturnAddrStack PC) s pc h :
  addrStacks r !! tid = Some s -> AddrStack.wf s ->
  (exists h' s', ras_push tid pc h r = Ok (h', mkRAS (<[tid := s']> (addrStacks r))) /\ AddrStack.wf s' /\
     AddrStack.live s' = take (Z.to_nat (AddrStack.numEntries s)) (Some pc :: AddrStack.live s)) /\
  (exists e h' s', ras_pop tid h r = Ok (e, h', mkRAS (<[tid := s']> (addrStacks r))) /\ AddrStack.wf s' /\
     AddrStack.live s' = tail (AddrStack.live s) /\
     (0 < AddrStack.usedEntries s -> head (AddrStack.live s) = Some e)).
Proof.
  intros Hs Hwf. assert (Htid : (tid < length (addrStacks r))%nat) by (apply lookup_lt_is_Some; eauto).
  assert (Hat : mkRAS (<[tid := s]> (addrStacks r)) = r) by (rewrite list_insert_id by done; by destruct r).
  split.
  - destruct (push_at tid r Htid pc h s Hwf) as (s' & _ & Hot & E). rewrite Hat in E. rewrite E.
    eexists _, s'. split; [done|]. split; [by eapply AddrStack.on_top_wf|by apply AddrStack.on_top_live].
  - destruct (pop_at tid r Htid h s Hwf) as (e & Ee & E). rewrite Hat in E. rewrite E.
    destruct (AddrStack.pop_spec s Hwf) as (Hwf' & _ & _ & _ & El).
    eexists e, _, (AddrStack.pop s). split_and!; [done..|]. intros Hu.
    destruct (AddrStack.top_spec s Hwf Hu) as (e' & Ee' & Hh). congruence.
Qed.
End stack.

Lemma ras_is_bounded_stack_witness :
  let s := AddrStack.mk [Some 20; Some 10; None; Some 15] 4 3 0 in
  (exists h' s', ras_push 0 77 None (mkRAS [s]) = Ok (h', mkRAS [s']) /\ AddrStack.wf s' /\
     AddrStack.live s' = take 4 (Some 77 :: AddrStack.live s)) /\
  (exists e h' s', ras_pop 0 None (mkRAS [s]) = Ok (e, h', mkRAS [s']) /\ AddrStack.wf s' /\
     AddrStack.live s' = tail (AddrStack.live s) /\ (0 < 3 -> head (AddrStack.live s) = Some e)).
Proof.
  intros s. apply (ras_is_bounded_stack 0 (mkRAS [s]) s 77 None); [reflexivity|]. constructor; cbn; lia.
Defined.

(** ** The top of stack of every thread

    Squashing always restores the position of the top, also where the stack has
    overflowed or underflowed. *)

Section tos.
Context {PC : Type} (n : nat) (N : Z).

Definition ras_wf (r : ReturnAddrStack PC) : Prop :=
  length (addrStacks r) = n /\ Forall (fun s => AddrStack.wf s /\ AddrStack.numEntries s = N) (addrStacks r).

Definition toses (r : ReturnAddrStack PC) : list Z := map AddrStack.tos (addrStacks r).

(** The record [rh] of a branch of thread [tid] that took the tops from [a] to [b]. *)
Definition ras_undo (tid : nat) (rh : option (RASHistory PC)) (a b : option (list Z)) : Prop :=
  match rh with
  | None => b = a
  | Some h => exists l t0 x, a = Some l /\ l !! tid = Some t0 /\ 0 <= t0 < N /\ b = Some (<[tid := x]> l) /\
      if poped h then h_tos h = t0 else x = if pushed h then (t0 + 1) mod N else t0
  end.

Lemma ras_wf_lookup tid r : ras_wf r -> (tid < n)%nat ->
  exists s, addrStacks r !! tid = Some s /\ AddrStack.wf s /\ AddrStack.numEntries s = N /\
    toses r !! tid = Some (AddrStack.tos s) /\ r = mkRAS (<[tid := s]> (addrStacks r)).
Proof.
  intros [Hl Hall] Htid. destruct (lookup_lt_is_Some_2 (addrStacks r) tid) as [s Hs]; [lia|].
  destruct (proj1 (Forall_lookup _ _) Hall _ _ Hs) as [Hwf HN]. exists s. split_and!; try done.
  - unfold toses. by rewrite list_lookup_fmap, Hs.
  - rewrite list_insert_id by done. by destruct r.
Qed.

Lemma ras_wf_put tid r s : ras_wf r -> AddrStack.wf s -> AddrStack.numEntries s = N ->
  ras_wf (mkRAS (<[tid := s]> (addrStacks r))) /\
  toses (mkRAS (<[tid := s]> (addrStacks r))) = <[tid := AddrStack.tos s]> (toses r).
Proof.
  intros [Hl Hall] Hwf HN. split.
  - split; cbn; [by rewrite length_insert|]. by apply Forall_insert.
  - unfold toses. cbn. apply (list_fmap_insert AddrStack.tos).
Qed.

Lemma ras_push_tos tid pc rh a r : ras_wf r -> (tid < n)%nat ->
  match rh with None => True | Some h => poped h = true end -> ras_undo tid rh a (Some (toses r)) ->
  exists rh' r', ras_push tid pc rh r = Ok (Some rh', r') /\ ras_wf r' /\
    ras_undo tid (Some rh') a (Some (toses r')).
Proof.
  intros Hr Htid Hrh Hu. destruct (ras_wf_lookup tid r Hr Htid) as (s & Hs & Hwf & HN & Ht & Er).
  assert (Hlen : (tid < length (addrStacks r))%nat) by (destruct Hr; lia).
  destruct (push_at tid r Hlen pc rh s Hwf) as (s' & _ & Hot & E). rewrite <- Er in E. rewrite E.
  destruct (ras_wf_put tid r s' Hr) as [Hr' Et]; [by eapply AddrStack.on_top_wf|by rewrite (AddrStack.ot_num _ _ _ Hot)|].
  eexists _, _. split; [done|]. split; [done|]. rewrite Et. destruct rh as [h|]; cbn [history_of default].
  - destruct Hu as (l & t0 & x & -> & Hl & H0 & [= Hb] & Hcase). cbn in Hrh. rewrite Hrh in Hcase.
    exists l, t0, (AddrStack.tos s'). split_and!; try done; [lia|lia|by rewrite Hb, list_insert_insert_eq|].
    cbn. by rewrite Hrh.
  - cbn in Hu. subst a. eexists _, _, _. split_and!; [done|done| | |done|].
    + pose proof (AddrStack.wf_tos s Hwf). lia.
    + pose proof (AddrStack.wf_tos s Hwf). lia.
    + cbn. by rewrite (AddrStack.ot_tos _ _ _ Hot), HN.
Qed.

Lemma ras_pop_tos tid r : ras_wf r -> (tid < n)%nat ->
  exists e rh r', ras_pop tid None r = Ok (e, Some rh, r') /\ ras_wf r' /\ poped rh = true /\
    ras_undo tid (Some rh) (Some (toses r)) (Some (toses r')).
Proof.
  intros Hr Htid. destruct (ras_wf_lookup tid r Hr Htid) as (s & Hs & Hwf & HN & Ht & Er).
  assert (Hlen : (tid < length (addrStacks r))%nat) by (destruct Hr; lia).
  destruct (pop_at tid r Hlen None s Hwf) as (e & _ & E). rewrite <- Er in E. rewrite E.
  destruct (AddrStack.pop_spec s Hwf) as (Hwf' & HN' & _).
  destruct (ras_wf_put tid r (AddrStack.pop s) Hr Hwf') as [Hr' Et]; [by rewrite HN'|].
  eexists e, _, _. split_and!; [done|done..|]. rewrite Et. pose proof (AddrStack.wf_tos s Hwf).
  eexists _, _, _. split_and!; [done|done|lia|lia|done|done].
Qed.

(** A record that can be undone in any state. *)
Definition ras_rec (rh : option (RASHistory PC)) : Prop :=
  match rh with None => True | Some h => poped h = true -> 0 <= h_tos h < N end.

Lemma ras_undo_rec tid rh a b : ras_undo tid rh a b -> ras_rec rh.
Proof.
  destruct rh as [h|]; [|done]. cbn. intros (l & t0 & x & _ & _ & H0 & _ & Hcase) Hp. rewrite Hp in Hcase. lia.
Qed.

Lemma ras_squash_tos tid h r : ras_wf r -> (tid < n)%nat -> ras_rec (Some h) ->
  exists r', ras_squash tid (Some h) r = Ok (None, r') /\ ras_wf r' /\
    forall a, ras_undo tid (Some h) a (Some (toses r)) -> Some (toses r') = a.
Proof.
  intros Hr Htid Hrec. destruct (ras_wf_lookup tid r Hr Htid) as (s & Hs & Hwf & HN & Ht & Er).
  assert (Hput : forall s', AddrStack.wf s' -> AddrStack.numEntries s' = N ->
    upd_ (addrStacks r) tid s' = Ok (<[tid := s']> (addrStacks r)) /\ ras_wf (mkRAS (<[tid := s']> (addrStacks r))) /\
    forall l x, toses r = <[tid := x]> l -> l !! tid = Some (AddrStack.tos s') ->
      Some (toses (mkRAS (<[tid := s']> (addrStacks r)))) = Some l).
  { intros s' Hwf' HN'. destruct (ras_wf_put tid r s' Hr Hwf' HN') as [Hr' Et].
    split; [apply upd_Ok; destruct Hr; lia|]. split; [done|]. intros l x Hb Hl.
    by rewrite Et, Hb, list_insert_insert_eq, list_insert_id. }
  destruct (AddrStack.pop_spec s Hwf) as (Hwfp & HNp & Htp & _).
  assert (Hs1 : exists s1, (if pushed h then AddrStack.pop s else s) = s1 /\ AddrStack.wf s1 /\ AddrStack.numEntries s1 = N /\
    AddrStack.tos s1 = if pushed h then (AddrStack.tos s - 1) mod N else AddrStack.tos s).
  { eexists. split; [done|]. destruct (pushed h); split_and!; congruence || done. }
  destruct Hs1 as (s1 & Es1 & Hwf1 & HN1 & Ht1). unfold ras_squash. rewrite (nth_lookup _ _ _ Hs). cbn [rbind].
  rewrite Es1. cbn in Hrec. destruct (poped h) eqn:Ep.
  - specialize (Hrec eq_refl). unfold AddrStack.restore. rewrite upd_Ok by (pose proof (AddrStack.wf_len s1 Hwf1); lia). cbn [rbind].
    destruct (Hput (AddrStack.mk (<[Z.to_nat (h_tos h) := ras_entry h]> (AddrStack.addrStack s1))
      (AddrStack.numEntries s1) (AddrStack.incr_used s1) (h_tos h))) as (-> & Hr' & Et); [|done|].
    { pose proof (AddrStack.incr_used_min s1 Hwf1). destruct Hwf1 as [Hl1 Hn1 Ht1' Hu1].
      constructor; cbn; rewrite ?length_insert; lia. }
    cbn [rbind]. eexists. split_and!; [done..|]. intros a (l & t0 & x & -> & Hl & H0 & [= Hb] & Hcase).
    rewrite Ep in Hcase. subst t0. by eapply Et.
  - cbn [rbind]. destruct (Hput s1 Hwf1 HN1) as (-> & Hr' & Et). cbn [rbind]. eexists. split_and!; [done..|].
    intros a (l & t0 & x & -> & Hl & H0 & [= Hb] & Hcase). rewrite Ep in Hcase. eapply Et; [done|]. rewrite Ht1, Hl. f_equal.
    assert (AddrStack.tos s = x) as ->.
    { rewrite Hb, list_lookup_insert_eq in Ht by (by eapply lookup_lt_Some). congruence. }
    destruct (pushed h); [|done]. rewrite Hcase, Zminus_mod_idemp_l, Z.mod_small by lia. lia.
Qed.
End tos.
