(* ===== verification/DirPred.v ===== *)
(** * Direction predictors

    The virtual functions of [BPredUnit] ([cpu/pred/bpred_unit.hh]) that a
    conditional predictor implements, what the unit relies on, and the
    predictors of [cpu/pred/2bit_local.cc], [cpu/pred/tournament.cc] and
    [cpu/pred/bi_mode.cc], each of which keeps that contract. *)

From Stdlib Require Import ZArith Lia Bool.
From stdpp Require Import base tactics option list numbers.
From S2P Require Import Prelude Bitfield Intmath SatCounter.
Open Scope Z_scope.

(** ** The interface

    A [void * &bp_history] is an [option H] passed in and out. *)

Class DirPred (S H Inst : Type) := {
  dp_lookup : nat -> Z -> option H -> S -> res (bool * option H * S);
  dp_updateHistories : nat -> Z -> bool -> bool -> Z -> option H -> S -> res (option H * S);
  dp_squash : nat -> option H -> S -> res (option H * S);
  dp_update : nat -> Z -> bool -> option H -> bool -> Inst -> Z -> S -> res (option H * S)
}.

(** The contract for [n] threads.  [dp_spec] is the part of the state that is
    updated speculatively (the branch histories) and [dp_next] the update of it for
    a branch of a given direction.  [dp_rec h a] says that [h] is the record
    of a branch predicted when that part was [a].  Squashing or correcting with a
    record is safe in any state, and undoes the prediction when nothing came after it. *)
Class DirPredLaws {S H Inst : Type} (D : DirPred S H Inst) (n : nat) := {
  dp_inv : S -> Prop;
  dp_hist : Type;
  dp_spec : S -> dp_hist;
  dp_next : nat -> Z -> bool -> bool -> dp_hist -> dp_hist;
  dp_looked : nat -> Z -> option H -> dp_hist -> Prop;
  dp_rec : nat -> Z -> bool -> option H -> dp_hist -> Prop;
  dp_lookup_ok s tid pc : dp_inv s -> (tid < n)%nat -> in_u 64 pc ->
    exists b h s', dp_lookup tid pc None s = Ok (b, h, s') /\ dp_inv s' /\ dp_spec s' = dp_spec s /\
      dp_looked tid pc h (dp_spec s);
  dp_updateHistories_ok s tid pc (uncond taken : bool) target h : dp_inv s -> (tid < n)%nat -> in_u 64 pc ->
    (if uncond then h = None else dp_looked tid pc h (dp_spec s)) ->
    exists h' s', dp_updateHistories tid pc uncond taken target h s = Ok (h', s') /\ dp_inv s' /\
      dp_spec s' = dp_next tid pc uncond taken (dp_spec s) /\ dp_rec tid pc uncond h' (dp_spec s);
  dp_squash_ok s tid pc uncond h a : dp_inv s -> (tid < n)%nat -> in_u 64 pc -> dp_rec tid pc uncond h a ->
    exists s', dp_squash tid h s = Ok (None, s') /\ dp_inv s' /\
      forall taken, dp_spec s = dp_next tid pc uncond taken a -> dp_spec s' = a;
  dp_correct_ok s tid pc uncond taken' inst target h a : dp_inv s -> (tid < n)%nat -> in_u 64 pc ->
    dp_rec tid pc uncond h a ->
    exists s', dp_update tid pc taken' h true inst target s = Ok (h, s') /\ dp_inv s' /\
      forall taken, dp_spec s = dp_next tid pc uncond taken a -> dp_spec s' = dp_next tid pc uncond taken' a;
  dp_commit_ok s tid pc uncond taken inst target h a : dp_inv s -> (tid < n)%nat -> in_u 64 pc ->
    dp_rec tid pc uncond h a ->
    exists s', dp_update tid pc taken h false inst target s = Ok (None, s') /\ dp_inv s' /\ dp_spec s' = dp_spec s
}.

(** ** Tables of counters *)

Definition ctr_step (up : bool) (c : SatCounter) : SatCounter := if up then incr c else decr c.

(** [ctrs[i]++] or [ctrs[i]--]. *)
Definition ctr_update (up : bool) (i : Z) (ctrs : list SatCounter) : res (list SatCounter) :=
  let! c := nth_ ctrs (Z.to_nat i) in upd_ ctrs (Z.to_nat i) (ctr_step up c).

(** [ctrs[i] > threshold]. *)
Definition ctr_above (threshold i : Z) (ctrs : list SatCounter) : res bool :=
  let! c := nth_ ctrs (Z.to_nat i) in Ok (threshold <? counter c).

Lemma ctr_update_Ok up i ctrs : 0 <= i < Z.of_nat (length ctrs) ->
  exists ctrs', ctr_update up i ctrs = Ok ctrs' /\ length ctrs' = length ctrs.
Proof.
  intros Hi. unfold ctr_update. destruct (nth_Ok ctrs (Z.to_nat i)) as (c & -> & _); [lia|].
  cbn [rbind]. rewrite upd_Ok by lia. eexists. split; [done|]. apply length_insert.
Qed.

Lemma ctr_above_Ok th i ctrs : 0 <= i < Z.of_nat (length ctrs) -> exists b, ctr_above th i ctrs = Ok b.
Proof.
  intros Hi. unfold ctr_above. destruct (nth_Ok ctrs (Z.to_nat i)) as (c & -> & _); [lia|]. by eexists.
Qed.

(** A table of [2^k] entries is indexed by a mask of [k] bits. *)
Lemma land_ones_bound x k : 0 <= k -> 0 <= Z.land x (Z.ones k) < 2 ^ k.
Proof. intros Hk. rewrite Z.land_ones by done. apply Z.mod_pos_bound. lia. Qed.

(** Apply [f] to one entry. *)
Definition adjust {A} (f : A -> A) (i : nat) (l : list A) : list A :=
  match l !! i with Some x => <[i := f x]> l | None => l end.

Lemma adjust_insert {A} (f : A -> A) i l x : l !! i = Some x -> adjust f i l = <[i := f x]> l.
Proof. unfold adjust. by intros ->. Qed.

Lemma insert_adjust {A} (f : A -> A) i l x y : l !! i = Some x -> <[i := y]> (adjust f i l) = <[i := y]> l.
Proof. intros Hx. rewrite (adjust_insert _ _ _ x) by done. apply list_insert_insert_eq. Qed.

(** [(h << 1) | taken] in an [unsigned]. *)
Definition shift_in (h : Z) (taken : bool) : Z := Z.lor (h <<[32] 1) (Z.b2z taken).

(** The low bits of a shifted history depend on its low bits only. *)
Lemma shift_in_mask h taken k : 0 <= k <= 32 ->
  Z.land (shift_in (Z.land h (Z.ones k)) taken) (Z.ones k) = Z.land (shift_in h taken) (Z.ones k).
Proof.
  intros Hk. apply Z.bits_inj'. intros i Hi. unfold shift_in. tb.
  destruct (Z.ltb_spec i k); rewrite ?andb_false_r; [|done]. destruct (Z.leb_spec 0 (i - 1)).
  - destruct (Z.ltb_spec (i - 1) k); [|lia]. by rewrite !andb_true_r.
  - rewrite (Z.testbit_neg_r h (i - 1)) by lia. done.
Qed.

(** What the constructors get from the power-of-two checks on the table sizes. *)
Lemma pow2_size n : in_u 32 n -> isPowerOf2 32 n = true ->
  exists k, 0 <= k < 32 /\ n = 2 ^ k /\ ceilLog2 32 n = k /\ n -[32] 1 = Z.ones k /\ wrap 32 (mask k) = Z.ones k.
Proof.
  intros Hn Hp. apply isPowerOf2_iff in Hp as (k & Hk & ->); [|done]. exists k.
  assert (Hk32 : k < 32) by (apply (Z.pow_lt_mono_r_iff 2); unfold in_u in Hn; lia).
  assert (1 <= 2 ^ k) by (pose proof (Z.pow_pos_nonneg 2 k); lia). unfold in_u in Hn.
  assert (Ho : Z.ones k = 2 ^ k - 1) by (rewrite Z.ones_equiv; lia).
  split; [lia|]. split; [done|]. split.
  - rewrite ceilLog2_log2_up; [apply Z.log2_up_pow2; lia|right; right; by left|lia].
  - rewrite mask_ones, Ho by lia. split; apply wrap_small; unfold in_u; lia.
Qed.

(** ** The local predictor *)

Module Local.

Record config := mkConfig { instShiftAmt : Z; localCtrBits : Z; localPredictorSets : Z; indexMask : Z }.
Record t := mk { localCtrs : list SatCounter }.

(** The constructor; a division by zero is a fault. *)
Definition new (inst_shift localPredictorSize ctr_bits : Z) : res (config * t) :=
  if ctr_bits =? 0 then Err OutOfRange else
  let sets := localPredictorSize / ctr_bits in
  let! c := SatCounter_new 8 ctr_bits 0 in
  if negb (isPowerOf2 32 localPredictorSize) then Err Fatal else
  if negb (isPowerOf2 32 sets) then Err Fatal else
  Ok (mkConfig inst_shift ctr_bits sets (sets -[32] 1), mk (replicate (Z.to_nat sets) c)).

Section ops.
Context (cfg : config).

Definition getLocalIndex (branch_addr : Z) : Z :=
  Z.land (Z.shiftr branch_addr (instShiftAmt cfg)) (indexMask cfg).

(** The top bit of the count. *)
Definition getPrediction (count : Z) : bool := negb (Z.shiftr count (localCtrBits cfg - 1) =? 0).

Definition lookup (branch_addr : Z) (s : t) : res bool :=
  let! c := nth_ (localCtrs s) (Z.to_nat (getLocalIndex branch_addr)) in
  Ok (getPrediction (counter c)).

(** [bp_history] is [NULL] throughout. *)
Definition update (branch_addr : Z) (taken : bool) (bp_history : option unit) (squashed : bool) (s : t) : res t :=
  check! (match bp_history with None => true | Some _ => false end);
  if squashed then Ok s else
  let! ctrs := ctr_update taken (getLocalIndex branch_addr) (localCtrs s) in Ok (mk ctrs).

Definition squash (bp_history : option unit) : res unit :=
  assert_ (match bp_history with None => true | Some _ => false end).

#[export] Instance dirpred Inst : DirPred t unit Inst := {
  dp_lookup _ pc h s := let! b := lookup pc s in Ok (b, h, s);
  dp_updateHistories _ _ _ _ _ h s := Ok (h, s);
  dp_squash _ h s := let! _ := squash h in Ok (h, s);
  dp_update _ pc taken h squashed _ _ s := let! s := update pc taken h squashed s in Ok (h, s)
}.

Record wf (s : t) : Prop := {
  wf_mask : exists k, 0 <= k /\ indexMask cfg = Z.ones k /\ Z.of_nat (length (localCtrs s)) = 2 ^ k
}.

Lemma index_lt s pc : wf s -> 0 <= getLocalIndex pc < Z.of_nat (length (localCtrs s)).
Proof. intros [(k & Hk & Hm & ->)]. unfold getLocalIndex. rewrite Hm. by apply land_ones_bound. Qed.

#[export] Program Instance laws Inst n : DirPredLaws (dirpred Inst) n := {|
  dp_inv := wf;
  dp_hist := unit;
  dp_spec _ := tt;
  dp_next _ _ _ _ a := a;
  dp_looked _ _ h _ := h = None;
  dp_rec _ _ _ h _ := h = None
|}.
Next Obligation.
  intros Inst n s tid pc Hwf _ _. cbn. unfold lookup.
  destruct (nth_Ok (localCtrs s) (Z.to_nat (getLocalIndex pc))) as (c & -> & _).
  { pose proof (index_lt s pc Hwf). lia. }
  cbn [rbind]. by eexists _, None, s.
Qed.
Next Obligation.
  intros Inst n s tid pc uncond taken target h Hwf _ _ Hh. exists h, s. split_and!; try done. by destruct uncond.
Qed.
Next Obligation. intros Inst n s tid pc uncond h [] Hwf _ _ ->. by exists s. Qed.
Next Obligation. intros Inst n s tid pc uncond taken' inst target h [] Hwf _ _ ->. by exists s. Qed.
Next Obligation.
  intros Inst n s tid pc uncond taken inst target h [] Hwf _ _ ->. cbn.
  destruct (ctr_update_Ok taken (getLocalIndex pc) (localCtrs s) (index_lt s pc Hwf)) as (ctrs & -> & Hl).
  cbn [rbind]. eexists. split_and!; [done| |done]. destruct Hwf as [(k & Hk & Hm & He)].
  constructor. exists k. cbn. by rewrite Hl.
Qed.
End ops.

Lemma new_wf sh size bits cfg s : in_u 32 size -> in_u 32 bits -> new sh size bits = Ok (cfg, s) -> wf cfg s.
Proof.
  intros Hs Hb. unfold new. destruct (Z.eqb_spec bits 0); [done|].
  intros (c & _ & E)%rbind_Ok. destruct (isPowerOf2 32 size); [|done]. cbn [negb] in E.
  destruct (isPowerOf2 32 (size / bits)) eqn:Ep; [|done]. injection E as <- <-.
  destruct (pow2_size (size / bits)) as (k & Hk & Es & _ & Em & _); [|done|].
  { unfold in_u in *. split; [apply Z.div_pos; lia|]. apply Z.div_lt_upper_bound; nia. }
  constructor. exists k. cbn. rewrite length_replicate, Z2Nat.id, Em by (rewrite Es; apply Z.pow_nonneg; lia).
  done || (split; [lia|]; by split).
Qed.
End Local.

(** ** The tournament predictor *)

Module Tournament.

(** The constant members. *)
Record config := mkConfig {
  instShiftAmt : Z;
  localPredictorSize : Z;
  localPredictorMask : Z;
  localHistoryTableSize : Z;
  globalHistoryMask : Z;
  choiceHistoryMask : Z;
  historyRegisterMask : Z;
  localThreshold : Z;
  globalThreshold : Z;
  choiceThreshold : Z
}.

Record t := mk {
  localCtrs : list SatCounter;
  localHistoryTable : list Z;
  globalCtrs : list SatCounter;
  globalHistory : list Z;
  choiceCtrs : list SatCounter
}.

Definition set_global (s : t) (g : list Z) : t :=
  mk (localCtrs s) (localHistoryTable s) (globalCtrs s) g (choiceCtrs s).
Definition set_local (s : t) (l : list Z) : t :=
  mk (localCtrs s) l (globalCtrs s) (globalHistory s) (choiceCtrs s).

Record BPHistory := mkHist {
  h_globalHistory : Z;
  localHistoryIdx : Z;
  localHistory : Z;
  localPredTaken : bool;
  globalPredTaken : bool;
  globalUsed : bool
}.

(** [static const int invalidPredictorIndex = -1], compared as an [unsigned]. *)
Definition invalidPredictorIndex : Z := wrap 32 (-1).

Record params := mkParams {
  p_numThreads : nat;
  p_instShiftAmt : Z;
  p_localPredictorSize : Z;
  p_localCtrBits : Z;
  p_localHistoryTableSize : Z;
  p_globalPredictorSize : Z;
  p_globalCtrBits : Z;
  p_choicePredictorSize : Z;
  p_choiceCtrBits : Z
}.

(** [(1ULL << (bits - 1)) - 1]. *)
Definition threshold (bits : Z) : Z := wrap 32 (Z.shiftl 1 (bits - 1) - 1).

Definition new (p : params) : res (config * t) :=
  let! lc := SatCounter_new 8 (p_localCtrBits p) 0 in
  let! gc := SatCounter_new 8 (p_globalCtrBits p) 0 in
  let globalHistoryBits := Z.max (ceilLog2 32 (p_globalPredictorSize p)) (ceilLog2 32 (p_choicePredictorSize p)) in
  let! cc := SatCounter_new 8 (p_choiceCtrBits p) 0 in
  if negb (isPowerOf2 32 (p_localPredictorSize p)) then Err Fatal else
  if negb (isPowerOf2 32 (p_globalPredictorSize p)) then Err Fatal else
  let localPredictorMask := wrap 32 (mask (ceilLog2 32 (p_localPredictorSize p))) in
  if negb (isPowerOf2 32 (p_localHistoryTableSize p)) then Err Fatal else
  let globalHistoryMask := p_globalPredictorSize p -[32] 1 in
  if negb (isPowerOf2 32 (p_choicePredictorSize p)) then Err Fatal else
  let choiceHistoryMask := p_choicePredictorSize p -[32] 1 in
  let historyRegisterMask := wrap 32 (mask globalHistoryBits) in
  if historyRegisterMask <? globalHistoryMask then Err Fatal else
  if historyRegisterMask <? choiceHistoryMask then Err Fatal else
  Ok (mkConfig (p_instShiftAmt p) (p_localPredictorSize p) localPredictorMask (p_localHistoryTableSize p)
        globalHistoryMask choiceHistoryMask historyRegisterMask
        (threshold (p_localCtrBits p)) (threshold (p_globalCtrBits p)) (threshold (p_choiceCtrBits p)),
      mk (replicate (Z.to_nat (p_localPredictorSize p)) lc)
         (replicate (Z.to_nat (p_localHistoryTableSize p)) 0)
         (replicate (Z.to_nat (p_globalPredictorSize p)) gc)
         (replicate (p_numThreads p) 0)
         (replicate (Z.to_nat (p_choicePredictorSize p)) cc)).

Section ops.
Context (cfg : config).

Definition calcLocHistIdx (branch_addr : Z) : Z :=
  Z.land (Z.shiftr branch_addr (instShiftAmt cfg)) (localHistoryTableSize cfg -[32] 1).

Definition updateGlobalHist (tid : nat) (taken : bool) (s : t) : res t :=
  let! g := nth_ (globalHistory s) tid in
  let! gs := upd_ (globalHistory s) tid (Z.land (shift_in g taken) (historyRegisterMask cfg)) in
  Ok (set_global s gs).

Definition updateLocalHist (local_history_idx : Z) (taken : bool) (s : t) : res t :=
  let! l := nth_ (localHistoryTable s) (Z.to_nat local_history_idx) in
  let! ls := upd_ (localHistoryTable s) (Z.to_nat local_history_idx) (shift_in l taken) in
  Ok (set_local s ls).

Definition lookup (tid : nat) (pc : Z) (s : t) : res (bool * BPHistory) :=
  let local_history_idx := calcLocHistIdx pc in
  let! l := nth_ (localHistoryTable s) (Z.to_nat local_history_idx) in
  let local_predictor_idx := Z.land l (localPredictorMask cfg) in
  let! local_prediction := ctr_above (localThreshold cfg) local_predictor_idx (localCtrs s) in
  let! g := nth_ (globalHistory s) tid in
  let! global_prediction := ctr_above (globalThreshold cfg) (Z.land g (globalHistoryMask cfg)) (globalCtrs s) in
  let! choice_prediction := ctr_above (choiceThreshold cfg) (Z.land g (choiceHistoryMask cfg)) (choiceCtrs s) in
  let history := mkHist g local_history_idx local_predictor_idx local_prediction global_prediction choice_prediction in
  check! local_history_idx <? localHistoryTableSize cfg;
  Ok (if choice_prediction then global_prediction else local_prediction, history).

Definition updateHistories (tid : nat) (uncond taken : bool) (bp_history : option BPHistory) (s : t) :
    res (option BPHistory * t) :=
  check! uncond || (match bp_history with Some _ => true | None => false end);
  let! bp_history := (if uncond then
      let! g := nth_ (globalHistory s) tid in
      Ok (Some (mkHist g invalidPredictorIndex invalidPredictorIndex true true true))
    else Ok bp_history) in
  let! s := updateGlobalHist tid taken s in
  if negb uncond then
    let! history := deref bp_history in
    let! s := updateLocalHist (localHistoryIdx history) taken s in
    Ok (bp_history, s)
  else Ok (bp_history, s).

(** Training the choice predictor. *)
Definition update_choice (history : BPHistory) (taken valid : bool) (ctrs : list SatCounter) : res (list SatCounter) :=
  if negb (Bool.eqb (localPredTaken history) (globalPredTaken history)) && valid then
    let choice_predictor_idx := Z.land (h_globalHistory history) (choiceHistoryMask cfg) in
    if Bool.eqb (localPredTaken history) taken then ctr_update false choice_predictor_idx ctrs
    else if Bool.eqb (globalPredTaken history) taken then ctr_update true choice_predictor_idx ctrs
    else Ok ctrs
  else Ok ctrs.

Definition update (tid : nat) (pc : Z) (taken : bool) (bp_history : option BPHistory) (squashed : bool) (s : t) :
    res (option BPHistory * t) :=
  check! (match bp_history with Some _ => true | None => false end);
  let! history := deref bp_history in
  let local_history_idx := calcLocHistIdx pc in
  check! local_history_idx <? localHistoryTableSize cfg;
  let old_local_pred_valid := negb (localHistory history =? invalidPredictorIndex) in
  if squashed then
    let! gs := upd_ (globalHistory s) tid
                 (Z.land (shift_in (h_globalHistory history) taken) (historyRegisterMask cfg)) in
    let s := set_global s gs in
    let! s := (if old_local_pred_valid then
        let! ls := upd_ (localHistoryTable s) (Z.to_nat local_history_idx) (shift_in (localHistory history) taken) in
        Ok (set_local s ls)
      else Ok s) in
    Ok (bp_history, s)
  else
    let old_local_pred_index := Z.land (localHistory history) (localPredictorMask cfg) in
    check! old_local_pred_index <? localPredictorSize cfg;
    let! cc := update_choice history taken old_local_pred_valid (choiceCtrs s) in
    let! gc := ctr_update taken (Z.land (h_globalHistory history) (globalHistoryMask cfg)) (globalCtrs s) in
    let! lc := (if old_local_pred_valid then ctr_update taken old_local_pred_index (localCtrs s)
                else Ok (localCtrs s)) in
    Ok (None, mk lc (localHistoryTable s) gc (globalHistory s) cc).

Definition squash (tid : nat) (bp_history : option BPHistory) (s : t) : res (option BPHistory * t) :=
  let! history := deref bp_history in
  let! gs := upd_ (globalHistory s) tid (h_globalHistory history) in
  let s := set_global s gs in
  let! s := (if negb (localHistoryIdx history =? invalidPredictorIndex) then
      let! ls := upd_ (localHistoryTable s) (Z.to_nat (localHistoryIdx history)) (localHistory history) in
      Ok (set_local s ls)
    else Ok s) in
  Ok (None, s).

#[export] Instance dirpred Inst : DirPred t BPHistory Inst := {
  dp_lookup tid pc _ s := let! (b, h) := lookup tid pc s in Ok (b, Some h, s);
  dp_updateHistories tid _ uncond taken _ h s := updateHistories tid uncond taken h s;
  dp_squash := squash;
  dp_update tid pc taken h squashed _ _ s := update tid pc taken h squashed s
}.

(** ** Its contract *)

(** The constants, as the constructor computes them. *)
Record cfg_ok : Prop := {
  ok_local : exists k, 0 <= k < 32 /\ localPredictorMask cfg = Z.ones k /\ localPredictorSize cfg = 2 ^ k;
  ok_table : exists k, 0 <= k < 32 /\ localHistoryTableSize cfg = 2 ^ k;
  ok_global : exists k, 0 <= k < 32 /\ globalHistoryMask cfg = Z.ones k;
  ok_choice : exists k, 0 <= k < 32 /\ choiceHistoryMask cfg = Z.ones k;
  ok_register : 0 <= historyRegisterMask cfg < 2 ^ 32
}.

Context (Hcfg : cfg_ok).

Record wf (n : nat) (s : t) : Prop := {
  wf_localCtrs : Z.of_nat (length (localCtrs s)) = localPredictorSize cfg;
  wf_table : Z.of_nat (length (localHistoryTable s)) = localHistoryTableSize cfg;
  wf_globalCtrs : Z.of_nat (length (globalCtrs s)) = globalHistoryMask cfg + 1;
  wf_globalHistory : length (globalHistory s) = n;
  wf_choiceCtrs : Z.of_nat (length (choiceCtrs s)) = choiceHistoryMask cfg + 1
}.

(** The speculative part: the global histories and what the local histories select. *)
Definition hist : Type := list Z * list Z.
Definition spec (s : t) : hist :=
  (globalHistory s, map (fun l => Z.land l (localPredictorMask cfg)) (localHistoryTable s)).
Definition next (tid : nat) (pc : Z) (uncond taken : bool) (a : hist) : hist :=
  (adjust (fun g => Z.land (shift_in g taken) (historyRegisterMask cfg)) tid (fst a),
   if uncond then snd a
   else adjust (fun l => Z.land (shift_in l taken) (localPredictorMask cfg)) (Z.to_nat (calcLocHistIdx pc)) (snd a)).

Definition local_rec (pc : Z) (h : BPHistory) (a : hist) : Prop :=
  localHistoryIdx h = calcLocHistIdx pc /\ snd a !! Z.to_nat (calcLocHistIdx pc) = Some (localHistory h) /\
  Z.land (localHistory h) (localPredictorMask cfg) = localHistory h.

Definition looked (tid : nat) (pc : Z) (h : option BPHistory) (a : hist) : Prop :=
  exists h', h = Some h' /\ fst a !! tid = Some (h_globalHistory h') /\ local_rec pc h' a.

Definition rec (tid : nat) (pc : Z) (uncond : bool) (h : option BPHistory) (a : hist) : Prop :=
  exists h', h = Some h' /\ fst a !! tid = Some (h_globalHistory h') /\
    if uncond then localHistoryIdx h' = invalidPredictorIndex /\ localHistory h' = invalidPredictorIndex
    else local_rec pc h' a.

Lemma calcLocHistIdx_lt pc : 0 <= calcLocHistIdx pc < localHistoryTableSize cfg.
Proof.
  destruct (ok_table Hcfg) as (k & Hk & E). unfold calcLocHistIdx. rewrite E.
  assert (1 <= 2 ^ k < 2 ^ 32).
  { split; [pose proof (Z.pow_pos_nonneg 2 k); lia|apply Z.pow_lt_mono_r; lia]. }
  rewrite wrap_small by (unfold in_u; lia). replace (2 ^ k - 1) with (Z.ones k) by (rewrite Z.ones_equiv; lia).
  apply land_ones_bound. lia.
Qed.

Lemma masked_valid pc h a : local_rec pc h a ->
  (localHistoryIdx h =? invalidPredictorIndex) = false /\ (localHistory h =? invalidPredictorIndex) = false /\
  0 <= localHistory h < localPredictorSize cfg.
Proof.
  intros (-> & _ & Hm). destruct (ok_local Hcfg) as (k & Hk & Em & ->).
  rewrite <- Hm, Em. pose proof (land_ones_bound (localHistory h) k ltac:(lia)) as Hb.
  assert (2 ^ k <= 2 ^ 31) by (apply Z.pow_le_mono_r; lia).
  pose proof (calcLocHistIdx_lt pc) as Hi. destruct (ok_table Hcfg) as (k' & Hk' & E'). rewrite E' in Hi.
  assert (2 ^ k' <= 2 ^ 31) by (apply Z.pow_le_mono_r; lia).
  split_and!; [apply Z.eqb_neq|apply Z.eqb_neq|lia..]; change invalidPredictorIndex with (2 ^ 32 - 1); lia.
Qed.

Lemma spec_local_lookup s i l : localHistoryTable s !! i = Some l ->
  snd (spec s) !! i = Some (Z.land l (localPredictorMask cfg)).
Proof. intros Hl. cbn. by rewrite list_lookup_fmap, Hl. Qed.

(** Writing one local history. *)
Lemma spec_set_local s i v : spec (set_local s (<[i := v]> (localHistoryTable s)))
  = (globalHistory s, <[i := Z.land v (localPredictorMask cfg)]> (snd (spec s))).
Proof. unfold spec. cbn. f_equal. apply (list_fmap_insert (fun l => Z.land l (localPredictorMask cfg))). Qed.

Lemma shift_local taken l : Z.land (shift_in (Z.land l (localPredictorMask cfg)) taken) (localPredictorMask cfg)
  = Z.land (shift_in l taken) (localPredictorMask cfg).
Proof. destruct (ok_local Hcfg) as (k & Hk & -> & _). apply shift_in_mask. lia. Qed.

Section laws.
Context (n : nat).

Lemma lookup_ok s tid pc : wf n s -> (tid < n)%nat ->
  exists b h, lookup tid pc s = Ok (b, h) /\ looked tid pc (Some h) (spec s).
Proof.
  intros [Hlc Ht Hgc Hg Hcc] Htid. pose proof (calcLocHistIdx_lt pc) as Hi.
  destruct (ok_local Hcfg) as (lk & Hlk & Em & Es). destruct (ok_global Hcfg) as (gk & Hgk & Egm).
  destruct (ok_choice Hcfg) as (ck & Hck & Ecm). rewrite Egm, Z.ones_equiv in Hgc. rewrite Ecm, Z.ones_equiv in Hcc.
  unfold lookup. destruct (nth_Ok (localHistoryTable s) (Z.to_nat (calcLocHistIdx pc))) as (l & -> & Hl); [lia|].
  cbn [rbind]. destruct (ctr_above_Ok (localThreshold cfg) (Z.land l (localPredictorMask cfg)) (localCtrs s)) as (b1 & ->).
  { rewrite Hlc, Em, Es. apply land_ones_bound. lia. }
  cbn [rbind]. destruct (nth_Ok (globalHistory s) tid) as (g & -> & Hgl); [lia|]. cbn [rbind].
  destruct (ctr_above_Ok (globalThreshold cfg) (Z.land g (globalHistoryMask cfg)) (globalCtrs s)) as (b2 & ->).
  { rewrite Egm. pose proof (land_ones_bound g gk ltac:(lia)). lia. }
  cbn [rbind]. destruct (ctr_above_Ok (choiceThreshold cfg) (Z.land g (choiceHistoryMask cfg)) (choiceCtrs s)) as (b3 & ->).
  { rewrite Ecm. pose proof (land_ones_bound g ck ltac:(lia)). lia. }
  cbn [rbind]. destruct (Z.ltb_spec (calcLocHistIdx pc) (localHistoryTableSize cfg)); [|lia]. cbn [assert_ rbind].
  eexists _, _. split; [done|]. eexists. split; [done|]. cbn [h_globalHistory localHistoryIdx localHistory].
  split; [done|]. unfold local_rec. cbn [localHistoryIdx localHistory]. split_and!; [done|by apply spec_local_lookup|].
  by rewrite <- Z.land_assoc, Z.land_diag.
Qed.

Lemma updateHistories_ok s tid pc (uncond taken : bool) h : wf n s -> (tid < n)%nat ->
  (if uncond then h = None else looked tid pc h (spec s)) ->
  exists h' s', updateHistories tid uncond taken h s = Ok (h', s') /\ wf n s' /\
    spec s' = next tid pc uncond taken (spec s) /\ rec tid pc uncond h' (spec s).
Proof.
  intros Hwf Htid Hh. pose proof Hwf as [Hlc Ht Hgc Hg Hcc].
  destruct (nth_Ok (globalHistory s) tid) as (g & Eg & Hgl); [lia|].
  set (gs := <[tid := Z.land (shift_in g taken) (historyRegisterMask cfg)]> (globalHistory s)).
  assert (Eu : updateGlobalHist tid taken s = Ok (set_global s gs)).
  { unfold updateGlobalHist. rewrite Eg. cbn [rbind]. rewrite upd_Ok by lia. done. }
  assert (Hadj : adjust (fun g => Z.land (shift_in g taken) (historyRegisterMask cfg)) tid (globalHistory s) = gs).
  { by rewrite (adjust_insert _ _ _ g Hgl). }
  unfold updateHistories. destruct uncond; cbn [orb assert_ rbind negb].
  - rewrite Eg. cbn [rbind]. rewrite Eu. cbn [rbind]. eexists _, _. split; [done|]. split_and!.
    + subst gs. constructor; cbn; rewrite ?length_insert; done.
    + unfold next. cbn. by rewrite Hadj.
    + eexists. split; [done|]. cbn. done.
  - destruct Hh as (h' & -> & Hgh & Hloc). pose proof Hloc as (Ei & Esl & Em). cbn [assert_ rbind].
    rewrite Eu. cbn [rbind deref]. pose proof (calcLocHistIdx_lt pc) as Hi.
    unfold updateLocalHist. rewrite Ei. cbn [localHistoryTable set_global].
    destruct (nth_Ok (localHistoryTable s) (Z.to_nat (calcLocHistIdx pc))) as (l & -> & Hl); [lia|]. cbn [rbind].
    rewrite upd_Ok by lia. cbn [rbind]. eexists _, _. split; [done|]. split_and!.
    + subst gs. constructor; cbn; rewrite ?length_insert; done.
    + pose proof (spec_set_local (set_global s gs) (Z.to_nat (calcLocHistIdx pc)) (shift_in l taken)) as E.
      cbn [localHistoryTable set_global globalHistory] in E. rewrite E. unfold next. cbn [fst]. f_equal; [done|].
      pose proof (spec_local_lookup s _ l Hl) as Hsp. cbn [snd] in Hsp.
      by rewrite (adjust_insert _ _ _ _ Hsp), shift_local.
    + exists h'. done.
Qed.

(** Both restores write the recorded global history and, for a conditional
    branch, the recorded local one. *)
Lemma restore_spec s tid pc uncond taken h a : wf n s -> (tid < n)%nat ->
  rec tid pc uncond (Some h) a -> spec s = next tid pc uncond taken a ->
  forall g l, spec (set_global s (<[tid := g]> (globalHistory s))) = (<[tid := g]> (fst a), snd (spec s)) /\
    (uncond = false ->
     spec (set_local (set_global s (<[tid := g]> (globalHistory s)))
             (<[Z.to_nat (calcLocHistIdx pc) := l]> (localHistoryTable s)))
     = (<[tid := g]> (fst a), <[Z.to_nat (calcLocHistIdx pc) := Z.land l (localPredictorMask cfg)]> (snd a))).
Proof.
  intros [Hlc Ht Hgc Hg Hcc] Htid (h' & [= <-] & Hgh & Hrec) Hspec g l. pose proof (calcLocHistIdx_lt pc) as Hi.
  assert (E1 : <[tid := g]> (globalHistory s) = <[tid := g]> (fst a)).
  { change (globalHistory s) with (fst (spec s)). rewrite Hspec. unfold next. cbn [fst].
    by rewrite (insert_adjust _ _ _ _ _ Hgh). }
  split; [unfold spec; cbn; by rewrite E1|]. intros ->. destruct Hrec as (_ & Hsl & _).
  pose proof (spec_set_local (set_global s (<[tid := g]> (globalHistory s))) (Z.to_nat (calcLocHistIdx pc)) l) as E.
  cbn [localHistoryTable set_global globalHistory] in E. rewrite E, E1. f_equal.
  transitivity (<[Z.to_nat (calcLocHistIdx pc) := Z.land l (localPredictorMask cfg)]> (snd (spec s))); [done|].
  rewrite Hspec. unfold next. cbn [snd]. by rewrite (insert_adjust _ _ _ _ _ Hsl).
Qed.

Lemma tournament_squash_ok s tid pc uncond h a : wf n s -> (tid < n)%nat -> rec tid pc uncond h a ->
  exists s', squash tid h s = Ok (None, s') /\ wf n s' /\
    forall taken, spec s = next tid pc uncond taken a -> spec s' = a.
Proof.
  intros Hwf Htid Hrec. pose proof Hrec as (h' & -> & Hgh & Hloc). pose proof Hwf as [Hlc Ht Hgc Hg Hcc].
  pose proof (calcLocHistIdx_lt pc).
  unfold squash. cbn [deref rbind]. rewrite upd_Ok by lia. cbn [rbind]. destruct uncond.
  - destruct Hloc as [-> _]. rewrite Z.eqb_refl. cbn [negb rbind]. eexists. split; [done|]. split.
    + constructor; cbn; rewrite ?length_insert; done.
    + intros taken Hspec. destruct (restore_spec s tid pc true taken h' a Hwf Htid Hrec Hspec (h_globalHistory h') 0) as [-> _].
      rewrite list_insert_id, Hspec by done. by destruct a.
  - destruct (masked_valid pc h' a Hloc) as (-> & _ & _). pose proof Hloc as (-> & Hsl & Hm). cbn [negb].
    cbn [localHistoryTable set_global]. rewrite upd_Ok by lia. cbn [rbind]. eexists. split; [done|]. split.
    + constructor; cbn; rewrite ?length_insert; done.
    + intros taken Hspec. cbn [localHistoryTable set_global].
      destruct (restore_spec s tid pc false taken h' a Hwf Htid Hrec Hspec (h_globalHistory h') (localHistory h')) as [_ ->]; [|done].
      rewrite Hm, !list_insert_id by done. by destruct a.
Qed.

Lemma tournament_correct_ok s tid pc uncond taken' h a : wf n s -> (tid < n)%nat -> rec tid pc uncond h a ->
  exists s', update tid pc taken' h true s = Ok (h, s') /\ wf n s' /\
    forall taken, spec s = next tid pc uncond taken a -> spec s' = next tid pc uncond taken' a.
Proof.
  intros Hwf Htid Hrec. pose proof Hrec as (h' & -> & Hgh & Hloc). pose proof Hwf as [Hlc Ht Hgc Hg Hcc].
  pose proof (calcLocHistIdx_lt pc). unfold update. cbn [assert_ deref rbind].
  destruct (Z.ltb_spec (calcLocHistIdx pc) (localHistoryTableSize cfg)); [|lia]. cbn [assert_ rbind].
  rewrite upd_Ok by lia. cbn [rbind]. set (g := Z.land _ (historyRegisterMask cfg)).
  destruct uncond.
  - destruct Hloc as [_ ->]. rewrite Z.eqb_refl. cbn [negb rbind]. eexists. split; [done|]. split.
    + constructor; cbn; rewrite ?length_insert; done.
    + intros taken Hspec. destruct (restore_spec s tid pc true taken h' a Hwf Htid Hrec Hspec g 0) as [-> _].
      unfold next at 1. by rewrite (adjust_insert _ _ _ _ Hgh), Hspec.
  - destruct (masked_valid pc h' a Hloc) as (_ & -> & _). pose proof Hloc as (_ & Hsl & Hm). cbn [negb].
    cbn [localHistoryTable set_global]. rewrite upd_Ok by lia. cbn [rbind]. eexists. split; [done|]. split.
    + constructor; cbn; rewrite ?length_insert; done.
    + intros taken Hspec. cbn [localHistoryTable set_global].
      destruct (restore_spec s tid pc false taken h' a Hwf Htid Hrec Hspec g (shift_in (localHistory h') taken')) as [_ ->]; [|done].
      unfold next. by rewrite (adjust_insert _ _ _ _ Hgh), (adjust_insert _ _ _ _ Hsl).
Qed.

Lemma update_choice_ok h taken valid ctrs : Z.of_nat (length ctrs) = choiceHistoryMask cfg + 1 ->
  exists ctrs', update_choice h taken valid ctrs = Ok ctrs' /\ length ctrs' = length ctrs.
Proof.
  intros Hl. destruct (ok_choice Hcfg) as (k & Hk & E). rewrite E, Z.ones_equiv in Hl.
  unfold update_choice. rewrite E. pose proof (land_ones_bound (h_globalHistory h) k ltac:(lia)).
  case_ifs; (apply ctr_update_Ok; lia) || by eexists.
Qed.

Lemma commit_ok s tid pc uncond taken h a : wf n s -> (tid < n)%nat -> rec tid pc uncond h a ->
  exists s', update tid pc taken h false s = Ok (None, s') /\ wf n s' /\ spec s' = spec s.
Proof.
  intros [Hlc Ht Hgc Hg Hcc] Htid (h' & -> & Hgh & Hloc). pose proof (calcLocHistIdx_lt pc).
  destruct (ok_local Hcfg) as (lk & Hlk & Em & Es). destruct (ok_global Hcfg) as (gk & Hgk & Egm).
  pose proof (land_ones_bound (localHistory h') lk ltac:(lia)) as Hl.
  unfold update. cbn [assert_ deref rbind].
  destruct (Z.ltb_spec (calcLocHistIdx pc) (localHistoryTableSize cfg)); [|lia]. cbn [assert_ rbind].
  destruct (Z.ltb_spec (Z.land (localHistory h') (localPredictorMask cfg)) (localPredictorSize cfg)) as [Hlt|];
    [|rewrite Em, Es in *; lia]. cbn [assert_ rbind].
  destruct (update_choice_ok h' taken (negb (localHistory h' =? invalidPredictorIndex)) (choiceCtrs s) Hcc) as (cc & -> & Lcc).
  cbn [rbind].
  destruct (ctr_update_Ok taken (Z.land (h_globalHistory h') (globalHistoryMask cfg)) (globalCtrs s)) as (gc & -> & Lgc).
  { rewrite Egm, Z.ones_equiv in Hgc. rewrite Egm. pose proof (land_ones_bound (h_globalHistory h') gk ltac:(lia)). lia. }
  cbn [rbind].
  destruct (ctr_update_Ok taken (Z.land (localHistory h') (localPredictorMask cfg)) (localCtrs s)) as (lc & El & Llc).
  { rewrite Hlc, Em, Es. done. }
  destruct (negb _); [rewrite El|]; cbn [rbind]; (eexists; split; [done|]; split; [|done]);
    constructor; cbn; rewrite ?Llc, ?Lgc, ?Lcc; done.
Qed.

#[export] Program Instance laws Inst : DirPredLaws (dirpred Inst) n := {|
  dp_inv := wf n;
  dp_hist := hist;
  dp_spec := spec;
  dp_next := next;
  dp_looked := looked;
  dp_rec := rec
|}.
Next Obligation.
  intros Inst s tid pc Hwf Htid _. destruct (lookup_ok s tid pc Hwf Htid) as (b & h & E & Hl).
  exists b, (Some h), s. cbn. rewrite E. done.
Qed.
Next Obligation. intros Inst s tid pc uncond taken target h Hwf Htid _ Hh. by apply updateHistories_ok. Qed.
Next Obligation. intros Inst s tid pc uncond h a Hwf Htid _. by apply tournament_squash_ok. Qed.
Next Obligation. intros Inst s tid pc uncond taken' inst target h a Hwf Htid _. by apply tournament_correct_ok. Qed.
Next Obligation. intros Inst s tid pc uncond taken inst target h a Hwf Htid _. by apply commit_ok. Qed.
End laws.
End ops.

(** What the constructor builds satisfies the contract. *)
Lemma new_ok p cfg s : in_u 32 (p_localPredictorSize p) -> in_u 32 (p_localHistoryTableSize p) ->
  in_u 32 (p_globalPredictorSize p) -> in_u 32 (p_choicePredictorSize p) ->
  new p = Ok (cfg, s) -> cfg_ok cfg /\ wf cfg (p_numThreads p) s.
Proof.
  intros Hl Ht Hg Hc (lc & _ & E)%rbind_Ok. apply rbind_Ok in E as (gc & _ & E). apply rbind_Ok in E as (cc & _ & E).
  destruct (isPowerOf2 32 (p_localPredictorSize p)) eqn:El; [|done].
  destruct (isPowerOf2 32 (p_globalPredictorSize p)) eqn:Eg; [|done].
  destruct (isPowerOf2 32 (p_localHistoryTableSize p)) eqn:Et; [|done].
  destruct (isPowerOf2 32 (p_choicePredictorSize p)) eqn:Ec; [|done]. cbn [negb] in E.
  destruct (_ <? _); [done|]. destruct (_ <? _); [done|]. injection E as <- <-.
  destruct (pow2_size _ Hl El) as (lk & Hlk & Els & Elc & _ & Elm).
  destruct (pow2_size _ Ht Et) as (tk & Htk & Ets & _).
  destruct (pow2_size _ Hg Eg) as (gk & Hgk & Egs & _ & Egm & _).
  destruct (pow2_size _ Hc Ec) as (ck & Hck & Ecs & _ & Ecm & _). unfold in_u in *.
  split; constructor; cbn.
  - exists lk. by rewrite Elc, Elm.
  - by exists tk.
  - by exists gk.
  - by exists ck.
  - apply (wrap_range 32). lia.
  - rewrite length_replicate. lia.
  - rewrite length_replicate. lia.
  - rewrite length_replicate, Egm, Z.ones_equiv. lia.
  - apply length_replicate.
  - rewrite length_replicate, Ecm, Z.ones_equiv. lia.
Qed.
End Tournament.

(** ** The bi-mode predictor *)

Module BiMode.

Record config := mkConfig {
  instShiftAmt : Z;
  historyRegisterMask : Z;
  choicePredictorSize : Z;
  choiceHistoryMask : Z;
  globalPredictorSize : Z;
  globalHistoryMask : Z;
  choiceThreshold : Z;
  takenThreshold : Z;
  notTakenThreshold : Z
}.

Record t := mk {
  globalHistoryReg : list Z;
  choiceCounters : list SatCounter;
  takenCounters : list SatCounter;
  notTakenCounters : list SatCounter
}.

Record BPHistory := mkHist {
  h_globalHistoryReg : Z;
  takenUsed : bool;
  takenPred : bool;
  notTakenPred : bool;
  finalPred : bool
}.

Definition new (numThreads : nat) (inst_shift global_size choice_size choiceCtrBits globalCtrBits : Z) :
    res (config * t) :=
  let! cc := SatCounter_new 8 choiceCtrBits 0 in
  let! gc := SatCounter_new 8 globalCtrBits 0 in
  if negb (isPowerOf2 32 choice_size) then Err Fatal else
  if negb (isPowerOf2 32 global_size) then Err Fatal else
  Ok (mkConfig inst_shift (wrap 32 (mask (ceilLog2 32 global_size))) choice_size (choice_size -[32] 1)
        global_size (global_size -[32] 1)
        (wrap 32 (Z.shiftl 1 (choiceCtrBits - 1) - 1)) (wrap 32 (Z.shiftl 1 (globalCtrBits - 1) - 1))
        (wrap 32 (Z.shiftl 1 (globalCtrBits - 1) - 1)),
      mk (replicate numThreads 0) (replicate (Z.to_nat choice_size) cc)
         (replicate (Z.to_nat global_size) gc) (replicate (Z.to_nat global_size) gc)).

Section ops.
Context (cfg : config).

Definition set_reg (s : t) (g : list Z) : t := mk g (choiceCounters s) (takenCounters s) (notTakenCounters s).

Definition updateGlobalHistReg (tid : nat) (taken : bool) (s : t) : res t :=
  let! g := nth_ (globalHistoryReg s) tid in
  let g := if taken then Z.lor (g <<[32] 1) 1 else g <<[32] 1 in
  let! gs := upd_ (globalHistoryReg s) tid (Z.land g (historyRegisterMask cfg)) in
  Ok (set_reg s gs).

Definition uncondBranch (tid : nat) (s : t) : res BPHistory :=
  let! g := nth_ (globalHistoryReg s) tid in Ok (mkHist g true true true true).

Definition updateHistories (tid : nat) (uncond taken : bool) (bp_history : option BPHistory) (s : t) :
    res (option BPHistory * t) :=
  check! uncond || (match bp_history with Some _ => true | None => false end);
  let! bp_history := (if uncond then let! h := uncondBranch tid s in Ok (Some h) else Ok bp_history) in
  let! s := updateGlobalHistReg tid taken s in
  Ok (bp_history, s).

Definition squash (tid : nat) (bp_history : option BPHistory) (s : t) : res (option BPHistory * t) :=
  let! history := deref bp_history in
  let! gs := upd_ (globalHistoryReg s) tid (h_globalHistoryReg history) in
  Ok (None, set_reg s gs).

Definition choice_idx (branchAddr : Z) : Z :=
  Z.land (Z.shiftr branchAddr (instShiftAmt cfg)) (choiceHistoryMask cfg).

(** The hash of the address with a global history. *)
Definition global_idx (branchAddr g : Z) : Z :=
  Z.land (Z.lxor (Z.shiftr branchAddr (instShiftAmt cfg)) g) (globalHistoryMask cfg).

Definition lookup (tid : nat) (branchAddr : Z) (s : t) : res (bool * BPHistory) :=
  let choiceHistoryIdx := choice_idx branchAddr in
  let! g := nth_ (globalHistoryReg s) tid in
  let globalHistoryIdx := global_idx branchAddr g in
  check! choiceHistoryIdx <? choicePredictorSize cfg;
  check! globalHistoryIdx <? globalPredictorSize cfg;
  let! choicePrediction := ctr_above (choiceThreshold cfg) choiceHistoryIdx (choiceCounters s) in
  let! takenGHBPrediction := ctr_above (takenThreshold cfg) globalHistoryIdx (takenCounters s) in
  let! notTakenGHBPrediction := ctr_above (notTakenThreshold cfg) globalHistoryIdx (notTakenCounters s) in
  let finalPrediction := if choicePrediction then takenGHBPrediction else notTakenGHBPrediction in
  Ok (finalPrediction, mkHist g choicePrediction takenGHBPrediction notTakenGHBPrediction finalPrediction).

Definition update (tid : nat) (branchAddr : Z) (taken : bool) (bp_history : option BPHistory) (squashed : bool)
    (s : t) : res (option BPHistory * t) :=
  check! (match bp_history with Some _ => true | None => false end);
  let! history := deref bp_history in
  if squashed then
    let! gs := upd_ (globalHistoryReg s) tid (shift_in (h_globalHistoryReg history) taken) in
    Ok (bp_history, set_reg s gs)
  else
    let choiceHistoryIdx := choice_idx branchAddr in
    let globalHistoryIdx := global_idx branchAddr (h_globalHistoryReg history) in
    check! choiceHistoryIdx <? choicePredictorSize cfg;
    check! globalHistoryIdx <? globalPredictorSize cfg;
    let! (tc, ntc) := (if takenUsed history then
        let! tc := ctr_update taken globalHistoryIdx (takenCounters s) in Ok (tc, notTakenCounters s)
      else
        let! ntc := ctr_update taken globalHistoryIdx (notTakenCounters s) in Ok (takenCounters s, ntc)) in
    let! cc := (if Bool.eqb (finalPred history) taken then
        if Bool.eqb (finalPred history) (takenUsed history)
        then ctr_update taken choiceHistoryIdx (choiceCounters s)
        else Ok (choiceCounters s)
      else ctr_update taken choiceHistoryIdx (choiceCounters s)) in
    Ok (None, mk (globalHistoryReg s) cc tc ntc).

#[export] Instance dirpred Inst : DirPred t BPHistory Inst := {
  dp_lookup tid pc _ s := let! (b, h) := lookup tid pc s in Ok (b, Some h, s);
  dp_updateHistories tid _ uncond taken _ h s := updateHistories tid uncond taken h s;
  dp_squash := squash;
  dp_update tid pc taken h squashed _ _ s := update tid pc taken h squashed s
}.

(** ** Its contract *)

Record cfg_ok : Prop := {
  ok_global : exists k, 0 <= k < 32 /\ historyRegisterMask cfg = Z.ones k /\ globalHistoryMask cfg = Z.ones k /\
    globalPredictorSize cfg = 2 ^ k;
  ok_choice : exists k, 0 <= k < 32 /\ choiceHistoryMask cfg = Z.ones k /\ choicePredictorSize cfg = 2 ^ k
}.
Context (Hcfg : cfg_ok).

Record wf (n : nat) (s : t) : Prop := {
  wf_reg : length (globalHistoryReg s) = n;
  wf_choice : Z.of_nat (length (choiceCounters s)) = choicePredictorSize cfg;
  wf_taken : Z.of_nat (length (takenCounters s)) = globalPredictorSize cfg;
  wf_notTaken : Z.of_nat (length (notTakenCounters s)) = globalPredictorSize cfg
}.

(** After a misprediction the register holds one bit more than its mask; only
    the bits under the mask are ever used. *)
Definition spec (s : t) : list Z := map (fun g => Z.land g (historyRegisterMask cfg)) (globalHistoryReg s).
Definition next (tid : nat) (taken : bool) (a : list Z) : list Z :=
  adjust (fun g => Z.land (shift_in g taken) (historyRegisterMask cfg)) tid a.
Definition rec (tid : nat) (h : option BPHistory) (a : list Z) : Prop :=
  exists h', h = Some h' /\ a !! tid = Some (Z.land (h_globalHistoryReg h') (historyRegisterMask cfg)).

Section laws.
Context (n : nat).

Lemma choice_idx_lt pc : 0 <= choice_idx pc < choicePredictorSize cfg.
Proof. destruct (ok_choice Hcfg) as (k & Hk & Em & ->). unfold choice_idx. rewrite Em. apply land_ones_bound. lia. Qed.

Lemma global_idx_lt pc g : 0 <= global_idx pc g < globalPredictorSize cfg.
Proof. destruct (ok_global Hcfg) as (k & Hk & _ & Em & ->). unfold global_idx. rewrite Em. apply land_ones_bound. lia. Qed.

Lemma spec_set_reg s tid v :
  spec (set_reg s (<[tid := v]> (globalHistoryReg s))) = <[tid := Z.land v (historyRegisterMask cfg)]> (spec s).
Proof. unfold spec. cbn. apply (list_fmap_insert (fun g => Z.land g (historyRegisterMask cfg))). Qed.

Lemma shift_reg g taken : Z.land (shift_in (Z.land g (historyRegisterMask cfg)) taken) (historyRegisterMask cfg)
  = Z.land (shift_in g taken) (historyRegisterMask cfg).
Proof. destruct (ok_global Hcfg) as (k & Hk & -> & _). apply shift_in_mask. lia. Qed.

Lemma bimode_lookup s tid pc : wf n s -> (tid < n)%nat ->
  exists b h, lookup tid pc s = Ok (b, h) /\ rec tid (Some h) (spec s).
Proof.
  intros [Hr Hc Ht Hnt] Htid. unfold lookup. destruct (nth_Ok (globalHistoryReg s) tid) as (g & -> & Hg); [lia|].
  cbn [rbind]. pose proof (choice_idx_lt pc). pose proof (global_idx_lt pc g).
  destruct (Z.ltb_spec (choice_idx pc) (choicePredictorSize cfg)); [|lia].
  destruct (Z.ltb_spec (global_idx pc g) (globalPredictorSize cfg)); [|lia]. cbn [assert_ rbind].
  destruct (ctr_above_Ok (choiceThreshold cfg) (choice_idx pc) (choiceCounters s)) as (b1 & ->); [lia|]. cbn [rbind].
  destruct (ctr_above_Ok (takenThreshold cfg) (global_idx pc g) (takenCounters s)) as (b2 & ->); [lia|]. cbn [rbind].
  destruct (ctr_above_Ok (notTakenThreshold cfg) (global_idx pc g) (notTakenCounters s)) as (b3 & ->); [lia|]. cbn [rbind].
  eexists _, _. split; [done|]. eexists. split; [done|]. unfold spec. by rewrite list_lookup_fmap, Hg.
Qed.

Lemma bimode_updateHistories s tid (uncond taken : bool) h : wf n s -> (tid < n)%nat ->
  (if uncond then h = None else rec tid h (spec s)) ->
  exists h' s', updateHistories tid uncond taken h s = Ok (h', s') /\ wf n s' /\
    spec s' = next tid taken (spec s) /\ rec tid h' (spec s).
Proof.
  intros [Hr Hc Ht Hnt] Htid Hh. destruct (nth_Ok (globalHistoryReg s) tid) as (g & Eg & Hg); [lia|].
  assert (Hsp : spec s !! tid = Some (Z.land g (historyRegisterMask cfg))) by (unfold spec; by rewrite list_lookup_fmap, Hg).
  set (g' := Z.land (shift_in g taken) (historyRegisterMask cfg)).
  assert (Eu : updateGlobalHistReg tid taken s = Ok (set_reg s (<[tid := g']> (globalHistoryReg s)))).
  { unfold updateGlobalHistReg. rewrite Eg. cbn [rbind]. rewrite upd_Ok by lia. cbn [rbind]. do 4 f_equal.
    unfold shift_in. destruct taken; [done|]. cbn [Z.b2z]. by rewrite Z.lor_0_r. }
  assert (Hnext : spec (set_reg s (<[tid := g']> (globalHistoryReg s))) = next tid taken (spec s)).
  { rewrite spec_set_reg. unfold next. rewrite (adjust_insert _ _ _ _ Hsp), shift_reg. f_equal.
    unfold g'. by rewrite <- Z.land_assoc, Z.land_diag. }
  assert (Hwf' : wf n (set_reg s (<[tid := g']> (globalHistoryReg s)))).
  { constructor; cbn; rewrite ?length_insert; done. }
  unfold updateHistories, uncondBranch. destruct uncond.
  - cbn [orb assert_ rbind]. rewrite Eg. cbn [rbind]. rewrite Eu. cbn [rbind]. eexists _, _. split_and!; [done..|].
    eexists. by split.
  - pose proof Hh as (h' & -> & _). cbn [orb assert_ rbind]. rewrite Eu. cbn [rbind]. eexists _, _. by split_and!.
Qed.

Lemma bimode_restore s tid h a v : wf n s -> (tid < n)%nat -> rec tid (Some h) a ->
  upd_ (globalHistoryReg s) tid v = Ok (<[tid := v]> (globalHistoryReg s)) /\
  wf n (set_reg s (<[tid := v]> (globalHistoryReg s))) /\
  forall taken, spec s = next tid taken a ->
    spec (set_reg s (<[tid := v]> (globalHistoryReg s))) = <[tid := Z.land v (historyRegisterMask cfg)]> a.
Proof.
  intros [Hr Hc Ht Hnt] Htid (h' & [= <-] & Ha). split; [apply upd_Ok; lia|]. split.
  - constructor; cbn; rewrite ?length_insert; done.
  - intros taken Hs. rewrite spec_set_reg, Hs. unfold next. by rewrite (insert_adjust _ _ _ _ _ Ha).
Qed.

Lemma bimode_commit s tid pc taken h a : wf n s -> (tid < n)%nat -> rec tid h a ->
  exists s', update tid pc taken h false s = Ok (None, s') /\ wf n s' /\ spec s' = spec s.
Proof.
  intros [Hr Hc Ht Hnt] Htid (h' & -> & Ha). unfold update. cbn [assert_ deref rbind].
  pose proof (choice_idx_lt pc). pose proof (global_idx_lt pc (h_globalHistoryReg h')).
  destruct (Z.ltb_spec (choice_idx pc) (choicePredictorSize cfg)); [|lia].
  destruct (Z.ltb_spec (global_idx pc (h_globalHistoryReg h')) (globalPredictorSize cfg)); [|lia]. cbn [assert_ rbind].
  destruct (ctr_update_Ok taken (global_idx pc (h_globalHistoryReg h')) (takenCounters s)) as (tc & Etc & Ltc); [lia|].
  destruct (ctr_update_Ok taken (global_idx pc (h_globalHistoryReg h')) (notTakenCounters s)) as (nc & Enc & Lnc); [lia|].
  destruct (ctr_update_Ok taken (choice_idx pc) (choiceCounters s)) as (cc & Ecc & Lcc); [lia|].
  rewrite Etc, Enc, Ecc. case_ifs; cbn [rbind]; (eexists; split; [done|]; split; [|done]);
    constructor; cbn; rewrite ?Ltc, ?Lnc, ?Lcc; done.
Qed.

#[export] Program Instance laws Inst : DirPredLaws (dirpred Inst) n := {|
  dp_inv := wf n;
  dp_hist := list Z;
  dp_spec := spec;
  dp_next tid _ _ taken a := next tid taken a;
  dp_looked tid _ h a := rec tid h a;
  dp_rec tid _ _ h a := rec tid h a
|}.
Next Obligation.
  intros Inst s tid pc Hwf Htid _. destruct (bimode_lookup s tid pc Hwf Htid) as (b & h & E & Hl).
  exists b, (Some h), s. cbn. rewrite E. done.
Qed.
Next Obligation. intros Inst s tid pc uncond taken target h Hwf Htid _ Hh. by apply bimode_updateHistories. Qed.
Next Obligation.
  intros Inst s tid pc uncond h a Hwf Htid _ Hrec. pose proof Hrec as (h' & -> & Ha).
  destruct (bimode_restore s tid h' a (h_globalHistoryReg h')) as (E & Hwf' & Hsp); [done..|].
  cbn. unfold squash. cbn [deref rbind]. rewrite E. cbn [rbind]. eexists. split_and!; [done..|].
  intros taken Hs. by rewrite (Hsp taken Hs), list_insert_id.
Qed.
Next Obligation.
  intros Inst s tid pc uncond taken' inst target h a Hwf Htid _ Hrec. pose proof Hrec as (h' & -> & Ha).
  destruct (bimode_restore s tid h' a (shift_in (h_globalHistoryReg h') taken')) as (E & Hwf' & Hsp); [done..|].
  cbn. unfold update. cbn [assert_ deref rbind]. rewrite E. cbn [rbind]. eexists. split_and!; [done..|].
  intros taken Hs. rewrite (Hsp taken Hs). unfold next. by rewrite (adjust_insert _ _ _ _ Ha), shift_reg.
Qed.
Next Obligation. intros Inst s tid pc uncond taken inst target h a Hwf Htid _. by apply bimode_commit. Qed.
End laws.
End ops.

Lemma new_bimode nt sh gs cs cb gb cfg s : in_u 32 gs -> in_u 32 cs -> new nt sh gs cs cb gb = Ok (cfg, s) ->
  cfg_ok cfg /\ wf cfg nt s.
Proof.
  intros Hg Hc (cc & _ & E)%rbind_Ok. apply rbind_Ok in E as (gc & _ & E).
  destruct (isPowerOf2 32 cs) eqn:Ec; [|done]. destruct (isPowerOf2 32 gs) eqn:Eg; [|done]. injection E as <- <-.
  destruct (pow2_size _ Hg Eg) as (gk & Hgk & Egs & Egl & Egm & Egw).
  destruct (pow2_size _ Hc Ec) as (ck & Hck & Ecs & _ & Ecm & _). unfold in_u in *.
  split; constructor; cbn; rewrite ?length_replicate; try lia.
  - exists gk. by rewrite Egl, Egw.
  - by exists ck.
Qed.
End BiMode.
