(* ===== verification/Btb.v ===== *)
(** * The branch target buffer

    The interface of [cpu/pred/btb.hh] and the direct-mapped buffer of
    [cpu/pred/simple_btb.cc].  The statistics are left out. *)

From Stdlib Require Import ZArith Lia Bool.
From stdpp Require Import base tactics option list numbers.
From S2P Require Import Prelude Bitfield Intmath Ras DirPred.
Open Scope Z_scope.

(** The operations [BPredUnit] calls. *)
Class BranchTargetBuffer (B PC Inst : Type) := {
  btb_lookup : nat -> Z -> BranchType -> B -> res (option PC);
  btb_update : nat -> Z -> PC -> BranchType -> option Inst -> B -> res B
}.

(** They never fail on a well-formed buffer, for [n] threads. *)
Class BTBLaws {B PC Inst : Type} (T : BranchTargetBuffer B PC Inst) (n : nat) := {
  btb_inv : B -> Prop;
  btb_lookup_ok b tid pc type : btb_inv b -> (tid < n)%nat -> in_u 64 pc ->
    exists o, btb_lookup tid pc type b = Ok o;
  btb_update_ok b tid pc target type inst : btb_inv b -> (tid < n)%nat -> in_u 64 pc ->
    exists b', btb_update tid pc target type inst b = Ok b' /\ btb_inv b'
}.

Module SimpleBTB.

Record BTBEntry (PC Inst : Type) := mkEntry {
  tag : Z;
  target : option PC;
  e_tid : nat;
  valid_ : bool;
  inst : option Inst
}.
Arguments mkEntry {PC Inst}.
Arguments tag {PC Inst}.
Arguments target {PC Inst}.
Arguments e_tid {PC Inst}.
Arguments valid_ {PC Inst}.
Arguments inst {PC Inst}.

Record config := mkConfig {
  numEntries : Z;
  idxMask : Z;
  tagMask : Z;
  instShiftAmt : Z;
  tagShiftAmt : Z;
  log2NumThreads : Z
}.

Record t (PC Inst : Type) := mk { btb : list (BTBEntry PC Inst) }.
Arguments mk {PC Inst}.
Arguments btb {PC Inst}.

Section ops.
Context {PC Inst : Type}.

Definition new (num_entries tagBits inst_shift numThreads : Z) : res (config * t PC Inst) :=
  if negb (isPowerOf2 32 num_entries) then Err Fatal else
  Ok (mkConfig num_entries (num_entries -[32] 1) (wrap 32 (swrap 32 (Z.shiftl 1 tagBits) - 1)) inst_shift
        (inst_shift +[32] floorLog2 32 num_entries) (floorLog2 32 numThreads),
      mk (replicate (Z.to_nat num_entries) (mkEntry 0 None 0 false None))).

Context (cfg : config).

Definition invalidate (e : BTBEntry PC Inst) : BTBEntry PC Inst :=
  mkEntry (tag e) (target e) (e_tid e) false (inst e).

Definition memInvalidate (b : t PC Inst) : t PC Inst := mk (map invalidate (btb b)).

(** [tid << (tagShiftAmt - instShiftAmt - log2NumThreads)] is an [int]. *)
Definition getIndex (instPC : Z) (tid : nat) : Z :=
  Z.land (Z.lxor (Z.shiftr instPC (instShiftAmt cfg))
            (wrap 64 (swrap 32 (Z.shiftl (Z.of_nat tid) (tagShiftAmt cfg - instShiftAmt cfg - log2NumThreads cfg)))))
         (idxMask cfg).

Definition getTag (instPC : Z) : Z := Z.land (Z.shiftr instPC (tagShiftAmt cfg)) (tagMask cfg).

Definition findEntry (instPC : Z) (tid : nat) (b : t PC Inst) : res (option (BTBEntry PC Inst)) :=
  let btb_idx := getIndex instPC tid in
  let inst_tag := getTag instPC in
  check! btb_idx <? numEntries cfg;
  let! e := nth_ (btb b) (Z.to_nat btb_idx) in
  Ok (if valid_ e && (inst_tag =? tag e) && (e_tid e =? tid)%nat then Some e else None).

Definition valid (tid : nat) (instPC : Z) (b : t PC Inst) : res bool :=
  let! entry := findEntry instPC tid b in
  Ok (match entry with Some _ => true | None => false end).

Definition lookup (tid : nat) (instPC : Z) (type : BranchType) (b : t PC Inst) : res (option PC) :=
  let! entry := findEntry instPC tid b in
  Ok (match entry with Some e => target e | None => None end).

Definition getInst (tid : nat) (instPC : Z) (b : t PC Inst) : res (option Inst) :=
  let! entry := findEntry instPC tid b in
  Ok (match entry with Some e => inst e | None => None end).

Definition update (tid : nat) (instPC : Z) (tgt : PC) (type : BranchType) (i : option Inst) (b : t PC Inst) :
    res (t PC Inst) :=
  let btb_idx := getIndex instPC tid in
  check! btb_idx <? numEntries cfg;
  let! es := upd_ (btb b) (Z.to_nat btb_idx) (mkEntry (getTag instPC) (Some tgt) tid true i) in
  Ok (mk es).

#[export] Instance buffer : BranchTargetBuffer (t PC Inst) PC Inst := {
  btb_lookup := lookup;
  btb_update := update
}.

Record wf (b : t PC Inst) : Prop := {
  wf_size : exists k, 0 <= k /\ numEntries cfg = 2 ^ k /\ idxMask cfg = Z.ones k;
  wf_len : Z.of_nat (length (btb b)) = numEntries cfg
}.

Lemma getIndex_lt b pc tid : wf b -> 0 <= getIndex pc tid < numEntries cfg.
Proof. intros [(k & Hk & -> & Em) _]. unfold getIndex. rewrite Em. by apply land_ones_bound. Qed.

Lemma findEntry_Ok b pc tid : wf b -> exists e, btb b !! Z.to_nat (getIndex pc tid) = Some e /\
  findEntry pc tid b = Ok (if valid_ e && (getTag pc =? tag e) && (e_tid e =? tid)%nat then Some e else None).
Proof.
  intros Hwf. pose proof (getIndex_lt b pc tid Hwf) as Hi. unfold findEntry.
  destruct (Z.ltb_spec (getIndex pc tid) (numEntries cfg)); [|lia]. cbn [assert_ rbind].
  destruct (nth_Ok (btb b) (Z.to_nat (getIndex pc tid))) as (e & -> & He).
  { pose proof (wf_len b Hwf). lia. }
  exists e. by split.
Qed.

Lemma update_Ok b pc tid tgt type i : wf b ->
  update tid pc tgt type i b
  = Ok (mk (<[Z.to_nat (getIndex pc tid) := mkEntry (getTag pc) (Some tgt) tid true i]> (btb b))) /\
  wf (mk (<[Z.to_nat (getIndex pc tid) := mkEntry (getTag pc) (Some tgt) tid true i]> (btb b))).
Proof.
  intros Hwf. pose proof (getIndex_lt b pc tid Hwf) as Hi. pose proof (wf_len b Hwf) as Hl. unfold update.
  destruct (Z.ltb_spec (getIndex pc tid) (numEntries cfg)); [|lia]. cbn [assert_ rbind].
  rewrite upd_Ok by lia. split; [done|]. destruct Hwf as [Hk _]. constructor; [done|]. cbn. by rewrite length_insert.
Qed.

#[export] Program Instance laws n : BTBLaws buffer n := {| btb_inv := wf |}.
Next Obligation.
  intros n b tid pc type Hwf _ _. destruct (findEntry_Ok b pc tid Hwf) as (e & _ & E).
  cbn. unfold lookup. rewrite E. by eexists.
Qed.
Next Obligation.
  intros n b tid pc tgt type i Hwf _ _. destruct (update_Ok b pc tid tgt type i Hwf) as [E Hwf'].
  cbn. rewrite E. by eexists.
Qed.

(** After a branch's target is stored, looking that branch up gives that
    target; a branch of another slot keeps its own result, and a branch that
    shares the slot with another tag or another thread misses. *)
Theorem btb_update_lookup b b' pc tid tgt type i : wf b -> update tid pc tgt type i b = Ok b' ->
  wf b' /\ (forall ty, lookup tid pc ty b' = Ok (Some tgt)) /\ getInst tid pc b' = Ok i /\
  forall pc' tid' ty, (getIndex pc' tid', getTag pc', tid') <> (getIndex pc tid, getTag pc, tid) ->
    lookup tid' pc' ty b' = if getIndex pc' tid' =? getIndex pc tid then Ok None else lookup tid' pc' ty b.
Proof.
  intros Hwf E. destruct (update_Ok b pc tid tgt type i Hwf) as [E' Hwf']. rewrite E' in E. injection E as <-.
  set (b' := mk _) in *. pose proof (getIndex_lt b pc tid Hwf) as Hi. pose proof (wf_len b Hwf) as Hl.
  assert (Hown : findEntry pc tid b' = Ok (Some (mkEntry (getTag pc) (Some tgt) tid true i))).
  { destruct (findEntry_Ok b' pc tid Hwf') as (e & He & ->). cbn [btb b'] in He.
    rewrite list_lookup_insert_eq in He by lia. injection He as <-. cbn [valid_ tag e_tid].
    by rewrite Z.eqb_refl, Nat.eqb_refl. }
  split; [done|]. split; [intros ty; unfold lookup; by rewrite Hown|]. split; [unfold getInst; by rewrite Hown|].
  intros pc' tid' ty Hne. unfold lookup. destruct (findEntry_Ok b' pc' tid' Hwf') as (e & He & ->).
  pose proof (getIndex_lt b pc' tid' Hwf) as Hi'. cbn [btb b'] in He.
  destruct (Z.eqb_spec (getIndex pc' tid') (getIndex pc tid)) as [Ei|Ei].
  - rewrite Ei, list_lookup_insert_eq in He by lia. injection He as <-. cbn [valid_ tag e_tid rbind].
    destruct (Z.eqb_spec (getTag pc') (getTag pc)), (Nat.eqb_spec tid tid'); cbn [andb]; try done. congruence.
  - rewrite list_lookup_insert_ne in He by lia. destruct (findEntry_Ok b pc' tid' Hwf) as (e' & He' & ->).
    by assert (e' = e) as -> by congruence.
Qed.
End ops.

Lemma btb_update_lookup_witness :
  let cfg := mkConfig 4 3 255 2 4 0 in
  let b := mk (PC := Z) (Inst := unit) (replicate 4 (mkEntry 0 None 0 false None)) in
  let b' := mk (<[2%nat := mkEntry 16 (Some 0x900) 0 true (Some tt)]> (btb b)) in
  wf cfg b' /\ (forall ty, lookup cfg 0 0x108 ty b' = Ok (Some 0x900)) /\ getInst cfg 0 0x108 b' = Ok (Some tt) /\
  forall pc' tid' ty, (getIndex cfg pc' tid', getTag cfg pc', tid') <> (getIndex cfg 0x108 0, getTag cfg 0x108, 0%nat) ->
    lookup cfg tid' pc' ty b' = if getIndex cfg pc' tid' =? getIndex cfg 0x108 0 then Ok None else lookup cfg tid' pc' ty b.
Proof.
  intros cfg b b'. apply (btb_update_lookup cfg b b' 0x108 0 0x900 DirectCond (Some tt)); [|reflexivity].
  constructor; [exists 2; repeat split; lia|reflexivity].
Defined.
End SimpleBTB.
