(* ===== verification/Indirect.v ===== *)
(** * The indirect branch predictor

    The interface of [cpu/pred/indirect.hh] and the set-associative predictor of
    [cpu/pred/simple_indirect.cc].  The statistics and debug prints are left out;
    [rand()] is a parameter. *)

From Stdlib Require Import ZArith Lia Bool.
From stdpp Require Import base tactics option list numbers.
From S2P Require Import Prelude Bitfield Intmath Ras DirPred.
Open Scope Z_scope.

(** ** The interface *)

Class IndirectPredictor (I IH PC : Type) := {
  ip_lookup : nat -> Z -> PC -> option IH -> I -> res (option PC * option IH * I);
  ip_update : nat -> Z -> Z -> bool -> bool -> PC -> BranchType -> option IH -> I -> res (option IH * I);
  ip_squash : nat -> Z -> option IH -> I -> res (option IH * I);
  ip_commit : nat -> Z -> option IH -> I -> res (option IH * I)
}.

(** The contract, like the one of the direction predictors: [ip_spec] is the
    direction history the predictor keeps of all branches. *)
Class IndirectLaws {I IH PC : Type} (P : IndirectPredictor I IH PC) (n : nat) := {
  ip_inv : I -> Prop;
  ip_hist : Type;
  ip_spec : I -> ip_hist;
  ip_next : nat -> bool -> ip_hist -> ip_hist;
  ip_rec : nat -> option IH -> ip_hist -> Prop;
  ip_lookup_ok s tid sn pc : ip_inv s -> (tid < n)%nat ->
    exists o h s', ip_lookup tid sn pc None s = Ok (o, h, s') /\ ip_inv s' /\ ip_spec s' = ip_spec s /\
      ip_rec tid h (ip_spec s);
  ip_update_ok s tid sn pc taken target type h : ip_inv s -> (tid < n)%nat ->
    h = None \/ ip_rec tid h (ip_spec s) ->
    exists h' s', ip_update tid sn pc false taken target type h s = Ok (h', s') /\ ip_inv s' /\
      ip_spec s' = ip_next tid taken (ip_spec s) /\ ip_rec tid h' (ip_spec s);
  ip_squash_ok s tid sn h a : ip_inv s -> (tid < n)%nat -> ip_rec tid h a ->
    exists s', ip_squash tid sn h s = Ok (None, s') /\ ip_inv s' /\
      forall taken, ip_spec s = ip_next tid taken a -> ip_spec s' = a;
  ip_correct_ok s tid sn pc taken' target type h a : ip_inv s -> (tid < n)%nat -> ip_rec tid h a ->
    exists h' s', ip_update tid sn pc true taken' target type h s = Ok (h', s') /\ ip_inv s' /\ ip_rec tid h' a /\
      forall taken, ip_spec s = ip_next tid taken a -> ip_spec s' = ip_next tid taken' a;
  ip_commit_ok s tid sn h a : ip_inv s -> (tid < n)%nat -> ip_rec tid h a ->
    exists s', ip_commit tid sn h s = Ok (None, s') /\ ip_inv s' /\ ip_spec s' = ip_spec s
}.

(** ** The simple predictor *)

Module SimpleIndirect.

Record config := mkConfig {
  hashGHR : bool;
  hashTargets : bool;
  numSets : Z;
  numWays : Z;
  tagBits : Z;
  pathLength : Z;
  speculativePathLength : Z;
  instShift : Z;
  ghrMask : Z
}.

Record IPredEntry (PC : Type) := mkEntry { tag : Z; target : option PC }.
Arguments mkEntry {PC}.
Arguments tag {PC}.
Arguments target {PC}.

Record HistoryEntry := mkHE { pcAddr : Z; targetAddr : Z; seqNum : Z }.

(** The path history, the youngest entry last. *)
Record ThreadInfo := mkTI { pathHist : list HistoryEntry; ghr : Z }.

Record IndirectHistory := mkIH {
  h_pcAddr : Z;
  set_index : Z;
  h_tag : Z;
  hit : bool;
  h_ghr : Z;
  was_indirect : bool
}.

(** [rands] counts the calls of [rand()]. *)
Record t (PC : Type) := mk {
  targetCache : list (list (IPredEntry PC));
  threadInfo : list ThreadInfo;
  rands : nat
}.
Arguments mk {PC}.
Arguments targetCache {PC}.
Arguments threadInfo {PC}.
Arguments rands {PC}.

Section ops.
Context {PC : Type} (instAddr : PC -> Z) (rand : nat -> Z).

Definition new (cfg : config) (ghrNumBits : Z) (numThreads : nat) : res (t PC) :=
  if negb (isPowerOf2 32 (numSets cfg)) then Err Panicked else
  if 32 <? ghrNumBits then Err Fatal else
  Ok (mk (replicate (Z.to_nat (numSets cfg)) (replicate (Z.to_nat (numWays cfg)) (mkEntry 0 None)))
         (replicate numThreads (mkTI [] 0)) 0).

Context (cfg : config).

Definition reset (s : t PC) : t PC :=
  mk (map (map (fun e => mkEntry 0 (target e))) (targetCache s))
     (map (fun _ => mkTI [] 0) (threadInfo s)) (rands s).

Definition set_info (s : t PC) (tid : nat) (ti : ThreadInfo) : res (t PC) :=
  let! tis := upd_ (threadInfo s) tid ti in Ok (mk (targetCache s) tis (rands s)).

(** The members the constructor of [IndirectHistory] leaves unset are written
    before they are read. *)
Definition genIndirectInfo (tid : nat) (s : t PC) : res IndirectHistory :=
  let! ti := nth_ (threadInfo s) tid in
  Ok (mkIH MaxAddr 0 0 false (ghr ti) false).

Definition updateDirectionInfo (tid : nat) (taken : bool) (s : t PC) : res (t PC) :=
  let! ti := nth_ (threadInfo s) tid in
  set_info s tid (mkTI (pathHist ti) (Z.land (shift_in (ghr ti) taken) (ghrMask cfg))).

(** The youngest [p] entries of the path, the youngest first. *)
Fixpoint hash_path (hist : list HistoryEntry) (n : nat) (p hash_shift hash : Z) : Z :=
  match n, hist with
  | S n, e :: hist =>
      hash_path hist n (p + 1) hash_shift
        (Z.lxor hash (Z.shiftr (targetAddr e) (instShift cfg + p * hash_shift)))
  | _, _ => hash
  end.

(** A division by [pathLength = 0] is a fault. *)
Definition getSetIndex (br_addr : Z) (tid : nat) (s : t PC) : res Z :=
  let! ti := nth_ (threadInfo s) tid in
  let hash := Z.shiftr br_addr (instShift cfg) in
  let hash := if hashGHR cfg then Z.lxor hash (ghr ti) else hash in
  let! hash := (if hashTargets cfg then
      if pathLength cfg =? 0 then Err OutOfRange else
      Ok (hash_path (rev (pathHist ti)) (Z.to_nat (pathLength cfg)) 0
            (floorLog2 32 (numSets cfg) / pathLength cfg) hash)
    else Ok hash) in
  Ok (Z.land hash (numSets cfg -[32] 1)).

Definition getTag (br_addr : Z) : Z :=
  Z.land (Z.shiftr br_addr (instShift cfg)) (wrap 64 (swrap 32 (Z.shiftl 1 (tagBits cfg)) - 1)).

(** The first way with the tag and a target. *)
Fixpoint find_way (tg : Z) (iset : list (IPredEntry PC)) : option PC :=
  match iset with
  | [] => None
  | way :: iset =>
      match target way with
      | Some pc => if tag way =? tg then Some pc else find_way tg iset
      | None => find_way tg iset
      end
  end.

Definition lookup (tid : nat) (pc : PC) (i_history : option IndirectHistory) (s : t PC) :
    res (option PC * option IndirectHistory * t PC) :=
  check! (match i_history with None => true | Some _ => false end);
  let! history := genIndirectInfo tid s in
  let! si := getSetIndex (instAddr pc) tid s in
  let tg := getTag (instAddr pc) in
  check! si <? numSets cfg;
  let! iset := nth_ (targetCache s) (Z.to_nat si) in
  let o := find_way tg iset in
  Ok (o, Some (mkIH (instAddr pc) si tg (match o with Some _ => true | None => false end) (h_ghr history) true), s).

(** [while (pathHist.size() >= max) pathHist.pop_front()]; a bound of 0 would pop
    an empty deque. *)
Definition trim (hist : list HistoryEntry) : res (list HistoryEntry) :=
  let max := Z.to_nat (pathLength cfg +[32] speculativePathLength cfg) in
  if (max =? 0)%nat then Err OutOfRange else Ok (drop (length hist - (max - 1)) hist).

Definition commit (tid : nat) (i_history : option IndirectHistory) (s : t PC) :
    res (option IndirectHistory * t PC) :=
  match i_history with
  | None => Ok (None, s)
  | Some _ =>
      let! ti := nth_ (threadInfo s) tid in
      let! ph := trim (pathHist ti) in
      let! s := set_info s tid (mkTI ph (ghr ti)) in
      Ok (None, s)
  end.

Fixpoint find_tag (tg : Z) (iset : list (IPredEntry PC)) (i : nat) : option nat :=
  match iset with
  | [] => None
  | way :: iset => if tag way =? tg then Some i else find_tag tg iset (S i)
  end.

Definition recordTarget (tid : nat) (tgt : PC) (history : IndirectHistory) (s : t PC) : res (t PC) :=
  let! ti := nth_ (threadInfo s) tid in
  check! negb (bool_decide (length (pathHist ti) = 0%nat));
  check! was_indirect history;
  check! set_index history <? numSets cfg;
  let! iset := nth_ (targetCache s) (Z.to_nat (set_index history)) in
  match find_tag (h_tag history) iset 0 with
  | Some i =>
      let! iset := upd_ iset i (mkEntry (h_tag history) (Some tgt)) in
      let! tc := upd_ (targetCache s) (Z.to_nat (set_index history)) iset in
      Ok (mk tc (threadInfo s) (rands s))
  | None =>
      if numWays cfg =? 0 then Err OutOfRange else
      let! iset := upd_ iset (Z.to_nat (rand (rands s) mod numWays cfg)) (mkEntry (h_tag history) (Some tgt)) in
      let! tc := upd_ (targetCache s) (Z.to_nat (set_index history)) iset in
      Ok (mk tc (threadInfo s) (S (rands s)))
  end.

Definition isIndirectNoReturn (type : BranchType) : bool :=
  match type with CallIndirect | IndirectUncond | IndirectCond => true | _ => false end.

(** [if (!pathHist.empty()) pathHist.pop_back()]. *)
Definition pop_back (l : list HistoryEntry) : list HistoryEntry := take (length l - 1) l.

(** The part of [update] that undoes the branch's own update on a squash. *)
Definition restore_history (tid : nat) (history : IndirectHistory) (s : t PC) : res (IndirectHistory * t PC) :=
  let! ti := nth_ (threadInfo s) tid in
  if was_indirect history then
    let! s := set_info s tid (mkTI (pop_back (pathHist ti)) (h_ghr history)) in
    let! si := getSetIndex (h_pcAddr history) tid s in
    Ok (mkIH (h_pcAddr history) si (getTag (h_pcAddr history)) (hit history) (h_ghr history) true, s)
  else
    let! s := set_info s tid (mkTI (pathHist ti) (h_ghr history)) in Ok (history, s).

Definition update (tid : nat) (sn pc : Z) (squash taken : bool) (tgt : PC) (br_type : BranchType)
    (i_history : option IndirectHistory) (s : t PC) : res (option IndirectHistory * t PC) :=
  let! history := (match i_history with None => genIndirectInfo tid s | Some h => Ok h end) in
  let history := mkIH (h_pcAddr history) (set_index history) (h_tag history) (hit history) (h_ghr history)
                   (isIndirectNoReturn br_type) in
  let! (history, s) := (if squash then restore_history tid history s else Ok (history, s)) in
  let! s := (if was_indirect history then
      let! ti := nth_ (threadInfo s) tid in
      set_info s tid (mkTI (pathHist ti ++ [mkHE (h_pcAddr history) (instAddr tgt) sn]) (ghr ti))
    else Ok s) in
  let! s := updateDirectionInfo tid taken s in
  let! s := (if squash && was_indirect history && taken then recordTarget tid tgt history s else Ok s) in
  Ok (Some history, s).

Definition squash (tid : nat) (i_history : option IndirectHistory) (s : t PC) :
    res (option IndirectHistory * t PC) :=
  match i_history with
  | None => Ok (None, s)
  | Some history =>
      let! ti := nth_ (threadInfo s) tid in
      let! s := set_info s tid
        (mkTI (if was_indirect history then pop_back (pathHist ti) else pathHist ti) (h_ghr history)) in
      Ok (None, s)
  end.

#[export] Instance predictor : IndirectPredictor (t PC) IndirectHistory PC := {
  ip_lookup tid _ := lookup tid;
  ip_update := update;
  ip_squash tid _ := squash tid;
  ip_commit tid _ := commit tid
}.

(** ** Its contract *)

Record cfg_ok : Prop := {
  ok_sets : exists k, 0 <= k < 32 /\ numSets cfg = 2 ^ k;
  ok_ways : 0 < numWays cfg;
  ok_path : 0 < pathLength cfg;
  ok_length : 0 < pathLength cfg +[32] speculativePathLength cfg
}.

Context (Hcfg : cfg_ok) (n : nat).

Record wf (s : t PC) : Prop := {
  wf_info : length (threadInfo s) = n;
  wf_cache : Z.of_nat (length (targetCache s)) = numSets cfg;
  wf_ways : Forall (fun iset => Z.of_nat (length iset) = numWays cfg) (targetCache s)
}.

Definition spec (s : t PC) : list Z := map ghr (threadInfo s).
Definition next (tid : nat) (taken : bool) (a : list Z) : list Z :=
  adjust (fun g => Z.land (shift_in g taken) (ghrMask cfg)) tid a.
Definition rec (tid : nat) (h : option IndirectHistory) (a : list Z) : Prop :=
  exists h', h = Some h' /\ a !! tid = Some (h_ghr h').

Lemma info_ok s tid : wf s -> (tid < n)%nat ->
  exists ti, nth_ (threadInfo s) tid = Ok ti /\ threadInfo s !! tid = Some ti /\ spec s !! tid = Some (ghr ti).
Proof.
  intros [Hi _ _] Htid. destruct (nth_Ok (threadInfo s) tid) as (ti & E & Hti); [lia|].
  exists ti. split_and!; [done..|]. unfold spec. by rewrite list_lookup_fmap, Hti.
Qed.

Lemma set_info_ok s tid ti : wf s -> (tid < n)%nat ->
  exists s', set_info s tid ti = Ok s' /\ wf s' /\ spec s' = <[tid := ghr ti]> (spec s) /\
    threadInfo s' !! tid = Some ti.
Proof.
  intros [Hi Hc Hw] Htid. unfold set_info. rewrite upd_Ok by lia. cbn [rbind]. eexists. split; [done|]. split_and!.
  - constructor; cbn; [by rewrite length_insert|done..].
  - unfold spec. cbn. apply (list_fmap_insert ghr).
  - cbn. apply list_lookup_insert_eq. lia.
Qed.

Lemma getSetIndex_ok s br tid : wf s -> (tid < n)%nat ->
  exists si, getSetIndex br tid s = Ok si /\ 0 <= si < numSets cfg.
Proof.
  intros Hwf Htid. destruct (info_ok s tid Hwf Htid) as (ti & E & _). unfold getSetIndex. rewrite E. cbn [rbind].
  destruct (ok_sets Hcfg) as (k & Hk & Es). pose proof (ok_path Hcfg) as Hp.
  assert (Hm : numSets cfg -[32] 1 = Z.ones k).
  { rewrite Es, Z.ones_equiv. assert (1 <= 2 ^ k < 2 ^ 32).
    { split; [pose proof (Z.pow_pos_nonneg 2 k); lia|apply Z.pow_lt_mono_r; lia]. }
    rewrite wrap_small by (unfold in_u; lia). lia. }
  destruct (Z.eqb_spec (pathLength cfg) 0); [lia|].
  destruct (hashTargets cfg); cbn [rbind]; (eexists; split; [done|]; rewrite Hm, Es; apply land_ones_bound; lia).
Qed.

Lemma direction_ok s tid taken ti : wf s -> (tid < n)%nat -> threadInfo s !! tid = Some ti ->
  exists s', updateDirectionInfo tid taken s = Ok s' /\ wf s' /\
    spec s' = <[tid := Z.land (shift_in (ghr ti) taken) (ghrMask cfg)]> (spec s) /\
    threadInfo s' !! tid = Some (mkTI (pathHist ti) (Z.land (shift_in (ghr ti) taken) (ghrMask cfg))).
Proof.
  intros Hwf Htid Hti. unfold updateDirectionInfo. rewrite (nth_lookup _ _ _ Hti). cbn [rbind]. by apply set_info_ok.
Qed.

Lemma find_tag_lt tg iset : forall i j, find_tag tg iset i = Some j -> (i <= j < i + length iset)%nat.
Proof.
  induction iset as [|w iset IH]; intros i j; cbn [find_tag length]; [done|].
  destruct (tag w =? tg); [intros [= <-]; lia|]. intros Hj%IH. lia.
Qed.

Lemma recordTarget_ok s tid tgt h ti : wf s -> (forall i, 0 <= rand i) -> threadInfo s !! tid = Some ti ->
  pathHist ti <> [] -> was_indirect h = true -> 0 <= set_index h < numSets cfg ->
  exists s', recordTarget tid tgt h s = Ok s' /\ wf s' /\ spec s' = spec s.
Proof.
  intros [Hi Hc Hw] Hrand Hti Hne Hwas Hsi. pose proof (ok_ways Hcfg) as Hways.
  unfold recordTarget. rewrite (nth_lookup _ _ _ Hti). cbn [rbind].
  rewrite bool_decide_eq_false_2 by (destruct (pathHist ti); done). rewrite Hwas. cbn [negb assert_ rbind].
  destruct (Z.ltb_spec (set_index h) (numSets cfg)); [|lia]. cbn [assert_ rbind].
  destruct (nth_Ok (targetCache s) (Z.to_nat (set_index h))) as (iset & -> & His); [lia|]. cbn [rbind].
  pose proof (proj1 (Forall_lookup _ _) Hw _ _ His) as Hlen. cbn in Hlen.
  assert (Hput : forall i e k, (i < length iset)%nat -> exists s',
    (let! iset := upd_ iset i e in let! tc := upd_ (targetCache s) (Z.to_nat (set_index h)) iset in
     Ok (mk tc (threadInfo s) k)) = Ok s' /\ wf s' /\ spec s' = spec s).
  { intros i e k Hlt. rewrite upd_Ok by done. cbn [rbind]. rewrite upd_Ok by lia. cbn [rbind]. eexists.
    split; [done|]. split; [|done]. constructor; cbn; rewrite ?length_insert; try done.
    apply Forall_insert; [done|]. by rewrite length_insert. }
  destruct (find_tag (h_tag h) iset 0) as [i|] eqn:Ef.
  - apply Hput. apply find_tag_lt in Ef. lia.
  - destruct (Z.eqb_spec (numWays cfg) 0); [lia|]. apply Hput.
    pose proof (Z.mod_pos_bound (rand (rands s)) (numWays cfg) Hways). lia.
Qed.

(** The two history updates every branch makes. *)
Definition record_branch (tid : nat) (sn : Z) (taken : bool) (tgt : PC) (h : IndirectHistory) (s : t PC) : res (t PC) :=
  let! s := (if was_indirect h then
      let! ti := nth_ (threadInfo s) tid in
      set_info s tid (mkTI (pathHist ti ++ [mkHE (h_pcAddr h) (instAddr tgt) sn]) (ghr ti))
    else Ok s) in
  updateDirectionInfo tid taken s.

Lemma record_branch_ok s tid sn taken tgt h g : wf s -> (tid < n)%nat -> spec s !! tid = Some g ->
  exists s' ti, record_branch tid sn taken tgt h s = Ok s' /\ wf s' /\
    spec s' = <[tid := Z.land (shift_in g taken) (ghrMask cfg)]> (spec s) /\
    threadInfo s' !! tid = Some ti /\ (was_indirect h = true -> pathHist ti <> []).
Proof.
  intros Hwf Htid Hg. destruct (info_ok s tid Hwf Htid) as (ti & E & Hti & Hsp).
  assert (g = ghr ti) as -> by congruence. unfold record_branch. destruct (was_indirect h) eqn:Ew.
  - rewrite E. cbn [rbind].
    destruct (set_info_ok s tid (mkTI (pathHist ti ++ [mkHE (h_pcAddr h) (instAddr tgt) sn]) (ghr ti)) Hwf Htid)
      as (s1 & -> & Hwf1 & Hsp1 & Hti1). cbn [rbind ghr] in *. rewrite list_insert_id in Hsp1 by done.
    destruct (direction_ok s1 tid taken _ Hwf1 Htid Hti1) as (s2 & -> & Hwf2 & Hsp2 & Hti2).
    eexists s2, _. split_and!; [done..|by rewrite Hsp2, Hsp1|done|]. intros _. cbn. by destruct (pathHist ti).
  - cbn [rbind]. destruct (direction_ok s tid taken ti Hwf Htid Hti) as (s2 & -> & Hwf2 & Hsp2 & Hti2).
    eexists s2, _. by split_and!.
Qed.

Lemma update_unfold tid sn pc sq taken tgt type h s :
  update tid sn pc sq taken tgt type h s
  = (let! history := (match h with None => genIndirectInfo tid s | Some h => Ok h end) in
     let history := mkIH (h_pcAddr history) (set_index history) (h_tag history) (hit history) (h_ghr history)
                      (isIndirectNoReturn type) in
     let! (history, s) := (if sq then restore_history tid history s else Ok (history, s)) in
     let! s := record_branch tid sn taken tgt history s in
     let! s := (if sq && was_indirect history && taken then recordTarget tid tgt history s else Ok s) in
     Ok (Some history, s)).
Proof.
  unfold update, record_branch. destruct (match h with None => _ | Some h => _ end) as [h0|]; [|done]. cbn [rbind].
  destruct (if sq then _ else _) as [[h1 s1]|]; [|done]. cbn [rbind].
  by destruct (if was_indirect h1 then _ else _).
Qed.

Lemma restore_history_ok s tid h a : wf s -> (tid < n)%nat -> a !! tid = Some (h_ghr h) ->
  exists h' s', restore_history tid h s = Ok (h', s') /\ wf s' /\ spec s' !! tid = Some (h_ghr h) /\ h_ghr h' = h_ghr h /\
    was_indirect h' = was_indirect h /\ (was_indirect h = true -> 0 <= set_index h' < numSets cfg) /\
    (forall taken, spec s = next tid taken a -> spec s' = a).
Proof.
  intros Hwf Htid Ha. destruct (info_ok s tid Hwf Htid) as (ti & E & Hti & _). unfold restore_history. rewrite E.
  cbn [rbind].
  assert (Hset : forall ph, exists s1, set_info s tid (mkTI ph (h_ghr h)) = Ok s1 /\ wf s1 /\ spec s1 !! tid = Some (h_ghr h) /\
    (forall taken, spec s = next tid taken a -> spec s1 = a)).
  { intros ph. destruct (set_info_ok s tid (mkTI ph (h_ghr h)) Hwf Htid) as (s1 & E1 & Hwf1 & Hsp1 & Hti1).
    exists s1. split_and!; [done..|unfold spec; by rewrite list_lookup_fmap, Hti1|]. intros taken Hs. rewrite Hsp1, Hs. unfold next. cbn [ghr].
    by rewrite (insert_adjust _ _ _ _ _ Ha), list_insert_id. }
  destruct (was_indirect h) eqn:Ew.
  - destruct (Hset (pop_back (pathHist ti))) as (s1 & -> & Hwf1 & Hsp1 & Hn). cbn [rbind].
    destruct (getSetIndex_ok s1 (h_pcAddr h) tid Hwf1 Htid) as (si & -> & Hsi). cbn [rbind].
    eexists _, s1. by split_and!.
  - destruct (Hset (pathHist ti)) as (s1 & -> & Hwf1 & Hsp1 & Hn). cbn [rbind]. exists h, s1. by split_and!.
Qed.

Context (Hrand : forall i, 0 <= rand i).

#[export] Program Instance laws : IndirectLaws predictor n := {|
  ip_inv := wf;
  ip_hist := list Z;
  ip_spec := spec;
  ip_next := next;
  ip_rec := rec
|}.
Next Obligation.
  intros s tid sn pc Hwf Htid. destruct (info_ok s tid Hwf Htid) as (ti & E & _ & Hsp).
  cbn. unfold lookup, genIndirectInfo. cbn [assert_ rbind]. rewrite E. cbn [rbind].
  destruct (getSetIndex_ok s (instAddr pc) tid Hwf Htid) as (si & -> & Hsi). cbn [rbind].
  destruct (Z.ltb_spec si (numSets cfg)); [|lia]. cbn [assert_ rbind].
  destruct (nth_Ok (targetCache s) (Z.to_nat si)) as (iset & -> & _); [pose proof (wf_cache s Hwf); lia|].
  cbn [rbind]. eexists _, _, s. split_and!; [done..|]. eexists. by split.
Qed.
Next Obligation.
  intros s tid sn pc taken tgt type h Hwf Htid Hh. destruct (info_ok s tid Hwf Htid) as (ti & E & _ & Hsp).
  cbn [ip_update predictor]. rewrite update_unfold.
  assert (exists h0, (match h with None => genIndirectInfo tid s | Some h => Ok h end) = Ok h0 /\ h_ghr h0 = ghr ti)
    as (h0 & -> & Hg).
  { destruct Hh as [->|(h' & -> & Hl)]; [|exists h'; split; [done|congruence]].
    unfold genIndirectInfo. rewrite E. by eexists. }
  cbn [rbind andb]. rewrite Hg. set (h1 := mkIH _ _ _ _ _ _).
  destruct (record_branch_ok s tid sn taken tgt h1 (ghr ti) Hwf Htid Hsp) as (s' & ti' & -> & Hwf' & Hsp' & _).
  cbn [rbind]. eexists _, s'. split_and!; [done..| |eexists; by split].
  rewrite Hsp'. unfold next. by rewrite (adjust_insert _ _ _ _ Hsp).
Qed.
Next Obligation.
  intros s tid sn h a Hwf Htid (h' & -> & Ha). destruct (info_ok s tid Hwf Htid) as (ti & E & _ & _).
  cbn. rewrite E. cbn [rbind]. set (ti' := mkTI _ _).
  destruct (set_info_ok s tid ti' Hwf Htid) as (s1 & -> & Hwf1 & Hsp1 & _). cbn [rbind].
  exists s1. split_and!; [done..|]. intros taken Hs. rewrite Hsp1, Hs. unfold next. cbn [ghr ti'].
  by rewrite (insert_adjust _ _ _ _ _ Ha), list_insert_id.
Qed.
Next Obligation.
  intros s tid sn pc taken' tgt type h a Hwf Htid (h' & -> & Ha). cbn [ip_update predictor]. rewrite update_unfold. cbn [rbind].
  set (h0 := mkIH _ _ _ _ _ _).
  destruct (restore_history_ok s tid h0 a Hwf Htid) as (h1 & s1 & -> & Hwf1 & Hg0 & Hg1 & Hw1 & Hsi & Hsp1); [done..|].
  cbn [rbind andb].
  destruct (record_branch_ok s1 tid sn taken' tgt h1 (h_ghr h') Hwf1 Htid Hg0) as (s2 & ti & -> & Hwf2 & Hsp2 & Hti & Hne).
  cbn [rbind].
  assert (Hnext : forall taken, spec s = next tid taken a -> spec s2 = next tid taken' a).
  { intros taken Hs. rewrite Hsp2, (Hsp1 taken Hs). unfold next. by rewrite (adjust_insert _ _ _ _ Ha). }
  destruct (was_indirect h1 && taken') eqn:Ew; cbn [rbind].
  - apply andb_prop in Ew as [Ew _].
    destruct (recordTarget_ok s2 tid tgt h1 ti Hwf2 Hrand Hti) as (s3 & -> & Hwf3 & Hsp3); [by apply Hne|done| |].
    { apply Hsi. congruence. }
    cbn [rbind]. eexists _, s3. split_and!; [done..| |by intros; rewrite Hsp3; eauto]. eexists. split; [done|]. by rewrite Hg1.
  - eexists _, s2. split_and!; [done..| |done]. eexists. split; [done|]. by rewrite Hg1.
Qed.
Next Obligation.
  intros s tid sn h a Hwf Htid (h' & -> & Ha). destruct (info_ok s tid Hwf Htid) as (ti & E & _ & Hsp).
  cbn. rewrite E. cbn [rbind]. unfold trim. pose proof (ok_length Hcfg).
  destruct (Nat.eqb_spec (Z.to_nat (pathLength cfg +[32] speculativePathLength cfg)) 0); [lia|]. cbn [rbind].
  set (ti' := mkTI _ _).
  destruct (set_info_ok s tid ti' Hwf Htid) as (s1 & -> & Hwf1 & Hsp1 & _). cbn [rbind].
  exists s1. split_and!; [done..|]. rewrite Hsp1. by apply list_insert_id.
Qed.
(** ** Where a target is filed *)

Lemma find_way_hit tg tgt iset : forall k i, find_tag tg iset k = Some (k + i)%nat ->
  find_way tg (<[i := mkEntry tg (Some tgt)]> iset) = Some tgt.
Proof.
  induction iset as [|w iset IH]; intros k i; cbn [find_tag]; [done|]. destruct (Z.eqb_spec (tag w) tg) as [E|E].
  - intros [= Hi]. replace i with 0%nat by lia. cbn. by rewrite Z.eqb_refl.
  - intros Hf. pose proof (find_tag_lt _ _ _ _ Hf). destruct i as [|i]; [lia|].
    change (find_way tg (w :: <[i := mkEntry tg (Some tgt)]> iset) = Some tgt). cbn [find_way].
    replace (k + S i)%nat with (S k + i)%nat in Hf by lia. rewrite (IH (S k) i Hf).
    destruct (target w); [|done]. by destruct (Z.eqb_spec (tag w) tg).
Qed.

Lemma find_way_new tg tgt iset : forall k i, find_tag tg iset k = None -> (i < length iset)%nat ->
  find_way tg (<[i := mkEntry tg (Some tgt)]> iset) = Some tgt.
Proof.
  induction iset as [|w iset IH]; intros k i; cbn [find_tag length]; [lia|]. destruct (Z.eqb_spec (tag w) tg) as [E|E]; [done|].
  intros Hf Hi. destruct i as [|i]; [cbn; by rewrite Z.eqb_refl|].
  change (find_way tg (w :: <[i := mkEntry tg (Some tgt)]> iset) = Some tgt). cbn [find_way]. rewrite (IH (S k) i Hf ltac:(lia)).
  destruct (target w); [|done]. by destruct (Z.eqb_spec (tag w) tg).
Qed.

Lemma find_way_other tg tg' tgt iset : forall i, tg' <> tg -> find_way tg' iset = None ->
  find_way tg' (<[i := mkEntry tg (Some tgt)]> iset) = None.
Proof.
  induction iset as [|w iset IH]; intros i Hne; [done|]. cbn [find_way]. intros Hf. destruct i as [|i].
  - cbn. destruct (Z.eqb_spec tg tg'); [congruence|]. destruct (target w); [destruct (tag w =? tg'); [done|]|]; done.
  - change (find_way tg' (w :: <[i := mkEntry tg (Some tgt)]> iset) = None). cbn [find_way].
    destruct (target w); [destruct (tag w =? tg'); [done|]|]; by apply IH.
Qed.

(** [recordTarget] files the target under the tag of the record, and no target under
    another tag. *)
Lemma recordTarget_files s tid tgt h s' : wf s -> recordTarget tid tgt h s = Ok s' ->
  (exists k iset, targetCache s' !! k = Some iset /\ find_way (h_tag h) iset = Some tgt) /\
  forall tg, tg <> h_tag h -> (forall iset, iset ∈ targetCache s -> find_way tg iset = None) ->
    forall iset, iset ∈ targetCache s' -> find_way tg iset = None.
Proof.
  intros [_ _ Hw]. unfold recordTarget. intros (ti & _ & H)%rbind_Ok. do 3 apply rbind_Ok in H as (? & _ & H).
  apply rbind_Ok in H as (iset & E & H). unfold nth_ in E. destruct (targetCache s !! _) as [iset0|] eqn:His; [|done]. injection E as ->.
  pose proof (proj1 (Forall_lookup _ _) Hw _ _ His) as Hlen. cbn in Hlen. pose proof (lookup_lt_Some _ _ _ His) as Hlt.
  assert (Hput : forall i k, (i < length iset)%nat -> find_way (h_tag h) (<[i := mkEntry (h_tag h) (Some tgt)]> iset) = Some tgt ->
    (let! iset := upd_ iset i (mkEntry (h_tag h) (Some tgt)) in
     let! tc := upd_ (targetCache s) (Z.to_nat (set_index h)) iset in Ok (mk tc (threadInfo s) k)) = Ok s' ->
    (exists k iset, targetCache s' !! k = Some iset /\ find_way (h_tag h) iset = Some tgt) /\
    forall tg, tg <> h_tag h -> (forall iset, iset ∈ targetCache s -> find_way tg iset = None) ->
      forall iset, iset ∈ targetCache s' -> find_way tg iset = None).
  { intros i k Hi Hf. rewrite upd_Ok by done. cbn [rbind]. rewrite upd_Ok by done. cbn [rbind]. intros [= <-]. cbn [targetCache].
    split; [eexists _, _; split; [by apply list_lookup_insert_eq|done]|]. intros tg Hne Hnone is0 Hin.
    apply list_elem_of_lookup in Hin as [j Hj]. apply list_lookup_insert_Some in Hj as [(_ & <- & _)|(_ & Hj)].
    - apply find_way_other; [done|]. apply Hnone. by eapply list_elem_of_lookup_2.
    - apply Hnone. by eapply list_elem_of_lookup_2. }
  destruct (find_tag (h_tag h) iset 0) as [i|] eqn:Ef.
  - revert H. apply Hput; [apply find_tag_lt in Ef; lia|]. by apply (find_way_hit _ _ _ 0).
  - destruct (Z.eqb_spec (numWays cfg) 0); [done|]. pose proof (ok_ways Hcfg).
    assert (Hr : (Z.to_nat (rand (rands s) mod numWays cfg) < length iset)%nat)
      by (pose proof (Z.mod_pos_bound (rand (rands s)) (numWays cfg)); lia).
    revert H. apply Hput; [done|]. by apply (find_way_new _ _ _ 0).
Qed.

Lemma set_info_cache s tid ti s' : set_info s tid ti = Ok s' -> targetCache s' = targetCache s.
Proof. unfold set_info. intros (tis & _ & H)%rbind_Ok. by injection H as <-. Qed.

Lemma record_branch_cache tid sn taken tgt h s s' : record_branch tid sn taken tgt h s = Ok s' -> targetCache s' = targetCache s.
Proof.
  unfold record_branch, updateDirectionInfo. intros (s1 & E & H)%rbind_Ok. apply rbind_Ok in H as (ti & _ & H).
  rewrite (set_info_cache _ _ _ _ H). destruct (was_indirect h); [|by injection E as <-].
  apply rbind_Ok in E as (ti1 & _ & E). by apply set_info_cache in E.
Qed.

(** Correcting an indirect branch files its target under the address in its record. *)
Lemma correction_files s tid sn pc tgt type h : wf s -> (tid < n)%nat -> isIndirectNoReturn type = true ->
  exists h' s', update tid sn pc true true tgt type (Some h) s = Ok (h', s') /\ wf s' /\
    (exists k iset, targetCache s' !! k = Some iset /\ find_way (getTag (h_pcAddr h)) iset = Some tgt) /\
    forall tg, tg <> getTag (h_pcAddr h) -> (forall iset, iset ∈ targetCache s -> find_way tg iset = None) ->
      forall iset, iset ∈ targetCache s' -> find_way tg iset = None.
Proof.
  intros Hwf Htid Hty. rewrite update_unfold. cbn [rbind]. rewrite Hty. set (h0 := mkIH _ _ _ _ _ _).
  destruct (info_ok s tid Hwf Htid) as (ti0 & E0 & Hti0 & _).
  destruct (restore_history_ok s tid h0 (<[tid := h_ghr h]> (spec s)) Hwf Htid) as (h1 & s1 & E1 & Hwf1 & Hg0 & _ & Hw1 & Hsi & _).
  { apply list_lookup_insert_eq. unfold spec. rewrite length_map. by eapply lookup_lt_Some. }
  assert (Hc1 : targetCache s1 = targetCache s /\ h_tag h1 = getTag (h_pcAddr h)).
  { unfold restore_history in E1. rewrite E0 in E1. cbn [rbind was_indirect h0] in E1. apply rbind_Ok in E1 as (s2 & E2 & E1).
    apply rbind_Ok in E1 as (si & _ & E1). injection E1 as <- <-. split; [by apply set_info_cache in E2|done]. }
  destruct Hc1 as [Hc1 Ht1]. rewrite E1. cbn [rbind].
  destruct (record_branch_ok s1 tid sn true tgt h1 (h_ghr h) Hwf1 Htid Hg0) as (s2 & ti & E2 & Hwf2 & _ & Hti & Hne).
  rewrite E2. cbn [rbind]. rewrite Hw1. cbn [was_indirect h0 andb].
  destruct (recordTarget_ok s2 tid tgt h1 ti Hwf2 Hrand Hti) as (s3 & E3 & Hwf3 & _); [by apply Hne|done|by apply Hsi|].
  rewrite E3. cbn [rbind]. eexists _, s3. split; [done|]. split; [done|].
  rewrite <- Ht1, <- Hc1, <- (record_branch_cache _ _ _ _ _ _ _ E2). by apply (recordTarget_files s2 tid tgt h1).
Qed.

(** A target is filed under the wrong address.  [update] creates a record for a
    branch that was not looked up (a BTB miss), but does not store the branch's address
    in it.  When such a branch turns out to be a taken indirect one, its target is
    filed under the tag of the address [MaxAddr]; if no target was known under the
    branch's own tag, and that differs from the tag of [MaxAddr], a lookup of the
    branch finds nothing. *)
Theorem indirect_target_misfiled s tid sn pc taken0 tgt0 type0 h s1 s2 sn2 tgt type : wf s -> (tid < n)%nat ->
  update tid sn pc false taken0 tgt0 type0 None s = Ok (h, s1) ->
  wf s2 -> isIndirectNoReturn type = true ->
  exists h' s3, update tid sn2 pc true true tgt type h s2 = Ok (h', s3) /\
    (exists k iset, targetCache s3 !! k = Some iset /\ find_way (getTag MaxAddr) iset = Some tgt) /\
    forall p, instAddr p = pc -> getTag pc <> getTag MaxAddr ->
      (forall iset, iset ∈ targetCache s2 -> find_way (getTag pc) iset = None) ->
      exists h3, lookup tid p None s3 = Ok (None, h3, s3).
Proof.
  intros Hwf Htid Hup Hwf2 Hty.
  assert (Hh : exists h0, h = Some h0 /\ h_pcAddr h0 = MaxAddr).
  { rewrite update_unfold in Hup. unfold genIndirectInfo in Hup. destruct (info_ok s tid Hwf Htid) as (ti & E & _). rewrite E in Hup.
    cbn [rbind andb] in Hup. apply rbind_Ok in Hup as (s' & _ & Hup). injection Hup as <- _. by eexists. }
  destruct Hh as (h0 & -> & Hp).
  destruct (correction_files s2 tid sn2 pc tgt type h0 Hwf2 Htid Hty) as (h' & s3 & E & Hwf3 & Hfile & Hother). rewrite Hp in *.
  exists h', s3. split; [done|]. split; [done|]. intros p Hpc Hne Hnone.
  destruct (info_ok s3 tid Hwf3 Htid) as (ti & Eti & _). unfold lookup, genIndirectInfo. cbn [assert_ rbind]. rewrite Eti, Hpc. cbn [rbind].
  destruct (getSetIndex_ok s3 pc tid Hwf3 Htid) as (si & -> & Hsi). cbn [rbind].
  destruct (Z.ltb_spec si (numSets cfg)); [|lia]. cbn [assert_ rbind].
  destruct (nth_Ok (targetCache s3) (Z.to_nat si)) as (iset & -> & His); [pose proof (wf_cache s3 Hwf3); lia|]. cbn [rbind].
  rewrite (Hother _ Hne Hnone) by (by eapply list_elem_of_lookup_2). by eexists.
Qed.

End ops.
End SimpleIndirect.

(** A predictor with four sets of two ways, and a branch it has not looked up. *)
Lemma indirect_target_misfiled_witness :
  let cfg := SimpleIndirect.mkConfig false false 4 2 16 3 256 0 0xFFFF in
  let s := SimpleIndirect.mk (replicate 4 (replicate 2 (SimpleIndirect.mkEntry (PC := Z) 0 None))) [SimpleIndirect.mkTI [] 0] 0 in
  exists h s1 h' s3 h3, SimpleIndirect.update (fun pc => pc) (fun _ => 0) cfg 0 1 0x14 false false 0x18 IndirectUncond None s = Ok (h, s1) /\
    SimpleIndirect.update (fun pc => pc) (fun _ => 0) cfg 0 1 0x14 true true 0x900 IndirectUncond h s1 = Ok (h', s3) /\
    SimpleIndirect.lookup (fun pc => pc) cfg 0 0x14 None s3 = Ok (None, h3, s3).
Proof.
  intros cfg s.
  assert (Hcfg : SimpleIndirect.cfg_ok cfg) by (split; [exists 2; split; [lia|reflexivity]|reflexivity|reflexivity|vm_compute; reflexivity]).
  assert (Hwf : SimpleIndirect.wf cfg 1 s) by (split; [reflexivity|reflexivity|repeat constructor]).
  destruct (SimpleIndirect.update (fun pc => pc) (fun _ => 0) cfg 0 1 0x14 false false 0x18 IndirectUncond None s) as [[h s1]|] eqn:E;
    [|vm_compute in E; discriminate E].
  assert (E' := E). vm_compute in E'. injection E' as _ Es.
  destruct (SimpleIndirect.indirect_target_misfiled (fun pc => pc) (fun _ => 0) cfg Hcfg 1 ltac:(intros; lia) s 0 1 0x14 false 0x18
    IndirectUncond h s1 s1 1 0x900 IndirectUncond) as (h' & s3 & H1 & _ & H2).
  - exact Hwf.
  - lia.
  - exact E.
  - rewrite <- Es. split; [reflexivity|reflexivity|repeat constructor].
  - reflexivity.
  - destruct (H2 0x14) as [h3 H3]; [reflexivity|vm_compute; discriminate| |].
    + intros iset Hin. rewrite <- Es in Hin. cbn in Hin. repeat (apply elem_of_cons in Hin as [->|Hin]; [reflexivity|]).
      apply not_elem_of_nil in Hin. destruct Hin.
    + exists h, s1, h', s3, h3. split; [reflexivity|]. split; [exact H1|exact H3].
Defined.
