(* ===== verification/TageHist.v ===== *)
(** * The branch histories of the TAGE predictor

    The history half of [TAGEBase] ([cpu/pred/tage_base.hh],
    [cpu/pred/tage_base.cc]): the long global history kept in a buffer that is
    written downwards and rolled over, the folded histories updated bit by bit,
    and what a branch saves so that a misprediction can undo the branches after
    it.  The abstract history is the list of all outcomes, the latest first; the
    folded registers are shown to be the fold of the latest outcomes of it. *)

From Stdlib Require Import ZArith Lia Bool.
From stdpp Require Import base tactics option list numbers sorting.
From S2P Require Import Prelude.
Open Scope Z_scope.

(** ** Definitions *)

(** The parameters.  [histLengths] is what [calculateParameters] computes, in
    floating point, from [minHist] and [maxHist]. *)
Record TageParams := mkTageParams {
  logRatioBiModalHystEntries : Z;
  nHistoryTables : nat;
  tagTableCounterBits : Z;
  tagTableUBits : Z;
  histBufferSize : Z;
  maxHist : Z;
  pathHistBits : Z;
  tagTableTagWidths : list Z;
  logTagTableSizes : list Z;
  histLengths : list Z;
  logUResetPeriod : Z;
  initialTCounterValue : Z;
  numUseAltOnNa : nat;
  useAltOnNaBits : Z;
  maxNumAlloc : Z;
  noSkip : list bool;
  speculativeHistUpdate : bool;
  instShiftAmt : Z
}.

Record FoldedHistory := mkFoldedHistory {
  comp : Z;
  compLength : Z;
  origLength : Z;
  outpoint : Z
}.

Definition fh_init (original_length compressed_length : Z) : res FoldedHistory :=
  if compressed_length =? 0 then Err Undefined
  else Ok (mkFoldedHistory 0 compressed_length original_length (Z.rem original_length compressed_length)).

(** [h] is the position in [tab] that the pointer [h] points to. *)
Definition fh_update (tab : list Z) (h : Z) (f : FoldedHistory) : res FoldedHistory :=
  let! h0 := get_ tab h in
  let comp := Z.lor (comp f <<[32] 1) h0 in
  let! hout := get_ tab (h + origLength f) in
  let! out := shl_ 32 hout (outpoint f) in
  let comp := Z.lxor comp out in
  let! top := shr_ 32 comp (compLength f) in
  let comp := Z.lxor comp top in
  let! m := mask_ (compLength f) in
  Ok (mkFoldedHistory (wrap 32 (Z.land comp m)) (compLength f) (origLength f) (outpoint f)).

(** [comp = v], [v] an [int]. *)
Definition set_comp (v : Z) (f : FoldedHistory) : FoldedHistory :=
  mkFoldedHistory (wrap 32 v) (compLength f) (origLength f) (outpoint f).

(** [gHist] is the position in [globalHistory] that the pointer points to. *)
Record ThreadHistory := mkThreadHistory {
  pathHist : Z;
  globalHistory : list Z;
  gHist : Z;
  ptGhist : Z;
  computeIndices : list FoldedHistory;
  computeTags0 : list FoldedHistory;
  computeTags1 : list FoldedHistory
}.

Inductive Provider := BIMODAL_ONLY | TAGE_LONGEST_MATCH | BIMODAL_ALT_MATCH | TAGE_ALT_MATCH | NO_PROVIDER.

(** The five arrays are allocated without a value. *)
Record BranchInfo := mkBranchInfo {
  bi_pathHist : Z;
  bi_ptGhist : Z;
  hitBank : Z;
  hitBankIndex : Z;
  altBank : Z;
  altBankIndex : Z;
  bimodalIndex : Z;
  tagePred : bool;
  altTaken : bool;
  condBranch : bool;
  longestMatchPred : bool;
  pseudoNewAlloc : bool;
  branchPC : Z;
  bi_tableIndices : list (option Z);
  bi_tableTags : list (option Z);
  ci : list (option Z);
  ct0 : list (option Z);
  ct1 : list (option Z);
  provider : Provider
}.

(** Read and write of such an array. *)
Definition read_ (l : list (option Z)) (i : nat) : res Z :=
  let! o := nth_ l i in match o with Some v => Ok v | None => Err Undefined end.

Section Operations.
Context (p : TageParams).

Definition makeBranchInfo : BranchInfo :=
  let storage := replicate (S (nHistoryTables p)) None in
  mkBranchInfo 0 0 0 0 0 0 0 false false false false false 0 storage storage storage storage storage NO_PROVIDER.

(** The bodies of [initFoldedHistories] and of the loop around it in [init]. *)
Definition initFoldedHistories (th : ThreadHistory) : res ThreadHistory :=
  for_ (nHistoryTables p) 1 (fun i th =>
    let! hl := nth_ (histLengths p) i in
    let! lg := nth_ (logTagTableSizes p) i in
    let! f := fh_init hl lg in
    let! cis := upd_ (computeIndices th) i f in
    let! w := nth_ (tagTableTagWidths p) i in
    let! f0 := fh_init (origLength f) w in
    let! c0s := upd_ (computeTags0 th) i f0 in
    let! f1 := fh_init (origLength f) (swrap 32 (w -[32] 1)) in
    let! c1s := upd_ (computeTags1 th) i f1 in
    Ok (mkThreadHistory (pathHist th) (globalHistory th) (gHist th) (ptGhist th) cis c0s c1s)) th.

(** The lengths of entry 0 are never given a value. *)
Definition new_folded : list FoldedHistory := replicate (S (nHistoryTables p)) (mkFoldedHistory 0 0 0 0).

Definition init_history : res ThreadHistory :=
  initFoldedHistories (mkThreadHistory 0 (replicate (Z.to_nat (histBufferSize p)) 0) 0 0 new_folded new_folded new_folded).

Definition updateGHist (h : Z) (dir : bool) (tab : list Z) (pt : Z) : res (Z * list Z * Z) :=
  let! (h, tab, pt) :=
    if pt =? 0 then
      let! tab := for_ (Z.to_nat (maxHist p)) 0 (fun i tab =>
        let! x := get_ tab (Z.of_nat i) in
        set_ tab (histBufferSize p - maxHist p + Z.of_nat i) x) tab in
      let pt := histBufferSize p - maxHist p in
      Ok (pt, tab, pt)
    else Ok (h, tab, pt) in
  let pt := pt - 1 in
  let h := h - 1 in
  let! tab := set_ tab h (if dir then 1 else 0) in
  Ok (h, tab, pt).

(** [computeIndices[i].update(gHist)] and the two updates after it. *)
Definition update_folded (i : nat) (th : ThreadHistory) : res ThreadHistory :=
  let! f := nth_ (computeIndices th) i in
  let! f := fh_update (globalHistory th) (gHist th) f in
  let! cis := upd_ (computeIndices th) i f in
  let! f0 := nth_ (computeTags0 th) i in
  let! f0 := fh_update (globalHistory th) (gHist th) f0 in
  let! c0s := upd_ (computeTags0 th) i f0 in
  let! f1 := nth_ (computeTags1 th) i in
  let! f1 := fh_update (globalHistory th) (gHist th) f1 in
  let! c1s := upd_ (computeTags1 th) i f1 in
  Ok (mkThreadHistory (pathHist th) (globalHistory th) (gHist th) (ptGhist th) cis c0s c1s).

(** [bi->ci[i] = computeIndices[i].comp] and the two saves after it. *)
Definition save_folded (i : nat) (th : ThreadHistory) (bi : BranchInfo) : res BranchInfo :=
  let! f := nth_ (computeIndices th) i in
  let! cis := upd_ (ci bi) i (Some (swrap 32 (comp f))) in
  let! f0 := nth_ (computeTags0 th) i in
  let! c0s := upd_ (ct0 bi) i (Some (swrap 32 (comp f0))) in
  let! f1 := nth_ (computeTags1 th) i in
  let! c1s := upd_ (ct1 bi) i (Some (swrap 32 (comp f1))) in
  Ok (mkBranchInfo (bi_pathHist bi) (bi_ptGhist bi) (hitBank bi) (hitBankIndex bi) (altBank bi) (altBankIndex bi)
        (bimodalIndex bi) (tagePred bi) (altTaken bi) (condBranch bi) (longestMatchPred bi) (pseudoNewAlloc bi)
        (branchPC bi) (bi_tableIndices bi) (bi_tableTags bi) cis c0s c1s (provider bi)).

(** [computeIndices[i].comp = bi->ci[i]] and the two assignments after it. *)
Definition load_folded (i : nat) (bi : BranchInfo) (th : ThreadHistory) : res ThreadHistory :=
  let! v := read_ (ci bi) i in
  let! f := nth_ (computeIndices th) i in
  let! cis := upd_ (computeIndices th) i (set_comp v f) in
  let! v0 := read_ (ct0 bi) i in
  let! f0 := nth_ (computeTags0 th) i in
  let! c0s := upd_ (computeTags0 th) i (set_comp v0 f0) in
  let! v1 := read_ (ct1 bi) i in
  let! f1 := nth_ (computeTags1 th) i in
  let! c1s := upd_ (computeTags1 th) i (set_comp v1 f1) in
  Ok (mkThreadHistory (pathHist th) (globalHistory th) (gHist th) (ptGhist th) cis c0s c1s).

(** The body of the loop of [updateHistories]. *)
Definition hist_body (speculative : bool) (i : nat) (s : BranchInfo * ThreadHistory) : res (BranchInfo * ThreadHistory) :=
  let '(bi, th) := s in
  let! bi := if speculative then save_folded i th bi else Ok bi in
  let! th := update_folded i th in
  Ok (bi, th).

(** [TAGEBase::updateHistories]. *)
Definition updateHistories (branch_pc : Z) (taken : bool) (bi : BranchInfo) (speculative : bool)
    (th : ThreadHistory) : res (BranchInfo * ThreadHistory) :=
  if negb (eqb speculative (speculativeHistUpdate p)) then Ok (bi, th) else
  let! pcs := shr_ 64 branch_pc (instShiftAmt p) in
  let pathbit := Z.land pcs 1 in
  let! (h, tab, pt) := updateGHist (gHist th) taken (globalHistory th) (ptGhist th) in
  let path := swrap 32 (swrap 32 (Z.shiftl (pathHist th) 1) + pathbit) in
  let! m := mask_ (pathHistBits p) in
  let path := swrap 32 (Z.land path m) in
  let th := mkThreadHistory path tab h pt (computeIndices th) (computeTags0 th) (computeTags1 th) in
  let bi := if speculative then
      mkBranchInfo path pt (hitBank bi) (hitBankIndex bi) (altBank bi) (altBankIndex bi)
        (bimodalIndex bi) (tagePred bi) (altTaken bi) (condBranch bi) (longestMatchPred bi) (pseudoNewAlloc bi)
        (branchPC bi) (bi_tableIndices bi) (bi_tableTags bi) (ci bi) (ct0 bi) (ct1 bi) (provider bi)
    else bi in
  let! (bi, th) := for_ (nHistoryTables p) 1 (hist_body speculative) (bi, th) in
  check! (gHist th =? ptGhist th);
  Ok (bi, th).

(** The loop that [squash] and [btbUpdate] share. *)
Definition refold_body (bi : BranchInfo) (i : nat) (th : ThreadHistory) : res ThreadHistory :=
  let! th := load_folded i bi th in update_folded i th.

Definition refold (bi : BranchInfo) (th : ThreadHistory) : res ThreadHistory :=
  for_ (nHistoryTables p) 1 (refold_body bi) th.

(** [TAGEBase::squash]. *)
Definition squash_history (taken : bool) (bi : BranchInfo) (th : ThreadHistory) : res ThreadHistory :=
  if negb (speculativeHistUpdate p) then Ok th else
  let pt := bi_ptGhist bi in
  let! tab := set_ (globalHistory th) pt (if taken then 1 else 0) in
  refold bi (mkThreadHistory (bi_pathHist bi) tab pt pt (computeIndices th) (computeTags0 th) (computeTags1 th)).

(** [TAGEBase::btbUpdate]. *)
Definition btbUpdate_history (bi : BranchInfo) (th : ThreadHistory) : res ThreadHistory :=
  if speculativeHistUpdate p then
    check! (gHist th =? ptGhist th);
    let! tab := set_ (globalHistory th) (gHist th) 0 in
    refold bi (mkThreadHistory (pathHist th) tab (gHist th) (ptGhist th) (computeIndices th) (computeTags0 th) (computeTags1 th))
  else Ok th.
End Operations.

(** ** The fold of a history

    [fold_upto c b n] is what a register of [c] bits holds of the [n] outcomes
    [b 0], [b 1], ... when the history is cut into pieces of [c] bits that are
    added without carry. *)

Fixpoint fold_upto (c : Z) (b : nat -> bool) (n : nat) : Z :=
  match n with
  | O => 0
  | S n => Z.lxor (fold_upto c b n) (Z.shiftl (Z.b2z (b n)) (Z.of_nat n mod c))
  end.

Definition outcome (outs : list bool) (k : nat) : bool := nth k outs false.

(** The register a table has when the outcomes were [outs]. *)
Definition folded (o c : Z) (outs : list bool) : FoldedHistory :=
  mkFoldedHistory (fold_upto c (outcome outs) (Z.to_nat o)) c o (Z.rem o c).

(** What [update] does after the shift. *)
Definition fold_top (c y : Z) : Z := Z.land (Z.lxor y (Z.shiftr y c)) (Z.ones c).

Lemma land_lxor_distr x y m : Z.land (Z.lxor x y) m = Z.lxor (Z.land x m) (Z.land y m).
Proof.
  apply Z.bits_inj'. intros i Hi. rewrite !Z.lxor_spec, !Z.land_spec, !Z.lxor_spec.
  by destruct (Z.testbit x i), (Z.testbit y i), (Z.testbit m i).
Qed.

Lemma fold_top_lxor c x y : fold_top c (Z.lxor x y) = Z.lxor (fold_top c x) (fold_top c y).
Proof.
  unfold fold_top. rewrite Z.shiftr_lxor, !land_lxor_distr, !Z.lxor_assoc. f_equal.
  rewrite <- !Z.lxor_assoc. f_equal. apply Z.lxor_comm.
Qed.

Lemma fold_top_small c y : 0 <= c -> in_u c y -> fold_top c y = y.
Proof.
  intros Hc Hy. unfold fold_top. rewrite (Z.shiftr_div_pow2 y c), Z.div_small, Z.lxor_0_r, Z.land_ones by (done || apply Hy).
  apply Z.mod_small. apply Hy.
Qed.

Lemma b2z_shift_range c b k : 0 <= k < c -> in_u c (Z.shiftl (Z.b2z b) k).
Proof.
  intros Hk. unfold in_u. rewrite Z.shiftl_mul_pow2 by lia.
  assert (2 ^ k < 2 ^ c) by (apply Z.pow_lt_mono_r; lia). assert (0 < 2 ^ k) by lia. destruct b; cbn [Z.b2z]; lia.
Qed.

Lemma fold_upto_range c b n : 0 < c -> in_u c (fold_upto c b n).
Proof.
  intros Hc. induction n as [|n IH]; cbn [fold_upto].
  - unfold in_u. split; [lia|]. apply Z.pow_pos_nonneg; lia.
  - apply lxor_range; [lia|done|]. apply b2z_shift_range. apply Z.mod_pos_bound. done.
Qed.

Lemma fold_top_carry c b k : 0 < c -> 0 <= k ->
  fold_top c (Z.shiftl (Z.shiftl (Z.b2z b) (k mod c)) 1) = Z.shiftl (Z.b2z b) ((k + 1) mod c).
Proof.
  intros Hc Hk. pose proof (Z.mod_pos_bound k c Hc) as Hm. rewrite Z.shiftl_shiftl by lia.
  destruct (decide (k mod c + 1 < c)) as [Hlt|Hge].
  - rewrite <- (Z.add_mod_idemp_l k 1 c), (Z.mod_small (k mod c + 1)) by lia. apply fold_top_small; [lia|].
    apply b2z_shift_range. lia.
  - assert (Heq : k mod c + 1 = c) by lia. rewrite <- (Z.add_mod_idemp_l k 1 c), Heq, Z.mod_same by lia.
    rewrite Z.shiftl_0_r. unfold fold_top. rewrite Z.shiftr_shiftl_l, Z.sub_diag, Z.shiftl_0_r by lia.
    rewrite land_lxor_distr.
    replace (Z.land (Z.shiftl (Z.b2z b) c) (Z.ones c)) with 0;
      [|rewrite Z.land_ones, Z.shiftl_mul_pow2, Z.mod_mul by lia; done].
    rewrite Z.lxor_0_l, Z.land_ones by lia. apply Z.mod_small. assert (2 ^ 1 <= 2 ^ c) by (apply Z.pow_le_mono_r; lia).
    destruct b; cbn [Z.b2z]; lia.
Qed.

(** Pushing an outcome rotates the fold. *)
Lemma fold_upto_push c b b' n : 0 < c -> (forall k, b' (S k) = b k) ->
  fold_upto c b' (S n) = Z.lxor (Z.b2z (b' 0%nat)) (fold_top c (Z.shiftl (fold_upto c b n) 1)).
Proof.
  intros Hc Hb. induction n as [|n IH].
  - cbn [fold_upto]. rewrite Z.lxor_0_l, Z.mod_0_l, Z.shiftl_0_r by lia. unfold fold_top.
    by rewrite Z.shiftl_0_l, Z.shiftr_0_l, Z.lxor_0_l, Z.land_0_l, Z.lxor_0_r.
  - cbn [fold_upto] in IH |- *. rewrite IH, Z.shiftl_lxor, fold_top_lxor, fold_top_carry, Z.lxor_assoc by lia.
    by rewrite Hb, Nat2Z.inj_succ, Z.add_1_r.
Qed.

Lemma lor_low_bit x b : Z.lor (Z.shiftl x 1) (Z.b2z b) = Z.lxor (Z.shiftl x 1) (Z.b2z b).
Proof.
  symmetry. apply Z.lxor_lor. apply Z.bits_inj'. intros i Hi. rewrite Z.land_spec, Z.bits_0.
  destruct (decide (i = 0)) as [->|Hne].
  - by rewrite Z.shiftl_spec_low by lia.
  - assert (Hb : Z.testbit (Z.b2z b) i = false) by (destruct b; [apply Z.bits_above_log2; cbn; lia|apply Z.bits_0]).
    by rewrite Hb, andb_false_r.
Qed.

(** One [FoldedHistory::update] with the new outcome at [h[0]] and the one that
    leaves at [h[origLength]]: the fold of the longer history. *)
Lemma fh_update_folded tab h o c b outs : 0 < c < 32 -> 0 <= o -> 0 <= h ->
  tab !! Z.to_nat h = Some (Z.b2z b) -> tab !! Z.to_nat (h + o) = Some (Z.b2z (outcome (b :: outs) (Z.to_nat o))) ->
  fh_update tab h (folded o c outs) = Ok (folded o c (b :: outs)).
Proof.
  intros Hc Ho Hh H0 Hout. unfold fh_update, folded. cbn [comp compLength origLength outpoint].
  rewrite (get_Ok _ _ _ Hh H0), (get_Ok _ (h + o) _ ltac:(lia) Hout). cbn [rbind].
  rewrite Z.rem_mod_nonneg by lia. pose proof (Z.mod_pos_bound o c ltac:(lia)) as Hm.
  rewrite shl_Ok by lia. cbn [rbind].
  rewrite shr_Ok by lia. cbn [rbind]. rewrite mask_Ok by lia. cbn [rbind]. f_equal. f_equal.
  set (F := fold_upto c (outcome outs) (Z.to_nat o)). set (x := outcome (b :: outs) (Z.to_nat o)).
  assert (HF : in_u c F) by (apply fold_upto_range; lia).
  assert (H32 : 2 ^ (c + 1) <= 2 ^ 32) by (apply Z.pow_le_mono_r; lia). rewrite Z.pow_add_r in H32 by lia.
  rewrite (wrap_small 32 (Z.shiftl F 1)) by (unfold in_u in *; rewrite Z.shiftl_mul_pow2 by lia; lia).
  rewrite (wrap_small 32 (Z.shiftl (Z.b2z x) (o mod c))) by (apply b2z_shift_range; lia).
  rewrite lor_low_bit. fold (fold_top c (Z.lxor (Z.lxor (Z.shiftl F 1) (Z.b2z b)) (Z.shiftl (Z.b2z x) (o mod c)))).
  rewrite !fold_top_lxor, (fold_top_small c (Z.shiftl (Z.b2z x) (o mod c))), (fold_top_small c (Z.b2z b)).
  2: lia. 3: lia. 3: by apply b2z_shift_range.
  2: { rewrite <- (Z.shiftl_0_r (Z.b2z b)). apply b2z_shift_range. lia. }
  pose proof (fold_upto_push c (outcome outs) (outcome (b :: outs)) (Z.to_nat o) ltac:(lia) ltac:(done)) as Hp.
  cbn [fold_upto] in Hp. rewrite Z2Nat.id in Hp by lia. fold F x in Hp.
  change (outcome (b :: outs) 0) with b in Hp. rewrite (Z.lxor_comm (fold_top c (Z.shiftl F 1))), <- Hp.
  rewrite Z.lxor_assoc, Z.lxor_nilpotent, Z.lxor_0_r. apply wrap_small.
  assert (Hr : in_u c (fold_upto c (outcome (b :: outs)) (Z.to_nat o))) by (apply fold_upto_range; lia).
  unfold in_u in *. lia.
Qed.

(** ** The parameters the predictor needs *)

Definition hl (p : TageParams) (i : nat) : Z := nth i (histLengths p) 0.

Definition lg (p : TageParams) (i : nat) : Z := nth i (logTagTableSizes p) 0.

Definition tw (p : TageParams) (i : nat) : Z := nth i (tagTableTagWidths p) 0.

(** Of table [i]: its history fits the buffer, its index at least the number of
    the table and a [1 << n] of type [int], its tag a [uint16_t], and the second
    folded tag, one bit shorter, is not empty. *)
Definition bank_ok (p : TageParams) (i : nat) : bool :=
  (0 <=? hl p i) && (hl p i <=? maxHist p) &&
  (Z.of_nat i <=? lg p i) && (0 <? lg p i) && (lg p i <? 31) && (2 <=? tw p i) && (tw p i <=? 16).

Record params_ok (p : TageParams) : Prop := {
  po_banks i : (1 <= i <= nHistoryTables p)%nat -> bank_ok p i = true;
  po_hl : length (histLengths p) = S (nHistoryTables p);
  po_lg : length (logTagTableSizes p) = S (nHistoryTables p);
  po_tw : length (tagTableTagWidths p) = S (nHistoryTables p);
  po_tw0 : tw p 0 = 0;
  po_noSkip : length (noSkip p) = S (nHistoryTables p);
  po_buffer : 0 <= maxHist p /\ 2 * maxHist p < histBufferSize p < 2 ^ 31;
  po_path : 0 <= pathHistBits p <= 32;
  po_shift : 0 <= instShiftAmt p < 64;
  po_bimodal : 0 <= logRatioBiModalHystEntries p <= lg p 0 /\ lg p 0 < 31;
  po_ctr : 1 <= tagTableCounterBits p <= 8 /\ 1 <= tagTableUBits p <= 2 /\ 1 <= useAltOnNaBits p <= 8;
  po_period : 1 <= logUResetPeriod p < 64 /\ in_s 64 (initialTCounterValue p);
  po_useAlt : (1 <= numUseAltOnNa p)%nat
}.

Lemma nth_param (l : list Z) n i : length l = S n -> (i <= n)%nat -> nth_ l i = Ok (nth i l 0).
Proof. intros Hl Hi. apply nth_lookup. destruct (nth_lookup_or_length l i 0); [done|lia]. Qed.

(** ** The invariant *)

Definition window (n : Z) (tab : list Z) (h : Z) (outs : list bool) : Prop :=
  forall k, 0 <= k < n -> tab !! Z.to_nat (h + k) = Some (Z.b2z (outcome outs (Z.to_nat k))).

Section Invariant.
Context (p : TageParams).

(** The positions the newest outcome takes, downwards and then again from the
    top, are the [cap] lowest of the buffer. *)
Definition cap : Z := histBufferSize p - maxHist p.

(** The number of outcomes pushed since the newest was at [from]. *)
Definition dist (from pt : Z) : Z := if pt <=? from then from - pt else from - pt + cap.

(** A branch can be undone while fewer outcomes than this were pushed after it. *)
Definition slack : Z := cap - maxHist p.

(** One of the three arrays of registers: those of the tables below [j] fold
    [new], the others have [P]. *)
Definition folds (P : Z -> Z -> FoldedHistory -> Prop) (o c : nat -> Z) (j : nat) (new : list bool)
    (l : list FoldedHistory) : Prop :=
  length l = S (nHistoryTables p) /\
  forall i, (1 <= i <= nHistoryTables p)%nat -> exists f, l !! i = Some f /\
    (if (i <? j)%nat then f = folded (o i) (c i) new else P (o i) (c i) f).

Definition th_folds (P : Z -> Z -> FoldedHistory -> Prop) (j : nat) (new : list bool) (th : ThreadHistory) : Prop :=
  folds P (hl p) (lg p) j new (computeIndices th) /\
  folds P (hl p) (tw p) j new (computeTags0 th) /\
  folds P (hl p) (fun i => tw p i - 1) j new (computeTags1 th).

(** All registers fold [outs]. *)
Definition all_folded (outs : list bool) (th : ThreadHistory) : Prop :=
  th_folds (fun o c f => f = folded o c outs) 1 outs th.

Definition shape (o c : Z) (f : FoldedHistory) : Prop :=
  compLength f = c /\ origLength f = o /\ outpoint f = Z.rem o c.

(** The histories of a thread are those of the outcomes [outs] and the path [path]. *)
Record th_ok (outs : list bool) (path : Z) (th : ThreadHistory) : Prop := {
  to_len : Z.of_nat (length (globalHistory th)) = histBufferSize p;
  to_pt : 0 <= ptGhist th < cap;
  to_gHist : gHist th = ptGhist th;
  to_window : window (maxHist p) (globalHistory th) (ptGhist th) outs;
  to_folds : all_folded outs th;
  to_path : pathHist th = path
}.

(** One of the three saved arrays: the entries of the tables below [j] are the
    folds of [outs]. *)
Definition saved (o c : nat -> Z) (j : nat) (outs : list bool) (l : list (option Z)) : Prop :=
  length l = S (nHistoryTables p) /\
  forall i, (1 <= i < j)%nat -> l !! i = Some (Some (swrap 32 (comp (folded (o i) (c i) outs)))).

Definition bi_saved (j : nat) (outs : list bool) (bi : BranchInfo) : Prop :=
  saved (hl p) (lg p) j outs (ci bi) /\ saved (hl p) (tw p) j outs (ct0 bi) /\
  saved (hl p) (fun i => tw p i - 1) j outs (ct1 bi).

(** [bi] was filled when the outcomes before its branch were [outs], and those
    are still in the buffer; [path] is the path with the branch in it. *)
Record rec_ok (th : ThreadHistory) (bi : BranchInfo) (a : list bool * Z) : Prop := {
  ro_pos : 0 <= bi_ptGhist bi < cap;
  ro_window : window (maxHist p) (globalHistory th) (bi_ptGhist bi + 1) a.1;
  ro_saved : bi_saved (S (nHistoryTables p)) a.1 bi;
  ro_path : bi_pathHist bi = a.2
}.

(** The abstract histories of a thread: all outcomes, the path, and for each
    branch in flight, the youngest first, the outcomes before it and the path
    after it. *)
Record Hist := mkHist {
  h_outs : list bool;
  h_path : Z;
  h_flight : list (list bool * Z)
}.

(** The outcomes pushed after a branch in flight. *)
Definition pushed (a : Hist) (r : list bool * Z) : Z := Z.of_nat (length (h_outs a)) - Z.of_nat (length r.1) - 1.

Definition age (th : ThreadHistory) (bi : BranchInfo) : Z := dist (bi_ptGhist bi) (ptGhist th).

Record hist_ok (th : ThreadHistory) (bis : list BranchInfo) (a : Hist) : Prop := {
  ho_th : th_ok (h_outs a) (h_path a) th;
  ho_recs : Forall2 (rec_ok th) bis (h_flight a);
  ho_order : StronglySorted (fun b1 b2 => age th b1 < age th b2) bis;
  ho_slack : Forall (fun b => age th b < slack) bis;
  ho_age : Forall2 (fun b r => age th b = pushed a r) bis (h_flight a)
}.

(** A further outcome leaves every branch in flight undoable. *)
Definition room (a : Hist) : bool := forallb (fun r => pushed a r + 1 <? slack) (h_flight a).

(** The path after a branch at [pc]. *)
Definition next_path (path pc : Z) : Z :=
  swrap 32 (Z.land (swrap 32 (swrap 32 (Z.shiftl path 1) + Z.land (Z.shiftr pc (instShiftAmt p)) 1)) (Z.ones (pathHistBits p))).

Definition push (pc : Z) (taken : bool) (a : Hist) : Hist :=
  let path := next_path (h_path a) pc in
  mkHist (taken :: h_outs a) path ((h_outs a, path) :: h_flight a).

(** The [k]-th branch in flight turns out to go [taken]. *)
Definition correct (k : nat) (taken : bool) (a : Hist) : option Hist :=
  match h_flight a !! k with
  | Some (outs, path) => Some (mkHist (taken :: outs) path (drop k (h_flight a)))
  | None => None
  end.

(** ** The loops over the tables *)

Context (Hp : params_ok p).

Lemma bank_bounds i : (1 <= i <= nHistoryTables p)%nat ->
  0 <= hl p i <= maxHist p /\ 0 < lg p i < 31 /\ Z.of_nat i <= lg p i /\ 2 <= tw p i <= 16.
Proof. intros Hi. pose proof (po_banks p Hp i Hi) as H. unfold bank_ok in H. b2p. lia. Qed.

Lemma folds_set P o c j new l : (1 <= j <= nHistoryTables p)%nat -> folds P o c j new l ->
  folds P o c (S j) new (<[j := folded (o j) (c j) new]> l).
Proof.
  intros Hj [Hl H]. split; [by rewrite length_insert|]. intros i Hi. destruct (decide (i = j)) as [->|Hne].
  - eexists. rewrite list_lookup_insert_eq by lia. split; [done|]. destruct (Nat.ltb_spec j (S j)); [done|lia].
  - rewrite list_lookup_insert_ne by done. destruct (H i Hi) as (f & Hf & HP). exists f. split; [done|].
    destruct (Nat.ltb_spec i j), (Nat.ltb_spec i (S j)); done || lia.
Qed.

(** An entry written before its turn. *)
Lemma folds_load P o c j new l f : (1 <= j <= nHistoryTables p)%nat -> folds P o c j new l -> P (o j) (c j) f ->
  folds P o c j new (<[j := f]> l).
Proof.
  intros Hj [Hl H] HP. split; [by rewrite length_insert|]. intros i Hi. destruct (decide (i = j)) as [->|Hne].
  - exists f. rewrite list_lookup_insert_eq by lia. split; [done|]. destruct (Nat.ltb_spec j j); [lia|done].
  - rewrite list_lookup_insert_ne by done. auto.
Qed.

Lemma folds_get P o c j new l : (1 <= j <= nHistoryTables p)%nat -> folds P o c j new l ->
  exists f, nth_ l j = Ok f /\ P (o j) (c j) f /\ (j < length l)%nat.
Proof.
  intros Hj [Hl H]. destruct (H j Hj) as (f & Hf & HP). exists f. split; [by apply nth_lookup|].
  destruct (Nat.ltb_spec j j); [lia|]. split; [done|lia].
Qed.

(** The register of table [j] in each of the three arrays folds [outs]. *)
Definition at_bank (j : nat) (outs : list bool) (th : ThreadHistory) : Prop :=
  computeIndices th !! j = Some (folded (hl p j) (lg p j) outs) /\
  computeTags0 th !! j = Some (folded (hl p j) (tw p j) outs) /\
  computeTags1 th !! j = Some (folded (hl p j) (tw p j - 1) outs).

(** The fields the loops over the tables leave. *)
Definition same_buffer (th th' : ThreadHistory) : Prop :=
  pathHist th' = pathHist th /\ globalHistory th' = globalHistory th /\ gHist th' = gHist th /\ ptGhist th' = ptGhist th.

Lemma fh_update_bank tab h o c b old l j : 0 < c < 32 -> 0 <= o <= maxHist p -> 0 <= h ->
  window (maxHist p + 1) tab h (b :: old) -> l !! j = Some (folded o c old) ->
  nth_ l j = Ok (folded o c old) /\ fh_update tab h (folded o c old) = Ok (folded o c (b :: old)) /\
  upd_ l j (folded o c (b :: old)) = Ok (<[j := folded o c (b :: old)]> l).
Proof.
  intros Hc Ho Hh Hw Hl. split; [by apply nth_lookup|]. split.
  - apply fh_update_folded; [done|lia|done| |].
    + rewrite <- (Z.add_0_r h). apply (Hw 0). lia.
    + apply Hw. lia.
  - apply upd_Ok. by apply lookup_lt_Some in Hl.
Qed.

Lemma update_folded_ok P old b j th : (1 <= j <= nHistoryTables p)%nat ->
  th_folds P j (b :: old) th -> at_bank j old th -> 0 <= gHist th ->
  window (maxHist p + 1) (globalHistory th) (gHist th) (b :: old) ->
  exists th', update_folded j th = Ok th' /\ th_folds P (S j) (b :: old) th' /\ same_buffer th th'.
Proof.
  intros Hj (H & H0 & H1) (Hi & Hi0 & Hi1) Hh Hw. destruct (bank_bounds j Hj) as (Ho & Hc & _ & Ht). unfold update_folded.
  destruct (fh_update_bank _ _ _ (lg p j) _ _ _ _ ltac:(lia) Ho Hh Hw Hi) as (-> & Hu & Hs). cbn [rbind].
  rewrite Hu. cbn [rbind]. rewrite Hs. cbn [rbind].
  destruct (fh_update_bank _ _ _ (tw p j) _ _ _ _ ltac:(lia) Ho Hh Hw Hi0) as (-> & Hu0 & Hs0). cbn [rbind].
  rewrite Hu0. cbn [rbind]. rewrite Hs0. cbn [rbind].
  destruct (fh_update_bank _ _ _ (tw p j - 1) _ _ _ _ ltac:(lia) Ho Hh Hw Hi1) as (-> & Hu1 & Hs1). cbn [rbind].
  rewrite Hu1. cbn [rbind]. rewrite Hs1. cbn [rbind]. eexists. split; [done|]. split; [|done].
  split; [|split]; cbn [computeIndices computeTags0 computeTags1].
  - by apply folds_set.
  - by apply folds_set.
  - by apply (folds_set P (hl p) (fun i => tw p i - 1)).
Qed.

Lemma folded_bank P o c j new l old : (forall o c f, P o c f -> f = folded o c old) -> (1 <= j <= nHistoryTables p)%nat ->
  folds P o c j new l -> l !! j = Some (folded (o j) (c j) old).
Proof.
  intros HP Hj [_ H]. destruct (H j Hj) as (f & -> & Hf). destruct (Nat.ltb_spec j j); [lia|]. by rewrite (HP _ _ _ Hf).
Qed.

Lemma saved_set o c j outs l : (1 <= j <= nHistoryTables p)%nat -> saved o c j outs l ->
  upd_ l j (Some (swrap 32 (comp (folded (o j) (c j) outs)))) = Ok (<[j := Some (swrap 32 (comp (folded (o j) (c j) outs)))]> l) /\
  saved o c (S j) outs (<[j := Some (swrap 32 (comp (folded (o j) (c j) outs)))]> l).
Proof.
  intros Hj [Hl H]. split; [apply upd_Ok; lia|]. split; [by rewrite length_insert|]. intros i Hi.
  destruct (decide (i = j)) as [->|Hne]; [by rewrite list_lookup_insert_eq by lia|].
  rewrite list_lookup_insert_ne by done. apply H. lia.
Qed.

(** The fields of a record that the histories do not touch. *)
Definition same_tables (bi bi' : BranchInfo) : Prop :=
  hitBank bi' = hitBank bi /\ hitBankIndex bi' = hitBankIndex bi /\ altBank bi' = altBank bi /\
  altBankIndex bi' = altBankIndex bi /\ bimodalIndex bi' = bimodalIndex bi /\ tagePred bi' = tagePred bi /\
  altTaken bi' = altTaken bi /\ condBranch bi' = condBranch bi /\ longestMatchPred bi' = longestMatchPred bi /\
  pseudoNewAlloc bi' = pseudoNewAlloc bi /\ bi_tableIndices bi' = bi_tableIndices bi /\ bi_tableTags bi' = bi_tableTags bi.

Lemma save_folded_ok j old th bi : (1 <= j <= nHistoryTables p)%nat -> at_bank j old th -> bi_saved j old bi ->
  exists bi', save_folded j th bi = Ok bi' /\ bi_saved (S j) old bi' /\ same_tables bi bi' /\
    bi_pathHist bi' = bi_pathHist bi /\ bi_ptGhist bi' = bi_ptGhist bi.
Proof.
  intros Hj (Hi & Hi0 & Hi1) (H & H0 & H1). unfold save_folded.
  rewrite (nth_lookup _ _ _ Hi), (nth_lookup _ _ _ Hi0), (nth_lookup _ _ _ Hi1). cbn [rbind].
  destruct (saved_set _ _ _ _ _ Hj H) as [-> Hs]. cbn [rbind].
  destruct (saved_set _ _ _ _ _ Hj H0) as [-> Hs0]. cbn [rbind].
  destruct (saved_set _ _ _ _ _ Hj H1) as [-> Hs1]. cbn [rbind]. eexists. split; [done|]. split; [|done].
  split; [done|]. by split.
Qed.

Lemma load_bank o c j outs l new fs : (1 <= j <= nHistoryTables p)%nat -> 0 < c j < 32 ->
  saved o c (S (nHistoryTables p)) outs l -> folds shape o c j new fs ->
  exists f, read_ l j = Ok (swrap 32 (comp (folded (o j) (c j) outs))) /\ nth_ fs j = Ok f /\
    upd_ fs j (set_comp (swrap 32 (comp (folded (o j) (c j) outs))) f) = Ok (<[j := folded (o j) (c j) outs]> fs) /\
    folds shape o c j new (<[j := folded (o j) (c j) outs]> fs) /\ (j < length fs)%nat.
Proof.
  intros Hj Hc [_ Hs] Hf. destruct (folds_get _ _ _ _ _ _ Hj Hf) as (f & Hn & (Hs1 & Hs2 & Hs3) & Hl). exists f.
  split; [unfold read_; rewrite (nth_lookup _ _ _ (Hs j ltac:(lia))); done|]. split; [done|].
  assert (Heq : set_comp (swrap 32 (comp (folded (o j) (c j) outs))) f = folded (o j) (c j) outs).
  { unfold set_comp, folded. cbn [comp]. rewrite Hs1, Hs2, Hs3, wrap_swrap, wrap_small; [done|].
    pose proof (fold_upto_range (c j) (outcome outs) (Z.to_nat (o j)) ltac:(lia)) as Hr.
    assert (2 ^ c j <= 2 ^ 32) by (apply Z.pow_le_mono_r; lia). unfold in_u in *. lia. }
  rewrite Heq. split; [by apply upd_Ok|]. split; [|done]. by apply folds_load.
Qed.

Lemma load_folded_ok j outs bi new th : (1 <= j <= nHistoryTables p)%nat ->
  bi_saved (S (nHistoryTables p)) outs bi -> th_folds shape j new th ->
  exists th', load_folded j bi th = Ok th' /\ th_folds shape j new th' /\ at_bank j outs th' /\ same_buffer th th'.
Proof.
  intros Hj (H & H0 & H1) (Hf & Hf0 & Hf1). destruct (bank_bounds j Hj) as (_ & Hc & _ & Ht). unfold load_folded.
  destruct (load_bank (hl p) (lg p) _ _ _ _ _ Hj ltac:(lia) H Hf) as (f & -> & -> & Hu & Hf' & Hl). cbn [rbind]. rewrite Hu. cbn [rbind].
  destruct (load_bank (hl p) (tw p) _ _ _ _ _ Hj ltac:(lia) H0 Hf0) as (f0 & -> & -> & Hu0 & Hf0' & Hl0). cbn [rbind]. rewrite Hu0. cbn [rbind].
  destruct (load_bank (hl p) (fun i => tw p i - 1) _ _ _ _ _ Hj ltac:(cbn beta; lia) H1 Hf1) as (f1 & -> & -> & Hu1 & Hf1' & Hl1). cbn [rbind]. rewrite Hu1. cbn [rbind].
  eexists. split; [done|]. split; [done|]. split; [|done].
  unfold at_bank. cbn [computeIndices computeTags0 computeTags1]. rewrite !list_lookup_insert_eq by done. done.
Qed.

Lemma same_buffer_trans th1 th2 th3 : same_buffer th1 th2 -> same_buffer th2 th3 -> same_buffer th1 th3.
Proof. unfold same_buffer. intuition congruence. Qed.

Lemma folds_done P Q o c j new l : (nHistoryTables p < j)%nat -> (forall i, Q (o i) (c i) (folded (o i) (c i) new)) ->
  folds P o c j new l -> folds Q o c 1 new l.
Proof.
  intros Hj HQ [Hl H]. split; [done|]. intros i Hi. destruct (H i Hi) as (f & Hf & HP). exists f. split; [done|].
  destruct (Nat.ltb_spec i j); [|lia]. subst f. destruct (Nat.ltb_spec i 1); [done|apply HQ].
Qed.

Lemma th_folds_done P j new th : (nHistoryTables p < j)%nat -> th_folds P j new th -> all_folded new th.
Proof.
  intros Hj (H & H0 & H1). split; [|split].
  - by eapply folds_done.
  - by eapply folds_done.
  - by eapply (folds_done _ _ (hl p) (fun i => tw p i - 1)).
Qed.

(** The loop of [squash]: the registers fold the saved history and the new outcome. *)
Lemma refold_ok old b bi th : bi_saved (S (nHistoryTables p)) old bi -> th_folds shape 1 (b :: old) th ->
  0 <= gHist th -> window (maxHist p + 1) (globalHistory th) (gHist th) (b :: old) ->
  exists th', refold p bi th = Ok th' /\ all_folded (b :: old) th' /\ same_buffer th th'.
Proof.
  intros Hs Hf Hh Hw. unfold refold.
  edestruct (for_inv (fun j th' => th_folds shape j (b :: old) th' /\ same_buffer th th') (refold_body bi) (nHistoryTables p)) as (th' & Hr & Hf' & Hsb).
  - split; [exact Hf|done].
  - intros j th1 Hj [Hf1 Hsb1]. unfold refold_body. destruct (load_folded_ok j old bi (b :: old) th1) as (th2 & -> & Hf2 & Hat & Hsb2); [lia|done..|].
    cbn [rbind]. pose proof (same_buffer_trans _ _ _ Hsb1 Hsb2) as Hsb'. destruct Hsb' as (_ & Hg & Hgh & _).
    destruct (update_folded_ok shape old b j th2) as (th3 & -> & Hf3 & Hsb3); [lia|done|done|by rewrite Hgh|by rewrite Hgh, Hg|].
    eexists. split; [done|]. split; [done|]. exact (same_buffer_trans _ _ _ (same_buffer_trans _ _ _ Hsb1 Hsb2) Hsb3).
  - rewrite Hr. eexists. split; [done|]. split; [|done]. eapply th_folds_done; [|done]. lia.
Qed.

(** The loop of [updateHistories]. *)
Lemma tage_fold_loop_ok old b bi th : all_folded old th -> bi_saved 1 old bi ->
  0 <= gHist th -> window (maxHist p + 1) (globalHistory th) (gHist th) (b :: old) ->
  exists bi' th', for_ (nHistoryTables p) 1 (hist_body true) (bi, th) = Ok (bi', th') /\
    all_folded (b :: old) th' /\ same_buffer th th' /\ bi_saved (S (nHistoryTables p)) old bi' /\ same_tables bi bi' /\
    bi_pathHist bi' = bi_pathHist bi /\ bi_ptGhist bi' = bi_ptGhist bi.
Proof.
  intros Hf Hs Hh Hw. set (P := fun o c f => f = folded o c old).
  edestruct (for_inv (fun j '(bi', th') => th_folds P j (b :: old) th' /\ same_buffer th th' /\ bi_saved j old bi' /\
    same_tables bi bi' /\ bi_pathHist bi' = bi_pathHist bi /\ bi_ptGhist bi' = bi_ptGhist bi) (hist_body true) (nHistoryTables p) 1 (bi, th)) as ([bi' th'] & Hr & Hf' & Hsb & Hs' & Hrest).
  - split; [|done]. destruct Hf as (H & H0 & H1).
    assert (Hnew : forall o c l, folds P o c 1 old l -> folds P o c 1 (b :: old) l).
    { intros o c l [Hl Hx]. split; [done|]. intros i Hi. destruct (Hx i Hi) as (f & Hlf & HPf). exists f. split; [done|].
      destruct (Nat.ltb_spec i 1); [lia|done]. }
    split; [by apply Hnew|]. split; by apply Hnew.
  - intros j [bi1 th1] Hj (Hf1 & (Hsb1 & Hg & Hgh & Hpt) & Hs1 & Hst & Hpa & Hpg). unfold hist_body.
    assert (Hat : at_bank j old th1).
    { assert (HP : forall o c f, P o c f -> f = folded o c old) by done. destruct Hf1 as (H & H0 & H1).
      split; [|split]; [exact (folded_bank P _ _ j _ _ old HP ltac:(lia) H)|exact (folded_bank P _ _ j _ _ old HP ltac:(lia) H0)|
        exact (folded_bank P _ _ j _ _ old HP ltac:(lia) H1)]. }
    destruct (save_folded_ok j old th1 bi1) as (bi2 & -> & Hs2 & Hst2 & Hpa2 & Hpg2); [lia|done..|]. cbn [rbind].
    destruct (update_folded_ok P old b j th1) as (th2 & -> & Hf2 & Hsb2); [lia|done|done|by rewrite Hgh|by rewrite Hgh, Hg|].
    eexists. split; [done|]. split; [done|]. split; [by eapply same_buffer_trans|]. split; [done|].
    split; [unfold same_tables in *; intuition congruence|]. split; congruence.
  - rewrite Hr. eexists _, _. split; [done|]. split; [eapply th_folds_done; [|done]; lia|]. by split.
Qed.

(** ** The buffer *)

Lemma cap_bounds : 0 <= maxHist p < cap /\ cap + maxHist p = histBufferSize p /\ slack = cap - maxHist p.
Proof. pose proof (po_buffer p Hp). unfold slack, cap. lia. Qed.

Lemma lookup_set (tab : list Z) q x k : 0 <= q < Z.of_nat (length tab) -> 0 <= k ->
  <[Z.to_nat q := x]> tab !! Z.to_nat k = if k =? q then Some x else tab !! Z.to_nat k.
Proof.
  intros Hq Hk. destruct (Z.eqb_spec k q) as [->|Hne].
  - apply list_lookup_insert_eq. lia.
  - apply list_lookup_insert_ne. lia.
Qed.

(** The copy that rolls the buffer over. *)
Lemma rollover_ok (tab : list Z) : Z.of_nat (length tab) = histBufferSize p ->
  exists tab' : list Z, for_ (Z.to_nat (maxHist p)) 0 (fun i tab =>
      let! x := get_ tab (Z.of_nat i) in set_ tab (histBufferSize p - maxHist p + Z.of_nat i) x) tab = Ok tab' /\
    length tab' = length tab /\
    forall k, 0 <= k -> tab' !! Z.to_nat k = tab !! Z.to_nat (if (cap <=? k) && (k <? histBufferSize p) then k - cap else k).
Proof.
  intros Hl. destruct cap_bounds as (Hm & Hcap & _). fold cap.
  edestruct (for_inv (fun i (t : list Z) => length t = length tab /\
      forall k, 0 <= k -> t !! Z.to_nat k = tab !! Z.to_nat (if (cap <=? k) && (k <? cap + Z.of_nat i) then k - cap else k))
    (fun i tab => let! x := get_ tab (Z.of_nat i) in set_ tab (cap + Z.of_nat i) x) (Z.to_nat (maxHist p)) 0 tab)
    as (tab' & -> & Hl' & Ht).
  - split; [done|]. intros k Hk. f_equal. f_equal. case_cmp; done || lia.
  - intros i t Hi [Hlt Ht]. destruct (lookup_lt_is_Some_2 t i) as [x Hx]; [lia|].
    rewrite (get_Ok _ _ x) by (done || lia || by rewrite Nat2Z.id). cbn [rbind]. rewrite set_Ok by lia. eexists. split; [done|].
    split; [by rewrite length_insert|]. intros k Hk. rewrite lookup_set by lia. destruct (Z.eqb_spec k (cap + Z.of_nat i)) as [->|Hne].
    + rewrite <- Hx, <- (Nat2Z.id i) at 1. rewrite Ht by lia. f_equal. f_equal. case_cmp; simpl; lia.
    + rewrite Ht by done. f_equal. f_equal. case_cmp; simpl; lia.
  - exists tab'. split; [done|]. split; [done|]. intros k Hk. rewrite Ht by done. f_equal. f_equal. case_cmp; simpl; lia.
Qed.

(** The buffer before the new outcome is stored, and the position it goes below. *)
Lemma updateGHist_ok tab pt b outs : Z.of_nat (length tab) = histBufferSize p -> 0 <= pt < cap ->
  window (maxHist p) tab pt outs ->
  exists tab' q, updateGHist p pt b tab pt = Ok (q, tab', q) /\ Z.of_nat (length tab') = histBufferSize p /\
    q = (if pt =? 0 then cap - 1 else pt - 1) /\ window (maxHist p + 1) tab' q (b :: outs) /\
    forall from o, 0 <= from < cap -> dist from pt + 1 < slack -> window (maxHist p) tab (from + 1) o ->
      window (maxHist p) tab' (from + 1) o.
Proof.
  intros Hl Hpt Hw. destruct cap_bounds as (Hm & Hcap & Hsl). unfold updateGHist.
  replace (if b then 1 else 0) with (Z.b2z b) by by destruct b. destruct (Z.eqb_spec pt 0) as [->|Hne].
  - destruct (rollover_ok tab Hl) as (t & -> & Hlt & Ht). cbn [rbind]. rewrite set_Ok by (fold cap; lia). cbn [rbind].
    eexists _, _. split; [done|]. fold cap. rewrite length_insert. split; [lia|]. split; [lia|]. split.
    + intros k Hk. rewrite lookup_set by lia. destruct (Z.eqb_spec (cap - 1 + k) (cap - 1)) as [He|He].
      { by replace k with 0 by lia. }
      rewrite Ht by lia. replace (Z.to_nat k) with (S (Z.to_nat (k - 1))) by lia. change (outcome (b :: outs) (S (Z.to_nat (k - 1)))) with (outcome outs (Z.to_nat (k - 1))).
      rewrite <- (Hw (k - 1)) by lia. f_equal. f_equal. case_cmp; simpl; lia.
    + intros from o Hf Hd Hwo k Hk. unfold dist in Hd. destruct (Z.leb_spec 0 from); [|lia].
      rewrite lookup_set by lia. destruct (Z.eqb_spec (from + 1 + k) (cap - 1)); [lia|].
      rewrite Ht, <- (Hwo k Hk) by lia. f_equal. f_equal. case_cmp; simpl; lia.
  - cbn [rbind]. rewrite set_Ok by lia. cbn [rbind]. eexists _, _. split; [done|]. rewrite length_insert.
    split; [done|]. split; [done|]. split.
    + intros k Hk. rewrite lookup_set by lia. destruct (Z.eqb_spec (pt - 1 + k) (pt - 1)) as [He|He].
      { by replace k with 0 by lia. }
      replace (Z.to_nat k) with (S (Z.to_nat (k - 1))) by lia. change (outcome (b :: outs) (S (Z.to_nat (k - 1)))) with (outcome outs (Z.to_nat (k - 1))).
      rewrite <- (Hw (k - 1)) by lia. f_equal. f_equal. lia.
    + intros from o Hf Hd Hwo k Hk. rewrite lookup_set by lia. destruct (Z.eqb_spec (from + 1 + k) (pt - 1)); [|by apply Hwo].
      unfold dist in Hd. destruct (Z.leb_spec pt from); lia.
Qed.

(** ** The operations on the histories *)

Lemma dist_push from pt : 0 <= from < cap -> 0 <= pt < cap -> dist from pt + 1 < slack ->
  dist from (if pt =? 0 then cap - 1 else pt - 1) = dist from pt + 1.
Proof.
  intros Hf Hpt. destruct cap_bounds as (Hm & _ & ->). unfold dist. case_cmp; lia.
Qed.

Lemma dist_self q : dist q q = 0.
Proof. unfold dist. case_cmp; lia. Qed.

Lemma dist_back from q pt : 0 <= from < cap -> 0 <= q < cap -> 0 <= pt < cap -> dist q pt < dist from pt ->
  dist from q = dist from pt - dist q pt.
Proof. intros Hf Hq Hpt. unfold dist. case_cmp; lia. Qed.

Lemma sorted_age d th th' bis : (forall c, c ∈ bis -> age th' c = age th c + d) ->
  StronglySorted (fun b1 b2 => age th b1 < age th b2) bis -> StronglySorted (fun b1 b2 => age th' b1 < age th' b2) bis.
Proof.
  intros Hall Hs. induction Hs as [|x l Hs IH HF]; constructor.
  - apply IH. intros c Hc. apply Hall. by right.
  - rewrite Forall_forall in HF |- *. intros y Hy. specialize (HF y Hy).
    rewrite (Hall x), (Hall y) by ((by left) || (by right)). lia.
Qed.

(** The records survive a change of the buffer that keeps their windows. *)
Lemma rec_keep th th' bis fl : Forall2 (rec_ok th) bis fl ->
  (forall b o, b ∈ bis -> 0 <= bi_ptGhist b < cap -> window (maxHist p) (globalHistory th) (bi_ptGhist b + 1) o ->
    window (maxHist p) (globalHistory th') (bi_ptGhist b + 1) o) -> Forall2 (rec_ok th') bis fl.
Proof.
  intros HF Hk. induction HF as [|b x bis fl [H1 H2 H3 H4] HF IH]; constructor.
  - split; [done| |done|done]. apply Hk; [by left|done..].
  - apply IH. intros b' o Hb. apply Hk. by right.
Qed.

Lemma rec_pos th bis fl b : Forall2 (rec_ok th) bis fl -> b ∈ bis -> 0 <= bi_ptGhist b < cap.
Proof.
  intros HF [n Hn]%list_elem_of_lookup_1. destruct (Forall2_lookup_l _ _ _ _ _ HF Hn) as (? & _ & [Hpos _ _ _]). done.
Qed.

Lemma room_age th bis a : Forall2 (fun b r => age th b = pushed a r) bis (h_flight a) -> room a = true ->
  forall b, b ∈ bis -> age th b + 1 < slack.
Proof.
  intros HF Hr b [n Hn]%list_elem_of_lookup_1. destruct (Forall2_lookup_l _ _ _ _ _ HF Hn) as (r & Hfl & ->).
  unfold room in Hr. rewrite forallb_forall in Hr. apply Z.ltb_lt, Hr. by eapply list_elem_of_In, list_elem_of_lookup_2.
Qed.

Lemma age_keep d th th' a a' bis fl : (forall r, pushed a' r = pushed a r + d) -> (forall b, b ∈ bis -> age th' b = age th b + d) ->
  Forall2 (fun b r => age th b = pushed a r) bis fl -> Forall2 (fun b r => age th' b = pushed a' r) bis fl.
Proof.
  intros Ha Hb HF. induction HF as [|b r bis fl Hbr HF IH]; constructor.
  - rewrite Ha, Hb, Hbr by by left. done.
  - apply IH. intros c Hc. apply Hb. by right.
Qed.

Lemma push_ok th bis a pc taken bi : speculativeHistUpdate p = true -> hist_ok th bis a ->
  room a = true -> bi_saved 1 (h_outs a) bi ->
  exists bi' th', updateHistories p pc taken bi true th = Ok (bi', th') /\
    hist_ok th' (bi' :: bis) (push pc taken a) /\ same_tables bi bi'.
Proof.
  intros Hspec [[Hlen Hpt Hgh Hw Hf Hpath] Hrecs Hord Hsl Hages] Hrm Hbi. pose proof (room_age _ _ _ Hages Hrm) as Hroom. unfold updateHistories. rewrite Hspec. cbn [eqb negb].
  rewrite shr_Ok by apply (po_shift p Hp). cbn [rbind]. rewrite Hgh.
  destruct (updateGHist_ok _ _ taken _ Hlen Hpt Hw) as (tab & q & -> & Hlen' & Hq & Hw' & Hkeep). cbn [rbind].
  rewrite mask_Ok by (pose proof (po_path p Hp); lia). cbn [rbind].
  assert (Hq' : 0 <= q < cap) by (pose proof cap_bounds; subst q; case_cmp; lia).
  edestruct (tage_fold_loop_ok (h_outs a) taken) as (bi' & th' & -> & Hf' & (Hsp & Hsg & Hsh & Hst) & Hs' & Htab & Hbp & Hbq);
    [exact Hf|exact Hbi|exact (proj1 Hq')|exact Hw'|]. cbn [pathHist globalHistory gHist ptGhist bi_pathHist bi_ptGhist] in *.
  cbn [rbind]. rewrite Hsh, Hst, Z.eqb_refl. eexists bi', th'. split; [done|]. split; [|done].
  assert (Hage : forall b, b ∈ bis -> age th' b = age th b + 1).
  { intros b Hb. unfold age. rewrite Hst, Hq. 
    apply dist_push; [by eapply rec_pos|done|by apply Hroom]. }
  assert (Hself : age th' bi' = 0) by (unfold age; rewrite Hst, Hbq; apply dist_self).
  assert (Hnext : pathHist th' = next_path (h_path a) pc) by (rewrite Hsp, Hpath; done).
  split; cbn [push h_outs h_path h_flight].
  - split; [by rewrite Hsg|by rewrite Hst|by rewrite Hsh, Hst| |done|done]. rewrite Hsg, Hst. intros k Hk. apply Hw'. lia.
  - constructor.
    + split; cbn [fst snd]; [by rewrite Hbq| |done|by rewrite Hbp, <- Hnext, Hsp]. rewrite Hsg, Hbq. intros k Hk.
      replace (q + 1 + k) with (q + (k + 1)) by lia. rewrite (Hw' (k + 1)) by lia. by replace (Z.to_nat (k + 1)) with (S (Z.to_nat k)) by lia.
    + apply (rec_keep th); [done|]. intros b o Hb Hpos. rewrite Hsg. apply Hkeep; [done|by apply Hroom].
  - constructor; [by apply (sorted_age 1 th)|]. apply Forall_forall. intros b Hb. rewrite Hself, Hage by done.
    pose proof (rec_pos _ _ _ _ Hrecs Hb). unfold age, dist. case_cmp; lia.
  - constructor; [rewrite Hself; pose proof cap_bounds; lia|]. apply Forall_forall. intros b Hb. rewrite Hage by done. by apply Hroom.
  - constructor; [rewrite Hself; unfold pushed, push; cbn [fst h_outs length]; lia|]. apply (age_keep 1 th th' a); [|done..].
    intros r. unfold pushed, push. cbn [h_outs length]. lia.
Qed.

(** The registers keep their lengths whatever they hold. *)
Lemma all_folded_shape outs new th : all_folded outs th -> th_folds shape 1 new th.
Proof.
  assert (Hx : forall o c l, folds (fun o c f => f = folded o c outs) o c 1 outs l -> folds shape o c 1 new l).
  { intros o c l [Hl H]. split; [done|]. intros i Hi. destruct (H i Hi) as (f & Hf & Hfo). exists f. split; [done|].
    destruct (Nat.ltb_spec i 1); [lia|]. by subst f. }
  intros (H & H0 & H1). split; [by apply Hx|]. split; by apply Hx.
Qed.

(** Writing the outcome of the branch whose record is [from] leaves the windows of older branches. *)
Lemma window_older tab from q b o : Z.of_nat (length tab) = histBufferSize p -> 0 <= from < cap -> 0 <= q < cap ->
  0 < dist from q < slack -> window (maxHist p) tab (from + 1) o ->
  window (maxHist p) (<[Z.to_nat q := b]> tab) (from + 1) o.
Proof.
  intros Hl Hf Hq Hd Hw k Hk. destruct cap_bounds as (Hm & Hcap & Hsl). rewrite lookup_set by lia.
  destruct (Z.eqb_spec (from + 1 + k) q); [|by apply Hw]. unfold dist in Hd. destruct (Z.leb_spec q from); lia.
Qed.

Lemma window_push tab q b o : Z.of_nat (length tab) = histBufferSize p -> 0 <= q < cap ->
  window (maxHist p) tab (q + 1) o -> window (maxHist p + 1) (<[Z.to_nat q := Z.b2z b]> tab) q (b :: o).
Proof.
  intros Hl Hq Hw k Hk. destruct cap_bounds as (Hm & Hcap & Hsl). rewrite lookup_set by lia.
  destruct (Z.eqb_spec (q + k) q); [by replace k with 0 by lia|].
  replace (Z.to_nat k) with (S (Z.to_nat (k - 1))) by lia. change (outcome (b :: o) (S (Z.to_nat (k - 1)))) with (outcome o (Z.to_nat (k - 1))).
  rewrite <- (Hw (k - 1)) by lia. f_equal. f_equal. lia.
Qed.

Lemma StronglySorted_drop_lt th bis k b c : StronglySorted (fun b1 b2 => age th b1 < age th b2) bis ->
  bis !! k = Some b -> c ∈ drop (S k) bis -> age th b < age th c.
Proof.
  intros Hs Hk Hc. rewrite <- (take_drop_middle bis k b Hk) in Hs. apply StronglySorted_split in Hs as (_ & Hs & _).
  apply StronglySorted_inv in Hs as [_ HF]. rewrite Forall_forall in HF. auto.
Qed.

Lemma hist_drop k th bis a : hist_ok th bis a -> hist_ok th (drop k bis) (mkHist (h_outs a) (h_path a) (drop k (h_flight a))).
Proof.
  intros [Hth Hrecs Hord Hsl Hages]. split; cbn [h_outs h_path h_flight]; [done|by apply Forall2_drop| |by apply Forall_drop|by apply Forall2_drop].
  rewrite <- (take_drop k bis) in Hord. by apply StronglySorted_split in Hord as (_ & ? & _).
Qed.

Lemma hist_take k th bis a : hist_ok th bis a -> hist_ok th (take k bis) (mkHist (h_outs a) (h_path a) (take k (h_flight a))).
Proof.
  intros [Hth Hrecs Hord Hsl Hages]. split; cbn [h_outs h_path h_flight]; [done|by apply Forall2_take| |by apply Forall_take|by apply Forall2_take].
  rewrite <- (take_drop k bis) in Hord. by apply StronglySorted_split in Hord as (? & _ & _).
Qed.

(** A misprediction of the [k]-th branch in flight. *)
Lemma correct_ok k th bis a taken bi : speculativeHistUpdate p = true -> hist_ok th bis a -> bis !! k = Some bi ->
  exists th' a', squash_history p taken bi th = Ok th' /\ correct k taken a = Some a' /\ hist_ok th' (drop k bis) a'.
Proof.
  intros Hspec [[Hlen Hpt Hgh Hw Hf Hpath] Hrecs Hord Hsl Hages] Hk.
  destruct (Forall2_lookup_l _ _ _ _ _ Hrecs Hk) as ([o path] & Hfl & [Hpos Hwin Hsav Hpa]). cbn [fst snd] in *.
  unfold squash_history, correct. rewrite Hspec, Hfl. cbn [negb]. destruct cap_bounds as (Hm & Hcap & Hsl').
  replace (if taken then 1 else 0) with (Z.b2z taken) by by destruct taken. rewrite set_Ok by lia. cbn [rbind].
  edestruct (refold_ok o taken bi) as (th' & -> & Hf' & (Hsp & Hsg & Hsh & Hst)); cbn [gHist globalHistory] in *;
    [exact Hsav|exact (all_folded_shape _ _ _ Hf)|lia|by apply window_push|].
  cbn [pathHist ptGhist] in *. eexists th', _. split; [done|]. split; [done|].
  assert (Hdrop : drop k bis = bi :: drop (S k) bis) by (by apply drop_S).
  assert (Hdropf : drop k (h_flight a) = (o, path) :: drop (S k) (h_flight a)) by (by apply drop_S).
  assert (Holder : forall c, c ∈ drop (S k) bis -> 0 <= bi_ptGhist c < cap /\ age th' c = age th c - age th bi /\ 0 < age th' c < slack).
  { intros c Hc. assert (Hci : c ∈ bis) by (eapply subseteq_drop; exact Hc).
    pose proof (rec_pos _ _ _ _ Hrecs Hci) as Hcp. pose proof (StronglySorted_drop_lt _ _ _ _ _ Hord Hk Hc) as Hlt.
    rewrite Forall_forall in Hsl. specialize (Hsl c Hci). unfold age in *. rewrite Hst, (dist_back _ _ (ptGhist th)) by done.
    split; [done|]. split; [done|]. assert (0 <= dist (bi_ptGhist bi) (ptGhist th)) by (unfold dist; case_cmp; lia). lia. }
  assert (Hself : age th' bi = 0) by (unfold age; rewrite Hst; apply dist_self).
  assert (Hsub : StronglySorted (fun b1 b2 => age th b1 < age th b2) (drop (S k) bis)).
  { rewrite <- (take_drop (S k) bis) in Hord. by apply StronglySorted_split in Hord as (_ & ? & _). }
  split; cbn [h_outs h_path h_flight]; rewrite ?Hdrop, ?Hdropf.
  - split; [by rewrite Hsg, length_insert|by rewrite Hst|by rewrite Hsh, Hst| |done|by rewrite Hsp].
    rewrite Hsg, Hst. intros i Hi. apply window_push; [done..|lia].
  - constructor.
    + split; [done| |done|done]. rewrite Hsg. intros i Hi. rewrite lookup_set by lia.
      destruct (Z.eqb_spec (bi_ptGhist bi + 1 + i) (bi_ptGhist bi)); [lia|by apply Hwin].
    + apply (rec_keep th); [by apply Forall2_drop|]. intros c w Hc Hcp Hcw. rewrite Hsg.
      destruct (Holder c Hc) as (_ & _ & Ha). unfold age in Ha. rewrite Hst in Ha. by apply window_older.
  - constructor.
    + apply (sorted_age (- age th bi) th); [|done]. intros c Hc. destruct (Holder c Hc) as (_ & -> & _). lia.
    + apply Forall_forall. intros c Hc. destruct (Holder c Hc) as (_ & _ & Ha). lia.
  - constructor; [lia|]. apply Forall_forall. intros c Hc. destruct (Holder c Hc) as (_ & _ & Ha). lia.
  - destruct (Forall2_lookup_l _ _ _ _ _ Hages Hk) as (r & Hr & Hagebi). assert (r = (o, path)) by congruence. subst r.
    constructor; [rewrite Hself; unfold pushed; cbn [fst h_outs length]; lia|].
    apply (age_keep (- age th bi) th th' a); [| |by apply Forall2_drop].
    + intros r. rewrite Hagebi. unfold pushed. cbn [fst h_outs length]. lia.
    + intros c Hc. destruct (Holder c Hc) as (_ & -> & _). lia.
Qed.

(** A target missing from the BTB turns the prediction of the youngest branch to
    not taken: the same as a misprediction of it. *)
Lemma btbUpdate_is_squash bi th : gHist th = ptGhist th -> ptGhist th = bi_ptGhist bi -> pathHist th = bi_pathHist bi ->
  btbUpdate_history p bi th = squash_history p false bi th.
Proof.
  intros Hg Hpt Hpath. unfold btbUpdate_history, squash_history. destruct (speculativeHistUpdate p); [|done].
  rewrite Hg, Z.eqb_refl, Hpt, Hpath. done.
Qed.

Lemma fold_upto_nil c n : fold_upto c (outcome []) n = 0.
Proof.
  induction n as [|n IH]; [done|]. cbn [fold_upto]. rewrite IH. unfold outcome.
  destruct n; cbn [nth Z.b2z]; by rewrite Z.shiftl_0_l.
Qed.

Lemma fh_init_ok o c : c <> 0 -> fh_init o c = Ok (folded o c []).
Proof. intros Hc. unfold fh_init, folded. rewrite fold_upto_nil. by destruct (Z.eqb_spec c 0). Qed.

(** [init]: nothing happened yet. *)
Lemma init_history_ok : exists th, init_history p = Ok th /\ hist_ok th [] (mkHist [] 0 []).
Proof.
  unfold init_history, initFoldedHistories. set (th0 := mkThreadHistory _ _ _ _ _ _ _). set (body := fun (i : nat) (th : ThreadHistory) => _).
  edestruct (for_inv (fun j th => th_folds (fun _ _ _ => True) j [] th /\ same_buffer th0 th) body (nHistoryTables p) 1 th0)
    as (th & -> & Hf & (Hpa & Hg & Hh & Hpt)).
  - split; [|done]. assert (Hnew : forall o c, folds (fun _ _ _ => True) o c 1 [] (new_folded p)).
    { intros o c. split; [apply length_replicate|]. intros i Hi. eexists. split; [apply lookup_replicate_2; lia|].
      by destruct (Nat.ltb_spec i 1); [lia|]. }
    split; [apply Hnew|]. split; apply Hnew.
  - intros j th Hj [(H & H0 & H1) Hsb]. unfold body. destruct (bank_bounds j ltac:(lia)) as (_ & Hc & _ & Ht).
    rewrite (nth_param _ _ j (po_hl p Hp)), (nth_param _ _ j (po_lg p Hp)), (nth_param _ _ j (po_tw p Hp)) by lia.
    cbn [rbind]. fold (hl p j) (lg p j) (tw p j). rewrite (fh_init_ok (hl p j) (lg p j)) by lia. cbn [rbind origLength folded].
    rewrite upd_Ok by (destruct H; lia). cbn [rbind]. rewrite (fh_init_ok _ (tw p j)) by lia. cbn [rbind].
    rewrite upd_Ok by (destruct H0; lia). cbn [rbind].
    rewrite (wrap_small 32), swrap_small, fh_init_ok by (unfold in_u, in_s; lia). cbn [rbind].
    rewrite upd_Ok by (destruct H1; lia). cbn [rbind]. eexists. split; [done|]. split; [|done].
    split; [|split]; [apply (folds_set _ (hl p) (lg p))|apply (folds_set _ (hl p) (tw p))|
      apply (folds_set _ (hl p) (fun i => tw p i - 1))]; done || lia.
  - exists th. split; [done|]. destruct cap_bounds as (Hm & Hcap & _). cbn [globalHistory ptGhist gHist pathHist th0] in *.
    split; [|constructor..]. split; cbn [h_outs h_path]; [rewrite Hg, length_replicate; lia|lia|congruence| | |done].
    + rewrite Hg, Hpt. intros k Hk. rewrite lookup_replicate_2 by lia. unfold outcome. by destruct (Z.to_nat k).
    + eapply th_folds_done; [|done]. lia.
Qed.
End Invariant.
