(* ===== verification/Tage.v ===== *)
(** * The TAGE predictor

    [TAGEBase] ([cpu/pred/tage_base.cc]) as [TAGE] ([cpu/pred/tage.cc]) drives it:
    the bimodal table, the tagged tables, the choice of the provider, and the
    update at commit, on top of the histories of [TageHist.v].  The virtual
    functions are those of the base class.  A random number is an argument. *)

From Stdlib Require Import ZArith Lia Bool.
From stdpp Require Import base tactics option list numbers sorting.
From S2P Require Import Prelude TageHist.
Open Scope Z_scope.

(** ** Definitions *)

Record TageEntry := mkTageEntry { ctr : Z; tag : Z; u : Z }.

(** [gtable[0]] is never allocated; the last two arrays are scratch space
    allocated without a value. *)
Record Tage := mkTage {
  btablePrediction : list bool;
  btableHysteresis : list bool;
  gtable : list (list TageEntry);
  threadHistory : list ThreadHistory;
  useAltPredForNewlyAllocated : list Z;
  tCounter : Z;
  tableIndices : list (option Z);
  tableTags : list (option Z)
}.

(** Field updates. *)
Definition set_threadHistory (l : list ThreadHistory) (s : Tage) : Tage :=
  mkTage (btablePrediction s) (btableHysteresis s) (gtable s) l (useAltPredForNewlyAllocated s) (tCounter s)
    (tableIndices s) (tableTags s).

Definition set_gtable (l : list (list TageEntry)) (s : Tage) : Tage :=
  mkTage (btablePrediction s) (btableHysteresis s) l (threadHistory s) (useAltPredForNewlyAllocated s) (tCounter s)
    (tableIndices s) (tableTags s).

Definition set_scratch (idxs tgs : list (option Z)) (s : Tage) : Tage :=
  mkTage (btablePrediction s) (btableHysteresis s) (gtable s) (threadHistory s) (useAltPredForNewlyAllocated s) (tCounter s)
    idxs tgs.

(** [gtable[i][k]]. *)
Definition get_entry (g : list (list TageEntry)) (i k : Z) : res TageEntry :=
  let! t := get_ g i in get_ t k.

(** [gtable[i][k] = e]. *)
Definition set_entry (g : list (list TageEntry)) (i k : Z) (e : TageEntry) : res (list (list TageEntry)) :=
  let! t := get_ g i in let! t := set_ t k e in set_ g i t.

Section Operations.
Context (p : TageParams).

Definition buildTageTables : res (list (list TageEntry)) :=
  for_ (nHistoryTables p) 1 (fun i g =>
    let! l := nth_ (logTagTableSizes p) i in
    let! n := shl_ 32 1 l in
    upd_ g i (replicate (Z.to_nat n) (mkTageEntry 0 0 0))) (replicate (S (nHistoryTables p)) []).

(** The constructor, which enables all tables when [noSkip] is empty, has run.
    Each of the [numThreads] histories is set up the same. *)
Definition init (numThreads : nat) : res Tage :=
  check! ((tagTableUBits p <=? 2) && (0 <? tagTableUBits p));
  check! (pathHistBits p <=? 32);
  check! (negb (logUResetPeriod p =? 0));
  check! ((maxHist p *[32] 2) <? histBufferSize p);
  check! (length (tagTableTagWidths p) =? S (nHistoryTables p))%nat;
  check! (length (logTagTableSizes p) =? S (nHistoryTables p))%nat;
  let! w0 := nth_ (tagTableTagWidths p) 0 in
  check! (w0 =? 0);
  let! ths := for_ numThreads 0 (fun _ ths => let! th := init_history p in Ok (ths ++ [th])) [] in
  let! l0 := nth_ (logTagTableSizes p) 0 in
  let! bimodalTableSize := shl_ 64 1 l0 in
  let! hysts := shr_ 64 bimodalTableSize (logRatioBiModalHystEntries p) in
  let! g := buildTageTables in
  let scratch := replicate (S (nHistoryTables p)) None in
  Ok (mkTage (replicate (Z.to_nat bimodalTableSize) false) (replicate (Z.to_nat hysts) true) g ths
        (replicate (numUseAltOnNa p) 0) (initialTCounterValue p) scratch scratch).

Definition bindex (pc_in : Z) : res Z :=
  let! x := shr_ 64 pc_in (instShiftAmt p) in
  let! l := nth_ (logTagTableSizes p) 0 in
  let! m := mask_ l in
  Ok (swrap 32 (Z.land x m)).

(** [int] shifts. *)
Definition F (A size : Z) (bank : nat) : res Z :=
  let! l := nth_ (logTagTableSizes p) bank in
  let! ms := mask_ size in
  let A := swrap 32 (Z.land A ms) in
  let! m := mask_ l in
  let A1 := swrap 32 (Z.land A m) in
  let! A2 := shr_ 32 A l in
  let! up := shl_ 32 A2 (Z.of_nat bank) in
  let! down := shr_ 32 A2 (l - Z.of_nat bank) in
  let A2 := swrap 32 (Z.land (swrap 32 up) m + down) in
  let A := Z.lxor A1 A2 in
  let! up := shl_ 32 A (Z.of_nat bank) in
  let! down := shr_ 32 A (l - Z.of_nat bank) in
  Ok (swrap 32 (Z.land (swrap 32 up) m + down)).

Definition gindex (th : ThreadHistory) (pc : Z) (bank : nat) : res Z :=
  let! h := nth_ (histLengths p) bank in
  let hlen := if pathHistBits p <? wrap 32 h then pathHistBits p else h in
  let! x := shr_ 64 pc (instShiftAmt p) in
  let shiftedPc := wrap 32 x in
  let! l := nth_ (logTagTableSizes p) bank in
  let! y := shr_ 32 shiftedPc (Z.abs (l - Z.of_nat bank) + 1) in
  let! f := nth_ (computeIndices th) bank in
  let! z := F (pathHist th) hlen bank in
  let index := swrap 32 (Z.lxor (Z.lxor (Z.lxor shiftedPc y) (comp f)) (wrap 32 z)) in
  let! m := mask_ l in
  Ok (swrap 32 (Z.land index m)).

Definition gtag (th : ThreadHistory) (pc : Z) (bank : nat) : res Z :=
  let! x := shr_ 64 pc (instShiftAmt p) in
  let! f0 := nth_ (computeTags0 th) bank in
  let! f1 := nth_ (computeTags1 th) bank in
  let tag := swrap 32 (Z.lxor (Z.lxor x (comp f0)) (comp f1 <<[32] 1)) in
  let! w := nth_ (tagTableTagWidths p) bank in
  let! m := mask_ w in
  Ok (wrap 16 (Z.land tag m)).

(** [ctrUpdate<int8_t>]. *)
Definition ctrUpdate (c : Z) (taken : bool) (nbits : Z) : res Z :=
  check! (nbits <=? 8);
  let! half := shl_ 32 1 (nbits - 1) in
  if taken then Ok (if c <? half - 1 then swrap 8 (c + 1) else c)
  else Ok (if - half <? c then swrap 8 (c - 1) else c).

Definition unsignedCtrUpdate (c : Z) (up : bool) (nbits : Z) : res Z :=
  check! (nbits <=? 8);
  if up then let! lim := shl_ 32 1 nbits in Ok (if c <? lim - 1 then c +[8] 1 else c)
  else Ok (if negb (c =? 0) then c -[8] 1 else c).

Definition getBimodePred (s : Tage) (index : Z) : res bool := get_ (btablePrediction s) index.

Definition baseUpdate (taken : bool) (bi : BranchInfo) (s : Tage) : res Tage :=
  let! pr := get_ (btablePrediction s) (bimodalIndex bi) in
  let! hi := shr_ 32 (bimodalIndex bi) (logRatioBiModalHystEntries p) in
  let! hy := get_ (btableHysteresis s) hi in
  let inter := Z.shiftl (Z.b2z pr) 1 + Z.b2z hy in
  let inter :=
    if taken then if inter <? 3 then inter + 1 else inter
    else if 0 <? inter then inter - 1 else inter in
  let pred := negb (Z.shiftr inter 1 =? 0) in
  let hyst := negb (Z.land inter 1 =? 0) in
  let! prs := set_ (btablePrediction s) (bimodalIndex bi) pred in
  let! hys := set_ (btableHysteresis s) hi hyst in
  Ok (mkTage prs hys (gtable s) (threadHistory s) (useAltPredForNewlyAllocated s) (tCounter s) (tableIndices s) (tableTags s)).

(** The loop fills the predictor's arrays and the record's. *)
Definition calculateIndicesAndTags (th : ThreadHistory) (branch_pc : Z) (arrays : list (option Z) * list (option Z) * list (option Z) * list (option Z)) :
    res (list (option Z) * list (option Z) * list (option Z) * list (option Z)) :=
  for_ (nHistoryTables p) 1 (fun i '(sis, sts, bis, bts) =>
    let! x := gindex th branch_pc i in
    let! sis := upd_ sis i (Some x) in
    let! bis := upd_ bis i (Some x) in
    let! t := gtag th branch_pc i in
    let! sts := upd_ sts i (Some t) in
    let! bts := upd_ bts i (Some t) in
    Ok (sis, sts, bis, bts)) arrays.

Definition getUseAltIdx : nat := 0.

(** [noSkip[i] && gtable[i][tableIndices[i]].tag == tableTags[i]]. *)
Definition matches (s : Tage) (i : nat) : res bool :=
  let! on := nth_ (noSkip p) i in
  if on then
    let! x := read_ (tableIndices s) i in
    let! e := get_entry (gtable s) (Z.of_nat i) x in
    let! t := read_ (tableTags s) i in
    Ok (tag e =? t)
  else Ok false.

(** The loops that look for a bank from [i] downwards, 0 when there is none. *)
Fixpoint find_bank (s : Tage) (i : nat) : res nat :=
  match i with
  | O => Ok O
  | S i' => let! m := matches s i in if m then Ok i else find_bank s i'
  end.

(** [bi->xBankIndex = tableIndices[bank]] when a bank was found. *)
Definition bank_index (s : Tage) (bank : nat) (old : Z) : res Z :=
  match bank with O => Ok old | S _ => read_ (tableIndices s) bank end.

Definition counter_of (s : Tage) (bank : nat) (index : Z) : res Z :=
  let! e := get_entry (gtable s) (Z.of_nat bank) index in Ok (ctr e).

(** [bi->altTaken] when a bank hits. *)
Definition alt_prediction (s : Tage) (alt : nat) (bimodal_index : Z) : res bool :=
  if (0 <? alt)%nat then
    let! x := read_ (tableIndices s) alt in let! c := counter_of s alt x in Ok (0 <=? c)
  else getBimodePred s bimodal_index.

(** The prediction, the alternate one, that of the longest match, whether its
    entry looks new, and the provider. *)
Definition choose_provider (s : Tage) (hit : nat) (hitIndex : Z) (alt : nat) (bimodal_index : Z) (pseudo0 : bool) :
    res (bool * bool * bool * bool * Provider) :=
  if (0 <? hit)%nat then
    let! altt := alt_prediction s alt bimodal_index in
    let! x := read_ (tableIndices s) hit in
    let! c := counter_of s hit x in
    let longest := 0 <=? c in
    let! c := counter_of s hit hitIndex in
    let pseudo := Z.abs (2 * c + 1) <=? 1 in
    let! ua := nth_ (useAltPredForNewlyAllocated s) getUseAltIdx in
    if (ua <? 0) || negb pseudo then Ok (longest, altt, longest, pseudo, TAGE_LONGEST_MATCH)
    else Ok (altt, altt, longest, pseudo, if (0 <? alt)%nat then TAGE_ALT_MATCH else BIMODAL_ALT_MATCH)
  else
    let! altt := getBimodePred s bimodal_index in
    Ok (altt, altt, altt, pseudo0, BIMODAL_ONLY).

Definition tagePredict (tid : nat) (branch_pc : Z) (cond_branch : bool) (bi : BranchInfo) (s : Tage) :
    res (bool * BranchInfo * Tage) :=
  if negb cond_branch then
    Ok (true, mkBranchInfo (bi_pathHist bi) (bi_ptGhist bi) (hitBank bi) (hitBankIndex bi) (altBank bi) (altBankIndex bi)
          (bimodalIndex bi) (tagePred bi) (altTaken bi) false (longestMatchPred bi) (pseudoNewAlloc bi) branch_pc
          (bi_tableIndices bi) (bi_tableTags bi) (ci bi) (ct0 bi) (ct1 bi) (provider bi), s)
  else
  let! th := nth_ (threadHistory s) tid in
  let! (sis, sts, bis, bts) :=
    calculateIndicesAndTags th branch_pc (tableIndices s, tableTags s, bi_tableIndices bi, bi_tableTags bi) in
  let s := set_scratch sis sts s in
  let! bindx := bindex branch_pc in
  let! hit := find_bank s (nHistoryTables p) in
  let! hitx := bank_index s hit (hitBankIndex bi) in
  let! alt := find_bank s (pred hit) in
  let! altx := bank_index s alt (altBankIndex bi) in
  let! (tagep, altt, longest, pseudo, prov) :=
    choose_provider s hit hitx alt bindx (pseudoNewAlloc bi) in
  Ok (tagep, mkBranchInfo (bi_pathHist bi) (bi_ptGhist bi) (Z.of_nat hit) hitx (Z.of_nat alt) altx
        bindx tagep altt true longest pseudo branch_pc
        bis bts (ci bi) (ct0 bi) (ct1 bi) prov, s).

Definition resetUctr (e : TageEntry) : TageEntry := mkTageEntry (ctr e) (tag e) (Z.shiftr (u e) 1).

(** [gtable[i][j].u = v] and the like: one entry changed by [f]. *)
Definition modify_entry (f : TageEntry -> res TageEntry) (i k : Z) (g : list (list TageEntry)) : res (list (list TageEntry)) :=
  let! e := get_entry g i k in let! e := f e in set_entry g i k e.

Definition handleUReset (s : Tage) : res Tage :=
  let! m := mask_ (logUResetPeriod p) in
  if Z.land (tCounter s) m =? 0 then
    let! g := for_ (nHistoryTables p) 1 (fun i g =>
      let! l := nth_ (logTagTableSizes p) i in
      let! n := shl_ 64 1 l in
      for_ (Z.to_nat n) 0 (fun j g => modify_entry (fun e => Ok (resetUctr e)) (Z.of_nat i) (Z.of_nat j) g) g) (gtable s) in
    Ok (set_gtable g s)
  else Ok s.

(** The loop for [min], from [i] downwards. *)
Fixpoint min_u (bi : BranchInfo) (g : list (list TageEntry)) (i : nat) (min : Z) : res Z :=
  match i with
  | O => Ok min
  | S i' =>
      if Z.of_nat i <=? hitBank bi then Ok min else
      let! x := read_ (bi_tableIndices bi) i in
      let! e := get_entry g (Z.of_nat i) x in
      min_u bi g i' (if u e <? min then u e else min)
  end.

(** The loop that allocates: [n] tables from table [i] on. *)
Fixpoint allocate (taken : bool) (bi : BranchInfo) (n i : nat) (numAllocated : Z) (g : list (list TageEntry)) :
    res (list (list TageEntry)) :=
  match n with
  | O => Ok g
  | S n' =>
      let! x := read_ (bi_tableIndices bi) i in
      let! e := get_entry g (Z.of_nat i) x in
      if u e =? 0 then
        let! t := read_ (bi_tableTags bi) i in
        let! g := set_entry g (Z.of_nat i) x (mkTageEntry (if taken then 0 else -1) (wrap 16 t) (u e)) in
        let numAllocated := numAllocated +[32] 1 in
        if numAllocated =? maxNumAlloc p then Ok g else allocate taken bi n' (S i) numAllocated g
      else allocate taken bi n' (S i) numAllocated g
  end.

(** [X]: one of the three banks above the provider. *)
Definition first_bank (bi : BranchInfo) (nrand : Z) : res Z :=
  let! m := mask_ (Z.of_nat (nHistoryTables p) -[32] hitBank bi -[32] 1) in
  let Y := swrap 32 (Z.land nrand m) in
  let X := hitBank bi + 1 in
  Ok (if Z.testbit Y 0 then let X := X + 1 in if Z.testbit Y 1 then X + 1 else X else X).

Definition handleAllocAndUReset (alloc taken : bool) (bi : BranchInfo) (nrand : Z) (s : Tage) : res Tage :=
  let! g :=
    if alloc then
      let! min := min_u bi (gtable s) (nHistoryTables p) 1 in
      let! X := first_bank bi nrand in
      let! g := if 0 <? min then
          let! x := read_ (bi_tableIndices bi) (Z.to_nat X) in
          modify_entry (fun e => Ok (mkTageEntry (ctr e) (tag e) 0)) X x (gtable s)
        else Ok (gtable s) in
      allocate taken bi (S (nHistoryTables p) - Z.to_nat X) (Z.to_nat X) 0 g
    else Ok (gtable s) in
  handleUReset (mkTage (btablePrediction s) (btableHysteresis s) g (threadHistory s) (useAltPredForNewlyAllocated s)
    (swrap 64 (tCounter s + 1)) (tableIndices s) (tableTags s)).

Definition handleTAGEUpdate (taken : bool) (bi : BranchInfo) (s : Tage) : res Tage :=
  if 0 <? hitBank bi then
    let train e := let! c := ctrUpdate (ctr e) taken (tagTableCounterBits p) in Ok (mkTageEntry c (tag e) (u e)) in
    let! g := modify_entry train (hitBank bi) (hitBankIndex bi) (gtable s) in
    let s := set_gtable g s in
    let! e := get_entry (gtable s) (hitBank bi) (hitBankIndex bi) in
    let! s := if u e =? 0 then
        let! s := if 0 <? altBank bi then
            let! g := modify_entry train (altBank bi) (altBankIndex bi) (gtable s) in Ok (set_gtable g s)
          else Ok s in
        if altBank bi =? 0 then baseUpdate taken bi s else Ok s
      else Ok s in
    if xorb (tagePred bi) (altTaken bi) then
      let! g := modify_entry (fun e => let! v := unsignedCtrUpdate (u e) (eqb (tagePred bi) taken) (tagTableUBits p) in
          Ok (mkTageEntry (ctr e) (tag e) v)) (hitBank bi) (hitBankIndex bi) (gtable s) in
      Ok (set_gtable g s)
    else Ok s
  else baseUpdate taken bi s.

(** [adjustAlloc] of the base class does nothing. *)
Definition condBranchUpdate (taken : bool) (bi : BranchInfo) (nrand : Z) (s : Tage) : res Tage :=
  let alloc := xorb (tagePred bi) taken && (hitBank bi <? Z.of_nat (nHistoryTables p)) in
  let! (alloc, uas) :=
    if (0 <? hitBank bi) && pseudoNewAlloc bi then
      let alloc := if eqb (longestMatchPred bi) taken then false else alloc in
      let! uas := if xorb (longestMatchPred bi) (altTaken bi) then
          let! ua := nth_ (useAltPredForNewlyAllocated s) getUseAltIdx in
          let! ua := ctrUpdate ua (eqb (altTaken bi) taken) (useAltOnNaBits p) in
          upd_ (useAltPredForNewlyAllocated s) getUseAltIdx ua
        else Ok (useAltPredForNewlyAllocated s) in
      Ok (alloc, uas)
    else Ok (alloc, useAltPredForNewlyAllocated s) in
  let s := mkTage (btablePrediction s) (btableHysteresis s) (gtable s) (threadHistory s) uas (tCounter s) (tableIndices s) (tableTags s) in
  let! s := handleAllocAndUReset alloc taken bi nrand s in
  handleTAGEUpdate taken bi s.

(** An operation on the histories of thread [tid]. *)
Definition on_thread {A} (tid : nat) (f : ThreadHistory -> res (A * ThreadHistory)) (s : Tage) : res (A * Tage) :=
  let! th := nth_ (threadHistory s) tid in
  let! (a, th) := f th in
  let! ths := upd_ (threadHistory s) tid th in
  Ok (a, set_threadHistory ths s).

(** ** The predictor of the branch prediction unit ([cpu/pred/tage.cc])

    [bp_history] is an [option BranchInfo]. *)

Definition predict (tid : nat) (pc : Z) (cond_branch : bool) (s : Tage) : res (bool * option BranchInfo * Tage) :=
  let! (b, bi, s) := tagePredict tid pc cond_branch (makeBranchInfo p) s in Ok (b, Some bi, s).

Definition lookup (tid : nat) (pc : Z) (s : Tage) : res (bool * option BranchInfo * Tage) := predict tid pc true s.

Definition updateHistories (tid : nat) (pc : Z) (uncond taken : bool) (bp_history : option BranchInfo) (s : Tage) :
    res (option BranchInfo * Tage) :=
  check! (uncond || bool_decide (is_Some bp_history));
  let! (bp_history, s) := if uncond then let! (_, h, s) := predict tid pc false s in Ok (h, s) else Ok (bp_history, s) in
  let! bi := deref bp_history in
  let! (bi, s) := on_thread tid (TageHist.updateHistories p pc taken bi true) s in
  Ok (Some bi, s).

(** [rand] is [random_mt.random<int>()]. *)
Definition update (tid : nat) (pc : Z) (taken : bool) (bp_history : option BranchInfo) (squashed : bool) (rand : Z) (s : Tage) :
    res (option BranchInfo * Tage) :=
  check! (bool_decide (is_Some bp_history));
  let! bi := deref bp_history in
  if squashed then
    let! (_, s) := on_thread tid (fun th => let! th := squash_history p taken bi th in Ok (tt, th)) s in
    Ok (bp_history, s)
  else
    let nrand := Z.land rand 3 in
    let! s := if condBranch bi then condBranchUpdate taken bi nrand s else Ok s in
    let! (_, s) := on_thread tid (TageHist.updateHistories p pc taken bi false) s in
    Ok (None, s).

Definition squash (tid : nat) (bp_history : option BranchInfo) (s : Tage) : res (option BranchInfo * Tage) :=
  let! bi := deref bp_history in Ok (None, s).
End Operations.

(** ** The invariant of the tables *)

Section Invariant.
Context (p : TageParams).

Definition entry_ok (e : TageEntry) : Prop :=
  - 2 ^ (tagTableCounterBits p - 1) <= ctr e < 2 ^ (tagTableCounterBits p - 1) /\ in_u 16 (tag e) /\
  0 <= u e < 2 ^ tagTableUBits p.

Definition gtable_ok (g : list (list TageEntry)) : Prop :=
  length g = S (nHistoryTables p) /\
  forall i, (1 <= i <= nHistoryTables p)%nat ->
    exists t, g !! i = Some t /\ Z.of_nat (length t) = 2 ^ lg p i /\ Forall entry_ok t.

Definition useAlt_ok (l : list Z) : Prop :=
  length l = numUseAltOnNa p /\ Forall (fun c => - 2 ^ (useAltOnNaBits p - 1) <= c < 2 ^ (useAltOnNaBits p - 1)) l.

Record tage_ok (s : Tage) : Prop := {
  go_pred : Z.of_nat (length (btablePrediction s)) = 2 ^ lg p 0;
  go_hyst : Z.of_nat (length (btableHysteresis s)) = 2 ^ (lg p 0 - logRatioBiModalHystEntries p);
  go_gtable : gtable_ok (gtable s);
  go_useAlt : useAlt_ok (useAltPredForNewlyAllocated s);
  go_indices : length (tableIndices s) = S (nHistoryTables p);
  go_tags : length (tableTags s) = S (nHistoryTables p)
}.

(** The index of every table, within it. *)
Definition indices_ok (l : list (option Z)) : Prop :=
  forall i, (1 <= i <= nHistoryTables p)%nat -> exists x, l !! i = Some (Some x) /\ 0 <= x < 2 ^ lg p i.

Definition tags_ok (l : list (option Z)) : Prop :=
  forall i, (1 <= i <= nHistoryTables p)%nat -> exists t, l !! i = Some (Some t) /\ in_u 16 t.

(** What a conditional branch left in its record. *)
Record bi_tables_ok (bi : BranchInfo) : Prop := {
  bo_indices : indices_ok (bi_tableIndices bi);
  bo_tags : tags_ok (bi_tableTags bi);
  bo_bimodal : 0 <= bimodalIndex bi < 2 ^ lg p 0;
  bo_hit : 0 <= hitBank bi <= Z.of_nat (nHistoryTables p);
  bo_hitIndex : 0 < hitBank bi -> 0 <= hitBankIndex bi < 2 ^ lg p (Z.to_nat (hitBank bi));
  bo_alt : 0 <= altBank bi <= Z.of_nat (nHistoryTables p);
  bo_altIndex : 0 < altBank bi -> 0 <= altBankIndex bi < 2 ^ lg p (Z.to_nat (altBank bi))
}.

Definition bi_ok (bi : BranchInfo) : Prop := condBranch bi = true -> bi_tables_ok bi.

Context (Hp : params_ok p).

(** ** Entries *)

Lemma get_entry_ok g i k : gtable_ok g -> 1 <= i <= Z.of_nat (nHistoryTables p) -> 0 <= k < 2 ^ lg p (Z.to_nat i) ->
  exists e, get_entry g i k = Ok e /\ entry_ok e.
Proof.
  intros [_ Hg] Hi Hk. destruct (Hg (Z.to_nat i) ltac:(lia)) as (t & Ht & Hl & HF). unfold get_entry.
  rewrite (get_Ok g i t) by (done || lia). cbn [rbind]. destruct (lookup_lt_is_Some_2 t (Z.to_nat k)) as [e He]; [lia|].
  exists e. split; [apply get_Ok; [lia|done]|]. by eapply Forall_lookup_1.
Qed.

Lemma set_entry_ok g i k e : gtable_ok g -> 1 <= i <= Z.of_nat (nHistoryTables p) -> 0 <= k < 2 ^ lg p (Z.to_nat i) ->
  entry_ok e -> exists g', set_entry g i k e = Ok g' /\ gtable_ok g' /\ get_entry g' i k = Ok e.
Proof.
  intros [Hlg Hg] Hi Hk He. destruct (Hg (Z.to_nat i) ltac:(lia)) as (t & Ht & Hl & HF). unfold set_entry, get_entry.
  rewrite (get_Ok g i t) by (done || lia). cbn [rbind]. rewrite set_Ok by lia. cbn [rbind]. rewrite set_Ok by lia.
  eexists. split; [done|]. split.
  - split; [by rewrite length_insert|]. intros j Hj. destruct (decide (j = Z.to_nat i)) as [->|Hne].
    + eexists. rewrite list_lookup_insert_eq by lia. split; [done|]. rewrite length_insert. split; [done|]. by apply Forall_insert.
    + rewrite list_lookup_insert_ne by done. auto.
  - erewrite get_Ok; [|lia|apply list_lookup_insert_eq; lia]. cbn [rbind]. apply get_Ok; [lia|]. apply list_lookup_insert_eq. lia.
Qed.

Lemma modify_entry_ok f g i k : gtable_ok g -> 1 <= i <= Z.of_nat (nHistoryTables p) -> 0 <= k < 2 ^ lg p (Z.to_nat i) ->
  (forall e, entry_ok e -> exists e', f e = Ok e' /\ entry_ok e') ->
  exists g', modify_entry f i k g = Ok g' /\ gtable_ok g'.
Proof.
  intros Hg Hi Hk Hf. unfold modify_entry. destruct (get_entry_ok g i k Hg Hi Hk) as (e & -> & He). cbn [rbind].
  destruct (Hf e He) as (e' & -> & He'). cbn [rbind]. destruct (set_entry_ok g i k e' Hg Hi Hk He') as (g' & -> & Hg' & _). eauto.
Qed.

Lemma ctrUpdate_ok c taken n : 1 <= n <= 8 -> - 2 ^ (n - 1) <= c < 2 ^ (n - 1) ->
  exists c', ctrUpdate c taken n = Ok c' /\ - 2 ^ (n - 1) <= c' < 2 ^ (n - 1).
Proof.
  intros Hn Hc. unfold ctrUpdate. destruct (Z.leb_spec n 8); [|lia]. cbn [assert_ rbind]. rewrite shl_Ok by lia. cbn [rbind].
  assert (Hb : 0 < 2 ^ (n - 1) <= 2 ^ 7) by (split; [lia|apply Z.pow_le_mono_r; lia]).
  rewrite Z.shiftl_1_l, wrap_small by (unfold in_u; lia).
  destruct taken; case_cmp; eexists; (split; [done|]); try lia; rewrite swrap_small by (unfold in_s; lia); lia.
Qed.

Lemma unsignedCtrUpdate_ok c up n : 1 <= n <= 2 -> 0 <= c < 2 ^ n ->
  exists c', unsignedCtrUpdate c up n = Ok c' /\ 0 <= c' < 2 ^ n.
Proof.
  intros Hn Hc. unfold unsignedCtrUpdate. destruct (Z.leb_spec n 8); [|lia]. cbn [assert_ rbind].
  assert (Hb : 0 < 2 ^ n <= 2 ^ 2) by (split; [lia|apply Z.pow_le_mono_r; lia]).
  destruct up; [rewrite shl_Ok by lia; cbn [rbind]; rewrite Z.shiftl_1_l, wrap_small by (unfold in_u; lia)|];
    case_cmp; eexists; (split; [done|]); try lia; cbn [negb]; try rewrite wrap_small by (unfold in_u; lia); lia.
Qed.

(** ** Indices and tags *)

Lemma land_mask_index x k : 0 <= k < 31 -> 0 <= swrap 32 (Z.land x (Z.ones k)) < 2 ^ k.
Proof.
  intros Hk. assert (2 ^ k <= 2 ^ 30) by (apply Z.pow_le_mono_r; lia). assert (0 < 2 ^ k) by lia.
  rewrite Z.land_ones by lia. pose proof (Z.mod_pos_bound x (2 ^ k) ltac:(lia)). rewrite swrap_small by (unfold in_s; lia). lia.
Qed.

Lemma bindex_ok pc : exists x, bindex p pc = Ok x /\ 0 <= x < 2 ^ lg p 0.
Proof.
  unfold bindex. rewrite shr_Ok by apply (po_shift p Hp). cbn [rbind]. rewrite (nth_param _ _ 0 (po_lg p Hp)) by lia. cbn [rbind].
  fold (lg p 0). pose proof (po_bimodal p Hp). rewrite mask_Ok by lia. eexists. split; [done|]. apply land_mask_index. lia.
Qed.

Lemma F_ok A size i : (1 <= i <= nHistoryTables p)%nat -> 0 <= size < 64 -> exists z, F p A size i = Ok z.
Proof.
  intros Hi Hs. destruct (bank_bounds p Hp i Hi) as (_ & Hl & Hil & _). unfold F.
  rewrite (nth_param _ _ i (po_lg p Hp)) by lia. cbn [rbind]. fold (lg p i).
  rewrite !mask_Ok by lia. cbn [rbind].
  do 5 (((rewrite shl_Ok by lia) || (rewrite shr_Ok by lia)); cbn [rbind]). eauto.
Qed.

Lemma gindex_ok outs path th pc i : th_ok p outs path th -> (1 <= i <= nHistoryTables p)%nat ->
  exists x, gindex p th pc i = Ok x /\ 0 <= x < 2 ^ lg p i.
Proof.
  intros Hth Hi. destruct (bank_bounds p Hp i Hi) as (Hh & Hl & Hil & _). pose proof (po_path p Hp) as Hph.
  pose proof (po_buffer p Hp) as Hb. unfold gindex.
  rewrite (nth_param _ _ i (po_hl p Hp)), (nth_param _ _ i (po_lg p Hp)) by lia. cbn [rbind]. fold (hl p i) (lg p i).
  rewrite shr_Ok by apply (po_shift p Hp). cbn [rbind]. rewrite shr_Ok by lia. cbn [rbind].
  destruct (to_folds _ _ _ _ Hth) as ((_ & Hf) & _). destruct (Hf i Hi) as (f & Hfi & _).
  rewrite (nth_lookup _ _ _ Hfi). cbn [rbind]. rewrite (wrap_small 32 (hl p i)) by (unfold in_u; lia).
  edestruct (F_ok (pathHist th) (if pathHistBits p <? hl p i then pathHistBits p else hl p i) i Hi) as (z & ->); [case_cmp; lia|].
  cbn [rbind]. rewrite mask_Ok by lia. eexists. split; [done|]. apply land_mask_index. lia.
Qed.

Lemma gtag_ok outs path th pc i : th_ok p outs path th -> (1 <= i <= nHistoryTables p)%nat ->
  exists t, gtag p th pc i = Ok t /\ in_u 16 t.
Proof.
  intros Hth Hi. destruct (bank_bounds p Hp i Hi) as (_ & _ & _ & Ht). unfold gtag.
  rewrite shr_Ok by apply (po_shift p Hp). cbn [rbind].
  destruct (to_folds _ _ _ _ Hth) as (_ & (_ & Hf0) & (_ & Hf1)). destruct (Hf0 i Hi) as (f0 & H0 & _). destruct (Hf1 i Hi) as (f1 & H1 & _).
  rewrite (nth_lookup _ _ _ H0), (nth_lookup _ _ _ H1), (nth_param _ _ i (po_tw p Hp)) by lia. cbn [rbind]. fold (tw p i).
  rewrite mask_Ok by lia. eexists. split; [done|]. by apply wrap_range.
Qed.

(** Entries 1 to [j - 1] of an array are the values of [f]. *)
Definition filled (f : nat -> res Z) (j : nat) (l : list (option Z)) : Prop :=
  length l = S (nHistoryTables p) /\ forall i, (1 <= i < j)%nat -> exists x, l !! i = Some (Some x) /\ f i = Ok x.

Lemma filled_set f j l x : (1 <= j <= nHistoryTables p)%nat -> filled f j l -> f j = Ok x ->
  upd_ l j (Some x) = Ok (<[j := Some x]> l) /\ filled f (S j) (<[j := Some x]> l).
Proof.
  intros Hj [Hl H] Hx. split; [apply upd_Ok; lia|]. split; [by rewrite length_insert|]. intros i Hi.
  destruct (decide (i = j)) as [->|Hne]; [exists x; by rewrite list_lookup_insert_eq by lia|].
  rewrite list_lookup_insert_ne by done. apply H. lia.
Qed.

Lemma filled_read f l i : (1 <= i <= nHistoryTables p)%nat -> filled f (S (nHistoryTables p)) l ->
  exists x, read_ l i = Ok x /\ f i = Ok x.
Proof.
  intros Hi [_ H]. destruct (H i ltac:(lia)) as (x & Hx & Hf). exists x. unfold read_. by rewrite (nth_lookup _ _ _ Hx).
Qed.

Lemma calculate_ok outs path th pc sis sts bis bts : th_ok p outs path th ->
  length sis = S (nHistoryTables p) -> length sts = S (nHistoryTables p) ->
  length bis = S (nHistoryTables p) -> length bts = S (nHistoryTables p) ->
  exists sis' sts' bis' bts', calculateIndicesAndTags p th pc (sis, sts, bis, bts) = Ok (sis', sts', bis', bts') /\
    filled (gindex p th pc) (S (nHistoryTables p)) sis' /\ filled (gtag p th pc) (S (nHistoryTables p)) sts' /\
    filled (gindex p th pc) (S (nHistoryTables p)) bis' /\ filled (gtag p th pc) (S (nHistoryTables p)) bts'.
Proof.
  intros Hth L1 L2 L3 L4. unfold calculateIndicesAndTags. set (body := fun (i : nat) '(_, _, _, _) => _).
  edestruct (for_inv (fun j '(a, b, c, d) => filled (gindex p th pc) j a /\ filled (gtag p th pc) j b /\
      filled (gindex p th pc) j c /\ filled (gtag p th pc) j d) body (nHistoryTables p) 1 (sis, sts, bis, bts))
    as ([[[a b] c] d] & -> & Ha & Hb & Hc & Hd).
  - assert (Hnew : forall f l, length l = S (nHistoryTables p) -> filled f 1 l) by (intros f l Hl; split; [done|lia]). auto.
  - intros j [[[a b] c] d] Hj (Ha & Hb & Hc & Hd). unfold body.
    destruct (gindex_ok _ _ _ pc j Hth ltac:(lia)) as (x & Hx & _). destruct (gtag_ok _ _ _ pc j Hth ltac:(lia)) as (t & Ht & _).
    rewrite Hx. cbn [rbind]. destruct (filled_set _ j _ _ ltac:(lia) Ha Hx) as [-> Ha']. destruct (filled_set _ j _ _ ltac:(lia) Hc Hx) as [-> Hc'].
    cbn [rbind]. rewrite Ht. cbn [rbind]. destruct (filled_set _ j _ _ ltac:(lia) Hb Ht) as [-> Hb']. destruct (filled_set _ j _ _ ltac:(lia) Hd Ht) as [-> Hd'].
    eexists. split; [done|]. done.
  - by eexists _, _, _, _.
Qed.

(** ** The prediction *)

(** Table [i] is enabled and its entry for the branch has the tag of the branch. *)
Definition hits (s : Tage) (th : ThreadHistory) (pc : Z) (i : nat) : Prop :=
  noSkip p !! i = Some true /\
  exists x t e, gindex p th pc i = Ok x /\ gtag p th pc i = Ok t /\ get_entry (gtable s) (Z.of_nat i) x = Ok e /\ tag e = t.

(** [k] is the last of [1 .. n] with [P], or 0. *)
Definition is_longest (P : nat -> Prop) (n k : nat) : Prop :=
  (k <= n)%nat /\ (forall j, (k < j <= n)%nat -> ~ P j) /\ ((0 < k)%nat -> P k).

(** What bank [i] predicts: the sign of the counter, or for 0 the bimodal table. *)
Definition direction (s : Tage) (th : ThreadHistory) (pc : Z) (i : nat) : res bool :=
  match i with
  | O => let! x := bindex p pc in get_ (btablePrediction s) x
  | S _ => let! x := gindex p th pc i in let! e := get_entry (gtable s) (Z.of_nat i) x in Ok (0 <=? ctr e)
  end.

(** The counter of bank [i] is one of the two next to the change of sign. *)
Definition weak (s : Tage) (th : ThreadHistory) (pc : Z) (i : nat) : res bool :=
  let! x := gindex p th pc i in let! e := get_entry (gtable s) (Z.of_nat i) x in
  Ok ((ctr e =? 0) || (ctr e =? -1)).

(** The bank that decides, given the longest match and the next one. *)
Definition deciding (s : Tage) (th : ThreadHistory) (pc : Z) (hit alt : nat) : res nat :=
  match hit with
  | O => Ok O
  | S _ =>
      let! w := weak s th pc hit in
      let! ua := nth_ (useAltPredForNewlyAllocated s) 0 in
      Ok (if w && (0 <=? ua) then alt else hit)
  end.

Section Find.
Context (s : Tage) (th : ThreadHistory) (pc : Z).
Context (Hidx : filled (gindex p th pc) (S (nHistoryTables p)) (tableIndices s)).
Context (Htag : filled (gtag p th pc) (S (nHistoryTables p)) (tableTags s)).
Context (outs : list bool) (path : Z) (Hth : th_ok p outs path th) (Hg : gtable_ok (gtable s)).

Lemma bank_entry i : (1 <= i <= nHistoryTables p)%nat -> exists x e, read_ (tableIndices s) i = Ok x /\
  gindex p th pc i = Ok x /\ 0 <= x < 2 ^ lg p i /\ get_entry (gtable s) (Z.of_nat i) x = Ok e.
Proof.
  intros Hi. destruct (filled_read _ _ i Hi Hidx) as (x & Hr & Hx). destruct (gindex_ok _ _ _ pc i Hth Hi) as (x' & Hx' & Hb).
  assert (x' = x) by congruence. subst x'. destruct (get_entry_ok (gtable s) (Z.of_nat i) x Hg) as (e & He & _); [lia|by rewrite Nat2Z.id|].
  by exists x, e.
Qed.

Lemma matches_ok i : (1 <= i <= nHistoryTables p)%nat -> exists m, matches p s i = Ok m /\ (m = true <-> hits s th pc i).
Proof.
  intros Hi. unfold matches, hits. destruct (nth_Ok (noSkip p) i) as (on & -> & Hon); [rewrite (po_noSkip p Hp); lia|]. cbn [rbind].
  destruct on; [|exists false; split; [done|]; split; [done|intros [? _]; congruence]].
  destruct (bank_entry i Hi) as (x & e & -> & Hx & _ & He). cbn [rbind]. rewrite He. cbn [rbind].
  destruct (filled_read _ _ i Hi Htag) as (t & -> & Ht). cbn [rbind]. eexists. split; [done|]. rewrite Z.eqb_eq. split.
  - intros Heq. split; [done|]. by exists x, t, e.
  - intros (_ & x' & t' & e' & Hx' & Ht' & He' & Heq). congruence.
Qed.

Lemma find_bank_ok i : (i <= nHistoryTables p)%nat -> exists k, find_bank p s i = Ok k /\ is_longest (hits s th pc) i k.
Proof.
  induction i as [|i IH]; intros Hi; cbn [find_bank].
  - exists O. split; [done|]. split; [lia|]. split; [lia|lia].
  - destruct (matches_ok (S i) ltac:(lia)) as ([|] & -> & Hm); cbn [rbind].
    + exists (S i). split; [done|]. split; [lia|]. split; [lia|]. intros _. by apply Hm.
    + destruct (IH ltac:(lia)) as (k & -> & Hk & Hno & Hyes). exists k. split; [done|]. split; [lia|]. split; [|done].
      intros j Hj. destruct (decide (j = S i)) as [->|Hne]; [|apply Hno; lia]. intros Hh. by apply Hm in Hh.
Qed.
End Find.

(** A bank that was found has its entry. *)
Lemma bank_index_ok s th pc i old : filled (gindex p th pc) (S (nHistoryTables p)) (tableIndices s) -> (i <= nHistoryTables p)%nat ->
  exists x, bank_index s i old = Ok x /\ ((0 < i)%nat -> read_ (tableIndices s) i = Ok x /\ gindex p th pc i = Ok x).
Proof.
  intros Hf Hi. destruct i as [|i]; cbn [bank_index]; [exists old; split; [done|lia]|].
  destruct (filled_read _ _ (S i) ltac:(lia) Hf) as (x & -> & Hx). by exists x.
Qed.

Lemma bimodal_ok s pc : tage_ok s -> exists x b, bindex p pc = Ok x /\ 0 <= x < 2 ^ lg p 0 /\ getBimodePred s x = Ok b.
Proof.
  intros Hs. destruct (bindex_ok pc) as (x & Hx & Hb). destruct (lookup_lt_is_Some_2 (btablePrediction s) (Z.to_nat x)) as [b Hl].
  { pose proof (go_pred s Hs). lia. }
  exists x, b. split; [done|]. split; [done|]. apply get_Ok; [lia|done].
Qed.

Lemma weak_abs c : (Z.abs (2 * c + 1) <=? 1) = ((c =? 0) || (c =? -1)).
Proof. case_cmp; simpl; lia. Qed.

Lemma useAlt_get s : tage_ok s -> exists ua, nth_ (useAltPredForNewlyAllocated s) 0 = Ok ua /\
  - 2 ^ (useAltOnNaBits p - 1) <= ua < 2 ^ (useAltOnNaBits p - 1).
Proof.
  intros Hs. destruct (go_useAlt s Hs) as [Hl HF]. destruct (nth_Ok (useAltPredForNewlyAllocated s) 0) as (ua & Hn & Hlk).
  { pose proof (po_useAlt p Hp). lia. }
  exists ua. split; [done|]. by apply (Forall_lookup_1 _ _ _ _ HF Hlk).
Qed.

(** The values [tagePredict] leaves when the longest match is [hit] and the next one [alt]. *)
Lemma predict_values s th pc hit alt bindx hitx bim pseudo0 outs path : tage_ok s -> th_ok p outs path th ->
  filled (gindex p th pc) (S (nHistoryTables p)) (tableIndices s) -> (hit <= nHistoryTables p)%nat -> (alt <= nHistoryTables p)%nat ->
  bindex p pc = Ok bindx -> getBimodePred s bindx = Ok bim -> ((0 < hit)%nat -> read_ (tableIndices s) hit = Ok hitx) ->
  exists tagep altt longest pseudo prov d,
    choose_provider s hit hitx alt bindx pseudo0 = Ok (tagep, altt, longest, pseudo, prov) /\
    deciding s th pc hit alt = Ok d /\ direction s th pc d = Ok tagep.
Proof.
  intros Hs Hth Hidx Hhit Halt Hbx Hbim Hhx. assert (Hdir0 : direction s th pc 0 = Ok bim) by (unfold direction; rewrite Hbx; exact Hbim).
  unfold choose_provider. destruct hit as [|hit]; cbn [Nat.ltb Nat.leb deciding]; [rewrite Hbim; eexists _, _, _, _, _, _; done|].
  assert (Haltt : exists altt, alt_prediction s alt bindx = Ok altt /\ direction s th pc alt = Ok altt).
  { unfold alt_prediction. destruct alt as [|alt]; cbn [Nat.ltb Nat.leb]; [by exists bim|].
    destruct (bank_entry s th pc Hidx outs path Hth (go_gtable s Hs) (S alt) ltac:(lia)) as (x & e & -> & Hx & _ & He).
    exists (0 <=? ctr e). cbn [rbind]. unfold counter_of, direction. rewrite Hx. cbn [rbind]. rewrite He. done. }
  destruct Haltt as (altt & -> & Haltd). cbn [rbind].
  destruct (bank_entry s th pc Hidx outs path Hth (go_gtable s Hs) (S hit) ltac:(lia)) as (x & e & Hr & Hx & _ & He).
  rewrite Hr. assert (hitx = x) by (specialize (Hhx ltac:(lia)); congruence). subst hitx. cbn [rbind]. unfold counter_of. rewrite He. cbn [rbind].
  unfold getUseAltIdx. destruct (useAlt_get s Hs) as (ua & Hua & _). rewrite Hua. cbn [rbind].
  unfold weak. rewrite Hx. cbn [rbind]. rewrite He. cbn [rbind]. rewrite weak_abs.
  assert (Hdir : direction s th pc (S hit) = Ok (0 <=? ctr e)) by (unfold direction; rewrite Hx; cbn [rbind]; by rewrite He).
  destruct ((ctr e =? 0) || (ctr e =? -1)), (Z.ltb_spec ua 0), (Z.leb_spec 0 ua); try lia; cbn [orb negb andb];
    eexists _, _, _, _, _, _; done.
Qed.

Lemma filled_indices outs path th pc l : th_ok p outs path th -> filled (gindex p th pc) (S (nHistoryTables p)) l -> indices_ok l.
Proof.
  intros Hth [_ H] i Hi. destruct (H i ltac:(lia)) as (x & Hx & Hg). destruct (gindex_ok _ _ _ pc i Hth Hi) as (x' & Hx' & Hb).
  exists x. split; [done|]. congruence.
Qed.

Lemma filled_tags outs path th pc l : th_ok p outs path th -> filled (gtag p th pc) (S (nHistoryTables p)) l -> tags_ok l.
Proof.
  intros Hth [_ H] i Hi. destruct (H i ltac:(lia)) as (x & Hx & Hg). destruct (gtag_ok _ _ _ pc i Hth Hi) as (x' & Hx' & Hb).
  exists x. split; [done|]. congruence.
Qed.

Lemma tage_ok_scratch s a b : tage_ok s -> length a = S (nHistoryTables p) -> length b = S (nHistoryTables p) ->
  tage_ok (set_scratch a b s).
Proof. intros [? ? ? ? ? ?] Ha Hb. by split. Qed.

(** What a lookup returns: [same_saved] are the fields it leaves to the histories. *)
Record predicted (s : Tage) (th : ThreadHistory) (pc : Z) (bi0 : BranchInfo) (b : bool) (bi : BranchInfo) : Prop := {
  pr_hit : is_longest (hits s th pc) (nHistoryTables p) (Z.to_nat (hitBank bi));
  pr_alt : is_longest (hits s th pc) (pred (Z.to_nat (hitBank bi))) (Z.to_nat (altBank bi));
  pr_dir : exists d, deciding s th pc (Z.to_nat (hitBank bi)) (Z.to_nat (altBank bi)) = Ok d /\ direction s th pc d = Ok b;
  pr_pred : tagePred bi = b;
  pr_cond : condBranch bi = true;
  pr_tables : bi_tables_ok bi;
  pr_indices : filled (gindex p th pc) (S (nHistoryTables p)) (bi_tableIndices bi);
  pr_tags : filled (gtag p th pc) (S (nHistoryTables p)) (bi_tableTags bi);
  pr_saved : ci bi = ci bi0 /\ ct0 bi = ct0 bi0 /\ ct1 bi = ct1 bi0
}.

Lemma tagePredict_ok tid pc bi s th outs path : tage_ok s -> threadHistory s !! tid = Some th -> th_ok p outs path th ->
  length (bi_tableIndices bi) = S (nHistoryTables p) -> length (bi_tableTags bi) = S (nHistoryTables p) ->
  exists b bi' is' ts', tagePredict p tid pc true bi s = Ok (b, bi', set_scratch is' ts' s) /\
    tage_ok (set_scratch is' ts' s) /\ predicted s th pc bi b bi'.
Proof.
  intros Hs Htid Hth L1 L2. unfold tagePredict. cbn [negb]. rewrite (nth_lookup _ _ _ Htid). cbn [rbind].
  destruct (calculate_ok _ _ _ pc _ _ _ _ Hth (go_indices s Hs) (go_tags s Hs) L1 L2) as (is' & ts' & bis & bts & -> & Hi & Ht & Hbi & Hbt).
  cbn [rbind]. set (s1 := set_scratch is' ts' s).
  assert (Hs1 : tage_ok s1) by (apply tage_ok_scratch; [done|apply Hi|apply Ht]).
  destruct (bimodal_ok s1 pc Hs1) as (bx & bim & Hbx & Hbb & Hbim). rewrite Hbx. cbn [rbind].
  destruct (find_bank_ok s1 th pc Hi Ht _ _ Hth (go_gtable s1 Hs1) (nHistoryTables p) ltac:(lia)) as (hit & -> & Hhit). cbn [rbind].
  assert (Hhn : (hit <= nHistoryTables p)%nat) by apply Hhit.
  destruct (bank_index_ok s1 th pc hit (hitBankIndex bi) Hi Hhn) as (hx & -> & Hhx). cbn [rbind].
  destruct (find_bank_ok s1 th pc Hi Ht _ _ Hth (go_gtable s1 Hs1) (pred hit) ltac:(lia)) as (alt & -> & Halt). cbn [rbind].
  assert (Han : (alt <= nHistoryTables p)%nat) by (destruct Halt; lia).
  destruct (bank_index_ok s1 th pc alt (altBankIndex bi) Hi Han) as (ax & -> & Hax). cbn [rbind].
  destruct (predict_values s1 th pc hit alt bx hx bim (pseudoNewAlloc bi) outs path Hs1 Hth Hi Hhn Han Hbx Hbim ltac:(intros Hx; exact (proj1 (Hhx Hx))))
    as (tagep & altt & longest & pseudo & prov & d & -> & Hdec & Hdir). cbn [rbind].
  eexists _, _, _, _. split; [done|]. split; [done|]. split; cbn [hitBank altBank tagePred condBranch ci ct0 ct1 bi_tableIndices bi_tableTags];
    rewrite ?Nat2Z.id; [done|done|by exists d|done|done| |done|done|done].
  assert (Hbound : forall k x, (k <= nHistoryTables p)%nat -> ((0 < k)%nat -> read_ is' k = Ok x /\ gindex p th pc k = Ok x) ->
    0 < Z.of_nat k -> 0 <= x < 2 ^ lg p (Z.to_nat (Z.of_nat k))).
  { intros k x Hk Hx Hpos. destruct (Hx ltac:(lia)) as [_ Hgx]. rewrite Nat2Z.id.
    destruct (gindex_ok _ _ _ pc k Hth ltac:(lia)) as (x' & Hx' & Hb). congruence. }
  split; cbn [bi_tableIndices bi_tableTags bimodalIndex hitBank hitBankIndex altBank altBankIndex];
    [by eapply filled_indices|by eapply filled_tags|done|lia|by apply Hbound|lia|by apply Hbound].
Qed.

(** ** The update *)

(** A step of the update: it ends, in a good state, and leaves the histories. *)
Definition trains (s : Tage) (r : res Tage) : Prop :=
  exists s', r = Ok s' /\ tage_ok s' /\ threadHistory s' = threadHistory s.

Lemma trains_here s : tage_ok s -> trains s (Ok s).
Proof. intros Hs. by exists s. Qed.

Lemma trains_bind s r k : trains s r -> (forall s', tage_ok s' -> threadHistory s' = threadHistory s -> trains s (k s')) ->
  trains s (rbind r k).
Proof. intros (s1 & -> & Hs1 & He) Hk. cbn [rbind]. by apply Hk. Qed.

Lemma trains_eq s1 s2 r : threadHistory s1 = threadHistory s2 -> trains s1 r -> trains s2 r.
Proof. intros He (s' & -> & Hs' & Hh). exists s'. split; [done|]. split; [done|]. congruence. Qed.

Lemma tage_ok_gtable s g : tage_ok s -> gtable_ok g -> tage_ok (set_gtable g s).
Proof. intros [? ? ? ? ? ?] Hg. by split. Qed.

(** A change of the tagged tables only. *)
Lemma trains_gtable s r : tage_ok s -> (exists g, r = Ok g /\ gtable_ok g) -> trains s (let! g := r in Ok (set_gtable g s)).
Proof. intros Hs (g & -> & Hg). cbn [rbind]. eexists. split; [done|]. split; [by apply tage_ok_gtable|done]. Qed.

Lemma baseUpdate_ok taken bi s : tage_ok s -> 0 <= bimodalIndex bi < 2 ^ lg p 0 -> trains s (baseUpdate p taken bi s).
Proof.
  intros [H1 H2 H3 H4 H5 H6] Hb. unfold baseUpdate. pose proof (po_bimodal p Hp) as Hr.
  assert (Hhi : 0 <= Z.shiftr (bimodalIndex bi) (logRatioBiModalHystEntries p) < 2 ^ (lg p 0 - logRatioBiModalHystEntries p)).
  { rewrite Z.shiftr_div_pow2 by lia. split; [apply Z.div_pos; lia|]. apply Z.div_lt_upper_bound; [lia|].
    rewrite <- Z.pow_add_r by lia. replace (_ + _) with (lg p 0) by lia. lia. }
  destruct (lookup_lt_is_Some_2 (btablePrediction s) (Z.to_nat (bimodalIndex bi))) as [pr Hpr]; [lia|].
  rewrite (get_Ok _ _ pr) by (done || lia). cbn [rbind]. rewrite shr_Ok by lia. cbn [rbind].
  destruct (lookup_lt_is_Some_2 (btableHysteresis s) (Z.to_nat (Z.shiftr (bimodalIndex bi) (logRatioBiModalHystEntries p)))) as [hy Hhy]; [lia|].
  rewrite (get_Ok _ _ hy) by (done || lia). cbn [rbind]. rewrite set_Ok by lia. cbn [rbind]. rewrite set_Ok by lia. cbn [rbind].
  eexists. split; [done|]. split; [|done]. split; cbn [btablePrediction btableHysteresis]; rewrite ?length_insert; done.
Qed.

Lemma handleUReset_ok s : tage_ok s -> trains s (handleUReset p s).
Proof.
  intros Hs. unfold handleUReset. rewrite mask_Ok by (pose proof (po_period p Hp); lia). cbn [rbind].
  destruct (_ =? 0); [|by apply trains_here]. apply trains_gtable; [done|].
  apply (for_inv (fun _ => gtable_ok)); [apply (go_gtable s Hs)|]. intros i g Hi Hg.
  destruct (bank_bounds p Hp i ltac:(lia)) as (_ & Hl & _). rewrite (nth_param _ _ i (po_lg p Hp)) by lia. cbn [rbind]. fold (lg p i).
  rewrite shl_Ok by lia. cbn [rbind]. assert (0 < 2 ^ lg p i) by lia. assert (2 ^ lg p i < 2 ^ 64) by (apply Z.pow_lt_mono_r; lia).
  rewrite Z.shiftl_1_l, wrap_small by (unfold in_u; lia).
  apply (for_inv (fun _ => gtable_ok)); [done|]. intros j g' Hj Hg'. apply modify_entry_ok; [done|lia|rewrite Nat2Z.id; lia|].
  intros e (Hc & Ht & Hu). eexists. split; [done|]. split; [done|]. split; [done|]. cbn [u resetUctr].
  pose proof (shiftr_le (u e) 1 ltac:(lia) ltac:(lia)). lia.
Qed.

Lemma read_index l i : indices_ok l -> (1 <= i <= nHistoryTables p)%nat -> exists x, read_ l i = Ok x /\ 0 <= x < 2 ^ lg p i.
Proof. intros H Hi. destruct (H i Hi) as (x & Hx & Hb). exists x. unfold read_. by rewrite (nth_lookup _ _ _ Hx). Qed.

Lemma read_tag l i : tags_ok l -> (1 <= i <= nHistoryTables p)%nat -> exists t, read_ l i = Ok t /\ in_u 16 t.
Proof. intros H Hi. destruct (H i Hi) as (x & Hx & Hb). exists x. unfold read_. by rewrite (nth_lookup _ _ _ Hx). Qed.

Lemma min_u_ok bi g : gtable_ok g -> indices_ok (bi_tableIndices bi) -> forall i m, (i <= nHistoryTables p)%nat ->
  exists m', min_u bi g i m = Ok m'.
Proof.
  intros Hg Hi. induction i as [|i IH]; intros m Hn; cbn [min_u]; [eauto|]. destruct (_ <=? _); [eauto|].
  destruct (read_index _ (S i) Hi ltac:(lia)) as (x & -> & Hx). cbn [rbind].
  destruct (get_entry_ok g (Z.of_nat (S i)) x Hg) as (e & -> & _); [lia|by rewrite Nat2Z.id|]. cbn [rbind]. apply IH. lia.
Qed.

Lemma few_tables : (nHistoryTables p <= 30)%nat.
Proof.
  destruct (decide (nHistoryTables p = 0)%nat); [lia|]. destruct (bank_bounds p Hp (nHistoryTables p) ltac:(lia)) as (_ & ? & ? & _). lia.
Qed.

(** The first bank tried is above the provider and exists. *)
Lemma first_bank_ok bi nrand : 0 <= hitBank bi < Z.of_nat (nHistoryTables p) ->
  exists X, first_bank p bi nrand = Ok X /\ hitBank bi < X <= Z.of_nat (nHistoryTables p).
Proof.
  intros Hh. pose proof few_tables as Hn. unfold first_bank.
  rewrite !wrap_small by (unfold in_u; rewrite ?wrap_small by (unfold in_u; lia); lia).
  set (k := Z.of_nat (nHistoryTables p) - hitBank bi - 1). assert (Hk : 0 <= k <= 29) by lia. rewrite mask_Ok by lia. cbn [rbind].
  eexists. split; [done|]. assert (Hsmall : swrap 32 (Z.land nrand (Z.ones k)) = Z.land nrand (Z.ones k)).
  { rewrite Z.land_ones by lia. pose proof (Z.mod_pos_bound nrand (2 ^ k) ltac:(lia)).
    assert (2 ^ k <= 2 ^ 29) by (apply Z.pow_le_mono_r; lia). apply swrap_small; [lia|]. unfold in_s. lia. }
  rewrite Hsmall, !Z.land_spec, !ones_spec by lia.
  destruct (Z.ltb_spec 0 k), (Z.ltb_spec 1 k); rewrite ?andb_false_r; try lia; case_ifs; lia.
Qed.

Lemma allocate_ok taken bi : indices_ok (bi_tableIndices bi) -> tags_ok (bi_tableTags bi) -> forall n i na g,
  (1 <= i)%nat -> (i + n <= S (nHistoryTables p))%nat -> gtable_ok g -> exists g', allocate p taken bi n i na g = Ok g' /\ gtable_ok g'.
Proof.
  intros Hi Ht. induction n as [|n IH]; intros i na g H1 Hn Hg; cbn [allocate]; [eauto|].
  destruct (read_index _ i Hi ltac:(lia)) as (x & -> & Hx). cbn [rbind].
  destruct (get_entry_ok g (Z.of_nat i) x Hg) as (e & -> & He); [lia|by rewrite Nat2Z.id|]. cbn [rbind].
  destruct (u e =? 0); [|apply IH; done || lia]. destruct (read_tag _ i Ht ltac:(lia)) as (t & -> & Htt). cbn [rbind].
  edestruct (set_entry_ok g (Z.of_nat i) x (mkTageEntry (if taken then 0 else -1) (wrap 16 t) (u e)) Hg) as (g' & -> & Hg' & _);
    [lia|by rewrite Nat2Z.id| |cbn [rbind]; destruct (_ =? maxNumAlloc p); [eauto|apply IH; done || lia]].
  destruct He as (_ & _ & Hu). pose proof (po_ctr p Hp) as Hc. split; [|split; [by apply wrap_range|done]]. cbn [ctr].
  assert (0 < 2 ^ (tagTableCounterBits p - 1)) by lia. destruct taken; lia.
Qed.

Lemma handleAllocAndUReset_ok alloc taken bi nrand s : tage_ok s -> bi_tables_ok bi ->
  (alloc = true -> hitBank bi < Z.of_nat (nHistoryTables p)) -> trains s (handleAllocAndUReset p alloc taken bi nrand s).
Proof.
  intros Hs Hbi Halloc. unfold handleAllocAndUReset. pose proof (bo_indices bi Hbi) as Hi. pose proof (go_gtable s Hs) as Hg.
  match goal with |- trains _ (rbind ?m _) => assert (Hm : exists g, m = Ok g /\ gtable_ok g) end.
  { destruct alloc; [|eauto]. destruct (min_u_ok bi (gtable s) Hg Hi (nHistoryTables p) 1 ltac:(lia)) as (m & ->). cbn [rbind].
    pose proof (bo_hit bi Hbi) as Hh. destruct (first_bank_ok bi nrand) as (X & -> & HX); [specialize (Halloc eq_refl); lia|]. cbn [rbind].
    destruct (read_index _ (Z.to_nat X) Hi ltac:(lia)) as (x & Hr & Hx).
    assert (Hfree : exists g, (if 0 <? m then let! x := read_ (bi_tableIndices bi) (Z.to_nat X) in
        modify_entry (fun e => Ok (mkTageEntry (ctr e) (tag e) 0)) X x (gtable s) else Ok (gtable s)) = Ok g /\ gtable_ok g).
    { destruct (0 <? m); [|eauto]. rewrite Hr. cbn [rbind]. apply modify_entry_ok; [done|lia|done|].
      intros e (Hc & Ht & Hu). eexists. split; [done|]. split; [done|]. split; [done|]. cbn [u]. lia. }
    destruct Hfree as (g & -> & Hg'). cbn [rbind]. apply allocate_ok; [done|apply (bo_tags bi Hbi)|lia|lia|done]. }
  destruct Hm as (g & -> & Hg'). cbn [rbind]. eapply trains_eq; [|apply handleUReset_ok]; [done|].
  destruct Hs. by split.
Qed.

Lemma handleTAGEUpdate_ok taken bi s : tage_ok s -> bi_tables_ok bi -> trains s (handleTAGEUpdate p taken bi s).
Proof.
  intros Hs Hbi. unfold handleTAGEUpdate. pose proof (bo_hit bi Hbi) as Hh. pose proof (bo_alt bi Hbi) as Ha. pose proof (po_ctr p Hp) as Hc.
  destruct (Z.ltb_spec 0 (hitBank bi)) as [Hpos|]; [|apply baseUpdate_ok; [done|apply (bo_bimodal bi Hbi)]].
  pose proof (bo_hitIndex bi Hbi Hpos) as Hhx. set (train := fun e : TageEntry => _).
  assert (Htrain : forall e, entry_ok e -> exists e', train e = Ok e' /\ entry_ok e').
  { intros e (Hce & Ht & Hu). unfold train. destruct (ctrUpdate_ok (ctr e) taken (tagTableCounterBits p)) as (c' & -> & Hc'); [lia|done|].
    cbn [rbind]. eexists. split; [done|]. by split. }
  destruct (modify_entry_ok train (gtable s) (hitBank bi) (hitBankIndex bi) (go_gtable s Hs) ltac:(lia) Hhx Htrain) as (g & -> & Hg).
  cbn [rbind]. assert (Hs1 : tage_ok (set_gtable g s)) by by apply tage_ok_gtable.
  destruct (get_entry_ok g (hitBank bi) (hitBankIndex bi) Hg ltac:(lia) Hhx) as (e & He & _). cbn [gtable set_gtable]. rewrite He. cbn [rbind].
  apply trains_bind.
  - destruct (u e =? 0); [|by apply (trains_eq (set_gtable g s)), trains_here]. apply (trains_eq (set_gtable g s)); [done|]. apply trains_bind.
    + destruct (Z.ltb_spec 0 (altBank bi)) as [Hapos|]; [|by apply trains_here]. apply (trains_gtable (set_gtable g s)); [done|].
      apply modify_entry_ok; [done|lia|by apply (bo_altIndex bi Hbi)|done].
    + intros s2 Hs2 He2. destruct (_ =? 0); apply (trains_eq s2); try done; [|by apply trains_here].
      apply baseUpdate_ok; [done|apply (bo_bimodal bi Hbi)].
  - intros s2 Hs2 He2. apply (trains_eq s2); [done|]. destruct (xorb _ _); [|by apply trains_here]. apply trains_gtable; [done|].
    apply modify_entry_ok; [apply (go_gtable s2 Hs2)|lia|done|]. intros e' (Hce & Ht & Hu).
    destruct (unsignedCtrUpdate_ok (u e') (eqb (tagePred bi) taken) (tagTableUBits p)) as (v & -> & Hv); [lia|done|].
    cbn [rbind]. eexists. split; [done|]. by split.
Qed.

Lemma condBranchUpdate_ok taken bi nrand s : tage_ok s -> bi_tables_ok bi -> trains s (condBranchUpdate p taken bi nrand s).
Proof.
  intros Hs Hbi. unfold condBranchUpdate. set (alloc0 := xorb _ _ && _).
  match goal with |- trains _ (rbind ?m _) =>
    assert (Hm : exists al uas, m = Ok (al, uas) /\ useAlt_ok uas /\ (al = true -> alloc0 = true)) end.
  { destruct ((0 <? hitBank bi) && pseudoNewAlloc bi); [|eexists _, _; split; [done|]; split; [apply (go_useAlt s Hs)|done]].
    destruct (xorb (longestMatchPred bi) (altTaken bi)); cbn [rbind].
    - unfold getUseAltIdx. destruct (useAlt_get s Hs) as (ua & Hn & Hua). rewrite Hn. cbn [rbind].
      destruct (ctrUpdate_ok ua (eqb (altTaken bi) taken) (useAltOnNaBits p)) as (c & -> & Hc); [pose proof (po_ctr p Hp); lia|done|].
      cbn [rbind]. destruct (go_useAlt s Hs) as [Hl HF]. rewrite upd_Ok by (pose proof (po_useAlt p Hp); lia). cbn [rbind].
      eexists _, _. split; [done|]. split; [split; [by rewrite length_insert|by apply Forall_insert]|]. by destruct (eqb _ _).
    - eexists _, _. split; [done|]. split; [apply (go_useAlt s Hs)|]. by destruct (eqb _ _). }
  destruct Hm as (al & uas & -> & Hua & Hal). cbn [rbind]. set (s1 := mkTage _ _ _ _ _ _ _ _).
  assert (Hs1 : tage_ok s1) by (destruct Hs; by split). apply (trains_eq s1); [done|]. apply trains_bind.
  - apply handleAllocAndUReset_ok; [done|done|]. intros H%Hal. unfold alloc0 in H. b2p. done.
  - intros s2 Hs2 He2. apply (trains_eq s2); [done|]. by apply handleTAGEUpdate_ok.
Qed.
End Invariant.

(** ** A run of the predictor

    The calls [BPredUnit] makes for the branches of each thread, with the records
    of those in flight, the youngest first.  A conditional branch is looked up and
    then enters the histories with the direction the unit settled on.  Records are
    squashed from the youngest; a misprediction is corrected with the record of
    the youngest left; the oldest commits. *)

Inductive tage_op :=
| Branch (tid : nat) (pc : Z) (uncond taken : bool)
| Squash (tid : nat)
| Mispredict (tid : nat) (pc : Z) (taken : bool) (rand : Z)
| Commit (tid : nat) (pc : Z) (taken : bool) (rand : Z).

Definition op_tid (o : tage_op) : nat :=
  match o with Branch tid _ _ _ | Squash tid | Mispredict tid _ _ _ | Commit tid _ _ _ => tid end.

Definition tage_exec (p : TageParams) (o : tage_op) (st : Tage * list (list BranchInfo)) : res (Tage * list (list BranchInfo)) :=
  let '(s, fl) := st in
  let! bis := nth_ fl (op_tid o) in
  match o with
  | Branch tid pc uncond taken =>
      let! (h, s) := if uncond then Ok (None, s) else let! (_, h, s) := lookup p tid pc s in Ok (h, s) in
      let! (h, s) := updateHistories p tid pc uncond taken h s in
      let! bi := deref h in
      Ok (s, <[tid := bi :: bis]> fl)
  | Squash tid =>
      let! (_, s) := squash tid (head bis) s in
      Ok (s, <[tid := tail bis]> fl)
  | Mispredict tid pc taken rand =>
      let! (h, s) := update p tid pc taken (head bis) true rand s in
      let! bi := deref h in
      Ok (s, <[tid := bi :: tail bis]> fl)
  | Commit tid pc taken rand =>
      let! (_, s) := update p tid pc taken (last bis) false rand s in
      Ok (s, <[tid := take (pred (length bis)) bis]> fl)
  end.

(** What the histories should be: nothing but the outcomes. *)
Definition tage_spec (p : TageParams) (o : tage_op) (a : Hist) : Hist :=
  match o with
  | Branch _ pc _ taken => push p pc taken a
  | Squash _ => mkHist (h_outs a) (h_path a) (drop 1 (h_flight a))
  | Mispredict _ _ taken _ => default a (correct 0 taken a)
  | Commit _ _ _ _ => mkHist (h_outs a) (h_path a) (take (pred (length (h_flight a))) (h_flight a))
  end.

(** The unit only squashes, corrects or commits a branch in flight, and stops
    fetching before the buffer forgets what the oldest one needs. *)
Definition tage_allowed (p : TageParams) (o : tage_op) (l : list Hist) : bool :=
  match l !! op_tid o with
  | None => false
  | Some a => match o with Branch _ _ _ _ => room p a | _ => (0 <? length (h_flight a))%nat end
  end.

Fixpoint tage_run (p : TageParams) (ops : list tage_op) (st : Tage * list (list BranchInfo)) : res (Tage * list (list BranchInfo)) :=
  match ops with
  | [] => Ok st
  | o :: ops => let! st := tage_exec p o st in tage_run p ops st
  end.

Fixpoint spec_run (p : TageParams) (ops : list tage_op) (l : list Hist) : option (list Hist) :=
  match ops with
  | [] => Some l
  | o :: ops => if tage_allowed p o l then spec_run p ops (alter (tage_spec p o) (op_tid o) l) else None
  end.

Section Run.
Context (p : TageParams) (Hp : params_ok p) (Hspec : speculativeHistUpdate p = true).

Definition thread_ok (th : ThreadHistory) (bis : list BranchInfo) (a : Hist) : Prop :=
  hist_ok p th bis a /\ Forall (bi_ok p) bis.

Record run_ok (st : Tage * list (list BranchInfo)) (l : list Hist) : Prop := {
  rn_tage : tage_ok p st.1;
  rn_flight : length st.2 = length l;
  rn_threads : length (threadHistory st.1) = length l;
  rn_thread t a : l !! t = Some a ->
    exists th bis, threadHistory st.1 !! t = Some th /\ st.2 !! t = Some bis /\ thread_ok th bis a
}.

(** One thread moves. *)
Lemma run_ok_alter s fl l s' t th bis f a : run_ok (s, fl) l -> l !! t = Some a -> tage_ok p s' ->
  threadHistory s' = <[t := th]> (threadHistory s) -> thread_ok th bis (f a) -> run_ok (s', <[t := bis]> fl) (alter f t l).
Proof.
  intros [H1 H2 H3 H4] Ht Hs' Heq Hok. cbn [fst snd] in *. split; cbn [fst snd]; rewrite ?length_alter, ?length_insert, ?Heq, ?length_insert; [done..|].
  intros t' a' Ht'. destruct (decide (t' = t)) as [->|Hne].
  - rewrite list_lookup_alter_eq, Ht in Ht'. inv Ht'. apply lookup_lt_Some in Ht. exists th, bis.
    rewrite !list_lookup_insert_eq by lia. done.
  - rewrite list_lookup_alter_ne in Ht' by done. rewrite !list_lookup_insert_ne by done. auto.
Qed.

Lemma on_thread_ok {A} t (f : ThreadHistory -> res (A * ThreadHistory)) s th x th' : threadHistory s !! t = Some th ->
  f th = Ok (x, th') -> on_thread t f s = Ok (x, set_threadHistory (<[t := th']> (threadHistory s)) s).
Proof.
  intros Ht Hf. unfold on_thread. rewrite (nth_lookup _ _ _ Ht). cbn [rbind]. rewrite Hf. cbn [rbind].
  rewrite upd_Ok by (by apply lookup_lt_Some in Ht). done.
Qed.

Lemma tage_ok_threads s ths : tage_ok p s -> tage_ok p (set_threadHistory ths s).
Proof. intros [? ? ? ? ? ?]. by split. Qed.

(** A record just made. *)
Lemma fresh_saved outs : bi_saved p 1 outs (makeBranchInfo p).
Proof. split; [|split]; (split; [apply length_replicate|lia]). Qed.

Lemma same_tables_ok bi bi' : same_tables bi bi' -> bi_ok p bi -> bi_ok p bi'.
Proof.
  intros (E1 & E2 & E3 & E4 & E5 & E6 & E7 & E8 & E9 & E10 & E11 & E12) Hbi Hc. rewrite E8 in Hc. destruct (Hbi Hc) as [? ? ? ? ? ? ?].
  split; rewrite ?E1, ?E2, ?E3, ?E4, ?E5, ?E11, ?E12; done.
Qed.

(** [lookup], or what stands for it when the branch is unconditional. *)
Lemma branch_record t pc (uncond : bool) s th outs path : tage_ok p s -> threadHistory s !! t = Some th -> th_ok p outs path th ->
  exists bi s', (let! (h, s) := if uncond then Ok (None, s) else let! (_, h, s) := lookup p t pc s in Ok (h, s) in
      check! (uncond || bool_decide (is_Some h));
      let! (h, s) := if uncond then let! (_, h, s) := predict p t pc false s in Ok (h, s) else Ok (h, s) in
      Ok (h, s)) = Ok (Some bi, s') /\ tage_ok p s' /\ threadHistory s' = threadHistory s /\ bi_saved p 1 outs bi /\ bi_ok p bi.
Proof.
  intros Hs Ht Hth. destruct uncond; cbn [rbind orb assert_].
  - unfold predict, tagePredict. cbn [negb rbind]. eexists _, _. split; [done|]. split; [done|]. split; [done|].
    split; [apply fresh_saved|]. done.
  - unfold lookup, predict.
    destruct (tagePredict_ok p Hp t pc (makeBranchInfo p) s th outs path Hs Ht Hth (length_replicate _ _) (length_replicate _ _))
      as (b & bi & is' & ts' & -> & Hs' & Hpr). cbn [rbind]. rewrite bool_decide_eq_true_2 by done. cbn [assert_ rbind].
    eexists _, _. split; [done|]. split; [done|]. split; [done|]. destruct Hpr as [_ _ _ _ _ Htab _ _ (E0 & E1 & E2)].
    split; [|by intros _]. unfold bi_saved. rewrite E0, E1, E2. apply fresh_saved.
Qed.

Lemma tage_exec_branch t pc uncond taken s fl l a : run_ok (s, fl) l -> l !! t = Some a -> room p a = true ->
  exists st', tage_exec p (Branch t pc uncond taken) (s, fl) = Ok st' /\ run_ok st' (alter (tage_spec p (Branch t pc uncond taken)) t l).
Proof.
  intros Hrun Ha Hroom. destruct (rn_thread _ _ Hrun t a Ha) as (th & bis & Ht & Hb & Hh & Hbis). cbn [fst snd] in *.
  unfold tage_exec. cbn [op_tid]. rewrite (nth_lookup _ _ _ Hb). cbn [rbind].
  destruct (branch_record t pc uncond s th _ _ (rn_tage _ _ Hrun) Ht (ho_th _ _ _ _ Hh)) as (bi & s1 & Hrec & Hs1 & Heq & Hsav & Hbi).
  unfold updateHistories. inv_res. destruct a0 as [h s0]. rewrite E. cbn [rbind]. cbn beta iota in Hrec. inv_res. destruct a1 as [h' s0'].
  rewrite E0. cbn [assert_ rbind]. rewrite E1. cbn [rbind]. inv Hrec. cbn [deref rbind].
  destruct (push_ok p Hp th bis a pc taken bi Hspec Hh Hroom Hsav) as (bi' & th' & Hup & Hh' & Hst).
  rewrite (on_thread_ok t _ s1 th bi' th') by (done || by rewrite Heq). cbn [rbind deref]. eexists. split; [done|].
  eapply run_ok_alter; [done|done|by apply tage_ok_threads|by cbn; rewrite Heq|]. split; [exact Hh'|].
  constructor; [by apply (same_tables_ok bi)|done].
Qed.

Lemma flight_head th bis a : hist_ok p th bis a -> (0 < length (h_flight a))%nat -> exists bi, head bis = Some bi /\ bis !! 0%nat = Some bi.
Proof. intros Hh Hl. pose proof (Forall2_length _ _ _ (ho_recs _ _ _ _ Hh)). destruct bis as [|bi bis]; [simpl in *; lia|]. by exists bi. Qed.

Lemma tage_exec_squash t s fl l a : run_ok (s, fl) l -> l !! t = Some a -> (0 < length (h_flight a))%nat ->
  exists st', tage_exec p (Squash t) (s, fl) = Ok st' /\ run_ok st' (alter (tage_spec p (Squash t)) t l).
Proof.
  intros Hrun Ha Hl. destruct (rn_thread _ _ Hrun t a Ha) as (th & bis & Ht & Hb & Hh & Hbis). cbn [fst snd] in *.
  unfold tage_exec. cbn [op_tid]. rewrite (nth_lookup _ _ _ Hb). cbn [rbind]. destruct (flight_head _ _ _ Hh Hl) as (bi & -> & _).
  cbn [squash deref rbind]. eexists. split; [done|].
  eapply run_ok_alter; [done|done|apply (rn_tage _ _ Hrun)|by rewrite list_insert_id|]. split.
  - replace (tail bis) with (drop 1 bis) by by destruct bis. by apply hist_drop.
  - destruct bis; [done|]. by apply Forall_inv_tail in Hbis.
Qed.

Lemma tage_exec_mispredict t pc taken rand s fl l a : run_ok (s, fl) l -> l !! t = Some a -> (0 < length (h_flight a))%nat ->
  exists st', tage_exec p (Mispredict t pc taken rand) (s, fl) = Ok st' /\
    run_ok st' (alter (tage_spec p (Mispredict t pc taken rand)) t l).
Proof.
  intros Hrun Ha Hl. destruct (rn_thread _ _ Hrun t a Ha) as (th & bis & Ht & Hb & Hh & Hbis). cbn [fst snd] in *.
  unfold tage_exec. cbn [op_tid]. rewrite (nth_lookup _ _ _ Hb). cbn [rbind]. destruct (flight_head _ _ _ Hh Hl) as (bi & Hhd & H0).
  rewrite Hhd. unfold update. rewrite bool_decide_eq_true_2 by done. cbn [assert_ deref rbind].
  destruct (correct_ok p Hp 0 th bis a taken bi Hspec Hh H0) as (th' & a' & Hsq & Hco & Hh').
  rewrite (on_thread_ok t _ s th tt th') by (done || by rewrite Hsq). cbn [rbind deref]. eexists. split; [done|].
  eapply run_ok_alter; [done|done|apply tage_ok_threads, (rn_tage _ _ Hrun)|done|]. cbn [tage_spec]. rewrite Hco. cbn [default].
  destruct bis; [done|]. inv Hhd. by split.
Qed.

Lemma tage_exec_commit t pc taken rand s fl l a : run_ok (s, fl) l -> l !! t = Some a -> (0 < length (h_flight a))%nat ->
  exists st', tage_exec p (Commit t pc taken rand) (s, fl) = Ok st' /\ run_ok st' (alter (tage_spec p (Commit t pc taken rand)) t l).
Proof.
  intros Hrun Ha Hl. destruct (rn_thread _ _ Hrun t a Ha) as (th & bis & Ht & Hb & Hh & Hbis). cbn [fst snd] in *.
  unfold tage_exec. cbn [op_tid]. rewrite (nth_lookup _ _ _ Hb). cbn [rbind].
  pose proof (Forall2_length _ _ _ (ho_recs _ _ _ _ Hh)) as Hlen. rewrite last_lookup. destruct (lookup_lt_is_Some_2 bis (pred (length bis))) as [bi Hbi]; [lia|].
  rewrite Hbi. unfold update. rewrite bool_decide_eq_true_2 by done. cbn [assert_ deref rbind].
  assert (Htr : trains p s (if condBranch bi then condBranchUpdate p taken bi (Z.land rand 3) s else Ok s)).
  { destruct (condBranch bi) eqn:Hc; [|apply trains_here, (rn_tage _ _ Hrun)]. apply condBranchUpdate_ok; [done|apply (rn_tage _ _ Hrun)|].
    by apply (Forall_lookup_1 _ _ _ _ Hbis Hbi). }
  destruct Htr as (s1 & -> & Hs1 & Heq). cbn [rbind].
  rewrite (on_thread_ok t _ s1 th bi th); [|by rewrite Heq|unfold TageHist.updateHistories; by rewrite Hspec].
  cbn [rbind]. eexists. split; [done|].
  eapply run_ok_alter; [done|done|by apply tage_ok_threads|by cbn; rewrite Heq|]. split; [|by apply Forall_take].
  cbn [tage_spec]. rewrite <- Hlen. by apply hist_take.
Qed.

Lemma tage_exec_ok o st l : run_ok st l -> tage_allowed p o l = true ->
  exists st', tage_exec p o st = Ok st' /\ run_ok st' (alter (tage_spec p o) (op_tid o) l).
Proof.
  intros Hrun Hal. unfold tage_allowed in Hal. destruct (l !! op_tid o) as [a|] eqn:Ha; [|done]. destruct st as [s fl].
  destruct o; cbn [op_tid] in *; b2p; [by eapply tage_exec_branch|by eapply tage_exec_squash|by eapply tage_exec_mispredict|by eapply tage_exec_commit].
Qed.

Lemma tage_run_ok ops : forall st l l', run_ok st l -> spec_run p ops l = Some l' ->
  exists st', tage_run p ops st = Ok st' /\ run_ok st' l'.
Proof.
  induction ops as [|o ops IH]; intros st l l' Hrun Hs; cbn [spec_run tage_run] in *; [inv Hs; eauto|].
  destruct (tage_allowed p o l) eqn:Hal; [|done]. destruct (tage_exec_ok o st l Hrun Hal) as (st1 & -> & Hrun1). cbn [rbind]. by eapply IH.
Qed.

(** ** Construction *)

Lemma buildTageTables_ok : exists g, buildTageTables p = Ok g /\ gtable_ok p g.
Proof.
  unfold buildTageTables. set (body := fun (i : nat) (g : list (list TageEntry)) => _).
  edestruct (for_inv (fun j g => length g = S (nHistoryTables p) /\ forall i, (1 <= i < j)%nat ->
      exists t, g !! i = Some t /\ Z.of_nat (length t) = 2 ^ lg p i /\ Forall (entry_ok p) t) body (nHistoryTables p) 1)
    as (g & -> & Hl & Hg); [| |exists g; split; [done|]; split; [done|]; intros i Hi; apply Hg; lia].
  - split; [apply length_replicate|lia].
  - intros j g Hj [Hl Hg]. unfold body. destruct (bank_bounds p Hp j ltac:(lia)) as (_ & Hlg & _).
    rewrite (nth_param _ _ j (po_lg p Hp)) by lia. cbn [rbind]. fold (lg p j). rewrite shl_Ok by lia. cbn [rbind].
    assert (0 < 2 ^ lg p j) by lia. assert (2 ^ lg p j < 2 ^ 32) by (apply Z.pow_lt_mono_r; lia).
    rewrite Z.shiftl_1_l, wrap_small by (unfold in_u; lia). rewrite upd_Ok by lia. eexists. split; [done|].
    split; [by rewrite length_insert|]. intros i Hi. destruct (decide (i = j)) as [->|Hne].
    + eexists. rewrite list_lookup_insert_eq by lia. split; [done|]. rewrite length_replicate. split; [lia|].
      apply Forall_replicate. pose proof (po_ctr p Hp). assert (0 < 2 ^ (tagTableCounterBits p - 1)) by lia.
      assert (0 < 2 ^ tagTableUBits p) by lia. unfold entry_ok, in_u. cbn [ctr tag u]. lia.
    + rewrite list_lookup_insert_ne by done. apply Hg. lia.
Qed.

Definition fresh_threads (n : nat) : list Hist := replicate n (mkHist [] 0 []).

Lemma init_threads n : exists ths, for_ n 0 (fun _ ths => let! th := init_history p in Ok (ths ++ [th])) [] = Ok ths /\ length ths = n /\
  forall t th, ths !! t = Some th -> hist_ok p th [] (mkHist [] 0 []).
Proof.
  destruct (init_history_ok p Hp) as (th0 & Hi & Hok).
  apply (for_inv (fun j ths => length ths = j /\ forall t th, ths !! t = Some th -> hist_ok p th [] (mkHist [] 0 []))); [done|].
  intros j ths _ [Hl Hall]. rewrite Hi. cbn [rbind]. eexists. split; [done|]. rewrite length_app. split; [simpl; lia|].
  intros t th Ht. apply lookup_app_Some in Ht as [Ht|[_ Ht]]; [by eapply Hall|]. apply list_lookup_singleton_Some in Ht as [_ <-]. done.
Qed.

Lemma tage_init_ok n : exists s, init p n = Ok s /\ run_ok (s, replicate n []) (fresh_threads n).
Proof.
  unfold init. pose proof (po_ctr p Hp) as Hc. pose proof (po_path p Hp) as Hpa. pose proof (po_period p Hp) as Hpe.
  pose proof (po_buffer p Hp) as Hb. pose proof (po_bimodal p Hp) as Hbi.
  assert (E : ((tagTableUBits p <=? 2) && (0 <? tagTableUBits p) = true) /\ (pathHistBits p <=? 32) = true /\
    negb (logUResetPeriod p =? 0) = true /\ ((maxHist p *[32] 2) <? histBufferSize p) = true).
  { rewrite wrap_small by (unfold in_u; lia). case_cmp; simpl; done || lia. }
  destruct E as (-> & -> & -> & ->). rewrite (po_tw p Hp), (po_lg p Hp), Nat.eqb_refl. cbn [assert_ rbind].
  rewrite (nth_param _ _ 0 (po_tw p Hp)) by lia. cbn [rbind]. fold (tw p 0). rewrite (po_tw0 p Hp). cbn [Z.eqb assert_ rbind].
  destruct (init_threads n) as (ths & -> & Hl & Hall). cbn [rbind]. rewrite (nth_param _ _ 0 (po_lg p Hp)) by lia. cbn [rbind]. fold (lg p 0).
  rewrite shl_Ok by lia. cbn [rbind]. assert (0 < 2 ^ lg p 0) by lia. assert (2 ^ lg p 0 < 2 ^ 64) by (apply Z.pow_lt_mono_r; lia).
  rewrite Z.shiftl_1_l, wrap_small by (unfold in_u; lia). rewrite shr_Ok by lia. cbn [rbind].
  destruct buildTageTables_ok as (g & -> & Hg). cbn [rbind]. eexists. split; [done|]. split; cbn [fst snd threadHistory].
  - assert (Hsz : Z.shiftr (2 ^ lg p 0) (logRatioBiModalHystEntries p) = 2 ^ (lg p 0 - logRatioBiModalHystEntries p)).
    { rewrite Z.shiftr_div_pow2, <- Z.pow_sub_r by lia. done. }
    assert (0 < 2 ^ (lg p 0 - logRatioBiModalHystEntries p)) by lia.
    split; cbn [btablePrediction btableHysteresis gtable useAltPredForNewlyAllocated tableIndices tableTags];
      rewrite ?length_replicate, ?Hsz; try lia; [done|]. split; [apply length_replicate|]. apply Forall_replicate.
    assert (0 < 2 ^ (useAltOnNaBits p - 1)) by lia. lia.
  - unfold fresh_threads. by rewrite !length_replicate.
  - rewrite Hl. symmetry. apply length_replicate.
  - intros t a [-> Ht]%lookup_replicate. destruct (lookup_lt_is_Some_2 ths t) as [th Hth]; [lia|]. exists th, [].
    split; [done|]. split; [by apply lookup_replicate|]. split; [by apply (Hall t)|constructor].
Qed.
End Run.

(** ** Learning *)

Section Learn.
Context (p : TageParams) (Hp : params_ok p).

(** The entry [k] of bank [i] has the tag [t] and the counter [c]. *)
Definition holds (g : list (list TageEntry)) (i k t c : Z) : Prop :=
  exists e, get_entry g i k = Ok e /\ tag e = t /\ ctr e = c.

Lemma get_set_entry g g' i k e i' k' : set_entry g i k e = Ok g' -> 0 <= i' -> 0 <= k' ->
  get_entry g' i' k' = if (i' =? i) && (k' =? k) then Ok e else get_entry g i' k'.
Proof.
  intros H Hi' Hk'. unfold set_entry, get_entry in *. inv_res. rewrite (get_set _ _ _ _ _ H Hi').
  destruct (Z.eqb_spec i' i) as [->|Hne]; [|done]. cbn [rbind andb]. rewrite (get_set _ _ _ _ _ E0 Hk'), E. done.
Qed.

Lemma set_entry_other g g' i k e i' k' : 0 <= i' -> i' <> i -> set_entry g i k e = Ok g' -> get_entry g' i' k' = get_entry g i' k'.
Proof.
  intros Hi' Hne H. unfold set_entry, get_entry in *. inv_res. rewrite (get_set _ _ _ _ _ H Hi'). by destruct (Z.eqb_spec i' i).
Qed.

Lemma modify_other f g g' i k i' k' t c : 0 <= i' -> i' <> i -> modify_entry f i k g = Ok g' -> holds g i' k' t c -> holds g' i' k' t c.
Proof.
  intros Hi' Hne H (e & He & Ht & Hc). unfold modify_entry in H. inv_res. exists e. by rewrite (set_entry_other _ _ _ _ _ _ _ Hi' Hne H).
Qed.

(** A change of the usefulness only. *)
Lemma modify_useful f g g' i k i' k' t c : (forall e e', f e = Ok e' -> tag e' = tag e /\ ctr e' = ctr e) ->
  modify_entry f i k g = Ok g' -> 0 <= i' -> 0 <= k' -> holds g i' k' t c -> holds g' i' k' t c.
Proof.
  intros Hf H Hi Hk (e & He & Ht & Hc). unfold modify_entry in H. inv_res. unfold holds. rewrite (get_set_entry _ _ _ _ _ _ _ H Hi Hk).
  destruct (Z.eqb_spec i' i) as [->|]; [|eauto]. destruct (Z.eqb_spec k' k) as [->|]; [|eauto]. cbn [andb].
  exists a0. split; [done|]. assert (a = e) by congruence. subst a. destruct (Hf _ _ E0). split; congruence.
Qed.

(** What held of a bank in every state a loop goes through. *)
Lemma for_keeps {S} (I : S -> Prop) body n : forall i s s', for_ n i body s = Ok s' -> I s ->
  (forall j s s', body j s = Ok s' -> I s -> I s') -> I s'.
Proof.
  induction n as [|n IH]; intros i s s' H HI Hb; cbn [for_] in H; inv_res; [done|]. eapply IH; [done| |done]. by eapply Hb.
Qed.

Lemma handleUReset_keeps s s' i k t c : handleUReset p s = Ok s' -> 0 <= i -> 0 <= k -> holds (gtable s) i k t c -> holds (gtable s') i k t c.
Proof.
  intros H Hi Hk Hh. unfold handleUReset in H. inv_res. case_ifs_in H; inv_res; [|done]. cbn [gtable set_gtable].
  eapply (for_keeps (fun g => holds g i k t c)); [exact E1|done|]. intros j g g' Hb Hg. cbn beta in Hb. inv_res.
  eapply (for_keeps (fun g => holds g i k t c)); [exact Hb|done|]. intros j' g1 g1' Hb1 Hg1. eapply modify_useful; [|exact Hb1|done..].
  by intros e e' [= <-].
Qed.

Lemma allocate_keeps taken bi n : forall i na g g' i' k t c, 0 <= i' < Z.of_nat i -> 
  allocate p taken bi n i na g = Ok g' -> holds g i' k t c -> holds g' i' k t c.
Proof.
  induction n as [|n IH]; intros i na g g' i' k t c Hi H Hh; cbn [allocate] in H; inv_res; [done|].
  destruct (u a0 =? 0); [|eapply IH; [|done..]; lia]. inv_res.
  assert (Hh' : holds a2 i' k t c) by (destruct Hh as (e & He & ?); exists e; by rewrite (set_entry_other _ _ (Z.of_nat i) _ _ i' k ltac:(lia) ltac:(lia) E2)).
  case_ifs_in H; inv_res; [done|]. eapply IH; [|done..]. lia.
Qed.

(** The usefulness of the entry of bank [i] for the branch of [bi]. *)
Definition useful_at (g : list (list TageEntry)) (bi : BranchInfo) (i : nat) : res Z :=
  let! x := read_ (bi_tableIndices bi) i in let! e := get_entry g (Z.of_nat i) x in Ok (u e).

(** The bank [X] can be taken: it is free, or no bank above the provider is. *)
Definition available (g : list (list TageEntry)) (bi : BranchInfo) (X : Z) : Prop :=
  useful_at g bi (Z.to_nat X) = Ok 0 \/
  forall i, hitBank bi < Z.of_nat i <= Z.of_nat (nHistoryTables p) -> exists v, useful_at g bi i = Ok v /\ 0 < v.

Lemma min_u_all g bi : (forall i, hitBank bi < Z.of_nat i <= Z.of_nat (nHistoryTables p) -> exists v, useful_at g bi i = Ok v /\ 0 < v) ->
  forall i, (i <= nHistoryTables p)%nat -> min_u bi g i 1 = Ok 1.
Proof.
  intros Hall. induction i as [|i IH]; intros Hi; cbn [min_u]; [done|]. destruct (Z.leb_spec (Z.of_nat (S i)) (hitBank bi)); [done|].
  destruct (Hall (S i)) as (v & Hv & Hpos); [lia|]. unfold useful_at in Hv. destruct (read_ _ (S i)); [|done]. cbn [rbind] in *.
  destruct (get_entry g (Z.of_nat (S i)) a) as [e|]; [|done]. cbn [rbind] in *. inv Hv. destruct (Z.ltb_spec (u e) 1); [lia|]. apply IH. lia.
Qed.

(** The first bank tried gets the branch. *)
Lemma alloc_takes taken bi nrand s s' X t : bi_tables_ok p bi -> 0 <= hitBank bi < Z.of_nat (nHistoryTables p) ->
  first_bank p bi nrand = Ok X -> hitBank bi < X <= Z.of_nat (nHistoryTables p) ->
  available (gtable s) bi X -> read_ (bi_tableTags bi) (Z.to_nat X) = Ok t ->
  handleAllocAndUReset p true taken bi nrand s = Ok s' ->
  exists x, read_ (bi_tableIndices bi) (Z.to_nat X) = Ok x /\ 0 <= x /\
    holds (gtable s') X x (wrap 16 t) (if taken then 0 else -1).
Proof.
  intros Hbi Hhit HX HXb Hav Ht H. destruct (read_index p (bi_tableIndices bi) (Z.to_nat X) (bo_indices p bi Hbi) ltac:(lia)) as (x & Hx & Hxb).
  exists x. split; [done|]. split; [lia|]. unfold handleAllocAndUReset in H. inv_res.
  assert (a1 = X) by congruence. subst a1. rewrite Hx in E2. cbn [rbind] in E2.
  eapply handleUReset_keeps; [exact H|lia|lia|]. cbn [gtable]. clear H.
  assert (Hfree : exists e, get_entry a2 X x = Ok e /\ u e = 0).
  { destruct (Z.ltb_spec 0 a0) as [Hpos|Hz].
    - unfold modify_entry in E2. inv_res. eexists. rewrite (get_set_entry _ _ X x _ X x E2 ltac:(lia) ltac:(lia)), !Z.eqb_refl. done.
    - inv_res. destruct Hav as [Hu|Hall].
      + unfold useful_at in Hu. rewrite Hx in Hu. cbn [rbind] in Hu. rewrite Z2Nat.id in Hu by lia. inv_res. eauto.
      + rewrite (min_u_all _ _ Hall) in E0 by lia. inv E0. lia. }
  destruct Hfree as (e & He & Hu). destruct (S (nHistoryTables p) - Z.to_nat X)%nat as [|m] eqn:Em; [lia|]. cbn [allocate] in E.
  rewrite Hx in E. cbn [rbind] in E. rewrite Z2Nat.id in E by lia. rewrite He in E. cbn [rbind] in E. rewrite Hu, Ht in E. cbn [Z.eqb rbind] in E. inv_res.
  assert (Hg : holds a1 X x (wrap 16 t) (if taken then 0 else -1)).
  { eexists. rewrite (get_set_entry _ _ X x _ X x E3 ltac:(lia) ltac:(lia)), !Z.eqb_refl. done. }
  case_ifs_in E; inv_res; [done|]. eapply allocate_keeps; [|exact E|done]. lia.
Qed.

Ltac keep_bank :=
  match goal with
  | H : modify_entry _ _ _ _ = Ok _ |- holds _ _ _ _ _ => solve [eapply modify_other; [..|exact H|]; done]
  end.

Lemma handleTAGEUpdate_keeps taken bi s s' X k t c : handleTAGEUpdate p taken bi s = Ok s' -> 0 <= X -> X <> hitBank bi -> X <> altBank bi ->
  holds (gtable s) X k t c -> holds (gtable s') X k t c.
Proof.
  intros H HX Hh Ha Hg. unfold handleTAGEUpdate in H.
  assert (Hbase : forall s s', baseUpdate p taken bi s = Ok s' -> gtable s' = gtable s) by (intros s0 s0' H0; unfold baseUpdate in H0; inv_res; done).
  destruct (0 <? hitBank bi); [|by rewrite (Hbase _ _ H)]. inv_res.
  assert (H1 : holds a X k t c) by (keep_bank).
  assert (H2 : holds (gtable a1) X k t c).
  { destruct (u a0 =? 0); inv_res; [|done].
    assert (H3 : holds (gtable a2) X k t c).
    { destruct (0 <? altBank bi); inv_res; [|done]. keep_bank. }
    case_ifs_in E1; inv_res; [by erewrite Hbase|done]. }
  case_ifs_in H; inv_res; [|done]. keep_bank.
Qed.

(** A wrong prediction that an entry was not already there to put right. *)
Definition will_allocate (taken : bool) (bi : BranchInfo) : bool :=
  xorb (tagePred bi) taken && (hitBank bi <? Z.of_nat (nHistoryTables p)) &&
  negb ((0 <? hitBank bi) && pseudoNewAlloc bi && eqb (longestMatchPred bi) taken).

Lemma condBranchUpdate_takes taken bi nrand s s' X t : bi_tables_ok p bi -> will_allocate taken bi = true ->
  first_bank p bi nrand = Ok X -> hitBank bi < X <= Z.of_nat (nHistoryTables p) -> X <> altBank bi ->
  available (gtable s) bi X -> read_ (bi_tableTags bi) (Z.to_nat X) = Ok t ->
  condBranchUpdate p taken bi nrand s = Ok s' ->
  exists x, read_ (bi_tableIndices bi) (Z.to_nat X) = Ok x /\ 0 <= x /\ holds (gtable s') X x (wrap 16 t) (if taken then 0 else -1).
Proof.
  intros Hbi Hw HX HXb Halt Hav Ht H. pose proof (bo_hit p bi Hbi) as Hh. unfold will_allocate in Hw.
  apply andb_true_iff in Hw as [Hw Hn]. unfold condBranchUpdate in H. rewrite Hw in H. inv_res. destruct a as [al uas]. cbn beta iota in H. inv_res.
  assert (al = true) as ->.
  { destruct ((0 <? hitBank bi) && pseudoNewAlloc bi); inv_res; [|done]. apply negb_true_iff in Hn. cbn [andb] in Hn. by rewrite Hn. }
  b2p. match type of E0 with _ _ _ ?s1 = Ok ?s2 => pose proof (alloc_takes taken bi nrand s1 s2 X t Hbi ltac:(lia) HX HXb Hav Ht E0) as (x & Hx & Hx0 & Hg) end.
  exists x. split; [done|]. split; [done|]. eapply handleTAGEUpdate_keeps; [exact H|lia|lia|done|done].
Qed.
End Learn.
