(* ===== verification/TageSpec.v ===== *)
(** * What the TAGE predictor guarantees

    The theorems about [TAGEBase] and [TAGE], for every state a run of the
    predictor reaches, and the configuration for which a lookup has no meaning. *)

From Stdlib Require Import ZArith Lia Bool.
From stdpp Require Import base tactics option list numbers sorting.
From S2P Require Import Prelude TageHist Tage.
Open Scope Z_scope.

(** The predictor with [n] threads after the calls [ops], with the records in
    flight and what the histories should be. *)
Definition reached (p : TageParams) (n : nat) (ops : list tage_op) (s : Tage) (fl : list (list BranchInfo)) (l : list Hist) : Prop :=
  exists s0, init p n = Ok s0 /\ tage_run p ops (s0, replicate n []) = Ok (s, fl) /\ spec_run p ops (fresh_threads n) = Some l.

Lemma reached_ok p n ops s fl l : params_ok p -> speculativeHistUpdate p = true -> reached p n ops s fl l -> run_ok p (s, fl) l.
Proof.
  intros Hp Hsp (s0 & Hi & Hr & Hs). destruct (tage_init_ok p Hp n) as (s0' & Hi' & Hok). assert (s0' = s0) by congruence. subst s0'.
  destruct (tage_run_ok p Hp Hsp ops _ _ _ Hok Hs) as (st & Hr' & Hst). congruence.
Qed.

Lemma spec_run_length p ops : forall l l', spec_run p ops l = Some l' -> length l' = length l.
Proof.
  induction ops as [|o ops IH]; intros l l' H; cbn [spec_run] in H; [by inv H|]. destruct (tage_allowed p o l); [|done].
  rewrite (IH _ _ H). apply length_alter.
Qed.

Lemma reached_thread p n ops s fl l t : params_ok p -> speculativeHistUpdate p = true -> reached p n ops s fl l -> (t < n)%nat ->
  exists th a, l !! t = Some a /\ threadHistory s !! t = Some th /\ th_ok p (h_outs a) (h_path a) th.
Proof.
  intros Hp Hsp Hr Ht. pose proof (reached_ok _ _ _ _ _ _ Hp Hsp Hr) as Hok. destruct Hr as (s0 & _ & _ & Hs).
  assert (Hl : length l = n) by (rewrite (spec_run_length _ _ _ _ Hs); apply length_replicate).
  destruct (lookup_lt_is_Some_2 l t) as [a Ha]; [lia|]. destruct (rn_thread _ _ _ Hok t a Ha) as (th & bis & Hth & _ & [Hh _]).
  exists th, a. split; [done|]. split; [done|]. apply (ho_th _ _ _ _ Hh).
Qed.

(** C12: The folded histories are exact.  Whatever branches are predicted,
    squashed, corrected and committed, however often the history buffer rolls
    over, no call of the predictor fails, and each folded register of each
    thread, updated bit by bit, is the fold of the latest outcomes of the thread:
    those on the path that was taken last, the outcome of a mispredicted branch
    being the corrected one and the outcomes after it gone.  The only condition is
    that fewer than [histBufferSize - 2 * maxHist] outcomes are pushed while a
    branch is in flight. *)
Theorem tage_histories_exact p n ops l : params_ok p -> speculativeHistUpdate p = true ->
  spec_run p ops (fresh_threads n) = Some l ->
  exists s fl, reached p n ops s fl l /\ tage_ok p s /\
    forall t a, l !! t = Some a -> exists th, threadHistory s !! t = Some th /\ pathHist th = h_path a /\
      forall i, (1 <= i <= nHistoryTables p)%nat ->
        computeIndices th !! i = Some (folded (hl p i) (lg p i) (h_outs a)) /\
        computeTags0 th !! i = Some (folded (hl p i) (tw p i) (h_outs a)) /\
        computeTags1 th !! i = Some (folded (hl p i) (tw p i - 1) (h_outs a)).
Proof.
  intros Hp Hsp Hs. destruct (tage_init_ok p Hp n) as (s0 & Hi & Hok). destruct (tage_run_ok p Hp Hsp ops _ _ _ Hok Hs) as ([s fl] & Hr & Hst).
  exists s, fl. split; [by exists s0|]. split; [apply (rn_tage _ _ _ Hst)|]. intros t a Ha.
  destruct (rn_thread _ _ _ Hst t a Ha) as (th & bis & Hth & _ & [Hh _]). destruct (ho_th _ _ _ _ Hh) as [_ _ _ _ (Hf & Hf0 & Hf1) Hpath].
  exists th. split; [done|]. split; [done|]. intros i Hi'.
  destruct Hf as [_ Hf], Hf0 as [_ Hf0], Hf1 as [_ Hf1].
  destruct (Hf i Hi') as (f & -> & Hff), (Hf0 i Hi') as (f0 & -> & Hff0), (Hf1 i Hi') as (f1 & -> & Hff1).
  destruct (Nat.ltb_spec i 1); [lia|]. by subst.
Qed.

(** C33: The prediction comes from the longest matching history.  In every
    reachable state a lookup returns, changes nothing the tables hold, and reports
    the enabled table of the longest history whose entry has the branch's tag (0
    when there is none) and the next one below it; the direction is that of the
    longest match, unless its counter is weak and the predictor has learnt that
    new entries are better ignored, when it is that of the alternate, the bimodal
    table being the last resort. *)
Theorem tage_longest_match p n ops s fl l t th pc : params_ok p -> speculativeHistUpdate p = true ->
  reached p n ops s fl l -> (t < n)%nat -> threadHistory s !! t = Some th ->
  exists b bi s' hit alt d, lookup p t pc s = Ok (b, Some bi, s') /\
    gtable s' = gtable s /\ btablePrediction s' = btablePrediction s /\ threadHistory s' = threadHistory s /\
    hitBank bi = Z.of_nat hit /\ altBank bi = Z.of_nat alt /\ tagePred bi = b /\
    is_longest (hits p s th pc) (nHistoryTables p) hit /\ is_longest (hits p s th pc) (pred hit) alt /\
    deciding p s th pc hit alt = Ok d /\ direction p s th pc d = Ok b.
Proof.
  intros Hp Hsp Hr Ht Hth. destruct (reached_thread _ _ _ _ _ _ t Hp Hsp Hr Ht) as (th' & a & _ & Hth' & Hok).
  assert (th' = th) by congruence. subst th'. pose proof (reached_ok _ _ _ _ _ _ Hp Hsp Hr) as Hrun.
  destruct (tagePredict_ok p Hp t pc (makeBranchInfo p) s th _ _ (rn_tage _ _ _ Hrun) Hth Hok (length_replicate _ _) (length_replicate _ _))
    as (b & bi & is' & ts' & Hpr & _ & [Hhit Halt (d & Hd & Hdir) Hb _ Htab _ _ _]).
  unfold lookup, predict. rewrite Hpr. cbn [rbind]. pose proof (bo_hit p bi Htab). pose proof (bo_alt p bi Htab).
  exists b, bi, (set_scratch is' ts' s), (Z.to_nat (hitBank bi)), (Z.to_nat (altBank bi)), d. rewrite !Z2Nat.id by lia. done.
Qed.

(** C34: A misprediction teaches a longer history.  In every state reached with
    speculative histories, when a branch was predicted wrongly by a bank below the last
    one, and the entry that provided the prediction was not a new one that was right by
    itself ([will_allocate]), let [X] be the bank drawn at random above the provider.
    If the entry of [X] is free, or no entry above the provider is, and the parameters
    do not exclude bank [X] ([noSkip]), committing the branch puts an entry for it
    there: the same branch with the same histories is then provided by [X] or a longer
    history. *)
Theorem tage_learns p n ops s fl l t pc taken rand b bi s1 X : params_ok p -> speculativeHistUpdate p = true ->
  reached p n ops s fl l -> (t < n)%nat -> lookup p t pc s = Ok (b, Some bi, s1) ->
  will_allocate p taken bi = true -> first_bank p bi (Z.land rand 3) = Ok X -> available p (gtable s) bi X ->
  noSkip p !! Z.to_nat X = Some true ->
  exists s2 b' bi' s3, update p t pc taken (Some bi) false rand s1 = Ok (None, s2) /\
    lookup p t pc s2 = Ok (b', Some bi', s3) /\ hitBank bi < X <= hitBank bi'.
Proof.
  intros Hp Hsp Hr Ht Hl Hw HX Hav Hns. destruct (reached_thread _ _ _ _ _ _ t Hp Hsp Hr Ht) as (th & a & _ & Hth & Hok).
  pose proof (rn_tage _ _ _ (reached_ok _ _ _ _ _ _ Hp Hsp Hr)) as Hs. cbn [fst] in Hs.
  destruct (tagePredict_ok p Hp t pc (makeBranchInfo p) s th _ _ Hs Hth Hok (length_replicate _ _) (length_replicate _ _))
    as (b0 & bi0 & is' & ts' & Hpr & Hs1 & [Hhit Halt _ _ Hcond Htab Hidx Htags _]).
  unfold lookup, predict in Hl. rewrite Hpr in Hl. cbn [rbind] in Hl. inv Hl. pose proof (bo_hit p bi Htab) as Hh.
  assert (Hhn : hitBank bi < Z.of_nat (nHistoryTables p)) by (unfold will_allocate in Hw; b2p; done).
  destruct (first_bank_ok p Hp bi (Z.land rand 3) ltac:(lia)) as (X' & HX' & HXb). assert (X' = X) by congruence. subst X'.
  destruct (filled_read p _ _ (Z.to_nat X) ltac:(lia) Htags) as (tg & Htg & Hgtag).
  destruct (filled_read p _ _ (Z.to_nat X) ltac:(lia) Hidx) as (x & Hx & Hgx).
  assert (HaltX : X <> altBank bi) by (destruct Halt as [Hle _]; lia).
  unfold update. rewrite bool_decide_eq_true_2 by done. cbn [assert_ deref rbind]. rewrite Hcond.
  destruct (condBranchUpdate_ok p Hp taken bi (Z.land rand 3) _ Hs1 Htab) as (s2 & Hc & Hs2 & Heq). rewrite Hc. cbn [rbind].
  destruct (condBranchUpdate_takes p taken bi _ (set_scratch is' ts' s) _ X tg Htab Hw HX HXb HaltX Hav Htg Hc) as (x' & Hx' & Hx0 & (e & He & Htag & _)).
  assert (x' = x) by congruence. subst x'. cbn [threadHistory set_scratch] in Heq.
  erewrite (on_thread_ok t _ s2 th bi th) by (rewrite ?Heq; unfold TageHist.updateHistories; rewrite ?Hsp; done). cbn [rbind].
  set (s3 := set_threadHistory _ s2). assert (Hs3 : tage_ok p s3) by by apply tage_ok_threads.
  assert (Hth3 : threadHistory s3 !! t = Some th) by (cbn; rewrite Heq, list_lookup_insert_eq by (by eapply lookup_lt_Some); done).
  destruct (tagePredict_ok p Hp t pc (makeBranchInfo p) s3 th _ _ Hs3 Hth3 Hok (length_replicate _ _) (length_replicate _ _))
    as (b2 & bi2 & is2 & ts2 & Hpr2 & _ & [(Hn2 & Hno & _) _ _ _ _ Htab2 _ _ _]).
  eexists _, _, _, _. split; [done|]. unfold lookup, predict. rewrite Hpr2. split; [done|]. split; [lia|].
  destruct (Z.leb_spec X (hitBank bi2)); [done|]. exfalso. pose proof (bo_hit p bi2 Htab2). apply (Hno (Z.to_nat X)); [lia|]. split; [done|].
  exists x, tg, e. rewrite Z2Nat.id by lia. split; [done|]. split; [done|]. split; [exact He|].
  destruct (gtag_ok p Hp _ _ _ pc (Z.to_nat X) Hok ltac:(lia)) as (tg' & Htg' & Hrange). assert (tg' = tg) by congruence. subst tg'.
  rewrite Htag. by apply wrap_small.
Qed.

(** ** LTAGE *)

(** The parameters of [LTAGE_TAGE]; those it does not set are the defaults of
    [TAGEBase].  [lens] is what [calculateParameters] computes. *)
Definition LTAGE_TAGE (lens : list Z) (instShift : Z) : TageParams :=
  mkTageParams 2 12 3 2 2097152 640 16 [0; 7; 7; 8; 8; 9; 10; 11; 12; 12; 13; 14; 15]
    [14; 10; 10; 11; 11; 11; 11; 10; 10; 10; 10; 9; 9] lens 19 (2 ^ 17) 1 4 1 (replicate 13 true) true instShift.

Lemma for_fails {S} (body : nat -> S -> res S) k : (forall s, is_ok (body k s) = false) ->
  forall n i s, (i <= k < i + n)%nat -> is_ok (for_ n i body s) = false.
Proof.
  intros Hk. induction n as [|n IH]; intros i s Hi; [lia|]. cbn [for_]. destruct (decide (i = k)) as [->|Hne].
  - specialize (Hk s). by destruct (body k s).
  - destruct (body i s); [|done]. cbn [rbind]. apply IH. lia.
Qed.

(** The shift count of table 11 is [9 - 11]. *)
Lemma ltage_F lens sh A size : is_ok (F (LTAGE_TAGE lens sh) A size 11) = false.
Proof.
  unfold F. cbn [LTAGE_TAGE logTagTableSizes]. change (nth_ _ 11) with (@Ok Z 9). cbn [rbind]. destruct (mask_ size); [|done]. cbn [rbind].
  rewrite mask_Ok by lia. cbn [rbind]. rewrite shr_Ok by lia. cbn [rbind]. rewrite shl_Ok by lia. done.
Qed.

(** C39: With the parameters of LTAGE no conditional branch can be looked up:
    tables 11 and 12 have [2^9] entries, and the hash of the path for table 11
    shifts by [logTagTableSizes[11] - 11], which is negative, so the behaviour of
    every lookup is undefined. *)
Theorem ltage_lookup_undefined lens sh tid pc s : is_ok (lookup (LTAGE_TAGE lens sh) tid pc s) = false.
Proof.
  unfold lookup, predict, tagePredict. cbn [negb]. destruct (nth_ (threadHistory s) tid) as [th|]; [|done]. cbn [rbind].
  match goal with |- is_ok (rbind (rbind ?m _) _) = _ => assert (Hm : is_ok m = false) end.
  { unfold calculateIndicesAndTags. apply (for_fails _ 11); [|cbn; lia]. intros [[[sis sts] bis] bts].
    assert (Hg : is_ok (gindex (LTAGE_TAGE lens sh) th pc 11) = false).
    { unfold gindex. destruct (nth_ _ 11) as [h|]; [|done]. cbn [rbind]. destruct (shr_ 64 pc _); [|done]. cbn [rbind].
      destruct (nth_ _ 11) as [l|]; [|done]. cbn [rbind]. destruct (shr_ 32 _ _); [|done]. cbn [rbind].
      destruct (nth_ _ 11) as [f|]; [|done]. cbn [rbind]. match goal with |- context [F ?p ?A ?z 11] => pose proof (ltage_F lens sh A z) as HF end.
      by destruct (F _ _ _ 11). }
    by destruct (gindex _ _ _ 11). }
  by destruct (calculateIndicesAndTags _ _ _ _).
Qed.

(** ** A small predictor *)

Module SmallTage.

(** Two tagged tables of 4 and 8 entries, a buffer of 16 outcomes, one thread. *)
Definition cfg : TageParams :=
  mkTageParams 1 2 3 2 16 4 4 [0; 3; 4] [3; 2; 3] [0; 2; 4] 5 3 1 4 1 [true; true; true] true 2.

(** Enough branches to roll the buffer over, with a misprediction whose wrong
    path is squashed. *)
Definition ops : list tage_op :=
  [Branch 0 64 false true; Branch 0 72 true true; Commit 0 64 true 1; Commit 0 72 true 0;
   Branch 0 80 false false; Branch 0 64 false true; Branch 0 88 false false; Squash 0; Squash 0; Mispredict 0 80 true 0;
   Branch 0 64 false true; Commit 0 80 true 2; Commit 0 64 true 0;
   Branch 0 64 false true; Branch 0 80 false true; Branch 0 64 false false; Branch 0 88 true true;
   Squash 0; Mispredict 0 64 true 0; Commit 0 64 true 3] ++
  concat (replicate 8 [Branch 0 96 false false; Commit 0 80 false 1]).

Lemma cfg_ok : params_ok cfg.
Proof.
  split; try done; try (unfold in_s, lg; cbn; lia).
  intros i Hi. cbn in Hi. assert (i = 1 \/ i = 2)%nat as [-> | ->] by lia; reflexivity.
Qed.

(** The state after [ops]; after none of them it is the initial one. *)
Definition after (ops : list tage_op) : option (Tage * list (list BranchInfo) * list Hist) :=
  match init cfg 1, spec_run cfg ops (fresh_threads 1) with
  | Ok s0, Some l => match tage_run cfg ops (s0, replicate 1 []) with Ok (s, fl) => Some (s, fl, l) | Err _ => None end
  | _, _ => None
  end.

Lemma after_reached ops s fl l : after ops = Some (s, fl, l) -> reached cfg 1 ops s fl l.
Proof.
  unfold after. intros H. destruct (init cfg 1) as [s0|] eqn:Hi; [|done]. destruct (spec_run _ _ _) as [l'|] eqn:Hl; [|done].
  destruct (tage_run _ _ _) as [[s' fl']|] eqn:Hr; [|done]. inv H. by exists s0.
Qed.
End SmallTage.

Lemma tage_histories_exact_witness : exists l, spec_run SmallTage.cfg SmallTage.ops (fresh_threads 1) = Some l /\
  exists s fl, reached SmallTage.cfg 1 SmallTage.ops s fl l.
Proof.
  eexists. split; [vm_compute; reflexivity|]. edestruct (tage_histories_exact SmallTage.cfg 1 SmallTage.ops) as (s & fl & H & _);
    [exact SmallTage.cfg_ok|reflexivity|vm_compute; reflexivity|]. exists s, fl. exact H.
Defined.

Lemma tage_longest_match_witness : exists s fl l th, reached SmallTage.cfg 1 SmallTage.ops s fl l /\
  threadHistory s !! 0%nat = Some th /\
  exists b bi s', lookup SmallTage.cfg 0 64 s = Ok (b, Some bi, s') /\
    is_longest (hits SmallTage.cfg s th 64) 2 (Z.to_nat (hitBank bi)).
Proof.
  destruct (SmallTage.after SmallTage.ops) as [[[s fl] l]|] eqn:H; [|vm_compute in H; discriminate H].
  apply SmallTage.after_reached in H. pose proof SmallTage.cfg_ok as Hp.
  destruct (reached_thread _ _ _ _ _ _ 0 Hp eq_refl H Nat.lt_0_1) as (th & _ & _ & Hth & _). exists s, fl, l, th. split; [exact H|]. split; [exact Hth|].
  destruct (tage_longest_match SmallTage.cfg 1 SmallTage.ops s fl l 0 th 64 Hp eq_refl H Nat.lt_0_1 Hth)
    as (b & bi & s' & hit & _ & _ & Hl & _ & _ & _ & Hhit & _ & _ & Hlong & _).
  exists b, bi, s'. split; [exact Hl|]. rewrite Hhit, Nat2Z.id. exact Hlong.
Defined.

(** The first branch ever predicted is predicted not taken by the bimodal table;
    once it was taken, a tagged table provides its prediction. *)
Lemma tage_learns_witness : exists s fl l b bi s1, reached SmallTage.cfg 1 [] s fl l /\
  lookup SmallTage.cfg 0 68 s = Ok (b, Some bi, s1) /\
  exists s2 b' bi' s3, update SmallTage.cfg 0 68 true (Some bi) false 0 s1 = Ok (None, s2) /\
    lookup SmallTage.cfg 0 68 s2 = Ok (b', Some bi', s3) /\ hitBank bi < 1 <= hitBank bi'.
Proof.
  eexists _, _, _, _, _, _. split; [apply SmallTage.after_reached; vm_compute; reflexivity|]. split; [vm_compute; reflexivity|].
  eapply (tage_learns SmallTage.cfg 1 []); [exact SmallTage.cfg_ok|reflexivity|apply SmallTage.after_reached; vm_compute; reflexivity
    |apply Nat.lt_0_1|vm_compute; reflexivity|vm_compute; reflexivity|vm_compute; reflexivity|left; vm_compute; reflexivity|reflexivity].
Defined.
