(* ===== verification/BPredUnit.v ===== *)
(** * The branch prediction unit

    [cpu/pred/bpred_unit.hh] and [cpu/pred/bpred_unit.cc]: the unit that predicts
    every fetched branch with a direction predictor, a branch target buffer, a
    return address stack and an indirect predictor, keeps a record per branch in
    flight, and commits or undoes the records.  The components are used through
    their interfaces ([DirPred], [BranchTargetBuffer], [IndirectPredictor]).  The
    statistics, probes and debug prints are left out. *)

From Stdlib Require Import ZArith Lia Bool.
From stdpp Require Import base tactics option list numbers.
From S2P Require Import Prelude Ras DirPred Btb Indirect.
Open Scope Z_scope.

(** The members of [StaticInst] the unit uses; [buildRetPC] and [advancePC] are
    defined by the instruction sets. *)
Record StaticInst (PC : Type) := mkInst {
  isCall : bool;
  isReturn : bool;
  isDirectCtrl : bool;
  isIndirectCtrl : bool;
  isCondCtrl : bool;
  isUncondCtrl : bool;
  buildRetPC : PC -> PC -> PC;
  advancePC : PC -> PC
}.
Arguments mkInst {PC}.
Arguments isCall {PC}.
Arguments isReturn {PC}.
Arguments isDirectCtrl {PC}.
Arguments isIndirectCtrl {PC}.
Arguments isCondCtrl {PC}.
Arguments isUncondCtrl {PC}.
Arguments buildRetPC {PC}.
Arguments advancePC {PC}.

Definition getBranchType {PC} (inst : StaticInst PC) : BranchType :=
  if isReturn inst then Return
  else if isCall inst then if isDirectCtrl inst then CallDirect else CallIndirect
  else if isDirectCtrl inst then if isCondCtrl inst then DirectCond else DirectUncond
  else if isIndirectCtrl inst then if isCondCtrl inst then IndirectCond else IndirectUncond
  else NoBranch.

Inductive TargetProvider : Type := NoTarget | BTB | RAS | Indirect_.

#[export] Instance TargetProvider_eq_dec : EqDecision TargetProvider.
Proof. solve_decision. Defined.

Record PredictorHistory (H IH PC : Type) := mkHistory {
  seqNum : Z;
  tid : nat;
  pc : Z;
  inst : StaticInst PC;
  type : BranchType;
  call : bool;
  uncond : bool;
  predTaken : bool;
  actuallyTaken : bool;
  condPred : bool;
  btbHit : bool;
  targetProvider : TargetProvider;
  mispredict : bool;
  target : option PC;
  bpHistory : option H;
  indirectHistory : option IH;
  rasHistory : option (RASHistory PC)
}.
Arguments mkHistory {H IH PC}.
Arguments seqNum {H IH PC}.
Arguments tid {H IH PC}.
Arguments pc {H IH PC}.
Arguments inst {H IH PC}.
Arguments type {H IH PC}.
Arguments call {H IH PC}.
Arguments uncond {H IH PC}.
Arguments predTaken {H IH PC}.
Arguments actuallyTaken {H IH PC}.
Arguments condPred {H IH PC}.
Arguments btbHit {H IH PC}.
Arguments targetProvider {H IH PC}.
Arguments mispredict {H IH PC}.
Arguments target {H IH PC}.
Arguments bpHistory {H IH PC}.
Arguments indirectHistory {H IH PC}.
Arguments rasHistory {H IH PC}.

(** The unit: its components, [ras] and [iPred] being optional, and the records of
    every thread, the youngest first ([push_front]). *)
Record BPredUnit (S H B I IH PC : Type) := mkBPU {
  dp : S;
  btb : B;
  ras : option (ReturnAddrStack PC);
  iPred : option I;
  predHist : list (list (PredictorHistory H IH PC))
}.
Arguments mkBPU {S H B I IH PC}.
Arguments dp {S H B I IH PC}.
Arguments btb {S H B I IH PC}.
Arguments ras {S H B I IH PC}.
Arguments iPred {S H B I IH PC}.
Arguments predHist {S H B I IH PC}.

Section unit.
Context {S H B I IH PC : Type} (instAddr : PC -> Z) (requiresBTBHit : bool).
Context `{D : DirPred S H (StaticInst PC)} `{T : BranchTargetBuffer B PC (StaticInst PC)}.
Context `{P : IndirectPredictor I IH PC}.

Abbreviation hist := (PredictorHistory H IH PC) (only parsing).
Abbreviation bpu := (BPredUnit S H B I IH PC) (only parsing).

Definition set_dp (u : bpu) (s : S) : bpu := mkBPU s (btb u) (ras u) (iPred u) (predHist u).
Definition set_btb (u : bpu) (b : B) : bpu := mkBPU (dp u) b (ras u) (iPred u) (predHist u).
Definition set_ras (u : bpu) (r : option (ReturnAddrStack PC)) : bpu := mkBPU (dp u) (btb u) r (iPred u) (predHist u).
Definition set_iPred (u : bpu) (i : option I) : bpu := mkBPU (dp u) (btb u) (ras u) i (predHist u).
Definition set_predHist (u : bpu) (p : list (list hist)) : bpu := mkBPU (dp u) (btb u) (ras u) (iPred u) p.

(** The constructor of [PredictorHistory]. *)
Definition PredictorHistory_new (_tid : nat) (sn _pc : Z) (i : StaticInst PC) : hist :=
  mkHistory sn _tid _pc i (getBranchType i) (isCall i) (isUncondCtrl i)
    false false false false NoTarget false None None None None.

(** The destructor: every component has retired its record. *)
Definition delete_history (h : hist) : res unit :=
  check! (match bpHistory h with None => true | Some _ => false end);
  check! (match indirectHistory h with None => true | Some _ => false end);
  assert_ (match rasHistory h with None => true | Some _ => false end).

(** *** Setters of the record *)

Definition with_direction (h : hist) (taken : bool) (bp : option H) : hist :=
  mkHistory (seqNum h) (tid h) (pc h) (inst h) (type h) (call h) (uncond h) taken (actuallyTaken h) taken (btbHit h)
    (targetProvider h) (mispredict h) (target h) bp (indirectHistory h) (rasHistory h).
Definition with_hit (h : hist) (hit : bool) : hist :=
  mkHistory (seqNum h) (tid h) (pc h) (inst h) (type h) (call h) (uncond h) (predTaken h) (actuallyTaken h) (condPred h)
    hit (targetProvider h) (mispredict h) (target h) (bpHistory h) (indirectHistory h) (rasHistory h).
Definition with_target (h : hist) (p : TargetProvider) (t : PC) : hist :=
  mkHistory (seqNum h) (tid h) (pc h) (inst h) (type h) (call h) (uncond h) (predTaken h) (actuallyTaken h) (condPred h)
    (btbHit h) p (mispredict h) (Some t) (bpHistory h) (indirectHistory h) (rasHistory h).
Definition with_taken (h : hist) (pred actual : bool) : hist :=
  mkHistory (seqNum h) (tid h) (pc h) (inst h) (type h) (call h) (uncond h) pred actual (condPred h)
    (btbHit h) (targetProvider h) (mispredict h) (target h) (bpHistory h) (indirectHistory h) (rasHistory h).
Definition with_bp (h : hist) (bp : option H) : hist :=
  mkHistory (seqNum h) (tid h) (pc h) (inst h) (type h) (call h) (uncond h) (predTaken h) (actuallyTaken h) (condPred h)
    (btbHit h) (targetProvider h) (mispredict h) (target h) bp (indirectHistory h) (rasHistory h).
Definition with_indirect (h : hist) (ih : option IH) : hist :=
  mkHistory (seqNum h) (tid h) (pc h) (inst h) (type h) (call h) (uncond h) (predTaken h) (actuallyTaken h) (condPred h)
    (btbHit h) (targetProvider h) (mispredict h) (target h) (bpHistory h) ih (rasHistory h).
Definition with_ras (h : hist) (rh : option (RASHistory PC)) : hist :=
  mkHistory (seqNum h) (tid h) (pc h) (inst h) (type h) (call h) (uncond h) (predTaken h) (actuallyTaken h) (condPred h)
    (btbHit h) (targetProvider h) (mispredict h) (target h) (bpHistory h) (indirectHistory h) rh.
(** What a misprediction remembers for the update at commit. *)
Definition with_correction (h : hist) (taken : bool) (t : PC) : hist :=
  mkHistory (seqNum h) (tid h) (pc h) (inst h) (type h) (call h) (uncond h) (predTaken h) taken (condPred h)
    (btbHit h) (targetProvider h) true (Some t) (bpHistory h) (indirectHistory h) (rasHistory h).

(** ** Prediction *)

(** Unconditional branches are taken, the others ask the direction predictor. *)
Definition predict_direction (u : bpu) (h : hist) : res (bpu * hist) :=
  if isUncondCtrl (inst h) then Ok (u, with_direction h true (bpHistory h))
  else
    let! (b, bp, s) := dp_lookup (tid h) (pc h) (bpHistory h) (dp u) in
    Ok (set_dp u s, with_direction h b bp).

Definition predict_btb (u : bpu) (h : hist) : res hist :=
  let! btb_target := btb_lookup (tid h) (pc h) (type h) (btb u) in
  match btb_target with
  | Some t =>
      let h := with_hit h true in
      Ok (if predTaken h then with_target h BTB t else h)
  | None => Ok h
  end.

Definition branch_detected (h : hist) : bool := btbHit h || negb requiresBTBHit.

(** Calls push their return address, returns pop one. *)
Definition predict_ras (u : bpu) (pc0 : PC) (h : hist) : res (bpu * hist) :=
  match ras u with
  | Some r =>
      if branch_detected h then
        if isCall (inst h) then
          let! (rh, r) := ras_push (tid h) (buildRetPC (inst h) pc0 pc0) (rasHistory h) r in
          Ok (set_ras u (Some r), with_ras h rh)
        else if isReturn (inst h) then
          let! (return_addr, rh, r) := ras_pop (tid h) (rasHistory h) r in
          let h := with_ras h rh in
          Ok (set_ras u (Some r), match return_addr with Some t => with_target h RAS t | None => h end)
        else Ok (u, h)
      else Ok (u, h)
  | None => Ok (u, h)
  end.

Definition predict_indirect (u : bpu) (pc0 : PC) (h : hist) : res (bpu * hist) :=
  match iPred u with
  | Some i =>
      if predTaken h && branch_detected h && isIndirectCtrl (inst h) && negb (isReturn (inst h)) then
        let! (itarget, ih, i) := ip_lookup (tid h) (seqNum h) pc0 (indirectHistory h) i in
        let h := with_indirect h ih in
        Ok (set_iPred u (Some i), match itarget with Some t => with_target h Indirect_ t | None => h end)
      else Ok (u, h)
  | None => Ok (u, h)
  end.

(** Without a target the branch falls through. *)
Definition fall_through (pc0 : PC) (h : hist) : hist :=
  if decide (targetProvider h = NoTarget)
  then with_taken (with_target h NoTarget (advancePC (inst h) pc0)) false (actuallyTaken h)
  else h.

(** The speculative update of the histories. *)
Definition update_histories (u : bpu) (h : hist) (t : PC) : res (bpu * hist) :=
  let! (bp, s) := dp_updateHistories (tid h) (pc h) (uncond h) (predTaken h) (instAddr t) (bpHistory h) (dp u) in
  let u := set_dp u s in
  let h := with_bp h bp in
  match iPred u with
  | Some i =>
      let! (ih, i) := ip_update (tid h) (seqNum h) (pc h) false (predTaken h) t (type h) (indirectHistory h) i in
      Ok (set_iPred u (Some i), with_indirect h ih)
  | None => Ok (u, h)
  end.

(** The inner [predict]: the direction, the next address and the record. *)
Definition predict_record (i : StaticInst PC) (sn : Z) (pc0 : PC) (_tid : nat) (u : bpu) :
    res (bool * PC * hist * bpu) :=
  let h := PredictorHistory_new _tid sn (instAddr pc0) i in
  let! (u, h) := predict_direction u h in
  let! h := predict_btb u h in
  let! (u, h) := predict_ras u pc0 h in
  let! (u, h) := predict_indirect u pc0 h in
  let h := fall_through pc0 h in
  let h := with_taken h (predTaken h) (predTaken h) in
  let! t := deref (target h) in
  let! (u, h) := update_histories u h t in
  Ok (predTaken h, t, h, u).

Definition predict (i : StaticInst PC) (sn : Z) (pc0 : PC) (_tid : nat) (u : bpu) : res (bool * PC * bpu) :=
  let! (taken, t, h, u) := predict_record i sn pc0 _tid u in
  let! hs := nth_ (predHist u) _tid in
  let! ph := upd_ (predHist u) _tid (h :: hs) in
  Ok (taken, t, set_predHist u ph).

(** ** Commit *)

Definition commitBranch (_tid : nat) (h : hist) (u : bpu) : res (hist * bpu) :=
  let! t := deref (target h) in
  let! (bp, s) := dp_update _tid (pc h) (actuallyTaken h) (bpHistory h) false (inst h) (instAddr t) (dp u) in
  let u := set_dp u s in
  let h := with_bp h bp in
  let! (h, u) := (match iPred u with
    | Some i => let! (ih, i) := ip_commit _tid (seqNum h) (indirectHistory h) i in
                Ok (with_indirect h ih, set_iPred u (Some i))
    | None => Ok (h, u)
    end) in
  match ras u with
  | Some _ => let! rh := ras_commit (type h) (rasHistory h) in Ok (with_ras h rh, u)
  | None => Ok (h, u)
  end.

(** [while (!predHist.empty() && predHist.back()->seqNum <= done_sn)]; [rh] is the
    deque from the back. *)
Fixpoint commit_loop (done_sn : Z) (_tid : nat) (rh : list hist) (u : bpu) : res (list hist * bpu) :=
  match rh with
  | [] => Ok ([], u)
  | h :: rh' =>
      if seqNum h <=? done_sn then
        let! (h, u) := commitBranch _tid h u in
        let! _ := delete_history h in
        commit_loop done_sn _tid rh' u
      else Ok (rh, u)
  end.

(** [update(done_sn, tid)]. *)
Definition update (done_sn : Z) (_tid : nat) (u : bpu) : res bpu :=
  let! hs := nth_ (predHist u) _tid in
  let! (rh, u) := commit_loop done_sn _tid (rev hs) u in
  let! ph := upd_ (predHist u) _tid (rev rh) in
  Ok (set_predHist u ph).

(** ** Squash *)

Definition squashHistory (_tid : nat) (h : hist) (u : bpu) : res (hist * bpu) :=
  let! (h, u) := (match rasHistory h with
    | Some _ =>
        let! r := (match ras u with Some r => Ok r | None => Err AssertFailed end) in
        let! (rh, r) := ras_squash _tid (rasHistory h) r in
        Ok (with_ras h rh, set_ras u (Some r))
    | None => Ok (h, u)
    end) in
  let! (h, u) := (match iPred u with
    | Some i => let! (ih, i) := ip_squash _tid (seqNum h) (indirectHistory h) i in
                Ok (with_indirect h ih, set_iPred u (Some i))
    | None => Ok (h, u)
    end) in
  let! (bp, s) := dp_squash _tid (bpHistory h) (dp u) in
  Ok (with_bp h bp, set_dp u s).

Fixpoint squash_loop (squashed_sn : Z) (_tid : nat) (hs : list hist) (u : bpu) : res (list hist * bpu) :=
  match hs with
  | [] => Ok ([], u)
  | h :: hs' =>
      if squashed_sn <? seqNum h then
        let! (h, u) := squashHistory _tid h u in
        let! _ := delete_history h in
        squash_loop squashed_sn _tid hs' u
      else Ok (hs, u)
  end.

(** [squash(squashed_sn, tid)]. *)
Definition squash (squashed_sn : Z) (_tid : nat) (u : bpu) : res bpu :=
  let! hs := nth_ (predHist u) _tid in
  let! (hs, u) := squash_loop squashed_sn _tid hs u in
  let! ph := upd_ (predHist u) _tid hs in
  Ok (set_predHist u ph).

(** The repair of the return address stack for a mispredicted branch. *)
Definition correct_ras (_tid : nat) (corr_target : PC) (actually_taken : bool) (h : hist) (u : bpu) :
    res (hist * bpu) :=
  match ras u with
  | None => Ok (h, u)
  | Some r =>
      match rasHistory h with
      | None =>
          if actually_taken then
            let! (h, r) := (if decide (type h = Return) then
                let! (_, rh, r) := ras_pop _tid (rasHistory h) r in Ok (with_ras h rh, r)
              else Ok (h, r)) in
            let! (h, r) := (if call h then
                let! (rh, r) := ras_push _tid (buildRetPC (inst h) corr_target corr_target) (rasHistory h) r in
                Ok (with_ras h rh, r)
              else Ok (h, r)) in
            Ok (h, set_ras u (Some r))
          else Ok (h, u)
      | Some _ =>
          if actually_taken then Ok (h, u)
          else let! (rh, r) := ras_squash _tid (rasHistory h) r in Ok (with_ras h rh, set_ras u (Some r))
      end
  end.

Definition correct_btb (_tid : nat) (actually_taken : bool) (h : hist) (u : bpu) : res bpu :=
  if actually_taken &&
     (requiresBTBHit || isDirectCtrl (inst h) ||
      ((match iPred u with None => true | Some _ => false end) && negb (isReturn (inst h))))
  then
    let! t := deref (target h) in
    let! b := btb_update _tid (pc h) t (type h) (Some (inst h)) (btb u) in
    Ok (set_btb u b)
  else Ok u.

(** The mispredicted branch itself. *)
Definition correct (squashed_sn : Z) (corr_target : PC) (actually_taken : bool) (_tid : nat) (h : hist) (u : bpu) :
    res (hist * bpu) :=
  let h := with_correction h actually_taken corr_target in
  let! (bp, s) := dp_update _tid (pc h) actually_taken (bpHistory h) true (inst h) (instAddr corr_target) (dp u) in
  let u := set_dp u s in
  let h := with_bp h bp in
  let! (h, u) := (match iPred u with
    | Some i => let! (ih, i) := ip_update _tid squashed_sn (pc h) true actually_taken corr_target (type h)
                                  (indirectHistory h) i in
                Ok (with_indirect h ih, set_iPred u (Some i))
    | None => Ok (h, u)
    end) in
  let! (h, u) := correct_ras _tid corr_target actually_taken h u in
  let! u := correct_btb _tid actually_taken h u in
  Ok (h, u).

(** [squash(squashed_sn, corr_target, actually_taken, tid)]. *)
Definition squash_mispredict (squashed_sn : Z) (corr_target : PC) (actually_taken : bool) (_tid : nat) (u : bpu) :
    res bpu :=
  let! u := squash squashed_sn _tid u in
  let! hs := nth_ (predHist u) _tid in
  match hs with
  | [] => Ok u
  | h :: hs =>
      let! (h, u) := correct squashed_sn corr_target actually_taken _tid h u in
      let! ph := upd_ (predHist u) _tid (h :: hs) in
      Ok (set_predHist u ph)
  end.

(** [drainSanityCheck]. *)
Definition drainSanityCheck (u : bpu) : res unit :=
  assert_ (forallb (fun ph => match ph with [] => true | _ => false end) (predHist u)).

(** ** The speculative state

    What predictions change before the branch is known to be on the right path:
    the histories of the two predictors and the tops of the return address
    stacks. *)

Context {n : nat} {LD : DirPredLaws D n} {LT : BTBLaws T n} {LP : IndirectLaws P n} (N : Z).
Context (Hpc : forall p, in_u 64 (instAddr p)).
(** Whether the unit has a return address stack and an indirect predictor. *)
Context (hr hi : bool).

Definition has {A} (o : option A) : bool := match o with Some _ => true | None => false end.

Record spec := mkSpec { sp_dp : dp_hist; sp_ras : option (list Z); sp_ip : option ip_hist }.

Definition spec_of (u : bpu) : spec :=
  mkSpec (dp_spec (dp u)) (option_map toses (ras u)) (option_map ip_spec (iPred u)).

Record inv (u : bpu) : Prop := {
  inv_dp : dp_inv (dp u);
  inv_btb : btb_inv (btb u);
  inv_ras : match ras u with Some r => ras_wf n N r | None => True end;
  inv_ip : match iPred u with Some i => ip_inv i | None => True end;
  inv_threads : length (predHist u) = n;
  inv_has : has (ras u) = hr /\ has (iPred u) = hi
}.

Definition ip_link (_tid : nat) (ih : option IH) (a b : option ip_hist) : Prop :=
  match a, b with
  | Some a, Some b => ip_rec _tid ih a /\ exists taken, b = ip_next _tid taken a
  | None, None => ih = None
  | _, _ => False
  end.

Definition ras_type (ty : BranchType) : bool :=
  match ty with Return | CallDirect | CallIndirect => true | _ => false end.

(** The record [h] belongs to a branch of thread [_tid] whose prediction took the
    speculative state from [a] to [b]. *)
Record link (_tid : nat) (h : hist) (a b : spec) : Prop := {
  lk_tid : tid h = _tid;
  lk_pc : in_u 64 (pc h);
  lk_target : exists t, target h = Some t;
  lk_ras_type : rasHistory h <> None -> ras_type (type h) = true;
  lk_type : type h = getBranchType (inst h);
  lk_call : call h = isCall (inst h);
  lk_dp : dp_rec _tid (pc h) (uncond h) (bpHistory h) (sp_dp a);
  lk_next : exists taken, sp_dp b = dp_next _tid (pc h) (uncond h) taken (sp_dp a);
  lk_ras : ras_undo N _tid (rasHistory h) (sp_ras a) (sp_ras b);
  lk_ip : ip_link _tid (indirectHistory h) (sp_ip a) (sp_ip b);
  lk_has : has (sp_ras a) = hr /\ has (sp_ip a) = hi
}.

(** What holds of the record [h] on its own, whatever has happened since the branch
    was predicted in the speculative state [a]. *)
Record recorded (_tid : nat) (h : hist) (a : spec) : Prop := {
  rd_tid : tid h = _tid;
  rd_pc : in_u 64 (pc h);
  rd_target : exists t, target h = Some t;
  rd_ras_type : rasHistory h <> None -> ras_type (type h) = true;
  rd_type : type h = getBranchType (inst h);
  rd_call : call h = isCall (inst h);
  rd_dp : dp_rec _tid (pc h) (uncond h) (bpHistory h) (sp_dp a);
  rd_ras : ras_rec N (rasHistory h) /\ (rasHistory h <> None -> hr = true);
  rd_ip : match sp_ip a with Some ai => ip_rec _tid (indirectHistory h) ai | None => indirectHistory h = None end;
  rd_has : has (sp_ip a) = hi
}.

Lemma link_recorded _tid h a b : link _tid h a b -> recorded _tid h a.
Proof.
  intros [Et Hp Htg Hty Ety Ec Hdp _ Hras Hip [Hhr Hhi]]. constructor; try done.
  - split; [by eapply ras_undo_rec|]. intros Hne. destruct (rasHistory h); [|done]. destruct Hras as (l & _ & _ & E & _).
    by rewrite E in Hhr.
  - destruct (sp_ip a), (sp_ip b); try done. by destruct Hip.
Qed.

Fixpoint chain (_tid : nat) (hs : list hist) (b a : spec) : Prop :=
  match hs with
  | [] => b = a
  | h :: hs => exists m, link _tid h m b /\ chain _tid hs m a
  end.

Lemma ras_type_call (i : StaticInst PC) : isCall i = true \/ isReturn i = true -> ras_type (getBranchType i) = true.
Proof. unfold getBranchType. destruct (isReturn i), (isCall i), (isDirectCtrl i); naive_solver. Qed.

(** *** Squashing one branch *)

Lemma squashHistory_ok _tid h a u : inv u -> (_tid < n)%nat -> recorded _tid h a ->
  exists h' u', squashHistory _tid h u = Ok (h', u') /\ inv u' /\ predHist u' = predHist u /\
    delete_history h' = Ok tt /\ (link _tid h a (spec_of u) -> spec_of u' = a).
Proof.
  intros [Hd Hb Hr Hi Hn [Hhr Hhi]] Htid [Et Hp _ _ _ _ Hdp [Hras Hhras] Hip Hhi']. destruct a as [ad ar ai]. cbn in *.
  unfold squashHistory.
  assert (exists u1, (match rasHistory h with
    | Some _ => let! r := (match ras u with Some r => Ok r | None => Err AssertFailed end) in
        let! (rh, r) := ras_squash _tid (rasHistory h) r in Ok (with_ras h rh, set_ras u (Some r))
    | None => Ok (h, u) end) = Ok (with_ras h None, u1) /\ u1 = set_ras u (ras u1) /\
    match ras u1 with Some r => ras_wf n N r | None => True end /\ has (ras u1) = has (ras u) /\
    (ras_undo N _tid (rasHistory h) ar (option_map toses (ras u)) -> option_map toses (ras u1) = ar))
    as (u1 & -> & Eu1 & Hr1 & Hhas1 & Er1).
  { destruct (rasHistory h) as [rh|] eqn:Erh.
    - destruct (ras u) as [r|]; [|cbn in Hhr; by rewrite Hhras in Hhr]. cbn [rbind].
      destruct (ras_squash_tos n N _tid rh r Hr Htid Hras) as (r' & -> & Hr' & Er'). cbn [rbind].
      eexists. split_and!; try done. apply Er'.
    - exists u. split; [by destruct h; cbn in *; subst|]. by destruct u. }
  cbn [rbind]. rewrite Eu1. cbn [iPred set_ras].
  assert (exists u2, (match iPred u with
    | Some i => let! (ih, i) := ip_squash _tid (seqNum (with_ras h None)) (indirectHistory (with_ras h None)) i in
        Ok (with_indirect (with_ras h None) ih, set_iPred (set_ras u (ras u1)) (Some i))
    | None => Ok (with_ras h None, set_ras u (ras u1)) end) = Ok (with_indirect (with_ras h None) None, u2) /\
    u2 = set_iPred (set_ras u (ras u1)) (iPred u2) /\ has (iPred u2) = has (iPred u) /\
    match iPred u2 with Some i => ip_inv i | None => True end /\
    (ip_link _tid (indirectHistory h) ai (option_map ip_spec (iPred u)) -> option_map ip_spec (iPred u2) = ai))
    as (u2 & -> & Eu2 & Hhas2 & Hi2 & Ei2).
  { destruct (iPred u) as [i|] eqn:Eip.
    - destruct ai as [ai|]; [|cbn in *; congruence].
      destruct (ip_squash_ok i _tid (seqNum h) (indirectHistory h) ai Hi Htid Hip) as (i' & E & Hi' & Ei').
      cbn [seqNum indirectHistory with_ras]. rewrite E. cbn [rbind]. eexists. split_and!; try done.
      cbn. intros [_ [tk Hn']]. by rewrite (Ei' tk Hn').
    - destruct ai; [cbn in *; congruence|]. exists (set_ras u (ras u1)). split; [by destruct h; cbn in *; subst|].
      cbn. rewrite Eip. split_and!; try done. unfold set_iPred, set_ras. cbn. by rewrite Eip. }
  cbn [rbind]. rewrite Eu2. cbn [dp set_iPred set_ras bpHistory with_indirect with_ras].
  destruct (dp_squash_ok (dp u) _tid (pc h) (uncond h) (bpHistory h) ad Hd Htid Hp Hdp) as (s' & -> & Hs' & Es').
  cbn [rbind]. eexists _, _. split; [done|]. split.
  { constructor; try done. cbn. split; congruence. }
  split_and!; [done|done|]. intros [_ _ _ _ _ _ _ [tk Hnext] Hu Hl _]. unfold spec_of. cbn in *.
  by rewrite (Es' tk Hnext), (Er1 Hu), (Ei2 Hl).
Qed.

(** *** Committing one branch *)

Lemma commitBranch_ok _tid h a u : inv u -> (_tid < n)%nat -> recorded _tid h a ->
  exists h' u', commitBranch _tid h u = Ok (h', u') /\ inv u' /\ spec_of u' = spec_of u /\ predHist u' = predHist u /\
    delete_history h' = Ok tt.
Proof.
  intros [Hd Hb Hr Hi Hn [Hhr Hhi]] Htid [Et Hp [t Ht] Hty _ _ Hdp [Hras Hhras] Hip Hhi'].
  unfold commitBranch. rewrite Ht. cbn [deref rbind].
  destruct (dp_commit_ok (dp u) _tid (pc h) (uncond h) (actuallyTaken h) (inst h) (instAddr t) (bpHistory h) (sp_dp a)
    Hd Htid Hp Hdp) as (s' & -> & Hs' & Es'). cbn [rbind iPred set_dp].
  assert (exists u2, (match iPred u with
    | Some i => let! (ih, i) := ip_commit _tid (seqNum (with_bp h None)) (indirectHistory (with_bp h None)) i in
        Ok (with_indirect (with_bp h None) ih, set_iPred (set_dp u s') (Some i))
    | None => Ok (with_bp h None, set_dp u s') end) = Ok (with_indirect (with_bp h None) None, u2) /\
    u2 = set_iPred (set_dp u s') (iPred u2) /\ has (iPred u2) = hi /\
    match iPred u2 with Some i => ip_inv i | None => True end /\ option_map ip_spec (iPred u2) = option_map ip_spec (iPred u))
    as (u2 & -> & Eu2 & Hi2 & Hinv2 & Ei2).
  { destruct (iPred u) as [i|] eqn:Eip.
    - destruct (sp_ip a) as [ai|]; [|cbn in *; congruence].
      destruct (ip_commit_ok i _tid (seqNum h) (indirectHistory h) ai Hi Htid Hip) as (i' & E & Hi' & Ei').
      cbn [seqNum indirectHistory with_bp]. rewrite E. cbn [rbind]. eexists. split_and!; try done. cbn. by rewrite Ei'.
    - destruct (sp_ip a) as [ai|]; [cbn in *; congruence|].
      exists (set_dp u s'). split; [by destruct h; cbn in *; subst|]. cbn. rewrite Eip. split_and!; try done.
      unfold set_iPred, set_dp. cbn. by rewrite Eip. }
  cbn [rbind]. rewrite Eu2. cbn [ras set_iPred set_dp type rasHistory with_indirect with_bp].
  assert (Hinv' : inv (set_iPred (set_dp u s') (iPred u2))) by (by constructor).
  assert (Hsp : spec_of (set_iPred (set_dp u s') (iPred u2)) = spec_of u).
  { unfold spec_of. cbn. by rewrite Es', Ei2. }
  destruct (ras u) as [r|] eqn:Er.
  - assert (ras_commit (type h) (rasHistory h) = Ok None) as ->.
    { unfold ras_commit. destruct (rasHistory h) as [rh|]; [|by destruct (type h)].
      specialize (Hty ltac:(done)). by destruct (type h). }
    cbn [rbind]. eexists _, _. by split_and!.
  - eexists _, _. split_and!; try done. cbn in Hhr.
    destruct (rasHistory h) as [rh|] eqn:Erh; [|unfold delete_history; cbn; by rewrite Erh].
    exfalso. rewrite Hhras in Hhr by done. done.
Qed.

(** *** Correcting the mispredicted branch *)

Lemma with_ras_id h : with_ras h (rasHistory h) = h.
Proof. by destruct h. Qed.

Lemma set_ras_id u : set_ras u (ras u) = u.
Proof. by destruct u. Qed.

Definition ras_ok (r : option (ReturnAddrStack PC)) : Prop :=
  match r with Some r => ras_wf n N r | None => True end.

(** What the two stages that touch the return address stack guarantee. *)
Definition ras_stage (_tid : nat) (h : hist) (u : bpu) (ar : option (list Z)) (rh' : option (RASHistory PC))
    (r' : option (ReturnAddrStack PC)) : Prop :=
  ras_ok r' /\ has r' = has (ras u) /\ (rh' <> None -> ras_type (type h) = true) /\
  ras_undo N _tid rh' ar (option_map toses r').

Definition ras_corrected (_tid : nat) (h : hist) (u : bpu) (rh' : option (RASHistory PC)) (r' : option (ReturnAddrStack PC)) : Prop :=
  ras_ok r' /\ has r' = has (ras u) /\ (rh' <> None -> ras_type (type h) = true) /\
  ras_rec N rh' /\ (rh' <> None -> has (ras u) = true) /\
  forall ar, ras_undo N _tid (rasHistory h) ar (option_map toses (ras u)) -> ras_undo N _tid rh' ar (option_map toses r').

Lemma correct_ras_ok _tid ct taken h u : ras_ok (ras u) -> (_tid < n)%nat ->
  (rasHistory h <> None -> ras_type (type h) = true) -> type h = getBranchType (inst h) -> call h = isCall (inst h) ->
  ras_rec N (rasHistory h) -> (rasHistory h <> None -> has (ras u) = true) ->
  exists rh' r', correct_ras _tid ct taken h u = Ok (with_ras h rh', set_ras u r') /\ ras_corrected _tid h u rh' r'.
Proof.
  intros Hr Htid Hty Ety Ecall Hrec Hhas. unfold correct_ras.
  assert (Hsame : ras_corrected _tid h u (rasHistory h) (ras u)) by (unfold ras_corrected; by split_and!).
  destruct (ras u) as [r|] eqn:Er; cbn in Hr.
  2:{ exists (rasHistory h), None. rewrite with_ras_id. split; [|done].
      f_equal. f_equal. rewrite <- (set_ras_id u) at 1. by rewrite Er. }
  assert (Hstay : exists rh' r', Ok (h, u) = Ok (with_ras h rh', set_ras u r') /\ ras_corrected _tid h u rh' r').
  { exists (rasHistory h), (Some r). rewrite <- Er at 1. by rewrite with_ras_id, set_ras_id. }
  destruct (rasHistory h) as [rh|] eqn:Erh; destruct taken; try exact Hstay; clear Hsame Hstay.
  - destruct (ras_squash_tos n N _tid rh r Hr Htid Hrec) as (r' & -> & Hr' & Ea). cbn [rbind].
    eexists None, (Some r'). split; [done|]. unfold ras_corrected. rewrite Er, Erh. by split_and!.
  - assert (exists rh1 r1, (if decide (type h = Return) then
        let! (_, rh, r) := ras_pop _tid None r in Ok (with_ras h rh, r) else Ok (h, r)) = Ok (with_ras h rh1, r1) /\
        ras_wf n N r1 /\ match rh1 with None => True | Some h1 => poped h1 = true end /\
        (rh1 <> None -> ras_type (type h) = true) /\ ras_undo N _tid rh1 (Some (toses r)) (Some (toses r1)))
      as (rh1 & r1 & -> & Hr1 & Hp1 & Hty1 & Hu1).
    { destruct (decide (type h = Return)) as [E|E].
      - destruct (ras_pop_tos n N _tid r Hr Htid) as (e & rh1 & r1 & -> & Hr1 & Hp1 & Hu1). cbn [rbind].
        exists (Some rh1), r1. split_and!; try done. by rewrite E.
      - exists None, r. split; [by rewrite <- Erh, with_ras_id|]. by split_and!. }
    cbn [rbind rasHistory call inst with_ras]. destruct (call h) eqn:Ec.
    + destruct (ras_push_tos n N _tid (buildRetPC (inst h) ct ct) rh1 (Some (toses r)) r1 Hr1 Htid Hp1 Hu1) as (rh2 & r2 & -> & Hr2 & Hu2).
      cbn [rbind]. exists (Some rh2), (Some r2). split; [done|]. unfold ras_corrected. rewrite Er, Erh. split_and!; try done.
      * intros _. rewrite Ety. apply ras_type_call. left. congruence.
      * by eapply ras_undo_rec.
      * cbn. intros ar <-. done.
    + cbn [rbind]. exists rh1, (Some r1). split; [done|]. unfold ras_corrected. rewrite Er, Erh. split_and!; try done.
      * by eapply ras_undo_rec.
      * cbn. intros ar <-. done.
Qed.

Lemma correct_btb_ok _tid taken h u t : btb_inv (btb u) -> (_tid < n)%nat -> in_u 64 (pc h) -> target h = Some t ->
  exists b', correct_btb _tid taken h u = Ok (set_btb u b') /\ btb_inv b'.
Proof.
  intros Hb Htid Hp Ht. unfold correct_btb. destruct (_ && _).
  - rewrite Ht. cbn [deref rbind].
    destruct (btb_update_ok (btb u) _tid (pc h) t (type h) (Some (inst h)) Hb Htid Hp) as (b' & -> & Hb'). cbn [rbind].
    by exists b'.
  - exists (btb u). by destruct u.
Qed.

Lemma unit_correct_ok sn ct taken _tid h a u : inv u -> (_tid < n)%nat -> recorded _tid h a ->
  exists h' u', correct sn ct taken _tid h u = Ok (h', u') /\ inv u' /\ recorded _tid h' a /\
    seqNum h' = seqNum h /\ predHist u' = predHist u /\
    (link _tid h a (spec_of u) -> link _tid h' a (spec_of u') /\
       sp_dp (spec_of u') = dp_next _tid (pc h) (uncond h) taken (sp_dp a)).
Proof.
  intros [Hd Hb Hr Hi Hn [Hhr Hhi]] Htid [Et Hp _ Hty Ety Ecall Hdp [Hras Hhras] Hip Hhi'].
  unfold correct. cbn [bpHistory inst pc with_correction].
  destruct (dp_correct_ok (dp u) _tid (pc h) (uncond h) taken (inst h) (instAddr ct) (bpHistory h) (sp_dp a)
    Hd Htid Hp Hdp) as (s' & -> & Hs' & Es'). cbn [rbind iPred set_dp].
  set (h1 := with_bp (with_correction h taken ct) (bpHistory h)).
  assert (exists ih' i', (match iPred u with
    | Some i => let! (ih, i) := ip_update _tid sn (pc h1) true taken ct (type h1) (indirectHistory h1) i in
        Ok (with_indirect h1 ih, set_iPred (set_dp u s') (Some i))
    | None => Ok (h1, set_dp u s') end) = Ok (with_indirect h1 ih', set_iPred (set_dp u s') i') /\ has i' = hi /\
    match i' with Some i => ip_inv i | None => True end /\
    match sp_ip a with Some ai => ip_rec _tid ih' ai | None => ih' = None end /\
    (ip_link _tid (indirectHistory h) (sp_ip a) (option_map ip_spec (iPred u)) -> ip_link _tid ih' (sp_ip a) (option_map ip_spec i')))
    as (ih' & i' & -> & Hi1 & Hi2 & Hi3 & Hi4).
  { destruct (iPred u) as [i|] eqn:Eip; destruct (sp_ip a) as [ai|]; try (cbn in *; congruence).
    - destruct (ip_correct_ok i _tid sn (pc h1) taken ct (type h1) (indirectHistory h) ai Hi Htid Hip)
        as (ih' & i' & E & Hi' & Hrec' & Ei'). cbn [indirectHistory h1 with_bp with_correction] in *. rewrite E. cbn [rbind].
      exists ih', (Some i'). split_and!; try done. cbn. intros [_ [tk Hn']]. split; [done|]. exists taken. by eapply Ei'.
    - exists None, None. split_and!; try done. f_equal. f_equal.
      + unfold h1, with_indirect. destruct h; cbn in *. by subst.
      + unfold set_iPred, set_dp. cbn. by rewrite Eip. }
  cbn [rbind]. set (h2 := with_indirect h1 ih'). set (u2 := set_iPred (set_dp u s') i').
  destruct (correct_ras_ok _tid ct taken h2 u2) as (rh' & r' & -> & Hr1 & Hr2 & Hr3 & Hr4 & Hr5 & Hr6); [done..|cbn; by rewrite Hhr|].
  cbn [rbind]. destruct (correct_btb_ok _tid taken (with_ras h2 rh') (set_ras u2 r') ct) as (b' & -> & Hb'); [done..|].
  cbn [rbind]. eexists _, _. split; [done|]. cbn in Hr2, Hr5. split_and!; try done.
  - constructor; try done. cbn. split; [by rewrite Hr2|done].
  - constructor; try done; cbn; [by exists ct|]. split; [done|]. rewrite <- Hhr. apply Hr5.
  - intros [_ _ _ _ _ _ _ [tk Hnext] Hu Hl Hh]. cbn. rewrite (Es' tk Hnext). split; [|done].
    constructor; try done; cbn; [by exists ct|exists taken; by rewrite (Es' tk Hnext)|by apply Hr6|by apply Hi4].
Qed.

(** *** Predicting one branch *)

(** The members the target stages leave alone. *)
Definition key (h : hist) := (seqNum h, tid h, pc h, inst h, type h, call h, uncond h, bpHistory h).

Definition target_ok (h : hist) : Prop := targetProvider h <> NoTarget -> exists t, target h = Some t.

Lemma predict_direction_ok u h : dp_inv (dp u) -> (tid h < n)%nat -> in_u 64 (pc h) -> bpHistory h = None ->
  targetProvider h = NoTarget ->
  exists s' taken bp, predict_direction u h = Ok (set_dp u s', with_direction h taken bp) /\ dp_inv s' /\
    dp_spec s' = dp_spec (dp u) /\
    (if isUncondCtrl (inst h) then bp = None else dp_looked (tid h) (pc h) bp (dp_spec (dp u))).
Proof.
  intros Hd Htid Hp Hbp Htp. unfold predict_direction. rewrite Hbp. destruct (isUncondCtrl (inst h)).
  - exists (dp u), true, None. split; [by destruct u|done].
  - destruct (dp_lookup_ok (dp u) (tid h) (pc h) Hd Htid Hp) as (b & bp & s' & -> & Hs' & Es' & Hl). cbn [rbind].
    exists s', b, bp. done.
Qed.

Lemma predict_btb_ok u h : btb_inv (btb u) -> (tid h < n)%nat -> in_u 64 (pc h) -> targetProvider h = NoTarget ->
  exists h', predict_btb u h = Ok h' /\ key h' = key h /\ indirectHistory h' = indirectHistory h /\
    rasHistory h' = rasHistory h /\ target_ok h'.
Proof.
  intros Hb Htid Hp Htp. unfold predict_btb.
  destruct (btb_lookup_ok (btb u) (tid h) (pc h) (type h) Hb Htid Hp) as (o & ->). cbn [rbind].
  assert (target_ok h) by (intros ?; congruence).
  destruct o as [t|]; [|by exists h]. eexists. split; [done|]. destruct (predTaken _); split_and!; try done.
  intros _. by exists t.
Qed.

Lemma predict_ras_ok u pc0 h : ras_ok (ras u) -> (tid h < n)%nat -> rasHistory h = None -> target_ok h ->
  type h = getBranchType (inst h) ->
  exists r' h', predict_ras u pc0 h = Ok (set_ras u r', h') /\ key h' = key h /\
    indirectHistory h' = indirectHistory h /\ target_ok h' /\
    ras_stage (tid h) h u (option_map toses (ras u)) (rasHistory h') r'.
Proof.
  intros Hr Htid Erh Hto Ety. unfold predict_ras, ras_stage. rewrite Erh.
  assert (Hid : exists r' h', Ok (u, h) = Ok (set_ras u r', h') /\ key h' = key h /\
    indirectHistory h' = indirectHistory h /\ target_ok h' /\ ras_ok r' /\ has r' = has (ras u) /\
    (rasHistory h' <> None -> ras_type (type h) = true) /\
    ras_undo N (tid h) (rasHistory h') (option_map toses (ras u)) (option_map toses r')).
  { exists (ras u), h. rewrite set_ras_id, Erh. by split_and!. }
  destruct (ras u) as [r|] eqn:Er; [|done]. destruct (branch_detected h); [|done].
  destruct (isCall (inst h)) eqn:Ec; [|destruct (isReturn (inst h)) eqn:Eret; [|done]]; clear Hid.
  - destruct (ras_push_tos n N (tid h) (buildRetPC (inst h) pc0 pc0) None (Some (toses r)) r Hr Htid Logic.I eq_refl)
      as (rh' & r' & -> & Hr' & Hu). cbn [rbind]. eexists (Some r'), _. split; [done|]. split_and!; try done.
    intros _. rewrite Ety. apply ras_type_call. by left.
  - destruct (ras_pop_tos n N (tid h) r Hr Htid) as (e & rh' & r' & -> & Hr' & _ & Hu). cbn [rbind].
    eexists (Some r'), _. split; [done|].
    assert (ras_type (type h) = true) by (rewrite Ety; apply ras_type_call; by right).
    destruct e as [t|]; split_and!; try done. intros _. by exists t.
Qed.

Lemma predict_indirect_ok u pc0 h : match iPred u with Some i => ip_inv i | None => True end -> (tid h < n)%nat ->
  indirectHistory h = None -> target_ok h ->
  exists i' h', predict_indirect u pc0 h = Ok (set_iPred u i', h') /\ key h' = key h /\ rasHistory h' = rasHistory h /\
    target_ok h' /\ match i' with Some i => ip_inv i | None => True end /\
    option_map ip_spec i' = option_map ip_spec (iPred u) /\
    match i' with Some i => indirectHistory h' = None \/ ip_rec (tid h) (indirectHistory h') (ip_spec i)
                | None => indirectHistory h' = None end.
Proof.
  intros Hi Htid Eih Hto. unfold predict_indirect. rewrite Eih.
  assert (Hid : exists i' h', Ok (u, h) = Ok (set_iPred u i', h') /\ key h' = key h /\ rasHistory h' = rasHistory h /\
    target_ok h' /\ match i' with Some i => ip_inv i | None => True end /\
    option_map ip_spec i' = option_map ip_spec (iPred u) /\
    match i' with Some i => indirectHistory h' = None \/ ip_rec (tid h) (indirectHistory h') (ip_spec i)
                | None => indirectHistory h' = None end).
  { exists (iPred u), h. split; [by destruct u|]. split_and!; try done. destruct (iPred u); [by left|done]. }
  destruct (iPred u) as [i|] eqn:Ei; [|done]. destruct (_ && _); [|done]. clear Hid.
  destruct (ip_lookup_ok i (tid h) (seqNum h) pc0 Hi Htid) as (o & ih & i' & -> & Hi' & Es & Hrec). cbn [rbind].
  eexists (Some i'), _. split; [done|]. cbn. rewrite Es.
  destruct o as [t|]; split_and!; try done; try (by right). intros _. by exists t.
Qed.

Lemma update_histories_ok u h t : dp_inv (dp u) -> match iPred u with Some i => ip_inv i | None => True end ->
  (tid h < n)%nat -> in_u 64 (pc h) ->
  (if uncond h then bpHistory h = None else dp_looked (tid h) (pc h) (bpHistory h) (dp_spec (dp u))) ->
  match iPred u with Some i => indirectHistory h = None \/ ip_rec (tid h) (indirectHistory h) (ip_spec i)
                | None => indirectHistory h = None end ->
  exists s' i' bp ih, update_histories u h t = Ok (set_iPred (set_dp u s') i', with_indirect (with_bp h bp) ih) /\
    dp_inv s' /\ dp_rec (tid h) (pc h) (uncond h) bp (dp_spec (dp u)) /\
    dp_spec s' = dp_next (tid h) (pc h) (uncond h) (predTaken h) (dp_spec (dp u)) /\
    match i' with Some i => ip_inv i | None => True end /\ has i' = has (iPred u) /\
    ip_link (tid h) ih (option_map ip_spec (iPred u)) (option_map ip_spec i').
Proof.
  intros Hd Hi Htid Hp Hbp Hih. unfold update_histories.
  destruct (dp_updateHistories_ok (dp u) (tid h) (pc h) (uncond h) (predTaken h) (instAddr t) (bpHistory h) Hd Htid Hp Hbp)
    as (bp & s' & -> & Hs' & Es' & Hrec). cbn [rbind iPred set_dp]. destruct (iPred u) as [i|] eqn:Ei.
  - destruct (ip_update_ok i (tid h) (seqNum h) (pc h) (predTaken h) t (type h) (indirectHistory h) Hi Htid Hih)
      as (ih & i' & E & Hi' & Ei' & Hrec'). cbn [tid seqNum pc predTaken type indirectHistory with_bp]. rewrite E. cbn [rbind].
    exists s', (Some i'), bp, ih. split_and!; try done. cbn. split; [done|]. by exists (predTaken h).
  - exists s', None, bp, None. split_and!; try done. f_equal. f_equal.
    + unfold set_iPred, set_dp. cbn. by rewrite Ei.
    + unfold with_indirect, with_bp. destruct h; cbn in *. by subst.
Qed.

Lemma predict_record_ok i sn pc0 _tid u : inv u -> (_tid < n)%nat ->
  exists taken t h u', predict_record i sn pc0 _tid u = Ok (taken, t, h, u') /\ inv u' /\
    link _tid h (spec_of u) (spec_of u') /\ seqNum h = sn /\ pc h = instAddr pc0 /\ uncond h = isUncondCtrl i /\
    inst h = i /\ predHist u' = predHist u.
Proof.
  intros [Hd Hb Hr Hi Hn [Hhr Hhi]] Htid. unfold predict_record.
  set (h0 := PredictorHistory_new _tid sn (instAddr pc0) i).
  destruct (predict_direction_ok u h0) as (s1 & tk & bp & -> & Hs1 & Es1 & Hbp); [done|done|apply Hpc|done|done|]. cbn [rbind].
  set (h1 := with_direction h0 tk bp).
  destruct (predict_btb_ok (set_dp u s1) h1) as (h2 & -> & Ek2 & Eih2 & Erh2 & Ht2); [done|done|apply Hpc|done|]. cbn [rbind].
  unfold key in Ek2. injection Ek2 as Esn2 Etid2 Epc2 Ein2 Ety2 Ecall2 Eun2 Ebp2.
  destruct (predict_ras_ok (set_dp u s1) pc0 h2) as (r3 & h3 & -> & Ek3 & Eih3 & Ht3 & Hr3 & Hhas3 & Hty3 & Hu3);
    [done|by rewrite Etid2|by rewrite Erh2|done|by rewrite Ety2, Ein2|]. cbn [rbind].
  unfold key in Ek3. injection Ek3 as Esn3 Etid3 Epc3 Ein3 Ety3 Ecall3 Eun3 Ebp3.
  destruct (predict_indirect_ok (set_ras (set_dp u s1) r3) pc0 h3) as (i4 & h4 & -> & Ek4 & Erh4 & Ht4 & Hi4 & Es4 & Hih4);
    [done|by rewrite Etid3, Etid2|by rewrite Eih3, Eih2|done|]. cbn [rbind].
  unfold key in Ek4. injection Ek4 as Esn4 Etid4 Epc4 Ein4 Ety4 Ecall4 Eun4 Ebp4.
  set (h5 := with_taken (fall_through pc0 h4) _ _).
  assert (Ek5 : key h5 = key h4 /\ rasHistory h5 = rasHistory h4 /\ indirectHistory h5 = indirectHistory h4 /\
    exists t, target h5 = Some t).
  { unfold h5, fall_through. destruct (decide (targetProvider h4 = NoTarget)) as [E|E]; split_and!; try done; [by eexists|].
    by destruct (Ht4 E) as [t Et]; exists t. }
  destruct Ek5 as (Ek5 & Erh5 & Eih5 & t & Et). rewrite Et. cbn [deref rbind].
  unfold key in Ek5. injection Ek5 as Esn5 Etid5 Epc5 Ein5 Ety5 Ecall5 Eun5 Ebp5.
  assert (tid h5 = _tid) as Etid by (cbn in *; congruence). assert (pc h5 = instAddr pc0) as Epc by (cbn in *; congruence).
  assert (uncond h5 = isUncondCtrl i) as Eun by (cbn in *; congruence). assert (bpHistory h5 = bp) as Ebp by (cbn in *; congruence).
  assert (inst h5 = i) as Ein by (cbn in *; congruence). assert (seqNum h5 = sn) as Esn by (cbn in *; congruence).
  assert (type h5 = getBranchType i) as Ety by (cbn in *; congruence).
  assert (call h5 = isCall i) as Ecall by (cbn in *; congruence).
  assert (tid h2 = _tid) as Et2 by done. assert (tid h3 = _tid) as Et3 by congruence.
  rewrite Et2 in Hu3. rewrite Et3 in Hih4. rewrite Erh4 in Erh5. rewrite <- Erh5 in Hty3, Hu3. rewrite <- Eih5 in Hih4.
  clearbody h5. cbn in Hu3, Hih4, Hhas3, Es4.
  destruct (update_histories_ok (set_iPred (set_ras (set_dp u s1) r3) i4) h5 t) as
    (s6 & i6 & bp6 & ih6 & -> & Hs6 & Hrec6 & Es6 & Hi6 & Hhas6 & Hl6);
    rewrite ?Etid, ?Epc, ?Eun, ?Ebp; cbn; rewrite ?Es1; try done.
  rewrite Etid, Epc, Eun in *. cbn in Hrec6, Es6, Hhas6, Hl6. rewrite Es1 in Hrec6, Es6. rewrite Es4 in Hl6.
  assert (Hhas4 : has i4 = hi) by (rewrite <- Hhi; destruct i4, (iPred u); done).
  cbn [rbind]. eexists _, _, _, _. split; [done|]. split_and!; try done.
  - constructor; try done. cbn. split; congruence.
  - constructor; cbn; rewrite ?Epc, ?Eun; try done.
    + by exists t.
    + intros Hne. rewrite Ety. rewrite Ety2 in Hty3. by apply Hty3.
    + congruence.
    + congruence.
    + by exists (predTaken h5).
    + split; [rewrite <- Hhr; by destruct (ras u)|rewrite <- Hhi; by destruct (iPred u)].
Qed.

(** ** Runs of the unit *)

Inductive op :=
| Predict (i : StaticInst PC) (sn : Z) (pc0 : PC)
| Commit (sn : Z)
| Squash (sn : Z)
| Mispredict (sn : Z) (corr_target : PC) (taken : bool).

Definition exec (_tid : nat) (o : op) (u : bpu) : res bpu :=
  match o with
  | Predict i sn pc0 => let! (_, _, u) := predict i sn pc0 _tid u in Ok u
  | Commit sn => update sn _tid u
  | Squash sn => squash sn _tid u
  | Mispredict sn t taken => squash_mispredict sn t taken _tid u
  end.

Fixpoint run (_tid : nat) (os : list op) (u : bpu) : res bpu :=
  match os with
  | [] => Ok u
  | o :: os => let! u := exec _tid o u in run _tid os u
  end.

Section thread.
Context (t : nat) (Ht : (t < n)%nat).

Lemma chain_app l1 l2 b a : chain t (l1 ++ l2) b a <-> exists m, chain t l1 b m /\ chain t l2 m a.
Proof.
  revert b. induction l1 as [|h l1 IHl]; intros b; cbn.
  - split; [by exists b|]. by intros (m & -> & ?).
  - split.
    + intros (m & Hl & Hc). apply IHl in Hc as (m' & Hc1 & Hc2). exists m'. split; [by exists m|done].
    + intros (m' & (m & Hl & Hc1) & Hc2). exists m. split; [done|]. apply IHl. by exists m'.
Qed.

Lemma chain_links hs : forall b a, chain t hs b a -> Forall (fun h => exists a b, link t h a b) hs.
Proof.
  induction hs as [|h hs IHl]; intros b a Hc; constructor; destruct Hc as (m & Hl & Hc); [by exists m, b|by eapply IHl].
Qed.

(** Squashing pops the young records of [new] and stops before [old]. *)
Lemma bp_squash_loop_ok sn new : forall old u a, inv u -> chain t new (spec_of u) a ->
  match old with h :: _ => seqNum h <= sn | [] => True end ->
  exists gone new' u', new = gone ++ new' /\ squash_loop sn t (new ++ old) u = Ok (new' ++ old, u') /\ inv u' /\
    chain t new' (spec_of u') a /\ predHist u' = predHist u /\
    Forall (fun h => sn < seqNum h) gone /\ match new' with h :: _ => seqNum h <= sn | [] => True end.
Proof.
  induction new as [|h new IHl]; intros old u a Hinv Hc Hold; cbn [app].
  - exists [], [], u. split; [done|]. split; [|by split_and!]. destruct old as [|h old]; [done|].
    cbn [squash_loop app]. by destruct (Z.ltb_spec sn (seqNum h)); [lia|].
  - destruct Hc as (m & Hl & Hc). cbn [squash_loop]. destruct (Z.ltb_spec sn (seqNum h)).
    + destruct (squashHistory_ok t h m u Hinv Ht (link_recorded _ _ _ _ Hl)) as (h' & u1 & -> & Hinv1 & Hp1 & Hdel & Hs1). cbn [rbind].
      rewrite Hdel. cbn [rbind]. rewrite <- (Hs1 Hl) in Hc.
      destruct (IHl old u1 a Hinv1 Hc Hold) as (gone & new' & u' & -> & E & Hinv' & Hc' & Hp' & Hg & Hn').
      exists (h :: gone), new', u'. split_and!; try done; [congruence|by constructor].
    + exists [], (h :: new), u. split_and!; try done. by exists m.
Qed.

(** Committing pops old records from the back and stops before [stop]. *)
Lemma commit_loop_ok sn old : forall stop u, inv u -> Forall (fun h => exists a, recorded t h a) old ->
  match stop with h :: _ => sn < seqNum h | [] => True end ->
  exists gone old' u', old = gone ++ old' /\ commit_loop sn t (old ++ stop) u = Ok (old' ++ stop, u') /\ inv u' /\
    spec_of u' = spec_of u /\ predHist u' = predHist u.
Proof.
  induction old as [|h old IHl]; intros stop u Hinv Hall Hstop; cbn [app].
  - exists [], [], u. split; [done|]. split; [|done]. destruct stop as [|h stop]; [done|].
    cbn [commit_loop app]. by destruct (Z.leb_spec (seqNum h) sn); [lia|].
  - apply Forall_cons_1 in Hall as [(a & Hl) Hall]. cbn [commit_loop]. destruct (Z.leb_spec (seqNum h) sn).
    + destruct (commitBranch_ok t h a u Hinv Ht Hl) as (h' & u1 & -> & Hinv1 & Hs1 & Hp1 & Hdel). cbn [rbind].
      rewrite Hdel. cbn [rbind].
      destruct (IHl stop u1 Hinv1 Hall Hstop) as (gone & old' & u' & -> & E & Hinv' & Hs' & Hp').
      exists (h :: gone), old', u'. split_and!; try done; congruence.
    + by exists [], (h :: old), u.
Qed.

Lemma set_predHist_ok u hs : inv u -> exists ph, upd_ (predHist u) t hs = Ok ph /\ inv (set_predHist u ph) /\
  spec_of (set_predHist u ph) = spec_of u /\ predHist (set_predHist u ph) !! t = Some hs.
Proof.
  intros [Hd Hb Hr Hi Hn Hh]. exists (<[t := hs]> (predHist u)). split; [apply upd_Ok; lia|]. split_and!; try done.
  - constructor; try done. cbn. by rewrite length_insert.
  - cbn. apply list_lookup_insert_eq. lia.
Qed.

(** The records of the thread: [new] on top of [keep], predicted since the
    speculative state was [a0] and [a1], on top of the older ones. *)
Definition threaded (new keep old : list hist) (a0 a1 : spec) (u : bpu) : Prop :=
  inv u /\ predHist u !! t = Some (new ++ keep ++ old) /\ chain t new (spec_of u) a0 /\ chain t keep a0 a1 /\
  Forall (fun h => exists a b, link t h a b) old.

Lemma exec_predict i sn pc0 new keep old a0 a1 u : threaded new keep old a0 a1 u ->
  exists h u', exec t (Predict i sn pc0) u = Ok u' /\ seqNum h = sn /\ pc h = instAddr pc0 /\ uncond h = isUncondCtrl i /\
    link t h (spec_of u) (spec_of u') /\ threaded (h :: new) keep old a0 a1 u'.
Proof.
  intros (Hinv & Hp & Hn & Hk & Ho). cbn [exec]. unfold predict.
  destruct (predict_record_ok i sn pc0 t u Hinv Ht) as (tk & tg & h & u1 & -> & Hinv1 & Hl & Hsn & Hpch & Hun & _ & Hp1).
  cbn [rbind]. rewrite Hp1, (nth_lookup _ _ _ Hp). cbn [rbind]. rewrite <- Hp1.
  destruct (set_predHist_ok u1 (h :: new ++ keep ++ old) Hinv1) as (ph & -> & Hinv2 & Hs2 & Hp2). cbn [rbind].
  eexists h, _. split; [done|]. rewrite Hs2. split_and!; try done. unfold threaded. rewrite Hs2. split_and!; try done.
  by exists (spec_of u).
Qed.

Lemma exec_commit sn new keep old a0 a1 u : threaded new keep old a0 a1 u ->
  Forall (fun h => sn < seqNum h) (new ++ keep) ->
  exists old' u', exec t (Commit sn) u = Ok u' /\ spec_of u' = spec_of u /\ threaded new keep old' a0 a1 u' /\
    exists gone, old = old' ++ gone.
Proof.
  intros (Hinv & Hp & Hn & Hk & Ho) Hstop. cbn [exec]. unfold update. rewrite (nth_lookup _ _ _ Hp). cbn [rbind].
  rewrite app_assoc, rev_app_distr.
  destruct (commit_loop_ok sn (rev old) (rev (new ++ keep)) u Hinv) as (gone & old' & u1 & Eo & -> & Hinv1 & Hs1 & Hp1).
  { rewrite Forall_forall in *. intros h Hh. destruct (Ho h) as (a & b & Hl); [by apply in_rev|]. exists a. by eapply link_recorded. }
  { rewrite Forall_forall in Hstop. destruct (rev (new ++ keep)) as [|h l] eqn:E; [done|]. apply Hstop.
    apply in_rev. rewrite E. by left. }
  cbn [rbind]. rewrite rev_app_distr, rev_involutive, <- app_assoc.
  destruct (set_predHist_ok u1 (new ++ keep ++ rev old') Hinv1) as (ph & -> & Hinv2 & Hs2 & Hp2). cbn [rbind].
  assert (Eold : old = rev old' ++ rev gone) by (by rewrite <- rev_app_distr, <- Eo, rev_involutive).
  eexists (rev old'), _. split; [done|]. rewrite Hs2, Hs1. split; [done|]. split; [|by exists (rev gone)].
  unfold threaded. rewrite Hs2, Hs1. split_and!; try done. rewrite Eold, Forall_app in Ho. apply Ho.
Qed.

Lemma exec_squash sn new keep old a0 a1 u : threaded new keep old a0 a1 u ->
  match keep ++ old with h :: _ => seqNum h <= sn | [] => True end ->
  exists gone new' u', new = gone ++ new' /\ exec t (Squash sn) u = Ok u' /\ threaded new' keep old a0 a1 u' /\
    Forall (fun h => sn < seqNum h) gone /\ match new' with h :: _ => seqNum h <= sn | [] => True end.
Proof.
  intros (Hinv & Hp & Hn & Hk & Ho) Hstop. cbn [exec]. unfold squash. rewrite (nth_lookup _ _ _ Hp). cbn [rbind].
  destruct (bp_squash_loop_ok sn new (keep ++ old) u a0 Hinv Hn Hstop)
    as (gone & new' & u1 & -> & -> & Hinv1 & Hc1 & Hp1 & Hg & Hn'). cbn [rbind].
  destruct (set_predHist_ok u1 (new' ++ keep ++ old) Hinv1) as (ph & -> & Hinv2 & Hs2 & Hp2). cbn [rbind].
  exists gone, new'. eexists. by split_and!.
Qed.

(** The correction of the youngest record. *)
Lemma correct_front sn ct taken h new keep old a0 a1 u : threaded (h :: new) keep old a0 a1 u ->
  exists m h' u', chain t new m a0 /\
    (let! (h', u) := correct sn ct taken t h u in
     let! ph := upd_ (predHist u) t (h' :: new ++ keep ++ old) in Ok (set_predHist u ph)) = Ok u' /\
    seqNum h' = seqNum h /\ threaded (h' :: new) keep old a0 a1 u' /\
    sp_dp (spec_of u') = dp_next t (pc h) (uncond h) taken (sp_dp m).
Proof.
  intros (Hinv & Hp & (m & Hl & Hn) & Hk & Ho).
  destruct (unit_correct_ok sn ct taken t h m u Hinv Ht (link_recorded _ _ _ _ Hl)) as (h' & u1 & -> & Hinv1 & _ & Hsn & Hp1 & Hlk).
  destruct (Hlk Hl) as [Hl1 Hdp]. cbn [rbind].
  destruct (set_predHist_ok u1 (h' :: new ++ keep ++ old) Hinv1) as (ph & -> & Hinv2 & Hs2 & Hp2). cbn [rbind].
  eexists m, h', _. split_and!; try done. unfold threaded. rewrite Hs2. split_and!; try done.
  by exists m.
Qed.

Lemma exec_mispredict sn ct taken new keep old a0 a1 u : threaded new keep old a0 a1 u ->
  match keep ++ old with h :: _ => seqNum h <= sn | [] => True end -> (keep ++ old = [] \/ exists h, h ∈ new /\ seqNum h <= sn) ->
  exists gone new' u', exec t (Mispredict sn ct taken) u = Ok u' /\ threaded new' keep old a0 a1 u' /\
    map seqNum new = gone ++ map seqNum new'.
Proof.
  intros Hth Hstop Hne. destruct (exec_squash sn new keep old a0 a1 u Hth Hstop) as (gone & new' & u1 & -> & E & Hth1 & Hg & _).
  cbn [exec] in *. unfold squash_mispredict. rewrite E. cbn [rbind]. pose proof Hth1 as (_ & Hp1 & _).
  rewrite (nth_lookup _ _ _ Hp1). cbn [rbind]. destruct new' as [|h new'].
  - assert (keep ++ old = []) as Hko.
    { destruct Hne as [?|(h & Hh & Hle)]; [done|]. rewrite app_nil_r in Hh.
      rewrite Forall_forall in Hg. specialize (Hg h). rewrite list_elem_of_In in Hh. specialize (Hg Hh). cbn in Hg. lia. }
    cbn [app] in *. rewrite Hko. exists (map seqNum gone), [], u1. split_and!; try done. by rewrite !app_nil_r.
  - destruct (correct_front sn ct taken h new' keep old a0 a1 u1 Hth1) as (m & h' & u2 & _ & E2 & Hsn & Hth2 & _).
    cbn [app] in *. rewrite E2. exists (map seqNum gone), (h' :: new'), u2. split_and!; try done.
    rewrite map_app. cbn. by rewrite Hsn.
Qed.

(** Every run keeps the records linked. *)
Lemma run_threaded os : forall u hs base, threaded hs [] [] base base u ->
  exists u' hs' base', run t os u = Ok u' /\ threaded hs' [] [] base' base' u'.
Proof.
  induction os as [|o os IHos]; intros u hs base Hth; [by exists u, hs, base|]. cbn [run].
  assert (exists u1 hs1 base1, exec t o u = Ok u1 /\ threaded hs1 [] [] base1 base1 u1) as (u1 & hs1 & base1 & -> & Hth1).
  { destruct o as [i sn pc0|sn|sn|sn ct taken].
    - destruct (exec_predict i sn pc0 hs [] [] base base u Hth) as (h & u1 & E & _ & _ & _ & _ & Hth1).
      by exists u1, (h :: hs), base.
    - pose proof Hth as (Hinv & Hp & Hc & _ & _). rewrite !app_nil_r in Hp.
      destruct (exec_commit sn [] [] hs (spec_of u) (spec_of u) u) as (hs' & u1 & E & Hs & Hth1 & gone & ->); [|by apply Forall_nil|].
      { split_and!; try done. by eapply chain_links. }
      apply chain_app in Hc as (m & Hc1 & _). destruct Hth1 as (Hinv1 & Hp1 & _).
      exists u1, hs', m. split; [done|]. split_and!; try done; [by rewrite !app_nil_r|by rewrite Hs].
    - destruct (exec_squash sn hs [] [] base base u Hth Logic.I) as (gone & hs' & u1 & -> & E & Hth1 & _).
      by exists u1, hs', base.
    - destruct (exec_mispredict sn ct taken hs [] [] base base u Hth Logic.I (or_introl eq_refl)) as (gone & hs' & u1 & E & Hth1 & _).
      by exists u1, hs', base. }
  cbn [rbind]. by eapply IHos.
Qed.

(** *** Wrong paths

    Steps that happen after the branch with number [s]: younger branches are
    predicted, squashed and corrected, branches up to [c] commit. *)

Definition allowed (c s : Z) (o : op) (u : bpu) : Prop :=
  match o with
  | Predict _ sn _ => s < sn
  | Commit sn => sn <= c
  | Squash sn => s <= sn
  | Mispredict sn _ _ => s <= sn /\ exists hs h, predHist u !! t = Some hs /\ h ∈ hs /\ s < seqNum h <= sn
  end.

Inductive wrong_path (c s : Z) (u : bpu) : bpu -> Prop :=
| wp_start : wrong_path c s u u
| wp_step u1 u2 o : wrong_path c s u u1 -> allowed c s o u1 -> exec t o u1 = Ok u2 -> wrong_path c s u u2.

Lemma wrong_path_threaded c s u u1 keep old a1 : c <= s -> threaded [] keep old (spec_of u) a1 u ->
  Forall (fun h => c < seqNum h <= s) keep -> Forall (fun h => seqNum h <= s) old -> wrong_path c s u u1 ->
  exists new old', threaded new keep old' (spec_of u) a1 u1 /\ Forall (fun h => s < seqNum h) new /\
    exists gone, old = old' ++ gone.
Proof.
  intros Hcs Hth Hkeep Hold. induction 1 as [|u1 u2 o _ (new & old' & Hth1 & Hnew & gone & Eold) Hok E].
  { exists [], old. split_and!; [done|by apply Forall_nil|]. exists []. by rewrite app_nil_r. }
  assert (Hold' : Forall (fun h => seqNum h <= s) old') by (rewrite Eold, Forall_app in Hold; apply Hold).
  assert (Hstop : forall sn, s <= sn -> match keep ++ old' with h :: _ => seqNum h <= sn | [] => True end).
  { intros sn Hsn. destruct keep as [|h k]; cbn [app].
    - destruct old' as [|h o']; [done|]. inversion Hold'; subst. cbn in *. lia.
    - inversion Hkeep; subst. cbn in *. lia. }
  destruct o as [i sn pc0|sn|sn|sn ct taken]; cbn [allowed] in Hok.
  - destruct (exec_predict i sn pc0 new keep old' (spec_of u) a1 u1 Hth1) as (h & u3 & E3 & Hsn & _ & _ & _ & Hth3).
    assert (u3 = u2) as -> by congruence. exists (h :: new), old'. split_and!; [done|constructor; [lia|done]|by exists gone].
  - destruct (exec_commit sn new keep old' (spec_of u) a1 u1 Hth1) as (old'' & u3 & E3 & _ & Hth3 & gone' & Eg).
    { apply Forall_app. split; (eapply Forall_impl; [|eassumption]); cbn; intros; lia. }
    assert (u3 = u2) as -> by congruence. exists new, old''. split_and!; [done..|]. exists (gone' ++ gone).
    by rewrite Eold, Eg, app_assoc.
  - destruct (exec_squash sn new keep old' (spec_of u) a1 u1 Hth1 (Hstop sn Hok)) as (gone' & new' & u3 & -> & E3 & Hth3 & _).
    assert (u3 = u2) as -> by congruence. exists new', old'. apply Forall_app in Hnew as [_ Hnew].
    split_and!; [done..|by exists gone].
  - destruct Hok as (Hle & hs & h & Hp & Hh & Hlt). pose proof Hth1 as (_ & Hp1 & _). rewrite Hp in Hp1. injection Hp1 as ->.
    assert (h ∈ new) as Hin.
    { apply elem_of_app in Hh as [Hh|[Hh|Hh]%elem_of_app]; [done|exfalso..]; rewrite list_elem_of_In in Hh.
      - rewrite List.Forall_forall in Hkeep. specialize (Hkeep h Hh). cbn in Hkeep. lia.
      - rewrite List.Forall_forall in Hold'. specialize (Hold' h Hh). cbn in Hold'. lia. }
    destruct (exec_mispredict sn ct taken new keep old' (spec_of u) a1 u1 Hth1 (Hstop sn Hle)) as (gone' & new' & u3 & E3 & Hth3 & Em).
    { right. exists h. split; [done|lia]. }
    assert (u3 = u2) as -> by congruence. exists new', old'. split_and!; [done| |by exists gone].
    apply (proj2 (List.Forall_map seqNum (fun z => s < z) new)) in Hnew. rewrite Em in Hnew.
    apply Forall_app in Hnew as [_ Hnew]. by apply (proj1 (List.Forall_map seqNum (fun z => s < z) new')).
Qed.

(** C3: wrong-path execution leaves no trace: whatever happens after the branch
    [s] (younger branches predicted, squashed or corrected, older branches
    committed), squashing back to [s] gives the global, local and path histories
    and the tops of the return address stacks that the unit had then. *)
Theorem wrong_path_leaves_no_trace u0 os u hs s u1 : inv u0 -> predHist u0 !! t = Some [] -> run t os u0 = Ok u ->
  predHist u !! t = Some hs -> Forall (fun h => seqNum h <= s) hs -> wrong_path s s u u1 ->
  exists u2, squash s t u1 = Ok u2 /\ spec_of u2 = spec_of u /\
    exists hs' committed, predHist u2 !! t = Some hs' /\ hs = hs' ++ committed.
Proof.
  intros Hinv0 Hp0 Erun Hp Hs Hwp.
  destruct (run_threaded os u0 [] (spec_of u0)) as (u' & hs' & base & E & Hinv & Hp' & Hc & _).
  { by split_and!. }
  assert (u' = u) as -> by congruence. rewrite !app_nil_r, Hp in Hp'. injection Hp' as <-.
  destruct (wrong_path_threaded s s u u1 [] hs (spec_of u)) as (new & old' & Hth1 & Hnew & gone & Eold); [lia| |done..|].
  { split_and!; try done. by eapply chain_links. }
  destruct (exec_squash s new [] old' (spec_of u) (spec_of u) u1 Hth1) as (g & new' & u2 & -> & E2 & Hth2 & _ & Hn').
  { cbn [app]. destruct old' as [|h o']; [done|]. rewrite Eold in Hs. by inversion Hs. }
  assert (new' = []) as ->.
  { destruct new' as [|h new']; [done|]. apply Forall_app in Hnew as [_ Hnew]. inversion Hnew; subst. cbn in *. lia. }
  destruct Hth2 as (_ & Hp2 & Hs2 & _). exists u2. split_and!; [done|done|]. by exists old', gone.
Qed.

(** C23: a mispredicted branch is repaired: after the wrong path beyond branch [sn]
    has run, the misprediction leaves the direction predictor with exactly the
    histories it would have had if the branch had been predicted in its actual
    direction. *)
Theorem misprediction_repaired u0 os u i sn pc0 u1 u2 ct taken hs : inv u0 -> predHist u0 !! t = Some [] ->
  run t os u0 = Ok u -> predHist u !! t = Some hs -> Forall (fun h => seqNum h < sn) hs ->
  exec t (Predict i sn pc0) u = Ok u1 -> wrong_path (sn - 1) sn u1 u2 ->
  exists u3, squash_mispredict sn ct taken t u2 = Ok u3 /\
    dp_spec (dp u3) = dp_next t (instAddr pc0) (isUncondCtrl i) taken (dp_spec (dp u)).
Proof.
  intros Hinv0 Hp0 Erun Hp Hs Epred Hwp.
  destruct (run_threaded os u0 [] (spec_of u0)) as (u' & hs' & base & E & Hinv & Hp' & Hc & _).
  { by split_and!. }
  assert (u' = u) as -> by congruence. rewrite !app_nil_r, Hp in Hp'. injection Hp' as <-.
  assert (Hall : Forall (fun h => exists a b, link t h a b) hs).
  { by eapply chain_links. }
  destruct (exec_predict i sn pc0 [] [] hs (spec_of u) (spec_of u) u) as (h & u1' & E1 & Hsn & Hpch & Hun & Hl & Hth1).
  { by split_and!. }
  assert (u1' = u1) as -> by congruence.
  destruct (wrong_path_threaded (sn - 1) sn u1 u2 [h] hs (spec_of u)) as (new & old' & Hth2 & Hnew & _); [lia| | | |done|].
  { destruct Hth1 as (? & ? & ? & ? & ?). by split_and!. }
  { constructor; [lia|constructor]. }
  { eapply Forall_impl; [|exact Hs]. cbn. intros. lia. }
  destruct (exec_squash sn new [h] old' (spec_of u1) (spec_of u) u2 Hth2) as (g & new' & u3 & -> & E3 & Hth3 & _ & Hn').
  { cbn. lia. }
  assert (new' = []) as ->.
  { destruct new' as [|h' new']; [done|]. apply Forall_app in Hnew as [_ Hnew]. inversion Hnew; subst. cbn in *. lia. }
  assert (Hth4 : threaded [h] [] old' (spec_of u) (spec_of u) u3).
  { destruct Hth3 as (Hi & Hp3 & Hs3 & Hk & Ho). split_and!; try done. cbn in Hs3. by rewrite Hs3. }
  cbn [exec] in E3. unfold squash_mispredict. rewrite E3. cbn [rbind]. pose proof Hth4 as (_ & Hp4 & _).
  rewrite (nth_lookup _ _ _ Hp4). cbn [rbind app].
  destruct (correct_front sn ct taken h [] [] old' (spec_of u) (spec_of u) u3 Hth4) as (m & h' & u4 & -> & E4 & _ & _ & Hdp).
  cbn [app] in E4. exists u4. split; [done|]. rewrite <- Hpch, <- Hun. change (dp_spec (dp u4)) with (sp_dp (spec_of u4)).
  done.
Qed.
End thread.

(** ** Interleaved threads *)

(** The operations of all threads in the order they reach the unit. *)
Fixpoint run_threads (os : list (nat * op)) (u : bpu) : res bpu :=
  match os with
  | [] => Ok u
  | (_tid, o) :: os => let! u := exec _tid o u in run_threads os u
  end.

Definition all_recorded (_tid : nat) (hs : list hist) : Prop := Forall (fun h => exists a, recorded _tid h a) hs.

Definition unit_ok (u : bpu) : Prop := inv u /\ forall _tid hs, predHist u !! _tid = Some hs -> all_recorded _tid hs.

Lemma squash_loop_safe sn _tid hs : (_tid < n)%nat -> forall u, inv u -> all_recorded _tid hs ->
  exists hs' u', squash_loop sn _tid hs u = Ok (hs', u') /\ inv u' /\ predHist u' = predHist u /\ all_recorded _tid hs'.
Proof.
  intros Htid. induction hs as [|h hs IHl]; intros u Hinv Hall; [by exists [], u|]. cbn [squash_loop].
  destruct (sn <? seqNum h); [|by exists (h :: hs), u]. apply Forall_cons_1 in Hall as [[a Ha] Hall].
  destruct (squashHistory_ok _tid h a u Hinv Htid Ha) as (h' & u1 & -> & Hinv1 & Hp1 & Hdel & _). cbn [rbind].
  rewrite Hdel. cbn [rbind]. destruct (IHl u1 Hinv1 Hall) as (hs' & u' & -> & Hinv' & Hp' & Hall').
  exists hs', u'. split_and!; try done. congruence.
Qed.

(** Putting back the records of one thread. *)
Lemma unit_ok_put u u1 _tid hs : unit_ok u -> (_tid < n)%nat -> inv u1 -> predHist u1 = predHist u -> all_recorded _tid hs ->
  exists ph, upd_ (predHist u1) _tid hs = Ok ph /\ unit_ok (set_predHist u1 ph).
Proof.
  intros [_ Hall] Htid Hinv1 Hp1 Hhs. exists (<[_tid := hs]> (predHist u1)). pose proof (inv_threads _ Hinv1) as Hlen.
  split; [apply upd_Ok; lia|]. split.
  - destruct Hinv1. constructor; try done. cbn. by rewrite length_insert.
  - cbn. intros t l [(<- & <- & _)|[_ Hl]]%list_lookup_insert_Some; [done|]. apply Hall. congruence.
Qed.

Lemma unit_ok_thread u _tid : unit_ok u -> (_tid < n)%nat -> exists hs, nth_ (predHist u) _tid = Ok hs /\ all_recorded _tid hs.
Proof.
  intros [Hinv Hall] Htid. destruct (nth_Ok (predHist u) _tid) as (hs & E & Hl); [rewrite (inv_threads _ Hinv); lia|].
  exists hs. split; [done|]. by apply Hall.
Qed.

Lemma squash_safe sn _tid u : unit_ok u -> (_tid < n)%nat -> exists u', squash sn _tid u = Ok u' /\ unit_ok u'.
Proof.
  intros Hu Htid. destruct (unit_ok_thread u _tid Hu Htid) as (hs & E & Hhs). unfold squash. rewrite E. cbn [rbind].
  destruct (squash_loop_safe sn _tid hs Htid u (proj1 Hu) Hhs) as (hs' & u1 & -> & Hinv1 & Hp1 & Hhs'). cbn [rbind].
  destruct (unit_ok_put u u1 _tid hs' Hu Htid Hinv1 Hp1 Hhs') as (ph & -> & Hu'). cbn [rbind]. by eexists.
Qed.

Lemma exec_safe _tid o u : unit_ok u -> (_tid < n)%nat -> exists u', exec _tid o u = Ok u' /\ unit_ok u'.
Proof.
  intros Hu Htid. destruct o as [i sn pc0|sn|sn|sn ct taken]; cbn [exec].
  - unfold predict. destruct (predict_record_ok i sn pc0 _tid u (proj1 Hu) Htid) as (tk & tg & h & u1 & -> & Hinv1 & Hl & _ & _ & _ & _ & Hp1).
    cbn [rbind]. destruct (unit_ok_thread u _tid Hu Htid) as (hs & E & Hhs). rewrite Hp1, E, <- Hp1. cbn [rbind].
    destruct (unit_ok_put u u1 _tid (h :: hs) Hu Htid Hinv1 Hp1) as (ph & -> & Hu'); [|by eexists].
    constructor; [|done]. eexists. by eapply link_recorded.
  - unfold update. destruct (unit_ok_thread u _tid Hu Htid) as (hs & -> & Hhs). cbn [rbind].
    destruct (commit_loop_ok _tid Htid sn (rev hs) [] u (proj1 Hu)) as (gone & old & u1 & Eo & E & Hinv1 & _ & Hp1); [|done|].
    { unfold all_recorded in Hhs. rewrite List.Forall_forall in *. intros h Hh. apply Hhs. by apply in_rev. }
    rewrite !app_nil_r in E. rewrite E. cbn [rbind].
    destruct (unit_ok_put u u1 _tid (rev old) Hu Htid Hinv1 Hp1) as (ph & -> & Hu'); [|by eexists].
    unfold all_recorded in *. rewrite List.Forall_forall in *. intros h Hh. apply Hhs. apply in_rev. rewrite Eo. apply in_or_app.
    right. by apply in_rev.
  - by apply squash_safe.
  - unfold squash_mispredict. destruct (squash_safe sn _tid u Hu Htid) as (u1 & -> & Hu1). cbn [rbind].
    destruct (unit_ok_thread u1 _tid Hu1 Htid) as (hs & -> & Hhs). cbn [rbind]. destruct hs as [|h hs]; [by exists u1|].
    apply Forall_cons_1 in Hhs as [[a Ha] Hhs].
    destruct (unit_correct_ok sn ct taken _tid h a u1 (proj1 Hu1) Htid Ha) as (h' & u2 & -> & Hinv2 & Ha' & _ & Hp2 & _). cbn [rbind].
    destruct (unit_ok_put u1 u2 _tid (h' :: hs) Hu1 Htid Hinv2 Hp2) as (ph & -> & Hu'); [|by eexists]. constructor; [by exists a|done].
Qed.

(** C4: the unit never fails.  For a direction predictor, a target buffer and an
    indirect predictor that meet their interface laws (the local, tournament and
    bi-mode predictors, the simple buffer and the simple indirect predictor do; TAGE
    is not covered), a unit without branch records runs any interleaving of
    predictions, commits, squashes and misprediction repairs of its threads to the end:
    no assertion fires, no component's record leaks when a branch record is deleted,
    and no table is indexed out of its bounds. *)
Theorem unit_never_fails u os : inv u -> Forall (fun hs => hs = []) (predHist u) -> Forall (fun o => (fst o < n)%nat) os ->
  exists u', run_threads os u = Ok u' /\ inv u'.
Proof.
  intros Hinv He Hos.
  assert (Hu : unit_ok u).
  { split; [done|]. intros t hs Hl. rewrite Forall_lookup in He. rewrite (He t hs Hl). constructor. }
  clear Hinv He. revert u Hu. induction Hos as [|[t o] os Ht _ IHos]; intros u Hu; cbn [run_threads]; [exists u; split; [done|apply Hu]|].
  destruct (exec_safe t o u Hu Ht) as (u1 & -> & Hu1). cbn [rbind]. by apply IHos.
Qed.
End unit.

(** ** A unit with a tournament predictor *)

Module Demo.

Definition tcfg : Tournament.config := Tournament.mkConfig 2 4 3 4 3 3 3 1 1 1.
Definition bcfg : SimpleBTB.config := SimpleBTB.mkConfig 4 3 255 2 4 0.
Definition icfg : SimpleIndirect.config := SimpleIndirect.mkConfig true true 4 2 8 2 8 2 255.
Definition addr (p : Z) : Z := wrap 64 p.
Definition rnd (i : nat) : Z := 7.

Lemma addr_range p : in_u 64 (addr p).
Proof. apply wrap_range. lia. Qed.

Lemma tcfg_ok : Tournament.cfg_ok tcfg.
Proof. constructor; [exists 2|exists 2|exists 2|exists 2|]; split_and!; reflexivity || (cbn; lia). Qed.

Lemma icfg_ok : SimpleIndirect.cfg_ok icfg.
Proof. constructor; [exists 2; split_and!; reflexivity || lia|reflexivity..]. Qed.

Lemma rnd_pos i : 0 <= rnd i.
Proof. unfold rnd. lia. Qed.

#[global] Instance D : DirPred Tournament.t Tournament.BPHistory (StaticInst Z) := Tournament.dirpred tcfg _.
#[global] Instance LD : DirPredLaws D 1 := Tournament.laws tcfg tcfg_ok 1 _.
#[global] Instance T : BranchTargetBuffer (SimpleBTB.t Z (StaticInst Z)) Z (StaticInst Z) := SimpleBTB.buffer bcfg.
#[global] Instance LT : BTBLaws T 1 := SimpleBTB.laws bcfg 1.
#[global] Instance P : IndirectPredictor (SimpleIndirect.t Z) SimpleIndirect.IndirectHistory Z :=
  SimpleIndirect.predictor addr rnd icfg.
#[global] Instance LP : IndirectLaws P 1 := SimpleIndirect.laws addr rnd icfg icfg_ok 1 rnd_pos.

Definition ctr : SatCounter.SatCounter := SatCounter.mkSat 0 3 0.

Definition unit0 : BPredUnit Tournament.t Tournament.BPHistory (SimpleBTB.t Z (StaticInst Z)) (SimpleIndirect.t Z)
    SimpleIndirect.IndirectHistory Z :=
  mkBPU (Tournament.mk (replicate 4 ctr) (replicate 4 0) (replicate 4 ctr) [0] (replicate 4 ctr))
    (SimpleBTB.mk (replicate 4 (SimpleBTB.mkEntry 0 None 0 false None)))
    (Some (mkRAS [AddrStack.init 4]))
    (Some (SimpleIndirect.mk (replicate 4 (replicate 2 (SimpleIndirect.mkEntry 0 None)))
             [SimpleIndirect.mkTI [] 0] 0))
    [[]].

Definition call_inst : StaticInst Z := mkInst true false false true false true (fun _ c => c + 4) (fun p => p + 4).
Definition ret_inst : StaticInst Z := mkInst false true false true false true (fun _ c => c + 4) (fun p => p + 4).
Definition cond_inst : StaticInst Z := mkInst false false true false true false (fun _ c => c + 4) (fun p => p + 4).

Lemma unit0_inv : inv (n := 1) 4 true true unit0.
Proof.
  constructor.
  - constructor; reflexivity.
  - constructor; [exists 2; split_and!; reflexivity || lia|reflexivity].
  - cbn. split; [reflexivity|]. constructor; [|constructor]. split; [|reflexivity]. apply AddrStack.init_wf. lia.
  - cbn. constructor; [reflexivity..|]. cbn. repeat constructor.
  - reflexivity.
  - split; reflexivity.
Qed.

(** The same with two threads. *)
Definition unit02 : BPredUnit Tournament.t Tournament.BPHistory (SimpleBTB.t Z (StaticInst Z)) (SimpleIndirect.t Z)
    SimpleIndirect.IndirectHistory Z :=
  mkBPU (Tournament.mk (replicate 4 ctr) (replicate 4 0) (replicate 4 ctr) [0; 0] (replicate 4 ctr))
    (SimpleBTB.mk (replicate 4 (SimpleBTB.mkEntry 0 None 0 false None)))
    (Some (mkRAS [AddrStack.init 4; AddrStack.init 4]))
    (Some (SimpleIndirect.mk (replicate 4 (replicate 2 (SimpleIndirect.mkEntry 0 None)))
             [SimpleIndirect.mkTI [] 0; SimpleIndirect.mkTI [] 0] 0))
    [[]; []].

#[global] Instance LD2 : DirPredLaws D 2 := Tournament.laws tcfg tcfg_ok 2 _.
#[global] Instance LT2 : BTBLaws T 2 := SimpleBTB.laws bcfg 2.
#[global] Instance LP2 : IndirectLaws P 2 := SimpleIndirect.laws addr rnd icfg icfg_ok 2 rnd_pos.

Lemma unit02_inv : inv (n := 2) 4 true true unit02.
Proof.
  constructor.
  - constructor; reflexivity.
  - constructor; [exists 2; split_and!; reflexivity || lia|reflexivity].
  - cbn. split; [reflexivity|]. repeat constructor; lia || reflexivity || (cbn; lia).
  - cbn. constructor; [reflexivity..|]. cbn. repeat constructor.
  - reflexivity.
  - split; reflexivity.
Qed.

(** A call and a conditional branch in flight, then a return on the wrong path. *)
Definition ok_or {A} (d : A) (r : res A) : A := match r with Ok a => a | Err _ => d end.
Definition unit1 := ok_or unit0 (run addr true 0 [Predict call_inst 1 0x100] unit0).
Definition unit2 := ok_or unit0 (exec addr true 0 (Predict cond_inst 2 0x200) unit1).
Definition unit3 := ok_or unit0 (exec addr true 0 (Predict ret_inst 3 0x204) unit2).
End Demo.

Lemma unit_never_fails_witness :
  exists u', run_threads Demo.addr true
    [(0%nat, Predict Demo.call_inst 1 0x100); (1%nat, Predict Demo.cond_inst 1 0x200); (0%nat, Predict Demo.cond_inst 2 0x200);
     (1%nat, Mispredict 1 0x300 true); (0%nat, Mispredict 2 0x300 true);
     (0%nat, Predict Demo.ret_inst 3 0x300); (1%nat, Commit 1); (0%nat, Squash 2); (0%nat, Commit 2)] Demo.unit02 = Ok u' /\
    inv (n := 2) 4 true true u'.
Proof.
  apply (unit_never_fails (n := 2) Demo.addr true 4 Demo.addr_range true true);
    [apply Demo.unit02_inv|repeat constructor|repeat constructor].
Defined.

Lemma wrong_path_leaves_no_trace_witness :
  exists u2, squash 2 0 Demo.unit3 = Ok u2 /\ spec_of (n := 1) u2 = spec_of Demo.unit2 /\
    exists hs' committed, predHist u2 !! 0%nat = Some hs' /\ default [] (predHist Demo.unit2 !! 0%nat) = hs' ++ committed.
Proof.
  apply (wrong_path_leaves_no_trace (n := 1) Demo.addr true 4 Demo.addr_range true true 0 (Nat.lt_0_1) Demo.unit0
    [Predict Demo.call_inst 1 0x100; Predict Demo.cond_inst 2 0x200]).
  - apply Demo.unit0_inv.
  - reflexivity.
  - vm_compute. reflexivity.
  - vm_compute. reflexivity.
  - apply List.Forall_forall. intros h. vm_compute. intuition (subst; done).
  - eapply (wp_step _ _ _ _ _ _ _ _ (Predict Demo.ret_inst 3 0x204)); [apply wp_start|cbn; lia|].
    vm_compute. reflexivity.
Defined.

Lemma misprediction_repaired_witness :
  exists u3, squash_mispredict Demo.addr true 2 0x500 true 0 Demo.unit3 = Ok u3 /\
    dp_spec (n := 1) (dp u3) = dp_next (n := 1) 0 (Demo.addr 0x200) false true (dp_spec (n := 1) (dp Demo.unit1)).
Proof.
  apply (misprediction_repaired (n := 1) Demo.addr true 4 Demo.addr_range true true 0 Nat.lt_0_1 Demo.unit0
    [Predict Demo.call_inst 1 0x100] Demo.unit1 Demo.cond_inst 2 0x200 Demo.unit2 Demo.unit3 0x500 true
    (default [] (predHist Demo.unit1 !! 0%nat))).
  - apply Demo.unit0_inv.
  - reflexivity.
  - vm_compute. reflexivity.
  - vm_compute. reflexivity.
  - apply List.Forall_forall. intros h. vm_compute. intuition (subst; done).
  - vm_compute. reflexivity.
  - eapply (wp_step _ _ _ _ _ _ _ _ (Predict Demo.ret_inst 3 0x204)); [apply wp_start|cbn; lia|].
    vm_compute. reflexivity.
Defined.
