(* ===== verification/RenameMap.v ===== *)
(** * Physical registers, free lists, rename maps and the scoreboard

    [cpu/reg_class.hh], [cpu/o3/regfile.cc], [cpu/o3/free_list.hh],
    [cpu/o3/rename_map.hh], [cpu/o3/rename_map.cc], [cpu/o3/scoreboard.hh] and the
    part of the constructor of [cpu/o3/cpu.cc] that binds the architectural
    registers.  A [PhysRegIdPtr] is the class and the index of the register it
    points to; the register file holds one object for each, with the counters of
    pinned writes.  The contents of the registers are not part of the model. *)

From Stdlib Require Import ZArith Lia Bool.
From stdpp Require Import base tactics option list numbers gmap.
From S2P Require Import Prelude.
Open Scope Z_scope.

(** ** Registers *)

Inductive RegClassType : Type :=
| IntRegClass | FloatRegClass | VecRegClass | VecElemClass | VecPredRegClass | MatRegClass | CCRegClass
| MiscRegClass | InvalidRegClass.

#[export] Instance RegClassType_eq_dec : EqDecision RegClassType.
Proof. solve_decision. Defined.

(** The value of the enumeration as an index of the arrays over the classes up to
    [CCRegClass]; the index of [InvalidRegClass] ([-1]) is out of range, like 8. *)
Definition cls (c : RegClassType) : nat :=
  match c with
  | IntRegClass => 0 | FloatRegClass => 1 | VecRegClass => 2 | VecElemClass => 3 | VecPredRegClass => 4
  | MatRegClass => 5 | CCRegClass => 6 | MiscRegClass => 7 | InvalidRegClass => 8
  end.

Definition classes : list RegClassType :=
  [IntRegClass; FloatRegClass; VecRegClass; VecElemClass; VecPredRegClass; MatRegClass; CCRegClass].

Definition renameable (c : RegClassType) : bool :=
  match c with MiscRegClass | InvalidRegClass => false | _ => true end.

Record RegId := mkReg { classValue : RegClassType; index : nat; numPinnedWrites : Z }.

Definition isRenameable (r : RegId) : bool := renameable (classValue r).
Definition is_ (r : RegId) (c : RegClassType) : bool := bool_decide (classValue r = c).

(** A [PhysRegIdPtr]. *)
Record preg := mkP { pclass : RegClassType; pindex : nat }.

#[export] Instance preg_eq_dec : EqDecision preg.
Proof. solve_decision. Defined.

Definition class_of (n : nat) : RegClassType :=
  match n with 7 => MiscRegClass | _ => nth n classes InvalidRegClass end%nat.

#[export] Program Instance preg_countable : Countable preg :=
  inj_countable' (fun p => (cls (pclass p), pindex p)) (fun '(c, i) => mkP (class_of c) i) _.
Next Obligation. by intros [[] i]. Qed.

(** The object pointed to. *)
Record PhysRegId := mkPhys {
  flatIdx : Z;                     (* RegIndex, 32 bits *)
  getNumPinnedWrites : Z;          (* int *)
  numPinnedWritesToComplete : Z;   (* int *)
  pinned : bool
}.

Definition isFixedMapping (p : preg) : bool := negb (renameable (pclass p)).

Definition setNumPinnedWrites (n : Z) (r : PhysRegId) : PhysRegId :=
  mkPhys (flatIdx r) n (numPinnedWritesToComplete r) (negb (n =? 0)).
Definition decrNumPinnedWrites (r : PhysRegId) : PhysRegId :=
  mkPhys (flatIdx r) (getNumPinnedWrites r - 1) (numPinnedWritesToComplete r) (pinned r).
Definition incrNumPinnedWrites (r : PhysRegId) : PhysRegId :=
  mkPhys (flatIdx r) (getNumPinnedWrites r + 1) (numPinnedWritesToComplete r) (pinned r).
Definition setNumPinnedWritesToComplete (n : Z) (r : PhysRegId) : PhysRegId :=
  mkPhys (flatIdx r) (getNumPinnedWrites r) n (pinned r).
Definition decrNumPinnedWritesToComplete (r : PhysRegId) : PhysRegId :=
  setNumPinnedWritesToComplete (numPinnedWritesToComplete r - 1) r.
Definition incrNumPinnedWritesToComplete (r : PhysRegId) : PhysRegId :=
  setNumPinnedWritesToComplete (numPinnedWritesToComplete r + 1) r.

(** ** The register file *)

Abbreviation regfile := (gmap preg PhysRegId).

Definition class_regs (c : RegClassType) (n : nat) : list preg := map (mkP c) (seq 0 n).

(** The renameable registers, in the order of the constructor. *)
Definition physRegs (phys : RegClassType -> nat) : list preg :=
  concat (map (fun c => class_regs c (phys c)) classes).

(** [UnifiedRenameMap::invalidPhysRegId]. *)
Definition invalidPhysRegId : preg := mkP InvalidRegClass 0.

Definition PhysRegFile_new (phys : RegClassType -> nat) (numMisc : nat) : regfile :=
  list_to_map (imap (fun flat p => (p, mkPhys (wrap 32 (Z.of_nat flat)) 0 0 false)) (physRegs phys)) ∪
  list_to_map (map (fun p => (p, mkPhys 0 0 0 false)) (class_regs MiscRegClass numMisc)) ∪
  {[invalidPhysRegId := mkPhys (wrap 32 (-1)) 0 0 false]}.

(** ** Free lists *)

Module SimpleFreeList.

Definition addReg (r : preg) (freeRegs : list preg) : list preg := freeRegs ++ [r].

Definition getReg (freeRegs : list preg) : res (preg * list preg) :=
  check! negb (bool_decide (freeRegs = []));
  match freeRegs with
  | free_reg :: rest => Ok (free_reg, rest)
  | [] => Err OutOfRange
  end.

End SimpleFreeList.

Definition getReg (type : RegClassType) (freeLists : list (list preg)) : res (preg * list (list preg)) :=
  let! l := nth_ freeLists (cls type) in
  let! (r, l) := SimpleFreeList.getReg l in
  let! freeLists := upd_ freeLists (cls type) l in
  Ok (r, freeLists).

Definition addReg (freed_reg : preg) (freeLists : list (list preg)) : res (list (list preg)) :=
  let! l := nth_ freeLists (cls (pclass freed_reg)) in
  upd_ freeLists (cls (pclass freed_reg)) (SimpleFreeList.addReg freed_reg l).

Fixpoint addRegs (rs : list preg) (freeLists : list (list preg)) : res (list (list preg)) :=
  match rs with
  | [] => Ok freeLists
  | r :: rs => let! freeLists := addReg r freeLists in addRegs rs freeLists
  end.

(** [PhysRegFile::initFreeList] on a new list; the assertions on the indices hold
    by the construction of the file. *)
Definition UnifiedFreeList_new (phys : RegClassType -> nat) : res (list (list preg)) :=
  addRegs (physRegs phys) (replicate (length classes) []).

(** ** Rename maps *)

(** [renameMaps]: for each class the vector of the physical registers. *)
Abbreviation umap := (list (list (option preg))).

Definition UnifiedRenameMap_init (arch : RegClassType -> nat) : umap :=
  map (fun c => replicate (arch c) None) classes.

(** The free lists, the register file and the scoreboard are shared by the threads
    and the stages of the pipeline. *)
Record Regs := mkRegs {
  ids : regfile;
  numMisc : nat;
  freeLists : list (list preg);
  regScoreBoard : list bool
}.

Module SimpleRenameMap.

Definition rename (arch_reg : RegId) (map : list (option preg)) (freeList : list preg) (ids : regfile) :
    res (preg * preg * list (option preg) * list preg * regfile) :=
  let! prev := nth_ map (index arch_reg) in
  if is_ arch_reg InvalidRegClass then
    let! prev_reg := deref prev in
    check! bool_decide (pclass prev_reg = InvalidRegClass);
    Ok (prev_reg, prev_reg, map, freeList, ids)
  else
    let! prev_reg := deref prev in
    let! pr := deref (ids !! prev_reg) in
    if 0 <? getNumPinnedWrites pr then
      check! numPinnedWrites arch_reg =? 0;
      Ok (prev_reg, prev_reg, map, freeList, <[prev_reg := decrNumPinnedWrites pr]> ids)
    else
      let! (renamed_reg, freeList) := SimpleFreeList.getReg freeList in
      let! map := upd_ map (index arch_reg) (Some renamed_reg) in
      let! rr := deref (ids !! renamed_reg) in
      let rr := setNumPinnedWrites (numPinnedWrites arch_reg) rr in
      let rr := setNumPinnedWritesToComplete (numPinnedWrites arch_reg + 1) rr in
      Ok (renamed_reg, prev_reg, map, freeList, <[renamed_reg := rr]> ids).

Definition lookup (arch_reg : RegId) (map : list (option preg)) : res (option preg) :=
  check! (index arch_reg <=? length map)%nat;
  nth_ map (index arch_reg).

Definition setEntry (arch_reg : RegId) (phys_reg : preg) (map : list (option preg)) : res (list (option preg)) :=
  check! (index arch_reg <=? length map)%nat;
  upd_ map (index arch_reg) (Some phys_reg).

End SimpleRenameMap.

(** [UnifiedRenameMap::lookup]; the address of a register past the last
    miscellaneous one is out of range. *)
Definition lookup (arch_reg : RegId) (renameMaps : umap) (g : Regs) : res (option preg) :=
  match classValue arch_reg with
  | InvalidRegClass => Ok (Some invalidPhysRegId)
  | MiscRegClass =>
      if (index arch_reg <? numMisc g)%nat then Ok (Some (mkP MiscRegClass (index arch_reg))) else Err OutOfRange
  | reg_class => let! m := nth_ renameMaps (cls reg_class) in SimpleRenameMap.lookup arch_reg m
  end.

(** [UnifiedRenameMap::rename]: the new and the previous physical register. *)
Definition rename (arch_reg : RegId) (renameMaps : umap) (g : Regs) : res (preg * preg * umap * Regs) :=
  if negb (isRenameable arch_reg) then
    let! p := lookup arch_reg renameMaps g in
    let! phys_reg := deref p in
    Ok (phys_reg, phys_reg, renameMaps, g)
  else
    let k := cls (classValue arch_reg) in
    let! m := nth_ renameMaps k in
    let! fl := nth_ (freeLists g) k in
    let! (renamed_reg, prev_reg, m, fl, ids) := SimpleRenameMap.rename arch_reg m fl (ids g) in
    let! renameMaps := upd_ renameMaps k m in
    let! fls := upd_ (freeLists g) k fl in
    Ok (renamed_reg, prev_reg, renameMaps, mkRegs ids (numMisc g) fls (regScoreBoard g)).

Definition setEntry (arch_reg : RegId) (phys_reg : preg) (renameMaps : umap) (g : Regs) : res umap :=
  check! bool_decide (pclass phys_reg = classValue arch_reg);
  if negb (isRenameable arch_reg) then
    let! p := lookup arch_reg renameMaps g in
    check! bool_decide (p = Some phys_reg);
    Ok renameMaps
  else
    let k := cls (classValue arch_reg) in
    let! m := nth_ renameMaps k in
    let! m := SimpleRenameMap.setEntry arch_reg phys_reg m in
    upd_ renameMaps k m.

(** [UnifiedRenameMap::numFreeEntries]. *)
Definition numFreeEntries (type : RegClassType) (g : Regs) : res nat :=
  let! l := nth_ (freeLists g) (cls type) in Ok (length l).

(** [canRename], on the number of destination registers of each class. *)
Fixpoint can_rename_loop (cs : list RegClassType) (numDestRegs : RegClassType -> nat) (g : Regs) : res bool :=
  match cs with
  | [] => Ok true
  | c :: cs =>
      let! n := numFreeEntries c g in
      if (n <? numDestRegs c)%nat then Ok false else can_rename_loop cs numDestRegs g
  end.

Definition canRename (numDestRegs : RegClassType -> nat) (g : Regs) : res bool :=
  can_rename_loop classes numDestRegs g.

(** [minFreeEntries]: the classes without architectural registers do not count. *)
Fixpoint min_free_loop (cs : list RegClassType) (renameMaps : umap) (g : Regs) (min_free : Z) : res Z :=
  match cs with
  | [] => Ok min_free
  | c :: cs =>
      let! m := nth_ renameMaps (cls c) in
      let! n := numFreeEntries c g in
      min_free_loop cs renameMaps g (if (length m =? 0)%nat then min_free else Z.min min_free (Z.of_nat n))
  end.

Definition minFreeEntries (renameMaps : umap) (g : Regs) : res Z :=
  min_free_loop classes renameMaps g (2 ^ 32 - 1).

(** ** The scoreboard *)

Module Scoreboard.

Definition getReg (phys_reg : preg) (g : Regs) : res bool :=
  if isFixedMapping phys_reg then Ok true
  else
    let! r := deref (ids g !! phys_reg) in
    check! flatIdx r <? Z.of_nat (length (regScoreBoard g));
    nth_ (regScoreBoard g) (Z.to_nat (flatIdx r)).

Definition write (v : bool) (phys_reg : preg) (g : Regs) : res Regs :=
  if isFixedMapping phys_reg then Ok g
  else
    let! r := deref (ids g !! phys_reg) in
    check! flatIdx r <? Z.of_nat (length (regScoreBoard g));
    let! b := upd_ (regScoreBoard g) (Z.to_nat (flatIdx r)) v in
    Ok (mkRegs (ids g) (numMisc g) (freeLists g) b).

Definition setReg : preg -> Regs -> res Regs := write true.
Definition unsetReg : preg -> Regs -> res Regs := write false.

End Scoreboard.

(** ** Binding the architectural registers *)

(** The parameters of the CPU, the registers of the ISA and the number of threads. *)
Record Params := mkParams {
  numPhysIntRegs : nat; numPhysFloatRegs : nat; numPhysVecRegs : nat; numPhysVecPredRegs : nat;
  numPhysMatRegs : nat; numPhysCCRegs : nat
}.

(** The counts of [PhysRegFile]; the vector elements follow the vector registers. *)
Definition numPhys (p : Params) (arch : RegClassType -> nat) (c : RegClassType) : nat :=
  match c with
  | IntRegClass => numPhysIntRegs p
  | FloatRegClass => numPhysFloatRegs p
  | VecRegClass => numPhysVecRegs p
  | VecElemClass => numPhysVecRegs p * (arch VecElemClass / arch VecRegClass)
  | VecPredRegClass => numPhysVecPredRegs p
  | MatRegClass => numPhysMatRegs p
  | CCRegClass => numPhysCCRegs p
  | MiscRegClass | InvalidRegClass => 0
  end.

(** The classes whose sizes are checked, in the order of the [panic_if]s. *)
Definition checked : list RegClassType :=
  [IntRegClass; FloatRegClass; VecRegClass; VecPredRegClass; MatRegClass; CCRegClass].

Definition enough_regs (p : Params) (arch : RegClassType -> nat) (numThreads : nat) : bool :=
  forallb (fun c => negb ((numPhys p arch c <=? numThreads * arch c) && negb (arch c =? 0)))%nat checked.

(** The loop over the registers of all the classes for one thread. *)
Fixpoint bind_regs (rs : list RegId) (renameMaps : umap) (g : Regs) : res (umap * Regs) :=
  match rs with
  | [] => Ok (renameMaps, g)
  | id :: rs =>
      let! (phys_reg, fls) := getReg (classValue id) (freeLists g) in
      let g := mkRegs (ids g) (numMisc g) fls (regScoreBoard g) in
      let! renameMaps := setEntry id phys_reg renameMaps g in
      bind_regs rs renameMaps g
  end.

Definition archRegs (arch : RegClassType -> nat) : list RegId :=
  concat (map (fun c => map (fun i => mkReg c i 0) (seq 0 (arch c))) classes).

Fixpoint bind_threads (n : nat) (arch : RegClassType -> nat) (g : Regs) : res (list umap * Regs) :=
  match n with
  | O => Ok ([], g)
  | S n =>
      let! (ms, g) := bind_threads n arch g in
      let! (m, g) := bind_regs (archRegs arch) (UnifiedRenameMap_init arch) g in
      Ok (ms ++ [m], g)
  end.

(** The rename maps of all threads, of which the active ones are bound, and the
    shared state; a division by the
    number of vector registers happens before anything is checked. *)
Definition cpu_regs (p : Params) (arch : RegClassType -> nat) (numThreads active_threads : nat) :
    res (list umap * Regs) :=
  if (arch VecRegClass =? 0)%nat then Err OutOfRange else
  let phys := numPhys p arch in
  let! fls := UnifiedFreeList_new phys in
  let total := list_sum (map phys classes) in
  let g := mkRegs (PhysRegFile_new phys (arch MiscRegClass)) (arch MiscRegClass) fls (replicate total true) in
  if negb (enough_regs p arch numThreads) then Err Panicked else
  let! (ms, g) := bind_threads active_threads arch g in
  Ok (ms ++ replicate (numThreads - active_threads) (UnifiedRenameMap_init arch), g).

(** ** Ownership of the physical registers *)

Lemma concat_insert_Permutation {A} (l : list (list A)) k x y : l !! k = Some x ->
  exists rest, concat l ≡ₚ x ++ rest /\ concat (<[k := y]> l) ≡ₚ y ++ rest.
Proof.
  intros Hk. exists (concat (take k l) ++ concat (drop (S k) l)).
  assert (Hlt : (k < length l)%nat) by (by apply lookup_lt_Some in Hk).
  split.
  - rewrite <- (take_drop_middle l k x Hk) at 1. rewrite concat_app. simpl. solve_Permutation.
  - rewrite (insert_take_drop l k y Hlt), concat_app. simpl. solve_Permutation.
Qed.

Lemma omap_id_insert {A} (l : list (option A)) i o p : l !! i = Some o ->
  omap id (<[i := Some p]> l) ++ option_list o ≡ₚ p :: omap id l.
Proof.
  revert i. induction l as [|a l IH]; intros [|i] Hi; try done; simpl in Hi.
  - injection Hi as ->. simpl. destruct o; simpl; solve_Permutation.
  - simpl. destruct a; simpl; rewrite (IH i Hi); solve_Permutation.
Qed.

(** The physical registers a rename map refers to. *)
Definition mapped (m : umap) : list preg := omap id (concat m).

Lemma mapped_insert (m : umap) k mp i o p : m !! k = Some mp -> mp !! i = Some o ->
  mapped (<[k := <[i := Some p]> mp]> m) ++ option_list o ≡ₚ p :: mapped m.
Proof.
  intros Hk Hi. destruct (concat_insert_Permutation m k mp (<[i := Some p]> mp) Hk) as (rest & H1 & H2).
  unfold mapped. rewrite H1, H2, !omap_app. change (p :: omap id mp ++ omap id rest) with ((p :: omap id mp) ++ omap id rest).
  rewrite <- (omap_id_insert mp i o p Hi). solve_Permutation.
Qed.

(** The entry of an architectural register. *)
Definition mget (m : umap) (r : RegId) : option preg :=
  mp ← m !! cls (classValue r); o ← mp !! index r; o.

Lemma mget_mapped m r p : mget m r = Some p -> p ∈ mapped m.
Proof.
  unfold mget, mapped. intros (mp & Hm & (o & Hi & ->)%bind_Some)%bind_Some.
  apply list_elem_of_omap. exists (Some p). split; [|done]. apply list_elem_of_In, in_concat. exists mp.
  split; apply list_elem_of_In; by eapply list_elem_of_lookup_2.
Qed.

Section maps.
(** The registers of the ISA. *)
Variable arch : RegClassType -> nat.

Definition in_range (nm : nat) (r : RegId) : Prop :=
  match classValue r with
  | InvalidRegClass => True
  | MiscRegClass => (index r < nm)%nat
  | c => (index r < arch c)%nat
  end.

(** A bound rename map: every architectural register has a physical register of its
    class. *)
Record map_ok (m : umap) : Prop := {
  map_len : length m = length classes;
  map_entries : forall c i, renameable c = true -> (i < arch c)%nat ->
    exists mp p, m !! cls c = Some mp /\ mp !! i = Some (Some p) /\ pclass p = c
}.

Record lists_ok (fls : list (list preg)) : Prop := {
  lists_len : length fls = length classes;
  lists_class : forall c l p, fls !! cls c = Some l -> p ∈ l -> pclass p = c
}.

Lemma cls_lt c : renameable c = true -> (cls c < length classes)%nat.
Proof. destruct c; simpl; (lia || done). Qed.

Lemma cls_inj c c' : cls c = cls c' -> c = c'.
Proof. by destruct c, c'. Qed.

Lemma fls_lookup fls c : lists_ok fls -> renameable c = true -> exists l, fls !! cls c = Some l.
Proof. intros [Hl _] Hc. apply lookup_lt_is_Some_2. rewrite Hl. by apply cls_lt. Qed.

Lemma map_lookup m r : map_ok m -> isRenameable r = true -> (index r < arch (classValue r))%nat ->
  exists mp p, m !! cls (classValue r) = Some mp /\ mp !! index r = Some (Some p) /\
    mget m r = Some p /\ pclass p = classValue r.
Proof.
  intros Hm Hr Hi. destruct (map_entries m Hm _ _ Hr Hi) as (mp & p & H1 & H2 & H3).
  exists mp, p. unfold mget. by rewrite H1; simpl; rewrite H2.
Qed.

(** Changing one entry to a register of the same class. *)
Lemma map_ok_set m r p mp : map_ok m -> m !! cls (classValue r) = Some mp -> pclass p = classValue r ->
  map_ok (<[cls (classValue r) := <[index r := Some p]> mp]> m).
Proof.
  intros [Hl He] Hmp Hp. split; [by rewrite length_insert|]. intros c i Hc Hi.
  destruct (He c i Hc Hi) as (mp' & p' & H1 & H2 & H3).
  destruct (decide (c = classValue r)) as [->|Hne].
  - rewrite Hmp in H1. injection H1 as <-. rewrite list_lookup_insert_eq by (by eapply lookup_lt_Some).
    destruct (decide (i = index r)) as [->|Hni].
    + exists (<[index r := Some p]> mp), p. split; [done|]. split; [|done].
      apply list_lookup_insert_eq. by eapply lookup_lt_Some.
    + exists (<[index r := Some p]> mp), p'. split; [done|]. split; [|done]. by rewrite list_lookup_insert_ne.
  - exists mp', p'. split; [|done]. rewrite list_lookup_insert_ne; [done|]. intros Heq%cls_inj. by subst.
Qed.

Lemma lists_ok_set fls k l l' : lists_ok fls -> fls !! k = Some l -> (forall p, p ∈ l' -> p ∈ l \/ cls (pclass p) = k) ->
  lists_ok (<[k := l']> fls).
Proof.
  intros [Hl Hc] Hk Hsub. split; [by rewrite length_insert|]. intros c l2 p H2 Hp.
  destruct (decide (cls c = k)) as [<-|Hne].
  - rewrite list_lookup_insert_eq in H2 by (by eapply lookup_lt_Some). injection H2 as <-.
    destruct (Hsub p Hp) as [?|?]; [by eapply Hc|by apply cls_inj].
  - rewrite list_lookup_insert_ne in H2 by done. by eapply Hc.
Qed.

Lemma addReg_ok p fls : lists_ok fls -> renameable (pclass p) = true ->
  exists fls', addReg p fls = Ok fls' /\ lists_ok fls' /\ concat fls' ≡ₚ p :: concat fls.
Proof.
  intros Hf Hp. destruct (fls_lookup fls _ Hf Hp) as [l Hl]. unfold addReg. rewrite (nth_lookup _ _ _ Hl).
  cbn [rbind]. rewrite upd_Ok by (by eapply lookup_lt_Some). eexists. split; [done|]. split.
  - eapply lists_ok_set; [done|done|]. unfold SimpleFreeList.addReg. intros q [?|Hq]%elem_of_app; [by left|].
    right. apply list_elem_of_singleton in Hq. by subst.
  - destruct (concat_insert_Permutation fls _ l (SimpleFreeList.addReg p l) Hl) as (rest & -> & ->).
    unfold SimpleFreeList.addReg. solve_Permutation.
Qed.

Lemma addRegs_ok ps : forall fls, lists_ok fls -> Forall (fun p => renameable (pclass p) = true) ps ->
  exists fls', addRegs ps fls = Ok fls' /\ lists_ok fls' /\ concat fls' ≡ₚ ps ++ concat fls.
Proof.
  induction ps as [|p ps IH]; intros fls Hf Hps; [by exists fls|]. apply Forall_cons in Hps as [Hp Hps].
  destruct (addReg_ok p fls Hf Hp) as (f1 & H1 & Hf1 & Hc1). simpl. rewrite H1. cbn [rbind].
  destruct (IH f1 Hf1 Hps) as (f2 & -> & Hf2 & Hc2). exists f2. split; [done|]. split; [done|].
  rewrite Hc2, Hc1. solve_Permutation.
Qed.

Variable phys : RegClassType -> nat.

Record regs_ok (g : Regs) : Prop := {
  regs_lists : lists_ok (freeLists g);
  regs_ids : forall p, p ∈ physRegs phys ->
    exists r, ids g !! p = Some r /\ 0 <= flatIdx r < Z.of_nat (length (regScoreBoard g));
  regs_misc : forall i, (i < numMisc g)%nat -> is_Some (ids g !! mkP MiscRegClass i);
  regs_invalid : is_Some (ids g !! invalidPhysRegId)
}.

Definition mset (m : umap) (r : RegId) (p : preg) : umap :=
  match m !! cls (classValue r) with
  | Some mp => <[cls (classValue r) := <[index r := Some p]> mp]> m
  | None => m
  end.

Lemma mget_mset m r p q : mget m r = Some q -> mget (mset m r p) r = Some p.
Proof.
  unfold mget, mset. intros (mp & Hm & (o & Hi & ->)%bind_Some)%bind_Some. rewrite Hm.
  rewrite list_lookup_insert_eq by (by eapply lookup_lt_Some). simpl.
  by rewrite list_lookup_insert_eq by (by eapply lookup_lt_Some).
Qed.

Lemma mset_mset m r p q : mget m r = Some q -> mset (mset m r p) r q = m.
Proof.
  unfold mget, mset. intros (mp & Hm & (o & Hi & ->)%bind_Some)%bind_Some. rewrite Hm.
  rewrite list_lookup_insert_eq by (by eapply lookup_lt_Some). rewrite list_insert_insert_eq, list_insert_insert_eq.
  by rewrite (list_insert_id mp), (list_insert_id m).
Qed.

Lemma mapped_mset m r p q : mget m r = Some q -> mapped (mset m r p) ++ [q] ≡ₚ p :: mapped m.
Proof.
  unfold mget, mset. intros (mp & Hm & (o & Hi & ->)%bind_Some)%bind_Some. rewrite Hm.
  by rewrite <- (mapped_insert m _ mp _ _ p Hm Hi).
Qed.

Lemma map_ok_mset m r p : map_ok m -> pclass p = classValue r -> map_ok (mset m r p).
Proof.
  intros Hm Hp. unfold mset. destruct (m !! cls (classValue r)) as [mp|] eqn:E; [by apply map_ok_set|done].
Qed.

Lemma mget_class m r p : map_ok m -> isRenameable r = true -> (index r < arch (classValue r))%nat ->
  mget m r = Some p -> pclass p = classValue r.
Proof. intros Hm Hr Hi Hg. destruct (map_lookup m r Hm Hr Hi) as (? & ? & _ & _ & ? & ?). congruence. Qed.

Lemma in_range_index nm r : isRenameable r = true -> in_range nm r -> (index r < arch (classValue r))%nat.
Proof. unfold isRenameable, in_range. by destruct (classValue r). Qed.

Definition entry (m : umap) (r : RegId) : option (option preg) :=
  mp ← m !! cls (classValue r); mp !! index r.

Lemma setEntry_entry m r p o g : entry m r = Some o -> isRenameable r = true -> pclass p = classValue r ->
  setEntry r p m g = Ok (mset m r p).
Proof.
  intros (mp & H1 & H2)%bind_Some Hr Hp. unfold setEntry, mset, SimpleRenameMap.setEntry. rewrite bool_decide_eq_true_2, Hr, (nth_lookup _ _ _ H1), H1 by done.
  cbn [rbind negb assert_]. apply lookup_lt_Some in H2 as H3.
  replace (_ <=? _)%nat with true by (symmetry; apply Nat.leb_le; lia). cbn [rbind assert_].
  rewrite upd_Ok by done. cbn [rbind]. by rewrite upd_Ok by (by eapply lookup_lt_Some).
Qed.

Lemma setEntry_ok m r p g : map_ok m -> isRenameable r = true -> in_range (numMisc g) r -> pclass p = classValue r ->
  setEntry r p m g = Ok (mset m r p).
Proof.
  intros Hm Hr Hi%in_range_index Hp; [|done]. destruct (map_lookup m r Hm Hr Hi) as (mp & q & H1 & H2 & _).
  apply (setEntry_entry _ _ _ (Some q)); [|done..]. unfold entry. by rewrite H1.
Qed.

Lemma lookup_renameable m r g : map_ok m -> isRenameable r = true -> in_range (numMisc g) r ->
  exists p, lookup r m g = Ok (Some p) /\ mget m r = Some p.
Proof.
  intros Hm Hr Hi%in_range_index; [|done]. destruct (map_lookup m r Hm Hr Hi) as (mp & q & H1 & H2 & Hg & _).
  exists q. split; [|done]. unfold lookup, isRenameable in *. apply lookup_lt_Some in H2 as H3.
  destruct (classValue r); try done; rewrite (nth_lookup _ _ _ H1); cbn [rbind]; unfold SimpleRenameMap.lookup;
    (replace (_ <=? _)%nat with true by (symmetry; apply Nat.leb_le; lia)); cbn [rbind assert_]; by apply nth_lookup.
Qed.

Lemma lookup_fixed m r g : isRenameable r = false -> in_range (numMisc g) r -> regs_ok g ->
  exists p, lookup r m g = Ok (Some p) /\ pclass p = classValue r /\ is_Some (ids g !! p).
Proof.
  unfold isRenameable, in_range, lookup. intros Hr Hi Hg. destruct (classValue r) eqn:E; try done.
  - destruct (Nat.ltb_spec (index r) (numMisc g)); [|lia]. eexists. split; [done|]. split; [done|].
    by apply (regs_misc g Hg).
  - eexists. split; [done|]. split; [done|]. apply (regs_invalid g Hg).
Qed.

(** Changing the counters of a register keeps the file well-formed. *)
Lemma regs_ok_upd g p r r' fls : regs_ok g -> ids g !! p = Some r -> flatIdx r' = flatIdx r -> lists_ok fls ->
  regs_ok (mkRegs (<[p := r']> (ids g)) (numMisc g) fls (regScoreBoard g)).
Proof.
  intros [_ Hi Hm Hv] Hp Hf Hfl. split; cbn [ids numMisc freeLists regScoreBoard].
  - done.
  - intros q Hq. destruct (Hi q Hq) as (rq & Hrq & Hb). destruct (decide (q = p)) as [->|].
    + exists r'. rewrite lookup_insert_eq. rewrite Hp in Hrq. injection Hrq as <-. by rewrite Hf.
    + exists rq. by rewrite lookup_insert_ne.
  - intros i Hi'. destruct (decide (mkP MiscRegClass i = p)) as [->|].
    + rewrite lookup_insert_eq. eauto.
    + rewrite lookup_insert_ne by done. auto.
  - destruct (decide (invalidPhysRegId = p)) as [->|].
    + rewrite lookup_insert_eq. eauto.
    + by rewrite lookup_insert_ne.
Qed.

(** What [rename] does when it returns: either the register keeps its mapping
    (a fixed or a pinned register) or it gets the first free register of its class. *)
Record renamed (m : umap) (g : Regs) (r : RegId) (new prev : preg) (m' : umap) (g' : Regs) : Prop := {
  rn_regs : regs_ok g';
  rn_map : map_ok m';
  rn_misc : numMisc g' = numMisc g;
  rn_sb : regScoreBoard g' = regScoreBoard g;
  rn_new : pclass new = classValue r;
  rn_prev : pclass prev = classValue r;
  rn_ids : is_Some (ids g' !! new);
  rn_get : isRenameable r = true -> mget m' r = Some new;
  rn_case : (new = prev /\ m' = m /\ freeLists g' = freeLists g) \/
    (isRenameable r = true /\ mget m r = Some prev /\ m' = mset m r new /\
     exists l, freeLists g !! cls (classValue r) = Some (new :: l) /\
       freeLists g' = <[cls (classValue r) := l]> (freeLists g))
}.

Lemma rename_spec m g r new prev m' g' : map_ok m -> regs_ok g -> in_range (numMisc g) r ->
  rename r m g = Ok (new, prev, m', g') -> renamed m g r new prev m' g'.
Proof.
  intros Hm Hg Hi. unfold rename. destruct (isRenameable r) eqn:Hr; cbn [negb].
  2: { destruct (lookup_fixed m r g Hr Hi Hg) as (p & -> & Hc & Hp). cbn [rbind deref]. intros [= <- <- <- <-].
       split; try done; [congruence|by left]. }
  destruct (map_lookup m r Hm Hr (in_range_index _ r Hr Hi)) as (mp & p & H1 & H2 & Hget & Hcl).
  destruct (fls_lookup _ (classValue r) (regs_lists g Hg) Hr) as [l Hl].
  rewrite (nth_lookup _ _ _ H1), (nth_lookup _ _ _ Hl). cbn [rbind]. unfold SimpleRenameMap.rename.
  rewrite (nth_lookup _ _ _ H2). cbn [rbind deref].
  replace (is_ r InvalidRegClass) with false
    by (symmetry; apply bool_decide_eq_false_2; intros E; unfold isRenameable in Hr; by rewrite E in Hr).
  destruct (ids g !! p) as [pr|] eqn:Epr; cbn [rbind deref]; [|done]. destruct (0 <? getNumPinnedWrites pr).
  - destruct (numPinnedWrites r =? 0); cbn [rbind assert_]; [|done].
    rewrite !upd_Ok by (by eapply lookup_lt_Some). cbn [rbind]. intros [= <- <- <- <-].
    rewrite (list_insert_id m), (list_insert_id (freeLists g)) by done.
    split; try done; cbn [ids freeLists numMisc regScoreBoard].
    + by apply (regs_ok_upd g _ pr); [| | |apply regs_lists].
    + rewrite lookup_insert_eq. by eexists.
    + by left.
  - destruct l as [|r1 fl2]; [done|]. unfold SimpleFreeList.getReg. rewrite bool_decide_eq_false_2 by done.
    cbn [negb rbind assert_]. rewrite upd_Ok by (by eapply lookup_lt_Some). cbn [rbind].
    destruct (ids g !! r1) as [rr|] eqn:Err; cbn [rbind deref]; [|done].
    rewrite !upd_Ok by (by eapply lookup_lt_Some). cbn [rbind]. intros [= <- <- <- <-].
    assert (Hr1 : pclass r1 = classValue r) by (eapply (lists_class _ (regs_lists g Hg)); [done|by left]).
    split; try done; cbn [ids freeLists numMisc regScoreBoard].
    + apply (regs_ok_upd g _ rr); [done|done|done|]. eapply lists_ok_set; [by apply regs_lists|done|].
      intros q Hq. left. by right.
    + by apply map_ok_set.
    + rewrite lookup_insert_eq. by eexists.
    + intros _. replace (<[cls _ := _]> m) with (mset m r r1) by (unfold mset; by rewrite H1). by eapply mget_mset.
    + right. split; [done|]. split; [done|]. split; [unfold mset; by rewrite H1|]. by exists fl2.
Qed.

(** The register is given pinned writes while the ones its current mapping still
    owes are outstanding: what the assertion of [SimpleRenameMap::rename] excludes. *)
Definition repins (r : RegId) (m : umap) (g : Regs) : bool :=
  isRenameable r && negb (numPinnedWrites r =? 0) &&
  match mget m r with
  | Some p => match ids g !! p with Some pr => 0 <? getNumPinnedWrites pr | None => false end
  | None => false
  end.

(** With a free register of the class, [rename] returns exactly when no write is
    pinned twice. *)
Lemma rename_returns m g r : map_ok m -> regs_ok g -> in_range (numMisc g) r ->
  (forall p, p ∈ concat (freeLists g) \/ p ∈ mapped m -> p ∈ physRegs phys) ->
  (isRenameable r = true -> exists l, freeLists g !! cls (classValue r) = Some l /\ l <> []) ->
  is_ok (rename r m g) = negb (repins r m g).
Proof.
  intros Hm Hg Hi Hph Hfree. unfold rename, repins. destruct (isRenameable r) eqn:Hr; cbn [negb andb].
  2: { destruct (lookup_fixed m r g Hr Hi Hg) as (p & -> & _). done. }
  destruct (map_lookup m r Hm Hr (in_range_index _ r Hr Hi)) as (mp & p & H1 & H2 & Hget & Hcl).
  destruct (Hfree eq_refl) as (l & Hl & Hne).
  rewrite (nth_lookup _ _ _ H1), (nth_lookup _ _ _ Hl), Hget. cbn [rbind]. unfold SimpleRenameMap.rename.
  rewrite (nth_lookup _ _ _ H2). cbn [rbind deref].
  replace (is_ r InvalidRegClass) with false
    by (symmetry; apply bool_decide_eq_false_2; intros E; unfold isRenameable in Hr; by rewrite E in Hr).
  destruct (regs_ids g Hg p) as (pr & -> & _); [apply Hph; right; by eapply mget_mapped|]. cbn [rbind deref].
  destruct (0 <? getNumPinnedWrites pr).
  - destruct (numPinnedWrites r =? 0); cbn [assert_ rbind negb andb is_ok]; [|done].
    by rewrite !upd_Ok by (by eapply lookup_lt_Some).
  - rewrite andb_false_r. destruct l as [|r1 l]; [done|]. unfold SimpleFreeList.getReg. rewrite bool_decide_eq_false_2 by done.
    cbn [negb rbind assert_]. rewrite upd_Ok by (by eapply lookup_lt_Some). cbn [rbind].
    destruct (regs_ids g Hg r1) as (rr & -> & _).
    { apply Hph. left. apply list_elem_of_In, in_concat. exists (r1 :: l).
      split; [|by left]. apply list_elem_of_In. by eapply list_elem_of_lookup_2. }
    cbn [rbind deref]. by rewrite !upd_Ok by (by eapply lookup_lt_Some).
Qed.

(** The scoreboard. *)
Lemma write_ok v p g : regs_ok g -> (isFixedMapping p = false -> p ∈ physRegs phys) ->
  exists b, Scoreboard.write v p g = Ok (mkRegs (ids g) (numMisc g) (freeLists g) b) /\
    length b = length (regScoreBoard g).
Proof.
  intros Hg Hp. unfold Scoreboard.write. destruct (isFixedMapping p) eqn:E.
  - exists (regScoreBoard g). by destruct g.
  - destruct (regs_ids g Hg p (Hp eq_refl)) as (r & -> & Hb). cbn [rbind deref].
    destruct (Z.ltb_spec (flatIdx r) (Z.of_nat (length (regScoreBoard g)))); [|lia]. cbn [rbind assert_].
    rewrite upd_Ok by lia. cbn [rbind]. eexists. split; [done|]. by rewrite length_insert.
Qed.

Lemma getReg_ok p g : regs_ok g -> (isFixedMapping p = false -> p ∈ physRegs phys) ->
  exists b, Scoreboard.getReg p g = Ok b.
Proof.
  intros Hg Hp. unfold Scoreboard.getReg. destruct (isFixedMapping p) eqn:E; [eauto|].
  destruct (regs_ids g Hg p (Hp eq_refl)) as (r & -> & Hb). cbn [rbind deref].
  destruct (Z.ltb_spec (flatIdx r) (Z.of_nat (length (regScoreBoard g)))); [|lia]. cbn [rbind assert_].
  destruct (nth_Ok (regScoreBoard g) (Z.to_nat (flatIdx r))) as (b & -> & _); [lia|]. eauto.
Qed.

Lemma regs_ok_board g b : regs_ok g -> length b = length (regScoreBoard g) ->
  regs_ok (mkRegs (ids g) (numMisc g) (freeLists g) b).
Proof. intros [? ? ? ?] Hb. split; cbn [ids numMisc freeLists regScoreBoard]; try done. by rewrite Hb. Qed.

Lemma physRegs_renameable p : p ∈ physRegs phys -> renameable (pclass p) = true.
Proof.
  unfold physRegs. intros Hp%list_elem_of_In. apply in_concat in Hp as (l & Hl & Hp).
  apply in_map_iff in Hl as (c & <- & Hc). apply in_map_iff in Hp as (i & <- & _). simpl in *. clear i.
  repeat (destruct Hc as [<-|Hc]; [done|]). done.
Qed.

Lemma physRegs_NoDup : NoDup (physRegs phys).
Proof.
  unfold physRegs. assert (Hcs : NoDup classes) by (apply (bool_decide_unpack _); by vm_compute).
  induction Hcs as [|c cs Hc Hcs IH]; simpl; [constructor|]. apply NoDup_app. split; [|split; [|done]].
  - assert (Hinj : Inj (=) (=) (mkP c)) by (by intros i j [=]). apply (NoDup_fmap_2 (mkP c)), NoDup_seq.
  - intros p Hp Hp2. apply list_elem_of_In, in_map_iff in Hp as (i & <- & _).
    apply list_elem_of_In, in_concat in Hp2 as (l & Hl & Hp2). apply in_map_iff in Hl as (c' & <- & Hc').
    apply in_map_iff in Hp2 as (j & [=] & _). subst. apply Hc. by apply list_elem_of_In.
Qed.

End maps.

(** ** The initial state *)

Definition nfree (c : RegClassType) (ps : list preg) : nat := length (filter (fun p => pclass p = c) ps).

Lemma nfree_app c ps qs : nfree c (ps ++ qs) = (nfree c ps + nfree c qs)%nat.
Proof. unfold nfree. by rewrite filter_app, length_app. Qed.

Lemma nfree_all c ps : (forall p, p ∈ ps -> pclass p = c) -> nfree c ps = length ps.
Proof. intros H. unfold nfree. by rewrite list_filter_all. Qed.

Lemma nfree_none c ps : (forall p, p ∈ ps -> pclass p <> c) -> nfree c ps = 0%nat.
Proof.
  intros H. unfold nfree. induction ps as [|p ps IH]; [done|]. rewrite filter_cons_False by (apply H; by left).
  apply IH. intros q Hq. apply H. by right.
Qed.

Lemma nfree_concat c fls : (forall k l p, fls !! k = Some l -> p ∈ l -> pclass p <> c) -> nfree c (concat fls) = 0%nat.
Proof.
  intros H. apply nfree_none. intros p Hp. apply list_elem_of_In, in_concat in Hp as (l & Hl & Hp).
  apply list_elem_of_In, list_elem_of_lookup in Hl as [k Hk]. eapply H; [done|by apply list_elem_of_In].
Qed.

(** The length of a free list is the number of free registers of its class. *)
Lemma free_count fls c l : lists_ok fls -> fls !! cls c = Some l -> nfree c (concat fls) = length l.
Proof.
  intros [Hlen Hc] Hl. rewrite <- (take_drop_middle fls _ _ Hl), concat_app, nfree_app. simpl. rewrite nfree_app.
  assert (Hne : forall k l' p, k <> cls c -> fls !! k = Some l' -> p ∈ l' -> pclass p <> c).
  { intros k l' p Hk Hl' Hp Heq. assert (k < 7)%nat by (apply lookup_lt_Some in Hl'; by rewrite Hlen in Hl').
    assert (Hk' : k = cls (class_of k)) by (by do 7 (destruct k as [|k]; [done|]); lia).
    apply Hk. rewrite Hk'. f_equal. rewrite Hk' in Hl'. by rewrite <- (Hc _ _ _ Hl' Hp). }
  rewrite (nfree_all c l), !nfree_concat; [lia| | |].
  - intros k l' p Hk. rewrite lookup_drop in Hk. eapply Hne; [|done]. lia.
  - intros k l' p Hk. apply lookup_take_Some in Hk as [Hk Hlt]. eapply Hne; [|done]. lia.
  - intros p Hp. by eapply Hc.
Qed.

Lemma class_regs_class c n p : p ∈ class_regs c n -> pclass p = c.
Proof. intros Hp. apply list_elem_of_In, in_map_iff in Hp as (i & <- & _). done. Qed.

Lemma physRegs_count phys c : renameable c = true -> nfree c (physRegs phys) = phys c.
Proof.
  intros Hc. unfold physRegs. simpl. rewrite !nfree_app.
  assert (Hn : forall d n, nfree c (class_regs d n) = if decide (d = c) then n else 0%nat).
  { intros d n. case_decide as E.
    - subst. rewrite nfree_all; [unfold class_regs; by rewrite length_map, length_seq|]. apply class_regs_class.
    - apply nfree_none. intros p Hp%class_regs_class. by subst. }
  rewrite !Hn. destruct c; try done; simpl; unfold nfree; simpl; lia.
Qed.


Definition key (r : RegId) : nat * nat := (cls (classValue r), index r).

Lemma entry_mset m r p o r' : entry m r = Some o ->
  entry (mset m r p) r' = if decide (key r' = key r) then Some (Some p) else entry m r'.
Proof.
  unfold entry, mset. intros (mp & Hm & Hi)%bind_Some. rewrite Hm. case_decide as E.
  - injection E as -> ->. rewrite list_lookup_insert_eq by (by eapply lookup_lt_Some). simpl.
    by rewrite list_lookup_insert_eq by (by eapply lookup_lt_Some).
  - destruct (decide (cls (classValue r') = cls (classValue r))) as [Hc|Hc].
    + rewrite Hc, list_lookup_insert_eq, Hm by (by eapply lookup_lt_Some). simpl.
      rewrite list_lookup_insert_ne; [done|]. intros Hx. apply E. unfold key. by rewrite Hc, Hx.
    + by rewrite list_lookup_insert_ne.
Qed.

Definition dests_of (c : RegClassType) (rs : list RegId) : nat := length (filter (fun r => classValue r = c) rs).

(** One thread's registers: each gets a register of its class from the free list. *)
Record bound (rs : list RegId) (m : umap) (g : Regs) (m' : umap) (g' : Regs) : Prop := {
  bd_lists : lists_ok (freeLists g');
  bd_rest : g' = mkRegs (ids g) (numMisc g) (freeLists g') (regScoreBoard g);
  bd_len : length m' = length m;
  bd_perm : concat (freeLists g') ++ mapped m' ≡ₚ concat (freeLists g) ++ mapped m;
  bd_set : forall r, r ∈ rs -> exists p, entry m' r = Some (Some p) /\ pclass p = classValue r;
  bd_other : forall r, key r ∉ map key rs -> entry m' r = entry m r;
  bd_count : forall c, (nfree c (concat (freeLists g')) + dests_of c rs = nfree c (concat (freeLists g)))%nat
}.

Lemma bind_regs_ok rs : forall m g, lists_ok (freeLists g) ->
  Forall (fun r => isRenameable r = true /\ entry m r = Some None) rs -> NoDup (map key rs) ->
  (forall c, renameable c = true -> (dests_of c rs <= nfree c (concat (freeLists g)))%nat) ->
  exists m' g', bind_regs rs m g = Ok (m', g') /\ bound rs m g m' g'.
Proof.
  induction rs as [|r rs IH]; intros m g Hf Hrs Hnd Hcnt; simpl.
  - exists m, g. split; [done|]. split; try done; [by destruct g|]. by intros r Hr%not_elem_of_nil.
  - apply Forall_cons in Hrs as [[Hr He] Hrs]. apply NoDup_cons in Hnd as [Hk Hnd].
    destruct (fls_lookup _ (classValue r) Hf Hr) as [l Hl]. pose proof (free_count _ _ _ Hf Hl) as Hfc.
    unfold getReg at 1. rewrite (nth_lookup _ _ _ Hl). cbn [rbind]. destruct l as [|x l].
    { specialize (Hcnt _ Hr). unfold dests_of in Hcnt. rewrite Hfc, filter_cons_True in Hcnt by done. simpl in Hcnt. lia. }
    unfold SimpleFreeList.getReg. rewrite bool_decide_eq_false_2 by done. cbn [negb rbind assert_].
    rewrite upd_Ok by (by eapply lookup_lt_Some). cbn [rbind freeLists].
    assert (Hx : pclass x = classValue r) by (eapply (lists_class _ Hf); [done|by left]).
    rewrite (setEntry_entry m r x None) by done. cbn [rbind]. set (fls1 := <[_ := l]> (freeLists g)).
    set (g1 := mkRegs (ids g) (numMisc g) fls1 (regScoreBoard g)).
    destruct (concat_insert_Permutation (freeLists g) _ _ l Hl) as (rest & Hp1 & Hp2). fold fls1 in Hp2.
    assert (Hn : forall c, (nfree c (concat fls1) + (if decide (classValue r = c) then 1 else 0) = nfree c (concat (freeLists g)))%nat).
    { intros c. unfold nfree. rewrite Hp1, Hp2, !filter_app, !length_app, filter_cons, Hx. case_decide; simpl; lia. }
    destruct (IH (mset m r x) g1) as (m' & g' & -> & Hb).
    + eapply lists_ok_set; [done|done|]. intros p Hp. left. by right.
    + rewrite Forall_forall in Hrs |- *. intros r' Hr'. destruct (Hrs r' Hr') as [? ?]. split; [done|].
      rewrite (entry_mset m r x None) by done. rewrite decide_False; [done|]. intros Heq. apply Hk. rewrite <- Heq.
      apply list_elem_of_In, in_map, list_elem_of_In. done.
    + done.
    + intros c Hc. specialize (Hcnt c Hc). specialize (Hn c). unfold dests_of in *. rewrite filter_cons in Hcnt.
      cbn [g1 freeLists]. case_decide; simpl in Hcnt; lia.
    + exists m', g'. split; [done|]. destruct Hb as [B1 B2 B3 B4 B5 B6 B7]. split.
      * done.
      * done.
      * rewrite B3. unfold mset. destruct (m !! cls (classValue r)); [by rewrite length_insert|done].
      * rewrite B4. cbn [g1 freeLists]. rewrite Hp1, Hp2. unfold entry in He. apply bind_Some in He as (mp & Hm & Hi).
        pose proof (mapped_insert m _ mp _ _ x Hm Hi) as Hmi. simpl in Hmi. rewrite app_nil_r in Hmi.
        unfold mset. rewrite Hm, Hmi. solve_Permutation.
      * intros r' [->|Hr']%elem_of_cons; [|by apply B5]. destruct (decide (key r ∈ map key rs)) as [Hin|Hnin]; [done|].
        exists x. rewrite (B6 r Hnin), (entry_mset m r x None) by done. by rewrite decide_True.
      * intros r' Hr'. apply not_elem_of_cons in Hr' as [Hne Hr']. rewrite (B6 r' Hr'), (entry_mset m r x None) by done.
        by rewrite decide_False.
      * intros c. specialize (B7 c). specialize (Hn c). cbn [g1 freeLists] in B7. unfold dests_of in *. rewrite filter_cons.
        case_decide; simpl; lia.
Qed.

Section initial.
Variable arch : RegClassType -> nat.

Lemma archRegs_elem r : r ∈ archRegs arch <->
  numPinnedWrites r = 0 /\ isRenameable r = true /\ (index r < arch (classValue r))%nat.
Proof.
  unfold archRegs. rewrite list_elem_of_In, in_concat. split.
  - intros (l & Hl & Hr). apply in_map_iff in Hl as (c & <- & Hc). apply in_map_iff in Hr as (i & <- & Hi).
    apply in_seq in Hi. simpl. split; [done|]. split; [|lia]. repeat (destruct Hc as [<-|Hc]; [done|]). done.
  - destruct r as [c i n]. cbn [numPinnedWrites classValue index]. intros (-> & Hc & Hi). eexists. split.
    + apply in_map_iff. exists c. split; [done|]. unfold isRenameable in Hc. destruct c; simpl; tauto || done.
    + apply in_map_iff. exists i. split; [done|]. apply in_seq. lia.
Qed.

Lemma archRegs_NoDup : NoDup (map key (archRegs arch)).
Proof.
  unfold archRegs. rewrite concat_map, map_map. assert (Hcs : NoDup classes) by (apply (bool_decide_unpack _); by vm_compute).
  induction Hcs as [|c cs Hc Hcs IH]; simpl; [constructor|]. apply NoDup_app. split; [|split; [|done]].
  - rewrite map_map. assert (Hinj : Inj (=) (=) (fun i => key (mkReg c i 0))) by (by intros i j [=]).
    apply (NoDup_fmap_2 (fun i => key (mkReg c i 0))), NoDup_seq.
  - intros k Hk Hk2. rewrite map_map in Hk. apply list_elem_of_In, in_map_iff in Hk as (i & <- & _).
    apply list_elem_of_In, in_concat in Hk2 as (l & Hl & Hk2). apply in_map_iff in Hl as (c' & <- & Hc').
    rewrite map_map in Hk2. apply in_map_iff in Hk2 as (j & [= Hcc _] & _). apply cls_inj in Hcc. subst.
    apply Hc. by apply list_elem_of_In.
Qed.

Lemma archRegs_count c : renameable c = true -> dests_of c (archRegs arch) = arch c.
Proof.
  intros Hc. unfold archRegs, dests_of.
  assert (Hn : forall d n, length (filter (fun r => classValue r = c) (map (fun i => mkReg d i 0) (seq 0 n)))
                = if decide (d = c) then n else 0%nat).
  { intros d n. case_decide as E.
    - subst. rewrite list_filter_all; [by rewrite length_map, length_seq|]. intros r Hr.
      apply list_elem_of_In, in_map_iff in Hr as (i & <- & _). done.
    - induction (seq 0 n) as [|i l IH]; [done|]. simpl. by rewrite filter_cons_False. }
  simpl. rewrite !filter_app, !length_app, !Hn. destruct c; try done; simpl; lia.
Qed.

Lemma init_entry r : isRenameable r = true -> (index r < arch (classValue r))%nat ->
  entry (UnifiedRenameMap_init arch) r = Some None.
Proof.
  unfold entry, UnifiedRenameMap_init, isRenameable. intros Hr Hi.
  destruct (classValue r) eqn:E; try done; simpl; rewrite ?E in *; by apply lookup_replicate_2.
Qed.

Lemma init_mapped : mapped (UnifiedRenameMap_init arch) = [].
Proof.
  unfold mapped, UnifiedRenameMap_init. induction classes as [|c cs IH]; [done|]. simpl. rewrite omap_app, IH, app_nil_r.
  induction (arch c); [done|]. done.
Qed.

Variable phys : RegClassType -> nat.

(** All the active threads. *)
Lemma bind_threads_ok n : forall g, lists_ok (freeLists g) -> concat (freeLists g) ≡ₚ physRegs phys ->
  (forall c, renameable c = true -> (n * arch c <= phys c)%nat) ->
  exists ms g', bind_threads n arch g = Ok (ms, g') /\ length ms = n /\ Forall (map_ok arch) ms /\
    lists_ok (freeLists g') /\ g' = mkRegs (ids g) (numMisc g) (freeLists g') (regScoreBoard g) /\
    concat (freeLists g') ++ concat (map mapped ms) ≡ₚ physRegs phys /\
    forall c, renameable c = true -> (nfree c (concat (freeLists g')) + n * arch c = phys c)%nat.
Proof.
  induction n as [|n IH]; intros g Hf Hp Hn; simpl.
  - exists [], g. split_and!; try done; [by destruct g|by rewrite app_nil_r|]. intros c Hc.
    unfold nfree. rewrite Hp. fold (nfree c (physRegs phys)). rewrite physRegs_count by done. lia.
  - destruct (IH g Hf Hp) as (ms & g1 & -> & Hl & Hms & Hf1 & Hg1 & Hp1 & Hc1).
    { intros c Hc. specialize (Hn c Hc). nia. }
    cbn [rbind]. destruct (bind_regs_ok (archRegs arch) (UnifiedRenameMap_init arch) g1) as (m & g2 & -> & Hb); [done| | | |].
    + apply Forall_forall. intros r (_ & Hr & Hi)%archRegs_elem. split; [done|]. by apply init_entry.
    + apply archRegs_NoDup.
    + intros c Hc. rewrite archRegs_count by done. specialize (Hn c Hc). specialize (Hc1 c Hc). nia.
    + cbn [rbind]. exists (ms ++ [m]), g2. destruct Hb as [B1 B2 B3 B4 B5 B6 B7]. split_and!; try done.
      * rewrite length_app. simpl. lia.
      * apply Forall_app. split; [done|]. constructor; [|done]. split; [by rewrite B3|]. intros c i Hc Hi.
        destruct (B5 (mkReg c i 0)) as (p & (mp & H1 & H2)%bind_Some & Hpc); [by apply archRegs_elem|]. by exists mp, p.
      * rewrite B2, Hg1. done.
      * rewrite map_app, concat_app. simpl. rewrite app_nil_r. rewrite init_mapped, app_nil_r in B4. rewrite <- Hp1, <- B4.
        solve_Permutation.
      * intros c Hc. specialize (B7 c). specialize (Hc1 c Hc). rewrite archRegs_count in B7 by done. lia.
Qed.

Lemma physRegs_length : length (physRegs phys) = list_sum (map phys classes).
Proof.
  unfold physRegs. induction classes as [|c cs IH]; [done|]. simpl. rewrite length_app, IH.
  unfold class_regs. by rewrite length_map, length_seq.
Qed.

Lemma file_lookup nm i p : physRegs phys !! i = Some p ->
  PhysRegFile_new phys nm !! p = Some (mkPhys (wrap 32 (Z.of_nat i)) 0 0 false).
Proof.
  intros Hi. unfold PhysRegFile_new. apply lookup_union_Some_l, lookup_union_Some_l, elem_of_list_to_map_1.
  - rewrite fmap_imap. replace (imap _ _) with (physRegs phys); [apply physRegs_NoDup|].
    apply list_eq. intros j. rewrite list_lookup_imap. by destruct (physRegs phys !! j).
  - apply list_elem_of_lookup. exists i. rewrite list_lookup_imap, Hi. done.
Qed.

Lemma file_misc nm i : (i < nm)%nat -> is_Some (PhysRegFile_new phys nm !! mkP MiscRegClass i).
Proof.
  intros Hi. unfold PhysRegFile_new. rewrite !lookup_union_is_Some. left. right. eexists. apply elem_of_list_to_map_1.
  - rewrite <- list_fmap_compose. assert (Hinj : Inj (=) (=) (mkP MiscRegClass)) by (by intros ? ? [=]).
    unfold class_regs. rewrite <- list_fmap_compose. apply (NoDup_fmap_2 (mkP MiscRegClass)), NoDup_seq.
  - apply list_elem_of_In, in_map_iff. exists (mkP MiscRegClass i). split; [done|]. apply in_map, in_seq. lia.
Qed.

Lemma regs_ok_new nm fls : lists_ok fls -> Z.of_nat (list_sum (map phys classes)) <= 2 ^ 32 ->
  regs_ok phys (mkRegs (PhysRegFile_new phys nm) nm fls (replicate (list_sum (map phys classes)) true)).
Proof.
  intros Hf Hn. split; cbn [ids numMisc freeLists regScoreBoard].
  - done.
  - intros p [i Hi]%list_elem_of_lookup. eexists. split; [by apply file_lookup|]. cbn [flatIdx].
    apply lookup_lt_Some in Hi. rewrite physRegs_length in Hi. rewrite length_replicate.
    rewrite wrap_small by (unfold in_u; lia). lia.
  - intros i Hi. by apply file_misc.
  - unfold PhysRegFile_new. rewrite lookup_union_is_Some. right. rewrite lookup_singleton_eq. eauto.
Qed.

End initial.

(** The checks of the constructor leave enough registers for every thread. *)
Lemma enough_regs_all p arch n : enough_regs p arch n = true -> (0 < arch VecRegClass)%nat ->
  (arch VecElemClass mod arch VecRegClass = 0)%nat ->
  forall c, renameable c = true -> (n * arch c <= numPhys p arch c)%nat.
Proof.
  intros He Hv Hd c Hc. unfold enough_regs in He. rewrite forallb_forall in He.
  assert (Hck : forall c, In c checked -> (n * arch c <= numPhys p arch c)%nat).
  { intros d Hd'. specialize (He d Hd'). apply negb_true_iff, andb_false_iff in He as [?%Nat.leb_gt|He]; [lia|].
    apply negb_false_iff, Nat.eqb_eq in He. lia. }
  destruct c; try done; try (apply Hck; simpl; tauto).
  specialize (Hck VecRegClass ltac:(simpl; tauto)). simpl in *.
  pose proof (Nat.Div0.div_mod (arch VecElemClass) (arch VecRegClass)). rewrite Hd in *. nia.
Qed.
