(* ===== verification/RenameRegs.v ===== *)
(** * Renaming registers

    The part of [cpu/o3/rename.cc] that works on registers: renaming the sources
    and destinations of an instruction, undoing the renames of squashed
    instructions from the history buffer, and freeing at commit the registers that
    were replaced.  [Rename.v] puts the stage around it. *)

From Stdlib Require Import ZArith Lia Bool.
From stdpp Require Import base tactics option list numbers gmap.
From S2P Require Import Prelude Phast RenameMap.
Open Scope Z_scope.

(** ** Instructions *)

(** What the stage reads of [StaticInst]. *)
Record StaticInst := mkStatic {
  srcRegs : list RegId; destRegs : list RegId;
  isLoad : bool; isStore : bool; isAtomic : bool; isStoreConditional : bool;
  static_SerializeBefore : bool; static_SerializeAfter : bool
}.

(** [DynInst::status]. *)
Record InstStatus := mkStatus {
  SerializeBefore : bool; SerializeAfter : bool; SerializeHandled : bool; Squashed : bool; CanIssue : bool;
  PinnedRegsRenamed : bool; PinnedRegsWritten : bool; PinnedRegsSquashDone : bool
}.

(** The operand arrays, filled in order. *)
Record Operands := mkOperands {
  readyRegs : nat; renamedSrcIdx : list preg; readySrcIdx : list bool;
  flatDestIdx : list RegId; renamedDestIdx : list preg; prevDestIdx : list preg
}.

Record DynInst := mkDyn {
  dyn_seqNum : Z; threadNumber : nat; staticInst : StaticInst; status : InstStatus; operands : Operands
}.

Definition isSquashed (i : DynInst) : bool := Squashed (status i).
Definition isSerializeBefore (i : DynInst) : bool :=
  static_SerializeBefore (staticInst i) || SerializeBefore (status i).
Definition isSerializeAfter (i : DynInst) : bool :=
  static_SerializeAfter (staticInst i) || SerializeAfter (status i).
Definition isTempSerializeBefore (i : DynInst) : bool := SerializeBefore (status i).
Definition isSerializeHandled (i : DynInst) : bool := SerializeHandled (status i).

Definition set_status (i : DynInst) (s : InstStatus) : DynInst :=
  mkDyn (dyn_seqNum i) (threadNumber i) (staticInst i) s (operands i).
Definition set_operands (i : DynInst) (o : Operands) : DynInst :=
  mkDyn (dyn_seqNum i) (threadNumber i) (staticInst i) (status i) o.

Definition write_SerializeBefore (b : bool) (i : DynInst) : DynInst :=
  let s := status i in
  set_status i (mkStatus b (SerializeAfter s) (SerializeHandled s) (Squashed s) (CanIssue s)
    (PinnedRegsRenamed s) (PinnedRegsWritten s) (PinnedRegsSquashDone s)).
Definition setSerializeBefore : DynInst -> DynInst := write_SerializeBefore true.
Definition clearSerializeBefore : DynInst -> DynInst := write_SerializeBefore false.
Definition setSerializeHandled (i : DynInst) : DynInst :=
  let s := status i in
  set_status i (mkStatus (SerializeBefore s) (SerializeAfter s) true (Squashed s) (CanIssue s)
    (PinnedRegsRenamed s) (PinnedRegsWritten s) (PinnedRegsSquashDone s)).
Definition mark_squashed (done : bool) (i : DynInst) : DynInst :=
  let s := status i in
  set_status i (mkStatus (SerializeBefore s) (SerializeAfter s) (SerializeHandled s) true (CanIssue s)
    (PinnedRegsRenamed s) (PinnedRegsWritten s) (done || PinnedRegsSquashDone s)).
Definition setPinnedRegsRenamed (i : DynInst) : DynInst :=
  let s := status i in
  set_status i (mkStatus (SerializeBefore s) (SerializeAfter s) (SerializeHandled s) (Squashed s) (CanIssue s)
    true (PinnedRegsWritten s) (PinnedRegsSquashDone s)).
Definition setCanIssue (i : DynInst) : DynInst :=
  let s := status i in
  set_status i (mkStatus (SerializeBefore s) (SerializeAfter s) (SerializeHandled s) (Squashed s) true
    (PinnedRegsRenamed s) (PinnedRegsWritten s) (PinnedRegsSquashDone s)).

(** [numDestRegs(type)]: the constructors generated for an ISA count every
    destination in its class. *)
Definition numDestRegs (i : DynInst) (c : RegClassType) : nat :=
  length (filter (fun r => classValue r = c) (destRegs (staticInst i))).

(** The loop of [DynInst::setSquashed] over the renamed destinations. *)
Fixpoint unpin_loop (written : bool) (rs : list preg) (ids : regfile) : res regfile :=
  match rs with
  | [] => Ok ids
  | p :: rs =>
      let! r := deref (ids !! p) in
      let r' := if pinned r then
                  let r1 := incrNumPinnedWrites r in
                  if written then incrNumPinnedWritesToComplete r1 else r1
                else r in
      unpin_loop written rs (<[p := r']> ids)
  end.

Definition setSquashed (i : DynInst) (ids : regfile) : res (DynInst * regfile) :=
  let s := status i in
  if negb (PinnedRegsRenamed s) || PinnedRegsSquashDone s then Ok (mark_squashed false i, ids)
  else
    let! ids := unpin_loop (PinnedRegsWritten s) (renamedDestIdx (operands i)) ids in
    Ok (mark_squashed true i, ids).

(** ** Renaming the operands *)

Record RenameHistory := mkRenameHistory {
  instSeqNum : Z; archReg : RegId; newPhysReg : preg; prevPhysReg : preg
}.

(** The registers of a thread: its map, its history buffer (youngest first) and the
    registers a squash has taken back but not freed yet. *)
Record RegThread := mkRT {
  rmap : umap; historyBuffer : list RenameHistory; freeingInProgress : list preg
}.

Section operands.
(** [RegId::flatten] asks the ISA. *)
Variable flatten : RegId -> RegId.

(** One source operand: [renameSrcReg] and [markSrcRegReady]. *)
Definition rename_src (r : preg) (ready : bool) (i : DynInst) : DynInst :=
  let o := operands i in
  let o' := mkOperands (if ready then Nat.succ (readyRegs o) else readyRegs o) (renamedSrcIdx o ++ [r]) (readySrcIdx o ++ [ready])
              (flatDestIdx o) (renamedDestIdx o) (prevDestIdx o) in
  let i' := set_operands i o' in
  if ready && (readyRegs o' =? length (srcRegs (staticInst i)))%nat then setCanIssue i' else i'.

Fixpoint src_loop (srcs : list RegId) (m : umap) (g : Regs) (i : DynInst) : res DynInst :=
  match srcs with
  | [] => Ok i
  | src_reg :: srcs =>
      let! p := lookup (flatten src_reg) m g in
      let! renamed_reg := deref p in
      let! ready := Scoreboard.getReg renamed_reg g in
      src_loop srcs m g (rename_src renamed_reg ready i)
  end.

Definition renameSrcRegs (i : DynInst) (rt : RegThread) (g : Regs) : res DynInst :=
  src_loop (srcRegs (staticInst i)) (rmap rt) g i.

(** [flattenedDestIdx] and [renameDestReg]. *)
Definition rename_dest (flat : RegId) (new prev : preg) (is_pinned : bool) (i : DynInst) : DynInst :=
  let o := operands i in
  let i' := set_operands i (mkOperands (readyRegs o) (renamedSrcIdx o) (readySrcIdx o)
              (flatDestIdx o ++ [flat]) (renamedDestIdx o ++ [new]) (prevDestIdx o ++ [prev])) in
  if is_pinned then setPinnedRegsRenamed i' else i'.

Definition flat_dest (dest_reg : RegId) : RegId :=
  let f := flatten dest_reg in mkReg (classValue f) (index f) (numPinnedWrites dest_reg).

Fixpoint dest_loop (dests : list RegId) (rt : RegThread) (g : Regs) (i : DynInst) : res (DynInst * RegThread * Regs) :=
  match dests with
  | [] => Ok (i, rt, g)
  | dest_reg :: dests =>
      let flat := flat_dest dest_reg in
      let! (new, prev, m, g) := rename flat (rmap rt) g in
      let! g := Scoreboard.unsetReg new g in
      let h := mkRenameHistory (dyn_seqNum i) flat new prev in
      let! r := deref (ids g !! new) in
      dest_loop dests (mkRT m (h :: historyBuffer rt) (freeingInProgress rt)) g (rename_dest flat new prev (pinned r) i)
  end.

Definition renameDestRegs (i : DynInst) (rt : RegThread) (g : Regs) : res (DynInst * RegThread * Regs) :=
  dest_loop (destRegs (staticInst i)) rt g i.

End operands.

(** ** Undoing and committing renames *)

(** The loop of [doSquash]. *)
Fixpoint undo_loop (squashed_seq_num : Z) (hb : list RenameHistory) (m : umap) (freeing : list preg) (g : Regs) :
    res RegThread :=
  match hb with
  | [] => Ok (mkRT m [] freeing)
  | e :: hb' =>
      if squashed_seq_num <? instSeqNum e then
        if bool_decide (newPhysReg e = prevPhysReg e) then undo_loop squashed_seq_num hb' m freeing g
        else
          let! m := setEntry (archReg e) (prevPhysReg e) m g in
          undo_loop squashed_seq_num hb' m (freeing ++ [newPhysReg e]) g
      else Ok (mkRT m hb freeing)
  end.

(** The history that decode keeps for the dependence predictor. *)
Fixpoint revert_branches (squashed_seq_num : Z) (h : list branchInfo) : list branchInfo :=
  match h with
  | b :: h' => if squashed_seq_num <? seqNum b then revert_branches squashed_seq_num h' else h
  | [] => []
  end.

Definition doSquash (squashed_seq_num : Z) (rt : RegThread) (g : Regs) : res RegThread :=
  undo_loop squashed_seq_num (historyBuffer rt) (rmap rt) (freeingInProgress rt) g.

(** The loop of [removeFromHistory], from the oldest entry. *)
Fixpoint commit_loop (inst_seq_num : Z) (oldest : list RenameHistory) (fls : list (list preg)) :
    res (list RenameHistory * list (list preg)) :=
  match oldest with
  | [] => Ok ([], fls)
  | e :: rest =>
      if instSeqNum e <=? inst_seq_num then
        if bool_decide (newPhysReg e = prevPhysReg e) then commit_loop inst_seq_num rest fls
        else
          let! fls := addReg (prevPhysReg e) fls in
          commit_loop inst_seq_num rest fls
      else Ok (oldest, fls)
  end.

Definition set_freeLists (g : Regs) (fls : list (list preg)) : Regs :=
  mkRegs (ids g) (numMisc g) fls (regScoreBoard g).

Definition removeFromHistory (inst_seq_num : Z) (rt : RegThread) (g : Regs) : res (RegThread * Regs) :=
  let! (oldest, fls) := commit_loop inst_seq_num (reverse (historyBuffer rt)) (freeLists g) in
  Ok (mkRT (rmap rt) (reverse oldest) (freeingInProgress rt), set_freeLists g fls).

(** The registers of squashed instructions go back to the free list. *)
Definition free_squashed (rt : RegThread) (g : Regs) : res (RegThread * Regs) :=
  let! fls := addRegs (freeingInProgress rt) (freeLists g) in
  Ok (mkRT (rmap rt) (historyBuffer rt) [], set_freeLists g fls).

(** ** The invariant of the registers *)

Section registers.
Context (arch phys : RegClassType -> nat).

(** The registers a history keeps alive: those that were replaced. *)
Definition held (hb : list RenameHistory) : list preg :=
  map prevPhysReg (filter (fun e => newPhysReg e <> prevPhysReg e) hb).

(** The registers a thread owns. *)
Definition owned (rt : RegThread) : list preg :=
  mapped (rmap rt) ++ held (historyBuffer rt) ++ freeingInProgress rt.

Definition undo1 (m : umap) (e : RenameHistory) : umap :=
  if bool_decide (newPhysReg e = prevPhysReg e) then m else mset m (archReg e) (prevPhysReg e).

Definition undo (m : umap) (hb : list RenameHistory) : umap := foldl undo1 m hb.

(** The youngest entry describes the current map, the next one the map before it,
    and so on. *)
Fixpoint chain (m : umap) (hb : list RenameHistory) : Prop :=
  match hb with
  | [] => True
  | e :: hb =>
      (newPhysReg e <> prevPhysReg e -> isRenameable (archReg e) = true /\
         (index (archReg e) < arch (classValue (archReg e)))%nat /\
         pclass (prevPhysReg e) = classValue (archReg e) /\ mget m (archReg e) = Some (newPhysReg e)) /\
      chain (undo1 m e) hb
  end.

(** The state of one thread, where [frame] is what the other threads own: every
    physical register is in exactly one place. *)
Record tinv (frame : list preg) (rt : RegThread) (g : Regs) : Prop := {
  ti_regs : regs_ok phys g;
  ti_map : map_ok arch (rmap rt);
  ti_chain : chain (rmap rt) (historyBuffer rt);
  ti_perm : concat (freeLists g) ++ owned rt ++ frame ≡ₚ physRegs phys
}.

Lemma tinv_phys frame rt g p : tinv frame rt g -> p ∈ concat (freeLists g) \/ p ∈ mapped (rmap rt) -> p ∈ physRegs phys.
Proof. intros [_ _ _ Hp] H. rewrite <- Hp. unfold owned. set_solver. Qed.

Lemma tinv_fixed frame rt g p : tinv frame rt g -> p ∈ mapped (rmap rt) -> isFixedMapping p = false -> p ∈ physRegs phys.
Proof. intros Ht Hp _. eapply tinv_phys; [done|by right]. Qed.

Lemma undo_app m h1 h2 : undo m (h1 ++ h2) = undo (undo m h1) h2.
Proof. apply foldl_app. Qed.

Lemma history_chain_app m h1 h2 : chain m (h1 ++ h2) <-> chain m h1 /\ chain (undo m h1) h2.
Proof.
  revert m. induction h1 as [|e h1 IH]; intros m; simpl; [tauto|]. rewrite IH. tauto.
Qed.

Lemma held_cons e hb : held (e :: hb) = (if bool_decide (newPhysReg e = prevPhysReg e) then [] else [prevPhysReg e]) ++ held hb.
Proof. unfold held. rewrite filter_cons. by do 2 case_decide. Qed.

Lemma held_app h1 h2 : held (h1 ++ h2) = held h1 ++ held h2.
Proof. unfold held. by rewrite filter_app, map_app. Qed.

(** Renaming one destination. *)
Lemma rename_inv frame rt g r new prev m' g' sn : tinv frame rt g -> in_range arch (numMisc g) r ->
  rename r (rmap rt) g = Ok (new, prev, m', g') ->
  let e := mkRenameHistory sn r new prev in
  tinv frame (mkRT m' (e :: historyBuffer rt) (freeingInProgress rt)) g' /\ undo1 m' e = rmap rt /\
  renamed arch phys (rmap rt) g r new prev m' g'.
Proof.
  intros Ht Hi Hren e. destruct Ht as [Hg Hm Hc Hp].
  pose proof (rename_spec arch phys _ _ _ _ _ _ _ Hm Hg Hi Hren) as Hr.
  destruct (rn_case _ _ _ _ _ _ _ _ _ Hr) as [(<- & -> & Hfl)|(Hrn & Hget & -> & l & Hl & Hfl)].
  - assert (He : undo1 (rmap rt) e = rmap rt) by (unfold undo1; by rewrite bool_decide_eq_true_2).
    split; [|done]. split; cbn [rmap historyBuffer freeingInProgress].
    + apply Hr.
    + done.
    + simpl. split; [done|]. by rewrite He.
    + rewrite Hfl. unfold owned in *. cbn [rmap historyBuffer freeingInProgress]. rewrite held_cons.
      by rewrite bool_decide_eq_true_2.
  - assert (Hne : new <> prev).
    { assert (Hnd : NoDup (concat (freeLists g) ++ owned rt ++ frame)) by (rewrite Hp; apply physRegs_NoDup).
      apply NoDup_app in Hnd as (_ & Hnd & _). intros ->. apply (Hnd prev).
      - apply list_elem_of_In, in_concat. exists (prev :: l). split; [|by left].
        apply list_elem_of_In. by eapply list_elem_of_lookup_2.
      - unfold owned. apply mget_mapped in Hget. set_solver. }
    assert (He : undo1 (mset (rmap rt) r new) e = rmap rt).
    { unfold undo1. rewrite bool_decide_eq_false_2 by done. by apply mset_mset. }
    split; [|done]. split; cbn [rmap historyBuffer freeingInProgress].
    + apply Hr.
    + apply Hr.
    + simpl. rewrite He. split; [|done]. intros _. split; [done|]. split; [by eapply in_range_index|].
      split; [apply Hr|]. by apply Hr.
    + rewrite <- Hp, Hfl. unfold owned. cbn [rmap historyBuffer freeingInProgress]. rewrite held_cons, bool_decide_eq_false_2 by done.
      destruct (concat_insert_Permutation (freeLists g) _ _ l Hl) as (rest & -> & ->).
      pose proof (mapped_mset _ _ new _ Hget) as Hms. cbn [prevPhysReg].
      transitivity (l ++ rest ++ (mapped (mset (rmap rt) r new) ++ [prev]) ++ held (historyBuffer rt) ++ freeingInProgress rt ++ frame);
        [solve_Permutation|]. rewrite Hms. solve_Permutation.
Qed.

Lemma renamed_phys frame m g r new prev m' hb fr g' : tinv frame (mkRT m' hb fr) g' ->
  renamed arch phys m g r new prev m' g' -> isFixedMapping new = false -> new ∈ physRegs phys.
Proof.
  intros Ht Hr Hfix. apply (tinv_phys _ _ _ _ Ht). right. apply (mget_mapped _ r). apply Hr.
  unfold isRenameable, isFixedMapping in *. rewrite (rn_new _ _ _ _ _ _ _ _ _ Hr) in Hfix. by apply negb_false_iff.
Qed.

(** Renaming does not change what an instruction is. *)
Definition same_inst (i i' : DynInst) : Prop :=
  dyn_seqNum i' = dyn_seqNum i /\ threadNumber i' = threadNumber i /\ staticInst i' = staticInst i /\
  isSquashed i' = isSquashed i.

Variable flatten : RegId -> RegId.

Lemma in_range_misc g g' r : numMisc g' = numMisc g -> in_range arch (numMisc g) r -> in_range arch (numMisc g') r.
Proof. unfold in_range. by intros ->. Qed.

(** All the destinations of an instruction. *)
Lemma dest_loop_inv ds : forall frame rt g i i' rt' g', tinv frame rt g ->
  Forall (fun d => in_range arch (numMisc g) (flat_dest flatten d)) ds -> dest_loop flatten ds rt g i = Ok (i', rt', g') ->
  tinv frame rt' g' /\ same_inst i i' /\ numMisc g' = numMisc g /\ freeingInProgress rt' = freeingInProgress rt /\
  exists new, historyBuffer rt' = new ++ historyBuffer rt /\ undo (rmap rt') new = rmap rt /\
    Forall (fun e => instSeqNum e = dyn_seqNum i) new.
Proof.
  induction ds as [|d ds IH]; intros frame rt g i i' rt' g' Ht Hds; simpl.
  - intros [= <- <- <-]. split_and!; try done. by exists [].
  - apply Forall_cons in Hds as [Hd Hds]. set (flat := flat_dest flatten d) in *. intros H. inv_res.
    destruct a as [[[new prev] m1] g1]. inv_res.
    destruct (rename_inv frame rt g flat new prev m1 g1 (dyn_seqNum i) Ht Hd E) as (Ht1 & Hu1 & Hr1).
    set (e := mkRenameHistory (dyn_seqNum i) flat new prev) in *. rename a into g2.
    destruct (write_ok phys false new g1 (ti_regs _ _ _ Ht1)) as (b & Hw & Hb).
    { by eapply renamed_phys. }
    unfold Scoreboard.unsetReg in E0. rewrite Hw in E0. injection E0 as <-.
    assert (Ht2 : tinv frame (mkRT m1 (e :: historyBuffer rt) (freeingInProgress rt))
      (mkRegs (ids g1) (numMisc g1) (freeLists g1) b)).
    { destruct Ht1 as [? ? ? ?]. split; try done. by apply regs_ok_board. }
    eapply IH in H as (Ht' & Hs & Hnm & Hfr & nw & Hhb & Hun & Hsn); [|exact Ht2|].
    2: { eapply Forall_impl; [exact Hds|]. intros x. apply in_range_misc. apply Hr1. }
    cbn [rmap historyBuffer freeingInProgress numMisc] in *.
    assert (Hsame : same_inst i (rename_dest flat new prev (pinned a0) i)) by (unfold rename_dest; by destruct (pinned a0)).
    split_and!; try done.
    + unfold same_inst in *. destruct Hs as (-> & -> & -> & ->). apply Hsame.
    + rewrite Hnm. apply Hr1.
    + exists (nw ++ [e]). rewrite <- app_assoc. split; [done|]. split.
      * rewrite undo_app, Hun. apply Hu1.
      * apply Forall_app. split; [|by repeat constructor]. eapply Forall_impl; [exact Hsn|]. intros x ->. apply Hsame.
Qed.

(** What the destinations still to be renamed need. *)
Definition enough (ds : list RegId) (fls : list (list preg)) : Prop :=
  forall c l, renameable c = true -> fls !! cls c = Some l ->
    (length (filter (fun r => classValue r = c) ds) <= length l)%nat.

Lemma enough_tail d ds m g new prev m' g' : enough (d :: ds) (freeLists g) ->
  classValue (flat_dest flatten d) = classValue d ->
  renamed arch phys m g (flat_dest flatten d) new prev m' g' -> enough ds (freeLists g').
Proof.
  intros He Hcl Hr c l Hc Hl. destruct (rn_case _ _ _ _ _ _ _ _ _ Hr) as [(_ & _ & Hfl)|(_ & _ & _ & l0 & Hl0 & Hfl)].
  - rewrite Hfl in Hl. specialize (He c l Hc Hl). rewrite filter_cons in He. case_decide; simpl in He; lia.
  - rewrite Hfl, Hcl in *. destruct (decide (c = classValue d)) as [->|Hne].
    + rewrite list_lookup_insert_eq in Hl by (by eapply lookup_lt_Some). injection Hl as <-.
      specialize (He _ _ Hc Hl0). rewrite filter_cons in He. case_decide; simpl in He; [lia|done].
    + rewrite list_lookup_insert_ne in Hl by (by intros ?%cls_inj). specialize (He _ _ Hc Hl).
      rewrite filter_cons in He. case_decide; simpl in He; lia.
Qed.

Lemma dest_loop_cons d ds rt g i :
  dest_loop flatten (d :: ds) rt g i = let! (i, rt, g) := dest_loop flatten [d] rt g i in dest_loop flatten ds rt g i.
Proof.
  simpl. destruct (rename _ _ _) as [[[[new prev] m] g1]|]; cbn [rbind]; [|done].
  destruct (Scoreboard.unsetReg _ _) as [g2|]; cbn [rbind]; [|done]. by destruct (ids g2 !! new).
Qed.

(** Some destination, when its turn comes, pins a register that is still pinned. *)
Fixpoint dests_repin (ds : list RegId) (rt : RegThread) (g : Regs) (i : DynInst) : bool :=
  match ds with
  | [] => false
  | d :: ds => repins (flat_dest flatten d) (rmap rt) g ||
      match dest_loop flatten [d] rt g i with Ok (i, rt, g) => dests_repin ds rt g i | Err _ => false end
  end.

Lemma dests_unpinned ds : forall rt g i, Forall (fun r => numPinnedWrites r = 0) ds -> dests_repin ds rt g i = false.
Proof.
  induction ds as [|d ds IH]; intros rt g i Hds; [done|]. apply Forall_cons in Hds as [Hd Hds].
  cbn [dests_repin]. unfold repins. cbn [flat_dest numPinnedWrites]. rewrite Hd. cbn [Z.eqb negb]. rewrite andb_false_r. cbn [andb orb].
  destruct (dest_loop _ _ _ _ _) as [[[? ?] ?]|]; [by apply IH|done].
Qed.

Lemma dest_loop_returns ds : forall frame rt g i, tinv frame rt g ->
  Forall (fun d => in_range arch (numMisc g) (flat_dest flatten d) /\ classValue (flatten d) = classValue d) ds ->
  enough ds (freeLists g) -> is_ok (dest_loop flatten ds rt g i) = negb (dests_repin ds rt g i).
Proof.
  induction ds as [|d ds IH]; intros frame rt g i Ht Hds He; [done|].
  apply Forall_cons in Hds as [(Hd & Hcl) Hds]. rewrite dest_loop_cons. cbn [dests_repin].
  assert (Hok : is_ok (rename (flat_dest flatten d) (rmap rt) g) = negb (repins (flat_dest flatten d) (rmap rt) g)).
  { apply (rename_returns arch phys); [apply Ht|apply Ht|done|intros p Hp; by eapply tinv_phys|].
    unfold isRenameable. cbn [flat_dest classValue]. rewrite Hcl. intros Hrn.
    destruct (fls_lookup _ (classValue d) (regs_lists _ _ (ti_regs _ _ _ Ht)) Hrn) as [l Hl]. exists l. split; [done|].
    specialize (He _ _ Hrn Hl). rewrite filter_cons_True in He by done. by destruct l; simpl in He; [lia|]. }
  cbn [dest_loop]. destruct (rename _ _ _) as [[[[new prev] m1] g1]|] eqn:E; cbn [rbind is_ok] in *.
  2: { by rewrite negb_orb, <- Hok. }
  destruct (repins _ _ _); [done|]. cbn [orb].
  destruct (rename_inv frame rt g _ new prev m1 g1 (dyn_seqNum i) Ht Hd E) as (Ht1 & Hu1 & Hr1).
  destruct (write_ok phys false new g1 (ti_regs _ _ _ Ht1)) as (b & Hw & Hb).
  { by eapply renamed_phys. }
  unfold Scoreboard.unsetReg. rewrite Hw. cbn [rbind ids].
  destruct (rn_ids _ _ _ _ _ _ _ _ _ Hr1) as [r ->]. cbn [rbind deref]. eapply IH.
  - destruct Ht1 as [? ? ? ?]. split; try done. by apply regs_ok_board.
  - eapply Forall_impl; [exact Hds|]. cbn beta. intros x (? & ?). split; [|done]. eapply in_range_misc; [|done]. apply Hr1.
  - cbn [freeLists]. eapply enough_tail; [done| |done]. done.
Qed.

(** The sources get the registers the map holds. *)
Lemma src_loop_spec srcs : forall frame rt g i, tinv frame rt g -> Forall (fun r => in_range arch (numMisc g) (flatten r)) srcs ->
  exists i' ps, src_loop flatten srcs (rmap rt) g i = Ok i' /\ same_inst i i' /\
    renamedSrcIdx (operands i') = renamedSrcIdx (operands i) ++ ps /\
    Forall2 (fun r p => lookup (flatten r) (rmap rt) g = Ok (Some p)) srcs ps.
Proof.
  induction srcs as [|r srcs IH]; intros frame rt g i Ht Hs; simpl.
  - exists i, []. by rewrite app_nil_r.
  - apply Forall_cons in Hs as [Hr Hs].
    assert (Hp : exists p, lookup (flatten r) (rmap rt) g = Ok (Some p) /\ (isFixedMapping p = false -> p ∈ physRegs phys)).
    { destruct (isRenameable (flatten r)) eqn:Hrn.
      - destruct (lookup_renameable arch (rmap rt) _ g (ti_map _ _ _ Ht) Hrn Hr) as (p & Hl & Hg).
        exists p. split; [done|]. intros _. eapply tinv_phys; [done|]. right. by eapply mget_mapped.
      - destruct (lookup_fixed arch phys (rmap rt) _ g Hrn Hr (ti_regs _ _ _ Ht)) as (p & Hl & Hc & _). exists p.
        split; [done|]. unfold isFixedMapping. rewrite Hc. unfold isRenameable in Hrn. by rewrite Hrn. }
    destruct Hp as (p & Hl & Hp). rewrite Hl. cbn [rbind deref].
    destruct (getReg_ok phys p g (ti_regs _ _ _ Ht) Hp) as (b & ->). cbn [rbind].
    destruct (IH frame rt g (rename_src p b i) Ht Hs) as (i' & ps & -> & Hsame & Hops & HF).
    assert (Hb : same_inst i (rename_src p b i) /\ renamedSrcIdx (operands (rename_src p b i)) = renamedSrcIdx (operands i) ++ [p]).
    { unfold rename_src. by case_ifs. }
    destruct Hb as [Hb1 Hb2]. exists i', (p :: ps). split; [done|]. split_and!.
    + unfold same_inst in *. destruct Hsame as (-> & -> & -> & ->). apply Hb1.
    + rewrite Hops, Hb2. by rewrite <- app_assoc.
    + by constructor.
Qed.

(** The registers given to the squashed instructions. *)
Definition given (hb : list RenameHistory) : list preg :=
  map newPhysReg (filter (fun e => newPhysReg e <> prevPhysReg e) hb).

Lemma undo_loop_spec sn hb : forall frame m fr g, tinv frame (mkRT m hb fr) g ->
  exists young old, hb = young ++ old /\ Forall (fun e => sn < instSeqNum e) young /\
    (forall e old', old = e :: old' -> instSeqNum e <= sn) /\
    undo_loop sn hb m fr g = Ok (mkRT (undo m young) old (fr ++ given young)) /\
    tinv frame (mkRT (undo m young) old (fr ++ given young)) g.
Proof.
  induction hb as [|e hb IH]; intros frame m fr g Ht; simpl.
  - exists [], []. unfold given. simpl. by rewrite app_nil_r.
  - destruct (Z.ltb_spec sn (instSeqNum e)) as [Hlt|Hge].
    2: { exists [], (e :: hb). unfold given. simpl. rewrite app_nil_r. split_and!; try done. by intros ? ? [= <- <-]. }
    destruct Ht as [Hg Hm [He Hc] Hp]. unfold given. destruct (decide (newPhysReg e = prevPhysReg e)) as [Heq|Hne].
    + rewrite (bool_decide_eq_true_2 _ Heq). unfold undo1 in Hc. rewrite (bool_decide_eq_true_2 _ Heq) in Hc.
      unfold owned in Hp. cbn [historyBuffer] in Hp. rewrite held_cons, (bool_decide_eq_true_2 _ Heq) in Hp.
      destruct (IH frame m fr g) as (young & old & -> & Hy & Ho & -> & Ht'); [by split|].
      exists (e :: young), old. split; [done|]. split; [by constructor|]. split; [done|].
      change (undo m (e :: young)) with (undo (undo1 m e) young). unfold undo1.
      rewrite filter_cons_False by tauto. by rewrite (bool_decide_eq_true_2 _ Heq).
    + rewrite (bool_decide_eq_false_2 _ Hne). destruct (He Hne) as (Hrn & Hix & Hcl & Hget).
      rewrite (setEntry_ok arch) by (done || by unfold in_range, isRenameable in *; destruct (classValue (archReg e))).
      cbn [rbind]. unfold undo1 in Hc. rewrite (bool_decide_eq_false_2 _ Hne) in Hc.
      unfold owned in Hp. cbn [historyBuffer rmap freeingInProgress] in Hp. rewrite held_cons, (bool_decide_eq_false_2 _ Hne) in Hp.
      destruct (IH frame (mset m (archReg e) (prevPhysReg e)) (fr ++ [newPhysReg e]) g) as (young & old & -> & Hy & Ho & -> & Ht').
      { split; [done|by apply map_ok_mset|done|]. rewrite <- Hp. unfold owned. cbn [rmap historyBuffer freeingInProgress].
        pose proof (mapped_mset _ _ (prevPhysReg e) _ Hget) as Hms.
        transitivity (concat (freeLists g) ++ (mapped (mset m (archReg e) (prevPhysReg e)) ++ [newPhysReg e]) ++ held hb ++ fr ++ frame);
          [solve_Permutation|]. rewrite Hms. solve_Permutation. }
      exists (e :: young), old. split; [done|]. split; [by constructor|]. split; [done|].
      change (undo m (e :: young)) with (undo (undo1 m e) young). unfold undo1.
      rewrite filter_cons_True by done. rewrite (bool_decide_eq_false_2 _ Hne).
      rewrite <- app_assoc in Ht' |- *. done.
Qed.

Lemma regs_ok_lists g fls : regs_ok phys g -> lists_ok fls -> regs_ok phys (set_freeLists g fls).
Proof. intros [? ? ? ?] Hf. by split. Qed.

Lemma commit_loop_spec n oldest : forall fls, lists_ok fls -> Forall (fun p => renameable (pclass p) = true) (held oldest) ->
  exists gone keep fls', oldest = gone ++ keep /\ Forall (fun e => instSeqNum e <= n) gone /\
    (forall e keep', keep = e :: keep' -> n < instSeqNum e) /\
    commit_loop n oldest fls = Ok (keep, fls') /\ lists_ok fls' /\ concat fls' ≡ₚ held gone ++ concat fls.
Proof.
  induction oldest as [|e oldest IH]; intros fls Hf Hh; simpl; [by exists [], [], fls|].
  rewrite held_cons in Hh. destruct (Z.leb_spec (instSeqNum e) n) as [Hle|Hgt].
  2: { exists [], (e :: oldest), fls. split_and!; try done. by intros ? ? [= <- <-]. }
  destruct (decide (newPhysReg e = prevPhysReg e)) as [Heq|Hne].
  - rewrite (bool_decide_eq_true_2 _ Heq) in *. destruct (IH fls Hf Hh) as (gone & keep & f' & -> & Hg & Hk & -> & Hf' & Hc).
    exists (e :: gone), keep, f'. split_and!; try done; [by constructor|]. by rewrite held_cons, (bool_decide_eq_true_2 _ Heq).
  - rewrite (bool_decide_eq_false_2 _ Hne) in *. apply Forall_app in Hh as [[Hp _]%Forall_cons_1 Hh].
    destruct (addReg_ok (prevPhysReg e) fls Hf Hp) as (f1 & -> & Hf1 & Hc1). cbn [rbind].
    destruct (IH f1 Hf1 Hh) as (gone & keep & f' & -> & Hg & Hk & -> & Hf' & Hc).
    exists (e :: gone), keep, f'. split_and!; try done; [by constructor|].
    rewrite held_cons, (bool_decide_eq_false_2 _ Hne), Hc, Hc1. solve_Permutation.
Qed.

Lemma held_reverse hb : held (reverse hb) ≡ₚ held hb.
Proof. unfold held. by rewrite reverse_Permutation. Qed.

Lemma removeFromHistory_inv frame rt g n : tinv frame rt g ->
  exists keep gone rt' g', removeFromHistory n rt g = Ok (rt', g') /\ tinv frame rt' g' /\
    historyBuffer rt = keep ++ gone /\ historyBuffer rt' = keep /\ rmap rt' = rmap rt /\
    freeingInProgress rt' = freeingInProgress rt /\ numMisc g' = numMisc g /\
    Forall (fun e => instSeqNum e <= n) gone /\ (forall e keep', keep = keep' ++ [e] -> n < instSeqNum e) /\
    concat (freeLists g') ≡ₚ held gone ++ concat (freeLists g).
Proof.
  intros [Hg Hm Hc Hp]. unfold removeFromHistory.
  destruct (commit_loop_spec n (reverse (historyBuffer rt)) (freeLists g)) as (gone & keep & f' & Hr & Hgo & Hk & -> & Hf' & Hfl).
  - apply Hg.
  - apply Forall_forall. intros p Hin. apply physRegs_renameable with phys. rewrite <- Hp. unfold owned.
    rewrite held_reverse in Hin. set_solver.
  - assert (Hhb : historyBuffer rt = reverse keep ++ reverse gone).
    { rewrite <- reverse_app, <- Hr. by rewrite reverse_involutive. }
    rewrite Hhb in Hc. apply history_chain_app in Hc as [Hc1 _].
    exists (reverse keep), (reverse gone). eexists _, _. cbn [rbind]. split; [done|].
    cbn [rmap historyBuffer freeingInProgress set_freeLists numMisc freeLists]. split_and!; try done.
    + split; [by apply regs_ok_lists|done|done|]. rewrite <- Hp. cbn [set_freeLists freeLists]. rewrite Hfl. unfold owned.
      cbn [rmap historyBuffer freeingInProgress]. rewrite Hhb, held_app, !held_reverse. solve_Permutation.
    + by apply Forall_reverse.
    + intros e keep' Hke. apply (Hk e (reverse keep')). apply (f_equal reverse) in Hke.
      rewrite reverse_involutive, reverse_app in Hke. done.
    + by rewrite Hfl, held_reverse.
Qed.

Lemma free_squashed_inv frame rt g : tinv frame rt g ->
  exists g', free_squashed rt g = Ok (mkRT (rmap rt) (historyBuffer rt) [], g') /\
    tinv frame (mkRT (rmap rt) (historyBuffer rt) []) g' /\ numMisc g' = numMisc g /\
    concat (freeLists g') ≡ₚ freeingInProgress rt ++ concat (freeLists g).
Proof.
  intros [Hg Hm Hc Hp]. unfold free_squashed.
  destruct (addRegs_ok (freeingInProgress rt) (freeLists g)) as (f' & -> & Hf' & Hfl).
  - apply Hg.
  - apply Forall_forall. intros p Hin. apply physRegs_renameable with phys. rewrite <- Hp. unfold owned. set_solver.
  - cbn [rbind]. eexists. split; [done|]. split_and!; try done. split; [by apply regs_ok_lists|done|done|].
    rewrite <- Hp. cbn [set_freeLists freeLists]. rewrite Hfl. unfold owned. cbn [rmap historyBuffer freeingInProgress].
    solve_Permutation.
Qed.

Lemma can_rename_loop_spec cs f g : lists_ok (freeLists g) -> Forall (fun c => renameable c = true) cs ->
  exists b, can_rename_loop cs f g = Ok b /\
    (b = true -> forall c l, c ∈ cs -> freeLists g !! cls c = Some l -> (f c <= length l)%nat).
Proof.
  intros Hf. induction cs as [|c cs IH]; intros Hcs; simpl.
  - exists true. split; [done|]. intros _ c l Hc. by apply not_elem_of_nil in Hc.
  - apply Forall_cons in Hcs as [Hc Hcs]. destruct (fls_lookup _ c Hf Hc) as [l Hl]. unfold numFreeEntries at 1.
    rewrite (nth_lookup _ _ _ Hl). cbn [rbind]. destruct (Nat.ltb_spec (length l) (f c)) as [Hlt|Hle]; [by exists false|].
    destruct (IH Hcs) as (b & -> & Hb). exists b. split; [done|]. intros -> d l' [->|Hd]%elem_of_cons Hl'.
    + congruence.
    + by apply Hb.
Qed.

Lemma canRename_spec i g : regs_ok phys g ->
  exists b, canRename (numDestRegs i) g = Ok b /\ (b = true -> enough (destRegs (staticInst i)) (freeLists g)).
Proof.
  intros Hg. destruct (can_rename_loop_spec classes (numDestRegs i) g) as (b & Hb & Hen); [apply Hg|by repeat constructor|].
  exists b. split; [done|]. intros Hbt c l Hc Hl. apply (Hen Hbt c l); [|done].
  destruct c; try done; repeat (apply elem_of_cons; (by left) || right).
Qed.

(** ** All the threads *)

Record rinv (act : list nat) (rts : list RegThread) (g : Regs) : Prop := {
  ri_regs : regs_ok phys g;
  ri_thread : forall t rt, t ∈ act -> rts !! t = Some rt -> map_ok arch (rmap rt) /\ chain (rmap rt) (historyBuffer rt);
  ri_perm : concat (freeLists g) ++ concat (map owned rts) ≡ₚ physRegs phys
}.

Definition others (t : nat) (rts : list RegThread) : list preg := concat (map owned (delete t rts)).

Lemma owned_split (rts : list RegThread) t rt : rts !! t = Some rt -> concat (map owned rts) ≡ₚ owned rt ++ others t rts.
Proof.
  intros Ht. unfold others. rewrite (delete_Permutation rts t rt Ht) at 1. done.
Qed.

Lemma rinv_tinv act rts g t rt : rinv act rts g -> t ∈ act -> rts !! t = Some rt -> tinv (others t rts) rt g.
Proof.
  intros [Hg Hth Hp] Ht Hrt. destruct (Hth t rt Ht Hrt). split; try done. by rewrite <- (owned_split rts t rt Hrt).
Qed.

Lemma delete_insert_same {A} (l : list A) t x : delete t (<[t := x]> l) = delete t l.
Proof. revert t. induction l as [|a l IH]; intros [|t]; simpl; try done. f_equal. apply IH. Qed.

Lemma tinv_rinv act rts g t rt rt' g' : rinv act rts g -> rts !! t = Some rt -> tinv (others t rts) rt' g' ->
  rinv act (<[t := rt']> rts) g'.
Proof.
  intros [Hg Hth Hp] Hrt [Hg' Hm' Hc' Hp']. assert (Hlt : (t < length rts)%nat) by (by eapply lookup_lt_Some).
  split; [done| |].
  - intros u ru Hu Hru. destruct (decide (u = t)) as [->|Hne].
    + rewrite list_lookup_insert_eq in Hru by done. injection Hru as <-. done.
    + rewrite list_lookup_insert_ne in Hru by done. by eapply Hth.
  - rewrite (owned_split _ t rt') by (by apply list_lookup_insert_eq). rewrite <- Hp'. unfold others.
    by rewrite delete_insert_same.
Qed.

(** The calls the stage makes: an instruction that cannot be renamed waits. *)
Inductive reg_op :=
| ORename (t : nat) (i : DynInst)
| OSquash (t : nat) (n : Z)
| OCommit (t : nat) (n : Z)
| OFree (t : nat).

Definition op_thread (o : reg_op) : nat :=
  match o with ORename t _ | OSquash t _ | OCommit t _ | OFree t => t end.

Definition reg_step (o : reg_op) (rt : RegThread) (g : Regs) : res (RegThread * Regs) :=
  match o with
  | ORename _ i =>
      let! can := canRename (numDestRegs i) g in
      if can then
        let! i := renameSrcRegs flatten i rt g in
        let! (i, rt, g) := renameDestRegs flatten i rt g in Ok (rt, g)
      else Ok (rt, g)
  | OSquash _ n => let! rt := doSquash n rt g in Ok (rt, g)
  | OCommit _ n => removeFromHistory n rt g
  | OFree _ => free_squashed rt g
  end.

Definition reg_exec (o : reg_op) (rts : list RegThread) (g : Regs) : res (list RegThread * Regs) :=
  let! rt := nth_ rts (op_thread o) in
  let! (rt, g) := reg_step o rt g in
  let! rts := upd_ rts (op_thread o) rt in
  Ok (rts, g).

Fixpoint reg_run (os : list reg_op) (rts : list RegThread) (g : Regs) : res (list RegThread * Regs) :=
  match os with
  | [] => Ok (rts, g)
  | o :: os => let! (rts, g) := reg_exec o rts g in reg_run os rts g
  end.

(** The operands name registers the ISA has, and flattening stays in the class. *)
Definition operands_ok (nm : nat) (i : DynInst) : Prop :=
  Forall (fun r => in_range arch nm (flatten r)) (srcRegs (staticInst i)) /\
  Forall (fun r => in_range arch nm (flatten r) /\ classValue (flatten r) = classValue r) (destRegs (staticInst i)).

Definition op_ok (act : list nat) (nm : nat) (o : reg_op) : Prop :=
  op_thread o ∈ act /\ match o with ORename _ i => operands_ok nm i | _ => True end.

(** The call renames an instruction that pins a register still pinned. *)
Definition op_repins (o : reg_op) (rt : RegThread) (g : Regs) : bool :=
  match o with
  | ORename _ i =>
      match canRename (numDestRegs i) g, renameSrcRegs flatten i rt g with
      | Ok true, Ok i => dests_repin (destRegs (staticInst i)) rt g i
      | _, _ => false
      end
  | _ => false
  end.

Fixpoint run_repins (os : list reg_op) (rts : list RegThread) (g : Regs) : bool :=
  match os with
  | [] => false
  | o :: os =>
      match rts !! op_thread o with Some rt => op_repins o rt g | None => false end ||
      match reg_exec o rts g with Ok (rts, g) => run_repins os rts g | Err _ => false end
  end.

Lemma operands_ok_misc g g' i : numMisc g' = numMisc g -> operands_ok (numMisc g) i -> operands_ok (numMisc g') i.
Proof.
  intros Hn [H1 H2]. split; (eapply Forall_impl; [eassumption|]); cbn beta.
  - intros r. by apply in_range_misc.
  - intros r [? ?]. split; [|done]. by eapply in_range_misc.
Qed.

(** Renaming an instruction that [canRename] lets through. *)
Lemma renameDestRegs_inv frame rt g i i' rt' g' : tinv frame rt g -> operands_ok (numMisc g) i ->
  renameDestRegs flatten i rt g = Ok (i', rt', g') ->
  tinv frame rt' g' /\ same_inst i i' /\ numMisc g' = numMisc g /\ freeingInProgress rt' = freeingInProgress rt /\
  exists new, historyBuffer rt' = new ++ historyBuffer rt /\ undo (rmap rt') new = rmap rt /\
    Forall (fun e => instSeqNum e = dyn_seqNum i) new.
Proof.
  intros Ht [_ Hd] H. eapply dest_loop_inv; [done| |done]. eapply Forall_impl; [exact Hd|]. cbn beta.
  intros d [Hr _]. done.
Qed.

Lemma renameDestRegs_returns frame rt g i : tinv frame rt g -> operands_ok (numMisc g) i ->
  enough (destRegs (staticInst i)) (freeLists g) ->
  is_ok (renameDestRegs flatten i rt g) = negb (dests_repin (destRegs (staticInst i)) rt g i).
Proof. intros Ht [_ Hd] He. by eapply dest_loop_returns. Qed.

Lemma renameSrcRegs_spec frame rt g i : tinv frame rt g -> operands_ok (numMisc g) i ->
  exists i' ps, renameSrcRegs flatten i rt g = Ok i' /\ same_inst i i' /\
    renamedSrcIdx (operands i') = renamedSrcIdx (operands i) ++ ps /\
    Forall2 (fun r p => lookup (flatten r) (rmap rt) g = Ok (Some p)) (srcRegs (staticInst i)) ps.
Proof. intros Ht [Hs _]. by eapply src_loop_spec. Qed.

Lemma same_operands g i i' : same_inst i i' -> operands_ok (numMisc g) i -> operands_ok (numMisc g) i'.
Proof. unfold operands_ok. by intros (_ & _ & -> & _). Qed.

Lemma reg_step_inv frame rt g o rt' g' act : tinv frame rt g -> op_ok act (numMisc g) o -> reg_step o rt g = Ok (rt', g') ->
  tinv frame rt' g' /\ numMisc g' = numMisc g.
Proof.
  intros Ht [_ Ho]. destruct o as [t i|t n|t n|t]; simpl.
  - destruct (canRename_spec i g (ti_regs _ _ _ Ht)) as (b & -> & _). cbn [rbind]. destruct b; [|by intros [= <- <-]].
    destruct (renameSrcRegs_spec frame rt g i Ht Ho) as (i1 & _ & -> & Hs & _). cbn [rbind]. intros H. inv_res.
    destruct a as [[i2 rt2] g2]. inv_res. eapply renameDestRegs_inv in E as (? & _ & ? & _); [done|done|]. by eapply same_operands.
  - destruct rt as [m hb fr]. destruct (undo_loop_spec n hb frame m fr g Ht) as (young & old & _ & _ & _ & Hu & Ht').
    unfold doSquash. cbn [historyBuffer rmap freeingInProgress]. rewrite Hu. cbn [rbind]. by intros [= <- <-].
  - destruct (removeFromHistory_inv frame rt g n Ht) as (? & ? & rt2 & g2 & -> & ? & _ & _ & _ & _ & ? & _). by intros [= <- <-].
  - destruct (free_squashed_inv frame rt g Ht) as (g2 & -> & ? & ? & _). by intros [= <- <-].
Qed.

Lemma reg_step_returns frame rt g o act : tinv frame rt g -> op_ok act (numMisc g) o ->
  is_ok (reg_step o rt g) = negb (op_repins o rt g).
Proof.
  intros Ht [_ Ho]. destruct o as [t i|t n|t n|t]; simpl.
  - destruct (canRename_spec i g (ti_regs _ _ _ Ht)) as (b & -> & He). cbn [rbind]. destruct b; [|done].
    destruct (renameSrcRegs_spec frame rt g i Ht Ho) as (i1 & _ & -> & Hs & _). cbn [rbind].
    rewrite <- (renameDestRegs_returns frame rt g i1 Ht).
    + by destruct (renameDestRegs _ _ _ _) as [[[? ?] ?]|].
    + by eapply same_operands.
    + destruct Hs as (_ & _ & -> & _). by apply He.
  - destruct rt as [m hb fr]. destruct (undo_loop_spec n hb frame m fr g Ht) as (young & old & _ & _ & _ & Hu & Ht').
    unfold doSquash. cbn [historyBuffer rmap freeingInProgress]. by rewrite Hu.
  - by destruct (removeFromHistory_inv frame rt g n Ht) as (? & ? & rt2 & g2 & -> & _).
  - by destruct (free_squashed_inv frame rt g Ht) as (g2 & -> & _).
Qed.

Lemma reg_exec_inv act rts g o rts' g' : rinv act rts g -> op_ok act (numMisc g) o -> reg_exec o rts g = Ok (rts', g') ->
  rinv act rts' g' /\ numMisc g' = numMisc g /\ length rts' = length rts.
Proof.
  intros Hr Ho. unfold reg_exec. intros H. apply rbind_Ok in H as (rt & E & H). unfold nth_ in E.
  destruct (rts !! op_thread o) as [rt0|] eqn:Hrt; [|done]. injection E as ->.
  apply rbind_Ok in H as ([rt' g1] & E & H). rewrite upd_Ok in H by (by eapply lookup_lt_Some). injection H as <- <-.
  eapply reg_step_inv in E as [Ht' Hn]; [|eapply rinv_tinv; [done|apply Ho|done]|done].
  split; [by eapply tinv_rinv|]. by rewrite length_insert.
Qed.

Lemma op_ok_misc act g g' o : numMisc g' = numMisc g -> op_ok act (numMisc g) o -> op_ok act (numMisc g') o.
Proof. intros Hn [? Ho]. split; [done|]. destruct o; [|done..]. by eapply operands_ok_misc. Qed.

Lemma reg_run_inv act os : forall rts g rts' g', rinv act rts g -> Forall (op_ok act (numMisc g)) os ->
  reg_run os rts g = Ok (rts', g') -> rinv act rts' g' /\ numMisc g' = numMisc g.
Proof.
  induction os as [|o os IH]; intros rts g rts' g' Hr Hos; simpl; [by intros [= <- <-]|].
  apply Forall_cons in Hos as [Ho Hos]. intros H. apply rbind_Ok in H as ([r1 g1] & E & H).
  destruct (reg_exec_inv _ _ _ _ _ _ Hr Ho E) as (Hr1 & Hn1 & _). apply IH in H as [? Hn]; [|done|].
  - split; [done|]. congruence.
  - eapply Forall_impl; [exact Hos|]. intros x. by apply op_ok_misc.
Qed.

Lemma reg_run_returns act os : forall rts g, rinv act rts g -> (forall t, t ∈ act -> (t < length rts)%nat) ->
  Forall (op_ok act (numMisc g)) os -> is_ok (reg_run os rts g) = negb (run_repins os rts g).
Proof.
  induction os as [|o os IH]; intros rts g Hr Hact Hos; simpl; [done|].
  apply Forall_cons in Hos as [Ho Hos].
  destruct (lookup_lt_is_Some_2 rts (op_thread o) (Hact _ (proj1 Ho))) as [rt Hrt]. rewrite Hrt.
  pose proof (reg_step_returns (others (op_thread o) rts) rt g o act (rinv_tinv _ _ _ _ _ Hr (proj1 Ho) Hrt) Ho) as Hok.
  destruct (reg_exec o rts g) as [[rts1 g1]|] eqn:E.
  - destruct (reg_exec_inv _ _ _ _ _ _ Hr Ho E) as (Hr1 & Hn1 & Hl). cbn [rbind]. rewrite IH; [|done| |].
    + unfold reg_exec in E. rewrite (nth_lookup _ _ _ Hrt) in E. cbn [rbind] in E.
      destruct (reg_step o rt g); [|done]. by destruct (op_repins o rt g).
    + intros t Ht. rewrite Hl. by apply Hact.
    + eapply Forall_impl; [exact Hos|]. intros x. by apply op_ok_misc.
  - cbn [rbind is_ok]. unfold reg_exec in E. rewrite (nth_lookup _ _ _ Hrt) in E. cbn [rbind] in E.
    destruct (reg_step o rt g) as [[rt1 g1]|]; [|by destruct (op_repins o rt g)].
    cbn [rbind] in E. by rewrite upd_Ok in E by (by eapply lookup_lt_Some).
Qed.

(** ** Squashing *)

(** The calls on thread [t] while the instructions after [sn] are speculative. *)
Definition speculative (t : nat) (sn : Z) (o : reg_op) : Prop :=
  op_thread o = t -> match o with
  | ORename _ i => sn < dyn_seqNum i
  | OSquash _ n => sn <= n
  | OCommit _ n => n <= sn
  | OFree _ => True
  end.

(** Undoing the speculative part of the history gives the map [m]. *)
Definition rewinds (sn : Z) (m : umap) (rt : RegThread) : Prop :=
  exists new old, historyBuffer rt = new ++ old /\ Forall (fun e => sn < instSeqNum e) new /\
    Forall (fun e => instSeqNum e <= sn) old /\ undo (rmap rt) new = m.

Lemma split_suffix sn (new old keep gone : list RenameHistory) : new ++ old = keep ++ gone ->
  Forall (fun e => sn < instSeqNum e) new -> Forall (fun e => instSeqNum e <= sn) gone ->
  exists old', keep = new ++ old' /\ old = old' ++ gone.
Proof.
  intros Heq Hn Hg. apply app_eq_inv in Heq as [(k & -> & ->)|(k & -> & ->)].
  - destruct k as [|e k]; [exists []; by rewrite !app_nil_r|]. exfalso. apply Forall_app in Hn as [_ Hn].
    rewrite Forall_forall in Hn, Hg. specialize (Hn e ltac:(by left)). specialize (Hg e ltac:(by left)). lia.
  - by exists k.
Qed.

Lemma rewinds_step frame rt g o rt' g' act sn m : tinv frame rt g -> op_ok act (numMisc g) o -> speculative (op_thread o) sn o ->
  reg_step o rt g = Ok (rt', g') -> rewinds sn m rt -> rewinds sn m rt'.
Proof.
  intros Ht [_ Ho] Hsp E (new & old & Hhb & Hn & Hold & Hu). specialize (Hsp eq_refl). destruct o as [t i|t n|t n|t]; simpl in *.
  - destruct (canRename_spec i g (ti_regs _ _ _ Ht)) as (b & Hb & _). rewrite Hb in E. cbn [rbind] in E.
    destruct b; [|injection E as <- <-; by exists new, old].
    destruct (renameSrcRegs_spec frame rt g i Ht Ho) as (i1 & _ & Hi1 & Hs & _). rewrite Hi1 in E. cbn [rbind] in E.
    apply rbind_Ok in E as ([[i2 rt2] g2] & E & [= <- <-]).
    eapply renameDestRegs_inv in E as (_ & _ & _ & _ & nw & Hnh & Hnu & Hsn); [|done|by eapply same_operands].
    exists (nw ++ new), old. rewrite Hnh, Hhb, app_assoc, undo_app, Hnu. split_and!; try done. apply Forall_app. split; [|done].
    eapply Forall_impl; [exact Hsn|]. intros e ->. destruct Hs as (-> & _). done.
  - destruct rt as [m0 hb fr]. destruct (undo_loop_spec n hb frame m0 fr g Ht) as (young & rest & Hhb2 & Hy & Hr & Hul & _).
    unfold doSquash in E. cbn [historyBuffer rmap freeingInProgress] in *. rewrite Hul in E. cbn [rbind] in E. injection E as <- <-.
    assert (Hy' : Forall (fun e => sn < instSeqNum e) young) by (eapply Forall_impl; [exact Hy|]; cbn beta; lia).
    rewrite Hhb2 in Hhb. destruct (split_suffix sn young rest new old Hhb Hy' Hold) as (new' & -> & ->).
    exists new', old. cbn [historyBuffer rmap]. apply Forall_app in Hn as [_ Hn]. rewrite undo_app in Hu. done.
  - destruct (removeFromHistory_inv frame rt g n Ht) as (keep & gone & rt2 & g2 & Hrf & _ & Hk & Hk' & Hm & _ & _ & Hgo & _).
    rewrite Hrf in E. injection E as <- <-. rewrite Hhb in Hk.
    assert (Hgo' : Forall (fun e => instSeqNum e <= sn) gone) by (eapply Forall_impl; [exact Hgo|]; cbn beta; lia).
    destruct (split_suffix sn new old keep gone Hk Hn Hgo') as (old' & -> & ->). exists new, old'. rewrite Hk', Hm.
    apply Forall_app in Hold as [Hold _]. done.
  - destruct (free_squashed_inv frame rt g Ht) as (g2 & Hfs & _). rewrite Hfs in E. injection E as <- <-. by exists new, old.
Qed.

Lemma rewinds_run act t sn m os : forall rts g rt rts' g', rinv act rts g -> Forall (op_ok act (numMisc g)) os -> Forall (speculative t sn) os ->
  rts !! t = Some rt -> rewinds sn m rt -> reg_run os rts g = Ok (rts', g') ->
  exists rt', rts' !! t = Some rt' /\ rewinds sn m rt'.
Proof.
  induction os as [|o os IH]; intros rts g rt rts' g' Hr Hos Hsp Hrt Hrw; simpl; [intros [= <- <-]; eauto|].
  apply Forall_cons in Hos as [Ho Hos]. apply Forall_cons in Hsp as [Hs Hsp]. intros H. apply rbind_Ok in H as ([r1 g1] & E & H).
  destruct (reg_exec_inv _ _ _ _ _ _ Hr Ho E) as (Hr1 & Hn1 & _).
  assert (Hos1 : Forall (op_ok act (numMisc g1)) os) by (eapply Forall_impl; [exact Hos|]; intros x; by apply op_ok_misc).
  unfold reg_exec in E. apply rbind_Ok in E as (rt0 & E0 & E). unfold nth_ in E0.
  destruct (rts !! op_thread o) as [rt1|] eqn:Hrt1; [|done]. injection E0 as ->.
  apply rbind_Ok in E as ([rt' g2] & E1 & E). rewrite upd_Ok in E by (by eapply lookup_lt_Some). injection E as <- <-.
  destruct (decide (op_thread o = t)) as [<-|Hne].
  - rewrite Hrt in Hrt1. injection Hrt1 as <-. eapply IH; [done|done|done| | |done].
    + apply list_lookup_insert_eq. by eapply lookup_lt_Some.
    + eapply rewinds_step; [|exact Ho|done|done|done]. eapply rinv_tinv; [done|apply Ho|done].
  - eapply IH; [done|done|done| |done|done]. by rewrite list_lookup_insert_ne.
Qed.

(** ** Without pinned destinations no register is ever pinned *)

Definition no_pins (g : Regs) : Prop := forall p r, ids g !! p = Some r -> pinned r = false.

Lemma rename_no_pins r m g new prev m' g' : no_pins g -> numPinnedWrites r = 0 -> rename r m g = Ok (new, prev, m', g') -> no_pins g'.
Proof.
  intros Hn Hp. unfold rename. destruct (negb (isRenameable r)).
  - intros H. apply rbind_Ok in H as (o & _ & H). apply rbind_Ok in H as (p & _ & H). by injection H as <- <- <- <-.
  - intros H. apply rbind_Ok in H as (mp & _ & H). apply rbind_Ok in H as (fl & _ & H).
    apply rbind_Ok in H as ([[[[n1 p1] m1] fl1] ids1] & E & H). apply rbind_Ok in H as (m2 & _ & H).
    apply rbind_Ok in H as (fls & _ & H). injection H as <- <- <- <-. unfold no_pins. cbn [ids].
    unfold SimpleRenameMap.rename in E. apply rbind_Ok in E as (o & _ & E). destruct (is_ r InvalidRegClass).
    { apply rbind_Ok in E as (x & _ & E). apply rbind_Ok in E as (y & _ & E). injection E as <- <- <- <- <-. done. }
    apply rbind_Ok in E as (x & _ & E). apply rbind_Ok in E as (pr & Epr%deref_Ok & E). destruct (0 <? getNumPinnedWrites pr).
    + apply rbind_Ok in E as (y & _ & E). injection E as <- <- <- <- <-. intros p r'. rewrite lookup_insert_Some.
      intros [[<- <-]|[_ Hl]]; [simpl; by eapply Hn|by eapply Hn].
    + apply rbind_Ok in E as ([rr fl2] & _ & E). apply rbind_Ok in E as (m3 & _ & E). apply rbind_Ok in E as (pr2 & _ & E).
      injection E as <- <- <- <- <-. intros p r'. rewrite lookup_insert_Some, Hp. intros [[<- <-]|[_ Hl]]; [done|by eapply Hn].
Qed.

Lemma dest_loop_no_pins ds : forall rt g i i' rt' g', no_pins g -> Forall (fun d => numPinnedWrites d = 0) ds ->
  dest_loop flatten ds rt g i = Ok (i', rt', g') ->
  no_pins g' /\ PinnedRegsRenamed (status i') = PinnedRegsRenamed (status i).
Proof.
  induction ds as [|d ds IH]; intros rt g i i' rt' g' Hn Hds; simpl; [by intros [= <- <- <-]|].
  apply Forall_cons in Hds as [Hd Hds]. intros H. apply rbind_Ok in H as ([[[new prev] m1] g1] & E & H).
  apply rename_no_pins in E; [|done|done]. apply rbind_Ok in H as (g2 & E2 & H). apply rbind_Ok in H as (r & Hr%deref_Ok & H).
  assert (Hn2 : no_pins g2).
  { unfold Scoreboard.unsetReg, Scoreboard.write in E2. destruct (isFixedMapping new); [by injection E2 as <-|].
    apply rbind_Ok in E2 as (x & _ & E2). apply rbind_Ok in E2 as (y & _ & E2). apply rbind_Ok in E2 as (z & _ & E2). by injection E2 as <-. }
  apply IH in H as [? Hp]; [|done|done]. split; [done|]. rewrite Hp. unfold rename_dest. by rewrite (Hn2 _ _ Hr).
Qed.

Lemma src_loop_pins srcs m g : forall i i', src_loop flatten srcs m g i = Ok i' ->
  PinnedRegsRenamed (status i') = PinnedRegsRenamed (status i).
Proof.
  induction srcs as [|r srcs IH]; intros i i'; simpl; [by intros [= <-]|]. intros H.
  apply rbind_Ok in H as (o & _ & H). apply rbind_Ok in H as (p & _ & H). apply rbind_Ok in H as (b & _ & H).
  rewrite (IH _ _ H). unfold rename_src. by case_ifs.
Qed.

Lemma src_loop_static srcs m g : forall i i', src_loop flatten srcs m g i = Ok i' -> staticInst i' = staticInst i.
Proof.
  induction srcs as [|r srcs IH]; intros i i'; simpl; [by intros [= <-]|]. intros H.
  apply rbind_Ok in H as (o & _ & H). apply rbind_Ok in H as (p & _ & H). apply rbind_Ok in H as (b & _ & H).
  rewrite (IH _ _ H). unfold rename_src. by case_ifs.
Qed.

Lemma dest_loop_static ds : forall rt g i i' rt' g', dest_loop flatten ds rt g i = Ok (i', rt', g') -> staticInst i' = staticInst i.
Proof.
  induction ds as [|d ds IH]; intros rt g i i' rt' g'; simpl; [by intros [= <- <- <-]|]. intros H.
  apply rbind_Ok in H as ([[[new prev] m1] g1] & _ & H). apply rbind_Ok in H as (g2 & _ & H). apply rbind_Ok in H as (r & _ & H).
  rewrite (IH _ _ _ _ _ _ H). unfold rename_dest. by case_ifs.
Qed.

End registers.

Lemma file_unpinned phys nm p r : PhysRegFile_new phys nm !! p = Some r -> pinned r = false.
Proof.
  unfold PhysRegFile_new. rewrite !lookup_union_Some_raw. intros [[H|[_ H]]|[_ H]].
  - apply elem_of_list_to_map_2, elem_of_lookup_imap in H as (i & x & [= _ ->] & _). done.
  - apply elem_of_list_to_map_2, list_elem_of_fmap in H as (x & [= _ ->] & _). done.
  - apply lookup_singleton_Some in H as [_ <-]. done.
Qed.

(** ** Theorems *)

Definition fresh_thread (m : umap) : RegThread := mkRT m [] [].

Lemma cpu_regs_inv p arch numThreads active : (0 < arch VecRegClass)%nat ->
  (arch VecElemClass mod arch VecRegClass = 0)%nat -> enough_regs p arch numThreads = true -> (active <= numThreads)%nat ->
  Z.of_nat (list_sum (map (numPhys p arch) classes)) <= 2 ^ 32 ->
  exists ms g, cpu_regs p arch numThreads active = Ok (ms, g) /\ length ms = numThreads /\ numMisc g = arch MiscRegClass /\
    rinv arch (numPhys p arch) (seq 0 active) (map fresh_thread ms) g /\ no_pins g.
Proof.
  intros Hv Hd He Ha Htot. unfold cpu_regs. destruct (Nat.eqb_spec (arch VecRegClass) 0); [lia|]. rewrite He. cbn [negb].
  destruct (addRegs_ok (physRegs (numPhys p arch)) (replicate (length classes) [])) as (fls & Hfls & Hf & Hc).
  { split; [done|]. intros c l q Hl Hq. apply lookup_replicate in Hl as [-> _]. by apply not_elem_of_nil in Hq. }
  { apply Forall_forall. intros q. apply physRegs_renameable. }
  unfold UnifiedFreeList_new. rewrite Hfls. cbn [rbind].
  set (g0 := mkRegs _ _ fls _).
  destruct (bind_threads_ok arch (numPhys p arch) active g0) as (ms & g & -> & Hl & Hms & Hfg & Hg & Hp & _); [done| | |].
  { unfold g0. cbn [freeLists]. rewrite Hc. simpl. by rewrite app_nil_r. }
  { intros c Hcr. pose proof (enough_regs_all p arch numThreads He Hv Hd c Hcr). nia. }
  cbn [rbind]. eexists _, _. split; [done|]. split_and!.
  - rewrite length_app, length_replicate. lia.
  - by rewrite Hg.
  - split.
    + rewrite Hg. pose proof (regs_ok_new (numPhys p arch) (arch MiscRegClass) (freeLists g) Hfg Htot) as [? ? ? ?]. by split.
    + intros t rt Ht Hrt. apply elem_of_seq in Ht. rewrite list_lookup_fmap in Hrt.
      apply fmap_Some in Hrt as (m & Hm & ->). rewrite lookup_app_l in Hm by lia. split; [|done].
      rewrite Forall_lookup in Hms. by eapply Hms.
    + rewrite <- Hp. f_equiv.
      assert (Hrep : forall n, concat (map owned (map fresh_thread (replicate n (UnifiedRenameMap_init arch)))) = []).
      { intros n0. induction n0 as [|n0 IH]; [done|]. simpl. rewrite IH, app_nil_r. unfold owned. simpl. by rewrite init_mapped. }
      rewrite !map_app, concat_app, Hrep, app_nil_r. clear. induction ms as [|m ms IH]; [done|].
      simpl. rewrite IH. unfold owned. simpl. by rewrite app_nil_r.
  - intros q r. rewrite Hg. apply file_unpinned.
Qed.

(** C15: no physical register is lost, shared or handed out twice.  The constructor
    binds the registers of the active threads whenever its checks pass; after any
    sequence of renames, commits, squashes and releases by any of the threads, every
    physical register is in exactly one place: a free list, a rename map, a history
    entry that still needs it, or the list of registers to be released.  The run
    returns exactly when no instruction that [canRename] lets through pins a register
    whose pinned writes are still outstanding, the case the code's assertion excludes. *)
Theorem registers_conserved p arch flatten numThreads active os : (0 < arch VecRegClass)%nat ->
  (arch VecElemClass mod arch VecRegClass = 0)%nat -> enough_regs p arch numThreads = true -> (active <= numThreads)%nat ->
  Z.of_nat (list_sum (map (numPhys p arch) classes)) <= 2 ^ 32 ->
  Forall (op_ok arch flatten (seq 0 active) (arch MiscRegClass)) os ->
  exists ms g, cpu_regs p arch numThreads active = Ok (ms, g) /\
    (forall rts' g', reg_run flatten os (map fresh_thread ms) g = Ok (rts', g') ->
       concat (freeLists g') ++ concat (map owned rts') ≡ₚ physRegs (numPhys p arch)) /\
    is_ok (reg_run flatten os (map fresh_thread ms) g) = negb (run_repins flatten os (map fresh_thread ms) g).
Proof.
  intros Hv Hd He Ha Htot Hos. destruct (cpu_regs_inv p arch numThreads active Hv Hd He Ha Htot) as (ms & g & Hc & Hl & Hm & Hr & _).
  rewrite <- Hm in Hos. exists ms, g. split; [done|]. split.
  - intros rts' g' Hrun. eapply reg_run_inv in Hrun as [Hr' _]; [|done|done]. apply Hr'.
  - eapply reg_run_returns; [done| |done]. intros t Ht%elem_of_seq. rewrite length_map. lia.
Qed.

(** C16: a squash takes the rename map back exactly.  Whatever is renamed after the
    instruction [sn], and however often younger instructions are squashed, older
    ones commit and other threads rename meanwhile, squashing back to [sn] restores
    the map the thread had then. *)
Theorem squash_restores_map arch phys flatten act t sn os rts g rt rts1 g1 :
  rinv arch phys act rts g -> t ∈ act -> rts !! t = Some rt -> Forall (fun e => instSeqNum e <= sn) (historyBuffer rt) ->
  Forall (op_ok arch flatten act (numMisc g)) os -> Forall (speculative t sn) os -> reg_run flatten os rts g = Ok (rts1, g1) ->
  exists rts2 g2 rt2, reg_exec flatten (OSquash t sn) rts1 g1 = Ok (rts2, g2) /\ rts2 !! t = Some rt2 /\ rmap rt2 = rmap rt.
Proof.
  intros Hr Ht Hrt Hold Hos Hsp Hrun.
  destruct (rewinds_run arch phys flatten act t sn (rmap rt) os rts g rt rts1 g1) as (rt1 & Hrt1 & new & old & Hhb & Hn & Ho & Hu);
    [done|done|done|done|by exists [], (historyBuffer rt)|done|].
  destruct (reg_run_inv arch phys flatten act os rts g rts1 g1) as [Hr1 _]; [done|done|done|].
  destruct rt1 as [m hb fr]. cbn [historyBuffer rmap] in *. pose proof (rinv_tinv _ _ _ _ _ _ _ Hr1 Ht Hrt1) as Ht1.
  destruct (undo_loop_spec arch phys sn hb _ m fr g1 Ht1) as (young & rest & Hhb2 & Hy & Hre & Hul & _).
  unfold reg_exec. cbn [op_thread]. rewrite (nth_lookup _ _ _ Hrt1). cbn [rbind reg_step doSquash historyBuffer rmap freeingInProgress].
  unfold doSquash. cbn [historyBuffer rmap freeingInProgress]. rewrite Hul. cbn [rbind].
  rewrite upd_Ok by (by eapply lookup_lt_Some). cbn [rbind]. eexists _, _, _. split; [done|].
  split; [apply list_lookup_insert_eq; by eapply lookup_lt_Some|]. cbn [rmap]. rewrite <- Hu. f_equal.
  rewrite Hhb2 in Hhb. destruct (split_suffix sn young rest new old Hhb Hy Ho) as (k & -> & ->).
  destruct k as [|e k]; [by rewrite app_nil_r|]. specialize (Hre e _ eq_refl). apply Forall_app in Hn as [_ Hn].
  rewrite Forall_forall in Hn. specialize (Hn e ltac:(by left)). lia.
Qed.

(** ** An example: two threads, two integer registers each, six physical ones *)

Module TwoThreads.

Definition arch (c : RegClassType) : nat :=
  match c with IntRegClass => 2 | VecRegClass | VecElemClass | MiscRegClass => 1 | _ => 0 end.
Definition params : Params := mkParams 6 0 3 0 0 0.

(** [r_d := r_0 + r_1] as the [sn]-th instruction of a thread. *)
Definition add_pinned (sn : Z) (t d : nat) (pins : Z) : DynInst :=
  mkDyn sn t (mkStatic [mkReg IntRegClass 0 0; mkReg IntRegClass 1 0] [mkReg IntRegClass d pins]
    false false false false false false)
    (mkStatus false false false false false false false false) (mkOperands 0 [] [] [] [] []).

Definition add (sn : Z) (t d : nat) : DynInst := add_pinned sn t d 0.

(** The second instruction of thread 1 writes the register the first one pinned. *)
Definition ops : list reg_op :=
  [ORename 0 (add 5 0 1); ORename 1 (add_pinned 6 1 0 1); ORename 1 (add 8 1 0); ORename 0 (add 7 0 1); OSquash 0 5; OFree 0; OCommit 0 5].

Definition wrong_path : list reg_op := [ORename 0 (add 5 0 1); ORename 1 (add 6 1 0); OSquash 0 5; OFree 0].

(** The run of [os] on the core's registers never pins a register twice. *)
Definition never_repins (os : list reg_op) : bool :=
  match cpu_regs params arch 2 2 with
  | Ok (ms, g) => negb (run_repins id os (map fresh_thread ms) g)
  | Err _ => false
  end.

End TwoThreads.

Lemma registers_conserved_witness : exists ms g, cpu_regs TwoThreads.params TwoThreads.arch 2 2 = Ok (ms, g) /\
  is_ok (reg_run id TwoThreads.ops (map fresh_thread ms) g) = true.
Proof.
  destruct (registers_conserved TwoThreads.params TwoThreads.arch id 2 2 TwoThreads.ops) as (ms & g & Hc & _ & Hok).
  - simpl. lia.
  - reflexivity.
  - reflexivity.
  - lia.
  - vm_compute. discriminate.
  - repeat constructor; simpl; try lia; set_solver.
  - exists ms, g. split; [exact Hc|]. rewrite Hok.
    assert (E : TwoThreads.never_repins TwoThreads.ops = true) by (vm_compute; reflexivity).
    unfold TwoThreads.never_repins in E. rewrite Hc in E. exact E.
Defined.

Lemma squash_restores_map_witness : exists rts g rt rts1 g1 rts2 g2 rt2,
  rts !! 0%nat = Some rt /\ reg_run id TwoThreads.wrong_path rts g = Ok (rts1, g1) /\
  reg_exec id (OSquash 0 4) rts1 g1 = Ok (rts2, g2) /\ rts2 !! 0%nat = Some rt2 /\ rmap rt2 = rmap rt.
Proof.
  destruct (cpu_regs_inv TwoThreads.params TwoThreads.arch 2 2) as (ms & g & Hc & Hl & Hm & Hr & _);
    [simpl; lia|reflexivity|reflexivity|lia|vm_compute; discriminate|].
  assert (Hos : Forall (op_ok TwoThreads.arch id (seq 0 2) (numMisc g)) TwoThreads.wrong_path)
    by (rewrite Hm; repeat constructor; simpl; try lia; set_solver).
  assert (Hrun : TwoThreads.never_repins TwoThreads.wrong_path = true) by (vm_compute; reflexivity).
  unfold TwoThreads.never_repins in Hrun. rewrite Hc in Hrun. rewrite <- (reg_run_returns _ _ _ _ _ _ _ Hr) in Hrun;
    [|intros t Ht%elem_of_seq; rewrite length_map; lia|exact Hos].
  destruct (reg_run id TwoThreads.wrong_path (map fresh_thread ms) g) as [[rts1 g1]|] eqn:Erun; [clear Hrun|discriminate Hrun].
  destruct ms as [|m ms]; [discriminate Hl|].
  destruct (squash_restores_map TwoThreads.arch (numPhys TwoThreads.params TwoThreads.arch) id (seq 0 2) 0 4 TwoThreads.wrong_path
    (map fresh_thread (m :: ms)) g (fresh_thread m) rts1 g1) as (rts2 & g2 & rt2 & H1 & H2 & H3).
  - exact Hr.
  - apply elem_of_seq. lia.
  - reflexivity.
  - constructor.
  - exact Hos.
  - do 4 (apply Forall_cons_2; [intros Ht; simpl in *; (lia || exact I)|]). constructor.
  - exact Erun.
  - exists (map fresh_thread (m :: ms)), g, (fresh_thread m), rts1, g1, rts2, g2, rt2. repeat split; assumption.
Defined.
