(* ===== verification/Rename.v ===== *)
(** * The rename stage of the out-of-order CPU

    [cpu/o3/rename.cc] around the operations of [RenameRegs.v]: every cycle the
    stage reads the signals of commit and of the issue stage, takes the instructions
    decode sent, renames as many as the back end has room for, and keeps the rest in
    its skid buffer.  A thread owns its registers, queues, status and counters; the
    instructions are shared objects in a heap and the queues hold pointers to them.
    The wires of the time buffers are arguments of [tick] and fields of the state.
    Statistics, probes and debug prints are left out. *)

From Stdlib Require Import ZArith Lia Bool.
From stdpp Require Import base tactics option list numbers gmap.
From S2P Require Import Prelude Phast RenameMap RenameRegs.
Open Scope Z_scope.

(** ** State *)

Inductive ThreadStatus : Type :=
| Running | Idle | StartSquash | Squashing | Blocked | Unblocking | SerializeStall.

#[export] Instance ThreadStatus_eq_dec : EqDecision ThreadStatus.
Proof. solve_decision. Defined.

Record Queues := mkQueues { insts : list positive; skidBuffer : list positive; serializeInst : option positive }.

(** Status of a thread, and its wires to decode. *)
Record Control := mkControl {
  renameStatus : ThreadStatus; serializeOnNextInst : bool; stalls_iew : bool;
  renameBlock : bool; renameUnblock : bool
}.

Record Counts := mkCounts {
  instsInProgress : Z; loadsInProgress : Z; storesInProgress : Z;      (* int *)
  iqEntries : Z; robEntries : Z; lqEntries : Z; sqEntries : Z;          (* unsigned *)
  emptyROB : bool
}.

Record Thread := mkThread { rt : RegThread; q : Queues; ctl : Control; cnt : Counts }.

Definition set_rt (t : Thread) (r : RegThread) : Thread := mkThread r (q t) (ctl t) (cnt t).
Definition set_q (t : Thread) (x : Queues) : Thread := mkThread (rt t) x (ctl t) (cnt t).
Definition set_ctl (t : Thread) (c : Control) : Thread := mkThread (rt t) (q t) c (cnt t).
Definition set_cnt (t : Thread) (c : Counts) : Thread := mkThread (rt t) (q t) (ctl t) c.

Definition status_of (t : Thread) : ThreadStatus := renameStatus (ctl t).
Definition set_renameStatus (t : Thread) (s : ThreadStatus) : Thread :=
  let c := ctl t in set_ctl t (mkControl s (serializeOnNextInst c) (stalls_iew c) (renameBlock c) (renameUnblock c)).
Definition set_serializeOnNext (t : Thread) (b : bool) : Thread :=
  let c := ctl t in set_ctl t (mkControl (renameStatus c) b (stalls_iew c) (renameBlock c) (renameUnblock c)).
Definition set_stall (t : Thread) (b : bool) : Thread :=
  let c := ctl t in set_ctl t (mkControl (renameStatus c) (serializeOnNextInst c) b (renameBlock c) (renameUnblock c)).
Definition set_block (t : Thread) (b : bool) : Thread :=
  let c := ctl t in set_ctl t (mkControl (renameStatus c) (serializeOnNextInst c) (stalls_iew c) b (renameUnblock c)).
Definition set_unblock (t : Thread) (b : bool) : Thread :=
  let c := ctl t in set_ctl t (mkControl (renameStatus c) (serializeOnNextInst c) (stalls_iew c) (renameBlock c) b).
Definition set_serializeInst (t : Thread) (o : option positive) : Thread :=
  set_q t (mkQueues (insts (q t)) (skidBuffer (q t)) o).
Definition set_insts (t : Thread) (l : list positive) : Thread :=
  set_q t (mkQueues l (skidBuffer (q t)) (serializeInst (q t))).
Definition set_skid (t : Thread) (l : list positive) : Thread :=
  set_q t (mkQueues (insts (q t)) l (serializeInst (q t))).

(** What the threads share.  [active] is [_status == Active]; [toIEW] holds the
    instructions sent this cycle. *)
Record Shared := mkShared {
  regs : Regs; dyn : gmap positive DynInst; branchHistory : list branchInfo;
  active : bool; resumeSerialize : bool; resumeUnblocking : bool;
  blockThisCycle : bool; wroteToTimeBuffer : bool; toIEW : list positive
}.

Definition set_regs (g : Shared) (r : Regs) : Shared :=
  mkShared r (dyn g) (branchHistory g) (active g) (resumeSerialize g) (resumeUnblocking g) (blockThisCycle g) (wroteToTimeBuffer g) (toIEW g).
Definition set_dyn (g : Shared) (d : gmap positive DynInst) : Shared :=
  mkShared (regs g) d (branchHistory g) (active g) (resumeSerialize g) (resumeUnblocking g) (blockThisCycle g) (wroteToTimeBuffer g) (toIEW g).
Definition set_branches (g : Shared) (b : list branchInfo) : Shared :=
  mkShared (regs g) (dyn g) b (active g) (resumeSerialize g) (resumeUnblocking g) (blockThisCycle g) (wroteToTimeBuffer g) (toIEW g).
Definition set_active (g : Shared) (b : bool) : Shared :=
  mkShared (regs g) (dyn g) (branchHistory g) b (resumeSerialize g) (resumeUnblocking g) (blockThisCycle g) (wroteToTimeBuffer g) (toIEW g).
Definition set_resumeSerialize (g : Shared) (b : bool) : Shared :=
  mkShared (regs g) (dyn g) (branchHistory g) (active g) b (resumeUnblocking g) (blockThisCycle g) (wroteToTimeBuffer g) (toIEW g).
Definition set_resumeUnblocking (g : Shared) (b : bool) : Shared :=
  mkShared (regs g) (dyn g) (branchHistory g) (active g) (resumeSerialize g) b (blockThisCycle g) (wroteToTimeBuffer g) (toIEW g).
Definition set_blockThisCycle (g : Shared) (b : bool) : Shared :=
  mkShared (regs g) (dyn g) (branchHistory g) (active g) (resumeSerialize g) (resumeUnblocking g) b (wroteToTimeBuffer g) (toIEW g).
Definition set_wrote (g : Shared) (b : bool) : Shared :=
  mkShared (regs g) (dyn g) (branchHistory g) (active g) (resumeSerialize g) (resumeUnblocking g) (blockThisCycle g) b (toIEW g).
Definition set_toIEW (g : Shared) (l : list positive) : Shared :=
  mkShared (regs g) (dyn g) (branchHistory g) (active g) (resumeSerialize g) (resumeUnblocking g) (blockThisCycle g) (wroteToTimeBuffer g) l.

Record Rename := mkRename { threads : list Thread; shared : Shared }.

(** The wires read by the stage, per thread. *)
Record IewComm := mkIewComm {
  freeIQEntries : Z; freeLQEntries : Z; freeSQEntries : Z;
  dispatchedToLQ : Z; dispatchedToSQ : Z; dispatched : Z;
  usedIQ : bool; usedLSQ : bool; iewBlock : bool; iewUnblock : bool
}.

Record CommitComm := mkCommitComm {
  doneSeqNum : Z; freeROBEntries : Z; commit_squash : bool; robSquashing : bool;
  usedROB : bool; commit_emptyROB : bool
}.

Section stage.
Variable flatten : RegId -> RegId.
Context (renameWidth skidBufferMax : nat).

(** ** Blocking *)

Definition the_inst (g : Shared) (p : positive) : res DynInst := deref (dyn g !! p).

(** The assertion in the loop of [skidInsert]. *)
Fixpoint check_thread (tid : nat) (ps : list positive) (g : Shared) : res unit :=
  match ps with
  | [] => Ok tt
  | p :: ps => let! i := the_inst g p in check! (tid =? threadNumber i)%nat; check_thread tid ps g
  end.

Definition skidInsert (tid : nat) (t : Thread) (g : Shared) : res Thread :=
  let! _ := check_thread tid (insts (q t)) g in
  let skid := skidBuffer (q t) ++ insts (q t) in
  if (skidBufferMax <? length skid)%nat then Err Panicked
  else Ok (set_skid (set_insts t []) skid).

Definition block (tid : nat) (t : Thread) (g : Shared) : res (bool * Thread * Shared) :=
  let! t := skidInsert tid t g in
  if bool_decide (status_of t = Blocked) then Ok (false, t, g)
  else
    let signal := resumeUnblocking g || negb (bool_decide (status_of t = Unblocking)) in
    let t := if signal then set_unblock (set_block t true) false else t in
    let g := if signal then set_wrote g true else g in
    if bool_decide (status_of t = SerializeStall) then Ok (false, t, g)
    else Ok (true, set_renameStatus t Blocked, g).

Definition unblock (t : Thread) (g : Shared) : bool * Thread * Shared :=
  if bool_decide (skidBuffer (q t) = []) && negb (bool_decide (status_of t = SerializeStall)) then
    (true, set_renameStatus (set_unblock t true) Running, set_wrote g true)
  else (false, t, g).

(** ** Free entries: [unsigned] arithmetic converted to [int] *)

Definition calcFreeROBEntries (t : Thread) (iew : IewComm) : Z :=
  swrap 32 (robEntries (cnt t) - (instsInProgress (cnt t) - dispatched iew)).
Definition calcFreeIQEntries (t : Thread) (iew : IewComm) : Z :=
  swrap 32 (iqEntries (cnt t) - (instsInProgress (cnt t) - dispatched iew)).
Definition calcFreeLQEntries (t : Thread) (iew : IewComm) : Z :=
  swrap 32 (lqEntries (cnt t) - (loadsInProgress (cnt t) - dispatchedToLQ iew)).
Definition calcFreeSQEntries (t : Thread) (iew : IewComm) : Z :=
  swrap 32 (sqEntries (cnt t) - (storesInProgress (cnt t) - dispatchedToSQ iew)).

(** ** Renaming instructions *)

(** [insts_to_rename]: the skid buffer when unblocking. *)
Definition queue (unblocking : bool) (t : Thread) : list positive :=
  if unblocking then skidBuffer (q t) else insts (q t).
Definition set_queue (unblocking : bool) (t : Thread) (l : list positive) : Thread :=
  if unblocking then set_skid t l else set_insts t l.

Definition upd_inst (g : Shared) (p : positive) (f : DynInst -> DynInst) : res Shared :=
  let! i := the_inst g p in Ok (set_dyn g (<[p := f i]> (dyn g))).

Definition serializeAfter (unblocking : bool) (t : Thread) (g : Shared) : res (Thread * Shared) :=
  match queue unblocking t with
  | [] => Ok (set_serializeOnNext t true, g)
  | p :: _ => let! g := upd_inst g p setSerializeBefore in Ok (t, g)
  end.

Definition count_mem (s : StaticInst) (c : Counts) : Counts :=
  if isAtomic s || isStore s then
    mkCounts (instsInProgress c) (loadsInProgress c) (storesInProgress c + 1) (iqEntries c) (robEntries c) (lqEntries c) (sqEntries c) (emptyROB c)
  else if isLoad s then
    mkCounts (instsInProgress c) (loadsInProgress c + 1) (storesInProgress c) (iqEntries c) (robEntries c) (lqEntries c) (sqEntries c) (emptyROB c)
  else c.

(** The tail of an iteration: the operands, the counters and the queue to IEW.  The
    registers renamed are those of the instruction's own thread. *)
Definition rename_inst (tid : nat) (p : positive) (t : Thread) (g : Shared) : res (Thread * Shared) :=
  let! i := the_inst g p in
  if negb (threadNumber i =? tid)%nat then Err OutOfRange else
  let! i := renameSrcRegs flatten i (rt t) (regs g) in
  let! (i, r, rg) := renameDestRegs flatten i (rt t) (regs g) in
  let t := set_cnt (set_rt t r) (count_mem (staticInst i) (cnt t)) in
  Ok (t, set_toIEW (set_dyn (set_regs g rg) (<[p := i]> (dyn g))) (toIEW g ++ [p])).

(** The loop of [renameInsts]; the results are [insts_available] and
    [renamed_insts]. *)
Fixpoint rename_loop (tid : nat) (iew : IewComm) (unblocking : bool) (avail : nat) (renamed : Z) (t : Thread) (g : Shared) :
    res (nat * Z * Thread * Shared) :=
  match avail with
  | O => Ok (O, renamed, t, g)
  | S avail' =>
      if negb (length (toIEW g) <? renameWidth)%nat then Ok (avail, renamed, t, g) else
      match queue unblocking t with
      | [] => Err AssertFailed
      | p :: rest =>
          let! i := the_inst g p in
          let s := staticInst i in
          if isLoad s && (calcFreeLQEntries t iew <=? 0) then Ok (avail, renamed, t, g)
          else if (isStore s || isAtomic s) && (calcFreeSQEntries t iew <=? 0) then Ok (avail, renamed, t, g)
          else
            let t := set_queue unblocking t rest in
            if isSquashed i then rename_loop tid iew unblocking avail' renamed t g
            else
              let! can := canRename (numDestRegs i) (regs g) in
              if negb can then Ok (avail, renamed, set_queue unblocking t (p :: rest), set_blockThisCycle g true)
              else if isSerializeBefore i && negb (isSerializeHandled i) then
                let! g := (if negb (isTempSerializeBefore i) then upd_inst g p setSerializeHandled else Ok g) in
                Ok (avail, renamed, set_serializeInst (set_renameStatus t SerializeStall) (Some p), set_blockThisCycle g true)
              else
                let! (t, g) := (if (isStoreConditional s || isSerializeAfter i) && negb (isSerializeHandled i) then
                    let! g := upd_inst g p setSerializeHandled in serializeAfter unblocking t g
                  else Ok (t, g)) in
                let! (t, g) := rename_inst tid p t g in
                rename_loop tid iew unblocking avail' (renamed + 1) t g
      end
  end.

Definition add_progress (n : Z) (c : Counts) : Counts :=
  mkCounts (instsInProgress c + n) (loadsInProgress c) (storesInProgress c) (iqEntries c) (robEntries c) (lqEntries c) (sqEntries c) (emptyROB c).

(** Serialising the next instruction. *)
Definition serialize_next (unblocking : bool) (t : Thread) (g : Shared) : res (Thread * Shared) :=
  if serializeOnNextInst (ctl t) then
    if emptyROB (cnt t) && (instsInProgress (cnt t) =? 0) then Ok (set_serializeOnNext t false, g)
    else match queue unblocking t with
         | [] => Ok (t, g)
         | p :: _ => let! g := upd_inst g p setSerializeBefore in Ok (t, g)
         end
  else Ok (t, g).

Definition renameInsts (tid : nat) (iew : IewComm) (t : Thread) (g : Shared) : res (Thread * Shared) :=
  let unblocking := bool_decide (status_of t = Unblocking) in
  let insts_available := length (queue unblocking t) in
  if (insts_available =? 0)%nat then Ok (t, g)
  else
    let min_free_entries := Z.min (calcFreeROBEntries t iew) (calcFreeIQEntries t iew) in
    if min_free_entries <=? 0 then
      let! (_, t, g) := block tid t (set_blockThisCycle g true) in Ok (t, g)
    else
      let limited := min_free_entries <? Z.of_nat insts_available in
      let avail := if limited then Z.to_nat min_free_entries else insts_available in
      let g := if limited then set_blockThisCycle g true else g in
      let! (t, g) := serialize_next unblocking t g in
      let! (remaining, renamed, t, g) := rename_loop tid iew unblocking avail 0 t g in
      let t := set_cnt t (add_progress renamed (cnt t)) in
      let g := if (length (toIEW g) =? 0)%nat then g else set_wrote g true in
      let g := if (remaining =? 0)%nat then g else set_blockThisCycle g true in
      if blockThisCycle g then
        let! (_, t, g) := block tid t g in Ok (set_unblock t false, g)
      else Ok (t, g).

(** [validInsts]: instructions from decode that are not squashed. *)
Fixpoint validInsts (fromDecode : list positive) (g : Shared) : res nat :=
  match fromDecode with
  | [] => Ok O
  | p :: ps =>
      let! i := the_inst g p in
      let! n := validInsts ps g in
      Ok (if isSquashed i then n else S n)
  end.

(** [Rename::rename]. *)
Definition rename_thread (tid : nat) (fromDecode : list positive) (iew : IewComm) (status_change : bool) (t : Thread) (g : Shared) :
    res (bool * Thread * Shared) :=
  let! (t, g) := (match status_of t with
    | SerializeStall =>
        if resumeSerialize g then
          let! (_, t, g) := block tid t (set_resumeSerialize g false) in Ok (set_unblock t false, g)
        else Ok (t, g)
    | Unblocking =>
        if resumeUnblocking g then
          let! (_, t, g) := block tid t g in Ok (set_unblock t false, set_resumeUnblocking g false)
        else Ok (t, g)
    | _ => Ok (t, g)
    end) in
  match status_of t with
  | Running | Idle => let! (t, g) := renameInsts tid iew t g in Ok (status_change, t, g)
  | Unblocking =>
      let! (t, g) := renameInsts tid iew t g in
      let! n := validInsts fromDecode g in
      let! t := (if (n =? 0)%nat then Ok t else skidInsert tid t g) in
      let '(b, t, g) := unblock t g in
      Ok (b || status_change || blockThisCycle g, t, g)
  | _ => Ok (status_change, t, g)
  end.

(** ** Squashing *)

(** The instructions coming from decode. *)
Fixpoint squash_decoded (tid : nat) (squash_seq_num : Z) (fromDecode : list positive) (g : Shared) : res Shared :=
  match fromDecode with
  | [] => Ok g
  | p :: ps =>
      let! i := the_inst g p in
      let! g := (if (threadNumber i =? tid)%nat && (squash_seq_num <? dyn_seqNum i) then
          let! (i, f) := setSquashed i (ids (regs g)) in
          let r := regs g in
          Ok (set_wrote (set_dyn (set_regs g (mkRegs f (numMisc r) (freeLists r) (regScoreBoard r))) (<[p := i]> (dyn g))) true)
        else Ok g) in
      squash_decoded tid squash_seq_num ps g
  end.

(** The status before a squash decides what decode is told. *)
Definition squash_signals (squash_seq_num : Z) (t : Thread) (g : Shared) : res (Thread * Shared) :=
  match status_of t with
  | Blocked | Unblocking =>
      Ok (set_serializeInst (set_unblock t true) None, set_resumeSerialize g false)
  | SerializeStall =>
      let! p := deref (serializeInst (q t)) in
      let! i := the_inst g p in
      if dyn_seqNum i <=? squash_seq_num then Ok (t, set_resumeSerialize g true)
      else Ok (set_serializeInst (set_unblock t true) None, set_resumeSerialize g false)
  | _ => Ok (t, g)
  end.

Definition squash (tid : nat) (squash_seq_num : Z) (fromDecode : list positive) (t : Thread) (g : Shared) : res (Thread * Shared) :=
  let! (t, g) := squash_signals squash_seq_num t g in
  let t := set_renameStatus t Squashing in
  let! g := squash_decoded tid squash_seq_num fromDecode g in
  let t := set_skid (set_insts t []) [] in
  let g := set_branches g (revert_branches squash_seq_num (branchHistory g)) in
  let! r := doSquash squash_seq_num (rt t) (regs g) in
  Ok (set_rt t r, g).

(** ** Signals *)

Definition readFreeEntries (iew : IewComm) (com : CommitComm) (t : Thread) : Thread :=
  let c := cnt t in
  set_cnt t (mkCounts (instsInProgress c) (loadsInProgress c) (storesInProgress c)
    (if usedIQ iew then freeIQEntries iew else iqEntries c)
    (if usedROB com then freeROBEntries com else robEntries c)
    (if usedLSQ iew then freeLQEntries iew else lqEntries c)
    (if usedLSQ iew then freeSQEntries iew else sqEntries c)
    (if usedROB com then commit_emptyROB com else emptyROB c)).

Definition readStallSignals (iew : IewComm) (t : Thread) : res Thread :=
  let t := if iewBlock iew then set_stall t true else t in
  if iewUnblock iew then check! stalls_iew (ctl t); Ok (set_stall t false) else Ok t.

Definition checkStall (iew : IewComm) (t : Thread) : bool :=
  if stalls_iew (ctl t) then true
  else if calcFreeROBEntries t iew <=? 0 then true
  else if calcFreeIQEntries t iew <=? 0 then true
  else if (calcFreeLQEntries t iew <=? 0) && (calcFreeSQEntries t iew <=? 0) then true
  else bool_decide (status_of t = SerializeStall) && (negb (emptyROB (cnt t)) || negb (instsInProgress (cnt t) =? 0)).

(** The end of a serialise stall puts the instruction back at the front. *)
Definition resume_serialized (t : Thread) (g : Shared) : res (Thread * Shared) :=
  let serial_inst := serializeInst (q t) in
  let t := set_renameStatus t Unblocking in
  let '(_, t, g) := unblock t g in
  let! p := deref serial_inst in
  let! g := upd_inst g p clearSerializeBefore in
  let t := if bool_decide (skidBuffer (q t) = []) then set_insts t (p :: insts (q t))
           else set_skid t (p :: skidBuffer (q t)) in
  Ok (set_serializeInst t None, g).

(** The status changes of [checkSignalsAndUpdate] without a squash or a stall. *)
Definition next_status (t : Thread) (g : Shared) : res (bool * Thread * Shared) :=
  match status_of t with
  | Blocked => let '(_, t, g) := unblock (set_renameStatus t Unblocking) g in Ok (true, t, g)
  | Squashing =>
      if resumeSerialize g then Ok (true, set_renameStatus t SerializeStall, g)
      else if resumeUnblocking g then Ok (true, set_renameStatus t Unblocking, g)
      else Ok (false, set_renameStatus t Running, g)
  | SerializeStall => let! (t, g) := resume_serialized t g in Ok (true, t, g)
  | _ => Ok (false, t, g)
  end.

Definition checkSignalsAndUpdate (tid : nat) (fromDecode : list positive) (iew : IewComm) (com : CommitComm) (t : Thread) (g : Shared) :
    res (bool * Thread * Shared) :=
  let t := readFreeEntries iew com t in
  let! t := readStallSignals iew t in
  if commit_squash com then
    let! (t, g) := squash tid (doneSeqNum com) fromDecode t g in Ok (true, t, g)
  else
    let! (t, g) := (if robSquashing com then Ok (t, g)
      else let! (r, rg) := free_squashed (rt t) (regs g) in Ok (set_rt t r, set_regs g rg)) in
    if checkStall iew t then block tid t g
    else next_status t g.

(** ** A cycle *)

(** [sortInsts]. *)
Fixpoint sortInsts (fromDecode : list positive) (ts : list Thread) (g : Shared) : res (list Thread) :=
  match fromDecode with
  | [] => Ok ts
  | p :: ps =>
      let! i := the_inst g p in
      let! t := nth_ ts (threadNumber i) in
      let! ts := upd_ ts (threadNumber i) (set_insts t (insts (q t) ++ [p])) in
      sortInsts ps ts g
  end.

Section cycle.
Context (fromDecode : list positive) (fromIEW : list IewComm) (fromCommit : list CommitComm).

(** The first loop over the active threads. *)
Fixpoint rename_threads (tids : list nat) (status_change : bool) (ts : list Thread) (g : Shared) :
    res (bool * list Thread * Shared) :=
  match tids with
  | [] => Ok (status_change, ts, g)
  | tid :: tids =>
      let! t := nth_ ts tid in
      let! iew := nth_ fromIEW tid in
      let! com := nth_ fromCommit tid in
      let! (b, t, g) := checkSignalsAndUpdate tid fromDecode iew com t g in
      let! (status_change, t, g) := rename_thread tid fromDecode iew (b || status_change) t g in
      let! ts := upd_ ts tid t in
      rename_threads tids status_change ts g
  end.

Definition updateStatus (tids : list nat) (ts : list Thread) (g : Shared) : Shared :=
  set_active g (existsb (fun tid => match ts !! tid with
    | Some t => bool_decide (status_of t = Unblocking) | None => false end) tids).

(** The second loop: commits. *)
Fixpoint commit_threads (tids : list nat) (ts : list Thread) (g : Shared) : res (list Thread * Shared) :=
  match tids with
  | [] => Ok (ts, g)
  | tid :: tids =>
      let! t := nth_ ts tid in
      let! com := nth_ fromCommit tid in
      let! (t, g) := (if negb (doneSeqNum com =? 0) && negb (commit_squash com) && negb (bool_decide (status_of t = Squashing))
        then let! (r, rg) := removeFromHistory (doneSeqNum com) (rt t) (regs g) in Ok (set_rt t r, set_regs g rg)
        else Ok (t, g)) in
      let! ts := upd_ ts tid t in
      commit_threads tids ts g
  end.

(** The progress counters of all threads. *)
Definition progress (iew : IewComm) (t : Thread) : res Thread :=
  let c := cnt t in
  let i := swrap 32 (instsInProgress c - dispatched iew) in
  let l := swrap 32 (loadsInProgress c - dispatchedToLQ iew) in
  let s := swrap 32 (storesInProgress c - dispatchedToSQ iew) in
  check! 0 <=? l;
  check! 0 <=? s;
  check! 0 <=? i;
  Ok (set_cnt t (mkCounts i l s (iqEntries c) (robEntries c) (lqEntries c) (sqEntries c) (emptyROB c))).

Fixpoint progress_all (tid : nat) (ts : list Thread) : res (list Thread) :=
  match ts with
  | [] => Ok []
  | t :: ts =>
      let! iew := nth_ fromIEW tid in
      let! t := progress iew t in
      let! ts := progress_all (S tid) ts in
      Ok (t :: ts)
  end.

(** The signals to decode and the queue to IEW live for one cycle. *)
Definition advance (s : Rename) : Rename :=
  mkRename (map (fun t => set_block (set_unblock t false) false) (threads s)) (set_toIEW (shared s) []).

Definition tick (activeThreads : list nat) (s : Rename) : res Rename :=
  let g := set_toIEW (set_blockThisCycle (set_wrote (shared s) false) false) [] in
  let! ts := sortInsts fromDecode (threads s) g in
  let! (status_change, ts, g) := rename_threads activeThreads false ts g in
  let g := if status_change then updateStatus activeThreads ts g else g in
  let! (ts, g) := commit_threads activeThreads ts g in
  let! ts := progress_all 0 ts in
  Ok (mkRename ts g).

End cycle.

(** ** Starting and draining *)

(** The constructor and [setRenameMap]; [resetStage] sets the members it leaves
    uninitialised. *)
Definition new_thread (m : umap) : Thread :=
  mkThread (mkRT m [] []) (mkQueues [] [] None) (mkControl Idle false false false false) (mkCounts 0 0 0 0 0 0 0 true).

Definition Rename_new (ms : list umap) (r : Regs) (status resume_ser resume_unb block wrote : bool) : Rename :=
  mkRename (map new_thread ms) (mkShared r ∅ [] status resume_ser resume_unb block wrote []).

(** The free entries that IEW and commit report when asked. *)
Record BackEnd := mkBackEnd {
  numFreeEntries_iq : nat -> Z; numFreeLoadEntries : nat -> Z; numFreeStoreEntries : nat -> Z; numROBFreeEntries : nat -> Z
}.

Definition clearStates (be : BackEnd) (tid : nat) (t : Thread) : Thread :=
  mkThread (rt t) (mkQueues (insts (q t)) (skidBuffer (q t)) None)
    (mkControl Idle false false (renameBlock (ctl t)) (renameUnblock (ctl t)))
    (mkCounts 0 0 0 (numFreeEntries_iq be tid) (numROBFreeEntries be tid) (numFreeLoadEntries be tid) (numFreeStoreEntries be tid) true).

Definition resetStage (be : BackEnd) (s : Rename) : Rename :=
  mkRename (imap (clearStates be) (threads s))
    (set_resumeUnblocking (set_resumeSerialize (set_active (shared s) false) false) false).

Definition thread_drained (t : Thread) : bool :=
  (instsInProgress (cnt t) =? 0) && bool_decide (historyBuffer (rt t) = []) && bool_decide (skidBuffer (q t) = []) &&
  bool_decide (insts (q t) = []) && (bool_decide (status_of t = Idle) || bool_decide (status_of t = Running)).

Definition isDrained (s : Rename) : bool := forallb thread_drained (threads s).

Fixpoint drainSanityCheck (ts : list Thread) : res unit :=
  match ts with
  | [] => Ok tt
  | t :: ts =>
      check! bool_decide (historyBuffer (rt t) = []);
      check! bool_decide (insts (q t) = []);
      check! bool_decide (skidBuffer (q t) = []);
      check! instsInProgress (cnt t) =? 0;
      drainSanityCheck ts
  end.

(** ** Invariants *)

Section invariants.
Context (arch phys : RegClassType -> nat).

Definition pending (t : Thread) : list positive :=
  option_list (serializeInst (q t)) ++ skidBuffer (q t) ++ insts (q t).

(** An object is the same instruction, up to what renaming and serialising record;
    only the threads of [sq] may be squashed. *)
Definition same_id (sq : nat -> Prop) (i i' : DynInst) : Prop :=
  dyn_seqNum i' = dyn_seqNum i /\ threadNumber i' = threadNumber i /\ staticInst i' = staticInst i /\
  PinnedRegsRenamed (status i') = PinnedRegsRenamed (status i) /\ (~ sq (threadNumber i) -> isSquashed i' = isSquashed i).

Definition dyn_rel (sq : nat -> Prop) (d d' : gmap positive DynInst) : Prop :=
  forall p, option_relation (same_id sq) (fun _ => False) (fun _ => False) (d !! p) (d' !! p).

Definition nobody (_ : nat) : Prop := False.

Definition runs (s : ThreadStatus) : bool := match s with Running | Idle | Squashing => true | _ => false end.

(** The queues of a thread: the pointers are instructions of the thread, the skid
    buffer is empty while the stage runs or squashes, and only a serialise stall holds an
    instruction aside. *)
Record queues_ok (tid : nat) (t : Thread) (g : Shared) : Prop := {
  qo_ptr : forall p, p ∈ pending t -> exists i, dyn g !! p = Some i /\ threadNumber i = tid;
  qo_cap : (length (pending t) <= skidBufferMax)%nat;
  qo_run : runs (status_of t) = true -> skidBuffer (q t) = [];
  qo_serial : status_of t = SerializeStall <-> is_Some (serializeInst (q t))
}.

Record shared_ok (g : Shared) : Prop := {
  so_serialize : resumeSerialize g = false;
  so_unblocking : resumeUnblocking g = false;
  so_insts : forall p i, dyn g !! p = Some i -> operands_ok arch flatten (numMisc (regs g)) i /\
    Forall (fun r => numPinnedWrites r = 0) (destRegs (staticInst i)) /\ PinnedRegsRenamed (status i) = false;
  so_pins : no_pins (regs g)
}.

(** Whether an instruction is sent on: it exists and is not squashed. *)
Definition live (d : gmap positive DynInst) (p : positive) : bool :=
  match d !! p with Some i => negb (isSquashed i) | None => false end.

(** What a part of the cycle does to a thread: the instructions [L] leave the front
    of its queues, those that are not squashed are sent on in order, and everything
    else stays as it should. *)
Record moves (tid : nat) (frame : list preg) (L : list positive) (t : Thread) (g : Shared) (t' : Thread) (g' : Shared) : Prop := {
  mv_queues : queues_ok tid t' g';
  mv_shared : shared_ok g';
  mv_tinv : tinv arch phys frame (rt t') (regs g');
  mv_misc : numMisc (regs g') = numMisc (regs g);
  mv_dyn : dyn_rel nobody (dyn g) (dyn g');
  mv_pending : pending t = L ++ pending t';
  mv_sent : toIEW g' = toIEW g ++ List.filter (live (dyn g)) L
}.

Lemma dyn_rel_refl sq d : dyn_rel sq d d.
Proof. intros p. destruct (d !! p); simpl; by unfold same_id. Qed.

Lemma dyn_rel_trans sq d1 d2 d3 : dyn_rel sq d1 d2 -> dyn_rel sq d2 d3 -> dyn_rel sq d1 d3.
Proof.
  intros H12 H23 p. specialize (H12 p). specialize (H23 p).
  destruct (d1 !! p), (d2 !! p), (d3 !! p); simpl in *; try done. unfold same_id in *.
  destruct H12 as (? & E & ? & ? & ?), H23 as (? & ? & ? & ? & Hq). rewrite E in Hq. split_and!; try congruence.
  intros Hs. rewrite Hq by done. auto.
Qed.

Lemma dyn_rel_weaken sq d d' : dyn_rel nobody d d' -> dyn_rel sq d d'.
Proof.
  intros H p. specialize (H p). destruct (d !! p), (d' !! p); simpl in *; try done.
  destruct H as (? & ? & ? & ? & Hq). split_and!; try done. intros _. apply Hq. by intros [].
Qed.

Lemma dyn_rel_lookup sq d d' p i : dyn_rel sq d d' -> d !! p = Some i -> exists i', d' !! p = Some i' /\ same_id sq i i'.
Proof. intros H Hp. specialize (H p). rewrite Hp in H. destruct (d' !! p) as [i'|]; simpl in H; [eauto|done]. Qed.

Definition same_full (i i' : DynInst) : Prop :=
  same_inst i i' /\ PinnedRegsRenamed (status i') = PinnedRegsRenamed (status i).

Lemma dyn_rel_insert d p i i' : d !! p = Some i -> same_full i i' -> dyn_rel nobody d (<[p := i']> d).
Proof.
  intros Hp ((? & ? & ? & ?) & ?) x. destruct (decide (x = p)) as [->|Hne].
  - rewrite lookup_insert_eq, Hp. simpl. by unfold same_id.
  - rewrite lookup_insert_ne by done. destruct (d !! x); simpl; by unfold same_id.
Qed.

Lemma live_rel d d' p : dyn_rel nobody d d' -> live d' p = live d p.
Proof.
  intros H. unfold live. specialize (H p). destruct (d !! p), (d' !! p); simpl in H; try done.
  destruct H as (_ & _ & _ & _ & Hq). rewrite Hq by (by intros []). done.
Qed.

Lemma moves_trans tid frame L1 L2 t g t1 g1 t2 g2 : moves tid frame L1 t g t1 g1 -> moves tid frame L2 t1 g1 t2 g2 ->
  moves tid frame (L1 ++ L2) t g t2 g2.
Proof.
  intros [? ? ? Hm1 Hd1 Hp1 Hs1] [? ? ? Hm2 Hd2 Hp2 Hs2]. split; try done.
  - congruence.
  - by eapply dyn_rel_trans.
  - by rewrite Hp1, Hp2, app_assoc.
  - rewrite Hs2, Hs1, List.filter_app, app_assoc. f_equal. apply filter_ext. intros p. by apply live_rel.
Qed.

(** Parts that only touch signals and the place of an instruction in the queues. *)
Record same_core (g g' : Shared) : Prop := {
  sc_regs : regs g' = regs g; sc_dyn : dyn g' = dyn g; sc_ser : resumeSerialize g' = resumeSerialize g;
  sc_unb : resumeUnblocking g' = resumeUnblocking g; sc_sent : toIEW g' = toIEW g
}.

Lemma same_core_refl g : same_core g g.
Proof. done. Qed.

Lemma shared_core g g' : same_core g g' -> shared_ok g -> shared_ok g'.
Proof. intros [Hr Hd Hs Hu _] [? ? Hi Hn]. split; [congruence|congruence| |by rewrite Hr]. rewrite Hr, Hd. done. Qed.

Lemma moves_quiet tid frame t g t' g' : same_core g g' -> rt t' = rt t -> pending t' = pending t ->
  queues_ok tid t g -> shared_ok g -> tinv arch phys frame (rt t) (regs g) ->
  (runs (status_of t') = true -> skidBuffer (q t') = []) ->
  (status_of t' = SerializeStall <-> is_Some (serializeInst (q t'))) -> moves tid frame [] t g t' g'.
Proof.
  intros Hc Hrt Hp [Q1 Q2 _ _] Hs Ht Hrun Hser. pose proof (shared_core _ _ Hc Hs) as Hs'. destruct Hc as [Hr Hd _ _ Hw].
  split; try done.
  - split; [|by rewrite Hp|done|done]. rewrite Hp, Hd. done.
  - by rewrite Hrt, Hr.
  - by rewrite Hr.
  - rewrite Hd. apply dyn_rel_refl.
  - by rewrite Hw, app_nil_r.
Qed.

Lemma check_thread_ok tid ps g : (forall p, p ∈ ps -> exists i, dyn g !! p = Some i /\ threadNumber i = tid) ->
  check_thread tid ps g = Ok tt.
Proof.
  induction ps as [|p ps IH]; intros H; simpl; [done|]. destruct (H p ltac:(by left)) as (i & Hi & <-).
  unfold the_inst. rewrite Hi. cbn [rbind deref]. rewrite Nat.eqb_refl. cbn [rbind assert_]. apply IH. intros x Hx. apply H. by right.
Qed.

Lemma pending_insts t p : p ∈ insts (q t) -> p ∈ pending t.
Proof. unfold pending. set_solver. Qed.

Lemma skidInsert_ok tid t g : queues_ok tid t g ->
  skidInsert tid t g = Ok (set_skid (set_insts t []) (skidBuffer (q t) ++ insts (q t))).
Proof.
  intros [Q1 Q2 _ _]. unfold skidInsert. rewrite check_thread_ok by (intros p Hp; by apply Q1, pending_insts). cbn [rbind].
  unfold pending in Q2. rewrite !length_app in Q2. destruct (Nat.ltb_spec skidBufferMax (length (skidBuffer (q t) ++ insts (q t)))) as [Hlt|]; [|done].
  rewrite length_app in Hlt. lia.
Qed.

Lemma block_ok tid frame t g : queues_ok tid t g -> shared_ok g -> tinv arch phys frame (rt t) (regs g) ->
  exists b t' g', block tid t g = Ok (b, t', g') /\ moves tid frame [] t g t' g' /\
    (status_of t' = Blocked \/ status_of t' = SerializeStall) /\ blockThisCycle g' = blockThisCycle g.
Proof.
  intros Hq Hs Ht. unfold block. rewrite skidInsert_ok by done. cbn [rbind].
  set (t1 := set_skid (set_insts t []) _).
  assert (Hst : status_of t1 = status_of t) by done. rewrite Hst.
  assert (Hp : forall c, pending (set_ctl t1 c) = pending t) by (intros c; unfold pending; simpl; by rewrite app_nil_r).
  pose proof (qo_serial _ _ _ Hq) as Hser. destruct (decide (status_of t = Blocked)) as [Hb|Hb].
  - rewrite (bool_decide_eq_true_2 _ Hb). eexists _, _, _. split; [done|]. split; [|split; [left; by rewrite Hst|done]].
    apply moves_quiet; try done; [apply (Hp (ctl t1))|]. by rewrite Hst, Hb.
  - rewrite (bool_decide_eq_false_2 _ Hb). rewrite (so_unblocking g Hs). cbn [orb].
    set (sg := negb _). set (t2 := if sg then _ else _). set (g2 := if sg then _ else _).
    assert (Hg2 : same_core g g2) by (unfold g2; by destruct sg).
    assert (Hbl : blockThisCycle g2 = blockThisCycle g) by (unfold g2; by destruct sg).
    assert (Hst2 : status_of t2 = status_of t) by (unfold t2; by destruct sg).
    assert (Hq2 : q t2 = q t1) by (unfold t2; by destruct sg).
    assert (Hrt2 : rt t2 = rt t) by (unfold t2; by destruct sg).
    rewrite Hst2. destruct (decide (status_of t = SerializeStall)) as [Hss|Hss].
    + rewrite (bool_decide_eq_true_2 _ Hss). eexists _, _, _. split; [done|]. split; [|split; [right; by rewrite Hst2|done]].
      apply moves_quiet; try done.
      * unfold pending. rewrite Hq2. apply (Hp (ctl t1)).
      * by rewrite Hst2, Hss.
      * rewrite Hst2, Hq2. done.
    + rewrite (bool_decide_eq_false_2 _ Hss). eexists _, _, _. split; [done|]. split; [|split; [by left|done]].
      apply moves_quiet; try done.
      * unfold pending. cbn [set_renameStatus set_ctl q]. rewrite Hq2. apply (Hp (ctl t1)).
      * cbn [set_renameStatus set_ctl q]. rewrite Hq2. split; [done|]. intros Hsi. by apply Hser in Hsi.
Qed.

Lemma unblock_ok tid frame t g b t' g' : unblock t g = (b, t', g') -> queues_ok tid t g -> shared_ok g ->
  tinv arch phys frame (rt t) (regs g) -> moves tid frame [] t g t' g' /\ blockThisCycle g' = blockThisCycle g /\
  (status_of t' = status_of t \/ status_of t' = Running).
Proof.
  intros E Hq Hs Ht. unfold unblock in E. pose proof (qo_serial _ _ _ Hq) as Hser.
  destruct (decide (skidBuffer (q t) = [])) as [Hk|Hk]; [rewrite (bool_decide_eq_true_2 _ Hk) in E|rewrite (bool_decide_eq_false_2 _ Hk) in E].
  2: { injection E as <- <- <-. split; [|auto]. apply moves_quiet; try done; apply Hq. }
  destruct (decide (status_of t = SerializeStall)) as [Hss|Hss];
    [rewrite (bool_decide_eq_true_2 _ Hss) in E|rewrite (bool_decide_eq_false_2 _ Hss) in E]; injection E as <- <- <-.
  - split; [|auto]. apply moves_quiet; try done; apply Hq.
  - split; [|auto]. apply moves_quiet; try done. split; [done|]. intros Hsi. by apply Hser in Hsi.
Qed.

(** Parts that change what an instruction records. *)
Lemma queues_dyn sq tid t g g' : dyn_rel sq (dyn g) (dyn g') -> queues_ok tid t g -> queues_ok tid t g'.
Proof.
  intros Hd [Q1 Q2 Q3 Q4]. split; try done. intros p Hp. destruct (Q1 p Hp) as (i & Hi & Hth).
  destruct (dyn_rel_lookup _ _ _ _ _ Hd Hi) as (i' & Hi' & _ & Heq & _). exists i'. split; [done|congruence].
Qed.

Lemma shared_dyn sq g g' : dyn_rel sq (dyn g) (dyn g') -> numMisc (regs g') = numMisc (regs g) -> no_pins (regs g') ->
  resumeSerialize g' = resumeSerialize g -> resumeUnblocking g' = resumeUnblocking g -> shared_ok g -> shared_ok g'.
Proof.
  intros Hd Hm Hp Hs Hu [? ? Hi _]. split; [congruence|congruence| |done]. intros p i Hpi. specialize (Hd p). rewrite Hpi in Hd.
  destruct (dyn g !! p) as [i0|] eqn:E; simpl in Hd; [|done]. destruct Hd as (_ & _ & Hst & Hpin & _).
  destruct (Hi p i0 E) as (? & ? & ?). unfold operands_ok in *. rewrite Hm, Hst, Hpin. done.
Qed.

Lemma moves_inst tid frame t g p i i' : queues_ok tid t g -> shared_ok g -> tinv arch phys frame (rt t) (regs g) ->
  dyn g !! p = Some i -> same_full i i' -> moves tid frame [] t g t (set_dyn g (<[p := i']> (dyn g))).
Proof.
  intros Hq Hs Ht Hi Hsame. pose proof (dyn_rel_insert (dyn g) p i i' Hi Hsame) as Hd. split; try done.
  - by eapply queues_dyn.
  - eapply shared_dyn; [exact Hd|done..|apply Hs|done|done|done].
  - simpl. by rewrite app_nil_r.
Qed.

Lemma upd_inst_ok tid frame t g p f : queues_ok tid t g -> shared_ok g -> tinv arch phys frame (rt t) (regs g) ->
  is_Some (dyn g !! p) -> (forall i, same_full i (f i)) ->
  exists g', upd_inst g p f = Ok g' /\ moves tid frame [] t g t g' /\ blockThisCycle g' = blockThisCycle g /\ regs g' = regs g /\
    exists i, dyn g !! p = Some i /\ dyn g' = <[p := f i]> (dyn g).
Proof.
  intros Hq Hs Ht [i Hi] Hf. unfold upd_inst, the_inst. rewrite Hi. cbn [rbind deref]. eexists. split; [done|]. split.
  - by eapply moves_inst.
  - eauto.
Qed.

Definition mode (unblocking : bool) (t : Thread) : Prop :=
  if unblocking then status_of t = Unblocking else status_of t = Running \/ status_of t = Idle.

(** While the loop runs nothing is held aside, and the queue is the front of what is
    pending. *)
Lemma mode_pending unb tid t g : mode unb t -> queues_ok tid t g -> serializeInst (q t) = None /\
  (unb = false -> skidBuffer (q t) = []) /\ pending t = queue unb t ++ (if unb then insts (q t) else []).
Proof.
  intros Hm [_ _ Q3 Q4]. assert (Hns : serializeInst (q t) = None).
  { destruct (serializeInst (q t)) as [p|] eqn:E; [|done]. assert (status_of t = SerializeStall) by (apply Q4; eauto).
    destruct unb; simpl in Hm; [|destruct Hm]; congruence. }
  split; [done|]. unfold pending. rewrite Hns. destruct unb; simpl in *; [done|].
  rewrite Q3 by (by destruct Hm as [-> | ->]). split; [done|]. by rewrite app_nil_r.
Qed.

Lemma set_queue_mode unb t l : mode unb (set_queue unb t l) = mode unb t.
Proof. by destruct unb. Qed.

Lemma set_queue_twice unb t l l' : set_queue unb (set_queue unb t l) l' = set_queue unb t l'.
Proof. by destruct unb. Qed.

Lemma set_queue_id unb t : set_queue unb t (queue unb t) = t.
Proof. by destruct unb, t as [? [? ? ?] ? ?]. Qed.

Lemma queue_set_queue unb t l : queue unb (set_queue unb t l) = l.
Proof. by destruct unb. Qed.

Lemma rt_set_queue unb t l : rt (set_queue unb t l) = rt t.
Proof. by destruct unb. Qed.

(** Taking the first instruction out of the queue. *)
Lemma pop_ok unb tid t g p rest : mode unb t -> queues_ok tid t g -> queue unb t = p :: rest ->
  pending t = p :: pending (set_queue unb t rest) /\ queues_ok tid (set_queue unb t rest) g.
Proof.
  intros Hm Hq Hqu. destruct (mode_pending unb tid t g Hm Hq) as (Hns & Hsk & Hp). destruct Hq as [Q1 Q2 Q3 Q4].
  assert (Hpend : pending t = p :: pending (set_queue unb t rest)).
  { rewrite Hp, Hqu. unfold pending. destruct unb; simpl; rewrite Hns; simpl; [done|].
    rewrite (Hsk eq_refl). by rewrite app_nil_r. }
  split; [done|]. split.
  - intros x Hx. apply Q1. rewrite Hpend. by right.
  - rewrite Hpend in Q2. simpl in Q2. lia.
  - destruct unb; simpl in *; [|done]. change (status_of (set_skid t rest)) with (status_of t). by rewrite Hm.
  - by destruct unb.
Qed.

Lemma moves_head tid frame p t t1 t2 t3 g g2 g3 : pending t = p :: pending t1 -> live (dyn g) p = true ->
  moves tid frame [] t1 g t2 g2 -> queues_ok tid t3 g3 -> shared_ok g3 -> tinv arch phys frame (rt t3) (regs g3) ->
  numMisc (regs g3) = numMisc (regs g2) -> dyn_rel nobody (dyn g2) (dyn g3) -> pending t3 = pending t2 ->
  toIEW g3 = toIEW g2 ++ [p] -> moves tid frame [p] t g t3 g3.
Proof.
  intros Hp Hl [_ _ _ M4 M5 M6 M7] ? ? ? ? Hd Hp3 Hw. split; try done.
  - congruence.
  - by eapply dyn_rel_trans.
  - rewrite Hp, M6, Hp3. done.
  - rewrite Hw, M7. simpl. rewrite Hl. by rewrite app_nil_r.
Qed.

Lemma serializeAfter_ok unb tid frame t g : mode unb t -> queues_ok tid t g -> shared_ok g -> tinv arch phys frame (rt t) (regs g) ->
  exists t' g', serializeAfter unb t g = Ok (t', g') /\ moves tid frame [] t g t' g' /\ mode unb t' /\ rt t' = rt t /\
    regs g' = regs g /\ queue unb t' = queue unb t /\ toIEW g' = toIEW g.
Proof.
  intros Hm Hq Hs Ht. unfold serializeAfter. destruct (queue unb t) as [|p rest] eqn:Hqu.
  - eexists _, _. split; [done|]. split; [|destruct unb; done]. apply moves_quiet; try done; apply Hq.
  - destruct (mode_pending unb tid t g Hm Hq) as (_ & _ & Hp).
    destruct (qo_ptr _ _ _ Hq p) as (i & Hi & _); [rewrite Hp, Hqu; by left|].
    destruct (upd_inst_ok tid frame t g p setSerializeBefore Hq Hs Ht) as (g' & -> & Hmv & _ & Hr & _); [eauto|done|].
    cbn [rbind]. exists t, g'. split; [done|]. split_and!; try done. pose proof (mv_sent _ _ _ _ _ _ _ Hmv) as Hw.
    simpl in Hw. by rewrite app_nil_r in Hw.
Qed.

Lemma rename_inst_ok tid frame p i t g : dyn g !! p = Some i -> threadNumber i = tid -> queues_ok tid t g -> shared_ok g ->
  tinv arch phys frame (rt t) (regs g) -> enough (destRegs (staticInst i)) (freeLists (regs g)) ->
  exists t' g', rename_inst tid p t g = Ok (t', g') /\ queues_ok tid t' g' /\ shared_ok g' /\
    tinv arch phys frame (rt t') (regs g') /\ numMisc (regs g') = numMisc (regs g) /\ dyn_rel nobody (dyn g) (dyn g') /\
    q t' = q t /\ ctl t' = ctl t /\ toIEW g' = toIEW g ++ [p].
Proof.
  intros Hi Hth Hq Hs Ht He. destruct (so_insts g Hs p i Hi) as (Hops & Hpin & _). unfold rename_inst, the_inst. rewrite Hi. cbn [rbind deref].
  rewrite Hth, Nat.eqb_refl. cbn [negb].
  destruct (renameSrcRegs_spec arch phys flatten frame (rt t) (regs g) i Ht Hops) as (i1 & _ & E1 & Hs1 & _). rewrite E1. cbn [rbind].
  assert (Hops1 : operands_ok arch flatten (numMisc (regs g)) i1) by (by eapply same_operands).
  assert (Hpin1 : Forall (fun r => numPinnedWrites r = 0) (destRegs (staticInst i1))) by (by destruct Hs1 as (_ & _ & -> & _)).
  pose proof (renameDestRegs_returns arch phys flatten frame (rt t) (regs g) i1 Ht Hops1) as Hok.
  rewrite dests_unpinned in Hok by done. destruct (renameDestRegs flatten i1 (rt t) (regs g)) as [[[i2 r] rg]|] eqn:E.
  2: { discriminate Hok. by destruct Hs1 as (_ & _ & -> & _). }
  cbn [rbind].
  destruct (dest_loop_no_pins _ _ _ _ _ _ _ _ (so_pins g Hs) Hpin1 E) as [Hnp Hpr].
  eapply renameDestRegs_inv in E as (Ht2 & Hs2 & Hn & _); [|exact Ht|exact Hops1].
  assert (Hsame : same_full i i2).
  { split; [|rewrite Hpr; by eapply src_loop_pins]. unfold same_inst in *.
    destruct Hs1 as (? & ? & ? & ?), Hs2 as (? & ? & ? & ?). split_and!; congruence. }
  pose proof (dyn_rel_insert (dyn g) p i i2 Hi Hsame) as Hd.
  eexists _, _. split; [done|]. split_and!; try done.
  - destruct (queues_dyn nobody tid t g (set_dyn g (<[p := i2]> (dyn g))) Hd Hq). by split.
  - by eapply (shared_dyn _ g).
Qed.

Lemma moves_refl tid frame t g : queues_ok tid t g -> shared_ok g -> tinv arch phys frame (rt t) (regs g) ->
  moves tid frame [] t g t g.
Proof. intros Hq Hs Ht. apply moves_quiet; try done; apply Hq. Qed.

Lemma moves_flag tid frame t g b : queues_ok tid t g -> shared_ok g -> tinv arch phys frame (rt t) (regs g) ->
  moves tid frame [] t g t (set_blockThisCycle g b).
Proof. intros Hq Hs Ht. apply moves_quiet; try done; apply Hq. Qed.

(** A serialising instruction is held aside; it stays first in line. *)
Lemma hold_aside unb tid frame t g p rest g' : mode unb t -> queues_ok tid t g -> queue unb t = p :: rest ->
  moves tid frame [] t g t g' ->
  moves tid frame [] t g (set_serializeInst (set_renameStatus (set_queue unb t rest) SerializeStall) (Some p)) (set_blockThisCycle g' true).
Proof.
  intros Hm Hq Hqu Hmv. destruct (mode_pending unb tid t g Hm Hq) as (Hns & Hsk & Hp). destruct Hmv as [M1 M2 M3 M4 M5 M6 M7].
  change [] with ([] ++ [] : list positive). eapply moves_trans; [by split|].
  apply moves_quiet; try done.
  - by destruct unb.
  - rewrite Hp, Hqu. unfold pending. destruct unb; simpl; [done|]. rewrite (Hsk eq_refl). by rewrite app_nil_r.
Qed.

(** An instruction that serialises what follows it. *)
Lemma serialize_step_ok unb tid frame p i t g : mode unb t -> queues_ok tid t g -> shared_ok g ->
  tinv arch phys frame (rt t) (regs g) -> is_Some (dyn g !! p) ->
  exists t' g', (if (isStoreConditional (staticInst i) || isSerializeAfter i) && negb (isSerializeHandled i)
      then rbind (upd_inst g p setSerializeHandled) (fun g => serializeAfter unb t g) else Ok (t, g)) = Ok (t', g') /\
    moves tid frame [] t g t' g' /\ mode unb t' /\ regs g' = regs g /\ queue unb t' = queue unb t.
Proof.
  intros Hm Hq Hs Ht Hi. destruct (_ && negb _); [|exists t, g; split; [done|]; split_and!; try done; by apply moves_refl].
  destruct (upd_inst_ok tid frame t g p setSerializeHandled Hq Hs Ht Hi) as (g1 & -> & Hmv1 & _ & Hr1 & _); [done|]. cbn [rbind].
  destruct (serializeAfter_ok unb tid frame t g1) as (t2 & g2 & -> & Hmv2 & Hm2 & _ & Hr2 & Hq2 & _); [done|apply Hmv1..|].
  exists t2, g2. split; [done|]. split_and!; try done; [|congruence]. change [] with ([] ++ [] : list positive). by eapply moves_trans.
Qed.

Lemma rename_loop_ok tid frame iew unb avail : forall renamed t g, mode unb t -> queues_ok tid t g -> shared_ok g ->
  tinv arch phys frame (rt t) (regs g) -> (avail <= length (queue unb t))%nat ->
  exists remaining n L t' g', rename_loop tid iew unb avail renamed t g = Ok (remaining, n, t', g') /\
    moves tid frame L t g t' g' /\ (mode unb t' \/ status_of t' = SerializeStall).
Proof.
  induction avail as [|avail IH]; intros renamed t g Hm Hq Hs Ht Ha; cbn [rename_loop].
  { eexists _, _, [], _, _. split; [done|]. split; [by apply moves_refl|by left]. }
  destruct (negb _). { eexists _, _, [], _, _. split; [done|]. split; [by apply moves_refl|by left]. }
  destruct (queue unb t) as [|p rest] eqn:Hqu; [simpl in Ha; lia|].
  destruct (pop_ok unb tid t g p rest Hm Hq Hqu) as [Hpend Hq1]. set (t1 := set_queue unb t rest) in *.
  destruct (qo_ptr _ _ _ Hq p) as (i & Hi & Hth); [rewrite Hpend; by left|].
  unfold the_inst at 1. rewrite Hi. cbn [rbind deref].
  destruct (isLoad _ && _). { eexists _, _, [], _, _. split; [done|]. split; [by apply moves_refl|by left]. }
  destruct (_ && (calcFreeSQEntries _ _ <=? 0)). { eexists _, _, [], _, _. split; [done|]. split; [by apply moves_refl|by left]. }
  assert (Hm1 : mode unb t1) by (unfold t1; by rewrite set_queue_mode).
  assert (Ht1 : tinv arch phys frame (rt t1) (regs g)) by (unfold t1; by rewrite rt_set_queue).
  assert (Hlen : (avail <= length (queue unb t1))%nat) by (unfold t1; rewrite queue_set_queue; simpl in Ha; lia).
  destruct (isSquashed i) eqn:Hsq.
  { destruct (IH renamed t1 g Hm1 Hq1 Hs Ht1 Hlen) as (r & n & L & t' & g' & -> & Hmv & Hmode).
    exists r, n, (p :: L), t', g'. split; [done|]. split; [|done]. destruct Hmv as [? ? ? ? ? Hp Hw]. split; try done.
    - by rewrite Hpend, Hp.
    - rewrite Hw. simpl. unfold live at 2. by rewrite Hi, Hsq. }
  destruct (canRename_spec phys i (regs g) (ti_regs _ _ _ _ _ Ht)) as (can & -> & He). cbn [rbind].
  destruct can; cbn [negb].
  2: { unfold t1. rewrite set_queue_twice, <- Hqu, set_queue_id. eexists _, _, [], _, _. split; [done|]. split; [by apply moves_flag|by left]. }
  assert (Hlive : live (dyn g) p = true) by (unfold live; by rewrite Hi, Hsq).
  destruct (isSerializeBefore i && negb (isSerializeHandled i)).
  { assert (Hg : exists g', (if negb (isTempSerializeBefore i) then upd_inst g p setSerializeHandled else Ok g) = Ok g' /\ moves tid frame [] t g t g').
    { destruct (negb _); [|exists g; split; [done|by apply moves_refl]].
      destruct (upd_inst_ok tid frame t g p setSerializeHandled Hq Hs Ht) as (g' & -> & Hmv & _); [eauto|done|]. eauto. }
    destruct Hg as (g' & -> & Hmv). cbn [rbind]. eexists _, _, [], _, _. split; [done|]. split; [by eapply hold_aside|by right]. }
  destruct (serialize_step_ok unb tid frame p i t1 g) as (t2 & g2 & -> & Hmv2 & Hm2 & Hr2 & Hq2); [done..|eauto|]. cbn [rbind].
  destruct (dyn_rel_lookup _ _ _ _ _ (mv_dyn _ _ _ _ _ _ _ Hmv2) Hi) as (i2 & Hi2 & _ & Hth2 & Hst2 & _).
  destruct (rename_inst_ok tid frame p i2 t2 g2 Hi2) as (t3 & g3 & -> & Hq3 & Hs3 & Ht3 & Hn3 & Hd3 & Hqq & Hctl & Hw3);
    [congruence|apply Hmv2|apply Hmv2|apply Hmv2|rewrite Hst2, Hr2; by apply He|]. cbn [rbind].
  assert (Hmv3 : moves tid frame [p] t g t3 g3).
  { eapply moves_head; try done. unfold pending. by rewrite Hqq. }
  assert (Hm3 : mode unb t3) by (unfold mode, status_of in *; by rewrite Hctl).
  destruct (IH (renamed + 1) t3 g3 Hm3 Hq3 Hs3 Ht3) as (r & n & L & t' & g' & -> & Hmv & Hmode).
  { unfold queue in *. rewrite Hqq. by rewrite Hq2. }
  exists r, n, (p :: L), t', g'. split; [done|]. split; [|done]. change (p :: L) with ([p] ++ L). by eapply moves_trans.
Qed.

Lemma serialize_next_ok unb tid frame t g : mode unb t -> queues_ok tid t g -> shared_ok g -> tinv arch phys frame (rt t) (regs g) ->
  exists t' g', serialize_next unb t g = Ok (t', g') /\ moves tid frame [] t g t' g' /\ mode unb t' /\ queue unb t' = queue unb t.
Proof.
  intros Hm Hq Hs Ht. unfold serialize_next. destruct (serializeOnNextInst _); [|exists t, g; split; [done|]; split; [by apply moves_refl|done]].
  destruct (emptyROB _ && _).
  { eexists _, _. split; [done|]. split; [|by destruct unb]. apply moves_quiet; try done; apply Hq. }
  destruct (queue unb t) as [|p rest] eqn:Hqu; [exists t, g; split; [done|]; split; [by apply moves_refl|done]|].
  destruct (mode_pending unb tid t g Hm Hq) as (_ & _ & Hp).
  destruct (qo_ptr _ _ _ Hq p) as (i & Hi & _); [rewrite Hp, Hqu; by left|].
  destruct (upd_inst_ok tid frame t g p setSerializeBefore Hq Hs Ht) as (g' & -> & Hmv & _); [eauto|done|]. cbn [rbind].
  by exists t, g'.
Qed.

(** Writing counters and signals. *)
Lemma moves_after tid frame L t g t1 g1 t2 g2 : moves tid frame L t g t1 g1 -> same_core g1 g2 -> rt t2 = rt t1 -> q t2 = q t1 ->
  status_of t2 = status_of t1 -> moves tid frame L t g t2 g2.
Proof.
  intros Hmv Hc Hr Hq Hst. rewrite <- (app_nil_r L). eapply moves_trans; [exact Hmv|]. destruct Hmv as [[Q1 Q2 Q3 Q4] ? ? _ _ _ _].
  apply moves_quiet; try done; unfold pending in *; by rewrite ?Hq, ?Hst.
Qed.

Lemma renameInsts_ok tid frame iew t g : let unb := bool_decide (status_of t = Unblocking) in
  mode unb t -> queues_ok tid t g -> shared_ok g -> tinv arch phys frame (rt t) (regs g) ->
  exists L t' g', renameInsts tid iew t g = Ok (t', g') /\ moves tid frame L t g t' g' /\
    (mode unb t' \/ status_of t' = Blocked \/ status_of t' = SerializeStall).
Proof.
  intros unb Hm Hq Hs Ht. unfold renameInsts. fold unb.
  destruct (Nat.eqb_spec (length (queue unb t)) 0); [exists [], t, g; split; [done|]; split; [by apply moves_refl|by left]|].
  destruct (Z.leb_spec (Z.min (calcFreeROBEntries t iew) (calcFreeIQEntries t iew)) 0) as [Hfree|Hfree].
  { destruct (block_ok tid frame t (set_blockThisCycle g true) ) as (b & t' & g' & -> & Hmv & Hst & _); [by destruct Hq|by destruct Hs|done|].
    cbn [rbind]. exists [], t', g'. split; [done|]. split; [|by right]. change [] with ([] ++ [] : list positive).
    eapply moves_trans; [|exact Hmv]. by apply moves_flag. }
  set (lim := _ <? Z.of_nat _). set (g1 := if lim then set_blockThisCycle g true else g).
  set (avail := if lim then Z.to_nat _ else _).
  assert (Hg1 : same_core g g1) by (unfold g1; by destruct lim).
  assert (Hav : (avail <= length (queue unb t))%nat).
  { unfold avail. destruct lim eqn:El; [|done]. unfold lim in El. apply Z.ltb_lt in El. lia. }
  assert (Hmv1 : moves tid frame [] t g t g1) by (eapply moves_after; [by apply moves_refl|done..]).
  destruct (serialize_next_ok unb tid frame t g1 Hm) as (t2 & g2 & -> & Hmv2 & Hm2 & Hq2); [apply Hmv1..|]. cbn [rbind].
  destruct (rename_loop_ok tid frame iew unb avail 0 t2 g2 Hm2) as (r & k & L & t3 & g3 & -> & Hmv3 & Hm3); [apply Hmv2..|by rewrite Hq2|].
  cbn [rbind]. set (t4 := set_cnt t3 _). set (g4 := if (length (toIEW g3) =? 0)%nat then g3 else _). set (g5 := if (r =? 0)%nat then g4 else _).
  assert (Hg5 : same_core g3 g5) by (unfold g5, g4; destruct (r =? 0)%nat, (length (toIEW g3) =? 0)%nat; done).
  assert (Hmv4 : moves tid frame L t g t4 g5).
  { apply (moves_after tid frame L t g t3 g3); [|exact Hg5|done..]. change L with ([] ++ L). eapply moves_trans; [|exact Hmv3].
    change [] with ([] ++ [] : list positive). by eapply moves_trans. }
  destruct (blockThisCycle g5).
  - destruct (block_ok tid frame t4 g5) as (b & t' & g' & -> & Hmv & Hst & _); [apply Hmv4..|]. cbn [rbind].
    exists L, (set_unblock t' false), g'. split; [done|]. split; [|by right]. apply (moves_after tid frame L t g t' g'); [|by apply same_core_refl|done..].
    rewrite <- (app_nil_r L). by eapply moves_trans.
  - exists L, t4, g5. split; [done|]. split; [done|]. destruct Hm3; [by left|by right; right].
Qed.

Lemma skid_moves tid frame t g : queues_ok tid t g -> shared_ok g -> tinv arch phys frame (rt t) (regs g) ->
  runs (status_of t) = false -> exists t', skidInsert tid t g = Ok t' /\ moves tid frame [] t g t' g.
Proof.
  intros Hq Hs Ht Hr. rewrite skidInsert_ok by done. eexists. split; [done|].
  apply moves_quiet; try done; [unfold pending; simpl; by rewrite app_nil_r|by change (status_of _) with (status_of t); rewrite Hr|apply Hq].
Qed.

Lemma validInsts_ok fd g : (forall p, p ∈ fd -> is_Some (dyn g !! p)) -> exists n, validInsts fd g = Ok n.
Proof.
  induction fd as [|p fd IH]; intros H; simpl; [eauto|]. destruct (H p ltac:(by left)) as [i Hi].
  unfold the_inst. rewrite Hi. cbn [rbind deref]. destruct IH as [n ->]; [intros x Hx; apply H; by right|]. cbn [rbind]. eauto.
Qed.

Lemma dyn_rel_some sq d d' p : dyn_rel sq d d' -> is_Some (d !! p) -> is_Some (d' !! p).
Proof. intros H [i Hi]. destruct (dyn_rel_lookup _ _ _ _ _ H Hi) as (i' & -> & _). done. Qed.

Lemma rename_thread_ok tid frame fd iew b t g : queues_ok tid t g -> shared_ok g -> tinv arch phys frame (rt t) (regs g) ->
  (forall p, p ∈ fd -> is_Some (dyn g !! p)) ->
  exists b' L t' g', rename_thread tid fd iew b t g = Ok (b', t', g') /\ moves tid frame L t g t' g'.
Proof.
  intros Hq Hs Ht Hfd. unfold rename_thread. rewrite (so_serialize g Hs), (so_unblocking g Hs).
  destruct (status_of t) eqn:Hst; cbn [rbind]; rewrite Hst; try (eexists _, [], _, _; split; [done|by apply moves_refl]).
  1,2: destruct (renameInsts_ok tid frame iew t g) as (L & t' & g' & -> & Hmv & _); [rewrite Hst; simpl; auto|done..|];
    eexists _, L, t', g'; by split.
  destruct (renameInsts_ok tid frame iew t g) as (L & t1 & g1 & -> & Hmv & Hst1); [by rewrite Hst|done..|]. cbn [rbind].
  destruct (validInsts_ok fd g1) as [n ->]; [intros p Hp; eapply dyn_rel_some; [apply Hmv|auto]|]. cbn [rbind].
  assert (Hsk : exists t2, (if (n =? 0)%nat then Ok t1 else skidInsert tid t1 g1) = Ok t2 /\ moves tid frame [] t1 g1 t2 g1).
  { destruct (n =? 0)%nat; [exists t1; split; [done|]; apply moves_refl; apply Hmv|]. apply skid_moves; [apply Hmv..|].
    rewrite Hst in Hst1. by destruct Hst1 as [->|[->| ->]]. }
  destruct Hsk as (t2 & -> & Hmv2). cbn [rbind]. destruct (unblock t2 g1) as [[b' t3] g3] eqn:E.
  eapply (unblock_ok tid frame) in E as [Hmv3 _]; [|apply Hmv2..]. eexists _, (L ++ [] ++ []), t3, g3. split; [done|].
  eapply moves_trans; [done|]. by eapply moves_trans.
Qed.

(** *** Signals *)

Definition stall_ok (iew : IewComm) (t : Thread) : Prop := iewUnblock iew = true -> iewBlock iew = true \/ stalls_iew (ctl t) = true.

Lemma readStallSignals_ok iew t : stall_ok iew t ->
  exists t', readStallSignals iew t = Ok t' /\ rt t' = rt t /\ q t' = q t /\ status_of t' = status_of t /\ cnt t' = cnt t.
Proof.
  unfold stall_ok, readStallSignals. intros H. destruct (iewBlock iew), (iewUnblock iew); cbn; eauto 10.
  destruct H as [H|H]; [done|done|]. rewrite H. cbn. eauto 10.
Qed.

Lemma free_squashed_ids r g r' g' : free_squashed r g = Ok (r', g') -> ids g' = ids g.
Proof. unfold free_squashed. intros (fls & _ & [= _ <-])%rbind_Ok. done. Qed.

Lemma moves_regs tid frame t g r rg : queues_ok tid t g -> shared_ok g -> tinv arch phys frame r rg ->
  numMisc rg = numMisc (regs g) -> ids rg = ids (regs g) -> moves tid frame [] t g (set_rt t r) (set_regs g rg).
Proof.
  intros Hq Hs Ht Hm Hi. split; try done.
  - by destruct Hq.
  - eapply (shared_dyn nobody g); try done; [apply dyn_rel_refl|]. unfold no_pins. simpl. rewrite Hi. apply Hs.
  - apply dyn_rel_refl.
  - simpl. by rewrite app_nil_r.
Qed.

Lemma resume_serialized_ok tid frame t g : queues_ok tid t g -> shared_ok g -> tinv arch phys frame (rt t) (regs g) ->
  status_of t = SerializeStall -> exists t' g', resume_serialized t g = Ok (t', g') /\ moves tid frame [] t g t' g'.
Proof.
  intros Hq Hs Ht Hst. destruct (qo_serial _ _ _ Hq) as [[p Hp] _]; [done|]. unfold resume_serialized, unblock.
  cbn [set_renameStatus set_ctl q]. rewrite (bool_decide_eq_false_2 (status_of _ = SerializeStall)) by done. cbn [negb].
  rewrite andb_true_r, Hp. destruct (qo_ptr _ _ _ Hq p) as (i & Hi & _); [unfold pending; rewrite Hp; by left|].
  destruct (decide (skidBuffer (q t) = [])) as [Hk|Hk]; [rewrite (bool_decide_eq_true_2 _ Hk)|rewrite (bool_decide_eq_false_2 _ Hk)];
    cbn [rbind deref].
  - destruct (upd_inst_ok tid frame t (set_wrote g true) p clearSerializeBefore) as (g1 & -> & Hmv & _);
      [by destruct Hq|by destruct Hs|done|eauto|done|].
    cbn [rbind set_unblock set_renameStatus set_ctl q]. rewrite (bool_decide_eq_true_2 _ Hk).
    eexists _, _. split; [done|]. apply (moves_trans tid frame [] []) with t g1.
    + apply (moves_trans tid frame [] []) with t (set_wrote g true); [by eapply moves_after; [apply moves_refl|..]|done].
    + apply moves_quiet; try done; try apply Hmv.
      * unfold pending. simpl. rewrite Hp, Hk. done.
      * split; [done|by intros [? ?]].
  - destruct (upd_inst_ok tid frame t g p clearSerializeBefore) as (g1 & -> & Hmv & _); [done..|eauto|done|].
    cbn [rbind set_renameStatus set_ctl q]. rewrite (bool_decide_eq_false_2 _ Hk).
    eexists _, _. split; [done|]. apply (moves_trans tid frame [] []) with t g1; [done|].
    apply moves_quiet; try done; try apply Hmv.
    + unfold pending. simpl. rewrite Hp. done.
    + split; [done|by intros [? ?]].
Qed.

Lemma next_status_ok tid frame t g : queues_ok tid t g -> shared_ok g -> tinv arch phys frame (rt t) (regs g) ->
  exists b t' g', next_status t g = Ok (b, t', g') /\ moves tid frame [] t g t' g'.
Proof.
  intros Hq Hs Ht. pose proof (qo_serial _ _ _ Hq) as Hser. unfold next_status. rewrite (so_serialize g Hs), (so_unblocking g Hs).
  destruct (status_of t) eqn:Hst; try (eexists _, _, _; split; [done|by apply moves_refl]).
  - eexists _, _, _. split; [done|]. apply moves_quiet; try done; [intros _; apply Hq; by rewrite Hst|].
    split; [done|]. intros H. by apply Hser in H.
  - destruct (unblock _ g) as [[b t'] g'] eqn:E. eexists _, _, _. split; [done|].
    assert (Hmv : moves tid frame [] t g (set_renameStatus t Unblocking) g).
    { apply moves_quiet; try done. split; [done|]. intros H. by apply Hser in H. }
    eapply (unblock_ok tid frame) in E as [Hmv2 _]; [|apply Hmv..]. by apply (moves_trans tid frame [] []) with (set_renameStatus t Unblocking) g.
  - destruct (resume_serialized_ok tid frame t g) as (t' & g' & -> & Hmv); [done..|]. cbn [rbind]. eauto.
Qed.

(** *** Squashes *)

(** A squash reaches the instructions still in the stage: they are all younger. *)
Definition squash_ok (sn : Z) (t : Thread) (g : Shared) : Prop :=
  forall p i, p ∈ pending t -> dyn g !! p = Some i -> sn < dyn_seqNum i.

Lemma squash_signals_ok sn tid t g : queues_ok tid t g -> shared_ok g -> squash_ok sn t g ->
  exists t' g', squash_signals sn t g = Ok (t', g') /\ same_core g g' /\ rt t' = rt t /\ serializeInst (q t') = None /\ cnt t' = cnt t.
Proof.
  intros Hq Hs Hsq. unfold squash_signals. pose proof (qo_serial _ _ _ Hq) as Hser. pose proof (so_serialize g Hs) as Hf.
  assert (Hc : same_core g (set_resumeSerialize g false)) by (by split).
  assert (Hnone : status_of t <> SerializeStall -> serializeInst (q t) = None).
  { intros Hne. destruct (serializeInst (q t)) eqn:E; [|done]. destruct Hne. apply Hser. eauto. }
  destruct (status_of t) eqn:Hst; try (eexists _, _; split; [done|]; split_and!; done || by apply Hnone).
  destruct Hser as [[p Hp] _]; [done|]. rewrite Hp. cbn [rbind deref].
  assert (Hin : p ∈ pending t) by (unfold pending; rewrite Hp; by left).
  destruct (qo_ptr _ _ _ Hq p Hin) as (i & Hi & _). unfold the_inst. rewrite Hi. cbn [rbind deref].
  specialize (Hsq p i Hin Hi). destruct (Z.leb_spec (dyn_seqNum i) sn); [lia|]. eexists _, _. by split_and!.
Qed.

Lemma squash_decoded_ok tid sn fd : forall g, (forall p, p ∈ fd -> is_Some (dyn g !! p)) ->
  (forall p i, dyn g !! p = Some i -> PinnedRegsRenamed (status i) = false) ->
  exists g', squash_decoded tid sn fd g = Ok g' /\ dyn_rel (fun u => u = tid) (dyn g) (dyn g') /\ regs g' = regs g /\
    resumeSerialize g' = resumeSerialize g /\ resumeUnblocking g' = resumeUnblocking g /\ toIEW g' = toIEW g.
Proof.
  induction fd as [|p fd IH]; intros g Hfd Hpin; simpl. { exists g. split_and!; try done. apply dyn_rel_refl. }
  destruct (Hfd p ltac:(by left)) as [i Hi]. unfold the_inst. rewrite Hi. cbn [rbind deref].
  destruct (Nat.eqb_spec (threadNumber i) tid) as [Hth|]; cbn [andb].
  2: { apply IH; [|done]. intros x Hx. apply Hfd. by right. }
  destruct (sn <? dyn_seqNum i). 2: { apply IH; [|done]. intros x Hx. apply Hfd. by right. }
  unfold setSquashed. rewrite (Hpin p i Hi). cbn [negb orb rbind]. set (g1 := set_wrote _ true).
  assert (Hr1 : regs g1 = regs g) by (unfold g1; simpl; by destruct (regs g)).
  assert (Hd1 : dyn_rel (fun u => u = tid) (dyn g) (dyn g1)).
  { intros x. unfold g1. simpl. destruct (decide (x = p)) as [->|Hne].
    - rewrite lookup_insert_eq, Hi. simpl. unfold same_id. split_and!; done.
    - rewrite lookup_insert_ne by done. destruct (dyn g !! x); simpl; by unfold same_id. }
  destruct (IH g1) as (g' & -> & Hd & Hr & ? & ? & ?).
  - intros x Hx. eapply dyn_rel_some; [exact Hd1|]. apply Hfd. by right.
  - intros x i' Hx. specialize (Hd1 x). rewrite Hx in Hd1. destruct (dyn g !! x) as [i0|] eqn:E0; simpl in Hd1; [|done].
    destruct Hd1 as (_ & _ & _ & -> & _). by eapply Hpin.
  - exists g'. split_and!; try done; [by eapply dyn_rel_trans|congruence].
Qed.

(** A thread's turn in a cycle: as [moves], or a squash, which empties the queues. *)
Record turn (squashed : bool) (tid : nat) (frame : list preg) (L : list positive) (t : Thread) (g : Shared) (t' : Thread) (g' : Shared) : Prop := {
  tu_queues : queues_ok tid t' g';
  tu_shared : shared_ok g';
  tu_tinv : tinv arch phys frame (rt t') (regs g');
  tu_misc : numMisc (regs g') = numMisc (regs g);
  tu_dyn : dyn_rel (fun u => squashed = true /\ u = tid) (dyn g) (dyn g');
  tu_pending : if squashed then pending t' = [] /\ L = [] else pending t = L ++ pending t';
  tu_sent : toIEW g' = toIEW g ++ List.filter (live (dyn g)) L
}.

Lemma moves_turn tid frame L t g t' g' : moves tid frame L t g t' g' -> turn false tid frame L t g t' g'.
Proof. intros []. split; try done. by apply dyn_rel_weaken. Qed.

Lemma squash_turn tid frame sn fd t g : queues_ok tid t g -> shared_ok g -> tinv arch phys frame (rt t) (regs g) ->
  squash_ok sn t g -> (forall p, p ∈ fd -> is_Some (dyn g !! p)) ->
  exists t' g', squash tid sn fd t g = Ok (t', g') /\ turn true tid frame [] t g t' g' /\ status_of t' = Squashing /\ cnt t' = cnt t.
Proof.
  intros Hq Hs Ht Hsq Hfd. unfold squash.
  destruct (squash_signals_ok sn tid t g Hq Hs Hsq) as (t1 & g1 & -> & Hc & Hr1 & Hns & Hcnt). cbn [rbind].
  destruct (squash_decoded_ok tid sn fd g1) as (g2 & -> & Hd & Hr & H1 & H2 & H3).
  { intros p Hp. rewrite (sc_dyn _ _ Hc). auto. }
  { intros p i. rewrite (sc_dyn _ _ Hc). intros Hi. by apply (so_insts g Hs p). }
  cbn [rbind]. set (g3 := set_branches g2 _). set (t2 := set_skid _ []).
  assert (Hrt2 : rt t2 = rt t) by done. assert (Hrg : regs g3 = regs g) by (unfold g3; simpl; rewrite Hr; apply Hc).
  destruct (rt t) as [m hb fr] eqn:Ert. rewrite Hrt2, Hrg. unfold doSquash. cbn [historyBuffer rmap freeingInProgress].
  destruct (undo_loop_spec arch phys sn hb frame m fr (regs g) Ht) as (young & old & _ & _ & _ & -> & Ht').
  cbn [rbind]. eexists _, _. split; [done|]. split; [|done].
  assert (Hd' : dyn_rel (fun u => true = true /\ u = tid) (dyn g) (dyn g3)).
  { intros p. specialize (Hd p). rewrite (sc_dyn _ _ Hc) in Hd. unfold g3. simpl. destruct (dyn g !! p), (dyn g2 !! p); simpl in *; try done.
    destruct Hd as (? & ? & ? & ? & Hq'). unfold same_id. split_and!; try done. intros Hne. apply Hq'. intros Heq. by apply Hne. }
  assert (Hp : pending (set_rt t2 (mkRT (undo m young) old (fr ++ given young))) = []) by (unfold pending; simpl; by rewrite Hns).
  split; try done.
  - split; rewrite ?Hp; [by intros p ?%not_elem_of_nil|simpl; lia|done|]. simpl. rewrite Hns. split; [done|by intros [? ?]].
  - eapply shared_dyn; [exact Hd'|by rewrite Hrg|rewrite Hrg; apply Hs|..|exact Hs]; unfold g3; simpl; [rewrite H1|rewrite H2]; apply Hc.
  - simpl. unfold g3 in Hrg. simpl in Hrg. rewrite Hrg. done.
  - by rewrite Hrg.
  - unfold g3. simpl. rewrite H3, app_nil_r. apply Hc.
Qed.

(** What the stage relies on for one thread: IEW unblocks only what it blocked, and a
    squash is for an instruction that has left the stage. *)
Record signals_ok (iew : IewComm) (com : CommitComm) (t : Thread) (g : Shared) : Prop := {
  sg_stall : stall_ok iew t;
  sg_squash : commit_squash com = true -> squash_ok (doneSeqNum com) t g
}.

Lemma checkSignals_turn tid frame fd iew com t g : queues_ok tid t g -> shared_ok g -> tinv arch phys frame (rt t) (regs g) ->
  signals_ok iew com t g -> (forall p, p ∈ fd -> is_Some (dyn g !! p)) ->
  exists b t' g', checkSignalsAndUpdate tid fd iew com t g = Ok (b, t', g') /\ turn (commit_squash com) tid frame [] t g t' g' /\
    (commit_squash com = true -> status_of t' = Squashing).
Proof.
  intros Hq Hs Ht [Hst Hsq] Hfd. unfold checkSignalsAndUpdate.
  destruct (readStallSignals_ok iew (readFreeEntries iew com t)) as (t1 & -> & Hrt & Hqq & Hss & _); [done|]. cbn [rbind].
  assert (Hmv1 : moves tid frame [] t g t1 g) by (eapply moves_after; [by apply moves_refl|done..]).
  destruct (commit_squash com).
  { destruct (squash_turn tid frame (doneSeqNum com) fd t1 g) as (t' & g' & -> & Htu & Hs' & _); try apply Hmv1; try done.
    - intros p i. unfold pending. rewrite Hqq. by apply Hsq.
    - cbn [rbind]. eexists _, t', g'. split; [done|]. split; [|done]. by destruct Htu. }
  assert (Hf : exists t2 g2, (if robSquashing com then Ok (t1, g)
      else rbind (free_squashed (rt t1) (regs g)) (fun '(r, rg) => Ok (set_rt t1 r, set_regs g rg))) = Ok (t2, g2) /\ moves tid frame [] t1 g t2 g2).
  { destruct (robSquashing com); [eexists _, _; split; [done|]; apply moves_refl; apply Hmv1|].
    destruct (free_squashed_inv arch phys frame (rt t1) (regs g)) as (rg & E & Ht2 & Hm & _); [apply Hmv1|]. rewrite E. cbn [rbind].
    eexists _, _. split; [done|]. apply moves_regs; try done; [apply Hmv1|]. by eapply free_squashed_ids. }
  destruct Hf as (t2 & g2 & -> & Hmv2). cbn [rbind].
  assert (Hn : exists b t3 g3, (if checkStall iew t2 then block tid t2 g2 else next_status t2 g2) = Ok (b, t3, g3) /\ moves tid frame [] t2 g2 t3 g3).
  { destruct (checkStall iew t2).
    - destruct (block_ok tid frame t2 g2) as (b & t3 & g3 & -> & Hmv & _); [apply Hmv2..|]. eauto.
    - apply next_status_ok; apply Hmv2. }
  destruct Hn as (b & t3 & g3 & -> & Hmv3). exists b, t3, g3. split; [done|]. split; [|done]. apply moves_turn.
  apply (moves_trans tid frame [] []) with t2 g2; [|done]. by apply (moves_trans tid frame [] []) with t1 g.
Qed.

Lemma thread_turn tid frame fd iew com b t g : queues_ok tid t g -> shared_ok g -> tinv arch phys frame (rt t) (regs g) ->
  signals_ok iew com t g -> (forall p, p ∈ fd -> is_Some (dyn g !! p)) ->
  exists b1 t1 g1 b' L t' g', checkSignalsAndUpdate tid fd iew com t g = Ok (b1, t1, g1) /\
    rename_thread tid fd iew (b1 || b) t1 g1 = Ok (b', t', g') /\ turn (commit_squash com) tid frame L t g t' g'.
Proof.
  intros Hq Hs Ht Hsg Hfd. destruct (checkSignals_turn tid frame fd iew com t g) as (b1 & t1 & g1 & E & Htu & Hsq); [done..|].
  destruct (commit_squash com).
  - exists b1, t1, g1, (b1 || b), [], t1, g1. split; [done|]. split; [|done]. unfold rename_thread. rewrite (Hsq eq_refl). cbn [rbind]. by rewrite (Hsq eq_refl).
  - destruct Htu as [Q S T M D P W].
    destruct (rename_thread_ok tid frame fd iew (b1 || b) t1 g1) as (b' & L & t' & g' & E2 & Hmv); [done..| |].
    { intros p Hp. eapply dyn_rel_some; eauto. }
    exists b1, t1, g1, b', L, t', g'. split; [done|]. split; [done|].
    assert (Hmv1 : moves tid frame [] t g t1 g1).
    { split; try done. intros p. specialize (D p). destruct (dyn g !! p), (dyn g1 !! p); simpl in *; try done.
      destruct D as (? & ? & ? & ? & Hl). unfold same_id. split_and!; try done. intros _. apply Hl. by intros [? _]. }
    apply moves_turn. by apply (moves_trans tid frame [] L) with t1 g1.
Qed.

End invariants.

(** ** Room in the back end

    The counters are [int] and the free entries [unsigned]; the bounds below keep
    every difference inside 32 bits. *)

Definition small (x : Z) : Prop := 0 <= x <= 2 ^ 29.

Record counts_ok (c : Counts) : Prop := {
  co_insts : 0 <= instsInProgress c <= 2 ^ 30; co_loads : 0 <= loadsInProgress c <= 2 ^ 30;
  co_stores : 0 <= storesInProgress c <= 2 ^ 30;
  co_iq : small (iqEntries c); co_rob : small (robEntries c); co_lq : small (lqEntries c); co_sq : small (sqEntries c)
}.

(** IEW reports what was sent to it before. *)
Record dispatch_ok (iew : IewComm) (com : CommitComm) (c : Counts) : Prop := {
  do_insts : 0 <= dispatched iew <= instsInProgress c; do_loads : 0 <= dispatchedToLQ iew <= loadsInProgress c;
  do_stores : 0 <= dispatchedToSQ iew <= storesInProgress c;
  do_small : small (dispatched iew) /\ small (dispatchedToLQ iew) /\ small (dispatchedToSQ iew);
  do_entries : small (freeIQEntries iew) /\ small (freeROBEntries com) /\ small (freeLQEntries iew) /\ small (freeSQEntries iew)
}.

(** The counters of a thread after sending instructions: none is sent beyond the free
    entries. *)
Record grown (iew : IewComm) (c c' : Counts) : Prop := {
  gr_same : iqEntries c' = iqEntries c /\ robEntries c' = robEntries c /\ lqEntries c' = lqEntries c /\ sqEntries c' = sqEntries c;
  gr_insts : instsInProgress c <= instsInProgress c' <=
    Z.max (instsInProgress c) (Z.min (robEntries c) (iqEntries c) + dispatched iew);
  gr_loads : loadsInProgress c <= loadsInProgress c' <= Z.max (loadsInProgress c) (lqEntries c + dispatchedToLQ iew);
  gr_stores : storesInProgress c <= storesInProgress c' <= Z.max (storesInProgress c) (sqEntries c + dispatchedToSQ iew)
}.

Definition keeps (t : Thread) (g : Shared) (t' : Thread) (g' : Shared) : Prop := cnt t' = cnt t /\ toIEW g' = toIEW g.

Lemma grown_refl iew c : grown iew c c.
Proof. split; [done|lia..]. Qed.

Lemma grown_trans iew c1 c2 c3 : grown iew c1 c2 -> grown iew c2 c3 -> grown iew c1 c3.
Proof. intros [(S1 & S2 & S3 & S4) ? ? ?] [(R1 & R2 & R3 & R4) ? ? ?]. split; [split_and!; congruence|lia..]. Qed.

Lemma grown_ok iew com c c' : grown iew c c' -> counts_ok c -> dispatch_ok iew com c -> counts_ok c' /\ dispatch_ok iew com c'.
Proof.
  intros [(S1 & S2 & S3 & S4) ? ? ?] [] [? ? ? (? & ? & ?) ?]. unfold small in *. split; split; unfold small; try done; lia.
Qed.

Lemma skidInsert_keeps tid t g t' : skidInsert tid t g = Ok t' -> cnt t' = cnt t.
Proof. unfold skidInsert. intros (? & _ & H)%rbind_Ok. case_ifs_in H; by inv_res. Qed.

Lemma block_keeps tid t g b t' g' : block tid t g = Ok (b, t', g') -> keeps t g t' g'.
Proof.
  unfold block, keeps. intros (t1 & E1%skidInsert_keeps & H)%rbind_Ok. case_ifs_in H; inv_res; by rewrite <- E1.
Qed.

Lemma unblock_keeps t g b t' g' : unblock t g = (b, t', g') -> keeps t g t' g'.
Proof. unfold unblock. intros H. case_ifs_in H; by injection H as <- <- <-. Qed.

Lemma upd_inst_keeps g p f g' : upd_inst g p f = Ok g' -> toIEW g' = toIEW g.
Proof. unfold upd_inst. intros (? & _ & H)%rbind_Ok. by inv_res. Qed.

Lemma serializeAfter_keeps unb t g t' g' : serializeAfter unb t g = Ok (t', g') -> keeps t g t' g'.
Proof.
  unfold serializeAfter. destruct (queue unb t); [by intros [= <- <-]|]. intros (? & E%upd_inst_keeps & [= <- <-])%rbind_Ok. done.
Qed.

Lemma serialize_next_keeps unb t g t' g' : serialize_next unb t g = Ok (t', g') -> keeps t g t' g'.
Proof.
  unfold serialize_next. destruct (serializeOnNextInst _); [|by intros [= <- <-]]. destruct (_ && _); [by intros [= <- <-]|].
  destruct (queue unb t); [by intros [= <- <-]|]. intros (? & E%upd_inst_keeps & [= <- <-])%rbind_Ok. done.
Qed.

Lemma set_queue_cnt unb t l : cnt (set_queue unb t l) = cnt t.
Proof. by destruct unb. Qed.

Lemma calcFree_exact iew com t : counts_ok (cnt t) -> dispatch_ok iew com (cnt t) ->
  calcFreeROBEntries t iew = robEntries (cnt t) - (instsInProgress (cnt t) - dispatched iew) /\
  calcFreeIQEntries t iew = iqEntries (cnt t) - (instsInProgress (cnt t) - dispatched iew) /\
  calcFreeLQEntries t iew = lqEntries (cnt t) - (loadsInProgress (cnt t) - dispatchedToLQ iew) /\
  calcFreeSQEntries t iew = sqEntries (cnt t) - (storesInProgress (cnt t) - dispatchedToSQ iew).
Proof.
  intros [] [? ? ? (? & ? & ?) _]. unfold small in *.
  unfold calcFreeROBEntries, calcFreeIQEntries, calcFreeLQEntries, calcFreeSQEntries. rewrite !swrap_small; [done|..]; unfold in_s; lia.
Qed.

(** Renaming one instruction that the load and store queues have room for. *)
Lemma rename_inst_grown tid iew com p i t g t' g' : rename_inst tid p t g = Ok (t', g') -> dyn g !! p = Some i ->
  counts_ok (cnt t) -> dispatch_ok iew com (cnt t) ->
  (isLoad (staticInst i) = true -> 0 < calcFreeLQEntries t iew) ->
  (isStore (staticInst i) = true \/ isAtomic (staticInst i) = true -> 0 < calcFreeSQEntries t iew) ->
  grown iew (cnt t) (cnt t') /\ instsInProgress (cnt t') = instsInProgress (cnt t) /\ length (toIEW g') = S (length (toIEW g)).
Proof.
  unfold rename_inst, the_inst. intros H Hi Hc Hd Hl Hs. destruct (calcFree_exact iew com t Hc Hd) as (_ & _ & EL & ES). rewrite EL in Hl. rewrite ES in Hs.
  rewrite Hi in H. cbn [rbind deref] in H. destruct (negb _); [done|]. apply rbind_Ok in H as (i1 & E1 & H).
  apply rbind_Ok in H as ([[i2 r] rg] & E2 & [= <- <-]).
  assert (Hst : staticInst i2 = staticInst i) by (apply src_loop_static in E1; apply dest_loop_static in E2; congruence).
  cbn [cnt set_cnt toIEW set_toIEW set_dyn set_regs]. rewrite Hst. unfold count_mem.
  destruct (isAtomic _ || isStore _) eqn:Ea; [apply orb_true_iff in Ea|destruct (isLoad _) eqn:El];
    (split; [|split; [done|rewrite length_app; simpl; lia]]); split; cbn; try done; try lia.
assert (0 < sqEntries (cnt t) - (storesInProgress (cnt t) - dispatchedToSQ iew)) by (apply Hs; tauto). lia.
Qed.

Lemma upd_inst_static g p f g' x i : upd_inst g p f = Ok g' -> (forall i, staticInst (f i) = staticInst i) -> dyn g !! x = Some i ->
  exists i', dyn g' !! x = Some i' /\ staticInst i' = staticInst i.
Proof.
  unfold upd_inst, the_inst. intros (i0 & Hi0%deref_Ok & [= <-])%rbind_Ok Hf Hx. simpl. destruct (decide (x = p)) as [->|Hne].
  - rewrite lookup_insert_eq. eexists. split; [done|]. rewrite Hf. congruence.
  - rewrite lookup_insert_ne by done. eauto.
Qed.

(** Serialising an instruction changes neither the counters nor its kind. *)
Lemma serialize_step_keeps (c : bool) unb p t g t' g' i : (if c then rbind (upd_inst g p setSerializeHandled) (fun g => serializeAfter unb t g)
    else Ok (t, g)) = Ok (t', g') -> dyn g !! p = Some i ->
  keeps t g t' g' /\ exists i', dyn g' !! p = Some i' /\ staticInst i' = staticInst i.
Proof.
  destruct c; [|intros [= <- <-] Hi; split; [done|eauto]]. intros (g1 & E1 & E2)%rbind_Ok Hi.
  pose proof (upd_inst_keeps _ _ _ _ E1) as K1. destruct (serializeAfter_keeps _ _ _ _ _ E2) as [K2 K3].
  split; [split; congruence|]. destruct (upd_inst_static _ _ _ _ p i E1) as (i1 & Hi1 & <-); [done..|].
  unfold serializeAfter in E2. destruct (queue unb t); [injection E2 as <- <-; eauto|].
  apply rbind_Ok in E2 as (g2 & E2 & [= <- <-]). by eapply upd_inst_static.
Qed.

Lemma rename_loop_grown tid iew com unb avail : forall renamed t g r n t' g',
  rename_loop tid iew unb avail renamed t g = Ok (r, n, t', g') -> counts_ok (cnt t) -> dispatch_ok iew com (cnt t) ->
  (length (toIEW g) <= renameWidth)%nat ->
  grown iew (cnt t) (cnt t') /\ instsInProgress (cnt t') = instsInProgress (cnt t) /\
  renamed <= n <= renamed + Z.of_nat avail /\ (length (toIEW g') <= renameWidth)%nat.
Proof.
  induction avail as [|avail IH]; intros renamed t g r n t' g'; cbn [rename_loop]; intros H Hc Hd Hw.
  { injection H as <- <- <- <-. pose proof (grown_refl iew (cnt t)). split_and!; done || lia. }
  assert (Hstop : forall t1 g1, cnt t1 = cnt t -> toIEW g1 = toIEW g -> Ok (S avail, renamed, t1, g1) = Ok (r, n, t', g') ->
    grown iew (cnt t) (cnt t') /\ instsInProgress (cnt t') = instsInProgress (cnt t) /\
    renamed <= n <= renamed + Z.of_nat (S avail) /\ (length (toIEW g') <= renameWidth)%nat).
  { intros t1 g1 Ht1 Hg1 [= <- <- <- <-]. rewrite Ht1, Hg1. pose proof (grown_refl iew (cnt t)). split_and!; done || lia. }
  destruct (Nat.ltb_spec (length (toIEW g)) renameWidth) as [Hlt|]; cbn [negb] in H; [|by apply (Hstop t g)].
  destruct (queue unb t) as [|p rest] eqn:Hqu; [done|]. apply rbind_Ok in H as (i & Hi & H). apply deref_Ok in Hi.
  destruct (isLoad _ && _) eqn:El; [by apply (Hstop t g)|]. destruct (_ && (calcFreeSQEntries _ _ <=? 0)) eqn:Es; [by apply (Hstop t g)|].
  set (t1 := set_queue unb t rest) in *. assert (Ht1 : cnt t1 = cnt t) by apply set_queue_cnt.
  destruct (isSquashed i).
  { eapply IH in H; [|by rewrite Ht1..|done]. rewrite Ht1 in H. destruct H as (? & ? & ? & ?). split_and!; done || lia. }
  apply rbind_Ok in H as (can & _ & H). destruct can; cbn [negb] in H.
  2: { eapply Hstop; [..|exact H]; [by rewrite set_queue_cnt|done]. }
  destruct (isSerializeBefore i && _).
  { apply rbind_Ok in H as (g1 & E1 & H). eapply Hstop; [..|exact H]; [done|]. cbn [toIEW set_blockThisCycle].
    destruct (negb _); [by eapply upd_inst_keeps|congruence]. }
  apply rbind_Ok in H as ([t2 g2] & E2 & H). eapply serialize_step_keeps in E2 as ([K1 K2] & i2 & Hi2 & Hs2); [|exact Hi].
  apply rbind_Ok in H as ([t3 g3] & E3 & H).
  assert (Hcf : forall f : Thread -> IewComm -> Z, (forall t t', cnt t' = cnt t -> f t' iew = f t iew) -> f t2 iew = f t iew)
    by (intros f Hf; apply Hf; congruence).
  eapply (rename_inst_grown tid iew com p i2) in E3 as (G3 & I3 & L3); [|done|by rewrite K1, Ht1..| |].
  - rewrite K1, Ht1 in G3, I3. destruct (grown_ok iew com (cnt t) (cnt t3) G3 Hc Hd) as [Hc3 Hd3].
    eapply IH in H as (G & I & N & W); [|done|done|rewrite L3, K2; lia]. split_and!; [by eapply grown_trans|congruence|lia|lia|done].
  - rewrite Hs2. intros HL. rewrite HL in El. cbn [andb] in El. rewrite (Hcf calcFreeLQEntries).
    + by apply Z.leb_gt.
    + intros ? ? E. unfold calcFreeLQEntries. by rewrite E.
  - rewrite Hs2. intros HS. rewrite (Hcf calcFreeSQEntries).
    + apply Z.leb_gt. destruct HS as [HS|HS]; rewrite HS in Es; [done|by rewrite orb_true_r in Es].
    + intros ? ? E. unfold calcFreeSQEntries. by rewrite E.
Qed.

Lemma renameInsts_grown tid iew com t g t' g' : renameInsts tid iew t g = Ok (t', g') -> counts_ok (cnt t) -> dispatch_ok iew com (cnt t) ->
  (length (toIEW g) <= renameWidth)%nat -> grown iew (cnt t) (cnt t') /\ (length (toIEW g') <= renameWidth)%nat.
Proof.
  unfold renameInsts. intros H Hc Hd Hw. set (unb := bool_decide _) in H.
  destruct (_ =? 0)%nat; [injection H as <- <-; split; [apply grown_refl|done]|].
  destruct (calcFree_exact iew com t Hc Hd) as (ER & EI & _).
  destruct (Z.leb_spec (Z.min (calcFreeROBEntries t iew) (calcFreeIQEntries t iew)) 0) as [Hf|Hf].
  { apply rbind_Ok in H as ([[b t1] g1] & [E1 E2]%block_keeps & [= <- <-]). rewrite E1, E2. split; [apply grown_refl|done]. }
  set (lim := _ <? Z.of_nat _) in H. set (avail := if lim then Z.to_nat _ else _) in H.
  assert (Hav : Z.of_nat avail <= Z.min (calcFreeROBEntries t iew) (calcFreeIQEntries t iew)).
  { unfold avail. destruct lim eqn:El; unfold lim in El; [lia|]. apply Z.ltb_ge in El. lia. }
  apply rbind_Ok in H as ([t2 g2] & [K1 K2]%serialize_next_keeps & H). apply rbind_Ok in H as ([[[r n] t3] g3] & E3 & H).
  eapply (rename_loop_grown tid iew com) in E3 as (G & I & N & W); [|by rewrite K1..|rewrite K2; by destruct lim].
  rewrite K1 in G, I.
  assert (G4 : grown iew (cnt t) (add_progress n (cnt t3))) by (destruct G; split; cbn; [done|lia..]).
  set (g4 := if (length (toIEW g3) =? 0)%nat then g3 else _) in H. set (g5 := if (r =? 0)%nat then g4 else _) in H.
  assert (Hg5 : toIEW g5 = toIEW g3) by (unfold g5, g4; by destruct (r =? 0)%nat, (length (toIEW g3) =? 0)%nat).
  destruct (blockThisCycle g5).
  - apply rbind_Ok in H as ([[b t6] g6] & [E1 E2]%block_keeps & [= <- <-]). simpl. rewrite E1, E2, Hg5. done.
  - injection H as <- <-. rewrite Hg5. done.
Qed.

Lemma rename_thread_grown tid fd iew com b t g b' t' g' : rename_thread tid fd iew b t g = Ok (b', t', g') ->
  counts_ok (cnt t) -> dispatch_ok iew com (cnt t) -> (length (toIEW g) <= renameWidth)%nat ->
  grown iew (cnt t) (cnt t') /\ (length (toIEW g') <= renameWidth)%nat.
Proof.
  unfold rename_thread. intros H Hc Hd Hw. apply rbind_Ok in H as ([t1 g1] & E1 & H).
  assert (K : keeps t g t1 g1).
  { destruct (status_of t); try (injection E1 as <- <-; done).
    - destruct (resumeUnblocking g); [|injection E1 as <- <-; done]. apply rbind_Ok in E1 as ([[b0 t0] g0] & K%block_keeps & [= <- <-]). done.
    - destruct (resumeSerialize g); [|injection E1 as <- <-; done]. apply rbind_Ok in E1 as ([[b0 t0] g0] & K%block_keeps & [= <- <-]). done. }
  destruct K as [K1 K2]. rewrite <- K1 in *. rewrite <- K2 in Hw. pose proof (grown_refl iew (cnt t1)).
  destruct (status_of t1); try (injection H as <- <- <-; done).
  1,2: apply rbind_Ok in H as ([t2 g2] & E2 & [= <- <- <-]); by eapply renameInsts_grown.
  apply rbind_Ok in H as ([t2 g2] & E2 & H). eapply renameInsts_grown in E2 as [G W]; [|done..].
  apply rbind_Ok in H as (n & _ & H). apply rbind_Ok in H as (t3 & E3 & H).
  assert (E3' : cnt t3 = cnt t2) by (destruct (n =? 0)%nat; [congruence|by eapply skidInsert_keeps]).
  destruct (unblock t3 g2) as [[b4 t4] g4] eqn:E4. apply unblock_keeps in E4 as [K3 K4]. injection H as <- <- <-. by rewrite K3, K4, E3'.
Qed.

Lemma squash_decoded_keeps tid sn fd : forall g g', squash_decoded tid sn fd g = Ok g' -> toIEW g' = toIEW g.
Proof.
  induction fd as [|p fd IH]; intros g g'; simpl; [by intros [= <-]|]. intros (i & _ & H)%rbind_Ok.
  apply rbind_Ok in H as (g1 & E1 & H). rewrite (IH _ _ H). case_ifs_in E1; [|by inv_res].
  by apply rbind_Ok in E1 as ([i1 f] & _ & [= <-]).
Qed.

Lemma squash_keeps tid sn fd t g t' g' : squash tid sn fd t g = Ok (t', g') -> keeps t g t' g'.
Proof.
  unfold squash, keeps. intros ([t1 g1] & E1 & H)%rbind_Ok.
  assert (K : keeps t g t1 g1).
  { unfold squash_signals in E1. destruct (status_of t); try by injection E1 as <- <-.
    apply rbind_Ok in E1 as (p & _ & E1). apply rbind_Ok in E1 as (i & _ & E1). case_ifs_in E1; by injection E1 as <- <-. }
  destruct K as [K1 K2]. apply rbind_Ok in H as (g2 & E2%squash_decoded_keeps & H). apply rbind_Ok in H as (r & _ & [= <- <-]).
  simpl. split; congruence.
Qed.

Lemma resume_serialized_keeps t g t' g' : resume_serialized t g = Ok (t', g') -> keeps t g t' g'.
Proof.
  unfold resume_serialized. destruct (unblock _ g) as [[b t1] g1] eqn:E. apply unblock_keeps in E as [K1 K2].
  intros (p & _ & H)%rbind_Ok. apply rbind_Ok in H as (g2 & E2%upd_inst_keeps & [= <- <-]).
  split; [|congruence]. case_ifs; done.
Qed.

Lemma next_status_keeps t g b t' g' : next_status t g = Ok (b, t', g') -> keeps t g t' g'.
Proof.
  unfold next_status. destruct (status_of t).
  4: { case_ifs; by intros [= <- <- <-]. }
  4: { destruct (unblock _ g) as [[b1 t1] g1] eqn:E. apply unblock_keeps in E. by intros [= <- <- <-]. }
  5: { intros ([t1 g1] & E%resume_serialized_keeps & [= <- <- <-])%rbind_Ok. done. }
  all: by intros [= <- <- <-].
Qed.

(** The signals only change what is known of the free entries. *)
Lemma checkSignals_keeps tid fd iew com t g b t' g' : checkSignalsAndUpdate tid fd iew com t g = Ok (b, t', g') ->
  keeps (readFreeEntries iew com t) g t' g'.
Proof.
  unfold checkSignalsAndUpdate, keeps. intros (t1 & E1 & H)%rbind_Ok.
  assert (K1 : cnt t1 = cnt (readFreeEntries iew com t)).
  { unfold readStallSignals in E1. destruct (iewUnblock iew); [apply rbind_Ok in E1 as (u & _ & E1)|]; injection E1 as <-; by destruct (iewBlock iew). }
  rewrite <- K1. destruct (commit_squash com).
  { by apply rbind_Ok in H as ([t2 g2] & E2%squash_keeps & [= <- <- <-]). }
  apply rbind_Ok in H as ([t2 g2] & E2 & H).
  assert (K2 : keeps t1 g t2 g2).
  { destruct (robSquashing com); [by injection E2 as <- <-|]. by apply rbind_Ok in E2 as ([r rg] & _ & [= <- <-]). }
  destruct K2 as [<- <-]. destruct (checkStall iew t2); [by eapply block_keeps|by eapply next_status_keeps].
Qed.

Lemma readFreeEntries_ok iew com t : counts_ok (cnt t) -> dispatch_ok iew com (cnt t) ->
  counts_ok (cnt (readFreeEntries iew com t)) /\ dispatch_ok iew com (cnt (readFreeEntries iew com t)).
Proof. intros [] [? ? ? ? (? & ? & ? & ?)]. split; split; cbn; case_ifs; done. Qed.


(** ** All the threads *)

Section machine.
Context (arch phys : RegClassType -> nat).

Definition of_thread (d : gmap positive DynInst) (tid : nat) (p : positive) : bool :=
  match d !! p with Some i => (threadNumber i =? tid)%nat | None => false end.

(** The instructions of a thread that decode sends, and those sent on to IEW. *)
Definition arrivals (d : gmap positive DynInst) (tid : nat) (fd : list positive) : list positive := List.filter (of_thread d tid) fd.
Definition sent (g : Shared) (tid : nat) : list positive := List.filter (of_thread (dyn g) tid) (toIEW g).

Lemma of_thread_rel sq d d' tid p : dyn_rel sq d d' -> of_thread d' tid p = of_thread d tid p.
Proof. intros H. unfold of_thread. specialize (H p). destruct (d !! p), (d' !! p); simpl in H; try done. by destruct H as (_ & -> & _). Qed.

(** A squash of other threads does not reach the instructions of a thread. *)
Lemma live_other (sq : nat -> Prop) d d' tid L : dyn_rel sq d d' -> ~ sq tid -> (forall p, p ∈ L -> of_thread d tid p = true) ->
  List.filter (live d') L = List.filter (live d) L.
Proof.
  intros H Hsq HL. apply filter_ext_in. intros p Hp%list_elem_of_In%HL. unfold of_thread, live in *. specialize (H p).
  destruct (d !! p), (d' !! p); simpl in H; try done. destruct H as (_ & _ & _ & _ & Hl). apply Nat.eqb_eq in Hp.
  rewrite Hl; [done|]. by rewrite Hp.
Qed.

Lemma sent_step sq tid tid0 d M g g' : dyn_rel sq (dyn g) (dyn g') -> toIEW g' = toIEW g ++ List.filter (live d) M ->
  (forall p, p ∈ M -> of_thread (dyn g) tid0 p = true) ->
  sent g' tid = sent g tid ++ (if decide (tid = tid0) then List.filter (live d) M else []).
Proof.
  intros Hd Hw HM. unfold sent. rewrite Hw, List.filter_app. f_equal; [apply filter_ext; intros p; by eapply of_thread_rel|].
  clear Hw. induction M as [|p M IH]; [simpl; by destruct (decide _)|]. cbn [List.filter].
  assert (IH' := IH (fun x Hx => HM x (list_elem_of_further _ _ _ Hx))). destruct (live d p); [|done]. cbn [List.filter].
  rewrite (of_thread_rel _ _ _ _ _ Hd). pose proof (HM p ltac:(by left)) as Hp. destruct (decide (tid = tid0)) as [->|Hne].
  - rewrite Hp. by f_equal.
  - unfold of_thread in *. destruct (dyn g !! p); [|done]. apply Nat.eqb_eq in Hp.
    destruct (Nat.eqb_spec (threadNumber d0) tid); [congruence|done].
Qed.

Record stage_ok (act : list nat) (ts : list Thread) (g : Shared) : Prop := {
  st_regs : rinv arch phys act (map rt ts) (regs g);
  st_shared : shared_ok arch g;
  st_queues : forall tid t, ts !! tid = Some t -> queues_ok tid t g
}.

Lemma stage_step act sq ts g tid t t' g' : stage_ok act ts g -> ts !! tid = Some t ->
  queues_ok tid t' g' -> shared_ok arch g' -> tinv arch phys (others tid (map rt ts)) (rt t') (regs g') ->
  dyn_rel sq (dyn g) (dyn g') -> stage_ok act (<[tid := t']> ts) g'.
Proof.
  intros [Hr _ Hq] Ht Hq' Hs' Ht' Hd. split; [|done|].
  - rewrite list_fmap_insert. eapply tinv_rinv; [done| |done]. by rewrite list_lookup_fmap, Ht.
  - intros u tu Hu. destruct (decide (u = tid)) as [->|Hne].
    + rewrite list_lookup_insert_eq in Hu by (by eapply lookup_lt_Some). by injection Hu as <-.
    + rewrite list_lookup_insert_ne in Hu by done. eapply queues_dyn; eauto.
Qed.

Lemma stage_tinv act ts g tid t : stage_ok act ts g -> tid ∈ act -> ts !! tid = Some t ->
  tinv arch phys (others tid (map rt ts)) (rt t) (regs g).
Proof. intros Hs Ha Ht. eapply rinv_tinv; [apply Hs|done|]. by rewrite list_lookup_fmap, Ht. Qed.

Section cycle_proofs.
Context (act : list nat) (fd : list positive) (fromIEW : list IewComm) (fromCommit : list CommitComm).

(** What the stage relies on for a thread in a cycle. *)
Definition wires_ok (tid : nat) (t : Thread) (g : Shared) : Prop :=
  exists iew com, fromIEW !! tid = Some iew /\ fromCommit !! tid = Some com /\ signals_ok iew com t g /\
    dispatch_ok iew com (cnt t) /\ counts_ok (cnt t).

(** The turn of a thread, as seen from outside. *)
Definition served (tid : nat) (t : Thread) (g : Shared) (t' : Thread) (g' : Shared) : Prop :=
  exists iew com L, fromIEW !! tid = Some iew /\ fromCommit !! tid = Some com /\
    (if commit_squash com then pending t' = [] /\ L = [] else pending t = L ++ pending t') /\
    sent g' tid = sent g tid ++ List.filter (live (dyn g)) L /\ grown iew (cnt (readFreeEntries iew com t)) (cnt t').

Definition squashes (tids : list nat) (u : nat) : Prop := u ∈ tids /\ exists com, fromCommit !! u = Some com /\ commit_squash com = true.

Lemma wires_dyn sq tid t g g' : dyn_rel sq (dyn g) (dyn g') -> queues_ok tid t g -> wires_ok tid t g -> wires_ok tid t g'.
Proof.
  intros Hd Hq (iew & com & ? & ? & [H1 H2] & ? & ?). exists iew, com. split_and!; try done. split; [done|].
  intros Hc p i' Hp Hi'. destruct (qo_ptr _ _ _ Hq p Hp) as (i & Hi & _).
  destruct (dyn_rel_lookup _ _ _ _ _ Hd Hi) as (i'' & Hi'' & Hs & _). specialize (H2 Hc p i Hp Hi).
  rewrite Hi' in Hi''. injection Hi'' as <-. lia.
Qed.

Lemma thread_step tid b ts g t : stage_ok act ts g -> tid ∈ act -> ts !! tid = Some t -> wires_ok tid t g ->
  (forall p, p ∈ fd -> is_Some (dyn g !! p)) -> (length (toIEW g) <= renameWidth)%nat ->
  exists iew com b1 t1 g1 b' t' g', fromIEW !! tid = Some iew /\ fromCommit !! tid = Some com /\
    checkSignalsAndUpdate tid fd iew com t g = Ok (b1, t1, g1) /\ rename_thread tid fd iew (b1 || b) t1 g1 = Ok (b', t', g') /\
    stage_ok act (<[tid := t']> ts) g' /\ numMisc (regs g') = numMisc (regs g) /\ dyn_rel (squashes [tid]) (dyn g) (dyn g') /\
    (length (toIEW g') <= renameWidth)%nat /\ served tid t g t' g' /\ (forall u, u <> tid -> sent g' u = sent g u).
Proof.
  intros Hs Ha Ht (iew & com & Hi & Hc & Hsg & Hdo & Hco) Hfd Hw. pose proof (st_queues _ _ _ Hs tid t Ht) as Hq.
  destruct (thread_turn arch phys tid (others tid (map rt ts)) fd iew com b t g Hq) as (b1 & t1 & g1 & b' & L & t' & g' & E1 & E2 & Htu);
    [apply Hs|by eapply stage_tinv|done|done|].
  destruct Htu as [Q S T M D P W].
  assert (D' : dyn_rel (squashes [tid]) (dyn g) (dyn g')).
  { intros p. specialize (D p). destruct (dyn g !! p), (dyn g' !! p); simpl in *; try done. destruct D as (? & ? & ? & ? & Hl).
    unfold same_id. split_and!; try done. intros Hn. apply Hl. intros [Hcs Heq]. apply Hn. rewrite Heq. split; [by left|eauto]. }
  assert (HL : forall p, p ∈ L -> of_thread (dyn g) tid p = true).
  { intros p Hp. assert (p ∈ pending t) as Hpt by (destruct (commit_squash com); [destruct P as [_ ->]; by apply not_elem_of_nil in Hp|rewrite P; set_solver]).
    destruct (qo_ptr _ _ _ Hq p Hpt) as (i & Hip & <-). unfold of_thread. rewrite Hip. apply Nat.eqb_refl. }
  destruct (readFreeEntries_ok iew com t Hco Hdo) as [Hco1 Hdo1]. destruct (checkSignals_keeps _ _ _ _ _ _ _ _ _ E1) as [K1 K2].
  destruct (rename_thread_grown _ _ _ com _ _ _ _ _ _ E2) as [G W']; [by rewrite K1..|by rewrite K2|]. rewrite K1 in G.
  exists iew, com, b1, t1, g1, b', t', g'. split_and!; try done.
  - by eapply stage_step.
  - exists iew, com, L. split_and!; try done. rewrite (sent_step _ tid tid _ L g g' D W HL). by rewrite decide_True.
  - intros u Hu. rewrite (sent_step _ u tid _ L g g' D W HL). by rewrite decide_False, app_nil_r.
Qed.

Lemma dyn_rel_mono (sq sq' : nat -> Prop) d d' : (forall u, sq u -> sq' u) -> dyn_rel sq d d' -> dyn_rel sq' d d'.
Proof.
  intros Hm H p. specialize (H p). destruct (d !! p), (d' !! p); simpl in *; try done.
  destruct H as (? & ? & ? & ? & Hl). unfold same_id. split_and!; try done. intros Hn. apply Hl. by intros ?%Hm.
Qed.

(** A turn seen across the turns of other threads. *)
Lemma served_later tid t g g1 t' g' : dyn_rel (fun u => u <> tid) (dyn g) (dyn g1) -> sent g1 tid = sent g tid ->
  queues_ok tid t g -> served tid t g1 t' g' -> served tid t g t' g'.
Proof.
  intros Hd Hse Hq (iew & com & L & ? & ? & HL & Hs & ?). exists iew, com, L. split_and!; try done.
  rewrite Hs, Hse. f_equal. apply (live_other (fun u => u <> tid) _ _ tid); [done|tauto|].
  intros p Hp. assert (p ∈ pending t) as Hpt by (destruct (commit_squash com); [destruct HL as [_ ->]; by apply not_elem_of_nil in Hp|rewrite HL; set_solver]).
  destruct (qo_ptr _ _ _ Hq p Hpt) as (i & Hip & <-). unfold of_thread. rewrite Hip. apply Nat.eqb_refl.
Qed.

Lemma served_before tid t g t' g1 g' : sent g' tid = sent g1 tid -> served tid t g t' g1 -> served tid t g t' g'.
Proof. intros E (iew & com & L & ? & ? & ? & ? & ?). exists iew, com, L. by rewrite E. Qed.

Lemma rename_threads_ok tids : forall b ts g, NoDup tids -> tids ⊆ act -> stage_ok act ts g ->
  (forall tid, tid ∈ tids -> exists t, ts !! tid = Some t /\ wires_ok tid t g) ->
  (forall p, p ∈ fd -> is_Some (dyn g !! p)) -> (length (toIEW g) <= renameWidth)%nat ->
  exists b' ts' g', rename_threads fd fromIEW fromCommit tids b ts g = Ok (b', ts', g') /\ stage_ok act ts' g' /\
    numMisc (regs g') = numMisc (regs g) /\ dyn_rel (squashes tids) (dyn g) (dyn g') /\ (length (toIEW g') <= renameWidth)%nat /\
    length ts' = length ts /\ (forall tid, tid ∉ tids -> ts' !! tid = ts !! tid /\ sent g' tid = sent g tid) /\
    (forall tid t, tid ∈ tids -> ts !! tid = Some t -> exists t', ts' !! tid = Some t' /\ served tid t g t' g').
Proof.
  induction tids as [|tid tids IH]; intros b ts g Hnd Hact Hst Hwi Hfd Hw; cbn [rename_threads].
  { exists b, ts, g. split_and!; try done; [apply dyn_rel_refl|]. intros tid t H. by apply not_elem_of_nil in H. }
  apply NoDup_cons in Hnd as [Hni Hnd]. destruct (Hwi tid ltac:(by left)) as (t & Ht & Hwt).
  destruct (thread_step tid b ts g t) as (iew & com & b1 & t1 & g1 & b2 & t2 & g2 & Hi & Hc & E1 & E2 & Hst2 & Hm2 & Hd2 & Hw2 & Hsv & Hse);
    [done|set_solver|done..|].
  rewrite (nth_lookup _ _ _ Ht), (nth_lookup _ _ _ Hi), (nth_lookup _ _ _ Hc). cbn [rbind]. rewrite E1. cbn [rbind]. rewrite E2. cbn [rbind].
  rewrite upd_Ok by (by eapply lookup_lt_Some). cbn [rbind].
  assert (Hne : forall u, u ∈ tids -> u <> tid) by set_solver.
  destruct (IH b2 (<[tid := t2]> ts) g2 Hnd) as (b' & ts' & g' & -> & Hst' & Hm' & Hd' & Hw' & Hl' & Hout & Hin); [set_solver|done| | |done|].
  { intros u Hu. destruct (Hwi u ltac:(by right)) as (tu & Htu & Hwu). exists tu. rewrite list_lookup_insert_ne by (by apply not_eq_sym, Hne).
    split; [done|]. eapply wires_dyn; [exact Hd2| |done]. by apply (st_queues _ _ _ Hst). }
  { intros p Hp. eapply dyn_rel_some; eauto. }
  exists b', ts', g'. split_and!; try done.
  - congruence.
  - eapply dyn_rel_trans; (eapply dyn_rel_mono; [|eassumption]); unfold squashes; set_solver.
  - by rewrite Hl', length_insert.
  - intros u Hu. apply not_elem_of_cons in Hu as [Hu1 Hu2]. destruct (Hout u Hu2) as [-> ->]. rewrite list_lookup_insert_ne by done. auto.
  - intros u tu [->|Hu]%elem_of_cons Htu.
    + rewrite Ht in Htu. injection Htu as <-. destruct (Hout tid Hni) as [Hu' Hs']. exists t2.
      rewrite Hu', list_lookup_insert_eq by (by eapply lookup_lt_Some). split; [done|]. by eapply served_before.
    + destruct (Hin u tu Hu) as (t' & Ht' & Hs'); [by rewrite list_lookup_insert_ne by (by apply not_eq_sym, Hne)|].
      exists t'. split; [done|]. eapply served_later; [|by apply Hse, Hne|by apply (st_queues _ _ _ Hst)|done].
      eapply dyn_rel_mono; [|exact Hd2]. intros x [Hx _]. apply Hne in Hu. set_solver.
Qed.

(** *** Commits and counters *)

Lemma removeFromHistory_ids n r g r' g' : removeFromHistory n r g = Ok (r', g') -> ids g' = ids g.
Proof. unfold removeFromHistory. intros ([o fls] & _ & [= _ <-])%rbind_Ok. done. Qed.

Definition same_but_regs (t t' : Thread) : Prop := q t' = q t /\ ctl t' = ctl t /\ cnt t' = cnt t.

Lemma commit_threads_ok tids : forall ts g, tids ⊆ act -> stage_ok act ts g ->
  (forall tid, tid ∈ tids -> (tid < length ts)%nat /\ is_Some (fromCommit !! tid)) ->
  exists ts' g', commit_threads fromCommit tids ts g = Ok (ts', g') /\ stage_ok act ts' g' /\ dyn g' = dyn g /\
    toIEW g' = toIEW g /\ numMisc (regs g') = numMisc (regs g) /\
    Forall2 same_but_regs ts ts'.
Proof.
  induction tids as [|tid tids IH]; intros ts g Hact Hst Hwi; cbn [commit_threads].
  { exists ts, g. split_and!; try done. by apply Forall_Forall2_diag, Forall_true. }
  destruct (Hwi tid ltac:(by left)) as [[t Ht]%lookup_lt_is_Some_2 [com Hc]].
  rewrite (nth_lookup _ _ _ Ht), (nth_lookup _ _ _ Hc). cbn [rbind].
  assert (Hstep : exists t1 g1, (if negb (doneSeqNum com =? 0) && negb (commit_squash com) && negb (bool_decide (status_of t = Squashing))
      then rbind (removeFromHistory (doneSeqNum com) (rt t) (regs g)) (fun '(r, rg) => Ok (set_rt t r, set_regs g rg)) else Ok (t, g)) = Ok (t1, g1) /\
    stage_ok act (<[tid := t1]> ts) g1 /\ dyn g1 = dyn g /\ toIEW g1 = toIEW g /\ numMisc (regs g1) = numMisc (regs g) /\
    same_but_regs t t1).
  { destruct (_ && negb (bool_decide _)); [|exists t, g; split_and!; try done; by rewrite list_insert_id].
    pose proof (stage_tinv act ts g tid t Hst ltac:(set_solver) Ht) as Hti.
    destruct (removeFromHistory_inv arch phys _ _ _ (doneSeqNum com) Hti) as (k & gone & r & rg & E & Hr & _ & _ & _ & _ & Hm & _).
    rewrite E. cbn [rbind]. eexists _, _. split; [done|]. split_and!; try done.
    destruct (moves_regs arch phys tid _ t g r rg (st_queues _ _ _ Hst tid t Ht) (st_shared _ _ _ Hst) Hr Hm) as [Q S T _ D _ _];
      [by eapply removeFromHistory_ids|]. by eapply stage_step. }
  destruct Hstep as (t1 & g1 & -> & Hst1 & Hd1 & Hw1 & Hm1 & Hk). cbn [rbind].
  rewrite upd_Ok by (by eapply lookup_lt_Some). cbn [rbind].
  destruct (IH (<[tid := t1]> ts) g1) as (ts' & g' & -> & Hst' & Hd' & Hw' & Hm' & Hf); [set_solver|done| |].
  { intros u Hu. rewrite length_insert. apply Hwi. by right. }
  exists ts', g'. split_and!; try done; [congruence..|]. apply (Forall2_trans same_but_regs same_but_regs same_but_regs ts (<[tid := t1]> ts)); [| |exact Hf].
  - unfold same_but_regs. intros x y z (? & ? & ?) (? & ? & ?). split_and!; congruence.
  - apply Forall2_same_length_lookup_2; [by rewrite length_insert|]. intros i x y Hx Hy. destruct (decide (i = tid)) as [->|Hne].
    + rewrite list_lookup_insert_eq in Hy by (by eapply lookup_lt_Some). injection Hy as <-. rewrite Ht in Hx. by injection Hx as <-.
    + rewrite list_lookup_insert_ne in Hy by done. rewrite Hx in Hy. by injection Hy as <-.
Qed.

Definition dispatched_from (iew : IewComm) (c : Counts) : Counts :=
  mkCounts (instsInProgress c - dispatched iew) (loadsInProgress c - dispatchedToLQ iew) (storesInProgress c - dispatchedToSQ iew)
    (iqEntries c) (robEntries c) (lqEntries c) (sqEntries c) (emptyROB c).

Lemma progress_ok iew com t : counts_ok (cnt t) -> dispatch_ok iew com (cnt t) ->
  progress iew t = Ok (set_cnt t (dispatched_from iew (cnt t))) /\ counts_ok (dispatched_from iew (cnt t)).
Proof.
  intros [] [? ? ? (? & ? & ?) _]. unfold progress. unfold small in *. rewrite !swrap_small by (unfold in_s; lia).
  rewrite !Zle_imp_le_bool by lia. split; [done|]. split; simpl; unfold small; lia.
Qed.

Lemma progress_all_ok ts : forall k, (forall i t, ts !! i = Some t -> exists iew com, fromIEW !! (k + i)%nat = Some iew /\
    counts_ok (cnt t) /\ dispatch_ok iew com (cnt t)) ->
  exists ts', progress_all fromIEW k ts = Ok ts' /\ length ts' = length ts /\
    forall i t, ts !! i = Some t -> exists iew, fromIEW !! (k + i)%nat = Some iew /\
      ts' !! i = Some (set_cnt t (dispatched_from iew (cnt t))) /\ counts_ok (dispatched_from iew (cnt t)).
Proof.
  induction ts as [|t ts IH]; intros k H; cbn [progress_all]; [exists []; by split_and!|].
  destruct (H 0%nat t eq_refl) as (iew & com & Hi & Hc & Hd). rewrite Nat.add_0_r in Hi.
  destruct (progress_ok iew com t Hc Hd) as [E Hc'].
  destruct (IH (S k)) as (ts' & E' & Hl & Hall). { intros i u Hu. destruct (H (S i) u Hu) as (iew' & com' & Hi' & ?). rewrite <- Nat.add_succ_comm in Hi'. eauto. }
  rewrite (nth_lookup _ _ _ Hi). cbn [rbind]. rewrite E. cbn [rbind]. rewrite E'. cbn [rbind].
  eexists. split; [done|]. split; [simpl; by rewrite Hl|]. intros [|i] u Hu; simpl in *.
  - injection Hu as <-. rewrite Nat.add_0_r. eauto.
  - rewrite <- Nat.add_succ_comm. by apply Hall.
Qed.

(** *** Sorting *)

Lemma sortInsts_ok ps : forall ts g, (forall p, p ∈ ps -> exists i, dyn g !! p = Some i /\ (threadNumber i < length ts)%nat) ->
  exists ts', sortInsts ps ts g = Ok ts' /\ length ts' = length ts /\
    forall tid t, ts !! tid = Some t -> ts' !! tid = Some (set_insts t (insts (q t) ++ arrivals (dyn g) tid ps)).
Proof.
  induction ps as [|p ps IH]; intros ts g H; cbn [sortInsts].
  { exists ts. split_and!; try done. intros tid t Ht. rewrite app_nil_r, Ht. by destruct t as [? [? ? ?] ? ?]. }
  destruct (H p ltac:(by left)) as (i & Hi & Hlt). unfold the_inst. rewrite Hi. cbn [rbind deref].
  destruct (lookup_lt_is_Some_2 ts (threadNumber i) Hlt) as [t Ht]. rewrite (nth_lookup _ _ _ Ht). cbn [rbind].
  rewrite upd_Ok by done. cbn [rbind].
  destruct (IH (<[threadNumber i := set_insts t (insts (q t) ++ [p])]> ts) g) as (ts' & -> & Hl & Hall).
  { intros x Hx. rewrite length_insert. apply H. by right. }
  exists ts'. split; [done|]. split; [by rewrite Hl, length_insert|]. intros tid u Hu. unfold arrivals. cbn [List.filter].
  unfold of_thread at 1. rewrite Hi. destruct (Nat.eqb_spec (threadNumber i) tid) as [<-|Hne].
  - rewrite Ht in Hu. injection Hu as <-. erewrite Hall; [|by apply list_lookup_insert_eq]. simpl. by rewrite <- app_assoc.
  - apply Hall. by rewrite list_lookup_insert_ne.
Qed.

(** *** A cycle *)

Record stage_inv (s : Rename) : Prop := {
  si_ok : stage_ok act (threads s) (shared s);
  si_counts : forall t, t ∈ threads s -> counts_ok (cnt t)
}.

(** What the stage relies on in a cycle, from the stages around it: decode sends
    existing instructions and no more than the skid buffer has room for (rename's
    block signal makes it stop; [skidInsert] panics otherwise), IEW unblocks what it
    blocked and reports no more instructions than were sent to it ([dispatch_ok]), and
    a squash is for an instruction that has left the stage. *)
Record tick_env (s : Rename) : Prop := {
  te_wires : length fromIEW = length (threads s) /\ length fromCommit = length (threads s);
  te_decode : forall p, p ∈ fd -> exists i, dyn (shared s) !! p = Some i /\ (threadNumber i < length (threads s))%nat;
  te_space : forall tid t, threads s !! tid = Some t ->
    (length (pending t) + length (arrivals (dyn (shared s)) tid fd) <= skidBufferMax)%nat;
  te_thread : forall tid t iew com, threads s !! tid = Some t -> fromIEW !! tid = Some iew -> fromCommit !! tid = Some com ->
    stall_ok iew t /\ dispatch_ok iew com (cnt t) /\
    (commit_squash com = true -> forall p i, p ∈ pending t ++ arrivals (dyn (shared s)) tid fd ->
       dyn (shared s) !! p = Some i -> doneSeqNum com < dyn_seqNum i)
}.

(** A thread in a cycle, with its new instructions. *)
Definition cycled (tids : list nat) (tid : nat) (t : Thread) (g : Shared) (t' : Thread) (g' : Shared) : Prop :=
  let all := pending t ++ arrivals (dyn g) tid fd in
  exists iew com, fromIEW !! tid = Some iew /\ fromCommit !! tid = Some com /\
  if decide (tid ∈ tids) then
    (exists L, (if commit_squash com then pending t' = [] /\ L = [] else all = L ++ pending t') /\
      sent g' tid = List.filter (live (dyn g)) L) /\
    exists c, grown iew (cnt (readFreeEntries iew com t)) c /\ cnt t' = dispatched_from iew c
  else pending t' = all /\ sent g' tid = [] /\ cnt t' = dispatched_from iew (cnt t).

Lemma arrivals_thread d tid p : p ∈ arrivals d tid fd -> exists i, d !! p = Some i /\ threadNumber i = tid.
Proof.
  unfold arrivals. intros [_ H]%list_elem_of_In%List.filter_In. unfold of_thread in H. destruct (d !! p); [|done].
  apply Nat.eqb_eq in H. eauto.
Qed.

Lemma pending_set_insts t l : pending (set_insts t (insts (q t) ++ l)) = pending t ++ l.
Proof. unfold pending. simpl. by rewrite !app_assoc. Qed.

(** The queues after [sortInsts]. *)
Lemma sorted_queues s tid t : stage_inv s -> tick_env s -> threads s !! tid = Some t ->
  queues_ok tid (set_insts t (insts (q t) ++ arrivals (dyn (shared s)) tid fd)) (shared s).
Proof.
  intros Hi He Ht. destruct (st_queues _ _ _ (si_ok _ Hi) tid t Ht) as [Q1 Q2 Q3 Q4]. split; rewrite ?pending_set_insts; try done.
  - intros p [Hp|Hp]%elem_of_app; [auto|by apply arrivals_thread].
  - rewrite length_app. by apply (te_space _ He tid).
Qed.

Lemma sorted_stage s ts : stage_inv s -> tick_env s -> length ts = length (threads s) ->
  (forall tid t, threads s !! tid = Some t -> ts !! tid = Some (set_insts t (insts (q t) ++ arrivals (dyn (shared s)) tid fd))) ->
  stage_ok act ts (shared s).
Proof.
  intros Hi He Hl Hall. destruct (si_ok _ Hi) as [Hr Hs Hq]. split; [|done|].
  - replace (map rt ts) with (map rt (threads s)); [done|]. apply list_eq. intros k. rewrite !list_lookup_fmap.
    destruct (threads s !! k) as [t|] eqn:Ht; [by rewrite (Hall k t Ht)|].
    apply lookup_ge_None in Ht. rewrite (proj2 (lookup_ge_None ts k)); [done|lia].
  - intros tid t Ht. destruct (lookup_lt_is_Some_2 (threads s) tid) as [t0 Ht0]; [rewrite <- Hl; by eapply lookup_lt_Some|].
    rewrite (Hall tid t0 Ht0) in Ht. injection Ht as <-. by apply sorted_queues.
Qed.

Lemma sorted_wires s tid t : stage_inv s -> tick_env s -> threads s !! tid = Some t ->
  wires_ok tid (set_insts t (insts (q t) ++ arrivals (dyn (shared s)) tid fd)) (shared s).
Proof.
  intros Hi He Ht. destruct (te_wires _ He) as [H1 H2]. apply lookup_lt_Some in Ht as Hlt.
  destruct (lookup_lt_is_Some_2 fromIEW tid) as [iew Hiew]; [lia|]. destruct (lookup_lt_is_Some_2 fromCommit tid) as [com Hcom]; [lia|].
  destruct (te_thread _ He tid t iew com Ht Hiew Hcom) as (? & ? & Hsq). exists iew, com. split_and!; try done.
  - split; [done|]. intros Hc p i. rewrite pending_set_insts. by apply Hsq.
  - apply (si_counts _ Hi t). by eapply list_elem_of_lookup_2.
Qed.

(** A thread after the first loop, before the counters are updated. *)
Definition renamed_thread (tids : list nat) (tid : nat) (t : Thread) (g : Shared) (t' : Thread) (g' : Shared) : Prop :=
  let all := pending t ++ arrivals (dyn g) tid fd in
  exists iew com, fromIEW !! tid = Some iew /\ fromCommit !! tid = Some com /\ counts_ok (cnt t') /\ dispatch_ok iew com (cnt t') /\
  if decide (tid ∈ tids) then
    (exists L, (if commit_squash com then pending t' = [] /\ L = [] else all = L ++ pending t') /\
      sent g' tid = List.filter (live (dyn g)) L) /\ grown iew (cnt (readFreeEntries iew com t)) (cnt t')
  else pending t' = all /\ sent g' tid = [] /\ cnt t' = cnt t.

Lemma first_loop tids s : NoDup tids -> tids ⊆ act -> (forall tid, tid ∈ tids -> (tid < length (threads s))%nat) ->
  stage_inv s -> tick_env s ->
  let g0 := set_toIEW (set_blockThisCycle (set_wrote (shared s) false) false) [] in
  exists ts b ts' g', sortInsts fd (threads s) g0 = Ok ts /\ rename_threads fd fromIEW fromCommit tids false ts g0 = Ok (b, ts', g') /\
    stage_ok act ts' g' /\ numMisc (regs g') = numMisc (regs (shared s)) /\ (length (toIEW g') <= renameWidth)%nat /\
    length ts' = length (threads s) /\
    forall tid t, threads s !! tid = Some t -> exists t', ts' !! tid = Some t' /\ renamed_thread tids tid t (shared s) t' g'.
Proof.
  intros Hnd Hact Hlt Hi He g0. destruct (sortInsts_ok fd (threads s) g0) as (ts & Es & Hl & Hall); [apply He|].
  destruct (sorted_stage s ts Hi He Hl Hall) as [Hr Hs Hq].
  assert (Hst : stage_ok act ts g0).
  { split; [done|by destruct Hs|]. intros tid t Ht. by destruct (Hq tid t Ht). }
  destruct (rename_threads_ok tids false ts g0 Hnd Hact Hst) as (b & ts' & g' & E & Hst' & Hm & _ & Hw & Hl' & Hout & Hin).
  { intros tid Ht. destruct (lookup_lt_is_Some_2 (threads s) tid (Hlt tid Ht)) as [t Htt]. eexists. split; [by apply Hall|].
    destruct (sorted_wires s tid t Hi He Htt) as (iew & com & ? & ? & [? ?] & ? & ?). exists iew, com. by split_and!. }
  { intros p Hp. destruct (te_decode _ He p Hp) as (i & Hpi & _). simpl. eauto. }
  { simpl. lia. }
  exists ts, b, ts', g'. split_and!; try done; [congruence|]. intros tid t Ht. pose proof (Hall tid t Ht) as Hts.
  destruct (sorted_wires s tid t Hi He Ht) as (iew & com & Hiew & Hcom & _ & Hdo & Hco). unfold renamed_thread.
  destruct (decide (tid ∈ tids)) as [Hin1|Hnin].
  - destruct (Hin tid _ Hin1 Hts) as (t' & Ht' & iew' & com' & L & Hiew' & Hcom' & HL & Hse & Hg).
    rewrite Hiew in Hiew'. injection Hiew' as <-. rewrite Hcom in Hcom'. injection Hcom' as <-. rewrite pending_set_insts in HL.
    destruct (readFreeEntries_ok iew com _ Hco Hdo) as [Hco1 Hdo1]. destruct (grown_ok iew com _ _ Hg Hco1 Hdo1).
    exists t'. split; [done|]. exists iew, com. split_and!; try done. by exists L.
  - destruct (Hout tid Hnin) as [Hu Hse]. eexists. split; [by rewrite Hu|]. exists iew, com. split_and!; try done. apply pending_set_insts.
Qed.

Lemma progress_stage ts g : stage_ok act ts g -> (forall tid t, ts !! tid = Some t -> exists iew com, fromIEW !! tid = Some iew /\
    counts_ok (cnt t) /\ dispatch_ok iew com (cnt t)) ->
  exists ts', progress_all fromIEW 0 ts = Ok ts' /\ length ts' = length ts /\ stage_inv (mkRename ts' g) /\
    forall tid t, ts !! tid = Some t -> exists iew, fromIEW !! tid = Some iew /\ ts' !! tid = Some (set_cnt t (dispatched_from iew (cnt t))).
Proof.
  intros [Hr Hs Hq] H. destruct (progress_all_ok ts 0 H) as (ts' & E & Hl & Hall). exists ts'. split; [done|]. split; [done|].
  assert (Hback : forall tid t', ts' !! tid = Some t' -> exists t iew, ts !! tid = Some t /\ t' = set_cnt t (dispatched_from iew (cnt t)) /\
    counts_ok (dispatched_from iew (cnt t))).
  { intros tid t' Ht'. destruct (lookup_lt_is_Some_2 ts tid) as [t Ht]; [rewrite <- Hl; by eapply lookup_lt_Some|].
    destruct (Hall tid t Ht) as (iew & _ & Ht'' & Hc). rewrite Ht' in Ht''. injection Ht'' as ->. eauto. }
  split; [split; cbn [threads shared]; [split|]|].
  - replace (map rt ts') with (map rt ts); [done|]. apply list_eq. intros k. rewrite !list_lookup_fmap.
    destruct (ts !! k) as [t|] eqn:Ht; [by destruct (Hall k t Ht) as (? & _ & -> & _)|].
    apply lookup_ge_None in Ht. rewrite (proj2 (lookup_ge_None ts' k)); [done|lia].
  - done.
  - intros tid t' Ht'. destruct (Hback tid t' Ht') as (t & iew & Ht & -> & _). by destruct (Hq tid t Ht).
  - intros t' [tid Ht']%list_elem_of_lookup. by destruct (Hback tid t' Ht') as (t & iew & Ht & -> & Hc).
  - intros tid t Ht. destruct (Hall tid t Ht) as (iew & ? & ? & _). eauto.
Qed.

Lemma tick_ok tids s : NoDup tids -> tids ⊆ act -> (forall tid, tid ∈ tids -> (tid < length (threads s))%nat) ->
  stage_inv s -> tick_env s -> exists s', tick fd fromIEW fromCommit tids s = Ok s' /\ stage_inv s' /\
    numMisc (regs (shared s')) = numMisc (regs (shared s)) /\ (length (toIEW (shared s')) <= renameWidth)%nat /\
    length (threads s') = length (threads s) /\
    forall tid t, threads s !! tid = Some t -> exists t', threads s' !! tid = Some t' /\ cycled tids tid t (shared s) t' (shared s').
Proof.
  intros Hnd Hact Hlt Hi He. destruct (first_loop tids s Hnd Hact Hlt Hi He) as (ts & b & ts2 & g2 & E1 & E2 & Hst2 & Hm2 & Hw2 & Hl2 & Hall).
  unfold tick. rewrite E1. cbn [rbind]. rewrite E2. cbn [rbind]. set (g3 := if b then updateStatus tids ts2 g2 else g2).
  assert (Hst3 : stage_ok act ts2 g3).
  { unfold g3. destruct b; [|done]. destruct Hst2 as [? [] Hq]. split; [done..|]. intros tid t Ht. by destruct (Hq tid t Ht). }
  destruct (te_wires _ He) as [Hf1 Hf2].
  destruct (commit_threads_ok tids ts2 g3 Hact Hst3) as (ts4 & g4 & -> & Hst4 & Hd4 & Hw4 & Hm4 & Hfa); [|cbn [rbind]].
  { intros tid Ht. specialize (Hlt tid Ht). split; [lia|]. apply lookup_lt_is_Some_2. lia. }
  assert (Hg3 : dyn g3 = dyn g2 /\ toIEW g3 = toIEW g2 /\ numMisc (regs g3) = numMisc (regs g2)) by (unfold g3; by destruct b).
  destruct Hg3 as (Hd3 & Hw3 & Hm3). pose proof (Forall2_length _ _ _ Hfa) as Hl4.
  assert (Hmid : forall tid t4, ts4 !! tid = Some t4 -> exists t t2, threads s !! tid = Some t /\ ts2 !! tid = Some t2 /\
    renamed_thread tids tid t (shared s) t2 g2 /\ same_but_regs t2 t4).
  { intros tid t4 Ht4. destruct (Forall2_lookup_r _ _ _ _ _ Hfa Ht4) as (t2 & Ht2 & Hsame).
    destruct (lookup_lt_is_Some_2 (threads s) tid) as [t Ht]; [rewrite <- Hl2; by eapply lookup_lt_Some|].
    destruct (Hall tid t Ht) as (t2' & Ht2' & Hrn). rewrite Ht2 in Ht2'. injection Ht2' as <-. eauto 10. }
  destruct (progress_stage ts4 g4 Hst4) as (ts5 & -> & Hl5 & Hi5 & Hp5); [|cbn [rbind]].
  { intros tid t4 Ht4. destruct (Hmid tid t4 Ht4) as (t & t2 & _ & _ & (iew & com & ? & _ & ? & ? & _) & (_ & _ & Hc)). rewrite Hc. eauto. }
  eexists. split; [done|]. cbn [threads shared]. split_and!; [done|congruence..|].
  intros tid t Ht. destruct (lookup_lt_is_Some_2 ts4 tid) as [t4 Ht4]; [apply lookup_lt_Some in Ht; lia|].
  destruct (Hmid tid t4 Ht4) as (t' & t2 & Ht' & _ & (iew & com & Hiew & Hcom & _ & _ & Hrn) & (Hq4 & _ & Hc4)).
  rewrite Ht in Ht'. injection Ht' as <-. destruct (Hp5 tid t4 Ht4) as (iew' & Hiew' & Ht5). rewrite Hiew in Hiew'. injection Hiew' as <-.
  eexists. split; [done|]. exists iew, com. split_and!; [done..|]. unfold sent. rewrite Hd4, Hw4, Hd3, Hw3.
  assert (Hpd : pending (set_cnt t4 (dispatched_from iew (cnt t4))) = pending t2) by (unfold pending; simpl; by rewrite Hq4).
  rewrite Hpd. cbn [cnt set_cnt]. rewrite Hc4. destruct (decide (tid ∈ tids)).
  - destruct Hrn as [? ?]. split; [done|]. eauto.
  - destruct Hrn as (? & ? & ->). done.
Qed.

End cycle_proofs.

(** *** What happens between cycles *)

(** The other stages write registers, flag and retire instructions and create new
    ones.  None has a pinned destination: a renamed instruction that pins, and the
    register it shares, are covered by [RenameRegs], not by the model of the stage. *)
Record outside (s s' : Rename) : Prop := {
  ou_threads : threads s' = threads s;
  ou_regs : exists sb, length sb = length (regScoreBoard (regs (shared s))) /\
    regs (shared s') = mkRegs (ids (regs (shared s))) (numMisc (regs (shared s))) (freeLists (regs (shared s))) sb;
  ou_flags : resumeSerialize (shared s') = resumeSerialize (shared s) /\ resumeUnblocking (shared s') = resumeUnblocking (shared s);
  ou_keep : forall t p i, t ∈ threads s -> p ∈ pending t -> dyn (shared s) !! p = Some i ->
    exists i', dyn (shared s') !! p = Some i' /\ threadNumber i' = threadNumber i;
  ou_insts : forall p i, dyn (shared s') !! p = Some i -> operands_ok arch flatten (numMisc (regs (shared s))) i /\
    Forall (fun r => numPinnedWrites r = 0) (destRegs (staticInst i)) /\ PinnedRegsRenamed (status i) = false
}.

Lemma outside_inv act s s' : stage_inv act s -> outside s s' -> stage_inv act s'.
Proof.
  intros [[[Hg Hth Hp] [S1 S2 _ S4] Hq] Hc] [Ht (sb & Hsb & Hr) [F1 F2] Hk Hi]. split; rewrite Ht; [|done]. split.
  - rewrite Hr. split; [|done|done]. destruct Hg as [? Hids ? ?]. split; try done. intros p Hpp. simpl. rewrite Hsb. by apply Hids.
  - split; [congruence|congruence|by rewrite Hr|by rewrite Hr].
  - intros tid t Htt. destruct (Hq tid t Htt) as [Q1 Q2 Q3 Q4]. split; try done. intros p Hpp. destruct (Q1 p Hpp) as (i & Hpi & Hn).
    destruct (Hk t p i) as (i' & Hi' & Hn'); [by eapply list_elem_of_lookup_2|done..|]. exists i'. split; [done|congruence].
Qed.

Lemma advance_inv act s : stage_inv act s -> stage_inv act (advance s).
Proof.
  intros [[Hr [] Hq] Hc]. assert (Hrt : map rt (threads (advance s)) = map rt (threads s)) by (simpl; by rewrite map_map).
  split; [split|].
  - by rewrite Hrt.
  - by split.
  - intros tid t. simpl. rewrite list_lookup_fmap. intros (t0 & Ht & ->)%fmap_Some. destruct (Hq tid t0 Ht). by split.
  - simpl. intros t (t0 & -> & Ht)%list_elem_of_fmap. by apply (Hc t0).
Qed.

Definition room_small (be : BackEnd) : Prop := forall tid, small (numFreeEntries_iq be tid) /\ small (numFreeLoadEntries be tid) /\
  small (numFreeStoreEntries be tid) /\ small (numROBFreeEntries be tid).

Lemma start_inv act be ms r u1 u2 u3 u4 u5 : rinv arch phys act (map fresh_thread ms) r -> no_pins r -> room_small be ->
  stage_inv act (resetStage be (Rename_new ms r u1 u2 u3 u4 u5)).
Proof.
  intros Hr Hn Hb.
  assert (Hts : forall tid t, threads (resetStage be (Rename_new ms r u1 u2 u3 u4 u5)) !! tid = Some t ->
    exists m, ms !! tid = Some m /\ t = clearStates be tid (new_thread m)).
  { intros tid t. simpl. rewrite list_lookup_imap. intros (t0 & Ht0 & ->)%fmap_Some. rewrite list_lookup_fmap in Ht0.
    apply fmap_Some in Ht0 as (m & ? & ->). eauto. }
  split; [split|].
  - replace (map rt _) with (map fresh_thread ms); [done|]. apply list_eq. intros k. simpl. rewrite !list_lookup_fmap, list_lookup_imap, list_lookup_fmap.
    by destruct (ms !! k).
  - by split.
  - intros tid t (m & _ & ->)%Hts. split; simpl; [by intros p ?%not_elem_of_nil|lia|done|]. split; [done|by intros [? ?]].
  - intros t [tid (m & _ & ->)%Hts]%list_elem_of_lookup. destruct (Hb tid) as (? & ? & ? & ?). split; simpl; try done; lia.
Qed.

End machine.

(** A drained stage passes the check that follows. *)
Lemma drained_check s : isDrained s = true -> drainSanityCheck (threads s) = Ok tt.
Proof.
  unfold isDrained. induction (threads s) as [|t ts IH]; simpl; [done|]. unfold thread_drained at 1. intros [H Hts]%andb_true_iff. b2p.
  rewrite !(bool_decide_eq_true_2 _) by (by eapply bool_decide_eq_true_1). cbn. rewrite H, Z.eqb_refl. by apply IH.
Qed.

(** ** Theorems *)

Section theorems.
Context (p : Params) (arch : RegClassType -> nat) (numThreads bound : nat).

(** The states of a stage whose first [bound] threads got registers. *)
Inductive reachable : Rename -> Prop :=
| at_start ms r be u1 u2 u3 u4 u5 : cpu_regs p arch numThreads bound = Ok (ms, r) -> room_small be ->
    reachable (resetStage be (Rename_new ms r u1 u2 u3 u4 u5))
| after_others s s' : reachable s -> outside arch s s' -> reachable s'
| after_cycle fd fi fc tids s s' : reachable s -> NoDup tids -> (forall tid, tid ∈ tids -> (tid < bound)%nat) ->
    tick_env fd fi fc s -> tick fd fi fc tids s = Ok s' -> reachable (advance s').

Context (Hv : (0 < arch VecRegClass)%nat) (Hd : (arch VecElemClass mod arch VecRegClass = 0)%nat).
Context (He : enough_regs p arch numThreads = true) (Hb : (bound <= numThreads)%nat).
Context (Htot : Z.of_nat (list_sum (map (numPhys p arch) classes)) <= 2 ^ 32).

Lemma reachable_inv s : reachable s -> stage_inv arch (numPhys p arch) (seq 0 bound) s /\ length (threads s) = numThreads.
Proof.
  induction 1 as [ms r be u1 u2 u3 u4 u5 Hc Hr|s s' _ [IH Hl] Ho|fd fi fc tids s s' _ [IH Hl] Hnd Hlt Henv Ht].
  - destruct (cpu_regs_inv p arch numThreads bound Hv Hd He Hb Htot) as (ms' & r' & Hc' & Hl & _ & Hri & Hn).
    rewrite Hc in Hc'. injection Hc' as <- <-. split; [by apply start_inv|]. simpl. by rewrite length_imap, length_map.
  - split; [by eapply outside_inv|]. by rewrite (ou_threads _ _ _ Ho).
  - destruct (tick_ok arch (numPhys p arch) (seq 0 bound) fd fi fc tids s Hnd) as (s'' & Ht' & Hi & _ & _ & Hl' & _); [|intros tid Hin; specialize (Hlt tid Hin); lia|done..|].
    { intros tid Hin. apply elem_of_seq. specialize (Hlt tid Hin). lia. }
    rewrite Ht in Ht'. injection Ht' as <-. split; [by apply advance_inv|]. simpl. rewrite length_map. congruence.
Qed.

Lemma reachable_tick s fd fi fc tids : reachable s -> NoDup tids -> (forall tid, tid ∈ tids -> (tid < bound)%nat) -> tick_env fd fi fc s ->
  exists s', tick fd fi fc tids s = Ok s' /\ (length (toIEW (shared s')) <= renameWidth)%nat /\
    forall tid t, threads s !! tid = Some t -> exists t', threads s' !! tid = Some t' /\ cycled fd fi fc tids tid t (shared s) t' (shared s').
Proof.
  intros Hr Hnd Hlt Henv. destruct (reachable_inv s Hr) as [Hi Hl].
  destruct (tick_ok arch (numPhys p arch) (seq 0 bound) fd fi fc tids s Hnd) as (s' & Ht & _ & _ & ? & _ & ?);
    [|intros tid Hin; specialize (Hlt tid Hin); lia|done..|eauto].
  intros tid Hin. apply elem_of_seq. specialize (Hlt tid Hin). lia.
Qed.

(** C14: the rename stage keeps program order and never fails.  In every state the
    stage can reach, and for all signals that keep to the protocol, a cycle returns;
    of each thread it takes some instructions off the front of what was waiting and
    what decode sent, sends exactly those that are not squashed to IEW, in order and
    at most [renameWidth] in all, and keeps the rest in order.  Blocking, unblocking
    and serialising never lose, repeat or reorder an instruction; a squash empties
    the queues of its thread and of no other.  The protocol is [tick_env]; no
    instruction has a pinned destination ([outside]). *)
Theorem rename_in_order s fd fi fc tids : reachable s -> NoDup tids -> (forall tid, tid ∈ tids -> (tid < bound)%nat) ->
  tick_env fd fi fc s -> exists s', tick fd fi fc tids s = Ok s' /\ (length (toIEW (shared s')) <= renameWidth)%nat /\
    forall tid t com, threads s !! tid = Some t -> fc !! tid = Some com -> exists t', threads s' !! tid = Some t' /\
      let all := pending t ++ arrivals (dyn (shared s)) tid fd in
      if bool_decide (tid ∈ tids) then
        if commit_squash com then pending t' = [] /\ sent (shared s') tid = []
        else exists L, all = L ++ pending t' /\ sent (shared s') tid = List.filter (live (dyn (shared s))) L
      else pending t' = all /\ sent (shared s') tid = [].
Proof.
  intros Hr Hnd Hlt Henv. destruct (reachable_tick s fd fi fc tids Hr Hnd Hlt Henv) as (s' & Ht & Hw & Hall). exists s'. split_and!; try done.
  intros tid t com Htt Hcom. destruct (Hall tid t Htt) as (t' & Ht' & iew & com' & _ & Hcom' & Hcy). rewrite Hcom in Hcom'. injection Hcom' as <-.
  exists t'. split; [done|]. cbv zeta. rewrite bool_decide_decide. destruct (decide (tid ∈ tids)) as [Hin|Hnin]; [|by destruct Hcy as (? & ? & _)].
  destruct Hcy as [(L & HL & Hs) _]. destruct (commit_squash com); [destruct HL as [? ->]; done|by exists L].
Qed.

(** C28: the stage never sends more than the back end has room for.  If a cycle sends
    instructions of a thread, those in flight afterwards fit the free entries that
    the ROB and the instruction queue reported; the same holds of loads and the load
    queue, and of stores and atomics and the store queue.  The counters do not become
    negative, given that IEW reports no more instructions dispatched than are in
    flight ([dispatch_ok], part of [tick_env]). *)
Theorem rename_fits_back_end s fd fi fc tids s' : reachable s -> NoDup tids -> (forall tid, tid ∈ tids -> (tid < bound)%nat) ->
  tick_env fd fi fc s -> tick fd fi fc tids s = Ok s' ->
  forall tid t t' iew, tid ∈ tids -> threads s !! tid = Some t -> threads s' !! tid = Some t' -> fi !! tid = Some iew ->
    let c := cnt t in let c' := cnt t' in
    0 <= instsInProgress c' /\ 0 <= loadsInProgress c' /\ 0 <= storesInProgress c' /\
    (instsInProgress c - dispatched iew < instsInProgress c' -> instsInProgress c' <= Z.min (robEntries c') (iqEntries c')) /\
    (loadsInProgress c - dispatchedToLQ iew < loadsInProgress c' -> loadsInProgress c' <= lqEntries c') /\
    (storesInProgress c - dispatchedToSQ iew < storesInProgress c' -> storesInProgress c' <= sqEntries c').
Proof.
  intros Hr Hnd Hlt Henv Ht tid t t' iew Hin Htt Htt' Hiew. destruct (reachable_tick s fd fi fc tids Hr Hnd Hlt Henv) as (s'' & Ht' & _ & Hall).
  rewrite Ht in Ht'. injection Ht' as <-. destruct (Hall tid t Htt) as (t'' & Htt'' & iew' & com & Hiew' & Hcom & Hcy).
  rewrite Htt' in Htt''. injection Htt'' as <-. rewrite Hiew in Hiew'. injection Hiew' as <-. rewrite decide_True in Hcy by done.
  destruct Hcy as (_ & c & [(G1 & G2 & G3 & G4) GI GL GS] & ->). destruct (te_thread _ _ _ _ Henv tid t iew com Htt Hiew Hcom) as (_ & [D1 D2 D3 _ _] & _).
  cbn in *. rewrite ?G1, ?G2, ?G3, ?G4. lia.
Qed.

(** The invariant of the stage.  In every state it can reach every physical
    register is in exactly one place, a thread holds an instruction aside exactly
    during a serialise stall, and a running, idle or squashing thread has an empty
    skid buffer.  The states are those [reachable] gives: no instruction has a pinned
    destination ([outside]), and in every cycle the signals keep to [tick_env], which
    includes that decode never sends more than the skid buffer can hold. *)
Theorem rename_stage_invariant s : reachable s ->
  concat (freeLists (regs (shared s))) ++ concat (map owned (map rt (threads s))) ≡ₚ physRegs (numPhys p arch) /\
  forall t, t ∈ threads s ->
    (status_of t = SerializeStall <-> is_Some (serializeInst (q t))) /\ (runs (status_of t) = true -> skidBuffer (q t) = []).
Proof.
  intros Hr. destruct (reachable_inv s Hr) as [[[Hri _ Hq] _] _]. split; [apply Hri|]. intros t [tid Ht]%list_elem_of_lookup.
  by destruct (Hq tid t Ht) as [_ _ Q3 Q4].
Qed.

End theorems.


End stage.

(** ** An example: three instructions, but only two free registers *)

Module FirstCycle.
Import TwoThreads.

Definition back_end : BackEnd := mkBackEnd (fun _ => 8) (fun _ => 4) (fun _ => 4) (fun _ => 8).

Definition reset_state : Rename :=
  match cpu_regs params arch 2 2 with
  | Ok (ms, r) => resetStage back_end (Rename_new ms r false true true false false)
  | Err _ => mkRename [] (mkShared (mkRegs ∅ 0 [] []) ∅ [] false false false false false [])
  end.

(** Fetch has created two instructions of the first thread and one of the second. *)
Definition fetched : gmap positive DynInst :=
  <[1%positive := add 5 0 1]> (<[2%positive := add 6 1 0]> (<[3%positive := add 7 0 1]> ∅)).

Definition fetch (s : Rename) : Rename := mkRename (threads s) (set_dyn (shared s) fetched).
Definition before : Rename := fetch reset_state.
Definition decoded : list positive := [1; 2; 3]%positive.
Definition iew : IewComm := mkIewComm 8 4 4 0 0 0 true true false false.
Definition com : CommitComm := mkCommitComm 0 8 false false true true.

Definition idle (s : Rename) : Prop := length (threads s) = 2%nat /\ numMisc (regs (shared s)) = 1%nat /\
  Forall (fun t => pending t = [] /\ cnt t = mkCounts 0 0 0 8 8 4 4 true) (threads s).

Lemma fetched_ok x i : fetched !! x = Some i -> (threadNumber i < 2)%nat /\
  staticInst i = staticInst (add 0 0 (if decide (x = 2%positive) then 0 else 1)) /\ PinnedRegsRenamed (status i) = false.
Proof.
  unfold fetched. rewrite !lookup_insert_Some. intros [[<- <-]|[_ [[<- <-]|[_ [[<- <-]|[_ H]]]]]]; [..|by rewrite lookup_empty in H];
    vm_compute; auto.
Qed.

Lemma fetch_outside s : idle s -> outside id arch s (fetch s).
Proof.
  intros (_ & Hn & Hid). rewrite Forall_forall in Hid. destruct s as [ts g]. cbn [threads shared] in *.
  split; unfold fetch; cbn [threads shared set_dyn regs dyn resumeSerialize resumeUnblocking].
  - done.
  - exists (regScoreBoard (regs g)). split; [done|]. by destruct (regs g).
  - done.
  - intros t x i Ht Hx. destruct (Hid t Ht) as [Hp _]. rewrite Hp in Hx. by apply not_elem_of_nil in Hx.
  - intros x i Hi. destruct (fetched_ok x i Hi) as (_ & Hs & Hp). unfold operands_ok. rewrite Hs, Hn.
    destruct (decide _); repeat constructor; simpl; try lia; done.
Qed.

Lemma same_wires {A} (x y : A) tid : [x; x] !! tid = Some y -> y = x.
Proof. intros H%list_elem_of_lookup_2. set_solver. Qed.

Lemma fetch_env s : idle s -> tick_env 8 decoded [iew; iew] [com; com] (fetch s).
Proof.
  intros (Hl & _ & Hid). rewrite Forall_forall in Hid. destruct s as [ts g]. cbn [threads shared] in *.
  split; unfold fetch; cbn [threads shared set_dyn dyn].
  - by rewrite Hl.
  - rewrite Hl. apply Forall_forall. repeat (apply Forall_cons; split; [eexists; split; [vm_compute; reflexivity|vm_compute; lia]|]). constructor.
  - intros tid t Ht. destruct (Hid t) as [-> _]; [by eapply list_elem_of_lookup_2|]. unfold arrivals.
    pose proof (List.filter_length_le (of_thread fetched tid) decoded) as H. change (length decoded) with 3%nat in H. unfold length at 1. lia.
  - intros tid t i c Ht ->%same_wires ->%same_wires. destruct (Hid t) as [_ ->]; [by eapply list_elem_of_lookup_2|].
    split_and!; [by intros ?|split; unfold small; simpl; lia|done].
Qed.

Lemma reset_idle : idle reset_state.
Proof. split; [|split]; vm_compute; repeat constructor. Qed.

Lemma before_reachable : reachable id 4 8 params arch 2 2 before.
Proof.
  apply after_others with reset_state; [|apply fetch_outside, reset_idle].
  unfold reset_state. destruct (cpu_regs params arch 2 2) as [[ms r]|] eqn:E; [|vm_compute in E; discriminate].
  apply at_start; [done|]. intros tid. unfold small, back_end. simpl. lia.
Qed.

Lemma env_ok : tick_env 8 decoded [iew; iew] [com; com] before.
Proof. apply fetch_env, reset_idle. Qed.

Lemma all_threads tid : tid ∈ [0; 1]%nat -> (tid < 2)%nat.
Proof. set_solver by lia. Qed.

End FirstCycle.

Lemma rename_in_order_witness : exists s', tick id 4 8 FirstCycle.decoded [FirstCycle.iew; FirstCycle.iew]
  [FirstCycle.com; FirstCycle.com] [0; 1]%nat FirstCycle.before = Ok s' /\ (length (toIEW (shared s')) <= 4)%nat.
Proof.
  destruct (rename_in_order id 4 8 TwoThreads.params TwoThreads.arch 2 2 ltac:(simpl; lia) eq_refl eq_refl ltac:(lia)
    ltac:(vm_compute; discriminate) FirstCycle.before FirstCycle.decoded [FirstCycle.iew; FirstCycle.iew] [FirstCycle.com; FirstCycle.com]
    [0; 1]%nat FirstCycle.before_reachable ltac:(by apply (bool_decide_unpack _); vm_compute) FirstCycle.all_threads FirstCycle.env_ok)
    as (s' & Ht & Hw & _).
  exists s'. split; [exact Ht|exact Hw].
Defined.

Lemma rename_fits_back_end_witness : exists s' t', tick id 4 8 FirstCycle.decoded [FirstCycle.iew; FirstCycle.iew]
  [FirstCycle.com; FirstCycle.com] [0; 1]%nat FirstCycle.before = Ok s' /\ threads s' !! 0%nat = Some t' /\
  instsInProgress (cnt t') = 2 /\ instsInProgress (cnt t') <= Z.min (robEntries (cnt t')) (iqEntries (cnt t')).
Proof.
  destruct (threads FirstCycle.before !! 0%nat) as [t|] eqn:Ht; [|vm_compute in Ht; discriminate].
  destruct (tick id 4 8 FirstCycle.decoded [FirstCycle.iew; FirstCycle.iew] [FirstCycle.com; FirstCycle.com] [0; 1]%nat FirstCycle.before)
    as [s'|] eqn:E; [|vm_compute in E; discriminate].
  destruct (threads s' !! 0%nat) as [t'|] eqn:Ht'; [|vm_compute in E; injection E as <-; discriminate].
  exists s', t'. split; [reflexivity|]. split; [exact Ht'|].
  destruct (rename_fits_back_end id 4 8 TwoThreads.params TwoThreads.arch 2 2 ltac:(simpl; lia) eq_refl eq_refl ltac:(lia)
    ltac:(vm_compute; discriminate) FirstCycle.before FirstCycle.decoded [FirstCycle.iew; FirstCycle.iew] [FirstCycle.com; FirstCycle.com]
    [0; 1]%nat s' FirstCycle.before_reachable ltac:(by apply (bool_decide_unpack _); vm_compute) FirstCycle.all_threads FirstCycle.env_ok
    E 0%nat t t' FirstCycle.iew ltac:(by left) Ht Ht' eq_refl) as (_ & _ & _ & Hroom & _).
  vm_compute in E. injection E as <-. injection Ht' as <-. vm_compute in Ht. injection Ht as <-.
  split; [reflexivity|]. apply Hroom. reflexivity.
Defined.

Lemma rename_stage_invariant_witness :
  concat (freeLists (regs (shared FirstCycle.before))) ++ concat (map owned (map rt (threads FirstCycle.before))) ≡ₚ
    physRegs (numPhys TwoThreads.params TwoThreads.arch).
Proof.
  destruct (rename_stage_invariant id 4 8 TwoThreads.params TwoThreads.arch 2 2 ltac:(simpl; lia) eq_refl eq_refl ltac:(lia)
    ltac:(vm_compute; discriminate) FirstCycle.before FirstCycle.before_reachable) as [H _].
  exact H.
Defined.
