(* ===== verification/Rob.v ===== *)
(** * The reorder buffer

    [cpu/o3/rob.hh] and [cpu/o3/rob.cc]: a list of instructions per thread, in program
    order, from which commit retires the head and which a squash walks from the tail,
    a few instructions per cycle.  Module [Commit] holds [getInsts], the squashes that
    IEW asks for and the loop over the squashing threads, from [cpu/o3/commit.cc].

    Instructions are shared objects in a heap and the lists hold pointers to them.
    An instruction is in a list once, so an iterator is the pointer it stands at, and
    [None] is [end()]; an iterator whose element was erased points to an instruction
    that is in no list.  Squashing an instruction may write its pinned registers, so
    the register file is part of the state.  [removeFrontInst] of the CPU is a log.
    Statistics are left out. *)

From Stdlib Require Import ZArith Lia Bool.
From stdpp Require Import base tactics option list numbers gmap sorting.
From S2P Require Import Prelude RenameMap RenameRegs.
Open Scope Z_scope.

(** ** State *)

(** What the buffer reads and writes of an instruction, beside [DynInst]. *)
Record RobInst := mkRobInst {
  base : DynInst; CanCommit : bool; Committed : bool; RobEntry : bool; squashedDueToMemOrder : bool
}.

Definition setCanCommit (i : RobInst) : RobInst := mkRobInst (base i) true (Committed i) (RobEntry i) (squashedDueToMemOrder i).
Definition readyToCommit (i : RobInst) : bool := CanCommit i.
Definition setCommitted (i : RobInst) : RobInst := mkRobInst (base i) (CanCommit i) true (RobEntry i) (squashedDueToMemOrder i).
Definition setInROB (i : RobInst) : RobInst := mkRobInst (base i) (CanCommit i) (Committed i) true (squashedDueToMemOrder i).
Definition clearInROB (i : RobInst) : RobInst := mkRobInst (base i) (CanCommit i) (Committed i) false (squashedDueToMemOrder i).
Definition set_memOrder (b : bool) (i : RobInst) : RobInst := mkRobInst (base i) (CanCommit i) (Committed i) (RobEntry i) b.
Definition set_base (d : DynInst) (i : RobInst) : RobInst :=
  mkRobInst d (CanCommit i) (Committed i) (RobEntry i) (squashedDueToMemOrder i).

Inductive Status : Type := Running | Idle | ROBSquashing.

Record RobThread := mkRobThread {
  robStatus : Status;
  threadEntries : Z;             (* unsigned *)
  maxEntries : Z;                (* unsigned *)
  instList : list positive;
  squashIt : option positive;
  squashedSeqNum : Z;
  doneSquashing : bool
}.

Record ROB := mkROB { rthreads : list RobThread; head_ : option positive; tail_ : option positive; numInstsInROB : Z }.

(** The buffer with what it shares. *)
Record RobState := mkRS { rob : ROB; heap : gmap positive RobInst; file : regfile; removed : list positive }.

Record RobConfig := mkConfig {
  robPolicy : SMTQueuePolicy; numEntries : Z; squashWidth : Z; numThreads : nat; smtROBThreshold : Z
}.

Definition set_maxEntries (n : Z) (t : RobThread) : RobThread :=
  mkRobThread (robStatus t) (threadEntries t) n (instList t) (squashIt t) (squashedSeqNum t) (doneSquashing t).
Definition set_list (n : Z) (l : list positive) (t : RobThread) : RobThread :=
  mkRobThread (robStatus t) n (maxEntries t) l (squashIt t) (squashedSeqNum t) (doneSquashing t).
Definition set_squashIt (it : option positive) (t : RobThread) : RobThread :=
  mkRobThread (robStatus t) (threadEntries t) (maxEntries t) (instList t) it (squashedSeqNum t) (doneSquashing t).
Definition set_done (it : option positive) (b : bool) (t : RobThread) : RobThread :=
  mkRobThread (robStatus t) (threadEntries t) (maxEntries t) (instList t) it (squashedSeqNum t) b.

Definition set_rthreads (r : ROB) (ts : list RobThread) : ROB := mkROB ts (head_ r) (tail_ r) (numInstsInROB r).
Definition set_head (r : ROB) (p : option positive) : ROB := mkROB (rthreads r) p (tail_ r) (numInstsInROB r).
Definition set_tail (r : ROB) (p : option positive) : ROB := mkROB (rthreads r) (head_ r) p (numInstsInROB r).

Definition set_rob (s : RobState) (r : ROB) : RobState := mkRS r (heap s) (file s) (removed s).
Definition set_heap (s : RobState) (h : gmap positive RobInst) : RobState := mkRS (rob s) h (file s) (removed s).

Definition upd_thread (s : RobState) (tid : nat) (f : RobThread -> RobThread) : res RobState :=
  let! t := nth_ (rthreads (rob s)) tid in
  let! ts := upd_ (rthreads (rob s)) tid (f t) in
  Ok (set_rob s (set_rthreads (rob s) ts)).

Definition upd_rob_inst (s : RobState) (p : positive) (f : RobInst -> RobInst) : res RobState :=
  let! i := deref (heap s !! p) in Ok (set_heap s (<[p := f i]> (heap s))).

(** ** Construction and partitioning *)

(** [resetState]. *)
Definition reset_thread (t : RobThread) : RobThread :=
  mkRobThread (robStatus t) 0 (maxEntries t) (instList t) None 0 true.
Definition resetState (r : ROB) : ROB := mkROB (map reset_thread (rthreads r)) None None 0.

(** The constructor leaves [robStatus] uninitialised. *)
Definition max_entries (c : RobConfig) (tid : nat) : Z :=
  if (tid <? numThreads c)%nat then
    match robPolicy c with
    | Dynamic => numEntries c
    | Partitioned => numEntries c / Z.of_nat (numThreads c)
    | Threshold => wrap 32 (smtROBThreshold c)
    end
  else 0.
Definition ROB_new (c : RobConfig) (status : Status) : ROB :=
  resetState (mkROB (map (fun tid => mkRobThread status 0 (max_entries c tid) [] None 0 true) (seq 0 MaxThreads)) None None 0).

Fixpoint reset_entries_loop (c : RobConfig) (n : Z) (tids : list nat) (s : RobState) : res RobState :=
  match tids with
  | [] => Ok s
  | tid :: tids =>
      let! s := (if bool_decide (robPolicy c = Partitioned) then upd_thread s tid (set_maxEntries (numEntries c / n))
        else if bool_decide (robPolicy c = Threshold) && (n =? 1) then upd_thread s tid (set_maxEntries (numEntries c))
        else Ok s) in
      reset_entries_loop c n tids s
  end.
Definition resetEntries (c : RobConfig) (activeThreads : list nat) (s : RobState) : res RobState :=
  if negb (bool_decide (robPolicy c = Dynamic)) || (1 <? numThreads c)%nat then
    reset_entries_loop c (Z.of_nat (length activeThreads)) activeThreads s
  else Ok s.

(** ** Queries *)

Definition entryAmount (c : RobConfig) (num_threads : Z) : Z :=
  match robPolicy c with Partitioned => numEntries c / num_threads | _ => 0 end.
Definition countInsts_thread (s : RobState) (tid : nat) : res nat :=
  let! t := nth_ (rthreads (rob s)) tid in Ok (length (instList t)).
Definition countInsts (c : RobConfig) (s : RobState) : nat :=
  list_sum (map (fun t => length (instList t)) (take (numThreads c) (rthreads (rob s)))).
Definition numFreeEntries (c : RobConfig) (s : RobState) : Z := wrap 32 (numEntries c - numInstsInROB (rob s)).
Definition numFreeEntries_thread (s : RobState) (tid : nat) : res Z :=
  let! t := nth_ (rthreads (rob s)) tid in Ok (wrap 32 (maxEntries t - threadEntries t)).
Definition isFull (c : RobConfig) (s : RobState) : bool := numInstsInROB (rob s) =? numEntries c.
Definition isFull_thread (c : RobConfig) (s : RobState) (tid : nat) : res bool :=
  let! t := nth_ (rthreads (rob s)) tid in Ok (threadEntries t =? numEntries c).
Definition isEmpty (s : RobState) : bool := numInstsInROB (rob s) =? 0.
Definition isEmpty_thread (s : RobState) (tid : nat) : res bool :=
  let! t := nth_ (rthreads (rob s)) tid in Ok (threadEntries t =? 0).
Definition isDoneSquashing (s : RobState) (tid : nat) : res bool :=
  let! t := nth_ (rthreads (rob s)) tid in Ok (doneSquashing t).

Definition isHeadReady (s : RobState) (tid : nat) : res bool :=
  let! t := nth_ (rthreads (rob s)) tid in
  if threadEntries t =? 0 then Ok false
  else let! p := deref (head (instList t)) in let! i := deref (heap s !! p) in Ok (readyToCommit i).

Fixpoint canCommit (activeThreads : list nat) (s : RobState) : res bool :=
  match activeThreads with
  | [] => Ok false
  | tid :: tids => let! b := isHeadReady s tid in if b then Ok true else canCommit tids s
  end.

(** [None] is [dummyInst]. *)
Definition readHeadInst (s : RobState) (tid : nat) : res (option positive) :=
  let! t := nth_ (rthreads (rob s)) tid in
  if threadEntries t =? 0 then Ok None
  else let! p := deref (head (instList t)) in let! i := deref (heap s !! p) in check! RobEntry i; Ok (Some p).
Definition readTailInst (s : RobState) (tid : nat) : res positive :=
  let! t := nth_ (rthreads (rob s)) tid in deref (last (instList t)).

Definition seq_of (h : gmap positive RobInst) (p : positive) : res Z :=
  let! i := deref (h !! p) in Ok (dyn_seqNum (base i)).

Fixpoint find_inst (h : gmap positive RobInst) (sn : Z) (l : list positive) : res (option positive) :=
  match l with
  | [] => Ok None
  | p :: l => let! n := seq_of h p in if n =? sn then Ok (Some p) else find_inst h sn l
  end.
Definition findInst (s : RobState) (tid : nat) (squash_inst : Z) : res (option positive) :=
  let! t := nth_ (rthreads (rob s)) tid in find_inst (heap s) squash_inst (instList t).

Definition drainSanityCheck (c : RobConfig) (s : RobState) : res unit :=
  let! _ := assert_ (forallb (fun t => bool_decide (instList t = [])) (take (numThreads c) (rthreads (rob s)))) in
  assert_ (isEmpty s).

(** ** Head and tail *)

Fixpoint head_loop (tids : list nat) (s : RobState) (best : option (positive * Z)) : res (option (positive * Z)) :=
  match tids with
  | [] => Ok best
  | tid :: tids =>
      let! t := nth_ (rthreads (rob s)) tid in
      match instList t with
      | [] => head_loop tids s best
      | p :: _ =>
          let! n := seq_of (heap s) p in
          head_loop tids s (match best with
            | None => Some (p, n)
            | Some (_, lowest_num) => if n <? lowest_num then Some (p, n) else best
            end)
      end
  end.
Definition updateHead (activeThreads : list nat) (s : RobState) : res RobState :=
  let! b := head_loop activeThreads s None in Ok (set_rob s (set_head (rob s) (fst <$> b))).

Fixpoint tail_loop (tids : list nat) (s : RobState) (best : option positive) : res (option positive) :=
  match tids with
  | [] => Ok best
  | tid :: tids =>
      let! t := nth_ (rthreads (rob s)) tid in
      match last (instList t) with
      | None => tail_loop tids s best
      | Some p =>
          let! best := (match best with
            | None => Ok (Some p)
            | Some b =>
                let! n := seq_of (heap s) p in
                let! m := seq_of (heap s) b in
                Ok (if m <? n then Some p else best)
            end) in
          tail_loop tids s best
      end
  end.
Definition updateTail (activeThreads : list nat) (s : RobState) : res RobState :=
  let! b := tail_loop activeThreads s None in Ok (set_rob s (set_tail (rob s) b)).

(** ** Insertion and retirement *)

Definition insertInst (c : RobConfig) (p : positive) (s : RobState) : res RobState :=
  let! i := deref (heap s !! p) in
  check! negb (wrap 32 (numInstsInROB (rob s)) =? numEntries c);
  let tid := threadNumber (base i) in
  let! t := nth_ (rthreads (rob s)) tid in
  let l := instList t ++ [p] in
  let first := numInstsInROB (rob s) =? 0 in
  check! negb first || bool_decide (head l = Some p);
  check! bool_decide (last l = Some p);
  let! ts := upd_ (rthreads (rob s)) tid (set_list (wrap 32 (threadEntries t + 1)) l t) in
  let r := mkROB ts (if first then head l else head_ (rob s)) (last l) (numInstsInROB (rob s) + 1) in
  upd_rob_inst (set_rob s r) p setInROB.

Definition retireHead (activeThreads : list nat) (tid : nat) (s : RobState) : res RobState :=
  check! 0 <? numInstsInROB (rob s);
  let! t := nth_ (rthreads (rob s)) tid in
  match instList t with
  | [] => Err NullDeref
  | p :: l =>
      let! i := deref (heap s !! p) in
      check! readyToCommit i;
      let! ts := upd_ (rthreads (rob s)) tid (set_list (wrap 32 (threadEntries t - 1)) l t) in
      let r := mkROB ts (head_ (rob s)) (tail_ (rob s)) (numInstsInROB (rob s) - 1) in
      let! s := upd_rob_inst (set_rob s r) p (fun i => setCommitted (clearInROB i)) in
      let! s := updateHead activeThreads s in
      Ok (mkRS (rob s) (heap s) (file s) (removed s ++ [p]))
  end.

(** ** Squashing *)

(** Dereferencing an iterator into a list, and stepping it back. *)
Definition at_it (l : list positive) (it : option positive) : res positive :=
  match it with Some p => if bool_decide (p ∈ l) then Ok p else Err NullDeref | None => Err NullDeref end.
Fixpoint prev_of (l : list positive) (p : positive) : res positive :=
  match l with
  | a :: l' => if bool_decide (head l' = Some p) then Ok a else prev_of l' p
  | [] => Err NullDeref
  end.

Fixpoint clear_markers (sn : Z) (l : list positive) (h : gmap positive RobInst) : res (gmap positive RobInst) :=
  match l with
  | [] => Ok h
  | p :: l =>
      let! i := deref (h !! p) in
      clear_markers sn l (if sn <? dyn_seqNum (base i) then <[p := set_memOrder false i]> h else h)
  end.
Definition updateViolationMarker (tid : nat) (squash_seq_num : Z) (s : RobState) : res RobState :=
  let! t := nth_ (rthreads (rob s)) tid in
  let! h := clear_markers squash_seq_num (instList t) (heap s) in Ok (set_heap s h).

(** One instruction of the loop of [doSquash]. *)
Definition squash_inst (mem : bool) (p : positive) (h : gmap positive RobInst) (f : regfile) : res (gmap positive RobInst * regfile) :=
  let! i := deref (h !! p) in
  let! (d, f) := setSquashed (base i) f in
  let i := setCanCommit (set_base d i) in
  let i := if isLoad (staticInst d) && mem then set_memOrder true i else i in
  Ok (<[p := i]> h, f).

(** The loop of [doSquash] over the list [l] of the thread, from the iterator [it].
    The results are the iterator, [robTailUpdate] and whether the function returned
    from the loop. *)
Fixpoint squash_loop (n : nat) (l : list positive) (sn : Z) (mem : bool) (it : option positive) (tail_update : bool)
    (h : gmap positive RobInst) (f : regfile) : res (option positive * bool * bool * gmap positive RobInst * regfile) :=
  match n, it with
  | S n, Some _ =>
      let! p := at_it l it in
      let! m := seq_of h p in
      if sn <? m then
        let! (h, f) := squash_inst mem p h f in
        if bool_decide (head l = Some p) then Ok (None, tail_update, true, h, f)
        else
          let tail_update := tail_update || bool_decide (last l = Some p) in
          let! p := prev_of l p in
          squash_loop n l sn mem (Some p) tail_update h f
      else Ok (it, tail_update, false, h, f)
  | _, _ => Ok (it, tail_update, false, h, f)
  end.

Definition doSquash (c : RobConfig) (activeThreads : list nat) (exiting : bool) (tid : nat) (squashedDueToMemOrder : bool) (s : RobState) :
    res RobState :=
  let! t := nth_ (rthreads (rob s)) tid in
  let sn := squashedSeqNum t in
  check! bool_decide (is_Some (squashIt t));
  let! p := at_it (instList t) (squashIt t) in
  let! m := seq_of (heap s) p in
  if m <? sn then upd_thread s tid (set_done None true)
  else
    let numInstsToSquash := if exiting then numEntries c else squashWidth c in
    let! s := (if squashedDueToMemOrder then Ok s else updateViolationMarker tid sn s) in
    let! (it, tail_update, returned, h, f) :=
      squash_loop (Z.to_nat numInstsToSquash) (instList t) sn squashedDueToMemOrder (squashIt t) false (heap s) (file s) in
    let s := mkRS (rob s) h f (removed s) in
    if (returned : bool) then upd_thread s tid (set_done None true)
    else
      let! p := at_it (instList t) it in
      let! m := seq_of (heap s) p in
      let! s := upd_thread s tid (if m <=? sn then set_done None true else set_squashIt it) in
      if (tail_update : bool) then updateTail activeThreads s else Ok s.

Definition squash (c : RobConfig) (activeThreads : list nat) (exiting : bool) (squash_num : Z) (tid : nat) (squashedDueToMemOrder : bool)
    (s : RobState) : res RobState :=
  let! t := nth_ (rthreads (rob s)) tid in
  if threadEntries t =? 0 then Ok s
  else
    let! s := upd_thread s tid (fun t => mkRobThread ROBSquashing (threadEntries t) (maxEntries t) (instList t) (squashIt t) squash_num false) in
    match last (instList t) with
    | None => Ok s
    | Some p =>
        let! s := upd_thread s tid (set_squashIt (Some p)) in
        doSquash c activeThreads exiting tid squashedDueToMemOrder s
    end.

(** ** The users in commit *)

Module Commit.

Inductive ThreadStatus : Type :=
| Running | Idle | ROBSquashing | ROBSquashingDueToMemOrder | TrapPending | FetchTrapPending | SquashAfterPending.

#[export] Instance ThreadStatus_eq_dec : EqDecision ThreadStatus.
Proof. solve_decision. Defined.

Record t := mkCommit {
  rs : RobState; commitStatus : list ThreadStatus; changedROBNumEntries : list bool; youngestSeqNum : list Z;
  committedStores : list bool;
  robSquashing : list bool;      (* wire to rename *)
  wroteToTimeBuffer : bool
}.

(** The loop of [getInsts] over the instructions of rename. *)
Fixpoint insert_loop (c : RobConfig) (ps : list positive) (m : t) : res t :=
  match ps with
  | [] => Ok m
  | p :: ps =>
      let! i := deref (heap (rs m) !! p) in
      let tid := threadNumber (base i) in
      let! st := nth_ (commitStatus m) tid in
      if negb (isSquashed (base i)) && negb (bool_decide (st = ROBSquashing)) && negb (bool_decide (st = TrapPending)) then
        let! ch := upd_ (changedROBNumEntries m) tid true in
        let! s := insertInst c p (rs m) in
        let! th := nth_ (rthreads (rob s)) tid in
        check! threadEntries th <=? maxEntries th;
        let! ys := upd_ (youngestSeqNum m) tid (dyn_seqNum (base i)) in
        insert_loop c ps (mkCommit s (commitStatus m) ch ys (committedStores m) (robSquashing m) (wroteToTimeBuffer m))
      else insert_loop c ps m
  end.

Definition getInsts (c : RobConfig) (renameWidth : nat) (fromRename : list positive) (m : t) : res t :=
  insert_loop c (take renameWidth fromRename) m.

(** The loop of [tick] over the threads whose squash is under way. *)
Fixpoint squashing_loop (c : RobConfig) (activeThreads : list nat) (exiting : nat -> bool) (tids : list nat) (m : t) : res t :=
  match tids with
  | [] => Ok m
  | tid :: tids =>
      let! cs := upd_ (committedStores m) tid false in
      let! st := nth_ (commitStatus m) tid in
      let! m := (if bool_decide (st = ROBSquashing) || bool_decide (st = ROBSquashingDueToMemOrder) then
          let! d := isDoneSquashing (rs m) tid in
          if d then
            let! sts := upd_ (commitStatus m) tid Running in
            Ok (mkCommit (rs m) sts (changedROBNumEntries m) (youngestSeqNum m) cs (robSquashing m) (wroteToTimeBuffer m))
          else
            let! s := doSquash c activeThreads (exiting tid) tid (bool_decide (st = ROBSquashingDueToMemOrder)) (rs m) in
            let! rsq := upd_ (robSquashing m) tid true in
            Ok (mkCommit s (commitStatus m) (changedROBNumEntries m) (youngestSeqNum m) cs rsq true)
        else Ok (mkCommit (rs m) (commitStatus m) (changedROBNumEntries m) (youngestSeqNum m) cs (robSquashing m) (wroteToTimeBuffer m))) in
      squashing_loop c activeThreads exiting tids m
  end.

(** What IEW tells commit about a squash. *)
Record IewSquash := mkIewSquash { iew_squash : bool; mispredictInst : bool; iew_squashedSeqNum : Z; includeSquashInst : bool }.

(** The squashes that IEW asks for, in the loop of [commit]; [mem] is the variable
    [squashedDueToMemOrder] of that function.  The squashes of traps and of the thread
    context, which come before in an iteration, are not modelled, nor is what is sent
    to the other stages beside [robSquashing]. *)
Fixpoint iew_squash_loop (c : RobConfig) (activeThreads : list nat) (exiting : nat -> bool) (fromIEW : list IewSquash) (tids : list nat)
    (mem : bool) (m : t) : res t :=
  match tids with
  | [] => Ok m
  | tid :: tids =>
      let! q := nth_ fromIEW tid in
      let! st := nth_ (commitStatus m) tid in
      let! y := nth_ (youngestSeqNum m) tid in
      if iew_squash q && negb (bool_decide (st = TrapPending)) && (iew_squashedSeqNum q <=? y) then
        let mem := if mispredictInst q then mem else true in
        let! sts := upd_ (commitStatus m) tid (if mem then ROBSquashingDueToMemOrder else ROBSquashing) in
        let sn := if includeSquashInst q then wrap 64 (iew_squashedSeqNum q - 1) else iew_squashedSeqNum q in
        let! ys := upd_ (youngestSeqNum m) tid sn in
        let! s := squash c activeThreads (exiting tid) sn tid mem (rs m) in
        let! ch := upd_ (changedROBNumEntries m) tid true in
        let! rsq := upd_ (robSquashing m) tid true in
        iew_squash_loop c activeThreads exiting fromIEW tids mem (mkCommit s sts ch ys (committedStores m) rsq (wroteToTimeBuffer m))
      else iew_squash_loop c activeThreads exiting fromIEW tids mem m
  end.

Definition iew_squashes (c : RobConfig) (activeThreads : list nat) (exiting : nat -> bool) (fromIEW : list IewSquash) (m : t) : res t :=
  iew_squash_loop c activeThreads exiting fromIEW activeThreads false m.

End Commit.

(** ** Marking instructions *)

(** An object stays the same instruction of the buffer. *)
Definition same_rob (i i' : RobInst) : Prop :=
  dyn_seqNum (base i') = dyn_seqNum (base i) /\ threadNumber (base i') = threadNumber (base i) /\
  staticInst (base i') = staticInst (base i) /\ renamedDestIdx (operands (base i')) = renamedDestIdx (operands (base i)) /\
  RobEntry i' = RobEntry i /\ Committed i' = Committed i.

Definition gone (i : RobInst) : Prop := isSquashed (base i) = true /\ CanCommit i = true.

(** Exactly the instructions [M] are marked as squashed and ready to leave. *)
Definition marks (M : list positive) (h h' : gmap positive RobInst) : Prop :=
  forall p, option_relation (fun i i' => same_rob i i' /\ (p ∈ M -> gone i') /\
    (p ∉ M -> isSquashed (base i') = isSquashed (base i) /\ CanCommit i' = CanCommit i))
    (fun _ => False) (fun _ => False) (h !! p) (h' !! p).

(** The registers of the renamed destinations exist. *)
Definition file_ok (h : gmap positive RobInst) (f : regfile) : Prop :=
  forall p i, h !! p = Some i -> Forall (fun r => is_Some (f !! r)) (renamedDestIdx (operands (base i))).

Definition seqn (h : gmap positive RobInst) (p : positive) : Z :=
  match h !! p with Some i => dyn_seqNum (base i) | None => 0 end.

Lemma seq_of_ok h p : is_Some (h !! p) -> seq_of h p = Ok (seqn h p).
Proof. intros [i Hi]. unfold seq_of, seqn. by rewrite Hi. Qed.

Lemma marks_lookup M h h' p i : marks M h h' -> h !! p = Some i -> exists i', h' !! p = Some i' /\ same_rob i i' /\
  (p ∈ M -> gone i') /\ (p ∉ M -> isSquashed (base i') = isSquashed (base i) /\ CanCommit i' = CanCommit i).
Proof. intros H Hp. specialize (H p). rewrite Hp in H. destruct (h' !! p) as [i'|]; simpl in H; [eauto|done]. Qed.

Lemma marks_refl h : marks [] h h.
Proof. intros p. destruct (h !! p) as [i|]; simpl; [|done]. split; [done|]. split; [by intros ?%not_elem_of_nil|done]. Qed.

Lemma marks_gone M h h' p i i' : marks M h h' -> h !! p = Some i -> h' !! p = Some i' -> gone i -> gone i'.
Proof.
  intros H Hi Hi' [Hsq Hcc]. specialize (H p). rewrite Hi, Hi' in H. destruct H as (_ & H1 & H2).
  destruct (decide (p ∈ M)) as [|Hn]; [auto|]. destruct (H2 Hn). unfold gone. split; congruence.
Qed.

Lemma marks_trans M1 M2 h1 h2 h3 : marks M1 h1 h2 -> marks M2 h2 h3 -> marks (M2 ++ M1) h1 h3.
Proof.
  intros H12 H23 p. pose proof (fun i i' => marks_gone M2 h2 h3 p i i' H23) as Hg. specialize (H12 p). specialize (H23 p).
  destruct (h1 !! p) as [i1|], (h2 !! p) as [i2|], (h3 !! p) as [i3|]; simpl in *; try done.
  destruct H12 as ((? & ? & ? & ? & ? & ?) & A1 & A2), H23 as ((? & ? & ? & ? & ? & ?) & B1 & B2).
  split; [unfold same_rob; split_and!; congruence|]. split.
  - intros [?|?]%elem_of_app; [auto|]. eapply Hg; eauto.
  - intros [Hn1 Hn2]%not_elem_of_app. destruct (A2 Hn2), (B2 Hn1). split; congruence.
Qed.

Lemma marks_seqn M h h' p : marks M h h' -> seqn h' p = seqn h p.
Proof. intros H. specialize (H p). unfold seqn. destruct (h !! p), (h' !! p); simpl in H; try done. by destruct H as ((? & _) & _). Qed.

Lemma unpin_loop_ok w rs : forall f, Forall (fun r => is_Some (f !! r)) rs ->
  exists f', unpin_loop w rs f = Ok f' /\ forall r, is_Some (f !! r) -> is_Some (f' !! r).
Proof.
  induction rs as [|p rs IH]; intros f H; simpl; [eauto|]. apply Forall_cons in H as [[r Hr] H]. rewrite Hr. cbn [rbind deref].
  set (r' := if pinned r then _ else r).
  assert (Hdom : forall x, is_Some (f !! x) -> is_Some (<[p := r']> f !! x)).
  { intros x Hx. destruct (decide (x = p)) as [->|]; [by rewrite lookup_insert_eq|by rewrite lookup_insert_ne]. }
  destruct (IH (<[p := r']> f)) as (f' & -> & Hf'); [by eapply Forall_impl; [exact H|]|]. eexists. split; [done|]. auto.
Qed.

Lemma setSquashed_ok i f : Forall (fun r => is_Some (f !! r)) (renamedDestIdx (operands i)) ->
  exists i' f', setSquashed i f = Ok (i', f') /\ dyn_seqNum i' = dyn_seqNum i /\ threadNumber i' = threadNumber i /\
    staticInst i' = staticInst i /\ operands i' = operands i /\ isSquashed i' = true /\ forall r, is_Some (f !! r) -> is_Some (f' !! r).
Proof.
  intros H. unfold setSquashed. destruct (_ || _); [eexists _, _; split; [done|]; by split_and!|].
  destruct (unpin_loop_ok (PinnedRegsWritten (status i)) _ f H) as (f' & -> & Hf). cbn [rbind]. eexists _, _. split; [done|]. by split_and!.
Qed.

Lemma squash_inst_ok mem p h f i : h !! p = Some i -> file_ok h f ->
  exists h' f', squash_inst mem p h f = Ok (h', f') /\ marks [p] h h' /\ file_ok h' f' /\ (forall r, is_Some (f !! r) -> is_Some (f' !! r)).
Proof.
  intros Hi Hf. unfold squash_inst. rewrite Hi. cbn [rbind deref].
  destruct (setSquashed_ok (base i) f (Hf p i Hi)) as (d & f' & -> & H1 & H2 & H3 & H4 & H5 & Hdom). cbn [rbind].
  set (i' := if isLoad _ && mem then _ else _).
  assert (Hb : base i' = d /\ RobEntry i' = RobEntry i /\ Committed i' = Committed i /\ CanCommit i' = true) by (unfold i'; by destruct (_ && _)).
  destruct Hb as (Hb & ? & ? & ?). eexists _, _. split; [done|]. split; [|split; [|done]].
  - intros x. destruct (decide (x = p)) as [->|Hne].
    + rewrite lookup_insert_eq, Hi. simpl. unfold same_rob, gone. rewrite Hb, H4. split; [by split_and!|]. split; [done|]. intros []. by left.
    + rewrite lookup_insert_ne by done. destruct (h !! x) as [j|]; simpl; [|done]. split; [done|]. split; [|done].
      intros ?%list_elem_of_singleton. done.
  - intros x j Hx. destruct (decide (x = p)) as [->|Hne].
    + rewrite lookup_insert_eq in Hx. injection Hx as <-. rewrite Hb, H4. eapply Forall_impl; [by apply (Hf p)|]. done.
    + rewrite lookup_insert_ne in Hx by done. eapply Forall_impl; [by apply (Hf x)|]. done.
Qed.

(** ** The loop of [doSquash] *)

Lemma at_it_ok l p : p ∈ l -> at_it l (Some p) = Ok p.
Proof. intros H. simpl. by rewrite bool_decide_eq_true_2. Qed.

Lemma NoDup_split_unique {A} (l1 l1' : list A) x l2 l2' : l1 ++ x :: l2 = l1' ++ x :: l2' -> NoDup (l1 ++ x :: l2) -> l2' = l2.
Proof.
  revert l1'. induction l1 as [|a l1 IH]; intros [|b l1'] E Hnd; simpl in *.
  - by injection E as <-.
  - injection E as -> E. apply NoDup_cons in Hnd as [Hn _]. destruct Hn. rewrite E. set_solver.
  - injection E as -> E. apply NoDup_cons in Hnd as [Hn _]. destruct Hn. set_solver.
  - injection E as _ E. apply NoDup_cons in Hnd as [_ Hnd]. by eapply IH.
Qed.

Lemma prev_of_ok l1 x p l2 : NoDup (l1 ++ x :: p :: l2) -> prev_of (l1 ++ x :: p :: l2) p = Ok x.
Proof.
  induction l1 as [|a l1 IH]; intros H; simpl.
  - by rewrite bool_decide_eq_true_2.
  - simpl in H. apply NoDup_cons in H as [_ H]. rewrite bool_decide_eq_false_2; [auto|].
    intros Hh. destruct l1 as [|b l1]; simpl in *; injection Hh as ->.
    + apply NoDup_cons in H as [H _]. apply H. by left.
    + apply NoDup_cons in H as [H _]. apply H. set_solver.
Qed.

Lemma head_snoc_ne (l1 : list positive) x p l2 : NoDup (l1 ++ x :: p :: l2) -> head (l1 ++ x :: p :: l2) <> Some p.
Proof.
  destruct l1 as [|a l1]; simpl; intros [H _]%NoDup_cons [= ->]; apply H; set_solver.
Qed.

Lemma mark_loop_ok n l sn mem : NoDup l -> forall l1 p l2 tu h f, l = l1 ++ p :: l2 ->
  (forall x, x ∈ l -> is_Some (h !! x)) -> file_ok h f ->
  exists it tu' ret h' f' rest ms, squash_loop n l sn mem (Some p) tu h f = Ok (it, tu', ret, h', f') /\ l1 ++ [p] = rest ++ ms /\
    marks ms h h' /\ file_ok h' f' /\ (forall x, x ∈ ms -> sn < seqn h x) /\ (length ms <= n)%nat /\
    (if (ret : bool) then rest = [] /\ it = None
     else exists r x, rest = r ++ [x] /\ it = Some x /\ (length ms = n \/ seqn h x <= sn)).
Proof.
  intros Hnd. induction n as [|n IH]; intros l1 p l2 tu h f Hl Hh Hf.
  { exists (Some p), tu, false, h, f, (l1 ++ [p]), []. rewrite app_nil_r. split_and!; try done; [apply marks_refl|set_solver|]. exists l1, p. auto. }
  cbn [squash_loop]. rewrite at_it_ok by (rewrite Hl; set_solver). cbn [rbind]. destruct (Hh p) as [i Hi]; [rewrite Hl; set_solver|].
  rewrite seq_of_ok by eauto. cbn [rbind]. destruct (Z.ltb_spec sn (seqn h p)) as [Hlt|Hge].
  2: { exists (Some p), tu, false, h, f, (l1 ++ [p]), []. rewrite app_nil_r. split_and!; try done; [apply marks_refl|set_solver|simpl; lia|].
       exists l1, p. auto. }
  destruct (squash_inst_ok mem p h f i Hi Hf) as (h1 & f1 & -> & Hm & Hf1 & _). cbn [rbind].
  destruct l1 as [|y l1 _] using rev_ind.
  { rewrite bool_decide_eq_true_2 by (by rewrite Hl). exists None, tu, true, h1, f1, [], [p]. split_and!; try done.
    - intros x ->%list_elem_of_singleton. done.
    - simpl. lia. }
  rewrite <- app_assoc in Hl. simpl in Hl. rewrite bool_decide_eq_false_2 by (rewrite Hl in *; by apply head_snoc_ne).
  rewrite Hl, prev_of_ok by (by rewrite <- Hl). rewrite <- Hl. cbn [rbind].
  assert (Hh1 : forall x, x ∈ l -> is_Some (h1 !! x)).
  { intros x Hx. destruct (Hh x Hx) as [j Hj]. destruct (marks_lookup _ _ _ _ _ Hm Hj) as (j' & -> & _). done. }
  destruct (IH l1 y (p :: l2) (tu || bool_decide (last l = Some p)) h1 f1 Hl Hh1 Hf1)
    as (it & tu' & ret & h' & f' & rest & ms & -> & Hrest & Hms & Hf' & Hyoung & Hlen & Hret).
  exists it, tu', ret, h', f', rest, (ms ++ [p]). split; [done|]. split_and!; try done.
  - by rewrite Hrest, app_assoc.
  - by eapply marks_trans.
  - intros x [Hx| ->%list_elem_of_singleton]%elem_of_app; [|done]. rewrite <- (marks_seqn _ _ _ x Hm). auto.
  - rewrite length_app. simpl. lia.
  - destruct ret; [done|]. destruct Hret as (r & x & ? & ? & Hx). exists r, x. split_and!; try done.
    rewrite <- (marks_seqn _ _ _ x Hm). rewrite length_app. simpl. destruct Hx; [left; lia|by right].
Qed.

(** ** The invariant *)

Section invariant.
Context (c : RobConfig) (act : list nat).
Context (Hact : forall tid, tid ∈ act -> (tid < MaxThreads)%nat) (Hcap : 0 <= numEntries c < 2 ^ 31) (Hwidth : 0 < squashWidth c).

(** A thread's list is in program order and holds its own instructions; while a
    squash is under way, its iterator stands in the list.  What is behind the iterator
    is marked, or was inserted since the squash began. *)
Record thread_ok (tid : nat) (t : RobThread) (h : gmap positive RobInst) : Prop := {
  to_count : threadEntries t = Z.of_nat (length (instList t));
  to_inst : forall p, p ∈ instList t -> exists i, h !! p = Some i /\ threadNumber (base i) = tid /\ RobEntry i = true;
  to_sorted : StronglySorted (fun p p' => seqn h p < seqn h p') (instList t);
  to_squash : if doneSquashing t then squashIt t = None
    else exists l1 p l2, instList t = l1 ++ p :: l2 /\ squashIt t = Some p
}.

Record rob_ok (s : RobState) : Prop := {
  ro_len : length (rthreads (rob s)) = MaxThreads;
  ro_thread : forall tid t, rthreads (rob s) !! tid = Some t -> thread_ok tid t (heap s);
  ro_active : forall tid t, rthreads (rob s) !! tid = Some t -> instList t <> [] -> tid ∈ act;
  ro_sum : numInstsInROB (rob s) = Z.of_nat (list_sum (map (fun t => length (instList t)) (rthreads (rob s))));
  ro_cap : numInstsInROB (rob s) <= numEntries c;
  ro_head : match head_ (rob s) with
    | None => numInstsInROB (rob s) = 0
    | Some p => exists tid t, rthreads (rob s) !! tid = Some t /\ head (instList t) = Some p
    end;
  ro_file : file_ok (heap s) (file s)
}.

Lemma sorted_NoDup h l : StronglySorted (fun p p' => seqn h p < seqn h p') l -> NoDup l.
Proof.
  induction 1 as [|p l Hs IH HF]; constructor; [|done]. intros Hin. rewrite Forall_forall in HF. specialize (HF p Hin). lia.
Qed.

Lemma sorted_before h l1 p l2 x : StronglySorted (fun p p' => seqn h p < seqn h p') (l1 ++ p :: l2) -> x ∈ l1 -> seqn h x < seqn h p.
Proof.
  induction l1 as [|a l1 IH]; simpl; [by intros _ ?%not_elem_of_nil|]. intros [Hs HF]%StronglySorted_inv [->|Hx]%elem_of_cons; [|auto].
  rewrite Forall_forall in HF. apply HF. set_solver.
Qed.

Lemma sorted_marks M h h' l : marks M h h' -> StronglySorted (fun p p' => seqn h p < seqn h p') l ->
  StronglySorted (fun p p' => seqn h' p < seqn h' p') l.
Proof.
  intros Hm. induction 1 as [|p l Hs IH HF]; constructor; [done|]. eapply Forall_impl; [exact HF|]. intros x. simpl.
  by rewrite !(marks_seqn _ _ _ _ Hm).
Qed.

Lemma clear_markers_ok sn l : forall h, (forall x, x ∈ l -> is_Some (h !! x)) -> exists h', clear_markers sn l h = Ok h' /\ marks [] h h' /\
  forall p, (renamedDestIdx ∘ operands ∘ base) <$> h' !! p = (renamedDestIdx ∘ operands ∘ base) <$> h !! p.
Proof.
  induction l as [|p l IH]; intros h Hh; simpl; [exists h; split; [done|]; split; [apply marks_refl|done]|].
  destruct (Hh p ltac:(by left)) as [i Hi]. rewrite Hi. cbn [rbind deref]. set (h1 := if _ <? _ then _ else h).
  assert (Hm : marks [] h h1).
  { unfold h1. destruct (_ <? _); [|apply marks_refl]. intros x. destruct (decide (x = p)) as [->|Hne].
    - rewrite lookup_insert_eq, Hi. simpl. split; [done|]. split; [by intros ?%not_elem_of_nil|done].
    - rewrite lookup_insert_ne by done. apply (marks_refl h x). }
  destruct (IH h1) as (h' & -> & Hm' & Hb).
  { intros x Hx. destruct (Hh x ltac:(by right)) as [j Hj]. destruct (marks_lookup _ _ _ _ _ Hm Hj) as (j' & -> & _). done. }
  exists h'. split; [done|]. split; [by apply (marks_trans [] [] h h1)|]. intros x. rewrite Hb. unfold h1. destruct (_ <? _); [|done].
  destruct (decide (x = p)) as [->|Hne]; [by rewrite lookup_insert_eq, Hi|by rewrite lookup_insert_ne].
Qed.

Lemma file_ok_same h h' f : (forall p : positive, (renamedDestIdx ∘ operands ∘ base) <$> h' !! p = (renamedDestIdx ∘ operands ∘ base) <$> h !! p) ->
  file_ok h f -> file_ok h' f.
Proof.
  intros H Hf p i Hi. specialize (H p). rewrite Hi in H. destruct (h !! p) as [j|] eqn:Hj; [|done]. simpl in H. injection H as H.
  unfold compose in H. rewrite H. by apply (Hf p).
Qed.

Lemma tail_loop_ok tids s : forall best, (forall tid, tid ∈ tids -> exists t, rthreads (rob s) !! tid = Some t /\
    forall p, p ∈ instList t -> is_Some (heap s !! p)) -> (forall p, best = Some p -> is_Some (heap s !! p)) ->
  exists b, tail_loop tids s best = Ok b.
Proof.
  induction tids as [|tid tids IH]; intros best H Hb; simpl; [eauto|]. destruct (H tid ltac:(by left)) as (t & Ht & Hl).
  assert (H' : forall u, u ∈ tids -> exists t, rthreads (rob s) !! u = Some t /\ forall p, p ∈ instList t -> is_Some (heap s !! p))
    by (intros u Hu; apply H; by right).
  rewrite (nth_lookup _ _ _ Ht). cbn [rbind]. destruct (last (instList t)) as [p|] eqn:E; [|by apply IH].
  assert (Hp : is_Some (heap s !! p)) by (apply Hl; by apply last_Some_elem_of in E).
  destruct best as [b|]; cbn [rbind].
  - rewrite (seq_of_ok _ _ Hp), (seq_of_ok _ b) by auto. cbn [rbind]. apply IH; [done|]. intros x. case_ifs; intros [= <-]; auto.
  - apply IH; [done|]. by intros x [= <-].
Qed.

Lemma upd_thread_ok s tid t f : rthreads (rob s) !! tid = Some t ->
  upd_thread s tid f = Ok (set_rob s (set_rthreads (rob s) (<[tid := f t]> (rthreads (rob s))))).
Proof.
  intros Ht. unfold upd_thread. rewrite (nth_lookup _ _ _ Ht). cbn [rbind]. by rewrite upd_Ok by (by eapply lookup_lt_Some).
Qed.

Lemma thread_live s tid t p : rob_ok s -> rthreads (rob s) !! tid = Some t -> p ∈ instList t -> is_Some (heap s !! p).
Proof. intros H Ht Hp. destruct (to_inst _ _ _ (ro_thread _ H tid t Ht) p Hp) as (i & -> & _). done. Qed.

(** The tail can be recomputed in every state with the lists of a good one. *)
Lemma updateTail_ok s s' M : rob_ok s -> marks M (heap s) (heap s') -> map instList (rthreads (rob s')) = map instList (rthreads (rob s)) ->
  exists b, updateTail act s' = Ok (set_rob s' (set_tail (rob s') b)).
Proof.
  intros H Hm Hl. unfold updateTail. destruct (tail_loop_ok act s' None) as [b ->]; [|done|by exists b].
  assert (Hlen : length (rthreads (rob s')) = MaxThreads) by (rewrite <- (length_map instList), Hl, length_map; apply H).
  intros tid Ht. destruct (lookup_lt_is_Some_2 (rthreads (rob s')) tid) as [t' Ht']; [rewrite Hlen; auto|]. exists t'. split; [done|].
  assert (Hl' : map instList (rthreads (rob s')) !! tid = Some (instList t')) by (by rewrite list_lookup_fmap, Ht').
  rewrite Hl, list_lookup_fmap in Hl'. apply fmap_Some in Hl' as (t & Htt & Heq). rewrite Heq. intros p Hp.
  destruct (thread_live s tid t p H Htt Hp) as [i Hi]. destruct (marks_lookup _ _ _ _ _ Hm Hi) as (i' & -> & _). done.
Qed.

Definition todo (exiting : bool) : nat := Z.to_nat (if exiting then numEntries c else squashWidth c).

(** One call of [doSquash]: it marks the next instructions below the iterator. *)
Definition squash_step (exiting : bool) (tid : nat) (t : RobThread) (l1 : list positive) (p : positive) (s s' : RobState) : Prop :=
  exists t' ms rest, rthreads (rob s') = <[tid := t']> (rthreads (rob s)) /\ head_ (rob s') = head_ (rob s) /\
    numInstsInROB (rob s') = numInstsInROB (rob s) /\ removed s' = removed s /\ t' = set_done (squashIt t') (doneSquashing t') t /\
    marks ms (heap s) (heap s') /\ file_ok (heap s') (file s') /\ l1 ++ [p] = rest ++ ms /\
    (forall x, x ∈ ms -> squashedSeqNum t < seqn (heap s) x) /\
    if doneSquashing t' then squashIt t' = None /\ forall x, x ∈ rest -> seqn (heap s) x <= squashedSeqNum t
    else exists r x, rest = r ++ [x] /\ squashIt t' = Some x /\ length ms = todo exiting /\ squashedSeqNum t < seqn (heap s) x.

Lemma rest_old h l1 p l2 rest ms r x sn : StronglySorted (fun p p' => seqn h p < seqn h p') (l1 ++ p :: l2) ->
  l1 ++ [p] = rest ++ ms -> rest = r ++ [x] -> seqn h x <= sn -> forall y, y ∈ rest -> seqn h y <= sn.
Proof.
  intros Hs Hr -> Hx y [Hy| ->%list_elem_of_singleton]%elem_of_app; [|done].
  assert (Heq : l1 ++ p :: l2 = r ++ x :: (ms ++ l2)).
  { rewrite <- app_assoc in Hr. simpl in Hr. rewrite (app_comm_cons ms), app_assoc, <- Hr, <- app_assoc. done. }
  rewrite Heq in Hs. pose proof (sorted_before h r x _ y Hs Hy). lia.
Qed.

Lemma doSquash_ok exiting tid mem s t l1 p l2 : rob_ok s -> rthreads (rob s) !! tid = Some t -> instList t = l1 ++ p :: l2 ->
  squashIt t = Some p -> doneSquashing t = false -> exists s', doSquash c act exiting tid mem s = Ok s' /\ squash_step exiting tid t l1 p s s'.
Proof.
  intros H Ht Hl Hit Hdone. pose proof (ro_thread _ H tid t Ht) as Hth. pose proof (to_sorted _ _ _ Hth) as Hs. rewrite Hl in Hs.
  assert (Hlive : forall x, x ∈ instList t -> is_Some (heap s !! x)) by (intros x; by apply (thread_live s tid t)).
  assert (Hin : p ∈ instList t) by (rewrite Hl; set_solver). unfold doSquash, squash_step. rewrite (nth_lookup _ _ _ Ht). cbn [rbind].
  rewrite Hit. cbn [rbind]. rewrite bool_decide_eq_true_2 by eauto. cbn [assert_ rbind]. rewrite at_it_ok by done. cbn [rbind].
  rewrite seq_of_ok by auto. cbn [rbind]. destruct (Z.ltb_spec (seqn (heap s) p) (squashedSeqNum t)) as [Hlt|Hge].
  { rewrite (upd_thread_ok _ _ _ _ Ht). eexists. split; [done|]. exists (set_done None true t), [], (l1 ++ [p]). rewrite app_nil_r.
    split_and!; try done; [apply marks_refl|apply H|set_solver|].
    simpl. split; [done|]. apply (rest_old (heap s) l1 p l2 (l1 ++ [p]) [] l1 p); [done|by rewrite app_nil_r|done|lia]. }
  assert (Hmk : exists h0, (if mem then Ok s else updateViolationMarker tid (squashedSeqNum t) s) = Ok (set_heap s h0) /\ marks [] (heap s) h0 /\
    file_ok h0 (file s)).
  { destruct mem; [exists (heap s); split; [by destruct s|]; split; [apply marks_refl|apply H]|]. unfold updateViolationMarker.
    rewrite (nth_lookup _ _ _ Ht). cbn [rbind]. destruct (clear_markers_ok (squashedSeqNum t) (instList t) (heap s) Hlive) as (h0 & -> & Hm0 & Hb0).
    cbn [rbind]. exists h0. split; [done|]. split; [done|]. by eapply file_ok_same; [|apply H]. }
  destruct Hmk as (h0 & -> & Hm0 & Hf0). cbn [rbind heap set_heap file rob removed].
  destruct (mark_loop_ok (todo exiting) (instList t) (squashedSeqNum t) mem (sorted_NoDup _ _ (to_sorted _ _ _ Hth)) l1 p l2 false h0 (file s) Hl)
    as (it & tu & ret & h & f & rest & ms & E & Hrest & Hms & Hf & Hy & Hlen & Hret);
    [intros x Hx; destruct (Hlive x Hx) as [i Hi]; by destruct (marks_lookup _ _ _ _ _ Hm0 Hi) as (i' & -> & _)|done|].
  unfold todo in E. rewrite E. cbn [rbind].
  assert (Hm : marks ms (heap s) h) by (rewrite <- (app_nil_r ms); by eapply marks_trans).
  assert (Hseq : forall x, seqn h0 x = seqn (heap s) x) by (intros x; by eapply marks_seqn).
  assert (Hy' : forall x, x ∈ ms -> squashedSeqNum t < seqn (heap s) x) by (intros x Hx; rewrite <- Hseq; auto).
  destruct ret.
  - destruct Hret as [-> ->]. rewrite (upd_thread_ok _ _ t) by done. eexists. split; [done|]. exists (set_done None true t), ms, [].
    split_and!; try done. set_solver.
  - destruct Hret as (r & x & Hr & -> & Hx). rewrite Hseq in Hx.
    assert (Hxl : x ∈ instList t).
    { rewrite Hl. assert (x ∈ l1 ++ [p]) by (rewrite Hrest, Hr; set_solver). set_solver. }
    rewrite at_it_ok by done. cbn [rbind heap]. destruct (Hlive x Hxl) as [i Hi]. destruct (marks_lookup _ _ _ _ _ Hm Hi) as (i' & Hi' & _).
    rewrite seq_of_ok by eauto. cbn [rbind]. rewrite (marks_seqn _ _ _ x Hm). rewrite (upd_thread_ok _ _ t) by done. cbn [rbind].
    set (t' := if _ <=? _ then _ else _). set (s1 := set_rob _ _).
    assert (Htail : exists s', (if tu then updateTail act s1 else Ok s1) = Ok s' /\ rthreads (rob s') = rthreads (rob s1) /\ head_ (rob s') = head_ (rob s1) /\
      numInstsInROB (rob s') = numInstsInROB (rob s1) /\ removed s' = removed s1 /\ heap s' = heap s1 /\ file s' = file s1).
    { destruct tu; [|by exists s1]. destruct (updateTail_ok s s1 ms H) as [b ->]; [done| |by eexists].
      simpl. rewrite list_fmap_insert. apply list_insert_id. rewrite list_lookup_fmap, Ht. unfold t'. by destruct (_ <=? _). }
    destruct Htail as (s' & -> & R1 & R2 & R3 & R4 & R5 & R6). exists s'. split; [done|]. exists (t' t), ms, rest. rewrite R1, R2, R3, R4, R5, R6.
    split_and!; try done; [unfold t'; by destruct (_ <=? _), t|]. unfold t'. destruct (Z.leb_spec (seqn (heap s) x) (squashedSeqNum t)) as [Hle|Hgt]; simpl.
    + split; [done|]. by eapply rest_old.
    + rewrite Hdone. exists r, x. split_and!; try done. destruct Hx as [Hx|Hx]; [done|lia].
Qed.

Lemma thread_ok_marks M tid t h h' : marks M h h' -> thread_ok tid t h -> thread_ok tid t h'.
Proof.
  intros Hm [C I S Q]. split; [done| |by eapply sorted_marks|done].
  intros p Hp. destruct (I p Hp) as (i & Hi & Hn & He). destruct (marks_lookup _ _ _ _ _ Hm Hi) as (i' & Hi' & (_ & Hn' & _ & _ & He' & _) & _).
  exists i'. split_and!; congruence.
Qed.

(** Replacing a thread by one with the same list. *)
Lemma same_sum (ts : list RobThread) tid t t' : ts !! tid = Some t -> instList t' = instList t ->
  map (fun t => length (instList t)) (<[tid := t']> ts) = map (fun t => length (instList t)) ts.
Proof. intros Ht Hl. rewrite list_fmap_insert. apply list_insert_id. by rewrite list_lookup_fmap, Ht, Hl. Qed.

Lemma rob_ok_thread M s s' tid t t' : rob_ok s -> rthreads (rob s) !! tid = Some t -> rthreads (rob s') = <[tid := t']> (rthreads (rob s)) ->
  head_ (rob s') = head_ (rob s) -> numInstsInROB (rob s') = numInstsInROB (rob s) -> instList t' = instList t ->
  marks M (heap s) (heap s') -> file_ok (heap s') (file s') -> thread_ok tid t' (heap s') -> rob_ok s'.
Proof.
  intros H Ht Hts Hh Hn Hl Hm Hf Hth. pose proof (lookup_lt_Some _ _ _ Ht) as Hlt.
  assert (Hback : forall u tu, rthreads (rob s') !! u = Some tu -> exists tu0, rthreads (rob s) !! u = Some tu0 /\ instList tu = instList tu0 /\
    (tu = tu0 \/ u = tid /\ tu = t')).
  { intros u tu. rewrite Hts. destruct (decide (u = tid)) as [->|Hne].
    - rewrite list_lookup_insert_eq by done. intros [= <-]. eauto 10.
    - rewrite list_lookup_insert_ne by done. eauto 10. }
  destruct H as [R1 R2 R3 R4 R5 R6 R7]. split.
  - by rewrite Hts, length_insert.
  - intros u tu Hu. destruct (Hback u tu Hu) as (tu0 & Hu0 & _ & [->|[-> ->]]); [|done]. eapply thread_ok_marks; eauto.
  - intros u tu Hu. destruct (Hback u tu Hu) as (tu0 & Hu0 & -> & _). eauto.
  - rewrite Hn, Hts. by rewrite (same_sum _ _ t).
  - congruence.
  - rewrite Hh. destruct (head_ (rob s)) as [p|]; [|congruence]. destruct R6 as (u & tu & Hu & Hp). exists u. rewrite Hts.
    destruct (decide (u = tid)) as [->|Hne].
    + rewrite list_lookup_insert_eq by done. exists t'. split; [done|]. rewrite Hl. congruence.
    + rewrite list_lookup_insert_ne by done. eauto.
  - done.
Qed.

Lemma squash_step_ok exiting tid t l1 p l2 s s' : rob_ok s -> rthreads (rob s) !! tid = Some t -> instList t = l1 ++ p :: l2 ->
  squash_step exiting tid t l1 p s s' -> rob_ok s'.
Proof.
  intros H Ht Hl (t' & ms & rest & Hts & Hh & Hn & _ & Ht' & Hm & Hf & Hrest & Hy & Hd).
  assert (Hlt' : instList t' = instList t /\ threadEntries t' = threadEntries t /\ squashedSeqNum t' = squashedSeqNum t) by (by rewrite Ht').
  destruct Hlt' as (Hlt' & Hct & Hsn). eapply rob_ok_thread; try done. destruct (thread_ok_marks _ _ _ _ _ Hm (ro_thread _ H tid t Ht)) as [C I S _].
  split; rewrite ?Hlt', ?Hct; try done. destruct (doneSquashing t'); [by destruct Hd|]. destruct Hd as (r & x & -> & Hit & _ & _).
  exists r, x, (ms ++ l2). split; [|done].
  rewrite Hl. rewrite <- app_assoc in Hrest. simpl in Hrest. rewrite (app_comm_cons ms), app_assoc, <- Hrest, <- app_assoc. done.
Qed.

(** The start of a squash. *)
Definition begun (num : Z) (t : RobThread) (p : positive) : RobThread :=
  mkRobThread ROBSquashing (threadEntries t) (maxEntries t) (instList t) (Some p) num false.

Lemma squash_begins exiting num tid mem s t l p : rob_ok s -> rthreads (rob s) !! tid = Some t -> instList t = l ++ [p] ->
  exists s1, squash c act exiting num tid mem s = doSquash c act exiting tid mem s1 /\ rob_ok s1 /\ heap s1 = heap s /\
    rthreads (rob s1) = <[tid := begun num t p]> (rthreads (rob s)) /\ numInstsInROB (rob s1) = numInstsInROB (rob s) /\ removed s1 = removed s.
Proof.
  intros H Ht Hl. pose proof (lookup_lt_Some _ _ _ Ht) as Hlt. unfold squash. rewrite (nth_lookup _ _ _ Ht). cbn [rbind].
  destruct (Z.eqb_spec (threadEntries t) 0) as [Hz|_].
  { rewrite (to_count _ _ _ (ro_thread _ H tid t Ht)), Hl, length_app in Hz. simpl in Hz. lia. }
  rewrite (upd_thread_ok _ _ _ _ Ht). cbn [rbind]. replace (last (instList t)) with (Some p) by (by rewrite Hl, last_snoc). set (s0 := set_rob s _).
  rewrite (upd_thread_ok s0 tid (mkRobThread ROBSquashing (threadEntries t) (maxEntries t) (instList t) (squashIt t) num false))
    by (unfold s0; simpl; by rewrite list_lookup_insert_eq). cbn [rbind]. set (s1 := set_rob s0 _). exists s1.
  assert (Hts : rthreads (rob s1) = <[tid := begun num t p]> (rthreads (rob s))) by (unfold s1, s0; simpl; by rewrite list_insert_insert_eq).
  split; [done|]. split; [|done]. eapply (rob_ok_thread [] s s1 tid t (begun num t p)); try done; [apply marks_refl|apply H|].
  destruct (ro_thread _ H tid t Ht) as [C I S _]. split; try done. simpl. by exists l, p, [].
Qed.

Lemma rob_squash_ok exiting num tid mem s : rob_ok s -> (tid < MaxThreads)%nat ->
  exists s', squash c act exiting num tid mem s = Ok s' /\ rob_ok s'.
Proof.
  intros H Hlt. destruct (lookup_lt_is_Some_2 (rthreads (rob s)) tid) as [t Ht]; [by rewrite (ro_len _ H)|].
  pose proof (to_count _ _ _ (ro_thread _ H tid t Ht)) as Hc. destruct (instList t) as [|p l _] eqn:Hl using rev_ind.
  { unfold squash. rewrite (nth_lookup _ _ _ Ht). cbn [rbind]. rewrite Hc. simpl. eauto. }
  destruct (squash_begins exiting num tid mem s t l p H Ht Hl) as (s1 & -> & H1 & _ & Hts & _).
  assert (Ht1 : rthreads (rob s1) !! tid = Some (begun num t p)) by (rewrite Hts; apply list_lookup_insert_eq; by eapply lookup_lt_Some).
  destruct (doSquash_ok exiting tid mem s1 (begun num t p) l p [] H1 Ht1 Hl eq_refl eq_refl) as (s' & -> & Hstep).
  exists s'. split; [done|]. eapply squash_step_ok; [exact H1|exact Ht1|exact Hl|exact Hstep].
Qed.

(** *** Insertion and retirement *)

Lemma sorted_frame (h h' : gmap positive RobInst) l : (forall x, x ∈ l -> seqn h' x = seqn h x) ->
  StronglySorted (fun p p' => seqn h p < seqn h p') l -> StronglySorted (fun p p' => seqn h' p < seqn h' p') l.
Proof.
  intros Heq. induction 1 as [|p l Hs IH HF]; constructor; [apply IH; set_solver|]. rewrite Forall_forall in HF |- *.
  intros x Hx. rewrite !Heq by set_solver. auto.
Qed.

Lemma thread_ok_frame tid t h h' : (forall x, x ∈ instList t -> h' !! x = h !! x) -> thread_ok tid t h -> thread_ok tid t h'.
Proof.
  intros Heq [C I S Q]. assert (Hsq : forall x, x ∈ instList t -> seqn h' x = seqn h x) by (intros x Hx; unfold seqn; by rewrite Heq).
  split; [done| |by eapply sorted_frame|done]. intros p Hp. rewrite Heq by done. auto.
Qed.

Lemma sum_lookup (ts : list RobThread) tid t : ts !! tid = Some t ->
  (length (instList t) <= list_sum (map (fun t => length (instList t)) ts))%nat.
Proof. revert tid. induction ts as [|a ts IH]; intros [|tid] H; simpl in *; [done|done|injection H as ->; lia|]. specialize (IH tid H). lia. Qed.

Lemma sum_insert (ts : list RobThread) tid t t' : ts !! tid = Some t ->
  (list_sum (map (fun t => length (instList t)) (<[tid := t']> ts)) + length (instList t) =
   list_sum (map (fun t => length (instList t)) ts) + length (instList t'))%nat.
Proof.
  revert tid. induction ts as [|a ts IH]; intros [|tid] H; simpl in *; [done|done|injection H as ->; lia|]. specialize (IH tid H). lia.
Qed.

Lemma list_small s tid t : rob_ok s -> rthreads (rob s) !! tid = Some t -> Z.of_nat (length (instList t)) <= numInstsInROB (rob s) < 2 ^ 31.
Proof. intros H Ht. pose proof (sum_lookup _ _ _ Ht). pose proof (ro_sum _ H). pose proof (ro_cap _ H). lia. Qed.

(** Two threads never share an instruction. *)
Lemma other_thread s tid t u tu p : rob_ok s -> rthreads (rob s) !! tid = Some t -> rthreads (rob s) !! u = Some tu -> u <> tid ->
  forall i, heap s !! p = Some i -> threadNumber (base i) = tid -> p ∉ instList tu.
Proof.
  intros H Ht Hu Hne i Hi Hn Hp. destruct (to_inst _ _ _ (ro_thread _ H u tu Hu) p Hp) as (i' & Hi' & Hn' & _). congruence.
Qed.

Lemma insert_thread t h p i : thread_ok (threadNumber (base i)) t h -> h !! p = Some i ->
  (forall x, x ∈ instList t -> seqn h x < dyn_seqNum (base i)) ->
  thread_ok (threadNumber (base i)) (set_list (threadEntries t + 1) (instList t ++ [p]) t) (<[p := setInROB i]> h).
Proof.
  intros [C I S Q] Hi Hy. assert (Hnew : forall x, seqn (<[p := setInROB i]> h) x = seqn h x).
  { intros x. unfold seqn. destruct (decide (x = p)) as [->|]; [by rewrite lookup_insert_eq, Hi|by rewrite lookup_insert_ne]. }
  split; simpl.
  - rewrite length_app. simpl. lia.
  - intros x [Hx| ->%list_elem_of_singleton]%elem_of_app; [|rewrite lookup_insert_eq; eauto].
    destruct (I x Hx) as (j & Hj & ? & ?). destruct (decide (x = p)) as [->|]; [|rewrite lookup_insert_ne by done; eauto].
    specialize (Hy p Hx). unfold seqn in Hy. rewrite Hi in Hy. lia.
  - apply (sorted_frame h); [done|]. apply StronglySorted_app. split_and!; [|done|by repeat constructor].
    intros x y Hx ->%list_elem_of_singleton. unfold seqn at 2. rewrite Hi. auto.
  - destruct (doneSquashing t); [done|]. destruct Q as (l1 & x & l2 & -> & Hit). exists l1, x, (l2 ++ [p]). by rewrite <- app_assoc.
Qed.

Lemma insertInst_ok s p i t : rob_ok s -> heap s !! p = Some i -> threadNumber (base i) ∈ act ->
  rthreads (rob s) !! threadNumber (base i) = Some t -> numInstsInROB (rob s) < numEntries c ->
  (forall x, x ∈ instList t -> seqn (heap s) x < dyn_seqNum (base i)) ->
  exists s', insertInst c p s = Ok s' /\ rob_ok s' /\ removed s' = removed s /\
    rthreads (rob s') = <[threadNumber (base i) := set_list (threadEntries t + 1) (instList t ++ [p]) t]> (rthreads (rob s)) /\
    heap s' = <[p := setInROB i]> (heap s).
Proof.
  intros H Hi Ha Ht Hroom Hy. set (tid := threadNumber (base i)) in *. pose proof (lookup_lt_Some _ _ _ Ht) as Hlt.
  pose proof (list_small s tid t H Ht) as Hsm. pose proof (ro_thread _ H tid t Ht) as Hth. pose proof (to_count _ _ _ Hth) as Hct.
  unfold insertInst. rewrite Hi. cbn [rbind deref]. rewrite wrap_small by (unfold in_u; lia). destruct (Z.eqb_spec (numInstsInROB (rob s)) (numEntries c)); [lia|].
  cbn [negb assert_ rbind]. fold tid. rewrite (nth_lookup _ _ _ Ht). cbn [rbind].
  assert (Hfirst : (numInstsInROB (rob s) =? 0) = true -> instList t = []).
  { intros Hz%Z.eqb_eq. destruct (instList t); [done|simpl in Hsm; lia]. }
  rewrite (bool_decide_eq_true_2 (last _ = _)) by apply last_snoc.
  replace (negb _ || _) with true by (destruct (_ =? 0); [rewrite Hfirst by done; simpl; by rewrite bool_decide_eq_true_2|done]).
  cbn [assert_ rbind]. rewrite upd_Ok by done. cbn [rbind]. unfold upd_rob_inst. cbn [heap set_rob]. rewrite Hi. cbn [rbind deref].
  rewrite (wrap_small 32) by (unfold in_u; lia). eexists. split; [done|]. split; [|done].
  split; simpl.
  - rewrite length_insert. apply H.
  - intros u tu Hu. destruct (decide (u = tid)) as [->|Hne].
    + rewrite list_lookup_insert_eq in Hu by done. injection Hu as <-. by apply insert_thread.
    + rewrite list_lookup_insert_ne in Hu by done. apply (thread_ok_frame _ _ (heap s)); [|by apply H].
      intros x Hx. apply lookup_insert_ne. intros <-. by eapply (other_thread s tid t u tu).
  - intros u tu Hu. destruct (decide (u = tid)) as [->|Hne]; [done|]. rewrite list_lookup_insert_ne in Hu by done. by apply (ro_active _ H).
  - pose proof (sum_insert _ _ _ (set_list (threadEntries t + 1) (instList t ++ [p]) t) Ht) as Hsum. simpl in Hsum. rewrite length_app in Hsum.
    rewrite (ro_sum _ H). simpl in Hsum. lia.
  - lia.
  - pose proof (ro_head _ H) as Hh. destruct (Z.eqb_spec (numInstsInROB (rob s)) 0) as [Hz|Hz].
    + rewrite Hfirst by done. exists tid. rewrite list_lookup_insert_eq by done. by eexists.
    + destruct (head_ (rob s)) as [x|]; [|done]. destruct Hh as (u & tu & Hu & Hx). exists u. destruct (decide (u = tid)) as [->|Hne].
      * rewrite list_lookup_insert_eq by done. eexists. split; [done|]. simpl. rewrite Ht in Hu. injection Hu as <-. by destruct (instList t).
      * rewrite list_lookup_insert_ne by done. eauto.
  - intros x j Hx. destruct (decide (x = p)) as [->|]; [rewrite lookup_insert_eq in Hx; injection Hx as <-; exact (ro_file _ H p i Hi)|].
    rewrite lookup_insert_ne in Hx by done. by apply (ro_file _ H x).
Qed.

(** [updateHead] finds the oldest of the heads. *)
Lemma head_loop_ok tids s : forall best, (forall tid, tid ∈ tids -> exists t, rthreads (rob s) !! tid = Some t /\
    forall p, p ∈ instList t -> is_Some (heap s !! p)) -> (forall p n, best = Some (p, n) -> n = seqn (heap s) p) ->
  exists b, head_loop tids s best = Ok b /\
    match b with
    | None => best = None /\ forall tid t, tid ∈ tids -> rthreads (rob s) !! tid = Some t -> instList t = []
    | Some (p, n) => n = seqn (heap s) p /\ (forall p0 n0, best = Some (p0, n0) -> n <= n0) /\
        (forall tid t x, tid ∈ tids -> rthreads (rob s) !! tid = Some t -> head (instList t) = Some x -> n <= seqn (heap s) x) /\
        (best = Some (p, n) \/ exists tid t, tid ∈ tids /\ rthreads (rob s) !! tid = Some t /\ head (instList t) = Some p)
    end.
Proof.
  induction tids as [|tid tids IH]; intros best H Hb; simpl.
  { exists best. split; [done|]. destruct best as [[p n]|]; cbn beta iota.
    - split_and!; [by eapply Hb|intros p0 n0 [= <- <-]; lia|by intros ? ? ? ?%not_elem_of_nil|by left].
    - split; [done|]. by intros ? ? ?%not_elem_of_nil. }
  destruct (H tid ltac:(by left)) as (t & Ht & Hl).
  assert (H' : forall u, u ∈ tids -> exists t, rthreads (rob s) !! u = Some t /\ forall p, p ∈ instList t -> is_Some (heap s !! p))
    by (intros u Hu; apply H; by right).
  rewrite (nth_lookup _ _ _ Ht). cbn [rbind]. destruct (instList t) as [|p l] eqn:El.
  - destruct (IH best H' Hb) as (b & -> & Hres). exists b. split; [done|]. destruct b as [[x n]|]; cbn beta iota in Hres |- *.
    + destruct Hres as (? & ? & Hmin & Hw). split_and!; try done; [|destruct Hw as [?|(u & tu & ? & ? & ?)]; [by left|right; exists u, tu; set_solver]].
      intros u tu y [->|Hu]%elem_of_cons Htu Hy; [|eauto]. rewrite Ht in Htu. injection Htu as <-. by rewrite El in Hy.
    + destruct Hres as [? Hall]. split; [done|]. intros u tu [->|Hu]%elem_of_cons Htu; [congruence|eauto].
  - rewrite seq_of_ok by (apply Hl; by left). cbn [rbind]. set (best' := match best with None => _ | Some _ => _ end).
    assert (Hbest : exists q m, best' = Some (q, m) /\ m = seqn (heap s) q /\ m <= seqn (heap s) p /\ (forall p0 n0, best = Some (p0, n0) -> m <= n0) /\
      (best = Some (q, m) \/ q = p)).
    { unfold best'. destruct best as [[p0 n0]|]; [|exists p, (seqn (heap s) p); split_and!; done || by right].
      destruct (Z.ltb_spec (seqn (heap s) p) n0).
      - exists p, (seqn (heap s) p). split_and!; done || (intros ? ? [= <- <-]; lia) || by right.
      - exists p0, n0. split_and!; (by eapply Hb) || done || (intros ? ? [= <- <-]; lia) || by left. }
    destruct Hbest as (q & m & Eb & Hm & Hmp & Hmb & Hq). rewrite Eb. destruct (IH (Some (q, m)) H') as (b & -> & Hres); [by intros ? ? [= <- <-]|].
    exists b. split; [done|]. destruct b as [[x n]|]; [|by destruct Hres]. cbn beta iota in Hres |- *. destruct Hres as (Hn & Hle & Hmin & Hw). specialize (Hle q m eq_refl).
    split_and!; try done.
    + intros p0 n0 E0. specialize (Hmb p0 n0 E0). lia.
    + intros u tu y [->|Hu]%elem_of_cons Htu Hy; [|eauto]. rewrite Ht in Htu. injection Htu as <-. rewrite El in Hy. injection Hy as <-. lia.
    + destruct Hw as [[= -> ->]|(u & tu & ? & ? & ?)]; [|right; exists u, tu; set_solver]. destruct Hq as [?| ->]; [by left|]. right.
      exists tid, t. rewrite El. split_and!; [by left|done|done].
Qed.

Lemma retireHead_ok s tid t p l i : rob_ok s -> rthreads (rob s) !! tid = Some t -> instList t = p :: l -> heap s !! p = Some i ->
  CanCommit i = true -> doneSquashing t = true ->
  exists s', retireHead act tid s = Ok s' /\ rob_ok s' /\ removed s' = removed s ++ [p] /\
    rthreads (rob s') = <[tid := set_list (threadEntries t - 1) l t]> (rthreads (rob s)) /\
    forall x, head_ (rob s') = Some x -> forall u tu y, rthreads (rob s') !! u = Some tu -> y ∈ instList tu -> seqn (heap s') x <= seqn (heap s') y.
Proof.
  intros H Ht Hl Hi Hcc Hd. pose proof (lookup_lt_Some _ _ _ Ht) as Hlt. pose proof (list_small s tid t H Ht) as Hsm.
  pose proof (ro_thread _ H tid t Ht) as [C I S Q]. rewrite Hl in Hsm, C, S. simpl in Hsm, C.
  unfold retireHead. destruct (Z.ltb_spec 0 (numInstsInROB (rob s))); [|lia]. cbn [assert_ rbind]. rewrite (nth_lookup _ _ _ Ht). cbn [rbind].
  rewrite Hl, Hi. cbn [rbind deref]. unfold readyToCommit. rewrite Hcc. cbn [assert_ rbind]. rewrite upd_Ok by done. cbn [rbind].
  rewrite wrap_small by (unfold in_u; lia). unfold upd_rob_inst. cbn [heap set_rob]. rewrite Hi. cbn [rbind deref].
  set (t' := set_list _ l t). set (h' := <[p := _]> (heap s)). set (ts' := <[tid := t']> (rthreads (rob s))). set (s1 := set_heap _ h').
  assert (Hrest : forall u tu, ts' !! u = Some tu -> exists tu0, rthreads (rob s) !! u = Some tu0 /\ (forall x, x ∈ instList tu -> x ∈ instList tu0) /\
    forall x, x ∈ instList tu -> h' !! x = heap s !! x).
  { intros u tu Hu. destruct (decide (u = tid)) as [->|Hne].
    - unfold ts' in Hu. rewrite list_lookup_insert_eq in Hu by done. injection Hu as <-. exists t. split_and!; [done|simpl; rewrite Hl; set_solver|].
      intros x Hx. simpl in Hx. apply lookup_insert_ne. intros <-. apply (sorted_NoDup (heap s)) in S. by apply NoDup_cons in S as [? _].
    - unfold ts' in Hu. rewrite list_lookup_insert_ne in Hu by done. exists tu. split_and!; try done. intros x Hx. apply lookup_insert_ne.
      intros <-. destruct (I p) as (j & Hj & Hn & _); [rewrite Hl; by left|]. rewrite Hi in Hj. injection Hj as <-.
      by eapply (other_thread s tid t u tu). }
  assert (Hthr : forall u tu, ts' !! u = Some tu -> thread_ok u tu h').
  { intros u tu Hu. destruct (Hrest u tu Hu) as (tu0 & Hu0 & _ & Heq). destruct (decide (u = tid)) as [->|Hne].
    - unfold ts' in Hu. rewrite list_lookup_insert_eq in Hu by done. injection Hu as <-. apply (thread_ok_frame _ _ (heap s)); [done|].
      apply StronglySorted_inv in S as [S _]. split; simpl; [lia|intros x Hx; apply I; rewrite Hl; by right|done|by rewrite Hd in Q |- *].
    - unfold ts' in Hu. rewrite list_lookup_insert_ne in Hu by done. apply (thread_ok_frame _ _ (heap s)); [done|]. by apply H. }
  unfold updateHead. destruct (head_loop_ok act s1 None) as (b & -> & Hb).
  { intros u Hu. destruct (lookup_lt_is_Some_2 ts' u) as [tu Htu]; [unfold ts'; rewrite length_insert, (ro_len _ H); auto|]. exists tu.
    split; [done|]. intros x Hx. destruct (to_inst _ _ _ (Hthr u tu Htu) x Hx) as (j & Hj & _). simpl. eauto. }
  { done. }
  cbn [rbind]. pose proof (sum_insert _ _ _ t' Ht) as Hsum. rewrite Hl in Hsum. simpl in Hsum. fold ts' in Hsum.
  assert (Hall : forall u tu, ts' !! u = Some tu -> instList tu <> [] -> u ∈ act).
  { intros u tu Hu Hne. destruct (Hrest u tu Hu) as (tu0 & Hu0 & Hsub & _). apply (ro_active _ H u tu0 Hu0). intros E.
    destruct (instList tu) as [|x ?]; [done|]. specialize (Hsub x ltac:(by left)). rewrite E in Hsub. by apply not_elem_of_nil in Hsub. }
  eexists. split; [done|]. split; [|split; [done|split; [done|]]].
  - split; simpl; fold ts'; try done.
    + unfold ts'. rewrite length_insert. apply H.
    + rewrite (ro_sum _ H). lia.
    + pose proof (ro_cap _ H). lia.
    + destruct b as [[x n]|]; simpl.
      * destruct Hb as (_ & _ & _ & [?|(u & tu & _ & ? & ?)]); [done|]. eauto.
      * destruct Hb as [_ Hb]. rewrite (ro_sum _ H). assert (Hz : list_sum (map (fun t => length (instList t)) ts') = 0%nat); [|lia].
        assert (Hemp : Forall (fun t => length (instList t) = 0%nat) ts').
        { apply Forall_lookup. intros u tu Hu. destruct (instList tu) as [|y ?] eqn:E; [done|]. specialize (Hb u tu). rewrite Hb in E; [done| |done].
          apply (Hall u tu Hu). by rewrite E. }
        clear -Hemp. induction Hemp as [|a ts E _ IH]; simpl; [done|]. by rewrite E.
    + intros x j Hx. unfold h' in Hx. destruct (decide (x = p)) as [->|]; [|rewrite lookup_insert_ne in Hx by done; by apply (ro_file _ H x)].
      rewrite lookup_insert_eq in Hx. injection Hx as <-. exact (ro_file _ H p i Hi).
  - simpl. fold ts'. intros x Hx u tu y Hu Hy. destruct b as [[x' n]|]; [|done]. simpl in Hx. injection Hx as ->. destruct Hb as (-> & _ & Hmin & _).
    pose proof (Hthr u tu Hu) as [_ _ Su _]. assert (Hne : instList tu <> []) by (intros E; rewrite E in Hy; by apply not_elem_of_nil in Hy).
    specialize (Hmin u tu). simpl in Hmin. destruct (instList tu) as [|z lz] eqn:E; [done|]. specialize (Hmin z (Hall u tu Hu ltac:(by rewrite E)) Hu).
    specialize (Hmin eq_refl). apply elem_of_cons in Hy as [->|Hy]; [done|]. apply StronglySorted_inv in Su as [_ Su].
    rewrite Forall_forall in Su. specialize (Su y Hy). lia.
Qed.

(** *** Complete squashes *)

Definition young (h : gmap positive RobInst) (sn : Z) (l : list positive) : list positive := filter (fun x => sn < seqn h x) l.

(** What [tick] of commit does for a squashing thread, cycle after cycle. *)
Fixpoint squash_cycles (n : nat) (exiting : bool) (tid : nat) (mem : bool) (s : RobState) : res RobState :=
  let! d := isDoneSquashing s tid in
  if (d : bool) then Ok s
  else match n with
       | O => Err OutOfFuel
       | S n => let! s := doSquash c act exiting tid mem s in squash_cycles n exiting tid mem s
       end.

Lemma marks_ext M M' h h' : (forall x, x ∈ M <-> x ∈ M') -> marks M h h' -> marks M' h h'.
Proof.
  intros HM H p. specialize (H p). destruct (h !! p), (h' !! p); simpl in *; try done. destruct H as (? & H1 & H2).
  split; [done|]. rewrite <- HM. done.
Qed.

Lemma young_marks M h h' sn l : marks M h h' -> young h' sn l = young h sn l.
Proof. intros Hm. apply list_filter_iff. intros x. by rewrite (marks_seqn _ _ _ x Hm). Qed.

Lemma young_all h sn l : (forall x, x ∈ l -> sn < seqn h x) -> young h sn l = l.
Proof. intros H. induction l as [|x l IH]; [done|]. unfold young. rewrite filter_cons_True by (apply H; by left). f_equal. apply IH. set_solver. Qed.

Lemma young_none h sn l : (forall x, x ∈ l -> seqn h x <= sn) -> young h sn l = [].
Proof.
  intros H. induction l as [|x l IH]; [done|]. unfold young. rewrite filter_cons_False; [apply IH; set_solver|]. specialize (H x ltac:(by left)). lia.
Qed.

(** A state in which the lists are those of [s]. *)
Definition same_lists (s s' : RobState) : Prop := map instList (rthreads (rob s')) = map instList (rthreads (rob s)).

Lemma step_lists exiting tid t l1 p s s' : rthreads (rob s) !! tid = Some t -> squash_step exiting tid t l1 p s s' -> same_lists s s'.
Proof.
  intros Ht (t' & ms & rest & Hts & _ & _ & _ & Ht' & _). unfold same_lists. rewrite Hts, list_fmap_insert. apply list_insert_id.
  by rewrite list_lookup_fmap, Ht, Ht'.
Qed.

Lemma squash_cycles_done n exiting tid mem s t : rthreads (rob s) !! tid = Some t -> doneSquashing t = true ->
  squash_cycles n exiting tid mem s = Ok s.
Proof. intros Ht Hd. destruct n; simpl; unfold isDoneSquashing; rewrite (nth_lookup _ _ _ Ht); cbn [rbind]; by rewrite Hd. Qed.

(** The calls that follow until a squash is done. *)
Lemma squash_cycles_ok n exiting tid mem : forall s s1 t l1 p l2, (0 < todo exiting)%nat -> rob_ok s -> rthreads (rob s) !! tid = Some t ->
  instList t = l1 ++ p :: l2 ->
  squash_step exiting tid t l1 p s s1 -> (length (young (heap s) (squashedSeqNum t) (l1 ++ [p])) <= S n * todo exiting)%nat ->
  exists s' t', squash_cycles n exiting tid mem s1 = Ok s' /\ rob_ok s' /\ same_lists s s' /\ rthreads (rob s') !! tid = Some t' /\
    doneSquashing t' = true /\ marks (young (heap s) (squashedSeqNum t) (l1 ++ [p])) (heap s) (heap s').
Proof.
  induction n as [|n IH]; intros s s1 t l1 p l2 Hw H Ht Hl Hstep Hcount;
    pose proof (squash_step_ok exiting tid t l1 p l2 s s1 H Ht Hl Hstep) as H1; pose proof (step_lists exiting tid t l1 p s s1 Ht Hstep) as Hsl;
    destruct Hstep as (t' & ms & rest & Hts & _ & _ & _ & Ht' & Hm & _ & Hrest & Hy & Hd);
    assert (Ht1 : rthreads (rob s1) !! tid = Some t') by (rewrite Hts; apply list_lookup_insert_eq; by eapply lookup_lt_Some);
    assert (Hyoung : young (heap s) (squashedSeqNum t) (l1 ++ [p]) = young (heap s) (squashedSeqNum t) rest ++ ms)
      by (rewrite Hrest; unfold young; rewrite filter_app; f_equal; by apply young_all);
    destruct (doneSquashing t') eqn:Hdt.
  1, 3: destruct Hd as [_ Hold]; rewrite (squash_cycles_done _ _ _ _ _ _ Ht1 Hdt); exists s1, t'; split_and!; try done;
    rewrite Hyoung, (young_none _ _ _ Hold); done.
  - destruct Hd as (r & x & -> & _ & Hlen & Hx). exfalso. rewrite Hyoung, length_app in Hcount.
    assert (x ∈ young (heap s) (squashedSeqNum t) (r ++ [x])) as Hin by (apply list_elem_of_filter; split; [done|set_solver]).
    destruct (young (heap s) (squashedSeqNum t) (r ++ [x])); [by apply not_elem_of_nil in Hin|simpl in Hcount; lia].
  - destruct Hd as (r & x & -> & Hit & Hlen & Hx). cbn [squash_cycles]. unfold isDoneSquashing. rewrite (nth_lookup _ _ _ Ht1). cbn [rbind]. rewrite Hdt.
    assert (Hsn : squashedSeqNum t' = squashedSeqNum t) by (by rewrite Ht').
    assert (Hl1 : instList t' = r ++ x :: (ms ++ l2)).
    { rewrite Ht'. simpl. rewrite Hl. rewrite <- app_assoc in Hrest. simpl in Hrest. rewrite (app_comm_cons ms), app_assoc, <- Hrest, <- app_assoc. done. }
    destruct (doSquash_ok exiting tid mem s1 t' r x (ms ++ l2) H1 Ht1 Hl1 Hit Hdt) as (s2 & -> & Hstep2). cbn [rbind].
    destruct (IH s1 s2 t' r x (ms ++ l2) Hw H1 Ht1 Hl1 Hstep2) as (s' & t2 & E & H' & Hsl' & Ht2 & Hd2 & Hm2).
    { rewrite Hsn, (young_marks _ _ _ _ _ Hm). rewrite Hyoung, length_app in Hcount. lia. }
    exists s', t2. split_and!; try done; [unfold same_lists in *; congruence|]. rewrite Hyoung. rewrite Hsn, (young_marks _ _ _ _ _ Hm) in Hm2.
    by eapply marks_trans.
Qed.

(** *** Runs *)

Inductive rob_op :=
| OInsert (p : positive)
| ORetire (tid : nat)
| OSquash (tid : nat) (num : Z) (mem exiting : bool)
| OStep (tid : nat) (mem exiting : bool).

Definition rob_exec (o : rob_op) (s : RobState) : res RobState :=
  match o with
  | OInsert p => insertInst c p s
  | ORetire tid => retireHead act tid s
  | OSquash tid num mem exiting => squash c act exiting num tid mem s
  | OStep tid mem exiting => doSquash c act exiting tid mem s
  end.

(** The calls of commit: it inserts instructions in program order while there is
    room, which the free entries reported to rename ensure, also into a thread that is
    being squashed; it retires heads that can commit, but not of a thread that is being
    squashed; and it steps a squash until it is done. *)
Definition rob_op_ok (o : rob_op) (s : RobState) : Prop :=
  match o with
  | OInsert p => exists i t, heap s !! p = Some i /\ threadNumber (base i) ∈ act /\ rthreads (rob s) !! threadNumber (base i) = Some t /\
      numInstsInROB (rob s) < numEntries c /\ forall x, x ∈ instList t -> seqn (heap s) x < dyn_seqNum (base i)
  | ORetire tid => exists t p l i, rthreads (rob s) !! tid = Some t /\ instList t = p :: l /\ heap s !! p = Some i /\ CanCommit i = true /\
      doneSquashing t = true
  | OSquash tid _ _ _ => (tid < MaxThreads)%nat
  | OStep tid _ _ => exists t, rthreads (rob s) !! tid = Some t /\ doneSquashing t = false
  end.

(** Meanwhile the other stages execute instructions and create new ones. *)
Record rob_outside (s s' : RobState) : Prop := {
  rou_rob : rob s' = rob s;
  rou_inst : forall tid t p i, rthreads (rob s) !! tid = Some t -> p ∈ instList t -> heap s !! p = Some i ->
    exists i', heap s' !! p = Some i' /\ same_rob i i';
  rou_file : file_ok (heap s') (file s')
}.

Inductive rob_reachable : RobState -> Prop :=
| rob_start status h f : file_ok h f -> rob_reachable (mkRS (ROB_new c status) h f [])
| rob_others s s' : rob_reachable s -> rob_outside s s' -> rob_reachable s'
| rob_call o s s' : rob_reachable s -> rob_op_ok o s -> rob_exec o s = Ok s' -> rob_reachable s'.

Lemma rob_new_ok status h f : file_ok h f -> rob_ok (mkRS (ROB_new c status) h f []).
Proof.
  intros Hf. assert (Hts : forall tid t, rthreads (ROB_new c status) !! tid = Some t ->
    instList t = [] /\ threadEntries t = 0 /\ doneSquashing t = true /\ squashIt t = None).
  { intros tid t Ht%list_elem_of_lookup_2%list_elem_of_In. apply in_map_iff in Ht as (t0 & <- & (k & <- & _)%in_map_iff). done. }
  split; try done.
  - intros tid t (Hl & Hc & Hd & Hs)%Hts. split; rewrite ?Hl; [by rewrite Hc|by intros p ?%not_elem_of_nil|constructor|by rewrite Hd].
  - intros tid t (Hl & _)%Hts Hne. done.
  - simpl. lia.
Qed.

Lemma rob_outside_ok s s' : rob_ok s -> rob_outside s s' -> rob_ok s'.
Proof.
  intros H [Hr Hi Hf]. destruct H as [R1 R2 R3 R4 R5 R6 R7]. split; rewrite ?Hr; try done. intros tid t Ht.
  destruct (R2 tid t Ht) as [C I S Q].
  assert (Hsq : forall x, x ∈ instList t -> seqn (heap s') x = seqn (heap s) x).
  { intros x Hx. destruct (I x Hx) as (i & Hix & _). destruct (Hi tid t x i Ht Hx Hix) as (i' & Hi' & Hs & _).
    unfold seqn. by rewrite Hi', Hix. }
  split; [done| |by eapply sorted_frame|done]. intros x Hx. destruct (I x Hx) as (i & Hix & Hn & He).
  destruct (Hi tid t x i Ht Hx Hix) as (i' & Hi' & (_ & Hn' & _ & _ & He' & _)). exists i'. split_and!; congruence.
Qed.

Lemma rob_exec_ok o s : rob_ok s -> rob_op_ok o s -> exists s', rob_exec o s = Ok s' /\ rob_ok s'.
Proof.
  intros H. destruct o as [p|tid|tid num mem exiting|tid mem exiting]; simpl.
  - intros (i & t & Hi & Ha & Ht & Hr & Hy). destruct (insertInst_ok s p i t) as (s' & ? & ? & _); eauto.
  - intros (t & p & l & i & Ht & Hl & Hi & Hc & Hd). destruct (retireHead_ok s tid t p l i) as (s' & ? & ? & _); eauto.
  - by apply rob_squash_ok.
  - intros (t & Ht & Hd). pose proof (to_squash _ _ _ (ro_thread _ H tid t Ht)) as Hq. rewrite Hd in Hq. destruct Hq as (l1 & p & l2 & Hl & Hit).
    destruct (doSquash_ok exiting tid mem s t l1 p l2 H Ht Hl Hit Hd) as (s' & E & Hstep). exists s'. split; [done|]. by eapply squash_step_ok.
Qed.

Lemma rob_reachable_ok s : rob_reachable s -> rob_ok s.
Proof.
  induction 1 as [status h f Hf|s s' _ IH Ho|o s s' _ IH Ho E]; [by apply rob_new_ok|by eapply rob_outside_ok|].
  destruct (rob_exec_ok o s IH Ho) as (s'' & E' & H). rewrite E in E'. by injection E' as <-.
Qed.

(** ** Theorems *)

(** C17: the reorder buffer is sound.  In every state it can reach through the calls
    of commit it holds at most [numEntries] instructions and counts them rightly, the
    list of each thread is in program order and holds only instructions of the thread
    that are marked as being in the buffer, the head is the front of a list unless
    the buffer is empty, and no further call fails.  The calls are those of
    [rob_op_ok]: an instruction is inserted when there is room and is younger than
    those of its thread in the buffer, during a squash as well; only a head that can
    commit is retired, and not while its thread is being squashed. *)
Theorem rob_sound s : rob_reachable s ->
  numInstsInROB (rob s) = Z.of_nat (list_sum (map (fun t => length (instList t)) (rthreads (rob s)))) /\
  numInstsInROB (rob s) <= numEntries c /\
  (forall tid t, rthreads (rob s) !! tid = Some t -> threadEntries t = Z.of_nat (length (instList t)) /\
     StronglySorted (fun p p' => seqn (heap s) p < seqn (heap s) p') (instList t) /\
     forall p, p ∈ instList t -> exists i, heap s !! p = Some i /\ threadNumber (base i) = tid /\ RobEntry i = true) /\
  match head_ (rob s) with
  | None => numInstsInROB (rob s) = 0
  | Some p => exists tid t, rthreads (rob s) !! tid = Some t /\ head (instList t) = Some p
  end /\
  forall o, rob_op_ok o s -> is_ok (rob_exec o s) = true.
Proof.
  intros H%rob_reachable_ok. split_and!; try apply H.
  - intros tid t Ht. destruct (ro_thread _ H tid t Ht) as [C I S _]. done.
  - intros o Ho. by destruct (rob_exec_ok o s H Ho) as (s' & -> & _).
Qed.

(** C18: a squash takes out exactly the younger instructions.  A squash back to
    [num], continued every cycle, is done after as many cycles as [squashWidth]
    allows; then the instructions of the thread that are younger than [num], and no
    others, have been marked as squashed and ready to leave, and all are still in
    their lists. *)
Theorem rob_squash_exact s tid t num mem n : rob_reachable s -> rthreads (rob s) !! tid = Some t ->
  Z.of_nat (length (young (heap s) num (instList t))) <= Z.of_nat (S n) * squashWidth c ->
  exists s1 s', squash c act false num tid mem s = Ok s1 /\ squash_cycles n false tid mem s1 = Ok s' /\
    isDoneSquashing s' tid = Ok true /\ map instList (rthreads (rob s')) = map instList (rthreads (rob s)) /\
    marks (young (heap s) num (instList t)) (heap s) (heap s').
Proof.
  intros H%rob_reachable_ok Ht Hn. pose proof (to_count _ _ _ (ro_thread _ H tid t Ht)) as Hc.
  destruct (instList t) as [|p l _] eqn:Hl using rev_ind.
  { exists s, s. unfold squash. rewrite (nth_lookup _ _ _ Ht). cbn [rbind]. rewrite Hc. simpl. split; [done|].
    pose proof (to_squash _ _ _ (ro_thread _ H tid t Ht)) as Hq. destruct (doneSquashing t) eqn:Hd.
    - rewrite (squash_cycles_done _ _ _ _ _ _ Ht Hd). unfold isDoneSquashing. rewrite (nth_lookup _ _ _ Ht). cbn [rbind]. rewrite Hd.
      split_and!; try done. apply marks_refl.
    - destruct Hq as (l1 & x & l2 & Hl' & _). rewrite Hl in Hl'. by destruct l1. }
  destruct (squash_begins false num tid mem s t l p H Ht Hl) as (s1 & -> & H1 & Hh1 & Hts & _).
  assert (Ht1 : rthreads (rob s1) !! tid = Some (begun num t p)) by (rewrite Hts; apply list_lookup_insert_eq; by eapply lookup_lt_Some).
  destruct (doSquash_ok false tid mem s1 (begun num t p) l p [] H1 Ht1 Hl eq_refl eq_refl) as (s2 & -> & Hstep).
  assert (Hw : Z.of_nat (todo false) = squashWidth c) by (unfold todo; lia).
  destruct (squash_cycles_ok n false tid mem s1 s2 (begun num t p) l p []) as (s' & t' & E & H' & Hsl & Ht' & Hd & Hm); try done.
  - lia.
  - rewrite Hh1. cbn [begun squashedSeqNum]. lia.
  - exists s2, s'. split_and!; try done.
    + unfold isDoneSquashing. rewrite (nth_lookup _ _ _ Ht'). cbn [rbind]. by rewrite Hd.
    + rewrite Hsl, Hts, list_fmap_insert. apply list_insert_id. by rewrite list_lookup_fmap, Ht.
    + rewrite Hh1 in Hm. cbn [begun squashedSeqNum] in Hm. done.
Qed.

(** An instruction inserted while a squash is under way is not reached by it. *)
Lemma squash_misses_inserted s tid t p i mem n : rob_ok s -> rthreads (rob s) !! tid = Some t -> doneSquashing t = false ->
  heap s !! p = Some i -> threadNumber (base i) = tid -> tid ∈ act -> numInstsInROB (rob s) < numEntries c ->
  (forall x, x ∈ instList t -> seqn (heap s) x < dyn_seqNum (base i)) ->
  Z.of_nat (length (instList t)) <= Z.of_nat n * squashWidth c ->
  exists s1 s' t' i', insertInst c p s = Ok s1 /\ squash_cycles n false tid mem s1 = Ok s' /\ isDoneSquashing s' tid = Ok true /\
    rthreads (rob s1) = <[tid := set_list (threadEntries t + 1) (instList t ++ [p]) t]> (rthreads (rob s)) /\
    rthreads (rob s') !! tid = Some t' /\ p ∈ instList t' /\ heap s' !! p = Some i' /\ same_rob (setInROB i) i' /\
    isSquashed (base i') = isSquashed (base i).
Proof.
  intros H Ht Hd Hi Hn Ha Hroom Hy Hlen. pose proof (lookup_lt_Some _ _ _ Ht) as Hlt.
  pose proof (to_squash _ _ _ (ro_thread _ H tid t Ht)) as Hq. rewrite Hd in Hq. destruct Hq as (l1 & x & l2 & Hl & Hit).
  destruct (insertInst_ok s p i t) as (s1 & E1 & H1 & _ & Hts & Hh); rewrite ?Hn; try done. rewrite Hn in Hts.
  set (t1 := set_list _ _ t) in *.
  assert (Ht1 : rthreads (rob s1) !! tid = Some t1) by (rewrite Hts; by apply list_lookup_insert_eq).
  assert (Hl1 : instList t1 = l1 ++ x :: (l2 ++ [p])) by (simpl; by rewrite Hl, <- app_assoc).
  destruct n as [|n]; [rewrite Hl, length_app in Hlen; simpl in Hlen; lia|].
  destruct (doSquash_ok false tid mem s1 t1 l1 x (l2 ++ [p]) H1 Ht1 Hl1 Hit Hd) as (s2 & E2 & Hstep).
  destruct (squash_cycles_ok n false tid mem s1 s2 t1 l1 x (l2 ++ [p])) as (s' & t' & E & H' & Hsl & Ht' & Hd' & Hm); try done.
  { unfold todo. lia. }
  { pose proof (length_filter (fun y => squashedSeqNum t1 < seqn (heap s1) y) (l1 ++ [x])) as Hle. unfold young, todo.
    rewrite Hl in Hlen. rewrite !length_app in *. simpl in *. nia. }
  assert (Hi1 : heap s1 !! p = Some (setInROB i)) by (rewrite Hh; apply lookup_insert_eq).
  destruct (marks_lookup _ _ _ _ _ Hm Hi1) as (i' & Hi' & Hs & _ & Hkeep).
  exists s1, s', t', i'. split_and!; try done.
  - cbn [squash_cycles]. unfold isDoneSquashing. rewrite (nth_lookup _ _ _ Ht1). cbn [rbind]. unfold t1 at 1. cbn [set_list doneSquashing].
    rewrite Hd, E2. done.
  - unfold isDoneSquashing. rewrite (nth_lookup _ _ _ Ht'). cbn [rbind]. by rewrite Hd'.
  - assert (instList t' = instList t1) as ->; [|simpl; set_solver].
    apply (f_equal (fun l => l !! tid)) in Hsl. rewrite !list_lookup_fmap, Ht', Ht1 in Hsl. by injection Hsl.
  - apply Hkeep. intros [_ Hin]%list_elem_of_filter. pose proof (sorted_NoDup _ _ (to_sorted _ _ _ (ro_thread _ H1 tid t1 Ht1))) as Hnd.
    rewrite Hl1, (app_assoc l1 [x] (l2 ++ [p]) : l1 ++ x :: l2 ++ [p] = (l1 ++ [x]) ++ l2 ++ [p]) in Hnd.
    apply NoDup_app in Hnd as (_ & Hnd & _). apply (Hnd p Hin). set_solver.
Qed.

(** A memory-order squash lets wrong-path instructions into the buffer.
    [getInsts] turns away instructions of a thread that is [ROBSquashing] but not of
    one that is [ROBSquashingDueToMemOrder].  Whenever the squash of such a thread is
    not done, and there is room, a live instruction that rename sends, younger than the
    squash, is inserted, and however many cycles the squash takes after that, when it
    is done the instruction is in the buffer and not squashed. *)
Theorem mem_order_squash_admits_wrong_path m tid t p i w n : rob_reachable (Commit.rs m) ->
  rthreads (rob (Commit.rs m)) !! tid = Some t -> doneSquashing t = false -> tid ∈ act ->
  heap (Commit.rs m) !! p = Some i -> threadNumber (base i) = tid -> isSquashed (base i) = false ->
  squashedSeqNum t < dyn_seqNum (base i) -> (forall x, x ∈ instList t -> seqn (heap (Commit.rs m)) x < dyn_seqNum (base i)) ->
  numInstsInROB (rob (Commit.rs m)) < numEntries c -> threadEntries t < maxEntries t ->
  (tid < length (Commit.changedROBNumEntries m))%nat -> (tid < length (Commit.youngestSeqNum m))%nat -> (0 < w)%nat ->
  Z.of_nat (length (instList t)) <= Z.of_nat n * squashWidth c ->
  (Commit.commitStatus m !! tid = Some Commit.ROBSquashing -> Commit.getInsts c w [p] m = Ok m) /\
  (Commit.commitStatus m !! tid = Some Commit.ROBSquashingDueToMemOrder ->
   exists m' s' t' i', Commit.getInsts c w [p] m = Ok m' /\ squash_cycles n false tid true (Commit.rs m') = Ok s' /\
     isDoneSquashing s' tid = Ok true /\ rthreads (rob s') !! tid = Some t' /\ p ∈ instList t' /\
     heap s' !! p = Some i' /\ squashedSeqNum t < dyn_seqNum (base i') /\ isSquashed (base i') = false).
Proof.
  intros H%rob_reachable_ok Ht Hd Ha Hi Hn Hs Hsn Hy Hroom Hmax Hlc Hly Hw Hlen. destruct w as [|w]; [lia|].
  unfold Commit.getInsts. cbn [take Commit.insert_loop]. rewrite Hi. cbn [rbind deref]. rewrite take_nil, Hn, Hs.
  split; intros Hst; rewrite (nth_lookup _ _ _ Hst); cbn [rbind negb andb].
  - by rewrite bool_decide_eq_true_2.
  - rewrite !bool_decide_eq_false_2 by done. cbn [negb andb]. rewrite upd_Ok by done. cbn [rbind].
    destruct (squash_misses_inserted _ tid t p i true n H Ht Hd Hi Hn Ha Hroom Hy Hlen)
      as (s1 & s' & t' & i' & -> & E & Hdone & Hts & Ht' & Hp & Hi' & (Hq & _) & Hsq). cbn [rbind].
    rewrite Hts, (nth_lookup _ tid (set_list (threadEntries t + 1) (instList t ++ [p]) t))
      by (apply list_lookup_insert_eq; by eapply lookup_lt_Some). cbn [rbind set_list threadEntries maxEntries].
    rewrite (proj2 (Z.leb_le _ _)) by lia. cbn [assert_ rbind]. rewrite upd_Ok by done. cbn [rbind Commit.insert_loop].
    eexists _, s', t', i'. cbn [Commit.rs]. split_and!; try done; [|congruence]. rewrite Hq. done.
Qed.

End invariant.

(** ** Two threads *)

Module RobExample.

Definition cfg : RobConfig := mkConfig Dynamic 8 1 2 0.
Definition act : list nat := [0; 1]%nat.
Definition inst (sn : Z) (tid : nat) : RobInst := mkRobInst (TwoThreads.add sn tid 0) true false false false.

(** Thread 0 owns 5, 6, 7 and 8, thread 1 owns 9 and 10. *)
Definition insts : gmap positive RobInst :=
  list_to_map [(5, inst 5 0); (6, inst 6 0); (7, inst 7 0); (8, inst 8 0); (9, inst 9 1); (10, inst 10 1)]%positive.
Definition start : RobState := mkRS (ROB_new cfg Running) insts ∅ [].

Fixpoint fill (ps : list positive) (s : RobState) : RobState :=
  match ps with
  | [] => s
  | p :: ps => match rob_exec cfg act (OInsert p) s with Ok s' => fill ps s' | Err _ => s end
  end.

Lemma act_ok tid : tid ∈ act -> (tid < MaxThreads)%nat.
Proof. unfold act, MaxThreads. set_unfold. lia. Qed.

Lemma fill_reachable_1 s p i t : rob_reachable cfg act s -> heap s !! p = Some i -> threadNumber (base i) ∈ act ->
  rthreads (rob s) !! threadNumber (base i) = Some t -> numInstsInROB (rob s) < 8 ->
  Forall (fun x => seqn (heap s) x < dyn_seqNum (base i)) (instList t) -> is_ok (rob_exec cfg act (OInsert p) s) = true ->
  rob_reachable cfg act (fill [p] s).
Proof.
  intros H Hi Ha Ht Hn Hy E. unfold fill. destruct (rob_exec cfg act (OInsert p) s) as [s'|] eqn:Es; [|done].
  eapply rob_call; [exact H| |exact Es]. exists i, t. rewrite Forall_forall in Hy. done.
Qed.

Definition filled : RobState := fill [7%positive] (fill [6%positive] (fill [5%positive] start)).

Lemma filled_reachable : rob_reachable cfg act filled.
Proof.
  assert (H : rob_reachable cfg act start).
  { apply rob_start. intros p i Hi. apply elem_of_list_to_map_2 in Hi. simpl in Hi.
    repeat (apply elem_of_cons in Hi as [[= -> ->]|Hi]; [constructor|]). by apply not_elem_of_nil in Hi. }
  unfold filled. do 3 (eapply fill_reachable_1;
    [|vm_compute; reflexivity|vm_compute; by repeat constructor|vm_compute; reflexivity|vm_compute; reflexivity
     |vm_compute; by repeat constructor|vm_compute; reflexivity]).
  exact H.
Qed.

(** A memory-order squash back to 5 has begun and marked 7. *)
Definition squashing : RobState :=
  match rob_exec cfg act (OSquash 0 5 true false) filled with Ok s => s | Err _ => filled end.

Lemma squashing_reachable : rob_reachable cfg act squashing.
Proof.
  unfold squashing. destruct (rob_exec cfg act (OSquash 0 5 true false) filled) as [s|] eqn:E; [|exact filled_reachable].
  eapply rob_call; [exact filled_reachable| |exact E]. unfold rob_op_ok, MaxThreads. lia.
Qed.

Definition commit_of (s : RobState) : Commit.t :=
  Commit.mkCommit s [Commit.Running; Commit.Running] [false; false] [7; 10] [false; false] [false; false] false.

(** A cycle in which IEW reports [q] for thread 0 and [q'] for thread 1, while
    instruction 8 arrives from rename. *)
Definition cycle (q q' : Commit.IewSquash) : res Commit.t :=
  let! m := Commit.iew_squashes cfg act (fun _ => false) [q; q'] (commit_of (fill [5; 6; 7; 9; 10]%positive start)) in
  Commit.getInsts cfg 4 [8%positive] m.
Definition quiet : Commit.IewSquash := Commit.mkIewSquash false false 0 false.

End RobExample.

Lemma rob_sound_witness : numInstsInROB (rob RobExample.filled) = 3 /\
  numInstsInROB (rob RobExample.filled) <= numEntries RobExample.cfg.
Proof.
  split; [vm_compute; reflexivity|]. apply (rob_sound RobExample.cfg RobExample.act);
    [exact RobExample.act_ok|simpl; lia|simpl; lia|exact RobExample.filled_reachable].
Defined.

Lemma rob_squash_exact_witness : exists s1 s', squash RobExample.cfg RobExample.act false 5 0 true RobExample.filled = Ok s1 /\
  squash_cycles RobExample.cfg RobExample.act 1 false 0 true s1 = Ok s' /\ isDoneSquashing s' 0 = Ok true /\
  marks [6; 7]%positive (heap RobExample.filled) (heap s').
Proof.
  destruct (lookup_lt_is_Some_2 (rthreads (rob RobExample.filled)) 0) as [t Ht]; [vm_compute; lia|].
  assert (Hl : instList t = [5; 6; 7]%positive) by (vm_compute in Ht; injection Ht as <-; reflexivity).
  destruct (rob_squash_exact RobExample.cfg RobExample.act) with (s := RobExample.filled) (tid := 0%nat) (t := t) (num := 5) (mem := true) (n := 1%nat)
    as (s1 & s' & H1 & H2 & H3 & _ & Hm).
  - exact RobExample.act_ok.
  - simpl. lia.
  - simpl. lia.
  - exact RobExample.filled_reachable.
  - exact Ht.
  - rewrite Hl. vm_compute. discriminate.
  - exists s1, s'. split; [exact H1|]. split; [exact H2|]. split; [exact H3|]. rewrite Hl in Hm. exact Hm.
Defined.

Lemma mem_order_squash_admits_wrong_path_witness :
  let m := Commit.mkCommit RobExample.squashing [Commit.ROBSquashingDueToMemOrder; Commit.Running] [false; false] [5; 10]
    [false; false] [true; false] true in
  exists m' s' t' i', Commit.getInsts RobExample.cfg 4 [8%positive] m = Ok m' /\
    squash_cycles RobExample.cfg RobExample.act 3 false 0 true (Commit.rs m') = Ok s' /\ isDoneSquashing s' 0 = Ok true /\
    rthreads (rob s') !! 0%nat = Some t' /\ 8%positive ∈ instList t' /\ heap s' !! 8%positive = Some i' /\
    5 < dyn_seqNum (base i') /\ isSquashed (base i') = false.
Proof.
  intros m. destruct (lookup_lt_is_Some_2 (rthreads (rob (Commit.rs m))) 0) as [t Ht]; [vm_compute; lia|].
  assert (Hl : instList t = [5; 6; 7]%positive /\ doneSquashing t = false /\ squashedSeqNum t = 5 /\ threadEntries t = 3 /\ maxEntries t = 8)
    by (vm_compute in Ht; injection Ht as <-; repeat split).
  destruct Hl as (Hl & Hd & Hs & He & Hm). rewrite <- Hs.
  apply (mem_order_squash_admits_wrong_path RobExample.cfg RobExample.act RobExample.act_ok ltac:(simpl; lia) ltac:(simpl; lia)
    m 0 t 8%positive (RobExample.inst 8 0) 4 3).
  - exact RobExample.squashing_reachable.
  - exact Ht.
  - exact Hd.
  - left.
  - vm_compute. reflexivity.
  - reflexivity.
  - reflexivity.
  - rewrite Hs. vm_compute. reflexivity.
  - rewrite Hl. apply Forall_forall. repeat (constructor; [vm_compute; reflexivity|]). constructor.
  - vm_compute. reflexivity.
  - lia.
  - simpl. lia.
  - simpl. lia.
  - lia.
  - rewrite Hl. simpl. lia.
  - reflexivity.
Defined.

(** ** Errors *)

(** An order violation of one thread changes the squash of another.  The variable
    [squashedDueToMemOrder] of [commit] is not reset for each thread, so a branch
    misprediction of thread 1 is handled as a memory-order squash whenever thread 0
    has an order violation in the same cycle. *)
Theorem mem_order_flag_leaks_to_next_thread :
  let branch := Commit.mkIewSquash true true 9 false in
  (let! m := RobExample.cycle RobExample.quiet branch in Ok (Commit.commitStatus m)) = Ok [Commit.Running; Commit.ROBSquashing] /\
  (let! m := RobExample.cycle (Commit.mkIewSquash true false 5 false) branch in Ok (Commit.commitStatus m)) =
    Ok [Commit.ROBSquashingDueToMemOrder; Commit.ROBSquashingDueToMemOrder].
Proof. split; vm_compute; reflexivity. Qed.

(** The tail of the buffer can be a dangling iterator while the buffer is not
    empty.  When thread 0 retires the only instruction it has, which was the last one
    inserted, [tail] is left at the erased element although an instruction of thread 1
    is still in the buffer. *)
Theorem tail_dangles_with_two_threads :
  (let! s := retireHead RobExample.act 0 (RobExample.fill [9; 5]%positive RobExample.start) in
   Ok (tail_ (rob s), map instList (take 2 (rthreads (rob s))))) = Ok (Some 5%positive, [[]; [9%positive]]).
Proof. vm_compute. reflexivity. Qed.
