(* ===== verification/CircularQueue.v ===== *)
(** * CircularQueue: the queue of [base/circular_queue.hh]

    A vector of [_capacity] slots and two counters; an index grows for ever and
    names the slot it has modulo the capacity, so an iterator is an index.  Indices
    are unbounded integers here: a [size_t] does not overflow in a simulation.  The
    queue refines the list of the elements from the head to the tail. *)

From Stdlib Require Import ZArith Lia Bool.
From stdpp Require Import base tactics option list numbers.
From S2P Require Import Prelude.
Open Scope Z_scope.

(** ** Definitions *)

Record CircularQueue (T : Type) := mkCQ {
  cq_data : list T;
  cq_size : Z;
  cq_head : Z
}.
Arguments mkCQ {T} _ _ _.
Arguments cq_data {T} _.
Arguments cq_size {T} _.
Arguments cq_head {T} _.

Section Operations.
Context {T : Type}.
Implicit Types q : CircularQueue T.

Definition cq_new (v : T) (size : nat) : CircularQueue T := mkCQ (replicate size v) 0 1.

Definition cq_capacity q : Z := Z.of_nat (length (cq_data q)).

(** [operator[]]; the remainder by a capacity of 0 is undefined. *)
Definition cq_get q (index : Z) : res T :=
  check! (0 <=? index);
  if cq_capacity q =? 0 then Err Undefined else nth_ (cq_data q) (Z.to_nat (index mod cq_capacity q)).

(** Assignment to the element at an index. *)
Definition cq_set q (index : Z) (v : T) : res (CircularQueue T) :=
  check! (0 <=? index);
  if cq_capacity q =? 0 then Err Undefined else
  let! d := upd_ (cq_data q) (Z.to_nat (index mod cq_capacity q)) v in
  Ok (mkCQ d (cq_size q) (cq_head q)).

Definition cq_flush q : CircularQueue T := mkCQ (cq_data q) 0 1.

Definition isValidIdx q (idx : Z) : bool := (cq_head q <=? idx) && (idx <? cq_head q + cq_size q).

Definition cq_tail q : Z := cq_head q + cq_size q - 1.

Definition cq_front q : res T := cq_get q (cq_head q).

Definition cq_back q : res T := cq_get q (cq_tail q).

Definition cq_empty q : bool := cq_size q =? 0.

Definition cq_full q : bool := cq_size q =? cq_capacity q.

Definition cq_pop_front q (num_elem : Z) : res (CircularQueue T) :=
  check! (num_elem <=? cq_size q);
  Ok (mkCQ (cq_data q) (cq_size q - num_elem) (cq_head q + num_elem)).

Definition cq_pop_back q : res (CircularQueue T) :=
  check! (negb (cq_empty q));
  Ok (mkCQ (cq_data q) (cq_size q - 1) (cq_head q)).

Definition cq_advance_tail q : CircularQueue T :=
  if cq_full q then mkCQ (cq_data q) (cq_size q) (cq_head q + 1)
  else mkCQ (cq_data q) (cq_size q + 1) (cq_head q).

Definition cq_push_back q (val : T) : res (CircularQueue T) :=
  let q := cq_advance_tail q in cq_set q (cq_tail q) val.

(** [advance_tail(len)]. *)
Definition cq_advance_tail_by q (len : Z) : CircularQueue T :=
  let remaining := cq_capacity q - cq_size q in
  if remaining <? len then
    let overflow := len - remaining in
    mkCQ (cq_data q) (cq_size q + (len - overflow)) (cq_head q + overflow)
  else mkCQ (cq_data q) (cq_size q + len) (cq_head q).

(** Iterators. *)
Definition cq_begin q : Z := cq_head q.

Definition cq_end q : Z := cq_tail q + 1.

(** [operator--], which needs an element before. *)
Definition cq_dec q (it : Z) : res Z := check! (cq_head q <? it); Ok (it - 1).

(** ** The list a queue stands for *)

(** The element at a distance from the head. *)
Definition cq_nth q (k : nat) : option T := cq_data q !! Z.to_nat ((cq_head q + Z.of_nat k) mod cq_capacity q).

Definition cq_wf q : Prop := 0 < cq_capacity q /\ 0 <= cq_size q <= cq_capacity q /\ 1 <= cq_head q.

(** [q] holds [l], the head first, and the slots that are not in use have [P]. *)
Record cq_rep (P : T -> Prop) q (l : list T) : Prop := {
  cr_wf : cq_wf q;
  cr_size : cq_size q = Z.of_nat (length l);
  cr_used k : (k < length l)%nat -> cq_nth q k = l !! k;
  cr_free k : (length l <= k)%nat -> Z.of_nat k < cq_capacity q -> exists x, cq_nth q k = Some x /\ P x
}.

(** ** Slots *)

Lemma cq_slot_inj c h i j : 0 < c -> 0 <= i < c -> 0 <= j < c -> (h + i) mod c = (h + j) mod c -> i = j.
Proof.
  intros Hc Hi Hj H. assert (Hd : (i - j) mod c = 0).
  { replace (i - j) with (h + i - (h + j)) by lia. rewrite Zminus_mod, H, Z.sub_diag. apply Z.mod_0_l. lia. }
  apply Z.mod_divide in Hd as [k Hk]; [|lia]. assert (k = 0) by nia. lia.
Qed.

Lemma slot_bound q x : cq_wf q -> (Z.to_nat (x mod cq_capacity q) < length (cq_data q))%nat.
Proof. intros [Hc _]. pose proof (Z.mod_pos_bound x (cq_capacity q) Hc). unfold cq_capacity in *. lia. Qed.

Lemma cq_nth_Some q k : cq_wf q -> is_Some (cq_nth q k).
Proof. intros Hw. apply lookup_lt_is_Some_2. by apply slot_bound. Qed.

Lemma cq_get_nth q k x : cq_wf q -> cq_nth q k = Some x -> cq_get q (cq_head q + Z.of_nat k) = Ok x.
Proof.
  intros (Hc & _ & Hh) Hx. unfold cq_get. destruct (Z.leb_spec 0 (cq_head q + Z.of_nat k)); [|lia]. cbn [assert_ rbind].
  destruct (Z.eqb_spec (cq_capacity q) 0); [lia|]. by apply nth_lookup.
Qed.

Lemma cq_set_nth q k v : cq_wf q -> exists q', cq_set q (cq_head q + Z.of_nat k) v = Ok q' /\ cq_head q' = cq_head q /\
  cq_size q' = cq_size q /\ cq_capacity q' = cq_capacity q /\
  forall j, Z.of_nat k < cq_capacity q -> Z.of_nat j < cq_capacity q -> cq_nth q' j = if decide (j = k) then Some v else cq_nth q j.
Proof.
  intros Hw. pose proof Hw as (Hc & _ & Hh). unfold cq_set. destruct (Z.leb_spec 0 (cq_head q + Z.of_nat k)); [|lia]. cbn [assert_ rbind].
  destruct (Z.eqb_spec (cq_capacity q) 0); [lia|]. rewrite upd_Ok by by apply slot_bound. cbn [rbind]. eexists. split; [done|].
  assert (Hcap : cq_capacity (mkCQ (<[Z.to_nat ((cq_head q + Z.of_nat k) mod cq_capacity q) := v]> (cq_data q)) (cq_size q) (cq_head q)) = cq_capacity q).
  { unfold cq_capacity. cbn [cq_data]. by rewrite length_insert. }
  split; [done|]. split; [done|]. split; [done|]. intros j Hk Hj. unfold cq_nth. rewrite Hcap. cbn [cq_data cq_head]. case_decide as Hjk.
  - subst j. apply list_lookup_insert_eq. by apply slot_bound.
  - apply list_lookup_insert_ne. pose proof (Z.mod_pos_bound (cq_head q + Z.of_nat k) _ Hc). pose proof (Z.mod_pos_bound (cq_head q + Z.of_nat j) _ Hc).
    intros Heq. apply Z2Nat.inj in Heq; [|lia..]. apply cq_slot_inj in Heq; lia.
Qed.

Lemma cq_nth_shift d s h n k : cq_nth (mkCQ d s (h + Z.of_nat n)) k = cq_nth (mkCQ d s h) (n + k).
Proof. unfold cq_nth, cq_capacity. cbn [cq_data cq_head]. by rewrite Nat2Z.inj_add, Z.add_assoc. Qed.

Lemma cq_nth_wrap q k : cq_wf q -> cq_nth q (k + length (cq_data q)) = cq_nth q k.
Proof.
  intros [Hc _]. unfold cq_nth. f_equal. f_equal. rewrite Nat2Z.inj_add, Z.add_assoc. fold (cq_capacity q).
  rewrite <- (Z.mul_1_l (cq_capacity q)) at 1. apply Z_mod_plus_full.
Qed.

(** ** The operations on the list *)

Section Refinement.
Context (P : T -> Prop).

Lemma cq_rep_new v n : (0 < n)%nat -> P v -> cq_rep P (cq_new v n) [].
Proof.
  intros Hn Hv. assert (Hcap : cq_capacity (cq_new v n) = Z.of_nat n) by (unfold cq_capacity, cq_new; cbn; by rewrite length_replicate).
  split; [unfold cq_wf; rewrite Hcap; cbn; lia|done|cbn; lia|]. intros k _ Hk. exists v. split; [|done].
  unfold cq_nth. apply lookup_replicate_2. rewrite Hcap. pose proof (Z.mod_pos_bound (cq_head (cq_new v n) + Z.of_nat k) (Z.of_nat n) ltac:(lia)). lia.
Qed.

Lemma cq_rep_get q l k x : cq_rep P q l -> l !! k = Some x -> cq_get q (cq_head q + Z.of_nat k) = Ok x.
Proof. intros [Hw _ Hu _] Hx. apply cq_get_nth; [done|]. rewrite Hu; [done|]. by apply lookup_lt_Some in Hx. Qed.

Lemma cq_rep_set q l k v : cq_rep P q l -> (k < length l)%nat ->
  exists q', cq_set q (cq_head q + Z.of_nat k) v = Ok q' /\ cq_rep P q' (<[k := v]> l) /\ cq_head q' = cq_head q /\ cq_capacity q' = cq_capacity q.
Proof.
  intros [Hw Hs Hu Hf] Hk. destruct (cq_set_nth q k v Hw) as (q' & -> & Hh & Hsz & Hc & Hn). exists q'. split; [done|].
  pose proof Hw as (Hw1 & Hw2 & Hw3). split; [|done]. split.
  - unfold cq_wf. by rewrite Hc, Hsz, Hh.
  - by rewrite length_insert, Hsz.
  - intros j Hj. rewrite length_insert in Hj. rewrite Hn by lia. case_decide as Hjk; [subst; by rewrite list_lookup_insert_eq|].
    by rewrite list_lookup_insert_ne, Hu by done.
  - intros j Hj Hjc. rewrite length_insert in Hj. rewrite Hc in Hjc. rewrite Hn by lia. case_decide; [lia|]. by apply Hf.
Qed.

Lemma cq_rep_full q l : cq_rep P q l -> cq_full q = (Z.of_nat (length l) =? cq_capacity q).
Proof. intros [_ Hs _ _]. unfold cq_full. by rewrite Hs. Qed.

Lemma cq_rep_empty q l : cq_rep P q l -> cq_empty q = bool_decide (l = []).
Proof. intros [_ Hs _ _]. unfold cq_empty. rewrite Hs. by destruct l. Qed.

(** Dropping the first elements: their slots are free. *)
Lemma cq_rep_pop_front q l n : cq_rep P q l -> (n <= length l)%nat -> (forall x, x ∈ take n l -> P x) ->
  cq_pop_front q (Z.of_nat n) = Ok (mkCQ (cq_data q) (cq_size q - Z.of_nat n) (cq_head q + Z.of_nat n)) /\
  cq_rep P (mkCQ (cq_data q) (cq_size q - Z.of_nat n) (cq_head q + Z.of_nat n)) (drop n l).
Proof.
  intros [Hw Hs Hu Hf] Hn HP. pose proof Hw as (Hw1 & Hw2 & Hw3). unfold cq_pop_front. destruct (Z.leb_spec (Z.of_nat n) (cq_size q)); [|lia].
  split; [done|]. assert (Hnth : forall k, cq_nth (mkCQ (cq_data q) (cq_size q - Z.of_nat n) (cq_head q + Z.of_nat n)) k = cq_nth q (n + k))
    by (intros k; rewrite cq_nth_shift; done).
  split; cbn [cq_size]; [|rewrite length_drop; lia|..].
  - unfold cq_wf, cq_capacity in *. cbn [cq_data cq_size cq_head]. lia.
  - intros k Hk. rewrite length_drop in Hk. rewrite Hnth, Hu, lookup_drop by lia. done.
  - intros k Hk Hkc. rewrite length_drop in Hk. rewrite Hnth. unfold cq_capacity in Hkc. cbn [cq_data] in Hkc.
    destruct (decide (n + k < length (cq_data q))%nat) as [Hlt|Hge]; [apply Hf; unfold cq_capacity; lia|].
    assert (Hwrap : cq_nth q (n + k) = cq_nth q (n + k - length (cq_data q))).
    { rewrite <- (cq_nth_wrap q (n + k - length (cq_data q))) by done. f_equal. lia. }
    unfold cq_capacity in *. destruct (lookup_lt_is_Some_2 l (n + k - length (cq_data q))) as [x Hx]; [lia|].
    exists x. rewrite Hwrap, Hu by lia. split; [done|]. apply HP, (list_elem_of_lookup_2 _ (n + k - length (cq_data q))).
    by rewrite lookup_take_lt by lia.
Qed.

Lemma cq_rep_pop_back q l x : cq_rep P q (l ++ [x]) -> P x ->
  exists q', cq_pop_back q = Ok q' /\ cq_rep P q' l /\ cq_head q' = cq_head q /\ cq_capacity q' = cq_capacity q.
Proof.
  intros Hr Hx. pose proof Hr as [Hw Hs Hu Hf]. pose proof Hw as (Hw1 & Hw2 & Hw3). rewrite length_app in Hs. cbn [length] in Hs. unfold cq_pop_back.
  rewrite (cq_rep_empty _ _ Hr), bool_decide_eq_false_2 by (by destruct l). cbn [negb assert_ rbind]. eexists. split; [done|]. split; [|done].
  split; cbn [cq_size]; [unfold cq_wf, cq_capacity in *; cbn; lia|lia|..].
  - intros k Hk. rewrite <- (lookup_app_l l [x] k) by done. apply Hu. rewrite length_app. cbn. lia.
  - intros k Hk Hkc. destruct (decide (k = length l)) as [->|Hne].
    + exists x. split; [|done]. rewrite <- (list_lookup_middle l [] x (length l)) by done. apply Hu. rewrite length_app. cbn. lia.
    + apply Hf; [rewrite length_app; cbn; lia|done].
Qed.

Lemma cq_rep_back q l x : cq_rep P q (l ++ [x]) -> cq_tail q = cq_head q + Z.of_nat (length l) /\ cq_back q = Ok x.
Proof.
  intros Hr. pose proof (cr_size _ _ _ Hr) as Hs. rewrite length_app in Hs. cbn in Hs.
  assert (Ht : cq_tail q = cq_head q + Z.of_nat (length l)) by (unfold cq_tail; lia). split; [done|].
  unfold cq_back. rewrite Ht. eapply cq_rep_get; [done|]. by apply list_lookup_middle.
Qed.

Lemma cq_rep_front q x l : cq_rep P q (x :: l) -> cq_front q = Ok x.
Proof. intros Hr. unfold cq_front. rewrite <- (Z.add_0_r (cq_head q)). by apply (cq_rep_get _ _ 0 x Hr). Qed.

(** Growing a queue that is not full brings in the next free slot. *)
Lemma cq_rep_advance q l : cq_rep P q l -> Z.of_nat (length l) < cq_capacity q ->
  exists x, P x /\ cq_rep P (cq_advance_tail q) (l ++ [x]) /\ cq_head (cq_advance_tail q) = cq_head q /\
    cq_capacity (cq_advance_tail q) = cq_capacity q.
Proof.
  intros Hr Hlt. pose proof Hr as [Hw Hs Hu Hf]. pose proof Hw as (Hw1 & Hw2 & Hw3). unfold cq_advance_tail. rewrite (cq_rep_full _ _ Hr).
  destruct (Z.eqb_spec (Z.of_nat (length l)) (cq_capacity q)); [lia|]. destruct (Hf (length l) ltac:(lia) Hlt) as (x & Hx & HPx).
  exists x. split; [done|]. split; [|done]. split; cbn [cq_size]; rewrite ?length_app; cbn [length].
  - unfold cq_wf, cq_capacity in *. cbn. lia.
  - lia.
  - intros k Hk. destruct (decide (k = length l)) as [->|Hne]; [by rewrite (list_lookup_middle l [] x)|].
    rewrite lookup_app_l by lia. apply Hu. lia.
  - intros k Hk Hkc. apply Hf; [lia|done].
Qed.

Lemma cq_rep_push q l v : cq_rep P q l -> Z.of_nat (length l) < cq_capacity q ->
  exists q', cq_push_back q v = Ok q' /\ cq_rep P q' (l ++ [v]) /\ cq_capacity q' = cq_capacity q.
Proof.
  intros Hr Hlt. destruct (cq_rep_advance _ _ Hr Hlt) as (x & _ & Hr' & _ & Hc). unfold cq_push_back.
  destruct (cq_rep_back _ _ _ Hr') as [-> _]. destruct (cq_rep_set _ _ (length l) v Hr') as (q' & -> & Hq' & _ & Hc').
  { rewrite length_app. cbn. lia. }
  exists q'. split; [done|]. rewrite insert_app_r_alt, Nat.sub_diag in Hq' by lia. split; [done|]. congruence.
Qed.
End Refinement.
End Operations.

(** ** A queue is a bounded list *)

Section Bounded.
Context {T : Type}.

Inductive QOp :=
| QPush (v : T)
| QPopFront (n : nat)
| QPopBack
| QSet (k : nat) (v : T)
| QFlush.

Definition q_exec (op : QOp) (q : CircularQueue T) : res (CircularQueue T) :=
  match op with
  | QPush v => cq_push_back q v
  | QPopFront n => cq_pop_front q (Z.of_nat n)
  | QPopBack => cq_pop_back q
  | QSet k v => cq_set q (cq_head q + Z.of_nat k) v
  | QFlush => Ok (cq_flush q)
  end.

(** A list of at most [c] elements; a push on a full one drops the oldest. *)
Definition l_exec (c : nat) (op : QOp) (l : list T) : option (list T) :=
  match op with
  | QPush v => Some ((if bool_decide (length l = c) then drop 1 l else l) ++ [v])
  | QPopFront n => if bool_decide (n <= length l)%nat then Some (drop n l) else None
  | QPopBack => if bool_decide (l = []) then None else Some (take (length l - 1) l)
  | QSet k v => if bool_decide (k < length l)%nat then Some (<[k := v]> l) else None
  | QFlush => Some []
  end.

Fixpoint q_run (ops : list QOp) (q : CircularQueue T) : res (CircularQueue T) :=
  match ops with [] => Ok q | op :: ops => let! q := q_exec op q in q_run ops q end.

Fixpoint l_run (c : nat) (ops : list QOp) (l : list T) : option (list T) :=
  match ops with [] => Some l | op :: ops => l_exec c op l ≫= l_run c ops end.

(** The elements from the head to the tail. *)
Definition cq_list (q : CircularQueue T) : list T := omap (cq_nth q) (seq 0 (Z.to_nat (cq_size q))).

Local Definition any : T -> Prop := fun _ => True.

Lemma cq_rep_list q l : cq_rep any q l -> cq_list q = l.
Proof.
  intros [_ Hs Hu _]. unfold cq_list. rewrite Hs, Nat2Z.id. clear Hs.
  assert (H : forall m k, (k + m <= length l)%nat -> omap (cq_nth q) (seq k m) = take m (drop k l)).
  { induction m as [|m IH]; intros k Hk; [done|]. destruct (lookup_lt_is_Some_2 l k ltac:(lia)) as [x Hx]. cbn [seq]. rewrite (drop_S _ _ _ Hx).
    cbn [omap list_omap take]. rewrite Hu, Hx, <- (IH (S k)) by lia. done. }
  rewrite (H _ 0%nat) by lia. rewrite drop_0. by apply take_ge.
Qed.

(** A push on a full queue is a push after dropping the oldest. *)
Lemma cq_rep_push_full q l v : cq_rep any q l -> Z.of_nat (length l) = cq_capacity q ->
  exists q', cq_push_back q v = Ok q' /\ cq_rep any q' (drop 1 l ++ [v]) /\ cq_capacity q' = cq_capacity q.
Proof.
  intros Hr Hfull. pose proof (cr_wf _ _ _ Hr) as (Hc & _). destruct (cq_rep_pop_front any q l 1 Hr ltac:(lia)) as [_ Hr1]; [done|].
  set (q1 := mkCQ _ _ _) in Hr1. change (Z.of_nat 1) with 1 in q1. assert (Hcap : cq_capacity q1 = cq_capacity q) by done.
  destruct (cq_rep_push any q1 (drop 1 l) v Hr1) as (q' & Hq & Hr' & Hc'); [rewrite length_drop; lia|]. exists q'.
  assert (E : cq_advance_tail q = cq_advance_tail q1).
  { unfold cq_advance_tail. rewrite (cq_rep_full _ _ _ Hr), (cq_rep_full _ _ _ Hr1), length_drop, Hcap. destruct (Z.eqb_spec (Z.of_nat (length l)) (cq_capacity q)); [|lia].
    destruct (Z.eqb_spec (Z.of_nat (length l - 1)) (cq_capacity q)); [lia|]. unfold q1. cbn. f_equal. lia. }
  split; [unfold cq_push_back in *; rewrite E; exact Hq|]. split; [done|]. congruence.
Qed.

Lemma q_exec_refines c op q l l' : cq_rep any q l -> cq_capacity q = Z.of_nat c -> l_exec c op l = Some l' ->
  exists q', q_exec op q = Ok q' /\ cq_rep any q' l' /\ cq_capacity q' = Z.of_nat c.
Proof.
  intros Hr Hc Hl. pose proof (cr_wf _ _ _ Hr) as (Hw1 & Hw2 & Hw3). pose proof (cr_size _ _ _ Hr) as Hsz.
  destruct op as [v|m| |k v|]; cbn [l_exec q_exec] in *; try (case_bool_decide as Hd; [|done]); simplify_eq.
  - case_bool_decide as Hd; [destruct (cq_rep_push_full q l v Hr) as (q' & Hok & Hr' & Hc'); [lia|]|destruct (cq_rep_push any q l v Hr) as (q' & Hok & Hr' & Hc'); [lia|]];
      exists q'; split_and!; try done; congruence.
  - destruct (cq_rep_pop_front any q l m Hr Hd) as [Hok Hr']; [done|]. eexists. split; [exact Hok|]. split; [exact Hr'|]. exact Hc.
  - case_bool_decide as Hd; [done|]. simplify_eq. destruct l as [|x l _] using rev_ind; [done|]. destruct (cq_rep_pop_back any q l x Hr) as (q' & Hok & Hr' & _ & Hc'); [done|].
    exists q'. split; [exact Hok|]. rewrite length_app, Nat.add_sub. rewrite take_app_length. split; [done|congruence].
  - destruct (cq_rep_set any q l k v Hr Hd) as (q' & Hok & Hr' & _ & Hc'). exists q'. split_and!; try done. congruence.
  - eexists. split; [done|]. split; [|exact Hc]. unfold cq_flush. split; cbn; try done; [unfold cq_wf, cq_capacity in *; cbn in *; lia|lia|].
    intros k _ Hk. unfold cq_capacity in *. cbn in Hk. destruct (cq_nth_Some (mkCQ (cq_data q) 0 1) k) as [x Hx]; [unfold cq_wf, cq_capacity; cbn in *; lia|]. by exists x.
Qed.

End Bounded.

