(* ===== verification/Lsq.v ===== *)
(** * The load/store queue of a thread

    [LSQUnit] ([cpu/o3/lsq_unit.hh], [cpu/o3/lsq_unit.cc]): the load queue and the
    store queue, insertion, execution with store-to-load forwarding and the check
    for ordering violations, commit, write-back of stores, completion and squash.
    Instructions are shared objects and live in a heap.  What the unit asks of the
    issue stage, the ISA and the cache is recorded in [acts]; what these answer is an
    argument.  A [LSQRequest] is a record of what the unit reads of it: the address
    and size of its main request and the flags; its life cycle ([cpu/o3/lsq.cc]) and the
    bookkeeping of [recvTimingResp] and [WritebackEvent] are not modelled, the handling of
    a response by the unit ([completeDataAccess], [writeback]) is.  Sequence numbers and indices are unbounded integers. *)

From Stdlib Require Import ZArith Lia Bool.
From stdpp Require Import base tactics option list numbers gmap.
From S2P Require Import Prelude CircularQueue.
Open Scope Z_scope.

(** ** Instructions and requests *)

Record LStatic := mkLStatic {
  pc : Z;
  isMemRef : bool;
  isLoad : bool;
  isStore : bool;
  isAtomic : bool;
  isStoreConditional : bool;
  isDataPrefetch : bool;
  isHtmStart : bool;
  isHtmStop : bool
}.

(** Indices and iterators into the two queues. *)
Record LPos := mkLPos { lqIdx : Z; lqIt : Z; sqIdx : Z; sqIt : Z }.

(** The flag for strict ordering is set with the request, so [hasRequest] is not kept. *)
Record LAddr := mkLAddr { effAddr : Z; effSize : Z; effAddrValid : bool; strictlyOrdered : bool }.

Record LFlags := mkLFlags {
  squashed : bool;
  completedInst : bool;
  inLSQ : bool;
  executed : bool;
  issued : bool;
  atCommit : bool;
  reExec : bool;
  possibleLoadViolation : bool;
  hitExternalSnoop : bool
}.

Record LHtm := mkLHtm { inHtm : bool; htmUid : Z; htmDepth : Z }.

Record MemDepInfo := mkMemDepInfo {
  forwardedFrom : Z;
  violatingStoreSeqNum : Z;
  violatingStorePC : Z;
  storeQueueDistance : Z
}.

Record LInst := mkLInst {
  seqNum : Z;
  static : LStatic;
  lpos : LPos;
  laddr : LAddr;
  lflags : LFlags;
  lhtm : LHtm;
  memDepInfo : MemDepInfo;
  memData : option (list Z)
}.

(** The main request, its size also being that of the access. *)
Record Req := mkReq {
  rq_vaddr : Z;
  rq_size : Z;
  isLLSC : bool;
  isRelease : bool;
  isLocalAccess : bool;
  isStrictlyOrdered : bool;
  isMasked : bool;
  isCacheMaintenance : bool;
  reqIsAtomic : bool;
  storeNoData : bool;
  cacheBlockZero : bool;
  isHTMCmd : bool
}.

Inductive LFault := NoFault | M5PanicFault | OtherFault.

Global Instance LFault_eq_dec : EqDecision LFault.
Proof. solve_decision. Defined.

(** ** Queue entries *)

(** A fault of an instruction other than [ReExec]: none, of its transaction, or of its
    translation, which only a part of a split access may have. *)
Inductive Pending := NoOther | HtmFailure | Translation (isPartialFault : bool).

Inductive HtmCacheFailure := NO_FAIL | FAIL_SELF | FAIL_REMOTE | FAIL_OTHER.

(** What the unit reads of a response and its request. *)
Record Response := mkResponse {
  needWBToRegister : bool;
  isWrite : bool;
  htmTransactional : option Z;
  htmFailedInCache : option HtmCacheFailure
}.

Record LSQEntry := mkLSQEntry {
  e_inst : option nat;
  e_request : option Req;
  e_size : Z;
  e_valid : bool
}.

Record SQEntry := mkSQEntry {
  base : LSQEntry;
  e_data : list Z;
  canWB : bool;
  committed : bool;
  completed : bool;
  isAllZeros : bool
}.

Definition empty_entry : LSQEntry := mkLSQEntry None None 0 false.

Definition empty_sq_entry (MaxDataBytes : nat) : SQEntry := mkSQEntry empty_entry (replicate MaxDataBytes 0) false false false false.

Definition clear_entry (e : LSQEntry) : LSQEntry := mkLSQEntry None None 0 false.

Definition set_entry (i : nat) (e : LSQEntry) : res LSQEntry :=
  check! (negb (e_valid e)); Ok (mkLSQEntry (Some i) (e_request e) 0 true).

Definition setRequest (r : option Req) (e : LSQEntry) : LSQEntry := mkLSQEntry (e_inst e) r (e_size e) (e_valid e).

Definition clear_sq (e : SQEntry) : SQEntry := mkSQEntry (clear_entry (base e)) (e_data e) false false false false.

Definition set_sq (i : nat) (e : SQEntry) : res SQEntry :=
  let! b := set_entry i (base e) in Ok (mkSQEntry b (e_data e) (canWB e) (committed e) (completed e) (isAllZeros e)).

Definition set_canWB (e : SQEntry) : SQEntry := mkSQEntry (base e) (e_data e) true (committed e) (completed e) (isAllZeros e).

Definition set_committed (e : SQEntry) : SQEntry := mkSQEntry (base e) (e_data e) (canWB e) true (completed e) (isAllZeros e).

Definition set_completed (e : SQEntry) : SQEntry := mkSQEntry (base e) (e_data e) (canWB e) (committed e) true (isAllZeros e).

(** ** The unit *)

(** Calls into the rest of the CPU. *)
Inductive Act :=
| ReplayMemInst (i : nat)
| RescheduleMemInst (i : nat)
| BlockMemInst (i : nat)
| InstToCommit (i : nat)
| CheckMisprediction (i : nat)
| ForwardOldRegs (i : nat)
| CompleteAcc (i : nat)
| ScheduleWriteback (i : nat) (data : list Z)
| LocalWrite (i : nat) (data : list Z)
| SendPacket (i : nat)
| DiscardRequest (i : nat)
| HandleLockedRead (i : nat)
| HandleLockedWrite (i : nat)
| HandleLockedSnoopHit (i : nat).

Record LsqParams := mkLsqParams {
  depCheckShift : Z;
  checkLoads : bool;
  needsTSO : bool;
  MaxDataBytes : nat;
  cacheLineSize : Z
}.

(** [htmCpt] is the identifier in the thread's transaction checkpoint, if it has
    one.  The packet to retry is never set and left out. *)
Record Lsq := mkLsq {
  loadQueue : CircularQueue LSQEntry;
  storeQueue : CircularQueue SQEntry;
  insts : gmap nat LInst;
  storesToWB : Z;
  htmStarts : Z;
  htmStops : Z;
  lastRetiredHtmUid : Z;
  htmCpt : option Z;
  globalHtmUid : Z;
  storeWBIt : Z;
  stalled : bool;
  stallingStoreIsn : Z;
  stallingLoadIdx : Z;
  isStoreBlocked : bool;
  storeInFlight : bool;
  memDepViolator : option nat;
  acts : list Act
}.

(** Field updates. *)
Definition with_lq (s : Lsq) (q : CircularQueue LSQEntry) : Lsq :=
  mkLsq q (storeQueue s) (insts s) (storesToWB s) (htmStarts s) (htmStops s) (lastRetiredHtmUid s) (htmCpt s) (globalHtmUid s)
    (storeWBIt s) (stalled s) (stallingStoreIsn s) (stallingLoadIdx s) (isStoreBlocked s) (storeInFlight s) (memDepViolator s) (acts s).

Definition with_sq (s : Lsq) (q : CircularQueue SQEntry) : Lsq :=
  mkLsq (loadQueue s) q (insts s) (storesToWB s) (htmStarts s) (htmStops s) (lastRetiredHtmUid s) (htmCpt s) (globalHtmUid s)
    (storeWBIt s) (stalled s) (stallingStoreIsn s) (stallingLoadIdx s) (isStoreBlocked s) (storeInFlight s) (memDepViolator s) (acts s).

Definition with_insts (s : Lsq) (h : gmap nat LInst) : Lsq :=
  mkLsq (loadQueue s) (storeQueue s) h (storesToWB s) (htmStarts s) (htmStops s) (lastRetiredHtmUid s) (htmCpt s) (globalHtmUid s)
    (storeWBIt s) (stalled s) (stallingStoreIsn s) (stallingLoadIdx s) (isStoreBlocked s) (storeInFlight s) (memDepViolator s) (acts s).

Definition with_storesToWB (s : Lsq) (n : Z) : Lsq :=
  mkLsq (loadQueue s) (storeQueue s) (insts s) n (htmStarts s) (htmStops s) (lastRetiredHtmUid s) (htmCpt s) (globalHtmUid s)
    (storeWBIt s) (stalled s) (stallingStoreIsn s) (stallingLoadIdx s) (isStoreBlocked s) (storeInFlight s) (memDepViolator s) (acts s).

Definition with_htm (s : Lsq) (starts stops : Z) (cpt : option Z) (glob : Z) : Lsq :=
  mkLsq (loadQueue s) (storeQueue s) (insts s) (storesToWB s) starts stops (lastRetiredHtmUid s) cpt glob
    (storeWBIt s) (stalled s) (stallingStoreIsn s) (stallingLoadIdx s) (isStoreBlocked s) (storeInFlight s) (memDepViolator s) (acts s).

Definition with_wbit (s : Lsq) (it : Z) : Lsq :=
  mkLsq (loadQueue s) (storeQueue s) (insts s) (storesToWB s) (htmStarts s) (htmStops s) (lastRetiredHtmUid s) (htmCpt s) (globalHtmUid s)
    it (stalled s) (stallingStoreIsn s) (stallingLoadIdx s) (isStoreBlocked s) (storeInFlight s) (memDepViolator s) (acts s).

Definition with_stall (s : Lsq) (b : bool) (store : Z) (load : Z) : Lsq :=
  mkLsq (loadQueue s) (storeQueue s) (insts s) (storesToWB s) (htmStarts s) (htmStops s) (lastRetiredHtmUid s) (htmCpt s) (globalHtmUid s)
    (storeWBIt s) b store load (isStoreBlocked s) (storeInFlight s) (memDepViolator s) (acts s).

Definition with_flight (s : Lsq) (blocked flight : bool) : Lsq :=
  mkLsq (loadQueue s) (storeQueue s) (insts s) (storesToWB s) (htmStarts s) (htmStops s) (lastRetiredHtmUid s) (htmCpt s) (globalHtmUid s)
    (storeWBIt s) (stalled s) (stallingStoreIsn s) (stallingLoadIdx s) blocked flight (memDepViolator s) (acts s).

Definition with_violator (s : Lsq) (v : option nat) : Lsq :=
  mkLsq (loadQueue s) (storeQueue s) (insts s) (storesToWB s) (htmStarts s) (htmStops s) (lastRetiredHtmUid s) (htmCpt s) (globalHtmUid s)
    (storeWBIt s) (stalled s) (stallingStoreIsn s) (stallingLoadIdx s) (isStoreBlocked s) (storeInFlight s) v (acts s).

Definition act (a : Act) (s : Lsq) : Lsq :=
  mkLsq (loadQueue s) (storeQueue s) (insts s) (storesToWB s) (htmStarts s) (htmStops s) (lastRetiredHtmUid s) (htmCpt s) (globalHtmUid s)
    (storeWBIt s) (stalled s) (stallingStoreIsn s) (stallingLoadIdx s) (isStoreBlocked s) (storeInFlight s) (memDepViolator s) (acts s ++ [a]).

(** An instruction changed by [f]. *)
Definition modify (i : nat) (f : LInst -> LInst) (s : Lsq) : res Lsq :=
  let! x := deref (insts s !! i) in Ok (with_insts s (<[i := f x]> (insts s))).

Definition up_pos (f : LPos -> LPos) (I : LInst) : LInst :=
  mkLInst (seqNum I) (static I) (f (lpos I)) (laddr I) (lflags I) (lhtm I) (memDepInfo I) (memData I).

Definition up_addr (f : LAddr -> LAddr) (I : LInst) : LInst :=
  mkLInst (seqNum I) (static I) (lpos I) (f (laddr I)) (lflags I) (lhtm I) (memDepInfo I) (memData I).

Definition up_flags (f : LFlags -> LFlags) (I : LInst) : LInst :=
  mkLInst (seqNum I) (static I) (lpos I) (laddr I) (f (lflags I)) (lhtm I) (memDepInfo I) (memData I).

Definition up_htm (h : LHtm) (I : LInst) : LInst :=
  mkLInst (seqNum I) (static I) (lpos I) (laddr I) (lflags I) h (memDepInfo I) (memData I).

Definition up_dep (f : MemDepInfo -> MemDepInfo) (I : LInst) : LInst :=
  mkLInst (seqNum I) (static I) (lpos I) (laddr I) (lflags I) (lhtm I) (f (memDepInfo I)) (memData I).

Definition up_data (d : option (list Z)) (I : LInst) : LInst :=
  mkLInst (seqNum I) (static I) (lpos I) (laddr I) (lflags I) (lhtm I) (memDepInfo I) d.

Definition setSquashed (I : LInst) : LInst :=
  up_flags (fun f => mkLFlags true (completedInst f) (inLSQ f) (executed f) (issued f) (atCommit f) (reExec f)
    (possibleLoadViolation f) (hitExternalSnoop f)) I.

Definition setCompleted (I : LInst) : LInst :=
  up_flags (fun f => mkLFlags (squashed f) true (inLSQ f) (executed f) (issued f) (atCommit f) (reExec f)
    (possibleLoadViolation f) (hitExternalSnoop f)) I.

Definition setInLSQ (I : LInst) : LInst :=
  up_flags (fun f => mkLFlags (squashed f) (completedInst f) true (executed f) (issued f) (atCommit f) (reExec f)
    (possibleLoadViolation f) (hitExternalSnoop f)) I.

Definition setExecuted (I : LInst) : LInst :=
  up_flags (fun f => mkLFlags (squashed f) (completedInst f) (inLSQ f) true (issued f) (atCommit f) (reExec f)
    (possibleLoadViolation f) (hitExternalSnoop f)) I.

Definition clearIssued (I : LInst) : LInst :=
  up_flags (fun f => mkLFlags (squashed f) (completedInst f) (inLSQ f) (executed f) false (atCommit f) (reExec f)
    (possibleLoadViolation f) (hitExternalSnoop f)) I.

Definition setReExec (I : LInst) : LInst :=
  up_flags (fun f => mkLFlags (squashed f) (completedInst f) (inLSQ f) (executed f) (issued f) (atCommit f) true
    (possibleLoadViolation f) (hitExternalSnoop f)) I.

(** A fault of the transaction takes the place of [ReExec]. *)
Definition setHtmFault (I : LInst) : LInst :=
  up_flags (fun f => mkLFlags (squashed f) (completedInst f) (inLSQ f) (executed f) (issued f) (atCommit f) false
    (possibleLoadViolation f) (hitExternalSnoop f)) I.

Definition setPossibleLoadViolation (I : LInst) : LInst :=
  up_flags (fun f => mkLFlags (squashed f) (completedInst f) (inLSQ f) (executed f) (issued f) (atCommit f) (reExec f)
    true (hitExternalSnoop f)) I.

Definition setHitExternalSnoop (I : LInst) : LInst :=
  up_flags (fun f => mkLFlags (squashed f) (completedInst f) (inLSQ f) (executed f) (issued f) (atCommit f) (reExec f)
    (possibleLoadViolation f) true) I.

Definition set_effAddrValid (b : bool) (I : LInst) : LInst :=
  up_addr (fun a => mkLAddr (effAddr a) (effSize a) b (strictlyOrdered a)) I.

(** The instruction an entry points to, and its object. *)
Definition inst_of (e : LSQEntry) (s : Lsq) : res (nat * LInst) :=
  let! i := deref (e_inst e) in let! x := deref (insts s !! i) in Ok (i, x).

(** ** Operations *)

Section Operations.
Context (p : LsqParams).

(** The constructor and [init]. *)
Definition resetState (s : Lsq) : Lsq :=
  mkLsq (loadQueue s) (storeQueue s) (insts s) 0 0 0 (lastRetiredHtmUid s) (htmCpt s) (globalHtmUid s)
    (cq_begin (storeQueue s)) false (stallingStoreIsn s) (stallingLoadIdx s) (isStoreBlocked s) (storeInFlight s) None (acts s).

Definition LSQUnit (lqEntries sqEntries : nat) (heap : gmap nat LInst) (cpt : option Z) (glob : Z) : Lsq :=
  resetState (mkLsq (cq_new empty_entry lqEntries) (cq_new (empty_sq_entry (MaxDataBytes p)) sqEntries) heap 0 0 0 0 cpt glob
    0 false 0 0 false false None []).

Definition drainSanityCheck (s : Lsq) : res unit :=
  let! _ := for_ (length (cq_data (loadQueue s))) 0 (fun i _ =>
    let! e := cq_get (loadQueue s) (Z.of_nat i) in check! (negb (e_valid e)); Ok tt) tt in
  check! (storesToWB s =? 0); Ok tt.

Definition insertLoad (i : nat) (s : Lsq) : res Lsq :=
  check! (negb (cq_full (loadQueue s)));
  check! (cq_size (loadQueue s) <? cq_capacity (loadQueue s));
  let s := with_lq s (cq_advance_tail (loadQueue s)) in
  let! s := modify i (up_pos (fun q => mkLPos (lqIdx q) (lqIt q) (sqIdx q) (cq_end (storeQueue s)))) s in
  let! e := cq_back (loadQueue s) in
  check! (negb (e_valid e));
  let! e := set_entry i e in
  let! lq := cq_set (loadQueue s) (cq_tail (loadQueue s)) e in
  let s := with_lq s lq in
  let idx := cq_tail (loadQueue s) in
  check! (0 <? idx);
  let! s := modify i (up_pos (fun q => mkLPos idx idx (sqIdx q) (sqIt q))) s in
  let! x := deref (insts s !! i) in
  let! s := if isHtmStart (static x) then
      let starts := swrap 32 (htmStarts s + 1) in
      let htm_depth := swrap 32 (starts - htmStops s) in
      let! cpt := deref (htmCpt s) in
      let '(htm_uid, cpt, glob) :=
        if inHtm (lhtm x) then (cpt, cpt, globalHtmUid s)
        else let g := globalHtmUid s +[64] 1 in (g, g, g) in
      modify i (up_htm (mkLHtm true htm_uid (wrap 64 htm_depth))) (with_htm s starts (htmStops s) (Some cpt) glob)
    else Ok s in
  Ok (if isHtmStop (static x) then with_htm s (htmStarts s) (swrap 32 (htmStops s + 1)) (htmCpt s) (globalHtmUid s) else s).

Definition insertStore (i : nat) (s : Lsq) : res Lsq :=
  check! (negb (cq_full (storeQueue s)));
  check! (cq_size (storeQueue s) <? cq_capacity (storeQueue s));
  let s := with_sq s (cq_advance_tail (storeQueue s)) in
  let idx := cq_tail (storeQueue s) in
  let lidx := cq_tail (loadQueue s) + 1 in
  check! (0 <? lidx);
  let! s := modify i (up_pos (fun _ => mkLPos lidx (cq_end (loadQueue s)) idx idx)) s in
  let! e := cq_back (storeQueue s) in
  let! e := set_sq i e in
  let! sq := cq_set (storeQueue s) (cq_tail (storeQueue s)) e in
  Ok (with_sq s sq).

Definition insert (i : nat) (s : Lsq) : res Lsq :=
  let! x := deref (insts s !! i) in
  check! (isMemRef (static x));
  check! (isLoad (static x) || isStore (static x) || isAtomic (static x));
  let! s := if isLoad (static x) then insertLoad i s else insertStore i s in
  modify i setInLSQ s.

Definition getMemDepViolator (s : Lsq) : option nat * Lsq := (memDepViolator s, with_violator s None).

Definition numFreeLoadEntries (s : Lsq) : Z := cq_capacity (loadQueue s) - cq_size (loadQueue s).

Definition numFreeStoreEntries (s : Lsq) : Z := cq_capacity (storeQueue s) - cq_size (storeQueue s).

(** The blocks an access touches at the granularity of the check. *)
Definition dep_first (a : LAddr) : Z := Z.shiftr (effAddr a) (depCheckShift p).

Definition dep_last (a : LAddr) : Z := Z.shiftr ((effAddr a +[64] effSize a) -[64] 1) (depCheckShift p).

(** The loop of [checkViolations] over [n] loads from [it] on, for [inst]. *)
Fixpoint check_loop (n : nat) (it : Z) (inst : nat) (s : Lsq) : res (LFault * Lsq) :=
  match n with
  | O => Ok (NoFault, s)
  | S n' =>
      let! e := cq_get (loadQueue s) it in
      let! (l, ld) := inst_of e s in
      let! x := deref (insts s !! inst) in
      if negb (effAddrValid (laddr ld)) || strictlyOrdered (laddr ld) then check_loop n' (it + 1) inst s else
      if (dep_first (laddr ld) <=? dep_last (laddr x)) && (dep_first (laddr x) <=? dep_last (laddr ld)) then
        let! older := match memDepViolator s with
          | None => Ok None
          | Some v => let! y := deref (insts s !! v) in Ok (Some (seqNum y))
          end in
        if isLoad (static x) then
          if hitExternalSnoop (lflags ld) && (match older with None => true | Some v => seqNum ld <? v end) then
            Ok (M5PanicFault, with_violator s (Some l))
          else
            let! s := modify l setPossibleLoadViolation s in check_loop n' (it + 1) inst s
        else if (match older with None => false | Some v => v <? seqNum ld end) then Ok (NoFault, s)
        else if (seqNum x <? forwardedFrom (memDepInfo ld)) || (seqNum x <? violatingStoreSeqNum (memDepInfo ld)) then
          check_loop n' (it + 1) inst s
        else
          let s := with_violator s (Some l) in
          let! s := modify l (up_dep (fun d => mkMemDepInfo (forwardedFrom d) (seqNum x) (pc (static x))
            (sqIt (lpos ld) - sqIt (lpos x)))) s in
          Ok (M5PanicFault, s)
      else check_loop n' (it + 1) inst s
  end.

(** The loop stops at the end of the queue, which [loadIt] must not have passed. *)
Definition checkViolations (loadIt : Z) (inst : nat) (s : Lsq) : res (LFault * Lsq) :=
  if cq_end (loadQueue s) <? loadIt then Err OutOfFuel else
  check_loop (Z.to_nat (cq_end (loadQueue s) - loadIt)) loadIt inst s.

(** [checkSnoop]: [hit] tells which requests touch the block that is invalidated,
    [lock] which instructions have the LLSC flag. *)
Fixpoint snoop_loop (hit : Req -> bool) (lock : nat -> bool) (n : nat) (it : Z) (force_squash : bool) (s : Lsq) : res Lsq :=
  match n with
  | O => Ok s
  | S n' =>
      let! e := cq_get (loadQueue s) it in
      let! (l, ld) := inst_of e s in
      match e_request e with
      | None => snoop_loop hit lock n' (it + 1) force_squash s
      | Some r =>
          if negb (effAddrValid (laddr ld)) || strictlyOrdered (laddr ld) then snoop_loop hit lock n' (it + 1) force_squash s else
          if force_squash || hit r then
            let force_squash := force_squash || needsTSO p in
            let! s := if possibleLoadViolation (lflags ld) || force_squash then modify l setReExec s
              else let s := if lock l then act (HandleLockedSnoopHit l) s else s in modify l setHitExternalSnoop s in
            snoop_loop hit lock n' (it + 1) force_squash s
          else snoop_loop hit lock n' (it + 1) force_squash s
      end
  end.

Definition checkSnoop (hit : Req -> bool) (lock : nat -> bool) (s : Lsq) : res Lsq :=
  if cq_empty (loadQueue s) then Ok s else
  let! e := cq_get (loadQueue s) (cq_begin (loadQueue s)) in
  let! (l, ld) := inst_of e s in
  let s := if effAddrValid (laddr ld) && (match e_request e with Some r => hit r | None => false end) && lock l
    then act (HandleLockedSnoopHit l) s else s in
  snoop_loop hit lock (Z.to_nat (cq_size (loadQueue s) - 1)) (cq_begin (loadQueue s) + 1) false s.

(** ** Loads *)

Inductive AddrRangeCoverage := PartialAddrRangeCoverage | FullAddrRangeCoverage | NoAddrRangeCoverage.

(** The ranges are [[req_s, req_e)] and [[st_s, st_e)]. *)
Definition coverage (req_s req_e st_s st_e : Z) (llsc atomic masked : bool) : AddrRangeCoverage :=
  let store_has_lower_limit := st_s <=? req_s in
  let store_has_upper_limit := req_e <=? st_e in
  let lower_load_has_store_part := req_s <? st_e in
  let upper_load_has_store_part := st_s <? req_e in
  if negb atomic && store_has_lower_limit && store_has_upper_limit && negb llsc then
    if masked then PartialAddrRangeCoverage else FullAddrRangeCoverage
  else if (negb llsc && ((store_has_lower_limit && lower_load_has_store_part) ||
                         (store_has_upper_limit && upper_load_has_store_part) ||
                         (lower_load_has_store_part && upper_load_has_store_part))) ||
          (llsc && ((store_has_lower_limit || upper_load_has_store_part) && (store_has_upper_limit || lower_load_has_store_part))) ||
          (atomic && ((store_has_lower_limit || upper_load_has_store_part) && (store_has_upper_limit || lower_load_has_store_part)))
  then PartialAddrRangeCoverage
  else NoAddrRangeCoverage.

(** [memcpy] of [n] bytes from an array, from [off] on. *)
Definition bytes_at (d : list Z) (off n : Z) : res (list Z) :=
  if (0 <=? off) && (off + n <=? Z.of_nat (length d)) then Ok (take (Z.to_nat n) (drop (Z.to_nat off) d)) else Err OutOfRange.

(** What the search of the store queue finds for a load. *)
Inductive Search :=
| Forward (it : Z) (store : Z) (data : list Z)
| StallOn (store : Z)
| ToMemory.

(** The loop of [read]: [n] stores before [store_it], the youngest first. *)
Fixpoint search_loop (n : nat) (store_it : Z) (load_inst : LInst) (r : Req) (s : Lsq) : res Search :=
  match n with
  | O => Ok ToMemory
  | S n' =>
      let! it := cq_dec (storeQueue s) store_it in
      let! e := cq_get (storeQueue s) it in
      check! (e_valid (base e));
      let! (_, st) := inst_of (base e) s in
      check! (seqNum st <? seqNum load_inst);
      let store_size := swrap 32 (e_size (base e)) in
      let! skip := if (store_size =? 0) || strictlyOrdered (laddr st) then Ok true
        else let! sr := deref (e_request (base e)) in Ok (isCacheMaintenance sr) in
      if (skip : bool) then search_loop n' it load_inst r s else
      check! (effAddrValid (laddr st));
      let! sr := deref (e_request (base e)) in
      let req_s := rq_vaddr r in
      let st_s := effAddr (laddr st) in
      match coverage req_s (req_s +[64] rq_size r) st_s (st_s +[64] store_size) (isLLSC r) (isAtomic (static st)) (isMasked sr) with
      | FullAddrRangeCoverage =>
          let shift_amt := swrap 32 (req_s - st_s) in
          let! d := if isAllZeros e then Ok (replicate (Z.to_nat (rq_size r)) 0) else bytes_at (e_data e) shift_amt (rq_size r) in
          Ok (Forward it (seqNum st) d)
      | PartialAddrRangeCoverage => if completed e then Err Panicked else Ok (StallOn (seqNum st))
      | NoAddrRangeCoverage => search_loop n' it load_inst r s
      end
  end.

(** The buffer of a load that goes to memory is filled by the response.  What the
    memory side answers to a load: the bytes of a local access, whether
    packets of an earlier attempt are in flight, and whether the request went out. *)
Record LoadEnv := mkLoadEnv { local_data : list Z; outstanding : bool; sent : bool }.

(** The entry of a load gets another request. *)
Definition set_load_request (load_idx : Z) (r : option Req) (s : Lsq) : res Lsq :=
  let! e := cq_get (loadQueue s) load_idx in
  let! lq := cq_set (loadQueue s) load_idx (setRequest r e) in Ok (with_lq s lq).

(** The load waits: it is issued again later. *)
Definition reschedule_load (l : nat) (s : Lsq) : res Lsq :=
  modify l (fun x => set_effAddrValid false (clearIssued x)) (act (RescheduleMemInst l) s).

(** The transactional checks of a load that forwards. *)
Definition htm_forward_check (load_inst : LInst) (it : Z) (s : Lsq) : res unit :=
  if inHtm (lhtm load_inst) then
    let! e := cq_get (storeQueue s) it in
    check! (negb (completed e));
    let! (_, st) := inst_of (base e) s in
    check! (inHtm (lhtm st));
    check! (htmUid (lhtm load_inst) =? htmUid (lhtm st)); Ok tt
  else Ok tt.

Definition read (r : Req) (load_idx : Z) (env : LoadEnv) (s : Lsq) : res (LFault * Lsq) :=
  let! s := set_load_request load_idx (Some r) s in
  let! e := cq_get (loadQueue s) load_idx in
  let! (l, ld) := inst_of e s in
  check! (negb (executed (lflags ld)));
  if isStrictlyOrdered r && (negb (load_idx =? cq_head (loadQueue s)) || negb (atCommit (lflags ld))) then
    let! s := reschedule_load l s in
    let! s := set_load_request load_idx None s in
    Ok (M5PanicFault, act (DiscardRequest l) s)
  else
  let s := if isLLSC r then act (HandleLockedRead l) s else s in
  if isLocalAccess r then
    check! (bool_decide (memData ld = None));
    let! s := modify l (up_data (Some (local_data env))) s in
    Ok (NoFault, act (ScheduleWriteback l (local_data env)) s)
  else
  check! (storeWBIt s <=? sqIt (lpos ld));
  let n := if isDataPrefetch (static ld) then O else Z.to_nat (sqIt (lpos ld) - storeWBIt s) in
  let! found := search_loop n (sqIt (lpos ld)) ld r s in
  match found with
  | Forward it store data =>
      let! s := modify l (fun x => up_dep (fun d => mkMemDepInfo store (violatingStoreSeqNum d) (violatingStorePC d) (storeQueueDistance d))
        (up_data (Some data) x)) s in
      check! (negb (isHTMCmd r));
      let! _ := htm_forward_check ld it s in
      let! s := if outstanding env then set_load_request load_idx None (act (DiscardRequest l) s) else Ok s in
      Ok (NoFault, act (ScheduleWriteback l data) s)
  | StallOn store =>
      let! oldest := if stalled s then
          let! se := cq_get (loadQueue s) (stallingLoadIdx s) in
          let! (_, y) := inst_of se s in Ok (seqNum ld <? seqNum y)
        else Ok true in
      let s := if (oldest : bool) then with_stall s true store load_idx else s in
      let! s := reschedule_load l s in
      let! s := set_load_request load_idx None (act (DiscardRequest l) s) in
      Ok (NoFault, s)
  | ToMemory =>
      let buffer := default (replicate (Z.to_nat (rq_size r)) 0) (memData ld) in
      let buffer := if isHTMCmd r then <[0%nat := 1]> buffer else buffer in
      let! s := modify l (up_data (Some buffer)) s in
      let s := act (SendPacket l) s in
      Ok (NoFault, if sent env then s else act (BlockMemInst l) s)
  end.

(** ** Stores *)

Definition write (r : Req) (data : list Z) (store_idx : Z) (s : Lsq) : res (LFault * Lsq) :=
  let! e := cq_get (storeQueue s) store_idx in
  check! (e_valid (base e));
  let size := rq_size r in
  check! ((size <=? Z.of_nat (MaxDataBytes p)) || storeNoData r);
  let! d := if negb (cacheBlockZero r) && negb (isCacheMaintenance r) && negb (reqIsAtomic r) then
      let! bytes := bytes_at data 0 size in
      if size <=? Z.of_nat (length (e_data e)) then Ok (bytes ++ drop (Z.to_nat size) (e_data e)) else Err OutOfRange
    else Ok (e_data e) in
  let e := mkSQEntry (mkLSQEntry (e_inst (base e)) (Some r) (wrap 32 size) (e_valid (base e))) d
    (canWB e) (committed e) (completed e) (storeNoData r) in
  let! sq := cq_set (storeQueue s) store_idx e in
  Ok (NoFault, with_sq s sq).

(** ** Execution *)

(** What [initiateAcc] of the ISA does: the translation, or the rest of a split
    access, is still to come; no memory access is needed; the predicate is false; it
    faults before the access; or the access is done with a translated request. *)
Inductive Access :=
| AccDelayed
| AccNotRequired
| AccPredFalse
| AccFault
| AccDone (r : Req) (data : list Z).

(** The end of [LSQ::pushRequest]. *)
Definition pushRequest (i : nat) (load : bool) (r : Req) (data : list Z) (env : LoadEnv) (s : Lsq) : res (LFault * Lsq) :=
  let! s := modify i (up_addr (fun a => mkLAddr (rq_vaddr r) (rq_size r) true (isStrictlyOrdered r))) s in
  let! x := deref (insts s !! i) in
  if load then read r (lqIdx (lpos x)) env s else write r data (sqIdx (lpos x)) s.

(** The load goes to commit; one that is strictly ordered is not executed until it is there. *)
Definition load_to_commit (i : nat) (s : Lsq) : res Lsq :=
  let! x := deref (insts s !! i) in
  let! s := if negb (strictlyOrdered (laddr x)) || atCommit (lflags x) then modify i setExecuted s else Ok s in
  Ok (act (InstToCommit i) s).

Definition executeLoad (i : nat) (acc : Access) (env : LoadEnv) (s : Lsq) : res (LFault * Lsq) :=
  let! x := deref (insts s !! i) in
  check! (negb (squashed (lflags x)));
  match acc with
  | AccDelayed => Ok (NoFault, s)
  | AccNotRequired =>
      let! s := modify i setExecuted s in Ok (NoFault, act (InstToCommit i) (act (CompleteAcc i) s))
  | AccPredFalse => let! s := load_to_commit i (act (ForwardOldRegs i) s) in Ok (NoFault, s)
  | AccFault => let! s := load_to_commit i s in Ok (OtherFault, s)
  | AccDone r data =>
      let! (fault, s) := pushRequest i true r data env s in
      match fault with
      | NoFault =>
          let! x := deref (insts s !! i) in
          if effAddrValid (laddr x) && checkLoads p then checkViolations (lqIt (lpos x) + 1) i s else Ok (NoFault, s)
      | _ => let! s := load_to_commit i s in Ok (fault, s)
      end
  end.

Definition executeStore (i : nat) (acc : Access) (s : Lsq) : res (LFault * Lsq) :=
  check! (negb (cq_size (storeQueue s) =? 0));
  let! x := deref (insts s !! i) in
  let store_idx := sqIdx (lpos x) in
  check! (negb (squashed (lflags x)));
  let loadIt := lqIt (lpos x) in
  match acc with
  | AccDelayed => Ok (NoFault, s)
  | AccPredFalse => Ok (NoFault, act (ForwardOldRegs i) s)
  | AccNotRequired | AccFault | AccDone _ _ =>
      let! (store_fault, s) := match acc with
        | AccDone r data => pushRequest i false r data (mkLoadEnv [] false true) s
        | AccFault => Ok (OtherFault, s)
        | _ => Ok (NoFault, s)
        end in
      let! e := cq_get (storeQueue s) store_idx in
      if e_size (base e) =? 0 then
        if isAtomic (static x) then
          let! x := deref (insts s !! i) in
          let! s := if negb (strictlyOrdered (laddr x)) || atCommit (lflags x) then modify i setExecuted s else Ok s in
          Ok (store_fault, act (InstToCommit i) s)
        else Ok (store_fault, s)
      else
        check! (bool_decide (store_fault = NoFault));
        let! s := if isStoreConditional (static x) || isAtomic (static x) then
            let! sq := cq_set (storeQueue s) store_idx (set_canWB e) in
            Ok (with_storesToWB (with_sq s sq) (swrap 32 (storesToWB s + 1)))
          else Ok s in
        checkViolations loadIt i s
  end.

(** ** Commit *)

Definition commitLoad (s : Lsq) : res Lsq :=
  let! e := cq_front (loadQueue s) in
  check! (e_valid e);
  let! _ := inst_of e s in
  let! lq := cq_set (loadQueue s) (cq_head (loadQueue s)) (clear_entry e) in
  let! lq := cq_pop_front lq 1 in
  Ok (with_lq s lq).

(** The loop of [commitLoads] over at most [n] loads. *)
Fixpoint commit_loads (n : nat) (youngest_inst : Z) (s : Lsq) : res Lsq :=
  if cq_size (loadQueue s) =? 0 then Ok s else
  let! e := cq_front (loadQueue s) in
  let! (_, x) := inst_of e s in
  if seqNum x <=? youngest_inst then
    match n with
    | O => Err OutOfFuel
    | S n' => let! s := commitLoad s in commit_loads n' youngest_inst s
    end
  else Ok s.

Definition commitLoads (youngest_inst : Z) (s : Lsq) : res Lsq :=
  let! ok := if cq_size (loadQueue s) =? 0 then Ok true else let! e := cq_front (loadQueue s) in Ok (e_valid e) in
  check! ok;
  commit_loads (Z.to_nat (cq_size (loadQueue s))) youngest_inst s.

(** The loop of [commitStores]: [n] stores from [it] on. *)
Fixpoint commit_stores (n : nat) (it : Z) (youngest_inst : Z) (s : Lsq) : res Lsq :=
  match n with
  | O => Ok s
  | S n' =>
      let! e := cq_get (storeQueue s) it in
      check! (e_valid (base e));
      if canWB e then commit_stores n' (it + 1) youngest_inst s else
      let! (_, x) := inst_of (base e) s in
      if youngest_inst <? seqNum x then Ok s else
      let! sq := cq_set (storeQueue s) it (set_canWB e) in
      commit_stores n' (it + 1) youngest_inst (with_storesToWB (with_sq s sq) (swrap 32 (storesToWB s + 1)))
  end.

Definition commitStores (youngest_inst : Z) (s : Lsq) : res Lsq :=
  let! ok := if cq_size (storeQueue s) =? 0 then Ok true else let! e := cq_front (storeQueue s) in Ok (e_valid (base e)) in
  check! ok;
  commit_stores (Z.to_nat (cq_size (storeQueue s))) (cq_begin (storeQueue s)) youngest_inst s.

(** ** Write-back and completion of stores *)

(** The load that stalled on the store with number [sn], if any, is replayed. *)
Definition unstall (sn : Z) (s : Lsq) : res Lsq :=
  if stalled s && (sn =? stallingStoreIsn s) then
    let! e := cq_get (loadQueue s) (stallingLoadIdx s) in
    let! l := deref (e_inst e) in
    Ok (act (ReplayMemInst l) (with_stall s false 0 (stallingLoadIdx s)))
  else Ok s.

Definition storePostSend (s : Lsq) : res Lsq :=
  let! e := cq_get (storeQueue s) (storeWBIt s) in
  let! (i, x) := inst_of (base e) s in
  let! s := unstall (seqNum x) s in
  let! s := if negb (isStoreConditional (static x)) then modify i setCompleted s else Ok s in
  let s := if needsTSO p then with_flight s (isStoreBlocked s) true else s in
  Ok (with_wbit s (storeWBIt s + 1)).

(** The loop that frees the completed stores at the head. *)
Fixpoint pop_completed (n : nat) (s : Lsq) : res Lsq :=
  match n with
  | O => Err OutOfFuel
  | S n' =>
      let! e := cq_front (storeQueue s) in
      let! sq := cq_set (storeQueue s) (cq_head (storeQueue s)) (clear_sq e) in
      let! sq := cq_pop_front sq 1 in
      let s := with_sq s sq in
      let! e := cq_front (storeQueue s) in
      if completed e && negb (cq_empty (storeQueue s)) then pop_completed n' s else Ok s
  end.

Definition completeStore (store_idx : Z) (s : Lsq) : res Lsq :=
  let! e := cq_get (storeQueue s) store_idx in
  check! (e_valid (base e));
  let! sq := cq_set (storeQueue s) store_idx (set_completed e) in
  let s := with_storesToWB (with_sq s sq) (swrap 32 (storesToWB s - 1)) in
  let! (i, x) := inst_of (base e) s in
  let! s := if store_idx =? cq_begin (storeQueue s) then pop_completed (Z.to_nat (cq_size (storeQueue s))) s else Ok s in
  let! s := unstall (seqNum x) s in
  let! s := modify i setCompleted s in
  Ok (if needsTSO p then with_flight s (isStoreBlocked s) false else s).

(** [trySendPacket] for a store: the cache is not blocked, a port is free, and the
    cache takes the packet. *)
Definition trySendPacket (answer : bool * bool * bool) (s : Lsq) : bool * Lsq :=
  let '(cacheBlocked, portAvailable, accepted) := answer in
  if negb cacheBlocked && portAvailable && accepted then (true, with_flight s false (storeInFlight s))
  else (false, with_flight s true (storeInFlight s)).

(** [sendPacketToCache]: the packets of a store until one is refused; whether all went out. *)
Fixpoint sendPacketToCache (packets : list (bool * bool * bool)) (s : Lsq) : bool * Lsq :=
  match packets with
  | [] => (true, s)
  | a :: packets => let '(ok, s) := trySendPacket a s in if ok then sendPacketToCache packets s else (false, s)
  end.

Definition send_store (i : nat) (packets : list (bool * bool * bool)) (s : Lsq) : res Lsq :=
  let '(ok, s) := sendPacketToCache packets (act (SendPacket i) s) in
  if ok then storePostSend s else Ok s.

Definition writebackBlockedStore (packets : list (bool * bool * bool)) (s : Lsq) : res Lsq :=
  check! (isStoreBlocked s);
  let! e := cq_get (storeQueue s) (storeWBIt s) in
  let! _ := deref (e_request (base e)) in
  let! i := deref (e_inst (base e)) in
  send_store i packets s.

(** What the environment answers in one iteration of [writebackStores]. *)
Record WbEnv := mkWbEnv { port : bool; sc_success : bool; packets : list (bool * bool * bool) }.

(** The condition of the loop. *)
Definition can_write_back (env : WbEnv) (s : Lsq) : res bool :=
  if (0 <? storesToWB s) && isValidIdx (storeQueue s) (storeWBIt s) then
    let! e := cq_get (storeQueue s) (storeWBIt s) in
    Ok (e_valid (base e) && canWB e && (negb (needsTSO p) || negb (storeInFlight s)) && port env)
  else Ok false.

(** The store at [storeWBIt] is handed to memory.  [true] when the loop goes on. *)
Definition write_back_one (env : WbEnv) (s : Lsq) : res (bool * Lsq) :=
  let it := storeWBIt s in
  let! e := cq_get (storeQueue s) it in
  if e_size (base e) =? 0 then
    let! s := completeStore it (with_wbit s (it + 1)) in Ok (true, s)
  else
  let! (i, x) := inst_of (base e) s in
  if isDataPrefetch (static x) then Ok (true, with_wbit s (it + 1)) else
  let! r := match e_request (base e) with Some r => Ok r | None => Err AssertFailed end in
  check! (negb (committed e));
  if (isLLSC r || isRelease r) && negb (it =? cq_head (storeQueue s)) then Ok (false, s) else
  let! sq := cq_set (storeQueue s) it (set_committed e) in
  let s := with_sq s sq in
  check! (bool_decide (memData x = None));
  let! d := if isAllZeros e then Ok (replicate (Z.to_nat (rq_size r)) 0) else bytes_at (e_data e) 0 (rq_size r) in
  let! s := modify i (up_data (Some d)) s in
  let s := if isStoreConditional (static x) then act (HandleLockedWrite i) s else s in
  if isStoreConditional (static x) && negb (sc_success env) then
    let! s := completeStore it (act (ScheduleWriteback i d) s) in
    Ok (true, with_wbit s (if negb (cq_empty (storeQueue s)) then it + 1 else cq_end (storeQueue s)))
  else if isLocalAccess r then
    check! (negb (isStoreConditional (static x)));
    check! (negb (inHtm (lhtm x)));
    let! s := completeStore it (act (LocalWrite i d) s) in
    Ok (true, with_wbit s (it + 1))
  else
    let! s := send_store i (packets env) s in Ok (true, s).

(** One answer of the environment per iteration. *)
Fixpoint wb_loop (envs : list WbEnv) (s : Lsq) : res Lsq :=
  match envs with
  | [] => Ok s
  | env :: envs =>
      let! go := can_write_back env s in
      if go && negb (isStoreBlocked s) then
        let! (more, s) := write_back_one env s in
        if (more : bool) then wb_loop envs s else Ok s
      else Ok s
  end.

Definition writebackStores (blocked_packets : list (bool * bool * bool)) (envs : list WbEnv) (s : Lsq) : res Lsq :=
  let! s := if isStoreBlocked s then writebackBlockedStore blocked_packets s else Ok s in
  let! s := wb_loop envs s in
  check! (0 <=? storesToWB s);
  Ok s.

Definition recvRetry (packets : list (bool * bool * bool)) (s : Lsq) : res Lsq :=
  if isStoreBlocked s then writebackBlockedStore packets s else Ok s.

(** ** Responses *)

(** [writeback]; [pending] is the fault of the instruction other than [ReExec]. *)
Definition writeback (i : nat) (pending : Pending) (s : Lsq) : res Lsq :=
  let! x := deref (insts s !! i) in
  if squashed (lflags x) then
    check! (negb (isStore (static x)) || isStoreConditional (static x)); Ok s
  else
  let! s := if negb (executed (lflags x)) then
      let! s := modify i setExecuted s in
      if reExec (lflags x) then Ok s else
      match pending with
      | NoOther => Ok (act (CompleteAcc i) s)
      | HtmFailure => Ok s
      | Translation isPartialFault => check! isPartialFault; Ok s
      end
    else Ok s in
  Ok (act (CheckMisprediction i) (act (InstToCommit i) s)).

(** [completeDataAccess]: the response to an access of the instruction [i]. *)
Definition completeDataAccess (i : nat) (pkt : Response) (pending : Pending) (s : Lsq) : res Lsq :=
  let! x := deref (insts s !! i) in
  check! (squashed (lflags x) || match htmTransactional pkt with Some uid => htmUid (lhtm x) =? uid | None => true end);
  let! (pending, s) :=
    match htmFailedInCache pkt with
    | None => Ok (pending, s)
    | Some rc =>
        if isWrite pkt then Ok (pending, s) else
        match rc with
        | NO_FAIL => Err Panicked
        | _ => let! s := modify i setHtmFault s in Ok (HtmFailure, s)
        end
    end in
  if squashed (lflags x) then Ok s else
  if needWBToRegister pkt then
    check! (isLoad (static x) || isStoreConditional (static x) || isAtomic (static x));
    let! s := writeback i pending s in
    if isStore (static x) || isAtomic (static x) then completeStore (sqIt (lpos x)) s else Ok s
  else if isStore (static x) then completeStore (sqIt (lpos x)) s
  else Ok s.

(** ** Squash *)

(** The youngest load leaves the queue. *)
Definition squash_load (e : LSQEntry) (i : nat) (x : LInst) (s : Lsq) : res Lsq :=
  let s := if stalled s && (cq_tail (loadQueue s) =? stallingLoadIdx s) then with_stall s false 0 0 else s in
  let down b n := if (b : bool) then if n - 1 <? 0 then 0 else n - 1 else n in
  let s := with_htm s (down (isHtmStart (static x)) (htmStarts s)) (down (isHtmStop (static x)) (htmStops s)) (htmCpt s) (globalHtmUid s) in
  let! s := modify i setSquashed s in
  let! lq := cq_set (loadQueue s) (cq_tail (loadQueue s)) (clear_entry e) in
  let! lq := cq_pop_back lq in
  Ok (with_lq s lq).

Fixpoint squash_loads (n : nat) (squashed_num : Z) (s : Lsq) : res Lsq :=
  if cq_size (loadQueue s) =? 0 then Ok s else
  let! e := cq_back (loadQueue s) in
  let! (i, x) := inst_of e s in
  if squashed_num <? seqNum x then
    match n with
    | O => Err OutOfFuel
    | S n' => let! s := squash_load e i x s in squash_loads n' squashed_num s
    end
  else Ok s.

(** The transaction of the youngest [HtmStart] left among [n] loads from [it] on. *)
Fixpoint scan_htm (n : nat) (it : Z) (uid : Z) (s : Lsq) : res Z :=
  match n with
  | O => Ok uid
  | S n' =>
      let! e := cq_get (loadQueue s) it in
      let! (_, x) := inst_of e s in
      scan_htm n' (it + 1) (if isHtmStart (static x) && negb (squashed (lflags x)) then htmUid (lhtm x) else uid) s
  end.

Fixpoint squash_stores (n : nat) (squashed_num : Z) (s : Lsq) : res Lsq :=
  if cq_size (storeQueue s) =? 0 then Ok s else
  let! e := cq_back (storeQueue s) in
  let! (i, x) := inst_of (base e) s in
  if (squashed_num <? seqNum x) && negb (canWB e) then
    match n with
    | O => Err OutOfFuel
    | S n' =>
        if stalled s && (seqNum x =? stallingStoreIsn s) then Err Panicked else
        let! s := modify i setSquashed s in
        let! sq := cq_set (storeQueue s) (cq_tail (storeQueue s)) (clear_sq e) in
        let! sq := cq_pop_back sq in
        squash_stores n' squashed_num (with_sq s sq)
    end
  else Ok s.

Definition squash (squashed_num : Z) (s : Lsq) : res Lsq :=
  let! s := squash_loads (Z.to_nat (cq_size (loadQueue s))) squashed_num s in
  let! in_flight_uid := scan_htm (Z.to_nat (cq_size (loadQueue s))) (cq_begin (loadQueue s)) 0 s in
  let s := match htmCpt s with
    | None => s
    | Some _ => with_htm s (htmStarts s) (htmStops s) (Some (if 0 <? in_flight_uid then in_flight_uid else lastRetiredHtmUid s)) (globalHtmUid s)
    end in
  let! s := match memDepViolator s with
    | None => Ok s
    | Some v => let! y := deref (insts s !! v) in Ok (if squashed_num <? seqNum y then with_violator s None else s)
    end in
  squash_stores (Z.to_nat (cq_size (storeQueue s))) squashed_num s.
End Operations.
