(* ===== verification/LsqInv.v ===== *)
(** * The invariant of the load/store queue

    The two queues as lists of views, in program order, the positions the
    instructions remember, and the counters; the lemmas that the operations of
    [LSQUnit] share. *)

From Stdlib Require Import ZArith Lia Bool.
From stdpp Require Import base tactics option list numbers gmap sorting.
From S2P Require Import Prelude CircularQueue Lsq.
Open Scope Z_scope.

(** ** Views *)

(** A load in its queue: the entry, the instruction, its number, and the position
    in the store queue it was inserted at. *)
Record LV := mkLV { lv_e : LSQEntry; lv_id : nat; lv_seq : Z; lv_sqIt : Z }.

Record SV := mkSV { sv_e : SQEntry; sv_id : nat; sv_seq : Z; sv_lqIt : Z }.

Definition sv_size (w : SV) : Z := e_size (base (sv_e w)).

(** A slot that is not in use. *)
Definition lq_free (e : LSQEntry) : Prop := e_valid e = false /\ e_request e = None.

Definition sq_free (n : nat) (e : SQEntry) : Prop :=
  e_valid (base e) = false /\ e_request (base e) = None /\ e_size (base e) = 0 /\ length (e_data e) = n /\
  canWB e = false /\ committed e = false /\ completed e = false.

(** What an instruction object says when it is the load [v] at index [idx]. *)
Record load_inst (idx : Z) (v : LV) (x : LInst) : Prop := {
  ln_seq : seqNum x = lv_seq v;
  ln_load : isLoad (static x) = true;
  ln_lqIdx : lqIdx (lpos x) = idx;
  ln_lqIt : lqIt (lpos x) = idx;
  ln_sqIt : sqIt (lpos x) = lv_sqIt v;
  ln_htm : inHtm (lhtm x) = false;
  ln_start : isHtmStart (static x) = false;
  ln_stop : isHtmStop (static x) = false
}.

Record store_inst (n : nat) (idx : Z) (w : SV) (x : LInst) : Prop := {
  sn_seq : seqNum x = sv_seq w;
  sn_load : isLoad (static x) = false;
  sn_pos : 0 < sv_seq w;
  sn_sqIdx : sqIdx (lpos x) = idx;
  sn_sqIt : sqIt (lpos x) = idx;
  sn_lqIt : lqIt (lpos x) = sv_lqIt w;
  sn_htm : inHtm (lhtm x) = false;
  sn_data : length (e_data (sv_e w)) = n;
  sn_memData : committed (sv_e w) = false -> memData x = None;
  sn_request : sv_size w <> 0 -> exists r, e_request (base (sv_e w)) = Some r /\ rq_size r = sv_size w /\
    0 < rq_size r < 2 ^ 31 /\ (isAllZeros (sv_e w) = false -> rq_size r <= Z.of_nat n) /\
    effAddrValid (laddr x) = true /\ effAddr (laddr x) = rq_vaddr r /\ effSize (laddr x) = rq_size r /\
    strictlyOrdered (laddr x) = isStrictlyOrdered r /\ 0 <= rq_vaddr r /\ rq_vaddr r + rq_size r < 2 ^ 64 /\
    (isStoreConditional (static x) = true -> isLocalAccess r = false)
}.

Definition load_link (s : Lsq) (idx : Z) (v : LV) : Prop :=
  e_valid (lv_e v) = true /\ e_inst (lv_e v) = Some (lv_id v) /\
  exists x, insts s !! lv_id v = Some x /\ load_inst idx v x.

Definition store_link (n : nat) (s : Lsq) (idx : Z) (w : SV) : Prop :=
  e_valid (base (sv_e w)) = true /\ e_inst (base (sv_e w)) = Some (sv_id w) /\
  exists x, insts s !! sv_id w = Some x /\ store_inst n idx w x.

(** ** Order

    [hl] and [hs] are the heads of the queues and [wb] the store that is written
    back next. *)
Record order_ok (lvs : list LV) (svs : list SV) (hl hs wb : Z) : Prop := {
  oo_loads : StronglySorted Z.lt (lv_seq <$> lvs);
  oo_stores : StronglySorted Z.lt (sv_seq <$> svs);
  oo_sqIt v j w : v ∈ lvs -> svs !! j = Some w -> hs + Z.of_nat j < lv_sqIt v <-> sv_seq w < lv_seq v;
  oo_lqIt k v w : lvs !! k = Some v -> w ∈ svs -> hl + Z.of_nat k < sv_lqIt w <-> lv_seq v < sv_seq w;
  oo_sqIt_range v : v ∈ lvs -> wb <= lv_sqIt v <= hs + Z.of_nat (length svs);
  oo_lqIt_head w : w ∈ svs -> canWB (sv_e w) = false -> hl <= sv_lqIt w;
  oo_prefix j j' w w' : (j' <= j)%nat -> svs !! j = Some w -> svs !! j' = Some w' -> canWB (sv_e w) = true -> canWB (sv_e w') = true;
  oo_wb : hs <= wb <= hs + Z.of_nat (length svs);
  oo_done j w : svs !! j = Some w -> hs + Z.of_nat j < wb -> canWB (sv_e w) = true;
  oo_completed j w : svs !! j = Some w -> completed (sv_e w) = true -> hs + Z.of_nat j < wb;
  oo_distinct v w : v ∈ lvs -> w ∈ svs -> lv_seq v <> sv_seq w
}.

(** A store never points past the end of the load queue. *)
Definition ends_ok (lvs : list LV) (svs : list SV) (hl : Z) : Prop := forall w, w ∈ svs -> sv_lqIt w <= hl + Z.of_nat (length lvs).

(** A store that commits is older than the loads in the queue. *)
Definition commit_ok (lvs : list LV) (svs : list SV) : Prop := forall w v, w ∈ svs -> v ∈ lvs -> canWB (sv_e w) = true -> sv_seq w < lv_seq v.

(** The stores waiting to be written back. *)
Definition to_write_back (w : SV) : bool := canWB (sv_e w) && negb (completed (sv_e w)).

Definition count_wb (svs : list SV) : Z := Z.of_nat (length (filter (fun w => to_write_back w = true) svs)).

(** ** The unit *)

Record rep (n : nat) (s : Lsq) (lvs : list LV) (svs : list SV) : Prop := {
  re_lq : cq_rep lq_free (loadQueue s) (lv_e <$> lvs);
  re_sq : cq_rep (sq_free n) (storeQueue s) (sv_e <$> svs);
  re_small : cq_capacity (storeQueue s) < 2 ^ 31;
  re_load k v : lvs !! k = Some v -> load_link s (cq_head (loadQueue s) + Z.of_nat k) v;
  re_store k w : svs !! k = Some w -> store_link n s (cq_head (storeQueue s) + Z.of_nat k) w;
  re_order : order_ok lvs svs (cq_head (loadQueue s)) (cq_head (storeQueue s)) (storeWBIt s);
  re_count : storesToWB s = count_wb svs;
  re_committed j w : svs !! j = Some w -> committed (sv_e w) = true ->
    cq_head (storeQueue s) + Z.of_nat j < storeWBIt s \/ (cq_head (storeQueue s) + Z.of_nat j = storeWBIt s /\ isStoreBlocked s = true);
  re_blocked : isStoreBlocked s = true -> exists j w, svs !! j = Some w /\ cq_head (storeQueue s) + Z.of_nat j = storeWBIt s /\
    canWB (sv_e w) = true /\ sv_size w <> 0;
  re_stall : stalled s = true -> exists k v, lvs !! k = Some v /\ stallingLoadIdx s = cq_head (loadQueue s) + Z.of_nat k /\
    stallingStoreIsn s < lv_seq v;
  re_violator i : memDepViolator s = Some i -> exists v, v ∈ lvs /\ lv_id v = i
}.

(** Completed stores do not stay at the head. *)
Definition head_open (svs : list SV) : Prop := forall w, svs !! 0%nat = Some w -> completed (sv_e w) = false.

(** ** Memory order

    [R] has the numbers of the loads whose violation was reported and that are not
    squashed yet.  A load is covered when it, or an older load, is reported or about
    to be. *)
Definition covered (R : list Z) (s : Lsq) (q : Z) : Prop :=
  (exists r, r ∈ R /\ r <= q) \/ (exists i y, memDepViolator s = Some i /\ insts s !! i = Some y /\ seqNum y <= q).

Definition overlap (a b : LAddr) : Prop := effAddr a < effAddr b + effSize b /\ effAddr b < effAddr a + effSize a.

(** The stores that loads look at. *)
Definition searched (e : LSQEntry) (y : LInst) : Prop :=
  e_size e <> 0 /\ strictlyOrdered (laddr y) = false /\ forall r, e_request e = Some r -> isCacheMaintenance r = false.

Definition placed (x : LInst) : Prop :=
  effAddrValid (laddr x) = true /\ strictlyOrdered (laddr x) = false /\ isDataPrefetch (static x) = false.

Record mem_ok (R : list Z) (s : Lsq) (lvs : list LV) (svs : list SV) : Prop := {
  mo_addr v x : v ∈ lvs -> insts s !! lv_id v = Some x -> effAddrValid (laddr x) = true ->
    0 <= effAddr (laddr x) /\ 0 < effSize (laddr x) /\ effAddr (laddr x) + effSize (laddr x) < 2 ^ 64;
  mo_violating v x : v ∈ lvs -> insts s !! lv_id v = Some x -> violatingStoreSeqNum (memDepInfo x) <> 0 -> covered R s (lv_seq v);
  mo_order v x j w y : v ∈ lvs -> insts s !! lv_id v = Some x -> svs !! j = Some w -> insts s !! sv_id w = Some y ->
    placed x -> searched (base (sv_e w)) y -> sv_seq w < lv_seq v -> storeWBIt s <= cq_head (storeQueue s) + Z.of_nat j ->
    overlap (laddr x) (laddr y) -> sv_seq w <= forwardedFrom (memDepInfo x) \/ covered R s (lv_seq v)
}.

(** ** Shared lemmas *)

Section Lemmas.
Context (n : nat).

Lemma sorted_lt l i j x y : StronglySorted Z.lt l -> (i < j)%nat -> l !! i = Some x -> l !! j = Some y -> x < y.
Proof.
  intros Hs Hij Hi Hj. rewrite <- (take_drop_middle l i x Hi) in Hs. apply StronglySorted_split in Hs as (_ & Hs & _).
  apply StronglySorted_inv in Hs as [_ HF]. rewrite Forall_forall in HF. apply HF.
  apply (list_elem_of_lookup_2 _ (j - S i)). rewrite lookup_drop. by replace (S i + (j - S i))%nat with j by lia.
Qed.

(** Numbers tell the members of a queue apart. *)
Lemma load_seq_inj lvs svs hl hs wb j k v v' : order_ok lvs svs hl hs wb -> lvs !! j = Some v -> lvs !! k = Some v' ->
  lv_seq v = lv_seq v' -> j = k.
Proof.
  intros Ho Hj Hk He. pose proof (oo_loads _ _ _ _ _ Ho) as Hs.
  assert (Hj' : (lv_seq <$> lvs) !! j = Some (lv_seq v)) by (by rewrite list_lookup_fmap, Hj).
  assert (Hk' : (lv_seq <$> lvs) !! k = Some (lv_seq v')) by (by rewrite list_lookup_fmap, Hk).
  destruct (Nat.lt_trichotomy j k) as [H|[H|H]]; [|done|].
  - pose proof (sorted_lt _ _ _ _ _ Hs H Hj' Hk'). lia.
  - pose proof (sorted_lt _ _ _ _ _ Hs H Hk' Hj'). lia.
Qed.

Lemma store_seq_inj lvs svs hl hs wb j k w w' : order_ok lvs svs hl hs wb -> svs !! j = Some w -> svs !! k = Some w' ->
  sv_seq w = sv_seq w' -> j = k.
Proof.
  intros Ho Hj Hk He. pose proof (oo_stores _ _ _ _ _ Ho) as Hs.
  assert (Hj' : (sv_seq <$> svs) !! j = Some (sv_seq w)) by (by rewrite list_lookup_fmap, Hj).
  assert (Hk' : (sv_seq <$> svs) !! k = Some (sv_seq w')) by (by rewrite list_lookup_fmap, Hk).
  destruct (Nat.lt_trichotomy j k) as [H|[H|H]]; [|done|].
  - pose proof (sorted_lt _ _ _ _ _ Hs H Hj' Hk'). lia.
  - pose proof (sorted_lt _ _ _ _ _ Hs H Hk' Hj'). lia.
Qed.

(** Reading the queues. *)
Lemma rep_get_load s lvs svs k v : rep n s lvs svs -> lvs !! k = Some v ->
  cq_get (loadQueue s) (cq_head (loadQueue s) + Z.of_nat k) = Ok (lv_e v).
Proof. intros Hr Hk. eapply cq_rep_get; [apply (re_lq _ _ _ _ Hr)|]. by rewrite list_lookup_fmap, Hk. Qed.

Lemma rep_get_store s lvs svs k w : rep n s lvs svs -> svs !! k = Some w ->
  cq_get (storeQueue s) (cq_head (storeQueue s) + Z.of_nat k) = Ok (sv_e w).
Proof. intros Hr Hk. eapply cq_rep_get; [apply (re_sq _ _ _ _ Hr)|]. by rewrite list_lookup_fmap, Hk. Qed.

Lemma rep_load_inst s lvs svs k v : rep n s lvs svs -> lvs !! k = Some v ->
  exists x, inst_of (lv_e v) s = Ok (lv_id v, x) /\ insts s !! lv_id v = Some x /\ load_inst (cq_head (loadQueue s) + Z.of_nat k) v x.
Proof.
  intros Hr Hk. destruct (re_load _ _ _ _ Hr k v Hk) as (_ & Hi & x & Hx & Hin). exists x. unfold inst_of. rewrite Hi. cbn [deref rbind].
  by rewrite Hx.
Qed.

Lemma rep_store_inst s lvs svs k w : rep n s lvs svs -> svs !! k = Some w ->
  exists x, inst_of (base (sv_e w)) s = Ok (sv_id w, x) /\ insts s !! sv_id w = Some x /\
    store_inst n (cq_head (storeQueue s) + Z.of_nat k) w x.
Proof.
  intros Hr Hk. destruct (re_store _ _ _ _ Hr k w Hk) as (_ & Hi & x & Hx & Hin). exists x. unfold inst_of. rewrite Hi. cbn [deref rbind].
  by rewrite Hx.
Qed.

Lemma rep_lq_size s lvs svs : rep n s lvs svs -> cq_size (loadQueue s) = Z.of_nat (length lvs) /\
  cq_end (loadQueue s) = cq_head (loadQueue s) + Z.of_nat (length lvs).
Proof.
  intros Hr. pose proof (cr_size _ _ _ (re_lq _ _ _ _ Hr)) as H. rewrite length_fmap in H. unfold cq_end, cq_tail. lia.
Qed.

Lemma rep_sq_size s lvs svs : rep n s lvs svs -> cq_size (storeQueue s) = Z.of_nat (length svs) /\
  cq_end (storeQueue s) = cq_head (storeQueue s) + Z.of_nat (length svs) /\ Z.of_nat (length svs) < 2 ^ 31.
Proof.
  intros Hr. pose proof (re_sq _ _ _ _ Hr) as H. pose proof (cr_size _ _ _ H) as Hs. rewrite length_fmap in Hs.
  pose proof (cr_wf _ _ _ H) as (_ & Hw & _). pose proof (re_small _ _ _ _ Hr). unfold cq_end, cq_tail. lia.
Qed.

(** ** Changes of an instruction object *)

(** What the queues rely on. *)
Definition same_key (x y : LInst) : Prop :=
  seqNum y = seqNum x /\ static y = static x /\ lpos y = lpos x /\ lhtm y = lhtm x.

Lemma load_inst_key idx v x y : same_key x y -> load_inst idx v x -> load_inst idx v y.
Proof. intros (E1 & E2 & E3 & E4) [? ? ? ? ? ? ? ?]. split; rewrite ?E1, ?E2, ?E3, ?E4; done. Qed.

Lemma store_inst_key idx w x y : same_key x y -> laddr y = laddr x \/ sv_size w = 0 -> (committed (sv_e w) = false -> memData x = None -> memData y = None) ->
  store_inst n idx w x -> store_inst n idx w y.
Proof.
  intros (E1 & E2 & E3 & E4) E5 E6 [? ? ? ? ? ? ? ? ? Hr]. split; rewrite ?E1, ?E2, ?E3, ?E4; auto.
  intros Hsz. destruct E5 as [->|E5]; [|done]. by apply Hr.
Qed.

(** The heap changed at the objects of the queues only within what they allow. *)
Lemma rep_heap s lvs svs h : rep n s lvs svs ->
  (forall v x, v ∈ lvs -> insts s !! lv_id v = Some x -> exists y, h !! lv_id v = Some y /\ same_key x y) ->
  (forall w x, w ∈ svs -> insts s !! sv_id w = Some x -> exists y, h !! sv_id w = Some y /\ same_key x y /\ (laddr y = laddr x \/ sv_size w = 0) /\
    (committed (sv_e w) = false -> memData x = None -> memData y = None)) ->
  rep n (with_insts s h) lvs svs.
Proof.
  intros Hr Hl Hs. destruct Hr as [H1 H2 H3 H4 H5 H6 H7 H8 H9 H10 H11]. split; try done.
  - intros k v Hk. destruct (H4 k v Hk) as (Hv & Hi & x & Hx & Hin). split; [done|]. split; [done|].
    destruct (Hl v x) as (y & Hy & Hky); [by eapply list_elem_of_lookup_2|done|]. exists y. split; [done|]. by eapply load_inst_key.
  - intros k w Hk. destruct (H5 k w Hk) as (Hv & Hi & x & Hx & Hin). split; [done|]. split; [done|].
    destruct (Hs w x) as (y & Hy & Hky & Ha & Hm); [by eapply list_elem_of_lookup_2|done|]. exists y. split; [done|]. by eapply store_inst_key.
Qed.

(** One object changes. *)
Lemma rep_modify s lvs svs i f x : rep n s lvs svs -> insts s !! i = Some x -> same_key x (f x) ->
  (forall w, w ∈ svs -> sv_id w = i -> (laddr (f x) = laddr x \/ sv_size w = 0) /\ (committed (sv_e w) = false -> memData x = None -> memData (f x) = None)) ->
  modify i f s = Ok (with_insts s (<[i := f x]> (insts s))) /\ rep n (with_insts s (<[i := f x]> (insts s))) lvs svs.
Proof.
  intros Hr Hi Hk Hs. split; [unfold modify; by rewrite Hi|]. apply rep_heap; [done|..].
  - intros v y Hv Hy. destruct (decide (i = lv_id v)) as [->|Hne].
    + exists (f x). rewrite lookup_insert_eq. split; [done|]. congruence.
    + exists y. by rewrite lookup_insert_ne.
  - intros w y Hw Hy. destruct (decide (i = sv_id w)) as [->|Hne].
    + exists (f x). rewrite lookup_insert_eq. destruct (Hs w Hw eq_refl) as [Ha Hm]. assert (y = x) by congruence. subst y. done.
    + exists y. rewrite lookup_insert_ne by done. repeat split; auto.
Qed.

(** Loads and stores are different objects. *)
Lemma load_not_store s lvs svs k v j w : rep n s lvs svs -> lvs !! k = Some v -> svs !! j = Some w -> sv_id w <> lv_id v.
Proof.
  intros Hr Hk Hj Heq. destruct (rep_load_inst _ _ _ _ _ Hr Hk) as (x & _ & Hx & Hlx). destruct (rep_store_inst _ _ _ _ _ Hr Hj) as (y & _ & Hy & Hly).
  rewrite Heq, Hx in Hy. inv Hy. pose proof (ln_load _ _ _ Hlx). pose proof (sn_load _ _ _ _ Hly). congruence.
Qed.

(** A load changes, stores are not concerned. *)
Lemma rep_modify_load s lvs svs k v x f : rep n s lvs svs -> lvs !! k = Some v -> insts s !! lv_id v = Some x -> same_key x (f x) ->
  modify (lv_id v) f s = Ok (with_insts s (<[lv_id v := f x]> (insts s))) /\ rep n (with_insts s (<[lv_id v := f x]> (insts s))) lvs svs.
Proof.
  intros Hr Hk Hx Hkey. apply rep_modify; [done..|]. intros w [j Hj]%list_elem_of_lookup_1 He.
  by destruct (load_not_store _ _ _ _ _ _ _ Hr Hk Hj).
Qed.

Lemma rep_act s lvs svs a : rep n s lvs svs -> rep n (act a s) lvs svs.
Proof. intros [? ? ? ? ? ? ? ? ? ? ?]. by split. Qed.

Lemma rep_violator s lvs svs i : rep n s lvs svs -> (forall j, i = Some j -> exists v, v ∈ lvs /\ lv_id v = j) -> rep n (with_violator s i) lvs svs.
Proof. intros [? ? ? ? ? ? ? ? ? ? ?] Hi. split; try done. Qed.

(** ** Steps that keep addresses, dependences and the violator *)

Definition heap_le (h h' : gmap nat LInst) : Prop :=
  forall i x, h !! i = Some x -> exists y, h' !! i = Some y /\
    (seqNum y = seqNum x /\ static y = static x) /\ laddr y = laddr x /\ memDepInfo y = memDepInfo x.

Record quiet (s : Lsq) (lvs : list LV) (svs : list SV) (s' : Lsq) (lvs' : list LV) (svs' : list SV) : Prop := {
  qu_heap : heap_le (insts s) (insts s');
  qu_violator : memDepViolator s' = memDepViolator s;
  qu_loads v : v ∈ lvs' -> exists v0, v0 ∈ lvs /\ lv_id v = lv_id v0 /\ lv_seq v = lv_seq v0;
  qu_stores j w : svs' !! j = Some w -> storeWBIt s' <= cq_head (storeQueue s') + Z.of_nat j ->
    exists j0 w0, svs !! j0 = Some w0 /\ storeWBIt s <= cq_head (storeQueue s) + Z.of_nat j0 /\
      sv_id w = sv_id w0 /\ sv_seq w = sv_seq w0 /\ base (sv_e w) = base (sv_e w0)
}.

Lemma heap_le_refl h : heap_le h h.
Proof. intros i x Hx. by exists x. Qed.

Lemma heap_le_trans h1 h2 h3 : heap_le h1 h2 -> heap_le h2 h3 -> heap_le h1 h3.
Proof.
  intros H12 H23 i x Hx. destruct (H12 i x Hx) as (y & Hy & [Hk Hs] & Ha & Hd). destruct (H23 i y Hy) as (z & Hz & [Hk' Hs'] & Ha' & Hd').
  exists z. split_and!; congruence.
Qed.

Lemma heap_le_insert h i x y : h !! i = Some x -> seqNum y = seqNum x -> static y = static x -> laddr y = laddr x -> memDepInfo y = memDepInfo x -> heap_le h (<[i := y]> h).
Proof.
  intros Hx Hk Hs Ha Hd j z Hz. destruct (decide (i = j)) as [->|Hne].
  - exists y. rewrite lookup_insert_eq. assert (z = x) by congruence. by subst z.
  - exists z. by rewrite lookup_insert_ne.
Qed.

Lemma quiet_heap s lvs svs s' : heap_le (insts s) (insts s') -> memDepViolator s' = memDepViolator s ->
  storeQueue s' = storeQueue s -> storeWBIt s' = storeWBIt s -> quiet s lvs svs s' lvs svs.
Proof. intros Hh Hv Hq Hw. split; [done|done|by eauto|]. rewrite Hq, Hw. eauto 10. Qed.

Lemma lsq_quiet_refl s lvs svs : quiet s lvs svs s lvs svs.
Proof. apply quiet_heap; [apply heap_le_refl|done..]. Qed.

Lemma quiet_trans s1 l1 t1 s2 l2 t2 s3 l3 t3 : quiet s1 l1 t1 s2 l2 t2 -> quiet s2 l2 t2 s3 l3 t3 -> quiet s1 l1 t1 s3 l3 t3.
Proof.
  intros [A1 B1 C1 D1] [A2 B2 C2 D2]. split; [by eapply heap_le_trans|congruence|..].
  - intros v Hv. destruct (C2 v Hv) as (v0 & Hv0 & -> & ->). by apply C1.
  - intros j w Hj Hp. destruct (D2 j w Hj Hp) as (j0 & w0 & Hj0 & Hp0 & -> & -> & ->). by apply (D1 j0).
Qed.

Lemma covered_quiet R s lvs svs s' lvs' svs' q : quiet s lvs svs s' lvs' svs' -> covered R s q -> covered R s' q.
Proof.
  intros [Hh Hv _ _] [Hr|(i & y & Hi & Hy & Hle)]; [by left|]. right. destruct (Hh i y Hy) as (z & Hz & (Hk & _) & _).
  exists i, z. rewrite Hv, Hk. done.
Qed.

(** The invariant of memory order goes along as long as nothing becomes uncovered. *)
Lemma mem_mono R s lvs svs s' lvs' svs' : rep n s lvs svs -> heap_le (insts s) (insts s') -> (forall q, covered R s q -> covered R s' q) ->
  (forall v, v ∈ lvs' -> exists v0, v0 ∈ lvs /\ lv_id v = lv_id v0 /\ lv_seq v = lv_seq v0) ->
  (forall j w, svs' !! j = Some w -> storeWBIt s' <= cq_head (storeQueue s') + Z.of_nat j ->
    exists j0 w0, svs !! j0 = Some w0 /\ storeWBIt s <= cq_head (storeQueue s) + Z.of_nat j0 /\
      sv_id w = sv_id w0 /\ sv_seq w = sv_seq w0 /\ base (sv_e w) = base (sv_e w0)) ->
  mem_ok R s lvs svs -> mem_ok R s' lvs' svs'.
Proof.
  intros Hr Hh Hcov Hl Hs [H1 H2 H3].
  assert (HL : forall v y, v ∈ lvs' -> insts s' !! lv_id v = Some y -> exists v0 x, v0 ∈ lvs /\ lv_seq v = lv_seq v0 /\ insts s !! lv_id v0 = Some x /\
    laddr y = laddr x /\ memDepInfo y = memDepInfo x /\ static y = static x).
  { intros v y Hin Hy. destruct (Hl v Hin) as (v0 & Hv0 & Ei & Es). destruct (list_elem_of_lookup_1 _ _ Hv0) as [k Hk].
    destruct (rep_load_inst _ _ _ _ _ Hr Hk) as (x & _ & Hx & _). destruct (Hh _ x Hx) as (z & Hz & (_ & Hst) & Ha & Hd).
    exists v0, x. rewrite Ei in Hy. assert (z = y) by congruence. by subst z. }
  split.
  - intros v y Hin Hy. destruct (HL v y Hin Hy) as (v0 & x & Hv0 & Es & Hx & -> & _). by apply (H1 v0).
  - intros v y Hin Hy. destruct (HL v y Hin Hy) as (v0 & x & Hv0 & -> & Hx & _ & -> & _). intros Hne. apply Hcov. by apply (H2 v0 x).
  - intros v y j w b Hin Hy Hj Hb Hp Hse Hlt Hwb Hov. destruct (HL v y Hin Hy) as (v0 & x & Hv0 & Es & Hx & Ea & Ed & Est).
    destruct (Hs j w Hj Hwb) as (j0 & w0 & Hj0 & Hp0 & Ei & Ese & Eb). destruct (rep_store_inst _ _ _ _ _ Hr Hj0) as (b0 & _ & Hb0 & _).
    destruct (Hh _ b0 Hb0) as (z & Hz & _ & Haz & _). rewrite Ei in Hb. assert (z = b) by congruence. subst z.
    unfold placed, searched in *. rewrite Ed, Ese, Es in *. rewrite Ea, Est in Hp. rewrite Eb, Haz in Hse. rewrite Ea, Haz in Hov.
    destruct (H3 v0 x j0 w0 b0) as [|Hc]; try done; [by left|]. right. by apply Hcov.
Qed.

Lemma mem_quiet R s lvs svs s' lvs' svs' : rep n s lvs svs -> quiet s lvs svs s' lvs' svs' -> mem_ok R s lvs svs -> mem_ok R s' lvs' svs'.
Proof. intros Hr Hq. pose proof Hq as [Hh Hv Hl Hs]. apply mem_mono; try done. intros q. by eapply covered_quiet. Qed.

(** New members of the queues. *)
Lemma mem_push_load R s lvs svs v y : mem_ok R s lvs svs -> insts s !! lv_id v = Some y -> effAddrValid (laddr y) = false ->
  violatingStoreSeqNum (memDepInfo y) = 0 -> mem_ok R s (lvs ++ [v]) svs.
Proof.
  intros [H1 H2 H3] Hy Ha Hd. assert (Hin : forall u, u ∈ lvs ++ [v] -> u ∈ lvs \/ u = v) by set_solver. split.
  - intros u x [Hu | ->]%Hin Hx; [by apply (H1 u)|]. congruence.
  - intros u x [Hu | ->]%Hin Hx Hne; [by eapply H2|]. congruence.
  - intros u x j w b [Hu | ->]%Hin Hx Hj Hb Hp; [by eapply H3|]. destruct Hp as [Hp _]. congruence.
Qed.

Lemma mem_push_store R s lvs svs w : mem_ok R s lvs svs -> sv_size w = 0 -> mem_ok R s lvs (svs ++ [w]).
Proof.
  intros [H1 H2 H3] Hz. split; [done|done|]. intros v x j u b Hv Hx Hj Hb Hp Hs. apply lookup_app_Some in Hj as [Hj|[_ Hj]]; [by eapply H3|].
  apply list_lookup_singleton_Some in Hj as [_ <-]. by destruct Hs.
Qed.

(** ** The invariant of the unit *)

Record inv (R : list Z) (s : Lsq) (lvs : list LV) (svs : list SV) : Prop := {
  in_rep : rep n s lvs svs;
  in_ends : ends_ok lvs svs (cq_head (loadQueue s));
  in_commit : commit_ok lvs svs;
  in_head : head_open svs;
  in_mem : mem_ok R s lvs svs
}.
End Lemmas.
