(* ===== verification/LsqOps.v ===== *)
(** * Insertion, commit, write-back and squash of the load/store queue

    Each operation of [LSQUnit] on the list view of the queues: it does not fail and
    keeps the invariant. *)

From Stdlib Require Import ZArith Lia Bool.
From stdpp Require Import base tactics option list numbers gmap sorting.
From S2P Require Import Prelude CircularQueue Lsq LsqInv.
Open Scope Z_scope.

Implicit Types (s : Lsq) (lvs : list LV) (svs : list SV) (v : LV) (w : SV) (j k : nat).

(** ** Changes of the order *)

(** Another entry for a store. *)
Definition sv_with (w : SV) (e : SQEntry) : SV := mkSV e (sv_id w) (sv_seq w) (sv_lqIt w).

Lemma seqs_insert svs k w e : svs !! k = Some w -> sv_seq <$> <[k := sv_with w e]> svs = sv_seq <$> svs.
Proof. intros Hk. rewrite list_fmap_insert. cbn [sv_with sv_seq]. apply list_insert_id. by rewrite list_lookup_fmap, Hk. Qed.

(** A member of the changed list is a member of the old one, with its entry changed at [k]. *)
Lemma insert_inv svs k w e j w' : svs !! k = Some w -> <[k := sv_with w e]> svs !! j = Some w' ->
  exists w0, svs !! j = Some w0 /\ sv_id w' = sv_id w0 /\ sv_seq w' = sv_seq w0 /\ sv_lqIt w' = sv_lqIt w0 /\
    ((j = k /\ w' = sv_with w e /\ w0 = w) \/ (j <> k /\ w' = w0)).
Proof.
  intros Hk Hj. destruct (decide (j = k)) as [->|Hne].
  - rewrite list_lookup_insert_eq in Hj by (by apply lookup_lt_Some in Hk). inv Hj. exists w. repeat split; auto.
  - rewrite list_lookup_insert_ne in Hj by done. exists w'. repeat split; auto.
Qed.

Lemma order_set lvs svs hl hs wb k w e : order_ok lvs svs hl hs wb -> svs !! k = Some w ->
  (canWB (sv_e w) = true -> canWB e = true) ->
  (canWB e = true -> canWB (sv_e w) = true \/ forall j w', (j < k)%nat -> svs !! j = Some w' -> canWB (sv_e w') = true) ->
  (completed e = true -> hs + Z.of_nat k < wb) -> order_ok lvs (<[k := sv_with w e]> svs) hl hs wb.
Proof.
  intros [H1 H2 H3 H4 H5 H6 H8 H9 H10 H11 H12] Hk Hup Hdown Hcomp. pose proof (insert_inv svs k w e) as Hinv.
  split; rewrite ?(seqs_insert _ _ _ _ Hk), ?length_insert; try done.
  - intros v j w' Hv Hj. destruct (Hinv j w' Hk Hj) as (w0 & Hj0 & _ & -> & _). by apply H3.
  - intros i v w' Hi [j Hj]%list_elem_of_lookup_1. destruct (Hinv j w' Hk Hj) as (w0 & Hj0 & _ & -> & -> & _). apply H4; [done|].
    by eapply list_elem_of_lookup_2.
  - intros w' [j Hj]%list_elem_of_lookup_1 Hc. destruct (Hinv j w' Hk Hj) as (w0 & Hj0 & _ & _ & -> & Hcase).
    apply H6; [by eapply list_elem_of_lookup_2|]. destruct Hcase as [(-> & -> & ->)|[_ ->]]; [|done].
    cbn [sv_with sv_e] in Hc. destruct (canWB (sv_e w)); [by rewrite Hup in Hc|done].
  - intros j j' w1 w2 Hle Hj Hj' Hc. destruct (Hinv j w1 Hk Hj) as (a & Ha & _ & _ & _ & Hca). destruct (Hinv j' w2 Hk Hj') as (b & Hb & _ & _ & _ & Hcb).
    assert (Hold : canWB (sv_e a) = true -> canWB (sv_e w2) = true).
    { intros Hca'. pose proof (H8 j j' a b Hle Ha Hb Hca') as Hcb'. destruct Hcb as [(-> & -> & ->)|[_ ->]]; [by apply Hup|done]. }
    destruct Hca as [(-> & -> & ->)|[_ ->]]; [|by apply Hold]. cbn [sv_with sv_e] in Hc. destruct (Hdown Hc) as [Hc'|Hd]; [by apply Hold|].
    destruct Hcb as [(-> & -> & ->)|[Hne ->]]; [done|]. apply (Hd j'); [lia|done].
  - intros j w' Hj Hlt. destruct (Hinv j w' Hk Hj) as (w0 & Hj0 & _ & _ & _ & [(-> & -> & ->)|[_ ->]]); [|by eapply H10].
    apply Hup. by eapply H10.
  - intros j w' Hj Hc. destruct (Hinv j w' Hk Hj) as (w0 & Hj0 & _ & _ & _ & [(-> & -> & ->)|[_ ->]]); [by apply Hcomp|by eapply H11].
  - intros v w' Hv [j Hj]%list_elem_of_lookup_1. destruct (Hinv j w' Hk Hj) as (w0 & Hj0 & _ & -> & _). apply H12; [done|by eapply list_elem_of_lookup_2].
Qed.

(** The oldest load leaves: the stores that wait for commit are younger. *)
Lemma order_pop_front_load v lvs svs hl hs wb : order_ok (v :: lvs) svs hl hs wb ->
  (forall w, w ∈ svs -> canWB (sv_e w) = false -> lv_seq v < sv_seq w) -> order_ok lvs svs (hl + 1) hs wb.
Proof.
  intros [H1 H2 H3 H4 H5 H6 H8 H9 H10 H11 H12] Hc. split; try done.
  - cbn [fmap list_fmap] in H1. by apply StronglySorted_inv in H1 as [? _].
  - intros u j w Hu. apply H3. by right.
  - intros k u w Hk Hw. rewrite <- (H4 (S k) u w Hk Hw). lia.
  - intros u Hu. apply H5. by right.
  - intros w Hw Hf. pose proof (proj2 (H4 0%nat v w eq_refl Hw) (Hc w Hw Hf)). lia.
  - intros u w Hu. apply H12. by right.
Qed.

(** The youngest load leaves. *)
Lemma order_pop_back_load v lvs svs hl hs wb : order_ok (lvs ++ [v]) svs hl hs wb -> order_ok lvs svs hl hs wb.
Proof.
  intros [H1 H2 H3 H4 H5 H6 H8 H9 H10 H11 H12]. split; try done.
  - rewrite fmap_app in H1. by apply StronglySorted_split in H1 as (? & _).
  - intros u j w Hu. apply H3. set_solver.
  - intros k u w Hk. apply H4. by apply lookup_app_l_Some.
  - intros u Hu. apply H5. set_solver.
  - intros u w Hu. apply H12. set_solver.
Qed.

(** The oldest store leaves once it was handed to memory. *)
Lemma order_pop_front_store w lvs svs hl hs wb : order_ok lvs (w :: svs) hl hs wb -> hs < wb -> order_ok lvs svs hl (hs + 1) wb.
Proof.
  intros [H1 H2 H3 H4 H5 H6 H8 H9 H10 H11 H12] Hlt. cbn [length] in *. split; try done.
  - cbn [fmap list_fmap] in H2. by apply StronglySorted_inv in H2 as [? _].
  - intros v j u Hv Hj. rewrite <- (H3 v (S j) u Hv Hj). lia.
  - intros k v u Hk Hu. apply H4; [done|by right].
  - intros v Hv. pose proof (H5 v Hv). lia.
  - intros u Hu. apply H6. by right.
  - intros j j' u u' Hle Hj Hj'. apply (H8 (S j) (S j')); [lia|done..].
  - lia.
  - intros j u Hj Hp. apply (H10 (S j) u Hj). lia.
  - intros j u Hj Hp. pose proof (H11 (S j) u Hj Hp). lia.
  - intros v u Hv Hu. apply H12; [done|by right].
Qed.

(** The youngest store leaves: no load is younger, and it did not commit. *)
Lemma order_pop_back_store w lvs svs hl hs wb : order_ok lvs (svs ++ [w]) hl hs wb -> canWB (sv_e w) = false ->
  (forall v, v ∈ lvs -> lv_seq v <= sv_seq w) -> order_ok lvs svs hl hs wb.
Proof.
  intros [H1 H2 H3 H4 H5 H6 H8 H9 H10 H11 H12] Hc Hv. rewrite length_app in *. cbn [length] in *.
  assert (Hw : (svs ++ [w]) !! length svs = Some w) by (by apply list_lookup_middle).
  assert (Hl : forall j u, svs !! j = Some u -> (svs ++ [w]) !! j = Some u) by (intros; by apply lookup_app_l_Some). split; try done.
  - rewrite fmap_app in H2. by apply StronglySorted_split in H2 as (? & _).
  - intros v j u Hin Hj. by apply H3, Hl.
  - intros k v u Hk Hu. apply H4; [done|set_solver].
  - intros v Hin. pose proof (H5 v Hin). pose proof (Hv v Hin). destruct (H3 v (length svs) w Hin Hw) as [Hlt _]. lia.
  - intros u Hu. apply H6. set_solver.
  - intros j j' u u' Hle Hj Hj'. eapply H8; [done|by apply Hl..].
  - split; [lia|]. destruct (Z.le_gt_cases wb (hs + Z.of_nat (length svs))) as [|Hgt]; [done|].
    assert (canWB (sv_e w) = true) by (eapply H10; [done|lia]). congruence.
  - intros j u Hj Hp. eapply H10; [by apply Hl|done].
  - intros j u Hj Hp. eapply H11; [by apply Hl|done].
  - intros v u Hin Hu. apply H12; [done|set_solver].
Qed.

(** A committed store is handed to memory. *)
Lemma order_write_back lvs svs hl hs wb j w : order_ok lvs svs hl hs wb -> svs !! j = Some w -> hs + Z.of_nat j = wb ->
  canWB (sv_e w) = true -> commit_ok lvs svs -> order_ok lvs svs hl hs (wb + 1).
Proof.
  intros [H1 H2 H3 H4 H5 H6 H8 H9 H10 H11 H12] Hj Hwb Hc H7. pose proof (lookup_lt_Some _ _ _ Hj). split; try done; [|lia|..].
  - intros v Hv. pose proof (H5 v Hv). pose proof (H7 w v ltac:(by eapply list_elem_of_lookup_2) Hv Hc) as Hlt.
    apply (H3 v j w Hv Hj) in Hlt. lia.
  - intros i u Hi Hlt. destruct (Z.eq_dec (hs + Z.of_nat i) wb); [|eapply H10; [done|lia]]. assert (i = j) by lia. congruence.
  - intros i u Hi Hcu. pose proof (H11 i u Hi Hcu). lia.
Qed.

(** Insertion at the young end. *)
Lemma order_push_load v lvs svs hl hs wb : order_ok lvs svs hl hs wb -> ends_ok lvs svs hl ->
  (forall u, u ∈ lvs -> lv_seq u < lv_seq v) -> (forall w, w ∈ svs -> sv_seq w < lv_seq v) ->
  lv_sqIt v = hs + Z.of_nat (length svs) -> order_ok (lvs ++ [v]) svs hl hs wb.
Proof.
  intros [H1 H2 H3 H4 H5 H6 H8 H9 H10 H11 H12] He Hl Hs Hit.
  assert (Hin : forall u, u ∈ lvs ++ [v] -> u ∈ lvs \/ u = v) by set_solver. split; try done.
  - rewrite fmap_app. apply StronglySorted_app_all; [done|by repeat constructor|].
    intros a b (u & -> & Hu)%list_elem_of_fmap ->%list_elem_of_singleton. by apply Hl.
  - intros u j w [Hu | ->]%Hin Hj; [by apply H3|]. pose proof (lookup_lt_Some _ _ _ Hj).
    pose proof (Hs w ltac:(by eapply list_elem_of_lookup_2)). lia.
  - intros k u w Hk Hw. apply lookup_app_Some in Hk as [Hk|[Hle Hk]]; [by apply H4|]. pose proof (He w Hw).
    apply list_lookup_singleton_Some in Hk as [? <-]. pose proof (Hs w Hw). lia.
  - intros u [Hu | ->]%Hin; [by apply H5|]. lia.
  - intros u w [Hu | ->]%Hin Hw; [by apply H12|]. pose proof (Hs w Hw). lia.
Qed.

Lemma order_push_store w lvs svs hl hs wb : order_ok lvs svs hl hs wb -> canWB (sv_e w) = false -> completed (sv_e w) = false ->
  (forall v, v ∈ lvs -> lv_seq v < sv_seq w) -> (forall u, u ∈ svs -> sv_seq u < sv_seq w) ->
  sv_lqIt w = hl + Z.of_nat (length lvs) -> order_ok lvs (svs ++ [w]) hl hs wb.
Proof.
  intros [H1 H2 H3 H4 H5 H6 H8 H9 H10 H11 H12] Hc Hd Hl Hs Hit.
  assert (Hin : forall u, u ∈ svs ++ [w] -> u ∈ svs \/ u = w) by set_solver.
  assert (Hat : forall j u, (svs ++ [w]) !! j = Some u -> svs !! j = Some u \/ (j = length svs /\ u = w)).
  { intros j u [Hj|[Hle Hj]]%lookup_app_Some; [by left|]. apply list_lookup_singleton_Some in Hj as [? <-]. right. split; [lia|done]. }
  split; rewrite ?length_app; cbn [length]; try done.
  - rewrite fmap_app. apply StronglySorted_app_all; [done|by repeat constructor|].
    intros a b (u & -> & Hu)%list_elem_of_fmap ->%list_elem_of_singleton. by apply Hs.
  - intros v j u Hv [Hj|[-> ->]]%Hat; [by apply H3|]. pose proof (H5 v Hv). pose proof (Hl v Hv). lia.
  - intros k v u Hk [Hu | ->]%Hin; [by apply H4|]. pose proof (lookup_lt_Some _ _ _ Hk).
    pose proof (Hl v ltac:(by eapply list_elem_of_lookup_2)). lia.
  - intros v Hv. pose proof (H5 v Hv). lia.
  - intros u [Hu | ->]%Hin; [by apply H6|]. lia.
  - intros j j' u u' Hle [Hj|[-> ->]]%Hat Hj' Hcu; [|congruence]. apply Hat in Hj' as [Hj'|[-> ->]]; [by eapply H8|].
    apply lookup_lt_Some in Hj. lia.
  - lia.
  - intros j u [Hj|[-> ->]]%Hat Hlt; [by eapply H10|lia].
  - intros j u [Hj|[-> ->]]%Hat Hcu; [by eapply H11|congruence].
  - intros v u Hv [Hu | ->]%Hin; [by apply H12|]. pose proof (Hl v Hv). lia.
Qed.

(** ** Counting *)

Lemma count_app svs svs' : count_wb (svs ++ svs') = count_wb svs + count_wb svs'.
Proof. unfold count_wb. rewrite filter_app, length_app. lia. Qed.

Lemma count_one w : count_wb [w] = Z.b2z (to_write_back w).
Proof. unfold count_wb. cbn [filter list_filter]. case_decide as H; [by rewrite H|]. by destruct (to_write_back w). Qed.

Lemma count_cons w svs : count_wb (w :: svs) = Z.b2z (to_write_back w) + count_wb svs.
Proof. by rewrite <- count_one, <- count_app. Qed.

Lemma count_set svs k w w' : svs !! k = Some w -> count_wb (<[k := w']> svs) = count_wb svs - Z.b2z (to_write_back w) + Z.b2z (to_write_back w').
Proof.
  intros Hk. pose proof (lookup_lt_Some _ _ _ Hk). rewrite insert_take_drop by done. rewrite <- (take_drop_middle svs k w Hk) at 3.
  rewrite !count_app, !count_cons. lia.
Qed.

Lemma count_bound svs : 0 <= count_wb svs <= Z.of_nat (length svs).
Proof. unfold count_wb. pose proof (length_filter (fun w => to_write_back w = true) svs). lia. Qed.

(** ** Changes of an entry *)

Section Entries.
Context (n : nat).

(** A store's entry is replaced, and the count with it. *)
Lemma rep_store_entry s lvs svs k w e c : rep n s lvs svs -> svs !! k = Some w ->
  order_ok lvs (<[k := sv_with w e]> svs) (cq_head (loadQueue s)) (cq_head (storeQueue s)) (storeWBIt s) ->
  e_valid (base e) = true -> e_inst (base e) = Some (sv_id w) ->
  (forall x, store_inst n (cq_head (storeQueue s) + Z.of_nat k) w x -> insts s !! sv_id w = Some x ->
    store_inst n (cq_head (storeQueue s) + Z.of_nat k) (sv_with w e) x) ->
  (canWB (sv_e w) = true -> canWB e = true) -> (sv_size w <> 0 -> e_size (base e) <> 0) ->
  (committed e = true -> committed (sv_e w) = true \/ cq_head (storeQueue s) + Z.of_nat k < storeWBIt s \/
    (cq_head (storeQueue s) + Z.of_nat k = storeWBIt s /\ isStoreBlocked s = true)) ->
  c = count_wb (<[k := sv_with w e]> svs) ->
  exists sq', cq_set (storeQueue s) (cq_head (storeQueue s) + Z.of_nat k) e = Ok sq' /\ cq_head sq' = cq_head (storeQueue s) /\
    cq_size sq' = cq_size (storeQueue s) /\ rep n (with_storesToWB (with_sq s sq') c) lvs (<[k := sv_with w e]> svs).
Proof.
  intros Hr Hk Ho Hv Hi Hx Hup Hsz Hcom ->. pose proof Hr as [H1 H2 H3 H4 H5 H6 H7 H8 H9 H10 H11]. pose proof (lookup_lt_Some _ _ _ Hk) as Hlt.
  destruct (cq_rep_set _ _ _ k e H2) as (sq' & Hset & Hrep & Hh & Hc); [by rewrite length_fmap|].
  exists sq'. split; [done|]. split; [done|]. split.
  { pose proof (cr_size _ _ _ Hrep) as Hs. rewrite length_insert, <- (cr_size _ _ _ H2) in Hs. done. }
  pose proof (insert_inv svs k w e) as Hinv.
  split; cbn [loadQueue storeQueue insts storesToWB storeWBIt stalled stallingLoadIdx stallingStoreIsn isStoreBlocked memDepViolator with_storesToWB with_sq];
    rewrite ?Hh, ?Hc; try done.
  - by rewrite list_fmap_insert.
  - intros j w' Hj. destruct (Hinv j w' Hk Hj) as (w0 & Hj0 & _ & _ & _ & [(-> & -> & ->)|[_ ->]]); [|by apply H5].
    destruct (H5 k w Hk) as (_ & _ & x & Hx0 & Hin). split; [done|]. split; [done|]. exists x. split; [done|]. by apply Hx.
  - intros j w' Hj Hc'. destruct (Hinv j w' Hk Hj) as (w0 & Hj0 & _ & _ & _ & [(-> & -> & ->)|[_ ->]]); [|by eapply H8].
    destruct (Hcom Hc') as [Hc0|Hc0]; [by apply (H8 k w)|done].
  - intros Hb. destruct (H9 Hb) as (j & w0 & Hj & Hp & Hcw & Hs). destruct (decide (j = k)) as [->|Hne].
    + exists k, (sv_with w e). assert (w0 = w) by congruence. subst w0. rewrite list_lookup_insert_eq by done. auto.
    + exists j, w0. by rewrite list_lookup_insert_ne.
Qed.

Lemma with_storesToWB_id s : with_storesToWB s (storesToWB s) = s.
Proof. by destruct s. Qed.

(** The entry of a load gets another request. *)
Lemma rep_load_request s lvs svs k v r : rep n s lvs svs -> lvs !! k = Some v ->
  exists s', set_load_request (cq_head (loadQueue s) + Z.of_nat k) r s = Ok s' /\ exists lq', s' = with_lq s lq' /\ cq_head lq' = cq_head (loadQueue s) /\
    cq_size lq' = cq_size (loadQueue s) /\
    rep n s' (<[k := mkLV (setRequest r (lv_e v)) (lv_id v) (lv_seq v) (lv_sqIt v)]> lvs) svs.
Proof.
  intros Hr Hk. pose proof Hr as [H1 H2 H3 H4 H5 H6 H7 H8 H9 H10 H11]. pose proof (lookup_lt_Some _ _ _ Hk) as Hlt.
  unfold set_load_request. rewrite (rep_get_load _ _ _ _ _ _ Hr Hk). cbn [rbind].
  destruct (cq_rep_set _ _ _ k (setRequest r (lv_e v)) H1) as (lq' & Hset & Hrep & Hh & Hc); [by rewrite length_fmap|].
  rewrite Hset. cbn [rbind]. eexists. split; [done|]. exists lq'. split; [done|]. split; [done|]. split.
  { pose proof (cr_size _ _ _ Hrep) as Hs. rewrite length_insert, <- (cr_size _ _ _ H1) in Hs. done. }
  set (v' := mkLV _ _ _ _). assert (Hin : forall j u, <[k := v']> lvs !! j = Some u -> exists u0, lvs !! j = Some u0 /\ lv_id u = lv_id u0 /\
    lv_seq u = lv_seq u0 /\ lv_sqIt u = lv_sqIt u0 /\ e_valid (lv_e u) = e_valid (lv_e u0) /\ e_inst (lv_e u) = e_inst (lv_e u0)).
  { intros j u Hj. destruct (decide (j = k)) as [->|Hne]; [|rewrite list_lookup_insert_ne in Hj by done; eauto 10].
    rewrite list_lookup_insert_eq in Hj by done. inv Hj. eauto 10. }
  assert (Hin' : forall u, u ∈ <[k := v']> lvs -> exists u0, u0 ∈ lvs /\ lv_seq u = lv_seq u0 /\ lv_sqIt u = lv_sqIt u0).
  { intros u [j Hj]%list_elem_of_lookup_1. destruct (Hin j u Hj) as (u0 & Hu0 & _ & E1 & E2 & _). exists u0. split; [by eapply list_elem_of_lookup_2|done]. }
  split; cbn [loadQueue storeQueue insts storesToWB storeWBIt stalled stallingLoadIdx stallingStoreIsn isStoreBlocked memDepViolator with_lq];
    rewrite ?Hh; try done.
  - by rewrite list_fmap_insert.
  - intros j u Hj. destruct (Hin j u Hj) as (u0 & Hj0 & E1 & E2 & E3 & E4 & E5). destruct (H4 j u0 Hj0) as (Hv & Hi & x & Hx & [? ? ? ? ? ? ? ?]).
    unfold load_link. rewrite E4, E5, E1. split; [done|]. split; [done|]. exists x. split; [done|]. split; congruence.
  - clear -H6 Hin Hin' Hk. destruct H6 as [G1 G2 G3 G4 G5 G6 G8 G9 G10 G11 G12]. split; try done.
    + assert (E : lv_seq <$> <[k := v']> lvs = lv_seq <$> lvs); [|by rewrite E].
      rewrite list_fmap_insert. apply list_insert_id. by rewrite list_lookup_fmap, Hk.
    + intros u j w Hu Hj. destruct (Hin' u Hu) as (u0 & Hu0 & -> & ->). by apply G3.
    + intros j u w Hj Hw. destruct (Hin j u Hj) as (u0 & Hj0 & _ & -> & _). by apply G4.
    + intros u Hu. destruct (Hin' u Hu) as (u0 & Hu0 & _ & ->). by apply G5.
    + intros u w Hu Hw. destruct (Hin' u Hu) as (u0 & Hu0 & -> & _). by apply G12.
  - intros Hst. destruct (H10 Hst) as (j & u & Hj & Hp & Hlt'). destruct (decide (j = k)) as [->|Hne].
    + exists k, v'. rewrite list_lookup_insert_eq by done. assert (u = v) by congruence. by subst u.
    + exists j, u. by rewrite list_lookup_insert_ne.
  - intros i Hi. destruct (H11 i Hi) as (u & [j Hj]%list_elem_of_lookup_1 & <-). destruct (decide (j = k)) as [->|Hne].
    + exists v'. assert (u = v) by congruence. subst u. split; [|done]. apply (list_elem_of_lookup_2 _ k). by apply list_lookup_insert_eq.
    + exists u. split; [|done]. apply (list_elem_of_lookup_2 _ j). by rewrite list_lookup_insert_ne.
Qed.
End Entries.

(** ** Commit *)

Section Commit.
Context (n : nat).

(** A store after [commitStores]. *)
Definition commit_sv (Y : Z) (w : SV) : SV :=
  if canWB (sv_e w) || (sv_seq w <=? Y) then sv_with w (set_canWB (sv_e w)) else w.

Lemma commit_sv_id Y w : canWB (sv_e w) = true -> commit_sv Y w = w.
Proof. intros Hc. unfold commit_sv. rewrite Hc. destruct w as [[] ? ? ?]. cbn in *. by subst. Qed.

(** Setting a flag of a store. *)
Lemma store_inst_flags idx w e x : base e = base (sv_e w) -> e_data e = e_data (sv_e w) -> isAllZeros e = isAllZeros (sv_e w) ->
  (committed e = false -> committed (sv_e w) = false) -> store_inst n idx w x -> store_inst n idx (sv_with w e) x.
Proof.
  intros Hb Hd Hz Hc [? ? ? ? ? ? ? ? Hm Hr]. split; cbn [sv_with sv_seq sv_e sv_lqIt]; rewrite ?Hd; auto.
  unfold sv_size in *. cbn [sv_with sv_e]. by rewrite Hb, Hz.
Qed.

Lemma swrap_count svs c : Z.of_nat (length svs) < 2 ^ 31 -> c = count_wb svs -> swrap 32 c = c.
Proof. intros Hl ->. pose proof (count_bound svs). apply swrap_small; unfold in_s; cbn in *; lia. Qed.

Lemma rep_set_canWB s lvs svs k w : rep n s lvs svs -> svs !! k = Some w -> canWB (sv_e w) = false ->
  (forall j w', (j < k)%nat -> svs !! j = Some w' -> canWB (sv_e w') = true) ->
  exists sq', cq_set (storeQueue s) (cq_head (storeQueue s) + Z.of_nat k) (set_canWB (sv_e w)) = Ok sq' /\ cq_head sq' = cq_head (storeQueue s) /\
    cq_size sq' = cq_size (storeQueue s) /\
    rep n (with_storesToWB (with_sq s sq') (swrap 32 (storesToWB s + 1))) lvs (<[k := sv_with w (set_canWB (sv_e w))]> svs).
Proof.
  intros Hr Hk Hc Hp. destruct (re_store _ _ _ _ Hr k w Hk) as (Hv & Hi & x & Hx & Hin).
  destruct (rep_sq_size _ _ _ _ Hr) as (_ & _ & Hlt). pose proof (re_order _ _ _ _ Hr) as Ho.
  assert (Hnc : completed (sv_e w) = false).
  { destruct (completed (sv_e w)) eqn:E; [|done]. pose proof (oo_completed _ _ _ _ _ Ho k w Hk E).
    assert (canWB (sv_e w) = true) by (by eapply (oo_done _ _ _ _ _ Ho)). congruence. }
  assert (E : storesToWB s + 1 = count_wb (<[k := sv_with w (set_canWB (sv_e w))]> svs)).
  { rewrite (re_count _ _ _ _ Hr), (count_set _ _ w) by done. unfold to_write_back. cbn. rewrite Hc, Hnc. cbn. lia. }
  rewrite (swrap_count _ _ ltac:(by rewrite length_insert) E). apply rep_store_entry; try done.
  - apply order_set; try done; [by right|]. cbn. congruence.
  - intros y Hy _. by apply store_inst_flags.
  - intros Hcom. by left.
Qed.

Lemma commit_stores_ok m Y : forall k s lvs svs, rep n s lvs svs -> length svs = (k + m)%nat ->
  (forall j w, (j < k)%nat -> svs !! j = Some w -> canWB (sv_e w) = true) ->
  exists s', commit_stores m (cq_head (storeQueue s) + Z.of_nat k) Y s = Ok s' /\
    rep n s' lvs (take k svs ++ (commit_sv Y <$> drop k svs)) /\
    insts s' = insts s /\ memDepViolator s' = memDepViolator s /\ loadQueue s' = loadQueue s /\ stalled s' = stalled s /\
    stallingLoadIdx s' = stallingLoadIdx s /\ storeWBIt s' = storeWBIt s /\ cq_head (storeQueue s') = cq_head (storeQueue s).
Proof.
  induction m as [|m IH]; intros k s lvs svs Hr Hlen Hpre.
  { exists s. cbn [commit_stores]. split; [done|]. rewrite drop_ge, fmap_nil, app_nil_r, take_ge by lia. done. }
  destruct (lookup_lt_is_Some_2 svs k ltac:(lia)) as [w Hk]. cbn [commit_stores]. rewrite (rep_get_store _ _ _ _ _ _ Hr Hk). cbn [rbind].
  destruct (re_store _ _ _ _ Hr k w Hk) as (Hv & _). rewrite Hv. cbn [assert_ rbind].
  replace (cq_head (storeQueue s) + Z.of_nat k + 1) with (cq_head (storeQueue s) + Z.of_nat (S k)) by lia.
  assert (Hd : drop k svs = w :: drop (S k) svs) by (by apply drop_S).
  destruct (canWB (sv_e w)) eqn:Hc.
  { destruct (IH (S k) s lvs svs Hr ltac:(lia)) as (s' & -> & Hr' & Hrest).
    { intros j u Hj Hu. destruct (decide (j = k)) as [->|]; [congruence|apply (Hpre j); [lia|done]]. }
    exists s'. split; [done|]. split; [|done]. rewrite (take_S_r _ _ w Hk), <- app_assoc in Hr'. rewrite Hd, fmap_cons, commit_sv_id by done. done. }
  destruct (rep_store_inst _ _ _ _ _ _ Hr Hk) as (x & -> & _ & Hin). cbn [rbind]. rewrite (sn_seq _ _ _ _ Hin).
  destruct (Z.ltb_spec Y (sv_seq w)) as [Hlt|Hge].
  { exists s. split; [done|]. split; [|done]. assert (E : commit_sv Y <$> drop k svs = drop k svs); [|by rewrite E, take_drop].
    rewrite <- (list_fmap_id (drop k svs)) at 2. apply list_fmap_ext. intros j u Hj. rewrite lookup_drop in Hj. unfold commit_sv.
    destruct (canWB (sv_e u)) eqn:Hcu; [pose proof (oo_prefix _ _ _ _ _ (re_order _ _ _ _ Hr) (k + j) k u w ltac:(lia) Hj Hk Hcu); congruence|].
    destruct (Z.leb_spec (sv_seq u) Y); [|done]. destruct (decide (j = 0%nat)) as [->|Hne]; [rewrite Nat.add_0_r, Hk in Hj; inv Hj; lia|].
    pose proof (oo_stores _ _ _ _ _ (re_order _ _ _ _ Hr)) as Hs.
    assert (sv_seq w < sv_seq u); [|lia]. apply (sorted_lt _ k (k + j) _ _ Hs); [lia|by rewrite list_lookup_fmap, ?Hk, ?Hj..]. }
  destruct (rep_set_canWB _ _ _ _ _ Hr Hk Hc Hpre) as (sq' & -> & Hh & Hsz & Hr'). cbn [rbind].
  destruct (IH (S k) _ _ _ Hr' ltac:(rewrite length_insert; lia)) as (s' & Hs' & Hr'' & Hrest).
  { intros j u Hj Hu. destruct (decide (j = k)) as [->|Hne].
    - rewrite list_lookup_insert_eq in Hu by lia. by inv Hu.
    - rewrite list_lookup_insert_ne in Hu by done. apply (Hpre j); [lia|done]. }
  cbn [with_storesToWB with_sq storeQueue] in Hs'. rewrite Hh in Hs'. exists s'. split; [done|]. split; [|cbn in Hrest; rewrite Hh in Hrest; done].
  rewrite (take_S_r _ _ (sv_with w (set_canWB (sv_e w)))), take_insert_ge, drop_insert_lt, <- app_assoc in Hr'' by (try apply list_lookup_insert_eq; lia).
  rewrite Hd, fmap_cons. unfold commit_sv at 1. rewrite Hc. destruct (Z.leb_spec (sv_seq w) Y); [done|lia].
Qed.

Lemma commitStores_ok Y s lvs svs : rep n s lvs svs ->
  exists s', commitStores Y s = Ok s' /\ rep n s' lvs (commit_sv Y <$> svs) /\ quiet s lvs svs s' lvs (commit_sv Y <$> svs) /\
    loadQueue s' = loadQueue s /\ stalled s' = stalled s /\ stallingLoadIdx s' = stallingLoadIdx s.
Proof.
  intros Hr. destruct (rep_sq_size _ _ _ _ Hr) as (Hsz & _). unfold commitStores. rewrite Hsz.
  destruct (commit_stores_ok (length svs) Y 0 s lvs svs Hr eq_refl) as (s' & Hs' & Hr' & Hi & Hv & Hl & Hst & Hsi & Hwb & Hh); [lia|].
  rewrite Z.add_0_r in Hs'. unfold cq_begin. rewrite Nat2Z.id, Hs'.
  assert (Hf : (if Z.of_nat (length svs) =? 0 then Ok true else let! e := cq_front (storeQueue s) in Ok (e_valid (base e))) = Ok true).
  { destruct svs as [|w svs']; [done|]. cbn [length]. destruct (Z.eqb_spec (Z.of_nat (S (length svs'))) 0); [lia|].
    rewrite (cq_rep_front _ _ _ _ (re_sq _ _ _ _ Hr)). cbn [rbind]. destruct (re_store _ _ _ _ Hr 0 w eq_refl) as (-> & _). done. }
  rewrite Hf. cbn [rbind assert_]. exists s'. split; [done|]. split; [done|]. split; [|done]. split; [rewrite Hi; apply heap_le_refl|done|by eauto|].
  rewrite Hwb, Hh. intros j w Hj Hp. rewrite list_lookup_fmap in Hj. destruct (svs !! j) as [w0|] eqn:Hj0; [|done]. inv Hj.
  exists j, w0. unfold commit_sv. by destruct (canWB (sv_e w0) || (sv_seq w0 <=? Y)).
Qed.

(** A load may leave: it is not the one the unit waits for, and it is no violator. *)
Definition may_leave s (k : nat) v : Prop :=
  (stalled s = true -> stallingLoadIdx s <> cq_head (loadQueue s) + Z.of_nat k) /\ memDepViolator s <> Some (lv_id v).

Lemma commitLoad_ok s v lvs svs : rep n s (v :: lvs) svs -> (forall w, w ∈ svs -> canWB (sv_e w) = false -> lv_seq v < sv_seq w) ->
  may_leave s 0 v -> exists lq', commitLoad s = Ok (with_lq s lq') /\ cq_head lq' = cq_head (loadQueue s) + 1 /\ rep n (with_lq s lq') lvs svs.
Proof.
  intros Hr Hyoung [Hst Hvi]. pose proof Hr as [H1 H2 H3 H4 H5 H6 H7 H8 H9 H10 H11]. unfold commitLoad.
  rewrite (cq_rep_front _ _ _ _ H1). cbn [rbind]. destruct (H4 0%nat v eq_refl) as (-> & _). cbn [assert_ rbind].
  destruct (rep_load_inst _ _ _ _ 0 v Hr eq_refl) as (x & -> & _). cbn [rbind].
  destruct (cq_rep_set _ _ _ 0 (clear_entry (lv_e v)) H1) as (q & Hq & Hrq & Hh & _); [cbn; lia|]. rewrite Z.add_0_r in Hq.
  rewrite Hq. cbn [rbind]. destruct (cq_rep_pop_front _ _ _ 1 Hrq) as [Hp Hrp]; [cbn; lia|..].
  { cbn. intros e ->%list_elem_of_singleton. done. }
  change (Z.of_nat 1) with 1 in Hp, Hrp. rewrite Hp. cbn [rbind]. eexists. split; [done|]. cbn [cq_head]. rewrite Hh. split; [done|].
  split; cbn [loadQueue storeQueue insts storesToWB storeWBIt stalled stallingLoadIdx stallingStoreIsn isStoreBlocked memDepViolator with_lq cq_head];
    rewrite ?Hh; try done.
  - by rewrite <- Hh.
  - intros k u Hk. replace (cq_head (loadQueue s) + 1 + Z.of_nat k) with (cq_head (loadQueue s) + Z.of_nat (S k)) by lia. by apply (H4 (S k)).
  - by eapply order_pop_front_load.
  - intros Hs. destruct (H10 Hs) as (k & u & Hk & Hp' & Hlt). destruct k as [|k]; [by specialize (Hst Hs)|]. exists k, u. split; [done|]. split; [lia|done].
  - intros i Hi. destruct (H11 i Hi) as (u & Hu & <-). exists u. split; [|done]. apply elem_of_cons in Hu as [->|]; [|done]. by rewrite Hi in Hvi.
Qed.

Lemma commit_loads_ok Y m : forall s lvs svs, rep n s lvs svs -> (length lvs <= m)%nat ->
  (forall w, w ∈ svs -> canWB (sv_e w) = false -> Y < sv_seq w) ->
  (forall k v, lvs !! k = Some v -> lv_seq v <= Y -> may_leave s k v) ->
  exists lq' l1 l2, commit_loads m Y s = Ok (with_lq s lq') /\ lvs = l1 ++ l2 /\ cq_head lq' = cq_head (loadQueue s) + Z.of_nat (length l1) /\
    rep n (with_lq s lq') l2 svs /\ (forall v, v ∈ l1 -> lv_seq v <= Y) /\ (forall v, v ∈ l2 -> Y < lv_seq v).
Proof.
  assert (Hstop : forall s lvs svs, rep n s lvs svs -> (forall v, v ∈ lvs -> Y < lv_seq v) ->
    exists lq' l1 l2, Ok s = Ok (with_lq s lq') /\ lvs = l1 ++ l2 /\ cq_head lq' = cq_head (loadQueue s) + Z.of_nat (length l1) /\
      rep n (with_lq s lq') l2 svs /\ (forall v, v ∈ l1 -> lv_seq v <= Y) /\ (forall v, v ∈ l2 -> Y < lv_seq v)).
  { intros s lvs svs Hr Hall. exists (loadQueue s), [], lvs. assert (with_lq s (loadQueue s) = s) as -> by (by destruct s).
    split_and!; try done; [cbn; lia|]. by intros v ?%elem_of_nil. }
  induction m as [|m IH]; intros s lvs svs Hr Hm Hyoung Hleave; destruct lvs as [|v lvs].
  1,3: cbn [commit_loads]; destruct (rep_lq_size _ _ _ _ Hr) as [-> _]; apply Hstop; [done|by intros v ?%elem_of_nil].
  { cbn in Hm. lia. }
  cbn [commit_loads]. destruct (rep_lq_size _ _ _ _ Hr) as [-> _]. destruct (Z.eqb_spec (Z.of_nat (length (v :: lvs))) 0); [cbn in *; lia|].
  rewrite (cq_rep_front _ _ _ _ (re_lq _ _ _ _ Hr)). cbn [rbind]. destruct (rep_load_inst _ _ _ _ 0 v Hr eq_refl) as (x & -> & _ & Hx).
  cbn [rbind]. rewrite (ln_seq _ _ _ Hx). destruct (Z.leb_spec (lv_seq v) Y) as [Hle|Hgt].
  - destruct (commitLoad_ok _ _ _ _ Hr) as (lq' & -> & Hh & Hr'); [|by apply Hleave|].
    { intros w Hw Hc. pose proof (Hyoung w Hw Hc). lia. }
    cbn [rbind]. destruct (IH _ _ _ Hr') as (q & l1 & l2 & Hok & -> & Hh' & Hr'' & Hl1 & Hl2); [cbn in Hm; lia|done|..].
    { intros k u Hk Hle'. destruct (Hleave (S k) u Hk Hle') as [Ha Hb]. split; [|done]. cbn. rewrite Hh. intros Hs. specialize (Ha Hs). lia. }
    exists q, (v :: l1), l2. rewrite Hok. cbn [with_lq loadQueue] in Hh'. split; [by destruct s|]. split; [done|]. split; [cbn [length]; lia|].
    split; [by destruct s|]. split; [|done]. intros u [->|Hu]%elem_of_cons; [done|by apply Hl1].
  - apply Hstop; [done|]. intros u [->|Hu]%elem_of_cons; [done|].
    pose proof (oo_loads _ _ _ _ _ (re_order _ _ _ _ Hr)) as Hs. rewrite fmap_cons in Hs. apply StronglySorted_inv in Hs as [_ HF].
    rewrite Forall_forall in HF. pose proof (HF (lv_seq u) ltac:(by apply list_elem_of_fmap_2)). lia.
Qed.

(** [commitStores] and then [commitLoads], as IEW calls them. *)
Lemma commit_ok_step Y s lvs svs : rep n s lvs svs -> ends_ok lvs svs (cq_head (loadQueue s)) -> commit_ok lvs svs ->
  (forall k v, lvs !! k = Some v -> lv_seq v <= Y -> may_leave s k v) ->
  exists s' l1 l2, (let! s := commitStores Y s in commitLoads Y s) = Ok s' /\ lvs = l1 ++ l2 /\
    (forall v, v ∈ l1 -> lv_seq v <= Y) /\ (forall v, v ∈ l2 -> Y < lv_seq v) /\
    rep n s' l2 (commit_sv Y <$> svs) /\ quiet s lvs svs s' l2 (commit_sv Y <$> svs) /\
    ends_ok l2 (commit_sv Y <$> svs) (cq_head (loadQueue s')) /\ commit_ok l2 (commit_sv Y <$> svs).
Proof.
  intros Hr He Hc Hleave. destruct (commitStores_ok Y _ _ _ Hr) as (s1 & -> & Hr1 & Hq1 & Hl & Hst & Hsi). cbn [rbind].
  assert (Hin : forall w, w ∈ commit_sv Y <$> svs -> exists w0, w0 ∈ svs /\ sv_lqIt w = sv_lqIt w0 /\ sv_seq w = sv_seq w0 /\
    canWB (sv_e w) = canWB (sv_e w0) || (sv_seq w0 <=? Y)).
  { intros w (w0 & -> & Hw0)%list_elem_of_fmap. exists w0. unfold commit_sv. by destruct (canWB (sv_e w0)) eqn:?, (sv_seq w0 <=? Y) eqn:?. }
  destruct (commit_loads_ok Y (length lvs) _ _ _ Hr1 ltac:(lia)) as (lq' & l1 & l2 & Hok & Happ & Hh & Hr2 & Hl1 & Hl2).
  { intros w Hw Hf. destruct (Hin w Hw) as (w0 & _ & _ & -> & E). rewrite E in Hf. apply orb_false_elim in Hf as [_ Hf]. by apply Z.leb_gt in Hf. }
  { intros k v Hk Hle. destruct (Hleave k v Hk Hle) as [Ha Hb]. unfold may_leave. by rewrite Hst, Hsi, Hl, (qu_violator _ _ _ _ _ _ Hq1). }
  exists (with_lq s1 lq'), l1, l2. split.
  { unfold commitLoads. destruct (rep_lq_size _ _ _ _ Hr1) as [-> _]. rewrite Nat2Z.id, Hok. destruct lvs as [|v lvs']; [done|].
    destruct (Z.eqb_spec (Z.of_nat (length (v :: lvs'))) 0); [cbn in *; lia|]. rewrite (cq_rep_front _ _ _ _ (re_lq _ _ _ _ Hr1)). cbn [rbind].
    by destruct (re_load _ _ _ _ Hr1 0 v eq_refl) as (-> & _). }
  split; [done|]. split; [done|]. split; [done|]. split; [done|]. split.
  { eapply quiet_trans; [done|]. split; [apply heap_le_refl|done| |cbn; eauto 10]. intros v Hv. exists v. split; [|done]. set_solver. }
  split.
  - intros w Hw. destruct (Hin w Hw) as (w0 & Hw0 & -> & _). pose proof (He w0 Hw0) as Hle. rewrite Happ, length_app in Hle. cbn. rewrite Hh, Hl. lia.
  - intros w v Hw Hv Hcw. destruct (Hin w Hw) as (w0 & Hw0 & _ & -> & E). rewrite E in Hcw. apply orb_true_iff in Hcw as [Hcw|Hcw].
    + apply Hc; [done|set_solver|done].
    + apply Z.leb_le in Hcw. pose proof (Hl2 v Hv). lia.
Qed.
End Commit.
