(* ===== verification/LsqWb.v ===== *)
(** * Write-back and completion of stores

    [completeStore], [storePostSend], [writebackStores], [writebackBlockedStore] and
    [recvRetry] on the list view of the queues. *)

From Stdlib Require Import ZArith Lia Bool.
From stdpp Require Import base tactics option list numbers gmap sorting.
From S2P Require Import Prelude CircularQueue Lsq LsqInv LsqOps.
Open Scope Z_scope.

Implicit Types (s : Lsq) (lvs : list LV) (svs : list SV) (v : LV) (w : SV) (j k : nat).

(** The state with another write-back position and blocked flag: the operations on a
    store move these two at the end only. *)
Definition at_wb s (W : Z) (B : bool) : Lsq := with_wbit (with_flight s B false) W.

Section WriteBack.
Context (p : LsqParams) (n : nat).

Lemma rep_at_wb s lvs svs : rep n s lvs svs <-> rep n (at_wb s (storeWBIt s) (isStoreBlocked s)) lvs svs.
Proof. split; intros [? ? ? ? ? ? ? ? ? ? ?]; by split. Qed.

(** The store at the write-back position was handed to memory. *)
Lemma rep_advance s W B lvs svs k w : rep n (at_wb s W B) lvs svs -> svs !! k = Some w -> cq_head (storeQueue s) + Z.of_nat k = W ->
  canWB (sv_e w) = true -> commit_ok lvs svs -> rep n (at_wb s (W + 1) false) lvs svs.
Proof.
  intros [H1 H2 H3 H4 H5 H6 H7 H8 H9 H10 H11] Hk HW Hc Hco. split; try done.
  - by eapply order_write_back.
  - intros j u Hj Hcu. left. destruct (H8 j u Hj Hcu) as [|[? _]]; cbn in *; lia.
Qed.

(** What completion and write-back keep of the stores. *)
Definition stores_from svs svs' : Prop :=
  forall w, w ∈ svs' -> exists w0, w0 ∈ svs /\ sv_seq w = sv_seq w0 /\ sv_lqIt w = sv_lqIt w0 /\ canWB (sv_e w) = canWB (sv_e w0).

Lemma stores_from_refl svs : stores_from svs svs.
Proof. intros w Hw. by exists w. Qed.

Lemma stores_from_trans svs1 svs2 svs3 : stores_from svs1 svs2 -> stores_from svs2 svs3 -> stores_from svs1 svs3.
Proof. intros H12 H23 w Hw. destruct (H23 w Hw) as (w0 & Hw0 & -> & -> & ->). by apply H12. Qed.

Lemma stores_from_ends svs svs' lvs hl : stores_from svs svs' -> ends_ok lvs svs hl -> ends_ok lvs svs' hl.
Proof. intros Hf He w Hw. destruct (Hf w Hw) as (w0 & Hw0 & _ & -> & _). by apply He. Qed.

Lemma stores_from_commit svs svs' lvs : stores_from svs svs' -> commit_ok lvs svs -> commit_ok lvs svs'.
Proof. intros Hf He w v Hw. destruct (Hf w Hw) as (w0 & Hw0 & -> & _ & ->). by apply He. Qed.

Lemma stores_from_insert svs k w e : svs !! k = Some w -> canWB e = canWB (sv_e w) -> stores_from svs (<[k := sv_with w e]> svs).
Proof.
  intros Hk Hc u [j Hj]%list_elem_of_lookup_1. destruct (insert_inv svs k w e j u Hk Hj) as (u0 & Hj0 & _ & E1 & E2 & Hcase).
  exists u0. split; [by eapply list_elem_of_lookup_2|]. destruct Hcase as [(_ & -> & ->)|[_ ->]]; done.
Qed.

(** ** Completion *)

Lemma unstall_ok sn s W B lvs svs : rep n (at_wb s W B) lvs svs ->
  exists s', unstall sn s = Ok s' /\ rep n (at_wb s' W B) lvs svs /\ loadQueue s' = loadQueue s /\ storeQueue s' = storeQueue s /\ insts s' = insts s /\
    memDepViolator s' = memDepViolator s /\ storeWBIt s' = storeWBIt s /\ isStoreBlocked s' = isStoreBlocked s.
Proof.
  intros Hr. unfold unstall. destruct (stalled s && (sn =? stallingStoreIsn s)) eqn:E; [|by exists s].
  apply andb_true_iff in E as [Hst _]. destruct (re_stall _ _ _ _ Hr Hst) as (k & v & Hk & Hidx & _). cbn in Hidx. rewrite Hidx.
  pose proof (rep_get_load _ _ _ _ _ _ Hr Hk) as Hg. cbn in Hg. rewrite Hg. cbn [rbind].
  destruct (re_load _ _ _ _ Hr k v Hk) as (_ & -> & _). cbn [deref rbind]. eexists. split; [done|]. split; [|done].
  destruct Hr as [? ? ? ? ? ? ? ? ? ? ?]. by split.
Qed.

(** The oldest store is freed. *)
Lemma rep_pop_store s W B w lvs svs : rep n (at_wb s W B) lvs (w :: svs) -> completed (sv_e w) = true ->
  exists sq', (let! sq := cq_set (storeQueue s) (cq_head (storeQueue s)) (clear_sq (sv_e w)) in cq_pop_front sq 1) = Ok sq' /\
    cq_head sq' = cq_head (storeQueue s) + 1 /\ rep n (at_wb (with_sq s sq') W B) lvs svs.
Proof.
  intros Hr Hc. pose proof Hr as [H1 H2 H3 H4 H5 H6 H7 H8 H9 H10 H11].
  assert (Hwb : cq_head (storeQueue s) < W) by (pose proof (oo_completed _ _ _ _ _ H6 0 w eq_refl Hc); cbn in *; lia).
  destruct (cq_rep_set _ _ _ 0 (clear_sq (sv_e w)) H2) as (q & Hq & Hrq & Hh & Hcap); [cbn; lia|]. rewrite Z.add_0_r in Hq. cbn in Hq.
  rewrite Hq. cbn [rbind]. destruct (cq_rep_pop_front _ _ _ 1 Hrq) as [Hp Hrp]; [cbn; lia|..].
  { cbn. intros e ->%list_elem_of_singleton. destruct (H5 0%nat w eq_refl) as (_ & _ & x & _ & Hx). pose proof (sn_data _ _ _ _ Hx).
    unfold sq_free. cbn. by rewrite H. }
  change (Z.of_nat 1) with 1 in Hp, Hrp. rewrite Hp. cbn in Hh. eexists. split; [done|]. cbn [cq_head]. rewrite Hh. split; [done|].
  split; cbn [loadQueue storeQueue insts storesToWB storeWBIt stalled stallingLoadIdx stallingStoreIsn isStoreBlocked memDepViolator with_sq at_wb
    with_wbit with_flight cq_head] in *; rewrite ?Hh; try done.
  - by rewrite <- Hh.
  - unfold cq_capacity in *. cbn [cq_data] in *. by rewrite Hcap.
  - intros j u Hj. replace (cq_head (storeQueue s) + 1 + Z.of_nat j) with (cq_head (storeQueue s) + Z.of_nat (S j)) by lia. by apply (H5 (S j)).
  - by eapply order_pop_front_store.
  - rewrite H7, count_cons. unfold to_write_back. rewrite Hc, andb_false_r. cbn [Z.b2z]. lia.
  - intros j u Hj Hcu. destruct (H8 (S j) u Hj Hcu) as [?|[? ?]]; [left; lia|right; split; [lia|done]].
  - intros Hb. destruct (H9 Hb) as ([|j] & u & Hj & Hp' & Hrest); [lia|]. exists j, u. split; [done|]. split; [lia|done].
Qed.

Lemma pop_completed_ok m : forall s W B w lvs svs, rep n (at_wb s W B) lvs (w :: svs) -> completed (sv_e w) = true -> (S (length svs) <= m)%nat ->
  exists sq' popped svs', pop_completed m s = Ok (with_sq s sq') /\ w :: svs = popped ++ svs' /\
    cq_head sq' = cq_head (storeQueue s) + Z.of_nat (length popped) /\ rep n (at_wb (with_sq s sq') W B) lvs svs' /\ head_open svs'.
Proof.
  induction m as [|m IH]; intros s W B w lvs svs Hr Hc Hm; [lia|]. cbn [pop_completed].
  pose proof (cq_rep_front _ _ _ _ (re_sq _ _ _ _ Hr)) as Hf. cbn in Hf. rewrite Hf. cbn [rbind].
  destruct (rep_pop_store _ _ _ _ _ _ Hr Hc) as (q1 & Hq1 & Hh & Hr1). destruct (cq_set (storeQueue s) (cq_head (storeQueue s)) (clear_sq (sv_e w))) as [q|]; [|done].
  cbn [rbind] in *. rewrite Hq1. cbn [rbind with_sq storeQueue]. pose proof (re_sq _ _ _ _ Hr1) as Hq. cbn in Hq.
  destruct svs as [|w1 svs].
  - destruct (cq_nth_Some q1 0 (cr_wf _ _ _ Hq)) as [e He]. unfold cq_front.
    pose proof (cq_get_nth _ 0 e (cr_wf _ _ _ Hq) He) as Hg. rewrite Z.add_0_r in Hg. rewrite Hg. cbn [rbind]. rewrite (cq_rep_empty _ _ _ Hq). cbn. rewrite andb_false_r.
    exists q1, [w], []. split_and!; try done. 
  - rewrite (cq_rep_front _ _ _ _ Hq). cbn [rbind]. rewrite (cq_rep_empty _ _ _ Hq). cbn [fmap list_fmap bool_decide].
    destruct (completed (sv_e w1)) eqn:Hc1.
    + destruct (IH _ _ _ _ _ _ Hr1 Hc1) as (q2 & pp & svs' & Hok & Happ & Hh2 & Hr2 & Hho); [cbn in Hm; lia|].
      exists q2, (w :: pp), svs'. rewrite Happ. cbn [with_sq storeQueue] in Hh2. split_and!; try done; cbn [length]; lia.
    + exists q1, [w], (w1 :: svs). split_and!; try done. intros u [= <-]. done.
Qed.

(** The store at [k] is marked completed. *)
Lemma rep_set_completed s W B lvs svs k w : rep n (at_wb s W B) lvs svs -> svs !! k = Some w -> to_write_back w = true ->
  cq_head (storeQueue s) + Z.of_nat k < W ->
  exists sq', cq_set (storeQueue s) (cq_head (storeQueue s) + Z.of_nat k) (set_completed (sv_e w)) = Ok sq' /\ cq_head sq' = cq_head (storeQueue s) /\
    cq_size sq' = cq_size (storeQueue s) /\
    rep n (at_wb (with_storesToWB (with_sq s sq') (swrap 32 (storesToWB s - 1))) W B) lvs (<[k := sv_with w (set_completed (sv_e w))]> svs).
Proof.
  intros Hr Hk Ht Hlt. destruct (re_store _ _ _ _ Hr k w Hk) as (Hv & Hi & x & Hx & Hin).
  destruct (rep_sq_size _ _ _ _ Hr) as (_ & _ & Hsmall). pose proof (re_count _ _ _ _ Hr) as Hcnt. cbn in Hcnt.
  assert (E : storesToWB s - 1 = count_wb (<[k := sv_with w (set_completed (sv_e w))]> svs)).
  { rewrite Hcnt, (count_set _ _ w), Ht by done. unfold to_write_back. cbn. rewrite andb_false_r. cbn. lia. }
  rewrite (swrap_count _ _ ltac:(by rewrite length_insert) E).
  apply (rep_store_entry n (at_wb s W B) lvs svs k w (set_completed (sv_e w)) (storesToWB s - 1)); try done.
  - apply order_set; [apply (re_order _ _ _ _ Hr)|done|done|by left|done].
  - intros y Hy _. by apply store_inst_flags.
  - intros Hcom. by left.
Qed.

Lemma completeStore_ok s W B lvs svs k w : rep n (at_wb s W B) lvs svs -> head_open svs -> svs !! k = Some w -> to_write_back w = true ->
  cq_head (storeQueue s) + Z.of_nat k < W ->
  exists s' svs', completeStore p (cq_head (storeQueue s) + Z.of_nat k) s = Ok s' /\ rep n (at_wb s' W B) lvs svs' /\ head_open svs' /\
    stores_from svs svs' /\ quiet (at_wb s W B) lvs svs (at_wb s' W B) lvs svs' /\ loadQueue s' = loadQueue s /\
    storeWBIt s' = storeWBIt s /\ isStoreBlocked s' = isStoreBlocked s.
Proof.
  intros Hr Hho Hk Ht Hlt. destruct (rep_set_completed _ _ _ _ _ _ _ Hr Hk Ht Hlt) as (sq1 & Hset & Hh1 & Hsz1 & Hr1).
  unfold completeStore. pose proof (rep_get_store _ _ _ _ _ _ Hr Hk) as Hg. cbn in Hg. rewrite Hg. cbn [rbind].
  destruct (rep_store_inst _ _ _ _ _ _ Hr Hk) as (x & Hio & Hx & Hxin). destruct (re_store _ _ _ _ Hr k w Hk) as (-> & _). cbn [assert_ rbind].
  rewrite Hset. cbn [rbind]. set (s1 := with_storesToWB _ _) in *. set (svs1 := <[k := _]> svs) in *.
  change (inst_of (base (sv_e w)) s1) with (inst_of (base (sv_e w)) (at_wb s W B)). rewrite Hio. cbn [rbind].
  assert (Hf1 : stores_from svs svs1) by (by apply stores_from_insert).
  assert (Hq1 : quiet (at_wb s W B) lvs svs (at_wb s1 W B) lvs svs1).
  { split; [apply heap_le_refl|done|by eauto|]. cbn. rewrite Hh1. intros j u Hj Hp.
    destruct (insert_inv _ _ _ _ _ _ Hk Hj) as (u0 & Hj0 & E1 & E2 & _ & Hcase). exists j, u0. split_and!; try done.
    destruct Hcase as [(_ & -> & ->)|[_ ->]]; done. }
  assert (Hpop : exists s2 svs2, (if cq_head (storeQueue s) + Z.of_nat k =? cq_begin (storeQueue s1)
      then pop_completed (Z.to_nat (cq_size (storeQueue s1))) s1 else Ok s1) = Ok s2 /\ rep n (at_wb s2 W B) lvs svs2 /\ head_open svs2 /\
      stores_from svs1 svs2 /\ quiet (at_wb s1 W B) lvs svs1 (at_wb s2 W B) lvs svs2 /\ insts s2 = insts s1 /\ loadQueue s2 = loadQueue s1 /\
      storeWBIt s2 = storeWBIt s1 /\ isStoreBlocked s2 = isStoreBlocked s1).
  { change (cq_begin (storeQueue s1)) with (cq_head sq1). rewrite Hh1. destruct (Z.eqb_spec (cq_head (storeQueue s) + Z.of_nat k) (cq_head (storeQueue s))) as [E|E].
    - assert (k = 0%nat) by lia. subst k. destruct svs as [|w0 svs0]; [done|]. inv Hk. assert (Hs1 : svs1 = sv_with w (set_completed (sv_e w)) :: svs0) by done. clearbody svs1. rewrite Hs1 in Hr1.
      destruct (rep_sq_size _ _ _ _ Hr1) as (Hsz & _). change (cq_size (storeQueue (at_wb s1 W B))) with (cq_size (storeQueue s1)) in Hsz. rewrite Hsz, Nat2Z.id.
      destruct (pop_completed_ok (length (sv_with w (set_completed (sv_e w)) :: svs0)) _ _ _ _ _ _ Hr1 eq_refl ltac:(cbn; lia)) as (q & pp & svs2 & Hok & Happ & Hh & Hr2 & Hho2).
      exists (with_sq s1 q), svs2. rewrite Hok, Hs1, Happ. split_and!; try done.
      + intros u Hu. exists u. split; [|done]. set_solver.
      + split; [apply heap_le_refl|done|by eauto|]. cbn. intros j u Hj Hp. exists (length pp + j)%nat, u. rewrite lookup_app_r by lia.
        replace (length pp + j - length pp)%nat with j by lia. change (storeQueue s1) with sq1 in Hh. split_and!; try done; lia.
    - exists s1, svs1. split_and!; try done; [|apply stores_from_refl|apply lsq_quiet_refl].
      intros u. unfold svs1. rewrite list_lookup_insert_ne by lia. apply Hho. }
  destruct Hpop as (s2 & svs2 & -> & Hr2 & Hho2 & Hf2 & Hq2 & Hi2 & Hl2 & Hw2 & Hb2). cbn [rbind].
  destruct (unstall_ok (seqNum x) _ _ _ _ _ Hr2) as (s3 & -> & Hr3 & Hl3 & Hs3 & Hi3 & Hv3 & Hw3 & Hb3). cbn [rbind].
  assert (Hx3 : insts (at_wb s3 W B) !! sv_id w = Some x) by (cbn; by rewrite Hi3, Hi2).
  destruct (rep_modify n _ _ _ (sv_id w) setCompleted x Hr3 Hx3) as [_ Hr4]; [done|by intros; auto|].
  unfold modify. cbn in Hx3. rewrite Hx3. cbn [deref rbind]. set (s4 := with_insts s3 _).
  exists (if needsTSO p then with_flight s4 (isStoreBlocked s4) false else s4), svs2. split; [done|].
  assert (Hq4 : quiet (at_wb s W B) lvs svs (at_wb s4 W B) lvs svs2).
  { eapply quiet_trans; [done|]. eapply quiet_trans; [done|]. apply quiet_heap; cbn; try congruence.
    rewrite <- Hi3. by apply (heap_le_insert _ _ x). }
  assert (Hf : stores_from svs svs2) by (by eapply stores_from_trans).
  destruct (needsTSO p); split_and!; try done; try exact Hr4; try exact Hq4; cbn; by rewrite ?Hl3, ?Hl2, ?Hw3, ?Hw2, ?Hb3, ?Hb2.
Qed.

(** ** Handing a store to memory *)

Lemma quiet_advance s lvs svs W B : storeWBIt s <= W -> quiet s lvs svs (at_wb s W B) lvs svs.
Proof. intros Hle. split; [apply heap_le_refl|done|by eauto|]. cbn. intros j w Hj Hp. exists j, w. split_and!; try done. lia. Qed.

(** Write-back and blocked flag of the state itself. *)
Lemma rep_here s W B lvs svs : rep n (at_wb s W B) lvs svs -> storeWBIt s = W -> isStoreBlocked s = B -> rep n s lvs svs.
Proof. intros Hr <- <-. by apply rep_at_wb. Qed.

Lemma quiet_here s lvs svs s' W B lvs' svs' : quiet s lvs svs (at_wb s' W B) lvs' svs' -> storeWBIt s' = W -> quiet s lvs svs s' lvs' svs'.
Proof. intros [? ? ? ?] <-. by split. Qed.

(** The outcome of a step of the write-back. *)
Definition wb_step s lvs svs s' svs' : Prop :=
  rep n s' lvs svs' /\ head_open svs' /\ stores_from svs svs' /\ quiet s lvs svs s' lvs svs' /\ loadQueue s' = loadQueue s.

Lemma wb_step_refl s lvs svs : rep n s lvs svs -> head_open svs -> wb_step s lvs svs s svs.
Proof. intros Hr Hh. split_and!; try done; [apply stores_from_refl|apply lsq_quiet_refl]. Qed.

Lemma wb_step_trans s1 svs1 s2 svs2 s3 svs3 lvs : wb_step s1 lvs svs1 s2 svs2 -> wb_step s2 lvs svs2 s3 svs3 -> wb_step s1 lvs svs1 s3 svs3.
Proof.
  intros (_ & _ & F1 & Q1 & L1) (R2 & H2 & F2 & Q2 & L2). split_and!; try done; [by eapply stores_from_trans|by eapply quiet_trans|congruence].
Qed.

Lemma storePostSend_ok s lvs svs k w : rep n (at_wb s (storeWBIt s) true) lvs svs -> head_open svs -> commit_ok lvs svs -> svs !! k = Some w ->
  cq_head (storeQueue s) + Z.of_nat k = storeWBIt s -> canWB (sv_e w) = true -> isStoreBlocked s = false ->
  exists s', storePostSend p s = Ok s' /\ wb_step s lvs svs s' svs.
Proof.
  intros Hr Hho Hco Hk Hpos Hc Hb. unfold storePostSend. pose proof (rep_get_store _ _ _ _ _ _ Hr Hk) as Hg. cbn in Hg. rewrite Hpos in Hg. rewrite Hg. cbn [rbind].
  destruct (rep_store_inst _ _ _ _ _ _ Hr Hk) as (x & Hio & Hx & _). change (inst_of (base (sv_e w)) s) with (inst_of (base (sv_e w)) (at_wb s (storeWBIt s) true)).
  rewrite Hio. cbn [rbind]. destruct (unstall_ok (seqNum x) _ _ _ _ _ Hr) as (s1 & -> & Hr1 & Hl1 & Hs1 & Hi1 & Hv1 & Hw1 & Hb1). cbn [rbind].
  assert (H2 : exists s2, (if negb (isStoreConditional (static x)) then modify (sv_id w) setCompleted s1 else Ok s1) = Ok s2 /\
    rep n (at_wb s2 (storeWBIt s) true) lvs svs /\ heap_le (insts s1) (insts s2) /\ loadQueue s2 = loadQueue s1 /\ storeQueue s2 = storeQueue s1 /\
    memDepViolator s2 = memDepViolator s1 /\ storeWBIt s2 = storeWBIt s1 /\ isStoreBlocked s2 = isStoreBlocked s1).
  { destruct (negb _); [|exists s1; split_and!; try done; apply heap_le_refl]. assert (Hx1 : insts (at_wb s1 (storeWBIt s) true) !! sv_id w = Some x) by (cbn; by rewrite Hi1).
    destruct (rep_modify n _ _ _ (sv_id w) setCompleted x Hr1 Hx1) as [_ Hr2]; [done|by intros; auto|]. unfold modify. cbn in Hx1. rewrite Hx1. cbn [deref rbind].
    eexists. split; [done|]. split; [exact Hr2|]. split; [by apply (heap_le_insert _ _ x)|done]. }
  destruct H2 as (s2 & -> & Hr2 & Hh2 & Hl2 & Hs2 & Hv2 & Hw2 & Hb2). cbn [rbind].
  assert (Hr3 : rep n (at_wb s2 (storeWBIt s + 1) false) lvs svs).
  { eapply rep_advance; [exact Hr2|done|by rewrite Hs2, Hs1|done..]. }
  set (s3 := if needsTSO p then with_flight s2 (isStoreBlocked s2) true else s2).
  assert (E3 : loadQueue s3 = loadQueue s /\ insts s3 = insts s2 /\ memDepViolator s3 = memDepViolator s /\ storeQueue s3 = storeQueue s /\
    storeWBIt s3 = storeWBIt s /\ isStoreBlocked s3 = false /\ at_wb s3 (storeWBIt s + 1) false = at_wb s2 (storeWBIt s + 1) false).
  { unfold s3. destruct (needsTSO p); cbn; rewrite ?Hl2, ?Hl1, ?Hv2, ?Hv1, ?Hs2, ?Hs1, ?Hw2, ?Hw1, ?Hb2, ?Hb1, ?Hb; split_and!; done. }
  destruct E3 as (El & Ei & Ev & Es & Ew & Eb & Ea). rewrite Ew. eexists. split; [done|]. unfold wb_step. split_and!; try done.
  - eapply (rep_here _ (storeWBIt s + 1) false); [|done..]. rewrite <- Ea in Hr3. exact Hr3.
  - apply stores_from_refl.
  - split; cbn; rewrite ?Ei, ?Ev, ?Es; [by rewrite <- Hi1|done|by eauto|]. intros j u Hj Hp. exists j, u. split_and!; try done. lia.
Qed.

Lemma sendPacketToCache_spec ps : forall s, exists ok b, sendPacketToCache ps s = (ok, with_flight s b (storeInFlight s)) /\
  (ok = true -> ps <> [] \/ isStoreBlocked s = false -> b = false) /\ (ok = false -> b = true).
Proof.
  induction ps as [|[[b1 b2] b3] ps IH]; intros s; cbn [sendPacketToCache].
  - exists true, (isStoreBlocked s). split; [by destruct s|]. split; [|done]. by intros _ [?|?].
  - unfold trySendPacket. destruct (negb b1 && b2 && b3).
    + destruct (IH (with_flight s false (storeInFlight s))) as (ok & b & -> & H1 & H2). exists ok, b. split; [by destruct s|].
      split; [|done]. intros Hok _. apply H1; [done|]. by right.
    + exists false, true. done.
Qed.

Lemma send_store_ok i ps s lvs svs k w : rep n (at_wb s (storeWBIt s) true) lvs svs -> head_open svs -> commit_ok lvs svs -> svs !! k = Some w ->
  cq_head (storeQueue s) + Z.of_nat k = storeWBIt s -> canWB (sv_e w) = true -> ps <> [] \/ isStoreBlocked s = false ->
  exists s', send_store p i ps s = Ok s' /\ wb_step s lvs svs s' svs.
Proof.
  intros Hr Hho Hco Hk Hpos Hc Hps. unfold send_store. destruct (sendPacketToCache_spec ps (act (SendPacket i) s)) as (ok & b & -> & H1 & H2).
  destruct ok.
  - rewrite (H1 eq_refl Hps). set (s1 := with_flight _ _ _). destruct (storePostSend_ok s1 lvs svs k w) as (s' & -> & Hw); try done.
    { unfold s1. cbn. destruct Hr as [? ? ? ? ? ? ? ? ? ? ?]. by split. }
    exists s'. split; [done|]. destruct Hw as (? & ? & ? & [? ? ? ?] & ?). split_and!; done.
  - rewrite (H2 eq_refl). eexists. split; [done|]. split_and!; try done; [|apply stores_from_refl|].
    + destruct Hr as [? ? ? ? ? ? ? ? ? ? ?]. by split.
    + apply quiet_heap; [apply heap_le_refl|done..].
Qed.

(** Completing the store at the write-back position, which moves past it. *)
Lemma complete_advance s lvs svs k w : rep n (at_wb s (storeWBIt s) true) lvs svs -> head_open svs -> commit_ok lvs svs -> svs !! k = Some w ->
  cq_head (storeQueue s) + Z.of_nat k = storeWBIt s -> canWB (sv_e w) = true ->
  exists s' svs', completeStore p (storeWBIt s) s = Ok s' /\ rep n (at_wb s' (storeWBIt s + 1) false) lvs svs' /\ head_open svs' /\ stores_from svs svs' /\
    quiet s lvs svs (at_wb s' (storeWBIt s + 1) false) lvs svs' /\ loadQueue s' = loadQueue s /\ isStoreBlocked s' = isStoreBlocked s.
Proof.
  intros Hr Hho Hco Hk Hpos Hc. assert (Hr1 : rep n (at_wb s (storeWBIt s + 1) false) lvs svs) by (by eapply rep_advance).
  assert (Ht : to_write_back w = true).
  { unfold to_write_back. rewrite Hc. destruct (completed (sv_e w)) eqn:E; [|done].
    pose proof (oo_completed _ _ _ _ _ (re_order _ _ _ _ Hr) k w Hk E). cbn in *. lia. }
  destruct (completeStore_ok s _ _ lvs svs k w Hr1 Hho Hk Ht ltac:(lia)) as (s' & svs' & Hok & Hr' & Hho' & Hf & Hq & Hl & _ & Hb).
  rewrite Hpos in Hok. exists s', svs'. split_and!; try done. eapply quiet_trans; [apply (quiet_advance _ _ _ (storeWBIt s + 1) false); lia|done].
Qed.

(** The store at the write-back position gets its packet's data. *)
Lemma commit_data_ok s lvs svs k w x r : rep n s lvs svs -> isStoreBlocked s = false -> svs !! k = Some w ->
  cq_head (storeQueue s) + Z.of_nat k = storeWBIt s -> canWB (sv_e w) = true -> insts s !! sv_id w = Some x ->
  e_request (base (sv_e w)) = Some r -> sv_size w <> 0 ->
  exists sq' d s', cq_set (storeQueue s) (storeWBIt s) (set_committed (sv_e w)) = Ok sq' /\ memData x = None /\
    (if isAllZeros (sv_e w) then Ok (replicate (Z.to_nat (rq_size r)) 0) else bytes_at (e_data (sv_e w)) 0 (rq_size r)) = Ok d /\
    modify (sv_id w) (up_data (Some d)) (with_sq s sq') = Ok s' /\
    rep n (at_wb s' (storeWBIt s) true) lvs (<[k := sv_with w (set_committed (sv_e w))]> svs) /\
    quiet s lvs svs s' lvs (<[k := sv_with w (set_committed (sv_e w))]> svs) /\ loadQueue s' = loadQueue s /\ storeWBIt s' = storeWBIt s /\
    isStoreBlocked s' = false /\ cq_head (storeQueue s') = cq_head (storeQueue s).
Proof.
  intros Hr Hb Hk Hpos Hc Hx Hreq Hsz. assert (Hrb : rep n (at_wb s (storeWBIt s) true) lvs svs).
  { destruct Hr as [? ? ? ? ? ? ? H8 ? ? ?]. split; try done; [|intros _; by exists k, w]. intros j u Hj Hcu. destruct (H8 j u Hj Hcu) as [|[? ?]]; [by left|congruence]. }
  destruct (re_store _ _ _ _ Hr k w Hk) as (Hv & Hi & x' & Hx' & Hin). assert (x' = x) by congruence. subst x'.
  assert (Hnc : committed (sv_e w) = false).
  { destruct (committed (sv_e w)) eqn:E; [|done]. destruct (re_committed _ _ _ _ Hr k w Hk E) as [|[_ ?]]; [lia|congruence]. }
  destruct (rep_store_entry n (at_wb s (storeWBIt s) true) lvs svs k w (set_committed (sv_e w)) (storesToWB s) Hrb Hk) as (sq' & Hset & Hh & _ & Hr1); try done.
  { apply order_set; [apply (re_order _ _ _ _ Hrb)|done|done|by left|]. cbn. intros E. pose proof (oo_completed _ _ _ _ _ (re_order _ _ _ _ Hr) k w Hk E). lia. }
  { intros y Hy _. by apply store_inst_flags. }
  { intros _. right. right. done. }
  { cbn. rewrite (re_count _ _ _ _ Hr), (count_set _ _ w) by done. unfold to_write_back. cbn. lia. }
  cbn in Hset, Hh. rewrite Hpos in Hset. exists sq'. destruct (sn_request _ _ _ _ Hin Hsz) as (r' & Hr' & _ & Hpos' & Hle & _). assert (r' = r) by congruence. subst r'.
  assert (Hd : exists d, (if isAllZeros (sv_e w) then Ok (replicate (Z.to_nat (rq_size r)) 0) else bytes_at (e_data (sv_e w)) 0 (rq_size r)) = Ok d).
  { destruct (isAllZeros (sv_e w)); [by eexists|]. unfold bytes_at. rewrite (sn_data _ _ _ _ Hin). cbn [Z.leb Z.compare andb].
    destruct (Z.leb_spec (0 + rq_size r) (Z.of_nat n)); [by eexists|]. specialize (Hle eq_refl). lia. }
  destruct Hd as [d ->]. exists d, (with_insts (with_sq s sq') (<[sv_id w := up_data (Some d) x]> (insts s))). split; [done|].
  split; [by apply (sn_memData _ _ _ _ Hin)|]. split; [done|]. split; [unfold modify; cbn; by rewrite Hx|]. split.
  - apply (rep_modify n _ _ _ (sv_id w) (up_data (Some d)) x Hr1); [done|done|]. intros u [j Hj]%list_elem_of_lookup_1 Hid. split; [by left|].
    intros Hcu. exfalso. destruct (insert_inv _ _ _ _ _ _ Hk Hj) as (u0 & Hj0 & E1 & E2 & _ & [(_ & -> & _)|[Hne ->]]); [done|]. apply Hne.
    destruct (rep_store_inst _ _ _ _ _ _ Hr Hj0) as (y & _ & Hy & Hyin). rewrite Hid, Hx in Hy. inv Hy.
    eapply (store_seq_inj lvs svs); [apply (re_order _ _ _ _ Hr)|done..|]. by rewrite <- (sn_seq _ _ _ _ Hin), <- (sn_seq _ _ _ _ Hyin).
  - split_and!; try done. split; [by apply (heap_le_insert _ _ x)|done|by eauto|]. cbn. rewrite Hh. intros j u Hj Hp.
    destruct (insert_inv _ _ _ _ _ _ Hk Hj) as (u0 & Hj0 & E1 & E2 & _ & Hcase). exists j, u0. split_and!; try done.
    destruct Hcase as [(_ & -> & ->)|[_ ->]]; done.
Qed.

(** The end of a write-back that completed the store. *)
Lemma wb_completed s lvs svs k w s1 : rep n (at_wb s1 (storeWBIt s) true) lvs svs -> head_open svs -> commit_ok lvs svs -> svs !! k = Some w ->
  cq_head (storeQueue s1) + Z.of_nat k = storeWBIt s -> canWB (sv_e w) = true -> storeWBIt s1 = storeWBIt s -> isStoreBlocked s1 = false ->
  exists s' svs', completeStore p (storeWBIt s) s1 = Ok s' /\ head_open svs' /\
    (cq_empty (storeQueue s') = true -> cq_end (storeQueue s') = storeWBIt s + 1) /\
    wb_step s1 lvs svs (with_wbit s' (storeWBIt s + 1)) svs'.
Proof.
  intros Hr Hho Hco Hk Hpos Hc Hw Hb. rewrite <- Hw in *. destruct (complete_advance _ _ _ _ _ Hr Hho Hco Hk Hpos Hc) as (s' & svs' & Hok & Hr' & Hho' & Hf & Hq & Hl & Hb').
  exists s', svs'. split; [done|]. split; [done|]. split.
  - intros He. pose proof (oo_wb _ _ _ _ _ (re_order _ _ _ _ Hr')) as Hwb. destruct (rep_sq_size _ _ _ _ Hr') as (Hsz & Hend & _). cbn in *.
    unfold cq_empty in He. apply Z.eqb_eq in He. lia.
  - split_and!; try done.
    + eapply (rep_here _ (storeWBIt s1 + 1) false); [exact Hr'|done|]. cbn. congruence.
    + by eapply (quiet_here _ _ _ _ (storeWBIt s1 + 1) false).
Qed.

(** A committed store with its data goes to memory. *)
Lemma wb_hand_ok env s lvs svs k w i x r d : rep n (at_wb s (storeWBIt s) true) lvs svs -> head_open svs -> commit_ok lvs svs -> svs !! k = Some w ->
  cq_head (storeQueue s) + Z.of_nat k = storeWBIt s -> canWB (sv_e w) = true -> isStoreBlocked s = false ->
  (isStoreConditional (static x) = true -> isLocalAccess r = false) -> inHtm (lhtm x) = false ->
  exists more s' svs', (if isStoreConditional (static x) && negb (sc_success env) then
      let! s' := completeStore p (storeWBIt s) (act (ScheduleWriteback i d) s) in
      Ok (true, with_wbit s' (if negb (cq_empty (storeQueue s')) then storeWBIt s + 1 else cq_end (storeQueue s')))
    else if isLocalAccess r then
      check! (negb (isStoreConditional (static x))); check! (negb (inHtm (lhtm x)));
      let! s' := completeStore p (storeWBIt s) (act (LocalWrite i d) s) in Ok (true, with_wbit s' (storeWBIt s + 1))
    else let! s' := send_store p i (packets env) s in Ok (true, s')) = Ok (more, s') /\ wb_step s lvs svs s' svs'.
Proof.
  intros Hr Hho Hco Hk Hpos Hc Hb Hsc Hhtm. exists true.
  assert (Hact : forall a, exists s' svs', completeStore p (storeWBIt s) (act a s) = Ok s' /\ head_open svs' /\
    (cq_empty (storeQueue s') = true -> cq_end (storeQueue s') = storeWBIt s + 1) /\ wb_step (act a s) lvs svs (with_wbit s' (storeWBIt s + 1)) svs').
  { intros a. apply (wb_completed _ _ _ k w); try done. destruct Hr as [? ? ? ? ? ? ? ? ? ? ?]. by split. }
  assert (Hdrop : forall a s' svs', wb_step (act a s) lvs svs s' svs' -> wb_step s lvs svs s' svs').
  { intros a s' svs' (? & ? & ? & [? ? ? ?] & ?). by split_and!. }
  destruct (isStoreConditional (static x) && negb (sc_success env)).
  - destruct (Hact (ScheduleWriteback i d)) as (s' & svs' & -> & _ & He & Hst). cbn [rbind]. eexists _, svs'. split; [done|].
    destruct (cq_empty (storeQueue s')); cbn [negb]; [rewrite He by done|]; by eapply Hdrop.
  - destruct (isLocalAccess r) eqn:Hloc.
    + destruct (isStoreConditional (static x)); [by specialize (Hsc eq_refl)|]. rewrite Hhtm. cbn [negb assert_ rbind].
      destruct (Hact (LocalWrite i d)) as (s' & svs' & -> & _ & _ & Hst). cbn [rbind]. eexists _, svs'. split; [done|]. by eapply Hdrop.
    + destruct (send_store_ok i (packets env) s lvs svs k w) as (s' & -> & Hst); try done; [by right|]. cbn [rbind]. by eexists _, svs.
Qed.

(** A store that was not executed, or wrote nothing, is complete at once. *)
Lemma wb_nothing_ok s lvs svs k w : rep n s lvs svs -> head_open svs -> commit_ok lvs svs -> isStoreBlocked s = false ->
  svs !! k = Some w -> cq_head (storeQueue s) + Z.of_nat k = storeWBIt s -> canWB (sv_e w) = true ->
  exists s' svs', completeStore p (storeWBIt s) (with_wbit s (storeWBIt s + 1)) = Ok s' /\ wb_step s lvs svs s' svs'.
Proof.
  intros Hr Hho Hco Hb Hk Hpos Hc.
  assert (Hadv : rep n (at_wb (with_wbit s (storeWBIt s + 1)) (storeWBIt s + 1) false) lvs svs).
  { eapply (rep_advance s (storeWBIt s) false); [|done..]. rewrite <- Hb. by apply (proj1 (rep_at_wb s lvs svs)). }
  assert (Ht : to_write_back w = true).
  { unfold to_write_back. rewrite Hc. destruct (completed (sv_e w)) eqn:E; [|done].
    pose proof (oo_completed _ _ _ _ _ (re_order _ _ _ _ Hr) k w Hk E). lia. }
  destruct (completeStore_ok _ _ _ lvs svs k w Hadv Hho Hk Ht) as (s' & svs' & Hok & Hr' & Hho' & Hf & Hq & Hl & Hw' & Hb'); [cbn; lia|].
  change (storeQueue (with_wbit s (storeWBIt s + 1))) with (storeQueue s) in Hok. rewrite Hpos in Hok.
  exists s', svs'. split; [done|]. split_and!; try done; [eapply rep_here; [done..|]; cbn in Hb'; congruence|].
  eapply quiet_here; [|exact Hw']. eapply quiet_trans; [|exact Hq]. apply (quiet_advance s). lia.
Qed.

Lemma write_back_one_ok env s lvs svs k w : rep n s lvs svs -> head_open svs -> commit_ok lvs svs -> isStoreBlocked s = false ->
  svs !! k = Some w -> cq_head (storeQueue s) + Z.of_nat k = storeWBIt s -> canWB (sv_e w) = true ->
  exists more s' svs', write_back_one p env s = Ok (more, s') /\ wb_step s lvs svs s' svs'.
Proof.
  intros Hr Hho Hco Hb Hk Hpos Hc. unfold write_back_one. pose proof (rep_get_store _ _ _ _ _ _ Hr Hk) as Hg. rewrite Hpos in Hg. rewrite Hg. cbn [rbind].
  destruct (Z.eqb_spec (e_size (base (sv_e w))) 0) as [Hz|Hz].
  { destruct (wb_nothing_ok _ _ _ _ _ Hr Hho Hco Hb Hk Hpos Hc) as (s' & svs' & -> & Hst). cbn [rbind]. by exists true, s', svs'. }
  destruct (rep_store_inst _ _ _ _ _ _ Hr Hk) as (x & -> & Hx & Hxin). cbn [rbind]. destruct (isDataPrefetch (static x)).
  { exists true, (with_wbit s (storeWBIt s + 1)), svs. split; [done|]. split_and!; try done; [|apply stores_from_refl|].
    - eapply (rep_here _ (storeWBIt s + 1) false); [|done..]. eapply (rep_advance s (storeWBIt s) false); [|done..]. rewrite <- Hb. by apply (proj1 (rep_at_wb s lvs svs)).
    - eapply (quiet_here _ _ _ _ (storeWBIt s + 1) false); [|done]. apply (quiet_advance s lvs svs (storeWBIt s + 1) false). lia. }
  destruct (sn_request _ _ _ _ Hxin Hz) as (r & Hreq & _ & _ & _ & _ & _ & _ & _ & _ & _ & Hsc). rewrite Hreq. cbn [rbind].
  assert (Hnc : committed (sv_e w) = false).
  { destruct (committed (sv_e w)) eqn:E; [|done]. destruct (re_committed _ _ _ _ Hr k w Hk E) as [|[_ ?]]; [lia|congruence]. }
  rewrite Hnc. cbn [negb assert_ rbind]. destruct ((isLLSC r || isRelease r) && negb (storeWBIt s =? cq_head (storeQueue s))).
  { exists false, s, svs. split; [done|]. by apply wb_step_refl. }
  destruct (commit_data_ok _ _ _ _ _ _ _ Hr Hb Hk Hpos Hc Hx Hreq Hz) as (sq' & d & s1 & -> & Hnone & Hd & Hm & Hr1 & Hq1 & Hl1 & Hw1 & Hb1 & Hh1).
  cbn [rbind]. rewrite bool_decide_eq_true_2 by done. cbn [rbind assert_]. rewrite Hd. cbn [rbind]. rewrite Hm. cbn [rbind].
  set (svs1 := <[k := _]> svs) in *. set (s2 := if isStoreConditional (static x) then act (HandleLockedWrite (sv_id w)) s1 else s1).
  assert (Hk1 : svs1 !! k = Some (sv_with w (set_committed (sv_e w)))) by (apply list_lookup_insert_eq; by eapply lookup_lt_Some).
  assert (Hf1 : stores_from svs svs1) by (by apply stores_from_insert).
  assert (Hho1 : head_open svs1).
  { intros u Hu. destruct (insert_inv _ _ _ _ _ _ Hk Hu) as (u0 & Hu0 & _ & _ & _ & [(_ & -> & ->)|[_ ->]]); cbn [sv_with sv_e set_committed completed]; by apply Hho. }
  assert (E2 : storeWBIt s2 = storeWBIt s /\ isStoreBlocked s2 = false /\ cq_head (storeQueue s2) = cq_head (storeQueue s) /\ loadQueue s2 = loadQueue s /\
    rep n (at_wb s2 (storeWBIt s) true) lvs svs1 /\ quiet s lvs svs s2 lvs svs1).
  { unfold s2. destruct (isStoreConditional (static x)); split_and!; try done.
    - destruct Hr1 as [? ? ? ? ? ? ? ? ? ? ?]. by split.
    - destruct Hq1 as [? ? ? ?]. by split. }
  destruct E2 as (Hw2 & Hb2 & Hh2 & Hl2 & Hr2 & Hq2). rewrite <- Hw2 in Hr2.
  destruct (wb_hand_ok env s2 lvs svs1 k (sv_with w (set_committed (sv_e w))) (sv_id w) x r d Hr2 Hho1) as (more & s' & svs' & Htail & Hst); try done.
  { by eapply stores_from_commit. }
  { by rewrite Hh2, Hw2. }
  { by apply (sn_htm _ _ _ _ Hxin). }
  rewrite Hw2 in Htail. exists more, s', svs'. split; [exact Htail|]. destruct Hst as (? & ? & ? & ? & ?).
  split_and!; try done; [by eapply stores_from_trans|by eapply quiet_trans|congruence].
Qed.

Lemma wb_loop_ok envs : forall s lvs svs, rep n s lvs svs -> head_open svs -> commit_ok lvs svs ->
  exists s' svs', wb_loop p envs s = Ok s' /\ wb_step s lvs svs s' svs'.
Proof.
  induction envs as [|env envs IH]; intros s lvs svs Hr Hho Hco; [by exists s, svs; split; [|apply wb_step_refl]|].
  cbn [wb_loop]. unfold can_write_back. destruct ((0 <? storesToWB s) && isValidIdx (storeQueue s) (storeWBIt s)) eqn:E.
  2: { exists s, svs. split; [done|]. by apply wb_step_refl. }
  apply andb_true_iff in E as [_ E]. unfold isValidIdx in E. apply andb_true_iff in E as [E1 E2]. apply Z.leb_le in E1. apply Z.ltb_lt in E2.
  destruct (rep_sq_size _ _ _ _ Hr) as (Hsz & _). set (k := Z.to_nat (storeWBIt s - cq_head (storeQueue s))).
  assert (Hpos : cq_head (storeQueue s) + Z.of_nat k = storeWBIt s) by (unfold k; lia).
  destruct (lookup_lt_is_Some_2 svs k ltac:(lia)) as [w Hk]. pose proof (rep_get_store _ _ _ _ _ _ Hr Hk) as Hg. rewrite Hpos in Hg. rewrite Hg. cbn [rbind].
  match goal with |- context [if ?b then _ else _] => destruct b eqn:Hgo end; [|exists s, svs; split; [done|by apply wb_step_refl]].
  apply andb_true_iff in Hgo as [Hgo Hb]. apply negb_true_iff in Hb. apply andb_true_iff in Hgo as [Hgo _]. apply andb_true_iff in Hgo as [Hgo _].
  apply andb_true_iff in Hgo as [_ Hc].
  destruct (write_back_one_ok env _ _ _ _ _ Hr Hho Hco Hb Hk Hpos Hc) as (more & s1 & svs1 & -> & Hst). cbn [rbind].
  destruct more; [|by exists s1, svs1]. pose proof Hst as (Hr1 & Hho1 & Hf1 & _).
  destruct (IH s1 lvs svs1 Hr1 Hho1) as (s' & svs' & -> & Hst'); [by eapply stores_from_commit|].
  exists s', svs'. split; [done|]. by eapply wb_step_trans.
Qed.

Lemma writebackBlockedStore_ok ps s lvs svs : rep n s lvs svs -> head_open svs -> commit_ok lvs svs -> isStoreBlocked s = true -> ps <> [] ->
  exists s' svs', writebackBlockedStore p ps s = Ok s' /\ wb_step s lvs svs s' svs'.
Proof.
  intros Hr Hho Hco Hb Hps. unfold writebackBlockedStore. rewrite Hb. cbn [assert_ rbind].
  destruct (re_blocked _ _ _ _ Hr Hb) as (k & w & Hk & Hpos & Hc & Hsz). rewrite <- Hpos. rewrite (rep_get_store _ _ _ _ _ _ Hr Hk). cbn [rbind].
  destruct (re_store _ _ _ _ Hr k w Hk) as (_ & -> & x & _ & Hx). destruct (sn_request _ _ _ _ Hx Hsz) as (r & -> & _). cbn [deref rbind].
  destruct (send_store_ok (sv_id w) ps s lvs svs k w) as (s' & -> & Hst); try done; [|by left|by exists s', svs].
  rewrite <- Hb. by apply (proj1 (rep_at_wb s lvs svs)).
Qed.

Lemma writebackStores_ok ps envs s lvs svs : rep n s lvs svs -> head_open svs -> commit_ok lvs svs -> ps <> [] ->
  exists s' svs', writebackStores p ps envs s = Ok s' /\ wb_step s lvs svs s' svs'.
Proof.
  intros Hr Hho Hco Hps. unfold writebackStores.
  assert (H1 : exists s1 svs1, (if isStoreBlocked s then writebackBlockedStore p ps s else Ok s) = Ok s1 /\ wb_step s lvs svs s1 svs1).
  { destruct (isStoreBlocked s) eqn:Hb; [by apply writebackBlockedStore_ok|]. exists s, svs. split; [done|by apply wb_step_refl]. }
  destruct H1 as (s1 & svs1 & -> & Hst). cbn [rbind]. pose proof Hst as (Hr1 & Hho1 & Hf1 & _).
  destruct (wb_loop_ok envs s1 lvs svs1 Hr1 Hho1) as (s2 & svs2 & -> & Hst2); [by eapply stores_from_commit|]. cbn [rbind].
  pose proof Hst2 as (Hr2 & _). pose proof (re_count _ _ _ _ Hr2) as Hcnt. pose proof (count_bound svs2).
  destruct (Z.leb_spec 0 (storesToWB s2)); [|lia]. cbn [assert_ rbind]. exists s2, svs2. split; [done|]. by eapply wb_step_trans.
Qed.

Lemma recvRetry_ok ps s lvs svs : rep n s lvs svs -> head_open svs -> commit_ok lvs svs -> ps <> [] ->
  exists s' svs', recvRetry p ps s = Ok s' /\ wb_step s lvs svs s' svs'.
Proof.
  intros Hr Hho Hco Hps. unfold recvRetry. destruct (isStoreBlocked s) eqn:Hb; [by apply writebackBlockedStore_ok|].
  exists s, svs. split; [done|by apply wb_step_refl].
Qed.

(** The response of a store that was sent. *)
Lemma storeDone_ok s lvs svs k w : rep n s lvs svs -> head_open svs -> svs !! k = Some w -> completed (sv_e w) = false ->
  cq_head (storeQueue s) + Z.of_nat k < storeWBIt s ->
  exists s' svs', completeStore p (cq_head (storeQueue s) + Z.of_nat k) s = Ok s' /\ wb_step s lvs svs s' svs'.
Proof.
  intros Hr Hho Hk Hc Hlt. pose proof (proj1 (rep_at_wb _ _ _) Hr) as Hr'.
  assert (Ht : to_write_back w = true).
  { unfold to_write_back. rewrite Hc. cbn. rewrite andb_true_r. by eapply (oo_done _ _ _ _ _ (re_order _ _ _ _ Hr)). }
  destruct (completeStore_ok s _ _ _ _ _ _ Hr' Hho Hk Ht Hlt) as (s' & svs' & Hok & Hr1 & Hho' & Hf & Hq & Hl & Hw & Hb).
  exists s', svs'. split; [done|]. split_and!; try done; [by eapply rep_here|]. destruct Hq as [? ? ? ?]. split; try done. by rewrite Hw.
Qed.
End WriteBack.
