(* ===== verification/LsqSquash.v ===== *)
(** * Insertion and squash of the load/store queue

    [insert] and [squash] of [LSQUnit] on the list view of the queues. *)

From Stdlib Require Import ZArith Lia Bool.
From stdpp Require Import base tactics option list numbers gmap sorting.
From S2P Require Import Prelude CircularQueue Lsq LsqInv LsqOps LsqWb.
Open Scope Z_scope.

Implicit Types (s : Lsq) (lvs : list LV) (svs : list SV) (v : LV) (w : SV) (j k : nat).

Section Insert.
Context (n : nat).

(** A free slot at the young end of a queue is taken. *)
Lemma cq_take_slot {T} (P : T -> Prop) q l (f : T -> T) : cq_rep P q l -> Z.of_nat (length l) < cq_capacity q ->
  exists x q', P x /\ cq_back (cq_advance_tail q) = Ok x /\ cq_tail (cq_advance_tail q) = cq_head q + Z.of_nat (length l) /\
    cq_set (cq_advance_tail q) (cq_tail (cq_advance_tail q)) (f x) = Ok q' /\ cq_rep P q' (l ++ [f x]) /\
    cq_head q' = cq_head q /\ cq_capacity q' = cq_capacity q /\ cq_tail q' = cq_head q + Z.of_nat (length l).
Proof.
  intros Hr Hlt. destruct (cq_rep_advance _ _ _ Hr Hlt) as (x & HP & Hr' & Hh & Hc). destruct (cq_rep_back _ _ _ _ Hr') as [Ht Hb].
  destruct (cq_rep_set _ _ _ (length l) (f x) Hr') as (q' & Hs & Hr2 & Hh2 & Hc2); [rewrite length_app; cbn; lia|].
  rewrite insert_app_r_alt, Nat.sub_diag in Hr2 by lia. rewrite <- Ht in Hs. exists x, q'. destruct (cq_rep_back _ _ _ _ Hr2) as [Ht2 _].
  split_and!; try done; congruence.
Qed.

(** The instructions that may be inserted: new ones, younger than the others, in no transaction. *)
Record fresh s lvs svs (x : LInst) : Prop := {
  fr_loads v : v ∈ lvs -> lv_seq v < seqNum x;
  fr_stores w : w ∈ svs -> sv_seq w < seqNum x;
  fr_pos : 0 < seqNum x;
  fr_htm : inHtm (lhtm x) = false;
  fr_start : isHtmStart (static x) = false;
  fr_stop : isHtmStop (static x) = false;
  fr_addr : effAddrValid (laddr x) = false;
  fr_data : memData x = None;
  fr_dep : violatingStoreSeqNum (memDepInfo x) = 0
}.

(** A new instruction is in no queue: its object may change. *)
Lemma rep_fresh s lvs svs i x y : rep n s lvs svs -> insts s !! i = Some x -> fresh s lvs svs x -> rep n (with_insts s (<[i := y]> (insts s))) lvs svs.
Proof.
  intros Hr Hi Hf. apply rep_heap; [done|..].
  - intros v z Hv Hz. destruct (decide (i = lv_id v)) as [->|Hne]; [|exists z; by rewrite lookup_insert_ne].
    destruct (list_elem_of_lookup_1 _ _ Hv) as [k Hk]. destruct (rep_load_inst _ _ _ _ _ _ Hr Hk) as (x' & _ & Hx' & Hin).
    pose proof (fr_loads _ _ _ _ Hf v Hv). pose proof (ln_seq _ _ _ Hin). rewrite Hi in Hx'. inv Hx'. lia.
  - intros w z Hw Hz. destruct (decide (i = sv_id w)) as [->|Hne]; [|exists z; rewrite lookup_insert_ne by done; repeat split; auto].
    destruct (list_elem_of_lookup_1 _ _ Hw) as [k Hk]. destruct (rep_store_inst _ _ _ _ _ _ Hr Hk) as (x' & _ & Hx' & Hin).
    pose proof (fr_stores _ _ _ _ Hf w Hw). pose proof (sn_seq _ _ _ _ Hin). rewrite Hi in Hx'. inv Hx'. lia.
Qed.

(** The view of the load that is inserted. *)
Definition new_load s svs (i : nat) (x : LInst) : LV :=
  mkLV (mkLSQEntry (Some i) None 0 true) i (seqNum x) (cq_head (storeQueue s) + Z.of_nat (length svs)).

Lemma insertLoad_ok s lvs svs i x : rep n s lvs svs -> ends_ok lvs svs (cq_head (loadQueue s)) -> insts s !! i = Some x -> fresh s lvs svs x ->
  isLoad (static x) = true -> 0 < numFreeLoadEntries s ->
  exists s' q, insertLoad i s = Ok s' /\ insts s' = <[i := up_pos (fun _ => q) x]> (insts s) /\ rep n s' (lvs ++ [new_load s svs i x]) svs /\
    cq_head (loadQueue s') = cq_head (loadQueue s) /\ storeQueue s' = storeQueue s /\ storeWBIt s' = storeWBIt s /\ memDepViolator s' = memDepViolator s.
Proof.
  intros Hr He Hi Hf Hld Hroom. unfold numFreeLoadEntries in Hroom.
  destruct (rep_lq_size _ _ _ _ Hr) as (Hsz & Hend). unfold insertLoad, cq_full.
  destruct (Z.eqb_spec (cq_size (loadQueue s)) (cq_capacity (loadQueue s))); [lia|]. destruct (Z.ltb_spec (cq_size (loadQueue s)) (cq_capacity (loadQueue s))); [|lia].
  cbn [negb assert_ rbind]. pose proof Hr as [H1 H2 H3 H4 H5 H6 H7 H8 H9 H10 H11].
  destruct (cq_take_slot lq_free (loadQueue s) (lv_e <$> lvs) (fun e => mkLSQEntry (Some i) (e_request e) 0 true) H1) as (e & lq' & [Hnv Hnr] & Hback & Htail & Hset & Hrep & Hh & Hcap & Htail').
  { rewrite length_fmap. lia. }
  rewrite length_fmap in Htail, Htail'. unfold modify at 1. cbn [with_lq insts loadQueue storeQueue]. rewrite Hi. cbn [deref rbind with_insts with_lq loadQueue]. rewrite Hback. cbn [rbind].
  unfold set_entry. rewrite Hnv. cbn [negb assert_ rbind]. rewrite Hset. cbn [rbind with_lq loadQueue insts]. rewrite Htail'.
  assert (Hidx : 0 < cq_head (loadQueue s) + Z.of_nat (length lvs)) by (pose proof (cr_wf _ _ _ H1) as (_ & _ & ?); lia).
  destruct (Z.ltb_spec 0 (cq_head (loadQueue s) + Z.of_nat (length lvs))); [|lia]. cbn [assert_ rbind].
  unfold modify at 1. cbn [with_lq with_insts insts]. rewrite lookup_insert_eq. cbn [deref rbind with_insts insts]. rewrite lookup_insert_eq. cbn [deref rbind with_insts insts].
  rewrite insert_insert_eq. cbn [up_pos static lpos]. rewrite (fr_start _ _ _ _ Hf), (fr_stop _ _ _ _ Hf). cbn [rbind].
  set (q := mkLPos (cq_head (loadQueue s) + Z.of_nat (length lvs)) (cq_head (loadQueue s) + Z.of_nat (length lvs)) (sqIdx (lpos x)) (cq_end (storeQueue s))).
  eexists _, q. split; [done|]. split; [done|]. split; [|done]. destruct (rep_sq_size _ _ _ _ Hr) as (_ & Hends & _).
  pose proof (rep_fresh _ _ _ _ _ (up_pos (fun _ => q) x) Hr Hi Hf) as [G1 G2 G3 G4 G5 G6 G7 G8 G9 G10 G11].
  split; cbn [loadQueue storeQueue insts storesToWB storeWBIt stalled stallingLoadIdx stallingStoreIsn isStoreBlocked memDepViolator with_lq with_insts]; rewrite ?Hh; try done.
  - rewrite fmap_app. cbn. rewrite Hnr in Hrep. done.
  - intros k u Hk. apply lookup_app_Some in Hk as [Hk|[Hle Hk]]; [by apply G4|]. apply list_lookup_singleton_Some in Hk as [Hk <-].
    split; [done|]. split; [done|]. exists (up_pos (fun _ => q) x). cbn [insts with_lq with_insts lv_id new_load]. rewrite lookup_insert_eq. split; [done|].
    replace (cq_head (loadQueue s) + Z.of_nat k) with (cq_head (loadQueue s) + Z.of_nat (length lvs)) by lia.
    split; try done; [by apply (fr_htm _ _ _ _ Hf)|by apply (fr_start _ _ _ _ Hf)|by apply (fr_stop _ _ _ _ Hf)].
  - apply order_push_load; try done; apply Hf.
  - intros Hs. destruct (H10 Hs) as (k & u & Hk & Hrest). exists k, u. split; [by apply lookup_app_l_Some|done].
  - intros j Hj. destruct (H11 j Hj) as (u & Hu & <-). exists u. split; [set_solver|done].
Qed.

(** The view of the store that is inserted, in the slot of [e]. *)
Definition new_store s lvs (e : SQEntry) (i : nat) (x : LInst) : SV :=
  mkSV (mkSQEntry (mkLSQEntry (Some i) None 0 true) (e_data e) false false false (isAllZeros e)) i (seqNum x) (cq_head (loadQueue s) + Z.of_nat (length lvs)).

Lemma lsq_insertStore_ok s lvs svs i x : rep n s lvs svs -> insts s !! i = Some x -> fresh s lvs svs x ->
  isLoad (static x) = false -> 0 < numFreeStoreEntries s ->
  exists s' q e, insertStore i s = Ok s' /\ insts s' = <[i := up_pos (fun _ => q) x]> (insts s) /\ rep n s' lvs (svs ++ [new_store s lvs e i x]) /\
    cq_head (storeQueue s') = cq_head (storeQueue s) /\ loadQueue s' = loadQueue s /\ storeWBIt s' = storeWBIt s /\ memDepViolator s' = memDepViolator s.
Proof.
  intros Hr Hi Hf Hld Hroom. unfold numFreeStoreEntries in Hroom.
  destruct (rep_sq_size _ _ _ _ Hr) as (Hsz & _ & Hsmall). destruct (rep_lq_size _ _ _ _ Hr) as (Hszl & Hendl). unfold insertStore, cq_full.
  destruct (Z.eqb_spec (cq_size (storeQueue s)) (cq_capacity (storeQueue s))); [lia|]. destruct (Z.ltb_spec (cq_size (storeQueue s)) (cq_capacity (storeQueue s))); [|lia].
  cbn [negb assert_ rbind]. pose proof Hr as [H1 H2 H3 H4 H5 H6 H7 H8 H9 H10 H11].
  destruct (cq_take_slot (sq_free n) (storeQueue s) (sv_e <$> svs) (fun e => mkSQEntry (mkLSQEntry (Some i) (e_request (base e)) 0 true)
    (e_data e) (canWB e) (committed e) (completed e) (isAllZeros e)) H2) as (e & sq' & (Hnv & Hnr & _ & Hlen & Hf1 & Hf2 & Hf3) & Hback & Htail & Hset & Hrep & Hh & Hcap & _).
  { rewrite length_fmap. lia. }
  rewrite length_fmap in Htail. cbn [with_sq loadQueue storeQueue insts]. change (cq_tail (loadQueue s) + 1) with (cq_end (loadQueue s)). rewrite Hendl, Htail.
  assert (Hidx : 0 < cq_head (loadQueue s) + Z.of_nat (length lvs)) by (pose proof (cr_wf _ _ _ H1) as (_ & _ & ?); lia).
  destruct (Z.ltb_spec 0 (cq_head (loadQueue s) + Z.of_nat (length lvs))); [|lia]. cbn [assert_ rbind].
  unfold modify. cbn [with_sq insts]. rewrite Hi. cbn [deref rbind with_insts with_sq storeQueue]. rewrite Hback. cbn [rbind].
  unfold set_sq, set_entry. rewrite Hnv. cbn [negb assert_ rbind]. rewrite Hset. cbn [rbind].
  set (q := mkLPos _ _ _ _). exists (with_sq (with_insts (with_sq s (cq_advance_tail (storeQueue s))) (<[i := up_pos (fun _ => q) x]> (insts s))) sq'), q, e.
  split; [done|]. split; [done|]. split; [|done]. rewrite Hnr, Hf1, Hf2, Hf3 in Hrep.
  pose proof (rep_fresh _ _ _ _ _ (up_pos (fun _ => q) x) Hr Hi Hf) as [G1 G2 G3 G4 G5 G6 G7 G8 G9 G10 G11].
  split; cbn [loadQueue storeQueue insts storesToWB storeWBIt stalled stallingLoadIdx stallingStoreIsn isStoreBlocked memDepViolator with_sq with_insts]; rewrite ?Hh, ?Hcap; try done.
  - by rewrite fmap_app.
  - intros k u Hk. apply lookup_app_Some in Hk as [Hk|[Hle Hk]]; [by apply G5|]. apply list_lookup_singleton_Some in Hk as [Hk <-].
    split; [done|]. split; [done|]. exists (up_pos (fun _ => q) x). cbn [insts with_sq with_insts sv_id new_store]. rewrite lookup_insert_eq. split; [done|].
    replace (cq_head (storeQueue s) + Z.of_nat k) with (cq_head (storeQueue s) + Z.of_nat (length svs)) by lia.
    split; try done; [by apply (fr_pos _ _ _ _ Hf)|by apply (fr_htm _ _ _ _ Hf)|intros _; by apply (fr_data _ _ _ _ Hf)].
  - apply order_push_store; try done; apply Hf.
  - rewrite H7, count_app, count_one. cbn. lia.
  - intros j u Hj Hc. apply lookup_app_Some in Hj as [Hj|[_ Hj]]; [by eapply H8|]. by apply list_lookup_singleton_Some in Hj as [_ <-].
  - intros Hb. destruct (H9 Hb) as (j & u & Hj & Hrest). exists j, u. split; [by apply lookup_app_l_Some|done].
Qed.

Lemma quiet_fresh s lvs svs s' i x q : insts s !! i = Some x -> insts s' = <[i := up_pos (fun _ => q) x]> (insts s) ->
  memDepViolator s' = memDepViolator s -> cq_head (storeQueue s') = cq_head (storeQueue s) -> storeWBIt s' = storeWBIt s -> quiet s lvs svs s' lvs svs.
Proof.
  intros Hi Hs Hv Hh Hw. split; [rewrite Hs; by apply (heap_le_insert _ _ x)|done|by eauto|]. rewrite Hh, Hw. eauto 10.
Qed.

(** [insert]: the instruction becomes the youngest of its queue. *)
Lemma lsq_insert_ok R s lvs svs i x : inv n R s lvs svs -> insts s !! i = Some x -> fresh s lvs svs x -> isMemRef (static x) = true ->
  isLoad (static x) || isStore (static x) || isAtomic (static x) = true ->
  (if isLoad (static x) then 0 < numFreeLoadEntries s else 0 < numFreeStoreEntries s) ->
  exists s' lvs' svs', insert i s = Ok s' /\ inv n R s' lvs' svs' /\
    (if isLoad (static x) then lvs' = lvs ++ [new_load s svs i x] /\ svs' = svs
     else lvs' = lvs /\ exists e, svs' = svs ++ [new_store s lvs e i x]).
Proof.
  intros [Hr He Hc Hh Hm] Hi Hf Hmem Hkind Hroom. unfold insert. rewrite Hi. cbn [deref rbind]. rewrite Hmem, Hkind. cbn [assert_ rbind].
  assert (Hmod : forall s1 q lvs1 svs1, rep n s1 lvs1 svs1 -> insts s1 = <[i := up_pos (fun _ => q) x]> (insts s) -> mem_ok R s1 lvs1 svs1 ->
    exists s2, modify i setInLSQ s1 = Ok s2 /\ rep n s2 lvs1 svs1 /\ mem_ok R s2 lvs1 svs1 /\ loadQueue s2 = loadQueue s1).
  { intros s1 q lvs1 svs1 Hr1 Hi1 Hm1. assert (Hx : insts s1 !! i = Some (up_pos (fun _ => q) x)) by (by rewrite Hi1, lookup_insert_eq).
    destruct (rep_modify n _ _ _ i setInLSQ _ Hr1 Hx) as [-> Hr2]; [done|by intros; auto|]. eexists. split; [done|]. split; [done|]. split; [|done].
    eapply mem_quiet; [exact Hr1| |done]. apply quiet_heap; [|done..]. by apply (heap_le_insert _ _ (up_pos (fun _ => q) x)). }
  destruct (isLoad (static x)) eqn:Hld.
  - destruct (insertLoad_ok _ _ _ _ _ Hr He Hi Hf Hld Hroom) as (s1 & q & -> & Hi1 & Hr1 & Hh1 & Hs1 & Hw1 & Hv1). cbn [rbind].
    assert (Hm1 : mem_ok R s1 (lvs ++ [new_load s svs i x]) svs).
    { eapply mem_push_load; [eapply mem_quiet; [exact Hr| |done]; eapply quiet_fresh; try done; by rewrite Hs1|cbn; by rewrite Hi1, lookup_insert_eq|apply Hf..]. }
    destruct (Hmod _ _ _ _ Hr1 Hi1 Hm1) as (s2 & -> & Hr2 & Hm2 & Hl2). exists s2, (lvs ++ [new_load s svs i x]), svs. split; [done|]. split; [|done].
    split; try done.
    + intros w Hw. rewrite length_app, Hl2, Hh1. pose proof (He w Hw). cbn. lia.
    + intros w v Hw Hv Hcw. apply elem_of_app in Hv as [Hv | ->%list_elem_of_singleton]; [by apply Hc|]. by apply (fr_stores _ _ _ _ Hf).
  - destruct (lsq_insertStore_ok _ _ _ _ _ Hr Hi Hf Hld Hroom) as (s1 & q & e & -> & Hi1 & Hr1 & Hh1 & Hl1 & Hw1 & Hv1). cbn [rbind].
    assert (Hm1 : mem_ok R s1 lvs (svs ++ [new_store s lvs e i x])).
    { apply mem_push_store; [|done]. eapply mem_quiet; [exact Hr| |done]. by eapply quiet_fresh. }
    destruct (Hmod _ _ _ _ Hr1 Hi1 Hm1) as (s2 & -> & Hr2 & Hm2 & Hl2). exists s2, lvs, (svs ++ [new_store s lvs e i x]). split; [done|]. split; [|by eauto].
    split; try done.
    + intros w Hw. rewrite Hl2, Hl1. apply elem_of_app in Hw as [Hw | ->%list_elem_of_singleton]; [by apply He|]. cbn. lia.
    + intros w v Hw Hv Hcw. apply elem_of_app in Hw as [Hw | ->%list_elem_of_singleton]; [by apply Hc|done].
    + intros w Hw. apply lookup_app_Some in Hw as [Hw|[_ Hw]]; [by apply Hh|]. by apply list_lookup_singleton_Some in Hw as [_ <-].
Qed.
End Insert.

(** ** Squash *)

Section Squash.
Context (n : nat).

(** The violator may have been squashed; it is looked at after the loads. *)
Definition unviolated s : Lsq := with_violator s None.

Lemma squash_load_ok s lvs svs v x : rep n (unviolated s) (lvs ++ [v]) svs -> insts s !! lv_id v = Some x ->
  exists s', squash_load (lv_e v) (lv_id v) x s = Ok s' /\ rep n (unviolated s') lvs svs /\ insts s' = <[lv_id v := setSquashed x]> (insts s) /\
    memDepViolator s' = memDepViolator s /\ cq_head (loadQueue s') = cq_head (loadQueue s) /\ storeQueue s' = storeQueue s /\ storeWBIt s' = storeWBIt s.
Proof.
  intros Hr Hx. set (s1 := if stalled s && (cq_tail (loadQueue s) =? stallingLoadIdx s) then with_stall s false 0 0 else s).
  set (down := fun (b : bool) m => if b then if m - 1 <? 0 then 0 else m - 1 else m).
  set (s2 := with_htm s1 (down (isHtmStart (static x)) (htmStarts s1)) (down (isHtmStop (static x)) (htmStops s1)) (htmCpt s1) (globalHtmUid s1)).
  assert (E1 : loadQueue s2 = loadQueue s /\ storeQueue s2 = storeQueue s /\ insts s2 = insts s /\ memDepViolator s2 = memDepViolator s /\ storeWBIt s2 = storeWBIt s).
  { unfold s2, s1. by destruct (stalled s && _). }
  destruct E1 as (El & Es & Ei & Ev & Ew). rewrite <- Ei in Hx.
  assert (Hr2 : rep n (unviolated s2) (lvs ++ [v]) svs).
  { destruct Hr as [? ? ? ? ? ? ? ? ? H10 ?]. unfold s2, s1. destruct (stalled s && (cq_tail (loadQueue s) =? stallingLoadIdx s)); by split. }
  assert (Hst : stalled s2 = true -> exists k u, lvs !! k = Some u /\ stallingLoadIdx s2 = cq_head (loadQueue s2) + Z.of_nat k /\ stallingStoreIsn s2 < lv_seq u).
  { intros Hs. destruct (re_stall _ _ _ _ Hr2 Hs) as (k & u & Hk & Hidx & Hlt). cbn in Hidx, Hlt.
    apply lookup_app_Some in Hk as [Hk|[Hle Hk]]; [by eauto|]. exfalso. apply list_lookup_singleton_Some in Hk as [Hk <-].
    destruct (rep_lq_size _ _ _ _ Hr) as [Hsz _]. rewrite length_app in Hsz. cbn in Hsz. unfold s2, s1 in *. cbn in Hs.
    destruct (stalled s) eqn:Hss; cbn in Hs; [|congruence]. cbn in Hidx. destruct (Z.eqb_spec (cq_tail (loadQueue s)) (stallingLoadIdx s)) as [E|E]; cbn in Hs, Hidx; [done|].
    apply E. unfold cq_tail. lia. }
  destruct (rep_modify_load n _ _ _ (length lvs) v x setSquashed Hr2) as [_ Hr3]; [by apply list_lookup_middle|done|done|].
  change (squash_load (lv_e v) (lv_id v) x s) with (let! s := modify (lv_id v) setSquashed s2 in
    let! lq := cq_set (loadQueue s) (cq_tail (loadQueue s)) (clear_entry (lv_e v)) in let! lq := cq_pop_back lq in Ok (with_lq s lq)).
  clearbody s2. unfold modify. rewrite Hx. cbn [deref rbind with_insts loadQueue].
  pose proof Hr3 as [H1 H2 H3 H4 H5 H6 H7 H8 H9 _ _]. cbn [unviolated with_violator with_insts loadQueue storeQueue insts] in H1, H2.
  rewrite fmap_app in H1. cbn in H1. destruct (cq_rep_back _ _ _ _ H1) as [Ht _]. rewrite length_fmap in Ht. rewrite Ht.
  destruct (cq_rep_set _ _ _ (length lvs) (clear_entry (lv_e v)) H1) as (q1 & -> & Hq1 & Hh1 & _); [rewrite length_app, length_fmap; cbn; lia|]. cbn [rbind].
  rewrite insert_app_r_alt, length_fmap, Nat.sub_diag in Hq1 by (rewrite length_fmap; lia).
  destruct (cq_rep_pop_back _ _ _ _ Hq1) as (q2 & -> & Hq2 & Hh2 & _); [done|]. cbn [rbind]. eexists. split; [done|]. split.
  - split; cbn [loadQueue storeQueue insts storesToWB storeWBIt stalled stallingLoadIdx stallingStoreIsn isStoreBlocked memDepViolator with_lq with_insts unviolated with_violator] in *;
      rewrite ?Hh2, ?Hh1; try done.
    + intros k u Hk. apply H4. by apply lookup_app_l_Some.
    + by eapply order_pop_back_load.
  - cbn. split_and!; congruence.
Qed.

Lemma squash_loads_ok N m : forall s lvs svs, rep n (unviolated s) lvs svs -> (length lvs <= m)%nat ->
  exists s' l1 l2, squash_loads m N s = Ok s' /\ lvs = l1 ++ l2 /\ (forall v, v ∈ l1 -> lv_seq v <= N) /\ (forall v, v ∈ l2 -> N < lv_seq v) /\
    rep n (unviolated s') l1 svs /\ heap_le (insts s) (insts s') /\ memDepViolator s' = memDepViolator s /\
    cq_head (loadQueue s') = cq_head (loadQueue s) /\ storeQueue s' = storeQueue s /\ storeWBIt s' = storeWBIt s.
Proof.
  assert (Hstop : forall s lvs svs, rep n (unviolated s) lvs svs -> (forall v, v ∈ lvs -> lv_seq v <= N) ->
    exists s' l1 l2, Ok s = Ok s' /\ lvs = l1 ++ l2 /\ (forall v, v ∈ l1 -> lv_seq v <= N) /\ (forall v, v ∈ l2 -> N < lv_seq v) /\
    rep n (unviolated s') l1 svs /\ heap_le (insts s) (insts s') /\ memDepViolator s' = memDepViolator s /\
    cq_head (loadQueue s') = cq_head (loadQueue s) /\ storeQueue s' = storeQueue s /\ storeWBIt s' = storeWBIt s).
  { intros s lvs svs Hr Hall. exists s, lvs, []. split_and!; try done; [by rewrite app_nil_r|by intros v ?%elem_of_nil|apply heap_le_refl]. }
  induction m as [|m IH]; intros s lvs svs Hr Hm; destruct lvs as [|v lvs _] using rev_ind.
  1,3: cbn [squash_loads]; destruct (rep_lq_size _ _ _ _ Hr) as [Hsz _]; cbn in Hsz; rewrite Hsz; apply Hstop; [done|by intros v ?%elem_of_nil].
  { rewrite length_app in Hm. cbn in Hm. lia. }
  cbn [squash_loads]. destruct (rep_lq_size _ _ _ _ Hr) as [Hsz _]. rewrite length_app in Hsz. cbn in Hsz.
  destruct (Z.eqb_spec (cq_size (loadQueue s)) 0); [lia|].
  pose proof (re_lq _ _ _ _ Hr) as Hl. rewrite fmap_app in Hl. destruct (cq_rep_back _ _ _ _ Hl) as [_ Hb]. cbn in Hb. rewrite Hb. cbn [rbind].
  destruct (rep_load_inst _ _ _ _ (length lvs) v Hr) as (x & Hio & Hx & Hxin); [by apply list_lookup_middle|].
  change (inst_of (lv_e v) s) with (inst_of (lv_e v) (unviolated s)). rewrite Hio. cbn [rbind]. rewrite (ln_seq _ _ _ Hxin).
  destruct (Z.ltb_spec N (lv_seq v)) as [Hlt|Hge].
  - destruct (squash_load_ok s lvs svs v x Hr Hx) as (s1 & -> & Hr1 & Hi1 & Hv1 & Hh1 & Hs1 & Hw1). cbn [rbind].
    destruct (IH _ _ _ Hr1) as (s' & l1 & l2 & -> & -> & Hl1 & Hl2 & Hr' & Hle & Hv' & Hh' & Hs' & Hw'); [rewrite length_app in Hm; cbn in Hm; lia|].
    exists s', l1, (l2 ++ [v]). split_and!; try done; try congruence; [by rewrite app_assoc| |].
    + intros u [Hu | ->%list_elem_of_singleton]%elem_of_app; [by apply Hl2|done].
    + eapply heap_le_trans; [|done]. rewrite Hi1. by apply (heap_le_insert _ _ x).
  - apply Hstop; [done|]. intros u [Hu | ->%list_elem_of_singleton]%elem_of_app; [|done].
    pose proof (oo_loads _ _ _ _ _ (re_order _ _ _ _ Hr)) as Hs. rewrite fmap_app in Hs. apply StronglySorted_split in Hs as (_ & _ & Hs).
    pose proof (Hs (lv_seq u) (lv_seq v) ltac:(by apply list_elem_of_fmap_2) ltac:(by apply list_elem_of_singleton)). lia.
Qed.

Lemma scan_htm_ok m : forall s lvs svs k uid, rep n (unviolated s) lvs svs -> (k + m <= length lvs)%nat ->
  exists r, scan_htm m (cq_head (loadQueue s) + Z.of_nat k) uid s = Ok r.
Proof.
  induction m as [|m IH]; intros s lvs svs k uid Hr Hm; [by eexists|]. cbn [scan_htm]. destruct (lookup_lt_is_Some_2 lvs k ltac:(lia)) as [v Hk].
  pose proof (rep_get_load _ _ _ _ _ _ Hr Hk) as Hg. cbn in Hg. rewrite Hg. cbn [rbind]. destruct (rep_load_inst _ _ _ _ _ _ Hr Hk) as (x & Hio & _).
  change (inst_of (lv_e v) s) with (inst_of (lv_e v) (unviolated s)). rewrite Hio. cbn [rbind].
  replace (cq_head (loadQueue s) + Z.of_nat k + 1) with (cq_head (loadQueue s) + Z.of_nat (S k)) by lia. eapply IH; [done|lia].
Qed.

(** The youngest store leaves: it did not commit, and no load is younger. *)
Lemma rep_pop_back_store s lvs svs w x : rep n s lvs (svs ++ [w]) -> insts s !! sv_id w = Some x -> canWB (sv_e w) = false ->
  (forall v, v ∈ lvs -> lv_seq v <= sv_seq w) ->
  exists s', (let! s := modify (sv_id w) setSquashed s in let! sq := cq_set (storeQueue s) (cq_tail (storeQueue s)) (clear_sq (sv_e w)) in
      let! sq := cq_pop_back sq in Ok (with_sq s sq)) = Ok s' /\ rep n s' lvs svs /\ quiet s lvs (svs ++ [w]) s' lvs svs /\
    loadQueue s' = loadQueue s /\ memDepViolator s' = memDepViolator s /\ cq_head (storeQueue s') = cq_head (storeQueue s).
Proof.
  intros Hr Hx Hc Hv. destruct (rep_modify n _ _ _ (sv_id w) setSquashed x Hr Hx) as [-> Hr1]; [done|by intros; auto|].
  cbn [rbind with_insts storeQueue]. pose proof Hr1 as [H1 H2 H3 H4 H5 H6 H7 H8 H9 H10 H11]. cbn in H2. rewrite fmap_app in H2. cbn in H2.
  destruct (cq_rep_back _ _ _ _ H2) as [Ht _]. rewrite length_fmap in Ht. rewrite Ht.
  destruct (cq_rep_set _ _ _ (length svs) (clear_sq (sv_e w)) H2) as (q1 & -> & Hq1 & Hh1 & Hc1); [rewrite length_app, length_fmap; cbn; lia|]. cbn [rbind].
  rewrite insert_app_r_alt, length_fmap, Nat.sub_diag in Hq1 by (rewrite length_fmap; lia).
  destruct (H5 (length svs) w) as (_ & _ & y & _ & Hy); [by apply list_lookup_middle|]. pose proof (sn_data _ _ _ _ Hy) as Hdl.
  destruct (cq_rep_pop_back _ _ _ _ Hq1) as (q2 & -> & Hq2 & Hh2 & Hc2); [unfold sq_free; cbn; by rewrite Hdl|]. cbn [rbind].
  eexists. split; [done|].
  assert (Hl : forall j u, svs !! j = Some u -> (svs ++ [w]) !! j = Some u) by (intros; by apply lookup_app_l_Some). split; [|split; [|split; [done|split; [done|cbn; congruence]]]].
  - split; cbn [loadQueue storeQueue insts storesToWB storeWBIt stalled stallingLoadIdx stallingStoreIsn isStoreBlocked memDepViolator with_sq with_insts] in *;
      rewrite ?Hh2, ?Hh1, ?Hc2, ?Hc1; try done.
    + intros j u Hj. by apply H5, Hl.
    + by eapply order_pop_back_store.
    + rewrite H7, count_app, count_one. unfold to_write_back. rewrite Hc. cbn. lia.
    + intros j u Hj. by apply H8, Hl.
    + intros Hb. destruct (H9 Hb) as (j & u & Hj & Hp & Hcu & Hrest). exists j, u. split; [|done].
      apply lookup_app_Some in Hj as [Hj|[_ Hj]]; [done|]. apply list_lookup_singleton_Some in Hj as [_ <-]. congruence.
  - split; cbn; [by apply (heap_le_insert _ _ x)|done|by eauto|]. rewrite Hh2, Hh1. intros j u Hj Hp. exists j, u. split_and!; try done. by apply Hl.
Qed.

Lemma squash_stores_ok N m : forall s lvs svs, rep n s lvs svs -> (length svs <= m)%nat -> (forall v, v ∈ lvs -> lv_seq v <= N) ->
  exists s' t1 t2, squash_stores m N s = Ok s' /\ svs = t1 ++ t2 /\ (forall w, w ∈ t1 -> sv_seq w <= N \/ canWB (sv_e w) = true) /\
    (forall w, w ∈ t2 -> N < sv_seq w /\ canWB (sv_e w) = false) /\
    rep n s' lvs t1 /\ quiet s lvs svs s' lvs t1 /\ loadQueue s' = loadQueue s /\ memDepViolator s' = memDepViolator s /\
    cq_head (storeQueue s') = cq_head (storeQueue s).
Proof.
  assert (Hstop : forall s lvs svs, rep n s lvs svs -> (forall w, w ∈ svs -> sv_seq w <= N \/ canWB (sv_e w) = true) ->
    exists s' t1 t2, Ok s = Ok s' /\ svs = t1 ++ t2 /\ (forall w, w ∈ t1 -> sv_seq w <= N \/ canWB (sv_e w) = true) /\
    (forall w, w ∈ t2 -> N < sv_seq w /\ canWB (sv_e w) = false) /\
    rep n s' lvs t1 /\ quiet s lvs svs s' lvs t1 /\ loadQueue s' = loadQueue s /\ memDepViolator s' = memDepViolator s /\
    cq_head (storeQueue s') = cq_head (storeQueue s)).
  { intros s lvs svs Hr Hall. exists s, svs, []. split_and!; try done; [by rewrite app_nil_r|by intros v ?%elem_of_nil|apply lsq_quiet_refl]. }
  induction m as [|m IH]; intros s lvs svs Hr Hm Hv; destruct svs as [|w svs _] using rev_ind.
  1,3: cbn [squash_stores]; destruct (rep_sq_size _ _ _ _ Hr) as [Hsz _]; cbn in Hsz; rewrite Hsz; apply Hstop; [done|by intros v ?%elem_of_nil].
  { rewrite length_app in Hm. cbn in Hm. lia. }
  cbn [squash_stores]. destruct (rep_sq_size _ _ _ _ Hr) as [Hsz _]. rewrite length_app in Hsz. cbn in Hsz.
  destruct (Z.eqb_spec (cq_size (storeQueue s)) 0); [lia|].
  pose proof (re_sq _ _ _ _ Hr) as Hl. rewrite fmap_app in Hl. destruct (cq_rep_back _ _ _ _ Hl) as [_ Hb]. rewrite Hb. cbn [rbind].
  assert (Hlast : (svs ++ [w]) !! length svs = Some w) by (by apply list_lookup_middle).
  destruct (rep_store_inst _ _ _ _ (length svs) w Hr Hlast) as (x & -> & Hx & Hxin). cbn [rbind]. rewrite (sn_seq _ _ _ _ Hxin).
  destruct ((N <? sv_seq w) && negb (canWB (sv_e w))) eqn:E.
  - apply andb_true_iff in E as [Hlt Hc]. apply Z.ltb_lt in Hlt. apply negb_true_iff in Hc.
    assert (Hst : stalled s && (sv_seq w =? stallingStoreIsn s) = false).
    { destruct (stalled s) eqn:Hs; [|done]. destruct (re_stall _ _ _ _ Hr Hs) as (k & v & Hk & _ & Hlt'). cbn.
      apply Z.eqb_neq. pose proof (Hv v ltac:(by eapply list_elem_of_lookup_2)). lia. }
    rewrite Hst. destruct (rep_pop_back_store _ _ _ _ _ Hr Hx Hc) as (s1 & Hpop & Hr1 & Hq1 & Hl1 & Hv1 & Hh1).
    { intros v Hin. pose proof (Hv v Hin). lia. }
    destruct (IH _ _ _ Hr1) as (s' & t1 & t2 & Hok & -> & Ht1 & Ht2 & Hr' & Hq' & Hl' & Hv' & Hh'); [rewrite length_app in Hm; cbn in Hm; lia|done|].
    destruct (modify (sv_id w) setSquashed s) as [s2|]; [|done]. cbn [rbind] in *. destruct (cq_set _ _ _) as [q1|]; [|done]. cbn [rbind] in *.
    destruct (cq_pop_back q1) as [q2|]; [|done]. cbn [rbind] in *. inv Hpop. exists s', t1, (t2 ++ [w]). split_and!; try done; try congruence.
    + by rewrite app_assoc.
    + intros u [Hu | ->%list_elem_of_singleton]%elem_of_app; [by apply Ht2|done].
    + by eapply quiet_trans.
  - apply Hstop; [done|]. intros u [Hu | ->%list_elem_of_singleton]%elem_of_app.
    + apply andb_false_iff in E as [E|E].
      * left. apply Z.ltb_ge in E. pose proof (oo_stores _ _ _ _ _ (re_order _ _ _ _ Hr)) as Hs. rewrite fmap_app in Hs.
        apply StronglySorted_split in Hs as (_ & _ & Hs).
        pose proof (Hs (sv_seq u) (sv_seq w) ltac:(by apply list_elem_of_fmap_2) ltac:(by apply list_elem_of_singleton)). lia.
      * right. apply negb_false_iff in E. apply list_elem_of_lookup_1 in Hu as [j Hj]. pose proof (lookup_lt_Some _ _ _ Hj).
        eapply (oo_prefix _ _ _ _ _ (re_order _ _ _ _ Hr) (length svs) j w u); [lia|done|by apply lookup_app_l_Some|done].
    + apply andb_false_iff in E as [E|E]; [left; by apply Z.ltb_ge in E|right; by apply negb_false_iff in E].
Qed.

(** The reports that are left. *)
Lemma mem_squash R N s lvs svs V : mem_ok R s lvs svs -> (forall v, v ∈ lvs -> lv_seq v <= N) ->
  (forall i y, memDepViolator s = Some i -> insts s !! i = Some y -> seqNum y <= N -> V = Some i) ->
  mem_ok (filter (fun r => r <= N) R) (with_violator s V) lvs svs.
Proof.
  intros [H1 H2 H3] Hl HV. assert (Hc : forall q, q <= N -> covered R s q -> covered (filter (fun r => r <= N) R) (with_violator s V) q).
  { intros q Hq [(r & Hr & Hle)|(i & y & Hi & Hy & Hle)].
    - left. exists r. split; [apply list_elem_of_filter; split; [lia|done]|done].
    - right. exists i, y. cbn. split; [apply (HV i y); [done..|lia]|done]. }
  split; [done|..].
  - intros v x Hv Hx Hne. apply Hc; [by apply Hl|]. by eapply H2.
  - intros v x j w y Hv Hx Hj Hy Hp Hs Hlt Hwb Hov. destruct (H3 v x j w y) as [|Hcv]; try done; [by left|]. right. apply Hc; [by apply Hl|done].
Qed.

(** The violator stays when it is not squashed. *)
Lemma squash_violator_ok N s s2 lvs l1 l2 svs svs' : rep n s lvs svs -> heap_le (insts s) (insts s2) -> memDepViolator s2 = memDepViolator s ->
  rep n (unviolated s2) l1 svs' -> lvs = l1 ++ l2 -> (forall v, v ∈ l2 -> N < lv_seq v) ->
  exists V, match memDepViolator s2 with None => Ok s2 | Some v => let! y := deref (insts s2 !! v) in Ok (if N <? seqNum y then with_violator s2 None else s2) end
      = Ok (with_violator s2 V) /\ rep n (with_violator s2 V) l1 svs' /\
    (forall i y, memDepViolator s2 = Some i -> insts s2 !! i = Some y -> seqNum y <= N -> V = Some i).
Proof.
  intros Hr Hle Hv Hr2 -> Hl2. destruct (memDepViolator s2) as [i|] eqn:Ei; [|exists None; split; [by destruct s2; cbn in *; subst|done]].
  destruct (re_violator _ _ _ _ Hr i ltac:(congruence)) as (v & Hin & <-). destruct (list_elem_of_lookup_1 _ _ Hin) as [k Hk].
  destruct (rep_load_inst _ _ _ _ _ _ Hr Hk) as (x & _ & Hx & Hxin). destruct (Hle _ _ Hx) as (y & Hy & [Hseq _] & _). rewrite Hy. cbn [deref rbind].
  rewrite Hseq, (ln_seq _ _ _ Hxin). destruct (Z.ltb_spec N (lv_seq v)) as [Hlt|Hge].
  - exists None. split; [done|]. split; [done|]. intros i z [= <-] Hz Hle'. assert (z = y) by congruence. subst z. pose proof (ln_seq _ _ _ Hxin). lia.
  - exists (Some (lv_id v)). split; [by destruct s2; cbn in *; subst|]. split; [|by intros ? ? [= <-]].
    apply (rep_violator n (unviolated s2) l1 svs' (Some (lv_id v)) Hr2). intros j [= <-]. exists v. split; [|done].
    apply elem_of_app in Hin as [|Hin]; [done|]. pose proof (Hl2 v Hin). lia.
Qed.

(** [squash]: what is younger than [N] leaves, except the stores that commit. *)
Lemma lsq_squash_ok R N s lvs svs : inv n R s lvs svs ->
  exists s' l1 l2 t1 t2, squash N s = Ok s' /\ lvs = l1 ++ l2 /\ svs = t1 ++ t2 /\
    (forall v, v ∈ l1 -> lv_seq v <= N) /\ (forall v, v ∈ l2 -> N < lv_seq v) /\
    (forall w, w ∈ t1 -> sv_seq w <= N \/ canWB (sv_e w) = true) /\ (forall w, w ∈ t2 -> N < sv_seq w /\ canWB (sv_e w) = false) /\
    inv n (filter (fun r => r <= N) R) s' l1 t1 /\
    cq_head (loadQueue s') = cq_head (loadQueue s) /\ cq_head (storeQueue s') = cq_head (storeQueue s).
Proof.
  intros [Hr He Hc Hh Hm]. assert (Hr0 : rep n (unviolated s) lvs svs) by (by apply rep_violator).
  unfold squash. destruct (rep_lq_size _ _ _ _ Hr) as (Hsz & _). rewrite Hsz, Nat2Z.id.
  destruct (squash_loads_ok N (length lvs) _ _ _ Hr0 ltac:(lia)) as (s1 & l1 & l2 & -> & Hl & Hl1 & Hl2 & Hr1 & Hle1 & Hv1 & Hh1 & Hs1 & Hw1). cbn [rbind].
  assert (Hq1 : quiet s lvs svs s1 l1 svs).
  { split; [done|done| |rewrite Hs1, Hw1; eauto 10]. intros v Hin. exists v. split; [|done]. set_solver. }
  destruct (rep_lq_size _ _ _ _ Hr1) as (Hsz1 & _). cbn in Hsz1. rewrite Hsz1, Nat2Z.id.
  destruct (scan_htm_ok (length l1) s1 l1 svs 0 0 Hr1 ltac:(lia)) as [uid Huid]. rewrite Z.add_0_r in Huid. unfold cq_begin. rewrite Huid. cbn [rbind].
  set (s2 := match htmCpt s1 with None => s1 | Some _ => _ end).
  assert (E2 : loadQueue s2 = loadQueue s1 /\ storeQueue s2 = storeQueue s1 /\ insts s2 = insts s1 /\ memDepViolator s2 = memDepViolator s1 /\
    storeWBIt s2 = storeWBIt s1 /\ rep n (unviolated s2) l1 svs).
  { unfold s2. destruct (htmCpt s1); split_and!; try done. destruct Hr1 as [? ? ? ? ? ? ? ? ? ? ?]. by split. }
  clearbody s2. destruct E2 as (El2 & Es2 & Ei2 & Ev2 & Ew2 & Hr2).
  assert (Hq2 : quiet s lvs svs s2 l1 svs).
  { eapply quiet_trans; [exact Hq1|]. apply quiet_heap; [rewrite Ei2; apply heap_le_refl|done..]. }
  pose proof (mem_quiet n _ _ _ _ _ _ _ Hr Hq2 Hm) as Hm2.
  destruct (squash_violator_ok N s s2 lvs l1 l2 svs svs Hr (qu_heap _ _ _ _ _ _ Hq2) (qu_violator _ _ _ _ _ _ Hq2) Hr2 Hl Hl2) as (V & -> & Hr3 & HV). cbn [rbind].
  pose proof (mem_squash _ N _ _ _ V Hm2 Hl1 HV) as Hm3. destruct (rep_sq_size _ _ _ _ Hr3) as (Hsz3 & _). rewrite Hsz3, Nat2Z.id.
  destruct (squash_stores_ok N (length svs) _ _ _ Hr3 ltac:(lia) Hl1) as (s' & t1 & t2 & Hok & Ht & Ht1 & Ht2 & Hr4 & Hq4 & Hl4 & Hv4 & Hh4).
  exists s', l1, l2, t1, t2. split_and!; try done; [|rewrite Hl4; cbn; congruence|rewrite Hh4; cbn; congruence]. split; [done|..|exact (mem_quiet n _ _ _ _ _ _ _ Hr3 Hq4 Hm3)].
  - intros w Hw. rewrite Hl4. cbn. rewrite El2, Hh1. assert (Hw' : w ∈ svs) by set_solver. pose proof (He w Hw') as Hle. rewrite Hl, length_app in Hle.
    destruct l2 as [|v l2']; [cbn in Hle; lia|]. assert (Hk : lvs !! length l1 = Some v) by (rewrite Hl; by apply list_lookup_middle).
    pose proof (oo_lqIt _ _ _ _ _ (re_order _ _ _ _ Hr) _ _ _ Hk Hw') as Hiff. pose proof (Hl2 v ltac:(set_solver)).
    destruct (Ht1 w Hw) as [|Hcw]; [lia|]. pose proof (Hc w v Hw' ltac:(rewrite Hl; set_solver) Hcw). lia.
  - intros w v Hw Hv. apply Hc; set_solver.
  - intros w Hw. apply Hh. rewrite Ht. by apply lookup_app_l_Some.
Qed.
End Squash.
