(* ===== verification/LsqExec.v ===== *)
(** * Execution of loads and stores in the load/store queue

    The search of the store queue by [read], [write], the check for violations and
    [executeLoad] and [executeStore], on the list view of the queues. *)

From Stdlib Require Import ZArith Lia Bool.
From stdpp Require Import base tactics option list numbers gmap sorting.
From S2P Require Import Prelude CircularQueue Lsq LsqInv LsqOps.
Open Scope Z_scope.

Implicit Types (s : Lsq) (lvs : list LV) (svs : list SV) (v : LV) (w : SV) (j k : nat).

(** ** The search of the store queue *)

Definition addr_of (r : Req) : LAddr := mkLAddr (rq_vaddr r) (rq_size r) true (isStrictlyOrdered r).

(** The byte a store writes at an address. *)
Definition store_byte (e : SQEntry) (y : LInst) (a : Z) : option Z :=
  if (effAddr (laddr y) <=? a) && (a <? effAddr (laddr y) + effSize (laddr y)) then
    if isAllZeros e then Some 0 else e_data e !! Z.to_nat (a - effAddr (laddr y))
  else None.

(** An address range that does not wrap. *)
Definition range_ok (r : Req) : Prop := 0 <= rq_vaddr r /\ 0 < rq_size r < 2 ^ 31 /\ rq_vaddr r + rq_size r < 2 ^ 64.

(** The store at [j], seen by a load. *)
Record seen s svs (a : LAddr) (j : nat) w (b : LInst) : Prop := {
  se_at : svs !! j = Some w;
  se_inst : insts s !! sv_id w = Some b;
  se_searched : searched (base (sv_e w)) b;
  se_overlap : overlap a (laddr b)
}.

Lemma coverage_spec rs re ss se l a m : rs < re -> ss < se ->
  match coverage rs re ss se l a m with
  | FullAddrRangeCoverage => ss <= rs /\ re <= se /\ l = false /\ a = false /\ m = false
  | PartialAddrRangeCoverage => rs < se /\ ss < re /\ ~ (ss <= rs /\ re <= se /\ l = false /\ a = false /\ m = false)
  | NoAddrRangeCoverage => ~ (rs < se /\ ss < re)
  end.
Proof.
  intros Hr Hs. unfold coverage. destruct (Z.leb_spec ss rs), (Z.leb_spec re se), (Z.ltb_spec rs se), (Z.ltb_spec ss re), l, a, m; cbn; intuition (discriminate || lia).
Qed.

(** The store holds every byte of the load and may hand them over: it is not an atomic
    and has no byte mask, and the load is not a load-locked. *)
Definition supplies (r : Req) (e : SQEntry) (b : LInst) : Prop :=
  effAddr (laddr b) <= rq_vaddr r /\ rq_vaddr r + rq_size r <= effAddr (laddr b) + effSize (laddr b) /\ isLLSC r = false /\
  isAtomic (static b) = false /\ forall sr, e_request (base e) = Some sr -> isMasked sr = false.

Lemma bytes_at_spec d off m : 0 <= off -> 0 <= m -> off + m <= Z.of_nat (length d) ->
  exists l, bytes_at d off m = Ok l /\ Z.of_nat (length l) = m /\ forall b, 0 <= b < m -> l !! Z.to_nat b = d !! Z.to_nat (off + b).
Proof.
  intros Ho Hm Hl. unfold bytes_at. destruct (Z.leb_spec 0 off); [|lia]. destruct (Z.leb_spec (off + m) (Z.of_nat (length d))); [|lia]. cbn [andb].
  eexists. split; [done|]. split; [rewrite length_take, length_drop; lia|]. intros b Hb. rewrite lookup_take_lt, lookup_drop by lia. f_equal. lia.
Qed.

Section Search.
Context (n : nat).

(** What a load gets from the store it forwards from. *)
Definition forwards (r : Req) (e : SQEntry) (b : LInst) (d : list Z) : Prop :=
  Z.of_nat (length d) = rq_size r /\ forall a, rq_vaddr r <= a < rq_vaddr r + rq_size r -> d !! Z.to_nat (a - rq_vaddr r) = store_byte e b a /\ is_Some (store_byte e b a).

(** The data of a store that covers the load. *)
Lemma forward_data idx w b r : store_inst n idx w b -> sv_size w <> 0 -> range_ok r -> effAddr (laddr b) <= rq_vaddr r ->
  rq_vaddr r + rq_size r <= effAddr (laddr b) + effSize (laddr b) ->
  exists d, (if isAllZeros (sv_e w) then Ok (replicate (Z.to_nat (rq_size r)) 0)
    else bytes_at (e_data (sv_e w)) (swrap 32 (rq_vaddr r - effAddr (laddr b))) (rq_size r)) = Ok d /\ forwards r (sv_e w) b d.
Proof.
  intros Hb Hsz (Hr1 & Hr2 & Hr3) Hlo Hhi. destruct (sn_request _ _ _ _ Hb Hsz) as (r' & _ & Hsize & Hpos & Hfit & _ & Ea & Es & _).
  unfold forwards, store_byte. destruct (isAllZeros (sv_e w)).
  - exists (replicate (Z.to_nat (rq_size r)) 0). split; [done|]. rewrite length_replicate. split; [lia|]. intros a Ha.
    destruct (Z.leb_spec (effAddr (laddr b)) a); [|lia]. destruct (Z.ltb_spec a (effAddr (laddr b) + effSize (laddr b))); [|lia]. cbn [andb].
    split; [|by eexists]. apply lookup_replicate. split; [done|lia].
  - specialize (Hfit eq_refl). rewrite swrap_small by (unfold in_s; cbn in *; lia).
    pose proof (sn_data _ _ _ _ Hb) as Hlen. destruct (bytes_at_spec (e_data (sv_e w)) (rq_vaddr r - effAddr (laddr b)) (rq_size r)) as (d & Hd & Hl & Hlook); [lia..|].
    exists d. split; [done|]. split; [done|]. intros a Ha.
    destruct (Z.leb_spec (effAddr (laddr b)) a); [|lia]. destruct (Z.ltb_spec a (effAddr (laddr b) + effSize (laddr b))); [|lia]. cbn [andb].
    rewrite Hlook by lia. replace (rq_vaddr r - effAddr (laddr b) + (a - rq_vaddr r)) with (a - effAddr (laddr b)) by lia. split; [done|].
    apply lookup_lt_is_Some_2. lia.
Qed.

(** What the search of the stores at [lo] and above, below [hi], may return. *)
Definition found s svs (r : Req) (lo hi : nat) (res : Search) : Prop :=
  match res with
  | Forward it st d => exists j w b, (lo <= j < hi)%nat /\ it = cq_head (storeQueue s) + Z.of_nat j /\ st = sv_seq w /\ seen s svs (addr_of r) j w b /\
      (supplies r (sv_e w) b /\ forwards r (sv_e w) b d) /\ forall j' w' b', (j < j' < hi)%nat -> ~ seen s svs (addr_of r) j' w' b'
  | StallOn st => exists j w b, (lo <= j < hi)%nat /\ st = sv_seq w /\ (seen s svs (addr_of r) j w b /\ ~ supplies r (sv_e w) b) /\
      forall j' w' b', (j < j' < hi)%nat -> ~ seen s svs (addr_of r) j' w' b'
  | ToMemory => forall j' w' b', (lo <= j' < hi)%nat -> ~ seen s svs (addr_of r) j' w' b'
  end.

(** A store that the load does not see is passed over. *)
Lemma found_skip s svs r lo k res : (forall w' b', ~ seen s svs (addr_of r) k w' b') -> found s svs r lo k res -> found s svs r lo (S k) res.
Proof.
  intros Hno Hres. assert (Hlast : forall j j' w' b', (j < j' < S k)%nat -> (forall i w b, (j < i < k)%nat -> ~ seen s svs (addr_of r) i w b) -> ~ seen s svs (addr_of r) j' w' b').
  { intros j j' w' b' Hj Hall. destruct (decide (j' = k)) as [->|]; [apply Hno|apply Hall; lia]. }
  destruct res as [it st d|st|].
  - destruct Hres as (j & w0 & b0 & Hj & E1 & E2 & Hse & [Hs Hf] & Hall). exists j, w0, b0. split_and!; try done; [lia..|]. intros j' w' b' Hj'. by apply (Hlast j).
  - destruct Hres as (j & w0 & b0 & Hj & E1 & [Hse Hs] & Hall). exists j, w0, b0. split_and!; try done; [lia..|]. intros j' w' b' Hj'. by apply (Hlast j).
  - intros j' w' b' Hj'. destruct (decide (j' = k)) as [->|]; [apply Hno|apply Hres; lia].
Qed.

(** The loop from [k] down to [k - m], the youngest store first. *)
Lemma search_loop_ok m : forall s lvs svs k x r, rep n s lvs svs -> range_ok r -> (m <= k <= length svs)%nat ->
  storeWBIt s <= cq_head (storeQueue s) + Z.of_nat (k - m) ->
  (forall j w, (j < k)%nat -> svs !! j = Some w -> sv_seq w < seqNum x) ->
  exists res, search_loop m (cq_head (storeQueue s) + Z.of_nat k) x r s = Ok res /\ found s svs r (k - m) k res.
Proof.
  induction m as [|m IH]; intros s lvs svs k x r Hr Hro Hk Hwb Hold; [exists ToMemory; split; [done|intros j' w' b'; lia]|].
  destruct k as [|k]; [lia|]. destruct (lookup_lt_is_Some_2 svs k ltac:(lia)) as [w Hw]. cbn [search_loop]. unfold cq_dec.
  destruct (Z.ltb_spec (cq_head (storeQueue s)) (cq_head (storeQueue s) + Z.of_nat (S k))); [|lia]. cbn [assert_ rbind].
  replace (cq_head (storeQueue s) + Z.of_nat (S k) - 1) with (cq_head (storeQueue s) + Z.of_nat k) by lia.
  rewrite (rep_get_store _ _ _ _ _ _ Hr Hw). cbn [rbind]. destruct (rep_store_inst _ _ _ _ _ _ Hr Hw) as (b & Hio & Hb & Hbin).
  destruct (re_store _ _ _ _ Hr k w Hw) as (-> & _). cbn [assert_ rbind]. rewrite Hio. cbn [rbind].
  rewrite (sn_seq _ _ _ _ Hbin). pose proof (Hold k w ltac:(lia) Hw). destruct (Z.ltb_spec (sv_seq w) (seqNum x)); [|lia]. cbn [assert_ rbind].
  assert (Hskip : (~ searched (base (sv_e w)) b \/ ~ overlap (addr_of r) (laddr b)) ->
    exists res, search_loop m (cq_head (storeQueue s) + Z.of_nat k) x r s = Ok res /\ found s svs r (S k - S m) (S k) res).
  { intros Hno. destruct (IH s lvs svs k x r Hr Hro) as (res & -> & Hres); [lia|by replace (k - m)%nat with (S k - S m)%nat by lia|intros; apply (Hold j); [lia|done]|].
    exists res. split; [done|]. apply found_skip; [|done]. intros w' b' [Hw' Hb' Hse Hov]. assert (w' = w) by congruence. subst w'. assert (b' = b) by congruence.
    subst b'. tauto. }
  destruct (Z.eq_dec (sv_size w) 0) as [Hz|Hz].
  { unfold sv_size in Hz. rewrite Hz. cbn [swrap Z.eqb orb rbind]. apply Hskip. left. by intros [? _]. }
  destruct (sn_request _ _ _ _ Hbin Hz) as (sr & Hsr & Hsize & Hpos & _ & Hav & Ea & Es & Eo & Hva & Hend & _).
  assert (Hsw : swrap 32 (e_size (base (sv_e w))) = rq_size sr) by (rewrite Hsize; apply swrap_small; unfold in_s, sv_size in *; cbn in *; lia).
  rewrite Hsw. destruct (Z.eqb_spec (rq_size sr) 0); [lia|]. destruct (strictlyOrdered (laddr b)) eqn:Hso; cbn [orb rbind].
  { apply Hskip. left. intros (_ & ? & _). congruence. }
  rewrite Hsr. cbn [deref rbind]. destruct (isCacheMaintenance sr) eqn:Hcm.
  { apply Hskip. left. intros (_ & _ & Hall). specialize (Hall sr Hsr). congruence. }
  rewrite Hav. cbn [assert_ rbind]. destruct Hro as (Hr1 & Hr2 & Hr3). rewrite Ea. rewrite !wrap_small by (unfold in_u; cbn in *; lia).
  assert (Hse : overlap (addr_of r) (laddr b) -> seen s svs (addr_of r) k w b).
  { intros Hov. split; try done. split_and!; try done. intros r' Hr'. congruence. }
  pose proof (coverage_spec (rq_vaddr r) (rq_vaddr r + rq_size r) (rq_vaddr sr) (rq_vaddr sr + rq_size sr) (isLLSC r) (isAtomic (static b)) (isMasked sr) ltac:(lia) ltac:(lia)) as Hcov.
  assert (Hlast : forall j' w' b', (k < j' < S k)%nat -> ~ seen s svs (addr_of r) j' w' b') by (intros; lia).
  destruct (coverage _ _ _ _ _ _ _).
  - destruct (completed (sv_e w)) eqn:Hcw; [pose proof (oo_completed _ _ _ _ _ (re_order _ _ _ _ Hr) k w Hw Hcw); lia|].
    exists (StallOn (sv_seq w)). split; [done|]. exists k, w, b. destruct Hcov as (Hc1 & Hc2 & Hc3).
    split_and!; try done; [lia..|apply Hse; unfold overlap, addr_of; cbn; lia|]. intros (S1 & S2 & S3 & S4 & S5).
    apply Hc3. rewrite Ea, Es in *. split_and!; try done. by apply S5.
  - destruct Hcov as (Hc1 & Hc2 & Hc3 & Hc4 & Hc5). destruct (forward_data _ w b r Hbin Hz) as (d & Hd & Hf); [done|lia..|]. rewrite Ea in Hd. rewrite Hd. cbn [rbind].
    exists (Forward (cq_head (storeQueue s) + Z.of_nat k) (sv_seq w) d). split; [done|]. exists k, w, b.
    split_and!; try done; [lia..|apply Hse; unfold overlap, addr_of; cbn; lia|]. split_and!; rewrite ?Ea, ?Es; try done. intros sr' ?. congruence.
  - apply Hskip. right. unfold overlap, addr_of. cbn. lia.
Qed.
End Search.

(** ** Steps on one load *)

Section Read.
Context (n : nat).

(** Only the requests of the entries differ. *)
Definition lvs_same lvs lvs' : Prop := Forall2 (fun u u' => lv_id u' = lv_id u /\ lv_seq u' = lv_seq u /\ lv_sqIt u' = lv_sqIt u) lvs lvs'.

Lemma lvs_same_refl lvs : lvs_same lvs lvs.
Proof. by apply Forall_Forall2_diag, Forall_true. Qed.

Lemma lvs_same_trans l1 l2 l3 : lvs_same l1 l2 -> lvs_same l2 l3 -> lvs_same l1 l3.
Proof.
  intros H. revert l3. induction H as [|u u2 l l2 (E1 & E2 & E3) _ IH]; intros l3 H23; inversion H23 as [|u3 ? l4 ? (F1 & F2 & F3)]; subst; constructor;
    [split_and!; congruence|by apply IH].
Qed.

Lemma lvs_same_elem lvs lvs' u' : lvs_same lvs lvs' -> u' ∈ lvs' -> exists u, u ∈ lvs /\ lv_id u' = lv_id u /\ lv_seq u' = lv_seq u.
Proof.
  intros H [j Hj]%list_elem_of_lookup_1. destruct (Forall2_lookup_r _ _ _ _ _ H Hj) as (u & Hu & E1 & E2 & _). exists u.
  split; [by eapply list_elem_of_lookup_2|done].
Qed.

(** From [s] to [s'] the load [v], at [k], became [y] and [A] was asked for. *)
Record lstep k v s lvs svs (A : list Act) s' lvs' (y : LInst) : Prop := {
  ls_rep : rep n s' lvs' svs;
  ls_heap : insts s' = <[lv_id v := y]> (insts s);
  ls_at : exists v', lvs' !! k = Some v' /\ lv_id v' = lv_id v /\ lv_seq v' = lv_seq v /\ lv_sqIt v' = lv_sqIt v;
  ls_same : lvs_same lvs lvs';
  ls_head : cq_head (loadQueue s') = cq_head (loadQueue s);
  ls_sq : storeQueue s' = storeQueue s;
  ls_wb : storeWBIt s' = storeWBIt s;
  ls_violator : memDepViolator s' = memDepViolator s;
  ls_acts : acts s' = acts s ++ A
}.

Lemma lstep_start k v s lvs svs x : rep n s lvs svs -> lvs !! k = Some v -> insts s !! lv_id v = Some x -> lstep k v s lvs svs [] s lvs x.
Proof.
  intros Hr Hk Hx. split; try done; [by rewrite insert_id|by eauto|apply lvs_same_refl|by rewrite app_nil_r].
Qed.

Lemma lstep_act k v s lvs svs A s' lvs' y a : lstep k v s lvs svs A s' lvs' y -> lstep k v s lvs svs (A ++ [a]) (act a s') lvs' y.
Proof. intros [? ? ? ? ? ? ? ? E]. split; try done; [by apply rep_act|]. cbn. by rewrite E, app_assoc. Qed.

Lemma lstep_modify k v s lvs svs A s' lvs' y f : lstep k v s lvs svs A s' lvs' y -> same_key y (f y) ->
  exists s2, modify (lv_id v) f s' = Ok s2 /\ lstep k v s lvs svs A s2 lvs' (f y).
Proof.
  intros [H1 H2 (v' & Hv' & Hid & E1 & E2) H4 H5 H6 H7 H8 H9] Hk. destruct (rep_modify_load n _ _ _ _ _ y f H1 Hv') as [Hm Hr]; [by rewrite H2, Hid, lookup_insert_eq|done|].
  rewrite Hid in Hm, Hr. eexists. split; [exact Hm|]. split; try done; [|by eauto]. cbn. by rewrite H2, insert_insert_eq.
Qed.

Lemma lstep_request k v s lvs svs A s' lvs' y r : lstep k v s lvs svs A s' lvs' y ->
  exists s2 lvs2, set_load_request (cq_head (loadQueue s) + Z.of_nat k) r s' = Ok s2 /\ lstep k v s lvs svs A s2 lvs2 y /\
    stalled s2 = stalled s' /\ stallingLoadIdx s2 = stallingLoadIdx s'.
Proof.
  intros [H1 H2 (v' & Hv' & Hid & E1 & E2) H4 H5 H6 H7 H8 H9]. destruct (rep_load_request n _ _ _ _ _ r H1 Hv') as (s2 & Hok & q & -> & Hh & Hsz & Hr).
  rewrite H5 in Hok. eexists _, _. split; [exact Hok|]. split; [|done]. pose proof (lookup_lt_Some _ _ _ Hv') as Hlt. split; try done.
  - eexists. rewrite list_lookup_insert_eq by done. split; [done|]. done.
  - eapply lvs_same_trans; [exact H4|]. rewrite <- (list_insert_id lvs' k v' Hv') at 1.
    apply Forall2_insert; [|done]. apply lvs_same_refl.
  - cbn. congruence.
Qed.

Lemma lstep_stall k v s lvs svs A s' lvs' y st : lstep k v s lvs svs A s' lvs' y -> st < lv_seq v ->
  lstep k v s lvs svs A (with_stall s' true st (cq_head (loadQueue s) + Z.of_nat k)) lvs' y.
Proof.
  intros [H1 H2 (v' & Hv' & Hid & E1 & E2) H4 H5 H6 H7 H8 H9] Hst. split; try done; [|by eauto]. destruct H1 as [? ? ? ? ? ? ? ? ? ? ?]. split; try done.
  intros _. exists k, v'. cbn. rewrite H5, E1. done.
Qed.

(** The load's entry and object, after such a step. *)
Lemma lstep_get k v s lvs svs A s' lvs' y : lstep k v s lvs svs A s' lvs' y ->
  exists e, cq_get (loadQueue s') (cq_head (loadQueue s) + Z.of_nat k) = Ok e /\ inst_of e s' = Ok (lv_id v, y).
Proof.
  intros [H1 H2 (v' & Hv' & Hid & _) _ H5 _ _ _ _]. rewrite <- H5. exists (lv_e v'). split; [by eapply rep_get_load|].
  destruct (rep_load_inst _ _ _ _ _ _ H1 Hv') as (z & Hz & Hz' & _). rewrite H2, Hid, lookup_insert_eq in Hz'. inv Hz'. by rewrite Hz, Hid.
Qed.

Lemma reschedule_load_ok k v s lvs svs A s' lvs' y : lstep k v s lvs svs A s' lvs' y ->
  exists s2, reschedule_load (lv_id v) s' = Ok s2 /\
    lstep k v s lvs svs (A ++ [RescheduleMemInst (lv_id v)]) s2 lvs' (set_effAddrValid false (clearIssued y)).
Proof. intros H. unfold reschedule_load. eapply (lstep_modify _ _ _ _ _ _ _ _ _ (fun x => set_effAddrValid false (clearIssued x))); [by apply lstep_act|done]. Qed.

(** ** [read] *)

(** The stores a load looks at are older, and not yet handed to memory. *)
Definition visible s svs v (a : LAddr) (j : nat) w (b : LInst) : Prop :=
  seen s svs a j w b /\ storeWBIt s <= cq_head (storeQueue s) + Z.of_nat j /\ sv_seq w < lv_seq v.

(** What happens to a load [x] that becomes [y]. *)
Inductive read_case s svs v (x : LInst) (r : Req) : LFault -> LInst -> list Act -> Prop :=
| RcDeferred y A : isStrictlyOrdered r = true -> effAddrValid (laddr y) = false -> memDepInfo y = memDepInfo x -> read_case s svs v x r M5PanicFault y A
| RcLocal y A : isLocalAccess r = true -> laddr y = laddr x -> memDepInfo y = memDepInfo x -> read_case s svs v x r NoFault y A
| RcForward j w b d y A : visible s svs v (addr_of r) j w b -> supplies r (sv_e w) b /\ forwards r (sv_e w) b d ->
    (forall j' w' b', (j < j')%nat -> ~ visible s svs v (addr_of r) j' w' b') ->
    laddr y = laddr x -> memData y = Some d -> forwardedFrom (memDepInfo y) = sv_seq w ->
    violatingStoreSeqNum (memDepInfo y) = violatingStoreSeqNum (memDepInfo x) ->
    read_case s svs v x r NoFault y (A ++ [ScheduleWriteback (lv_id v) d])
| RcStall j w b y A : visible s svs v (addr_of r) j w b /\ ~ supplies r (sv_e w) b -> (forall j' w' b', (j < j')%nat -> ~ visible s svs v (addr_of r) j' w' b') ->
    effAddrValid (laddr y) = false -> memDepInfo y = memDepInfo x -> RescheduleMemInst (lv_id v) ∈ A -> read_case s svs v x r NoFault y A
| RcMemory y A : (isDataPrefetch (static x) = false -> forall j w b, ~ visible s svs v (addr_of r) j w b) ->
    laddr y = laddr x -> memDepInfo y = memDepInfo x -> SendPacket (lv_id v) ∈ A -> read_case s svs v x r NoFault y A.

Lemma seen_eq s s' svs a j w b : insts s' = insts s -> seen s' svs a j w b -> seen s svs a j w b.
Proof. intros E [? Hi ? ?]. rewrite E in Hi. by split. Qed.

(** The search in terms of what is visible. *)
Lemma search_ok k v s lvs svs A s' lvs' x r : lstep k v s lvs svs A s' lvs' x -> insts s !! lv_id v = Some x -> range_ok r ->
  (storeWBIt s' <=? sqIt (lpos x)) = true /\
  exists res, search_loop (if isDataPrefetch (static x) then 0 else Z.to_nat (sqIt (lpos x) - storeWBIt s')) (sqIt (lpos x)) x r s' = Ok res /\
    match res with
    | Forward it st d => exists j w b, it = cq_head (storeQueue s) + Z.of_nat j /\ st = sv_seq w /\ visible s svs v (addr_of r) j w b /\
        (supplies r (sv_e w) b /\ forwards r (sv_e w) b d) /\ forall j' w' b', (j < j')%nat -> ~ visible s svs v (addr_of r) j' w' b'
    | StallOn st => exists j w b, st = sv_seq w /\ (visible s svs v (addr_of r) j w b /\ ~ supplies r (sv_e w) b) /\
        forall j' w' b', (j < j')%nat -> ~ visible s svs v (addr_of r) j' w' b'
    | ToMemory => isDataPrefetch (static x) = false -> forall j w b, ~ visible s svs v (addr_of r) j w b
    end.
Proof.
  intros Hst Hx Hro. pose proof (ls_rep _ _ _ _ _ _ _ _ _ Hst) as Hr. destruct (ls_at _ _ _ _ _ _ _ _ _ Hst) as (v' & Hv' & Hid & Eseq & Esq).
  assert (Hheap : insts s' = insts s) by (rewrite (ls_heap _ _ _ _ _ _ _ _ _ Hst); by apply insert_id).
  destruct (rep_load_inst _ _ _ _ _ _ Hr Hv') as (x' & _ & Hx' & Hin). rewrite Hid, Hheap, Hx in Hx'. inv Hx'.
  pose proof (ln_sqIt _ _ _ Hin) as Hsq. pose proof (ln_seq _ _ _ Hin) as Hseq. pose proof (re_order _ _ _ _ Hr) as Ho.
  pose proof (oo_sqIt_range _ _ _ _ _ Ho v' ltac:(by eapply list_elem_of_lookup_2)) as Hrange. rewrite <- Hsq in Hrange.
  pose proof (oo_wb _ _ _ _ _ Ho) as Hwb. pose proof (oo_sqIt _ _ _ _ _ Ho v') as Hiff. rewrite <- Hsq in Hiff.
  pose proof (list_elem_of_lookup_2 _ _ _ Hv') as Hmem. rewrite (ls_sq _ _ _ _ _ _ _ _ _ Hst), (ls_wb _ _ _ _ _ _ _ _ _ Hst) in *.
  split; [apply Z.leb_le; lia|]. set (K := Z.to_nat (sqIt (lpos x') - cq_head (storeQueue s))).
  assert (HK : sqIt (lpos x') = cq_head (storeQueue s) + Z.of_nat K) by (unfold K; lia).
  assert (Hvis : forall j w b, seen s svs (addr_of r) j w b -> (j < K)%nat <-> sv_seq w < lv_seq v).
  { intros j w b [Hj _ _ _]. rewrite <- Eseq, <- (Hiff j w Hmem Hj). lia. }
  destruct (search_loop_ok n (if isDataPrefetch (static x') then 0 else Z.to_nat (sqIt (lpos x') - storeWBIt s)) s' lvs' svs K x' r Hr Hro) as (res & Hok & Hf).
  { destruct (isDataPrefetch (static x')); lia. }
  { rewrite (ls_sq _ _ _ _ _ _ _ _ _ Hst), (ls_wb _ _ _ _ _ _ _ _ _ Hst). destruct (isDataPrefetch (static x')); lia. }
  { intros j w Hj Hw. rewrite Hseq. apply (Hiff j w Hmem Hw). lia. }
  rewrite (ls_sq _ _ _ _ _ _ _ _ _ Hst), <- HK in Hok. exists res. split; [done|]. unfold visible.
  destruct res as [it st d|st|]; unfold found in Hf; rewrite ?(ls_sq _ _ _ _ _ _ _ _ _ Hst) in Hf.
  - destruct Hf as (j & w & b & Hj & E1 & E2 & Hse & [Hsu Hfw] & Hall). apply (seen_eq s s' _ _ _ _ _ Hheap) in Hse. exists j, w, b. split_and!; try done.
    + destruct (isDataPrefetch (static x')); lia.
    + apply (Hvis _ _ _ Hse). lia.
    + intros j' w' b' Hj' (Hs' & _ & Hlt). apply (Hvis _ _ _ Hs') in Hlt. apply (Hall j' w' b'); [lia|]. by apply (seen_eq s' s).
  - destruct Hf as (j & w & b & Hj & E2 & (Hse & Hns) & Hall). apply (seen_eq s s' _ _ _ _ _ Hheap) in Hse. exists j, w, b. split_and!; try done.
    + destruct (isDataPrefetch (static x')); lia.
    + apply (Hvis _ _ _ Hse). lia.
    + intros j' w' b' Hj' (Hs' & _ & Hlt). apply (Hvis _ _ _ Hs') in Hlt. apply (Hall j' w' b'); [lia|]. by apply (seen_eq s' s).
  - intros Hp j w b (Hs' & Hge & Hlt). apply (Hvis _ _ _ Hs') in Hlt. rewrite Hp in Hf. apply (Hf j w b); [lia|by apply (seen_eq s' s)].
Qed.

(** A load that has to wait: the unit remembers the oldest such load. *)
Lemma stall_ok k v s lvs svs A s' lvs' y st : lstep k v s lvs svs A s' lvs' y -> st < lv_seq v ->
  exists s2, (let! oldest := if stalled s' then let! se := cq_get (loadQueue s') (stallingLoadIdx s') in let! (_, z) := inst_of se s' in Ok (seqNum y <? seqNum z) else Ok true in
      Ok (if (oldest : bool) then with_stall s' true st (cq_head (loadQueue s) + Z.of_nat k) else s')) = Ok s2 /\ lstep k v s lvs svs A s2 lvs' y.
Proof.
  intros Hst Hlt. assert (Hb : forall b : bool, lstep k v s lvs svs A (if b then with_stall s' true st (cq_head (loadQueue s) + Z.of_nat k) else s') lvs' y).
  { intros []; [by apply lstep_stall|done]. }
  destruct (stalled s') eqn:E; [|eexists; split; [done|apply (Hb true)]].
  pose proof (ls_rep _ _ _ _ _ _ _ _ _ Hst) as Hr. destruct (re_stall _ _ _ _ Hr E) as (j & u & Hj & -> & _).
  rewrite (rep_get_load _ _ _ _ _ _ Hr Hj). cbn [rbind]. destruct (rep_load_inst _ _ _ _ _ _ Hr Hj) as (z & -> & _). cbn [rbind]. by eexists.
Qed.

Lemma read_ok k v s lvs svs x r env : rep n s lvs svs -> lvs !! k = Some v -> insts s !! lv_id v = Some x -> executed (lflags x) = false ->
  range_ok r -> isHTMCmd r = false -> (isLocalAccess r = true -> memData x = None) ->
  exists f s' lvs' y A, read r (cq_head (loadQueue s) + Z.of_nat k) env s = Ok (f, s') /\ lstep k v s lvs svs A s' lvs' y /\
    same_key x y /\ read_case s svs v x r f y A.
Proof.
  intros Hr Hk Hx Hex Hro Hcmd Hloc. unfold read.
  destruct (lstep_request _ _ _ _ _ _ _ _ _ (Some r) (lstep_start _ _ _ _ _ _ Hr Hk Hx)) as (s1 & lvs1 & -> & Hs1 & _). cbn [rbind].
  destruct (lstep_get _ _ _ _ _ _ _ _ _ Hs1) as (e & -> & Hio). cbn [rbind]. rewrite Hio. cbn [rbind]. rewrite Hex. cbn [negb assert_ rbind].
  destruct (isStrictlyOrdered r && _) eqn:Hso.
  { apply andb_true_iff in Hso as [Hso _]. destruct (reschedule_load_ok _ _ _ _ _ _ _ _ _ Hs1) as (s2 & -> & Hs2). cbn [rbind].
    destruct (lstep_request _ _ _ _ _ _ _ _ _ None Hs2) as (s3 & lvs3 & -> & Hs3 & _). cbn [rbind].
    eexists _, _, lvs3, _, _. split; [done|]. split; [by apply lstep_act|]. split; [done|]. by apply RcDeferred. }
  set (s2 := if isLLSC r then act (HandleLockedRead (lv_id v)) s1 else s1).
  assert (H2 : exists A, lstep k v s lvs svs A s2 lvs1 x) by (unfold s2; destruct (isLLSC r); eexists; [by apply lstep_act|done]). destruct H2 as [A2 Hs2].
  clearbody s2. destruct (isLocalAccess r) eqn:Hl.
  { rewrite bool_decide_eq_true_2 by auto. cbn [assert_ rbind].
    destruct (lstep_modify _ _ _ _ _ _ _ _ _ (up_data (Some (local_data env))) Hs2) as (s3 & -> & Hs3); [done|]. cbn [rbind].
    eexists _, _, lvs1, _, _. split; [done|]. split; [by apply lstep_act|]. split; [done|]. by apply RcLocal. }
  destruct (search_ok _ _ _ _ _ _ _ _ _ r Hs2 Hx Hro) as (Hwb & res & Hsearch & Hres). rewrite Hwb. cbn [assert_ rbind]. rewrite Hsearch. cbn [rbind].
  destruct res as [it st d|st|].
  - destruct Hres as (j & w & b & -> & -> & Hvis & Hfw & Hall).
    destruct (lstep_modify _ _ _ _ _ _ _ _ _ (fun z => up_dep (fun q => mkMemDepInfo (sv_seq w) (violatingStoreSeqNum q) (violatingStorePC q) (storeQueueDistance q))
      (up_data (Some d) z)) Hs2) as (s3 & -> & Hs3); [done|]. cbn [rbind]. rewrite Hcmd. cbn [negb assert_ rbind]. unfold htm_forward_check.
    destruct (rep_load_inst _ _ _ _ _ _ Hr Hk) as (x' & _ & Hx' & Hin). rewrite Hx in Hx'. inv Hx'. rewrite (ln_htm _ _ _ Hin). cbn [rbind].
    destruct (outstanding env).
    + destruct (lstep_request _ _ _ _ _ _ _ _ _ None (lstep_act _ _ _ _ _ _ _ _ _ (DiscardRequest (lv_id v)) Hs3)) as (s4 & lvs4 & -> & Hs4 & _). cbn [rbind].
      eexists _, _, lvs4, _, _. split; [done|]. split; [by apply lstep_act|]. split; [done|]. by eapply RcForward.
    + cbn [rbind]. eexists _, _, lvs1, _, _. split; [done|]. split; [by apply lstep_act|]. split; [done|]. by eapply RcForward.
  - destruct Hres as (j & w & b & -> & Hvis & Hall). destruct (stall_ok _ _ _ _ _ _ _ _ _ (sv_seq w) Hs2) as (s3 & Hs3 & Hl3); [apply (proj1 Hvis)|].
    destruct (if stalled s2 then _ else _) as [o|]; [|done]. cbn [rbind] in *. inv Hs3.
    destruct (reschedule_load_ok _ _ _ _ _ _ _ _ _ Hl3) as (s4 & -> & Hs4). cbn [rbind].
    destruct (lstep_request _ _ _ _ _ _ _ _ _ None (lstep_act _ _ _ _ _ _ _ _ _ (DiscardRequest (lv_id v)) Hs4)) as (s5 & lvs5 & -> & Hs5 & _). cbn [rbind].
    eexists _, _, lvs5, _, _. split; [done|]. split; [done|]. split; [done|]. eapply RcStall; try done. set_solver.
  - destruct (lstep_modify _ _ _ _ _ _ _ _ _ (up_data (Some (if isHTMCmd r then <[0%nat := 1]> (default (replicate (Z.to_nat (rq_size r)) 0) (memData x))
      else default (replicate (Z.to_nat (rq_size r)) 0) (memData x)))) Hs2) as (s3 & -> & Hs3); [done|]. cbn [rbind].
    destruct (sent env); eexists _, _, lvs1, _, _; (split; [done|]).
    + split; [by apply lstep_act|]. split; [done|]. apply RcMemory; try done. set_solver.
    + split; [by do 2 apply lstep_act|]. split; [done|]. apply RcMemory; try done. set_solver.
Qed.
End Read.

(** ** The check for violations *)

Section Check.
Context (p : LsqParams) (n : nat).

(** The accesses meet at the granularity of the check. *)
Definition blocks_meet (a b : LAddr) : bool := (dep_first p a <=? dep_last p b) && (dep_first p b <=? dep_last p a).

(** The load [ld] was executed before the older store [x] it depends on. *)
Definition violates (x ld : LInst) : Prop :=
  effAddrValid (laddr ld) = true /\ strictlyOrdered (laddr ld) = false /\ blocks_meet (laddr ld) (laddr x) = true /\
  forwardedFrom (memDepInfo ld) <= seqNum x /\ violatingStoreSeqNum (memDepInfo ld) <= seqNum x.

(** The number of the violator that is not reported yet. *)
Definition pending s : option Z := memDepViolator s ≫= fun i => seqNum <$> insts s !! i.

Lemma pending_ok s lvs svs : rep n s lvs svs ->
  match memDepViolator s with None => Ok None | Some v => let! y := deref (insts s !! v) in Ok (Some (seqNum y)) end = Ok (pending s).
Proof.
  intros Hr. unfold pending. destruct (memDepViolator s) as [i|] eqn:E; [|done]. destruct (re_violator _ _ _ _ Hr i E) as (v & [k Hk]%list_elem_of_lookup_1 & <-).
  destruct (rep_load_inst _ _ _ _ _ _ Hr Hk) as (x & _ & Hx & _). cbn. by rewrite Hx.
Qed.

(** What is written into the load that violates. *)
Definition blame (x ld : LInst) : LInst :=
  up_dep (fun d => mkMemDepInfo (forwardedFrom d) (seqNum x) (pc (static x)) (sqIt (lpos ld) - sqIt (lpos x))) ld.

(** The outcome of the check of the loads from [k] on against a store: the oldest violating load becomes the violator,
    unless an older violator is pending. *)
Definition checked s lvs (x : LInst) (k : nat) (f : LFault) s' : Prop :=
  (f = NoFault /\ s' = s /\ forall j v ld, (k <= j)%nat -> lvs !! j = Some v -> insts s !! lv_id v = Some ld -> violates x ld ->
    exists q, pending s = Some q /\ q < lv_seq v) \/
  (f = M5PanicFault /\ exists j v ld, (k <= j)%nat /\ lvs !! j = Some v /\ insts s !! lv_id v = Some ld /\ violates x ld /\
    (forall q, pending s = Some q -> lv_seq v <= q) /\
    s' = with_insts (with_violator s (Some (lv_id v))) (<[lv_id v := blame x ld]> (insts s)) /\
    forall j' v' ld', (k <= j' < j)%nat -> lvs !! j' = Some v' -> insts s !! lv_id v' = Some ld' -> ~ violates x ld').

Lemma checked_skip s lvs x k v ld f s' : lvs !! k = Some v -> insts s !! lv_id v = Some ld -> ~ violates x ld ->
  checked s lvs x (S k) f s' -> checked s lvs x k f s'.
Proof.
  intros Hk Hld Hno Hres. assert (Hk' : forall v' ld', lvs !! k = Some v' -> insts s !! lv_id v' = Some ld' -> ~ violates x ld').
  { intros v' ld' Hv' Hld'. assert (v' = v) by congruence. subst v'. congruence. }
  destruct Hres as [(-> & -> & Hall)|(-> & j & v1 & ld1 & Hj & Hv1 & Hl1 & Hvi & Hq & Es & Hall)].
  - left. split_and!; try done. intros j v1 ld1 Hj Hv1 Hl1 Hvi. destruct (decide (j = k)) as [->|]; [by destruct (Hk' v1 ld1)|]. eapply (Hall j); [lia|done..].
  - right. split; [done|]. exists j, v1, ld1. split_and!; try done; [lia|]. intros j' v' ld' Hj' Hv' Hl'.
    destruct (decide (j' = k)) as [->|]; [by apply (Hk' v')|]. apply (Hall j' v' ld'); [lia|done..].
Qed.

Lemma check_store_ok m : forall k s lvs svs i x, rep n s lvs svs -> length lvs = (k + m)%nat -> insts s !! i = Some x -> isLoad (static x) = false ->
  exists f s', check_loop p m (cq_head (loadQueue s) + Z.of_nat k) i s = Ok (f, s') /\ checked s lvs x k f s'.
Proof.
  induction m as [|m IH]; intros k s lvs svs i x Hr Hlen Hi Hst.
  { exists NoFault, s. split; [done|]. left. split_and!; try done. intros j v ld Hj Hv. apply lookup_lt_Some in Hv. lia. }
  destruct (lookup_lt_is_Some_2 lvs k ltac:(lia)) as [v Hk]. cbn [check_loop]. rewrite (rep_get_load _ _ _ _ _ _ Hr Hk). cbn [rbind].
  destruct (rep_load_inst _ _ _ _ _ _ Hr Hk) as (ld & -> & Hld & Hin). cbn [rbind]. rewrite Hi. cbn [deref rbind].
  replace (cq_head (loadQueue s) + Z.of_nat k + 1) with (cq_head (loadQueue s) + Z.of_nat (S k)) by lia.
  assert (Hskip : ~ violates x ld -> exists f s', check_loop p m (cq_head (loadQueue s) + Z.of_nat (S k)) i s = Ok (f, s') /\ checked s lvs x k f s').
  { intros Hno. destruct (IH (S k) s lvs svs i x Hr ltac:(lia) Hi Hst) as (f & s' & Hok & Hres). exists f, s'. split; [done|]. by eapply checked_skip. }
  destruct (effAddrValid (laddr ld)) eqn:Hav; [|apply Hskip; by intros (? & _); congruence].
  destruct (strictlyOrdered (laddr ld)) eqn:Hso; [apply Hskip; by intros (_ & ? & _); congruence|]. cbn [negb orb].
  fold (blocks_meet (laddr ld) (laddr x)). destruct (blocks_meet (laddr ld) (laddr x)) eqn:Hbm; [|apply Hskip; by intros (_ & _ & ? & _); congruence].
  rewrite (pending_ok _ _ _ Hr). cbn [rbind]. rewrite Hst, (ln_seq _ _ _ Hin).
  destruct (match pending s with None => false | Some q => q <? lv_seq v end) eqn:Hpe.
  { exists NoFault, s. split; [done|]. left. split_and!; try done. intros j v1 ld1 Hj Hv1 _ _. destruct (pending s) as [q|]; [|done]. apply Z.ltb_lt in Hpe.
    exists q. split; [done|]. destruct (decide (j = k)) as [->|]; [congruence|]. pose proof (oo_loads _ _ _ _ _ (re_order _ _ _ _ Hr)) as Hs.
    assert (lv_seq v < lv_seq v1); [|lia]. eapply (sorted_lt _ k j _ _ Hs); [lia|by rewrite list_lookup_fmap, ?Hk, ?Hv1..]. }
  destruct ((seqNum x <? forwardedFrom (memDepInfo ld)) || (seqNum x <? violatingStoreSeqNum (memDepInfo ld))) eqn:Hfw.
  { apply Hskip. intros (_ & _ & _ & H1 & H2). apply orb_true_iff in Hfw as [Hfw|Hfw]; apply Z.ltb_lt in Hfw; lia. }
  apply orb_false_iff in Hfw as [Hf1 Hf2]. apply Z.ltb_ge in Hf1. apply Z.ltb_ge in Hf2. unfold modify. cbn [with_violator insts]. rewrite Hld. cbn [deref rbind].
  eexists M5PanicFault, _. split; [done|]. right. split; [done|]. exists k, v, ld. split_and!; try done.
  - intros q Hq. rewrite Hq in Hpe. apply Z.ltb_ge in Hpe. lia.
  - intros j' v' ld' Hj'. lia.
Qed.

(** For a load the check keeps or ages the violator, and marks younger loads. *)
Record aged s lvs svs s' : Prop := {
  ag_rep : rep n s' lvs svs;
  ag_heap : heap_le (insts s) (insts s');
  ag_lq : loadQueue s' = loadQueue s;
  ag_sq : storeQueue s' = storeQueue s;
  ag_wb : storeWBIt s' = storeWBIt s;
  ag_acts : acts s' = acts s;
  ag_pending q : pending s = Some q -> exists q', pending s' = Some q' /\ q' <= q
}.

Lemma pending_heap s s' q : heap_le (insts s) (insts s') -> memDepViolator s' = memDepViolator s -> pending s = Some q -> pending s' = Some q.
Proof.
  intros Hh Hv Hp. unfold pending in *. rewrite Hv. destruct (memDepViolator s) as [i|]; [|done]. cbn in *.
  destruct (insts s !! i) as [x|] eqn:Hx; [|done]. destruct (Hh i x Hx) as (y & Hy & [Hseq _] & _). rewrite Hy. cbn in *. congruence.
Qed.

Lemma aged_refl s lvs svs : rep n s lvs svs -> aged s lvs svs s.
Proof. intros Hr. split; try done; [apply heap_le_refl|]. intros q Hq. exists q. split; [done|lia]. Qed.

Lemma check_load_ok m : forall k s lvs svs i x, rep n s lvs svs -> length lvs = (k + m)%nat -> insts s !! i = Some x -> isLoad (static x) = true ->
  exists f s', check_loop p m (cq_head (loadQueue s) + Z.of_nat k) i s = Ok (f, s') /\ aged s lvs svs s'.
Proof.
  induction m as [|m IH]; intros k s lvs svs i x Hr Hlen Hi Hst; [by exists NoFault, s; split; [|apply aged_refl]|].
  destruct (lookup_lt_is_Some_2 lvs k ltac:(lia)) as [v Hk]. cbn [check_loop]. rewrite (rep_get_load _ _ _ _ _ _ Hr Hk). cbn [rbind].
  destruct (rep_load_inst _ _ _ _ _ _ Hr Hk) as (ld & -> & Hld & Hin). cbn [rbind]. rewrite Hi. cbn [deref rbind].
  replace (cq_head (loadQueue s) + Z.of_nat k + 1) with (cq_head (loadQueue s) + Z.of_nat (S k)) by lia.
  destruct (negb (effAddrValid (laddr ld)) || strictlyOrdered (laddr ld)); [by eapply IH; [done|lia|..]|].
  fold (blocks_meet (laddr ld) (laddr x)). destruct (blocks_meet (laddr ld) (laddr x)); [|by eapply IH; [done|lia|..]].
  rewrite (pending_ok _ _ _ Hr). cbn [rbind]. rewrite Hst, (ln_seq _ _ _ Hin). destruct (hitExternalSnoop (lflags ld) && _) eqn:E.
  - eexists M5PanicFault, _. split; [done|]. apply andb_true_iff in E as [_ E]. split; try done; [|apply heap_le_refl|].
    + apply rep_violator; [done|]. intros j [= <-]. exists v. split; [by eapply list_elem_of_lookup_2|done].
    + intros q Hq. rewrite Hq in E. apply Z.ltb_lt in E. exists (lv_seq v). split; [|lia]. unfold pending. cbn. rewrite Hld. cbn. by rewrite (ln_seq _ _ _ Hin).
  - destruct (rep_modify_load n _ _ _ _ _ ld setPossibleLoadViolation Hr Hk Hld) as [-> Hr1]; [done|]. cbn [rbind]. set (s1 := with_insts s _) in *.
    assert (Hle : heap_le (insts s) (insts s1)) by (by apply (heap_le_insert _ _ ld)). destruct (Hle i x Hi) as (x1 & Hi1 & [_ Hs1] & _).
    destruct (IH (S k) s1 lvs svs i x1 Hr1 ltac:(lia) Hi1 ltac:(congruence)) as (f & s' & Hok & [A1 A2 A3 A4 A5 A6 A7]). exists f, s'. split; [exact Hok|].
    split; try done; [by eapply heap_le_trans|]. intros q Hq. apply A7. by eapply pending_heap.
Qed.
End Check.
