(* ===== verification/LsqRun.v ===== *)
(** * Execution keeps the invariant of the load/store queue

    [executeLoad], [executeStore] and [checkSnoop] as whole operations. *)

From Stdlib Require Import ZArith Lia Bool.
From stdpp Require Import base tactics option list numbers gmap sorting.
From S2P Require Import Prelude CircularQueue Lsq LsqInv LsqOps LsqExec.
Open Scope Z_scope.

Implicit Types (s : Lsq) (lvs : list LV) (svs : list SV) (v : LV) (w : SV) (j k : nat).

Section Run.
Context (p : LsqParams) (n : nat).

(** ** Steps of the invariant *)

Lemma covered_pending R s q : covered R s q <-> (exists r, r ∈ R /\ r <= q) \/ (exists q', pending s = Some q' /\ q' <= q).
Proof.
  unfold covered, pending. apply or_iff_compat_l. split.
  - intros (i & y & -> & Hy & Hle). exists (seqNum y). cbn. by rewrite Hy.
  - intros (q' & Hp & Hle). destruct (memDepViolator s) as [i|]; [|done]. cbn in Hp. destruct (insts s !! i) as [y|] eqn:Hy; [|done].
    cbn in Hp. inv Hp. by exists i, y.
Qed.

Lemma inv_act R s lvs svs a : inv n R s lvs svs -> inv n R (act a s) lvs svs.
Proof. intros [? ? ? ? [? ? ?]]. split; try done; first [by apply rep_act|by split]. Qed.

(** An object changes in its flags. *)
Lemma inv_flags R s lvs svs i f x : inv n R s lvs svs -> insts s !! i = Some x -> same_key x (f x) -> laddr (f x) = laddr x ->
  memDepInfo (f x) = memDepInfo x -> memData (f x) = memData x -> exists s', modify i f s = Ok s' /\ inv n R s' lvs svs /\ loadQueue s' = loadQueue s.
Proof.
  intros [Hr He Hc Hh Hm] Hx Hk Ha Hd Hmd. destruct (rep_modify n _ _ _ i f x Hr Hx Hk) as [Hok Hr1]; [intros; rewrite Hmd; auto|].
  eexists. split; [exact Hok|]. split; [|done]. split; try done. eapply (mem_quiet n); [exact Hr| |exact Hm]. apply quiet_heap; [|done..].
  destruct Hk as (? & ? & _). by apply (heap_le_insert _ _ x).
Qed.

(** One load changed, and what it may have missed is accounted for. *)
Lemma mem_load R k v s lvs svs A s' lvs' x y : rep n s lvs svs -> mem_ok R s lvs svs -> lvs !! k = Some v -> insts s !! lv_id v = Some x ->
  lstep n k v s lvs svs A s' lvs' y -> same_key x y ->
  (effAddrValid (laddr y) = true -> 0 <= effAddr (laddr y) /\ 0 < effSize (laddr y) /\ effAddr (laddr y) + effSize (laddr y) < 2 ^ 64) ->
  violatingStoreSeqNum (memDepInfo y) = violatingStoreSeqNum (memDepInfo x) ->
  (placed y -> forall j w b, visible s svs v (laddr y) j w b -> sv_seq w <= forwardedFrom (memDepInfo y)) -> mem_ok R s' lvs' svs.
Proof.
  intros Hr [H1 H2 H3] Hk Hx Hst (Eseq & _) Hb Hd Ho. pose proof Hst as [_ Hheap _ Hsame _ Hsq Hwb Hvi _].
  assert (Hne : forall w, w ∈ svs -> sv_id w <> lv_id v) by (intros w [j Hj]%list_elem_of_lookup_1; by eapply (load_not_store n)).
  assert (Hcov : forall q, covered R s q -> covered R s' q).
  { intros q. rewrite !covered_pending. intros [?|(q' & Hp & Hle)]; [by left|]. right. exists q'. split; [|done]. unfold pending in *. rewrite Hvi, Hheap.
    destruct (memDepViolator s) as [i|]; [|done]. cbn in *. destruct (decide (i = lv_id v)) as [->|]; [|by rewrite lookup_insert_ne].
    rewrite lookup_insert_eq. rewrite Hx in Hp. cbn in *. congruence. }
  assert (Hcase : forall u' z, u' ∈ lvs' -> insts s' !! lv_id u' = Some z -> (lv_seq u' = lv_seq v /\ z = y) \/
    exists u, u ∈ lvs /\ lv_id u = lv_id u' /\ lv_seq u = lv_seq u' /\ insts s !! lv_id u = Some z).
  { intros u' z Hu' Hz. destruct (lvs_same_elem _ _ _ Hsame Hu') as (u & Hu & E1 & E2). rewrite Hheap in Hz. destruct (decide (lv_id u' = lv_id v)) as [E|E].
    - left. rewrite E, lookup_insert_eq in Hz. inv Hz. split; [|done]. destruct (list_elem_of_lookup_1 _ _ Hu) as [ku Hku].
      destruct (rep_load_inst n _ _ _ _ _ Hr Hku) as (x1 & _ & Hx1 & Hin1). destruct (rep_load_inst n _ _ _ _ _ Hr Hk) as (x2 & _ & Hx2 & Hin2).
      rewrite <- E1, E in Hx1. rewrite E2, <- (ln_seq _ _ _ Hin1), <- (ln_seq _ _ _ Hin2). congruence.
    - right. exists u. rewrite lookup_insert_ne in Hz by done. rewrite <- E1. done. }
  split.
  - intros u z Hu Hz. destruct (Hcase u z Hu Hz) as [[_ ->]|(u0 & Hu0 & E1 & E2 & Hz0)]; [done|]. by apply (H1 u0).
  - intros u z Hu Hz. destruct (Hcase u z Hu Hz) as [[-> ->]|(u0 & Hu0 & E1 & <- & Hz0)]; [|intros ?; apply Hcov; by eapply H2].
    rewrite Hd. intros ?. apply Hcov. eapply H2; [by eapply list_elem_of_lookup_2|done..].
  - intros u z j w b Hu Hz Hj Hb' Hp Hse Hlt Hge Hov. pose proof (Hne w ltac:(by eapply list_elem_of_lookup_2)) as Hn.
    rewrite Hheap, lookup_insert_ne in Hb' by done. rewrite Hsq, Hwb in Hge. destruct (Hcase u z Hu Hz) as [[Eu ->]|(u0 & Hu0 & E1 & E2 & Hz0)].
    + left. apply (Ho Hp j w b). split; [by split|]. split; [done|lia].
    + rewrite <- E2 in *. destruct (H3 u0 z j w b) as [|Hc]; try done; [by left|]. right. by apply Hcov.
Qed.

(** Marking and ageing the violator keep the invariant. *)
Lemma inv_aged R s lvs svs s' : inv n R s lvs svs -> aged n s lvs svs s' -> inv n R s' lvs svs.
Proof.
  intros [Hr He Hc Hh Hm] [A1 A2 A3 A4 A5 A6 A7]. split; try done; [by rewrite A3|]. eapply (mem_mono n); [exact Hr|done| |by eauto|rewrite A4, A5; eauto 10|exact Hm].
  intros q. rewrite !covered_pending. intros [?|(q' & Hp & Hle)]; [by left|]. right. destruct (A7 q' Hp) as (q2 & Hq2 & Hle2). exists q2. split; [done|lia].
Qed.

(** ** Loads *)

(** What the rest of the CPU hands to a load. *)
Definition load_access_ok (x : LInst) (acc : Access) : Prop :=
  match acc with
  | AccDone r _ => range_ok r /\ isHTMCmd r = false /\ (isLocalAccess r = true -> memData x = None /\ isStrictlyOrdered r = true)
  | _ => True
  end.

Definition with_addr (r : Req) (x : LInst) : LInst := up_addr (fun _ => addr_of r) x.

(** The stores are the same objects before and after a step of a load. *)
Lemma visible_step k v s lvs svs x y a j w b : rep n s lvs svs -> lvs !! k = Some v -> insts s !! lv_id v = Some x ->
  visible (with_insts s (<[lv_id v := y]> (insts s))) svs v a j w b <-> visible s svs v a j w b.
Proof.
  intros Hr Hk Hx. unfold visible. cbn [storeWBIt storeQueue with_insts].
  assert (Hs : seen (with_insts s (<[lv_id v := y]> (insts s))) svs a j w b <-> seen s svs a j w b).
  { split; intros [Hj Hb ? ?]; pose proof (load_not_store n _ _ _ _ _ _ _ Hr Hk Hj) as Hne; split; try done; cbn in *.
    - by rewrite lookup_insert_ne in Hb.
    - by rewrite lookup_insert_ne. }
  by rewrite Hs.
Qed.

Lemma read_case_step k v s lvs svs x y0 r f y A : rep n s lvs svs -> lvs !! k = Some v -> insts s !! lv_id v = Some x ->
  read_case (with_insts s (<[lv_id v := y0]> (insts s))) svs v y0 r f y A -> read_case s svs v y0 r f y A.
Proof.
  intros Hr Hk Hx Hc. pose proof (fun a j w b => visible_step k v s lvs svs x y0 a j w b Hr Hk Hx) as Hv.
  destruct Hc as [| |j w b d y A Hvis Hf Hall|j w b y A Hvis Hall|y A Hall].
  - by apply RcDeferred.
  - by apply RcLocal.
  - eapply (RcForward _ _ _ _ _ j w b); try done; [by apply Hv|]. intros j' w' b' Hj' Hv'. by apply (Hall j' w' b'), Hv.
  - destruct Hvis as [Hvis Hns]. eapply (RcStall _ _ _ _ _ j w b); try done; [split; [by apply Hv|done]|]. intros j' w' b' Hj' Hv'. by apply (Hall j' w' b'), Hv.
  - apply RcMemory; try done. intros Hp j w b Hv'. by apply (Hall Hp j w b), Hv.
Qed.

(** Every outcome of [read] keeps the order of memory. *)
Lemma read_case_mem R k v s lvs svs x r f y A s' lvs' A' : rep n s lvs svs -> mem_ok R s lvs svs -> lvs !! k = Some v -> insts s !! lv_id v = Some x ->
  lstep n k v s lvs svs A' s' lvs' y -> same_key x y -> range_ok r -> (isLocalAccess r = true -> isStrictlyOrdered r = true) ->
  read_case s svs v (with_addr r x) r f y A -> mem_ok R s' lvs' svs.
Proof.
  intros Hr Hm Hk Hx Hst Hkey (Hr1 & Hr2 & Hr3) Hloc Hcase. pose proof Hkey as (_ & Estatic & _).
  assert (Hload : (effAddrValid (laddr y) = true -> laddr y = addr_of r) -> violatingStoreSeqNum (memDepInfo y) = violatingStoreSeqNum (memDepInfo x) ->
    (placed y -> forall j w b, visible s svs v (laddr y) j w b -> sv_seq w <= forwardedFrom (memDepInfo y)) -> mem_ok R s' lvs' svs).
  { intros Ha Hd Ho. eapply mem_load; try done. intros Hv. rewrite (Ha Hv). cbn. lia. }
  destruct Hcase as [y A Hso Hav Hd|y A Hl Ha Hd|j w b d y A Hvis Hf Hall Ha Hmd Hfw Hvio|j w b y A Hvis Hall Hav Hd Hin|y A Hall Ha Hd Hin]; apply Hload;
    try congruence; try (by rewrite Hd); try (intros _; by rewrite Ha); try (intros (? & _); congruence).
  - intros (_ & Hso & _). rewrite Ha in Hso. cbn in Hso. rewrite Hloc in Hso; congruence.
  - exact Hvio.
  - intros _ j' w' b' Hv'. rewrite Hfw. rewrite Ha in Hv'. destruct (decide (j < j')%nat) as [Hlt|Hge]; [by destruct (Hall j' w' b' Hlt)|].
    destruct Hvis as ([Hj _ _ _] & _). destruct Hv' as ([Hj' _ _ _] & _). destruct (decide (j' = j)) as [->|]; [assert (w' = w) by congruence; subst; lia|].
    pose proof (oo_stores _ _ _ _ _ (re_order _ _ _ _ Hr)) as Hs. apply Z.lt_le_incl, (sorted_lt _ j' j _ _ Hs); [lia|by rewrite list_lookup_fmap, ?Hj, ?Hj'..].
  - intros (_ & _ & Hpf) j w b Hv. rewrite Estatic in Hpf. rewrite Ha in Hv. by destruct (Hall Hpf j w b).
Qed.

(** [pushRequest] of a load. *)
Lemma push_load_ok R k v s lvs svs x r data env : inv n R s lvs svs -> lvs !! k = Some v -> insts s !! lv_id v = Some x -> executed (lflags x) = false ->
  load_access_ok x (AccDone r data) ->
  exists f s' lvs' y A, pushRequest p (lv_id v) true r data env s = Ok (f, s') /\ inv n R s' lvs' svs /\ lstep n k v s lvs svs A s' lvs' y /\ same_key x y /\
    read_case s svs v (with_addr r x) r f y A.
Proof.
  intros [Hr He Hc Hh Hm] Hk Hx Hex (Hro & Hcmd & Hloc). unfold pushRequest.
  destruct (rep_modify_load n _ _ _ _ _ x (with_addr r) Hr Hk Hx) as [Hmod Hr0]; [done|].
  change (modify (lv_id v) (up_addr (fun a => mkLAddr (rq_vaddr r) (rq_size r) true (isStrictlyOrdered r))) s) with (modify (lv_id v) (with_addr r) s).
  rewrite Hmod. cbn [rbind]. cbn [insts with_insts]. rewrite lookup_insert_eq. cbn [deref rbind].
  destruct (rep_load_inst n _ _ _ _ _ Hr Hk) as (x' & _ & Hx' & Hin). rewrite Hx in Hx'. inv Hx'. cbn [with_addr up_addr lpos]. rewrite (ln_lqIdx _ _ _ Hin).
  set (s0 := with_insts s _) in *.
  destruct (read_ok n k v s0 lvs svs (with_addr r x') r env Hr0 Hk) as (f & s' & lvs' & y & A & Hok & Hst & Hkey & Hcase); try done.
  { cbn. by rewrite lookup_insert_eq. }
  { intros Hl. cbn. by apply Hloc. }
  assert (Hst' : lstep n k v s lvs svs A s' lvs' y).
  { destruct Hst as [? Hheap ? ? ? ? ? ? ?]. split; try done. rewrite Hheap. cbn. by rewrite insert_insert_eq. }
  apply (read_case_step k v s lvs svs x') in Hcase; [|done..]. exists f, s', lvs', y, A. split; [exact Hok|]. split; [|done].
  pose proof Hst' as [Hr' _ _ Hsame Hhead _ _ _ _]. split; try done.
  - intros w Hw. rewrite Hhead, <- (Forall2_length _ _ _ Hsame). by apply He.
  - intros w u Hw Hu Hcw. destruct (lvs_same_elem _ _ _ Hsame Hu) as (u0 & Hu0 & _ & ->). by apply Hc.
  - eapply (read_case_mem R k v s lvs svs x'); try done. intros Hl. by apply Hloc.
Qed.

(** [load_to_commit] asks for commit, and marks the load. *)
Lemma load_to_commit_ok R s lvs svs i x : inv n R s lvs svs -> insts s !! i = Some x ->
  exists s', load_to_commit i s = Ok s' /\ inv n R s' lvs svs /\ acts s' = acts s ++ [InstToCommit i].
Proof.
  intros Hi Hx. unfold load_to_commit. rewrite Hx. cbn [deref rbind]. destruct (negb (strictlyOrdered (laddr x)) || atCommit (lflags x)).
  - destruct (inv_flags _ _ _ _ i setExecuted x Hi Hx) as (s1 & Hm & Hi1 & _); try done. rewrite Hm. cbn [rbind]. eexists. split; [done|].
    split; [by apply inv_act|]. unfold modify in Hm. rewrite Hx in Hm. cbn in Hm. by inv Hm.
  - cbn [rbind]. eexists. split; [done|]. split; [by apply inv_act|done].
Qed.

Lemma executeLoad_ok R k v s lvs svs x acc env : inv n R s lvs svs -> lvs !! k = Some v -> insts s !! lv_id v = Some x ->
  squashed (lflags x) = false -> executed (lflags x) = false -> load_access_ok x acc ->
  exists f s' lvs', executeLoad p (lv_id v) acc env s = Ok (f, s') /\ inv n R s' lvs' svs /\
    match acc with
    | AccDone r _ => exists f0 y A A', read_case s svs v (with_addr r x) r f0 y A /\ acts s' = acts s ++ A ++ A'
    | _ => True
    end.
Proof.
  intros Hi Hk Hx Hsq Hex Hacc. unfold executeLoad. rewrite Hx. cbn [deref rbind]. rewrite Hsq. cbn [negb assert_ rbind]. destruct acc as [| | | |r data].
  - by exists NoFault, s, lvs.
  - destruct (inv_flags _ _ _ _ _ setExecuted x Hi Hx) as (s1 & -> & Hi1 & _); try done. cbn [rbind]. eexists NoFault, _, lvs. split; [done|].
    split; [by do 2 apply inv_act|done].
  - destruct (load_to_commit_ok R (act (ForwardOldRegs (lv_id v)) s) lvs svs (lv_id v) x) as (s1 & -> & Hi1 & _); [by apply inv_act|done|]. cbn [rbind].
    by eexists NoFault, s1, lvs.
  - destruct (load_to_commit_ok R s lvs svs (lv_id v) x) as (s1 & -> & Hi1 & _); [done..|]. cbn [rbind]. by eexists OtherFault, s1, lvs.
  - destruct (push_load_ok R k v s lvs svs x r data env Hi Hk Hx Hex Hacc) as (f & s1 & lvs1 & y & A & -> & Hi1 & Hst & Hkey & Hcase). cbn [rbind].
    pose proof Hst as [Hr1 Hheap (v' & Hk' & Hid & _) Hsame Hhead _ _ _ Hacts].
    assert (Hy : insts s1 !! lv_id v = Some y) by (by rewrite Hheap, lookup_insert_eq).
    destruct (rep_load_inst n _ _ _ _ _ Hr1 Hk') as (y' & _ & Hy' & Hin). rewrite Hid, Hy in Hy'. inv Hy'.
    assert (Hfault : exists s' lvs', (let! s2 := load_to_commit (lv_id v) s1 in Ok (f, s2)) = Ok (f, s') /\ inv n R s' lvs' svs /\
      exists f0 y A A', read_case s svs v (with_addr r x) r f0 y A /\ acts s' = acts s ++ A ++ A').
    { destruct (load_to_commit_ok R s1 lvs1 svs (lv_id v) y') as (s2 & -> & Hi2 & Ha2); [done..|]. cbn [rbind]. eexists s2, lvs1. split; [done|].
      split; [done|]. exists f, y', A, [InstToCommit (lv_id v)]. split; [done|]. by rewrite Ha2, Hacts, app_assoc. }
    destruct f; [|by exists M5PanicFault|by exists OtherFault]. rewrite Hy. cbn [deref rbind].
    assert (Hdone : exists f0 y A A', read_case s svs v (with_addr r x) r f0 y A /\ acts s1 = acts s ++ A ++ A').
    { exists NoFault, y', A, []. split; [done|]. by rewrite app_nil_r. }
    destruct (effAddrValid (laddr y') && checkLoads p); [|by exists NoFault, s1, lvs1].
    destruct (rep_lq_size n _ _ _ Hr1) as [_ Hend]. pose proof (lookup_lt_Some _ _ _ Hk') as Hlt. unfold checkViolations. rewrite Hend, (ln_lqIt _ _ _ Hin).
    destruct (Z.ltb_spec (cq_head (loadQueue s1) + Z.of_nat (length lvs1)) (cq_head (loadQueue s1) + Z.of_nat k + 1)); [lia|].
    replace (cq_head (loadQueue s1) + Z.of_nat k + 1) with (cq_head (loadQueue s1) + Z.of_nat (S k)) by lia.
    destruct (check_load_ok p n (Z.to_nat (cq_head (loadQueue s1) + Z.of_nat (length lvs1) - (cq_head (loadQueue s1) + Z.of_nat (S k)))) (S k) s1 lvs1 svs (lv_id v) y' Hr1)
      as (f & s' & -> & Hag); [lia|done|by apply (ln_load _ _ _ Hin)|].
    exists f, s', lvs1. split; [done|]. split; [by eapply inv_aged|]. by rewrite (ag_acts _ _ _ _ _ Hag).
Qed.
End Run.

(** ** Stores *)

Section Store.
Context (p : LsqParams).

(** What the rest of the CPU hands to a store. *)
Definition store_access_ok (x : LInst) (acc : Access) : Prop :=
  match acc with
  | AccDone r data => range_ok r /\ (storeNoData r = false -> rq_size r <= Z.of_nat (MaxDataBytes p)) /\
      (cacheBlockZero r = false -> isCacheMaintenance r = false -> reqIsAtomic r = false -> rq_size r <= Z.of_nat (length data) /\ rq_size r <= Z.of_nat (MaxDataBytes p)) /\
      (isStoreConditional (static x) = true -> isLocalAccess r = false)
  | _ => True
  end.

(** [pushRequest] of a store that was not executed before. *)
Lemma push_store_ok k w s lvs svs x r data env : rep (MaxDataBytes p) s lvs svs -> svs !! k = Some w -> insts s !! sv_id w = Some x -> sv_size w = 0 ->
  store_access_ok x (AccDone r data) ->
  exists s' e, pushRequest p (sv_id w) false r data env s = Ok (NoFault, s') /\ rep (MaxDataBytes p) s' lvs (<[k := sv_with w e]> svs) /\
    insts s' = <[sv_id w := with_addr r x]> (insts s) /\ e_size (base e) = rq_size r /\ e_request (base e) = Some r /\ canWB e = canWB (sv_e w) /\
    completed e = completed (sv_e w) /\ loadQueue s' = loadQueue s /\ cq_head (storeQueue s') = cq_head (storeQueue s) /\ storeWBIt s' = storeWBIt s /\
    memDepViolator s' = memDepViolator s /\ acts s' = acts s.
Proof.
  intros Hr Hk Hx Hz ((Hr1 & Hr2 & Hr3) & Hfit & Hplain & Hsc). unfold pushRequest.
  destruct (rep_store_inst (MaxDataBytes p) _ _ _ _ _ Hr Hk) as (x' & _ & Hx' & Hin). rewrite Hx in Hx'. inv Hx'.
  destruct (rep_modify (MaxDataBytes p) _ _ _ (sv_id w) (with_addr r) x' Hr Hx) as [Hmod Hr0]; [done|..].
  { intros u [j Hj]%list_elem_of_lookup_1 Hid. split; [|done]. right. destruct (rep_store_inst (MaxDataBytes p) _ _ _ _ _ Hr Hj) as (y & _ & Hy & Hyin). rewrite Hid, Hx in Hy. inv Hy.
    assert (j = k); [|congruence]. eapply (store_seq_inj lvs svs); [apply (re_order _ _ _ _ Hr)|done..|]. by rewrite <- (sn_seq _ _ _ _ Hin), <- (sn_seq _ _ _ _ Hyin). }
  change (modify (sv_id w) (up_addr (fun a => mkLAddr (rq_vaddr r) (rq_size r) true (isStrictlyOrdered r))) s) with (modify (sv_id w) (with_addr r) s).
  rewrite Hmod. cbn [rbind]. cbn [insts with_insts]. rewrite lookup_insert_eq. cbn [deref rbind with_addr up_addr lpos]. rewrite (sn_sqIdx _ _ _ _ Hin).
  unfold write. set (s0 := with_insts s _) in *. change (storeQueue s0) with (storeQueue s). rewrite (rep_get_store (MaxDataBytes p) _ _ _ _ _ Hr Hk). cbn [rbind].
  destruct (re_store _ _ _ _ Hr k w Hk) as (Hv & Hi & _). rewrite Hv. cbn [assert_ rbind].
  assert (Hcheck : (rq_size r <=? Z.of_nat (MaxDataBytes p)) || storeNoData r = true).
  { destruct (storeNoData r) eqn:E; [by rewrite orb_true_r|]. specialize (Hfit eq_refl). by destruct (Z.leb_spec (rq_size r) (Z.of_nat (MaxDataBytes p))); [|lia]. }
  rewrite Hcheck. cbn [assert_ rbind]. pose proof (sn_data _ _ _ _ Hin) as Hlen.
  assert (Hd : exists d, (if negb (cacheBlockZero r) && negb (isCacheMaintenance r) && negb (reqIsAtomic r) then let! bytes := bytes_at data 0 (rq_size r) in
    if rq_size r <=? Z.of_nat (length (e_data (sv_e w))) then Ok (bytes ++ drop (Z.to_nat (rq_size r)) (e_data (sv_e w))) else Err OutOfRange
    else Ok (e_data (sv_e w))) = Ok d /\ length d = (MaxDataBytes p)).
  { destruct (cacheBlockZero r), (isCacheMaintenance r), (reqIsAtomic r); cbn [negb andb]; try (by eexists). destruct Hplain as [Hp1 Hp2]; [done..|].
    destruct (bytes_at_spec data 0 (rq_size r)) as (l & -> & Hl & _); [lia..|]. cbn [rbind]. rewrite Hlen. destruct (Z.leb_spec (rq_size r) (Z.of_nat (MaxDataBytes p))); [|lia].
    eexists. split; [done|]. rewrite length_app, length_drop. lia. }
  destruct Hd as (d & -> & Hdl). cbn [rbind]. set (e := mkSQEntry _ _ _ _ _ _).
  assert (Hw32 : wrap 32 (rq_size r) = rq_size r) by (apply wrap_small; unfold in_u; cbn in *; lia).
  destruct (rep_store_entry (MaxDataBytes p) s0 lvs svs k w e (storesToWB s) Hr0 Hk) as (sq' & Hset & Hh & _ & Hrep); try done.
  { apply order_set; [apply (re_order _ _ _ _ Hr0)|done|done|by left|]. cbn. intros E. by apply (oo_completed _ _ _ _ _ (re_order _ _ _ _ Hr0) k w Hk). }
  { intros y [H1 H2 H3 H4 H5 H6 H7 H8 H9 H10] Hy. cbn in Hy. rewrite lookup_insert_eq in Hy. inv Hy. split; try done. intros _.
    exists r. unfold sv_size. cbn. rewrite Hw32. split_and!; try done; lia. }
  { intros Hc. by left. }
  { cbn. rewrite (re_count _ _ _ _ Hr), (count_set _ _ w) by done. unfold to_write_back. cbn. lia. }
  change (storeQueue s0) with (storeQueue s) in Hset, Hh. rewrite Hset. cbn [rbind]. exists (with_sq s0 sq'), e. split; [done|]. split; [|by split_and!].
  change (storesToWB s) with (storesToWB (with_sq s0 sq')) in Hrep. by rewrite with_storesToWB_id in Hrep.
Qed.

(** Accesses that share a byte meet in a block. *)
Lemma overlap_meet a b : 0 <= depCheckShift p -> 0 <= effAddr a -> 0 < effSize a -> effAddr a + effSize a < 2 ^ 64 ->
  0 <= effAddr b -> 0 < effSize b -> effAddr b + effSize b < 2 ^ 64 -> overlap a b -> blocks_meet p a b = true.
Proof.
  intros Hsh Ha1 Ha2 Ha3 Hb1 Hb2 Hb3 [Ho1 Ho2]. unfold blocks_meet, dep_first, dep_last.
  rewrite !(wrap_small 64) by (unfold in_u; rewrite ?(wrap_small 64) by (unfold in_u; lia); lia).
  rewrite !Z.shiftr_div_pow2 by done. pose proof (Z.pow_pos_nonneg 2 (depCheckShift p) ltac:(lia) Hsh).
  apply andb_true_iff. split; apply Z.leb_le, Z.div_le_mono; lia.
Qed.

(** The loads an executing store may have to report, as it finds them. *)
Definition flagged s lvs w (x : LInst) (f : LFault) s' : Prop :=
  (f = NoFault /\ memDepViolator s' = memDepViolator s /\
    forall v ld, v ∈ lvs -> insts s !! lv_id v = Some ld -> sv_seq w < lv_seq v -> violates p x ld -> exists q, pending s = Some q /\ q < lv_seq v) \/
  (f = M5PanicFault /\ exists v ld, v ∈ lvs /\ insts s !! lv_id v = Some ld /\ sv_seq w < lv_seq v /\ violates p x ld /\ memDepViolator s' = Some (lv_id v) /\
    (forall q, pending s = Some q -> lv_seq v <= q) /\
    forall v' ld', v' ∈ lvs -> insts s !! lv_id v' = Some ld' -> sv_seq w < lv_seq v' < lv_seq v -> ~ violates p x ld').

(** The check from the position the store remembers looks at the younger loads. *)
Lemma checked_flagged s lvs svs w x f s' K : rep (MaxDataBytes p) s lvs svs -> w ∈ svs -> sv_lqIt w = cq_head (loadQueue s) + Z.of_nat K ->
  checked p s lvs x K f s' -> flagged s lvs w x f s'.
Proof.
  intros Hr Hw HK Hch. pose proof (re_order _ _ _ _ Hr) as Ho.
  assert (Hyoung : forall j v, lvs !! j = Some v -> (K <= j)%nat <-> sv_seq w < lv_seq v).
  { intros j v Hj. pose proof (oo_lqIt _ _ _ _ _ Ho j v w Hj Hw). pose proof (oo_distinct _ _ _ _ _ Ho v w ltac:(by eapply list_elem_of_lookup_2) Hw). lia. }
  destruct Hch as [(-> & -> & Hall)|(-> & j & v & ld & Hj & Hv & Hld & Hvi & Hq & -> & Hall)].
  - left. split_and!; try done. intros v ld [j Hj]%list_elem_of_lookup_1 Hld Hlt Hvi. apply (Hyoung j v Hj) in Hlt. by eapply Hall.
  - right. split; [done|]. exists v, ld. split_and!; try done; [by eapply list_elem_of_lookup_2|by apply (Hyoung j)|].
    intros v' ld' [j' Hj']%list_elem_of_lookup_1 Hld' Hlt. apply (Hall j' v'); [|done..]. split; [apply (Hyoung j' v'); [done|lia]|].
    destruct (Nat.lt_ge_cases j' j) as [|Hge]; [done|]. exfalso. destruct (decide (j' = j)) as [->|]; [assert (v' = v) by congruence; subst; lia|].
    pose proof (oo_loads _ _ _ _ _ Ho) as Hs. assert (lv_seq v < lv_seq v'); [|lia]. apply (sorted_lt _ j j' _ _ Hs); [lia|by rewrite list_lookup_fmap, ?Hv, ?Hj'..].
Qed.

(** The violator after the check. *)
Lemma checked_rep s lvs svs x K f s' : rep (MaxDataBytes p) s lvs svs -> checked p s lvs x K f s' ->
  rep (MaxDataBytes p) s' lvs svs /\ loadQueue s' = loadQueue s /\ storeQueue s' = storeQueue s /\ storeWBIt s' = storeWBIt s /\ acts s' = acts s /\
  (forall i y, insts s !! i = Some y -> exists z, insts s' !! i = Some z /\ seqNum z = seqNum y /\ static z = static y /\ laddr z = laddr y /\
    forwardedFrom (memDepInfo z) = forwardedFrom (memDepInfo y) /\
    (memDepInfo z = memDepInfo y \/ memDepViolator s' = Some i)) /\
  (forall q, pending s = Some q -> exists q', pending s' = Some q' /\ q' <= q).
Proof.
  intros Hr [(-> & -> & _)|(-> & j & v & ld & Hj & Hv & Hld & Hvi & Hq & -> & _)].
  - split_and!; try done; [intros i y Hy; exists y; split_and!; try done; by left|]. intros q Hq. exists q. split; [done|lia].
  - split; [|split; [done|split; [done|split; [done|split; [done|split]]]]].
    + apply (rep_modify_load _ (with_violator s (Some (lv_id v))) lvs svs j v ld (blame x)); try done. apply rep_violator; [done|].
      intros i [= <-]. exists v. split; [by eapply list_elem_of_lookup_2|done].
    + intros i y Hy. cbn. destruct (decide (i = lv_id v)) as [->|]; [|exists y; rewrite lookup_insert_ne by done; split_and!; try done; by left].
      assert (y = ld) by congruence. subst y. exists (blame x ld). rewrite lookup_insert_eq. split_and!; try done. by right.
    + intros q Hpq. exists (lv_seq v). split; [|by apply Hq]. unfold pending. cbn. rewrite lookup_insert_eq. cbn.
      destruct (rep_load_inst _ _ _ _ _ _ Hr Hv) as (y & _ & Hy & Hin). rewrite Hld in Hy. inv Hy. by rewrite (ln_seq _ _ _ Hin).
Qed.

Lemma covered_violator R s lvs svs v q : rep (MaxDataBytes p) s lvs svs -> v ∈ lvs -> memDepViolator s = Some (lv_id v) -> lv_seq v <= q -> covered R s q.
Proof.
  intros Hr [k Hk]%list_elem_of_lookup_1 Hv Hle. right. destruct (rep_load_inst _ _ _ _ _ _ Hr Hk) as (x & _ & Hx & Hin).
  exists (lv_id v), x. by rewrite (ln_seq _ _ _ Hin).
Qed.

(** A younger load that overlaps the store was served by it or a younger one, or is covered after the check. *)
Lemma flagged_covers R s lvs svs w x f s' v y : rep (MaxDataBytes p) s' lvs svs -> flagged s lvs w x f s' -> (forall q, pending s = Some q -> exists q', pending s' = Some q' /\ q' <= q) ->
  v ∈ lvs -> insts s !! lv_id v = Some y -> sv_seq w < lv_seq v -> seqNum x = sv_seq w -> effAddrValid (laddr y) = true -> strictlyOrdered (laddr y) = false ->
  blocks_meet p (laddr y) (laddr x) = true -> violatingStoreSeqNum (memDepInfo y) <= sv_seq w -> sv_seq w <= forwardedFrom (memDepInfo y) \/ covered R s' (lv_seq v).
Proof.
  intros Hr' Hfl Hpend Hv Hy Hlt Hseq Hav Hso Hbm Hvio. destruct (Z.lt_ge_cases (sv_seq w) (forwardedFrom (memDepInfo y))) as [|Hfw]; [left; lia|]. right.
  assert (Hviol : violates p x y) by (split_and!; try done; lia). destruct Hfl as [(_ & _ & Hall)|(_ & v0 & ld & Hv0 & Hld & _ & _ & Hvi & _ & Hall)].
  - destruct (Hall v y Hv Hy Hlt Hviol) as (q & Hq & Hqlt). destruct (Hpend q Hq) as (q' & Hq' & Hle). rewrite covered_pending. right. exists q'. split; [done|lia].
  - destruct (Z.lt_ge_cases (lv_seq v) (lv_seq v0)) as [Hold|Hge]; [by destruct (Hall v y Hv Hy)|]. by apply (covered_violator R s' lvs svs v0).
Qed.

(** The order of memory once the store at [k] has an address: what it finds is flagged. *)
Lemma mem_store R s lvs svs k w x s2 svs2 e K f s' : 0 <= depCheckShift p ->
  rep (MaxDataBytes p) s lvs svs -> mem_ok R s lvs svs -> svs !! k = Some w ->
  rep (MaxDataBytes p) s2 lvs svs2 -> svs2 = <[k := sv_with w e]> svs -> insts s2 = <[sv_id w := x]> (insts s) -> 0 < effSize (laddr x) -> 0 <= effAddr (laddr x) ->
  effAddr (laddr x) + effSize (laddr x) < 2 ^ 64 -> cq_head (storeQueue s2) = cq_head (storeQueue s) -> storeWBIt s2 = storeWBIt s ->
  memDepViolator s2 = memDepViolator s -> seqNum x = sv_seq w -> loadQueue s2 = loadQueue s ->
  sv_lqIt w = cq_head (loadQueue s) + Z.of_nat K -> checked p s2 lvs x K f s' -> mem_ok R s' lvs svs2.
Proof.
  intros Hsh Hr [H1 H2 H3] Hk Hr2 -> Hheap Hsz Ha1 Ha2 Hh Hwb Hvi Hseq Hlq HK Hch. pose proof (lookup_lt_Some _ _ _ Hk) as Hlt.
  assert (Hw2 : sv_with w e ∈ <[k := sv_with w e]> svs) by (apply (list_elem_of_lookup_2 _ k); by apply list_lookup_insert_eq).
  rewrite <- Hlq in HK. pose proof (checked_flagged _ _ _ (sv_with w e) _ _ _ _ Hr2 Hw2 HK Hch) as Hfl.
  destruct (checked_rep _ _ _ _ _ _ _ Hr2 Hch) as (Hr' & _ & Hsq' & Hwb' & _ & Hobj & Hpend).
  assert (Hld : forall v, v ∈ lvs -> insts s2 !! lv_id v = insts s !! lv_id v).
  { intros v [kv Hv]%list_elem_of_lookup_1. rewrite Hheap, lookup_insert_ne; [done|]. by eapply (load_not_store _ _ _ _ _ _ _ _ Hr). }
  assert (Hp2 : pending s2 = pending s).
  { unfold pending. rewrite Hvi. destruct (memDepViolator s) as [i|] eqn:Ei; [|done]. cbn. destruct (re_violator _ _ _ _ Hr i Ei) as (v & Hv & <-). by rewrite Hld. }
  assert (Hcov : forall q, covered R s q -> covered R s' q).
  { intros q. rewrite !covered_pending, <- Hp2. intros [?|(q' & Hp & Hle)]; [by left|]. right. destruct (Hpend q' Hp) as (q2 & Hq2 & ?). exists q2. split; [done|lia]. }
  assert (Hback : forall v z, v ∈ lvs -> insts s' !! lv_id v = Some z -> exists y, insts s !! lv_id v = Some y /\ static z = static y /\ laddr z = laddr y /\
    forwardedFrom (memDepInfo z) = forwardedFrom (memDepInfo y) /\ (memDepInfo z = memDepInfo y \/ memDepViolator s' = Some (lv_id v))).
  { intros v z Hv Hz. destruct (list_elem_of_lookup_1 _ _ Hv) as [kv Hkv]. destruct (rep_load_inst _ _ _ _ _ _ Hr Hkv) as (y & _ & Hy & _). exists y. split; [done|].
    rewrite <- (Hld v Hv) in Hy. destruct (Hobj _ _ Hy) as (z' & Hz' & _ & Hrest). assert (z' = z) by congruence. by subst z'. }
  split.
  - intros v z Hv Hz. destruct (Hback v z Hv Hz) as (y & Hy & _ & -> & _). by apply (H1 v).
  - intros v z Hv Hz Hne. destruct (Hback v z Hv Hz) as (y & Hy & _ & _ & _ & [E|E]); [rewrite E in Hne; apply Hcov; by eapply H2|]. by eapply covered_violator.
  - intros v z j w' b Hv Hz Hj Hb (Hav & Hso & Hpf) Hse Hlt' Hge Hov. destruct (Hback v z Hv Hz) as (y & Hy & Est & Ea & Ef & _). rewrite Ea, Est, Ef in *.
    rewrite Hsq', Hwb', Hh, Hwb in Hge. destruct (insert_inv _ _ _ _ _ _ Hk Hj) as (w0 & Hj0 & Eid & Ese & _ & [(-> & -> & ->)|[Hne ->]]); clear Ese.
    + assert (Hx2 : insts s2 !! sv_id w = Some x) by (by rewrite Hheap, lookup_insert_eq). destruct (Hobj _ _ Hx2) as (b' & Hb' & _ & _ & Eab & _).
      cbn in Hb. assert (b' = b) by congruence. subst b'. rewrite Eab in Hov. destruct (H1 v y Hv Hy Hav) as (Hb1 & Hb2 & Hb3). cbn in Hlt'.
      destruct (Z.le_gt_cases (violatingStoreSeqNum (memDepInfo y)) (sv_seq w)) as [Hle|Hgt].
      * eapply (flagged_covers R s2 lvs _ (sv_with w e) x f s' v y); try done; [by rewrite Hld|by apply overlap_meet].
      * right. apply Hcov. eapply H2; [done..|]. destruct (rep_store_inst _ _ _ _ _ _ Hr Hk) as (x0 & _ & _ & Hin). pose proof (sn_pos _ _ _ _ Hin). lia.
    + destruct (rep_store_inst _ _ _ _ _ _ Hr Hj0) as (b0 & _ & Hb0 & Hin0). assert (Hid : sv_id w0 <> sv_id w).
      { intros E. destruct (rep_store_inst _ _ _ _ _ _ Hr Hk) as (x0 & _ & Hx0 & Hin). rewrite E, Hx0 in Hb0. inv Hb0. apply Hne.
        eapply (store_seq_inj lvs svs); [apply (re_order _ _ _ _ Hr)|done..|]. by rewrite <- (sn_seq _ _ _ _ Hin), <- (sn_seq _ _ _ _ Hin0). }
      assert (Hx2 : insts s2 !! sv_id w0 = Some b0) by (by rewrite Hheap, lookup_insert_ne). destruct (Hobj _ _ Hx2) as (b' & Hb' & _ & _ & Eab & _).
      assert (b' = b) by congruence. subst b'. unfold searched in Hse. rewrite Eab in *. destruct (H3 v y j w0 b0) as [|Hc]; try done; [by left|]. right. by apply Hcov.
Qed.

Lemma flagged_eq s s2 lvs w w' x f s' : (forall v, v ∈ lvs -> insts s2 !! lv_id v = insts s !! lv_id v) -> pending s2 = pending s ->
  memDepViolator s2 = memDepViolator s -> sv_seq w' = sv_seq w -> flagged s2 lvs w' x f s' -> flagged s lvs w x f s'.
Proof.
  intros Hl Hp Hv Hs [(-> & Hv' & Hall)|(-> & v & ld & Hin & Hld & Hlt & Hvi & Hvs & Hq & Hall)].
  - left. rewrite <- Hv, <- Hp, <- Hs. split_and!; try done. intros v ld Hin Hld. apply (Hall v ld Hin). by rewrite Hl.
  - right. rewrite <- Hp, <- Hs. split; [done|]. exists v, ld. rewrite <- (Hl v Hin). split_and!; try done. intros v' ld' Hin' Hld'. apply (Hall v' ld' Hin'). by rewrite Hl.
Qed.

(** From the store with its address to the end of the check. *)
Lemma check_executed R s lvs svs k w x s2 e : 0 <= depCheckShift p -> inv (MaxDataBytes p) R s lvs svs -> svs !! k = Some w -> canWB (sv_e w) = false ->
  rep (MaxDataBytes p) s2 lvs (<[k := sv_with w e]> svs) -> insts s2 = <[sv_id w := x]> (insts s) -> isLoad (static x) = false -> seqNum x = sv_seq w ->
  0 <= effAddr (laddr x) -> 0 < effSize (laddr x) -> effAddr (laddr x) + effSize (laddr x) < 2 ^ 64 ->
  cq_head (storeQueue s2) = cq_head (storeQueue s) -> storeWBIt s2 = storeWBIt s -> memDepViolator s2 = memDepViolator s -> loadQueue s2 = loadQueue s ->
  completed e = completed (sv_e w) -> (canWB e = true -> forall v, v ∈ lvs -> sv_seq w < lv_seq v) ->
  exists f s', checkViolations p (sv_lqIt w) (sv_id w) s2 = Ok (f, s') /\ inv (MaxDataBytes p) R s' lvs (<[k := sv_with w e]> svs) /\ flagged s lvs w x f s'.
Proof.
  intros Hsh [Hr He Hc Hh Hm] Hk Hnc Hr2 Hheap Hld Hseq Ha1 Ha2 Ha3 Hhs Hwb Hvi Hlq Hcomp Hcan. pose proof (list_elem_of_lookup_2 _ _ _ Hk) as Hw.
  pose proof (oo_lqIt_head _ _ _ _ _ (re_order _ _ _ _ Hr) w Hw Hnc) as Hlo. pose proof (He w Hw) as Hhi. pose proof (lookup_lt_Some _ _ _ Hk) as Hlt.
  set (K := Z.to_nat (sv_lqIt w - cq_head (loadQueue s))). assert (HK : sv_lqIt w = cq_head (loadQueue s) + Z.of_nat K) by (unfold K; lia).
  unfold checkViolations. destruct (rep_lq_size _ _ _ _ Hr2) as [_ Hend]. rewrite Hend, Hlq. destruct (Z.ltb_spec (cq_head (loadQueue s) + Z.of_nat (length lvs)) (sv_lqIt w)); [lia|].
  destruct (check_store_ok p (MaxDataBytes p) (Z.to_nat (cq_head (loadQueue s) + Z.of_nat (length lvs) - sv_lqIt w)) K s2 lvs _ (sv_id w) x Hr2) as (f & s' & Hok & Hch);
    [lia|by rewrite Hheap, lookup_insert_eq|done|].
  rewrite Hlq, <- HK in Hok. exists f, s'. split; [exact Hok|]. destruct (checked_rep _ _ _ _ _ _ _ Hr2 Hch) as (Hr' & Hlq' & _). split.
  - split; [done|..|by eapply (mem_store R s lvs svs k w x s2 _ e K f s')].
    + intros u [j Hj]%list_elem_of_lookup_1. destruct (insert_inv _ _ _ _ _ _ Hk Hj) as (u0 & Hj0 & _ & _ & -> & _). rewrite Hlq', Hlq. apply He. by eapply list_elem_of_lookup_2.
    + intros u v [j Hj]%list_elem_of_lookup_1 Hv Hcu. destruct (insert_inv _ _ _ _ _ _ Hk Hj) as (u0 & Hj0 & _ & -> & _ & [(_ & -> & ->)|[_ ->]]); [by apply Hcan|].
      apply Hc; [by eapply list_elem_of_lookup_2|done..].
    + intros u Hu. destruct (insert_inv _ _ _ _ _ _ Hk Hu) as (u0 & Hu0 & _ & _ & _ & [(<- & -> & ->)|[_ ->]]); [|by apply Hh]. cbn. rewrite Hcomp. by apply Hh.
  - assert (Hl2 : forall v, v ∈ lvs -> insts s2 !! lv_id v = insts s !! lv_id v).
    { intros v [kv Hv]%list_elem_of_lookup_1. rewrite Hheap, lookup_insert_ne; [done|]. by eapply (load_not_store _ _ _ _ _ _ _ _ Hr). }
    eapply (flagged_eq s s2 lvs w (sv_with w e)); try done.
    + unfold pending. rewrite Hvi. destruct (memDepViolator s) as [i|] eqn:Ei; [|done]. cbn. destruct (re_violator _ _ _ _ Hr i Ei) as (v & Hv & <-). by rewrite Hl2.
    + eapply (checked_flagged s2 lvs _ (sv_with w e)); [exact Hr2| |by rewrite Hlq|exact Hch]. apply (list_elem_of_lookup_2 _ k). by apply list_lookup_insert_eq.
Qed.

(** A store that did not access memory. *)
Lemma execute_nothing R s lvs svs i x (fault : LFault) : inv (MaxDataBytes p) R s lvs svs -> insts s !! i = Some x ->
  exists s', (if isAtomic (static x) then let! x := deref (insts s !! i) in
      let! s := if negb (strictlyOrdered (laddr x)) || atCommit (lflags x) then modify i setExecuted s else Ok s in
      Ok (fault, act (InstToCommit i) s)
    else Ok (fault, s)) = Ok (fault, s') /\ inv (MaxDataBytes p) R s' lvs svs.
Proof.
  intros Hi Hx. destruct (isAtomic (static x)); [|by exists s]. rewrite Hx. cbn [deref rbind]. destruct (negb (strictlyOrdered (laddr x)) || atCommit (lflags x)).
  - destruct (inv_flags _ _ _ _ _ _ setExecuted x Hi Hx) as (s1 & -> & Hi1 & _); try done. cbn [rbind]. eexists. split; [done|]. by apply inv_act.
  - cbn [rbind]. eexists. split; [done|]. by apply inv_act.
Qed.

(** The stores that commit when they execute do so at the head of the machine. *)
Definition may_commit lvs svs (k : nat) w (x : LInst) : Prop :=
  isStoreConditional (static x) || isAtomic (static x) = true ->
  (forall j w', (j < k)%nat -> svs !! j = Some w' -> canWB (sv_e w') = true) /\ (forall v, v ∈ lvs -> sv_seq w < lv_seq v).

Lemma executeStore_ok R s lvs svs k w x acc : 0 <= depCheckShift p -> inv (MaxDataBytes p) R s lvs svs -> svs !! k = Some w -> insts s !! sv_id w = Some x ->
  squashed (lflags x) = false -> canWB (sv_e w) = false -> sv_size w = 0 -> store_access_ok x acc -> may_commit lvs svs k w x ->
  exists f s' svs', executeStore p (sv_id w) acc s = Ok (f, s') /\ inv (MaxDataBytes p) R s' lvs svs' /\
    match acc with AccDone r _ => flagged s lvs w (with_addr r x) f s' | _ => True end.
Proof.
  intros Hsh Hi Hk Hx Hsq Hnc Hz Hacc Hmay. pose proof (in_rep _ _ _ _ _ Hi) as Hr. unfold executeStore. pose proof (lookup_lt_Some _ _ _ Hk) as Hlt.
  destruct (rep_sq_size _ _ _ _ Hr) as (Hsz & _). destruct (Z.eqb_spec (cq_size (storeQueue s)) 0); [lia|]. cbn [negb assert_ rbind]. rewrite Hx. cbn [deref rbind].
  rewrite Hsq. cbn [negb assert_ rbind]. destruct (rep_store_inst _ _ _ _ _ _ Hr Hk) as (x' & _ & Hx' & Hin). rewrite Hx in Hx'. inv Hx'.
  rewrite (sn_sqIdx _ _ _ _ Hin), (sn_lqIt _ _ _ _ Hin). pose proof (rep_get_store _ _ _ _ _ _ Hr Hk) as Hg.
  pose proof (fun fault => execute_nothing R s lvs svs (sv_id w) x' fault Hi Hx) as Hnothing. unfold sv_size in Hz. destruct acc as [| | | |r data].
  - by exists NoFault, s, svs.
  - cbn [rbind]. rewrite Hg. cbn [rbind]. rewrite Hz. cbn [Z.eqb]. destruct (Hnothing NoFault) as (s' & Hok & Hi'). by exists NoFault, s', svs.
  - eexists NoFault, _, svs. split; [done|]. split; [by apply inv_act|done].
  - cbn [rbind]. rewrite Hg. cbn [rbind]. rewrite Hz. cbn [Z.eqb]. destruct (Hnothing OtherFault) as (s' & Hok & Hi'). by exists OtherFault, s', svs.
  - destruct (push_store_ok k w s lvs svs x' r data (mkLoadEnv [] false true) Hr Hk Hx Hz Hacc) as (s1 & e1 & -> & Hr1 & Hi1 & Hes & Her & Hecan & Hecomp & El & Eh & Ew & Ev & _).
    cbn [rbind]. assert (Hk1 : <[k := sv_with w e1]> svs !! k = Some (sv_with w e1)) by (by apply list_lookup_insert_eq).
    pose proof (rep_get_store _ _ _ _ _ _ Hr1 Hk1) as Hg1. rewrite Eh in Hg1. rewrite Hg1. cbn [rbind sv_with sv_e]. destruct Hacc as ((Hr1' & Hr2' & Hr3') & _). rewrite Hes.
    destruct (Z.eqb_spec (rq_size r) 0); [lia|]. rewrite bool_decide_eq_true_2 by done. cbn [assert_ rbind].
    destruct (isStoreConditional (static x') || isAtomic (static x')) eqn:Hsc.
    + destruct (Hmay Hsc) as [Hpre Hyoung]. destruct (rep_set_canWB _ _ _ _ _ _ Hr1 Hk1) as (sq' & Hset & Hh & _ & Hr2); [cbn; congruence|..].
      { intros j u Hj Hu. rewrite list_lookup_insert_ne in Hu by lia. by apply (Hpre j). }
      rewrite Eh in Hset. cbn [sv_with sv_e] in Hset. rewrite Hset. cbn [rbind]. rewrite list_insert_insert_eq in Hr2.
      destruct (check_executed R s lvs svs k w (with_addr r x') (with_storesToWB (with_sq s1 sq') (swrap 32 (storesToWB s1 + 1))) (set_canWB e1)) as (f & s' & Hok & Hi' & Hfl); try done.
      * by apply (sn_load _ _ _ _ Hin).
      * by apply (sn_seq _ _ _ _ Hin).
      * cbn. lia.
      * cbn. congruence.
      * by exists f, s', (<[k := sv_with w (set_canWB e1)]> svs).
    + cbn [rbind]. destruct (check_executed R s lvs svs k w (with_addr r x') s1 e1) as (f & s' & Hok & Hi' & Hfl); try done.
      * by apply (sn_load _ _ _ _ Hin).
      * by apply (sn_seq _ _ _ _ Hin).
      * cbn. lia.
      * congruence.
      * by exists f, s', (<[k := sv_with w e1]> svs).
Qed.
End Store.

(** ** Snoops *)

Section Snoop.
Context (p : LsqParams) (n : nat).

Lemma snoop_loop_ok R hit lock m : forall k force s lvs svs, inv n R s lvs svs -> length lvs = (k + m)%nat ->
  exists s', snoop_loop p hit lock m (cq_head (loadQueue s) + Z.of_nat k) force s = Ok s' /\ inv n R s' lvs svs.
Proof.
  induction m as [|m IH]; intros k force s lvs svs Hi Hlen; [by exists s|]. pose proof (in_rep _ _ _ _ _ Hi) as Hr.
  destruct (lookup_lt_is_Some_2 lvs k ltac:(lia)) as [v Hk]. cbn [snoop_loop]. rewrite (rep_get_load _ _ _ _ _ _ Hr Hk). cbn [rbind].
  destruct (rep_load_inst _ _ _ _ _ _ Hr Hk) as (x & -> & Hx & _). cbn [rbind].
  replace (cq_head (loadQueue s) + Z.of_nat k + 1) with (cq_head (loadQueue s) + Z.of_nat (S k)) by lia.
  assert (Hnext : forall s1 fs, inv n R s1 lvs svs -> loadQueue s1 = loadQueue s ->
    exists s', snoop_loop p hit lock m (cq_head (loadQueue s) + Z.of_nat (S k)) fs s1 = Ok s' /\ inv n R s' lvs svs).
  { intros s1 fs Hi1 <-. apply (IH (S k)); [done|lia]. }
  destruct (e_request (lv_e v)) as [r|]; [|by apply Hnext]. destruct (negb (effAddrValid (laddr x)) || strictlyOrdered (laddr x)); [by apply Hnext|].
  destruct (force || hit r); [|by apply Hnext]. destruct (possibleLoadViolation (lflags x) || (force || needsTSO p)).
  - destruct (inv_flags _ _ _ _ _ _ setReExec x Hi Hx) as (s1 & -> & Hi1 & Hl1); try done. cbn [rbind]. by apply Hnext.
  - assert (Hi2 : inv n R (if lock (lv_id v) then act (HandleLockedSnoopHit (lv_id v)) s else s) lvs svs) by (destruct (lock (lv_id v)); [by apply inv_act|done]).
    destruct (inv_flags _ _ _ _ _ (lv_id v) setHitExternalSnoop x Hi2) as (s1 & -> & Hi1 & Hl1); try done; [by destruct (lock (lv_id v))|]. cbn [rbind].
    apply Hnext; [done|]. rewrite Hl1. by destruct (lock (lv_id v)).
Qed.

Lemma checkSnoop_ok R hit lock s lvs svs : inv n R s lvs svs -> exists s', checkSnoop p hit lock s = Ok s' /\ inv n R s' lvs svs.
Proof.
  intros Hi. pose proof (in_rep _ _ _ _ _ Hi) as Hr. unfold checkSnoop. rewrite (cq_rep_empty _ _ _ (re_lq _ _ _ _ Hr)). destruct lvs as [|v lvs]; [by exists s|].
  cbn [fmap list_fmap]. rewrite bool_decide_eq_false_2 by done. unfold cq_begin. pose proof (rep_get_load _ _ _ _ 0 v Hr eq_refl) as Hg. rewrite Z.add_0_r in Hg.
  rewrite Hg. cbn [rbind]. destruct (rep_load_inst _ _ _ _ 0 v Hr eq_refl) as (x & -> & Hx & _). cbn [rbind].
  set (s1 := if _ && lock (lv_id v) then act _ s else s). destruct (rep_lq_size _ _ _ _ Hr) as [Hsz _].
  assert (Hi1 : inv n R s1 (v :: lvs) svs /\ loadQueue s1 = loadQueue s) by (unfold s1; destruct (_ && lock (lv_id v)); [split; [by apply inv_act|done]|done]).
  destruct Hi1 as [Hi1 Hl1]. clearbody s1. rewrite Hl1, Hsz. replace (Z.to_nat (Z.of_nat (length (v :: lvs)) - 1)) with (length lvs) by (cbn; lia).
  rewrite <- Hl1. apply (snoop_loop_ok R hit lock (length lvs) 1 false s1 (v :: lvs) svs Hi1). done.
Qed.
End Snoop.
