(* ===== verification/LsqSpec.v ===== *)
(** * The load/store queue as a machine

    The operations the pipeline and the memory system call, in any order that keeps
    to the protocol, and what holds of every state they reach: the unit does not
    fail, a load gets the bytes of the youngest older store, a store reports the
    oldest load that went too early, and no load keeps stale data unreported. *)

From Stdlib Require Import ZArith Lia Bool.
From stdpp Require Import base tactics option list numbers gmap sorting.
From S2P Require Import Prelude CircularQueue Lsq LsqInv LsqOps LsqWb LsqSquash LsqExec LsqRun.
Open Scope Z_scope.

(** ** Contents of the queues *)

(** The load queue has [e], for the instruction [x], at index [idx]. *)
Record in_lq (s : Lsq) (idx : Z) (e : LSQEntry) (i : nat) (x : LInst) : Prop := {
  iq_idx : isValidIdx (loadQueue s) idx = true;
  iq_entry : cq_get (loadQueue s) idx = Ok e;
  iq_inst : e_inst e = Some i;
  iq_obj : insts s !! i = Some x
}.

Record in_sq (s : Lsq) (idx : Z) (e : SQEntry) (i : nat) (x : LInst) : Prop := {
  is_idx : isValidIdx (storeQueue s) idx = true;
  is_entry : cq_get (storeQueue s) idx = Ok e;
  is_inst : e_inst (base e) = Some i;
  is_obj : insts s !! i = Some x
}.

Section Machine.
Context (p : LsqParams).

(** ** Operations *)

(** [OpInsert] comes with the new instruction; [OpFlags] is a change of an
    instruction's status by another stage; [OpReport] is the call of
    [getMemDepViolator], after which the number of the load is in the list of
    reports until it is squashed. *)
Inductive LsqOp :=
| OpInsert (i : nat) (x : LInst)
| OpFlags (i : nat) (f : LFlags)
| OpExecLoad (i : nat) (acc : Access) (env : LoadEnv)
| OpExecStore (i : nat) (acc : Access)
| OpCommit (youngest : Z)
| OpWriteBack (blocked_packets : list (bool * bool * bool)) (envs : list WbEnv)
| OpRetry (packets : list (bool * bool * bool))
| OpResponse (i : nat) (pkt : Response) (pending : Pending)
| OpWriteback (i : nat) (pending : Pending)
| OpSquash (num : Z)
| OpSnoop (hit : Req -> bool) (lock : nat -> bool)
| OpReport.

Definition exec (op : LsqOp) (st : Lsq * list Z) : res (Lsq * list Z) :=
  let '(s, R) := st in
  match op with
  | OpInsert i x => let! s := insert i (with_insts s (<[i := x]> (insts s))) in Ok (s, R)
  | OpFlags i f => let! s := modify i (up_flags (fun _ => f)) s in Ok (s, R)
  | OpExecLoad i acc env => let! (_, s) := executeLoad p i acc env s in Ok (s, R)
  | OpExecStore i acc => let! (_, s) := executeStore p i acc s in Ok (s, R)
  | OpCommit y => let! s := commitStores y s in let! s := commitLoads y s in Ok (s, R)
  | OpWriteBack ps envs => let! s := writebackStores p ps envs s in Ok (s, R)
  | OpRetry ps => let! s := recvRetry p ps s in Ok (s, R)
  | OpResponse i pkt pending => let! s := completeDataAccess p i pkt pending s in Ok (s, R)
  | OpWriteback i pending => let! s := writeback i pending s in Ok (s, R)
  | OpSquash num => let! s := squash num s in Ok (s, filter (fun r => r <= num) R)
  | OpSnoop hit lock => let! s := checkSnoop p hit lock s in Ok (s, R)
  | OpReport =>
      let '(v, s) := getMemDepViolator s in
      match v with None => Ok (s, R) | Some i => let! y := deref (insts s !! i) in Ok (s, seqNum y :: R) end
  end.

(** ** The protocol *)

(** A new instruction, in no transaction, for which there is room. *)
Record insertable (s : Lsq) (i : nat) (x : LInst) : Prop := {
  ia_new : insts s !! i = None;
  ia_kind : isMemRef (static x) = true /\ isLoad (static x) || isStore (static x) || isAtomic (static x) = true;
  ia_loads idx e j y : in_lq s idx e j y -> seqNum y < seqNum x;
  ia_stores idx e j y : in_sq s idx e j y -> seqNum y < seqNum x;
  ia_pos : 0 < seqNum x;
  ia_htm : inHtm (lhtm x) = false /\ isHtmStart (static x) = false /\ isHtmStop (static x) = false;
  ia_clean : effAddrValid (laddr x) = false /\ memData x = None /\ violatingStoreSeqNum (memDepInfo x) = 0;
  ia_room : if isLoad (static x) then 0 < numFreeLoadEntries s else 0 < numFreeStoreEntries s
}.

(** A load or store leaves the issue stage once, not squashed; one that commits as
    it executes is the oldest. *)
Definition load_ready (s : Lsq) (i : nat) (acc : Access) : Prop :=
  exists idx e x, in_lq s idx e i x /\ squashed (lflags x) = false /\ executed (lflags x) = false /\ load_access_ok x acc.

Definition store_ready (s : Lsq) (i : nat) (acc : Access) : Prop :=
  exists idx e x, in_sq s idx e i x /\ squashed (lflags x) = false /\ canWB e = false /\ e_size (base e) = 0 /\ store_access_ok p x acc /\
    (isStoreConditional (static x) || isAtomic (static x) = true ->
      (forall idx' e' j y, in_sq s idx' e' j y -> idx' < idx -> canWB e' = true) /\ (forall idx' e' j y, in_lq s idx' e' j y -> seqNum x < seqNum y)).

(** A load that is about to be reported, or waits for a store, does not commit. *)
Definition committable (s : Lsq) (y : Z) : Prop :=
  (forall i x, memDepViolator s = Some i -> insts s !! i = Some x -> y < seqNum x) /\
  (stalled s = true -> forall e i x, in_lq s (stallingLoadIdx s) e i x -> y < seqNum x).

(** Loads, store conditionals and atomics write a register; a store that gets its
    response was handed to memory and did not get it before; a packet of a transaction
    names that of the instruction, and one that failed gives a reason. *)
Definition responding (s : Lsq) (i : nat) (pkt : Response) : Prop :=
  exists x, insts s !! i = Some x /\ htmFailedInCache pkt <> Some NO_FAIL /\
    (forall uid, htmTransactional pkt = Some uid -> squashed (lflags x) = false -> htmUid (lhtm x) = uid) /\
    (needWBToRegister pkt = true -> isLoad (static x) || isStoreConditional (static x) || isAtomic (static x) = true) /\
    (squashed (lflags x) = false -> isStore (static x) = true \/ (needWBToRegister pkt = true /\ isAtomic (static x) = true) ->
      exists e, in_sq s (sqIt (lpos x)) e i x /\ completed e = false /\ sqIt (lpos x) < storeWBIt s).

Definition allowed (op : LsqOp) (s : Lsq) : Prop :=
  match op with
  | OpInsert i x => insertable s i x
  | OpFlags i _ => is_Some (insts s !! i)
  | OpExecLoad i acc _ => load_ready s i acc
  | OpExecStore i acc => store_ready s i acc
  | OpCommit y => committable s y
  | OpWriteBack ps _ | OpRetry ps => ps <> []
  | OpResponse i pkt pending => pending <> Translation false /\ responding s i pkt
  | OpWriteback i pending => pending <> Translation false /\ exists x, insts s !! i = Some x /\ (squashed (lflags x) = true -> isStore (static x) = true -> isStoreConditional (static x) = true)
  | OpSquash _ | OpSnoop _ _ | OpReport => True
  end.

(** The states the unit reaches from its construction. *)
Inductive reach (lqEntries sqEntries : nat) : Lsq -> list Z -> Prop :=
| reach_init cpt glob : reach lqEntries sqEntries (LSQUnit p lqEntries sqEntries ∅ cpt glob) []
| reach_step s R op s' R' : reach lqEntries sqEntries s R -> allowed op s -> exec op (s, R) = Ok (s', R') -> reach lqEntries sqEntries s' R'.

(** Sizes of the queues and of the check's blocks. *)
Definition params_ok (lqEntries sqEntries : nat) : Prop :=
  (0 < lqEntries)%nat /\ (0 < sqEntries)%nat /\ Z.of_nat sqEntries < 2 ^ 31 /\ 0 <= depCheckShift p.

(** ** Bridge to the views *)

Lemma in_lq_view n s lvs svs idx e i x : rep n s lvs svs -> in_lq s idx e i x ->
  exists k v, lvs !! k = Some v /\ idx = cq_head (loadQueue s) + Z.of_nat k /\ e = lv_e v /\ i = lv_id v /\ seqNum x = lv_seq v.
Proof.
  intros Hr [Hidx Hg Hi Hx]. unfold isValidIdx in Hidx. apply andb_true_iff in Hidx as [H1 H2]. apply Z.leb_le in H1. apply Z.ltb_lt in H2.
  destruct (rep_lq_size _ _ _ _ Hr) as [Hsz _]. set (k := Z.to_nat (idx - cq_head (loadQueue s))). assert (Hk : idx = cq_head (loadQueue s) + Z.of_nat k) by (unfold k; lia).
  destruct (lookup_lt_is_Some_2 lvs k ltac:(lia)) as [v Hv]. rewrite Hk, (rep_get_load _ _ _ _ _ _ Hr Hv) in Hg. inv Hg.
  destruct (re_load _ _ _ _ Hr k v Hv) as (_ & Hi' & y & Hy & Hin). assert (i = lv_id v) by congruence. subst i. assert (y = x) by congruence. subst y.
  exists k, v. split_and!; try done. by apply (ln_seq _ _ _ Hin).
Qed.

Lemma view_in_lq n s lvs svs k v x : rep n s lvs svs -> lvs !! k = Some v -> insts s !! lv_id v = Some x ->
  in_lq s (cq_head (loadQueue s) + Z.of_nat k) (lv_e v) (lv_id v) x.
Proof.
  intros Hr Hk Hx. destruct (re_load _ _ _ _ Hr k v Hk) as (_ & Hi & _). destruct (rep_lq_size _ _ _ _ Hr) as [Hsz _]. pose proof (lookup_lt_Some _ _ _ Hk).
  split; try done; [|by eapply rep_get_load]. unfold isValidIdx. apply andb_true_iff. split; [apply Z.leb_le|apply Z.ltb_lt]; lia.
Qed.

Lemma in_sq_view n s lvs svs idx e i x : rep n s lvs svs -> in_sq s idx e i x ->
  exists k w, svs !! k = Some w /\ idx = cq_head (storeQueue s) + Z.of_nat k /\ e = sv_e w /\ i = sv_id w /\ seqNum x = sv_seq w.
Proof.
  intros Hr [Hidx Hg Hi Hx]. unfold isValidIdx in Hidx. apply andb_true_iff in Hidx as [H1 H2]. apply Z.leb_le in H1. apply Z.ltb_lt in H2.
  destruct (rep_sq_size _ _ _ _ Hr) as [Hsz _]. set (k := Z.to_nat (idx - cq_head (storeQueue s))). assert (Hk : idx = cq_head (storeQueue s) + Z.of_nat k) by (unfold k; lia).
  destruct (lookup_lt_is_Some_2 svs k ltac:(lia)) as [w Hw]. rewrite Hk, (rep_get_store _ _ _ _ _ _ Hr Hw) in Hg. inv Hg.
  destruct (re_store _ _ _ _ Hr k w Hw) as (_ & Hi' & y & Hy & Hin). assert (i = sv_id w) by congruence. subst i. assert (y = x) by congruence. subst y.
  exists k, w. split_and!; try done. by apply (sn_seq _ _ _ _ Hin).
Qed.

Lemma view_in_sq n s lvs svs k w x : rep n s lvs svs -> svs !! k = Some w -> insts s !! sv_id w = Some x ->
  in_sq s (cq_head (storeQueue s) + Z.of_nat k) (sv_e w) (sv_id w) x.
Proof.
  intros Hr Hk Hx. destruct (re_store _ _ _ _ Hr k w Hk) as (_ & Hi & _). destruct (rep_sq_size _ _ _ _ Hr) as [Hsz _]. pose proof (lookup_lt_Some _ _ _ Hk).
  split; try done; [|by eapply rep_get_store]. unfold isValidIdx. apply andb_true_iff. split; [apply Z.leb_le|apply Z.ltb_lt]; lia.
Qed.

(** ** Every operation keeps the invariant *)

Lemma init_inv lqEntries sqEntries cpt glob : params_ok lqEntries sqEntries -> inv (MaxDataBytes p) [] (LSQUnit p lqEntries sqEntries ∅ cpt glob) [] [].
Proof.
  intros (Hl & Hs & Hsmall & _). unfold LSQUnit, resetState. assert (Hnil : forall (A : Type) (a : A), a ∈ [] -> False) by (intros A a ?%elem_of_nil; done).
  split; [|by intros w ?%Hnil|by intros w v ?%Hnil|done|split; intros v x; intros; by edestruct Hnil]. split; cbn; try done.
  - by apply cq_rep_new.
  - apply cq_rep_new; [done|]. unfold sq_free. cbn. by rewrite length_replicate.
  - unfold cq_capacity. cbn. by rewrite length_replicate.
  - unfold cq_begin. cbn. split; cbn; try done; try (by intros * ?%Hnil); [apply SSorted_nil|apply SSorted_nil|..].
Qed.

(** A new object is in no queue. *)
Lemma inv_new R s lvs svs i x : inv (MaxDataBytes p) R s lvs svs -> insts s !! i = None -> inv (MaxDataBytes p) R (with_insts s (<[i := x]> (insts s))) lvs svs.
Proof.
  intros [Hr He Hc Hh Hm] Hi. assert (Hle : heap_le (insts s) (<[i := x]> (insts s))).
  { intros j y Hy. exists y. rewrite lookup_insert_ne by congruence. done. }
  split; try done; [|eapply mem_quiet; [exact Hr| |exact Hm]; by apply quiet_heap]. apply rep_heap; [done|..].
  - intros v y _ Hy. exists y. rewrite lookup_insert_ne by congruence. done.
  - intros w y _ Hy. exists y. rewrite lookup_insert_ne by congruence. repeat split; auto.
Qed.

Lemma inv_wb R s lvs svs s' svs' : inv (MaxDataBytes p) R s lvs svs -> wb_step (MaxDataBytes p) s lvs svs s' svs' -> inv (MaxDataBytes p) R s' lvs svs'.
Proof.
  intros [Hr He Hc Hh Hm] (Hr' & Hh' & Hf & Hq & Hl). split; try done; [|by eapply stores_from_commit|by eapply (mem_quiet _ _ _ _ _ _ _ _ Hr)].
  rewrite Hl. by eapply stores_from_ends.
Qed.

Lemma exec_insert R s lvs svs i x : inv (MaxDataBytes p) R s lvs svs -> insertable s i x ->
  exists s' lvs' svs', insert i (with_insts s (<[i := x]> (insts s))) = Ok s' /\ inv (MaxDataBytes p) R s' lvs' svs'.
Proof.
  intros Hi [Hnew (Hmem & Hkind) Hl Hs Hpos (Hh1 & Hh2 & Hh3) (Hc1 & Hc2 & Hc3) Hroom]. pose proof (in_rep _ _ _ _ _ Hi) as Hr.
  set (s0 := with_insts s _). assert (Hi0 : inv (MaxDataBytes p) R s0 lvs svs) by (by apply inv_new).
  destruct (lsq_insert_ok _ R s0 lvs svs i x Hi0) as (s' & lvs' & svs' & Hok & Hi' & _); try done; [cbn; by rewrite lookup_insert_eq| |by exists s', lvs', svs'].
  split; try done.
  - intros v [k Hk]%list_elem_of_lookup_1. destruct (rep_load_inst _ _ _ _ _ _ Hr Hk) as (y & _ & Hy & Hin). rewrite <- (ln_seq _ _ _ Hin). eapply Hl. by eapply view_in_lq.
  - intros w [k Hk]%list_elem_of_lookup_1. destruct (rep_store_inst _ _ _ _ _ _ Hr Hk) as (y & _ & Hy & Hin). rewrite <- (sn_seq _ _ _ _ Hin). eapply Hs. by eapply view_in_sq.
Qed.

Lemma exec_load R s lvs svs i acc env : inv (MaxDataBytes p) R s lvs svs -> load_ready s i acc ->
  exists f s' lvs', executeLoad p i acc env s = Ok (f, s') /\ inv (MaxDataBytes p) R s' lvs' svs.
Proof.
  intros Hi (idx & e & x & Hin & Hsq & Hex & Hacc). destruct (in_lq_view _ _ _ _ _ _ _ _ (in_rep _ _ _ _ _ Hi) Hin) as (k & v & Hk & -> & -> & -> & _).
  destruct (executeLoad_ok p _ R k v s lvs svs x acc env Hi Hk (iq_obj _ _ _ _ _ Hin) Hsq Hex Hacc) as (f & s' & lvs' & Hok & Hi' & _). by exists f, s', lvs'.
Qed.

(** A store that is ready, in terms of the views. *)
Lemma store_ready_view R s lvs svs i acc : inv (MaxDataBytes p) R s lvs svs -> store_ready s i acc ->
  exists k w x, svs !! k = Some w /\ i = sv_id w /\ insts s !! i = Some x /\ squashed (lflags x) = false /\ canWB (sv_e w) = false /\ sv_size w = 0 /\
    store_access_ok p x acc /\ may_commit lvs svs k w x.
Proof.
  intros Hi (idx & e & x & Hin & Hsq & Hcan & Hsz & Hacc & Hold). pose proof (in_rep _ _ _ _ _ Hi) as Hr.
  destruct (in_sq_view _ _ _ _ _ _ _ _ Hr Hin) as (k & w & Hk & -> & -> & -> & Hseq). exists k, w, x. split_and!; try done; [by apply (is_obj _ _ _ _ _ Hin)|].
  intros Hsc. destruct (Hold Hsc) as [Ho1 Ho2]. split.
  - intros j u Hj Hu. destruct (rep_store_inst _ _ _ _ _ _ Hr Hu) as (y & _ & Hy & _). eapply (Ho1 _ _ (sv_id u) y); [by eapply view_in_sq|lia].
  - intros v [j Hj]%list_elem_of_lookup_1. destruct (rep_load_inst _ _ _ _ _ _ Hr Hj) as (y & _ & Hy & Hyin). rewrite <- Hseq, <- (ln_seq _ _ _ Hyin).
    eapply (Ho2 _ _ (lv_id v) y). by eapply view_in_lq.
Qed.

Lemma exec_store R s lvs svs i acc : 0 <= depCheckShift p -> inv (MaxDataBytes p) R s lvs svs -> store_ready s i acc ->
  exists f s' svs', executeStore p i acc s = Ok (f, s') /\ inv (MaxDataBytes p) R s' lvs svs'.
Proof.
  intros Hsh Hi Hready. destruct (store_ready_view _ _ _ _ _ _ Hi Hready) as (k & w & x & Hk & -> & Hx & Hsq & Hcan & Hsz & Hacc & Hmay).
  destruct (executeStore_ok p R s lvs svs k w x acc) as (f & s' & svs' & Hok & Hi' & _); try done. by exists f, s', svs'.
Qed.

Lemma lsq_exec_commit R s lvs svs y : inv (MaxDataBytes p) R s lvs svs -> committable s y ->
  exists s' lvs' svs', (let! s := commitStores y s in commitLoads y s) = Ok s' /\ inv (MaxDataBytes p) R s' lvs' svs'.
Proof.
  intros [Hr He Hc Hh Hm] (Hv & Hst). destruct (commit_ok_step _ y s lvs svs Hr He Hc) as (s' & l1 & l2 & Hok & _ & _ & _ & Hr' & Hq & He' & Hc').
  { intros k v Hk Hle. destruct (rep_load_inst _ _ _ _ _ _ Hr Hk) as (x & _ & Hx & Hin). split.
    - intros Hs E. pose proof (view_in_lq _ _ _ _ _ _ _ Hr Hk Hx) as Hl. rewrite <- E in Hl. pose proof (Hst Hs _ _ _ Hl). pose proof (ln_seq _ _ _ Hin). lia.
    - intros E. pose proof (Hv _ _ E Hx). pose proof (ln_seq _ _ _ Hin). lia. }
  exists s', l2, (commit_sv y <$> svs). split; [exact Hok|]. split; try done; [|by eapply (mem_quiet _ _ _ _ _ _ _ _ Hr)].
  intros w Hw. rewrite list_lookup_fmap in Hw. destruct (svs !! 0%nat) as [w0|] eqn:E; [|done]. inv Hw. pose proof (Hh w0 E) as Hw0. unfold commit_sv. by destruct (canWB (sv_e w0) || _).
Qed.

Lemma exec_report R s lvs svs : inv (MaxDataBytes p) R s lvs svs ->
  exists s' R', exec OpReport (s, R) = Ok (s', R') /\ inv (MaxDataBytes p) R' s' lvs svs.
Proof.
  intros [Hr He Hc Hh Hm]. cbn [exec getMemDepViolator]. assert (Hr' : rep (MaxDataBytes p) (with_violator s None) lvs svs) by (by apply rep_violator).
  assert (Hmono : forall R', (forall q, covered R s q -> covered R' (with_violator s None) q) -> inv (MaxDataBytes p) R' (with_violator s None) lvs svs).
  { intros R' Hcov. destruct Hm as [H1 H2 H3]. split; try done. split; [done|..].
    - intros v x Hv Hx Hne. apply Hcov. by eapply H2.
    - intros v x j w y ? ? ? ? ? ? ? ? ?. destruct (H3 v x j w y) as [|Hcv]; try done; [by left|]. right. by apply Hcov. }
  destruct (memDepViolator s) as [i|] eqn:E.
  - destruct (re_violator _ _ _ _ Hr i E) as (v & [k Hk]%list_elem_of_lookup_1 & <-). destruct (rep_load_inst _ _ _ _ _ _ Hr Hk) as (x & _ & Hx & _).
    cbn [insts with_violator]. rewrite Hx. cbn [deref rbind]. eexists _, _. split; [done|]. apply Hmono. intros q [(r & Hin & Hle)|(j & y & Hj & Hy & Hle)]; left.
    + exists r. split; [by right|done].
    + exists (seqNum x). split; [by left|]. assert (j = lv_id v) by congruence. subst j. congruence.
  - eexists _, _. split; [done|]. apply Hmono. intros q [?|(j & y & Hj & _)]; [by left|congruence].
Qed.

Lemma exec_complete R s lvs svs idx e i x : inv (MaxDataBytes p) R s lvs svs -> in_sq s idx e i x -> completed e = false -> idx < storeWBIt s ->
  exists s' svs', completeStore p idx s = Ok s' /\ inv (MaxDataBytes p) R s' lvs svs'.
Proof.
  intros Hi Hin Hnc Hlt. pose proof Hi as [Hr _ _ Hh _]. destruct (in_sq_view _ _ _ _ _ _ _ _ Hr Hin) as (k & w & Hk & -> & -> & -> & _).
  destruct (storeDone_ok p _ s lvs svs k w Hr Hh Hk Hnc Hlt) as (s' & svs' & Hok & Hst). exists s', svs'. split; [exact Hok|]. by eapply inv_wb.
Qed.

(** Neither [writeback] nor the fault of a transaction touches more than flags. *)
Definition flags_only (R : list Z) (lvs : list LV) (svs : list SV) (s s' : Lsq) : Prop :=
  inv (MaxDataBytes p) R s' lvs svs /\ storeQueue s' = storeQueue s /\ storeWBIt s' = storeWBIt s /\
  forall j y, insts s !! j = Some y -> exists z, insts s' !! j = Some z /\ static z = static y /\ squashed (lflags z) = squashed (lflags y).

Lemma flags_only_refl R s lvs svs : inv (MaxDataBytes p) R s lvs svs -> flags_only R lvs svs s s.
Proof. intros Hi. split_and!; [done..|]. by eauto. Qed.

Lemma flags_only_act R s s' lvs svs a : flags_only R lvs svs s s' -> flags_only R lvs svs s (act a s').
Proof. intros (Hi & ? & ? & ?). split_and!; [by apply inv_act|done..]. Qed.

Lemma flags_only_modify R s lvs svs i f x : inv (MaxDataBytes p) R s lvs svs -> insts s !! i = Some x -> same_key x (f x) -> laddr (f x) = laddr x ->
  memDepInfo (f x) = memDepInfo x -> memData (f x) = memData x -> static (f x) = static x -> squashed (lflags (f x)) = squashed (lflags x) ->
  exists s', modify i f s = Ok s' /\ flags_only R lvs svs s s'.
Proof.
  intros Hi Hx Hk Ha Hd Hm Hs Hq. destruct (inv_flags _ _ _ _ _ i f x Hi Hx Hk Ha Hd Hm) as (s1 & E & Hi1 & _). exists s1. split; [done|].
  unfold modify in E. rewrite Hx in E. cbn in E. inv E. split_and!; [done..|]. intros j y Hj. cbn.
  destruct (decide (i = j)) as [->|]; rewrite ?lookup_insert_eq, ?lookup_insert_ne by done; [|by eauto]. eexists. split; [done|]. by simplify_eq.
Qed.

Lemma exec_writeback R s lvs svs i x pending : inv (MaxDataBytes p) R s lvs svs -> insts s !! i = Some x -> pending <> Translation false ->
  (squashed (lflags x) = true -> isStore (static x) = true -> isStoreConditional (static x) = true) ->
  exists s', writeback i pending s = Ok s' /\ flags_only R lvs svs s s'.
Proof.
  intros Hi Hx Hp Hsq. unfold writeback. rewrite Hx. cbn [deref rbind]. destruct (squashed (lflags x)).
  { assert (E : negb (isStore (static x)) || isStoreConditional (static x) = true) by (destruct (isStore (static x)); [cbn; by apply Hsq|done]).
    rewrite E. cbn [assert_ rbind]. exists s. split; [done|]. by apply flags_only_refl. }
  destruct (negb (executed (lflags x))).
  - destruct (flags_only_modify _ _ _ _ i setExecuted x Hi Hx) as (s1 & -> & Hi1); try done. cbn [rbind].
    destruct (reExec (lflags x)), pending as [| |[]]; cbn [assert_ rbind]; try done; eexists; (split; [done|]); by repeat apply flags_only_act.
  - cbn [rbind]. eexists. split; [done|]. repeat apply flags_only_act. by apply flags_only_refl.
Qed.

Lemma exec_htm_failure R s lvs svs i x pkt pending : inv (MaxDataBytes p) R s lvs svs -> insts s !! i = Some x -> pending <> Translation false ->
  htmFailedInCache pkt <> Some NO_FAIL ->
  exists pending' s', match htmFailedInCache pkt with
    | None => Ok (pending, s)
    | Some rc => if isWrite pkt then Ok (pending, s) else
        match rc with NO_FAIL => Err Panicked | _ => let! s := modify i setHtmFault s in Ok (HtmFailure, s) end
    end = Ok (pending', s') /\ pending' <> Translation false /\ flags_only R lvs svs s s'.
Proof.
  intros Hi Hx Hp Hn. destruct (htmFailedInCache pkt) as [rc|]; [|exists pending, s; split_and!; [done..|by apply flags_only_refl]].
  destruct (isWrite pkt); [exists pending, s; split_and!; [done..|by apply flags_only_refl]|].
  destruct (flags_only_modify _ _ _ _ i setHtmFault x Hi Hx) as (s1 & -> & Hf); try done. destruct rc; [done|..]; by eauto.
Qed.

Lemma exec_response R s lvs svs i pkt pending : inv (MaxDataBytes p) R s lvs svs -> pending <> Translation false -> responding s i pkt ->
  exists s' svs', completeDataAccess p i pkt pending s = Ok s' /\ inv (MaxDataBytes p) R s' lvs svs'.
Proof.
  intros Hi Hp (x & Hx & Hrc & Huid & Hwb & Hst). unfold completeDataAccess. rewrite Hx. cbn [deref rbind].
  replace (squashed (lflags x) || _) with true
    by (destruct (squashed (lflags x)), (htmTransactional pkt); try done; symmetry; apply Z.eqb_eq; by apply Huid). cbn [assert_ rbind].
  destruct (exec_htm_failure _ _ _ _ _ _ pkt pending Hi Hx Hp Hrc) as (pd & s1 & -> & Hpd & Hi1 & Eq1 & Ew1 & Hobj1). cbn [rbind].
  destruct (squashed (lflags x)) eqn:Hsq; [by exists s1, svs|]. destruct (Hobj1 i x Hx) as (y & Hy & Esy & Eqy).
  specialize (Hst eq_refl). destruct (needWBToRegister pkt).
  - rewrite Hwb by done. cbn [assert_ rbind]. destruct (exec_writeback _ _ _ _ _ _ pd Hi1 Hy Hpd) as (s2 & -> & Hi2 & Eq2 & Ew2 & Hobj2); [congruence|].
    cbn [rbind]. destruct (isStore (static x) || isAtomic (static x)) eqn:E; [|by exists s2, svs].
    destruct Hst as (e & [H1 H2 H3 H4] & Hnc & Hlt); [apply orb_true_iff in E as [?|?]; [by left|by right]|]. destruct (Hobj2 i y Hy) as (z & Hz & _).
    eapply (exec_complete R s2 lvs svs _ e i z); [done|split; rewrite ?Eq2, ?Eq1; done|done|by rewrite Ew2, Ew1].
  - destruct (isStore (static x)); [|by exists s1, svs]. destruct Hst as (e & [H1 H2 H3 H4] & Hnc & Hlt); [by left|].
    eapply (exec_complete R s1 lvs svs _ e i y); [done|split; rewrite ?Eq1; done|done|by rewrite Ew1].
Qed.

(** An operation that keeps to the protocol does not fail, and keeps the invariant. *)
Lemma lsq_exec_ok op R s lvs svs : 0 <= depCheckShift p -> inv (MaxDataBytes p) R s lvs svs -> allowed op s ->
  exists s' R', exec op (s, R) = Ok (s', R') /\ exists lvs' svs', inv (MaxDataBytes p) R' s' lvs' svs'.
Proof.
  intros Hsh Hi Hop. pose proof Hi as [Hr He Hc Hh Hm]. destruct op as [i x|i f|i acc env|i acc|y|ps envs|ps|i pkt pd|i pd|num|hit lock|]; cbn [exec allowed] in *.
  - destruct (exec_insert _ _ _ _ _ _ Hi Hop) as (s' & lvs' & svs' & -> & Hi'). cbn [rbind]. by eauto 10.
  - destruct Hop as [x Hx]. destruct (inv_flags _ _ _ _ _ i (up_flags (fun _ => f)) x Hi Hx) as (s' & -> & Hi' & _); try done. cbn [rbind]. by eauto 10.
  - destruct (exec_load _ _ _ _ _ _ env Hi Hop) as (f & s' & lvs' & -> & Hi'). cbn [rbind]. by eauto 10.
  - destruct (exec_store _ _ _ _ _ _ Hsh Hi Hop) as (f & s' & svs' & -> & Hi'). cbn [rbind]. by eauto 10.
  - destruct (lsq_exec_commit _ _ _ _ _ Hi Hop) as (s' & lvs' & svs' & Hok & Hi'). destruct (commitStores y s) as [s1|]; [|done]. cbn [rbind] in *. rewrite Hok.
    cbn [rbind]. by eauto 10.
  - destruct (writebackStores_ok p _ ps envs s lvs svs Hr Hh Hc Hop) as (s' & svs' & -> & Hst). cbn [rbind]. eexists _, _. split; [done|]. exists lvs, svs'. by eapply inv_wb.
  - destruct (recvRetry_ok p _ ps s lvs svs Hr Hh Hc Hop) as (s' & svs' & -> & Hst). cbn [rbind]. eexists _, _. split; [done|]. exists lvs, svs'. by eapply inv_wb.
  - destruct Hop as [Hp Hop]. destruct (exec_response _ _ _ _ _ _ pd Hi Hp Hop) as (s' & svs' & -> & Hi'). cbn [rbind]. by eauto 10.
  - destruct Hop as (Hp & x & Hx & Hsq). destruct (exec_writeback _ _ _ _ _ _ pd Hi Hx Hp Hsq) as (s' & -> & Hi' & _). cbn [rbind]. by eauto 10.
  - destruct (lsq_squash_ok _ R num s lvs svs Hi) as (s' & l1 & l2 & t1 & t2 & -> & _ & _ & _ & _ & _ & _ & Hi' & _). cbn [rbind]. by eauto 10.
  - destruct (checkSnoop_ok p _ R hit lock s lvs svs Hi) as (s' & -> & Hi'). cbn [rbind]. by eauto 10.
  - destruct (exec_report _ _ _ _ Hi) as (s' & R' & Hok & Hi'). by eauto 10.
Qed.

Lemma reach_inv lqEntries sqEntries s R : params_ok lqEntries sqEntries -> reach lqEntries sqEntries s R -> exists lvs svs, inv (MaxDataBytes p) R s lvs svs.
Proof.
  intros Hp Hre. induction Hre as [cpt glob|s R op s' R' Hre (lvs & svs & Hi) Hop Hex]; [by eexists _, _; apply init_inv|].
  destruct (lsq_exec_ok op R s lvs svs) as (s2 & R2 & Hex2 & Hi2); [apply Hp|done|done|]. rewrite Hex in Hex2. by inv Hex2.
Qed.

(** ** What the operations promise *)

Context (lqEntries sqEntries : nat).

(** C8: the load/store queue does not fail.  From its construction, through any
    sequence of insertions, executions, commits, write-backs with whatever the
    cache answers, responses, squashes, snoops and reports that keeps to the
    protocol ([allowed]: instructions arrive in program order, with room and outside of
    transactions, leave the issue stage once, get their response after they were sent, and
    do not commit while they are about to be reported or wait for a store), no assertion of [LSQUnit] fails, no panic is reached, no null pointer
    or index outside a queue is used, and no loop overruns. *)
Theorem lsq_never_fails s R op : params_ok lqEntries sqEntries -> reach lqEntries sqEntries s R -> allowed op s ->
  exists s' R', exec op (s, R) = Ok (s', R').
Proof.
  intros Hp Hre Hop. destruct (reach_inv _ _ _ _ Hp Hre) as (lvs & svs & Hi). destruct (lsq_exec_ok op R s lvs svs) as (s' & R' & Hex & _); [apply Hp|done|done|].
  by exists s', R'.
Qed.

(** C9: no load keeps stale data unreported.  In every state the unit reaches, for
    a load with an address and an older store that overlaps it and is executed but
    not handed to memory yet: the load got its data from that store or a younger
    one, or it or an older load is reported as a violator, or is about to be.
    Strictly ordered accesses, prefetches and cache maintenance are not ordered by
    the queue. *)
Theorem lsq_no_stale_load s R idx e i ld jdx se j st : params_ok lqEntries sqEntries -> reach lqEntries sqEntries s R ->
  in_lq s idx e i ld -> in_sq s jdx se j st -> placed ld -> searched (base se) st -> seqNum st < seqNum ld -> storeWBIt s <= jdx ->
  overlap (laddr ld) (laddr st) ->
  seqNum st <= forwardedFrom (memDepInfo ld) \/ (exists r, r ∈ R /\ r <= seqNum ld) \/ (exists q, pending s = Some q /\ q <= seqNum ld).
Proof.
  intros Hp Hre Hl Hs Hpl Hse Hlt Hge Hov. destruct (reach_inv _ _ _ _ Hp Hre) as (lvs & svs & [Hr _ _ _ Hm]).
  destruct (in_lq_view _ _ _ _ _ _ _ _ Hr Hl) as (k & v & Hk & -> & -> & -> & Ev). destruct (in_sq_view _ _ _ _ _ _ _ _ Hr Hs) as (m & w & Hw & -> & -> & -> & Ew).
  rewrite Ev, Ew in *. rewrite <- covered_pending. eapply (mo_order _ _ _ _ Hm v ld m w st); try done; [by eapply list_elem_of_lookup_2|apply Hl|apply Hs].
Qed.

(** An older store that is executed, not handed to memory yet, and overlaps a load's request. *)
Definition meets s (ld : LInst) (r : Req) (jdx : Z) (se : SQEntry) (j : nat) (st : LInst) : Prop :=
  in_sq s jdx se j st /\ storeWBIt s <= jdx /\ seqNum st < seqNum ld /\ searched (base se) st /\ overlap (addr_of r) (laddr st).

Lemma visible_meets n s lvs svs v ld r m w st : rep n s lvs svs -> seqNum ld = lv_seq v -> visible s svs v (addr_of r) m w st ->
  meets s ld r (cq_head (storeQueue s) + Z.of_nat m) (sv_e w) (sv_id w) st.
Proof.
  intros Hr Hseq ([Hw Hst Hse Hov] & Hge & Hlt). destruct (rep_store_inst _ _ _ _ _ _ Hr Hw) as (y & _ & Hy & Hin). rewrite Hst in Hy. inv Hy.
  split; [by eapply view_in_sq|]. split_and!; try done. rewrite (sn_seq _ _ _ _ Hin). lia.
Qed.

Lemma meets_visible n s lvs svs v ld r jdx se j st : rep n s lvs svs -> seqNum ld = lv_seq v -> meets s ld r jdx se j st ->
  exists m w, jdx = cq_head (storeQueue s) + Z.of_nat m /\ visible s svs v (addr_of r) m w st.
Proof.
  intros Hr Hseq (Hs & Hge & Hlt & Hse & Hov). destruct (in_sq_view _ _ _ _ _ _ _ _ Hr Hs) as (m & w & Hw & -> & -> & -> & Ew). exists m, w. split; [done|].
  split; [split; try done; apply Hs|]. split; [done|]. lia.
Qed.


(** A younger load that was executed too early for the store [st] with request [r]. *)
Definition too_early s (st : LInst) (r : Req) (i : nat) (ld : LInst) : Prop :=
  (exists idx e, in_lq s idx e i ld) /\ seqNum st < seqNum ld /\ violates p (with_addr r st) ld.


(** C20: a squash of the load/store queue is exact.  After [squash] the load queue
    holds, at the same indices, the entries of the loads up to the squashed number,
    and the store queue those of the stores up to it and of the stores that commit. *)
Theorem lsq_squash_exact s R num : params_ok lqEntries sqEntries -> reach lqEntries sqEntries s R ->
  exists s', squash num s = Ok s' /\
    (forall idx e i, (exists x, in_lq s' idx e i x) <-> (exists x, in_lq s idx e i x /\ seqNum x <= num)) /\
    (forall idx e i, (exists x, in_sq s' idx e i x) <-> (exists x, in_sq s idx e i x /\ (seqNum x <= num \/ canWB e = true))).
Proof.
  intros Hp Hre. destruct (reach_inv _ _ _ _ Hp Hre) as (lvs & svs & Hi). pose proof (in_rep _ _ _ _ _ Hi) as Hr.
  destruct (lsq_squash_ok _ R num s lvs svs Hi) as (s' & l1 & l2 & t1 & t2 & Hok & -> & -> & Hl1 & Hl2 & Ht1 & Ht2 & [Hr' _ _ _ _] & Eh & Ehs). exists s'. split; [exact Hok|]. split.
  - intros idx e i. split.
    + intros [x Hx]. destruct (in_lq_view _ _ _ _ _ _ _ _ Hr' Hx) as (k & v & Hk & -> & -> & -> & _). assert (Hk' : (l1 ++ l2) !! k = Some v) by (by apply lookup_app_l_Some).
      destruct (rep_load_inst _ _ _ _ _ _ Hr Hk') as (y & _ & Hy & Hin). exists y. rewrite Eh. split; [by eapply view_in_lq|]. rewrite (ln_seq _ _ _ Hin). apply Hl1. by eapply list_elem_of_lookup_2.
    + intros (x & Hx & Hle). destruct (in_lq_view _ _ _ _ _ _ _ _ Hr Hx) as (k & v & Hk & -> & -> & -> & Ev). apply lookup_app_Some in Hk as [Hk|[_ Hk]].
      * destruct (rep_load_inst _ _ _ _ _ _ Hr' Hk) as (y & _ & Hy & _). exists y. rewrite <- Eh. by eapply view_in_lq.
      * pose proof (Hl2 v ltac:(by eapply list_elem_of_lookup_2)). lia.
  - intros idx e i. split.
    + intros [x Hx]. destruct (in_sq_view _ _ _ _ _ _ _ _ Hr' Hx) as (k & w & Hk & -> & -> & -> & _). assert (Hk' : (t1 ++ t2) !! k = Some w) by (by apply lookup_app_l_Some).
      destruct (rep_store_inst _ _ _ _ _ _ Hr Hk') as (y & _ & Hy & Hin). exists y. rewrite Ehs. split; [by eapply view_in_sq|]. rewrite (sn_seq _ _ _ _ Hin). apply Ht1. by eapply list_elem_of_lookup_2.
    + intros (x & Hx & Hor). destruct (in_sq_view _ _ _ _ _ _ _ _ Hr Hx) as (k & w & Hk & -> & -> & -> & Ew). apply lookup_app_Some in Hk as [Hk|[_ Hk]].
      * destruct (rep_store_inst _ _ _ _ _ _ Hr' Hk) as (y & _ & Hy & _). exists y. rewrite <- Ehs. by eapply view_in_sq.
      * destruct (Ht2 w ltac:(by eapply list_elem_of_lookup_2)) as [? ?]. destruct Hor as [|]; [lia|congruence].
Qed.
End Machine.

(** ** A small unit *)

Module SmallLsq.

Definition p0 : LsqParams := mkLsqParams 0 true false 4 64.

(** The contents of the queues as lists. *)
Definition lq_list (s : Lsq) : list (Z * LSQEntry * nat * LInst) :=
  omap (fun k => let idx := cq_head (loadQueue s) + Z.of_nat k in
    match cq_get (loadQueue s) idx with
    | Ok e => e_inst e ≫= fun i => (fun x => (idx, e, i, x)) <$> insts s !! i
    | Err _ => None
    end) (seq 0 (Z.to_nat (cq_size (loadQueue s)))).

Definition sq_list (s : Lsq) : list (Z * SQEntry * nat * LInst) :=
  omap (fun k => let idx := cq_head (storeQueue s) + Z.of_nat k in
    match cq_get (storeQueue s) idx with
    | Ok e => e_inst (base e) ≫= fun i => (fun x => (idx, e, i, x)) <$> insts s !! i
    | Err _ => None
    end) (seq 0 (Z.to_nat (cq_size (storeQueue s)))).

Lemma lq_list_spec s idx e i x : (idx, e, i, x) ∈ lq_list s <-> in_lq s idx e i x.
Proof.
  unfold lq_list. rewrite list_elem_of_omap. split.
  - intros (k & [_ Hk]%elem_of_seq & Hx). destruct (cq_get _ _) as [e'|] eqn:Hg; [|done]. destruct (e_inst e') as [i'|] eqn:Hi; [|done]. cbn in Hx.
    destruct (insts s !! i') as [x'|] eqn:Ho; [|done]. inv Hx. split; try done. unfold isValidIdx. apply andb_true_iff. split; [apply Z.leb_le|apply Z.ltb_lt]; lia.
  - intros [Hidx Hg Hi Hx]. unfold isValidIdx in Hidx. apply andb_true_iff in Hidx as [H1 H2]. apply Z.leb_le in H1. apply Z.ltb_lt in H2.
    exists (Z.to_nat (idx - cq_head (loadQueue s))). split; [apply elem_of_seq; lia|].
    replace (cq_head (loadQueue s) + Z.of_nat (Z.to_nat (idx - cq_head (loadQueue s)))) with idx by lia. rewrite Hg, Hi. cbn. by rewrite Hx.
Qed.

Lemma sq_list_spec s idx e i x : (idx, e, i, x) ∈ sq_list s <-> in_sq s idx e i x.
Proof.
  unfold sq_list. rewrite list_elem_of_omap. split.
  - intros (k & [_ Hk]%elem_of_seq & Hx). destruct (cq_get _ _) as [e'|] eqn:Hg; [|done]. destruct (e_inst (base e')) as [i'|] eqn:Hi; [|done]. cbn in Hx.
    destruct (insts s !! i') as [x'|] eqn:Ho; [|done]. inv Hx. split; try done. unfold isValidIdx. apply andb_true_iff. split; [apply Z.leb_le|apply Z.ltb_lt]; lia.
  - intros [Hidx Hg Hi Hx]. unfold isValidIdx in Hidx. apply andb_true_iff in Hidx as [H1 H2]. apply Z.leb_le in H1. apply Z.ltb_lt in H2.
    exists (Z.to_nat (idx - cq_head (storeQueue s))). split; [apply elem_of_seq; lia|].
    replace (cq_head (storeQueue s) + Z.of_nat (Z.to_nat (idx - cq_head (storeQueue s)))) with idx by lia. rewrite Hg, Hi. cbn. by rewrite Hx.
Qed.

Lemma lq_all s (f : LInst -> bool) idx e i x : forallb (fun q => f q.2) (lq_list s) = true -> in_lq s idx e i x -> f x = true.
Proof. intros H Hin%lq_list_spec. rewrite forallb_forall in H. apply (H (idx, e, i, x)). by apply list_elem_of_In. Qed.

Lemma sq_all s (f : LInst -> bool) idx e i x : forallb (fun q => f q.2) (sq_list s) = true -> in_sq s idx e i x -> f x = true.
Proof. intros H Hin%sq_list_spec. rewrite forallb_forall in H. apply (H (idx, e, i, x)). by apply list_elem_of_In. Qed.

(** A store, and a load after it, of the word at 16. *)
Definition new_inst (sn : Z) (load : bool) : LInst :=
  mkLInst sn (mkLStatic (4 * sn) true load (negb load) false false false false false) (mkLPos 0 0 0 0) (mkLAddr 0 0 false false)
    (mkLFlags false false false false false false false false false) (mkLHtm false 0 0) (mkMemDepInfo 0 0 0 0) None.

Definition word : Req := mkReq 16 4 false false false false false false false false false false.

Definition half : Req := mkReq 18 2 false false false false false false false false false false.

Definition env0 : LoadEnv := mkLoadEnv [] false true.

Definition after (op : LsqOp) (st : Lsq * list Z) : Lsq * list Z := match exec p0 op st with Ok st' => st' | Err _ => st end.

Definition st0 : Lsq * list Z := (LSQUnit p0 2 2 ∅ None 0, []).

Definition st1 : Lsq * list Z := after (OpInsert 0 (new_inst 1 false)) st0.

Definition st2 : Lsq * list Z := after (OpInsert 1 (new_inst 2 true)) st1.

(** The store executes first. *)
Definition st3 : Lsq * list Z := after (OpExecStore 0 (AccDone word [1; 2; 3; 4])) st2.

(** The load executes first, and then the store. *)
Definition st3' : Lsq * list Z := after (OpExecLoad 1 (AccDone half []) env0) st2.

Definition st4' : Lsq * list Z := after (OpExecStore 0 (AccDone word [1; 2; 3; 4])) st3'.

Lemma params0 : params_ok p0 2 2.
Proof. unfold params_ok. cbn. lia. Qed.

Lemma reach_after st op : reach p0 2 2 st.1 st.2 -> allowed p0 op st.1 -> is_ok (exec p0 op st) = true -> reach p0 2 2 (after op st).1 (after op st).2.
Proof.
  intros Hr Ha Hok. unfold after. destruct st as [s R]. destruct (exec p0 op (s, R)) as [[s' R']|] eqn:E; [|done]. by eapply reach_step.
Qed.

Ltac in_queue k := first [apply lq_list_spec|apply sq_list_spec]; apply (list_elem_of_lookup_2 _ k); vm_compute; reflexivity.

Lemma insertable0 : insertable st0.1 0 (new_inst 1 false).
Proof.
  split; try (vm_compute; done).
  - intros idx e j y H. apply (lq_all _ (fun x => seqNum x <? 1)) in H; [by apply Z.ltb_lt|by vm_compute].
  - intros idx e j y H. apply (sq_all _ (fun x => seqNum x <? 1)) in H; [by apply Z.ltb_lt|by vm_compute].
Qed.

Lemma insertable1 : insertable st1.1 1 (new_inst 2 true).
Proof.
  split; try (vm_compute; done).
  - intros idx e j y H. apply (lq_all _ (fun x => seqNum x <? 2)) in H; [by apply Z.ltb_lt|by vm_compute].
  - intros idx e j y H. apply (sq_all _ (fun x => seqNum x <? 2)) in H; [by apply Z.ltb_lt|by vm_compute].
Qed.

Lemma reach2 : reach p0 2 2 st2.1 st2.2.
Proof.
  apply reach_after; [apply reach_after; [apply reach_init|apply insertable0|by vm_compute]|apply insertable1|by vm_compute].
Qed.

Lemma half_ok x : load_access_ok x (AccDone half []).
Proof. unfold load_access_ok, range_ok. cbn. split; [lia|done]. Qed.

Lemma load_ready2 : load_ready st2.1 1 (AccDone half []).
Proof. eexists _, _, _. split; [in_queue 0%nat|]. split; [done|]. split; [done|]. apply half_ok. Qed.

Lemma store_ready2 : store_ready p0 st2.1 0 (AccDone word [1; 2; 3; 4]).
Proof. eexists _, _, _. split; [in_queue 0%nat|]. by split_and!. Qed.

Lemma store_ready3' : store_ready p0 st3'.1 0 (AccDone word [1; 2; 3; 4]).
Proof. eexists _, _, _. split; [in_queue 0%nat|]. by split_and!. Qed.

Lemma reach3 : reach p0 2 2 st3.1 st3.2.
Proof. apply reach_after; [apply reach2|apply store_ready2|by vm_compute]. Qed.

Lemma reach3' : reach p0 2 2 st3'.1 st3'.2.
Proof. apply reach_after; [apply reach2|apply load_ready2|by vm_compute]. Qed.

Lemma reach4' : reach p0 2 2 st4'.1 st4'.2.
Proof. apply reach_after; [apply reach3'|apply store_ready3'|by vm_compute]. Qed.

Lemma lsq_never_fails_witness : exists s' R', exec p0 (OpExecLoad 1 (AccDone half []) env0) (st3.1, st3.2) = Ok (s', R').
Proof.
  apply (lsq_never_fails p0 2 2 st3.1 st3.2); [apply params0|apply reach3|]. eexists _, _, _. split; [in_queue 0%nat|]. split; [done|]. split; [done|]. apply half_ok.
Defined.

(** The load that went first is a pending violator. *)
Lemma lsq_no_stale_load_witness : exists ld st, insts st4'.1 !! 1%nat = Some ld /\ insts st4'.1 !! 0%nat = Some st /\
  (seqNum st <= forwardedFrom (memDepInfo ld) \/ (exists r, r ∈ st4'.2 /\ r <= seqNum ld) \/ (exists q, pending st4'.1 = Some q /\ q <= seqNum ld)).
Proof.
  eexists _, _. split; [vm_compute; reflexivity|]. split; [vm_compute; reflexivity|].
  eapply (lsq_no_stale_load p0 2 2 st4'.1 st4'.2 1 _ 1 _ 1 _ 0); [apply params0|apply reach4'|in_queue 0%nat|in_queue 0%nat|done|..|done].
  - split_and!; try done. intros r [= <-]. done.
  - done.
  - by vm_compute.
Defined.



Lemma lsq_squash_exact_witness : exists s', squash 1 st4'.1 = Ok s'.
Proof. destruct (lsq_squash_exact p0 2 2 st4'.1 st4'.2 1 params0 reach4') as (s' & Hok & _). exists s'. exact Hok. Defined.
End SmallLsq.
