(* ===== verification/FUPool.v ===== *)
(** * The functional units

    [cpu/func_unit.hh], [cpu/func_unit.cc], [cpu/o3/fu_pool.hh] and
    [cpu/o3/fu_pool.cc]: a pool of functional units.  For every operation class the
    pool has a circular queue of the units that can do it; [getUnit] takes the next
    free one, and the units come back at the end of a cycle, at once or after a number
    of cycles. *)

From Stdlib Require Import ZArith Lia Bool.
From stdpp Require Import base tactics option list numbers sets.
From S2P Require Import Prelude.
Open Scope Z_scope.

(** ** Units *)

(** [Num_OpClasses]; a class is its number, and [No_OpClass] is 0. *)
Definition Num_OpClasses : nat := 74.
Definition No_OpClass : nat := 0.

Record OpDesc := mkOpDesc { opClass : nat; opLat : Z; op_pipelined : bool; issue_latency : Z }.
Record FUDesc := mkFUDesc { opDescList : list OpDesc; number : nat }.

(** [None] is a value that was never written. *)
Record FuncUnit := mkFuncUnit {
  fu_opLatencies : list Z; fu_pipelined : list bool; fu_capabilityList : list bool; fu_issueLatencies : list (option Z)
}.

Definition FuncUnit_new : FuncUnit :=
  mkFuncUnit (replicate Num_OpClasses 0) (replicate Num_OpClasses false) (replicate Num_OpClasses false)
    (replicate Num_OpClasses (Some 0)).

(** The copy constructor does not copy [issueLatencies]. *)
Definition FuncUnit_copy (fu : FuncUnit) : FuncUnit :=
  mkFuncUnit (fu_opLatencies fu) (fu_pipelined fu) (fu_capabilityList fu) (replicate Num_OpClasses None).

Definition addCapability (cap : nat) (oplat : Z) (pipeline : bool) (issue_lat : Z) (fu : FuncUnit) : res FuncUnit :=
  if oplat =? 0 then Err Panicked
  else
    let! caps := upd_ (fu_capabilityList fu) cap true in
    let! lats := upd_ (fu_opLatencies fu) cap oplat in
    let! ps := upd_ (fu_pipelined fu) cap pipeline in
    let! iss := upd_ (fu_issueLatencies fu) cap (Some issue_lat) in
    Ok (mkFuncUnit lats ps caps iss).

Definition provides (capability : nat) (fu : FuncUnit) : res bool := nth_ (fu_capabilityList fu) capability.

(** ** The pool *)

(** [FUPool::FUIdxQueue]. *)
Record FUIdxQueue := mkFUIdxQueue { idx : nat; qsize : nat; funcUnitsIdx : list nat }.

Definition FUIdxQueue_new : FUIdxQueue := mkFUIdxQueue 0 0 [].
Definition addFU (fu_idx : nat) (q : FUIdxQueue) : FUIdxQueue :=
  mkFUIdxQueue (idx q) (S (qsize q)) (funcUnitsIdx q ++ [fu_idx]).
Definition getFU (q : FUIdxQueue) : res (nat * FUIdxQueue) :=
  let! retval := nth_ (funcUnitsIdx q) (idx q) in
  let i := S (idx q) in
  Ok (retval, mkFUIdxQueue (if (i =? qsize q)%nat then O else i) (qsize q) (funcUnitsIdx q)).

Record FUPool := mkFUPool {
  maxOpLatencies : list Z; pipelined_ops : list bool; issueLatencies : list Z; capabilityList : list bool;
  unitBusy : list bool;
  unitsToBeFreed : list nat;
  unitsToBeFreedFuture : list (nat * Z);      (* unit_cycles *)
  fuPerCapList : list FUIdxQueue;
  funcUnits : list FuncUnit
}.

Definition numFU (p : FUPool) : nat := length (funcUnits p).

Definition set_busy (p : FUPool) (b : list bool) (qs : list FUIdxQueue) : FUPool :=
  mkFUPool (maxOpLatencies p) (pipelined_ops p) (issueLatencies p) (capabilityList p) b (unitsToBeFreed p)
    (unitsToBeFreedFuture p) qs (funcUnits p).
Definition set_freed (p : FUPool) (l : list nat) (f : list (nat * Z)) : FUPool :=
  mkFUPool (maxOpLatencies p) (pipelined_ops p) (issueLatencies p) (capabilityList p) (unitBusy p) l f
    (fuPerCapList p) (funcUnits p).
Definition set_units (p : FUPool) (fus : list FuncUnit) : FUPool :=
  mkFUPool (maxOpLatencies p) (pipelined_ops p) (issueLatencies p) (capabilityList p) (unitBusy p) (unitsToBeFreed p)
    (unitsToBeFreedFuture p) (fuPerCapList p) fus.

(** One operation of a description, for the units [numFU p] to [numFU p + n - 1]. *)
Definition add_op (n : nat) (d : OpDesc) (pf : FUPool * FuncUnit) : res (FUPool * FuncUnit) :=
  let '(p, fu) := pf in
  let c := opClass d in
  let! caps := upd_ (capabilityList p) c true in
  let! q := nth_ (fuPerCapList p) c in
  let! qs := upd_ (fuPerCapList p) c (foldl (fun q k => addFU (numFU p + k)%nat q) q (seq 0 n)) in
  let! fu := addCapability c (wrap 32 (opLat d)) (op_pipelined d) (wrap 32 (issue_latency d)) fu in
  let! ml := nth_ (maxOpLatencies p) c in
  let! mls := upd_ (maxOpLatencies p) c (if ml <? opLat d then opLat d else ml) in
  let! pl := nth_ (pipelined_ops p) c in
  let! pls := upd_ (pipelined_ops p) c (if negb (op_pipelined d) then false else pl) in
  let! il := nth_ (issueLatencies p) c in
  let! ils := upd_ (issueLatencies p) c (if il <? opLat d then issue_latency d else il) in
  Ok (mkFUPool mls pls ils caps (unitBusy p) (unitsToBeFreed p) (unitsToBeFreedFuture p) qs (funcUnits p), fu).

Fixpoint add_ops (n : nat) (ds : list OpDesc) (pf : FUPool * FuncUnit) : res (FUPool * FuncUnit) :=
  match ds with
  | [] => Ok pf
  | d :: ds => let! pf := add_op n d pf in add_ops n ds pf
  end.

Definition add_desc (d : FUDesc) (p : FUPool) : res FUPool :=
  if (number d =? 0)%nat then Ok p
  else
    let! (p, fu) := add_ops (number d) (opDescList d) (p, FuncUnit_new) in
    Ok (set_units p (funcUnits p ++ fu :: replicate (number d - 1) (FuncUnit_copy fu))).

Fixpoint add_descs (ds : list FUDesc) (p : FUPool) : res FUPool :=
  match ds with
  | [] => Ok p
  | d :: ds => let! p := add_desc d p in add_descs ds p
  end.

Definition empty_pool : FUPool :=
  mkFUPool (replicate Num_OpClasses 0) (replicate Num_OpClasses true) (replicate Num_OpClasses 0)
    (replicate Num_OpClasses false) [] [] [] (replicate Num_OpClasses FUIdxQueue_new) [].

Definition FUPool_new (paramList : list FUDesc) : res FUPool :=
  let! p := add_descs paramList empty_pool in
  Ok (set_busy p (replicate (numFU p) false) (fuPerCapList p)).

(** ** Taking and freeing units *)

Definition NoCapableFU : Z := -2.
Definition NoFreeFU : Z := -1.

(** The search of [getUnit]; the queue has one unit of fuel for each element. *)
Fixpoint get_loop (fuel : nat) (busy : list bool) (start_idx fu_idx : nat) (q : FUIdxQueue) : res (option nat * FUIdxQueue) :=
  let! b := nth_ busy fu_idx in
  if (b : bool) then
    match fuel with
    | O => Err OutOfFuel
    | S fuel =>
        let! (fu_idx, q) := getFU q in
        if (fu_idx =? start_idx)%nat then Ok (None, q) else get_loop fuel busy start_idx fu_idx q
    end
  else Ok (Some fu_idx, q).

Definition getUnit (capability : nat) (p : FUPool) : res (Z * FUPool) :=
  let! cap := nth_ (capabilityList p) capability in
  if negb cap then Ok (NoCapableFU, p)
  else
    let! q := nth_ (fuPerCapList p) capability in
    let! (fu_idx, q) := getFU q in
    let! (r, q) := get_loop (length (funcUnitsIdx q)) (unitBusy p) fu_idx fu_idx q in
    let! qs := upd_ (fuPerCapList p) capability q in
    match r with
    | None => Ok (NoFreeFU, set_busy p (unitBusy p) qs)
    | Some fu_idx =>
        check! (fu_idx <? numFU p)%nat;
        let! busy := upd_ (unitBusy p) fu_idx true in
        Ok (Z.of_nat fu_idx, set_busy p busy qs)
    end.

Definition freeUnitXCycles (fu_idx : nat) (cycles : Z) (p : FUPool) : res FUPool :=
  let! b := nth_ (unitBusy p) fu_idx in
  check! b;
  Ok (set_freed p (unitsToBeFreed p) (unitsToBeFreedFuture p ++ [(fu_idx, cycles)])).

Definition freeUnitNextCycle (fu_idx : nat) (p : FUPool) : res FUPool :=
  let! b := nth_ (unitBusy p) fu_idx in
  check! b;
  Ok (set_freed p (unitsToBeFreed p ++ [fu_idx]) (unitsToBeFreedFuture p)).

(** [l] is [unitsToBeFreed] from its end. *)
Fixpoint free_loop (l : list nat) (busy : list bool) : res (list bool) :=
  match l with
  | [] => Ok busy
  | fu_idx :: l =>
      let! b := nth_ busy fu_idx in
      check! b;
      let! busy := upd_ busy fu_idx false in
      free_loop l busy
  end.
Definition processFreeUnits (p : FUPool) : res FUPool :=
  let! busy := free_loop (reverse (unitsToBeFreed p)) (unitBusy p) in
  Ok (set_freed (set_busy p busy (fuPerCapList p)) [] (unitsToBeFreedFuture p)).

Fixpoint evaluate_loop (l : list (nat * Z)) (freed : list nat) : list nat * list (nat * Z) :=
  match l with
  | [] => (freed, [])
  | (i, cycles) :: l =>
      let cycles := swrap 32 (cycles - 1) in
      if cycles =? 0 then evaluate_loop l (freed ++ [i])
      else let '(freed, l) := evaluate_loop l freed in (freed, (i, cycles) :: l)
  end.
Definition evaluateUnits (p : FUPool) : FUPool :=
  let '(freed, future) := evaluate_loop (unitsToBeFreedFuture p) (unitsToBeFreed p) in set_freed p freed future.

Definition getOpLatency (capability : nat) (p : FUPool) : res Z := nth_ (maxOpLatencies p) capability.
Definition isPipelined (capability : nat) (p : FUPool) : res bool := nth_ (pipelined_ops p) capability.
Definition getOpIssueLatency (capability : nat) (p : FUPool) : res Z := nth_ (issueLatencies p) capability.

Definition isDrained (p : FUPool) : bool := forallb negb (unitBusy p).

(** What IEW does with the pool at the start of a cycle. *)
Definition pool_cycle (p : FUPool) : res FUPool := processFreeUnits (evaluateUnits p).

(** ** The circular queues *)

(** The units in the order in which [getFU] will return them. *)
Definition qview (q : FUIdxQueue) : list nat := drop (idx q) (funcUnitsIdx q) ++ take (idx q) (funcUnitsIdx q).

Record queue_ok (n : nat) (q : FUIdxQueue) : Prop := {
  qo_size : qsize q = length (funcUnitsIdx q);
  qo_idx : idx q = O \/ (idx q < length (funcUnitsIdx q))%nat;
  qo_dup : NoDup (funcUnitsIdx q);
  qo_units : Forall (fun u => u < n)%nat (funcUnitsIdx q)
}.

Lemma qview_perm q : qview q ≡ₚ funcUnitsIdx q.
Proof. unfold qview. rewrite Permutation_app_comm. by rewrite take_drop. Qed.

Lemma getFU_ok n q x r : queue_ok n q -> qview q = x :: r ->
  exists q', getFU q = Ok (x, q') /\ queue_ok n q' /\ qview q' = r ++ [x] /\ funcUnitsIdx q' = funcUnitsIdx q.
Proof.
  intros [Hs Hi Hd Hu] Hv. unfold qview in Hv.
  assert (Hlt : (idx q < length (funcUnitsIdx q))%nat).
  { destruct Hi as [E|]; [|done]. rewrite E, drop_0, take_0, app_nil_r in Hv. rewrite Hv. simpl. lia. }
  destruct (lookup_lt_is_Some_2 _ _ Hlt) as [y Hy]. rewrite (drop_S _ y) in Hv by done. simpl in Hv. injection Hv as <- Hr.
  unfold getFU. rewrite (nth_lookup _ _ _ Hy). cbn [rbind]. eexists. split; [done|]. rewrite Hs.
  set (q' := mkFUIdxQueue _ _ _). assert (Hview : qview q' = r ++ [y]).
  { unfold qview, q'. cbn [idx funcUnitsIdx]. rewrite <- Hr, <- app_assoc, <- (take_S_r _ _ _ Hy).
    destruct (Nat.eqb_spec (S (idx q)) (length (funcUnitsIdx q))) as [E|E]; [|done].
    rewrite drop_0, take_0, app_nil_r, drop_ge, take_ge by lia. done. }
  split; [|done]. split; try done. cbn [idx funcUnitsIdx q']. destruct (Nat.eqb_spec (S (idx q)) (length (funcUnitsIdx q))); lia.
Qed.

(** The first free unit of a list. *)
Fixpoint first_free (busy : list bool) (l : list nat) : option nat :=
  match l with
  | [] => None
  | u :: l => if bool_decide (busy !! u = Some false) then Some u else first_free busy l
  end.

Lemma first_free_Some busy l u : first_free busy l = Some u -> u ∈ l /\ busy !! u = Some false.
Proof. induction l as [|x l IH]; simpl; [done|]. case_bool_decide as Hb; [intros [= ->]; set_solver|]. intros H%IH. set_solver. Qed.

Lemma first_free_split busy l u : first_free busy l = Some u -> busy !! u = Some false /\
  exists pre post, l = pre ++ u :: post /\ forall v, v ∈ pre -> busy !! v <> Some false.
Proof.
  induction l as [|x l IH]; simpl; [done|]. case_bool_decide as Hb.
  - intros [= ->]. split; [done|]. exists [], l. set_solver.
  - intros (Hu & pre & post & -> & Hp)%IH. split; [done|]. exists (x :: pre), post. set_solver.
Qed.

Lemma first_free_None busy l : first_free busy l = None <-> forall u, u ∈ l -> busy !! u <> Some false.
Proof. induction l as [|x l IH]; simpl; [set_solver|]. case_bool_decide as Hb; [|rewrite IH]; set_solver. Qed.

Lemma first_free_app busy l1 l2 : (forall u, u ∈ l1 -> busy !! u <> Some false) -> first_free busy (l1 ++ l2) = first_free busy l2.
Proof. induction l1 as [|x l IH]; simpl; [done|]. intros H. rewrite bool_decide_eq_false_2 by (apply H; set_solver). apply IH. set_solver. Qed.

Lemma get_loop_ok n busy x r : length busy = n -> forall post fuel pre y q, queue_ok n q -> x :: r = pre ++ y :: post ->
  qview q = post ++ pre ++ [y] -> (forall u, u ∈ pre -> busy !! u <> Some false) -> (length post < fuel)%nat ->
  exists q', get_loop fuel busy x y q = Ok (first_free busy (y :: post), q') /\ queue_ok n q' /\ funcUnitsIdx q' = funcUnitsIdx q.
Proof.
  intros Hn. induction post as [|z post IH]; intros fuel pre y q Hq Hl Hv Hpre Hf.
  all: assert (Hy : y ∈ funcUnitsIdx q) by (rewrite <- (qview_perm q), Hv; set_solver).
  all: assert (Hyn : (y < length busy)%nat) by (rewrite Hn; by eapply (proj1 (Forall_forall _ _) (qo_units _ _ Hq))).
  all: destruct (lookup_lt_is_Some_2 _ _ Hyn) as [b Hb]; destruct fuel as [|fuel]; [simpl in Hf; lia|].
  all: cbn [get_loop first_free]; rewrite (nth_lookup _ _ _ Hb); cbn [rbind]; destruct b;
    [rewrite bool_decide_eq_false_2 by congruence|rewrite bool_decide_eq_true_2 by done; eauto].
  - simpl in Hv. assert (Hx : exists s, qview q = x :: s).
    { rewrite Hv. destruct pre as [|p pre]; simpl in *; injection Hl as -> _; eauto. }
    destruct Hx as [s Hs]. destruct (getFU_ok n q x s Hq Hs) as (q' & -> & Hq' & _ & Hu). cbn [rbind].
    rewrite Nat.eqb_refl. eauto.
  - destruct (getFU_ok n q z (post ++ pre ++ [y]) Hq Hv) as (q' & -> & Hq' & Hv' & Hu). cbn [rbind].
    assert (Hxz : z <> x).
    { pose proof (qo_dup _ _ Hq) as Hd. rewrite <- (qview_perm q), Hv in Hd. simpl in Hd. apply NoDup_cons in Hd as [Hz _].
      intros ->. apply Hz. destruct pre as [|p pre]; simpl in *; injection Hl as -> _; set_solver. }
    destruct (Nat.eqb_spec z x) as [|_]; [done|]. destruct (IH fuel (pre ++ [y]) z q' Hq') as (q2 & -> & Hq2 & Hu2).
    + rewrite Hl, <- app_assoc. done.
    + rewrite Hv', <- !app_assoc. done.
    + intros u [| ->%list_elem_of_singleton]%elem_of_app; [auto|congruence].
    + simpl in Hf. lia.
    + exists q2. split; [done|]. by rewrite Hu2, Hu.
Qed.

(** ** The invariant of the pool *)

Record pool_ok (p : FUPool) : Prop := {
  po_lens : length (maxOpLatencies p) = Num_OpClasses /\ length (pipelined_ops p) = Num_OpClasses /\
    length (issueLatencies p) = Num_OpClasses /\ length (capabilityList p) = Num_OpClasses /\ length (fuPerCapList p) = Num_OpClasses;
  po_busy : length (unitBusy p) = numFU p;
  po_queue : forall c q, fuPerCapList p !! c = Some q -> queue_ok (numFU p) q;
  po_cap : forall c q, fuPerCapList p !! c = Some q -> capabilityList p !! c = Some true <-> funcUnitsIdx q <> []
}.

(** The units that somebody is going to free. *)
Definition owed (p : FUPool) : list nat := unitsToBeFreed p ++ map fst (unitsToBeFreedFuture p).

(** Every busy unit is owed exactly once, by the pool or by an event in [pending]. *)
Record pool_inv (p : FUPool) (pending : list nat) : Prop := {
  pi_ok : pool_ok p;
  pi_dup : NoDup (owed p ++ pending);
  pi_busy : forall u, unitBusy p !! u = Some true <-> u ∈ owed p ++ pending;
  pi_cycles : Forall (fun e => 0 < snd e < 2 ^ 31) (unitsToBeFreedFuture p)
}.

(** The units that can do an operation, from the next one on. *)
Definition candidates (p : FUPool) (c : nat) : list nat :=
  match fuPerCapList p !! c with Some q => qview q | None => [] end.

Lemma queue_ok_mono n n' q : (n <= n')%nat -> queue_ok n q -> queue_ok n' q.
Proof. intros Hn [? ? ? Hu]. split; try done. eapply Forall_impl; [exact Hu|]. simpl. lia. Qed.

Lemma getUnit_ok p c : pool_ok p -> (c < Num_OpClasses)%nat -> exists r p', getUnit c p = Ok (r, p') /\ pool_ok p' /\
  unitsToBeFreed p' = unitsToBeFreed p /\ unitsToBeFreedFuture p' = unitsToBeFreedFuture p /\
  maxOpLatencies p' = maxOpLatencies p /\ pipelined_ops p' = pipelined_ops p /\ issueLatencies p' = issueLatencies p /\
  capabilityList p' = capabilityList p /\ numFU p' = numFU p /\ (forall k, candidates p' k ≡ₚ candidates p k) /\
  if bool_decide (candidates p c = []) then r = NoCapableFU /\ p' = p
  else match first_free (unitBusy p) (candidates p c) with
       | Some u => r = Z.of_nat u /\ unitBusy p' = <[u := true]> (unitBusy p)
       | None => r = NoFreeFU /\ unitBusy p' = unitBusy p
       end.
Proof.
  intros H Hc. pose proof (po_lens p H) as (L1 & L2 & L3 & L4 & L5). unfold getUnit.
  destruct (lookup_lt_is_Some_2 (capabilityList p) c) as [cap Hcap]; [lia|].
  destruct (lookup_lt_is_Some_2 (fuPerCapList p) c) as [q Hq]; [lia|]. rewrite (nth_lookup _ _ _ Hcap). cbn [rbind].
  assert (Ec : candidates p c = qview q) by (unfold candidates; by rewrite Hq). rewrite Ec.
  pose proof (po_queue p H c q Hq) as Hqo. pose proof (po_cap p H c q Hq) as Hne. destruct (qview q) as [|x r] eqn:Hv.
  { rewrite bool_decide_eq_true_2 by done. assert (Hnil : funcUnitsIdx q = []) by (apply Permutation_nil_r; rewrite <- (qview_perm q), Hv; done).
    destruct cap; [destruct (proj1 Hne Hcap Hnil)|]. simpl. exists NoCapableFU, p. done. }
  rewrite bool_decide_eq_false_2 by done. assert (Hcons : funcUnitsIdx q <> []).
  { intros E. apply (f_equal length) in Hv. rewrite (Permutation_length (qview_perm q)), E in Hv. done. }
  assert (cap = true) as -> by (apply Hne in Hcons; congruence). cbn [negb]. rewrite (nth_lookup _ _ _ Hq). cbn [rbind].
  destruct (getFU_ok _ q x r Hqo Hv) as (q1 & -> & Hq1 & Hv1 & Hu1). cbn [rbind].
  destruct (get_loop_ok _ (unitBusy p) x r (po_busy p H) r (length (funcUnitsIdx q1)) [] x q1) as (q2 & -> & Hq2 & Hu2); try done.
  { by intros u ?%not_elem_of_nil. }
  { rewrite Hu1, <- (Permutation_length (qview_perm q)), Hv. simpl. lia. }
  cbn [rbind]. rewrite upd_Ok by lia. cbn [rbind].
  assert (Hok : forall b, length b = numFU p -> pool_ok (set_busy p b (<[c := q2]> (fuPerCapList p)))).
  { intros b Hb. split; simpl; rewrite ?length_insert; try done.
    - intros c' q' Hq'. destruct (decide (c' = c)) as [->|]; [rewrite list_lookup_insert_eq in Hq' by lia; by injection Hq' as <-|].
      rewrite list_lookup_insert_ne in Hq' by done. by apply (po_queue p H c').
    - intros c' q' Hq'. destruct (decide (c' = c)) as [->|]; [rewrite list_lookup_insert_eq in Hq' by lia; injection Hq' as <-; by rewrite Hu2, Hu1|].
      rewrite list_lookup_insert_ne in Hq' by done. by apply (po_cap p H c'). }
  assert (Hcand : forall b k, candidates (set_busy p b (<[c := q2]> (fuPerCapList p))) k ≡ₚ candidates p k).
  { intros b k. unfold candidates. simpl. destruct (decide (k = c)) as [->|]; [|by rewrite list_lookup_insert_ne].
    rewrite list_lookup_insert_eq, Hq by lia. by rewrite !qview_perm, Hu2, Hu1. }
  destruct (first_free (unitBusy p) (x :: r)) as [u|] eqn:Hff.
  - destruct (first_free_Some _ _ _ Hff) as [Hin Hfree]. pose proof (lookup_lt_Some _ _ _ Hfree) as Hlt. rewrite (po_busy p H) in Hlt.
    destruct (Nat.ltb_spec u (numFU p)); [|lia]. cbn [assert_ rbind]. rewrite upd_Ok by (by rewrite (po_busy p H)). cbn [rbind].
    eexists _, _. split; [done|]. split; [apply Hok; by rewrite length_insert, (po_busy p H)|].
    split_and!; done || apply Hcand.
  - eexists _, _. split; [done|]. split; [apply Hok, H|]. split_and!; done || apply Hcand.
Qed.

(** ** Freeing *)

Lemma free_loop_ok l : forall busy, NoDup l -> (forall u, u ∈ l -> busy !! u = Some true) -> exists busy', free_loop l busy = Ok busy' /\
  length busy' = length busy /\ (forall u, u ∈ l -> busy' !! u = Some false) /\ (forall u, u ∉ l -> busy' !! u = busy !! u).
Proof.
  induction l as [|x l IH]; intros busy Hd Hb; simpl; [exists busy; set_solver|].
  apply NoDup_cons in Hd as [Hx Hd]. assert (Hbx : busy !! x = Some true) by (apply Hb; by left). rewrite (nth_lookup _ _ _ Hbx).
  cbn [rbind assert_]. rewrite upd_Ok by (by eapply lookup_lt_Some). cbn [rbind]. destruct (IH (<[x := false]> busy)) as (b' & -> & Hlen & Hin & Hout); [done| |].
  { intros u Hu. rewrite list_lookup_insert_ne by set_solver. apply Hb. by right. }
  exists b'. split; [done|]. rewrite length_insert in Hlen. split; [done|]. split.
  - intros u [->|Hu]%elem_of_cons; [|auto]. rewrite Hout by done. apply list_lookup_insert_eq. by eapply lookup_lt_Some.
  - intros u Hu. rewrite Hout by set_solver. apply list_lookup_insert_ne. set_solver.
Qed.

Definition dec (e : nat * Z) : nat * Z := (fst e, snd e - 1).

Lemma evaluate_loop_ok l : forall freed, Forall (fun e => 0 < snd e < 2 ^ 31) l ->
  evaluate_loop l freed = (freed ++ map fst (filter (fun e => snd e = 1) l), map dec (filter (fun e => snd e <> 1) l)).
Proof.
  induction l as [|[i n] l IH]; intros freed Hl; simpl; [by rewrite app_nil_r|]. apply Forall_cons in Hl as [Hn Hl]. simpl in Hn.
  rewrite swrap_small by (unfold in_s; simpl; lia). rewrite !filter_cons. simpl. destruct (Z.eqb_spec (n - 1) 0).
  - rewrite decide_True, (decide_False (P := n <> 1)) by lia. rewrite IH by done. by rewrite <- app_assoc.
  - rewrite decide_False, (decide_True (P := n <> 1)) by lia. by rewrite IH.
Qed.

Lemma filter_partition {A} (P : A -> Prop) `{forall x, Decision (P x)} (l : list A) : filter P l ++ filter (fun x => ~ P x) l ≡ₚ l.
Proof.
  induction l as [|x l IH]; [done|]. rewrite !filter_cons. destruct (decide (P x)).
  - rewrite (decide_False (P := ~ P x)) by tauto. simpl. by rewrite IH.
  - rewrite (decide_True (P := ~ P x)) by done. by rewrite <- Permutation_middle, IH.
Qed.

Lemma pool_cycle_ok p pending : pool_inv p pending -> exists p', pool_cycle p = Ok p' /\ pool_inv p' pending /\
  unitsToBeFreed p' = [] /\ unitsToBeFreedFuture p' = map dec (filter (fun e => snd e <> 1) (unitsToBeFreedFuture p)) /\
  (forall u, u ∈ unitsToBeFreed p ++ map fst (filter (fun e => snd e = 1) (unitsToBeFreedFuture p)) -> unitBusy p' !! u = Some false) /\
  (forall u, u ∉ unitsToBeFreed p ++ map fst (filter (fun e => snd e = 1) (unitsToBeFreedFuture p)) -> unitBusy p' !! u = unitBusy p !! u) /\
  maxOpLatencies p' = maxOpLatencies p /\ pipelined_ops p' = pipelined_ops p /\ issueLatencies p' = issueLatencies p /\
  capabilityList p' = capabilityList p /\ fuPerCapList p' = fuPerCapList p /\ numFU p' = numFU p.
Proof.
  intros [H Hd Hb Hc]. unfold pool_cycle, evaluateUnits. rewrite evaluate_loop_ok by done. unfold processFreeUnits, owed in *. cbn [unitsToBeFreed set_freed unitBusy].
  set (out := unitsToBeFreed p ++ map fst (filter (fun e => snd e = 1) (unitsToBeFreedFuture p))).
  set (stay := map dec (filter (fun e => snd e <> 1) (unitsToBeFreedFuture p))).
  assert (Hp : out ++ map fst stay ++ pending ≡ₚ (unitsToBeFreed p ++ map fst (unitsToBeFreedFuture p)) ++ pending).
  { unfold out, stay. rewrite map_map. simpl. rewrite <- !app_assoc. f_equiv. rewrite app_assoc. f_equiv. rewrite <- (map_app fst).
    by rewrite (filter_partition (fun e => snd e = 1)). }
  rewrite <- Hp in Hd. apply NoDup_app in Hd as (Hd1 & Hd2 & Hd3).
  destruct (free_loop_ok (reverse out) (unitBusy p)) as (b' & -> & Hlen & Hin & Hout).
  { by rewrite reverse_Permutation. }
  { intros u Hu. rewrite elem_of_reverse in Hu. apply Hb. rewrite <- Hp. apply elem_of_app. by left. }
  setoid_rewrite elem_of_reverse in Hin. setoid_rewrite elem_of_reverse in Hout.
  cbn [rbind]. eexists. split; [done|]. split; [|done]. split; simpl.
  - destruct H as [L B Q C]. split; try done. simpl. by rewrite Hlen.
  - done.
  - intros u. destruct (decide (u ∈ out)) as [Hu|Hu].
    + rewrite Hin by done. split; [done|]. intros Hu'. by destruct (Hd2 u Hu).
    + rewrite Hout, Hb, <- Hp, (elem_of_app out) by done. tauto.
  - unfold stay. apply Forall_map, Forall_forall. intros [i n] [Hne Hi]%list_elem_of_filter. simpl in *.
    pose proof (proj1 (Forall_forall _ _) Hc _ Hi). simpl in *. lia.
Qed.

(** [u] is due to be freed [n] cycles from now. *)
Definition due (p : FUPool) (u : nat) (n : Z) : Prop := (n = 1 /\ u ∈ unitsToBeFreed p) \/ (u, n) ∈ unitsToBeFreedFuture p.

Lemma due_busy p pending u n : pool_inv p pending -> due p u n -> unitBusy p !! u = Some true.
Proof.
  intros H [[_ Hu]|Hu]; apply (pi_busy _ _ H); unfold owed; [set_solver|]. apply (list_elem_of_fmap_2 fst) in Hu. simpl in Hu. set_solver.
Qed.

Lemma free_next_ok p u rest pending : pool_inv p pending -> pending ≡ₚ u :: rest -> exists p', freeUnitNextCycle u p = Ok p' /\
  pool_inv p' rest /\ p' = set_freed p (unitsToBeFreed p ++ [u]) (unitsToBeFreedFuture p).
Proof.
  intros [H Hd Hb Hc] Hp. unfold freeUnitNextCycle. rewrite (nth_lookup _ _ true) by (apply Hb; rewrite Hp; set_solver). cbn [rbind assert_].
  eexists. split; [done|]. split; [|done]. unfold owed in *. rewrite Hp in Hd.
  assert (Hq : ((unitsToBeFreed p ++ [u]) ++ map fst (unitsToBeFreedFuture p)) ++ rest ≡ₚ (unitsToBeFreed p ++ map fst (unitsToBeFreedFuture p)) ++ u :: rest).
  { rewrite <- !app_assoc. f_equiv. simpl. by rewrite <- Permutation_middle. }
  split; unfold owed; simpl; [by destruct H|by rewrite Hq| |done]. intros v. by rewrite Hq, Hb, Hp.
Qed.

Lemma free_x_ok p u n rest pending : pool_inv p pending -> pending ≡ₚ u :: rest -> 0 < n < 2 ^ 31 -> exists p', freeUnitXCycles u n p = Ok p' /\
  pool_inv p' rest /\ p' = set_freed p (unitsToBeFreed p) (unitsToBeFreedFuture p ++ [(u, n)]).
Proof.
  intros [H Hd Hb Hc] Hp Hn. unfold freeUnitXCycles. rewrite (nth_lookup _ _ true) by (apply Hb; rewrite Hp; set_solver). cbn [rbind assert_].
  eexists. split; [done|]. split; [|done]. unfold owed in *. rewrite Hp in Hd.
  assert (Hq : (unitsToBeFreed p ++ map fst (unitsToBeFreedFuture p ++ [(u, n)])) ++ rest ≡ₚ (unitsToBeFreed p ++ map fst (unitsToBeFreedFuture p)) ++ u :: rest).
  { rewrite map_app, <- !app_assoc. done. }
  split; unfold owed; simpl; [by destruct H|by rewrite Hq| |]; [intros v; by rewrite Hq, Hb, Hp|]. apply Forall_app. split; [done|]. by apply Forall_singleton.
Qed.

Lemma getUnit_inv p c pending : pool_inv p pending -> (c < Num_OpClasses)%nat -> exists r p', getUnit c p = Ok (r, p') /\
  pool_inv p' (if 0 <=? r then Z.to_nat r :: pending else pending) /\
  unitsToBeFreed p' = unitsToBeFreed p /\ unitsToBeFreedFuture p' = unitsToBeFreedFuture p.
Proof.
  intros [H Hd Hb Hc] Hlt. destruct (getUnit_ok p c H Hlt) as (r & p' & -> & H' & Hf & Hff & _ & _ & _ & _ & _ & _ & Hr). exists r, p'. split; [done|].
  split; [|done]. assert (Ho : owed p' = owed p) by (unfold owed; by rewrite Hf, Hff).
  assert (Hsame : unitBusy p' = unitBusy p -> pool_inv p' pending).
  { intros Hs. split; rewrite ?Ho, ?Hff; try done. by rewrite Hs. }
  destruct (bool_decide _); [destruct Hr as [-> ->]; by apply Hsame|]. destruct (first_free _ _) as [u|] eqn:Hff'; destruct Hr as [-> Hbusy]; [|by apply Hsame].
  destruct (Z.leb_spec 0 (Z.of_nat u)); [|lia]. rewrite Nat2Z.id. apply first_free_Some in Hff' as [_ Hfree].
  split; rewrite ?Ho, ?Hff; try done.
  - rewrite <- Permutation_middle. apply NoDup_cons. split; [|done]. rewrite <- Hb. congruence.
  - intros v. rewrite Hbusy, <- Permutation_middle. destruct (decide (v = u)) as [->|].
    + rewrite list_lookup_insert_eq by (by eapply lookup_lt_Some). set_solver.
    + rewrite list_lookup_insert_ne by done. rewrite Hb. set_solver.
Qed.

(** ** Construction *)

(** The units for an operation class, from the descriptions. *)
Fixpoint capable (c start : nat) (ds : list FUDesc) : list nat :=
  match ds with
  | [] => []
  | d :: ds => (if bool_decide (c ∈ map opClass (opDescList d)) then seq start (number d) else []) ++ capable c (start + number d) ds
  end.

Definition op_valid (o : OpDesc) : Prop := (opClass o < Num_OpClasses)%nat /\ wrap 32 (opLat o) <> 0.
Definition desc_valid (d : FUDesc) : Prop := Forall op_valid (opDescList d) /\ NoDup (map opClass (opDescList d)).

Record built (p : FUPool) (L : nat -> list nat) : Prop := {
  bu_lens : length (maxOpLatencies p) = Num_OpClasses /\ length (pipelined_ops p) = Num_OpClasses /\
    length (issueLatencies p) = Num_OpClasses /\ length (capabilityList p) = Num_OpClasses /\ length (fuPerCapList p) = Num_OpClasses;
  bu_queue : forall c, (c < Num_OpClasses)%nat -> fuPerCapList p !! c = Some (mkFUIdxQueue 0 (length (L c)) (L c));
  bu_cap : forall c, (c < Num_OpClasses)%nat -> capabilityList p !! c = Some (bool_decide (L c <> []));
  bu_free : unitsToBeFreed p = [] /\ unitsToBeFreedFuture p = []
}.

Definition unit_built (fu : FuncUnit) : Prop :=
  length (fu_opLatencies fu) = Num_OpClasses /\ length (fu_pipelined fu) = Num_OpClasses /\
  length (fu_capabilityList fu) = Num_OpClasses /\ length (fu_issueLatencies fu) = Num_OpClasses.

Lemma fold_addFU b n : forall k q, foldl (fun q k => addFU (b + k)%nat q) q (seq k n) =
  mkFUIdxQueue (idx q) (qsize q + n) (funcUnitsIdx q ++ seq (b + k) n).
Proof.
  induction n as [|n IH]; intros k [i s l]; simpl; [by rewrite app_nil_r, Nat.add_0_r|]. rewrite IH. simpl.
  rewrite <- app_assoc. simpl. by rewrite Nat.add_succ_r, Nat.add_succ_r.
Qed.

Lemma add_op_ok n d p fu L : (0 < n)%nat -> op_valid d -> built p L -> unit_built fu -> exists p' fu', add_op n d (p, fu) = Ok (p', fu') /\
  built p' (fun c => L c ++ if bool_decide (c = opClass d) then seq (numFU p) n else []) /\ unit_built fu' /\ funcUnits p' = funcUnits p.
Proof.
  intros Hn [Hc Hlat] [(L1 & L2 & L3 & L4 & L5) Hq Hcap Hfr] (U1 & U2 & U3 & U4). unfold add_op. rewrite upd_Ok by lia. cbn [rbind].
  rewrite (nth_lookup _ _ _ (Hq _ Hc)). cbn [rbind]. rewrite upd_Ok by lia. cbn [rbind]. unfold addCapability.
  destruct (Z.eqb_spec (wrap 32 (opLat d)) 0); [done|]. rewrite !upd_Ok by lia. cbn [rbind].
  destruct (nth_Ok (maxOpLatencies p) (opClass d)) as (ml & -> & _); [lia|]. cbn [rbind]. rewrite !upd_Ok by lia. cbn [rbind].
  destruct (nth_Ok (pipelined_ops p) (opClass d)) as (pl & -> & _); [lia|]. cbn [rbind]. rewrite !upd_Ok by lia. cbn [rbind].
  destruct (nth_Ok (issueLatencies p) (opClass d)) as (il & -> & _); [lia|]. cbn [rbind]. rewrite !upd_Ok by lia. cbn [rbind].
  eexists _, _. split; [done|]. split; [|split; [|done]]; [|by unfold unit_built; simpl; rewrite !length_insert].
  split; cbn; rewrite ?length_insert; try done; intros c Hlt.
  - destruct (decide (c = opClass d)) as [->|Hne].
    + rewrite list_lookup_insert_eq, bool_decide_eq_true_2 by (done || lia). rewrite fold_addFU. simpl. by rewrite length_app, length_seq, Nat.add_0_r.
    + rewrite list_lookup_insert_ne, bool_decide_eq_false_2, app_nil_r by done. by apply Hq.
  - destruct (decide (c = opClass d)) as [->|Hne].
    + rewrite list_lookup_insert_eq, (bool_decide_eq_true_2 (opClass d = _)) by (done || lia). rewrite bool_decide_eq_true_2; [done|].
      intros E%app_eq_nil. destruct n; [lia|]. by destruct E.
    + rewrite list_lookup_insert_ne, (bool_decide_eq_false_2 (c = _)), app_nil_r by done. by apply Hcap.
Qed.

Lemma built_ext p L L' : (forall c, L c = L' c) -> built p L -> built p L'.
Proof. intros E [H1 H2 H3 H4]. split; try done; intros c Hc; rewrite <- E; auto. Qed.

Lemma add_ops_ok n ds : (0 < n)%nat -> Forall op_valid ds -> NoDup (map opClass ds) -> forall p fu L, built p L -> unit_built fu ->
  exists p' fu', add_ops n ds (p, fu) = Ok (p', fu') /\
    built p' (fun c => L c ++ if bool_decide (c ∈ map opClass ds) then seq (numFU p) n else []) /\ funcUnits p' = funcUnits p.
Proof.
  intros Hn Hv. induction Hv as [|d ds Hd Hv IH]; intros Hnd p fu L Hb Hu; cbn [add_ops].
  { exists p, fu. split; [done|]. split; [|done]. eapply built_ext; [|exact Hb]. intros c. simpl. by rewrite app_nil_r. }
  apply NoDup_cons in Hnd as [Hni Hnd]. destruct (add_op_ok n d p fu L Hn Hd Hb Hu) as (p1 & fu1 & -> & Hb1 & Hu1 & Hf1). cbn [rbind].
  destruct (IH Hnd p1 fu1 _ Hb1 Hu1) as (p2 & fu2 & -> & Hb2 & Hf2). exists p2, fu2. split; [done|]. split; [|congruence].
  eapply built_ext; [|exact Hb2]. intros c. simpl. rewrite <- app_assoc. f_equal. unfold numFU. rewrite Hf1.
  destruct (decide (c = opClass d)) as [->|Hne].
  - rewrite (bool_decide_eq_true_2 (opClass d = _)), (bool_decide_eq_false_2 (_ ∈ map opClass ds)), bool_decide_eq_true_2 by (done || by left).
    apply app_nil_r.
  - rewrite (bool_decide_eq_false_2 (c = _)) by done. simpl. destruct (decide (c ∈ map opClass ds)).
    + rewrite !bool_decide_eq_true_2 by (done || by right). done.
    + rewrite !bool_decide_eq_false_2 by (done || by intros [?|?]%elem_of_cons). done.
Qed.

Lemma add_descs_ok ds : Forall desc_valid ds -> forall p L, built p L -> exists p', add_descs ds p = Ok p' /\
  built p' (fun c => L c ++ capable c (numFU p) ds) /\ numFU p' = (numFU p + list_sum (map number ds))%nat.
Proof.
  induction 1 as [|d ds [Hv Hnd] _ IH]; intros p L Hb; simpl.
  { exists p. split; [done|]. split; [|lia]. eapply built_ext; [|exact Hb]. intros c. simpl. by rewrite app_nil_r. }
  unfold add_desc. destruct (Nat.eqb_spec (number d) 0) as [Hz|Hz]; cbn [rbind].
  { destruct (IH p L Hb) as (p' & -> & Hb' & Hn). exists p'. split; [done|]. split; [|lia]. eapply built_ext; [|exact Hb'].
    intros c. simpl. rewrite Hz, Nat.add_0_r. by case_bool_decide. }
  destruct (add_ops_ok (number d) (opDescList d) ltac:(lia) Hv Hnd p FuncUnit_new L Hb) as (p1 & fu & -> & Hb1 & Hf1).
  { done. }
  cbn [rbind]. set (p2 := set_units p1 _). destruct (IH p2 (fun c => L c ++ if bool_decide (c ∈ map opClass (opDescList d)) then seq (numFU p) (number d) else []))
    as (p' & -> & Hb' & Hn); [by destruct Hb1|].
  assert (Hn2 : numFU p2 = (numFU p + number d)%nat).
  { unfold numFU, p2. simpl. rewrite length_app, Hf1. simpl. rewrite length_replicate. lia. }
  exists p'. split; [done|]. split; [|lia]. eapply built_ext; [|exact Hb']. intros c. cbn beta. by rewrite <- app_assoc, Hn2.
Qed.

Lemma capable_range c ds : forall start, Forall (fun u => start <= u < start + list_sum (map number ds))%nat (capable c start ds).
Proof.
  induction ds as [|d ds IH]; intros start; simpl; [done|]. apply Forall_app. split.
  - case_bool_decide; [|done]. apply Forall_forall. intros u Hu%elem_of_seq. lia.
  - eapply Forall_impl; [apply IH|]. simpl. lia.
Qed.

Lemma capable_NoDup c ds : forall start, NoDup (capable c start ds).
Proof.
  induction ds as [|d ds IH]; intros start; simpl; [constructor|]. apply NoDup_app. split; [case_bool_decide; [apply NoDup_seq|constructor]|].
  split; [|apply IH]. intros u Hu Hu2. pose proof (proj1 (Forall_forall _ _) (capable_range c ds (start + number d)) _ Hu2) as Hr.
  case_bool_decide; [|by apply not_elem_of_nil in Hu]. apply elem_of_seq in Hu. simpl in Hr. lia.
Qed.

Lemma FUPool_new_ok ds : Forall desc_valid ds -> exists p, FUPool_new ds = Ok p /\ pool_inv p [] /\ numFU p = list_sum (map number ds) /\
  isDrained p = true /\ forall c, (c < Num_OpClasses)%nat -> candidates p c = capable c 0 ds.
Proof.
  intros Hv. assert (Hb0 : built empty_pool (fun _ => [])).
  { split; simpl; try done; intros c Hc; by apply (lookup_replicate_2 74). }
  unfold FUPool_new. destruct (add_descs_ok ds Hv empty_pool _ Hb0) as (p & -> & [Hl Hq Hcap [Hf1 Hf2]] & Hn). cbn [rbind]. eexists. split; [done|].
  simpl in Hq, Hcap, Hn. assert (Hnum : numFU p = list_sum (map number ds)) by done. split; [|split; [done|]].
  - split; unfold owed; simpl; rewrite ?Hf1, ?Hf2; try done; [|constructor|].
    2: { intros u. split; [|by intros ?%not_elem_of_nil]. intros [[= ] _]%lookup_replicate. }
    split; simpl; [done|by rewrite length_replicate| |].
    + intros c q Hcq. pose proof (lookup_lt_Some _ _ _ Hcq) as Hlt. destruct Hl as (_ & _ & _ & _ & Hl5). rewrite Hl5 in Hlt.
      rewrite Hq in Hcq by done. injection Hcq as <-. split; simpl; [done|by left|apply capable_NoDup|].
      eapply Forall_impl; [apply (capable_range c ds 0)|]. unfold numFU in *. simpl. lia.
    + intros c q Hcq. pose proof (lookup_lt_Some _ _ _ Hcq) as Hlt. destruct Hl as (_ & _ & _ & _ & Hl5). rewrite Hl5 in Hlt.
      rewrite Hq in Hcq by done. injection Hcq as <-. rewrite Hcap by done. simpl. split; [by intros [= H%bool_decide_eq_true]|].
      intros H. by rewrite bool_decide_eq_true_2.
  - split.
    + unfold isDrained. apply forallb_forall. intros b Hb%list_elem_of_In. simpl in Hb. by apply elem_of_replicate in Hb as [-> _].
    + intros c Hc. unfold candidates. simpl. rewrite Hq by done. unfold qview. simpl. by rewrite drop_0, app_nil_r.
Qed.

(** ** Runs *)

(** What happens to the pool during a number of cycles; [pending] are the units held
    by operations that have not come to freeing them. *)
Inductive fu_run : nat -> FUPool * list nat -> FUPool * list nat -> Prop :=
| fr_done s : fu_run 0 s s
| fr_get k c p pending r p' s : (c < Num_OpClasses)%nat -> getUnit c p = Ok (r, p') ->
    fu_run k (p', if 0 <=? r then Z.to_nat r :: pending else pending) s -> fu_run k (p, pending) s
| fr_next k u p pending rest p' s : pending ≡ₚ u :: rest -> freeUnitNextCycle u p = Ok p' -> fu_run k (p', rest) s -> fu_run k (p, pending) s
| fr_x k u n p pending rest p' s : pending ≡ₚ u :: rest -> 0 < n < 2 ^ 31 -> freeUnitXCycles u n p = Ok p' ->
    fu_run k (p', rest) s -> fu_run k (p, pending) s
| fr_cycle k p pending p' s : pool_cycle p = Ok p' -> fu_run k (p', pending) s -> fu_run (S k) (p, pending) s.

Lemma due_cycle p pending p' u n : pool_inv p pending -> pool_cycle p = Ok p' -> due p u n -> n <> 1 -> due p' u (n - 1).
Proof.
  intros H E Hdue Hn. destruct (pool_cycle_ok p pending H) as (p2 & E2 & _ & _ & Hf & _). rewrite E in E2. injection E2 as <-.
  destruct Hdue as [[? _]|Hin]; [done|]. right. rewrite Hf. apply (list_elem_of_fmap_2 dec _ (u, n)). by apply list_elem_of_filter.
Qed.

Lemma due_freed p pending p' u : pool_inv p pending -> pool_cycle p = Ok p' -> due p u 1 -> unitBusy p' !! u = Some false.
Proof.
  intros H E Hdue. destruct (pool_cycle_ok p pending H) as (p2 & E2 & _ & _ & _ & Hin & _). rewrite E in E2. injection E2 as <-. apply Hin.
  apply elem_of_app. destruct Hdue as [[_ Hu]|Hu]; [by left|right]. apply (list_elem_of_fmap_2 fst _ (u, 1)). by apply list_elem_of_filter.
Qed.

Lemma due_positive p pending u n : pool_inv p pending -> due p u n -> 0 < n.
Proof. intros H [[-> _]|Hu]; [lia|]. pose proof (proj1 (Forall_forall _ _) (pi_cycles _ _ H) _ Hu). simpl in *. lia. Qed.

Lemma run_due k s s' : fu_run k s s' -> forall u n, pool_inv (fst s) (snd s) -> due (fst s) u n -> Z.of_nat k < n ->
  pool_inv (fst s') (snd s') /\ due (fst s') u (n - Z.of_nat k).
Proof.
  induction 1 as [s|k c p pending r p' s Hc E _ IH|k u' p pending rest p' s Hp E _ IH|k u' m p pending rest p' s Hp Hm E _ IH|k p pending p' s E _ IH];
    intros u n H Hdue Hk; simpl in *.
  - by rewrite Z.sub_0_r.
  - destruct (getUnit_inv p c pending H Hc) as (r2 & p2 & E2 & H2 & Hf & Hff). rewrite E in E2. injection E2 as <- <-.
    apply IH; try done. unfold due. by rewrite Hf, Hff.
  - destruct (free_next_ok p u' rest pending H Hp) as (p2 & E2 & H2 & Hf). rewrite E in E2. injection E2 as <-.
    apply IH; try done. rewrite Hf. unfold due in *. simpl. set_solver.
  - destruct (free_x_ok p u' m rest pending H Hp Hm) as (p2 & E2 & H2 & Hf). rewrite E in E2. injection E2 as <-.
    apply IH; try done. rewrite Hf. unfold due in *. simpl. set_solver.
  - destruct (pool_cycle_ok p pending H) as (p2 & E2 & H2 & _). rewrite E in E2. injection E2 as <-.
    replace (n - Z.of_nat (S k)) with (n - 1 - Z.of_nat k) by lia. apply IH; [done| |lia]. apply (due_cycle p pending p' u n H E Hdue). lia.
Qed.

(** ** Theorems *)

(** C32: [getUnit] finds a unit whenever there is one.  It answers [NoCapableFU]
    exactly when no unit can do the operation and [NoFreeFU] exactly when all that can
    are busy; otherwise the unit is the first free one of the circular queue, it becomes
    busy and no other unit changes.  The books of the pool stay right. *)
Theorem getUnit_correct p pending c : pool_inv p pending -> (c < Num_OpClasses)%nat -> exists r p', getUnit c p = Ok (r, p') /\
  pool_inv p' (if 0 <=? r then Z.to_nat r :: pending else pending) /\
  (r = NoCapableFU <-> candidates p c = []) /\
  (r = NoFreeFU <-> candidates p c <> [] /\ forall u, u ∈ candidates p c -> unitBusy p !! u <> Some false) /\
  (forall u, r = Z.of_nat u -> unitBusy p !! u = Some false /\ unitBusy p' = <[u := true]> (unitBusy p) /\
     exists pre post, candidates p c = pre ++ u :: post /\ forall v, v ∈ pre -> unitBusy p !! v <> Some false) /\
  (r < 0 -> unitBusy p' = unitBusy p).
Proof.
  intros H Hc. destruct (getUnit_inv p c pending H Hc) as (r & p' & E & H' & _). exists r, p'. split; [done|]. split; [done|].
  destruct (getUnit_ok p c (pi_ok _ _ H) Hc) as (r2 & p2 & E2 & _ & _ & _ & _ & _ & _ & _ & _ & _ & Hr). rewrite E in E2. injection E2 as <- <-.
  unfold NoCapableFU, NoFreeFU in *. case_bool_decide as Hn.
  { destruct Hr as [-> ->]. do 2 (split; [split; [done || lia|by intros [] || done]|]). split; [intros u; lia|done]. }
  destruct (first_free _ _) as [u|] eqn:Hff; destruct Hr as [-> Hb].
  - destruct (first_free_split _ _ _ Hff) as (Hfree & pre & post & Hsp & Hpre). split; [split; [lia|done]|]. split.
    { split; [lia|]. intros [_ Hall]. exfalso. apply (Hall u); [rewrite Hsp; set_solver|done]. }
    split; [|lia]. intros v <-%Nat2Z.inj. split; [done|]. split; [done|]. by exists pre, post.
  - pose proof (proj1 (first_free_None _ _) Hff). split; [split; [lia|done]|]. split; [done|]. split; [intros u; lia|done].
Qed.

(** C31: a unit is busy for exactly as long as it was asked for.  Whatever else the
    pool does, a unit that is to be freed after [n] cycles stays busy for fewer than [n]
    cycles, and the [n]-th cycle frees it; [freeUnitNextCycle] is the case of one
    cycle. *)
Theorem units_freed_on_time p pending rest u n : pool_inv p pending -> pending ≡ₚ u :: rest -> 0 < n < 2 ^ 31 ->
  is_ok (freeUnitXCycles u n p) = true /\ is_ok (freeUnitNextCycle u p) = true /\
  forall p1, freeUnitXCycles u n p = Ok p1 \/ (n = 1 /\ freeUnitNextCycle u p = Ok p1) ->
    forall k p2 pending2, fu_run k (p1, rest) (p2, pending2) -> Z.of_nat k < n ->
      unitBusy p2 !! u = Some true /\
      (Z.of_nat k = n - 1 -> exists p3, pool_cycle p2 = Ok p3 /\ unitBusy p3 !! u = Some false).
Proof.
  intros H Hp Hn. destruct (free_x_ok p u n rest pending H Hp Hn) as (px & Ex & Hx & Hfx).
  destruct (free_next_ok p u rest pending H Hp) as (pn & En & Hn1 & Hfn). rewrite Ex, En. split; [done|]. split; [done|]. intros p1 Hp1.
  assert (Hstart : pool_inv p1 rest /\ due p1 u n).
  { destruct Hp1 as [[= <-]|[-> [= <-]]]; (split; [done|]); [right|left]; [rewrite Hfx|rewrite Hfn]; simpl; set_solver. }
  destruct Hstart as [H1 Hdue]. intros k p2 pending2 Hrun Hk. destruct (run_due _ _ _ Hrun u n H1 Hdue Hk) as [H2 Hdue2]. simpl in *.
  split; [by eapply due_busy|]. intros Hlast. destruct (pool_cycle_ok p2 pending2 H2) as (p3 & E3 & _). exists p3. split; [done|].
  eapply due_freed; [done|done|]. by replace 1 with (n - Z.of_nat k) by lia.
Qed.

(** ** A small pool *)

Module SmallPool.

(** Two integer units and a divider that is not pipelined. *)
Definition descs : list FUDesc := [mkFUDesc [mkOpDesc 1 1 true 1] 2; mkFUDesc [mkOpDesc 2 3 true 1; mkOpDesc 3 20 false 1] 1].

Lemma descs_valid : Forall desc_valid descs.
Proof. repeat constructor; simpl; unfold op_valid, wrap; simpl; try lia; set_solver. Qed.

End SmallPool.

Lemma getUnit_correct_witness : exists p, FUPool_new SmallPool.descs = Ok p /\
  exists r p', getUnit 1 p = Ok (r, p') /\ (r = NoFreeFU <-> candidates p 1 <> [] /\ forall u, u ∈ candidates p 1 -> unitBusy p !! u <> Some false).
Proof.
  destruct (FUPool_new_ok SmallPool.descs SmallPool.descs_valid) as (p & E & H & _). exists p. split; [exact E|].
  destruct (getUnit_correct p [] 1 H ltac:(unfold Num_OpClasses; lia)) as (r & p' & E' & _ & _ & Hr & _). exists r, p'. split; [exact E'|exact Hr].
Defined.

Lemma units_freed_on_time_witness : exists p p1 p2, FUPool_new SmallPool.descs = Ok p /\ getUnit 3 p = Ok (2, p1) /\
  freeUnitXCycles 2 20 p1 = Ok p2 /\ unitBusy p2 !! 2%nat = Some true.
Proof.
  destruct (FUPool_new_ok SmallPool.descs SmallPool.descs_valid) as (p & E & H & _).
  destruct (getUnit_inv p 3 [] H ltac:(unfold Num_OpClasses; lia)) as (r & p1 & E1 & H1 & _).
  assert (Hr : r = 2) by (vm_compute in E; injection E as <-; vm_compute in E1; injection E1; congruence). subst r.
  destruct (units_freed_on_time p1 [2%nat] [] 2 20 H1) as (Hok & _ & Hrun); [done|lia|].
  destruct (freeUnitXCycles 2 20 p1) as [p2|] eqn:E2; [|discriminate Hok].
  exists p, p1, p2. split; [exact E|]. split; [exact E1|]. split; [exact E2|].
  apply (Hrun p2 (or_introl eq_refl) 0%nat p2 [] (fr_done _)). lia.
Defined.
