(* ===== verification/DepGraph.v ===== *)
(** * The dependency graph of the instruction queue

    [cpu/o3/dep_graph.hh]: for every physical register the instruction that will
    produce its value and a linked list of the instructions that wait for it.  The
    nodes of the lists are objects in a heap and the operations follow and write their
    pointers; the theorems relate them to plain lists.  An instruction is the number
    it has in program order, [seqNum], which is different for every instruction. *)

From Stdlib Require Import ZArith Lia Bool.
From stdpp Require Import base tactics option list numbers gmap.
From S2P Require Import Prelude.
Open Scope Z_scope.

(** ** Nodes *)

(** [DependencyEntry]. *)
Record DepEntry := mkDepEntry { dep_inst : option Z; next : option positive }.

Record DependencyGraph := mkDependencyGraph {
  dependGraph : list DepEntry;               (* the head nodes *)
  nodes : gmap positive DepEntry;            (* the nodes made by [new] *)
  memAllocCounter : Z                        (* unsigned *)
}.

Definition set_graph (g : DependencyGraph) (l : list DepEntry) : DependencyGraph := mkDependencyGraph l (nodes g) (memAllocCounter g).

Definition DependencyGraph_new : DependencyGraph := mkDependencyGraph [] ∅ 0.

Definition resize (num_entries : nat) (g : DependencyGraph) : DependencyGraph :=
  set_graph g (list.resize num_entries (mkDepEntry None None) (dependGraph g)).

Definition insert (i : nat) (new_inst : Z) (g : DependencyGraph) : res DependencyGraph :=
  let! e := nth_ (dependGraph g) i in
  let new_entry := fresh (dom (nodes g)) in
  let! l := upd_ (dependGraph g) i (mkDepEntry (dep_inst e) (Some new_entry)) in
  Ok (mkDependencyGraph l (<[new_entry := mkDepEntry (Some new_inst) (next e)]> (nodes g)) (wrap 32 (memAllocCounter g + 1))).

Definition setInst (i : nat) (new_inst : Z) (g : DependencyGraph) : res DependencyGraph :=
  let! e := nth_ (dependGraph g) i in
  let! l := upd_ (dependGraph g) i (mkDepEntry (Some new_inst) (next e)) in Ok (set_graph g l).
Definition clearInst (i : nat) (g : DependencyGraph) : res DependencyGraph :=
  let! e := nth_ (dependGraph g) i in
  let! l := upd_ (dependGraph g) i (mkDepEntry None (next e)) in Ok (set_graph g l).

(** The search of [remove] from [curr]; [prev] is [None] at the head node. *)
Fixpoint remove_loop (fuel : nat) (h : gmap positive DepEntry) (inst_to_remove : Z) (prev : option positive) (curr : positive) :
    res (option positive * positive) :=
  let! c := deref (h !! curr) in
  if bool_decide (dep_inst c = Some inst_to_remove) then Ok (prev, curr)
  else
    match fuel with
    | O => Err OutOfFuel
    | S fuel =>
        match next c with
        | None => Err AssertFailed
        | Some n => remove_loop fuel h inst_to_remove (Some curr) n
        end
    end.

Definition remove (i : nat) (inst_to_remove : Z) (g : DependencyGraph) : res DependencyGraph :=
  let! e := nth_ (dependGraph g) i in
  match next e with
  | None => Ok g
  | Some curr =>
      let! (prev, curr) := remove_loop (size (nodes g)) (nodes g) inst_to_remove None curr in
      let! c := deref (nodes g !! curr) in
      let! (l, h) := (match prev with
        | None => let! l := upd_ (dependGraph g) i (mkDepEntry (dep_inst e) (next c)) in Ok (l, nodes g)
        | Some p => let! pe := deref (nodes g !! p) in Ok (dependGraph g, <[p := mkDepEntry (dep_inst pe) (next c)]> (nodes g))
        end) in
      Ok (mkDependencyGraph l (delete curr h) (wrap 32 (memAllocCounter g - 1)))
  end.

Definition pop (i : nat) (g : DependencyGraph) : res (option Z * DependencyGraph) :=
  let! e := nth_ (dependGraph g) i in
  match next e with
  | None => Ok (None, g)
  | Some n =>
      let! node := deref (nodes g !! n) in
      let! l := upd_ (dependGraph g) i (mkDepEntry (dep_inst e) (next node)) in
      Ok (dep_inst node, mkDependencyGraph l (delete n (nodes g)) (wrap 32 (memAllocCounter g - 1)))
  end.

Definition empty_at (i : nat) (g : DependencyGraph) : res bool :=
  let! e := nth_ (dependGraph g) i in Ok (bool_decide (next e = None)).
Definition empty (g : DependencyGraph) : bool := forallb (fun e => bool_decide (next e = None)) (dependGraph g).

(** The walk of [reset] over one list. *)
Fixpoint reset_loop (fuel : nat) (curr : option positive) (h : gmap positive DepEntry) (n : Z) : res (gmap positive DepEntry * Z) :=
  match curr with
  | None => Ok (h, n)
  | Some p =>
      match fuel with
      | O => Err OutOfFuel
      | S fuel => let! e := deref (h !! p) in reset_loop fuel (next e) (delete p h) (wrap 32 (n - 1))
      end
  end.
Fixpoint reset_all (l : list DepEntry) (h : gmap positive DepEntry) (n : Z) : res (gmap positive DepEntry * Z) :=
  match l with
  | [] => Ok (h, n)
  | e :: l => let! (h, n) := reset_loop (size h) (next e) h n in reset_all l h n
  end.
Definition reset (g : DependencyGraph) : res DependencyGraph :=
  let! (h, n) := reset_all (dependGraph g) (nodes g) (memAllocCounter g) in
  Ok (mkDependencyGraph (map (fun _ => mkDepEntry None None) (dependGraph g)) h n).

(** ** Representation *)

(** From [p] the nodes [ids] hold the instructions [l]. *)
Fixpoint is_chain (h : gmap positive DepEntry) (p : option positive) (ids : list positive) (l : list Z) : Prop :=
  match ids, l with
  | [], [] => p = None
  | a :: ids, x :: l => p = Some a /\ exists n, h !! a = Some (mkDepEntry (Some x) n) /\ is_chain h n ids l
  | _, _ => False
  end.

(** Every register has its producer and the list of the instructions that wait, and
    every node of the heap is in one list. *)
Record rep_with (g : DependencyGraph) (cs : list (option Z * list Z)) (idss : list (list positive)) : Prop := {
  rp_len : length (dependGraph g) = length cs /\ length idss = length cs;
  rp_chain : forall i e c ids, dependGraph g !! i = Some e -> cs !! i = Some c -> idss !! i = Some ids ->
    dep_inst e = fst c /\ is_chain (nodes g) (next e) ids (snd c);
  rp_dup : NoDup (concat idss);
  rp_dom : forall p, p ∈ concat idss <-> is_Some (nodes g !! p);
  rp_count : memAllocCounter g = wrap 32 (Z.of_nat (length (concat idss)))
}.
Definition rep (g : DependencyGraph) (cs : list (option Z * list Z)) : Prop := exists idss, rep_with g cs idss.

Lemma is_chain_frame h h' ids : forall p l, is_chain h p ids l -> (forall a, a ∈ ids -> h' !! a = h !! a) -> is_chain h' p ids l.
Proof.
  induction ids as [|a ids IH]; intros p [|x l]; simpl; try done. intros [-> (n & Ha & Hc)] Hf. split; [done|]. exists n.
  rewrite Hf by set_solver. split; [done|]. apply IH; [done|]. set_solver.
Qed.

Lemma is_chain_length h ids : forall p l, is_chain h p ids l -> length ids = length l.
Proof. induction ids as [|a ids IH]; intros p [|x l]; simpl; try done. intros [-> (n & _ & Hc)]. f_equal. eauto. Qed.

Lemma concat_delete {A} (ls : list (list A)) i l : ls !! i = Some l -> concat ls ≡ₚ l ++ concat (delete i ls).
Proof.
  revert i. induction ls as [|a ls IH]; intros [|i] H; simplify_eq/=; [done|]. rewrite (IH i H), !app_assoc. f_equiv. apply Permutation_app_comm.
Qed.

Lemma delete_insert {A} (l : list A) : forall i x, delete i (<[i := x]> l) = delete i l.
Proof. induction l as [|a l IH]; intros [|i] x; simpl; [done..|]. by rewrite IH. Qed.

Lemma lookup_others {A} (ls : list (list A)) i j l a : ls !! j = Some l -> j <> i -> a ∈ l -> a ∈ concat (delete i ls).
Proof.
  revert i j. induction ls as [|b ls IH]; intros i j H Hne Ha; [done|]. destruct i as [|i], j as [|j]; simplify_eq/=.
  - rewrite (concat_delete ls j l H). set_solver.
  - set_solver.
  - apply elem_of_app. right. apply (IH i j); try done. lia.
Qed.

(** An update of one list. *)
Lemma rep_upd g cs idss i e e' c' ids ids' h' n' : rep_with g cs idss -> dependGraph g !! i = Some e -> idss !! i = Some ids ->
  dep_inst e' = fst c' -> is_chain h' (next e') ids' (snd c') ->
  (forall p, p ∈ concat (delete i idss) -> h' !! p = nodes g !! p) -> NoDup (ids' ++ concat (delete i idss)) ->
  (forall p, p ∈ ids' ++ concat (delete i idss) <-> is_Some (h' !! p)) -> n' = wrap 32 (Z.of_nat (length (ids' ++ concat (delete i idss)))) ->
  rep (mkDependencyGraph (<[i := e']> (dependGraph g)) h' n') (<[i := c']> cs).
Proof.
  intros [[L1 L2] Hc Hd Hdom Hn] He Hids Hinst Hch Hframe Hnd Hdom' Hn'. pose proof (lookup_lt_Some _ _ _ He) as Hlt.
  exists (<[i := ids']> idss). assert (Hp : concat (<[i := ids']> idss) ≡ₚ ids' ++ concat (delete i idss)).
  { rewrite (concat_delete (<[i := ids']> idss) i ids') by (apply list_lookup_insert_eq; lia). by rewrite delete_insert. }
  split; simpl; rewrite ?length_insert; try done.
  - intros j ej cj idsj. destruct (decide (j = i)) as [->|Hne].
    + rewrite !list_lookup_insert_eq by lia. by intros [= <-] [= <-] [= <-].
    + rewrite !list_lookup_insert_ne by done. intros H1 H2 H3. destruct (Hc j _ _ _ H1 H2 H3) as [? Hcj]. split; [done|].
      eapply is_chain_frame; [exact Hcj|]. intros a Ha. apply Hframe. by eapply lookup_others.
  - by rewrite Hp.
  - intros p. by rewrite Hp.
  - by rewrite Hp.
Qed.

(** [l] without the first occurrence of [x]. *)
Fixpoint remove_first (x : Z) (l : list Z) : list Z :=
  match l with [] => [] | y :: l => if bool_decide (y = x) then l else y :: remove_first x l end.

Lemma remove_first_ne x y lst : y <> x -> remove_first x (y :: lst) = y :: remove_first x lst.
Proof. intros H. simpl. by rewrite bool_decide_eq_false_2. Qed.

Lemma remove_loop_ok h x : forall lst fuel prev curr ids, is_chain h (Some curr) ids lst -> x ∈ lst -> (length lst <= S fuel)%nat ->
  exists ids1 a ids2 l1 l2 n, ids = ids1 ++ a :: ids2 /\ lst = l1 ++ x :: l2 /\ length ids1 = length l1 /\ remove_first x lst = l1 ++ l2 /\
    h !! a = Some (mkDepEntry (Some x) n) /\ is_chain h n ids2 l2 /\
    remove_loop fuel h x prev curr = Ok (match last ids1 with Some p => Some p | None => prev end, a).
Proof.
  induction lst as [|y lst IH]; intros fuel prev curr ids Hc Hx Hf; [by apply not_elem_of_nil in Hx|].
  destruct ids as [|a ids]; [done|]. destruct Hc as [[= ->] (n & Ha & Hc)]. destruct (decide (y = x)) as [->|Hne].
  { exists [], a, ids, [], lst, n. simpl. rewrite bool_decide_eq_true_2 by done. split_and!; try done.
    destruct fuel; simpl; rewrite Ha; cbn [rbind deref dep_inst]; by rewrite bool_decide_eq_true_2. }
  apply elem_of_cons in Hx as [|Hx]; [done|]. destruct lst as [|z lst]; [by apply not_elem_of_nil in Hx|].
  destruct ids as [|b ids]; [done|]. destruct Hc as [-> Hc']. destruct fuel as [|fuel]; [simpl in Hf; lia|].
  destruct (IH fuel (Some a) b (b :: ids)) as (ids1 & a' & ids2 & l1 & l2 & n' & E1 & E2 & E3 & E4 & E5 & E6 & E7);
    [by split|done|simpl in *; lia|].
  exists (a :: ids1), a', ids2, (y :: l1), l2, n'. rewrite remove_first_ne, E4, E2, E1 by done. split_and!; try done; [simpl; lia|].
  cbn [remove_loop]. rewrite Ha. cbn [rbind deref dep_inst next]. rewrite bool_decide_eq_false_2 by congruence. rewrite E7. f_equal. f_equal.
  destruct ids1 as [|c ids1 _] using rev_ind; [done|]. by rewrite last_snoc, app_comm_cons, last_snoc.
Qed.

Lemma unlink_chain h a x n : forall ids1 p l1 ids2 l2, NoDup (ids1 ++ a :: ids2) -> h !! a = Some (mkDepEntry (Some x) n) ->
  is_chain h p (ids1 ++ a :: ids2) (l1 ++ x :: l2) -> length ids1 = length l1 ->
  match last ids1 with
  | None => p = Some a /\ is_chain (delete a h) n ids2 l2
  | Some q => exists qe, h !! q = Some qe /\ is_chain (delete a (<[q := mkDepEntry (dep_inst qe) n]> h)) p (ids1 ++ ids2) (l1 ++ l2)
  end.
Proof.
  induction ids1 as [|b ids1 IH]; intros p [|y l1] ids2 l2 Hd Ha Hc Hlen; simplify_eq/=.
  { destruct Hc as [-> (n' & Ha' & Hc)]. simplify_eq. split; [done|]. apply NoDup_cons in Hd as [Hd _].
    eapply is_chain_frame; [exact Hc|]. intros c Hin. apply lookup_delete_ne. by intros <-. }
  destruct Hc as [-> (m & Hb & Hc)]. apply NoDup_cons in Hd as [Hbn Hd]. pose proof (IH m l1 ids2 l2 Hd Ha Hc Hlen) as IH'.
  assert (Hba : b <> a) by set_solver. destruct ids1 as [|c ids1]; destruct l1 as [|z l1]; simplify_eq/=.
  - destruct IH' as [-> Hc2]. exists (mkDepEntry (Some y) (Some a)). split; [done|]. split; [done|]. exists n.
    rewrite lookup_delete_ne, lookup_insert_eq by done. split; [done|]. eapply is_chain_frame; [exact Hc2|].
    intros d Hin. destruct (decide (d = a)) as [->|]; [by rewrite !lookup_delete_eq|]. rewrite !lookup_delete_ne by done.
    apply lookup_insert_ne. set_solver.
  - destruct (last (c :: ids1)) as [q|] eqn:Hl; [|by apply last_None in Hl]. destruct IH' as (qe & Hq & Hc2). exists qe. split; [done|]. split; [done|]. exists m.
    assert (Hqb : q <> b) by (apply last_Some_elem_of in Hl; set_solver). rewrite lookup_delete_ne, lookup_insert_ne by done. done.
Qed.

Section operations.
Context (g : DependencyGraph) (cs : list (option Z * list Z)) (i : nat) (pr : option Z) (l : list Z).
Hypothesis Hrep : rep g cs.
Hypothesis Hi : cs !! i = Some (pr, l).

(** The head node and the nodes of the list at [i]. *)
Lemma rep_at : exists idss e ids, rep_with g cs idss /\ dependGraph g !! i = Some e /\ idss !! i = Some ids /\ dep_inst e = pr /\
  is_chain (nodes g) (next e) ids l /\ concat idss ≡ₚ ids ++ concat (delete i idss).
Proof.
  destruct Hrep as [idss H]. pose proof H as [[L1 L2] Hc Hd Hdom Hn]. pose proof (lookup_lt_Some _ _ _ Hi) as Hlt.
  destruct (lookup_lt_is_Some_2 (dependGraph g) i) as [e He]; [lia|]. destruct (lookup_lt_is_Some_2 idss i) as [ids Hids]; [lia|].
  destruct (Hc i e _ ids He Hi Hids) as [? ?]. exists idss, e, ids. split_and!; try done. by apply concat_delete.
Qed.

Lemma insert_rep x : exists g', insert i x g = Ok g' /\ rep g' (<[i := (pr, x :: l)]> cs).
Proof.
  destruct rep_at as (idss & e & ids & H & He & Hids & Hpr & Hch & Hp). pose proof (lookup_lt_Some _ _ _ He) as Hlt.
  unfold insert. rewrite (nth_lookup _ _ _ He). cbn [rbind]. rewrite upd_Ok by done. cbn [rbind]. eexists. split; [done|].
  pose proof H as [L Hc Hd Hdom Hn]. assert (Hnew : fresh (dom (nodes g)) ∉ concat idss).
  { rewrite Hdom. intros [y Hy]. by apply (is_fresh (dom (nodes g))), elem_of_dom_2 with y. }
  rewrite Hp in Hnew, Hd. eapply (rep_upd g cs idss i e _ _ ids (fresh (dom (nodes g)) :: ids)); try done; simpl.
  - split; [done|]. eexists. rewrite lookup_insert_eq. split; [done|]. eapply is_chain_frame; [exact Hch|].
    intros a Ha. apply lookup_insert_ne. intros <-. apply Hnew. set_solver.
  - intros p Hin. apply lookup_insert_ne. intros <-. apply Hnew. set_solver.
  - by constructor.
  - intros p. rewrite lookup_insert_is_Some', <- Hdom, Hp, elem_of_cons. naive_solver.
  - rewrite Hn, wrap_add_idemp_l, Hp. f_equal. lia.
Qed.

Lemma setInst_rep x : exists g', setInst i x g = Ok g' /\ rep g' (<[i := (Some x, l)]> cs).
Proof.
  destruct rep_at as (idss & e & ids & H & He & Hids & Hpr & Hch & Hp). pose proof (lookup_lt_Some _ _ _ He) as Hlt.
  unfold setInst. rewrite (nth_lookup _ _ _ He). cbn [rbind]. rewrite upd_Ok by done. cbn [rbind]. eexists. split; [done|].
  eapply (rep_upd g cs idss i e _ _ ids ids); try done; try setoid_rewrite <- Hp; apply H.
Qed.

Lemma clearInst_rep : exists g', clearInst i g = Ok g' /\ rep g' (<[i := (None, l)]> cs).
Proof.
  destruct rep_at as (idss & e & ids & H & He & Hids & Hpr & Hch & Hp). pose proof (lookup_lt_Some _ _ _ He) as Hlt.
  unfold clearInst. rewrite (nth_lookup _ _ _ He). cbn [rbind]. rewrite upd_Ok by done. cbn [rbind]. eexists. split; [done|].
  eapply (rep_upd g cs idss i e _ _ ids ids); try done; try setoid_rewrite <- Hp; apply H.
Qed.

Lemma empty_at_rep : empty_at i g = Ok (bool_decide (l = [])).
Proof.
  destruct rep_at as (idss & e & ids & H & He & Hids & Hpr & Hch & Hp). unfold empty_at. rewrite (nth_lookup _ _ _ He). cbn [rbind]. f_equal.
  apply bool_decide_ext. destruct ids, l; simpl in Hch; try done; destruct Hch as [-> _]; done.
Qed.

Lemma pop_rep : match l with
  | [] => pop i g = Ok (None, g)
  | x :: l' => exists g', pop i g = Ok (Some x, g') /\ rep g' (<[i := (pr, l')]> cs)
  end.
Proof.
  destruct rep_at as (idss & e & ids & H & He & Hids & Hpr & Hch & Hp). pose proof (lookup_lt_Some _ _ _ He) as Hlt.
  unfold pop. rewrite (nth_lookup _ _ _ He). cbn [rbind]. destruct ids as [|a ids], l as [|x l']; simpl in Hch; try done; [by rewrite Hch|].
  destruct Hch as [-> (n & Ha & Hch)]. rewrite Ha. cbn [rbind deref]. rewrite upd_Ok by done. cbn [rbind]. eexists. split; [done|].
  pose proof H as [L Hc Hd Hdom Hn]. rewrite Hp in Hd. simpl in Hd. apply NoDup_cons in Hd as [Ha' Hd].
  assert (Hne : forall p, p ∈ ids ++ concat (delete i idss) -> delete a (nodes g) !! p = nodes g !! p).
  { intros p Hin. apply lookup_delete_ne. by intros <-. }
  eapply (rep_upd g cs idss i e _ _ (a :: ids) ids); try done; simpl.
  - eapply is_chain_frame; [exact Hch|]. intros p Hin. apply Hne. set_solver.
  - intros p Hin. apply Hne. set_solver.
  - intros p. rewrite lookup_delete_is_Some, <- Hdom, Hp. simpl. rewrite elem_of_cons. naive_solver.
  - rewrite Hn, wrap_sub_idemp_l, Hp. simpl. f_equal. lia.
Qed.

Lemma remove_rep x : l = [] \/ x ∈ l -> exists g', remove i x g = Ok g' /\ rep g' (<[i := (pr, remove_first x l)]> cs).
Proof.
  intros Hx. destruct rep_at as (idss & e & ids & H & He & Hids & Hpr & Hch & Hp). pose proof (lookup_lt_Some _ _ _ He) as Hlt.
  unfold remove. rewrite (nth_lookup _ _ _ He). cbn [rbind]. destruct ids as [|a0 ids0], l as [|y0 l0]; try (by destruct Hch).
  { simpl in Hch. rewrite Hch. exists g. split; [done|]. rewrite list_insert_id by done. done. }
  destruct Hx as [|Hx]; [done|]. pose proof Hch as [Hnext _]. rewrite Hnext in *. pose proof H as [L Hc Hd Hdom Hn]. rewrite Hp in Hd.
  assert (Hsz : (length (a0 :: ids0) <= size (nodes g))%nat).
  { apply NoDup_app in Hd as (Hd1 & _ & _). rewrite <- (size_list_to_set (C := gset positive)), <- size_dom by done.
    apply subseteq_size. intros p Hin%elem_of_list_to_set. apply elem_of_dom, Hdom. rewrite Hp. set_solver. }
  destruct (remove_loop_ok (nodes g) x (y0 :: l0) (size (nodes g)) None a0 (a0 :: ids0)) as (ids1 & a & ids2 & l1 & l2 & n & E1 & E2 & E3 & E4 & E5 & E6 & E7);
    [done|done|pose proof (is_chain_length _ _ _ _ Hch); simpl in *; lia|].
  rewrite E7. cbn [rbind]. rewrite E5. cbn [rbind deref next]. rewrite E4.
  rewrite E1, <- app_assoc in Hd. simpl in Hd. rewrite E1, E2, <- Hnext in Hch.
  assert (Hd' : NoDup (ids1 ++ a :: ids2)) by (rewrite app_comm_cons, app_assoc in Hd; by apply NoDup_app in Hd as (? & _)).
  rewrite <- Permutation_middle in Hd. apply NoDup_cons in Hd as [Ha Hd]. pose proof (unlink_chain (nodes g) a x n ids1 (next e) l1 ids2 l2 Hd' E5 Hch E3) as Hu.
  assert (Hdom2 : forall p, p ∈ (ids1 ++ ids2) ++ concat (delete i idss) <-> is_Some (delete a (nodes g) !! p)).
  { intros p. rewrite lookup_delete_is_Some, <- Hdom, Hp, E1, <- !app_assoc. simpl. rewrite <- Permutation_middle, elem_of_cons.
    rewrite app_assoc in Ha |- *. destruct (decide (p = a)) as [->|]; naive_solver. }
  assert (Hcount : wrap 32 (memAllocCounter g - 1) = wrap 32 (Z.of_nat (length ((ids1 ++ ids2) ++ concat (delete i idss))))).
  { rewrite Hn, wrap_sub_idemp_l, Hp, E1, !length_app. simpl. f_equal. lia. }
  rewrite app_assoc in Ha, Hd. destruct (last ids1) as [q|] eqn:Hlast; cbn [rbind].
  - destruct Hu as (qe & Hq & Hu). rewrite Hq. cbn [rbind deref]. eexists. split; [done|].
    assert (Hqin : q ∈ ids1 ++ ids2) by (apply last_Some_elem_of in Hlast; set_solver).
    rewrite <- (list_insert_id (dependGraph g) i e) by done. eapply (rep_upd g cs idss i e e _ (a0 :: ids0) (ids1 ++ ids2)); try done.
    + intros p Hin. rewrite lookup_delete_ne by set_solver. apply lookup_insert_ne. intros <-. apply NoDup_app in Hd as (_ & Hd & _). by apply (Hd q).
    + intros p. rewrite Hdom2, !lookup_delete_is_Some, lookup_insert_is_Some'. naive_solver.
  - destruct Hu as [_ Hu]. rewrite upd_Ok by done. cbn [rbind]. apply last_None in Hlast as ->. destruct l1; [|done]. eexists. split; [done|].
    eapply (rep_upd g cs idss i e _ _ (a0 :: ids0) ids2); try done. intros p Hin. apply lookup_delete_ne. set_solver.
Qed.

End operations.

Lemma rep_new n : rep (resize n DependencyGraph_new) (replicate n (None, [])).
Proof.
  exists (replicate n []). unfold resize, DependencyGraph_new. cbn [set_graph dependGraph nodes memAllocCounter]. rewrite resize_nil.
  assert (Hc : forall m, concat (replicate m ([] : list positive)) = []) by (induction m; simpl; done).
  split; simpl; rewrite ?length_replicate, ?Hc; try done.
  - intros i e c ids [-> _]%lookup_replicate [-> _]%lookup_replicate [-> _]%lookup_replicate. done.
  - constructor.
  - intros p. rewrite lookup_empty. split; [by intros ?%not_elem_of_nil|by intros []].
Qed.

Lemma chain_length h ids : forall p l, is_chain h p ids l -> length ids = length l.
Proof. induction ids as [|a ids IH]; intros p [|x l]; simpl; try done. intros [_ (n & _ & Hc)]. f_equal. by eapply IH. Qed.

(** A chain has no more elements than there are nodes. *)
Lemma rep_size g cs i pr l : rep g cs -> cs !! i = Some (pr, l) -> (length l <= size (nodes g))%nat.
Proof.
  intros H Hi. destruct (rep_at g cs i pr l H Hi) as (idss & e & ids & [_ _ Hd Hdom _] & _ & _ & _ & Hch & Hp).
  rewrite <- (chain_length _ _ _ _ Hch). rewrite Hp in Hd. apply NoDup_app in Hd as (Hd & _ & _).
  rewrite <- (size_list_to_set (C := gset positive)), <- size_dom by done. apply subseteq_size. intros a Ha%elem_of_list_to_set.
  apply elem_of_dom, Hdom. rewrite Hp. apply elem_of_app. by left.
Qed.

Lemma rep_lookup g cs i c : rep g cs -> cs !! i = Some c -> exists e, dependGraph g !! i = Some e /\ dep_inst e = fst c.
Proof.
  intros H Hi. destruct c as [pr l]. destruct (rep_at g cs i pr l H Hi) as (idss & e & ids & _ & He & _ & Hp & _). eauto.
Qed.

Lemma empty_rep g cs : rep g cs -> empty g = forallb (fun c => bool_decide (snd c = [])) cs.
Proof.
  intros H. apply eq_true_iff_eq. unfold empty. rewrite !forallb_forall. setoid_rewrite <- list_elem_of_In. setoid_rewrite bool_decide_eq_true.
  assert (Hlen : length (dependGraph g) = length cs) by (destruct H as [idss H]; apply H).
  assert (Hat : forall i e c, dependGraph g !! i = Some e -> cs !! i = Some c -> next e = None <-> snd c = []).
  { intros i e [pr l] He Hc. pose proof (empty_at_rep g cs i pr l H Hc) as Hq. unfold empty_at in Hq. rewrite (nth_lookup _ _ _ He) in Hq.
    simpl in Hq. injection Hq as Hq. simpl. destruct (decide (l = [])) as [E|E].
    - rewrite (bool_decide_eq_true_2 _ E) in Hq. apply bool_decide_eq_true in Hq. done.
    - rewrite (bool_decide_eq_false_2 _ E) in Hq. apply bool_decide_eq_false in Hq. done. }
  split; intros Hall x [i Hi]%list_elem_of_lookup; pose proof (lookup_lt_Some _ _ _ Hi).
  - destruct (lookup_lt_is_Some_2 (dependGraph g) i) as [e He]; [lia|]. apply (Hat i e x He Hi), Hall. by eapply list_elem_of_lookup_2.
  - destruct (lookup_lt_is_Some_2 cs i) as [c Hc]; [lia|]. apply (Hat i x c Hi Hc), Hall. by eapply list_elem_of_lookup_2.
Qed.

(** Deleting the nodes of a chain. *)
Definition delete_all (ids : list positive) (h : gmap positive DepEntry) : gmap positive DepEntry := foldr delete h ids.

Lemma delete_all_lookup ids h a : delete_all ids h !! a = if decide (a ∈ ids) then None else h !! a.
Proof.
  induction ids as [|b ids IH]; [done|]. change (delete_all (b :: ids) h) with (delete b (delete_all ids h)). destruct (decide (a = b)) as [->|Hne].
  - by rewrite lookup_delete_eq, decide_True by set_solver.
  - rewrite lookup_delete_ne, IH by done. destruct (decide (a ∈ ids)); [rewrite decide_True by set_solver|rewrite decide_False by set_solver]; done.
Qed.

Lemma reset_loop_ok ids : forall fuel p l h n, is_chain h p ids l -> NoDup ids -> (length ids <= fuel)%nat ->
  exists n', reset_loop fuel p h n = Ok (delete_all (reverse ids) h, n') /\ wrap 32 n' = wrap 32 (n - Z.of_nat (length ids)) /\ (in_u 32 n -> in_u 32 n').
Proof.
  induction ids as [|a ids IH]; intros fuel p [|x l] h n Hc Hd Hf; try done; simpl in Hc.
  { rewrite Hc. exists n. destruct fuel; simpl; rewrite Z.sub_0_r; done. }
  destruct Hc as [-> (m & Ha & Hc)]. apply NoDup_cons in Hd as [Han Hd]. destruct fuel as [|fuel]; [simpl in Hf; lia|]. cbn [reset_loop]. rewrite Ha. cbn [rbind deref next].
  destruct (IH fuel m l (delete a h) (wrap 32 (n - 1))) as (n' & -> & Hn & Hr); [|done|simpl in Hf; lia|].
  { eapply is_chain_frame; [exact Hc|]. intros b Hb. apply lookup_delete_ne. by intros <-. }
  exists n'. rewrite reverse_cons. unfold delete_all. rewrite foldr_app. split; [done|]. split; [|intros _; apply Hr, wrap_range; lia].
  rewrite Hn, wrap_sub_idemp_l. simpl length. f_equal. lia.
Qed.

Lemma reset_all_ok h0 : forall ls (css : list (option Z * list Z)) idss h n, length ls = length css -> length idss = length css ->
  (forall i e c ids, ls !! i = Some e -> css !! i = Some c -> idss !! i = Some ids -> is_chain h0 (next e) ids (snd c)) ->
  NoDup (concat idss) -> (forall p, p ∈ concat idss <-> is_Some (h !! p)) -> (forall p, p ∈ concat idss -> h !! p = h0 !! p) -> in_u 32 n ->
  exists n', reset_all ls h n = Ok (∅, n') /\ n' = wrap 32 (n - Z.of_nat (length (concat idss))).
Proof.
  induction ls as [|e ls IH]; intros [|c css] [|ids idss] h n L1 L2 Hc Hd Hdom Hh Hn; try done; simpl in *.
  { exists n. split; [|by rewrite Z.sub_0_r, wrap_small]. f_equal. f_equal. apply map_empty. intros p. apply eq_None_not_Some. rewrite <- Hdom. apply not_elem_of_nil. }
  pose proof (Hc 0%nat e c ids eq_refl eq_refl eq_refl) as Hch. apply NoDup_app in Hd as (Hd1 & Hd2 & Hd3).
  assert (Hsz : (length ids <= size h)%nat).
  { rewrite <- (size_list_to_set (C := gset positive)), <- size_dom by done. apply subseteq_size. intros p Hin%elem_of_list_to_set. apply elem_of_dom, Hdom. set_solver. }
  destruct (reset_loop_ok ids (size h) (next e) (snd c) h n) as (n1 & -> & Hn1 & Hr1); [|done|done|].
  { eapply is_chain_frame; [exact Hch|]. intros p Hp. apply Hh. set_solver. }
  cbn [rbind]. destruct (IH css idss (delete_all (reverse ids) h) n1) as (n' & -> & Hn'); try lia; try done.
  - intros i. apply (Hc (S i)).
  - intros p. rewrite delete_all_lookup. destruct (decide _) as [Hin|Hin]; rewrite elem_of_reverse in Hin.
    + split; [intros Hp; by destruct (Hd2 p Hin)|by intros []].
    + rewrite <- Hdom. set_solver.
  - intros p Hp. rewrite delete_all_lookup, decide_False; [apply Hh; set_solver|]. rewrite elem_of_reverse. intros Hin. by apply (Hd2 p).
  - by apply Hr1.
  - exists n'. split; [done|]. rewrite Hn', <- wrap_sub_idemp_l, Hn1, wrap_sub_idemp_l, length_app. f_equal. lia.
Qed.

Lemma reset_rep g cs : rep g cs -> exists g', reset g = Ok g' /\ rep g' (map (fun _ => (None, [])) cs) /\ nodes g' = ∅ /\ memAllocCounter g' = 0.
Proof.
  intros [idss [[L1 L2] Hc Hd Hdom Hn]]. unfold reset.
  destruct (reset_all_ok (nodes g) (dependGraph g) cs idss (nodes g) (memAllocCounter g)) as (n' & -> & Hn'); try done.
  { intros i e c ids H1 H2 H3. by apply (Hc i e c ids). }
  { rewrite Hn. apply wrap_range. lia. }
  cbn [rbind]. eexists. split; [done|]. rewrite Hn, wrap_sub_idemp_l, Z.sub_diag in Hn'. split; [|split; [done|by rewrite Hn']].
  exists (replicate (length cs) []). assert (Hr : forall m, concat (replicate m ([] : list positive)) = []) by (induction m; simpl; done).
  split; simpl; rewrite ?length_replicate, ?length_map, ?Hr; try done.
  - intros i e c ids (? & -> & _)%list_lookup_fmap_Some (? & -> & _)%list_lookup_fmap_Some [-> _]%lookup_replicate. done.
  - constructor.
  - intros p. rewrite lookup_empty. split; [by intros ?%not_elem_of_nil|by intros []].
Qed.

(** ** Refinement *)

Inductive dep_op :=
| DInsert (i : nat) (x : Z)
| DSetInst (i : nat) (x : Z)
| DClearInst (i : nat)
| DRemove (i : nat) (x : Z)
| DPop (i : nat)
| DReset.

Definition dep_exec (o : dep_op) (g : DependencyGraph) : res (option Z * DependencyGraph) :=
  match o with
  | DInsert i x => let! g := insert i x g in Ok (None, g)
  | DSetInst i x => let! g := setInst i x g in Ok (None, g)
  | DClearInst i => let! g := clearInst i g in Ok (None, g)
  | DRemove i x => let! g := remove i x g in Ok (None, g)
  | DPop i => pop i g
  | DReset => let! g := reset g in Ok (None, g)
  end.

Fixpoint dep_run (os : list dep_op) (g : DependencyGraph) : res (list (option Z) * DependencyGraph) :=
  match os with
  | [] => Ok ([], g)
  | o :: os => let! (r, g) := dep_exec o g in let! (rs, g) := dep_run os g in Ok (r :: rs, g)
  end.

(** The same operations on a producer and a list for every register; [None] is a call
    that is not allowed: a register that does not exist, or removing an instruction
    that is not in a list that is not empty. *)
Definition spec_exec (o : dep_op) (cs : list (option Z * list Z)) : option (option Z * list (option Z * list Z)) :=
  match o with
  | DInsert i x => '(pr, l) ← cs !! i; Some (None, <[i := (pr, x :: l)]> cs)
  | DSetInst i x => '(pr, l) ← cs !! i; Some (None, <[i := (Some x, l)]> cs)
  | DClearInst i => '(pr, l) ← cs !! i; Some (None, <[i := (None, l)]> cs)
  | DRemove i x =>
      '(pr, l) ← cs !! i;
      if bool_decide (l = []) || bool_decide (x ∈ l) then Some (None, <[i := (pr, remove_first x l)]> cs) else None
  | DPop i =>
      '(pr, l) ← cs !! i;
      match l with [] => Some (None, cs) | x :: l => Some (Some x, <[i := (pr, l)]> cs) end
  | DReset => Some (None, map (fun _ => (None, [])) cs)
  end.

Fixpoint spec_run (os : list dep_op) (cs : list (option Z * list Z)) : option (list (option Z) * list (option Z * list Z)) :=
  match os with
  | [] => Some ([], cs)
  | o :: os => '(r, cs) ← spec_exec o cs; '(rs, cs) ← spec_run os cs; Some (r :: rs, cs)
  end.

Lemma dep_exec_refines o g cs r cs' : rep g cs -> spec_exec o cs = Some (r, cs') -> exists g', dep_exec o g = Ok (r, g') /\ rep g' cs'.
Proof.
  intros H. destruct o as [i x|i x|i|i x|i|]; simpl; try (destruct (cs !! i) as [[pr l]|] eqn:Hi; simpl; [|done]).
  - intros [= <- <-]. destruct (insert_rep g cs i pr l H Hi x) as (g' & -> & H'). eauto.
  - intros [= <- <-]. destruct (setInst_rep g cs i pr l H Hi x) as (g' & -> & H'). eauto.
  - intros [= <- <-]. destruct (clearInst_rep g cs i pr l H Hi) as (g' & -> & H'). eauto.
  - destruct (bool_decide (l = []) || bool_decide (x ∈ l)) eqn:E; [|done]. intros [= <- <-].
    destruct (remove_rep g cs i pr l H Hi x) as (g' & -> & H'); [|eauto]. b2p. destruct E as [E|E]; apply bool_decide_eq_true in E; auto.
  - pose proof (pop_rep g cs i pr l H Hi) as Hpop. destruct l as [|x l]; intros [= <- <-]; [eauto|]. done.
  - intros [= <- <-]. destruct (reset_rep g cs H) as (g' & -> & H' & _). eauto.
Qed.

(** C29: the linked lists of the dependency graph behave like lists.  From a new graph
    with [n] registers, every allowed sequence of calls returns, pops what lists would
    pop, and ends in a graph that represents the lists; then no node has been lost or
    leaked: when all lists are empty the heap is empty and the counter is 0. *)
Theorem graph_refines n os rs cs : spec_run os (replicate n (None, [])) = Some (rs, cs) ->
  exists g, dep_run os (resize n DependencyGraph_new) = Ok (rs, g) /\ rep g cs /\
    (empty g = true -> nodes g = ∅ /\ memAllocCounter g = 0).
Proof.
  intros E. assert (Hrun : exists g, dep_run os (resize n DependencyGraph_new) = Ok (rs, g) /\ rep g cs).
  { pose proof (rep_new n) as H. revert rs E H. generalize (resize n DependencyGraph_new) as g, (replicate n (@None Z, @nil Z)) as cs0.
    induction os as [|o os IH]; simpl; intros g cs0 rs E H; [injection E as <- <-; eauto|].
    destruct (spec_exec o cs0) as [[r cs1]|] eqn:E1; simpl in E; [|done]. destruct (spec_run os cs1) as [[rs' cs2]|] eqn:E2; simpl in E; [|done].
    injection E as <- <-. destruct (dep_exec_refines o g cs0 r cs1 H E1) as (g1 & -> & H1). cbn [rbind].
    destruct (IH g1 cs1 rs' E2 H1) as (g2 & -> & H2). eauto. }
  destruct Hrun as (g & Hg & H). exists g. split; [done|]. split; [done|]. intros He. rewrite (empty_rep g cs H) in He.
  destruct H as [idss [[L1 L2] Hc Hd Hdom Hn]]. assert (Hnil : concat idss = []).
  { destruct (concat idss) as [|p rest] eqn:Ec; [done|]. exfalso. assert (Hp : p ∈ concat idss) by (rewrite Ec; by left).
    apply list_elem_of_In, in_concat in Hp as (ids & Hids%list_elem_of_In & Hin). apply list_elem_of_lookup in Hids as [i Hi].
    pose proof (lookup_lt_Some _ _ _ Hi). destruct (lookup_lt_is_Some_2 cs i) as [c Hci]; [lia|]. destruct (lookup_lt_is_Some_2 (dependGraph g) i) as [e Hei]; [lia|].
    destruct (Hc i e c ids Hei Hci Hi) as [_ Hch]. rewrite forallb_forall in He.
    assert (Hsnd : snd c = []) by (apply (bool_decide_eq_true_1 (snd c = [])), He, list_elem_of_In; by eapply list_elem_of_lookup_2).
    apply is_chain_length in Hch. rewrite Hsnd in Hch. by destruct ids. }
  rewrite Hnil in Hn, Hdom. split; [|done]. apply map_empty. intros p. apply eq_None_not_Some. rewrite <- Hdom. apply not_elem_of_nil.
Qed.

Lemma graph_refines_witness : exists g, dep_run [DSetInst 1 4; DInsert 1 7; DInsert 1 8; DInsert 1 9; DRemove 1 8; DPop 1; DPop 1] (resize 3 DependencyGraph_new) =
  Ok ([None; None; None; None; None; Some 9; Some 7], g) /\ rep g [(None, []); (Some 4, []); (None, [])].
Proof.
  destruct (graph_refines 3 [DSetInst 1 4; DInsert 1 7; DInsert 1 8; DInsert 1 9; DRemove 1 8; DPop 1; DPop 1]
    [None; None; None; None; None; Some 9; Some 7] [(None, []); (Some 4, []); (None, [])] ltac:(vm_compute; reflexivity)) as (g & H1 & H2 & _).
  exists g. split; [exact H1|exact H2].
Defined.
