(* ===== verification/ReadyList.v ===== *)
(** * The ready lists of the instruction queue

    The part of [cpu/o3/inst_queue.cc] that keeps the instructions that can issue: a
    priority queue for every operation class, the oldest instruction on top, and the
    list [listOrder] of the classes that have instructions, ordered by the age of their
    oldest one.  [readyIt] has the position of every class in that list.

    An instruction is its number [seqNum].  A priority queue is the list of its
    elements from the top.  The nodes of [listOrder] have identities, so that an
    iterator is the identity of a node and [None] is [end()]; an identity that is in no
    node is a dangling iterator. *)

From Stdlib Require Import ZArith Lia Bool.
From stdpp Require Import base tactics option list numbers sets sorting.
From S2P Require Import Prelude FUPool.
Open Scope Z_scope.

(** ** State *)

(** [ListOrderEntry] in a node of the list. *)
Record ListOrderEntry := mkEntry { node : positive; queueType : nat; oldestInst : Z }.

Record ReadyLists := mkReady {
  readyInsts : list (list Z);
  listOrder : list ListOrderEntry;
  queueOnList : list bool;
  readyIt : list (option positive);
  nextNode : positive                       (* the identity of the next node *)
}.

Definition set_order (r : ReadyLists) (l : list ListOrderEntry) : ReadyLists :=
  mkReady (readyInsts r) l (queueOnList r) (readyIt r) (nextNode r).
Definition set_queues (r : ReadyLists) (q : list (list Z)) : ReadyLists :=
  mkReady q (listOrder r) (queueOnList r) (readyIt r) (nextNode r).

(** The part of [resetState] that clears them. *)
Definition reset_ready (nextNode : positive) : ReadyLists :=
  mkReady (replicate Num_OpClasses []) [] (replicate Num_OpClasses false) (replicate Num_OpClasses None) nextNode.

(** ** Priority queues *)

(** [push] with [PqCompare]: smaller sequence numbers are nearer to the top. *)
Fixpoint pq_push (p : Z) (q : list Z) : list Z :=
  match q with
  | [] => [p]
  | x :: q' => if x <? p then x :: pq_push p q' else p :: q
  end.

(** ** The age order *)

(** The walk of [addToOrderList] to the first younger entry. *)
Fixpoint place_after (e : ListOrderEntry) (l : list ListOrderEntry) : list ListOrderEntry :=
  match l with
  | [] => [e]
  | x :: l' => if oldestInst e <? oldestInst x then e :: l else x :: place_after e l'
  end.

Definition addToOrderList (op_class : nat) (r : ReadyLists) : res ReadyLists :=
  let! q := nth_ (readyInsts r) op_class in
  match q with
  | [] => Err AssertFailed
  | top :: _ =>
      let e := mkEntry (nextNode r) op_class top in
      let! its := upd_ (readyIt r) op_class (Some (node e)) in
      let! on := upd_ (queueOnList r) op_class true in
      Ok (mkReady (readyInsts r) (place_after e (listOrder r)) on its (Pos.succ (nextNode r)))
  end.

(** The entry at an iterator, with what is before and after it. *)
Fixpoint split_at (it : positive) (l : list ListOrderEntry) : res (list ListOrderEntry * ListOrderEntry * list ListOrderEntry) :=
  match l with
  | [] => Err NullDeref
  | x :: l =>
      if bool_decide (node x = it) then Ok ([], x, l)
      else let! (pre, e, post) := split_at it l in Ok (x :: pre, e, post)
  end.

(** The end of [addReadyMemInst] and of [addIfReady], which have the same code. *)
Definition push_ready (op_class : nat) (p : Z) (r : ReadyLists) : res ReadyLists :=
  let! q := nth_ (readyInsts r) op_class in
  let! qs := upd_ (readyInsts r) op_class (pq_push p q) in
  let r := set_queues r qs in
  let! on := nth_ (queueOnList r) op_class in
  if negb on then addToOrderList op_class r
  else
    let! top := deref (head (pq_push p q)) in
    let! it := nth_ (readyIt r) op_class in
    let! it := deref it in
    let! (pre, e, post) := split_at it (listOrder r) in
    if top <? oldestInst e then addToOrderList op_class (set_order r (pre ++ post)) else Ok r.

(** The walk of [moveToYoungerInst] from the entry after the given one. *)
Fixpoint place_before (e : ListOrderEntry) (l : list ListOrderEntry) : list ListOrderEntry :=
  match l with
  | x :: l' => if oldestInst x <? oldestInst e then x :: place_before e l' else e :: l
  | [] => [e]
  end.
Definition moveToYoungerInst (list_order_it : positive) (r : ReadyLists) : res ReadyLists :=
  let! (pre, e, post) := split_at list_order_it (listOrder r) in
  let op_class := queueType e in
  let! q := nth_ (readyInsts r) op_class in
  let! top := deref (head q) in
  let n := mkEntry (nextNode r) op_class top in
  let! its := upd_ (readyIt r) op_class (Some (node n)) in
  Ok (mkReady (readyInsts r) (pre ++ e :: place_before n post) (queueOnList r) its (Pos.succ (nextNode r))).

(** [listOrder.erase(order_it++)]: the new position is that of the next entry. *)
Definition erase_order (order_it : positive) (r : ReadyLists) : res (option positive * ReadyLists) :=
  let! (pre, e, post) := split_at order_it (listOrder r) in
  Ok (node <$> head post, set_order r (pre ++ post)).

(** What [scheduleReadyInsts] does when the instruction on top of the queue of
    [order_it] leaves it, issued or squashed. *)
Definition pop_ready (op_class : nat) (order_it : positive) (r : ReadyLists) : res (option positive * ReadyLists) :=
  let! q := nth_ (readyInsts r) op_class in
  let! qs := upd_ (readyInsts r) op_class (tail q) in
  let r := set_queues r qs in
  let! r := (match tail q with
    | _ :: _ => moveToYoungerInst order_it r
    | [] =>
        let! its := upd_ (readyIt r) op_class None in
        let! on := upd_ (queueOnList r) op_class false in
        Ok (mkReady (readyInsts r) (listOrder r) on its (nextNode r))
    end) in
  erase_order order_it r.

Definition hasReadyInsts (r : ReadyLists) : bool :=
  negb (bool_decide (listOrder r = [])) || existsb (fun q => negb (bool_decide (q = []))) (readyInsts r).

(** ** Invariant *)

(** The entry of a class in the order is that of its oldest instruction. *)
Definition class_ok (r : ReadyLists) (c : nat) (q : list Z) : Prop :=
  match q with
  | [] => queueOnList r !! c = Some false /\ readyIt r !! c = Some None /\ forall e, e ∈ listOrder r -> queueType e <> c
  | p :: _ => queueOnList r !! c = Some true /\ exists it, readyIt r !! c = Some (Some it) /\
      forall e, e ∈ listOrder r -> queueType e = c <-> e = mkEntry it c p
  end.

Record ready_ok (r : ReadyLists) : Prop := {
  rl_lens : length (readyInsts r) = Num_OpClasses /\ length (queueOnList r) = Num_OpClasses /\ length (readyIt r) = Num_OpClasses;
  rl_sorted : forall c q, readyInsts r !! c = Some q -> StronglySorted Z.le q;
  rl_order : StronglySorted (fun e e' => oldestInst e <= oldestInst e') (listOrder r);
  rl_nodes : NoDup (map node (listOrder r)) /\ Forall (fun e => (node e < nextNode r)%positive) (listOrder r);
  rl_class : forall c q, readyInsts r !! c = Some q -> class_ok r c q;
  rl_on : forall c p q, readyInsts r !! c = Some (p :: q) -> exists it, mkEntry it c p ∈ listOrder r;
  rl_types : Forall (fun e => (queueType e < Num_OpClasses)%nat) (listOrder r)
}.

(** ** Placing entries *)

Abbreviation aged := (StronglySorted (fun e e' => oldestInst e <= oldestInst e')).

Lemma place_after_perm e l : place_after e l ≡ₚ e :: l.
Proof. induction l as [|x l IH]; simpl; [done|]. case_ifs; [done|]. rewrite IH. constructor. Qed.

Lemma place_before_perm e l : place_before e l ≡ₚ e :: l.
Proof. induction l as [|x l IH]; simpl; [done|]. case_ifs; [|done]. rewrite IH. constructor. Qed.

Lemma place_after_aged e l : aged l -> aged (place_after e l).
Proof.
  induction 1 as [|x l Hs IH HF]; simpl; [repeat constructor|]. destruct (Z.ltb_spec (oldestInst e) (oldestInst x)).
  - constructor; [by constructor|]. constructor; [lia|]. eapply Forall_impl; [exact HF|]. simpl. lia.
  - constructor; [done|]. rewrite place_after_perm. by constructor.
Qed.

Lemma place_before_aged e l : aged l -> aged (place_before e l).
Proof.
  induction 1 as [|x l Hs IH HF]; simpl; [repeat constructor|]. destruct (Z.ltb_spec (oldestInst x) (oldestInst e)).
  - constructor; [done|]. rewrite place_before_perm. constructor; [lia|done].
  - constructor; [by constructor|]. constructor; [lia|]. eapply Forall_impl; [exact HF|]. simpl. lia.
Qed.

Lemma pq_push_perm p q : pq_push p q ≡ₚ p :: q.
Proof. induction q as [|x q IH]; simpl; [done|]. case_ifs; [|done]. rewrite IH. constructor. Qed.

Lemma pq_push_sorted p q : StronglySorted Z.le q -> StronglySorted Z.le (pq_push p q).
Proof.
  induction 1 as [|x q Hs IH HF]; simpl; [repeat constructor|]. destruct (Z.ltb_spec x p).
  - constructor; [done|]. rewrite pq_push_perm. constructor; [lia|done].
  - constructor; [by constructor|]. constructor; [lia|]. eapply Forall_impl; [exact HF|]. simpl. lia.
Qed.

Lemma pq_push_head p x q : head (pq_push p (x :: q)) = Some (if x <? p then x else p).
Proof. simpl. by case_ifs. Qed.

Lemma aged_app l1 l2 : aged (l1 ++ l2) <-> aged l1 /\ aged l2 /\ forall e e', e ∈ l1 -> e' ∈ l2 -> oldestInst e <= oldestInst e'.
Proof.
  induction l1 as [|x l1 IH]; simpl.
  { split; [intros H; split_and!; [constructor|done|by intros ? ? ?%not_elem_of_nil]|by intros (_ & ? & _)]. }
  split.
  - intros [Hs HF]%StronglySorted_inv. apply IH in Hs as (H1 & H2 & H3). rewrite Forall_forall in HF. split_and!; [|done|].
    + constructor; [done|]. apply Forall_forall. intros y Hy. apply HF. set_solver.
    + intros e e' [->|He]%elem_of_cons He'; [apply HF; set_solver|auto].
  - intros ([Hs HF]%StronglySorted_inv & H2 & H3). constructor; [apply IH; split_and!; [done..|]; intros; apply H3; set_solver|].
    apply Forall_app. split; [done|]. apply Forall_forall. intros y Hy. apply H3; set_solver.
Qed.

Lemma split_at_ok pre e post : NoDup (map node (pre ++ e :: post)) -> split_at (node e) (pre ++ e :: post) = Ok (pre, e, post).
Proof.
  induction pre as [|x pre IH]; simpl; intros Hd.
  - by rewrite bool_decide_eq_true_2.
  - apply NoDup_cons in Hd as [Hx Hd]. rewrite bool_decide_eq_false_2.
    + rewrite IH by done. done.
    + intros E. apply Hx. rewrite E. rewrite map_app. simpl. set_solver.
Qed.

Lemma aged_drop pre e post : aged (pre ++ e :: post) -> aged (pre ++ post).
Proof.
  intros (H1 & [H2 _]%StronglySorted_inv & H3)%aged_app. apply aged_app. split_and!; [done..|]. intros x y Hx Hy. apply H3; set_solver.
Qed.

(** ** Preservation *)

(** The list of a class and its entry change, the other classes do not. *)
Lemma ready_upd r c q' it l nn : ready_ok r -> (c < Num_OpClasses)%nat -> StronglySorted Z.le q' -> aged l ->
  NoDup (map node l) -> Forall (fun e => (node e < nn)%positive) l ->
  (forall e, e ∈ l <-> (e ∈ listOrder r /\ queueType e <> c) \/ (exists p q, q' = p :: q /\ e = mkEntry it c p)) ->
  ready_ok (mkReady (<[c := q']> (readyInsts r)) l (<[c := negb (bool_decide (q' = []))]> (queueOnList r))
    (<[c := if bool_decide (q' = []) then None else Some it]> (readyIt r)) nn).
Proof.
  intros [(L1 & L2 & L3) Hs Ho [Hn Hlt] Hc Hon Ht] Hlen Hq Hl Hd Hnn Hin.
  assert (Hlk : forall c' q, <[c := q']> (readyInsts r) !! c' = Some q -> (c' = c /\ q = q') \/ (c' <> c /\ readyInsts r !! c' = Some q)).
  { intros c' q. destruct (decide (c' = c)) as [->|Hne]; [rewrite list_lookup_insert_eq by lia; intros [= <-]; auto|].
    rewrite list_lookup_insert_ne by done. auto. }
  split; cbn [readyInsts listOrder queueOnList readyIt nextNode]; rewrite ?length_insert; try done.
  - intros c' q [[-> ->]|[_ H]]%Hlk; eauto.
  - intros c' q [[-> ->]|[Hne H]]%Hlk; unfold class_ok; cbn [readyInsts listOrder queueOnList readyIt].
    + rewrite !list_lookup_insert_eq by lia. destruct q' as [|p q'].
      * split_and!; try done. intros e [[_ ?]|(? & ? & ? & _)]%Hin; done.
      * rewrite bool_decide_eq_false_2 by done. split; [done|]. exists it. split; [done|]. intros e He. split.
        -- intros E. apply Hin in He as [[_ ?]|(p' & q2 & [= <- <-] & ->)]; done.
        -- by intros ->.
    + rewrite !list_lookup_insert_ne by done. specialize (Hc c' q H). destruct q as [|p q]; simpl in Hc.
      * destruct Hc as (? & ? & Hc). split_and!; try done. intros e [[He _]|(? & ? & _ & ->)]%Hin; [auto|simpl; congruence].
      * destruct Hc as (? & it' & ? & Hc). split; [done|]. exists it'. split; [done|]. intros e [[He _]|(? & ? & _ & ->)]%Hin; [auto|].
        simpl. split; [congruence|intros [= ]; congruence].
  - intros c' p q [[-> ?]|[Hne H]]%Hlk; [exists it; apply Hin; right; eauto|]. destruct (Hon c' p q H) as [it' He]. exists it'. apply Hin. left. done.
  - apply Forall_forall. intros e [[He _]|(? & ? & _ & ->)]%Hin; [by eapply (proj1 (Forall_forall _ _) Ht)|done].
Qed.

(** The entry of a class that is in the order, and the rest. *)
Lemma ready_entry r c p q : ready_ok r -> readyInsts r !! c = Some (p :: q) -> exists it pre post, listOrder r = pre ++ mkEntry it c p :: post /\
  readyIt r !! c = Some (Some it) /\ queueOnList r !! c = Some true /\
  (forall e, e ∈ pre ++ post <-> e ∈ listOrder r /\ queueType e <> c) /\ split_at it (listOrder r) = Ok (pre, mkEntry it c p, post).
Proof.
  intros H Hq. destruct (rl_class r H c _ Hq) as (Hon & it & Hit & Hc). destruct (rl_on r H c p q Hq) as [it' Hin].
  pose proof (proj1 (Hc _ Hin) eq_refl) as [= ->].
  pose proof Hin as (pre & post & Hl)%list_elem_of_split. destruct (rl_nodes r H) as [Hd _]. exists it, pre, post.
  split_and!; try done; [|rewrite Hl in *; by apply (split_at_ok pre (mkEntry it c p) post)].
  intros e. rewrite Hl. split.
  - intros He. split; [set_solver|]. intros E. assert (e ∈ listOrder r) as He' by (rewrite Hl; set_solver). apply (Hc e He') in E as ->.
    rewrite Hl, map_app in Hd. simpl in Hd. rewrite <- Permutation_middle in Hd. apply NoDup_cons in Hd as [Hd _]. apply Hd.
    rewrite <- map_app. by apply (list_elem_of_fmap_2 node _ (mkEntry it c p)).
  - intros [He Hne]. apply elem_of_app in He as [?|[->|?]%elem_of_cons]; set_solver.
Qed.

Lemma NoDup_drop pre e post : NoDup (map node (pre ++ e :: post)) -> NoDup (map node (pre ++ post)).
Proof. rewrite !map_app. simpl. rewrite <- Permutation_middle. by intros [_ ?]%NoDup_cons. Qed.

Lemma Forall_drop (P : ListOrderEntry -> Prop) pre e post : Forall P (pre ++ e :: post) -> Forall P (pre ++ post).
Proof. rewrite <- Permutation_middle. by intros [_ ?]%Forall_cons. Qed.

(** A new entry of a class whose entry is not in the list [l]. *)
Lemma new_entry_nodes nn e l l' : node e = nn -> l' ≡ₚ e :: l -> NoDup (map node l) -> Forall (fun e => (node e < nn)%positive) l ->
  NoDup (map node l') /\ Forall (fun e => (node e < Pos.succ nn)%positive) l'.
Proof.
  intros He Hp Hd Hl. split.
  - rewrite Hp. simpl. apply NoDup_cons. split; [|done]. intros (x & Hx & Hin)%list_elem_of_fmap. rewrite Forall_forall in Hl.
    specialize (Hl x Hin). lia.
  - rewrite Hp. constructor; [lia|]. eapply Forall_impl; [exact Hl|]. simpl. lia.
Qed.

Lemma addToOrderList_ok r c p q l : ready_ok r -> (c < Num_OpClasses)%nat -> StronglySorted Z.le (p :: q) -> aged l -> NoDup (map node l) ->
  Forall (fun e => (node e < nextNode r)%positive) l -> (forall e, e ∈ l <-> e ∈ listOrder r /\ queueType e <> c) ->
  exists r', addToOrderList c (mkReady (<[c := p :: q]> (readyInsts r)) l (queueOnList r) (readyIt r) (nextNode r)) = Ok r' /\
    ready_ok r' /\ readyInsts r' = <[c := p :: q]> (readyInsts r).
Proof.
  intros H Hc Hq Hl Hd Hn Hin. destruct (rl_lens r H) as (L1 & L2 & L3). unfold addToOrderList. cbn [readyInsts queueOnList readyIt listOrder nextNode].
  rewrite (nth_lookup _ _ (p :: q)) by (apply list_lookup_insert_eq; lia). cbn [rbind]. rewrite !upd_Ok by lia. cbn [rbind]. eexists. split; [done|].
  split; [|done]. set (e := mkEntry (nextNode r) c p). destruct (new_entry_nodes (nextNode r) e l (place_after e l)) as [Hd' Hn'];
    [done|apply place_after_perm|done|done|].
  apply (ready_upd r c (p :: q) (nextNode r) (place_after e l)); try done; [by apply place_after_aged|].
  intros x. rewrite place_after_perm, elem_of_cons, Hin. split; [|naive_solver]. intros [->|?]; [right; by exists p, q|by left].
Qed.

Lemma push_ready_ok r c p q : ready_ok r -> readyInsts r !! c = Some q ->
  exists r', push_ready c p r = Ok r' /\ ready_ok r' /\ readyInsts r' = <[c := pq_push p q]> (readyInsts r).
Proof.
  intros H Hq. destruct (rl_lens r H) as (L1 & L2 & L3). pose proof (lookup_lt_Some _ _ _ Hq) as Hc. rewrite L1 in Hc.
  pose proof (rl_sorted r H c q Hq) as Hs. destruct (rl_nodes r H) as [Hd Hn]. pose proof (rl_order r H) as Ho.
  unfold push_ready. rewrite (nth_lookup _ _ _ Hq). cbn [rbind]. rewrite upd_Ok by lia. cbn [rbind]. cbn [set_queues queueOnList readyIt listOrder].
  destruct q as [|x q].
  { destruct (rl_class r H c _ Hq) as (Hon & _ & Hne). rewrite (nth_lookup _ _ _ Hon). cbn [rbind negb].
    apply (addToOrderList_ok r c p [] (listOrder r)); try done; [repeat constructor|]. intros e. split; [|by intros []]. intros He. auto. }
  destruct (ready_entry r c x q H Hq) as (it & pre & post & Hl & Hit & Hon & Hrest & Hsplit).
  rewrite (nth_lookup _ _ _ Hon). cbn [rbind negb]. rewrite pq_push_head. cbn [rbind deref]. rewrite (nth_lookup _ _ _ Hit). cbn [rbind deref].
  rewrite Hsplit. cbn [rbind oldestInst]. pose proof (pq_push_sorted p (x :: q) Hs) as Hs'. pose proof (pq_push_head p x q) as Hh.
  destruct (pq_push p (x :: q)) as [|t q'] eqn:Hpush; [done|]. injection Hh as ->. destruct (Z.ltb_spec (if x <? p then x else p) x).
  - rewrite Hl in Ho, Hd, Hn. apply (addToOrderList_ok r c _ q' (pre ++ post)); try done; [by eapply aged_drop|by eapply NoDup_drop|by eapply Forall_drop].
  - assert (Ex : (if x <? p then x else p) = x) by (revert H0; case_cmp; lia). rewrite Ex in *. eexists. split; [done|]. split; [|done].
    unfold set_queues. rewrite <- (list_insert_id (queueOnList r) c true), <- (list_insert_id (readyIt r) c (Some it)) by done.
    apply (ready_upd r c (x :: q') it (listOrder r)); try done. intros e. split.
    + intros He. destruct (decide (queueType e = c)) as [E|]; [|auto]. right. exists x, q'. split; [done|].
      destruct (rl_class r H c _ Hq) as (_ & it2 & Hit2 & Hcl). assert (it2 = it) as -> by congruence. by apply Hcl.
    + intros [[He _]|(? & ? & [= <- <-] & ->)]; [done|]. rewrite Hl. set_solver.
Qed.

Lemma pop_ready_ok r c p q pre it post : ready_ok r -> readyInsts r !! c = Some (p :: q) -> listOrder r = pre ++ mkEntry it c p :: post ->
  exists r' post', pop_ready c it r = Ok (node <$> head post', r') /\ ready_ok r' /\ readyInsts r' = <[c := q]> (readyInsts r) /\
    listOrder r' = pre ++ post' /\
    match q with
    | [] => post' = post
    | t :: _ => post' = place_before (mkEntry (nextNode r) c t) post
    end.
Proof.
  intros H Hq Hl. destruct (rl_lens r H) as (L1 & L2 & L3). pose proof (lookup_lt_Some _ _ _ Hq) as Hc. rewrite L1 in Hc.
  pose proof (rl_sorted r H c _ Hq) as Hs. apply StronglySorted_inv in Hs as [Hs HF]. destruct (rl_nodes r H) as [Hd Hn]. pose proof (rl_order r H) as Ho.
  destruct (ready_entry r c p q H Hq) as (it2 & pre2 & post2 & Hl2 & Hit & Hon & Hrest & Hsplit).
  destruct (rl_class r H c _ Hq) as (_ & it3 & Hit3 & Hcl). assert (it3 = it2) as -> by congruence.
  assert (He : mkEntry it c p ∈ listOrder r) by (rewrite Hl; set_solver). pose proof (proj1 (Hcl _ He) eq_refl) as [= ->].
  assert (Hsp : split_at it2 (listOrder r) = Ok (pre, mkEntry it2 c p, post)) by (rewrite Hl in *; by apply (split_at_ok pre (mkEntry it2 c p))).
  rewrite Hsplit in Hsp. injection Hsp as <- <-. clear Hl2.
  unfold pop_ready. rewrite (nth_lookup _ _ _ Hq). cbn [rbind]. rewrite upd_Ok by lia. cbn [rbind tail]. rewrite Hl in Ho, Hd, Hn.
  destruct q as [|t q].
  - cbn [set_queues readyIt queueOnList listOrder readyInsts nextNode]. rewrite !upd_Ok by lia. cbn [rbind]. unfold erase_order. cbn [listOrder].
    rewrite Hsplit. cbn [rbind]. eexists _, post2. split; [done|]. split; [|done]. unfold set_order. cbn [readyInsts queueOnList readyIt nextNode].
    apply (ready_upd r c [] it2 (pre2 ++ post2)); try done; [by eapply aged_drop|by eapply NoDup_drop|by eapply Forall_drop|].
    intros e. rewrite Hrest. split; [auto|]. by intros [?|(? & ? & ? & _)].
  - unfold moveToYoungerInst. cbn [set_queues readyIt queueOnList listOrder readyInsts nextNode]. rewrite Hsplit. cbn [rbind queueType].
    rewrite (nth_lookup _ _ (t :: q)) by (apply list_lookup_insert_eq; lia). cbn [rbind deref head]. rewrite upd_Ok by lia. cbn [rbind].
    set (n := mkEntry (nextNode r) c t). unfold erase_order. cbn [listOrder]. set (post' := place_before n post2).
    destruct (new_entry_nodes (nextNode r) n (pre2 ++ post2) (pre2 ++ post')) as [Hd' Hn']; [done| |by eapply NoDup_drop|by eapply Forall_drop|].
    { unfold post'. rewrite place_before_perm. by rewrite <- Permutation_middle. }
    assert (Hsp : split_at it2 (pre2 ++ mkEntry it2 c p :: post') = Ok (pre2, mkEntry it2 c p, post')).
    { apply (split_at_ok pre2 (mkEntry it2 c p) post'). rewrite !map_app in *. simpl in *. rewrite <- Permutation_middle in Hd |- *. apply NoDup_cons in Hd as [Hd1 Hd2]. apply NoDup_cons. split; [|done].
      rewrite Forall_app in Hn. destruct Hn as [_ [Hn _]%Forall_cons]. simpl in Hn. unfold post'.
      rewrite (Permutation_map node (place_before_perm n post2)). simpl. rewrite <- Permutation_middle, elem_of_cons. intros [E|E]; [lia|done]. }
    rewrite Hsp. cbn [rbind]. exists (mkReady (<[c := t :: q]> (readyInsts r)) (pre2 ++ post') (queueOnList r) (<[c := Some (nextNode r)]> (readyIt r)) (Pos.succ (nextNode r))), post'.
    split; [done|]. split; [|done]. rewrite <- (list_insert_id (queueOnList r) c true) by done.
    apply (ready_upd r c (t :: q) (nextNode r) (pre2 ++ post')); try done.
    + apply aged_app in Ho as (Ho1 & [Ho2 _]%StronglySorted_inv & Ho3). apply aged_app. split_and!; [done|by apply place_before_aged|].
        intros x y Hx. unfold post'. rewrite place_before_perm, elem_of_cons. intros [->|Hy]; [|apply Ho3; set_solver].
        simpl. apply Z.le_trans with p; [apply (Ho3 x (mkEntry it2 c p)); set_solver|]. rewrite Forall_forall in HF. apply HF. by left.
    + intros e. unfold post'. rewrite place_before_perm, <- Permutation_middle, elem_of_cons, Hrest. split; [|naive_solver].
        intros [->|?]; [right; by exists t, q|by left].
Qed.

Lemma reset_ready_ok n : ready_ok (reset_ready n).
Proof.
  split; unfold reset_ready; cbn [readyInsts listOrder queueOnList readyIt nextNode]; rewrite ?length_replicate; try done.
  - intros c q [-> _]%lookup_replicate. constructor.
  - constructor.
  - split; constructor.
  - intros c q [-> Hc]%lookup_replicate. split; [by apply lookup_replicate_2|]. split; [by apply lookup_replicate_2|]. by intros e ?%not_elem_of_nil.
  - by intros c p q [? _]%lookup_replicate.
Qed.
