(* ===== verification/InstQueue.v ===== *)
(** * The instruction queue

    [cpu/o3/inst_queue.hh] and [cpu/o3/inst_queue.cc]: the queue holds renamed
    instructions until their operands are ready, selects the oldest ready ones when
    there is a functional unit for them, and wakes the instructions that wait for a
    result.  It is built from the dependency graph ([DepGraph.v]), the ready lists
    ([ReadyList.v]) and the pool of functional units ([FUPool.v]); the memory
    dependence unit of each thread is used through the interface [MemDep].

    Instructions are shared objects in a heap.  An instruction is its [seqNum], and the
    lists of the queue hold these numbers.  When the memory dependence unit
    calls [addReadyMemInst], which only touches the ready lists, the model does so after
    the unit returns.  Events of functional units are kept in [completions].
    Statistics, debug output and the times recorded in instructions are left out. *)

From Stdlib Require Import ZArith Lia Bool.
From stdpp Require Import base tactics option list numbers gmap sorting.
From S2P Require Import Prelude Phast RenameMap RenameRegs FUPool DepGraph ReadyList.
Open Scope Z_scope.

(** ** Instructions *)

(** What the queue reads of [StaticInst] beside [RenameRegs.StaticInst]. *)
Record IqStatic := mkIqStatic {
  op_class : nat; isNonSpeculative : bool; isReadBarrier : bool; isWriteBarrier : bool; isHtmCmd : bool; instAddr : Z
}.

(** The flags of [DynInst] that the queue reads or writes. *)
Record IqFlags := mkIqFlags {
  IqEntry : bool; Issued : bool; SquashedInIQ : bool; AtCommit : bool; CanCommit : bool; Completed : bool; MemOpDone : bool;
  TranslationStarted : bool; TranslationCompleted : bool
}.

Record IQInst := mkIQInst {
  base : DynInst; stat : IqStatic; flags : IqFlags;
  hasFault : bool;                          (* getFault() != NoFault *)
  sqIdx : Z; effAddr : Z; effSize : Z;      (* read by the memory dependence unit *)
  storeQueueDistance : Z                    (* memDepInfo.storeQueueDistance *)
}.

Definition set_base (d : DynInst) (i : IQInst) : IQInst := mkIQInst d (stat i) (flags i) (hasFault i) (sqIdx i) (effAddr i) (effSize i)
  (storeQueueDistance i).
Definition set_flags (f : IqFlags) (i : IQInst) : IQInst := mkIQInst (base i) (stat i) f (hasFault i) (sqIdx i) (effAddr i) (effSize i)
  (storeQueueDistance i).

Definition isMemRef (i : IQInst) : bool :=
  isLoad (staticInst (base i)) || isStore (staticInst (base i)) || isAtomic (staticInst (base i)).
Definition isFullMemBarrier (i : IQInst) : bool := isReadBarrier (stat i) && isWriteBarrier (stat i).
Definition readyToIssue (i : IQInst) : bool := CanIssue (status (base i)).
Definition inst_thread (i : IQInst) : nat := threadNumber (base i).
Definition src_regs (i : IQInst) : list preg := renamedSrcIdx (operands (base i)).
Definition src_ready (i : IQInst) : list bool := readySrcIdx (operands (base i)).
Definition dest_regs (i : IQInst) : list preg := renamedDestIdx (operands (base i)).
Definition numSrcRegs (i : IQInst) : nat := length (srcRegs (staticInst (base i))).

Definition write_IqEntry (b : bool) (i : IQInst) : IQInst :=
  let f := flags i in
  set_flags (mkIqFlags b (Issued f) (SquashedInIQ f) (AtCommit f) (CanCommit f) (Completed f) (MemOpDone f)
    (TranslationStarted f) (TranslationCompleted f)) i.
Definition setInIQ : IQInst -> IQInst := write_IqEntry true.
Definition clearInIQ : IQInst -> IQInst := write_IqEntry false.
Definition write_Issued (b : bool) (i : IQInst) : IQInst :=
  let f := flags i in
  set_flags (mkIqFlags (IqEntry f) b (SquashedInIQ f) (AtCommit f) (CanCommit f) (Completed f) (MemOpDone f)
    (TranslationStarted f) (TranslationCompleted f)) i.
Definition setIssued : IQInst -> IQInst := write_Issued true.
Definition clearIssued : IQInst -> IQInst := write_Issued false.
Definition setSquashedInIQ (i : IQInst) : IQInst :=
  let f := flags i in
  set_base (mark_squashed false (base i))
    (set_flags (mkIqFlags (IqEntry f) (Issued f) true (AtCommit f) (CanCommit f) (Completed f) (MemOpDone f)
      (TranslationStarted f) (TranslationCompleted f)) i).
Definition setAtCommit (i : IQInst) : IQInst :=
  let f := flags i in
  set_flags (mkIqFlags (IqEntry f) (Issued f) (SquashedInIQ f) true (CanCommit f) (Completed f) (MemOpDone f)
    (TranslationStarted f) (TranslationCompleted f)) i.
Definition setCanCommit (i : IQInst) : IQInst :=
  let f := flags i in
  set_flags (mkIqFlags (IqEntry f) (Issued f) (SquashedInIQ f) (AtCommit f) true (Completed f) (MemOpDone f)
    (TranslationStarted f) (TranslationCompleted f)) i.
Definition memOpDone (i : IQInst) : IQInst :=
  let f := flags i in
  set_flags (mkIqFlags (IqEntry f) (Issued f) (SquashedInIQ f) (AtCommit f) (CanCommit f) (Completed f) true
    (TranslationStarted f) (TranslationCompleted f)) i.
Definition clear_translation (i : IQInst) : IQInst :=
  let f := flags i in
  set_flags (mkIqFlags (IqEntry f) (Issued f) (SquashedInIQ f) (AtCommit f) (CanCommit f) (Completed f) (MemOpDone f) false false) i.

Definition write_CanIssue (b : bool) (d : DynInst) : DynInst :=
  let s := status d in
  set_status d (mkStatus (SerializeBefore s) (SerializeAfter s) (SerializeHandled s) (Squashed s) b
    (PinnedRegsRenamed s) (PinnedRegsWritten s) (PinnedRegsSquashDone s)).
Definition setCanIssue (i : IQInst) : IQInst := set_base (write_CanIssue true (base i)) i.
Definition clearCanIssue (i : IQInst) : IQInst := set_base (write_CanIssue false (base i)) i.

Definition setPinnedRegsWritten (i : IQInst) : res IQInst :=
  let s := status (base i) in
  check! negb (PinnedRegsSquashDone s);
  check! PinnedRegsRenamed s;
  Ok (set_base (set_status (base i) (mkStatus (SerializeBefore s) (SerializeAfter s) (SerializeHandled s) (Squashed s) (CanIssue s)
    (PinnedRegsRenamed s) true (PinnedRegsSquashDone s))) i).

(** [markSrcRegReady()]. *)
Definition markSrcRegReady (i : IQInst) : IQInst :=
  let o := operands (base i) in
  let i' := set_base (set_operands (base i) (mkOperands (S (readyRegs o)) (renamedSrcIdx o) (readySrcIdx o)
              (flatDestIdx o) (renamedDestIdx o) (prevDestIdx o))) i in
  if (S (readyRegs o) =? numSrcRegs i)%nat then setCanIssue i' else i'.
(** [markSrcRegReady(src_idx)]. *)
Definition markSrcRegReady_at (src_idx : nat) (i : IQInst) : res IQInst :=
  let o := operands (base i) in
  let! l := upd_ (readySrcIdx o) src_idx true in
  Ok (markSrcRegReady (set_base (set_operands (base i) (mkOperands (readyRegs o) (renamedSrcIdx o) l
        (flatDestIdx o) (renamedDestIdx o) (prevDestIdx o))) i)).

(** ** The memory dependence unit, as the queue sees it *)

(** [woken] are the instructions for which the unit called [addReadyMemInst], in
    order; [held] tells that it cleared [CanIssue] of the inserted instruction. *)
Record MdOut := mkMdOut { woken : list Z; held : bool }.
Definition noOut : MdOut := mkMdOut [] false.

(** [M] is a unit and [E] what [insert] looks up in other parts of the CPU. *)
Class MemDep (M E : Type) := {
  md_insert : E -> Z -> IQInst -> list branchInfo -> M -> res (M * MdOut);
  md_insertNonSpec : Z -> IQInst -> M -> res (M * MdOut);
  md_insertBarrier : Z -> IQInst -> M -> res (M * MdOut);
  md_regsReady : Z -> IQInst -> M -> res (M * MdOut);
  md_nonSpecInstReady : Z -> IQInst -> M -> res (M * MdOut);
  md_issue : Z -> IQInst -> M -> res (M * MdOut);
  md_completeInst : Z -> IQInst -> M -> res (M * MdOut);
  md_reschedule : Z -> IQInst -> M -> res (M * MdOut);
  md_replay : M -> res (M * MdOut);
  md_violation : Z -> Z -> Z -> IQInst -> list branchInfo -> M -> res (M * MdOut);
  md_squash : Z -> nat -> M -> res (M * MdOut);
  md_isDrained : M -> bool;
  md_drainSanityCheck : M -> res unit
}.

(** ** State *)

Record IQ := mkIQ {
  instList : list (list Z);
  instsToExecute : list Z;
  deferredMemInsts : list Z; blockedMemInsts : list Z; retryMemInsts : list Z;
  ready : ReadyLists;
  nonSpecInsts : gset Z;
  graph : DependencyGraph;
  regScoreboard : list bool;
  count : list Z; maxEntries : list Z;      (* unsigned *)
  freeEntries : Z;                          (* unsigned *)
  wbOutstanding : Z;                        (* int *)
  squashedSeqNum : list Z
}.

(** [FUCompletion], with the number of cycles after which it is scheduled. *)
Record FUCompletion := mkFUCompletion { fc_inst : Z; fuIdx : Z; freeFU : bool; delay : Z }.

Record IQConfig := mkIQConfig {
  iqPolicy : SMTQueuePolicy; numThreads : nat;
  numEntries : Z;                           (* unsigned *)
  totalWidth : nat;
  thresholdIQ : Z;                          (* the product of [smtIQThreshold] and [numEntries], computed in floating point *)
  numPhysRegs : nat
}.

(** The queue with what it shares with the other parts of the CPU. *)
Record IQState (M : Type) := mkState {
  iq : IQ; heap : gmap Z IQInst; file : regfile; fuPool : FUPool; memDepUnit : list M;
  decodedBranchHistory : list branchInfo;
  completions : list FUCompletion;
  issueSize : Z; issuePrevSize : Z          (* issueToExecuteQueue->access(0)->size and access(-1)->size *)
}.
Arguments mkState {M}.
Arguments iq {M}.
Arguments heap {M}.
Arguments file {M}.
Arguments fuPool {M}.
Arguments memDepUnit {M}.
Arguments decodedBranchHistory {M}.
Arguments completions {M}.
Arguments issueSize {M}.
Arguments issuePrevSize {M}.

Section Setters.
Context (q : IQ).
Definition set_instList x := mkIQ x (instsToExecute q) (deferredMemInsts q) (blockedMemInsts q) (retryMemInsts q) (ready q) (nonSpecInsts q)
  (graph q) (regScoreboard q) (count q) (maxEntries q) (freeEntries q) (wbOutstanding q) (squashedSeqNum q).
Definition set_toExecute x := mkIQ (instList q) x (deferredMemInsts q) (blockedMemInsts q) (retryMemInsts q) (ready q) (nonSpecInsts q)
  (graph q) (regScoreboard q) (count q) (maxEntries q) (freeEntries q) (wbOutstanding q) (squashedSeqNum q).
Definition set_memLists d b r := mkIQ (instList q) (instsToExecute q) d b r (ready q) (nonSpecInsts q)
  (graph q) (regScoreboard q) (count q) (maxEntries q) (freeEntries q) (wbOutstanding q) (squashedSeqNum q).
Definition set_ready x := mkIQ (instList q) (instsToExecute q) (deferredMemInsts q) (blockedMemInsts q) (retryMemInsts q) x (nonSpecInsts q)
  (graph q) (regScoreboard q) (count q) (maxEntries q) (freeEntries q) (wbOutstanding q) (squashedSeqNum q).
Definition set_nonSpec x := mkIQ (instList q) (instsToExecute q) (deferredMemInsts q) (blockedMemInsts q) (retryMemInsts q) (ready q) x
  (graph q) (regScoreboard q) (count q) (maxEntries q) (freeEntries q) (wbOutstanding q) (squashedSeqNum q).
Definition set_graph x := mkIQ (instList q) (instsToExecute q) (deferredMemInsts q) (blockedMemInsts q) (retryMemInsts q) (ready q) (nonSpecInsts q)
  x (regScoreboard q) (count q) (maxEntries q) (freeEntries q) (wbOutstanding q) (squashedSeqNum q).
Definition set_board g x := mkIQ (instList q) (instsToExecute q) (deferredMemInsts q) (blockedMemInsts q) (retryMemInsts q) (ready q) (nonSpecInsts q)
  g x (count q) (maxEntries q) (freeEntries q) (wbOutstanding q) (squashedSeqNum q).
Definition set_counts c n := mkIQ (instList q) (instsToExecute q) (deferredMemInsts q) (blockedMemInsts q) (retryMemInsts q) (ready q) (nonSpecInsts q)
  (graph q) (regScoreboard q) c (maxEntries q) n (wbOutstanding q) (squashedSeqNum q).
Definition set_maxEntries x := mkIQ (instList q) (instsToExecute q) (deferredMemInsts q) (blockedMemInsts q) (retryMemInsts q) (ready q)
  (nonSpecInsts q) (graph q) (regScoreboard q) (count q) x (freeEntries q) (wbOutstanding q) (squashedSeqNum q).
Definition set_wb x := mkIQ (instList q) (instsToExecute q) (deferredMemInsts q) (blockedMemInsts q) (retryMemInsts q) (ready q) (nonSpecInsts q)
  (graph q) (regScoreboard q) (count q) (maxEntries q) (freeEntries q) x (squashedSeqNum q).
Definition set_squashed x := mkIQ (instList q) (instsToExecute q) (deferredMemInsts q) (blockedMemInsts q) (retryMemInsts q) (ready q)
  (nonSpecInsts q) (graph q) (regScoreboard q) (count q) (maxEntries q) (freeEntries q) (wbOutstanding q) x.
End Setters.

Section StateSetters.
Context {M : Type} (s : IQState M).
Definition set_iq x := mkState x (heap s) (file s) (fuPool s) (memDepUnit s) (decodedBranchHistory s) (completions s) (issueSize s) (issuePrevSize s).
Definition set_heap x := mkState (iq s) x (file s) (fuPool s) (memDepUnit s) (decodedBranchHistory s) (completions s) (issueSize s) (issuePrevSize s).
Definition set_file x := mkState (iq s) (heap s) x (fuPool s) (memDepUnit s) (decodedBranchHistory s) (completions s) (issueSize s) (issuePrevSize s).
Definition set_fuPool x := mkState (iq s) (heap s) (file s) x (memDepUnit s) (decodedBranchHistory s) (completions s) (issueSize s) (issuePrevSize s).
Definition set_units (x : list M) := mkState (iq s) (heap s) (file s) (fuPool s) x (decodedBranchHistory s) (completions s) (issueSize s) (issuePrevSize s).
Definition set_history x := mkState (iq s) (heap s) (file s) (fuPool s) (memDepUnit s) x (completions s) (issueSize s) (issuePrevSize s).
Definition set_completions x := mkState (iq s) (heap s) (file s) (fuPool s) (memDepUnit s) (decodedBranchHistory s) x (issueSize s) (issuePrevSize s).
Definition set_sizes a b := mkState (iq s) (heap s) (file s) (fuPool s) (memDepUnit s) (decodedBranchHistory s) (completions s) a b.
End StateSetters.

(** ** Construction and partitioning *)

(** [resetState] keeps [graph], [maxEntries] and [instsToExecute].  The list nodes of
    the ready lists get new identities. *)
Definition resetState (c : IQConfig) (q : IQ) : IQ :=
  mkIQ (replicate MaxThreads []) (instsToExecute q) [] [] [] (reset_ready (nextNode (ready q))) ∅ (graph q) (replicate (numPhysRegs c) false)
    (replicate MaxThreads 0) (maxEntries q) (numEntries c) 0 (replicate MaxThreads 0).

Definition max_entries (c : IQConfig) (tid : nat) : Z :=
  if (tid <? numThreads c)%nat then
    match iqPolicy c with
    | Dynamic => numEntries c
    | Partitioned => numEntries c / Z.of_nat (numThreads c)
    | Threshold => wrap 32 (thresholdIQ c)
    end
  else 0.

Definition IQ_new (c : IQConfig) : IQ :=
  set_maxEntries
    (resetState c (mkIQ [] [] [] [] [] (reset_ready 1) ∅ (resize (numPhysRegs c) DependencyGraph_new) [] [] [] 0 0 []))
    (map (max_entries c) (seq 0 MaxThreads)).

Definition takeOverFrom : IQConfig -> IQ -> IQ := resetState.

Definition entryAmount (c : IQConfig) (num_threads : Z) : Z :=
  match iqPolicy c with Partitioned => numEntries c / num_threads | _ => 0 end.

Fixpoint reset_entries_loop (c : IQConfig) (n : Z) (tids : list nat) (m : list Z) : res (list Z) :=
  match tids with
  | [] => Ok m
  | tid :: tids =>
      let! m := (if bool_decide (iqPolicy c = Partitioned) then upd_ m tid (numEntries c / n)
        else if bool_decide (iqPolicy c = Threshold) && (n =? 1) then upd_ m tid (numEntries c) else Ok m) in
      reset_entries_loop c n tids m
  end.
Definition resetEntries (c : IQConfig) (activeThreads : list nat) (q : IQ) : res IQ :=
  if negb (bool_decide (iqPolicy c = Dynamic)) || (1 <? numThreads c)%nat then
    let! m := reset_entries_loop c (Z.of_nat (length activeThreads)) activeThreads (maxEntries q) in Ok (set_maxEntries q m)
  else Ok q.

(** ** Queries *)

Definition numFreeEntries (q : IQ) : Z := freeEntries q.
Definition numFreeEntries_thread (q : IQ) (tid : nat) : res Z :=
  let! m := nth_ (maxEntries q) tid in let! n := nth_ (count q) tid in Ok (wrap 32 (m - n)).
Definition isFull (q : IQ) : bool := freeEntries q =? 0.
Definition isFull_thread (q : IQ) (tid : nat) : res bool := let! n := numFreeEntries_thread q tid in Ok (n =? 0).
Definition countInsts (c : IQConfig) (q : IQ) : Z := swrap 32 (numEntries c - freeEntries q).
Definition getCount (q : IQ) (tid : nat) : res Z := nth_ (count q) tid.
(** The assertion at the end of [insert], [insertNonSpec] and [commit]. *)
Definition check_free (c : IQConfig) (q : IQ) : res unit := assert_ (freeEntries q =? wrap 32 (numEntries c - countInsts c q)).

Section queue.
Context {M E : Type} `{MemDep M E}.
Implicit Type s : IQState M.

Definition isDrained (c : IQConfig) s : bool :=
  DepGraph.empty (graph (iq s)) && bool_decide (instsToExecute (iq s) = []) && (wbOutstanding (iq s) =? 0) &&
  forallb md_isDrained (take (numThreads c) (memDepUnit s)).

Fixpoint drain_units (ms : list M) : res unit :=
  match ms with
  | [] => Ok tt
  | m :: ms => let! _ := md_drainSanityCheck m in drain_units ms
  end.
Definition drainSanityCheck (c : IQConfig) s : res unit :=
  check! DepGraph.empty (graph (iq s));
  check! bool_decide (instsToExecute (iq s) = []);
  drain_units (take (numThreads c) (memDepUnit s)).

(** ** Helpers *)

Definition get s (p : Z) : res IQInst := deref (heap s !! p).
Definition put s (p : Z) (i : IQInst) : IQState M := set_heap s (<[p := i]> (heap s)).
Definition upd_inst s (p : Z) (f : IQInst -> IQInst) : res (IQState M) := let! i := get s p in Ok (put s p (f i)).

(** [flatIndex] of a register. *)
Definition flat s (r : preg) : res nat := let! x := deref (file s !! r) in Ok (Z.to_nat (flatIdx x)).

Definition push_inst (l : list Z) (p : Z) : list Z := l ++ [p].
Definition append_inst (tid : nat) (p : Z) (q : IQ) : res IQ :=
  let! l := nth_ (instList q) tid in let! ls := upd_ (instList q) tid (push_inst l p) in Ok (set_instList q ls).

(** [count[tid] += n] and [freeEntries -= n]. *)
Definition move_entry (tid : nat) (n : Z) (q : IQ) : res IQ :=
  let! k := nth_ (count q) tid in
  let! ks := upd_ (count q) tid (wrap 32 (k + n)) in
  Ok (set_counts q ks (wrap 32 (freeEntries q - n))).

(** ** Ready instructions *)

Definition addReadyMemInst s (ready_inst : Z) : res (IQState M) :=
  let! i := get s ready_inst in
  let! r := push_ready (op_class (stat i)) ready_inst (ready (iq s)) in
  Ok (set_iq s (set_ready (iq s) r)).

Fixpoint add_ready_all (ps : list Z) s : res (IQState M) :=
  match ps with
  | [] => Ok s
  | p :: ps => let! s := addReadyMemInst s p in add_ready_all ps s
  end.

(** A call of the unit of a thread. *)
Definition call_unit (tid : nat) (f : M -> res (M * MdOut)) s : res (IQState M * bool) :=
  let! m := nth_ (memDepUnit s) tid in
  let! (m, o) := f m in
  let! ms := upd_ (memDepUnit s) tid m in
  let! s := add_ready_all (woken o) (set_units s ms) in
  Ok (s, held o).

Definition addIfReady s (p : Z) : res (IQState M) :=
  let! i := get s p in
  if readyToIssue i then
    if isMemRef i then let! (s, _) := call_unit (inst_thread i) (md_regsReady p i) s in Ok s
    else addReadyMemInst s p
  else Ok s.

(** ** Insertion *)

(** The loop of [addToDependents] over the sources from index [k]. *)
Fixpoint dependents_loop (p : Z) (k : nat) (srcs : list preg) s : res (IQState M) :=
  match srcs with
  | [] => Ok s
  | src_reg :: srcs =>
      let! i := get s p in
      let! rdy := nth_ (src_ready i) k in
      let! s := (if (rdy : bool) then Ok s
        else if isFixedMapping src_reg then Ok s
        else
          let! f := flat s src_reg in
          let! b := nth_ (regScoreboard (iq s)) f in
          if negb b then let! g := DepGraph.insert f p (graph (iq s)) in Ok (set_iq s (set_graph (iq s) g))
          else let! i := markSrcRegReady_at k i in Ok (put s p i)) in
      dependents_loop p (S k) srcs s
  end.

(** The number of registers is read into an [int8_t]. *)
Definition int8_len {A} (l : list A) : nat := Z.to_nat (swrap 8 (Z.of_nat (length l))).

Definition addToDependents s (p : Z) : res (IQState M) :=
  let! i := get s p in dependents_loop p 0 (take (int8_len (src_regs i)) (src_regs i)) s.

Fixpoint producers_loop (p : Z) (dests : list preg) s : res (IQState M) :=
  match dests with
  | [] => Ok s
  | dest_reg :: dests =>
      let! s := (if isFixedMapping dest_reg then Ok s
        else
          let! f := flat s dest_reg in
          let! e := empty_at f (graph (iq s)) in
          if negb e then Err Panicked
          else
            let! g := setInst f p (graph (iq s)) in
            let! b := upd_ (regScoreboard (iq s)) f false in
            Ok (set_iq s (set_board (iq s) g b))) in
      producers_loop p dests s
  end.
Definition addToProducers s (p : Z) : res (IQState M) :=
  let! i := get s p in producers_loop p (take (int8_len (dest_regs i)) (dest_regs i)) s.

Definition recordProducer : IQState M -> Z -> res (IQState M) := addToProducers.

(** [append] and [--freeEntries] at the start of an insertion. *)
Definition enter s (p : Z) : res (IQState M) :=
  let! i := get s p in
  check! negb (freeEntries (iq s) =? 0);
  let! q := append_inst (inst_thread i) p (iq s) in
  let s := set_iq s (set_counts q (count q) (wrap 32 (freeEntries q - 1))) in
  upd_inst s p setInIQ.

(** [count[tid]++] and the assertion at its end. *)
Definition counted (c : IQConfig) (tid : nat) s : res (IQState M) :=
  let! k := nth_ (count (iq s)) tid in
  let! ks := upd_ (count (iq s)) tid (wrap 32 (k + 1)) in
  let q := set_counts (iq s) ks (freeEntries (iq s)) in
  let! _ := check_free c q in
  Ok (set_iq s q).

Definition insert (c : IQConfig) (e : E) s (new_inst : Z) : res (IQState M) :=
  let! s := enter s new_inst in
  let! s := addToDependents s new_inst in
  let! s := addToProducers s new_inst in
  let! i := get s new_inst in
  let! s := (if isMemRef i then
      let! (s, h) := call_unit (inst_thread i) (md_insert e new_inst i (decodedBranchHistory s)) s in
      if (h : bool) then upd_inst s new_inst clearCanIssue else Ok s
    else addIfReady s new_inst) in
  counted c (inst_thread i) s.

Definition insertNonSpec (c : IQConfig) s (new_inst : Z) : res (IQState M) :=
  let s := set_iq s (set_nonSpec (iq s) ({[new_inst]} ∪ nonSpecInsts (iq s))) in
  let! s := enter s new_inst in
  let! s := addToProducers s new_inst in
  let! i := get s new_inst in
  let! s := (if isMemRef i then let! (s, _) := call_unit (inst_thread i) (md_insertNonSpec new_inst i) s in Ok s else Ok s) in
  counted c (inst_thread i) s.

Definition insertBarrier (c : IQConfig) s (barr_inst : Z) : res (IQState M) :=
  let! i := get s barr_inst in
  let! (s, _) := call_unit (inst_thread i) (md_insertBarrier barr_inst i) s in
  insertNonSpec c s barr_inst.

(** ** Issue *)

Definition getInstToExecute s : res (Z * IQState M) :=
  match instsToExecute (iq s) with
  | [] => Err AssertFailed
  | p :: l => Ok (p, set_iq s (set_toExecute (iq s) l))
  end.

Definition processFUCompletion (p : Z) (fu_idx : Z) s : res (IQState M) :=
  let q := set_wb (iq s) (wbOutstanding (iq s) - 1) in
  let s := set_iq s (set_toExecute q (instsToExecute q ++ [p])) in
  let! fu := (if (-1 <? fu_idx) then freeUnitNextCycle (Z.to_nat fu_idx) (fuPool s) else Ok (fuPool s)) in
  Ok (set_sizes (set_fuPool s fu) (issueSize s) (issuePrevSize s + 1)).
(** [FUCompletion::process]. *)
Definition process_completion (x : FUCompletion) s : res (IQState M) :=
  processFUCompletion (fc_inst x) (if freeFU x then fuIdx x else -1) s.

(** The search of [getDeferredMemInstToExecute]. *)
Fixpoint find_deferred (h : gmap Z IQInst) (l : list Z) : res (option (Z * list Z)) :=
  match l with
  | [] => Ok None
  | p :: l =>
      let! i := deref (h !! p) in
      if TranslationCompleted (flags i) || isSquashed (base i) then Ok (Some (p, l))
      else let! r := find_deferred h l in Ok ((fun '(x, l') => (x, p :: l')) <$> r)
  end.
Definition getDeferredMemInstToExecute s : res (option (Z * IQState M)) :=
  let! r := find_deferred (heap s) (deferredMemInsts (iq s)) in
  Ok ((fun '(p, l) => (p, set_iq s (set_memLists (iq s) l (blockedMemInsts (iq s)) (retryMemInsts (iq s))))) <$> r).
Definition getBlockedMemInstToExecute s : option (Z * IQState M) :=
  match retryMemInsts (iq s) with
  | [] => None
  | p :: l => Some (p, set_iq s (set_memLists (iq s) (deferredMemInsts (iq s)) (blockedMemInsts (iq s)) l))
  end.

Fixpoint deferred_loop (fuel : nat) s : res (IQState M) :=
  let! r := getDeferredMemInstToExecute s in
  match r with
  | None => Ok s
  | Some (p, s) =>
      match fuel with
      | O => Err OutOfFuel
      | S fuel => let! s := addReadyMemInst s p in deferred_loop fuel s
      end
  end.
Fixpoint retry_loop (fuel : nat) s : res (IQState M) :=
  match getBlockedMemInstToExecute s with
  | None => Ok s
  | Some (p, s) =>
      match fuel with
      | O => Err OutOfFuel
      | S fuel => let! s := addReadyMemInst s p in retry_loop fuel s
      end
  end.

(** The functional unit for an operation class, and its latency. *)
Definition get_unit (c : nat) s : res (Z * Z * IQState M) :=
  if (c =? No_OpClass)%nat then Ok (NoCapableFU, 1, s)
  else
    let! (idx, fu) := getUnit c (fuPool s) in
    let s := set_fuPool s fu in
    if NoFreeFU <? idx then let! l := getOpLatency c fu in Ok (idx, l, s) else Ok (idx, 1, s).

(** What happens to the unit when an instruction issues to it. *)
Definition issue_to (p : Z) (c : nat) (idx op_latency : Z) s : res (IQState M) :=
  if op_latency =? 1 then
    let s := set_sizes s (issueSize s + 1) (issuePrevSize s) in
    let s := set_iq s (set_toExecute (iq s) (instsToExecute (iq s) ++ [p])) in
    if 0 <=? idx then let! fu := freeUnitNextCycle (Z.to_nat idx) (fuPool s) in Ok (set_fuPool s fu) else Ok s
  else
    let! pl := FUPool.isPipelined c (fuPool s) in
    let s := set_iq s (set_wb (iq s) (wbOutstanding (iq s) + 1)) in
    let s := set_completions s (completions s ++ [mkFUCompletion p idx (negb pl) (wrap 64 (op_latency - 1))]) in
    if (pl : bool) then
      let! issueLat := getOpIssueLatency c (fuPool s) in
      let! fu := (if negb (swrap 32 issueLat =? 1) then freeUnitXCycles (Z.to_nat idx) (swrap 32 issueLat) (fuPool s)
        else freeUnitNextCycle (Z.to_nat idx) (fuPool s)) in
      Ok (set_fuPool s fu)
    else Ok s.

(** The top of a ready queue leaves it. *)
Definition pop_top (c : nat) (order_it : positive) s : res (option positive * IQState M) :=
  let! (it, r) := pop_ready c order_it (ready (iq s)) in Ok (it, set_iq s (set_ready (iq s) r)).

(** [++order_it]. *)
Definition next_order (order_it : positive) s : res (option positive) :=
  let! (pre, x, post) := split_at order_it (listOrder (ready (iq s))) in Ok (node <$> head post).

(** The loop of [scheduleReadyInsts]; the result has the number of issued instructions. *)
Fixpoint schedule_loop (fuel : nat) (width total_issued : nat) (order_it : option positive) s : res (nat * IQState M) :=
  match order_it with
  | None => Ok (total_issued, s)
  | Some it =>
      if (total_issued <? width)%nat then
        match fuel with
        | O => Err OutOfFuel
        | S fuel =>
            let! (pre, x, post) := split_at it (listOrder (ready (iq s))) in
            let c := queueType x in
            let! rq := nth_ (readyInsts (ready (iq s))) c in
            match rq with
            | [] => Err AssertFailed
            | p :: _ =>
                let! i := get s p in
                check! p =? oldestInst x;
                if isSquashed (base i) then
                  let! (it, s) := pop_top c it s in schedule_loop fuel width total_issued it s
                else
                  let! (idx, op_latency, s) := get_unit c s in
                  if negb (idx =? NoFreeFU) then
                    let! s := issue_to p c idx op_latency s in
                    let! (it, s) := pop_top c it s in
                    let! s := upd_inst s p setIssued in
                    let! s := (if negb (isMemRef i) then
                        let! q := move_entry (inst_thread i) (-1) (iq s) in upd_inst (set_iq s q) p clearInIQ
                      else let! (s, _) := call_unit (inst_thread i) (md_issue p i) s in Ok s) in
                    schedule_loop fuel width (S total_issued) it s
                  else let! it := next_order it s in schedule_loop fuel width total_issued it s
            end
        end
      else Ok (total_issued, s)
  end.

Definition schedule_fuel (r : ReadyLists) : nat := (list_sum (map length (readyInsts r)) + length (listOrder r))%nat.

Definition scheduleReadyInsts (c : IQConfig) s : res (nat * IQState M) :=
  let! s := deferred_loop (length (deferredMemInsts (iq s))) s in
  let! s := retry_loop (length (retryMemInsts (iq s))) s in
  schedule_loop (schedule_fuel (ready (iq s))) (totalWidth c) 0 (node <$> head (listOrder (ready (iq s)))) s.

Definition scheduleNonSpec (p : Z) s : res (IQState M) :=
  check! bool_decide (p ∈ nonSpecInsts (iq s));
  let! s := upd_inst s p (fun i => setCanIssue (setAtCommit i)) in
  let! i := get s p in
  let! s := (if negb (isMemRef i) then addIfReady s p
    else let! (s, _) := call_unit (inst_thread i) (md_nonSpecInstReady p i) s in Ok s) in
  Ok (set_iq s (set_nonSpec (iq s) (nonSpecInsts (iq s) ∖ {[p]}))).

(** ** Commit and wake-up *)

Fixpoint commit_loop (n : Z) (l : list Z) : list Z :=
  match l with
  | p :: l' => if p <=? n then commit_loop n l' else l
  | [] => []
  end.
Definition commit (c : IQConfig) (n : Z) (tid : nat) s : res (IQState M) :=
  let! l := nth_ (instList (iq s)) tid in
  let! ls := upd_ (instList (iq s)) tid (commit_loop n l) in
  let q := set_instList (iq s) ls in
  let! _ := check_free c q in
  Ok (set_iq s q).

(** The loop over the dependents of a register. *)
Fixpoint wake_loop (fuel : nat) (f : nat) (dependents : nat) s : res (nat * IQState M) :=
  let! (d, g) := pop f (graph (iq s)) in
  let s := set_iq s (set_graph (iq s) g) in
  match d with
  | None => Ok (dependents, s)
  | Some dep_inst =>
      match fuel with
      | O => Err OutOfFuel
      | S fuel =>
          let! s := upd_inst s dep_inst markSrcRegReady in
          let! s := addIfReady s dep_inst in
          wake_loop fuel f (S dependents) s
      end
  end.

(** One destination register of a completed instruction. *)
Definition wake_dest (p : Z) (dest_reg : preg) (dependents : nat) s : res (nat * IQState M) :=
  if isFixedMapping dest_reg then Ok (dependents, s)
  else
    let! r := deref (file s !! dest_reg) in
    let r := decrNumPinnedWritesToComplete r in
    let s := set_file s (<[dest_reg := r]> (file s)) in
    let! s := (if pinned r then let! i := get s p in let! i := setPinnedRegsWritten i in Ok (put s p i) else Ok s) in
    if negb (numPinnedWritesToComplete r =? 0) then Ok (dependents, s)
    else
      let f := Z.to_nat (flatIdx r) in
      let! (n, s) := wake_loop (size (nodes (graph (iq s)))) f dependents s in
      let! e := empty_at f (graph (iq s)) in
      check! e;
      let! g := clearInst f (graph (iq s)) in
      let! b := upd_ (regScoreboard (iq s)) f true in
      Ok (n, set_iq s (set_board (iq s) g b)).

Fixpoint wake_dests (p : Z) (dests : list preg) (dependents : nat) s : res (nat * IQState M) :=
  match dests with
  | [] => Ok (dependents, s)
  | d :: dests => let! (n, s) := wake_dest p d dependents s in wake_dests p dests n s
  end.

Definition wakeDependents (completed_inst : Z) s : res (nat * IQState M) :=
  let! i := get s completed_inst in
  check! negb (isSquashed (base i));
  let tid := inst_thread i in
  let! s := (if isMemRef i then
      let! (s, _) := call_unit tid (md_completeInst completed_inst i) s in
      let! s := upd_inst s completed_inst memOpDone in
      let! q := move_entry tid (-1) (iq s) in Ok (set_iq s q)
    else if isReadBarrier (stat i) || isWriteBarrier (stat i) then
      let! (s, _) := call_unit tid (md_completeInst completed_inst i) s in Ok s
    else Ok s) in
  wake_dests completed_inst (dest_regs i) 0 s.

(** ** Memory instructions that have to wait *)

Definition rescheduleMemInst (p : Z) s : res (IQState M) :=
  let! s := upd_inst s p (fun i => clearCanIssue (clear_translation i)) in
  let! i := get s p in
  let! (s, _) := call_unit (inst_thread i) (md_reschedule p i) s in Ok s.

Definition replayMemInst (p : Z) s : res (IQState M) :=
  let! i := get s p in
  let! (s, _) := call_unit (inst_thread i) md_replay s in Ok s.

Definition deferMemInst (p : Z) s : IQState M :=
  set_iq s (set_memLists (iq s) (deferredMemInsts (iq s) ++ [p]) (blockedMemInsts (iq s)) (retryMemInsts (iq s))).

Definition blockMemInst (p : Z) s : res (IQState M) :=
  let! s := upd_inst s p (fun i => clearCanIssue (clearIssued i)) in
  Ok (set_iq s (set_memLists (iq s) (deferredMemInsts (iq s)) (blockedMemInsts (iq s) ++ [p]) (retryMemInsts (iq s)))).

Definition cacheUnblocked s : IQState M :=
  set_iq s (set_memLists (iq s) (deferredMemInsts (iq s)) [] (retryMemInsts (iq s) ++ blockedMemInsts (iq s))).

Definition violation (store_seq_num store_pc : Z) (p : Z) (hist : list branchInfo) s : res (IQState M) :=
  let! i := get s p in
  let! (s, _) := call_unit (inst_thread i) (md_violation store_seq_num store_pc p i hist) s in Ok s.

(** ** Squash *)

Fixpoint revert_history (sn : Z) (l : list branchInfo) : list branchInfo :=
  match l with
  | b :: l' => if sn <? seqNum b then revert_history sn l' else l
  | [] => []
  end.

(** Whether a squashed instruction is looked for in the dependency graph. *)
Definition in_graph (i : IQInst) : bool :=
  let st := staticInst (base i) in
  let is_acq_rel := isFullMemBarrier i && (isLoad st || (isStore st && negb (isStoreConditional st))) in
  is_acq_rel || (negb (isNonSpeculative (stat i)) && negb (isStoreConditional st) && negb (isAtomic st) &&
    negb (isReadBarrier (stat i)) && negb (isWriteBarrier (stat i))).

(** The loop over its sources from index [k]. *)
Fixpoint unlink_loop (p : Z) (i : IQInst) (k : nat) (srcs : list preg) s : res (IQState M) :=
  match srcs with
  | [] => Ok s
  | src_reg :: srcs =>
      let! rdy := nth_ (src_ready i) k in
      let! s := (if negb rdy && negb (isFixedMapping src_reg) then
          let! f := flat s src_reg in
          let! g := remove f p (graph (iq s)) in Ok (set_iq s (set_graph (iq s) g))
        else Ok s) in
      unlink_loop p i (S k) srcs s
  end.

(** The loop over its destinations. *)
Fixpoint clear_heads (dests : list preg) s : res (IQState M) :=
  match dests with
  | [] => Ok s
  | dest_reg :: dests =>
      let! s := (if isFixedMapping dest_reg then Ok s
        else
          let! f := flat s dest_reg in
          let! e := empty_at f (graph (iq s)) in
          check! e;
          let! g := clearInst f (graph (iq s)) in Ok (set_iq s (set_graph (iq s) g))) in
      clear_heads dests s
  end.

(** The body of the loop of [doSquash] for an instruction it takes out. *)
Definition squash_inst (p : Z) (i : IQInst) s : res (IQState M) :=
  let! s := (if negb (Issued (flags i)) || (isMemRef i && negb (MemOpDone (flags i))) then
      let! s := (if in_graph i then unlink_loop p i 0 (src_regs i) s
        else if negb (isStoreConditional (staticInst (base i))) || negb (Completed (flags i)) then
          if bool_decide (p ∈ nonSpecInsts (iq s)) then Ok (set_iq s (set_nonSpec (iq s) (nonSpecInsts (iq s) ∖ {[p]})))
          else check! hasFault i || isMemRef i; Ok s
        else Ok s) in
      let! s := upd_inst s p (fun i => clearInIQ (setCanCommit (setIssued (setSquashedInIQ i)))) in
      let! q := move_entry (inst_thread i) (-1) (iq s) in Ok (set_iq s q)
    else Ok s) in
  clear_heads (dest_regs i) s.

(** The loop of [doSquash]; [l] is the list of the thread before the iterator, youngest
    first, and [kept] what is behind it.  Stepping back from the first element gives
    [end()]. *)
Fixpoint squash_loop (tid : nat) (sn : Z) (l : list Z) (kept : list Z) s : res (list Z * IQState M) :=
  match l with
  | [] => Ok (kept, s)
  | p :: l' =>
      if sn <? p then
        let! i := get s p in
        if negb (inst_thread i =? tid)%nat || SquashedInIQ (flags i) then squash_loop tid sn l' (p :: kept) s
        else let! s := squash_inst p i s in squash_loop tid sn l' kept s
      else Ok (reverse l ++ kept, s)
  end.

Definition doSquash (tid : nat) s : res (IQState M) :=
  let! sn := nth_ (squashedSeqNum (iq s)) tid in
  let s := set_history s (revert_history sn (decodedBranchHistory s)) in
  let! l := nth_ (instList (iq s)) tid in
  let! (l, s) := squash_loop tid sn (reverse l) [] s in
  let! ls := upd_ (instList (iq s)) tid l in
  Ok (set_iq s (set_instList (iq s) ls)).

(** [doneSeqNum] is the wire from commit. *)
Definition squash (tid : nat) (doneSeqNum : Z) s : res (IQState M) :=
  let! sns := upd_ (squashedSeqNum (iq s)) tid doneSeqNum in
  let! s := doSquash tid (set_iq s (set_squashed (iq s) sns)) in
  let! (s, _) := call_unit tid (md_squash doneSeqNum tid) s in Ok s.

End queue.
