(* ===== verification/InstQueueInv.v ===== *)
(** * The invariant of the instruction queue

    What holds of the state of [InstQueue.v] between the calls of IEW, and the
    interface laws of the memory dependence unit that the queue relies on. *)

From Stdlib Require Import ZArith Lia Bool.
From stdpp Require Import base tactics option list numbers gmap sorting.
From S2P Require Import Prelude Phast RenameMap RenameRegs FUPool DepGraph ReadyList InstQueue.
Open Scope Z_scope.

(** ** What the memory dependence unit promises *)

(** The kind of an instruction, as far as the unit distinguishes them. *)
Record MdKind := mkKind { k_load : bool; k_store : bool; k_atomic : bool; k_rb : bool; k_wb : bool; k_htm : bool }.
Definition kind (i : IQInst) : MdKind :=
  mkKind (isLoad (staticInst (base i))) (isStore (staticInst (base i))) (isAtomic (staticInst (base i)))
    (isReadBarrier (stat i)) (isWriteBarrier (stat i)) (isHtmCmd (stat i)).
Definition k_mem (k : MdKind) : bool := k_load k || k_store k || k_atomic k.

Definition younger_than {A} (l : list (Z * A)) (p : Z) : Prop := forall w, w ∈ l -> fst w < p.

(** [md_ok tid m]: [m] is a valid unit of thread [tid].  [md_live m]: the instructions
    it knows. *)
Class MemDepLaws (M E : Type) `{MemDep M E} := {
  md_ok : nat -> M -> Prop;
  md_live : M -> list (Z * MdKind);
  md_insert_ok : E -> Z -> IQInst -> list branchInfo -> M -> Prop;
  md_complete_ok : Z -> IQInst -> M -> Prop;
  md_violation_ok : Z -> Z -> Z -> IQInst -> list branchInfo -> M -> Prop;
  law_insert tid e p i hist m : md_ok tid m -> inst_thread i = tid -> isMemRef i = true -> younger_than (md_live m) p ->
    md_insert_ok e p i hist m -> exists m' o, md_insert e p i hist m = Ok (m', o) /\ md_ok tid m' /\
      md_live m' = md_live m ++ [(p, kind i)] /\ forall w, w ∈ woken o -> w = p;
  law_insertNonSpec tid p i m : md_ok tid m -> inst_thread i = tid -> isMemRef i = true -> younger_than (md_live m) p ->
    exists m' o, md_insertNonSpec p i m = Ok (m', o) /\ md_ok tid m' /\ md_live m' = md_live m ++ [(p, kind i)] /\ woken o = [];
  law_insertBarrier tid p i m : md_ok tid m -> inst_thread i = tid -> younger_than (md_live m) p ->
    exists m' o, md_insertBarrier p i m = Ok (m', o) /\ md_ok tid m' /\ md_live m' = md_live m ++ [(p, kind i)] /\ woken o = [];
  law_regsReady tid p i m : md_ok tid m -> inst_thread i = tid -> (p, kind i) ∈ md_live m ->
    exists m' o, md_regsReady p i m = Ok (m', o) /\ md_ok tid m' /\ md_live m' = md_live m /\ forall w, w ∈ woken o -> w = p;
  law_nonSpecInstReady tid p i m : md_ok tid m -> inst_thread i = tid -> (p, kind i) ∈ md_live m ->
    exists m' o, md_nonSpecInstReady p i m = Ok (m', o) /\ md_ok tid m' /\ md_live m' = md_live m /\ forall w, w ∈ woken o -> w = p;
  law_issue tid p i m : md_ok tid m ->
    exists m' o, md_issue p i m = Ok (m', o) /\ md_ok tid m' /\ md_live m' = md_live m /\ woken o = [];
  law_completeInst tid p i m : md_ok tid m -> inst_thread i = tid -> (p, kind i) ∈ md_live m -> md_complete_ok p i m ->
    exists m' o, md_completeInst p i m = Ok (m', o) /\ md_ok tid m' /\ md_live m' = filter (fun w => fst w <> p) (md_live m) /\
      forall w, w ∈ woken o -> exists k, (w, k) ∈ md_live m' /\ k_mem k = true;
  law_reschedule tid p i m : md_ok tid m -> inst_thread i = tid -> (p, kind i) ∈ md_live m -> isMemRef i = true ->
    exists m' o, md_reschedule p i m = Ok (m', o) /\ md_ok tid m' /\ md_live m' = md_live m /\ woken o = [];
  law_replay tid m : md_ok tid m ->
    exists m' o, md_replay m = Ok (m', o) /\ md_ok tid m' /\ md_live m' = md_live m /\
      forall w, w ∈ woken o -> exists k, (w, k) ∈ md_live m /\ k_mem k = true;
  law_violation tid n pc p i hist m : md_ok tid m -> md_violation_ok n pc p i hist m ->
    exists m' o, md_violation n pc p i hist m = Ok (m', o) /\ md_ok tid m' /\ md_live m' = md_live m /\ woken o = [];
  law_squash tid n m : md_ok tid m ->
    exists m' o, md_squash n tid m = Ok (m', o) /\ md_ok tid m' /\ md_live m' = filter (fun w => fst w <= n) (md_live m) /\ woken o = []
}.

(** ** The invariant *)

Definition occ (p : Z) (l : list Z) : nat := count_occ Z.eq_dec l p.

(** The index of a register in the dependency graph. *)
Definition flat_of (f : regfile) (r : preg) : option nat := (fun x => Z.to_nat (flatIdx x)) <$> f !! r.

(** The sources of an instruction that have the index [n] and were not ready when it
    entered the queue. *)
Definition unready (f : regfile) (i : IQInst) (n : nat) : nat :=
  length (filter (fun rb : preg * bool => rb.2 = false /\ isFixedMapping rb.1 = false /\ flat_of f rb.1 = Some n) (zip (src_regs i) (src_ready i))).

(** The instruction occupies an entry. *)
Definition holds (i : IQInst) : bool := if isMemRef i then negb (MemOpDone (flags i)) else negb (Issued (flags i)).

Definition holding (h : gmap Z IQInst) (p : Z) : bool := match h !! p with Some i => holds i | None => false end.
Definition holders (h : gmap Z IQInst) (l : list Z) : nat := length (filter (fun p => holding h p = true) l).

Record file_wf (n : nat) (f : regfile) : Prop := {
  fw_range : forall r x, f !! r = Some x -> isFixedMapping r = false -> (Z.to_nat (flatIdx x) < n)%nat;
  fw_inj : forall r r' k, isFixedMapping r = false -> isFixedMapping r' = false -> flat_of f r = Some k -> flat_of f r' = Some k -> r = r'
}.

Definition real_dests (i : IQInst) : list preg := filter (fun r => isFixedMapping r = false) (dest_regs i).

Record inst_ok (f : regfile) (i : IQInst) : Prop := {
  io_srcs : length (src_regs i) = numSrcRegs i /\ length (src_ready i) = numSrcRegs i /\ (numSrcRegs i < 128)%nat;
  io_dests : (length (dest_regs i) < 128)%nat /\ NoDup (real_dests i);
  io_regs : Forall (fun r => is_Some (f !! r)) (src_regs i ++ dest_regs i);
  io_fixed : forall k r, src_regs i !! k = Some r -> isFixedMapping r = true -> src_ready i !! k = Some true;
  io_class : (op_class (stat i) < Num_OpClasses)%nat;
  io_flags : SquashedInIQ (flags i) = false /\ (isMemRef i = true -> MemOpDone (flags i) = true -> Issued (flags i) = true)
}.

Definition in_flight (L : list (list Z)) (p : Z) : Prop := exists t l, L !! t = Some l /\ p ∈ l.

(** The instruction may be among the ready ones. *)
Definition can_go (ns : gset Z) (p : Z) (i : IQInst) : Prop :=
  Issued (flags i) = false /\ if in_graph i then readyToIssue i = true else p ∉ ns.

(** The queue [q] with the lists [L] of the threads and the dependents [cs].  While the
    dependents of a register are being woken, [o] is this register; [late] is an
    instruction that has just become ready and still has to be told so. *)
Record core (c : IQConfig) (h : gmap Z IQInst) (f : regfile) (q : IQ) (L : list (list Z)) (o : option nat) (late : option Z) (cs : list (option Z * list Z)) : Prop := {
  c_lens : length L = MaxThreads /\ length (count q) = MaxThreads /\ length (squashedSeqNum q) = MaxThreads /\
    length (regScoreboard q) = numPhysRegs c /\ length cs = numPhysRegs c;
  c_rep : rep (graph q) cs;
  c_file : file_wf (numPhysRegs c) f;
  c_sorted : forall t l, L !! t = Some l -> StronglySorted Z.lt l;
  c_own : forall t l p, L !! t = Some l -> p ∈ l -> exists i, h !! p = Some i /\ inst_thread i = t /\ inst_ok f i;
  c_count : forall t l, L !! t = Some l -> count q !! t = Some (Z.of_nat (holders h l));
  c_free : freeEntries q = numEntries c - foldr Z.add 0 (count q) /\ 0 <= freeEntries q;
  c_ready : ready_ok (ready q);
  c_queue : forall k l p, readyInsts (ready q) !! k = Some l -> p ∈ l -> exists i, h !! p = Some i /\ op_class (stat i) = k /\ (inst_thread i < MaxThreads)%nat /\
    (isMemRef i = false -> isSquashed (base i) = false -> in_flight L p);
  c_once : forall p i l, in_flight L p -> h !! p = Some i -> isMemRef i = false -> readyInsts (ready q) !! op_class (stat i) = Some l ->
    (occ p l <= 1)%nat /\ (p ∈ l -> can_go (nonSpecInsts q) p i) /\ (late = Some p -> p ∉ l) /\
    (isSquashed (base i) = false -> late <> Some p -> can_go (nonSpecInsts q) p i -> p ∈ l);
  c_chain : forall n pr ch p, cs !! n = Some (pr, ch) -> p ∈ ch -> in_flight L p /\
    exists i, h !! p = Some i /\ in_graph i = true /\ holds i = true;
  c_board : forall n pr ch, cs !! n = Some (pr, ch) -> regScoreboard q !! n = Some true -> ch = [];
  c_wait : forall p i n pr ch, in_flight L p -> h !! p = Some i -> in_graph i = true -> cs !! n = Some (pr, ch) ->
    regScoreboard q !! n = Some false -> o <> Some n -> occ p ch = unready f i n;
  c_missing : forall p i, in_flight L p -> h !! p = Some i -> in_graph i = true ->
    (readyRegs (operands (base i)) + occ p (concat (map snd cs)) = numSrcRegs i)%nat;
  c_can : forall p i, in_flight L p -> h !! p = Some i -> in_graph i = true -> isMemRef i = false ->
    readyToIssue i = (readyRegs (operands (base i)) =? numSrcRegs i)%nat;
  c_prod : forall d i r n pr ch p, in_flight L d -> h !! d = Some i -> r ∈ dest_regs i -> isFixedMapping r = false ->
    flat_of f r = Some n -> cs !! n = Some (pr, ch) -> p ∈ ch -> exists j, h !! p = Some j /\ inst_thread j = inst_thread i /\ d < p;
  c_spec : forall p, p ∈ nonSpecInsts q -> in_flight L p /\ exists i, h !! p = Some i /\ in_graph i = false /\ holds i = true
}.

(** The instructions of thread [t] that the unit [m] knows are in its list, and all
    memory instructions in the list that are not done are known. *)
Definition unit_ok {M E} `{MemDepLaws M E} (h : gmap Z IQInst) (t : nat) (l : list Z) (m : M) : Prop :=
  md_ok t m /\ (forall w k, (w, k) ∈ md_live m -> w ∈ l /\ exists i, h !! w = Some i /\ k = kind i) /\
  (forall p i, p ∈ l -> h !! p = Some i -> isMemRef i = true -> MemOpDone (flags i) = false -> (p, kind i) ∈ md_live m).
Definition units_ok {M E} `{MemDepLaws M E} (h : gmap Z IQInst) (L : list (list Z)) (ms : list M) : Prop :=
  length ms = MaxThreads /\ forall t l m, L !! t = Some l -> ms !! t = Some m -> unit_ok h t l m.

(** The memory instructions that wait for a translation or for the cache. *)
Definition lists_ok (h : gmap Z IQInst) (q : IQ) : Prop :=
  Forall (fun p => exists i, h !! p = Some i /\ isMemRef i = true /\ (op_class (stat i) < Num_OpClasses)%nat /\ (inst_thread i < MaxThreads)%nat)
    (deferredMemInsts q ++ blockedMemInsts q ++ retryMemInsts q).

(** The units that the pending completions will free. *)
Definition pending (cs : list FUCompletion) : list nat := map (fun x => Z.to_nat (fuIdx x)) (filter (fun x => freeFU x = true) cs).
Record units_free {M} (s : IQState M) : Prop := {
  uf_pool : pool_inv (fuPool s) (pending (completions s));
  uf_idx : Forall (fun x => 0 <= fuIdx x) (completions s);
  uf_lat : forall k n, candidates (fuPool s) k <> [] -> issueLatencies (fuPool s) !! k = Some n -> 0 < swrap 32 n;
  uf_wb : wbOutstanding (iq s) = Z.of_nat (length (completions s))
}.

Record good {M E} `{MemDepLaws M E} (c : IQConfig) (s : IQState M) (L : list (list Z)) (o : option nat) (late : option Z) (cs : list (option Z * list Z)) : Prop := {
  g_core : core c (heap s) (file s) (iq s) L o late cs;
  g_units : units_ok (heap s) L (memDepUnit s);
  g_lists : lists_ok (heap s) (iq s);
  g_fu : units_free s
}.

(** ** Frames *)

(** A change of an instruction that the queue does not notice. *)
Record quiet (i i' : IQInst) : Prop := {
  qt_stat : stat i' = stat i /\ staticInst (base i') = staticInst (base i) /\ inst_thread i' = inst_thread i /\ operands (base i') = operands (base i);
  qt_flags : SquashedInIQ (flags i') = SquashedInIQ (flags i) /\ MemOpDone (flags i') = MemOpDone (flags i);
  qt_squashed : isSquashed (base i) = true -> isSquashed (base i') = true;
  qt_spec : isMemRef i = false -> Issued (flags i') = Issued (flags i) /\ (in_graph i = true -> readyToIssue i' = readyToIssue i);
  qt_mem : isMemRef i = true -> MemOpDone (flags i) = true -> Issued (flags i) = true -> Issued (flags i') = true
}.

Lemma isMemRef_kind i : isMemRef i = k_mem (kind i).
Proof. done. Qed.

Lemma kind_of i i' : stat i' = stat i -> staticInst (base i') = staticInst (base i) -> kind i' = kind i /\ in_graph i' = in_graph i /\ isMemRef i' = isMemRef i /\ numSrcRegs i' = numSrcRegs i.
Proof. intros E1 E2. unfold kind, in_graph, isMemRef, isFullMemBarrier, numSrcRegs. by rewrite E1, E2. Qed.

Lemma regs_of i i' : operands (base i') = operands (base i) -> src_regs i' = src_regs i /\ src_ready i' = src_ready i /\ dest_regs i' = dest_regs i.
Proof. unfold src_regs, src_ready, dest_regs. by intros ->. Qed.

Lemma inst_ok_quiet f i i' : quiet i i' -> inst_ok f i -> inst_ok f i'.
Proof.
  intros [(Q1 & Q2 & Q3 & Q4) [Q5 Q6] Q7 Q8 Q9] [H1 H2 H3 H4 H5 H6]. destruct (kind_of i i' Q1 Q2) as (K1 & K2 & K3 & K4). destruct (regs_of i i' Q4) as (R1 & R2 & R3).
  split; unfold real_dests; rewrite ?R1, ?R2, ?R3, ?K3, ?K4, ?Q1; try done. rewrite Q5, Q6. split; [apply H6|]. intros Hm Hd. apply Q9; try done. by apply H6.
Qed.

Lemma holds_quiet i i' : quiet i i' -> holds i' = holds i.
Proof.
  intros [(Q1 & Q2 & _) [_ Q6] _ Q8 _]. destruct (kind_of i i' Q1 Q2) as (_ & _ & K & _). unfold holds. rewrite K, Q6. destruct (isMemRef i); [done|].
  by destruct (Q8 eq_refl) as [-> _].
Qed.

Lemma holders_ext h h' l : (forall p, p ∈ l -> holding h' p = holding h p) -> holders h' l = holders h l.
Proof.
  unfold holders. induction l as [|x l IH]; intros Hx; [done|]. rewrite !filter_cons. rewrite (Hx x) by left. 
  case_decide; simpl; rewrite IH; try done; intros p Hp; apply Hx; by right.
Qed.

Definition heap_quiet (h h' : gmap Z IQInst) : Prop := forall p i, h !! p = Some i -> exists i', h' !! p = Some i' /\ quiet i i'.

Lemma quiet_refl i : quiet i i.
Proof. by repeat split. Qed.

Lemma heap_quiet_insert h p i i' : h !! p = Some i -> quiet i i' -> heap_quiet h (<[p := i']> h).
Proof.
  intros Hp Hq x j Hx. destruct (decide (x = p)) as [->|Hne].
  - rewrite lookup_insert_eq. rewrite Hp in Hx. injection Hx as <-. eauto.
  - rewrite lookup_insert_ne by done. eauto using quiet_refl.
Qed.

Lemma can_go_quiet ns p i i' : quiet i i' -> isMemRef i = false -> can_go ns p i' <-> can_go ns p i.
Proof.
  intros [(Q1 & Q2 & _) _ _ Q _] Hm. destruct (kind_of i i' Q1 Q2) as (_ & K & _). unfold can_go. rewrite K. destruct (Q Hm) as [-> Hr].
  destruct (in_graph i); [|done]. by rewrite Hr.
Qed.

Section Frames.
Context (c : IQConfig) (h : gmap Z IQInst) (f : regfile) (q : IQ) (L : list (list Z)) (o : option nat) (late : option Z) (cs : list (option Z * list Z)).
Hypothesis H : core c h f q L o late cs.

Lemma flight_inst p : in_flight L p -> exists i, h !! p = Some i /\ in_flight L p /\ (exists l, L !! inst_thread i = Some l /\ p ∈ l) /\ inst_ok f i.
Proof. intros Hf. pose proof Hf as (t & l & Hl & Hp). destruct (c_own _ _ _ _ _ _ _ _ H t l p Hl Hp) as (i & Hi & <- & Hok). eauto 10. Qed.

(** An instruction is in flight in one thread only. *)
Lemma flight_thread p i t l : h !! p = Some i -> L !! t = Some l -> p ∈ l -> inst_thread i = t.
Proof. intros Hi Hl Hp. destruct (c_own _ _ _ _ _ _ _ _ H t l p Hl Hp) as (j & Hj & <- & _). rewrite Hi in Hj. by injection Hj as ->. Qed.

Lemma core_heap h' : heap_quiet h h' -> core c h' f q L o late cs.
Proof.
  intros Hq. assert (Hback : forall p i', in_flight L p -> h' !! p = Some i' -> exists i, h !! p = Some i /\ quiet i i').
  { intros p i' Hf Hi'. destruct (flight_inst p Hf) as (i & Hi & _). destruct (Hq p i Hi) as (j & Hj & Hqt). rewrite Hi' in Hj. injection Hj as <-. eauto. }
  destruct H as [C1 C2 C3 C4 C5 C6 C7 C8 C9 C10 C11 C12 C13 C14 C15 C16 C17]. split; try done.
  - intros t l p Hl Hp. destruct (C5 t l p Hl Hp) as (i & Hi & Ht & Hok). destruct (Hq p i Hi) as (i' & Hi' & Hqt). exists i'. split_and!; [done| |by eapply inst_ok_quiet].
    by destruct Hqt as [(_ & _ & -> & _) _ _ _ _].
  - intros t l Hl. rewrite (C6 t l Hl). do 2 f_equal. symmetry. apply holders_ext. intros p Hp. destruct (C5 t l p Hl Hp) as (i & Hi & _).
    destruct (Hq p i Hi) as (i' & Hi' & Hqt). unfold holding. rewrite Hi, Hi'. by apply holds_quiet.
  - intros k l p Hl Hp. destruct (C9 k l p Hl Hp) as (i & Hi & Hk & Ht & Hf). destruct (Hq p i Hi) as (i' & Hi' & Hqt). exists i'. split; [done|].
    destruct Hqt as [(Q1 & Q2 & Q4 & _) _ Q3 _ _]. destruct (kind_of i i' Q1 Q2) as (_ & _ & K & _). rewrite Q1, K, Q4. split; [done|]. split; [done|]. intros Hm Hs. apply Hf; [done|].
    destruct (isSquashed (base i)); [|done]. by rewrite Q3 in Hs.
  - intros p i' l Hf Hi' Hm Hl. destruct (Hback p i' Hf Hi') as (i & Hi & Hqt). pose proof Hqt as [(Q1 & Q2 & _) _ Q3 _ _].
    destruct (kind_of i i' Q1 Q2) as (_ & _ & K & _). rewrite K in Hm. rewrite Q1 in Hl. rewrite (can_go_quiet _ _ _ _ Hqt Hm).
    destruct (C10 p i l Hf Hi Hm Hl) as (O1 & O2 & O3 & O4). split_and!; try done. intros Hs. apply O4. destruct (isSquashed (base i)); [|done]. by rewrite Q3 in Hs.
  - intros n pr ch p Hn Hp. destruct (C11 n pr ch p Hn Hp) as (Hf & i & Hi & Hg & Hd). split; [done|]. destruct (Hq p i Hi) as (i' & Hi' & Hqt). exists i'.
    rewrite (holds_quiet _ _ Hqt). destruct Hqt as [(Q1 & Q2 & _) _ _ _ _]. destruct (kind_of i i' Q1 Q2) as (_ & K & _). by rewrite K.
  - intros p i' n pr ch Hf Hi' Hg. destruct (Hback p i' Hf Hi') as (i & Hi & Hqt). pose proof Hqt as [(Q1 & Q2 & _ & Q4) _ _ _ _].
    destruct (kind_of i i' Q1 Q2) as (_ & K & _). destruct (regs_of i i' Q4) as (R1 & R2 & _). rewrite K in Hg. intros. unfold unready. rewrite R1, R2. by eapply C13.
  - intros p i' Hf Hi' Hg. destruct (Hback p i' Hf Hi') as (i & Hi & Hqt). pose proof Hqt as [(Q1 & Q2 & _ & Q4) _ _ _ _].
    destruct (kind_of i i' Q1 Q2) as (_ & K & _ & K2). rewrite K in Hg. rewrite K2, Q4. by apply (C14 p i).
  - intros p i' Hf Hi' Hg Hm. destruct (Hback p i' Hf Hi') as (i & Hi & Hqt). pose proof Hqt as [(Q1 & Q2 & _ & Q4) _ _ Q5 _].
    destruct (kind_of i i' Q1 Q2) as (_ & K & K3 & K2). rewrite K in Hg. rewrite K3 in Hm. rewrite K2, Q4. destruct (Q5 Hm) as [_ Hr]. rewrite (Hr Hg). by apply (C15 p i).
  - intros d i' r n pr ch p Hf Hi' Hr. destruct (Hback d i' Hf Hi') as (i & Hi & Hqt). pose proof Hqt as [(Q1 & Q2 & Q3 & Q4) _ _ Q5 _].
    destruct (regs_of i i' Q4) as (_ & _ & R). rewrite R in Hr. intros Hfx Hn Hc Hp. destruct (C16 d i r n pr ch p Hf Hi Hr Hfx Hn Hc Hp) as (j & Hj & Ht & Hlt).
    destruct (Hq p j Hj) as (j' & Hj' & Hqj). exists j'. destruct Hqj as [(_ & _ & T & _) _ _ _ _]. rewrite T, Q3. done.
  - intros p Hp. destruct (C17 p Hp) as (Hf & i & Hi & Hg & Hh). split; [done|]. destruct (Hq p i Hi) as (i' & Hi' & Hqt). exists i'.
    rewrite (holds_quiet _ _ Hqt). destruct Hqt as [(Q1 & Q2 & _) _ _ _ _]. destruct (kind_of i i' Q1 Q2) as (_ & K & _). by rewrite K.
Qed.

(** The core of the queue does not mention the other fields. *)
Lemma core_iq q' : graph q' = graph q -> regScoreboard q' = regScoreboard q -> count q' = count q -> freeEntries q' = freeEntries q ->
  squashedSeqNum q' = squashedSeqNum q -> ready q' = ready q -> nonSpecInsts q' = nonSpecInsts q -> core c h f q' L o late cs.
Proof. intros E1 E2 E3 E4 E5 E6 E7. destruct H. split; rewrite ?E1, ?E2, ?E3, ?E4, ?E5, ?E6, ?E7; done. Qed.

Lemma core_file f' : (forall r, flat_of f' r = flat_of f r) -> core c h f' q L o late cs.
Proof.
  intros E. assert (Hdom : forall r, is_Some (f !! r) -> is_Some (f' !! r)).
  { intros r [x Hx]. specialize (E r). unfold flat_of in E. rewrite Hx in E. destruct (f' !! r); [eauto|discriminate E]. }
  destruct H as [C1 C2 C3 C4 C5 C6 C7 C8 C9 C10 C11 C12 C13 C14 C15 C16 C17]. split; try done.
  - destruct C3 as [F1 F2]. split.
    + intros r x Hx Hfx. specialize (E r). unfold flat_of in E. rewrite Hx in E. destruct (f !! r) as [y|] eqn:Hy; [|discriminate E]. simpl in E. injection E as ->. by eapply F1.
    + intros r r' k. rewrite !E. apply F2.
  - intros t l p Hl Hp. destruct (C5 t l p Hl Hp) as (i & Hi & Ht & [I1 I2 I3 I4 I5 I6]). exists i. split_and!; try done. split; try done.
    eapply Forall_impl; [exact I3|]. simpl. apply Hdom.
  - intros p i n pr ch Hf Hi Hg Hn Hb Ho. rewrite (C13 p i n pr ch) by done. unfold unready. f_equal. apply list_filter_iff. intros [r b]. by rewrite E.
  - intros d i r n pr ch p Hf Hi Hr Hfx. rewrite E. by eapply C16.
Qed.

End Frames.

(** ** Making an instruction ready *)

Lemma occ_elem p l : p ∈ l <-> (0 < occ p l)%nat.
Proof. unfold occ. rewrite list_elem_of_In, (count_occ_In Z.eq_dec). done. Qed.

Lemma occ_perm p l l' : l ≡ₚ l' -> occ p l = occ p l'.
Proof. intros E. by apply (proj1 (Permutation_count_occ Z.eq_dec l l')). Qed.

Lemma occ_cons p x l : occ p (x :: l) = ((if decide (x = p) then 1 else 0) + occ p l)%nat.
Proof. unfold occ. simpl. destruct (Z.eq_dec x p), (decide (x = p)); done. Qed.

Lemma occ_app p l l' : occ p (l ++ l') = (occ p l + occ p l')%nat.
Proof. apply count_occ_app. Qed.

Lemma not_late c h f q L o p cs : core c h f q L o (Some p) cs -> in_flight L p ->
  (forall i, h !! p = Some i -> isMemRef i = false -> ~ can_go (nonSpecInsts q) p i) -> core c h f q L o None cs.
Proof.
  intros [C1 C2 C3 C4 C5 C6 C7 C8 C9 C10 C11 C12 C13 C14 C15 C16 C17] Hf Hno. split; try done. intros x i l Hx Hi Hm Hl.
  destruct (C10 x i l Hx Hi Hm Hl) as (O1 & O2 & O3 & O4). split_and!; try done. intros Hs _ Hg. apply O4; try done. intros [= ->]. by eapply Hno.
Qed.

Lemma core_late c h f q L o late p i cs : core c h f q L o late cs -> h !! p = Some i -> isMemRef i = true -> late = None \/ late = Some p ->
  core c h f q L o None cs.
Proof.
  intros HC Hi Hm [->| ->]; [done|]. destruct HC as [C1 C2 C3 C4 C5 C6 C7 C8 C9 C10 C11 C12 C13 C14 C15 C16 C17]. split; try done.
  intros x j l Hx Hj Hm' Hl. destruct (C10 x j l Hx Hj Hm' Hl) as (O1 & O2 & O3 & O4). split_and!; try done. intros Hs _ Hg. apply O4; try done. intros [= ->]. congruence.
Qed.

Section Push.
Context (c : IQConfig) (h : gmap Z IQInst) (f : regfile) (q : IQ) (L : list (list Z)) (o : option nat) (late : option Z) (cs : list (option Z * list Z)).
Hypothesis H : core c h f q L o late cs.
Context (p : Z) (i : IQInst) (l : list Z) (r : ReadyLists).
Hypothesis Hi : h !! p = Some i.
Hypothesis Hthr : (inst_thread i < MaxThreads)%nat.
Hypothesis Hl : readyInsts (ready q) !! op_class (stat i) = Some l.
Hypothesis Hr : ready_ok r.
Hypothesis Er : readyInsts r = <[op_class (stat i) := pq_push p l]> (readyInsts (ready q)).

Lemma pushed k lk : readyInsts r !! k = Some lk -> exists l0, readyInsts (ready q) !! k = Some l0 /\
  lk ≡ₚ (if decide (k = op_class (stat i)) then [p] else []) ++ l0.
Proof.
  rewrite Er. intros Hk. destruct (decide (k = op_class (stat i))) as [->|Hne].
  - rewrite list_lookup_insert_eq in Hk by (by eapply lookup_lt_Some). injection Hk as <-. exists l. split; [done|]. apply pq_push_perm.
  - rewrite list_lookup_insert_ne in Hk by done. exists lk. done.
Qed.

Lemma core_push : isMemRef i = true \/ (late = Some p /\ in_flight L p /\ can_go (nonSpecInsts q) p i) ->
  core c h f (set_ready q r) L o (if isMemRef i then late else None) cs.
Proof.
  intros Hcase. destruct H as [C1 C2 C3 C4 C5 C6 C7 C8 C9 C10 C11 C12 C13 C14 C15 C16 C17]. split; try done; cbn [set_ready ready nonSpecInsts].
  - intros k lk x Hk Hx. destruct (pushed k lk Hk) as (l0 & Hl0 & Hp). rewrite Hp in Hx. apply elem_of_app in Hx as [Hx|Hx]; [|by eapply C9].
    destruct (decide (k = op_class (stat i))) as [->|]; [|by apply not_elem_of_nil in Hx]. apply list_elem_of_singleton in Hx as ->. exists i. split_and!; try done.
    intros Hm _. destruct Hcase as [|(_ & ? & _)]; [congruence|done].
  - intros x j lx Hx Hj Hm Hlx. destruct (pushed _ _ Hlx) as (l0 & Hl0 & Hp). destruct (C10 x j l0 Hx Hj Hm Hl0) as (O1 & O2 & O3 & O4).
    assert (Hin : forall y, y ∈ lx <-> (op_class (stat j) = op_class (stat i) /\ y = p) \/ y ∈ l0).
    { intros y. rewrite Hp, elem_of_app. destruct (decide _); rewrite ?list_elem_of_singleton, ?elem_of_nil; tauto. }
    destruct (decide (x = p)) as [->|Hne].
    + rewrite Hi in Hj. injection Hj as <-. destruct Hcase as [|(-> & _ & Hg)]; [congruence|]. rewrite Hm. split_and!; try done.
      * rewrite (occ_perm _ _ _ Hp), decide_True, occ_app by done. specialize (O3 eq_refl). rewrite occ_elem in O3. rewrite occ_cons, decide_True by done. simpl. lia.
      * intros _ _ _. apply Hin. by left.
    + assert (Hocc : occ x lx = occ x l0).
      { rewrite (occ_perm _ _ _ Hp). destruct (decide (op_class _ = _)); [|done]. rewrite occ_app, occ_cons, decide_False by done. done. }
      rewrite Hocc. assert (Hx0 : x ∈ lx <-> x ∈ l0) by (rewrite Hin; naive_solver). rewrite Hx0. split_and!; try done.
      * destruct (isMemRef i); [done|]. done.
      * intros Hs Hnl Hg. apply O4; try done. destruct (isMemRef i) eqn:Emi; [done|]. destruct Hcase as [|(-> & _)]; [done|]. congruence.
Qed.

End Push.

(** ** Calls of the memory dependence unit *)

Lemma set_ready_id q : set_ready q (ready q) = q.
Proof. by destruct q. Qed.
Lemma set_iq_id {M} (s : IQState M) : set_iq s (iq s) = s.
Proof. by destruct s. Qed.

Section Calls.
Context {M E : Type} `{MemDepLaws M E} (c : IQConfig).
Implicit Type s : IQState M.

Definition core_of s := core c (heap s) (file s) (iq s).

Definition mem_inst s (w : Z) : Prop :=
  exists i, heap s !! w = Some i /\ isMemRef i = true /\ (op_class (stat i) < Num_OpClasses)%nat /\ (inst_thread i < MaxThreads)%nat.

Lemma addReady_ok s L o late cs p i : core_of s L o late cs -> heap s !! p = Some i -> (op_class (stat i) < Num_OpClasses)%nat -> (inst_thread i < MaxThreads)%nat ->
  isMemRef i = true \/ (late = Some p /\ in_flight L p /\ can_go (nonSpecInsts (iq s)) p i) ->
  exists r, addReadyMemInst s p = Ok (set_iq s (set_ready (iq s) r)) /\ core_of (set_iq s (set_ready (iq s) r)) L o (if isMemRef i then late else None) cs.
Proof.
  intros HC Hi Hk Ht Hcase. unfold addReadyMemInst, get. rewrite Hi. cbn [deref rbind]. pose proof (c_ready _ _ _ _ _ _ _ _ HC) as Hr.
  destruct (lookup_lt_is_Some_2 (readyInsts (ready (iq s))) (op_class (stat i))) as [l Hl]; [by rewrite (proj1 (rl_lens _ Hr))|].
  destruct (push_ready_ok _ _ p l Hr Hl) as (r & -> & Hr' & Er). cbn [rbind]. exists r. split; [done|]. by eapply core_push.
Qed.

Lemma add_ready_all_ok ps : forall s L o late cs, core_of s L o late cs -> (forall w, w ∈ ps -> mem_inst s w) ->
  exists r, add_ready_all ps s = Ok (set_iq s (set_ready (iq s) r)) /\ core_of (set_iq s (set_ready (iq s) r)) L o late cs.
Proof.
  induction ps as [|p ps IH]; intros s L o late cs HC Hw; cbn [add_ready_all].
  { exists (ready (iq s)). by rewrite set_ready_id, set_iq_id. }
  destruct (Hw p) as (i & Hi & Hm & Hk & Ht); [left|]. destruct (addReady_ok s L o late cs p i HC Hi Hk Ht (or_introl Hm)) as (r & -> & HC'). cbn [rbind].
  rewrite Hm in HC'. destruct (IH _ L o late cs HC') as (r' & -> & HC2); [intros w Hin; apply Hw; by right|]. by exists r'.
Qed.

(** [s] after the unit of [tid] became [m] and the ready lists [r]. *)
Definition with_unit s (tid : nat) (m : M) (r : ReadyLists) : IQState M :=
  set_iq (set_units s (<[tid := m]> (memDepUnit s))) (set_ready (iq s) r).

Lemma call_unit_ok s L o late cs tid m fn m' out : core_of s L o late cs -> memDepUnit s !! tid = Some m -> fn m = Ok (m', out) ->
  (forall w, w ∈ woken out -> mem_inst s w) ->
  exists r, call_unit tid fn s = Ok (with_unit s tid m' r, held out) /\ core_of (with_unit s tid m' r) L o late cs.
Proof.
  intros HC Hm Hf Hw. unfold call_unit. rewrite (nth_lookup _ _ _ Hm). cbn [rbind]. rewrite Hf. cbn [rbind].
  rewrite upd_Ok by (by eapply lookup_lt_Some). cbn [rbind].
  destruct (add_ready_all_ok (woken out) (set_units s (<[tid := m']> (memDepUnit s))) L o late cs HC Hw) as (r & -> & HC'). cbn [rbind]. by exists r.
Qed.

Lemma thread_unit s L o late cs t l : good c s L o late cs -> L !! t = Some l -> exists m, memDepUnit s !! t = Some m /\ unit_ok (heap s) t l m.
Proof.
  intros [HC [Hlen HU] _ _] Hl. destruct (c_lens _ _ _ _ _ _ _ _ HC) as (L1 & _). destruct (lookup_lt_is_Some_2 (memDepUnit s) t) as [m Hm].
  { rewrite Hlen, <- L1. by eapply lookup_lt_Some. } eauto.
Qed.

(** An instruction that a unit knows is a memory instruction or a barrier in flight. *)
Lemma live_mem s L o late cs t l m w k : core_of s L o late cs -> L !! t = Some l -> unit_ok (heap s) t l m -> (w, k) ∈ md_live m -> k_mem k = true -> mem_inst s w.
Proof.
  intros HC Hl (_ & Hlive & _) Hw Hk. destruct (Hlive w k Hw) as (Hin & i & Hi & ->). exists i.
  destruct (c_own _ _ _ _ _ _ _ _ HC t l w Hl Hin) as (j & Hj & Ht & Hok). rewrite Hi in Hj. injection Hj as <-. split_and!; try done; [apply Hok|].
  rewrite Ht, <- (proj1 (c_lens _ _ _ _ _ _ _ _ HC)). by eapply lookup_lt_Some.
Qed.

Lemma good_with_unit s L o late late' cs t l m r : good c s L o late cs -> L !! t = Some l -> core_of (with_unit s t m r) L o late' cs ->
  unit_ok (heap s) t l m -> good c (with_unit s t m r) L o late' cs.
Proof.
  intros [HC [Hlen HU] HL [F1 F2 F3]] Hl HC' Hm. split; try done. split; cbn [with_unit set_iq set_units memDepUnit heap]; [by rewrite length_insert|].
  intros t' l' m' Hl' Hm'. destruct (decide (t' = t)) as [->|Hne].
  - rewrite list_lookup_insert_eq in Hm'; [|rewrite Hlen, <- (proj1 (c_lens _ _ _ _ _ _ _ _ HC)); by eapply lookup_lt_Some].
    injection Hm' as <-. rewrite Hl in Hl'. by injection Hl' as <-.
  - rewrite list_lookup_insert_ne in Hm' by done. by eapply HU.
Qed.

(** A call that keeps the known instructions and wakes some of them. *)
Lemma call_keep_ok s L o late cs t l m fn m' out : good c s L o late cs -> L !! t = Some l -> memDepUnit s !! t = Some m -> fn m = Ok (m', out) ->
  md_ok t m' -> md_live m' = md_live m -> (forall w, w ∈ woken out -> exists k, (w, k) ∈ md_live m /\ k_mem k = true) ->
  exists r, call_unit t fn s = Ok (with_unit s t m' r, held out) /\ good c (with_unit s t m' r) L o late cs.
Proof.
  intros HG Hl Hm Hf Hok Hlive Hw. destruct (thread_unit s L o late cs t l HG Hl) as (m0 & Hm0 & HU). rewrite Hm in Hm0. injection Hm0 as <-.
  destruct (call_unit_ok s L o late cs t m fn m' out) as (r & E1 & HC'); try done; [apply HG| |].
  { intros w Hin. destruct (Hw w Hin) as (k & Hk & Hkm). eapply live_mem; try done. apply HG. }
  exists r. split; [done|]. eapply good_with_unit; try done. unfold unit_ok in *. rewrite Hlive. tauto.
Qed.

End Calls.

(** ** Waking one dependent *)

Lemma occ_upd p (cs : list (option Z * list Z)) n pr ch pr' ch' : cs !! n = Some (pr, ch) ->
  (occ p (concat (map snd (<[n := (pr', ch')]> cs))) + occ p ch = occ p (concat (map snd cs)) + occ p ch')%nat.
Proof.
  intros (l1 & l2 & -> & ->)%list_elem_of_split_length. rewrite insert_app_r_alt, Nat.sub_diag by done.
  change (<[0%nat := (pr', ch')]> ((pr, ch) :: l2)) with ((pr', ch') :: l2). rewrite !map_app, !concat_app, !map_cons. cbn [concat snd].
  rewrite !occ_app. lia.
Qed.

Lemma mark_props i : let j := markSrcRegReady i in
  stat j = stat i /\ staticInst (base j) = staticInst (base i) /\ inst_thread j = inst_thread i /\ src_regs j = src_regs i /\ src_ready j = src_ready i /\
  dest_regs j = dest_regs i /\ flags j = flags i /\ isSquashed (base j) = isSquashed (base i) /\ readyRegs (operands (base j)) = S (readyRegs (operands (base i))) /\
  readyToIssue j = ((S (readyRegs (operands (base i))) =? numSrcRegs i)%nat || readyToIssue i).
Proof. unfold markSrcRegReady. destruct (_ =? _)%nat; by repeat split. Qed.


Section Mark.
Context (c : IQConfig) (h : gmap Z IQInst) (f : regfile) (q : IQ) (L : list (list Z)) (n : nat) (cs : list (option Z * list Z)).
Hypothesis H : core c h f q L (Some n) None cs.
Context (pr : option Z) (p : Z) (rest : list Z) (i : IQInst) (g : DependencyGraph).
Hypothesis Hn : cs !! n = Some (pr, p :: rest).
Hypothesis Hi : h !! p = Some i.
Hypothesis Hg : rep g (<[n := (pr, rest)]> cs).
Abbreviation h' := (<[p := markSrcRegReady i]> h).
Abbreviation cs' := (<[n := (pr, rest)]> cs).

Lemma mark_chain k pr' ch' x : cs' !! k = Some (pr', ch') -> x ∈ ch' -> exists ch, cs !! k = Some (pr', ch) /\ x ∈ ch.
Proof.
  intros Hk Hx. destruct (decide (k = n)) as [->|Hne].
  - rewrite list_lookup_insert_eq in Hk by (by eapply lookup_lt_Some). injection Hk as <- <-. exists (p :: rest). split; [done|]. by right.
  - rewrite list_lookup_insert_ne in Hk by done. eauto.
Qed.

Lemma mark_heap x j : h' !! x = Some j -> exists j0, h !! x = Some j0 /\ ((x = p /\ j = markSrcRegReady j0) \/ (x <> p /\ j = j0)).
Proof.
  destruct (decide (x = p)) as [->|Hne].
  - rewrite lookup_insert_eq. intros [= <-]. exists i. auto.
  - rewrite lookup_insert_ne by done. eauto 10.
Qed.

Lemma mark_heap2 x j : h !! x = Some j -> exists j', h' !! x = Some j' /\ ((x = p /\ j' = markSrcRegReady j) \/ (x <> p /\ j' = j)).
Proof.
  destruct (decide (x = p)) as [->|Hne].
  - rewrite Hi. intros [= <-]. rewrite lookup_insert_eq. eauto 10.
  - rewrite lookup_insert_ne by done. eauto 10.
Qed.

(** The marked instruction was not ready. *)
Lemma mark_waiting : in_flight L p /\ in_graph i = true /\ holds i = true /\ (readyRegs (operands (base i)) < numSrcRegs i)%nat.
Proof.
  destruct (c_chain _ _ _ _ _ _ _ _ H n _ _ p Hn) as (Hf & i0 & Hi0 & Hgr & Hd); [left|]. rewrite Hi in Hi0. injection Hi0 as <-. split_and!; try done.
  pose proof (c_missing _ _ _ _ _ _ _ _ H p i Hf Hi Hgr) as Hmiss. pose proof (occ_upd p cs n pr (p :: rest) pr rest Hn) as Ho. rewrite occ_cons, decide_True in Ho by done. lia.
Qed.

Abbreviation j := (markSrcRegReady i).

Lemma core_mark : core c h' f (set_graph q g) L (Some n) (Some p) cs'.
Proof.
  destruct mark_waiting as (Hfp & Hgp & Hdp & Hlt). destruct (mark_props i) as (M1 & M2 & M3 & M4 & M5 & M6 & M7 & M8 & M9 & M10).
  destruct (kind_of _ _ M1 M2) as (K1 & K2 & K3 & K4).
  destruct H as [C1 C2 C3 C4 C5 C6 C7 C8 C9 C10 C11 C12 C13 C14 C15 C16 C17]. split; try done; cbn [set_graph graph ready nonSpecInsts regScoreboard count freeEntries squashedSeqNum].
  - by rewrite length_insert.
  - intros t l x Hl Hx. destruct (C5 t l x Hl Hx) as (i0 & Hi0 & Ht & Hok). destruct (mark_heap2 x i0 Hi0) as (j' & Hj' & [[-> ->]|[_ ->]]); [|eauto].
    rewrite Hi in Hi0. injection Hi0 as <-. exists j. split_and!; [done|congruence|]. destruct Hok as [I1 I2 I3 I4 I5 I6].
    split; unfold real_dests; rewrite ?M1, ?M4, ?M5, ?M6, ?M7, ?K3, ?K4; done.
  - intros t l Hl. rewrite (C6 t l Hl). do 2 f_equal. symmetry. apply holders_ext. intros x Hx. unfold holding. destruct (C5 t l x Hl Hx) as (i0 & Hi0 & _).
    destruct (mark_heap2 x i0 Hi0) as (j' & -> & [[-> ->]|[_ ->]]); [|by rewrite Hi0]. rewrite Hi in Hi0 |- *. injection Hi0 as <-. unfold holds.  by rewrite K3, M7.
  - intros k l x Hl Hx. destruct (C9 k l x Hl Hx) as (i0 & Hi0 & Hk & Ht & Hf). destruct (mark_heap2 x i0 Hi0) as (j' & Hj' & [[-> ->]|[_ ->]]); [|eauto].
    rewrite Hi in Hi0. injection Hi0 as <-. exists j. rewrite M1, K3, M8, M3. done.
  - intros x j' l Hf Hj' Hm Hl. destruct (mark_heap x j' Hj') as (i0 & Hi0 & [[-> ->]|[Hne ->]]).
    + rewrite Hi in Hi0. injection Hi0 as <-.  rewrite K3 in Hm. rewrite M1 in Hl. destruct (C10 p i l Hf Hi Hm Hl) as (O1 & O2 & O3 & O4).
      assert (Hno : p ∉ l). { intros Hin. destruct (O2 Hin) as [_ Hr]. rewrite Hgp in Hr. rewrite (C15 p i Hf Hi Hgp Hm) in Hr. apply Nat.eqb_eq in Hr. lia. }
      split_and!; try done.
    + destruct (C10 x i0 l Hf Hi0 Hm Hl) as (O1 & O2 & O3 & O4). split_and!; try done. { congruence. } intros Hs _. by apply O4.
  - intros k pr' ch' x Hk Hx. destruct (mark_chain k pr' ch' x Hk Hx) as (ch & Hc & Hin). destruct (C11 k pr' ch x Hc Hin) as (Hf & i0 & Hi0 & Hgr & Hd).
    split; [done|]. destruct (mark_heap2 x i0 Hi0) as (j' & Hj' & [[-> ->]|[_ ->]]); [|eauto]. rewrite Hi in Hi0. injection Hi0 as <-. exists j. unfold holds in *. by rewrite K2, K3, M7.
  - intros k pr' ch' Hk Hb. destruct ch' as [|x ch']; [done|]. destruct (mark_chain k pr' _ x Hk) as (ch & Hc & Hin); [left|].
    rewrite (C12 k pr' ch Hc Hb) in Hin. by apply not_elem_of_nil in Hin.
  - intros x j' k pr' ch' Hf Hj' Hgr Hk Hb Hne. rewrite list_lookup_insert_ne in Hk by congruence. destruct (mark_heap x j' Hj') as (i0 & Hi0 & [[-> ->]|[_ ->]]).
    + rewrite Hi in Hi0. injection Hi0 as <-. unfold unready.  rewrite M4, M5. apply (C13 p i k pr' ch'); done.
    + by eapply C13.
  - intros x j' Hf Hj' Hgr. pose proof (occ_upd x cs n pr (p :: rest) pr rest Hn) as Ho. rewrite occ_cons in Ho. destruct (mark_heap x j' Hj') as (i0 & Hi0 & [[-> ->]|[Hne ->]]).
    + rewrite Hi in Hi0. injection Hi0 as <-.  rewrite K4, M9. rewrite decide_True in Ho by done. pose proof (C14 p i Hf Hi Hgp). lia.
    + rewrite decide_False in Ho by done. pose proof (C14 x i0 Hf Hi0 Hgr). lia.
  - intros x j' Hf Hj' Hgr Hm. destruct (mark_heap x j' Hj') as (i0 & Hi0 & [[-> ->]|[Hne ->]]); [|by eapply C15].
    rewrite Hi in Hi0. injection Hi0 as <-.  rewrite K3 in Hm. rewrite M10, M9, K4. rewrite (C15 p i Hf Hi Hgp Hm).
    replace (readyRegs (operands (base i)) =? numSrcRegs i)%nat with false by (symmetry; apply Nat.eqb_neq; lia). apply orb_false_r.
  - intros d i' r k pr' ch' x Hf Hi' Hr Hfx Hk Hc Hx. destruct (mark_chain k pr' ch' x Hc Hx) as (ch & Hc0 & Hx0).
    assert (Hd : exists i0, h !! d = Some i0 /\ dest_regs i' = dest_regs i0 /\ inst_thread i' = inst_thread i0).
    { destruct (mark_heap d i' Hi') as (i0 & Hi0 & [[-> ->]|[_ ->]]); [|eauto]. rewrite Hi in Hi0. injection Hi0 as <-. eauto. }
    destruct Hd as (i0 & Hi0 & Ed & Et). rewrite Ed in Hr. destruct (C16 d i0 r k pr' ch x Hf Hi0 Hr Hfx Hk Hc0 Hx0) as (jx & Hjx & Ht & Hlt2). rewrite Et.
    destruct (mark_heap2 x jx Hjx) as (j' & Hj' & [[-> ->]|[_ ->]]); [|eauto]. rewrite Hi in Hjx. injection Hjx as <-. exists j. by rewrite M3.
  - intros x Hx. destruct (C17 x Hx) as (Hf & i0 & Hi0 & Hg0 & Hh). split; [done|]. destruct (mark_heap2 x i0 Hi0) as (j' & Hj' & [[-> ->]|[_ ->]]); [|eauto]. congruence.
Qed.

End Mark.

Section Wake.
Context {M E : Type} `{MemDepLaws M E} (c : IQConfig).
Implicit Type s : IQState M.

(** [s] with another dependency graph, ready lists, units and instructions. *)
Definition woke s (ms : list M) (r : ReadyLists) (g : DependencyGraph) (h : gmap Z IQInst) : IQState M :=
  set_heap (set_iq (set_units s ms) (set_graph (set_ready (iq s) r) g)) h.

Lemma woke_id s : woke s (memDepUnit s) (ready (iq s)) (graph (iq s)) (heap s) = s.
Proof. by destruct s as [[]]. Qed.

(** [addIfReady] for an instruction whose last operand may just have arrived. *)
Lemma addIfReady_ok s L o cs p i : good c s L o (Some p) cs -> in_flight L p -> heap s !! p = Some i -> (isMemRef i = true -> MemOpDone (flags i) = false) ->
  (isMemRef i = false -> readyToIssue i = true <-> can_go (nonSpecInsts (iq s)) p i) ->
  exists ms r, addIfReady s p = Ok (woke s ms r (graph (iq s)) (heap s)) /\ good c (woke s ms r (graph (iq s)) (heap s)) L o None cs.
Proof.
  intros HG Hf Hi Hd Hgo. unfold addIfReady, get. rewrite Hi. cbn [deref rbind]. pose proof (g_core _ _ _ _ _ _ HG) as HC. pose proof HG as [_ HU HL HF].
  destruct (flight_inst _ _ _ _ _ _ _ _ HC p Hf) as (i0 & Hi0 & _ & (l & Hl & Hp) & Hok). rewrite Hi in Hi0. injection Hi0 as <-.
  destruct (readyToIssue i) eqn:Er, (isMemRef i) eqn:Em.
  - assert (HG' : good c s L o None cs) by (split; try done; eapply core_late; eauto).
    destruct (thread_unit c s L o None cs _ l HG' Hl) as (m & Hm & HUm). assert (Hlive : (p, kind i) ∈ md_live m) by (apply HUm; auto).
    destruct (law_regsReady (inst_thread i) p i m) as (m' & out & E1 & Hok' & Hlv & Hw); [apply HUm|done|done|].
    destruct (call_keep_ok c s L o None cs _ l m (md_regsReady p i) m' out HG' Hl Hm E1 Hok' Hlv) as (r & -> & HG2); [intros w ->%Hw; by exists (kind i)|].
    cbn [rbind]. eexists _, r. split; [|exact HG2]. unfold woke, with_unit. by destruct s as [[]].
  - destruct (addReady_ok c s L o (Some p) cs p i HC Hi) as (r & -> & HC'); [apply Hok|rewrite <- (proj1 (c_lens _ _ _ _ _ _ _ _ HC)); by eapply lookup_lt_Some|right; split_and!; try done; by apply Hgo|].
    rewrite Em in HC'. exists (memDepUnit s), r. assert (Es : woke s (memDepUnit s) r (graph (iq s)) (heap s) = set_iq s (set_ready (iq s) r)) by (by destruct s as [[]]).
    rewrite Es. split; [done|]. split; try done. by destruct HF.
  - exists (memDepUnit s), (ready (iq s)). rewrite woke_id. split; [done|]. split; try done. eapply core_late; eauto.
  - exists (memDepUnit s), (ready (iq s)). rewrite woke_id. split; [done|]. split; try done. eapply not_late; try done.
    intros j Hj _ Hcan. rewrite Hi in Hj. injection Hj as <-. apply Hgo in Hcan; congruence.
Qed.

(** Instructions keep what the other parts know of them. *)
Definition alike (h h' : gmap Z IQInst) : Prop := forall p i, h !! p = Some i -> exists i', h' !! p = Some i' /\
  stat i' = stat i /\ staticInst (base i') = staticInst (base i) /\ MemOpDone (flags i') = MemOpDone (flags i) /\ inst_thread i' = inst_thread i.

Lemma units_alike h h' L (ms : list M) : alike h h' -> (forall p, in_flight L p -> is_Some (h !! p)) -> units_ok h L ms -> units_ok h' L ms.
Proof.
  intros Ha Hin [Hlen HU]. split; [done|]. intros t l m Hl Hm. destruct (HU t l m Hl Hm) as (Hok & Hlive & Hknown). split_and!; [done| |].
  - intros w k Hw. destruct (Hlive w k Hw) as (Hwl & i & Hi & ->). split; [done|]. destruct (Ha w i Hi) as (i' & Hi' & E1 & E2 & _). exists i'. split; [done|].
    symmetry. by apply kind_of.
  - intros p i' Hp Hi' Hmem Hd. destruct (Hin p) as [i Hi]; [by exists t, l|]. destruct (Ha p i Hi) as (j & Hj & E1 & E2 & E3 & _). rewrite Hi' in Hj. injection Hj as <-.
    destruct (kind_of i i' E1 E2) as (K & _ & K2 & _). rewrite K. apply Hknown; congruence.
Qed.

Lemma lists_alike h h' q : alike h h' -> lists_ok h q -> lists_ok h' q.
Proof.
  intros Ha HL. unfold lists_ok in *. eapply Forall_impl; [exact HL|]. intros p (i & Hi & Hm & Hk). destruct (Ha p i Hi) as (i' & Hi' & E1 & E2 & _ & E3). exists i'.
  destruct (kind_of i i' E1 E2) as (_ & _ & K & _). by rewrite K, E1, E3.
Qed.

(** One instruction changes. *)
Lemma unit_insert h t l (m : M) p i i' : h !! p = Some i -> kind i' = kind i -> md_ok t m ->
  (forall w k, (w, k) ∈ md_live m -> w ∈ l /\ exists j, h !! w = Some j /\ k = kind j) ->
  (forall x j, x ∈ l -> h !! x = Some j -> isMemRef j = true -> MemOpDone (flags j) = false -> x <> p -> (x, kind j) ∈ md_live m) ->
  (p ∈ l -> isMemRef i' = true -> MemOpDone (flags i') = false -> (p, kind i) ∈ md_live m) -> unit_ok (<[p := i']> h) t l m.
Proof.
  intros Hi Hk Hok Hlive Hknown Hp. split_and!; [done| |].
  - intros w k Hw. destruct (Hlive w k Hw) as (Hwl & j & Hj & ->). split; [done|]. destruct (decide (w = p)) as [->|Hne].
    + rewrite Hi in Hj. injection Hj as <-. exists i'. by rewrite lookup_insert_eq.
    + exists j. by rewrite lookup_insert_ne.
  - intros x j Hx Hj Hm Hd. destruct (decide (x = p)) as [->|Hne].
    + rewrite lookup_insert_eq in Hj. injection Hj as <-. rewrite Hk. auto.
    + rewrite lookup_insert_ne in Hj by done. auto.
Qed.

Lemma lists_insert h q p i i' : h !! p = Some i -> stat i' = stat i -> staticInst (base i') = staticInst (base i) -> inst_thread i' = inst_thread i -> lists_ok h q -> lists_ok (<[p := i']> h) q.
Proof.
  intros Hi E1 E2 E3 HL. unfold lists_ok in *. eapply Forall_impl; [exact HL|]. intros x (j & Hj & Hm & Hk). destruct (decide (x = p)) as [->|Hne].
  - rewrite Hi in Hj. injection Hj as <-. exists i'. rewrite lookup_insert_eq. destruct (kind_of i i' E1 E2) as (_ & _ & K & _). by rewrite K, E1, E3.
  - exists j. by rewrite lookup_insert_ne.
Qed.

Lemma flight_some h f q L o late cs : core c h f q L o late cs -> forall p, in_flight L p -> is_Some (h !! p).
Proof. intros HC p Hf. destruct (flight_inst _ _ _ _ _ _ _ _ HC p Hf) as (i & Hi & _). eauto. Qed.

Lemma alike_insert h p i i' : h !! p = Some i -> stat i' = stat i -> staticInst (base i') = staticInst (base i) -> MemOpDone (flags i') = MemOpDone (flags i) ->
  inst_thread i' = inst_thread i -> alike h (<[p := i']> h).
Proof.
  intros Hp E1 E2 E3 E4 x j Hx. destruct (decide (x = p)) as [->|Hne].
  - rewrite lookup_insert_eq. rewrite Hp in Hx. injection Hx as <-. eauto 10.
  - rewrite lookup_insert_ne by done. eauto 10.
Qed.

Definition marked (ch : list Z) (h h' : gmap Z IQInst) : Prop := forall p, h' !! p = Nat.iter (occ p ch) markSrcRegReady <$> h !! p.

Lemma wake_step_ok s L n cs pr p rest : good c s L (Some n) None cs -> cs !! n = Some (pr, p :: rest) -> exists i g ms r,
  heap s !! p = Some i /\ pop n (graph (iq s)) = Ok (Some p, g) /\
  let s1 := woke s (memDepUnit s) (ready (iq s)) g (<[p := markSrcRegReady i]> (heap s)) in
  let s2 := woke s ms r g (<[p := markSrcRegReady i]> (heap s)) in addIfReady s1 p = Ok s2 /\ good c s2 L (Some n) None (<[n := (pr, rest)]> cs).
Proof.
  intros HG Hn. pose proof HG as [HC HU HL HF]. destruct (c_chain _ _ _ _ _ _ _ _ HC n pr _ p Hn) as (Hf & i & Hi & Hg & Hd); [left|].
  pose proof (pop_rep _ _ n pr (p :: rest) (c_rep _ _ _ _ _ _ _ _ HC) Hn) as (g & Eg & Hrep). exists i, g.
  destruct (mark_props i) as (M1 & M2 & M3 & M4 & M5 & M6 & M7 & M8 & M9 & M10).
  pose proof (core_mark _ _ _ _ _ _ _ HC pr p rest i g Hn Hi Hrep) as HC1. destruct (mark_waiting _ _ _ _ _ _ _ HC pr p rest i Hn Hi) as (_ & _ & _ & Hlt).
  assert (Ha : alike (heap s) (<[p := markSrcRegReady i]> (heap s))) by (eapply alike_insert; try done; by rewrite M7).
  set (s1 := woke s (memDepUnit s) (ready (iq s)) g (<[p := markSrcRegReady i]> (heap s))).
  assert (HG1 : good c s1 L (Some n) (Some p) (<[n := (pr, rest)]> cs)).
  { split; [exact HC1|eapply units_alike; try done; by eapply flight_some|by eapply lists_alike|by destruct HF]. }
  destruct (addIfReady_ok s1 L (Some n) _ p (markSrcRegReady i) HG1) as (ms & r & E1 & HG2); try done.
  - unfold s1, woke. cbn. apply lookup_insert_eq.
  - destruct (kind_of _ _ M1 M2) as (_ & _ & K & _). rewrite K, M7. unfold holds in Hd. intros Em. rewrite Em in Hd. by destruct (MemOpDone (flags i)).
  - destruct (kind_of _ _ M1 M2) as (_ & K2 & K3 & _). rewrite K3. intros Hm. unfold can_go. rewrite K2, Hg. split; [|tauto]. intros Hr. split; [|done].
    rewrite M7. unfold holds in Hd. rewrite Hm in Hd. by destruct (Issued (flags i)).
  - exists ms, r. split_and!; done.
Qed.

Lemma marked_cons p ch h h1 i h2 : h !! p = Some i -> h1 = <[p := markSrcRegReady i]> h -> marked ch h1 h2 -> marked (p :: ch) h h2.
Proof.
  intros Hi -> Hm x. rewrite Hm, occ_cons. destruct (decide (p = x)) as [->|Hne].
  - rewrite lookup_insert_eq, Hi. simpl. f_equal. rewrite <- Nat.iter_succ_r. done.
  - rewrite lookup_insert_ne by done. done.
Qed.

Lemma iq_wake_loop_ok L n : forall ch s cs pr fuel k, good c s L (Some n) None cs -> cs !! n = Some (pr, ch) -> (length ch <= fuel)%nat ->
  exists ms r g h, wake_loop fuel n k s = Ok ((k + length ch)%nat, woke s ms r g h) /\ good c (woke s ms r g h) L (Some n) None (<[n := (pr, [])]> cs) /\
    marked ch (heap s) h.
Proof.
  induction ch as [|p ch IH]; intros s cs pr fuel k HG Hn Hfuel.
  - exists (memDepUnit s), (ready (iq s)), (graph (iq s)), (heap s). rewrite woke_id, list_insert_id by done. split; [|split; [done|by intros x; destruct (heap s !! x)]].
    pose proof (pop_rep _ _ n pr [] (c_rep _ _ _ _ _ _ _ _ (g_core _ _ _ _ _ _ HG)) Hn) as Ep. simpl in Ep.
    destruct fuel; cbn [wake_loop]; rewrite Ep; cbn [rbind]; rewrite Nat.add_0_r; by destruct s as [[]].
  - destruct fuel as [|fuel]; [simpl in Hfuel; lia|]. destruct (wake_step_ok s L n cs pr p ch HG Hn) as (i & g & ms & r & Hi & Ep & Ea & HG').
    destruct (IH _ _ pr fuel (S k) HG') as (ms' & r' & g' & h' & Ew & HG2 & Hmk); [|simpl in Hfuel; lia|].
    { apply list_lookup_insert_eq. by eapply lookup_lt_Some. }
    exists ms', r', g', h'. rewrite list_insert_insert_eq in HG2. split; [|split; [exact HG2|by eapply marked_cons]].
    cbn [wake_loop]. rewrite Ep. cbn [rbind]. unfold upd_inst, get. cbn [set_iq heap]. rewrite Hi. cbn [deref rbind].
    assert (Es : put (set_iq s (set_graph (iq s) g)) p (markSrcRegReady i) = woke s (memDepUnit s) (ready (iq s)) g (<[p := markSrcRegReady i]> (heap s))) by (by destruct s as [[]]).
    rewrite Es, Ea. cbn [rbind]. rewrite Ew. simpl. by rewrite Nat.add_succ_r.
Qed.

Lemma core_open h f q L n cs : core c h f q L None None cs -> core c h f q L (Some n) None cs.
Proof. intros [C1 C2 C3 C4 C5 C6 C7 C8 C9 C10 C11 C12 C13 C14 C15 C16 C17]. split; try done. intros. by eapply C13. Qed.

Lemma core_close h f q L n cs pr g : core c h f q L (Some n) None cs -> cs !! n = Some (pr, []) -> rep g (<[n := (None, [])]> cs) ->
  core c h f (set_board q g (<[n := true]> (regScoreboard q))) L None None (<[n := (None, [])]> cs).
Proof.
  intros [C1 C2 C3 C4 C5 C6 C7 C8 C9 C10 C11 C12 C13 C14 C15 C16 C17] Hn Hg. pose proof (lookup_lt_Some _ _ _ Hn) as Hlt.
  assert (Hcs : forall k pr' ch', <[n := (None, [])]> cs !! k = Some (pr', ch') -> (k = n /\ ch' = []) \/ (k <> n /\ cs !! k = Some (pr', ch'))).
  { intros k pr' ch' Hk. destruct (decide (k = n)) as [->|Hne]; [left|right; by rewrite list_lookup_insert_ne in Hk].
    rewrite list_lookup_insert_eq in Hk by done. by injection Hk as _ <-. }
  split; try done; cbn [set_board graph ready nonSpecInsts regScoreboard count freeEntries squashedSeqNum].
  - by rewrite !length_insert.
  - intros k pr' ch' p [[_ ->]|[_ Hk]]%Hcs Hp; [by apply not_elem_of_nil in Hp|]. by eapply C11.
  - intros k pr' ch' [[_ ->]|[Hne Hk]]%Hcs Hb; [done|]. rewrite list_lookup_insert_ne in Hb by done. by eapply C12.
  - intros p i k pr' ch' Hf Hi Hgr Hk Hb _. assert (k <> n) as Hne. { intros ->. rewrite list_lookup_insert_eq in Hb by lia. done. }
    apply Hcs in Hk as [[? _]|[_ Hk]]; [done|]. rewrite list_lookup_insert_ne in Hb by done. eapply C13; try done. congruence.
  - intros p i Hf Hi Hgr. pose proof (occ_upd p cs n pr [] None [] Hn). rewrite <- (C14 p i) by done. simpl in *. lia.
  - intros d i r k pr' ch' p Hf Hi Hr Hfx Hk [[_ ->]|[_ Hc]]%Hcs Hp; [by apply not_elem_of_nil in Hp|]. by eapply C16.
Qed.
(** [woke] with another scoreboard and register file. *)
Definition woke2 s (ms : list M) (r : ReadyLists) (g : DependencyGraph) (b : list bool) (h : gmap Z IQInst) (f : regfile) : IQState M :=
  set_file (set_heap (set_iq (set_units s ms) (set_board (set_ready (iq s) r) g b)) h) f.

Lemma woke2_id s : woke2 s (memDepUnit s) (ready (iq s)) (graph (iq s)) (regScoreboard (iq s)) (heap s) (file s) = s.
Proof. by destruct s as [[]]. Qed.

(** A register that its producer writes once. *)
Definition unpinned (f : regfile) (r : preg) : Prop := exists x, f !! r = Some x /\ pinned x = false /\ numPinnedWritesToComplete x = 1.

Lemma flat_insert (f : regfile) r x y : f !! r = Some x -> flatIdx y = flatIdx x -> forall r', flat_of (<[r := y]> f) r' = flat_of f r'.
Proof.
  intros Hx E1 r'. unfold flat_of. destruct (decide (r' = r)) as [->|Hne]; [|by rewrite lookup_insert_ne].
  rewrite lookup_insert_eq, Hx. simpl. by rewrite E1.
Qed.

Lemma flat_lookup h f q L o late cs r : core c h f q L o late cs -> is_Some (f !! r) -> isFixedMapping r = false ->
  exists n pr ch, flat_of f r = Some n /\ (n < numPhysRegs c)%nat /\ cs !! n = Some (pr, ch) /\ (forall b, regScoreboard q !! n = Some b -> b = true -> ch = []) /\
  is_Some (regScoreboard q !! n).
Proof.
  intros HC [x Hx] Hfx. pose proof (fw_range _ _ (c_file _ _ _ _ _ _ _ _ HC) r x Hx Hfx) as Hlt. destruct (c_lens _ _ _ _ _ _ _ _ HC) as (_ & _ & _ & L4 & L5).
  destruct (lookup_lt_is_Some_2 cs (Z.to_nat (flatIdx x))) as [[pr ch] Hc]; [by rewrite L5|]. exists (Z.to_nat (flatIdx x)), pr, ch. unfold flat_of. rewrite Hx.
  split_and!; try done; [|apply lookup_lt_is_Some_2; by rewrite L4]. intros b Hb ->. by eapply (c_board _ _ _ _ _ _ _ _ HC).
Qed.

Lemma wake_dest_ok s L cs p r k : good c s L None None cs -> isFixedMapping r = false -> unpinned (file s) r -> exists n pr ch x ms rl g h,
  flat_of (file s) r = Some n /\ cs !! n = Some (pr, ch) /\ file s !! r = Some x /\
  let s' := woke2 s ms rl g (<[n := true]> (regScoreboard (iq s))) h (<[r := decrNumPinnedWritesToComplete x]> (file s)) in
  wake_dest p r k s = Ok ((k + length ch)%nat, s') /\ good c s' L None None (<[n := (None, [])]> cs) /\ marked ch (heap s) h.
Proof.
  intros HG Hfx (x & Hx & Hp & Hw). pose proof HG as [HC HU HL HF]. destruct (flat_lookup _ _ _ _ _ _ _ r HC (mk_is_Some _ _ Hx) Hfx) as (n & pr & ch & Hn & Hlt & Hc & _ & Hb).
  set (f' := <[r := decrNumPinnedWritesToComplete x]> (file s)). assert (HG1 : good c (set_file s f') L (Some n) None cs).
  { split; try done; [|by destruct HF]. apply core_open. eapply core_file; [exact HC|]. by apply flat_insert with x. }
  destruct (iq_wake_loop_ok L n ch _ cs pr (size (nodes (graph (iq s)))) k HG1 Hc) as (ms & rl & g & h & Ew & HG2 & Hmk); [eapply rep_size; [apply HC|done]|].
  pose proof (g_core _ _ _ _ _ _ HG2) as HC2. pose proof (lookup_lt_Some _ _ _ Hc) as Hlt2.
  assert (Hc2 : <[n := (pr, [])]> cs !! n = Some (pr, [])) by (by apply list_lookup_insert_eq).
  destruct (clearInst_rep _ _ n pr [] (c_rep _ _ _ _ _ _ _ _ HC2) Hc2) as (g' & Eg & Hrep).
  pose proof (core_close _ _ _ _ _ _ _ g' HC2 Hc2 Hrep) as HC3. rewrite list_insert_insert_eq in HC3.
  exists n, pr, ch, x, ms, rl, g', h. cbv zeta. split_and!; try done.
  - assert (P1 : pinned (decrNumPinnedWritesToComplete x) = false) by done.
    assert (P2 : numPinnedWritesToComplete (decrNumPinnedWritesToComplete x) = 0) by (simpl; lia).
    assert (P3 : flatIdx (decrNumPinnedWritesToComplete x) = flatIdx x) by done.
    unfold wake_dest. rewrite Hfx, Hx. cbn [deref rbind]. rewrite P1, P2, P3. cbn [rbind negb Z.eqb].
    unfold flat_of in Hn. rewrite Hx in Hn. simpl in Hn. injection Hn as ->. cbn [set_file iq]. fold f'. rewrite Ew. cbn [rbind].
    rewrite (empty_at_rep _ _ n pr [] (c_rep _ _ _ _ _ _ _ _ HC2) Hc2). cbn [rbind]. rewrite bool_decide_eq_true_2 by done. cbn [rbind assert_]. rewrite Eg. cbn [rbind].
    rewrite upd_Ok; [cbn [rbind]; by destruct s as [[]]|]. cbn. destruct Hb as [b Hb]. by eapply lookup_lt_Some.
  - destruct HG2 as [_ HU2 HL2 HF2]. split; try done. by destruct HF2.
Qed.

Lemma wake_dests_ok L p : forall rs s cs k, good c s L None None cs -> NoDup (filter (fun r => isFixedMapping r = false) rs) ->
  Forall (fun r => isFixedMapping r = false -> unpinned (file s) r) rs ->
  exists n ms rl g b h f cs', wake_dests p rs k s = Ok (n, woke2 s ms rl g b h f) /\ good c (woke2 s ms rl g b h f) L None None cs' /\ (forall x, flat_of f x = flat_of (file s) x) /\
    (forall r m, r ∈ rs -> isFixedMapping r = false -> flat_of (file s) r = Some m -> b !! m = Some true) /\
    (forall m, regScoreboard (iq s) !! m = Some true -> b !! m = Some true) /\
    (forall m, (forall r, r ∈ rs -> isFixedMapping r = false -> flat_of (file s) r <> Some m) -> b !! m = regScoreboard (iq s) !! m).
Proof.
  induction rs as [|r rs IH]; intros s cs k HG Hd Hu; cbn [wake_dests].
  { exists k, (memDepUnit s), (ready (iq s)), (graph (iq s)), (regScoreboard (iq s)), (heap s), (file s), cs. rewrite woke2_id. split_and!; try done.
    by intros r m ?%not_elem_of_nil. }
  apply Forall_cons in Hu as [Hur Hu]. rewrite filter_cons in Hd. destruct (isFixedMapping r) eqn:Hfx.
  - rewrite decide_False in Hd by done. destruct (IH s cs k HG Hd Hu) as (n & ms & rl & g & b & h & f & cs' & E1 & HG' & Hf & B1 & B2 & B3).
    unfold wake_dest. rewrite Hfx. cbn [rbind]. exists n, ms, rl, g, b, h, f, cs'. split_and!; try done.
    + intros r' m [->|Hr]%elem_of_cons Hfx'; [congruence|]. by apply B1.
    + intros m Hno. apply B3. intros r' Hr. apply Hno. by right.
  - rewrite decide_True in Hd by done. apply NoDup_cons in Hd as [Hr Hd].
    destruct (wake_dest_ok s L cs p r k HG Hfx (Hur eq_refl)) as (n0 & pr & ch & x & ms0 & rl0 & g0 & h0 & Hn0 & Hc & Hx & E0 & HG0 & _).
    assert (Hfl : forall y, flat_of (<[r := decrNumPinnedWritesToComplete x]> (file s)) y = flat_of (file s) y) by (by apply flat_insert with x).
    destruct (IH _ _ (k + length ch)%nat HG0 Hd) as (n & ms & rl & g & b & h & f & cs' & E1 & HG' & Hf & B1 & B2 & B3).
    { apply Forall_forall. intros r' Hr' Hfx'. rewrite Forall_forall in Hu. destruct (Hu r' Hr' Hfx') as (y & Hy & Hpy). exists y. split; [|done].
      cbn. rewrite lookup_insert_ne; [done|]. intros ->. apply Hr. by apply list_elem_of_filter. }
    rewrite E0. cbn [rbind]. rewrite E1. exists n, ms, rl, g, b, h, f, cs'. cbn in Hf, B1, B2, B3.
    assert (Hlt : (n0 < length (regScoreboard (iq s)))%nat).
    { destruct (c_lens _ _ _ _ _ _ _ _ (g_core _ _ _ _ _ _ HG)) as (_ & _ & _ & L4 & L5). rewrite L4, <- L5. by eapply lookup_lt_Some. }
    split_and!; try done.
    + intros y. by rewrite Hf.
    + intros r' m [->|Hr']%elem_of_cons Hfx' Hm; [|apply (B1 r'); try done; by rewrite Hfl].
      rewrite Hn0 in Hm. injection Hm as <-. apply B2. by apply list_lookup_insert_eq.
    + intros m Hm. apply B2. destruct (decide (m = n0)) as [->|]; [by apply list_lookup_insert_eq|]. by rewrite list_lookup_insert_ne.
    + intros m Hno. rewrite B3; [|intros r' Hr' Hfx'; rewrite Hfl; apply Hno; [by right|done]]. rewrite list_lookup_insert_ne; [done|].
      intros <-. by apply (Hno r); [left|..].
Qed.
End Wake.

(** ** Entries *)

Lemma sum_upd l t k k' : l !! t = Some k -> foldr Z.add 0 (<[t := k']> l) = foldr Z.add 0 l - k + k'.
Proof.
  intros (l1 & l2 & -> & ->)%list_elem_of_split_length. rewrite insert_app_r_alt, Nat.sub_diag by done.
  change (<[0%nat := k']> (k :: l2)) with (k' :: l2). rewrite !foldr_app. cbn [foldr].
  assert (Hb : forall m a b, foldr Z.add (a + b) m = foldr Z.add b m + a) by (induction m as [|y m IH]; intros a b; cbn [foldr]; rewrite ?IH; lia).
  rewrite !Hb. lia.
Qed.

Lemma sum_ge l t k : l !! t = Some k -> Forall (fun n => 0 <= n) l -> k <= foldr Z.add 0 l.
Proof.
  intros Hk Hl. revert t Hk. assert (Hpos : forall m, Forall (fun n => 0 <= n) m -> 0 <= foldr Z.add 0 m) by (induction 1; simpl; lia).
  induction Hl as [|x l Hx Hl IH]; intros [|t] Hk; try done; simpl in *.
  - injection Hk as ->. specialize (Hpos l Hl). lia.
  - specialize (IH t Hk). lia.
Qed.

Lemma lt_sorted_NoDup l : StronglySorted Z.lt l -> NoDup l.
Proof.
  induction 1 as [|x l _ IH HF]; constructor; [|done]. intros Hx. rewrite Forall_forall in HF. specialize (HF x Hx). lia.
Qed.

Section Entries.
Context (c : IQConfig) (h : gmap Z IQInst) (f : regfile) (q : IQ) (L : list (list Z)) (o : option nat) (late : option Z) (cs : list (option Z * list Z)).
Hypothesis H : core c h f q L o late cs.
Hypothesis Hcfg : 0 <= numEntries c < 2 ^ 31.

Lemma counts_nonneg : Forall (fun n => 0 <= n) (count q).
Proof.
  apply Forall_lookup. intros t n Hn. destruct (c_lens _ _ _ _ _ _ _ _ H) as (L1 & L2 & _). destruct (lookup_lt_is_Some_2 L t) as [l Hl].
  { rewrite L1, <- L2. by eapply lookup_lt_Some. } rewrite (c_count _ _ _ _ _ _ _ _ H t l Hl) in Hn. injection Hn as <-. lia.
Qed.

Lemma counts_bounds t k : count q !! t = Some k -> 0 <= k /\ freeEntries q + k <= numEntries c.
Proof.
  intros Hk. pose proof (sum_ge _ _ _ Hk counts_nonneg). pose proof counts_nonneg as Hn. rewrite Forall_lookup in Hn. specialize (Hn t k Hk).
  destruct (c_free _ _ _ _ _ _ _ _ H). split; [done|lia].
Qed.

Lemma release_entry q' t k : count q' = count q -> freeEntries q' = freeEntries q -> count q !! t = Some k -> 1 <= k ->
  move_entry t (-1) q' = Ok (set_counts q' (<[t := k - 1]> (count q)) (freeEntries q + 1)).
Proof.
  intros E1 E2 Hk Hk1. destruct (counts_bounds t k Hk) as [_ Hb]. destruct (c_free _ _ _ _ _ _ _ _ H) as [_ Hf0].
  unfold move_entry. rewrite E1, E2, (nth_lookup _ _ _ Hk). cbn [rbind]. rewrite upd_Ok by (by eapply lookup_lt_Some). cbn [rbind].
  rewrite !wrap_small by (unfold in_u; lia). done.
Qed.

(** The number of holders when one of them gives up its entry. *)
Lemma holders_release l p i i' : NoDup l -> p ∈ l -> h !! p = Some i -> holds i = true -> holds i' = false ->
  holders h l = S (holders (<[p := i']> h) l).
Proof.
  intros Hd Hp Hi Hh Hh'. unfold holders. induction l as [|x l IH]; [by apply not_elem_of_nil in Hp|]. apply NoDup_cons in Hd as [Hx Hd].
  rewrite !filter_cons. destruct (decide (x = p)) as [->|Hne].
  - rewrite decide_True by (unfold holding; by rewrite Hi). rewrite decide_False by (unfold holding; rewrite lookup_insert_eq, Hh'; done). simpl. f_equal.
    fold (holders h l). fold (holders (<[p := i']> h) l). symmetry. apply holders_ext. intros y Hy. unfold holding. rewrite lookup_insert_ne by (intros ->; done). done.
  - assert (Es : holding (<[p := i']> h) x = holding h x) by (unfold holding; rewrite lookup_insert_ne by done; done). rewrite Es.
    apply elem_of_cons in Hp as [->|Hp]; [done|]. specialize (IH Hd Hp). case_decide; simpl; lia.
Qed.

End Entries.

(** An instruction gives up its entry: it issues, or its access is done. *)
Section Release.
Context (c : IQConfig) (h : gmap Z IQInst) (f : regfile) (q : IQ) (L : list (list Z)) (o : option nat) (late : option Z) (cs : list (option Z * list Z)).
Hypothesis H : core c h f q L o late cs.
Context (p : Z) (i i' : IQInst) (k : Z).
Hypothesis Hf : in_flight L p.
Hypothesis Hi : h !! p = Some i.
Hypothesis Hsame : stat i' = stat i /\ staticInst (base i') = staticInst (base i) /\ inst_thread i' = inst_thread i /\ operands (base i') = operands (base i) /\
  isSquashed (base i') = isSquashed (base i) /\ readyToIssue i' = readyToIssue i /\ SquashedInIQ (flags i') = SquashedInIQ (flags i).
Hypothesis Hrel : holds i = true /\ holds i' = false /\ (isMemRef i = true -> Issued (flags i') = true).
Hypothesis Hno : occ p (concat (map snd cs)) = 0%nat.
Hypothesis Hsp : p ∉ nonSpecInsts q.
Hypothesis Hk : count q !! inst_thread i = Some k.
Hypothesis Hlate : if isMemRef i then late = None else late = Some p.

Lemma release_heap x j : <[p := i']> h !! x = Some j -> exists j0, h !! x = Some j0 /\ ((x = p /\ j0 = i /\ j = i') \/ (x <> p /\ j = j0)).
Proof.
  destruct (decide (x = p)) as [->|Hne]; [rewrite lookup_insert_eq; intros [= <-]; eauto 10|]. rewrite lookup_insert_ne by done. eauto 10.
Qed.

Lemma release_heap2 x j : h !! x = Some j -> exists j', <[p := i']> h !! x = Some j' /\ ((x = p /\ j = i /\ j' = i') \/ (x <> p /\ j' = j)).
Proof.
  destruct (decide (x = p)) as [->|Hne]; [rewrite Hi, lookup_insert_eq; intros [= <-]; eauto 10|]. rewrite lookup_insert_ne by done. eauto 10.
Qed.

Lemma release_chain n pr ch : cs !! n = Some (pr, ch) -> p ∉ ch.
Proof.
  intros Hn Hp. pose proof (occ_upd p cs n pr ch pr [] Hn) as Ho. apply occ_elem in Hp. rewrite Hno in Ho. simpl in Ho. lia.
Qed.

Lemma release_pos : 1 <= k.
Proof.
  destruct (flight_inst _ _ _ _ _ _ _ _ H p Hf) as (i0 & Hi0 & _ & (l & Hl & Hp) & _). rewrite Hi in Hi0. injection Hi0 as <-.
  rewrite (c_count _ _ _ _ _ _ _ _ H _ l Hl) in Hk. injection Hk as <-. destruct Hrel as (R1 & R2 & _).
  rewrite (holders_release h l p i i'); try done; [lia|]. apply lt_sorted_NoDup, (c_sorted _ _ _ _ _ _ _ _ H _ _ Hl).
Qed.

Lemma core_release : core c (<[p := i']> h) f (set_counts q (<[inst_thread i := k - 1]> (count q)) (freeEntries q + 1)) L o None cs.
Proof.
  destruct Hsame as (S1 & S2 & S3 & S4 & S5 & S6 & S7). destruct Hrel as (R1 & R2 & R3). destruct (kind_of i i' S1 S2) as (K1 & K2 & K3 & K4).
  destruct (regs_of i i' S4) as (G1 & G2 & G3). pose proof release_pos as Hpos. pose proof (flight_thread _ _ _ _ _ _ _ _ H) as Hthr.
  destruct H as [C1 C2 C3 C4 C5 C6 C7 C8 C9 C10 C11 C12 C13 C14 C15 C16 C17]. split; try done; cbn [set_counts graph ready nonSpecInsts regScoreboard count freeEntries squashedSeqNum].
  - by rewrite length_insert.
  - intros t l x Hl Hx. destruct (C5 t l x Hl Hx) as (j & Hj & Ht & Hok). destruct (release_heap2 x j Hj) as (j' & Hj' & [(-> & -> & ->)|[_ ->]]); [|eauto].
    exists i'. split_and!; [done|congruence|]. destruct Hok as [I1 I2 I3 I4 I5 I6]. split; unfold real_dests; rewrite ?S1, ?G1, ?G2, ?G3, ?K3, ?K4, ?S7; try done.
    split; [apply I6|auto].
  - intros t l Hl. destruct (decide (t = inst_thread i)) as [->|Hne].
    + rewrite list_lookup_insert_eq by (by eapply lookup_lt_Some). f_equal. rewrite (C6 _ l Hl) in Hk. injection Hk as <-. 
      destruct Hf as (t0 & l0 & Hl0 & Hp0). pose proof (Hthr p i t0 l0 Hi Hl0 Hp0) as <-. rewrite Hl in Hl0. injection Hl0 as <-.
      rewrite (holders_release h l p i i'); try done; [lia|]. apply lt_sorted_NoDup, (C4 _ _ Hl).
    + rewrite list_lookup_insert_ne by done. rewrite (C6 t l Hl). do 2 f_equal. symmetry. apply holders_ext. intros x Hx. unfold holding.
      rewrite lookup_insert_ne; [done|]. intros <-. by rewrite (Hthr p i t l Hi Hl Hx) in Hne.
  - rewrite (sum_upd _ _ _ _ Hk). lia.
  - intros kk l x Hl Hx. destruct (C9 kk l x Hl Hx) as (j & Hj & Hkk & Hth & Hfl). destruct (release_heap2 x j Hj) as (j' & Hj' & [(-> & -> & ->)|[_ ->]]); [|eauto].
    exists i'. rewrite S1, K3, S5, S3. done.
  - intros x j' l Hfx Hj' Hm Hl. destruct (release_heap x j' Hj') as (j & Hj & [(-> & -> & ->)|[Hne ->]]).
    + rewrite K3 in Hm. rewrite S1 in Hl. destruct (C10 p i l Hfx Hi Hm Hl) as (O1 & O2 & O3 & O4). rewrite Hm in Hlate. specialize (O3 Hlate).
      split_and!; try done. intros _ _ [Hiss _]. unfold holds in R2. rewrite K3, Hm, Hiss in R2. done.
    + destruct (C10 x j l Hfx Hj Hm Hl) as (O1 & O2 & O3 & O4). split_and!; try done. intros Hs _ Hg. apply O4; try done. destruct (isMemRef i); congruence.
  - intros n pr ch x Hn Hx. destruct (C11 n pr ch x Hn Hx) as (Hfx & j & Hj & Hgr & Hh). split; [done|]. destruct (release_heap2 x j Hj) as (j' & Hj' & [(-> & -> & ->)|[_ ->]]); [|eauto].
    by destruct (release_chain n pr ch Hn Hx).
  - intros x j' n pr ch Hfx Hj' Hgr Hn Hb Ho. destruct (release_heap x j' Hj') as (j & Hj & [(-> & -> & ->)|[_ ->]]); [|by eapply C13].
    unfold unready. rewrite G1, G2. apply (C13 p i n pr ch); try done. congruence.
  - intros x j' Hfx Hj' Hgr. destruct (release_heap x j' Hj') as (j & Hj & [(-> & -> & ->)|[_ ->]]); [|by eapply C14].
    rewrite K4, S4. apply C14; try done. congruence.
  - intros x j' Hfx Hj' Hgr Hm. destruct (release_heap x j' Hj') as (j & Hj & [(-> & -> & ->)|[_ ->]]); [|by eapply C15].
    rewrite K4, S4, S6. apply (C15 p i); congruence.
  - intros d j' r n pr ch x Hfd Hj' Hr Hfx Hn Hc Hx. assert (Hd : exists j, h !! d = Some j /\ dest_regs j' = dest_regs j /\ inst_thread j' = inst_thread j).
    { destruct (release_heap d j' Hj') as (j & Hj & [(-> & -> & ->)|[_ ->]]); eauto. }
    destruct Hd as (j & Hj & Ed & Et). rewrite Ed in Hr. destruct (C16 d j r n pr ch x Hfd Hj Hr Hfx Hn Hc Hx) as (y & Hy & Ht & Hlt). rewrite Et.
    destruct (release_heap2 x y Hy) as (y' & Hy' & [(-> & -> & ->)|[_ ->]]); [|eauto]. by destruct (release_chain n pr ch Hc Hx).
  - intros x Hx. destruct (C17 x Hx) as (Hfx & j & Hj & Hgj). split; [done|]. destruct (release_heap2 x j Hj) as (j' & Hj' & [(-> & -> & ->)|[_ ->]]); [done|eauto].
Qed.

End Release.

(** ** A new instruction *)

Lemma occ_replicate p x n ch : occ x (replicate n p ++ ch) = ((if decide (x = p) then n else 0) + occ x ch)%nat.
Proof.
  rewrite occ_app. f_equal. induction n as [|n IH]; simpl replicate; [by destruct (decide (x = p))|]. rewrite occ_cons, IH. destruct (decide (p = x)), (decide (x = p)); congruence || lia.
Qed.

Section Insert.
Context (c : IQConfig) (h : gmap Z IQInst) (f : regfile) (q : IQ) (L : list (list Z)) (cs : list (option Z * list Z)).
Hypothesis H : core c h f q L None None cs.
(** The instruction, its thread and the list of the thread. *)
Context (p : Z) (i : IQInst) (l : list Z) (k : Z).
Hypothesis Hok : inst_ok f i.
Hypothesis Hl : L !! inst_thread i = Some l.
Hypothesis Hage : forall x, x ∈ l -> x < p.
Hypothesis Hnew : ~ in_flight L p.
Hypothesis Hnq : forall n lq, readyInsts (ready q) !! n = Some lq -> p ∉ lq.
Hypothesis Hk : count q !! inst_thread i = Some k.
Hypothesis Hfree : freeEntries q <> 0.
Hypothesis Hholds : holds i = true.
(** How often it was added to the dependents of every register. *)
Context (a : nat -> nat) (cs' : list (option Z * list Z)) (b' : list bool) (g' : DependencyGraph) (ns : gset Z).
Hypothesis Hg : rep g' cs'.
Hypothesis Hlen : length cs' = length cs /\ length b' = length (regScoreboard q).
Hypothesis Hcs : forall n pr ch, cs !! n = Some (pr, ch) -> exists pr', cs' !! n = Some (pr', replicate (a n) p ++ ch).
Hypothesis Ha : forall n, (0 < a n)%nat -> in_graph i = true.
Hypothesis Hb : forall n, b' !! n = Some true -> regScoreboard q !! n = Some true /\ a n = 0%nat.
Hypothesis Hb2 : forall n, b' !! n = Some false -> regScoreboard q !! n = Some true ->
  forall x j, in_flight L x -> h !! x = Some j -> unready f j n = 0%nat.
Hypothesis Hwait : in_graph i = true -> forall n, b' !! n = Some false -> a n = unready f i n.
Hypothesis Hmiss : in_graph i = true -> (readyRegs (operands (base i)) + occ p (concat (map snd cs')) = numSrcRegs i)%nat.
Hypothesis Hcan : in_graph i = true -> isMemRef i = false -> readyToIssue i = (readyRegs (operands (base i)) =? numSrcRegs i)%nat.
Hypothesis Hprod : forall r n pr ch, r ∈ dest_regs i -> isFixedMapping r = false -> flat_of f r = Some n -> cs' !! n = Some (pr, ch) -> ch = [].
Hypothesis Hprod2 : forall d j r n, in_flight L d -> h !! d = Some j -> r ∈ dest_regs j -> isFixedMapping r = false -> flat_of f r = Some n -> (0 < a n)%nat ->
  inst_thread j = inst_thread i.
Hypothesis Hns : forall x, x <> p -> x ∈ ns <-> x ∈ nonSpecInsts q.
Hypothesis Hnsp : p ∈ ns -> in_graph i = false.
Abbreviation L' := (<[inst_thread i := l ++ [p]]> L).
Abbreviation h' := (<[p := i]> h).

Lemma insert_flight x : in_flight L' x <-> x = p \/ in_flight L x.
Proof.
  assert (Hlt : (inst_thread i < length L)%nat) by (by eapply lookup_lt_Some). split.
  - intros (t & l0 & Hl0 & Hx). destruct (decide (t = inst_thread i)) as [->|Hne].
    + rewrite list_lookup_insert_eq in Hl0 by done. injection Hl0 as <-. apply elem_of_app in Hx as [Hx|Hx%list_elem_of_singleton]; [|auto]. right. by exists (inst_thread i), l.
    + rewrite list_lookup_insert_ne in Hl0 by done. right. by exists t, l0.
  - intros [->|(t & l0 & Hl0 & Hx)].
    + exists (inst_thread i), (l ++ [p]). rewrite list_lookup_insert_eq by done. split; [done|]. apply elem_of_app. right. by left.
    + destruct (decide (t = inst_thread i)) as [->|Hne].
      * exists (inst_thread i), (l ++ [p]). rewrite list_lookup_insert_eq by done. split; [done|]. apply elem_of_app. left. congruence.
      * exists t, l0. by rewrite list_lookup_insert_ne.
Qed.

Lemma insert_old x : in_flight L x -> x <> p /\ h' !! x = h !! x.
Proof. intros Hx. assert (x <> p) as Hne by (intros ->; done). split; [done|]. by rewrite lookup_insert_ne. Qed.

Lemma insert_cs n pr' ch' : cs' !! n = Some (pr', ch') -> exists pr ch, cs !! n = Some (pr, ch) /\ ch' = replicate (a n) p ++ ch.
Proof.
  intros Hn. destruct (lookup_lt_is_Some_2 cs n) as [[pr ch] Hc]; [rewrite <- (proj1 Hlen); by eapply lookup_lt_Some|].
  destruct (Hcs n pr ch Hc) as (pr2 & E). rewrite Hn in E. injection E as -> ->. eauto.
Qed.

Lemma insert_total x : x <> p -> occ x (concat (map snd cs')) = occ x (concat (map snd cs)).
Proof.
  intros Hne. destruct Hlen as [E _]. clear -Hcs E Hne. revert cs' a E Hcs. induction cs as [|[pr ch] l IH]; intros [|[pr' ch'] l'] a0 E Hc; try done.
  cbn [map concat snd]. rewrite !occ_app. destruct (Hc 0%nat pr ch eq_refl) as (pr2 & E2). injection E2 as -> ->. rewrite occ_replicate, decide_False by done.
  f_equal. apply (IH l' (fun n => a0 (S n))); [by injection E|]. intros n pr3 ch3 Hn. by apply (Hc (S n) pr3 ch3).
Qed.

Lemma core_insert : core c h' f (mkIQ (instList q) (instsToExecute q) (deferredMemInsts q) (blockedMemInsts q) (retryMemInsts q) (ready q) ns g' b'
  (<[inst_thread i := k + 1]> (count q)) (maxEntries q) (freeEntries q - 1) (wbOutstanding q) (squashedSeqNum q)) L' None (Some p) cs'.
Proof.
  pose proof (flight_thread _ _ _ _ _ _ _ _ H) as Hthr.
  destruct H as [C1 C2 C3 C4 C5 C6 C7 C8 C9 C10 C11 C12 C13 C14 C15 C16 C17].
  assert (Hlt : (inst_thread i < length L)%nat) by (by eapply lookup_lt_Some).
  assert (HL : forall t l0, L' !! t = Some l0 -> (t = inst_thread i /\ l0 = l ++ [p]) \/ (t <> inst_thread i /\ L !! t = Some l0)).
  { intros t l0 Ht. destruct (decide (t = inst_thread i)) as [->|Hne]; [left|right; by rewrite list_lookup_insert_ne in Ht].
    rewrite list_lookup_insert_eq in Ht by done. by injection Ht as <-. }
  split; cbn [graph ready nonSpecInsts regScoreboard count freeEntries squashedSeqNum]; try done.
  - rewrite !length_insert. destruct Hlen as [-> ->]. done.
  - intros t l0 [[-> ->]|[_ Hl0]]%HL; [|by eapply C4].
    apply StronglySorted_app_all; [by eapply C4|repeat constructor|]. intros x y Hx ->%list_elem_of_singleton. auto.
  - intros t l0 x [[-> ->]|[Hne Hl0]]%HL Hx.
    + apply elem_of_app in Hx as [Hx| ->%list_elem_of_singleton]; [|exists i; by rewrite lookup_insert_eq].
      rewrite (proj2 (insert_old x ltac:(by exists (inst_thread i), l))). by eapply C5.
    + rewrite (proj2 (insert_old x ltac:(by exists t, l0))). by eapply C5.
  - intros t l0 [[-> ->]|[Hne Hl0]]%HL.
    + rewrite list_lookup_insert_eq by (by eapply lookup_lt_Some). f_equal. rewrite (C6 _ l Hl) in Hk. injection Hk as <-.
      assert (Eh : holders h' l = holders h l).
      { apply holders_ext. intros x Hx. unfold holding. by rewrite (proj2 (insert_old x ltac:(by exists (inst_thread i), l))). }
      rewrite <- Eh. unfold holders. rewrite filter_app, length_app. rewrite filter_cons_True by (unfold holding; by rewrite lookup_insert_eq). simpl. lia.
    + rewrite list_lookup_insert_ne by done. rewrite (C6 t l0 Hl0). do 2 f_equal. symmetry. apply holders_ext. intros x Hx. unfold holding.
      by rewrite (proj2 (insert_old x ltac:(by exists t, l0))).
  - rewrite (sum_upd _ _ _ _ Hk). lia.
  - intros n lq x Hlq Hx. destruct (C9 n lq x Hlq Hx) as (j & Hj & Hc & Hth & Hfl). exists j. rewrite lookup_insert_ne by (intros <-; by eapply Hnq). split_and!; try done.
    intros Hm Hs. apply insert_flight. auto.
  - intros x j lq [->|Hx]%insert_flight Hj Hm Hlq.
    + rewrite lookup_insert_eq in Hj. injection Hj as <-. specialize (Hnq _ _ Hlq). rewrite occ_elem in Hnq. split_and!; try done; [lia|..].
      all: rewrite occ_elem; done.
    + destruct (insert_old x Hx) as [Hne Ex]. rewrite Ex in Hj. destruct (C10 x j lq Hx Hj Hm Hlq) as (O1 & O2 & O3 & O4).
      assert (Hcg : can_go ns x j <-> can_go (nonSpecInsts q) x j) by (unfold can_go; destruct (in_graph j); [done|]; by rewrite (Hns x Hne)).
      rewrite Hcg. split_and!; try done; [congruence|]. intros Hs _. by apply O4.
  - intros n pr' ch' x Hn Hx. destruct (insert_cs n pr' ch' Hn) as (pr & ch & Hc & ->). apply elem_of_app in Hx as [[-> Hpos]%elem_of_replicate|Hx].
    + split; [apply insert_flight; auto|]. exists i. rewrite lookup_insert_eq. split_and!; try done. apply (Ha n). lia.
    + destruct (C11 n pr ch x Hc Hx) as (Hfx & Hj). split; [apply insert_flight; auto|]. by rewrite (proj2 (insert_old x Hfx)).
  - intros n pr' ch' Hn Htrue. destruct (insert_cs n pr' ch' Hn) as (pr & ch & Hc & ->). destruct (Hb n Htrue) as [Hq ->]. by rewrite (C12 n pr ch Hc Hq).
  - intros x j n pr' ch' Hx Hj Hgr Hn Hfalse _. destruct (insert_cs n pr' ch' Hn) as (pr & ch & Hc & ->). rewrite occ_replicate.
    assert (Hboard : exists b0, regScoreboard q !! n = Some b0) by (apply lookup_lt_is_Some_2; rewrite <- (proj2 Hlen); by eapply lookup_lt_Some).
    apply insert_flight in Hx as [->|Hx].
    + rewrite lookup_insert_eq in Hj. injection Hj as <-. rewrite decide_True by done. rewrite (Hwait Hgr n Hfalse).
      assert (p ∉ ch) as Hpc by (intros Hin; destruct (C11 n pr ch p Hc Hin); done). rewrite occ_elem in Hpc. lia.
    + destruct (insert_old x Hx) as [Hne Ex]. rewrite Ex in Hj. rewrite decide_False by done. destruct Hboard as [[] Hq].
      * rewrite (C12 n pr ch Hc Hq), (Hb2 n Hfalse Hq x j Hx Hj). done.
      * by apply (C13 x j n pr ch).
  - intros x j [->|Hx]%insert_flight Hj Hgr; [rewrite lookup_insert_eq in Hj; injection Hj as <-; auto|].
    destruct (insert_old x Hx) as [Hne Ex]. rewrite Ex in Hj. rewrite insert_total by done. by eapply C14.
  - intros x j [->|Hx]%insert_flight Hj; [rewrite lookup_insert_eq in Hj; injection Hj as <-; auto|].
    destruct (insert_old x Hx) as [Hne Ex]. rewrite Ex in Hj. by eapply C15.
  - intros d j r n pr' ch' x Hd Hj Hr Hfx Hn Hc' Hx. destruct (insert_cs n pr' ch' Hc') as (pr & ch & Hc & ->).
    apply insert_flight in Hd as [->|Hd]; [rewrite lookup_insert_eq in Hj; injection Hj as <-; rewrite (Hprod r n _ _ Hr Hfx Hn Hc') in Hx; by apply not_elem_of_nil in Hx|].
    rewrite (proj2 (insert_old d Hd)) in Hj. apply elem_of_app in Hx as [[-> Hpos]%elem_of_replicate|Hx].
    + exists i. rewrite lookup_insert_eq. assert (Et : inst_thread j = inst_thread i) by (eapply Hprod2; try done; lia). split_and!; try done.
      apply Hage. destruct Hd as (t & l0 & Hl0 & Hd). pose proof (Hthr d j t l0 Hj Hl0 Hd) as <-. congruence.
    + destruct (C11 n pr ch x Hc Hx) as (Hfx' & _). rewrite (proj2 (insert_old x Hfx')). by eapply C16.
  - intros x Hx. rewrite insert_flight. destruct (decide (x = p)) as [->|Hne]; [split; [by left|]; exists i; rewrite lookup_insert_eq; auto|].
    destruct (C17 x) as (Hfx & Hj); [by apply Hns|]. split; [by right|]. by rewrite lookup_insert_ne.
Qed.

End Insert.
