(* ===== verification/IQMemDep.v ===== *)
(** * The memory dependence unit behind the interface of the instruction queue

    The unit of [MemDepUnit.v] implements the operations [MemDep] that the instruction
    queue calls, and has the properties [MemDepLaws] on which the theorems about the queue
    rest.  The laws follow from the invariant [wfm] of the unit. *)

From Stdlib Require Import ZArith Lia Bool.
From stdpp Require Import base tactics option list numbers gmap sorting.
From S2P Require Import Prelude Phast RenameMap RenameRegs InstQueue InstQueueInv.
From S2P Require MemDepUnit.
Open Scope Z_scope.

(** ** Operations *)

(** The instruction as the unit sees it during a call. *)
Definition view (p : Z) (i : IQInst) : MemDepUnit.DynInst :=
  MemDepUnit.mkInst p (Z.of_nat (inst_thread i)) (instAddr (stat i)) (isLoad (staticInst (base i))) (isStore (staticInst (base i)))
    (isAtomic (staticInst (base i))) (isReadBarrier (stat i)) (isWriteBarrier (stat i)) (isHtmCmd (stat i)) (readyToIssue i)
    (sqIdx i) (effAddr i) (effSize i).

(** The calls of [addReadyMemInst] and [clearCanIssue] are those of one call. *)
Definition fresh_log (m : MemDepUnit.MemDepUnit) : MemDepUnit.MemDepUnit :=
  MemDepUnit.set_cannotIssue (MemDepUnit.set_ready m []) ∅.
Definition log_of (p : Z) (m : MemDepUnit.MemDepUnit) : MdOut :=
  mkMdOut (MemDepUnit.ready m) (bool_decide (p ∈ MemDepUnit.cannotIssue m)).
Definition calling (p : Z) (f : MemDepUnit.MemDepUnit -> res MemDepUnit.MemDepUnit) (m : MemDepUnit.MemDepUnit) : res (MemDepUnit.MemDepUnit * MdOut) :=
  let! m := f (fresh_log m) in Ok (m, log_of p m).

(** What [insert] looks up in the store queue: the index of the oldest store, and the
    instruction in a slot. *)
Record StoreQueue := mkStoreQueue { storeHead : Z; sqStore : Z -> Z }.

#[export] Instance unit_ops : MemDep MemDepUnit.MemDepUnit StoreQueue := {|
  md_insert e p i hist := calling p (fun m => MemDepUnit.insert m (view p i) hist (storeHead e) (sqStore e));
  md_insertNonSpec p i := calling p (fun m => MemDepUnit.insertNonSpec m (view p i));
  md_insertBarrier p i := calling p (fun m => Ok (MemDepUnit.insertBarrier m (view p i)));
  md_regsReady p i := calling p (fun m => MemDepUnit.regsReady_ m (view p i));
  md_nonSpecInstReady p i := calling p (fun m => MemDepUnit.nonSpecInstReady m (view p i));
  md_issue p i := calling p (fun m => Ok (MemDepUnit.issue m (view p i)));
  md_completeInst p i := calling p (fun m => MemDepUnit.completeInst m (view p i));
  md_reschedule p i := calling p (fun m => Ok (MemDepUnit.reschedule m (view p i)));
  md_replay := calling 0 MemDepUnit.replay;
  md_violation n pc p i hist := calling p (fun m => MemDepUnit.violation m n (storeQueueDistance i) (view p i) hist);
  md_squash n tid := calling 0 (fun m => MemDepUnit.squash m n (Z.of_nat tid));
  md_isDrained := MemDepUnit.isDrained;
  md_drainSanityCheck := MemDepUnit.drainSanityCheck
|}.

(** ** Laws *)

Abbreviation insts m := (MemDepUnit.insts_of m (MemDepUnit.unit_id m)) (only parsing).

Definition kind_of_entry (j : MemDepUnit.DynInst) : MdKind :=
  mkKind (MemDepUnit.isLoad j) (MemDepUnit.isStore j) (MemDepUnit.isAtomic j) (MemDepUnit.isReadBarrier j) (MemDepUnit.isWriteBarrier j) (MemDepUnit.isHtmCmd j).
Definition known_by (j : MemDepUnit.DynInst) : Z * MdKind := (MemDepUnit.sn j, kind_of_entry j).
Definition unit_live (m : MemDepUnit.MemDepUnit) : list (Z * MdKind) := map known_by (insts m).
Definition unit_wf (tid : nat) (m : MemDepUnit.MemDepUnit) : Prop := MemDepUnit.wfm m /\ MemDepUnit.unit_id m = Z.of_nat tid.

Lemma fresh_log_wf tid m : unit_wf tid m -> unit_wf tid (fresh_log m).
Proof. intros [[] ?]. by split. Qed.

Lemma live_known tid p i m : unit_wf tid m -> inst_thread i = tid -> (p, kind i) ∈ unit_live m -> MemDepUnit.known (fresh_log m) (view p i).
Proof.
  intros [Hm Hid] Ht Hp. apply list_elem_of_fmap in Hp as (j & Ej & Hj). injection Ej as -> E1 E2 E3 E4 E5 E6. exists j. split; [exact Hj|].
  pose proof (MemDepUnit.m_tid _ Hm j Hj) as Htid. split_and!; try done. simpl. congruence.
Qed.

Lemma younger_young tid p i m : unit_wf tid m -> inst_thread i = tid -> younger_than (unit_live m) p -> MemDepUnit.young (fresh_log m) (view p i).
Proof.
  intros [Hm Hid] Ht Hy. split; [|simpl; congruence]. intros j Hj. apply (Hy (known_by j)). apply list_elem_of_fmap. by exists j.
Qed.

Lemma known_woken m j : MemDepUnit.wfm m -> MemDepUnit.known m j -> MemDepUnit.is_mem j = true -> exists k, (MemDepUnit.sn j, k) ∈ unit_live m /\ k_mem k = true.
Proof.
  intros Hm (j' & Hj' & Es & _ & E1 & E2 & E3 & _) Hmem. exists (kind_of_entry j'). split; [rewrite Es; apply list_elem_of_fmap; by exists j'|].
  unfold k_mem. simpl. rewrite <- E1, <- E2, <- E3. exact Hmem.
Qed.

(** The instructions that a completion wakes are memory instructions in flight. *)
Lemma complete_woken m i m' w : MemDepUnit.wfm m -> MemDepUnit.can_complete m i -> MemDepUnit.completeInst m i = Ok m' -> MemDepUnit.ready m = [] ->
  w ∈ MemDepUnit.ready m' -> exists k, (w, k) ∈ unit_live m' /\ k_mem k = true.
Proof.
  intros Hm Hc E Hr Hw. destruct (MemDepUnit.can_complete_ok m i Hm Hc) as (p & e & m2 & Hp & He & E2 & Hm2 & Hid & Hins & Hrd). rewrite E in E2. injection E2 as <-.
  rewrite Hrd, Hr in Hw. apply MemDepUnit.woken_spec in Hw as (x & ex & Hx & <- & Hcnt & _ & Hsq). assert (Hin : x ∈ MemDepUnit.dependInsts e) by (apply MemDepUnit.cnt_pos; lia).
  destruct (MemDepUnit.d_dep _ _ _ _ (MemDepUnit.m_graph _ Hm) _ _ _ _ Hp He Hin) as (_ & ex' & Hx' & [Hlt Hmem] & Hor). rewrite Hx in Hx'. injection Hx' as <-.
  destruct Hor as [?|Hl]; [congruence|]. destruct (MemDepUnit.d_live _ _ _ _ (MemDepUnit.m_graph _ Hm) _ _ Hl) as (ex2 & Hx2 & _ & _ & HL). rewrite Hx in Hx2. injection Hx2 as <-.
  apply (known_woken m' (MemDepUnit.inst ex)); [done| |done]. exists (MemDepUnit.inst ex). split; [|done]. rewrite Hins. apply list_elem_of_filter. split; [lia|done].
Qed.

Lemma live_filter (P : Z -> Prop) `{forall z, Decision (P z)} (l : list MemDepUnit.DynInst) :
  map known_by (filter (fun j => P (MemDepUnit.sn j)) l) = filter (fun w => P (fst w)) (map known_by l).
Proof. induction l as [|j l IH]; [done|]. rewrite filter_cons, map_cons, filter_cons. change (fst (known_by j)) with (MemDepUnit.sn j). by destruct (decide _); simpl; rewrite IH. Qed.

Section Laws.
Context (tid : nat) (p : Z) (i : IQInst) (m : MemDepUnit.MemDepUnit).
Hypothesis Hwf : unit_wf tid m.

(** The form of a law: the call returns a unit that satisfies [P]. *)
Lemma calling_law q f m' (P : MemDepUnit.MemDepUnit -> MdOut -> Prop) : f (fresh_log m) = Ok m' -> P m' (log_of q m') -> exists m' o, calling q f m = Ok (m', o) /\ P m' o.
Proof. intros E HP. exists m', (log_of q m'). split; [|done]. unfold calling. by rewrite E. Qed.

Lemma unit_law_insert e hist : inst_thread i = tid -> isMemRef i = true -> younger_than (unit_live m) p -> in_u 64 (instAddr (stat i)) ->
  MemDepUnit.store_queue_ok m (view p i) (sqStore e) -> exists m' o, md_insert e p i hist m = Ok (m', o) /\ unit_wf tid m' /\
    unit_live m' = unit_live m ++ [(p, kind i)] /\ forall w, w ∈ woken o -> w = p.
Proof.
  intros Ht Hmem Hy Hpc Hsq. pose proof (fresh_log_wf tid m Hwf) as [Hw Hid].
  destruct (MemDepUnit.insert_ok (fresh_log m) (view p i) hist (storeHead e) (sqStore e)) as (m' & q & x & E & Hw' & Hid' & Hins & _ & _ & _ & _ & _ & Hrd); try done; [by eapply younger_young|].
  eapply calling_law; [exact E|]. split; [split; [done|congruence]|]. split; [unfold unit_live; rewrite Hins, map_app; done|].
  intros w. simpl. rewrite Hrd. simpl. destruct (_ && _); [by intros ->%list_elem_of_singleton|by intros ?%not_elem_of_nil].
Qed.

Lemma unit_law_insertNonSpec : inst_thread i = tid -> isMemRef i = true -> younger_than (unit_live m) p ->
  exists m' o, md_insertNonSpec p i m = Ok (m', o) /\ unit_wf tid m' /\ unit_live m' = unit_live m ++ [(p, kind i)] /\ woken o = [].
Proof.
  intros Ht Hmem Hy. pose proof (fresh_log_wf tid m Hwf) as [Hw Hid].
  destruct (MemDepUnit.unit_insertNonSpec_ok (fresh_log m) (view p i) Hw) as (m' & E & Hw' & Hid' & Hins & Hrd); [by eapply younger_young|done|].
  eapply calling_law; [exact E|]. split; [split; [done|congruence]|]. split; [unfold unit_live; rewrite Hins, map_app; done|done].
Qed.

Lemma unit_law_insertBarrier : inst_thread i = tid -> younger_than (unit_live m) p ->
  exists m' o, md_insertBarrier p i m = Ok (m', o) /\ unit_wf tid m' /\ unit_live m' = unit_live m ++ [(p, kind i)] /\ woken o = [].
Proof.
  intros Ht Hy. pose proof (fresh_log_wf tid m Hwf) as [Hw Hid].
  destruct (MemDepUnit.insertBarrier_ok (fresh_log m) (view p i) Hw) as (Hw' & Hid' & Hins & Hrd); [by eapply younger_young|].
  eapply calling_law; [reflexivity|]. split; [split; [done|congruence]|]. split; [unfold unit_live; rewrite Hins, map_app; done|done].
Qed.

Lemma unit_law_regsReady : inst_thread i = tid -> (p, kind i) ∈ unit_live m ->
  exists m' o, md_regsReady p i m = Ok (m', o) /\ unit_wf tid m' /\ unit_live m' = unit_live m /\ forall w, w ∈ woken o -> w = p.
Proof.
  intros Ht Hl. pose proof (fresh_log_wf tid m Hwf) as [Hw Hid].
  destruct (MemDepUnit.regsReady_ok (fresh_log m) (view p i) Hw) as (m' & q & e & E & Hw' & _ & _ & Hid' & Hins & Hrd); [by eapply live_known|].
  eapply calling_law; [exact E|]. split; [split; [done|congruence]|]. split; [unfold unit_live; by rewrite Hins|].
  intros w. simpl. rewrite Hrd. simpl. destruct (_ =? _); [by intros ->%list_elem_of_singleton|by intros ?%not_elem_of_nil].
Qed.

Lemma unit_law_nonSpecInstReady : inst_thread i = tid -> (p, kind i) ∈ unit_live m ->
  exists m' o, md_nonSpecInstReady p i m = Ok (m', o) /\ unit_wf tid m' /\ unit_live m' = unit_live m /\ forall w, w ∈ woken o -> w = p.
Proof.
  intros Ht Hl. pose proof (fresh_log_wf tid m Hwf) as [Hw Hid]. destruct (MemDepUnit.nonSpecInstReady_ok (fresh_log m) (view p i) Hw) as [E Hw']; [by eapply live_known|].
  eapply calling_law; [exact E|]. split; [split; [done|exact Hid]|]. split; [done|]. by intros w ->%list_elem_of_singleton.
Qed.

Lemma unit_law_issue : exists m' o, md_issue p i m = Ok (m', o) /\ unit_wf tid m' /\ unit_live m' = unit_live m /\ woken o = [].
Proof. eapply calling_law; [reflexivity|]. split; [by apply fresh_log_wf|done]. Qed.

Lemma unit_law_completeInst : inst_thread i = tid -> (p, kind i) ∈ unit_live m ->
  (forall j, j ∈ MemDepUnit.instsToReplay m -> MemDepUnit.sn j <> p) /\ (forall j, ~ MemDepUnit.blocks m j (view p i)) ->
  exists m' o, md_completeInst p i m = Ok (m', o) /\ unit_wf tid m' /\ unit_live m' = filter (fun w => fst w <> p) (unit_live m) /\
    forall w, w ∈ woken o -> exists k, (w, k) ∈ unit_live m' /\ k_mem k = true.
Proof.
  intros Ht Hl [Hr Hb]. pose proof (fresh_log_wf tid m Hwf) as [Hw Hid].
  assert (Hc : MemDepUnit.can_complete (fresh_log m) (view p i)) by (split; [by eapply live_known|done]).
  destruct (MemDepUnit.can_complete_ok _ _ Hw Hc) as (q & e & m' & _ & _ & E & Hw' & Hid' & Hins & _).
  eapply calling_law; [exact E|]. split; [split; [done|congruence]|]. split; [unfold unit_live; rewrite Hins; exact (live_filter (fun z => z <> p) (insts m))|].
  intros w. by apply (complete_woken (fresh_log m) (view p i)).
Qed.

Lemma unit_law_reschedule : inst_thread i = tid -> (p, kind i) ∈ unit_live m -> isMemRef i = true ->
  exists m' o, md_reschedule p i m = Ok (m', o) /\ unit_wf tid m' /\ unit_live m' = unit_live m /\ woken o = [].
Proof.
  intros Ht Hl Hmem. pose proof (fresh_log_wf tid m Hwf) as [Hw Hid]. eapply calling_law; [reflexivity|]. split; [|done].
  split; [|exact Hid]. apply MemDepUnit.unit_reschedule_ok; [done|by eapply live_known|done].
Qed.

Lemma unit_law_replay : exists m' o, md_replay m = Ok (m', o) /\ unit_wf tid m' /\ unit_live m' = unit_live m /\
  forall w, w ∈ woken o -> exists k, (w, k) ∈ unit_live m /\ k_mem k = true.
Proof.
  pose proof (fresh_log_wf tid m Hwf) as [Hw Hid].
  destruct (MemDepUnit.replay_loop_ok (MemDepUnit.instsToReplay m) (fresh_log m) Hw) as (m' & E & Hw' & Hrd & _ & Hid' & Hins); [intros j Hj; by apply Hw|done|].
  eapply (calling_law 0 MemDepUnit.replay); [exact E|]. split; [split; [done|congruence]|]. split; [unfold unit_live; by rewrite Hins|].
  intros w. simpl. rewrite Hrd. simpl. intros (j & -> & Hj)%list_elem_of_fmap. destruct (MemDepUnit.m_replay _ Hw j Hj) as [Hmem Hk]. by apply (known_woken (fresh_log m)).
Qed.

Lemma unit_law_violation n pc hist : in_u 64 (instAddr (stat i)) ->
  exists m' o, md_violation n pc p i hist m = Ok (m', o) /\ unit_wf tid m' /\ unit_live m' = unit_live m /\ woken o = [].
Proof.
  intros Hpc. pose proof (fresh_log_wf tid m Hwf) as [Hw Hid].
  destruct (MemDepUnit.unit_violation_ok (fresh_log m) n (storeQueueDistance i) (view p i) hist Hw Hpc) as (dp & E & Hw').
  eapply calling_law; [exact E|]. split; [by split|done].
Qed.

Lemma unit_law_squash n : exists m' o, md_squash n tid m = Ok (m', o) /\ unit_wf tid m' /\ unit_live m' = filter (fun w => fst w <= n) (unit_live m) /\ woken o = [].
Proof.
  pose proof (fresh_log_wf tid m Hwf) as [Hw Hid]. destruct (MemDepUnit.squash_ok (fresh_log m) n Hw) as (m' & E & Hw' & Hid' & Hins & Hrd). rewrite Hid in E.
  eapply (calling_law 0 (fun m => MemDepUnit.squash m n (Z.of_nat tid))); [exact E|]. split; [split; [done|congruence]|].
  split; [unfold unit_live; rewrite Hins; exact (live_filter (fun z => z <= n) (insts m))|done].
Qed.
End Laws.

#[export] Instance unit_laws : MemDepLaws MemDepUnit.MemDepUnit StoreQueue.
Proof.
  refine {|
    md_ok := unit_wf;
    md_live := unit_live;
    md_insert_ok e p i hist m := in_u 64 (instAddr (stat i)) /\ MemDepUnit.store_queue_ok m (view p i) (sqStore e);
    md_complete_ok p i m := (forall j, j ∈ MemDepUnit.instsToReplay m -> MemDepUnit.sn j <> p) /\ forall j, ~ MemDepUnit.blocks m j (view p i);
    md_violation_ok n pc p i hist m := in_u 64 (instAddr (stat i))
  |}.
  - intros tid e p i hist m Hm Ht Hmem Hy []. by apply unit_law_insert.
  - intros. by apply unit_law_insertNonSpec.
  - intros. by apply unit_law_insertBarrier.
  - intros. by apply unit_law_regsReady.
  - intros. by apply unit_law_nonSpecInstReady.
  - intros. by apply unit_law_issue.
  - intros. by apply unit_law_completeInst.
  - intros. by apply unit_law_reschedule.
  - intros. by apply unit_law_replay.
  - intros. by apply unit_law_violation.
  - intros. by apply unit_law_squash.
Defined.
