(* ===== verification/InstQueueOps.v ===== *)
(** * The operations of the instruction queue keep its invariant

    For every operation of [InstQueue.v]: under what IEW guarantees of the call, it
    returns, and the state has the invariant of [InstQueueInv.v] again. *)

From Stdlib Require Import ZArith Lia Bool.
From stdpp Require Import base tactics option list numbers gmap sorting.
From S2P Require Import Prelude Phast RenameMap RenameRegs FUPool DepGraph ReadyList InstQueue InstQueueInv.
Open Scope Z_scope.

Section Ops.
Context {M E : Type} `{MemDepLaws M E} (c : IQConfig).
Hypothesis Hcfg : 0 <= numEntries c < 2 ^ 31.
Implicit Type s : IQState M.

(** Between the calls. *)
Definition iq_ok s : Prop := exists cs, good c s (instList (iq s)) None None cs.

(** ** Completion *)

Record complete_ok s (p : Z) (i : IQInst) : Prop := {
  co_inst : heap s !! p = Some i /\ in_flight (instList (iq s)) p /\ isSquashed (base i) = false /\ p ∉ nonSpecInsts (iq s);
  co_srcs : in_graph i = true -> readyRegs (operands (base i)) = numSrcRegs i;
  co_mem : isMemRef i = true -> MemOpDone (flags i) = false /\ Issued (flags i) = true;
  co_barrier : isReadBarrier (stat i) || isWriteBarrier (stat i) = true -> forall m, memDepUnit s !! inst_thread i = Some m -> (p, kind i) ∈ md_live m;
  co_unit : isMemRef i || isReadBarrier (stat i) || isWriteBarrier (stat i) = true -> forall m, memDepUnit s !! inst_thread i = Some m -> md_complete_ok p i m;
  co_dests : Forall (fun r => isFixedMapping r = false -> unpinned (file s) r) (dest_regs i)
}.

(** An instruction whose sources are all ready waits for nothing. *)
Lemma no_wait h f q L o late cs p i : core c h f q L o late cs -> in_flight L p -> h !! p = Some i ->
  (in_graph i = true -> readyRegs (operands (base i)) = numSrcRegs i) -> occ p (concat (map snd cs)) = 0%nat.
Proof.
  intros HC Hf Hi Hr. destruct (in_graph i) eqn:Hg.
  - pose proof (c_missing _ _ _ _ _ _ _ _ HC p i Hf Hi Hg). rewrite (Hr eq_refl) in *. lia.
  - destruct (decide (p ∈ concat (map snd cs))) as [Hin|Hin]; [|rewrite occ_elem in Hin; lia]. exfalso.
    apply list_elem_of_In, in_concat in Hin as (ch & Hch%list_elem_of_In & Hin%list_elem_of_In).
    apply list_elem_of_fmap in Hch as ([pr ch'] & -> & Hc). apply list_elem_of_lookup_1 in Hc as [n Hn].
    destruct (c_chain _ _ _ _ _ _ _ _ HC n pr ch' p Hn Hin) as (_ & j & Hj & Hgj & _). congruence.
Qed.

(** The unit forgets a completed instruction. *)
Lemma call_complete_ok s L cs p i l : good c s L None None cs -> heap s !! p = Some i -> L !! inst_thread i = Some l ->
  (forall m, memDepUnit s !! inst_thread i = Some m -> (p, kind i) ∈ md_live m) -> (forall m, memDepUnit s !! inst_thread i = Some m -> md_complete_ok p i m) ->
  exists m r b, call_unit (inst_thread i) (md_completeInst p i) s = Ok (with_unit s (inst_thread i) m r, b) /\
    core_of c (with_unit s (inst_thread i) m r) L None None cs /\ md_ok (inst_thread i) m /\
    (forall w k, (w, k) ∈ md_live m -> w ∈ l /\ exists j, heap s !! w = Some j /\ k = kind j) /\
    (forall x j, x ∈ l -> heap s !! x = Some j -> isMemRef j = true -> MemOpDone (flags j) = false -> x <> p -> (x, kind j) ∈ md_live m).
Proof.
  intros HG Hi Hl Hlive Hco. destruct (thread_unit c s L None None cs _ l HG Hl) as (m & Hm & HU). pose proof HU as (Hok & Hin & Hknown).
  destruct (law_completeInst (inst_thread i) p i m) as (m' & out & E1 & Hok' & Hlv & Hw); [done|done|by apply Hlive|by apply Hco|].
  assert (Hsub : forall w k, (w, k) ∈ md_live m' -> (w, k) ∈ md_live m) by (intros w k; rewrite Hlv, list_elem_of_filter; tauto).
  destruct (call_unit_ok c s L None None cs (inst_thread i) m (md_completeInst p i) m' out) as (r & E2 & HC'); try done; [apply HG| |].
  { intros w (k & Hk & Hkm)%Hw. eapply live_mem; [apply HG|done|done|by apply Hsub|done]. }
  exists m', r, (held out). split_and!; try done.
  - intros w k Hwk. by apply Hin, Hsub.
  - intros x j Hx Hj Hmem Hd Hne. rewrite Hlv. apply list_elem_of_filter. split; [done|]. by apply Hknown.
Qed.

Lemma complete_mem_ok s L cs p i l : good c s L None None cs -> heap s !! p = Some i -> in_flight L p -> L !! inst_thread i = Some l -> isMemRef i = true ->
  MemOpDone (flags i) = false -> Issued (flags i) = true -> p ∉ nonSpecInsts (iq s) -> (in_graph i = true -> readyRegs (operands (base i)) = numSrcRegs i) ->
  (forall m, memDepUnit s !! inst_thread i = Some m -> md_complete_ok p i m) ->
  exists s' ms r ks n, (let! (s, _) := call_unit (inst_thread i) (md_completeInst p i) s in
    let! s := upd_inst s p memOpDone in let! q := move_entry (inst_thread i) (-1) (iq s) in Ok (set_iq s q)) = Ok s' /\
    s' = set_heap (set_iq (set_units s ms) (set_counts (set_ready (iq s) r) ks n)) (<[p := memOpDone i]> (heap s)) /\ good c s' L None None cs.
Proof.
  intros HG Hi Hf Hl Hm Hd Hiss Hsp Hsrc Hco. destruct (call_complete_ok s L cs p i l HG Hi Hl) as (m & r & b & E1 & HC1 & Hok & Hin & Hknown).
  { intros m Hm0. destruct (thread_unit c s L None None cs _ l HG Hl) as (m1 & Hm1 & HU). rewrite Hm0 in Hm1. injection Hm1 as <-. destruct HU as (_ & _ & HU).
    apply HU; try done. destruct (flight_inst _ _ _ _ _ _ _ _ (g_core _ _ _ _ _ _ HG) p Hf) as (i0 & Hi0 & _ & (l0 & Hl0 & Hp) & _). congruence. }
  { exact Hco. }
  pose proof (g_core _ _ _ _ _ _ HG) as HC. destruct (c_lens _ _ _ _ _ _ _ _ HC) as (L1 & L2 & _).
  destruct (lookup_lt_is_Some_2 (count (iq s)) (inst_thread i)) as [k Hk]; [rewrite L2, <- L1; by eapply lookup_lt_Some|].
  assert (Hrel : holds i = true /\ holds (memOpDone i) = false /\ (isMemRef i = true -> Issued (flags (memOpDone i)) = true)).
  { unfold holds. change (isMemRef (memOpDone i)) with (isMemRef i). rewrite Hm, Hd. done. }
  assert (Hno : occ p (concat (map snd cs)) = 0%nat) by (by eapply no_wait).
  assert (Hsame : stat (memOpDone i) = stat i /\ staticInst (base (memOpDone i)) = staticInst (base i) /\ inst_thread (memOpDone i) = inst_thread i /\
    operands (base (memOpDone i)) = operands (base i) /\ isSquashed (base (memOpDone i)) = isSquashed (base i) /\ readyToIssue (memOpDone i) = readyToIssue i /\
    SquashedInIQ (flags (memOpDone i)) = SquashedInIQ (flags i)) by done.
  unfold core_of in HC1. pose proof (core_release c _ _ _ L None None cs HC1 p i (memOpDone i) k Hf Hi Hsame Hrel Hno Hsp Hk) as HC2.
  rewrite Hm in HC2. specialize (HC2 eq_refl). pose proof (release_pos c _ _ _ L None None cs HC1 p i (memOpDone i) k Hf Hi Hsame Hrel Hno Hk) as Hpos.
  rewrite E1. cbn [rbind]. unfold upd_inst, get. cbn [with_unit set_iq set_units heap]. rewrite Hi. cbn [deref rbind].
  eexists _, _, r, (<[inst_thread i := k - 1]> (count (iq s))), (freeEntries (iq s) + 1).
  erewrite (release_entry c _ _ _ L None None cs HC1 Hcfg _ (inst_thread i) k); [|done|done|exact Hk|exact Hpos]. cbn [rbind]. split; [reflexivity|]. split; [reflexivity|].
  split; [exact HC2| |eapply lists_insert; try done; apply HG|by destruct (g_fu _ _ _ _ _ _ HG)].
  destruct (g_units _ _ _ _ _ _ HG) as [Hlen HU]. split; cbn; [by rewrite length_insert|]. intros t l' m' Hl' Hm'.
  destruct (decide (t = inst_thread i)) as [->|Hne].
  - rewrite list_lookup_insert_eq in Hm' by (rewrite Hlen, <- L1; by eapply lookup_lt_Some). injection Hm' as <-. rewrite Hl in Hl'. injection Hl' as <-.
    eapply unit_insert; done.
  - rewrite list_lookup_insert_ne in Hm' by done. destruct (HU t l' m' Hl' Hm') as (U1 & U2 & U3). eapply unit_insert; try done. intros; by apply U3.
Qed.
Lemma complete_unit_ok s cs p i : good c s (instList (iq s)) None None cs -> complete_ok s p i ->
  exists s', (if isMemRef i then
      let! (s, _) := call_unit (inst_thread i) (md_completeInst p i) s in
      let! s := upd_inst s p memOpDone in
      let! q := move_entry (inst_thread i) (-1) (iq s) in Ok (set_iq s q)
    else if isReadBarrier (stat i) || isWriteBarrier (stat i) then
      let! (s, _) := call_unit (inst_thread i) (md_completeInst p i) s in Ok s
    else Ok s) = Ok s' /\ good c s' (instList (iq s)) None None cs /\ file s' = file s /\ regScoreboard (iq s') = regScoreboard (iq s) /\ instList (iq s') = instList (iq s).
Proof.
  intros HG [(Hi & Hf & Hs & Hsp) Hsrc Hmem Hbar Hco Hd].
  destruct (flight_inst _ _ _ _ _ _ _ _ (g_core _ _ _ _ _ _ HG) p Hf) as (i0 & Hi0 & _ & (l & Hl & Hp) & Hok). rewrite Hi in Hi0. injection Hi0 as <-.
  destruct (isMemRef i) eqn:Em; [|destruct (isReadBarrier (stat i) || isWriteBarrier (stat i)) eqn:Eb; [|by exists s]].
  - destruct (Hmem eq_refl) as [Hmd Hiss]. destruct (complete_mem_ok s _ cs p i l HG Hi Hf Hl Em Hmd Hiss Hsp Hsrc (Hco eq_refl)) as (s' & ms & r & ks & n & -> & -> & HG').
    eexists. split; [reflexivity|]. done.
  - destruct (call_complete_ok s _ cs p i l HG Hi Hl (Hbar eq_refl) (Hco Eb)) as (m & r & b & -> & HC & Hmk & Hin & Hknown). cbn [rbind]. eexists. split; [reflexivity|].
    split; [|done]. eapply good_with_unit; try done. split_and!; try done. intros x j Hx Hj Hm Hdn. apply Hknown; try done. intros ->. congruence.
Qed.

Lemma iq_wakeDependents_ok s p i : iq_ok s -> complete_ok s p i -> exists n s', wakeDependents p s = Ok (n, s') /\ iq_ok s' /\ instList (iq s') = instList (iq s) /\
  (forall r m, r ∈ dest_regs i -> isFixedMapping r = false -> flat_of (file s) r = Some m -> regScoreboard (iq s') !! m = Some true) /\
  (forall m, (forall r, r ∈ dest_regs i -> isFixedMapping r = false -> flat_of (file s) r <> Some m) -> regScoreboard (iq s') !! m = regScoreboard (iq s) !! m).
Proof.
  intros [cs HG] Hco. pose proof Hco as [(Hi & Hf & Hs & _) _ _ _ _ Hd]. unfold wakeDependents, get. rewrite Hi. cbn [deref rbind]. rewrite Hs. cbn [rbind assert_ negb].
  destruct (flight_inst _ _ _ _ _ _ _ _ (g_core _ _ _ _ _ _ HG) p Hf) as (i0 & Hi0 & _ & _ & Hok). rewrite Hi in Hi0. injection Hi0 as <-.
  destruct (complete_unit_ok s cs p i HG Hco) as (s1 & -> & HG1 & Ef & Eb & El). cbn [rbind].
  destruct (wake_dests_ok c (instList (iq s)) p (dest_regs i) s1 cs 0%nat HG1) as (n & ms & rl & g & b & h & f & cs' & -> & HG2 & Hfl & B1 & B2 & B3).
  - apply Hok.
  - by rewrite Ef.
  - eexists n, _. split; [reflexivity|]. rewrite Ef in *. split_and!; try done; [exists cs'; by rewrite <- El in HG2|]. by rewrite <- Eb.
Qed.
(** ** Insertion *)

Definition pend (f : regfile) (n : nat) (l : list (preg * bool)) : nat :=
  length (filter (fun rb : preg * bool => rb.2 = false /\ isFixedMapping rb.1 = false /\ flat_of f rb.1 = Some n) l).
Definition npend (l : list (preg * bool)) : nat := length (filter (fun rb : preg * bool => rb.2 = false) l).
Definition sources (i : IQInst) : list (preg * bool) := zip (src_regs i) (src_ready i).

Lemma pend_cons f n r b l : pend f n ((r, b) :: l) =
  ((if decide (b = false /\ isFixedMapping r = false /\ flat_of f r = Some n) then 1 else 0) + pend f n l)%nat.
Proof. unfold pend. rewrite filter_cons. simpl. by destruct (decide _). Qed.
Lemma npend_cons r b l : npend ((r, b) :: l) = ((if b then 0 else 1) + npend l)%nat.
Proof. unfold npend. rewrite filter_cons. simpl. destruct b; [rewrite decide_False by done|rewrite decide_True by done]; done. Qed.

(** What [markSrcRegReady(src_idx)] keeps. *)
Definition same_inst (i j : IQInst) : Prop :=
  stat j = stat i /\ staticInst (base j) = staticInst (base i) /\ inst_thread j = inst_thread i /\ src_regs j = src_regs i /\ dest_regs j = dest_regs i /\
  flags j = flags i /\ isSquashed (base j) = isSquashed (base i).

Lemma same_inst_trans i j k : same_inst i j -> same_inst j k -> same_inst i k.
Proof. intros (? & ? & ? & ? & ? & ? & ?) (? & ? & ? & ? & ? & ? & ?). repeat split; congruence. Qed.

Lemma markSrcRegReady_at_ok k i : (k < length (src_ready i))%nat -> exists j, markSrcRegReady_at k i = Ok j /\ same_inst i j /\ src_ready j = <[k := true]> (src_ready i) /\
  readyRegs (operands (base j)) = S (readyRegs (operands (base i))) /\ readyToIssue j = ((S (readyRegs (operands (base i))) =? numSrcRegs i)%nat || readyToIssue i).
Proof.
  intros Hk. unfold markSrcRegReady_at. unfold src_ready in Hk. rewrite upd_Ok by done. cbn [rbind]. eexists. split; [done|].
  match goal with |- context [markSrcRegReady ?x] => destruct (mark_props x) as (P1 & P2 & P3 & P4 & P5 & P6 & P7 & P8 & P9 & P10) end.
  split; [repeat split; rewrite ?P1, ?P2, ?P3, ?P4, ?P6, ?P7, ?P8; done|]. rewrite P5, P9, P10. done.
Qed.

Lemma sources_drop i k r b : src_regs i !! k = Some r -> src_ready i !! k = Some b -> drop k (sources i) = (r, b) :: drop (S k) (sources i).
Proof. intros Hr Hb. apply drop_S. unfold sources. apply lookup_zip_with_Some. eauto 10. Qed.

Lemma sources_upd i j k r : src_regs j = src_regs i -> src_ready j = <[k := true]> (src_ready i) -> src_regs i !! k = Some r ->
  sources j = <[k := (r, true)]> (sources i).
Proof.
  intros E1 E2 Hr. unfold sources. rewrite E1, E2. rewrite <- (list_insert_id (src_regs i) k r Hr) at 1.
  symmetry. apply (insert_zip_with pair).
Qed.

Lemma unready_upd f i j k r n : src_regs j = src_regs i -> src_ready j = <[k := true]> (src_ready i) -> src_regs i !! k = Some r ->
  flat_of f r <> Some n -> unready f j n = unready f i n.
Proof.
  intros E1 E2 Hr Hn. change (pend f n (sources j) = pend f n (sources i)). rewrite (sources_upd i j k r) by done.
  destruct (sources i !! k) as [[r0 b0]|] eqn:Hk; [|by rewrite list_insert_ge by (by apply lookup_ge_None_1)].
  assert (r0 = r) as -> by (unfold sources in Hk; apply lookup_zip_with_Some in Hk as (x & y & [= -> ->] & Hx & _); congruence).
  apply list_elem_of_split_length in Hk as (l1 & l2 & -> & ->). rewrite insert_app_r_alt, Nat.sub_diag by done.
  change (<[0%nat := (r, true)]> ((r, b0) :: l2)) with ((r, true) :: l2). unfold pend. rewrite !filter_app, !length_app. f_equal.
  fold (pend f n ((r, true) :: l2)). fold (pend f n ((r, b0) :: l2)). rewrite !pend_cons. rewrite !decide_False by (intros (_ & _ & ?); congruence). done.
Qed.

Lemma dependents_loop_ok p : forall srcs k s j cs, heap s !! p = Some j -> drop k (src_regs j) = srcs -> length (src_ready j) = length (src_regs j) ->
  rep (graph (iq s)) cs -> length cs = numPhysRegs c -> length (regScoreboard (iq s)) = numPhysRegs c ->
  Forall (fun r => isFixedMapping r = false -> exists n, flat_of (file s) r = Some n /\ (n < numPhysRegs c)%nat) srcs ->
  (forall m r, src_regs j !! m = Some r -> isFixedMapping r = true -> src_ready j !! m = Some true) ->
  (readyRegs (operands (base j)) + npend (drop k (sources j)) + occ p (concat (map snd cs)) = numSrcRegs j)%nat ->
  exists g j' cs', dependents_loop p k srcs s = Ok (set_heap (set_iq s (set_graph (iq s) g)) (<[p := j']> (heap s))) /\ rep g cs' /\ length cs' = length cs /\
    (forall n pr ch, cs !! n = Some (pr, ch) ->
      cs' !! n = Some (pr, replicate (if decide (regScoreboard (iq s) !! n = Some false) then pend (file s) n (drop k (sources j)) else 0%nat) p ++ ch)) /\
    same_inst j j' /\ (readyRegs (operands (base j')) + occ p (concat (map snd cs')) = numSrcRegs j')%nat /\
    (readyToIssue j = (readyRegs (operands (base j)) =? numSrcRegs j)%nat -> readyToIssue j' = (readyRegs (operands (base j')) =? numSrcRegs j')%nat) /\
    length (src_ready j') = length (src_ready j) /\
    (forall n, regScoreboard (iq s) !! n = Some false -> unready (file s) j' n = unready (file s) j n) /\
    (forall m, src_ready j !! m = Some true -> src_ready j' !! m = Some true).
Proof.
  induction srcs as [|r srcs IH]; intros k s j cs Hj Hd Hlen Hrep Hl1 Hl2 Hflat Hfix Hinv; cbn [dependents_loop].
  { exists (graph (iq s)), j, cs. assert (Ek : drop k (sources j) = []).
    { apply drop_ge. unfold sources. rewrite length_zip_with, Hlen, Nat.min_id. apply (f_equal length) in Hd. rewrite length_drop in Hd. simpl in Hd. lia. }
    rewrite Ek in Hinv |- *. split; [rewrite insert_id by done; by destruct s as [[]]|]. split_and!; try done; [|change (npend []) with 0%nat in Hinv; lia].
    intros n pr ch Hn. rewrite Hn. by destruct (decide _). }
  assert (Hr : src_regs j !! k = Some r) by (rewrite <- (Nat.add_0_r k), <- lookup_drop, Hd; done).
  assert (Hds : drop (S k) (src_regs j) = srcs) by (rewrite (drop_S _ _ _ Hr) in Hd; by injection Hd).
  destruct (lookup_lt_is_Some_2 (src_ready j) k) as [b Hb]; [rewrite Hlen; by eapply lookup_lt_Some|].
  pose proof (sources_drop j k r b Hr Hb) as Hsd. rewrite Hsd in Hinv |- *. rewrite npend_cons in Hinv. apply Forall_cons in Hflat as [Hfr Hflat].
  unfold get at 1. rewrite Hj. cbn [deref rbind]. rewrite (nth_lookup _ _ _ Hb). cbn [rbind]. destruct b.
  { destruct (IH (S k) s j cs) as (g & j' & cs' & E1 & R1 & R2 & R3 & R); try done. exists g, j', cs'. split; [exact E1|]. split; [done|]. split; [done|]. split; [|exact R].
    intros n pr ch Hn. rewrite (R3 n pr ch Hn), pend_cons. rewrite (decide_False (P := _ /\ _)) by (intros [? _]; congruence). done. }
  destruct (isFixedMapping r) eqn:Hfx; [rewrite (Hfix k r Hr Hfx) in Hb; discriminate Hb|]. destruct (Hfr eq_refl) as (n0 & Hn0 & Hlt).
  assert (Ef : flat s r = Ok n0) by (unfold flat, flat_of in *; destruct (file s !! r); [|done]; simpl in *; congruence). rewrite Ef. cbn [rbind].
  destruct (lookup_lt_is_Some_2 (regScoreboard (iq s)) n0) as [b0 Hb0]; [lia|]. rewrite (nth_lookup _ _ _ Hb0). cbn [rbind].
  destruct (lookup_lt_is_Some_2 cs n0) as [[pr0 ch0] Hc0]; [lia|]. destruct b0; cbn [negb].
  - destruct (markSrcRegReady_at_ok k j) as (j1 & -> & Hsame & Hrd & Hrr & Hrt); [by eapply lookup_lt_Some|]. cbn [rbind].
    pose proof Hsame as (S1 & S2 & S3 & S4 & S5 & S6 & S7). assert (Hnum : numSrcRegs j1 = numSrcRegs j) by (unfold numSrcRegs; by rewrite S2).
    assert (Hsrc : drop (S k) (sources j1) = drop (S k) (sources j)) by (rewrite (sources_upd j j1 k r) by done; apply drop_insert_lt; lia).
    destruct (IH (S k) (put s p j1) j1 cs) as (g & j' & cs' & E1 & R1 & R2 & R3 & R4 & R5 & R6 & R7 & R8 & R9); try done.
    + apply lookup_insert_eq.
    + by rewrite S4.
    + by rewrite Hrd, length_insert, S4.
    + intros m r' Hm Hfx'. rewrite S4 in Hm. rewrite Hrd. apply list_lookup_insert_Some. destruct (decide (m = k)) as [->|]; [congruence|]. right. split; [done|]. by apply (Hfix m r').
    + rewrite Hsrc, Hnum, Hrr. lia.
    + exists g, j', cs'. rewrite E1. unfold put. cbn [set_heap heap set_iq iq]. rewrite insert_insert_eq. split; [done|]. cbn [put set_heap file iq] in R3, R8. rewrite Hsrc in R3.
      split_and!; try done.
      * intros n pr ch Hn. rewrite (R3 n pr ch Hn). repeat f_equal. destruct (decide (regScoreboard (iq s) !! n = Some false)); [|done].
        rewrite pend_cons, (decide_False (P := _ /\ _)) by (intros (_ & _ & ?); congruence). done.
      * by eapply same_inst_trans.
      * intros Hcan. apply R6. rewrite Hrt, Hrr, Hnum, Hcan. replace (readyRegs (operands (base j)) =? numSrcRegs j)%nat with false by (symmetry; apply Nat.eqb_neq; lia). apply orb_false_r.
      * by rewrite R7, Hrd, length_insert.
      * intros n Hn. rewrite (R8 n Hn). apply (unready_upd _ _ _ k r); try done. congruence.
      * intros m Hm. apply R9. rewrite Hrd. apply list_lookup_insert_Some. destruct (decide (m = k)) as [->|]; [congruence|]. by right.
  - destruct (insert_rep _ _ n0 pr0 ch0 Hrep Hc0 p) as (g1 & -> & Hrep1). cbn [rbind].
    pose proof (occ_upd p cs n0 pr0 ch0 pr0 (p :: ch0) Hc0) as Ho. rewrite occ_cons, decide_True in Ho by done.
    destruct (IH (S k) (set_iq s (set_graph (iq s) g1)) j (<[n0 := (pr0, p :: ch0)]> cs)) as (g & j' & cs' & E1 & R1 & R2 & R3 & R); try done.
    + by rewrite length_insert.
    + lia.
    + exists g, j', cs'. rewrite E1. split; [done|]. cbn [set_iq iq file set_graph regScoreboard] in R3, R. rewrite length_insert in R2. split; [done|]. split; [done|]. split; [|exact R].
      intros n pr ch Hn. destruct (decide (n = n0)) as [->|Hne].
      * rewrite Hc0 in Hn. injection Hn as <- <-. rewrite (R3 n0 pr0 (p :: ch0)) by (apply list_lookup_insert_eq; by eapply lookup_lt_Some).
        rewrite !(decide_True (P := _ = Some false)) by done. rewrite pend_cons, (decide_True (P := _ /\ _)) by done.
        do 2 f_equal. symmetry. apply (eq_trans (f_equal (fun z => z ++ ch0) (replicate_S_end _ p))). by rewrite <- app_assoc.
      * rewrite (R3 n pr ch) by (by rewrite list_lookup_insert_ne). rewrite pend_cons, (decide_False (P := _ /\ _)) by (intros (_ & _ & ?); congruence). done.
Qed.

(** A register among [rs] has the index [n]. *)
Definition writes (f : regfile) (rs : list preg) (n : nat) : Prop := exists r, r ∈ rs /\ isFixedMapping r = false /\ flat_of f r = Some n.

Lemma writes_cons f r rs n : writes f (r :: rs) n <-> (isFixedMapping r = false /\ flat_of f r = Some n) \/ writes f rs n.
Proof.
  unfold writes. split.
  - intros (x & [->|Hx]%elem_of_cons & ?); [by left|right; eauto].
  - intros [?|(x & Hx & ?)]; [exists r|exists x]; (split; [|done]); [left|by right].
Qed.

Lemma producers_loop_ok p : forall rs s cs, rep (graph (iq s)) cs -> length cs = numPhysRegs c -> length (regScoreboard (iq s)) = numPhysRegs c ->
  Forall (fun r => isFixedMapping r = false -> exists n, flat_of (file s) r = Some n /\ (n < numPhysRegs c)%nat) rs ->
  (forall n pr ch, writes (file s) rs n -> cs !! n = Some (pr, ch) -> ch = []) ->
  exists g b cs', producers_loop p rs s = Ok (set_iq s (set_board (iq s) g b)) /\ rep g cs' /\ length cs' = length cs /\ length b = length (regScoreboard (iq s)) /\
    (forall n pr ch, cs !! n = Some (pr, ch) -> exists pr', cs' !! n = Some (pr', ch)) /\
    (forall n, b !! n = Some true -> regScoreboard (iq s) !! n = Some true /\ ~ writes (file s) rs n) /\
    (forall n, b !! n = Some false -> regScoreboard (iq s) !! n = Some false \/ writes (file s) rs n).
Proof.
  induction rs as [|r rs IH]; intros s cs Hrep Hl1 Hl2 Hflat Hemp; cbn [producers_loop].
  { exists (graph (iq s)), (regScoreboard (iq s)), cs. split; [by destruct s as [[]]|]. split_and!; try done; eauto. intros n Hn. split; [done|]. by intros (r & ?%not_elem_of_nil & _). }
  apply Forall_cons in Hflat as [Hfr Hflat]. destruct (isFixedMapping r) eqn:Hfx; cbn [rbind].
  { assert (Hw : forall n, writes (file s) (r :: rs) n <-> writes (file s) rs n) by (intros n; rewrite writes_cons; intuition congruence).
    setoid_rewrite Hw. setoid_rewrite Hw in Hemp. by apply IH. }
  destruct (Hfr eq_refl) as (n0 & Hn0 & Hlt). assert (Ef : flat s r = Ok n0) by (unfold flat, flat_of in *; destruct (file s !! r); [|done]; simpl in *; congruence).
  rewrite Ef. cbn [rbind]. destruct (lookup_lt_is_Some_2 cs n0) as [[pr0 ch0] Hc0]; [lia|].
  assert (ch0 = []) as -> by (apply (Hemp n0 pr0); [rewrite writes_cons; by left|done]). rewrite (empty_at_rep _ _ _ _ _ Hrep Hc0). cbn [rbind].
  rewrite bool_decide_eq_true_2 by done. cbn [negb]. destruct (setInst_rep _ _ _ _ _ Hrep Hc0 p) as (g1 & -> & Hrep1). cbn [rbind]. rewrite upd_Ok by lia. cbn [rbind].
  destruct (IH (set_iq s (set_board (iq s) g1 (<[n0 := false]> (regScoreboard (iq s))))) (<[n0 := (Some p, [])]> cs)) as (g & b & cs' & E1 & R1 & R2 & R3 & R4 & R5 & R6); try done.
  - by rewrite length_insert.
  - cbn. by rewrite length_insert.
  - intros n pr ch Hn Hc. destruct (decide (n = n0)) as [->|Hne]; [rewrite list_lookup_insert_eq in Hc by lia; by injection Hc as _ <-|].
    rewrite list_lookup_insert_ne in Hc by done. apply (Hemp n pr); [rewrite writes_cons; by right|done].
  - exists g, b, cs'. rewrite E1. cbn [set_iq iq set_board regScoreboard file] in R3, R5, R6. rewrite length_insert in R2; rewrite length_insert in R3. split_and!; try done.
    + intros n pr ch Hn. destruct (decide (n = n0)) as [->|Hne]; [|apply (R4 n pr); by rewrite list_lookup_insert_ne].
      rewrite Hc0 in Hn. injection Hn as <- <-. apply (R4 n0 (Some p)). by rewrite list_lookup_insert_eq by lia.
    + intros n Hn. destruct (R5 n Hn) as [Hb Hw]. destruct (decide (n = n0)) as [->|Hne]; [rewrite list_lookup_insert_eq in Hb by lia; done|].
      rewrite list_lookup_insert_ne in Hb by done. split; [done|]. rewrite writes_cons. intros [[_ ?]|?]; [congruence|done].
    + intros n Hn. rewrite writes_cons. destruct (R6 n Hn) as [Hb|Hw]; [|by right; right]. destruct (decide (n = n0)) as [->|Hne]; [by right; left|].
      rewrite list_lookup_insert_ne in Hb by done. by left.
Qed.

(** The unit and the ready lists do not depend on the other fields. *)
Definition mapq (F : IQ -> IQ) s : IQState M := set_iq s (F (iq s)).
Record blind (F : IQ -> IQ) : Prop := { bl_ready : forall q, ready (F q) = ready q; bl_set : forall q r, F (set_ready q r) = set_ready (F q) r }.

Lemma addReady_map F s p : blind F -> addReadyMemInst (mapq F s) p = (let! s' := addReadyMemInst s p in Ok (mapq F s')).
Proof.
  intros [B1 B2]. unfold addReadyMemInst, get. cbn [mapq set_iq heap iq]. destruct (heap s !! p) as [i|]; [|done]. cbn [deref rbind]. rewrite B1.
  destruct (push_ready _ _ _) as [r|]; [|done]. cbn [rbind]. unfold mapq. cbn [set_iq iq]. by rewrite B2.
Qed.

Lemma addReady_shape s p s' : addReadyMemInst s p = Ok s' -> s' = set_iq s (set_ready (iq s) (ready (iq s'))).
Proof.
  unfold addReadyMemInst, get. destruct (heap s !! p) as [i|]; [|done]. cbn [deref rbind]. destruct (push_ready _ _ _); [|done]. by intros [= <-].
Qed.

Lemma add_ready_all_map F ps : forall s, blind F -> add_ready_all ps (mapq F s) = (let! s' := add_ready_all ps s in Ok (mapq F s')).
Proof.
  induction ps as [|p ps IH]; intros s HB; cbn [add_ready_all]; [done|]. rewrite addReady_map by done. destruct (addReadyMemInst s p) as [s1|]; [|done]. cbn [rbind]. by apply IH.
Qed.

Lemma add_ready_all_shape ps : forall s s', add_ready_all ps s = Ok s' -> s' = set_iq s (set_ready (iq s) (ready (iq s'))).
Proof.
  induction ps as [|p ps IH]; intros s s'; cbn [add_ready_all]; [intros [= <-]; by destruct s as [[]]|].
  destruct (addReadyMemInst s p) as [s1|] eqn:E1; [|done]. cbn [rbind]. intros E2%IH. apply addReady_shape in E1. rewrite E1 in E2. exact E2.
Qed.

Lemma call_unit_map F s t fn : blind F -> call_unit t fn (mapq F s) = (let! (s', b) := call_unit t fn s in Ok (mapq F s', b)).
Proof.
  intros HB. unfold call_unit. cbn [mapq set_iq memDepUnit]. destruct (nth_ (memDepUnit s) t) as [m0|]; [|done]. cbn [rbind]. destruct (fn m0) as [[m1 out]|]; [|done]. cbn [rbind].
  destruct (upd_ (memDepUnit s) t m1) as [ms|]; [|done]. cbn [rbind]. change (set_units _ ms) with (mapq F (set_units s ms)) at 1. rewrite add_ready_all_map by done.
  by destruct (add_ready_all (woken out) (set_units s ms)).
Qed.

Lemma call_unit_shape s t fn s' b : call_unit t fn s = Ok (s', b) -> s' = woke s (memDepUnit s') (ready (iq s')) (graph (iq s)) (heap s).
Proof.
  unfold call_unit. destruct (nth_ (memDepUnit s) t) as [m0|]; [|done]. cbn [rbind]. destruct (fn m0) as [[m1 out]|]; [|done]. cbn [rbind].
  destruct (upd_ (memDepUnit s) t m1) as [ms|]; [|done]. cbn [rbind]. destruct (add_ready_all _ _) as [s1|] eqn:E1; [|done]. cbn [rbind]. intros [= <- _].
  apply add_ready_all_shape in E1. rewrite E1. by destruct s as [[]].
Qed.

Lemma addIfReady_map F s p : blind F -> addIfReady (mapq F s) p = (let! s' := addIfReady s p in Ok (mapq F s')).
Proof.
  intros HB. unfold addIfReady, get. cbn [mapq set_iq heap]. destruct (heap s !! p) as [i|]; [|done]. cbn [deref rbind].
  destruct (readyToIssue i); [|done]. destruct (isMemRef i); [|by apply addReady_map].
  change (set_iq s (F (iq s))) with (mapq F s). rewrite call_unit_map by done. by destruct (call_unit _ _ s) as [[]|].
Qed.

Lemma addIfReady_shape s p s' : addIfReady s p = Ok s' -> s' = woke s (memDepUnit s') (ready (iq s')) (graph (iq s)) (heap s).
Proof.
  unfold addIfReady, get. destruct (heap s !! p) as [i|]; [|done]. cbn [deref rbind]. destruct (readyToIssue i); [|intros [= <-]; by rewrite woke_id].
  destruct (isMemRef i).
  - destruct (call_unit _ _ s) as [[s1 b]|] eqn:E1; [|done]. cbn [rbind]. intros [= <-]. by eapply call_unit_shape.
  - intros ->%addReady_shape. by destruct s as [[]].
Qed.

Definition cnt s (ks : list Z) (n : Z) : IQState M := mapq (fun q => set_counts q ks n) s.
Lemma cnt_blind ks n : blind (fun q => set_counts q ks n).
Proof. done. Qed.

(** [counted] counts the entry. *)
Lemma counted_ok s t k : count (iq s) !! t = Some k -> 0 <= k < 2 ^ 32 - 1 -> 0 <= freeEntries (iq s) <= numEntries c ->
  counted c t s = Ok (cnt s (<[t := k + 1]> (count (iq s))) (freeEntries (iq s))).
Proof.
  intros Hk Hb Hf. unfold counted. rewrite (nth_lookup _ _ _ Hk). cbn [rbind]. rewrite upd_Ok by (by eapply lookup_lt_Some). cbn [rbind].
  rewrite wrap_small by (unfold in_u; lia). unfold check_free, countInsts. cbn [set_counts freeEntries]. rewrite swrap_small by (unfold in_s; simpl; lia).
  rewrite wrap_small by (unfold in_u; lia). rewrite (proj2 (Z.eqb_eq _ _)) by lia. done.
Qed.

(** What dispatch guarantees: the instruction is new and the youngest of its thread,
    there is an entry for it, nobody in flight reads its destination registers, and
    its operands come from its own thread. *)
Record dispatch_ok s (p : Z) (i : IQInst) : Prop := {
  do_inst : heap s !! p = Some i /\ inst_ok (file s) i /\ holds i = true /\ (inst_thread i < MaxThreads)%nat;
  do_new : ~ in_flight (instList (iq s)) p;
  do_age : forall l x, instList (iq s) !! inst_thread i = Some l -> x ∈ l -> x < p;
  do_queue : forall n l, readyInsts (ready (iq s)) !! n = Some l -> p ∉ l;
  do_space : freeEntries (iq s) <> 0;
  do_dests : forall r, r ∈ dest_regs i -> isFixedMapping r = false -> (r ∉ src_regs i) /\
    forall x j, in_flight (instList (iq s)) x -> heap s !! x = Some j -> r ∉ src_regs j;
  do_srcs : forall r d j, r ∈ src_regs i -> isFixedMapping r = false -> in_flight (instList (iq s)) d -> heap s !! d = Some j -> r ∈ dest_regs j ->
    inst_thread j = inst_thread i
}.

Lemma unready_zero f j n : (forall r, r ∈ src_regs j -> isFixedMapping r = false -> flat_of f r <> Some n) -> unready f j n = 0%nat.
Proof.
  intros Hr. unfold unready. destruct (filter _ _) as [|[r b] l] eqn:Ef; [done|]. exfalso.
  assert (Hin : (r, b) ∈ filter (fun rb : preg * bool => rb.2 = false /\ isFixedMapping rb.1 = false /\ flat_of f rb.1 = Some n) (zip (src_regs j) (src_ready j))) by (rewrite Ef; left).
  apply list_elem_of_filter in Hin as [(_ & Hfx & Hn) Hin]. apply elem_of_zip_l in Hin. by eapply Hr.
Qed.

Lemma unready_pos f j n : (0 < unready f j n)%nat -> exists r, r ∈ src_regs j /\ isFixedMapping r = false /\ flat_of f r = Some n.
Proof.
  unfold unready. intros Hp. destruct (filter _ _) as [|[r b] l] eqn:Ef; [simpl in Hp; lia|].
  assert (Hin : (r, b) ∈ filter (fun rb : preg * bool => rb.2 = false /\ isFixedMapping rb.1 = false /\ flat_of f rb.1 = Some n) (zip (src_regs j) (src_ready j))) by (rewrite Ef; left).
  apply list_elem_of_filter in Hin as [(_ & Hfx & Hn) Hin]. apply elem_of_zip_l in Hin. eauto.
Qed.

Lemma same_chains (cs cs' : list (option Z * list Z)) : length cs' = length cs ->
  (forall n pr ch, cs !! n = Some (pr, ch) -> exists pr', cs' !! n = Some (pr', ch)) -> map snd cs' = map snd cs.
Proof.
  intros El Hc. apply list_eq. intros n. rewrite !list_lookup_fmap. destruct (cs !! n) as [[pr ch]|] eqn:Hn.
  - destruct (Hc n pr ch Hn) as [pr' ->]. done.
  - apply lookup_ge_None_1 in Hn. rewrite <- El in Hn. by rewrite lookup_ge_None_2.
Qed.

(** Nobody waits for a register that no instruction in flight reads. *)
Lemma unread_chain_empty h f q L late cs n pr ch : core c h f q L None late cs -> (forall x j, in_flight L x -> h !! x = Some j -> unready f j n = 0%nat) ->
  cs !! n = Some (pr, ch) -> ch = [].
Proof.
  intros HC Hun Hc. destruct ch as [|x ch]; [done|]. exfalso. destruct (c_chain _ _ _ _ _ _ _ _ HC n pr _ x Hc) as (Hx & j & Hj & Hg & _); [left|].
  destruct (c_lens _ _ _ _ _ _ _ _ HC) as (_ & _ & _ & L4 & L5).
  destruct (lookup_lt_is_Some_2 (regScoreboard q) n) as [[] Hb]; [rewrite L4, <- L5; by eapply lookup_lt_Some|by pose proof (c_board _ _ _ _ _ _ _ _ HC n pr _ Hc Hb)|].
  pose proof (c_wait _ _ _ _ _ _ _ _ HC x j n pr _ Hx Hj Hg Hc Hb ltac:(done)) as Hw. rewrite (Hun x j Hx Hj), occ_cons, decide_True in Hw by done. lia.
Qed.

Section Dispatch.
Context s (cs : list (option Z * list Z)) (p : Z) (i : IQInst) (l : list Z) (k : Z).
Hypothesis HC : core c (heap s) (file s) (iq s) (instList (iq s)) None None cs.
Hypothesis HD : dispatch_ok s p i.
Hypothesis Hl : instList (iq s) !! inst_thread i = Some l.
Hypothesis Hk : count (iq s) !! inst_thread i = Some k.
Context (j : IQInst) (g1 : DependencyGraph) (cs1 : list (option Z * list Z)) (a : nat -> nat) (ns : gset Z).

(** The state after the instruction has entered as [j]. *)
Definition entered : IQState M := set_heap (set_iq s (mkIQ (<[inst_thread i := l ++ [p]]> (instList (iq s))) (instsToExecute (iq s)) (deferredMemInsts (iq s))
  (blockedMemInsts (iq s)) (retryMemInsts (iq s)) (ready (iq s)) ns g1 (regScoreboard (iq s)) (count (iq s)) (maxEntries (iq s)) (freeEntries (iq s) - 1)
  (wbOutstanding (iq s)) (squashedSeqNum (iq s)))) (<[p := j]> (heap s)).

Lemma dest_not_read n jx : writes (file s) (dest_regs i) n -> (src_regs jx = src_regs i \/ exists x, in_flight (instList (iq s)) x /\ heap s !! x = Some jx) ->
  unready (file s) jx n = 0%nat.
Proof.
  intros (r & Hr & Hfx & Hn) Hj. apply unready_zero. intros r' Hr' Hfx' Hn'. pose proof (fw_inj _ _ (c_file _ _ _ _ _ _ _ _ HC) r r' n Hfx Hfx' Hn Hn') as <-.
  destruct (do_dests _ _ _ HD r Hr Hfx) as [Hno1 Hno2]. destruct Hj as [E1|(x & Hx & Hjx)]; [by rewrite E1 in Hr'|by apply (Hno2 x jx)].
Qed.

(** A register that is written by the instruction has no dependents. *)
Lemma dest_chain_empty n pr ch : writes (file s) (dest_regs i) n -> cs !! n = Some (pr, ch) -> ch = [].
Proof. intros Hn. apply (unread_chain_empty _ _ _ _ _ _ _ _ _ HC). intros x jx Hx Hjx. apply dest_not_read; [done|]. right. eauto. Qed.

Hypothesis Hsame : same_inst (setInIQ i) j.
Hypothesis Hok : inst_ok (file s) j.
Hypothesis Hrep : rep g1 cs1.
Hypothesis Hlen1 : length cs1 = length cs.
Hypothesis Hcs1 : forall n pr ch, cs !! n = Some (pr, ch) -> cs1 !! n = Some (pr, replicate (a n) p ++ ch).
Hypothesis Ha : forall n, (0 < a n)%nat -> in_graph i = true /\ (0 < unready (file s) i n)%nat /\ regScoreboard (iq s) !! n = Some false.
Hypothesis Hwait : in_graph i = true -> forall n, regScoreboard (iq s) !! n = Some false -> a n = unready (file s) j n.
Hypothesis Hmiss : in_graph i = true -> (readyRegs (operands (base j)) + occ p (concat (map snd cs1)) = numSrcRegs j)%nat.
Hypothesis Hcan : in_graph i = true -> isMemRef i = false -> readyToIssue j = (readyRegs (operands (base j)) =? numSrcRegs j)%nat.
Hypothesis Hns : forall x, x <> p -> x ∈ ns <-> x ∈ nonSpecInsts (iq s).
Hypothesis Hnsp : p ∈ ns -> in_graph i = false.

Lemma dispatch_core : exists g b cs', producers_loop p (dest_regs i) entered = Ok (set_iq entered (set_board (iq entered) g b)) /\
  core_of c (cnt (set_iq entered (set_board (iq entered) g b)) (<[inst_thread i := k + 1]> (count (iq s))) (freeEntries (iq s) - 1))
    (<[inst_thread i := l ++ [p]]> (instList (iq s))) None (Some p) cs'.
Proof.
  pose proof HD as [(Hi & Hoki & Hh & Ht) D2 D3 D4 D5 D6 D7]. destruct (c_lens _ _ _ _ _ _ _ _ HC) as (L1 & L2 & L3 & L4 & L5).
  pose proof Hsame as (S1 & S2 & S3 & S4 & S5 & S6 & S7). destruct (kind_of _ _ S1 S2) as (K1 & K2 & K3 & K4). change (in_graph (setInIQ i)) with (in_graph i) in K2.
  assert (Hzero : forall n, writes (file s) (dest_regs i) n -> a n = 0%nat).
  { intros n Hn. destruct (a n) eqn:Ea; [done|]. destruct (Ha n ltac:(lia)) as (_ & Hpos & _). rewrite (dest_not_read n i Hn) in Hpos by (by left). lia. }
  destruct (producers_loop_ok p (dest_regs i) entered cs1) as (g & b & cs' & E1 & R1 & R2 & R3 & R4 & R5 & R6); try done.
  - by rewrite Hlen1.
  - apply Forall_forall. intros r Hr Hfx. pose proof (io_regs _ _ Hoki) as Hreg. rewrite Forall_forall in Hreg.
    destruct (flat_lookup c _ _ _ _ _ _ _ r HC (Hreg r ltac:(apply elem_of_app; by right)) Hfx) as (n & pr & ch & Hn & Hlt & _). eauto.
  - intros n pr ch Hn Hc. destruct (lookup_lt_is_Some_2 cs n) as [[pr0 ch0] Hc0]; [rewrite <- Hlen1; by eapply lookup_lt_Some|].
    rewrite (Hcs1 n pr0 ch0 Hc0) in Hc. injection Hc as <- <-. rewrite (Hzero n Hn), (dest_chain_empty n pr0 ch0 Hn Hc0). done.
  - exists g, b, cs'. split; [exact E1|]. cbn [entered set_heap set_iq iq regScoreboard file] in R3, R5, R6. unfold core_of.
    assert (Et : inst_thread j = inst_thread i) by done. rewrite <- Et.
    eapply core_iq; [eapply (core_insert c (heap s) (file s) (iq s) (instList (iq s)) cs HC p j l k Hok) with (a := a) (cs' := cs') (b' := b) (g' := g) (ns := ns); try done; try (by rewrite Et)|done..].
    + intros x. by apply D3.
    + unfold holds. rewrite K3, S6. exact Hh.
    + split; [congruence|done].
    + intros n pr ch Hc. apply (R4 n pr). by apply Hcs1.
    + rewrite K2. intros n Hn. by destruct (Ha n Hn).
    + intros n Hn. destruct (R5 n Hn) as [Hb _]. split; [done|]. destruct (a n) eqn:Ea; [done|]. destruct (Ha n ltac:(lia)) as (_ & _ & Hb'). congruence.
    + intros n Hn Hb x jx Hx Hjx. destruct (R6 n Hn) as [Hb'|Hw]; [congruence|]. apply dest_not_read; [done|eauto].
    + rewrite K2. intros Hg n Hn. destruct (R6 n Hn) as [Hb|Hw]; [by apply Hwait|]. rewrite (Hzero n Hw). symmetry. apply dest_not_read; [done|by left].
    + rewrite K2. intros Hg. rewrite <- (Hmiss Hg). by rewrite (same_chains cs1 cs').
    + rewrite K2, K3. exact Hcan.
    + intros r n pr ch Hr Hfx Hn Hc. assert (Hw : writes (file s) (dest_regs i) n) by (exists r; rewrite S5 in Hr; done).
      destruct (lookup_lt_is_Some_2 cs n) as [[pr0 ch0] Hc0]; [rewrite <- Hlen1, <- R2; by eapply lookup_lt_Some|].
      destruct (R4 n pr0 _ (Hcs1 n pr0 ch0 Hc0)) as (pr' & Hc'). rewrite Hc in Hc'. injection Hc' as -> ->. rewrite (Hzero n Hw), (dest_chain_empty n pr0 ch0 Hw Hc0). done.
    + intros d jd r n Hd Hjd Hr Hfx Hn Hpos. rewrite Et. destruct (Ha n Hpos) as (_ & Hu & _). apply unready_pos in Hu as (r' & Hr' & Hfx' & Hn').
      pose proof (fw_inj _ _ (c_file _ _ _ _ _ _ _ _ HC) r r' n Hfx Hfx' Hn Hn') as <-. by apply (D7 r d jd).
    + by rewrite K2.
Qed.
End Dispatch.

Lemma unit_enter h t l (m m' : M) p j : unit_ok h t l m -> p ∉ l -> md_ok t m' ->
  md_live m' = md_live m ++ [(p, kind j)] \/ (md_live m' = md_live m /\ isMemRef j = false) -> unit_ok (<[p := j]> h) t (l ++ [p]) m'.
Proof.
  intros (_ & Hlive & Hknown) Hp Hok Hcase. split_and!; [done| |].
  - assert (Hold : forall w k, (w, k) ∈ md_live m -> w ∈ l ++ [p] /\ exists i, <[p := j]> h !! w = Some i /\ k = kind i).
    { intros w k Hw. destruct (Hlive w k Hw) as (Hwl & Hx). split; [apply elem_of_app; by left|]. by rewrite lookup_insert_ne by (intros ->; done). }
    intros w k Hw. destruct Hcase as [El|[El _]]; rewrite El in Hw; [|auto]. apply elem_of_app in Hw as [Hw|[= -> ->]%list_elem_of_singleton]; [auto|].
    split; [apply elem_of_app; right; by left|]. exists j. by rewrite lookup_insert_eq.
  - intros x jx Hx Hjx Hm Hd. apply elem_of_app in Hx as [Hx| ->%list_elem_of_singleton].
    + rewrite lookup_insert_ne in Hjx by (intros ->; done). specialize (Hknown x jx Hx Hjx Hm Hd). destruct Hcase as [->|[-> _]]; [apply elem_of_app; by left|done].
    + rewrite lookup_insert_eq in Hjx. injection Hjx as <-. destruct Hcase as [->|[_ ?]]; [apply elem_of_app; right; by left|congruence].
Qed.

Lemma units_enter h L (ms : list M) t l m m' p j : units_ok h L ms -> (t < length ms)%nat -> L !! t = Some l -> ms !! t = Some m -> ~ in_flight L p ->
  unit_ok (<[p := j]> h) t (l ++ [p]) m' -> units_ok (<[p := j]> h) (<[t := l ++ [p]]> L) (<[t := m']> ms).
Proof.
  intros [Hlen HU] Ht Hl Hm Hp Hnew. split; [by rewrite length_insert|]. intros t' l' mt Hl' Hm'. destruct (decide (t' = t)) as [->|Hne].
  - rewrite list_lookup_insert_eq in Hl' by (by eapply lookup_lt_Some). rewrite list_lookup_insert_eq in Hm' by done. by injection Hl' as <-; injection Hm' as <-.
  - rewrite list_lookup_insert_ne in Hl' by done. rewrite list_lookup_insert_ne in Hm' by done. destruct (HU t' l' mt Hl' Hm') as (U1 & U2 & U3).
    assert (Hh : forall x, x ∈ l' -> <[p := j]> h !! x = h !! x) by (intros x Hx; apply lookup_insert_ne; intros <-; apply Hp; by exists t', l').
    split_and!; [done| |].
    + intros w k Hw. destruct (U2 w k Hw) as (Hwl & Hx). split; [done|]. by rewrite Hh.
    + intros x jx Hx. rewrite Hh by done. by apply U3.
Qed.

Lemma int8_len_ok {A} (l : list A) : (length l < 128)%nat -> take (int8_len l) l = l.
Proof. intros Hl. unfold int8_len. rewrite swrap_small by (unfold in_s; simpl; lia). rewrite Nat2Z.id. by apply take_ge. Qed.

Lemma enter_eq s p i l : heap s !! p = Some i -> instList (iq s) !! inst_thread i = Some l -> 0 < freeEntries (iq s) < 2 ^ 32 ->
  enter s p = Ok (entered s p i l (setInIQ i) (graph (iq s)) (nonSpecInsts (iq s))).
Proof.
  intros Hi Hl Hf. unfold enter, get. rewrite Hi. cbn [deref rbind]. rewrite (proj2 (Z.eqb_neq _ _)) by lia. cbn [negb assert_ rbind].
  unfold append_inst. rewrite (nth_lookup _ _ _ Hl). cbn [rbind]. rewrite upd_Ok by (by eapply lookup_lt_Some). cbn [rbind].
  unfold upd_inst, get. cbn [set_iq heap]. rewrite Hi. cbn [deref rbind set_instList freeEntries]. rewrite wrap_small by (unfold in_u; lia). by destruct s as [[]].
Qed.

Lemma entry_of s cs i : core c (heap s) (file s) (iq s) (instList (iq s)) None None cs -> (inst_thread i < MaxThreads)%nat ->
  exists l k, instList (iq s) !! inst_thread i = Some l /\ count (iq s) !! inst_thread i = Some k /\ 0 <= k /\ freeEntries (iq s) + k <= numEntries c /\ 0 <= freeEntries (iq s).
Proof.
  intros HC Ht. destruct (c_lens _ _ _ _ _ _ _ _ HC) as (L1 & L2 & _). destruct (lookup_lt_is_Some_2 (instList (iq s)) (inst_thread i)) as [l Hl]; [by rewrite L1|].
  destruct (lookup_lt_is_Some_2 (count (iq s)) (inst_thread i)) as [k Hk]; [by rewrite L2|]. exists l, k.
  destruct (counts_bounds _ _ _ _ _ _ _ _ HC _ _ Hk). destruct (c_free _ _ _ _ _ _ _ _ HC). done.
Qed.

Record spec_ok (e : E) s (p : Z) (i : IQInst) : Prop := {
  so_graph : in_graph i = true;
  so_ready : (readyRegs (operands (base i)) + npend (sources i) = numSrcRegs i)%nat;
  so_can : isMemRef i = false -> readyToIssue i = (readyRegs (operands (base i)) =? numSrcRegs i)%nat;
  so_unit : isMemRef i = true -> forall j m, same_inst (setInIQ i) j -> memDepUnit s !! inst_thread i = Some m -> md_insert_ok e p j (decodedBranchHistory s) m
}.

(** [addToProducers] for the entered instruction. *)
Lemma addToProducers_eq s p i l j g1 ns : (length (dest_regs j) < 128)%nat ->
  addToProducers (entered s p i l j g1 ns) p = producers_loop p (dest_regs j) (entered s p i l j g1 ns).
Proof.
  intros Hd. unfold addToProducers, get. cbn [entered set_heap heap]. rewrite lookup_insert_eq. cbn [deref rbind]. by rewrite int8_len_ok.
Qed.

Section SpecFront.
Context s (cs : list (option Z * list Z)) (p : Z) (i : IQInst) (l : list Z) (k : Z) (e : E).
Hypothesis HC : core c (heap s) (file s) (iq s) (instList (iq s)) None None cs.
Hypothesis HD : dispatch_ok s p i.
Hypothesis HS : spec_ok e s p i.
Hypothesis Hl : instList (iq s) !! inst_thread i = Some l.
Hypothesis Hk : count (iq s) !! inst_thread i = Some k.

Lemma spec_front_ok : exists j g g1 b cs', same_inst (setInIQ i) j /\ inst_ok (file s) j /\
  (let! s := enter s p in let! s := addToDependents s p in addToProducers s p) =
    Ok (set_iq (entered s p i l j g1 (nonSpecInsts (iq s))) (set_board (iq (entered s p i l j g1 (nonSpecInsts (iq s)))) g b)) /\
  core_of c (cnt (set_iq (entered s p i l j g1 (nonSpecInsts (iq s))) (set_board (iq (entered s p i l j g1 (nonSpecInsts (iq s)))) g b))
    (<[inst_thread i := k + 1]> (count (iq s))) (freeEntries (iq s) - 1)) (<[inst_thread i := l ++ [p]]> (instList (iq s))) None (Some p) cs'.
Proof.
  pose proof HD as [(Hi & Hoki & Hh & Ht) D2 D3 D4 D5 D6 D7]. destruct (entry_of s cs i HC Ht) as (? & ? & _ & _ & ? & ? & ?).
  rewrite (enter_eq s p i l Hi Hl) by lia. cbn [rbind]. pose proof Hoki as [(I1 & I2 & I3) [I4 I5] I6 I7 I8 I9].
  destruct HS as [Hgr Hrdy Hcan _]. destruct (c_lens _ _ _ _ _ _ _ _ HC) as (L1 & L2 & L3 & L4 & L5).
  unfold addToDependents at 1, get at 1. cbn [entered set_heap heap]. rewrite lookup_insert_eq. cbn [deref rbind].
  change (src_regs (setInIQ i)) with (src_regs i). rewrite int8_len_ok by lia.
  assert (Hnone : occ p (concat (map snd cs)) = 0%nat).
  { destruct (decide (p ∈ concat (map snd cs))) as [Hin|Hin]; [|rewrite occ_elem in Hin; lia]. exfalso. apply list_elem_of_In, in_concat in Hin as (ch & Hch%list_elem_of_In & Hin%list_elem_of_In).
    apply list_elem_of_fmap in Hch as ([pr ch'] & -> & Hc). apply list_elem_of_lookup_1 in Hc as [n Hn].
    by destruct (c_chain _ _ _ _ _ _ _ _ HC n pr ch' p Hn Hin). }
  destruct (dependents_loop_ok p (src_regs i) 0 (entered s p i l (setInIQ i) (graph (iq s)) (nonSpecInsts (iq s))) (setInIQ i) cs) as
    (g1 & j & cs1 & E1 & R1 & R2 & R3 & R4 & R5 & R6 & R7 & R8 & R9); try done.
  - cbn. apply lookup_insert_eq.
  - change (src_regs (setInIQ i)) with (src_regs i). change (src_ready (setInIQ i)) with (src_ready i). lia.
  - apply HC.
  - apply Forall_forall. intros r Hr Hfx. rewrite Forall_forall in I6.
    destruct (flat_lookup c _ _ _ _ _ _ _ r HC (I6 r ltac:(apply elem_of_app; by left)) Hfx) as (n & pr & ch & Hn & Hlt & _). eauto.
  - rewrite Hnone. change (sources (setInIQ i)) with (sources i). change (numSrcRegs (setInIQ i)) with (numSrcRegs i). rewrite <- Hrdy, drop_0. cbn. lia.
  - cbn [entered set_heap set_iq iq regScoreboard file] in R3, R8. rewrite drop_0 in R3. change (sources (setInIQ i)) with (sources i) in R3.
    pose proof R4 as (S1 & S2 & S3 & S4 & S5 & S6 & S7). destruct (kind_of _ _ S1 S2) as (K1 & K2 & K3 & K4).
    assert (Hokj : inst_ok (file s) j).
    { split; unfold real_dests; rewrite ?S4, ?S5, ?S6, ?S1, ?K3, ?K4; try done.
      - rewrite R7. done.
      - intros m r Hm Hfx. apply R9. by apply (I7 m r). }
    set (a := fun n => if decide (regScoreboard (iq s) !! n = Some false) then pend (file s) n (sources i) else 0%nat).
    destruct (dispatch_core s cs p i l k HC HD Hl Hk j g1 cs1 a (nonSpecInsts (iq s))) as (g & b & cs' & E2 & HC2); try done.
    + intros n. unfold a. destruct (decide _) as [Hb|]; [|lia]. by intros Hp.
    + intros _ n Hb. rewrite (R8 n Hb). unfold a. by rewrite decide_True.
    + intros _ Hm. apply R6. by apply Hcan.
    + intros Hin. destruct (c_spec _ _ _ _ _ _ _ _ HC p Hin). done.
    + exists j, g, g1, b, cs'. split; [done|]. split; [done|]. split; [|exact HC2]. rewrite E1. cbn [rbind].
      assert (Es : set_heap (set_iq (entered s p i l (setInIQ i) (graph (iq s)) (nonSpecInsts (iq s))) (set_graph (iq (entered s p i l (setInIQ i) (graph (iq s)) (nonSpecInsts (iq s)))) g1))
        (<[p := j]> (heap (entered s p i l (setInIQ i) (graph (iq s)) (nonSpecInsts (iq s))))) = entered s p i l j g1 (nonSpecInsts (iq s))).
      { unfold entered. cbn. by rewrite insert_insert_eq. }
      rewrite Es, addToProducers_eq by (by rewrite S5). rewrite S5. exact E2.
Qed.
End SpecFront.

Lemma call_cnt_Ok s ks n t fn x b : call_unit t fn (cnt s ks n) = Ok (x, b) -> exists s', call_unit t fn s = Ok (s', b) /\ x = cnt s' ks n /\
  count (iq s') = count (iq s) /\ freeEntries (iq s') = freeEntries (iq s).
Proof.
  unfold cnt. rewrite call_unit_map by apply cnt_blind. destruct (call_unit t fn s) as [[s' b']|] eqn:E1; [|done]. cbn [rbind]. intros [= <- <-]. exists s'. split; [done|]. split; [done|].
  apply call_unit_shape in E1. by rewrite E1.
Qed.

Lemma addIf_cnt_Ok s ks n p x : addIfReady (cnt s ks n) p = Ok x -> exists s', addIfReady s p = Ok s' /\ x = cnt s' ks n /\
  count (iq s') = count (iq s) /\ freeEntries (iq s') = freeEntries (iq s).
Proof.
  unfold cnt. rewrite addIfReady_map by apply cnt_blind. destruct (addIfReady s p) as [s'|] eqn:E1; [|done]. cbn [rbind]. intros [= <-]. exists s'. split; [done|]. split; [done|].
  apply addIfReady_shape in E1. by rewrite E1.
Qed.

Lemma good_unit_known s L o late cs t l m p : good c s L o late cs -> L !! t = Some l -> memDepUnit s !! t = Some m -> (forall x, x ∈ l -> x < p) -> younger_than (md_live m) p.
Proof. intros HG Hl Hm Hp [w kk] Hw. destruct (proj2 (g_units _ _ _ _ _ _ HG) t l m Hl Hm) as (_ & Hlive & _). apply Hp. by destruct (Hlive w kk Hw). Qed.

Lemma quiet_hold j : isMemRef j = true -> quiet j (clearCanIssue j).
Proof. intros Hm. split; try done. intros ?. congruence. Qed.

(** The instruction as the unit gets to know it. *)
Lemma units_insert s cs p i l j m m' : good c s (instList (iq s)) None None cs -> dispatch_ok s p i -> same_inst (setInIQ i) j ->
  instList (iq s) !! inst_thread i = Some l -> memDepUnit s !! inst_thread i = Some m -> md_ok (inst_thread i) m' ->
  md_live m' = md_live m ++ [(p, kind j)] \/ (md_live m' = md_live m /\ isMemRef j = false) ->
  units_ok (<[p := j]> (heap s)) (<[inst_thread i := l ++ [p]]> (instList (iq s))) (<[inst_thread i := m']> (memDepUnit s)) /\ lists_ok (<[p := j]> (heap s)) (iq s).
Proof.
  intros HG [(Hi & _) Hnew _ _ _ _ _] (S1 & S2 & S3 & _) Hl Hm Hok Hcase. split.
  - eapply units_enter; try done; [apply HG|by eapply lookup_lt_Some|]. eapply unit_enter; try done; [by apply (proj2 (g_units _ _ _ _ _ _ HG))|].
    intros Hp. apply Hnew. by exists (inst_thread i), l.
  - eapply lists_insert; try done. apply HG.
Qed.

Lemma iq_insert_ok e s p i : iq_ok s -> dispatch_ok s p i -> spec_ok e s p i -> exists s', insert c e s p = Ok s' /\ iq_ok s' /\
  exists l, instList (iq s) !! inst_thread i = Some l /\ instList (iq s') = <[inst_thread i := l ++ [p]]> (instList (iq s)).
Proof.
  intros [cs HG] HD HS. pose proof HG as [HC HU HL HF]. pose proof HD as [(Hi & Hoki & Hh & Ht) D2 D3 D4 D5 D6 D7].
  destruct (entry_of s cs i HC Ht) as (l & k & Hl & Hk & Hk0 & Hb & Hf0). pose proof (spec_front_ok s cs p i l k e HC HD HS Hl Hk) as (j & g & g1 & b & cs' & Hsame & Hokj & E1 & HC').
  set (s3 := set_iq _ _) in E1, HC'. set (v := cnt s3 _ _) in HC'. set (L' := <[inst_thread i := l ++ [p]]> _) in HC'.
  assert (Ep : heap s3 !! p = Some j) by (apply lookup_insert_eq). assert (Et : inst_thread j = inst_thread i) by apply Hsame.
  destruct (thread_unit c s _ None None cs _ l HG Hl) as (m & Hm & HUm).
  assert (Hflight : in_flight L' p).
  { exists (inst_thread i), (l ++ [p]). split; [apply list_lookup_insert_eq; by eapply lookup_lt_Some|]. apply elem_of_app. right. by left. }
  assert (Hfinal : forall s', count (iq s') = count (iq s3) -> freeEntries (iq s') = freeEntries (iq s3) ->
    counted c (inst_thread i) s' = Ok (cnt s' (<[inst_thread i := k + 1]> (count (iq s))) (freeEntries (iq s) - 1))).
  { intros s' Ec Ef. pose proof (counted_ok s' (inst_thread i) k) as Hct. rewrite Ec, Ef in Hct. apply Hct; [done|lia|]. cbn. lia. }
  unfold insert. destruct (enter s p) as [se|]; [|discriminate E1]. cbn [rbind] in E1 |- *. destruct (addToDependents se p) as [sd|]; [|discriminate E1]. cbn [rbind] in E1 |- *.
  rewrite E1. cbn [rbind]. unfold get at 1. rewrite Ep. cbn [deref rbind]. rewrite Et. destruct (isMemRef j) eqn:Em.
  - assert (Emi : isMemRef i = true) by (destruct Hsame as (S1 & S2 & _); destruct (kind_of _ _ S1 S2) as (_ & _ & K & _); rewrite K in Em; exact Em).
    assert (HC0 : core_of c v L' None None cs') by (eapply core_late; [exact HC'|exact Ep|done|by right]).
    destruct (law_insert (inst_thread i) e p j (decodedBranchHistory s) m) as (m' & out & El & Hok' & Hlive & Hw); try done; [apply HUm| |by apply HS|].
    { eapply good_unit_known; try done. intros x Hx. by apply (D3 l). }
    destruct (call_unit_ok c v L' None None cs' (inst_thread i) m (md_insert e p j (decodedBranchHistory s)) m' out HC0 Hm El) as (r & Ec & HC2).
    { intros w ->%Hw. exists j. split_and!; [exact Ep|done|apply Hokj|congruence]. }
    apply call_cnt_Ok in Ec as (s' & Ec & Ev & Ec1 & Ec2). change (decodedBranchHistory s3) with (decodedBranchHistory s). rewrite Ec. cbn [rbind].
    destruct (units_insert s cs p i l j m m' HG HD Hsame Hl Hm Hok' (or_introl Hlive)) as [HU2 HL2].
    assert (HG2 : good c (with_unit v (inst_thread i) m' r) L' None None cs') by (split; try done; by destruct HF).
    rewrite Ev in HG2. assert (Eh : heap s' = heap s3) by (rewrite (call_unit_shape _ _ _ _ _ Ec); done).
    assert (Ei : instList (iq s') = L') by (rewrite (call_unit_shape _ _ _ _ _ Ec); done). destruct (held out); cbn [rbind].
    + unfold upd_inst, get. rewrite Eh, Ep. cbn [deref rbind]. rewrite (Hfinal (put s' p (clearCanIssue j))) by done. eexists. split; [reflexivity|].
      split; [|exists l; split; [done|exact Ei]]. exists cs'. cbn [cnt mapq put set_heap set_iq set_counts iq instList]. rewrite Ei.
      assert (Eps : heap s' !! p = Some j) by (by rewrite Eh). destruct HG2 as [G1 G2 G3 G4]. split.
      * eapply core_heap; [exact G1|]. eapply heap_quiet_insert; [exact Eps|by apply quiet_hold].
      * eapply units_alike; [eapply alike_insert; [exact Eps|done..]|eapply flight_some; exact G1|exact G2].
      * eapply lists_insert; [exact Eps|done|done|done|exact G3].
      * by destruct G4.
    + rewrite (Hfinal s') by done. eexists. split; [reflexivity|]. split; [|exists l; split; [done|exact Ei]]. exists cs'. cbn [cnt mapq set_iq set_counts iq instList]. rewrite Ei. exact HG2.
  - destruct (units_insert s cs p i l j m m HG HD Hsame Hl Hm) as [HU2 HL2]; [apply HUm|by right|]. rewrite (list_insert_id (memDepUnit s)) in HU2 by done.
    assert (HG2 : good c v L' None (Some p) cs') by (split; try done; by destruct HF).
    destruct (addIfReady_ok c v L' None cs' p j HG2 Hflight Ep) as (ms & r & Ea & HG3); [congruence| |].
    { intros _. unfold can_go. destruct Hsame as (S1 & S2 & _ & _ & _ & S6 & _). destruct (kind_of _ _ S1 S2) as (_ & K2 & K3 & _).
      rewrite K2. change (in_graph (setInIQ i)) with (in_graph i). rewrite (so_graph _ _ _ _ HS). split; [|tauto]. intros Hr. split; [|done].
      rewrite S6. rewrite Em in K3. unfold holds in Hh. rewrite <- (K3 : _ = isMemRef i) in Hh. cbn. by destruct (Issued (flags i)). }
    apply addIf_cnt_Ok in Ea as (s' & Ea & Ev & Ec1 & Ec2). rewrite Ea. cbn [rbind]. rewrite (Hfinal s') by done. eexists. split; [reflexivity|].
    assert (Ei : instList (iq s') = L') by (rewrite (addIfReady_shape _ _ _ Ea); done).
    split; [|exists l; split; [done|exact Ei]]. exists cs'. cbn [cnt mapq set_iq set_counts iq instList]. rewrite Ei. rewrite Ev in HG3. exact HG3.
Qed.

(** ** Instructions that may not issue speculatively *)

Section NonSpecFront.
Context s (cs : list (option Z * list Z)) (p : Z) (i : IQInst).
Hypothesis HC : core c (heap s) (file s) (iq s) (instList (iq s)) None None cs.
Hypothesis HD : dispatch_ok s p i.
Hypothesis Hng : in_graph i = false.
Abbreviation ns' := ({[p]} ∪ nonSpecInsts (iq s)).

Lemma nonspec_front_ok l k : instList (iq s) !! inst_thread i = Some l -> count (iq s) !! inst_thread i = Some k -> exists g b cs',
  let e := entered s p i l (setInIQ i) (graph (iq s)) ns' in
  let s3 := set_iq e (set_board (iq e) g b) in
  (let! s := enter (set_iq s (set_nonSpec (iq s) ns')) p in addToProducers s p) = Ok s3 /\
  core_of c (cnt s3 (<[inst_thread i := k + 1]> (count (iq s))) (freeEntries (iq s) - 1)) (<[inst_thread i := l ++ [p]]> (instList (iq s))) None None cs' /\
  counted c (inst_thread i) s3 = Ok (cnt s3 (<[inst_thread i := k + 1]> (count (iq s))) (freeEntries (iq s) - 1)).
Proof.
  intros Hl Hk. pose proof HD as [(Hi & Hoki & Hh & Ht) D2 D3 D4 D5 D6 D7].
  destruct (counts_bounds _ _ _ _ _ _ _ _ HC _ _ Hk) as [Hk0 Hkb]. destruct (c_free _ _ _ _ _ _ _ _ HC) as [_ Hf0].
  destruct (dispatch_core s cs p i l k HC HD Hl Hk (setInIQ i) (graph (iq s)) cs (fun _ => 0%nat) ns') as (g & b & cs' & E1 & HC'); try done.
  - apply (inst_ok_quiet _ i); [by repeat split|done].
  - apply HC.
  - intros n. lia.
  - congruence.
  - congruence.
  - congruence.
  - intros x Hx. rewrite elem_of_union, elem_of_singleton. tauto.
  - exists g, b, cs'. cbv zeta. split_and!.
    + pose proof (enter_eq (set_iq s (set_nonSpec (iq s) ns')) p i l Hi Hl ltac:(cbn; lia)) as Ee. rewrite Ee. cbn [rbind].
      match goal with |- addToProducers ?x p = _ => change x with (entered s p i l (setInIQ i) (graph (iq s)) ns') end.
      rewrite addToProducers_eq; [exact E1|apply Hoki].
    + apply (not_late _ _ _ _ _ _ p); [exact HC'| |].
      * exists (inst_thread i), (l ++ [p]). split; [apply list_lookup_insert_eq; by eapply lookup_lt_Some|]. apply elem_of_app. right. by left.
      * cbn. intros j Hj _ [_ Hno]. rewrite lookup_insert_eq in Hj. injection Hj as <-. change (in_graph (setInIQ i)) with (in_graph i) in Hno. rewrite Hng in Hno.
        apply Hno, elem_of_union. left. by apply elem_of_singleton.
    + match goal with |- counted c _ ?x = _ => apply (counted_ok x (inst_thread i) k) end; [done|lia|]. cbn. lia.
Qed.
End NonSpecFront.

Lemma insertNonSpec_eq s p s3 : (let! s := enter (set_iq s (set_nonSpec (iq s) ({[p]} ∪ nonSpecInsts (iq s)))) p in addToProducers s p) = Ok s3 ->
  insertNonSpec c s p = (let! i := get s3 p in
    let! s := (if isMemRef i then let! (s, _) := call_unit (inst_thread i) (md_insertNonSpec p i) s3 in Ok s else Ok s3) in counted c (inst_thread i) s).
Proof. intros E1. unfold insertNonSpec. destruct (enter _ p) as [se|]; [|done]. cbn [rbind] in E1 |- *. by rewrite E1. Qed.

Lemma insertNonSpec_ok s p i : iq_ok s -> dispatch_ok s p i -> in_graph i = false -> exists s', insertNonSpec c s p = Ok s' /\ iq_ok s' /\
  exists l, instList (iq s) !! inst_thread i = Some l /\ instList (iq s') = <[inst_thread i := l ++ [p]]> (instList (iq s)).
Proof.
  intros [cs HG] HD Hng. pose proof HG as [HC HU HL HF]. pose proof HD as [(Hi & Hoki & Hh & Ht) D2 D3 D4 D5 D6 D7].
  destruct (entry_of s cs i HC Ht) as (l & k & Hl & Hk & Hk0 & Hb & Hf0).
  destruct (nonspec_front_ok s cs p i HC HD Hng l k Hl Hk) as (g & b & cs' & E1 & HC' & Hfinal). set (s3 := set_iq (entered _ _ _ _ _ _ _) _) in E1, HC', Hfinal.
  rewrite (insertNonSpec_eq s p s3 E1). unfold get. assert (Ep : heap s3 !! p = Some (setInIQ i)) by (apply lookup_insert_eq). rewrite Ep. cbn [deref rbind].
  change (isMemRef (setInIQ i)) with (isMemRef i). change (inst_thread (setInIQ i)) with (inst_thread i).
  destruct (thread_unit c s _ None None cs _ l HG Hl) as (m & Hm & HUm). destruct (isMemRef i) eqn:Em.
  - destruct (law_insertNonSpec (inst_thread i) p (setInIQ i) m) as (m' & out & El & Hok' & Hlive & Hw); try done; [apply HUm| |].
    { eapply good_unit_known; try done. intros x Hx. by apply (D3 l). }
    destruct (call_unit_ok c _ _ None None cs' (inst_thread i) m (md_insertNonSpec p (setInIQ i)) m' out HC' Hm El) as (r & Ec & HC2).
    { rewrite Hw. by intros w ?%not_elem_of_nil. }
    apply call_cnt_Ok in Ec as (s' & Ec & Ev & Ec1 & Ec2). rewrite Ec. cbn [rbind].
    destruct (units_insert s cs p i l (setInIQ i) m m' HG HD) as [HU2 HL2]; try done; [by left|].
    assert (Hct : counted c (inst_thread i) s' = Ok (cnt s' (<[inst_thread i := k + 1]> (count (iq s))) (freeEntries (iq s) - 1))).
    { pose proof (counted_ok s' (inst_thread i) k) as Hct. rewrite Ec1, Ec2 in Hct. apply Hct; [done|lia|]. cbn. lia. }
    rewrite Hct, <- Ev. eexists. split; [reflexivity|]. split; [exists cs'; split; try done; by destruct HF|]. exists l. done.
  - cbn [rbind]. rewrite Hfinal. eexists. split; [reflexivity|]. split; [|by exists l]. exists cs'.
    destruct (units_insert s cs p i l (setInIQ i) m m HG HD) as [HU2 HL2]; try done; [apply HUm|by right|]. rewrite (list_insert_id (memDepUnit s)) in HU2 by done.
    split; try done. by destruct HF.
Qed.

Lemma iq_insertBarrier_ok s p i : iq_ok s -> dispatch_ok s p i -> in_graph i = false -> isMemRef i = false -> exists s', insertBarrier c s p = Ok s' /\ iq_ok s' /\
  exists l, instList (iq s) !! inst_thread i = Some l /\ instList (iq s') = <[inst_thread i := l ++ [p]]> (instList (iq s)).
Proof.
  intros [cs HG] HD Hng Em. pose proof HG as [HC HU HL HF]. pose proof HD as [(Hi & Hoki & Hh & Ht) D2 D3 D4 D5 D6 D7].
  destruct (entry_of s cs i HC Ht) as (l & k & Hl & Hk & Hk0 & Hb & Hf0). destruct (thread_unit c s _ None None cs _ l HG Hl) as (m & Hm & HUm).
  destruct (law_insertBarrier (inst_thread i) p i m) as (m' & out & El & Hok' & Hlive & Hw); try done; [apply HUm| |].
  { eapply good_unit_known; try done. intros x Hx. by apply (D3 l). }
  unfold insertBarrier, get. rewrite Hi. cbn [deref rbind]. unfold call_unit. rewrite (nth_lookup _ _ _ Hm). cbn [rbind]. rewrite El. cbn [rbind].
  rewrite upd_Ok by (by eapply lookup_lt_Some). cbn [rbind]. rewrite Hw. cbn [add_ready_all rbind].
  set (s1 := set_units s (<[inst_thread i := m']> (memDepUnit s))).
  destruct (nonspec_front_ok s1 cs p i HC ltac:(by destruct HD) Hng l k Hl Hk) as (g & b & cs' & E1 & HC' & Hfinal). set (s3 := set_iq (entered _ _ _ _ _ _ _) _) in E1, HC', Hfinal.
  rewrite (insertNonSpec_eq s1 p s3 E1). unfold get. assert (Ep : heap s3 !! p = Some (setInIQ i)) by (apply lookup_insert_eq). rewrite Ep. cbn [deref rbind].
  change (isMemRef (setInIQ i)) with (isMemRef i). change (inst_thread (setInIQ i)) with (inst_thread i). rewrite Em. cbn [rbind]. rewrite Hfinal.
  eexists. split; [reflexivity|]. split; [|by exists l]. exists cs'. destruct (units_insert s cs p i l (setInIQ i) m m' HG HD) as [HU2 HL2]; try done; [by left|].
  split; try done. by destruct HF.
Qed.

(** ** Instructions that do not enter the queue *)

(** What [recordProducer] relies on: no instruction in flight reads the registers the
    instruction writes. *)
Record record_ok s (p : Z) (i : IQInst) : Prop := {
  rc_inst : heap s !! p = Some i /\ (length (dest_regs i) < 128)%nat /\ Forall (fun r => is_Some (file s !! r)) (dest_regs i);
  rc_dests : forall r x j, r ∈ dest_regs i -> isFixedMapping r = false -> in_flight (instList (iq s)) x -> heap s !! x = Some j -> r ∉ src_regs j
}.

Lemma recordProducer_ok s p i : iq_ok s -> record_ok s p i -> exists s', recordProducer s p = Ok s' /\ iq_ok s' /\ instList (iq s') = instList (iq s).
Proof.
  intros [cs [HC HU HL HF]] [(Hi & Hlen & Hreg) Hno]. unfold recordProducer, addToProducers, get. rewrite Hi. cbn [deref rbind]. rewrite int8_len_ok by done.
  assert (Hun : forall n x j, writes (file s) (dest_regs i) n -> in_flight (instList (iq s)) x -> heap s !! x = Some j -> unready (file s) j n = 0%nat).
  { intros n x j (r & Hr & Hfx & Hn) Hx Hj. apply unready_zero. intros r' Hr' Hfx' Hn'. pose proof (fw_inj _ _ (c_file _ _ _ _ _ _ _ _ HC) r r' n Hfx Hfx' Hn Hn') as <-. by apply (Hno r x j). }
  destruct (c_lens _ _ _ _ _ _ _ _ HC) as (L1 & L2 & L3 & L4 & L5).
  destruct (producers_loop_ok p (dest_regs i) s cs) as (g & b & cs' & -> & R1 & R2 & R3 & R4 & R5 & R6); [apply HC|done|done| | |].
  { apply Forall_forall. intros r Hr Hfx. rewrite Forall_forall in Hreg. destruct (flat_lookup c _ _ _ _ _ _ _ r HC (Hreg r Hr) Hfx) as (n & pr & ch & Hn & Hlt & _). eauto. }
  { intros n pr ch Hn. apply (unread_chain_empty _ _ _ _ _ _ _ _ _ HC). intros x j. by apply Hun. }
  eexists. split; [reflexivity|]. split; [|done]. exists cs'. split; try done; [|by destruct HF]. cbn [set_iq set_board iq heap file instList].
  assert (Hback : forall n pr' ch, cs' !! n = Some (pr', ch) -> exists pr, cs !! n = Some (pr, ch)).
  { intros n pr' ch Hn. destruct (lookup_lt_is_Some_2 cs n) as [[pr ch0] Hc]; [rewrite <- R2; by eapply lookup_lt_Some|]. destruct (R4 n pr ch0 Hc) as [pr2 E2]. rewrite Hn in E2. injection E2 as -> ->. eauto. }
  destruct HC as [C1 C2 C3 C4 C5 C6 C7 C8 C9 C10 C11 C12 C13 C14 C15 C16 C17]. split; try done; cbn [set_board regScoreboard count squashedSeqNum].
  - by rewrite R2, R3.
  - intros n pr' ch x Hn. destruct (Hback n pr' ch Hn) as [pr Hc]. by eapply C11.
  - intros n pr' ch Hn Hb. destruct (Hback n pr' ch Hn) as [pr Hc]. destruct (R5 n Hb) as [Hb' _]. by eapply C12.
  - intros x j n pr' ch Hx Hj Hg Hn Hb _. destruct (Hback n pr' ch Hn) as [pr Hc]. destruct (R6 n Hb) as [Hb'|Hw]; [by eapply C13|].
    rewrite (Hun n x j Hw Hx Hj). rewrite (unread_chain_empty (heap s) (file s) (iq s) (instList (iq s)) None cs n pr ch ltac:(split; done)); [done| |done]. intros y k. by apply Hun.
  - intros x j Hx Hj Hg. rewrite (same_chains cs cs') by done. by apply C14.
  - intros d j r n pr' ch x Hd Hj Hr Hfx Hn Hc'. destruct (Hback n pr' ch Hc') as [pr Hc]. by eapply C16.
Qed.
End Ops.
