(* ===== verification/InstQueueIssue.v ===== *)
(** * Issue

    The cycle of the instruction queue in which ready instructions are given to the
    functional units: [scheduleReadyInsts] returns, keeps the invariant, and issues the
    oldest instructions first without leaving a unit idle that one of them could use. *)

From Stdlib Require Import ZArith Lia Bool.
From stdpp Require Import base tactics option list numbers gmap sorting.
From S2P Require Import Prelude Phast RenameMap RenameRegs FUPool DepGraph ReadyList InstQueue InstQueueInv InstQueueOps.
Open Scope Z_scope.

(** ** The functional units *)

(** All units that can do [k] are busy. *)
Definition all_busy (p : FUPool) (k : nat) : Prop := k <> No_OpClass /\ forall u, u ∈ candidates p k -> unitBusy p !! u <> Some false.

(** [p'] has the units of [p], and those that were busy still are. *)
Definition later_pool (p p' : FUPool) : Prop :=
  length (unitBusy p') = length (unitBusy p) /\ (forall u, unitBusy p !! u = Some true -> unitBusy p' !! u = Some true) /\
  (forall k, candidates p' k ≡ₚ candidates p k) /\ issueLatencies p' = issueLatencies p.

Lemma later_refl p : later_pool p p.
Proof. done. Qed.
Lemma later_trans p p1 p2 : later_pool p p1 -> later_pool p1 p2 -> later_pool p p2.
Proof. intros (A1 & A2 & A3 & A4) (B1 & B2 & B3 & B4). split_and!; [congruence|auto| |congruence]. intros k. by rewrite B3, A3. Qed.

Lemma later_busy p p' k : later_pool p p' -> all_busy p k -> all_busy p' k.
Proof.
  intros (A1 & A2 & A3 & _) [Hk Hb]. split; [done|]. intros u Hu Hf. rewrite A3 in Hu. specialize (Hb u Hu).
  destruct (unitBusy p !! u) as [[]|] eqn:Eu; [apply A2 in Eu; congruence|done|]. apply lookup_ge_None_1 in Eu. apply lookup_lt_Some in Hf. lia.
Qed.

(** ** The top of a ready queue leaves it *)

Lemma core_pop c h f q L cs k p l i r : core c h f q L None None cs -> readyInsts (ready q) !! k = Some (p :: l) -> h !! p = Some i -> ready_ok r ->
  readyInsts r = <[k := l]> (readyInsts (ready q)) ->
  core c h f (set_ready q r) L None (if isSquashed (base i) || isMemRef i then None else Some p) cs.
Proof.
  intros [C1 C2 C3 C4 C5 C6 C7 C8 C9 C10 C11 C12 C13 C14 C15 C16 C17] Hk Hi Hr Er.
  assert (Hq : forall n ln, readyInsts r !! n = Some ln -> (n = k /\ ln = l) \/ (n <> k /\ readyInsts (ready q) !! n = Some ln)).
  { intros n ln Hn. rewrite Er in Hn. destruct (decide (n = k)) as [->|Hne]; [left|right; by rewrite list_lookup_insert_ne in Hn].
    rewrite list_lookup_insert_eq in Hn by (by eapply lookup_lt_Some). by injection Hn as <-. }
  destruct (C9 k (p :: l) p Hk) as (i0 & Hi0 & Hcl & _); [left|]. rewrite Hi in Hi0. injection Hi0 as <-.
  split; try done; cbn [set_ready ready nonSpecInsts].
  - intros n ln x [[-> ->]|[_ Hn]]%Hq Hx; [|by eapply C9]. apply (C9 k (p :: l)); [done|by right].
  - intros x j ln Hx Hj Hm [[Ek ->]|[Hne Hn]]%Hq.
    + destruct (C10 x j (p :: l) Hx Hj Hm) as (O1 & O2 & O3 & O4); [by rewrite Ek|]. rewrite occ_cons in O1. destruct (decide (p = x)) as [<-|Hne].
      * rewrite Hi in Hj. injection Hj as <-. assert (p ∉ l) by (rewrite occ_elem; lia). split_and!; try done; [lia|]. intros Hs. rewrite Hs, Hm. done.
      * assert (Hin : x ∈ p :: l <-> x ∈ l) by (rewrite elem_of_cons; naive_solver). rewrite Hin in O2, O4. split_and!; try done; [|auto].
        destruct (_ || _); congruence.
    + destruct (C10 x j ln Hx Hj Hm Hn) as (O1 & O2 & O3 & O4). split_and!; try done; [|auto]. destruct (_ || _); [done|]. intros [= <-]. congruence.
Qed.

(** [ps] is the list [xs] and the list [ys] merged. *)
Inductive merged : list Z -> list Z -> list Z -> Prop :=
| merged_nil : merged [] [] []
| merged_l x xs ys ps : merged xs ys ps -> merged (x :: xs) ys (x :: ps)
| merged_r y xs ys ps : merged xs ys ps -> merged xs (y :: ys) (y :: ps).

Lemma merged_app xs ys ps xs' ys' ps' : merged xs ys ps -> merged xs' ys' ps' -> merged (xs ++ xs') (ys ++ ys') (ps ++ ps').
Proof. induction 1; intros Hm; cbn; [done|constructor; auto..]. Qed.

Section Issue.
Context {M E : Type} `{MemDepLaws M E} (c : IQConfig).
Hypothesis Hcfg : 0 <= numEntries c < 2 ^ 31.
Implicit Type s : IQState M.

(** Besides what [units_free] says, somebody holds the units [x]. *)
Record units_free_with (x : list nat) s : Prop := {
  uw_pool : pool_inv (fuPool s) (x ++ pending (completions s));
  uw_idx : Forall (fun e => 0 <= fuIdx e) (completions s);
  uw_lat : forall k n, candidates (fuPool s) k <> [] -> issueLatencies (fuPool s) !! k = Some n -> 0 < swrap 32 n;
  uw_wb : wbOutstanding (iq s) = Z.of_nat (length (completions s))
}.

Lemma units_free_nil s : units_free_with [] s <-> units_free s.
Proof. split; intros []; by split. Qed.

Lemma units_free_later s fu x y : units_free_with x s -> later_pool (fuPool s) fu -> pool_inv fu (y ++ pending (completions s)) -> units_free_with y (set_fuPool s fu).
Proof.
  intros [H1 H2 H3 H4] (A1 & A2 & A3 & A4) Hp. split; try done. cbn [set_fuPool fuPool]. intros k n Hk. rewrite A4. apply H3. intros E0. apply Hk. specialize (A3 k). rewrite E0 in A3.
  by apply Permutation_nil_r in A3.
Qed.

Lemma get_unit_ok s k : units_free s -> (k < Num_OpClasses)%nat -> exists idx lat fu, get_unit k s = Ok (idx, lat, set_fuPool s fu) /\ later_pool (fuPool s) fu /\
  ((idx = NoFreeFU /\ all_busy fu k /\ units_free (set_fuPool s fu)) \/
   (idx = NoCapableFU /\ lat = 1 /\ units_free (set_fuPool s fu)) \/
   (exists u, idx = Z.of_nat u /\ candidates fu k <> [] /\ units_free_with [u] (set_fuPool s fu))).
Proof.
  intros HF Hk. pose proof (uf_pool _ HF) as HP. unfold get_unit. destruct (Nat.eqb_spec k No_OpClass) as [->|Hne].
  { exists NoCapableFU, 1, (fuPool s). split; [by destruct s|]. split; [done|]. right. left. split_and!; try done. by destruct HF. }
  destruct (getUnit_ok (fuPool s) k (pi_ok _ _ HP) Hk) as (r & fu & E1 & Hok & _ & _ & Hlat & _ & Hil & _ & _ & Hcand & Hr).
  destruct (getUnit_inv (fuPool s) k _ HP Hk) as (r2 & fu2 & E2 & HP2 & _). rewrite E1 in E2. injection E2 as <- <-. rewrite E1. cbn [rbind].
  apply units_free_nil in HF as HF0. unfold NoCapableFU, NoFreeFU in *. case_bool_decide as Hn.
  { destruct Hr as [-> ->]. exists (-2), 1, (fuPool s). split; [done|]. split; [done|]. right. left. split_and!; try done. by destruct HF. }
  destruct (first_free _ _) as [u|] eqn:Hff; destruct Hr as [-> Hb].
  - destruct (Z.leb_spec 0 (Z.of_nat u)); [|lia]. rewrite Nat2Z.id in HP2. destruct (Z.ltb_spec (-1) (Z.of_nat u)); [|lia]. unfold getOpLatency.
    destruct (nth_Ok (maxOpLatencies fu) k) as (lat & -> & _); [by rewrite (proj1 (po_lens _ Hok))|]. cbn [rbind]. exists (Z.of_nat u), lat, fu. split; [done|].
    assert (Hl : later_pool (fuPool s) fu).
    { split_and!; try done; rewrite Hb; [by rewrite length_insert|]. intros v Hv. apply list_lookup_insert_Some. destruct (decide (v = u)) as [->|]; [|by right].
      left. split_and!; try done. by eapply lookup_lt_Some. }
    split; [done|]. right. right. exists u. split; [done|]. split; [|by eapply units_free_later].
    intros E0. apply Hn. specialize (Hcand k). rewrite E0 in Hcand. by apply Permutation_nil_l in Hcand.
  - simpl in HP2. exists (-1), 1, fu. split; [done|]. assert (Hl : later_pool (fuPool s) fu) by (split_and!; try done; by rewrite Hb). split; [done|]. left. split; [done|]. split.
    + split; [done|]. intros v Hv. rewrite Hb. rewrite Hcand in Hv. by apply (proj1 (first_free_None _ _) Hff).
    + apply units_free_nil. by eapply units_free_later.
Qed.

(** Between [s] and [s'] the instructions [ps] were handed over, in this order: each was
    appended to [instsToExecute], or, if its unit takes longer, to the completions. *)
Definition gives (ps : list Z) s s' : Prop := exists te fcs, instsToExecute (iq s') = instsToExecute (iq s) ++ te /\
  completions s' = completions s ++ fcs /\ merged te (map fc_inst fcs) ps.

Lemma gives_refl s s' : instsToExecute (iq s') = instsToExecute (iq s) -> completions s' = completions s -> gives [] s s'.
Proof. intros E1 E2. exists [], []. rewrite !app_nil_r. split_and!; [done..|constructor]. Qed.

Lemma gives_trans ps qs s s1 s2 : gives ps s s1 -> gives qs s1 s2 -> gives (ps ++ qs) s s2.
Proof.
  intros (te & fcs & A1 & A2 & A3) (te' & fcs' & B1 & B2 & B3). exists (te ++ te'), (fcs ++ fcs'). rewrite map_app, !app_assoc, <- A1, <- A2.
  split_and!; [done..|]. by apply merged_app.
Qed.

(** [s] after an instruction has been handed to its unit. *)
Definition handed s (te : list Z) (wb : Z) (fu : FUPool) (cs : list FUCompletion) (a : Z) : IQState M :=
  mkState (set_wb (set_toExecute (iq s) te) wb) (heap s) (file s) fu (memDepUnit s) (decodedBranchHistory s) cs a (issuePrevSize s).

Lemma pending_snoc cs x : pending (cs ++ [x]) = pending cs ++ (if freeFU x then [Z.to_nat (fuIdx x)] else []).
Proof. unfold pending. rewrite filter_app, map_app. f_equal. destruct x as [? ? [] ?]; done. Qed.

Lemma issue_to_ok s p k idx lat x : units_free_with x s -> (k < Num_OpClasses)%nat ->
  (idx = NoCapableFU /\ lat = 1 /\ x = []) \/ (exists u, idx = Z.of_nat u /\ x = [u] /\ candidates (fuPool s) k <> []) ->
  exists te wb fu cs a, issue_to p k idx lat s = Ok (handed s te wb fu cs a) /\ units_free (handed s te wb fu cs a) /\ later_pool (fuPool s) fu /\
    gives [p] s (handed s te wb fu cs a).
Proof.
  intros [HP HI HL HW] Hk Hcase. unfold issue_to. pose proof (po_lens _ (pi_ok _ _ HP)) as (L1 & L2 & L3 & _). destruct (Z.eqb_spec lat 1) as [->|Hlat].
  - assert (Hg : forall wb fu a, gives [p] s (handed s (instsToExecute (iq s) ++ [p]) wb fu (completions s) a)).
    { intros wb fu a. exists [p], []. cbn. rewrite app_nil_r. split_and!; [done..|]. repeat constructor. }
    destruct Hcase as [(-> & _ & ->)|(u & -> & -> & _)].
    { simpl. exists (instsToExecute (iq s) ++ [p]), (wbOutstanding (iq s)), (fuPool s), (completions s), (issueSize s + 1). split; [reflexivity|]. split; [by split|]. split; [by split_and!|apply Hg]. }
    destruct (Z.leb_spec 0 (Z.of_nat u)); [|lia]. cbn [set_sizes set_iq fuPool]. rewrite Nat2Z.id. destruct (free_next_ok (fuPool s) u (pending (completions s)) _ HP) as (fu & -> & HP' & ->); [done|].
    cbn [rbind]. eexists (instsToExecute (iq s) ++ [p]), (wbOutstanding (iq s)), _, (completions s), (issueSize s + 1). split; [reflexivity|]. split; [by split|]. split; [by split_and!|apply Hg].
  - destruct Hcase as [(_ & -> & _)|(u & -> & -> & Hcand)]; [done|]. unfold isPipelined. destruct (nth_Ok (pipelined_ops (fuPool s)) k) as (pl & -> & _); [by rewrite L2|].
    cbn [rbind set_iq set_completions fuPool completions]. set (fc := mkFUCompletion p (Z.of_nat u) (negb pl) (wrap 64 (lat - 1))).
    assert (Hg : forall wb fu a, gives [p] s (handed s (instsToExecute (iq s)) wb fu (completions s ++ [fc]) a)).
    { intros wb fu a. exists [], [fc]. cbn. rewrite app_nil_r. split_and!; [done..|]. repeat constructor. }
    assert (HI' : Forall (fun e => 0 <= fuIdx e) (completions s ++ [fc])) by (apply Forall_app; split; [done|]; apply Forall_singleton; simpl; lia).
    assert (HW' : wbOutstanding (iq s) + 1 = Z.of_nat (length (completions s ++ [fc]))) by (rewrite length_app, HW; simpl; lia). destruct pl.
    + unfold getOpIssueLatency. destruct (lookup_lt_is_Some_2 (issueLatencies (fuPool s)) k) as [il Hil]; [by rewrite L3|]. rewrite (nth_lookup _ _ _ Hil). cbn [rbind].
      pose proof (HL k il Hcand Hil) as Hpos. pose proof (swrap_range 32 il ltac:(lia)) as Hr. unfold in_s in Hr. simpl in Hr.
      assert (HPc : pending (completions s ++ [fc]) = pending (completions s)) by (rewrite pending_snoc; simpl; apply app_nil_r). rewrite Nat2Z.id.
      destruct (Z.eqb_spec (swrap 32 il) 1); cbn [negb].
      * destruct (free_next_ok (fuPool s) u (pending (completions s)) _ HP) as (fu & -> & HP' & ->); [done|]. cbn [rbind]. eexists (instsToExecute (iq s)), (wbOutstanding (iq s) + 1), _, (completions s ++ [fc]), (issueSize s).
        split; [reflexivity|]. split; [split; try done; unfold handed; cbn [fuPool completions]; by rewrite HPc|]. split; [by split_and!|apply Hg].
      * destruct (free_x_ok (fuPool s) u (swrap 32 il) (pending (completions s)) _ HP) as (fu & -> & HP' & ->); [done|lia|]. cbn [rbind]. eexists (instsToExecute (iq s)), (wbOutstanding (iq s) + 1), _, (completions s ++ [fc]), (issueSize s).
        split; [reflexivity|]. split; [split; try done; unfold handed; cbn [fuPool completions]; by rewrite HPc|]. split; [by split_and!|apply Hg].
    + exists (instsToExecute (iq s)), (wbOutstanding (iq s) + 1), (fuPool s), (completions s ++ [fc]), (issueSize s). split; [reflexivity|]. split; [|split; [by split_and!|apply Hg]]. split; try done. unfold handed. cbn [fuPool completions].
      rewrite pending_snoc. simpl. rewrite Nat2Z.id. destruct HP as [P1 P2 P3 P4].
      assert (Hp : owed (fuPool s) ++ pending (completions s) ++ [u] ≡ₚ owed (fuPool s) ++ [u] ++ pending (completions s)) by (f_equiv; apply Permutation_app_comm).
      split; try done; [by rewrite Hp|]. intros v. by rewrite Hp.
Qed.

(** ** One instruction *)

(** What may change while instructions are issued, beside the ready lists. *)
Record sched s s' : Prop := {
  sd_iq : instList (iq s') = instList (iq s) /\ nonSpecInsts (iq s') = nonSpecInsts (iq s) /\ regScoreboard (iq s') = regScoreboard (iq s);
  sd_pool : later_pool (fuPool s) (fuPool s');
  sd_heap : forall x i, heap s !! x = Some i -> exists i', heap s' !! x = Some i' /\ base i' = base i /\ stat i' = stat i /\
    (Issued (flags i) = true -> Issued (flags i') = true)
}.

Lemma sched_refl s : sched s s.
Proof. split; [done|apply later_refl|]. eauto 10. Qed.

Lemma sched_trans s s1 s2 : sched s s1 -> sched s1 s2 -> sched s s2.
Proof.
  intros [(A1 & A2 & A3) A4 A5] [(B1 & B2 & B3) B4 B5]. split; [split_and!; congruence|by eapply later_trans|]. intros x i Hx.
  destruct (A5 x i Hx) as (i1 & H1 & E1 & E2 & E3). destruct (B5 x i1 H1) as (i2 & H2 & F1 & F2 & F3). exists i2. split_and!; [done|congruence|congruence|auto].
Qed.

Lemma sched_insert s s' p i i' : heap s !! p = Some i -> heap s' = <[p := i']> (heap s) -> base i' = base i -> stat i' = stat i -> Issued (flags i') = true ->
  instList (iq s') = instList (iq s) -> nonSpecInsts (iq s') = nonSpecInsts (iq s) -> regScoreboard (iq s') = regScoreboard (iq s) ->
  later_pool (fuPool s) (fuPool s') -> sched s s'.
Proof.
  intros Hi Eh E1 E2 E3 E4 E5 E6 Hl. split; [done|done|]. intros x j Hx. rewrite Eh. destruct (decide (x = p)) as [->|Hne].
  - rewrite lookup_insert_eq. rewrite Hi in Hx. injection Hx as <-. eauto 10.
  - rewrite lookup_insert_ne by done. eauto 10.
Qed.

(** [it] is the entry of queue [k], whose top is [p]. *)
Record at_entry s (k : nat) (p : Z) (l : list Z) (i : IQInst) (pre : list ListOrderEntry) (it : positive) (post : list ListOrderEntry) : Prop := {
  ae_queue : readyInsts (ready (iq s)) !! k = Some (p :: l);
  ae_inst : heap s !! p = Some i;
  ae_order : listOrder (ready (iq s)) = pre ++ mkEntry it k p :: post
}.

(** The ready lists after the top of the queue left. *)
Record popped s (k : nat) (l : list Z) (pre post post' : list ListOrderEntry) (r : ReadyLists) : Prop := {
  pp_ok : ready_ok r;
  pp_queue : readyInsts r = <[k := l]> (readyInsts (ready (iq s)));
  pp_order : listOrder r = pre ++ post';
  pp_post : match l with [] => post' = post | t :: _ => post' = place_before (mkEntry (nextNode (ready (iq s))) k t) post end
}.

Lemma pop_top_ok s L o cs k p l i pre it post : core_of c s L None o cs -> at_entry s k p l i pre it post -> exists r post',
  pop_top k it s = Ok (node <$> head post', set_iq s (set_ready (iq s) r)) /\ popped s k l pre post post' r.
Proof.
  intros HC [A1 A2 A3]. unfold pop_top. destruct (pop_ready_ok _ _ _ _ _ _ _ (c_ready _ _ _ _ _ _ _ _ HC) A1 A3) as (r & post' & -> & R1 & R2 & R3 & R4). cbn [rbind].
  exists r, post'. split; [done|]. by split.
Qed.

Lemma drop_squashed_ok s L cs k p l i pre it post r post' : good c s L None None cs -> at_entry s k p l i pre it post -> isSquashed (base i) = true ->
  popped s k l pre post post' r -> good c (set_iq s (set_ready (iq s) r)) L None None cs.
Proof.
  intros [HC HU HL HF] [A1 A2 A3] Hs [R1 R2 R3 R4]. pose proof (core_pop _ _ _ _ _ _ _ _ _ _ r HC A1 A2 R1 R2) as HC'. rewrite Hs in HC'.
  split; try done. by destruct HF.
Qed.

(** The end of the issue of an instruction that is no memory reference. *)
Lemma issued_nonmem_ok s L cs k p l i pre it post r post' : good c s L None None cs -> at_entry s k p l i pre it post -> isSquashed (base i) = false -> isMemRef i = false ->
  popped s k l pre post post' r -> exists ks n, let s2 := set_iq s (set_ready (iq s) r) in
  let s3 := set_heap (set_iq s2 (set_counts (iq s2) ks n)) (<[p := clearInIQ (setIssued i)]> (heap s)) in
  (let! s := upd_inst s2 p setIssued in let! q := move_entry (inst_thread i) (-1) (iq s) in upd_inst (set_iq s q) p clearInIQ) = Ok s3 /\ good c s3 L None None cs.
Proof.
  intros [HC HU HL HF] [A1 A2 A3] Hs Hm [R1 R2 R3 R4]. pose proof (core_pop _ _ _ _ _ _ _ _ _ _ r HC A1 A2 R1 R2) as HC'. rewrite Hs, Hm in HC'. simpl in HC'.
  destruct (c_queue _ _ _ _ _ _ _ _ HC k _ p A1) as (i0 & Hi0 & Hk & Ht & Hf); [left|]. rewrite A2 in Hi0. injection Hi0 as <-. specialize (Hf Hm Hs).
  destruct (c_once _ _ _ _ _ _ _ _ HC p i (p :: l) Hf A2 Hm) as (_ & Hgo & _); [by rewrite Hk|]. destruct (Hgo ltac:(left)) as [Hiss Hrdy].
  destruct (lookup_lt_is_Some_2 (count (iq s)) (inst_thread i)) as [n0 Hn0]; [by rewrite (proj1 (proj2 (c_lens _ _ _ _ _ _ _ _ HC)))|].
  assert (Hrel : holds i = true /\ holds (clearInIQ (setIssued i)) = false /\ (isMemRef i = true -> Issued (flags (clearInIQ (setIssued i))) = true)).
  { unfold holds. change (isMemRef (clearInIQ (setIssued i))) with (isMemRef i). rewrite Hm, Hiss. done. }
  assert (Hno : occ p (concat (map snd cs)) = 0%nat).
  { eapply no_wait; [exact HC|exact Hf|exact A2|]. intros Hg. rewrite Hg in Hrdy. rewrite (c_can _ _ _ _ _ _ _ _ HC p i Hf A2 Hg Hm) in Hrdy. by apply Nat.eqb_eq in Hrdy. }
  assert (Hsame : stat (clearInIQ (setIssued i)) = stat i /\ staticInst (base (clearInIQ (setIssued i))) = staticInst (base i) /\
    inst_thread (clearInIQ (setIssued i)) = inst_thread i /\ operands (base (clearInIQ (setIssued i))) = operands (base i) /\
    isSquashed (base (clearInIQ (setIssued i))) = isSquashed (base i) /\ readyToIssue (clearInIQ (setIssued i)) = readyToIssue i /\
    SquashedInIQ (flags (clearInIQ (setIssued i))) = SquashedInIQ (flags i)) by done.
  assert (Hsp : p ∉ nonSpecInsts (iq s)).
  { intros Hin. destruct (c_spec _ _ _ _ _ _ _ _ HC p Hin) as (_ & j & Hj & Hg & _). rewrite A2 in Hj. injection Hj as <-. rewrite Hg in Hrdy. done. }
  pose proof (core_release c _ _ _ L None (Some p) cs HC' p i _ n0 Hf A2 Hsame Hrel Hno Hsp Hn0) as HC2. rewrite Hm in HC2. specialize (HC2 eq_refl).
  pose proof (release_pos c _ _ _ L None (Some p) cs HC' p i _ n0 Hf A2 Hsame Hrel Hno Hn0) as Hpos.
  exists (<[inst_thread i := n0 - 1]> (count (iq s))), (freeEntries (iq s) + 1). cbv zeta. split.
  - unfold upd_inst at 1, get. cbn [set_iq heap]. rewrite A2. cbn [deref rbind].
    rewrite (release_entry c _ _ _ L None (Some p) cs HC' Hcfg _ (inst_thread i) n0); [|done|done|exact Hn0|exact Hpos]. cbn [rbind].
    unfold upd_inst, get. cbn [put set_heap set_iq heap]. rewrite lookup_insert_eq. cbn [deref rbind]. unfold put. cbn [set_heap set_iq heap]. by rewrite insert_insert_eq.
  - split; [exact HC2| |eapply lists_insert; try done; apply HL|by destruct HF].
    eapply units_alike; [eapply alike_insert; [exact A2|done..]|eapply flight_some; exact HC|exact HU].
Qed.

Lemma issued_mem_ok s L cs k p l i pre it post r post' : good c s L None None cs -> at_entry s k p l i pre it post -> isMemRef i = true ->
  popped s k l pre post post' r -> exists ms, let s2 := set_iq s (set_ready (iq s) r) in
  let s3 := set_heap (set_units s2 ms) (<[p := setIssued i]> (heap s)) in
  (let! s := upd_inst s2 p setIssued in let! (s, _) := call_unit (inst_thread i) (md_issue p i) s in Ok s) = Ok s3 /\ good c s3 L None None cs.
Proof.
  intros [HC HU HL HF] [A1 A2 A3] Hm [R1 R2 R3 R4]. pose proof (core_pop _ _ _ _ _ _ _ _ _ _ r HC A1 A2 R1 R2) as HC'. rewrite Hm, orb_true_r in HC'.
  destruct (c_queue _ _ _ _ _ _ _ _ HC k _ p A1) as (i0 & Hi0 & Hk & Ht & _); [left|]. rewrite A2 in Hi0. injection Hi0 as <-.
  assert (Hq : heap_quiet (heap s) (<[p := setIssued i]> (heap s))) by (eapply heap_quiet_insert; [done|]; split; try done; intros ?; congruence).
  set (s2 := set_heap (set_iq s (set_ready (iq s) r)) (<[p := setIssued i]> (heap s))).
  assert (HG2 : good c s2 L None None cs).
  { split; [eapply core_heap; [exact HC'|exact Hq]| |eapply lists_insert; try done; apply HL|by destruct HF].
    eapply units_alike; [eapply alike_insert; [exact A2|done..]|eapply flight_some; exact HC|exact HU]. }
  destruct (lookup_lt_is_Some_2 L (inst_thread i)) as [lt Hlt]; [by rewrite (proj1 (c_lens _ _ _ _ _ _ _ _ HC))|].
  destruct (thread_unit c s2 L None None cs _ lt HG2 Hlt) as (m & Hm2 & HUm). destruct (law_issue (inst_thread i) p i m (proj1 HUm)) as (m' & out & El & Hok & Hlive & Hw).
  exists (<[inst_thread i := m']> (memDepUnit s)). cbv zeta. unfold upd_inst, get. cbn [set_iq heap]. rewrite A2. cbn [deref rbind].
  change (put (set_iq s (set_ready (iq s) r)) p (setIssued i)) with s2. unfold call_unit. rewrite (nth_lookup _ _ _ Hm2). cbn [rbind]. rewrite El. cbn [rbind].
  rewrite upd_Ok by (by eapply lookup_lt_Some). cbn [rbind]. rewrite Hw. cbn [add_ready_all rbind]. split; [reflexivity|]. destruct HG2 as [G1 [Glen G2] G3 G4].
  split; try done; [|by destruct G4]. split; cbn [set_heap set_units memDepUnit heap]; [by rewrite length_insert|]. intros t' l' mt Hl' Hmt. destruct (decide (t' = inst_thread i)) as [->|Hne].
  - rewrite list_lookup_insert_eq in Hmt by (by eapply lookup_lt_Some). injection Hmt as <-. rewrite Hlt in Hl'. injection Hl' as <-. unfold unit_ok in *. rewrite Hlive. tauto.
  - rewrite list_lookup_insert_ne in Hmt by done. by eapply G2.
Qed.

(** The instruction on top of the queue gets a unit, or there is none free. *)
Lemma issue_step_ok s L cs k p l i pre it post : good c s L None None cs -> at_entry s k p l i pre it post -> isSquashed (base i) = false -> (k < Num_OpClasses)%nat ->
  exists idx lat s1, get_unit k s = Ok (idx, lat, s1) /\
  ((idx = NoFreeFU /\ all_busy (fuPool s1) k /\ good c s1 L None None cs /\ sched s s1 /\ ready (iq s1) = ready (iq s) /\ gives [] s s1) \/
   (idx <> NoFreeFU /\ exists s2 r post' s3, issue_to p k idx lat s1 = Ok s2 /\ pop_top k it s2 = Ok (node <$> head post', set_iq s2 (set_ready (iq s2) r)) /\
      popped s k l pre post post' r /\
      (let! s := upd_inst (set_iq s2 (set_ready (iq s2) r)) p setIssued in
       if negb (isMemRef i) then let! q := move_entry (inst_thread i) (-1) (iq s) in upd_inst (set_iq s q) p clearInIQ
       else let! (s, _) := call_unit (inst_thread i) (md_issue p i) s in Ok s) = Ok s3 /\
      good c s3 L None None cs /\ sched s s3 /\ ready (iq s3) = r /\ gives [p] s s3 /\ exists i', heap s3 !! p = Some i' /\ Issued (flags i') = true)).
Proof.
  intros HG HA Hs Hk. pose proof HG as [HC HU HL HF]. destruct (get_unit_ok s k HF Hk) as (idx & lat & fu & -> & Hlater & Hcase).
  exists idx, lat, (set_fuPool s fu). split; [done|]. set (s1 := set_fuPool s fu).
  assert (Hgood : units_free s1 -> good c s1 L None None cs) by (intros HF1; split; done).
  destruct Hcase as [(-> & Hb & HF1)|Hcase].
  { left. split_and!; [done|done|by apply Hgood| |done|by apply gives_refl]. split; [done|done|]. eauto 10. }
  right. assert (Hne : idx <> NoFreeFU) by (unfold NoFreeFU, NoCapableFU in *; destruct Hcase as [(-> & _)|(u & -> & _)]; lia). split; [done|].
  assert (Hx : exists x, units_free_with x s1 /\ ((idx = NoCapableFU /\ lat = 1 /\ x = []) \/ (exists u, idx = Z.of_nat u /\ x = [u] /\ candidates (fuPool s1) k <> []))).
  { destruct Hcase as [(-> & -> & HF1)|(u & -> & Hcand & HF1)]; [exists []|exists [u]]; (split; [|eauto 10]); [by apply units_free_nil|done]. }
  destruct Hx as (x & HFx & Hx). destruct (issue_to_ok s1 p k idx lat x HFx Hk Hx) as (te & wb & fu2 & cps & a0 & E1 & HF2 & Hl2 & Hgv).
  set (s2 := handed s1 te wb fu2 cps a0) in E1, HF2. assert (HG2 : good c s2 L None None cs) by (split; try done; by eapply core_iq).
  assert (HA2 : at_entry s2 k p l i pre it post) by (by destruct HA). destruct (pop_top_ok s2 L None cs k p l i pre it post (g_core _ _ _ _ _ _ HG2) HA2) as (r & post' & E2 & HP).
  assert (Hpool : later_pool (fuPool s) fu2) by (eapply later_trans; [exact Hlater|exact Hl2]). pose proof HA as [_ Hi _].
  destruct (isMemRef i) eqn:Em.
  - destruct (issued_mem_ok s2 L cs k p l i pre it post r post' HG2 HA2 Em HP) as (ms & E3 & HG3). eexists s2, r, post', _. split_and!; [exact E1|exact E2|by destruct HP|exact E3|exact HG3| |done|exact Hgv|].
    + by eapply sched_insert.
    + exists (setIssued i). split; [apply lookup_insert_eq|done].
  - destruct (issued_nonmem_ok s2 L cs k p l i pre it post r post' HG2 HA2 Hs Em HP) as (ks & n & E3 & HG3). eexists s2, r, post', _. split_and!; [exact E1|exact E2|by destruct HP|exact E3|exact HG3| |done|exact Hgv|].
    + by eapply sched_insert.
    + exists (clearInIQ (setIssued i)). split; [apply lookup_insert_eq|done].
Qed.

(** ** The loop *)

Definition squashed_in s (x : Z) : Prop := exists i, heap s !! x = Some i /\ isSquashed (base i) = true.

(** [ps] are the instructions that were issued between [s] and [s'], of which at most
    [w], and [n] in all; [lo] is older than all that were considered. *)
Record result (lo : Z) (w n : nat) s s' (ps : list Z) : Prop := {
  rs_num : (n <= w)%nat;
  rs_sched : sched s s';
  rs_sorted : StronglySorted Z.le ps /\ Forall (fun p => lo <= p) ps;
  rs_queue : forall k l, readyInsts (ready (iq s)) !! k = Some l -> exists l1 l2, l = l1 ++ l2 /\ readyInsts (ready (iq s')) !! k = Some l2 /\
    forall x, x ∈ l1 -> x ∈ ps \/ squashed_in s x;
  rs_issued : forall x, x ∈ ps -> (exists k l, readyInsts (ready (iq s)) !! k = Some l /\ x ∈ l) /\ ~ squashed_in s x /\
    exists i, heap s' !! x = Some i /\ Issued (flags i) = true;
  rs_gives : gives ps s s';
  rs_left : forall k l x, readyInsts (ready (iq s')) !! k = Some l -> x ∈ l ->
    all_busy (fuPool s') k \/ (n = w /\ lo <= x /\ forall y, y ∈ ps -> y <= x)
}.

Lemma sched_squashed s s' x : sched s s' -> squashed_in s x -> squashed_in s' x.
Proof. intros Hs (i & Hi & Hq). destruct (sd_heap _ _ Hs x i Hi) as (i' & Hi' & Eb & _). exists i'. by rewrite Eb. Qed.

Lemma sched_unsquashed s s' x i : sched s s' -> heap s !! x = Some i -> squashed_in s' x -> isSquashed (base i) = true.
Proof. intros Hs Hi (j & Hj & Hq). destruct (sd_heap _ _ Hs x i Hi) as (i' & Hi' & Eb & _). rewrite Hj in Hi'. injection Hi' as <-. by rewrite <- Eb. Qed.

(** The order list starts at [pre ++ post], and the classes of [pre] have no free unit. *)
Definition position s (pre post : list ListOrderEntry) (lo : Z) : Prop :=
  listOrder (ready (iq s)) = pre ++ post /\ (forall e, e ∈ pre -> all_busy (fuPool s) (queueType e)) /\ forall e, e ∈ post -> lo <= oldestInst e.

Lemma sched_stop s L cs pre post lo n w : good c s L None None cs -> position s pre post lo -> (n <= w)%nat -> n = w \/ post = [] -> result lo w n s s [].
Proof.
  intros HG (Ho & Hpre & Hpost) Hn Hend. split; [done|apply sched_refl|by repeat constructor| |by intros x ?%not_elem_of_nil|by apply gives_refl|].
  - intros k l Hl. exists [], l. split_and!; try done. by intros x ?%not_elem_of_nil.
  - intros k l x Hl Hx. pose proof (c_ready _ _ _ _ _ _ _ _ (g_core _ _ _ _ _ _ HG)) as HR. destruct l as [|p0 l]; [by apply not_elem_of_nil in Hx|].
    destruct (rl_on _ HR k p0 l Hl) as (it & Hin). rewrite Ho in Hin. apply elem_of_app in Hin as [Hin|Hin]; [left; apply (Hpre _ Hin)|]. right.
    destruct Hend as [->| ->]; [|by apply not_elem_of_nil in Hin]. split; [done|]. split; [|by intros y ?%not_elem_of_nil]. specialize (Hpost _ Hin). simpl in Hpost.
    pose proof (rl_sorted _ HR k _ Hl) as Hs. apply StronglySorted_inv in Hs as [_ HF]. rewrite Forall_forall in HF. apply elem_of_cons in Hx as [->|Hx]; [done|]. specialize (HF x Hx). lia.
Qed.

(** The queues before and after the top [p] of queue [k] left. *)
Lemma result_pop lo lo' w n s s1 s' k p l ps ps' : readyInsts (ready (iq s)) !! k = Some (p :: l) -> readyInsts (ready (iq s1)) = <[k := l]> (readyInsts (ready (iq s))) ->
  sched s s1 -> (forall x, x ∈ p :: l -> is_Some (heap s !! x)) -> (forall j lj x, readyInsts (ready (iq s)) !! j = Some lj -> x ∈ lj -> is_Some (heap s !! x)) ->
  result lo' w n s1 s' ps -> lo <= lo' ->
  (squashed_in s p /\ ps' = ps \/ ~ squashed_in s p /\ ps' = p :: ps /\ lo' = p /\ exists i, heap s1 !! p = Some i /\ Issued (flags i) = true) ->
  (squashed_in s p -> gives [] s s1) -> (~ squashed_in s p -> gives [p] s s1) -> result lo w n s s' ps'.
Proof.
  intros Hk Er Hs Hheap Hall [R1 R2 [R3 R3'] R4 R5 Rg R6] Hlo Hcase Hg0 Hg1.
  assert (Hsub : forall x, x ∈ ps -> x ∈ ps') by (intros x Hx; destruct Hcase as [[_ ->]|(_ & -> & _)]; [done|by right]).
  assert (Hback : forall x, squashed_in s1 x -> is_Some (heap s !! x) -> squashed_in s x).
  { intros x Hx [i Hi]. exists i. split; [done|]. exact (sched_unsquashed s s1 x i Hs Hi Hx). }
  split; [done|by eapply sched_trans| | | | |].
  - destruct Hcase as [[_ ->]|(_ & -> & -> & _)].
    + split; [done|]. eapply Forall_impl; [exact R3'|]. simpl. lia.
    + split; [by constructor|]. constructor; [done|].
      eapply Forall_impl; [exact R3'|]. simpl. lia.
  - intros j lj Hj. destruct (decide (j = k)) as [->|Hne].
    + rewrite Hk in Hj. injection Hj as <-. destruct (R4 k l) as (l1 & l2 & -> & Hl2 & Hin); [rewrite Er; apply list_lookup_insert_eq; by eapply lookup_lt_Some|].
      exists (p :: l1), l2. split_and!; try done. intros x [->|Hx]%elem_of_cons.
      * destruct Hcase as [[? _]|(_ & -> & _)]; [by right|left; left].
      * destruct (Hin x Hx) as [Hp|Hq]; [left; auto|right]. apply Hback; [done|]. apply Hheap. right. apply elem_of_app. by left.
    + destruct (R4 j lj) as (l1 & l2 & -> & Hl2 & Hin); [by rewrite Er, list_lookup_insert_ne|]. exists l1, l2. split_and!; try done.
      intros x Hx. destruct (Hin x Hx) as [Hp|Hq]; [left; auto|right]. apply Hback; [done|]. eapply Hall; [exact Hj|]. apply elem_of_app. by left.
  - assert (Hold : forall x, x ∈ ps -> (exists j lj, readyInsts (ready (iq s)) !! j = Some lj /\ x ∈ lj) /\ ~ squashed_in s x /\ exists i, heap s' !! x = Some i /\ Issued (flags i) = true).
    { intros x Hx. destruct (R5 x Hx) as ((j & lj & Hj & Hxj) & Hns & Hi). split_and!; [|intros Hq; apply Hns; by apply (sched_squashed s)|done].
      rewrite Er in Hj. destruct (decide (j = k)) as [->|Hne].
      - rewrite list_lookup_insert_eq in Hj by (by eapply lookup_lt_Some). injection Hj as <-. exists k, (p :: l). split; [done|]. by right.
      - rewrite list_lookup_insert_ne in Hj by done. eauto. }
    intros x Hx. destruct Hcase as [[_ ->]|(Hnp & -> & _ & i & Hi & Hiss)]; [auto|]. apply elem_of_cons in Hx as [->|Hx]; [|auto].
    split_and!; [exists k, (p :: l); split; [done|left]|done|]. destruct (sd_heap _ _ R2 p i Hi) as (i' & Hi' & _ & _ & Hm). eauto.
  - destruct Hcase as [[Hq ->]|(Hnq & -> & _)]; [apply (gives_trans [] ps s s1); auto|apply (gives_trans [p] ps s s1); auto].
  - intros j lj x Hj Hx. destruct (R6 j lj x Hj Hx) as [?|(? & Hlx & Hy)]; [by left|right]. split; [done|]. split; [lia|]. intros y Hin.
    destruct Hcase as [[_ ->]|(_ & -> & -> & _)]; [auto|]. apply elem_of_cons in Hin as [->|Hin]; [done|auto].
Qed.

Definition queue_sum (r : ReadyLists) : nat := list_sum (map length (readyInsts r)).

Lemma sum_pop (qs : list (list Z)) k p l : qs !! k = Some (p :: l) -> list_sum (map length qs) = S (list_sum (map length (<[k := l]> qs))).
Proof.
  intros (q1 & q2 & -> & ->)%list_elem_of_split_length. rewrite insert_app_r_alt, Nat.sub_diag by done. change (<[0%nat := l]> ((p :: l) :: q2)) with (l :: q2).
  rewrite !map_app, !list_sum_app. simpl. lia.
Qed.

Lemma popped_position s s1 k p l i pre it post post' r lo L cs : good c s L None None cs -> at_entry s k p l i pre it post -> popped s k l pre post post' r ->
  position s pre (mkEntry it k p :: post) lo -> later_pool (fuPool s) (fuPool s1) -> ready (iq s1) = r ->
  lo <= p /\ position s1 pre post' p /\ (queue_sum r + length post' < queue_sum (ready (iq s)) + length (mkEntry it k p :: post))%nat.
Proof.
  intros HG [A1 A2 A3] [P1 P2 P3 P4] (Ho & Hpre & Hpost) Hl Er. pose proof (c_ready _ _ _ _ _ _ _ _ (g_core _ _ _ _ _ _ HG)) as HR.
  pose proof (Hpost (mkEntry it k p) ltac:(left)) as Hlo. split; [exact Hlo|]. split.
  - split; [by rewrite Er|]. split; [intros e He; eapply later_busy; [exact Hl|by apply Hpre]|].
    pose proof (rl_order _ HR) as Hag. rewrite A3 in Hag. apply aged_app in Hag as (_ & Hag & _). apply StronglySorted_inv in Hag as [_ HF]. rewrite Forall_forall in HF.
    destruct l as [|t l]; [subst post'; intros e He; by apply (HF e)|]. subst post'. intros e. rewrite place_before_perm. intros [->|He]%elem_of_cons; [|by apply (HF e)].
    pose proof (rl_sorted _ HR k _ A1) as Hs. apply StronglySorted_inv in Hs as [_ HF2]. rewrite Forall_forall in HF2. apply HF2. left.
  - unfold queue_sum. rewrite P2, (sum_pop _ k p l A1). simpl. destruct l as [|t l]; subst post'; [lia|]. rewrite (Permutation_length (place_before_perm _ _)). simpl. lia.
Qed.

Lemma queued_heap s L o cs k l x : core_of c s L None o cs -> readyInsts (ready (iq s)) !! k = Some l -> x ∈ l -> is_Some (heap s !! x).
Proof. intros HC Hk Hx. destruct (c_queue _ _ _ _ _ _ _ _ HC k l x Hk Hx) as (i & Hi & _). eauto. Qed.

Lemma position_entry s L cs pre x post lo : good c s L None None cs -> position s pre (x :: post) lo -> exists p l i,
  x = mkEntry (node x) (queueType x) p /\ at_entry s (queueType x) p l i pre (node x) post /\ (queueType x < Num_OpClasses)%nat /\
  split_at (node x) (listOrder (ready (iq s))) = Ok (pre, x, post).
Proof.
  intros HG (Ho & _). pose proof (g_core _ _ _ _ _ _ HG) as HC. pose proof (c_ready _ _ _ _ _ _ _ _ HC) as HR.
  assert (Hin : x ∈ listOrder (ready (iq s))) by (rewrite Ho; apply elem_of_app; right; left). pose proof (rl_types _ HR) as Ht. rewrite Forall_forall in Ht. specialize (Ht x Hin).
  destruct (lookup_lt_is_Some_2 (readyInsts (ready (iq s))) (queueType x)) as [l Hl]; [by rewrite (proj1 (rl_lens _ HR))|].
  pose proof (rl_class _ HR _ l Hl) as Hc. destruct l as [|p l]; [destruct Hc as (_ & _ & Hc); by destruct (Hc x Hin)|]. destruct Hc as (_ & it & _ & Hc).
  pose proof (proj1 (Hc x Hin) eq_refl) as Ex. destruct (queued_heap s L None cs _ _ p HC Hl) as [i Hi]; [left|]. exists p, l, i.
  assert (E2 : x = mkEntry (node x) (queueType x) p) by (rewrite Ex at 1; rewrite Ex; done). split; [done|]. split; [split; [done|done|by rewrite <- E2]|]. split; [done|].
  rewrite Ho. apply split_at_ok. rewrite <- Ho. apply HR.
Qed.

Lemma result_skip lo w n s s1 s' ps : ready (iq s1) = ready (iq s) -> sched s s1 -> gives [] s s1 ->
  (forall j lj x, readyInsts (ready (iq s)) !! j = Some lj -> x ∈ lj -> is_Some (heap s !! x)) -> result lo w n s1 s' ps -> result lo w n s s' ps.
Proof.
  intros Er Hs Hg Hall [R1 R2 R3 R4 R5 Rg R6]. rewrite Er in R4, R5. split; try done; [by eapply sched_trans| | |by apply (gives_trans [] ps s s1)].
  - intros k l Hl. destruct (R4 k l Hl) as (l1 & l2 & -> & Hl2 & Hin). exists l1, l2. split_and!; try done. intros x Hx.
    destruct (Hin x Hx) as [Hp|Hq]; [by left|right]. destruct (Hall k _ x Hl) as [i Hi]; [apply elem_of_app; by left|]. exists i. split; [done|].
    exact (sched_unsquashed s s1 x i Hs Hi Hq).
  - intros x Hx. destruct (R5 x Hx) as (? & Hns & ?). split_and!; try done. intros Hq. apply Hns. by apply (sched_squashed s).
Qed.

(** What the loop does with [fuel]. *)
Definition loop_spec L cs (w fuel : nat) : Prop := forall n s pre post lo, good c s L None None cs -> position s pre post lo -> (n <= w)%nat ->
  (queue_sum (ready (iq s)) + length post <= fuel)%nat ->
  exists ps s', schedule_loop fuel w n (node <$> head post) s = Ok ((n + length ps)%nat, s') /\ good c s' L None None cs /\ result lo w (n + length ps) s s' ps.

(** The loop goes on after the top [p] of a queue left; it was issued if [b]. *)
Lemma loop_pop L cs w fuel s k p l i pre it post lo s1 r post' (b : bool) m : loop_spec L cs w fuel -> good c s L None None cs -> at_entry s k p l i pre it post ->
  position s pre (mkEntry it k p :: post) lo -> (queue_sum (ready (iq s)) + length (mkEntry it k p :: post) <= S fuel)%nat ->
  popped s k l pre post post' r -> ready (iq s1) = r -> sched s s1 -> good c s1 L None None cs -> (m <= w)%nat -> gives (if b then [p] else []) s s1 ->
  (if b then ~ squashed_in s p /\ exists i', heap s1 !! p = Some i' /\ Issued (flags i') = true else squashed_in s p) ->
  exists ps s', schedule_loop fuel w m (node <$> head post') s1 = Ok ((m + length ps)%nat, s') /\ good c s' L None None cs /\
    result lo w (m + length ps) s s' (if b then p :: ps else ps).
Proof.
  intros IH HG HA Hpos Hfuel HP Er Hs HG1 Hm Hgv Hcase. pose proof HA as [A1 A2 A3]. pose proof (g_core _ _ _ _ _ _ HG) as HC.
  destruct (popped_position s s1 _ p l i pre _ post post' r lo L cs HG HA HP Hpos (sd_pool _ _ Hs) Er) as (Hlo & Hpos1 & Hdec). destruct HP as [P1 P2 P3 P4].
  destruct (IH m s1 pre post' p HG1 Hpos1 Hm) as (ps & s' & E1 & HG' & HR); [rewrite Er; lia|]. exists ps, s'. split; [done|]. split; [done|].
  eapply (result_pop lo p w _ s s1 s' k p l ps); try done.
  - by rewrite Er.
  - intros y Hy. by eapply queued_heap.
  - intros j lj y Hj Hy. by eapply queued_heap.
  - destruct b; [right; destruct Hcase; done|by left].
  - destruct b; [by destruct Hcase|done].
  - by destruct b.
Qed.

(** The loop goes on with the next entry when there is no unit for [x]. *)
Lemma loop_skip L cs w fuel s x pre post lo s1 n : loop_spec L cs w fuel -> good c s L None None cs -> position s pre (x :: post) lo ->
  (queue_sum (ready (iq s)) + length (x :: post) <= S fuel)%nat -> all_busy (fuPool s1) (queueType x) -> ready (iq s1) = ready (iq s) -> sched s s1 -> gives [] s s1 ->
  good c s1 L None None cs -> (n <= w)%nat ->
  exists ps s', schedule_loop fuel w n (node <$> head post) s1 = Ok ((n + length ps)%nat, s') /\ good c s' L None None cs /\ result lo w (n + length ps) s s' ps.
Proof.
  intros IH HG (Ho & Hpre & Hpost) Hfuel Hb Er Hs Hgv HG1 Hn. destruct (IH n s1 (pre ++ [x]) post lo HG1) as (ps & s' & E4 & HG' & HR); [|done|rewrite Er; simpl in Hfuel; lia|].
  { split; [rewrite Er, Ho, <- app_assoc; done|]. split; [|intros e He; apply Hpost; by right].
    intros e [He| ->%list_elem_of_singleton]%elem_of_app; [eapply later_busy; [apply Hs|by apply Hpre]|done]. }
  exists ps, s'. split; [exact E4|]. split; [done|]. eapply result_skip; try done. intros j lj y Hj Hy. eapply queued_heap; try done. apply HG.
Qed.

Lemma schedule_loop_ok L cs w : forall fuel, loop_spec L cs w fuel.
Proof.
  induction fuel as [|fuel IH]; intros n s pre post lo HG Hpos Hn Hfuel.
  { destruct post as [|x post]; [|simpl in Hfuel; lia]. exists [], s. rewrite Nat.add_0_r. split; [done|]. split; [done|]. eapply sched_stop; eauto. }
  destruct post as [|x post]; [exists [], s; rewrite Nat.add_0_r; split; [done|]; split; [done|]; eapply sched_stop; eauto|].
  cbn [schedule_loop head fmap option_fmap option_map]. destruct (Nat.ltb_spec n w) as [Hlt|Hge].
  2:{ exists [], s. rewrite Nat.add_0_r. split; [done|]. split; [done|]. eapply sched_stop; eauto. left. lia. }
  destruct (position_entry s L cs pre x post lo HG Hpos) as (p & l & i & Ex & HA & Hk & Esp). pose proof HA as [A1 A2 A3]. pose proof (g_core _ _ _ _ _ _ HG) as HC.
  rewrite Esp. cbn [rbind]. rewrite (nth_lookup _ _ _ A1). cbn [rbind]. unfold get at 1. rewrite A2. cbn [deref rbind].
  assert (Eo : oldestInst x = p) by (by rewrite Ex). rewrite Eo, Z.eqb_refl. cbn [assert_ rbind]. destruct (isSquashed (base i)) eqn:Hs.
  { destruct (pop_top_ok s L None cs _ p l i pre _ post HC HA) as (r & post' & -> & HP). cbn [rbind]. rewrite Ex in Hpos, Hfuel.
    apply (loop_pop L cs w fuel s _ p l i pre _ post lo _ r post' false n IH HG HA Hpos Hfuel HP); try done; [|by eapply drop_squashed_ok|by apply gives_refl|by exists i].
    split; [done|apply later_refl|]. eauto 10. }
  destruct (issue_step_ok s L cs _ p l i pre _ post HG HA Hs Hk) as (idx & lat & s1 & -> & Hcase). cbn [rbind].
  destruct Hcase as [(-> & Hb & HG1 & Hs1 & Er & Hgv)|(Hidx & s2 & r & post' & s3 & E1 & E2 & HP & E3 & HG3 & Hs3 & Er & Hgv & Hi')].
  { simpl (negb _). cbn iota. unfold next_order. rewrite Er, Esp. cbn [rbind]. by apply (loop_skip L cs w fuel s x pre post lo s1). }
  rewrite (proj2 (Z.eqb_neq _ _)) by done. cbn [negb]. rewrite E1. cbn [rbind]. rewrite E2. cbn [rbind].
  destruct (upd_inst _ p setIssued) as [s4|]; [|discriminate E3]. cbn [rbind] in E3 |- *. rewrite E3. cbn [rbind]. rewrite Ex in Hpos, Hfuel.
  destruct (loop_pop L cs w fuel s _ p l i pre _ post lo s3 r post' true (S n) IH HG HA Hpos Hfuel HP) as (ps & s' & E4 & HG' & HR); try done.
  - split; [|done]. intros (j & Hj & Hq). congruence.
  - exists (p :: ps), s'. simpl. rewrite Nat.add_succ_r. done.
Qed.

(** ** Memory instructions that come back *)

Lemma find_deferred_ok h l : (forall p, p ∈ l -> is_Some (h !! p)) -> exists r, find_deferred h l = Ok r /\ match r with Some (p, l') => l ≡ₚ p :: l' | None => True end.
Proof.
  induction l as [|p l IH]; intros Hl; cbn [find_deferred]; [by exists None|]. destruct (Hl p) as [i ->]; [left|]. cbn [deref rbind].
  destruct (_ || _); [by exists (Some (p, l))|]. destruct IH as (r & -> & Hr); [intros q Hq; apply Hl; by right|]. cbn [rbind]. eexists. split; [done|].
  destruct r as [[q l']|]; [|done]. simpl. rewrite Hr. constructor.
Qed.

(** The queue after instructions of the lists became ready. *)
Definition refilled s (r : ReadyLists) (d b t : list Z) : IQState M := set_iq s (set_memLists (set_ready (iq s) r) d b t).

Lemma refill_step s L cs p d t : good c s L None None cs -> deferredMemInsts (iq s) ++ blockedMemInsts (iq s) ++ retryMemInsts (iq s) ≡ₚ p :: d ++ blockedMemInsts (iq s) ++ t ->
  exists r, addReadyMemInst (set_iq s (set_memLists (iq s) d (blockedMemInsts (iq s)) t)) p = Ok (refilled s r d (blockedMemInsts (iq s)) t) /\
    good c (refilled s r d (blockedMemInsts (iq s)) t) L None None cs.
Proof.
  intros [HC HU HL HF] Hp. unfold lists_ok in HL. rewrite Hp in HL. apply Forall_cons in HL as [(i & Hi & Hm & Hk & Ht) HL].
  set (s1 := set_iq s (set_memLists (iq s) d (blockedMemInsts (iq s)) t)). assert (HC1 : core_of c s1 L None None cs) by (by eapply core_iq).
  destruct (addReady_ok c s1 L None None cs p i HC1 Hi Hk Ht (or_introl Hm)) as (r & -> & HC2). exists r. split; [done|]. rewrite Hm in HC2. split; try done. by destruct HF.
Qed.

Lemma deferred_loop_ok L cs : forall fuel s, good c s L None None cs -> (length (deferredMemInsts (iq s)) <= fuel)%nat ->
  exists r d, deferred_loop fuel s = Ok (refilled s r d (blockedMemInsts (iq s)) (retryMemInsts (iq s))) /\
    good c (refilled s r d (blockedMemInsts (iq s)) (retryMemInsts (iq s))) L None None cs.
Proof.
  induction fuel as [|fuel IH]; intros s HG Hfuel.
  all: destruct (find_deferred_ok (heap s) (deferredMemInsts (iq s))) as (o & Eo & Ho);
    [intros p Hp; pose proof (g_lists _ _ _ _ _ _ HG) as HL; unfold lists_ok in HL; rewrite Forall_forall in HL; destruct (HL p) as (i & Hi & _);
      [apply elem_of_app; by left|eauto]|].
  all: cbn [deferred_loop]; unfold getDeferredMemInstToExecute; rewrite Eo; cbn [rbind].
  all: destruct o as [[p l]|]; [|exists (ready (iq s)), (deferredMemInsts (iq s)); replace (refilled _ _ _ _ _) with s by (by destruct s as [[]]); done].
  { apply Permutation_length in Ho. simpl in Ho. lia. }
  cbn [fmap option_fmap option_map]. destruct (refill_step s L cs p l (retryMemInsts (iq s)) HG) as (r & -> & HG1); [by rewrite Ho|]. cbn [rbind].
  destruct (IH _ HG1) as (r' & d & -> & HG2); [apply Permutation_length in Ho; cbn; simpl in Ho; lia|]. exists r', d. done.
Qed.

Lemma retry_loop_ok L cs : forall fuel s, good c s L None None cs -> (length (retryMemInsts (iq s)) <= fuel)%nat ->
  exists r, retry_loop fuel s = Ok (refilled s r (deferredMemInsts (iq s)) (blockedMemInsts (iq s)) []) /\
    good c (refilled s r (deferredMemInsts (iq s)) (blockedMemInsts (iq s)) []) L None None cs.
Proof.
  induction fuel as [|fuel IH]; intros s HG Hfuel; cbn [retry_loop]; unfold getBlockedMemInstToExecute; destruct (retryMemInsts (iq s)) as [|p t] eqn:Et.
  1,3: exists (ready (iq s)); replace (refilled _ _ _ _ _) with s by (destruct s as [[]]; cbn in Et; by subst); done.
  { simpl in Hfuel. lia. }
  destruct (refill_step s L cs p (deferredMemInsts (iq s)) t HG) as (r & -> & HG1).
  { rewrite Et, !app_assoc. apply Permutation_sym, Permutation_middle. }
  cbn [rbind]. destruct (IH _ HG1) as (r' & -> & HG2); [simpl in Hfuel |- *; lia|]. exists r'. done.
Qed.

(** The start of [scheduleReadyInsts]. *)
Definition refill s : res (IQState M) :=
  let! s := deferred_loop (length (deferredMemInsts (iq s))) s in retry_loop (length (retryMemInsts (iq s))) s.

Lemma refill_ok s L cs : good c s L None None cs -> exists r d, refill s = Ok (refilled s r d (blockedMemInsts (iq s)) []) /\
  good c (refilled s r d (blockedMemInsts (iq s)) []) L None None cs.
Proof.
  intros HG. unfold refill. destruct (deferred_loop_ok L cs _ s HG (le_n _)) as (r & d & -> & HG1). cbn [rbind].
  destruct (retry_loop_ok L cs _ _ HG1 (le_n _)) as (r' & -> & HG2). exists r', d. done.
Qed.

Lemma scheduleReadyInsts_ok s : iq_ok c s -> exists s0 ps s', refill s = Ok s0 /\ scheduleReadyInsts c s = Ok (length ps, s') /\ iq_ok c s' /\
  heap s0 = heap s /\ fuPool s0 = fuPool s /\ instList (iq s0) = instList (iq s) /\ gives [] s s0 /\ exists lo, result lo (totalWidth c) (length ps) s0 s' ps.
Proof.
  intros [cs HG]. destruct (refill_ok s _ cs HG) as (r & d & E1 & HG1). set (s0 := refilled s r d (blockedMemInsts (iq s)) []) in *.
  set (lo := match head (listOrder (ready (iq s0))) with Some e => oldestInst e | None => 0 end). pose proof (c_ready _ _ _ _ _ _ _ _ (g_core _ _ _ _ _ _ HG1)) as HR.
  destruct (schedule_loop_ok (instList (iq s)) cs (totalWidth c) (schedule_fuel (ready (iq s0))) 0%nat s0 [] (listOrder (ready (iq s0))) lo HG1) as (ps & s' & E2 & HG' & HR').
  - split; [done|]. split; [by intros e ?%not_elem_of_nil|]. unfold lo. pose proof (rl_order _ HR) as Ho. destruct (listOrder (ready (iq s0))) as [|e0 l0]; [by intros e ?%not_elem_of_nil|].
    apply StronglySorted_inv in Ho as [_ HF]. rewrite Forall_forall in HF. simpl. intros e [->|He]%elem_of_cons; [lia|by apply HF].
  - lia.
  - done.
  - exists s0, ps, s'. split; [done|]. split; [|split; [exists cs; by rewrite (proj1 (sd_iq _ _ (rs_sched _ _ _ _ _ _ HR')))|split_and!; try done; [by apply gives_refl|by exists lo]]].
    unfold scheduleReadyInsts. unfold refill in E1. destruct (deferred_loop _ s) as [s1|]; [|done]. cbn [rbind] in E1 |- *. rewrite E1. cbn [rbind]. exact E2.
Qed.
End Issue.
