(* ===== verification/InstQueueSquash.v ===== *)
(** * Squash of the instruction queue

    [doSquash] walks back from the youngest instruction of a thread.  The assertions on
    its way hold, every instruction it takes out gives back its entry and its places in
    the dependency graph, and the invariant holds for what is left. *)

From Stdlib Require Import ZArith Lia Bool.
From stdpp Require Import base tactics option list numbers gmap sorting.
From S2P Require Import Prelude Phast RenameMap RenameRegs FUPool DepGraph ReadyList InstQueue InstQueueInv InstQueueOps.
Open Scope Z_scope.

(** ** Lists without an element *)

Definition without (p : Z) (l : list Z) : list Z := filter (fun x => x <> p) l.

Lemma without_cons p x l : without p (x :: l) = if decide (x = p) then without p l else x :: without p l.
Proof. unfold without. rewrite filter_cons. destruct (decide (x = p)) as [->|]; [by rewrite decide_False by tauto|by rewrite decide_True]. Qed.

Lemma without_remove_first p l : without p (remove_first p l) = without p l.
Proof.
  induction l as [|x l IH]; [done|]. cbn [remove_first]. rewrite without_cons. case_bool_decide as Hx.
  - by rewrite decide_True.
  - rewrite without_cons, !decide_False by done. by rewrite IH.
Qed.

Lemma occ_remove_first p l : p ∈ l -> occ p l = S (occ p (remove_first p l)).
Proof.
  induction l as [|x l IH]; [by intros ?%not_elem_of_nil|]. intros Hp. cbn [remove_first]. rewrite occ_cons. case_bool_decide as Hx.
  - by rewrite decide_True.
  - rewrite decide_False by done. apply elem_of_cons in Hp as [->|Hp]; [done|]. rewrite occ_cons, decide_False by done. by rewrite IH.
Qed.

Lemma without_id p l : occ p l = 0%nat -> without p l = l.
Proof.
  induction l as [|x l IH]; [done|]. rewrite occ_cons, without_cons. destruct (decide (x = p)); [lia|]. intros Ho. by rewrite IH.
Qed.

Lemma elem_without p x l : x ∈ without p l <-> x <> p /\ x ∈ l.
Proof. unfold without. by rewrite list_elem_of_filter. Qed.

Lemma occ_without p x l : occ x (without p l) = if decide (x = p) then 0%nat else occ x l.
Proof.
  induction l as [|y l IH]; [by destruct (decide _)|]. rewrite without_cons, occ_cons. destruct (decide (y = p)) as [->|Hy].
  - rewrite IH. destruct (decide (x = p)) as [->|Hx]; [done|]. by rewrite decide_False by done.
  - rewrite occ_cons, IH. destruct (decide (x = p)) as [->|Hx]; [by rewrite decide_False|done].
Qed.

(** The dependents, without those of [p]. *)
Definition unlinked (p : Z) (cs cs' : list (option Z * list Z)) : Prop :=
  length cs' = length cs /\ forall n pr ch, cs !! n = Some (pr, ch) -> exists pr', cs' !! n = Some (pr', without p ch).

Lemma unlinked_back p cs cs' n pr' ch' : unlinked p cs cs' -> cs' !! n = Some (pr', ch') -> exists pr ch, cs !! n = Some (pr, ch) /\ ch' = without p ch.
Proof.
  intros [El Hc] Hn. destruct (lookup_lt_is_Some_2 cs n) as [[pr ch] Hx]; [rewrite <- El; by eapply lookup_lt_Some|]. destruct (Hc n pr ch Hx) as (pr2 & E). rewrite Hn in E.
  injection E as -> ->. eauto.
Qed.

Lemma unlinked_total p cs : forall cs' x, unlinked p cs cs' -> x <> p -> occ x (concat (map snd cs')) = occ x (concat (map snd cs)).
Proof.
  induction cs as [|[pr ch] cs IH]; intros [|[pr' ch'] cs'] x [El Hc] Hx; try done. cbn [map concat snd]. rewrite !occ_app.
  destruct (Hc 0%nat pr ch eq_refl) as (pr2 & E). injection E as -> ->. rewrite occ_without, decide_False by done. f_equal. apply IH; [|done].
  split; [by injection El|]. intros n pr3 ch3 Hn. by apply (Hc (S n) pr3 ch3).
Qed.

(** The producer of the register [n] is dropped if [n] is among the registers [W], and
    kept otherwise. *)
Definition cleared (W : Prop) (pr pr' : option Z) : Prop := (pr' = pr \/ pr' = None) /\ (W -> pr' = None) /\ (~ W -> pr' = pr).
Definition heads (W : nat -> Prop) (cs cs' : list (option Z * list Z)) : Prop :=
  forall n pr ch, cs !! n = Some (pr, ch) -> exists pr' ch', cs' !! n = Some (pr', ch') /\ cleared (W n) pr pr'.

Lemma heads_refl (W : nat -> Prop) cs : (forall n, ~ W n) -> heads W cs cs.
Proof. intros HW n pr ch Hn. exists pr, ch. split; [done|]. split; [by left|]. split; [|done]. intros Hw. by destruct (HW n). Qed.

Lemma heads_trans (W1 W2 W : nat -> Prop) cs cs1 cs2 : (forall n, W n <-> W1 n \/ W2 n) -> heads W1 cs cs1 -> heads W2 cs1 cs2 -> heads W cs cs2.
Proof.
  intros HW H1 H2 n pr ch Hn. destruct (H1 n pr ch Hn) as (pr1 & ch1 & Hn1 & A1 & A2 & A3). destruct (H2 n pr1 ch1 Hn1) as (pr2 & ch2 & Hn2 & B1 & B2 & B3).
  exists pr2, ch2. split; [done|]. split; [naive_solver|]. rewrite HW. split; [intros [Hw|Hw]; [|auto]|intros Hw; rewrite B3 by tauto; apply A3; tauto].
  destruct B1 as [->|]; auto.
Qed.

(** ** An instruction leaves *)

Lemma holders_snoc h p i l : h !! p = Some i -> holders h (l ++ [p]) = (holders h l + if holds i then 1 else 0)%nat.
Proof.
  intros Hi. unfold holders. rewrite filter_app, length_app. f_equal. rewrite filter_cons.
  assert (Eh : holding h p = holds i) by (unfold holding; by rewrite Hi).
  destruct (holds i); [by rewrite decide_True|by rewrite decide_False by congruence].
Qed.

Lemma sorted_init (a : list Z) x : StronglySorted Z.lt (a ++ [x]) -> StronglySorted Z.lt a.
Proof.
  induction a as [|y a IH]; intros Hs; [constructor|]. apply StronglySorted_inv in Hs as [Hs HF]. constructor; [auto|]. apply Forall_app in HF. by destruct HF.
Qed.

Section Leave.
Context (c : IQConfig) (h : gmap Z IQInst) (f : regfile) (q : IQ) (L : list (list Z)) (cs : list (option Z * list Z)).
Hypothesis H : core c h f q L None None cs.
(** The youngest instruction of its thread. *)
Context (p : Z) (i : IQInst) (l : list Z).
Hypothesis Hl : L !! inst_thread i = Some (l ++ [p]).
Hypothesis Hi : h !! p = Some i.
Abbreviation L' := (<[inst_thread i := l]> L).

Lemma leave_lt : (inst_thread i < length L)%nat.
Proof. by eapply lookup_lt_Some. Qed.

Lemma leave_flight_p : in_flight L p.
Proof. exists (inst_thread i), (l ++ [p]). split; [done|]. apply elem_of_app. right. by left. Qed.

(** All that is left of the thread is older. *)
Lemma leave_older x : x ∈ l -> x < p.
Proof.
  intros Hx. pose proof (c_sorted _ _ _ _ _ _ _ _ H _ _ Hl) as Hs. clear -Hs Hx. induction l as [|y l0 IH]; [by apply not_elem_of_nil in Hx|].
  apply StronglySorted_inv in Hs as [Hs HF]. rewrite Forall_forall in HF. apply elem_of_cons in Hx as [->|Hx]; [|auto]. apply HF, elem_of_app. right. by left.
Qed.

Lemma leave_flight x : in_flight L' x <-> in_flight L x /\ x <> p.
Proof.
  pose proof leave_lt as Hlt. split.
  - intros (t & l0 & Hl0 & Hx). destruct (decide (t = inst_thread i)) as [->|Hne].
    + rewrite list_lookup_insert_eq in Hl0 by done. injection Hl0 as <-. split; [exists (inst_thread i), (l ++ [p]); split; [done|]; apply elem_of_app; by left|].
      pose proof (leave_older x Hx). lia.
    + rewrite list_lookup_insert_ne in Hl0 by done. split; [by exists t, l0|]. intros ->. by rewrite (flight_thread _ _ _ _ _ _ _ _ H p i t l0 Hi Hl0 Hx) in Hne.
  - intros [(t & l0 & Hl0 & Hx) Hne]. destruct (decide (t = inst_thread i)) as [->|Ht].
    + rewrite Hl in Hl0. injection Hl0 as <-. apply elem_of_app in Hx as [Hx|Hx%list_elem_of_singleton]; [|done]. exists (inst_thread i), l. by rewrite list_lookup_insert_eq.
    + exists t, l0. by rewrite list_lookup_insert_ne.
Qed.

(** The registers that it would have written have no dependents any more. *)
Lemma leave_dests cs' r n pr ch : unlinked p cs cs' -> r ∈ dest_regs i -> isFixedMapping r = false -> flat_of f r = Some n -> cs' !! n = Some (pr, ch) -> ch = [].
Proof.
  intros Hcs Hr Hfx Hn Hc'. destruct (unlinked_back _ _ _ _ _ _ Hcs Hc') as (pr0 & ch0 & Hc & ->). destruct (without p ch0) as [|x ch1] eqn:Ew; [done|]. exfalso.
  assert (Hx : x ∈ without p ch0) by (rewrite Ew; left). apply elem_without in Hx as [Hne Hx].
  destruct (c_prod _ _ _ _ _ _ _ _ H p i r n pr0 ch0 x leave_flight_p Hi Hr Hfx Hn Hc Hx) as (j & Hj & Ht & Hlt).
  destruct (c_chain _ _ _ _ _ _ _ _ H n pr0 ch0 x Hc Hx) as ((t & lx & Hlx & Hxl) & _). pose proof (flight_thread _ _ _ _ _ _ _ _ H x j t lx Hj Hlx Hxl) as <-. rewrite Ht, Hl in Hlx.
  injection Hlx as <-. apply elem_of_app in Hxl as [Hxl|Hxl%list_elem_of_singleton]; [|done]. pose proof (leave_older x Hxl). lia.
Qed.

(** The instruction after it left, and what the counters become. *)
Context (i' : IQInst) (cs' : list (option Z * list Z)) (g' : DependencyGraph) (ns : gset Z) (ks : list Z) (n0 : Z).
Hypothesis Hi' : stat i' = stat i /\ staticInst (base i') = staticInst (base i) /\ inst_thread i' = inst_thread i.
Hypothesis Hq : isMemRef i = false -> isSquashed (base i') = false -> forall k lq, readyInsts (ready q) !! k = Some lq -> p ∉ lq.
Hypothesis Hg : rep g' cs'.
Hypothesis Hcs : unlinked p cs cs'.
Hypothesis Hns : forall x, x ∈ ns <-> x ∈ nonSpecInsts q /\ x <> p.
Hypothesis Hcount : if holds i then exists k, count q !! inst_thread i = Some k /\ ks = <[inst_thread i := k - 1]> (count q) /\ n0 = freeEntries q + 1
  else ks = count q /\ n0 = freeEntries q.

Lemma leave_holders l0 t : L' !! t = Some l0 -> holders (<[p := i']> h) l0 = holders h l0.
Proof.
  intros Hl0. apply holders_ext. intros x Hx. unfold holding. rewrite lookup_insert_ne; [done|]. intros <-.
  destruct (proj1 (leave_flight p)) as [_ Hne]; [by exists t, l0|done].
Qed.

Lemma core_leave : core c (<[p := i']> h) f (mkIQ (instList q) (instsToExecute q) (deferredMemInsts q) (blockedMemInsts q) (retryMemInsts q) (ready q) ns g' (regScoreboard q)
  ks (maxEntries q) n0 (wbOutstanding q) (squashedSeqNum q)) L' None None cs'.
Proof.
  pose proof leave_holders as Hh. pose proof leave_flight as Hfl. pose proof (holders_snoc h p i l Hi) as Hsn.
  assert (Hold : forall x, in_flight L' x -> <[p := i']> h !! x = h !! x) by (intros x [_ Hne]%Hfl; by rewrite lookup_insert_ne).
  destruct H as [C1 C2 C3 C4 C5 C6 C7 C8 C9 C10 C11 C12 C13 C14 C15 C16 C17]. destruct Hi' as (S1 & S2 & S3). destruct (kind_of i i' S1 S2) as (_ & K2 & K3 & _).
  assert (HL : forall t l0, L' !! t = Some l0 -> (t = inst_thread i /\ l0 = l) \/ (t <> inst_thread i /\ L !! t = Some l0)).
  { intros t l0 Ht. destruct (decide (t = inst_thread i)) as [->|Hne]; [left|right; by rewrite list_lookup_insert_ne in Ht].
    rewrite list_lookup_insert_eq in Ht by apply leave_lt. by injection Ht as <-. }
  assert (Hk : length ks = length (count q)) by (destruct (holds i); [destruct Hcount as (k & _ & -> & _); by rewrite length_insert|by destruct Hcount as [-> _]]).
  split; cbn [graph ready nonSpecInsts regScoreboard count freeEntries squashedSeqNum]; try done.
  - rewrite length_insert, Hk. destruct Hcs as [-> _]. done.
  - intros t l0 [[-> ->]|[_ Hl0]]%HL; [|by eapply C4]. eapply sorted_init. by eapply C4.
  - intros t l0 x Hl0 Hx. rewrite Hold by (by exists t, l0). apply HL in Hl0 as [[-> ->]|[_ Hl0]]; [|by eapply C5]. apply (C5 _ (l ++ [p])); [done|]. apply elem_of_app. by left.
  - intros t l0 Hl0. rewrite (Hh l0 t Hl0). specialize (C6 _ _ Hl) as C6p. rewrite Hsn in C6p. apply HL in Hl0 as [[-> ->]|[Hne Hl0]].
    + destruct (holds i); [destruct Hcount as (k & Hkk & -> & _)|by destruct Hcount as [-> _]; rewrite C6p, Nat.add_0_r].
      rewrite list_lookup_insert_eq by (by eapply lookup_lt_Some). rewrite C6p in Hkk. injection Hkk as <-. f_equal. lia.
    + destruct (holds i); [destruct Hcount as (k & _ & -> & _); rewrite list_lookup_insert_ne by done|destruct Hcount as [-> _]]; by apply C6.
  - destruct (holds i); [destruct Hcount as (k & Hkk & -> & ->); rewrite (sum_upd _ _ _ _ Hkk); lia|by destruct Hcount as [-> ->]].
  - intros k lq x Hlq Hx. destruct (C9 k lq x Hlq Hx) as (j & Hj & Hjk & Ht & Hf). destruct (decide (x = p)) as [->|Hne].
    + rewrite Hi in Hj. injection Hj as <-. exists i'. rewrite lookup_insert_eq, S1, S3, K3. split_and!; try done. intros Hm Hs. by destruct (Hq Hm Hs k lq Hlq).
    + exists j. rewrite lookup_insert_ne by done. split_and!; try done. intros Hm Hs. apply Hfl. auto.
  - intros x j lq Hx Hj Hm Hlq. rewrite (Hold x Hx) in Hj. apply Hfl in Hx as [Hx Hne]. destruct (C10 x j lq Hx Hj Hm Hlq) as (O1 & O2 & O3 & O4).
    assert (Hcg : can_go ns x j <-> can_go (nonSpecInsts q) x j) by (unfold can_go; destruct (in_graph j); [done|]; rewrite Hns; tauto). rewrite Hcg. done.
  - intros n pr' ch' x Hn Hx. destruct (unlinked_back _ _ _ _ _ _ Hcs Hn) as (pr & ch & Hc & ->). apply elem_without in Hx as [Hne Hx].
    destruct (C11 n pr ch x Hc Hx) as (Hf & Hj). split; [by apply Hfl|]. by rewrite lookup_insert_ne.
  - intros n pr' ch' Hn Hb. destruct (unlinked_back _ _ _ _ _ _ Hcs Hn) as (pr & ch & Hc & ->). by rewrite (C12 n pr ch Hc Hb).
  - intros x j n pr' ch' Hx Hj Hgr Hn Hb _. rewrite (Hold x Hx) in Hj. apply Hfl in Hx as [Hx Hne]. destruct (unlinked_back _ _ _ _ _ _ Hcs Hn) as (pr & ch & Hc & ->).
    rewrite occ_without, decide_False by done. by apply (C13 x j n pr ch).
  - intros x j Hx Hj Hgr. rewrite (Hold x Hx) in Hj. apply Hfl in Hx as [Hx Hne]. rewrite (unlinked_total p cs cs') by done. by apply C14.
  - intros x j Hx Hj. rewrite (Hold x Hx) in Hj. apply Hfl in Hx as [Hx Hne]. by eapply C15.
  - intros d j r n pr' ch' x Hd Hj Hr Hfx Hn Hc' Hx. rewrite (Hold d Hd) in Hj. apply Hfl in Hd as [Hd Hne]. destruct (unlinked_back _ _ _ _ _ _ Hcs Hc') as (pr & ch & Hc & ->).
    apply elem_without in Hx as [Hne2 Hx]. rewrite lookup_insert_ne by done. by eapply C16.
  - intros x [Hx Hne]%Hns. destruct (C17 x Hx) as (Hf & Hj). split; [by apply Hfl|]. by rewrite lookup_insert_ne.
Qed.
End Leave.

Section Squash.
Context {M E : Type} `{MemDepLaws M E} (c : IQConfig).
Hypothesis Hcfg : 0 <= numEntries c < 2 ^ 31.
Implicit Type s : IQState M.

(** ** The loops over the registers *)

Lemma unlink_loop_ok p i : forall srcs k s cs, drop k (src_regs i) = srcs -> length (src_ready i) = length (src_regs i) -> rep (graph (iq s)) cs ->
  Forall (fun r => isFixedMapping r = false -> exists n, flat_of (file s) r = Some n /\ (n < length cs)%nat) srcs ->
  (forall n pr ch, cs !! n = Some (pr, ch) -> ch = [] \/ occ p ch = pend (file s) n (drop k (sources i))) ->
  exists g cs', unlink_loop p i k srcs s = Ok (set_iq s (set_graph (iq s) g)) /\ rep g cs' /\ unlinked p cs cs' /\ heads (fun _ => False) cs cs'.
Proof.
  induction srcs as [|r srcs IH]; intros k s cs Hd Hlen Hrep Hflat Hocc; cbn [unlink_loop].
  { exists (graph (iq s)), cs. split; [by destruct s as [[]]|]. split; [done|]. split; [|by apply heads_refl; auto]. split; [done|]. intros n pr ch Hn. exists pr. rewrite Hn. repeat f_equal. symmetry. apply without_id.
    destruct (Hocc n pr ch Hn) as [->|Ho]; [done|]. rewrite Ho. rewrite drop_ge; [done|]. unfold sources. rewrite length_zip_with, Hlen, Nat.min_id.
    apply (f_equal length) in Hd. rewrite length_drop in Hd. cbn [length] in Hd. lia. }
  assert (Hr : src_regs i !! k = Some r) by (rewrite <- (Nat.add_0_r k), <- lookup_drop, Hd; done).
  assert (Hds : drop (S k) (src_regs i) = srcs) by (rewrite (drop_S _ _ _ Hr) in Hd; by injection Hd).
  destruct (lookup_lt_is_Some_2 (src_ready i) k) as [b Hb]; [rewrite Hlen; by eapply lookup_lt_Some|]. rewrite (nth_lookup _ _ _ Hb). cbn [rbind].
  rewrite (sources_drop i k r b Hr Hb) in Hocc. apply Forall_cons in Hflat as [Hfr Hflat]. setoid_rewrite pend_cons in Hocc.
  destruct (decide (b = false /\ isFixedMapping r = false)) as [[-> Hfx]|Hno].
  2:{ assert (Eb : negb b && negb (isFixedMapping r) = false) by (destruct b, (isFixedMapping r); naive_solver). rewrite Eb. cbn [rbind]. apply IH; try done.
      intros n pr ch Hn. specialize (Hocc n pr ch Hn). rewrite decide_False in Hocc by tauto. exact Hocc. }
  rewrite Hfx. cbn [negb andb]. destruct (Hfr Hfx) as (n0 & Hn0 & Hlt).
  assert (Ef : flat s r = Ok n0) by (unfold flat, flat_of in *; destruct (file s !! r); [|done]; simpl in *; congruence). rewrite Ef. cbn [rbind].
  destruct (lookup_lt_is_Some_2 cs n0 Hlt) as [[pr0 ch0] Hc0]. pose proof (Hocc n0 pr0 ch0 Hc0) as Ho0. rewrite decide_True in Ho0 by done.
  destruct (remove_rep _ _ n0 pr0 ch0 Hrep Hc0 p) as (g1 & -> & Hrep1). { destruct Ho0 as [->|Ho0]; [by left|right]. apply occ_elem. lia. }
  cbn [rbind]. destruct (IH (S k) (set_iq s (set_graph (iq s) g1)) (<[n0 := (pr0, remove_first p ch0)]> cs)) as (g & cs' & E1 & R1 & [R2 R3] & R4); try done.
  - by rewrite length_insert.
  - intros n pr ch Hn. destruct (decide (n = n0)) as [->|Hne].
    + rewrite list_lookup_insert_eq in Hn by done. injection Hn as <- <-. destruct Ho0 as [->|Ho0]; [by left|right]. rewrite occ_remove_first in Ho0; [|apply occ_elem; lia].
      cbn [set_iq file]. lia.
    + rewrite list_lookup_insert_ne in Hn by done. destruct (Hocc n pr ch Hn) as [->|Ho]; [by left|right]. rewrite decide_False in Ho by (intros (_ & _ & ?); congruence). exact Ho.
  - exists g, cs'. rewrite E1. split; [done|]. split; [done|]. rewrite length_insert in R2. split.
    2:{ intros n pr ch Hn. destruct (decide (n = n0)) as [->|Hne]; [|apply (R4 n pr ch); by rewrite list_lookup_insert_ne]. rewrite Hc0 in Hn. injection Hn as <- <-.
        apply (R4 n0 pr0 (remove_first p ch0)). by apply list_lookup_insert_eq. }
    split; [done|]. intros n pr ch Hn. destruct (decide (n = n0)) as [->|Hne].
    + rewrite Hc0 in Hn. injection Hn as <- <-. destruct (R3 n0 pr0 (remove_first p ch0)) as (pr' & E2); [by apply list_lookup_insert_eq|]. rewrite without_remove_first in E2. eauto.
    + apply (R3 n pr ch). by rewrite list_lookup_insert_ne.
Qed.

Lemma clear_heads_ok : forall rs s cs, rep (graph (iq s)) cs -> Forall (fun r => isFixedMapping r = false -> exists n, flat_of (file s) r = Some n /\ (n < length cs)%nat) rs ->
  (forall n pr ch, writes (file s) rs n -> cs !! n = Some (pr, ch) -> ch = []) ->
  exists g cs', clear_heads rs s = Ok (set_iq s (set_graph (iq s) g)) /\ rep g cs' /\ length cs' = length cs /\
    heads (writes (file s) rs) cs cs' /\ forall n pr ch, cs !! n = Some (pr, ch) -> exists pr', cs' !! n = Some (pr', ch).
Proof.
  induction rs as [|r rs IH]; intros s cs Hrep Hflat Hemp; cbn [clear_heads].
  { exists (graph (iq s)), cs. split; [by destruct s as [[]]|]. split_and!; try done; [|eauto]. apply heads_refl. by intros n (r & ?%not_elem_of_nil & _). }
  apply Forall_cons in Hflat as [Hfr Hflat]. destruct (isFixedMapping r) eqn:Hfx; cbn [rbind].
  { destruct (IH s cs) as (g & cs' & E1 & R1 & R2 & R3 & R4); try done; [intros n pr ch Hw; apply Hemp; rewrite writes_cons; by right|].
    exists g, cs'. split_and!; try done. eapply (heads_trans (fun _ => False)); [|apply heads_refl; auto|exact R3]. intros n. rewrite writes_cons. naive_solver congruence. }
  destruct (Hfr eq_refl) as (n0 & Hn0 & Hlt). assert (Ef : flat s r = Ok n0) by (unfold flat, flat_of in *; destruct (file s !! r); [|done]; simpl in *; congruence).
  rewrite Ef. cbn [rbind]. destruct (lookup_lt_is_Some_2 cs n0 Hlt) as [[pr0 ch0] Hc0].
  assert (ch0 = []) as -> by (apply (Hemp n0 pr0); [rewrite writes_cons; by left|done]). rewrite (empty_at_rep _ _ _ _ _ Hrep Hc0). cbn [rbind].
  rewrite bool_decide_eq_true_2 by done. cbn [assert_ rbind]. destruct (clearInst_rep _ _ _ _ _ Hrep Hc0) as (g1 & -> & Hrep1). cbn [rbind].
  destruct (IH (set_iq s (set_graph (iq s) g1)) (<[n0 := (None, [])]> cs)) as (g & cs' & E1 & R1 & R2 & Rh & R3); try done.
  - by rewrite length_insert.
  - intros n pr ch Hn Hc. destruct (decide (n = n0)) as [->|Hne]; [rewrite list_lookup_insert_eq in Hc by done; by injection Hc as _ <-|].
    rewrite list_lookup_insert_ne in Hc by done. apply (Hemp n pr); [rewrite writes_cons; by right|done].
  - exists g, cs'. rewrite E1. rewrite length_insert in R2. split_and!; try done.
    { eapply (heads_trans (fun n => n = n0)); [|  |exact Rh].
      - intros n. rewrite writes_cons. cbn [set_iq file]. naive_solver congruence.
      - intros n pr ch Hn. destruct (decide (n = n0)) as [->|Hne].
        + exists None, []. rewrite list_lookup_insert_eq by done. split; [done|]. split; [by right|]. by split.
        + exists pr, ch. rewrite list_lookup_insert_ne by done. split; [done|]. split; [by left|]. by split. }
    intros n pr ch Hn. destruct (decide (n = n0)) as [->|Hne].
    + rewrite Hc0 in Hn. injection Hn as <- <-. apply (R3 n0 None). by apply list_lookup_insert_eq.
    + apply (R3 n pr). by rewrite list_lookup_insert_ne.
Qed.

(** ** One instruction *)

(** What the other stages guarantee of an instruction that is squashed: one that had to
    wait for commit has not been released, unless it has a fault, and one that is
    complete does not wait for it. *)
Definition leave_ok (ns : gset Z) (p : Z) (i : IQInst) : Prop := in_graph i = false ->
  (isMemRef i = false -> Issued (flags i) = false -> p ∉ ns -> hasFault i = true) /\
  (isStoreConditional (staticInst (base i)) = true -> Completed (flags i) = true -> p ∉ ns).

Definition squashed_inst (i : IQInst) : IQInst := if holds i then clearInIQ (setCanCommit (setIssued (setSquashedInIQ i))) else i.

(** The state after instructions have left. *)
Definition left_by s (h : gmap Z IQInst) (g : DependencyGraph) (ns : gset Z) (ks : list Z) (n : Z) : IQState M :=
  set_heap (set_iq s (set_counts (set_nonSpec (set_graph (iq s) g) ns) ks n)) h.

Lemma holds_squash f i : inst_ok f i -> negb (Issued (flags i)) || (isMemRef i && negb (MemOpDone (flags i))) = holds i.
Proof.
  intros Hok. destruct (io_flags _ _ Hok) as [_ Hd]. unfold holds. destruct (isMemRef i); [|by rewrite andb_false_l, orb_false_r].
  destruct (MemOpDone (flags i)); [by rewrite Hd|]. by destruct (Issued (flags i)).
Qed.

Lemma squashed_inst_props i : stat (squashed_inst i) = stat i /\ staticInst (base (squashed_inst i)) = staticInst (base i) /\
  inst_thread (squashed_inst i) = inst_thread i /\ MemOpDone (flags (squashed_inst i)) = MemOpDone (flags i) /\ (holds i = true -> isSquashed (base (squashed_inst i)) = true).
Proof. unfold squashed_inst. destruct (holds i); by repeat split. Qed.

Section One.
Context s (L : list (list Z)) (cs : list (option Z * list Z)) (p : Z) (i : IQInst) (l : list Z).
Hypothesis HC : core_of c s L None None cs.
Hypothesis Hl : L !! inst_thread i = Some (l ++ [p]).
Hypothesis Hi : heap s !! p = Some i.
Hypothesis Henv : leave_ok (nonSpecInsts (iq s)) p i.

Lemma one_ok : inst_ok (file s) i.
Proof.
  destruct (c_own _ _ _ _ _ _ _ _ HC _ _ p Hl) as (j & Hj & _ & Hok); [apply elem_of_app; right; by left|]. rewrite Hi in Hj. by injection Hj as <-.
Qed.

(** The places where the instruction waited. *)
Lemma unlink_ok : holds i = true -> exists g cs' ns, (if in_graph i then unlink_loop p i 0 (src_regs i) s
    else if negb (isStoreConditional (staticInst (base i))) || negb (Completed (flags i)) then
      if bool_decide (p ∈ nonSpecInsts (iq s)) then Ok (set_iq s (set_nonSpec (iq s) (nonSpecInsts (iq s) ∖ {[p]})))
      else check! hasFault i || isMemRef i; Ok s
    else Ok s) = Ok (set_iq s (set_nonSpec (set_graph (iq s) g) ns)) /\ rep g cs' /\ unlinked p cs cs' /\ heads (fun _ => False) cs cs' /\ forall x, x ∈ ns <-> x ∈ nonSpecInsts (iq s) /\ x <> p.
Proof.
  intros Hh. pose proof one_ok as Hok. pose proof (leave_flight_p L p i l Hl) as Hf. destruct (in_graph i) eqn:Hg.
  - destruct Hok as [(I1 & I2 & I3) _ I6 _ _ _]. destruct (c_lens _ _ _ _ _ _ _ _ HC) as (_ & _ & _ & L4 & L5).
    destruct (unlink_loop_ok p i (src_regs i) 0 s cs) as (g & cs' & E1 & R1 & R2 & R3); try done; [congruence|apply HC| | |].
    + apply Forall_forall. intros r Hr Hfx. rewrite Forall_forall in I6.
      destruct (flat_lookup c _ _ _ _ _ _ _ r HC (I6 r ltac:(apply elem_of_app; by left)) Hfx) as (n & pr & ch & Hn & Hlt & _). rewrite L5. eauto.
    + intros n pr ch Hn. destruct (lookup_lt_is_Some_2 (regScoreboard (iq s)) n) as [[] Hb]; [rewrite L4, <- L5; by eapply lookup_lt_Some| |].
      * left. by eapply (c_board _ _ _ _ _ _ _ _ HC).
      * right. by rewrite (c_wait _ _ _ _ _ _ _ _ HC p i n pr ch Hf Hi Hg Hn Hb).
    + exists g, cs', (nonSpecInsts (iq s)). rewrite E1. split; [by destruct s as [[]]|]. split_and!; try done. intros x. split; [|tauto]. intros Hx. split; [done|]. intros ->.
      destruct (c_spec _ _ _ _ _ _ _ _ HC p Hx) as (_ & j & Hj & Hgj & _). congruence.
  - destruct (Henv Hg) as [He1 He2]. assert (Hun : unlinked p cs cs).
    { split; [done|]. intros n pr ch Hn. exists pr. rewrite without_id; [done|]. destruct (decide (p ∈ ch)) as [Hp|Hp]; [|rewrite occ_elem in Hp; lia].
      destruct (c_chain _ _ _ _ _ _ _ _ HC n pr ch p Hn Hp) as (_ & j & Hj & Hgj & _). congruence. }
    assert (Hid : p ∉ nonSpecInsts (iq s) -> Ok s = Ok (set_iq s (set_nonSpec (set_graph (iq s) (graph (iq s))) (nonSpecInsts (iq s)))) /\ rep (graph (iq s)) cs /\ unlinked p cs cs /\
      heads (fun _ => False) cs cs /\ forall x, x ∈ nonSpecInsts (iq s) <-> x ∈ nonSpecInsts (iq s) /\ x <> p).
    { intros Hp. split; [by destruct s as [[]]|]. split; [apply HC|]. split; [done|]. split; [apply heads_refl; auto|]. intros x. split; [|tauto]. intros Hx. split; [done|]. congruence. }
    destruct (_ || _) eqn:Eb.
    + case_bool_decide as Hp.
      * exists (graph (iq s)), cs, (nonSpecInsts (iq s) ∖ {[p]}). split; [by destruct s as [[]]|]. split; [apply HC|]. split; [done|]. split; [apply heads_refl; auto|]. intros x.
        by rewrite elem_of_difference, elem_of_singleton.
      * assert (Hc : hasFault i || isMemRef i = true).
        { destruct (isMemRef i) eqn:Em; [apply orb_true_r|]. rewrite He1; try done. unfold holds in Hh. rewrite Em in Hh. by destruct (Issued (flags i)). }
        rewrite Hc. cbn [assert_ rbind]. by exists (graph (iq s)), cs, (nonSpecInsts (iq s)); apply Hid.
    + apply orb_false_iff in Eb as [B1 B2]. apply negb_false_iff in B1, B2. exists (graph (iq s)), cs, (nonSpecInsts (iq s)). apply Hid. by apply He2.
Qed.

(** Up to the loop over the destinations. *)
Lemma squash_front_ok : exists g cs' ns ks n,
  (if negb (Issued (flags i)) || (isMemRef i && negb (MemOpDone (flags i))) then
      let! s := (if in_graph i then unlink_loop p i 0 (src_regs i) s
        else if negb (isStoreConditional (staticInst (base i))) || negb (Completed (flags i)) then
          if bool_decide (p ∈ nonSpecInsts (iq s)) then Ok (set_iq s (set_nonSpec (iq s) (nonSpecInsts (iq s) ∖ {[p]})))
          else check! hasFault i || isMemRef i; Ok s
        else Ok s) in
      let! s := upd_inst s p (fun i => clearInIQ (setCanCommit (setIssued (setSquashedInIQ i)))) in
      let! q := move_entry (inst_thread i) (-1) (iq s) in Ok (set_iq s q)
    else Ok s) = Ok (left_by s (<[p := squashed_inst i]> (heap s)) g ns ks n) /\ rep g cs' /\ unlinked p cs cs' /\ heads (fun _ => False) cs cs' /\
  (forall x, x ∈ ns <-> x ∈ nonSpecInsts (iq s) /\ x <> p) /\
  (if holds i then exists k, count (iq s) !! inst_thread i = Some k /\ ks = <[inst_thread i := k - 1]> (count (iq s)) /\ n = freeEntries (iq s) + 1
   else ks = count (iq s) /\ n = freeEntries (iq s)).
Proof.
  pose proof one_ok as Hok. rewrite (holds_squash _ _ Hok). unfold squashed_inst. destruct (holds i) eqn:Hh.
  - destruct (unlink_ok Hh) as (g & cs' & ns & -> & R1 & R2 & Rh & R3). cbn [rbind]. unfold upd_inst, get. cbn [set_iq heap]. rewrite Hi. cbn [deref rbind].
    pose proof (c_count _ _ _ _ _ _ _ _ HC _ _ Hl) as Hk. rewrite (holders_snoc (heap s) p i l Hi), Hh in Hk.
    rewrite (release_entry c _ _ _ _ _ _ _ HC Hcfg _ (inst_thread i) (Z.of_nat (holders (heap s) l + 1))); [|done|done|exact Hk|lia]. cbn [rbind].
    exists g, cs', ns. eexists _, _. split; [reflexivity|]. split_and!; try done. eauto.
  - exists (graph (iq s)), cs, (nonSpecInsts (iq s)), (count (iq s)), (freeEntries (iq s)). split; [unfold left_by; rewrite insert_id by done; by destruct s as [[]]|].
    split; [apply HC|]. split; [|split; [apply heads_refl; auto|split; [|done]]].
    + split; [done|]. intros n pr ch Hn. exists pr. rewrite without_id; [done|]. destruct (decide (p ∈ ch)) as [Hp|Hp]; [|rewrite occ_elem in Hp; lia].
      destruct (c_chain _ _ _ _ _ _ _ _ HC n pr ch p Hn Hp) as (_ & j & Hj & _ & Hhj). congruence.
    + intros x. split; [|tauto]. intros Hx. split; [done|]. intros ->. destruct (c_spec _ _ _ _ _ _ _ _ HC p Hx) as (_ & j & Hj & _ & Hhj). congruence.
Qed.

Lemma iq_squash_inst_ok : exists g cs' ns ks n, let s' := left_by s (<[p := squashed_inst i]> (heap s)) g ns ks n in
  squash_inst p i s = Ok s' /\ core_of c s' (<[inst_thread i := l]> L) None None cs' /\ unlinked p cs cs' /\ heads (writes (file s) (dest_regs i)) cs cs' /\
  (forall x, x ∈ ns <-> x ∈ nonSpecInsts (iq s) /\ x <> p) /\ n = freeEntries (iq s) + (if holds i then 1 else 0).
Proof.
  pose proof one_ok as Hok. destruct squash_front_ok as (g1 & cs1 & ns & ks & n & E1 & R1 & R2 & Rh & R3 & R4). unfold squash_inst. rewrite E1. cbn [rbind].
  destruct (c_lens _ _ _ _ _ _ _ _ HC) as (_ & _ & _ & L4 & L5). set (s1 := left_by s _ g1 ns ks n).
  destruct (clear_heads_ok (dest_regs i) s1 cs1) as (g2 & cs2 & E2 & Q1 & Q2 & Qh & Q3); [done| | |].
  - apply Forall_forall. intros r Hr Hfx. pose proof (io_regs _ _ Hok) as Hreg. rewrite Forall_forall in Hreg.
    destruct (flat_lookup c _ _ _ _ _ _ _ r HC (Hreg r ltac:(apply elem_of_app; by right)) Hfx) as (m & pr & ch & Hn & Hlt & _). rewrite (proj1 R2), L5. eauto.
  - intros m pr ch (r & Hr & Hfx & Hn) Hc. by apply (leave_dests c _ _ _ L cs HC p i l Hl Hi cs1 r m pr ch R2).
  - exists g2, cs2, ns, ks, n. cbv zeta. assert (Hun : unlinked p cs cs2).
    { split; [by rewrite Q2, (proj1 R2)|]. intros m pr ch Hm. destruct (proj2 R2 m pr ch Hm) as (pr1 & Hm1). by apply (Q3 m pr1). }
    destruct (squashed_inst_props i) as (S1 & S2 & S3 & S4 & S5).
    assert (Hhd : heads (writes (file s) (dest_regs i)) cs cs2) by (eapply (heads_trans (fun _ => False)); [|exact Rh|exact Qh]; intros m; cbn; tauto).
    split_and!; try done.
    + unfold core_of. cbn [left_by set_heap heap file set_iq iq]. eapply core_iq; [eapply (core_leave c (heap s) (file s) (iq s) L cs HC p i l Hl Hi (squashed_inst i) cs2 g2 ns ks n); try done|done..].
      intros Hm Hs k lq Hlq Hp. destruct (holds i) eqn:Hh; [rewrite S5 in Hs by done; done|]. destruct (c_queue _ _ _ _ _ _ _ _ HC k lq p Hlq Hp) as (j & Hj & Hjk & _). rewrite Hi in Hj. injection Hj as <-.
      destruct (c_once _ _ _ _ _ _ _ _ HC p i lq (leave_flight_p L p i l Hl) Hi Hm) as (_ & Hgo & _); [by rewrite Hjk|]. destruct (Hgo Hp) as [Hiss _].
      unfold holds in Hh. rewrite Hm, Hiss in Hh. done.
    + destruct (holds i); [destruct R4 as (k & _ & _ & ->); done|]. destruct R4 as [_ ->]. lia.
Qed.
End One.

(** ** The whole list *)

(** What the squash of the younger ones among [l] leaves of instructions, of the set of
    non-speculative ones and of the dependents. *)
Definition killed (l : list Z) (sn : Z) s (n : nat) : Prop :=
  exists x i, x ∈ l /\ sn < x /\ heap s !! x = Some i /\ writes (file s) (dest_regs i) n.

Record squash_effect (l : list Z) (sn : Z) s (cs : list (option Z * list Z)) (h : gmap Z IQInst) (ns : gset Z) (cs' : list (option Z * list Z)) : Prop := {
  se_heap : forall x, h !! x = if decide (x ∈ l /\ sn < x) then squashed_inst <$> heap s !! x else heap s !! x;
  se_spec : forall x, x ∈ ns <-> x ∈ nonSpecInsts (iq s) /\ ~ (x ∈ l /\ sn < x);
  se_len : length cs' = length cs;
  se_chain : forall n pr ch, cs !! n = Some (pr, ch) -> exists pr', cs' !! n = Some (pr', filter (fun x => ~ (x ∈ l /\ sn < x)) ch);
  se_heads : heads (killed l sn s) cs cs'
}.

Lemma effect_nil l sn s cs : (forall x, x ∈ l -> x <= sn) -> squash_effect l sn s cs (heap s) (nonSpecInsts (iq s)) cs.
Proof.
  intros Hl. assert (Hno : forall x, ~ (x ∈ l /\ sn < x)) by (intros x [Hx ?]; specialize (Hl x Hx); lia). split; [|intros x; specialize (Hno x); tauto|done| |].
  - intros x. by rewrite decide_False.
  - intros n pr ch Hn. exists pr. rewrite Hn. repeat f_equal. clear -Hno. induction ch as [|x ch IH]; [done|]. rewrite filter_cons, decide_True by done. by rewrite <- IH.
  - apply heads_refl. intros n (x & _ & Hx & Hlt & _). by destruct (Hno x).
Qed.

Lemma effect_cons p l sn s cs i g1 cs1 ns1 ks1 n1 h ns cs' : sn < p -> p ∉ l -> heap s !! p = Some i -> unlinked p cs cs1 -> heads (writes (file s) (dest_regs i)) cs cs1 ->
  (forall x, x ∈ ns1 <-> x ∈ nonSpecInsts (iq s) /\ x <> p) ->
  squash_effect l sn (left_by s (<[p := squashed_inst i]> (heap s)) g1 ns1 ks1 n1) cs1 h ns cs' -> squash_effect (p :: l) sn s cs h ns cs'.
Proof.
  intros Hlt Hp Hi [Hun1 Hun2] Hhd Hns [E1 E2 E3 E4 E5]. cbn in E1, E2.
  assert (Hcons : forall x, (x ∈ p :: l /\ sn < x) <-> x = p \/ (x ∈ l /\ sn < x)) by (intros x; rewrite elem_of_cons; naive_solver). split.
  - intros x. rewrite E1. destruct (decide (x = p)) as [->|Hne].
    + rewrite decide_False by tauto. rewrite decide_True by (apply Hcons; by left). by rewrite lookup_insert_eq, Hi.
    + rewrite lookup_insert_ne by done. destruct (decide (x ∈ l /\ sn < x)) as [Hx|Hx]; [rewrite decide_True by (apply Hcons; by right); done|].
      rewrite decide_False; [done|]. rewrite Hcons. tauto.
  - intros x. rewrite E2, Hns, Hcons. tauto.
  - congruence.
  - intros n pr ch Hn. destruct (Hun2 n pr ch Hn) as (pr1 & Hn1). destruct (E4 n pr1 _ Hn1) as (pr' & Hn'). exists pr'. rewrite Hn'. repeat f_equal.
    unfold without. rewrite list_filter_filter. apply list_filter_iff. intros x. rewrite Hcons. tauto.
  - eapply heads_trans; [|exact Hhd|exact E5]. intros n. split.
    + intros (x & j & Hx & Hlx & Hj & Hw). apply elem_of_cons in Hx as [->|Hx]; [left; congruence|right]. exists x, j. split_and!; try done.
      cbn. rewrite lookup_insert_ne; [done|]. by intros ->.
    + intros [Hw|(x & j & Hx & Hlx & Hj & Hw)]; [exists p, i; split_and!; try done; left|]. exists x, j. cbn in Hj. rewrite lookup_insert_ne in Hj by (by intros ->).
      split_and!; try done. by right.
Qed.

Lemma leave_ok_other ns ns1 p x i : (forall y, y ∈ ns1 <-> y ∈ ns /\ y <> p) -> x <> p -> leave_ok ns x i -> leave_ok ns1 x i.
Proof. intros Hns Hne He Hg. destruct (He Hg) as [H1 H2]. split; intros; [apply H1|rewrite Hns; intros [? _]; by apply H2]; try done. rewrite Hns in *. tauto. Qed.

Lemma filter_le_id sn (l : list Z) : (forall x, x ∈ l -> x <= sn) -> filter (fun x => x <= sn) l = l.
Proof. induction l as [|x l IH]; intros Hl; [done|]. rewrite filter_cons, decide_True by (apply Hl; left). f_equal. apply IH. intros y Hy. apply Hl. by right. Qed.

Lemma iq_squash_loop_ok t sn : forall rl s L cs, core_of c s L None None cs -> L !! t = Some (reverse rl) ->
  (forall p i, p ∈ rl -> sn < p -> heap s !! p = Some i -> leave_ok (nonSpecInsts (iq s)) p i) ->
  exists h g ns ks n cs', let s' := left_by s h g ns ks n in let l' := filter (fun x => x <= sn) (reverse rl) in
  squash_loop t sn rl [] s = Ok (l', s') /\ core_of c s' (<[t := l']> L) None None cs' /\ squash_effect rl sn s cs h ns cs'.
Proof.
  induction rl as [|p rl IH]; intros s L cs HC Hl Henv; cbn [squash_loop].
  { exists (heap s), (graph (iq s)), (nonSpecInsts (iq s)), (count (iq s)), (freeEntries (iq s)), cs. cbv zeta. change (filter (fun x => x <= sn) (reverse [])) with (@nil Z).
    assert (Es : left_by s (heap s) (graph (iq s)) (nonSpecInsts (iq s)) (count (iq s)) (freeEntries (iq s)) = s) by (by destruct s as [[]]). rewrite Es.
    split; [done|]. rewrite list_insert_id by done. split; [done|]. apply effect_nil. by intros x ?%not_elem_of_nil. }
  pose proof Hl as Hl0. rewrite reverse_cons in Hl. destruct (c_own _ _ _ _ _ _ _ _ HC t _ p Hl) as (i & Hi & Ht & Hok); [apply elem_of_app; right; by left|]. subst t.
  pose proof (leave_older c _ _ _ L cs HC p i (reverse rl) Hl) as Hold. destruct (Z.ltb_spec sn p) as [Hlt|Hge].
  - unfold get. rewrite Hi. cbn [deref rbind]. rewrite Nat.eqb_refl, (proj1 (io_flags _ _ Hok)). cbn [negb orb].
    destruct (iq_squash_inst_ok s L cs p i (reverse rl) HC Hl Hi) as (g1 & cs1 & ns1 & ks1 & n1 & -> & HC1 & Hun & Hhd & Hns & _); [apply Henv; [left|done|done]|]. cbn [rbind].
    assert (Hp : p ∉ rl). { intros Hin. assert (p < p); [|lia]. apply Hold. by apply elem_of_reverse. }
    destruct (IH _ (<[inst_thread i := reverse rl]> L) cs1 HC1) as (h & g & ns & ks & n & cs' & E1 & HC' & He).
    + apply list_lookup_insert_eq. by eapply lookup_lt_Some.
    + intros x j Hx Hsx Hj. cbn in Hj. assert (x <> p) as Hne by (intros ->; done). rewrite lookup_insert_ne in Hj by done.
      apply (leave_ok_other (nonSpecInsts (iq s)) _ p); [exact Hns|done|]. apply Henv; [by right|done|done].
    + exists h, g, ns, ks, n, cs'. cbv zeta in *. rewrite reverse_cons, filter_app. rewrite (filter_cons_False _ p) by lia. rewrite app_nil_r. rewrite E1. split; [done|].
      rewrite list_insert_insert_eq in HC'. split; [exact HC'|]. by eapply effect_cons.
  - assert (Hall : forall x, x ∈ reverse (p :: rl) -> x <= sn).
    { intros x. rewrite reverse_cons. intros [Hx|Hx%list_elem_of_singleton]%elem_of_app; [specialize (Hold x Hx); lia|lia]. }
    exists (heap s), (graph (iq s)), (nonSpecInsts (iq s)), (count (iq s)), (freeEntries (iq s)), cs. cbv zeta. rewrite (filter_le_id sn _ Hall), app_nil_r.
    assert (Es : left_by s (heap s) (graph (iq s)) (nonSpecInsts (iq s)) (count (iq s)) (freeEntries (iq s)) = s) by (by destruct s as [[]]). rewrite Es.
    split; [done|]. rewrite list_insert_id by done. split; [done|]. apply effect_nil. intros x Hx. apply Hall. by apply elem_of_reverse.
Qed.

Lemma effect_perm l l' sn s cs h ns cs' : (forall x, x ∈ l <-> x ∈ l') -> squash_effect l sn s cs h ns cs' -> squash_effect l' sn s cs h ns cs'.
Proof.
  intros El [E1 E2 E3 E4 E5]. split; [|intros x; by rewrite E2, El|done| |].
  - intros x. rewrite E1. destruct (decide (x ∈ l /\ sn < x)), (decide (x ∈ l' /\ sn < x)); try done; rewrite El in *; tauto.
  - intros n pr ch Hn. destruct (E4 n pr ch Hn) as (pr' & ->). exists pr'. repeat f_equal. apply list_filter_iff. intros x. by rewrite El.
  - eapply (heads_trans (killed l sn s) (fun _ => False)); [|exact E5|apply heads_refl; auto]. intros n. unfold killed. setoid_rewrite El. tauto.
Qed.

(** Squashed instructions are the same for the rest of the queue. *)
Lemma effect_alike l sn s cs h ns cs' : squash_effect l sn s cs h ns cs' -> alike (heap s) h.
Proof.
  intros [E1 _ _ _ _] x i Hx. specialize (E1 x). rewrite Hx in E1. destruct (decide _); [|eauto 10]. simpl in E1. exists (squashed_inst i).
  destruct (squashed_inst_props i) as (S1 & S2 & S3 & S4 & _). done.
Qed.

Lemma squash_op_ok s tid sn l : iq_ok c s -> instList (iq s) !! tid = Some l ->
  (forall p i, p ∈ l -> sn < p -> heap s !! p = Some i -> leave_ok (nonSpecInsts (iq s)) p i) ->
  exists s' cs cs', squash tid sn s = Ok s' /\ iq_ok c s' /\ instList (iq s') = <[tid := filter (fun x => x <= sn) l]> (instList (iq s)) /\
    rep (graph (iq s)) cs /\ rep (graph (iq s')) cs' /\ squash_effect l sn s cs (heap s') (nonSpecInsts (iq s')) cs'.
Proof.
  intros [cs HG] Hl Henv. pose proof HG as [HC HU HL HF]. destruct (c_lens _ _ _ _ _ _ _ _ HC) as (L1 & L2 & L3 & L4 & L5).
  pose proof (lookup_lt_Some _ _ _ Hl) as Hlt. unfold squash. rewrite upd_Ok by lia. cbn [rbind]. unfold doSquash. cbn [set_iq set_squashed iq squashedSeqNum].
  rewrite (nth_lookup _ _ sn) by (apply list_lookup_insert_eq; lia). cbn [rbind set_history iq]. cbn [set_iq set_squashed iq instList].
  rewrite (nth_lookup _ _ _ Hl). cbn [rbind].
  set (s1 := set_history (set_iq s (set_squashed (iq s) (<[tid := sn]> (squashedSeqNum (iq s))))) _).
  assert (HC1 : core_of c s1 (instList (iq s)) None None cs).
  { unfold core_of, s1. cbn [set_history set_iq heap file iq]. destruct HC as [C1 C2 C3 C4 C5 C6 C7 C8 C9 C10 C11 C12 C13 C14 C15 C16 C17]. split; try done. cbn [set_squashed squashedSeqNum count regScoreboard].
    by rewrite length_insert. }
  destruct (iq_squash_loop_ok tid sn (reverse l) s1 (instList (iq s)) cs HC1) as (h & g & ns & ks & n & cs' & E1 & HC2 & He); [by rewrite reverse_involutive| |].
  { intros p i Hp. rewrite elem_of_reverse in Hp. by apply Henv. }
  rewrite reverse_involutive in E1, HC2. rewrite E1. cbn [rbind]. rewrite upd_Ok by done. cbn [rbind].
  set (L' := <[tid := filter (fun x => x <= sn) l]> (instList (iq s))) in *. set (s2 := set_iq (left_by s1 h g ns ks n) _).
  assert (HC3 : core_of c s2 L' None None cs') by (eapply core_iq; [exact HC2|done..]).
  destruct (thread_unit c s _ None None cs tid l HG Hl) as (m & Hm & HUm). destruct (law_squash tid sn m (proj1 HUm)) as (m' & out & El & Hok & Hlive & Hw).
  unfold call_unit. change (memDepUnit s2) with (memDepUnit s). rewrite (nth_lookup _ _ _ Hm). cbn [rbind]. rewrite El. cbn [rbind]. rewrite upd_Ok by (by eapply lookup_lt_Some). cbn [rbind].
  rewrite Hw. cbn [add_ready_all rbind]. assert (Hal : alike (heap s) h) by (by eapply (effect_alike _ _ s1)).
  exists (set_units s2 (<[tid := m']> (memDepUnit s))), cs, cs'. split; [done|]. split; [|split; [done|split; [apply HC|split; [apply HC3|]]]].
  - exists cs'. split; [exact HC3| |by eapply lists_alike|by destruct HF].
    destruct (units_alike (heap s) h (instList (iq s)) (memDepUnit s) Hal (flight_some c _ _ _ _ _ _ _ HC) HU) as [Hlen HU'].
    split; cbn [set_units memDepUnit heap]; [by rewrite length_insert|]. intros t l0 m0 Hl0 Hm0. change (instList (iq (set_units s2 (<[tid := m']> (memDepUnit s))))) with L' in Hl0.
    change (heap s2) with h. destruct (decide (t = tid)) as [->|Hne].
    + rewrite list_lookup_insert_eq in Hm0 by (by eapply lookup_lt_Some). injection Hm0 as <-. unfold L' in Hl0. rewrite list_lookup_insert_eq in Hl0 by done. injection Hl0 as <-.
      destruct (HU' tid l m Hl Hm) as (_ & U2 & U3). split_and!; [done| |].
      * intros w k Hwk. rewrite Hlive in Hwk. apply list_elem_of_filter in Hwk as [Hle Hwk]. destruct (U2 w k Hwk) as (Hwl & Hj). split; [by apply list_elem_of_filter|done].
      * intros p i [Hle Hp]%list_elem_of_filter Hi Hmem Hd. rewrite Hlive. apply list_elem_of_filter. split; [done|]. by apply U3.
    + rewrite list_lookup_insert_ne in Hm0 by done. unfold L' in Hl0. rewrite list_lookup_insert_ne in Hl0 by done. by apply HU'.
  - eapply (effect_perm (reverse l)); [intros x; apply elem_of_reverse|]. by destruct He.
Qed.
End Squash.
