(* ===== verification/InstQueueRun.v ===== *)
(** * The instruction queue as a whole

    The remaining operations, the steps of IEW and of the other stages, and what holds
    of the queue in every state they can reach. *)

From Stdlib Require Import ZArith Lia Bool.
From stdpp Require Import base tactics option list numbers gmap sorting.
From S2P Require Import Prelude Phast RenameMap RenameRegs FUPool DepGraph ReadyList InstQueue InstQueueInv InstQueueOps InstQueueIssue InstQueueSquash.
Open Scope Z_scope.

Section Rest.
Context {M E : Type} `{MemDepLaws M E} (c : IQConfig).
Hypothesis Hcfg : 0 <= numEntries c < 2 ^ 31.
Implicit Type s : IQState M.

(** ** Non-speculative instructions *)

(** One that is told to go has to be made ready. *)
Lemma core_unspec h f q L cs p : core c h f q L None None cs -> p ∈ nonSpecInsts q -> core c h f (set_nonSpec q (nonSpecInsts q ∖ {[p]})) L None (Some p) cs.
Proof.
  intros [C1 C2 C3 C4 C5 C6 C7 C8 C9 C10 C11 C12 C13 C14 C15 C16 C17] Hp. split; try done; cbn [set_nonSpec nonSpecInsts ready].
  - intros x i l Hx Hi Hm Hl. destruct (C10 x i l Hx Hi Hm Hl) as (O1 & O2 & O3 & O4). destruct (decide (x = p)) as [->|Hne].
    + destruct (C17 p Hp) as (_ & j & Hj & Hg & _). rewrite Hi in Hj. injection Hj as <-.
      assert (Hno : p ∉ l) by (intros Hin; destruct (O2 Hin) as [_ Hr]; by rewrite Hg in Hr). done.
    + assert (Hcg : can_go (nonSpecInsts q ∖ {[p]}) x i <-> can_go (nonSpecInsts q) x i).
      { unfold can_go. destruct (in_graph i); [done|]. rewrite elem_of_difference, elem_of_singleton. tauto. }
      rewrite Hcg. split_and!; try done; [congruence|]. intros Hs _. by apply O4.
  - intros x [Hx _]%elem_of_difference. by apply C17.
Qed.

Lemma nonSpec_blind ns : blind (fun q => set_nonSpec q ns).
Proof. done. Qed.

Lemma scheduleNonSpec_ok s p : iq_ok c s -> p ∈ nonSpecInsts (iq s) -> exists s', scheduleNonSpec p s = Ok s' /\ iq_ok c s' /\ instList (iq s') = instList (iq s).
Proof.
  intros [cs HG] Hp. pose proof HG as [HC HU HL HF]. destruct (c_spec _ _ _ _ _ _ _ _ HC p Hp) as (Hf & i & Hi & Hg & Hh).
  unfold scheduleNonSpec. rewrite bool_decide_eq_true_2 by done. cbn [assert_ rbind]. unfold upd_inst, get. rewrite Hi. cbn [deref rbind put set_heap heap].
  rewrite lookup_insert_eq. cbn [deref rbind]. set (j := setCanIssue (setAtCommit i)). set (ns := nonSpecInsts (iq s) ∖ {[p]}). set (s1 := put s p j).
  assert (Hq : quiet i j) by (split; try done; intros _; split; [done|congruence]).
  set (v := mapq (fun q => set_nonSpec q ns) s1). assert (HG1 : good c v (instList (iq s)) None (Some p) cs).
  { split; [apply core_unspec; [|done]; eapply core_heap; [exact HC|by apply (heap_quiet_insert _ _ i)]| |by eapply lists_insert|by destruct HF].
    eapply units_alike; [eapply alike_insert; [exact Hi|done..]|by eapply flight_some|done]. }
  assert (Ej : heap v !! p = Some j) by apply lookup_insert_eq. change (isMemRef j) with (isMemRef i). change (inst_thread j) with (inst_thread i). destruct (isMemRef i) eqn:Em; cbn [negb].
  - destruct (flight_inst _ _ _ _ _ _ _ _ (g_core _ _ _ _ _ _ HG) p Hf) as (i0 & Hi0 & _ & (l & Hl & Hin) & _). rewrite Hi in Hi0. injection Hi0 as <-.
    assert (HG2 : good c v (instList (iq s)) None None cs) by (destruct HG1; split; try done; eapply core_late; [done|exact Ej|exact Em|by right]).
    destruct (thread_unit c v _ None None cs _ l HG2 Hl) as (m & Hm & HUm). assert (Hlive : (p, kind j) ∈ md_live m).
    { apply HUm; try done. change (MemOpDone (flags j)) with (MemOpDone (flags i)). unfold holds in Hh. rewrite Em in Hh. by destruct (MemOpDone (flags i)). }
    destruct (law_nonSpecInstReady (inst_thread i) p j m (proj1 HUm) eq_refl Hlive) as (m' & out & E1 & Hok' & Hlv & Hw).
    destruct (call_keep_ok c v _ None None cs _ l m (md_nonSpecInstReady p j) m' out HG2 Hl Hm E1 Hok' Hlv) as (r & E2 & HG3); [intros w ->%Hw; by exists (kind j)|].
    unfold v in E2. rewrite call_unit_map in E2 by apply nonSpec_blind. destruct (call_unit _ _ s1) as [[s2 b]|] eqn:E3; [|discriminate E2]. cbn [rbind] in E2 |- *.
    assert (Ev : mapq (fun q => set_nonSpec q ns) s2 = with_unit v (inst_thread i) m' r)
      by exact (f_equal (fun x => match x with Ok (a, _) => a | Err _ => s end) E2).
    assert (En : nonSpecInsts (iq s2) = nonSpecInsts (iq s)) by (rewrite (call_unit_shape _ _ _ _ _ E3); done). rewrite En. fold ns. eexists. split; [reflexivity|].
    change (set_iq s2 (set_nonSpec (iq s2) ns)) with (mapq (fun q => set_nonSpec q ns) s2). rewrite Ev. split; [|done]. exists cs. exact HG3.
  - destruct (addIfReady_ok c v _ None cs p j HG1 Hf Ej) as (ms & r & E1 & HG2); [change (isMemRef j) with (isMemRef i); congruence| |].
    { intros _. split; [|done]. intros _. unfold can_go. change (in_graph j) with (in_graph i). rewrite Hg. split; [|cbn; unfold ns; rewrite elem_of_difference, elem_of_singleton; tauto].
      unfold holds in Hh. rewrite Em in Hh. change (Issued (flags j)) with (Issued (flags i)). by destruct (Issued (flags i)). }
    unfold v in E1. rewrite addIfReady_map in E1 by apply nonSpec_blind. destruct (addIfReady s1 p) as [s2|] eqn:E3; [|discriminate E1]. cbn [rbind] in E1 |- *.
    assert (Ev : mapq (fun q => set_nonSpec q ns) s2 = woke v ms r (graph (iq v)) (heap v))
      by exact (f_equal (fun x => match x with Ok a => a | Err _ => s end) E1).
    assert (En : nonSpecInsts (iq s2) = nonSpecInsts (iq s)) by (rewrite (addIfReady_shape _ _ _ E3); done). rewrite En. fold ns. eexists. split; [reflexivity|].
    change (set_iq s2 (set_nonSpec (iq s2) ns)) with (mapq (fun q => set_nonSpec q ns) s2). rewrite Ev. split; [|done]. exists cs. exact HG2.
Qed.

(** ** Commit *)

Lemma commit_loop_eq n l : StronglySorted Z.lt l -> commit_loop n l = filter (fun x => n < x) l.
Proof.
  induction 1 as [|p l Hs IH HF]; [done|]. cbn [commit_loop]. rewrite filter_cons. destruct (Z.leb_spec p n).
  - by rewrite decide_False by lia.
  - rewrite decide_True by done. f_equal. rewrite Forall_forall in HF. clear -HF H1. induction l as [|y l IH]; [done|]. rewrite filter_cons, decide_True by (specialize (HF y ltac:(left)); lia).
    f_equal. apply IH. intros z Hz. apply HF. by right.
Qed.

Lemma holders_filter h n l : (forall p i, p ∈ l -> p <= n -> h !! p = Some i -> holds i = false) -> holders h (filter (fun x => n < x) l) = holders h l.
Proof.
  unfold holders. intros Hno. induction l as [|p l IH]; [done|]. rewrite !filter_cons. assert (IH' : forall q i, q ∈ l -> q <= n -> h !! q = Some i -> holds i = false).
  { intros q i Hq. apply Hno. by right. } specialize (IH IH'). destruct (decide (n < p)).
  - rewrite filter_cons. destruct (decide (holding h p = true)); simpl; by rewrite IH.
  - rewrite IH. rewrite decide_False; [done|]. unfold holding. destruct (h !! p) as [i|] eqn:Hp; [|done]. by rewrite (Hno p i ltac:(left) ltac:(lia) Hp).
Qed.

Section CommitCore.
Context (h : gmap Z IQInst) (f : regfile) (q : IQ) (L : list (list Z)) (cs : list (option Z * list Z)).
Hypothesis HC : core c h f q L None None cs.
Context (t : nat) (l : list Z) (n : Z).
Hypothesis Hl : L !! t = Some l.
Hypothesis Hdone : forall p i, p ∈ l -> p <= n -> h !! p = Some i -> holds i = false.
Abbreviation L' := (<[t := filter (fun x => n < x) l]> L).

Lemma commit_lists t' l' : L' !! t' = Some l' -> exists l0, L !! t' = Some l0 /\ (forall x, x ∈ l' -> x ∈ l0) /\ (t' <> t /\ l' = l0 \/ t' = t /\ l0 = l /\ l' = filter (fun x => n < x) l).
Proof.
  intros Hl'. destruct (decide (t' = t)) as [->|Hne].
  - rewrite list_lookup_insert_eq in Hl' by (by eapply lookup_lt_Some). injection Hl' as <-. exists l. split_and!; [done| |by right]. by intros x [_ ?]%list_elem_of_filter.
  - rewrite list_lookup_insert_ne in Hl' by done. exists l'. split_and!; [done|done|by left].
Qed.

Lemma commit_flight x : in_flight L' x -> in_flight L x.
Proof. intros (t' & l' & Hl' & Hx). destruct (commit_lists t' l' Hl') as (l0 & Hl0 & Hsub & _). exists t', l0. auto. Qed.

(** An instruction that holds an entry stays. *)
Lemma commit_flight_holds x i : in_flight L x -> h !! x = Some i -> holds i = true -> in_flight L' x.
Proof.
  intros (t' & l' & Hl' & Hx) Hi Hh. destruct (decide (t' = t)) as [->|Hne]; [|exists t', l'; by rewrite list_lookup_insert_ne].
  rewrite Hl in Hl'. injection Hl' as <-. exists t, (filter (fun x => n < x) l). rewrite list_lookup_insert_eq by (by eapply lookup_lt_Some). split; [done|].
  apply list_elem_of_filter. split; [|done]. destruct (decide (n < x)); [done|]. rewrite (Hdone x i) in Hh; try done. lia.
Qed.

Lemma core_commit : core c h f q L' None None cs.
Proof.
  pose proof commit_flight as Hfl. pose proof commit_flight_holds as Hfh. destruct HC as [C1 C2 C3 C4 C5 C6 C7 C8 C9 C10 C11 C12 C13 C14 C15 C16 C17]. split; try done.
  - by rewrite length_insert.
  - intros t' l' Hl'. destruct (commit_lists t' l' Hl') as (l0 & Hl0 & _ & [[_ ->]|(-> & -> & ->)]); [by eapply C4|]. apply StronglySorted_filter. by eapply C4.
  - intros t' l' p Hl' Hp. destruct (commit_lists t' l' Hl') as (l0 & Hl0 & Hsub & _). apply (C5 t' l0); auto.
  - intros t' l' Hl'. destruct (commit_lists t' l' Hl') as (l0 & Hl0 & _ & [[_ ->]|(-> & -> & ->)]); rewrite (C6 _ _ Hl0); [done|]. by rewrite holders_filter.
  - intros k lq p Hlq Hp. destruct (C9 k lq p Hlq Hp) as (i & Hi & Hk & Ht & Hf). exists i. split_and!; try done. intros Hm Hs. specialize (Hf Hm Hs). apply (Hfh p i); try done.
    destruct (C10 p i lq Hf Hi Hm) as (_ & Hgo & _); [by rewrite Hk|]. destruct (Hgo Hp) as [Hiss _]. unfold holds. by rewrite Hm, Hiss.
  - intros p i lq Hf. apply C10. auto.
  - intros m pr ch p Hm Hp. destruct (C11 m pr ch p Hm Hp) as (Hf & i & Hi & Hg & Hh). split; [by apply (Hfh p i)|]. eauto.
  - intros p i m pr ch Hf. apply C13. auto.
  - intros p i Hf. apply C14. auto.
  - intros p i Hf. apply C15. auto.
  - intros d i r m pr ch p Hf. apply C16. auto.
  - intros p Hp. destruct (C17 p Hp) as (Hf & i & Hi & Hg & Hh). split; [by apply (Hfh p i)|]. eauto.
Qed.
End CommitCore.

(** What commit guarantees: the instructions up to [n] have issued, and memory
    instructions and barriers are done. *)
Definition commit_ok s (n : Z) (tid : nat) : Prop := forall l p i, instList (iq s) !! tid = Some l -> p ∈ l -> p <= n -> heap s !! p = Some i ->
  holds i = false /\ forall m k, memDepUnit s !! tid = Some m -> (p, k) ∉ md_live m.

Lemma commit_op_ok s n tid l : iq_ok c s -> instList (iq s) !! tid = Some l -> commit_ok s n tid -> exists s', commit c n tid s = Ok s' /\ iq_ok c s' /\
  instList (iq s') = <[tid := filter (fun x => n < x) l]> (instList (iq s)).
Proof.
  intros [cs HG] Hl Hok. pose proof HG as [HC HU HL HF]. unfold commit. rewrite (nth_lookup _ _ _ Hl). cbn [rbind]. rewrite upd_Ok by (by eapply lookup_lt_Some). cbn [rbind].
  rewrite (commit_loop_eq n l) by (by eapply (c_sorted _ _ _ _ _ _ _ _ HC)). unfold check_free, countInsts. cbn [set_instList freeEntries].
  destruct (c_free _ _ _ _ _ _ _ _ HC) as [Hf1 Hf2]. destruct (c_lens _ _ _ _ _ _ _ _ HC) as (L1 & L2 & _).
  destruct (lookup_lt_is_Some_2 (count (iq s)) tid) as [k Hk]; [rewrite L2, <- L1; by eapply lookup_lt_Some|]. destruct (counts_bounds _ _ _ _ _ _ _ _ HC _ _ Hk) as [Hk0 Hkb].
  rewrite swrap_small by (unfold in_s; simpl; lia). rewrite wrap_small by (unfold in_u; lia). rewrite (proj2 (Z.eqb_eq _ _)) by lia. cbn [assert_ rbind].
  eexists. split; [reflexivity|]. split; [|done]. exists cs. assert (Hdone : forall p i, p ∈ l -> p <= n -> heap s !! p = Some i -> holds i = false) by (intros p i Hp Hn Hi; by apply (Hok l p i)).
  split; [eapply core_iq; [exact (core_commit _ _ _ _ _ HC tid l n Hl Hdone)|done..]| |done|by destruct HF]. destruct HU as [Hlen HU]. split; [done|]. cbn [set_iq set_instList iq instList heap memDepUnit].
  intros t' l' m Hl' Hm. destruct (commit_lists (instList (iq s)) tid l n Hl t' l' Hl') as (l0 & Hl0 & Hsub & Hcase). destruct (HU t' l0 m Hl0 Hm) as (U1 & U2 & U3). split_and!; [done| |].
  - intros w kk Hw. destruct (U2 w kk Hw) as (Hwl & i & Hi & Ek). split; [|eauto]. destruct Hcase as [[_ ->]|(-> & -> & ->)]; [done|]. apply list_elem_of_filter. split; [|done].
    destruct (decide (n < w)); [done|]. destruct (Hok l w i Hl Hwl ltac:(lia) Hi) as [_ Hno]. by destruct (Hno m kk Hm).
  - intros p i Hp. apply U3. auto.
Qed.

(** ** Memory instructions that have to wait *)

(** A memory instruction in flight whose access is not done. *)
Definition mem_flight s (p : Z) : Prop := in_flight (instList (iq s)) p /\ exists i, heap s !! p = Some i /\ isMemRef i = true /\ MemOpDone (flags i) = false.

Lemma good_heap s L o late cs p i i' : good c s L o late cs -> heap s !! p = Some i -> quiet i i' -> good c (put s p i') L o late cs.
Proof.
  intros [HC HU HL HF] Hi Hq. pose proof Hq as [(Q1 & Q2 & Q3 & _) [_ Q5] _ _ _].
  split; [eapply core_heap; [exact HC|by apply (heap_quiet_insert _ _ i)]| |by eapply lists_insert|by destruct HF].
  eapply units_alike; [eapply alike_insert; [exact Hi|done..]|by eapply flight_some|done].
Qed.

Lemma flight_unit s L o late cs p i : good c s L o late cs -> in_flight L p -> heap s !! p = Some i -> exists l m, L !! inst_thread i = Some l /\ p ∈ l /\
  memDepUnit s !! inst_thread i = Some m /\ unit_ok (heap s) (inst_thread i) l m.
Proof.
  intros HG Hf Hi. destruct (flight_inst _ _ _ _ _ _ _ _ (g_core _ _ _ _ _ _ HG) p Hf) as (i0 & Hi0 & _ & (l & Hl & Hp) & _). rewrite Hi in Hi0. injection Hi0 as <-.
  destruct (thread_unit c s L o late cs _ l HG Hl) as (m & Hm & HU). eauto 10.
Qed.

Lemma no_woken {A} (ps : list Z) (P : Z -> A -> Prop) : ps = [] -> forall w, w ∈ ps -> exists k, P w k.
Proof. intros -> w ?%not_elem_of_nil. done. Qed.

Lemma rescheduleMemInst_ok s p : iq_ok c s -> mem_flight s p -> exists s', rescheduleMemInst p s = Ok s' /\ iq_ok c s' /\ instList (iq s') = instList (iq s).
Proof.
  intros [cs HG] (Hf & i & Hi & Hm & Hd). unfold rescheduleMemInst, upd_inst, get. rewrite Hi. cbn [deref rbind put set_heap heap]. rewrite lookup_insert_eq. cbn [deref rbind].
  set (j := clearCanIssue (clear_translation i)).
  assert (HG1 : good c (put s p j) (instList (iq s)) None None cs) by (eapply good_heap; [done|exact Hi|]; split; try done; intros ?; congruence).
  destruct (flight_unit _ _ _ _ _ p j HG1 Hf) as (l & m & Hl & Hp & Hmt & HU); [apply lookup_insert_eq|]. assert (Hlive : (p, kind j) ∈ md_live m) by (apply HU; try done; apply lookup_insert_eq).
  destruct (law_reschedule (inst_thread i) p j m (proj1 HU) eq_refl Hlive Hm) as (m' & out & E1 & Hok & Hlv & Hw).
  destruct (call_keep_ok c (put s p j) _ None None cs _ l m (md_reschedule p j) m' out HG1 Hl Hmt E1 Hok Hlv (no_woken _ _ Hw)) as (r & E2 & HG2).
  change (set_heap s (<[p := j]> (heap s))) with (put s p j). rewrite E2. cbn [rbind]. eexists. split; [reflexivity|]. split; [|done]. by exists cs.
Qed.

Lemma replayMemInst_ok s p i : iq_ok c s -> heap s !! p = Some i -> (inst_thread i < MaxThreads)%nat ->
  exists s', replayMemInst p s = Ok s' /\ iq_ok c s' /\ instList (iq s') = instList (iq s).
Proof.
  intros [cs HG] Hi Ht. unfold replayMemInst, get. rewrite Hi. cbn [deref rbind]. destruct (entry_of c s cs i (g_core _ _ _ _ _ _ HG) Ht) as (l & k & Hl & _).
  destruct (thread_unit c s _ None None cs _ l HG Hl) as (m & Hm & HU). destruct (law_replay (inst_thread i) m (proj1 HU)) as (m' & out & E1 & Hok & Hlv & Hw).
  destruct (call_keep_ok c s _ None None cs _ l m md_replay m' out HG Hl Hm E1 Hok Hlv Hw) as (r & E2 & HG2). rewrite E2. cbn [rbind]. eexists. split; [reflexivity|]. split; [|done]. by exists cs.
Qed.

Lemma iq_violation_ok s n pc p i hist : iq_ok c s -> heap s !! p = Some i -> (inst_thread i < MaxThreads)%nat ->
  (forall m, memDepUnit s !! inst_thread i = Some m -> md_violation_ok n pc p i hist m) ->
  exists s', violation n pc p hist s = Ok s' /\ iq_ok c s' /\ instList (iq s') = instList (iq s).
Proof.
  intros [cs HG] Hi Ht Hv. unfold violation, get. rewrite Hi. cbn [deref rbind]. destruct (entry_of c s cs i (g_core _ _ _ _ _ _ HG) Ht) as (l & k & Hl & _).
  destruct (thread_unit c s _ None None cs _ l HG Hl) as (m & Hm & HU). destruct (law_violation (inst_thread i) n pc p i hist m (proj1 HU) (Hv m Hm)) as (m' & out & E1 & Hok & Hlv & Hw).
  destruct (call_keep_ok c s _ None None cs _ l m (md_violation n pc p i hist) m' out HG Hl Hm E1 Hok Hlv (no_woken _ _ Hw)) as (r & E2 & HG2).
  rewrite E2. cbn [rbind]. eexists. split; [reflexivity|]. split; [|done]. by exists cs.
Qed.

(** The queue with other lists of waiting memory instructions. *)
Lemma good_lists s L o late cs d b r : good c s L o late cs -> lists_ok (heap s) (set_memLists (iq s) d b r) -> good c (set_iq s (set_memLists (iq s) d b r)) L o late cs.
Proof. intros [HC HU HL HF] HL'. split; [by eapply core_iq|done|done|by destruct HF]. Qed.

Lemma mem_flight_lists s cs p : good c s (instList (iq s)) None None cs -> mem_flight s p ->
  exists i, heap s !! p = Some i /\ isMemRef i = true /\ (op_class (stat i) < Num_OpClasses)%nat /\ (inst_thread i < MaxThreads)%nat.
Proof.
  intros HG (Hf & i & Hi & Hm & _). destruct (flight_inst _ _ _ _ _ _ _ _ (g_core _ _ _ _ _ _ HG) p Hf) as (i0 & Hi0 & _ & (l & Hl & Hp) & Hok). rewrite Hi in Hi0. injection Hi0 as <-.
  exists i. split_and!; [done|done|apply Hok|]. rewrite <- (proj1 (c_lens _ _ _ _ _ _ _ _ (g_core _ _ _ _ _ _ HG))). by eapply lookup_lt_Some.
Qed.

Lemma deferMemInst_ok s p : iq_ok c s -> mem_flight s p -> iq_ok c (deferMemInst p s).
Proof.
  intros [cs HG] Hp. exists cs. apply good_lists; [done|]. pose proof (g_lists _ _ _ _ _ _ HG) as HL. unfold lists_ok in *. cbn [set_memLists deferredMemInsts blockedMemInsts retryMemInsts].
  rewrite <- app_assoc. apply Forall_app in HL as [H1 H2]. apply Forall_app. split; [done|]. apply Forall_app. split; [|done]. apply Forall_singleton. by eapply mem_flight_lists.
Qed.

Lemma blockMemInst_ok s p : iq_ok c s -> mem_flight s p -> exists s', blockMemInst p s = Ok s' /\ iq_ok c s' /\ instList (iq s') = instList (iq s).
Proof.
  intros [cs HG] Hp. pose proof Hp as (Hf & i & Hi & Hm & Hd). unfold blockMemInst, upd_inst, get. rewrite Hi. cbn [deref rbind]. eexists. split; [reflexivity|]. split; [|done].
  set (j := clearCanIssue (clearIssued i)). assert (HG1 : good c (put s p j) (instList (iq s)) None None cs) by (eapply good_heap; [done|exact Hi|]; split; try done; congruence).
  exists cs. apply (good_lists (put s p j)); [exact HG1|]. pose proof (g_lists _ _ _ _ _ _ HG1) as HL. unfold lists_ok in *. cbn [set_memLists deferredMemInsts blockedMemInsts retryMemInsts].
  apply Forall_app in HL as [H1 H2]. apply Forall_app in H2 as [H2 H3]. apply Forall_app. split; [done|]. rewrite <- app_assoc. apply Forall_app. split; [done|]. apply Forall_app. split; [|done].
  apply Forall_singleton. destruct (mem_flight_lists s cs p HG Hp) as (i0 & Hi0 & Hm0 & Hk0 & Ht0). rewrite Hi in Hi0. injection Hi0 as <-. exists j. split; [apply lookup_insert_eq|done].
Qed.

Lemma cacheUnblocked_ok s : iq_ok c s -> iq_ok c (cacheUnblocked s).
Proof.
  intros [cs HG]. exists cs. apply good_lists; [done|]. pose proof (g_lists _ _ _ _ _ _ HG) as HL. unfold lists_ok in *. cbn [set_memLists deferredMemInsts blockedMemInsts retryMemInsts].
  apply Forall_app in HL as [H1 H2]. apply Forall_app in H2 as [H2 H3]. apply Forall_app. split; [done|]. apply Forall_app. split; [done|]. by apply Forall_app.
Qed.

(** ** Completion of a functional unit *)

(** The event [x] fires: it leaves the event queue and is processed. *)
Definition fire (k : nat) s : res (IQState M) :=
  match completions s !! k with
  | Some x => process_completion x (set_completions s (delete k (completions s)))
  | None => Err OutOfRange
  end.

Lemma fire_ok s k : iq_ok c s -> (k < length (completions s))%nat -> exists s', fire k s = Ok s' /\ iq_ok c s' /\ instList (iq s') = instList (iq s).
Proof.
  intros [cs [HC HU HL [F1 F2 F3 F4]]] Hk. destruct (lookup_lt_is_Some_2 _ _ Hk) as [x Hx]. unfold fire. rewrite Hx. unfold process_completion, processFUCompletion.
  pose proof (delete_Permutation _ _ _ Hx) as Hp. assert (Hidx : 0 <= fuIdx x) by (rewrite Forall_lookup in F2; by eapply F2).
  assert (Hlen : length (completions s) = S (length (delete k (completions s)))) by (by rewrite (Permutation_length Hp)).
  assert (Hpend : pending (completions s) ≡ₚ (if freeFU x then [Z.to_nat (fuIdx x)] else []) ++ pending (delete k (completions s))).
  { unfold pending. rewrite Hp at 1. rewrite filter_cons. destruct (freeFU x); [by rewrite decide_True|by rewrite decide_False]. }
  assert (HF2 : Forall (fun e => 0 <= fuIdx e) (delete k (completions s))) by (rewrite Hp in F2; by apply Forall_cons in F2 as [_ F2]).
  destruct (freeFU x).
  - destruct (Z.ltb_spec (-1) (fuIdx x)); [|lia]. cbn [set_iq set_completions fuPool]. destruct (free_next_ok (fuPool s) (Z.to_nat (fuIdx x)) _ _ F1 Hpend) as (fu & -> & HP & ->). cbn [rbind].
    eexists. split; [reflexivity|]. split; [|done]. exists cs. split; [by eapply core_iq|done|done|]. split; try done. cbn. lia.
  - simpl (-1 <? -1). cbn iota. cbn [rbind]. eexists. split; [reflexivity|]. split; [|done]. exists cs. split; [by eapply core_iq|done|done|]. split; try done; [|cbn; lia].
    cbn. simpl in Hpend. destruct F1 as [P1 P2 P3 P4]. split; try done; [by rewrite <- Hpend|]. intros u. by rewrite <- Hpend.
Qed.

Lemma getInstToExecute_ok s : iq_ok c s -> instsToExecute (iq s) <> [] -> exists p s', getInstToExecute s = Ok (p, s') /\ iq_ok c s' /\ instList (iq s') = instList (iq s).
Proof.
  intros [cs [HC HU HL HF]] Hne. unfold getInstToExecute. destruct (instsToExecute (iq s)) as [|p l]; [done|]. eexists p, _. split; [reflexivity|]. split; [|done]. exists cs.
  split; [by eapply core_iq|done|done|by destruct HF].
Qed.

(** ** The other stages *)

(** What the rest of the CPU does to the shared state between two calls. *)
Record outside s s' : Prop := {
  ou_iq : iq s' = iq s /\ completions s' = completions s;
  ou_heap : heap_quiet (heap s) (heap s');
  ou_file : forall r, flat_of (file s') r = flat_of (file s) r;
  ou_pool : fuPool s' = fuPool s \/ pool_cycle (fuPool s) = Ok (fuPool s');
  ou_units : length (memDepUnit s') = length (memDepUnit s) /\ forall t m', memDepUnit s' !! t = Some m' ->
    exists m, memDepUnit s !! t = Some m /\ (md_ok t m -> md_ok t m') /\ md_live m' = md_live m
}.

Lemma outside_ok s s' : iq_ok c s -> outside s s' -> iq_ok c s'.
Proof.
  intros [cs [HC HU HL HF]] [[O1 O1'] O2 O3 O4 [O5 O6]]. exists cs. rewrite O1.
  assert (Hal : alike (heap s) (heap s')). { intros x i Hx. destruct (O2 x i Hx) as (i' & Hi' & [(Q1 & Q2 & Q3 & _) [_ Q5] _ _ _]). eauto 10. }
  split; rewrite ?O1.
  - eapply core_file; [|exact O3]. eapply core_heap; [exact HC|exact O2].
  - destruct (units_alike (heap s) (heap s') (instList (iq s)) (memDepUnit s) Hal (flight_some c _ _ _ _ _ _ _ HC) HU) as [Hlen HU']. split; [congruence|].
    intros t l m' Hl Hm'. destruct (O6 t m' Hm') as (m & Hm & Hok & Hlive). destruct (HU' t l m Hl Hm) as (U1 & U2 & U3). unfold unit_ok. rewrite Hlive. auto.
  - by eapply lists_alike.
  - destruct HF as [F1 F2 F3 F4]. assert (Hlater : pool_inv (fuPool s') (pending (completions s)) /\ (forall k, candidates (fuPool s') k = candidates (fuPool s) k) /\
      issueLatencies (fuPool s') = issueLatencies (fuPool s)).
    { destruct O4 as [->|E1]; [done|]. destruct (pool_cycle_ok _ _ F1) as (p' & E2 & HP & _ & _ & _ & _ & _ & _ & Hil & _ & Hcap & _). rewrite E1 in E2. injection E2 as <-.
      split_and!; try done. intros k. unfold candidates. by rewrite Hcap. }
    destruct Hlater as (P1 & P2 & P3). split; rewrite ?O1, ?O1'; try done. intros k n. rewrite P2, P3. apply F3.
Qed.

(** [takeOverFrom] after a drain. *)
Definition taken_over s : IQState M := set_iq s (takeOverFrom c (iq s)).
Definition drained s : Prop := DepGraph.empty (graph (iq s)) = true /\ completions s = [] /\ Forall (fun m => md_live m = []) (memDepUnit s).

Lemma replicate_sum n : foldr Z.add 0 (replicate n 0) = 0.
Proof. induction n; simpl; lia. Qed.

Lemma fresh_core h f q cs : file_wf (numPhysRegs c) f -> rep (graph q) cs -> length cs = numPhysRegs c -> (forall n pr ch, cs !! n = Some (pr, ch) -> ch = []) ->
  core c h f (resetState c q) (replicate MaxThreads []) None None cs.
Proof.
  intros Hf Hrep Hlen Hemp. assert (Hno : forall x, ~ in_flight (replicate MaxThreads []) x).
  { intros x (t & l & [-> _]%lookup_replicate & Hx). by apply not_elem_of_nil in Hx. }
  assert (Hq : forall k lq x, readyInsts (reset_ready (nextNode (ready q))) !! k = Some lq -> x ∉ lq) by (intros k lq x [-> _]%lookup_replicate ?%not_elem_of_nil; done).
  split; unfold resetState; cbn [graph ready nonSpecInsts regScoreboard count freeEntries squashedSeqNum]; rewrite ?length_replicate; try done.
  - intros t l [-> _]%lookup_replicate. constructor.
  - intros t l x [-> _]%lookup_replicate ?%not_elem_of_nil. done.
  - intros t l [-> Ht]%lookup_replicate. by apply lookup_replicate_2.
  - rewrite replicate_sum. lia.
  - apply reset_ready_ok.
  - intros k lq x Hlq Hx. by destruct (Hq k lq x Hlq).
  - intros x i lq Hx. by destruct (Hno x).
  - intros n pr ch x Hn Hx. rewrite (Hemp n pr ch Hn) in Hx. by apply not_elem_of_nil in Hx.
  - intros n pr ch Hn _. by apply (Hemp n pr).
  - intros x i n pr ch Hx. by destruct (Hno x).
  - intros x i Hx. by destruct (Hno x).
  - intros x i Hx. by destruct (Hno x).
  - intros d i r n pr ch x Hd. by destruct (Hno d).
Qed.

Lemma fresh_good s f q cs : file s = f -> iq s = resetState c q \/ iq s = set_maxEntries (resetState c q) (maxEntries (iq s)) -> file_wf (numPhysRegs c) f -> rep (graph q) cs ->
  length cs = numPhysRegs c -> (forall n pr ch, cs !! n = Some (pr, ch) -> ch = []) -> length (memDepUnit s) = MaxThreads ->
  (forall t m, memDepUnit s !! t = Some m -> md_ok t m /\ md_live m = []) -> completions s = [] -> pool_inv (fuPool s) [] ->
  (forall k n, candidates (fuPool s) k <> [] -> issueLatencies (fuPool s) !! k = Some n -> 0 < swrap 32 n) -> iq_ok c s.
Proof.
  intros <- Eq Hf Hrep Hlen Hemp HlenU HU HX HP HI. exists cs. pose proof (fresh_core (heap s) (file s) q cs Hf Hrep Hlen Hemp) as HC.
  assert (El : instList (iq s) = replicate MaxThreads [] /\ deferredMemInsts (iq s) = [] /\ blockedMemInsts (iq s) = [] /\ retryMemInsts (iq s) = [] /\ wbOutstanding (iq s) = 0).
  { by destruct Eq as [->| ->]. } destruct El as (El & E1 & E2 & E3 & E4). rewrite El. split.
  - eapply core_iq; [exact HC|..]; by destruct Eq as [->| ->].
  - split; [done|]. intros t l m [-> _]%lookup_replicate Hm. destruct (HU t m Hm) as [Hok Hlive]. split_and!; [done| |by intros p i ?%not_elem_of_nil].
    rewrite Hlive. by intros w k ?%not_elem_of_nil.
  - unfold lists_ok. by rewrite E1, E2, E3.
  - split; rewrite ?HX; try done.
Qed.

Lemma taken_over_ok s : iq_ok c s -> drained s -> iq_ok c (taken_over s).
Proof.
  intros [cs [HC HU HL [F1 F2 F3 F4]]] (D1 & D2 & D3). pose proof (c_rep _ _ _ _ _ _ _ _ HC) as Hrep. rewrite (empty_rep _ _ Hrep) in D1. rewrite forallb_forall in D1.
  rewrite D2 in F1. eapply (fresh_good (taken_over s) (file s) (iq s) cs); try done; [by left|apply HC|apply HC| |apply HU|].
  - intros n pr ch Hn. specialize (D1 (pr, ch)). rewrite <- list_elem_of_In in D1. specialize (D1 (list_elem_of_lookup_2 _ _ _ Hn)). by apply bool_decide_eq_true in D1.
  - intros t m Hm. rewrite Forall_lookup in D3. split; [|by apply (D3 t)]. destruct HU as [Hlen HU]. cbn in Hm.
    destruct (lookup_lt_is_Some_2 (instList (iq s)) t) as [l Hl]; [rewrite (proj1 (c_lens _ _ _ _ _ _ _ _ HC)), <- Hlen; by eapply lookup_lt_Some|]. by apply (HU t l m).
Qed.

(** The state when the CPU starts. *)
Record initial s : Prop := {
  in_iq : iq s = IQ_new c;
  in_file : file_wf (numPhysRegs c) (file s);
  in_units : length (memDepUnit s) = MaxThreads /\ forall t m, memDepUnit s !! t = Some m -> md_ok t m /\ md_live m = [];
  in_events : completions s = [];
  in_pool : pool_inv (fuPool s) [] /\ forall k n, candidates (fuPool s) k <> [] -> issueLatencies (fuPool s) !! k = Some n -> 0 < swrap 32 n
}.

Lemma initial_ok s : initial s -> iq_ok c s.
Proof.
  intros [I1 I2 [I3 I4] I5 [I6 I7]]. eapply (fresh_good s (file s) _ (replicate (numPhysRegs c) (None, []))); try done.
  - right. rewrite I1. reflexivity.
  - apply rep_new.
  - apply length_replicate.
  - by intros n pr ch [[= -> ->] _]%lookup_replicate.
Qed.

(** ** Repartitioning *)

Lemma reset_entries_loop_ok n ts : forall m, Forall (fun t => (t < length m)%nat) ts -> exists m', reset_entries_loop c n ts m = Ok m' /\ length m' = length m.
Proof.
  induction ts as [|t ts IH]; intros m Hts; cbn [reset_entries_loop]; [by exists m|]. apply Forall_cons in Hts as [Ht Hts].
  destruct (bool_decide _); [rewrite upd_Ok by done|destruct (_ && _); [rewrite upd_Ok by done|]]; cbn [rbind]; [| |by apply IH];
    (edestruct IH as (m' & -> & El); [|exists m'; split; [done|]; by rewrite El, length_insert]; by rewrite length_insert).
Qed.

Lemma resetEntries_ok s ts : iq_ok c s -> Forall (fun t => (t < length (maxEntries (iq s)))%nat) ts ->
  exists q, resetEntries c ts (iq s) = Ok q /\ iq_ok c (set_iq s q) /\ instList q = instList (iq s).
Proof.
  intros [cs [HC HU HL HF]] Hts. unfold resetEntries. destruct (reset_entries_loop_ok (Z.of_nat (length ts)) ts _ Hts) as (m & -> & _). cbn [rbind].
  destruct (_ || _); eexists; (split; [reflexivity|]; split; [|done]); exists cs; (split; [by eapply core_iq|done|done|by destruct HF]).
Qed.

(** ** The queue as a state machine *)

Inductive iq_op :=
| OInsert (e : E) (p : Z) | OInsertNonSpec (p : Z) | OInsertBarrier (p : Z) | ORecordProducer (p : Z)
| OSchedule | OScheduleNonSpec (p : Z) | OGetInst | OFire (k : nat)
| OWake (p : Z) | OCommit (n : Z) (tid : nat) | OSquash (tid : nat) (sn : Z)
| OReschedule (p : Z) | OReplay (p : Z) | ODefer (p : Z) | OBlock (p : Z) | OCacheUnblocked
| OViolation (n pc p : Z) (hist : list branchInfo) | OResetEntries (ts : list nat).

Definition iq_exec (o : iq_op) s : res (IQState M) :=
  match o with
  | OInsert e p => insert c e s p
  | OInsertNonSpec p => insertNonSpec c s p
  | OInsertBarrier p => insertBarrier c s p
  | ORecordProducer p => recordProducer s p
  | OSchedule => let! (_, s) := scheduleReadyInsts c s in Ok s
  | OScheduleNonSpec p => scheduleNonSpec p s
  | OGetInst => let! (_, s) := getInstToExecute s in Ok s
  | OFire k => fire k s
  | OWake p => let! (_, s) := wakeDependents p s in Ok s
  | OCommit n tid => commit c n tid s
  | OSquash tid sn => squash tid sn s
  | OReschedule p => rescheduleMemInst p s
  | OReplay p => replayMemInst p s
  | ODefer p => Ok (deferMemInst p s)
  | OBlock p => blockMemInst p s
  | OCacheUnblocked => Ok (cacheUnblocked s)
  | OViolation n pc p hist => violation n pc p hist s
  | OResetEntries ts => let! q := resetEntries c ts (iq s) in Ok (set_iq s q)
  end.

(** What the stages of the pipeline guarantee when they call an operation. *)
Definition iq_allowed s (o : iq_op) : Prop :=
  match o with
  | OInsert e p => exists i, dispatch_ok s p i /\ spec_ok e s p i
  | OInsertNonSpec p => exists i, dispatch_ok s p i /\ in_graph i = false
  | OInsertBarrier p => exists i, dispatch_ok s p i /\ in_graph i = false /\ isMemRef i = false
  | ORecordProducer p => exists i, record_ok s p i
  | OSchedule | OCacheUnblocked => True
  | OScheduleNonSpec p => p ∈ nonSpecInsts (iq s)
  | OGetInst => instsToExecute (iq s) <> []
  | OFire k => (k < length (completions s))%nat
  | OWake p => exists i, complete_ok s p i
  | OCommit n tid => (tid < MaxThreads)%nat /\ commit_ok s n tid
  | OSquash tid sn => (tid < MaxThreads)%nat /\
      forall l p i, instList (iq s) !! tid = Some l -> p ∈ l -> sn < p -> heap s !! p = Some i -> leave_ok (nonSpecInsts (iq s)) p i
  | OReschedule p | ODefer p | OBlock p => mem_flight s p
  | OReplay p => exists i, heap s !! p = Some i /\ (inst_thread i < MaxThreads)%nat
  | OViolation n pc p hist => exists i, heap s !! p = Some i /\ (inst_thread i < MaxThreads)%nat /\
      forall m, memDepUnit s !! inst_thread i = Some m -> md_violation_ok n pc p i hist m
  | OResetEntries ts => Forall (fun t => (t < length (maxEntries (iq s)))%nat) ts
  end.

Lemma thread_list s tid : iq_ok c s -> (tid < MaxThreads)%nat -> exists l, instList (iq s) !! tid = Some l.
Proof. intros [cs [HC _ _ _]] Ht. apply lookup_lt_is_Some_2. by rewrite (proj1 (c_lens _ _ _ _ _ _ _ _ HC)). Qed.

Lemma iq_exec_ok s o : iq_ok c s -> iq_allowed s o -> exists s', iq_exec o s = Ok s' /\ iq_ok c s'.
Proof.
  intros Hs Ha. destruct o; cbn [iq_exec iq_allowed] in *.
  - destruct Ha as (i & Hd & Hsp). destruct (iq_insert_ok c Hcfg e s p i Hs Hd Hsp) as (s' & ? & ? & _). eauto.
  - destruct Ha as (i & Hd & Hg). destruct (insertNonSpec_ok c Hcfg s p i Hs Hd Hg) as (s' & ? & ? & _). eauto.
  - destruct Ha as (i & Hd & Hg & Hm). destruct (iq_insertBarrier_ok c Hcfg s p i Hs Hd Hg Hm) as (s' & ? & ? & _). eauto.
  - destruct Ha as (i & Hr). destruct (recordProducer_ok c Hcfg s p i Hs Hr) as (s' & ? & ? & _). eauto.
  - destruct (scheduleReadyInsts_ok c Hcfg s Hs) as (_ & ps & s' & _ & -> & ? & _). eauto.
  - destruct (scheduleNonSpec_ok s p Hs Ha) as (s' & ? & ? & _). eauto.
  - destruct (getInstToExecute_ok s Hs Ha) as (p & s' & -> & ? & _). eauto.
  - destruct (fire_ok s k Hs Ha) as (s' & ? & ? & _). eauto.
  - destruct Ha as (i & Hc). destruct (iq_wakeDependents_ok c Hcfg s p i Hs Hc) as (n & s' & -> & ? & _). eauto.
  - destruct Ha as [Ht Hc]. destruct (thread_list s tid Hs Ht) as [l Hl]. destruct (commit_op_ok s n tid l Hs Hl Hc) as (s' & ? & ? & _). eauto.
  - destruct Ha as [Ht Hc]. destruct (thread_list s tid Hs Ht) as [l Hl].
    destruct (squash_op_ok c Hcfg s tid sn l Hs Hl (fun p i => Hc l p i Hl)) as (s' & _ & _ & ? & ? & _). eauto.
  - destruct (rescheduleMemInst_ok s p Hs Ha) as (s' & ? & ? & _). eauto.
  - destruct Ha as (i & Hi & Ht). destruct (replayMemInst_ok s p i Hs Hi Ht) as (s' & ? & ? & _). eauto.
  - eexists. split; [done|]. by apply deferMemInst_ok.
  - destruct (blockMemInst_ok s p Hs Ha) as (s' & ? & ? & _). eauto.
  - eexists. split; [done|]. by apply cacheUnblocked_ok.
  - destruct Ha as (i & Hi & Ht & Hv). destruct (iq_violation_ok s n pc p i hist Hs Hi Ht Hv) as (s' & ? & ? & _). eauto.
  - destruct (resetEntries_ok s ts Hs Ha) as (q & -> & ? & _). eauto.
Qed.

(** The states that the pipeline can bring about. *)
Inductive iq_reach : IQState M -> Prop :=
| ir_init s : initial s -> iq_reach s
| ir_op s o s' : iq_reach s -> iq_allowed s o -> iq_exec o s = Ok s' -> iq_reach s'
| ir_outside s s' : iq_reach s -> outside s s' -> iq_reach s'
| ir_takeOver s : iq_reach s -> drained s -> iq_reach (taken_over s).

Lemma iq_reach_ok s : iq_reach s -> iq_ok c s.
Proof.
  induction 1 as [s Hi|s o s' _ IH Ha Hx|s s' _ IH Ho|s _ IH Hd]; [by apply initial_ok| |by eapply outside_ok|by apply taken_over_ok].
  destruct (iq_exec_ok s o IH Ha) as (s2 & Hx2 & ?). rewrite Hx in Hx2. by injection Hx2 as ->.
Qed.
End Rest.
