(* ===== verification/InstQueueSpec.v ===== *)
(** * What the instruction queue promises

    The theorems about the queue in every state that the pipeline can bring about, and
    runs of a small machine in which they are applied. *)

From Stdlib Require Import ZArith Lia Bool.
From stdpp Require Import base tactics option list numbers gmap sorting.
From S2P Require Import Prelude Phast RenameMap RenameRegs FUPool DepGraph ReadyList InstQueue InstQueueInv IQMemDep InstQueueOps InstQueueIssue InstQueueSquash InstQueueRun.
From S2P Require MemDepUnit.
Open Scope Z_scope.

Section Theorems.
Context {M E : Type} `{MemDepLaws M E} (c : IQConfig).
Implicit Type s : IQState M.

(** C5: the instruction queue never trips one of its assertions, and its books are
    right.  In every state that the stages of the pipeline can bring about by their
    calls, every further call that they may make succeeds; the counter of a thread is the
    number of instructions in its list that occupy an entry, and the free entries and the
    counters add up to the size of the queue, without wrapping around. *)
Theorem iq_never_fails s : 0 <= numEntries c < 2 ^ 31 -> iq_reach c s ->
  (forall o, iq_allowed s o -> is_ok (iq_exec c o s) = true) /\
  (forall t l, instList (iq s) !! t = Some l -> count (iq s) !! t = Some (Z.of_nat (holders (heap s) l))) /\
  freeEntries (iq s) + foldr Z.add 0 (count (iq s)) = numEntries c /\ 0 <= freeEntries (iq s).
Proof.
  intros Hc Hs. pose proof (iq_reach_ok c Hc s Hs) as Hok. split.
  - intros o Ho. by destruct (iq_exec_ok c Hc s o Hok Ho) as (s' & -> & _).
  - destruct Hok as [cs [HC _ _ _]]. destruct (c_free _ _ _ _ _ _ _ _ HC) as [-> Hf]. split; [apply HC|]. lia.
Qed.

(** C6: wake-up is exact.  The operands that have arrived and the places in which an
    instruction waits in the dependency graph always add up to its operands.  It waits for a
    register once for each operand that was not ready, until the register is written, and
    for no register that has been written.  An instruction that does not access memory is in
    the ready queue of its class, once, exactly when it has not issued and waits for nothing
    any more, or, if it may not issue speculatively, when commit has let it go. *)
Theorem iq_wakeup_exact s : 0 <= numEntries c < 2 ^ 31 -> iq_reach c s -> exists cs, rep (graph (iq s)) cs /\ length cs = numPhysRegs c /\
  forall p i, in_flight (instList (iq s)) p -> heap s !! p = Some i ->
  (in_graph i = true -> (readyRegs (operands (base i)) + occ p (concat (map snd cs)) = numSrcRegs i)%nat /\
    forall n pr ch, cs !! n = Some (pr, ch) ->
      occ p ch = if bool_decide (regScoreboard (iq s) !! n = Some false) then unready (file s) i n else 0%nat) /\
  (isMemRef i = false -> isSquashed (base i) = false -> forall l, readyInsts (ready (iq s)) !! op_class (stat i) = Some l ->
    (occ p l <= 1)%nat /\
    (p ∈ l <-> Issued (flags i) = false /\ if in_graph i then occ p (concat (map snd cs)) = 0%nat else p ∉ nonSpecInsts (iq s))).
Proof.
  intros Hc Hs. destruct (iq_reach_ok c Hc s Hs) as [cs [HC _ _ _]]. destruct (c_lens _ _ _ _ _ _ _ _ HC) as (_ & _ & _ & L4 & L5).
  exists cs. split; [apply HC|]. split; [done|]. intros p i Hf Hi. split.
  - intros Hg. split; [by apply (c_missing _ _ _ _ _ _ _ _ HC)|]. intros n pr ch Hn.
    destruct (lookup_lt_is_Some_2 (regScoreboard (iq s)) n) as [[] Hb]; [rewrite L4, <- L5; by eapply lookup_lt_Some| |]; rewrite Hb; case_bool_decide; try done.
    + by rewrite (c_board _ _ _ _ _ _ _ _ HC n pr ch Hn Hb).
    + by apply (c_wait _ _ _ _ _ _ _ _ HC p i n pr ch).
  - intros Hm Hsq l Hl. destruct (c_once _ _ _ _ _ _ _ _ HC p i l Hf Hi Hm Hl) as (O1 & O2 & _ & O4). split; [done|].
    assert (Hgo : can_go (nonSpecInsts (iq s)) p i <-> Issued (flags i) = false /\ if in_graph i then occ p (concat (map snd cs)) = 0%nat else p ∉ nonSpecInsts (iq s)).
    { unfold can_go. destruct (in_graph i) eqn:Hg; [|done]. rewrite (c_can _ _ _ _ _ _ _ _ HC p i Hf Hi Hg Hm), Nat.eqb_eq.
      pose proof (c_missing _ _ _ _ _ _ _ _ HC p i Hf Hi Hg). split; intros [? ?]; (split; [done|lia]). }
    rewrite <- Hgo. split; [apply O2|]. by apply O4.
Qed.


(** C19: a squash leaves no trace of the wrong path.  Let commit not have released the
    instructions to be squashed that had to wait for it, unless they have a fault
    ([leave_ok]).  Then [squash] succeeds and removes from the list of the thread exactly
    the instructions younger than the given one, of which those that occupied an entry give
    it back and are marked; no dependent, no non-speculative instruction and no entry of
    them is left, and they are no producer in the dependency graph any more, while the
    chains, the producers, the flags and the places of all other instructions, of this and
    of other threads, are as before. *)
Theorem iq_squash_exact s tid sn l : 0 <= numEntries c < 2 ^ 31 -> iq_reach c s -> instList (iq s) !! tid = Some l ->
  (forall p i, p ∈ l -> sn < p -> heap s !! p = Some i -> leave_ok (nonSpecInsts (iq s)) p i) ->
  exists s' cs cs', squash tid sn s = Ok s' /\ instList (iq s') = <[tid := filter (fun x => x <= sn) l]> (instList (iq s)) /\
    (forall x, heap s' !! x = if decide (x ∈ l /\ sn < x) then squashed_inst <$> heap s !! x else heap s !! x) /\
    (forall x, x ∈ nonSpecInsts (iq s') <-> x ∈ nonSpecInsts (iq s) /\ ~ (x ∈ l /\ sn < x)) /\
    rep (graph (iq s)) cs /\ rep (graph (iq s')) cs' /\ length cs' = length cs /\
    (forall n pr ch, cs !! n = Some (pr, ch) -> exists pr', cs' !! n = Some (pr', filter (fun x => ~ (x ∈ l /\ sn < x)) ch) /\
      (killed l sn s n -> pr' = None) /\ (~ killed l sn s n -> pr' = pr)) /\
    freeEntries (iq s') + foldr Z.add 0 (count (iq s')) = numEntries c /\
    count (iq s') !! tid = Some (Z.of_nat (holders (heap s) (filter (fun x => x <= sn) l))).
Proof.
  intros Hc Hs Hl Hlv. destruct (squash_op_ok c Hc s tid sn l (iq_reach_ok c Hc s Hs) Hl Hlv) as (s' & cs & cs' & E1 & [cs2 [HC _ _ _]] & E2 & R1 & R2 & [H1 H2 H3 H4 H5]).
  exists s', cs, cs'. do 7 (split; [done|]). split.
  { intros n pr ch Hn. destruct (H4 n pr ch Hn) as (pr' & Hn'). destruct (H5 n pr ch Hn) as (pr2 & ch2 & Hn2 & _ & Hk). exists pr'. split; [done|].
    rewrite Hn' in Hn2. injection Hn2 as -> _. exact Hk. }
  destruct (c_free _ _ _ _ _ _ _ _ HC) as [Hf _]. split; [lia|].
  rewrite (c_count _ _ _ _ _ _ _ _ HC tid (filter (fun x => x <= sn) l)) by (rewrite E2; apply list_lookup_insert_eq; by eapply lookup_lt_Some).
  do 2 f_equal. apply holders_ext. intros x [Hle _]%list_elem_of_filter. unfold holding. rewrite H1. by rewrite decide_False by lia.
Qed.
End Theorems.

(** ** A small machine *)

Module SmallMachine.

Definition config : IQConfig := mkIQConfig Dynamic 1 8 2 0 8.

Definition R (k : nat) : preg := mkP IntRegClass k.
Definition regs : regfile := list_to_map (map (fun k => (R k, mkPhys (Z.of_nat k) 0 1 false)) (seq 0 4)).

(** An integer instruction of thread 0 with the sources [srcs], of which those marked are
    ready, and the destinations [dests]. *)
Definition add (sn : Z) (srcs : list (nat * bool)) (dests : list nat) : IQInst :=
  let n := length (filter (fun x => snd x = true) srcs) in
  mkIQInst (mkDyn sn 0 (mkStatic (map (fun x => mkReg IntRegClass (fst x) 0) srcs) (map (fun k => mkReg IntRegClass k 0) dests) false false false false false false)
      (mkStatus false false false false (n =? length srcs)%nat false false false)
      (mkOperands n (map (fun x => R (fst x)) srcs) (map snd srcs) (map (fun k => mkReg IntRegClass k 0) dests) (map R dests) (map R dests)))
    (mkIqStatic 1 false false false false 0) (mkIqFlags false false false false false false false false false) false 0 0 0 0.

(** The second instruction reads the result of the first. *)
Definition insts : gmap Z IQInst := {[ 1 := add 1 [] [1]%nat; 2 := add 2 [(1%nat, false)] [2]%nat ]}.

Definition pool : FUPool := match FUPool_new SmallPool.descs with Ok p => p | Err _ => empty_pool end.
Definition units : list MemDepUnit.MemDepUnit := map (fun t => MemDepUnit.empty_unit (Z.of_nat t) demo_phast) (seq 0 MaxThreads).
Definition env : StoreQueue := mkStoreQueue 0 (fun _ => 0).

Definition start : IQState MemDepUnit.MemDepUnit := mkState (IQ_new config) insts regs pool units [] [] 0 0.
Definition after (o : iq_op) (s : IQState MemDepUnit.MemDepUnit) : IQState MemDepUnit.MemDepUnit :=
  match iq_exec config o s with Ok s => s | Err _ => s end.
Definition one : IQState MemDepUnit.MemDepUnit := after (OInsert env 1) start.
Definition two : IQState MemDepUnit.MemDepUnit := after (OInsert env 2) one.

Lemma regs_lookup r x : regs !! r = Some x -> exists k, (k < 4)%nat /\ r = R k /\ x = mkPhys (Z.of_nat k) 0 1 false.
Proof. intros Hx%elem_of_list_to_map_2. apply list_elem_of_fmap in Hx as (k & [= -> ->] & Hk%elem_of_seq). exists k. split; [lia|done]. Qed.

Lemma start_initial : initial config start.
Proof.
  split; [done| | |done|].
  - split.
    + intros r x (k & Hk & -> & ->)%regs_lookup _. simpl. lia.
    + intros r r' n _ _. unfold flat_of. intros (x & (k & _ & -> & ->)%regs_lookup & E1)%fmap_Some (y & (k' & _ & -> & ->)%regs_lookup & E2)%fmap_Some.
      simpl in *. f_equal. lia.
  - split; [done|]. intros t m Hm. unfold start, units in Hm. cbn [memDepUnit] in Hm. rewrite list_lookup_fmap in Hm. apply fmap_Some in Hm as (k & [-> _]%lookup_seq & ->).
    split; [|done]. split; [apply MemDepUnit.empty_unit_wfm, demo_phast_wf|done].
  - split.
    + destruct (FUPool_new_ok SmallPool.descs SmallPool.descs_valid) as (p & E & H & _). unfold start, pool. cbn [fuPool]. by rewrite E.
    + intros k n Hk Hn. pose proof (lookup_lt_Some _ _ _ Hn) as Hlt.
      assert (Hall : forallb (fun k => bool_decide (candidates pool k = []) || (0 <? swrap 32 (nth k (issueLatencies pool) 0))) (seq 0 (length (issueLatencies pool))) = true) by (vm_compute; reflexivity).
      rewrite forallb_forall in Hall. specialize (Hall k ltac:(apply in_seq; cbn in Hlt; lia)). apply orb_true_iff in Hall as [Hall%bool_decide_eq_true|Hall%Z.ltb_lt]; [done|].
      by rewrite (nth_lookup_Some _ _ _ _ Hn) in Hall.
Qed.

(** Membership in lists that are given. *)
Lemma flight_concat L p : in_flight L p <-> p ∈ concat L.
Proof.
  unfold in_flight. rewrite list_elem_of_In, in_concat. split.
  - intros (t & l & Hl & Hp). exists l. rewrite <- !list_elem_of_In. split; [by eapply list_elem_of_lookup_2|done].
  - intros (l & Hl & Hp). rewrite <- list_elem_of_In in Hl; rewrite <- list_elem_of_In in Hp. apply list_elem_of_lookup_1 in Hl as [t Hl]. eauto.
Qed.

Lemma queues_concat (qs : list (list Z)) p n l : p ∉ concat qs -> qs !! n = Some l -> p ∉ l.
Proof. intros Hp Hn Hl. apply Hp. apply flight_concat. by exists n, l. Qed.

Lemma add_ok sn srcs dests : Forall (fun x => (fst x < 4)%nat) srcs -> Forall (fun k => (k < 4)%nat) dests -> NoDup dests -> (length srcs < 128)%nat -> (length dests < 128)%nat ->
  inst_ok regs (add sn srcs dests).
Proof.
  intros H1 H2 H3 H4 H5. assert (Hreg : forall k, (k < 4)%nat -> is_Some (regs !! R k)) by (intros k Hk; do 4 (destruct k as [|k]; [eexists; vm_compute; reflexivity|]); lia).
  split; cbn [add src_regs src_ready dest_regs numSrcRegs base operands staticInst renamedSrcIdx readySrcIdx renamedDestIdx srcRegs stat op_class flags SquashedInIQ MemOpDone].
  - unfold src_regs, src_ready, numSrcRegs. simpl. by rewrite !length_map.
  - unfold real_dests, dest_regs. simpl. rewrite length_map. split; [done|]. apply NoDup_filter, NoDup_fmap_2; [intros x y [=]; done|done].
  - unfold src_regs, dest_regs. simpl. rewrite Forall_app, !Forall_fmap. split; (eapply Forall_impl; [eassumption|]); simpl; auto.
  - unfold src_regs, src_ready. simpl. intros k r Hr Hf. rewrite list_lookup_fmap in Hr. apply fmap_Some in Hr as (x & _ & ->). done.
  - unfold Num_OpClasses. lia.
  - split; [done|]. done.
Qed.

(** An instruction that is younger than all in the queue and does not write what they
    read can be dispatched. *)
Lemma can_dispatch s p i : heap s !! p = Some i -> inst_ok (file s) i -> holds i = true -> inst_thread i = 0%nat ->
  Forall (fun x => x < p) (concat (instList (iq s))) -> Forall (fun x => x < p) (concat (readyInsts (ready (iq s)))) -> freeEntries (iq s) <> 0 ->
  (forall r, r ∈ dest_regs i -> r ∉ src_regs i) ->
  (forall x, x ∈ concat (instList (iq s)) -> exists j, heap s !! x = Some j /\ inst_thread j = 0%nat /\ forall r, r ∈ dest_regs i -> r ∉ src_regs j) ->
  dispatch_ok (M := MemDepUnit.MemDepUnit) s p i.
Proof.
  intros H1 H2 H3 H4 H5 H6 H7 H8 H9. rewrite Forall_forall in H5, H6. split; try done.
  - unfold MaxThreads. split_and!; try done. lia.
  - rewrite flight_concat. intros Hp. specialize (H5 p Hp). lia.
  - intros l x Hl Hx. apply H5, flight_concat. by eexists _, l.
  - intros n l. apply queues_concat. intros Hp. specialize (H6 p Hp). lia.
  - intros r Hr _. split; [by apply H8|]. intros x j Hx Hj. apply flight_concat in Hx. destruct (H9 x Hx) as (j' & Hj' & _ & Hno). rewrite Hj in Hj'. injection Hj' as <-. by apply Hno.
  - intros r d j _ _ Hd Hj _. apply flight_concat in Hd. destruct (H9 d Hd) as (j' & Hj' & Ht & _). rewrite Hj in Hj'. injection Hj' as <-. congruence.
Qed.

Lemma one_allowed : iq_allowed start (OInsert env 1).
Proof.
  exists (add 1 [] [1]%nat). split.
  - apply can_dispatch; [done| |done|done|constructor|vm_compute; constructor|done| |].
    + apply add_ok; repeat constructor; try (simpl; lia). by intros ?%not_elem_of_nil.
    + intros r _. apply not_elem_of_nil.
    + intros x. change (concat (instList (iq start))) with (@nil Z). by intros ?%not_elem_of_nil.
  - split; try done.
Qed.

Lemma one_reach : iq_reach config one.
Proof. apply (ir_op config start (OInsert env 1)); [by apply ir_init, start_initial|apply one_allowed|vm_compute; reflexivity]. Qed.

Lemma two_allowed : iq_allowed one (OInsert env 2).
Proof.
  exists (add 2 [(1%nat, false)] [2]%nat). split.
  - assert (El : concat (instList (iq one)) = [1]) by (vm_compute; reflexivity). apply can_dispatch; [vm_compute; reflexivity| |done|done| | |done| |].
    + assert (Ef : file one = regs) by (vm_compute; reflexivity). rewrite Ef. apply add_ok; repeat constructor; try (simpl; lia). by intros ?%not_elem_of_nil.
    + rewrite El. repeat constructor.
    + assert (Er : concat (readyInsts (ready (iq one))) = [1]) by (vm_compute; reflexivity). rewrite Er. repeat constructor.
    + intros r ->%list_elem_of_singleton. by intros ?%list_elem_of_singleton.
    + rewrite El. intros x ->%list_elem_of_singleton. eexists. split; [vm_compute; reflexivity|]. split; [done|]. intros r _. apply not_elem_of_nil.
  - split; try done.
Qed.

Lemma two_reach : iq_reach config two.
Proof. apply (ir_op config one (OInsert env 2)); [apply one_reach|apply two_allowed|vm_compute; reflexivity]. Qed.

Lemma config_size : 0 <= numEntries config < 2 ^ 31.
Proof. simpl. lia. Qed.
End SmallMachine.

Import SmallMachine.

Lemma iq_never_fails_witness : is_ok (iq_exec config OSchedule two) = true /\ freeEntries (iq two) + foldr Z.add 0 (count (iq two)) = 8.
Proof.
  destruct (iq_never_fails config two config_size two_reach) as (Hops & _ & Hsum & _). split; [exact (Hops OSchedule I)|exact Hsum].
Defined.

Lemma iq_wakeup_exact_witness : exists cs, rep (graph (iq two)) cs /\ occ 2 (concat (map snd cs)) = 1%nat /\ forall l, readyInsts (ready (iq two)) !! 1%nat = Some l -> 2 ∉ l.
Proof.
  destruct (iq_wakeup_exact config two config_size two_reach) as (cs & Hrep & _ & Hall). exists cs. split; [exact Hrep|].
  destruct (Hall 2 (setInIQ (add 2 [(1%nat, false)] [2]%nat))) as [Hg Hq]; [apply flight_concat; vm_compute; right; left|vm_compute; reflexivity|].
  destruct (Hg eq_refl) as [Hsum _]. split; [exact Hsum|]. intros l Hl Hin. destruct (Hq eq_refl eq_refl l Hl) as [_ Hiff]. apply Hiff in Hin as [_ Hz].
  change (0 + occ 2 (concat (map snd cs)) = 1)%nat in Hsum. change (occ 2 (concat (map snd cs)) = 0)%nat in Hz. lia.
Defined.


Lemma iq_squash_exact_witness : exists s', squash 0 1 two = Ok s' /\ instList (iq s') !! 0%nat = Some [1] /\ count (iq s') !! 0%nat = Some 1.
Proof.
  destruct (iq_squash_exact config two 0 1 [1; 2] config_size two_reach) as (s' & cs & cs' & Hrun & Hl & _ & _ & _ & _ & _ & _ & _ & Hc).
  - vm_compute. reflexivity.
  - intros p i Hp Hlt Hi. apply elem_of_cons in Hp as [->|Hp]; [lia|]. apply list_elem_of_singleton in Hp as ->. vm_compute in Hi. injection Hi as <-. intros Hg. vm_compute in Hg. discriminate Hg.
  - exists s'. split; [exact Hrun|]. split; [rewrite Hl; vm_compute; reflexivity|]. rewrite Hc. vm_compute. reflexivity.
Defined.
